(* ===== verification/_CoqProject ===== *)
-Q . S2P
Prelude.v
Ring.v
CType.v
Logger.v
LoggerRefine.v
LoggerProps.v
Wakelock.v
WakelockInv.v
WakelockProps.v
WakelockApi.v
EarlySuspend.v
EarlySuspendProps.v
LowMemoryKiller.v
RbTree.v
RbTreeProps.v
RbKeyed.v
RbIndex.v
BinderAlloc.v
BinderLayout.v
BinderAllocInv.v
BinderRelease.v
BinderTake.v
BinderAllocProps.v
BinderProtocol.v
BinderCore.v
BinderRefs.v
BinderGraph.v
BinderRun.v
BinderRefsInv.v
BinderTransaction.v
BinderThread.v
BinderDevice.v
BinderInv.v
BinderTranslate.v
BinderObjects.v
BinderReply.v
BinderNodes.v
BinderExamples.v
UserWakelock.v
UserWakelockProps.v
Ashmem.v
AshmemInv.v
AshmemPin.v
AshmemUnpin.v
AshmemSteps.v
AshmemProps.v
Pmem.v
PmemBitmap.v
PmemTable.v
PmemBuddy.v
PmemProps.v
PmemVm.v
PmemFile.v
PmemSystem.v
PmemApi.v
PmemIsolation.v
PmemMapping.v
PmemCalls.v
PmemRevoke.v
PmemFileProps.v
Sort.v
ListSort.v
KFifo.v
KFifoProps.v
KFifoDma.v
Kstrtox.v
Vsprintf.v
VsprintfNumber.v
VsprintfProps.v
VsprintfArrays.v
VsprintfRoundTrip.v
Vsscanf.v
RamConsole.v
TimedOutput.v
Crc32.v
Idr.v
IdrProps.v
IdrCorrect.v
IdrWalk.v
AshmemExport.v
