(* ===== verification/Prelude.v ===== *)
(** * Verification of the Android services of the ZTE Blade kernel

    The repository is Linux 2.6.38.6 for the ZTE Blade, an ARMv6 phone with a
    Qualcomm MSM7227.  This library verifies the parts that make it an Android
    kernel, together with the library code they stand on.  A model is a
    translation of the C code into functions on an explicit state, written by
    hand and executable; the theorems are about these functions.

    ** The parts and how they interact

    - The log devices (drivers/staging/android/logger.c) keep four rings of
      variable-length entries with any number of readers.
    - The wake locks (kernel/power/wakelock.c) decide when the system may go
      to sleep.  Early suspend (kernel/power/earlysuspend.c) and the wake
      locks of user space (kernel/power/userwakelock.c) are their clients;
      the latter keep their locks in a red-black tree (lib/rbtree.c).
    - The low memory killer (drivers/staging/android/lowmemorykiller.c)
      selects a process to kill when memory is short.
    - Ashmem (mm/ashmem.c) is shared memory whose unpinned pages the kernel
      may take back.
    - Pmem (drivers/misc/pmem.c) hands out physically contiguous memory with
      one of four allocators, maps it into processes, and lets a process share
      parts of it with files that others connect to it.
    - Binder (drivers/staging/android/binder.c) carries calls between
      processes.  A process owns nodes and holds references to nodes of others;
      a transaction is copied into a buffer of the target's area, its objects
      are translated between the names of the two processes, and threads keep
      stacks of the calls they make and handle.  Its objects are in red-black
      trees.
    - The RAM console (drivers/staging/android/ram_console.c) keeps the messages
      of the kernel over a reboot.  The timed outputs
      (drivers/staging/android/timed_output.c, timed_gpio.c) switch a line on for
      a time that user space gives, such as that of the vibrator.
    - Under these are routines of the kernel's library: sorting (lib/sort.c,
      lib/list_sort.c), queues (kernel/kfifo.c), formatted output and input
      (lib/vsprintf.c), the strict conversion of strings to integers
      (lib/kstrtox.c), checksums (lib/crc32.c) and small integers that stand for
      pointers (lib/idr.c).

    ** Files

    - [Prelude]: machine integers, byte buffers, user memory, intrusive lists
      and the tactics and lemmas that all files share.  [Ring]: rings of bytes.
      [CType]: strings, character classes and the simple conversions.
    - [Logger]: the model of logger.c, one definition per handler
      ([logger_aio_write], [logger_read], [logger_ioctl], ...).
      [LoggerRefine] relates it to an abstract log, the sequence of all
      entries written; [LoggerProps] has the step relation of the four
      devices and the theorems.
    - [Wakelock]: the model of wakelock.c with its statistics and the suspend
      monitor of this board.  [WakelockInv]: the invariant of the three lists
      and the abstract state [held].  [WakelockProps]: the theorems.
    - [WakelockApi]: the interface between wakelock.c and its clients, the
      classes [WakeLockApi] (the calls) and [WakeLockLaws] (what they
      promise), with the instances that the model of wakelock.c provides.
    - [EarlySuspend], [EarlySuspendProps]: requests, the work queue thread and
      the handlers, as an interleaving of steps ([es_step]); proved against
      the interface.
    - [RbTree], [RbTreeProps]: insertion, erasure and traversal.
      [UserWakelock], [UserWakelockProps]: the two sysfs files; proved against
      the interface and the theorems on trees.
    - [RbKeyed], [RbIndex]: trees that are searched by a key, and a tree as the
      index of the entries of a table that belong to an owner.
    - [BinderAlloc]: the buffers of a process ([binder_mmap],
      [binder_alloc_buf], [binder_free_buf]) and the pages behind them.
      [BinderLayout], [BinderAllocInv]: the invariant;
      [BinderRelease], [BinderTake]: that releasing and taking a buffer keep
      it; [BinderAllocProps]: the theorems.
    - [BinderProtocol]: the commands of binder.h.  [BinderCore]: the state of
      the driver and the monad of its operations.  [BinderRefs]: nodes and
      references.  [BinderTransaction]: [binder_transaction], split at its
      labels into the choice of the target, the copy with the translation of
      objects, and the commit or the failure.  [BinderThread]: the commands of a
      write, the work of a read, and threads.  [BinderDevice]: the file
      operations and the deferred release.
    - [BinderGraph]: the pointers between processes, threads, nodes and
      references and their consistency.  [BinderRun]: inversion of runs and what
      leaves the graph alone.  [BinderRefsInv], with the results of the lookups, and [BinderInv]: every operation
      keeps it consistent; the step relation [binder_step] of all calls of the
      device.
    - [BinderTranslate], [BinderObjects]: what objects name
      before and after a transaction.  [BinderReply]: replies
      and replies that fail.  [BinderNodes]: what user space is told about its
      nodes.  [BinderExamples]: runs of the driver from its initial state, which
      instantiate the theorems, and two that go wrong.
    - [LowMemoryKiller]: the shrinker, its helpers and its theorems.
    - [Ashmem]: the model of ashmem.c.  [AshmemInv]: the store of ranges, the
      lists and the page count.  [AshmemPin], [AshmemUnpin]: what pinning,
      unpinning, the status request and the shrinker do to the sets of
      unpinned and of purged pages.  [AshmemSteps]: the invariant under every
      entry point.  [AshmemProps]: the theorems.  [AshmemExport]: the functions
      for other drivers, with the path of a file (fs/dcache.c).
    - [Pmem]: the model of the four allocators.  [PmemBitmap]: runs of bits in
      words.  [PmemTable]: the table of the bitmap allocator.  [PmemBuddy]:
      tilings by buddy blocks.  [PmemProps]: the theorems.
    - [PmemVm]: the state of the pmem driver, its monad and the functions on page
      tables it calls.  [PmemFile]: the file operations ([pmem_mmap],
      [pmem_connect], [pmem_remap], [pmem_revoke], [pmem_release], ...).
      [PmemSystem]: [pmem_setup] and the step relation [pmem_step] of the system
      calls.  [PmemApi]: the class [PmemAllocator], what an allocator promises to
      the file operations, with its instances.  [PmemIsolation], [PmemMapping],
      [PmemCalls]: the invariant and that every call keeps it.  [PmemRevoke]:
      revoking.  [PmemFileProps]: the theorems.
    - [Sort]: the heapsort on bytes and on elements.  [ListSort]: the
      merge sort of lists.
    - [KFifo]: queues of elements and of records.  [KFifoProps]: what they hold,
      and one reader beside one writer ([pipe_step]).  [KFifoDma]: scatter lists
      and the macros for one element.
    - [Kstrtox]: the strict conversions and their reference.
    - [Vsprintf]: formatted output, with the output as a parameter.
      [VsprintfNumber]: digits and fields.  [VsprintfProps]: the buffer.
      [VsprintfArrays]: the arrays on the stack.  [VsprintfRoundTrip]: printing
      and strict conversion.  [Vsscanf]: formatted input.
    - [RamConsole]: the console with its start after a reboot and the file of the
      old messages.  [TimedOutput]: the class, its file, which formats and parses
      with the models above, and the driver for GPIO lines.
    - [Crc32]: the checksum by tables, the program that makes the tables, and the
      checksum bit by bit.
    - [Idr]: the tree of an idr and all calls on it.  [IdrProps]: trees in order,
      what they hold, and the search for a free number.  [IdrCorrect]: each call,
      and sequences of calls against a map.  [IdrWalk]: walks, and faults.

    ** How code is represented

    An integer is a [Z]; where the C type can overflow or be converted, the
    reduction ([u16], [u32], [s32], ...) is written out.  The model is 32 bits
    wide and little-endian, as the device is.  A struct is a record, an array
    of bytes a list, memory that is shared by reference a finite map from
    identities to records, and a [struct list_head] list the list of the
    identities on it.  A section under a lock is one function; a handler that
    drops its lock in between is split there, and the interleavings are those
    of a step relation.  [None] is a failing [BUG_ON], a null or wild pointer,
    an access outside of an array, or missing fuel, and the theorems show that
    it does not occur, or name the runs in which it does.  Binder's operations
    are in a state monad with this failure.  An ioctl of binder that sleeps ends
    there and another definition continues it; the pointers of binder are
    addresses in tables of the objects that are allocated, so that a use of a
    freed object fails.  What the modelled code takes from elsewhere (clocks,
    user memory, whether an allocation succeeds, the result of a file
    operation, the process list) is an argument.

    ** What the theorems show

    - Logger: a write appends one whole entry or, on a fault, nothing; a read
      returns the oldest pending entry whole; from the initial state, under
      any interleaving without a fault behind a stale sample of the write
      offset, every offset of every log stays on a boundary of entries; the
      queries are exact.  One theorem shows the damage such a fault does.
    - Wake locks: the lists are consistent in every reachable state; lock,
      timed lock, unlock and expiry refine operations on finite maps; the
      suspend decision is exact and no expiry is lost; the statistics agree
      with each other; the monitor's record has room, or is overrun, under
      stated conditions.
    - Early suspend: the main lock follows the request on every interleaving,
      the thread settles, callbacks alternate.
    - User wake locks: each store and show file does to the named locks what
      it says; timeouts are rounded up.
    - Red-black trees: insertion and erasure keep balance, order and contents;
      traversal is in order.
    - Binder buffers: buffers and headers tile the area, every byte of them is on
      a mapped page, allocation is best fit and release merges; a new buffer shares no byte with
      another or with a header.  A mapping of another cache colour than the
      kernel's fails, and of at most three pages runs over the page array.
    - Binder: under any sequence of calls that complete the object graph stays
      consistent; a process has one reference per node, under the lowest free
      descriptor; every
      object of a transaction whose objects do not overlap arrives as the same
      node, and one that is passed back arrives as it was; a reply ends the call
      on both sides and the caller gets it or an error; failed replies unwind to
      a living sender; commands about a node settle.  Overlapping objects, and a
      thread that calls its own process, lead to the use of freed objects.
    - Low memory killer: which process is selected, and one victim at a time.
    - Ashmem: the invariant, as long as no request is for no page at all; pin,
      unpin and status are exact on pages; the
      shrinker purges the oldest ranges and no more than it must; a pin never
      misses a purge.  A file is taken for an ashmem file by its path alone: the
      theorems show for which files that is right and for which it faults.
    - Pmem: the word-wise search finds the lowest aligned run; table, bitmap
      and count stay in step, with the one case in which pages are lost; the
      buddy allocator keeps the region tiled by maximal free blocks.
    - Pmem files: on devices with a region and an allocator of their own, as
      long as no file is connected to another, a process sees its own files only, no call fails in the kernel, and the allocations are those
      of the open files; [pmem_setup] provides such a device; the release of a
      master takes the regions from the connected files.  Runs show where
      connected files keep memory that is not theirs.
    - Sorting: both sorts end within their arrays with the same elements in
      order; the merge sort is stable.
    - Queues: under any interleaving of one reader and one writer the bytes come
      out in order; records come out whole; scatter lists name the memory of the
      elements.
    - Formatted output: [vsnprintf] ends, writes the text as far as there is
      room, and nothing outside of its buffer but the variables of %n; no text is too long for its array
      on the stack; decimal digits and fields are right.  What is printed is read
      back by the strict conversions and by [vsscanf]; the strict conversions
      accept exactly the numbers of their type.
    - RAM console: after a reboot the file has the last messages as they were
      written; foreign contents of the memory are ignored.  Timed outputs: a line
      goes off within the limit of its device.
    - CRC-32: the code with tables computes what the code bit by bit does, and a
      change within 32 consecutive bits changes the checksum.
    - ID allocator: any sequence of calls by its rules answers as on a map, an allocation gives
      the lowest free number and does not fail once memory is set aside; the walk
      visits every pointer in order.  Examples show an entry that
      [idr_get_next] misses, a removal that hits another number, and what happens
      above 2^30.

    ** Fuel and bounds

    Loops that are not structural take fuel, and the theorems include that the
    fuel given is enough: the scan of a log for the next entry (as many steps
    as the log has bytes), the rebalancing after an erasure (the length of the
    path and two), the restarts of [ashmem_unpin] (one per range of the area),
    the candidates of [bitmap_allocate_contiguous] (one per bit), the buddy
    scan (one per slot), splits and merges (128, orders have 7 bits), failed
    replies of binder (one per transaction), the loops of the heapsort (one per
    byte), the digits of a number (22, octal digits of 64 bits, and four groups of
    five decimal ones), the rounds of a format (two per character, and one), the
    search in an idr (each way up is to a higher level, so that the square of the
    levels is enough) and its growth (one per level).  The walks over an idr take
    the fuel as an argument, more than there are numbers below its top.  The
    loops over commands, work and objects of binder have fuel from the sizes of the
    user's buffers and of the lists; more of it changes nothing ([write_loop_fuel],
    [read_loop_fuel], [translate_loop_fuel], [release_loop_fuel]).
    For the loops over the threads, nodes, references, buffers and stacks of a
    process that goes, whose fuel is the number of these objects, and over the
    stack of a caller this is not shown; a run in which it was too little would
    have no next state.
    Hypotheses bound what the code bounds elsewhere or not at all; each is
    stated in its theorem, such as at most 32768 quanta in a bitmap region.

    ** What is not modelled

    Of the parts above: the augmented-tree callbacks of rbtree.c, which no
    code of this board uses, the memory hotplug, removal and debugging
    options of pmem.c, and the binary variants of formatted output, which this
    configuration does not build; of binder the statistics, the transaction log and the
    files in debugfs, which are only printed, and wake-ups, since a sleeping
    reader of the model may be continued at any time; of the RAM console the error
    correction and the early start, which are not configured; of idr.c the ida,
    whose leaves are bitmaps, and readers without a lock.  The rest of the kernel
    (scheduler, memory management, file systems, networking, drivers, architecture
    code) appears only through the arguments named above.  Planned next: the counts of binder's references and
    its death notifications over runs of the device. *)

From stdpp Require Import base numbers list gmap.

Open Scope Z_scope.

(** ** Machine integers

    The board is a 32-bit little-endian ARM: [unsigned long], [size_t] and
    [unsigned int] have 32 bits, [int], [long] and [ssize_t] are their signed
    counterparts.  A machine integer is a [Z]; every operation of the C code
    that may wrap is followed by the matching truncation below. *)

Definition u8 (x : Z) : Z := x mod 2 ^ 8.
Definition s8 (x : Z) : Z := (x + 2 ^ 7) mod 2 ^ 8 - 2 ^ 7.
Definition u16 (x : Z) : Z := x mod 2 ^ 16.
Definition s16 (x : Z) : Z := (x + 2 ^ 15) mod 2 ^ 16 - 2 ^ 15.
Definition u32 (x : Z) : Z := x mod 2 ^ 32.
Definition s32 (x : Z) : Z := (x + 2 ^ 31) mod 2 ^ 32 - 2 ^ 31.
Definition u64 (x : Z) : Z := x mod 2 ^ 64.
Definition s64 (x : Z) : Z := (x + 2 ^ 63) mod 2 ^ 64 - 2 ^ 63.

Definition LONG_MAX : Z := 2 ^ 31 - 1.
Definition PAGE_SIZE : Z := 4096.
Definition PAGE_MASK : Z := u32 (- 4096).
Definition PAGE_ALIGN (x : Z) : Z := Z.land (u32 (x + 4095)) PAGE_MASK.

(** Error numbers (include/asm-generic/errno-base.h). *)
Definition EPERM : Z := 1.
Definition ESRCH : Z := 3.
Definition EINTR : Z := 4.
Definition EIO : Z := 5.
Definition EBADF : Z := 9.
Definition EAGAIN : Z := 11.
Definition ENOMEM : Z := 12.
Definition EFAULT : Z := 14.
Definition EBUSY : Z := 16.
Definition ENODEV : Z := 19.
Definition EINVAL : Z := 22.
Definition EMFILE : Z := 24.
Definition ENOTTY : Z := 25.
Definition ERANGE : Z := 34.
Definition ERESTARTSYS : Z := 512.

(** ** Bytes and buffers

    A C array of bytes is a [list Z] whose elements are below 256.  [memcpy]
    into a buffer is [splice]; it lengthens the list when the copy runs past
    the end, so "the length of the buffer is unchanged" is the memory-safety
    statement for a write. *)

Definition zlen {A} (l : list A) : Z := Z.of_nat (length l).

Definition bget (b : list Z) (i : Z) : Z := nth (Z.to_nat i) b 0.

Definition splice {A} (b : list A) (off : Z) (bs : list A) : list A :=
  take (Z.to_nat off) b ++ bs ++ drop (Z.to_nat off + length bs) b.

Definition bslice {A} (b : list A) (off n : Z) : list A :=
  take (Z.to_nat n) (drop (Z.to_nat off) b).

(** Little-endian encoding of an [n]-byte integer. *)
Fixpoint le_bytes (n : nat) (z : Z) : list Z :=
  match n with
  | O => []
  | S n' => z mod 256 :: le_bytes n' (z / 256)
  end.

Fixpoint le_Z (l : list Z) : Z :=
  match l with
  | [] => 0
  | b :: l' => b + 256 * le_Z l'
  end.

Definition is_byte (b : Z) : Prop := 0 <= b < 256.

(** ** User memory

    [um_bytes] holds the mapped user bytes, [um_limit] the address limit that
    [access_ok] checks (arch/arm/include/asm/uaccess.h). *)

Record umem := Umem { um_bytes : gmap Z Z; um_limit : Z }.

Definition access_ok (m : umem) (addr n : Z) : bool := addr + n <=? um_limit m.

Fixpoint read_prefix (m : gmap Z Z) (addr : Z) (n : nat) : list Z :=
  match n with
  | O => []
  | S n' =>
      match m !! addr with
      | Some b => b :: read_prefix m (addr + 1) n'
      | None => []
      end
  end.

(** The bytes [copy_from_user] stores at its destination and the number of
    bytes it could not copy: on a fault the rest of the destination is zeroed. *)
Definition copy_from_user (m : umem) (from n : Z) : list Z * Z :=
  if access_ok m from n then
    let got := read_prefix (um_bytes m) from (Z.to_nat n) in
    (got ++ replicate (Z.to_nat n - length got) 0, n - zlen got)
  else (replicate (Z.to_nat n) 0, n).

Fixpoint write_prefix (m : gmap Z Z) (addr : Z) (bs : list Z) : gmap Z Z * Z :=
  match bs with
  | [] => (m, 0)
  | b :: bs' =>
      match m !! addr with
      | Some _ => write_prefix (<[addr := b]> m) (addr + 1) bs'
      | None => (m, zlen bs)
      end
  end.

(** The user memory after [copy_to_user] and the number of bytes not copied. *)
Definition copy_to_user (m : umem) (to : Z) (bs : list Z) : umem * Z :=
  if access_ok m to (zlen bs) then
    let '(m', rest) := write_prefix (um_bytes m) to bs in
    (Umem m' (um_limit m), rest)
  else (m, zlen bs).

(** User bytes are bytes. *)
Definition bytes_ok (m : umem) : Prop := forall p b, um_bytes m !! p = Some b -> is_byte b.

(** ** Intrusive lists

    A [struct list_head] list is the list of the identities of its entries,
    head first (include/linux/list.h). *)

Definition list_add {A} (x : A) (l : list A) : list A := x :: l.
Definition list_add_tail {A} (x : A) (l : list A) : list A := l ++ [x].
Definition list_del `{EqDecision A} (x : A) (l : list A) : list A :=
  filter (fun y => y <> x) l.
Arguments list_del : simpl never.

(** ** Automation *)

(** Turn boolean comparisons in the hypotheses and the goal into propositions. *)
Ltac unbool :=
  repeat match goal with
  | H : (_ && _)%bool = true |- _ => apply andb_true_iff in H; destruct H
  | H : (_ || _)%bool = false |- _ => apply orb_false_iff in H; destruct H
  | H : (_ || _)%bool = true |- _ => apply orb_true_iff in H
  | H : (_ && _)%bool = false |- _ => apply andb_false_iff in H
  | H : negb _ = true |- _ => apply negb_true_iff in H
  | H : negb _ = false |- _ => apply negb_false_iff in H
  | H : (_ <? _) = true |- _ => apply Z.ltb_lt in H
  | H : (_ <? _) = false |- _ => apply Z.ltb_ge in H
  | H : (_ <=? _) = true |- _ => apply Z.leb_le in H
  | H : (_ <=? _) = false |- _ => apply Z.leb_gt in H
  | H : (_ =? _) = true |- _ => apply Z.eqb_eq in H
  | H : (_ =? _) = false |- _ => apply Z.eqb_neq in H
  end.

(** Case analysis on the tests of the code that the goal mentions. *)
Ltac case_if :=
  match goal with
  | |- context [if ?b then _ else _] => destruct b eqn:?
  end; unbool.

Create HintDb kernel.
Create Rewrite HintDb zlen.

(** ** Facts about truncation *)

Lemma u32_small x : 0 <= x < 2 ^ 32 -> u32 x = x.
Proof. intros. by apply Z.mod_small. Qed.

Lemma u32_range x : 0 <= u32 x < 2 ^ 32.
Proof. apply Z.mod_pos_bound; lia. Qed.

Lemma u16_small x : 0 <= x < 2 ^ 16 -> u16 x = x.
Proof. intros. by apply Z.mod_small. Qed.

Lemma s32_small x : - 2 ^ 31 <= x < 2 ^ 31 -> s32 x = x.
Proof. intros. unfold s32. rewrite Z.mod_small; lia. Qed.

Lemma s32_range x : - 2 ^ 31 <= s32 x < 2 ^ 31.
Proof. unfold s32. pose proof (Z.mod_pos_bound (x + 2 ^ 31) (2 ^ 32)). lia. Qed.

Lemma u64_small x : 0 <= x < 2 ^ 64 -> u64 x = x.
Proof. intros. by apply Z.mod_small. Qed.

Lemma u64_range x : 0 <= u64 x < 2 ^ 64.
Proof. apply Z.mod_pos_bound; lia. Qed.

Lemma s64_small x : - 2 ^ 63 <= x < 2 ^ 63 -> s64 x = x.
Proof. intros. unfold s64. rewrite Z.mod_small; lia. Qed.

Lemma s32_u32 x : s32 (u32 x) = s32 x.
Proof. unfold s32, u32. by rewrite Zplus_mod_idemp_l. Qed.

(** [n & (2^k - 1)] is the remainder modulo [2^k]. *)
Lemma land_pow2_mod n k : 0 <= k -> Z.land n (2 ^ k - 1) = n mod 2 ^ k.
Proof.
  intros Hk. rewrite <- Z.land_ones by done. f_equal.
  rewrite Z.ones_equiv. lia.
Qed.

(** [x & PAGE_MASK] is the start of the page of [x]. *)
Lemma land_page_mask x : 0 <= x < 2 ^ 32 -> Z.land x PAGE_MASK = x / PAGE_SIZE * PAGE_SIZE.
Proof.
  intros Hx. unfold PAGE_SIZE.
  replace (x / 4096 * 4096) with (Z.shiftl (Z.shiftr x 12) 12)
    by (by rewrite Z.shiftl_mul_pow2, Z.shiftr_div_pow2 by lia).
  apply Z.bits_inj'. intros n Hn. rewrite Z.land_spec.
  change PAGE_MASK with (Z.shiftl (Z.ones 20) 12).
  destruct (Z.lt_ge_cases n 12).
  - rewrite !Z.shiftl_spec_low by lia. apply andb_false_r.
  - rewrite !Z.shiftl_spec, Z.shiftr_spec by lia. replace (n - 12 + 12) with n by lia.
    rewrite Z.testbit_ones_nonneg by lia. destruct (Z.ltb_spec (n - 12) 20); [by rewrite andb_true_r|].
    rewrite andb_false_r. symmetry. apply (Z.bits_above_log2 x); [lia|].
    destruct (Z.eq_dec x 0) as [->|]; [cbn; lia|]. apply Z.log2_lt_pow2; [lia|].
    eapply Z.lt_le_trans; [apply Hx|]. apply Z.pow_le_mono_r; lia.
Qed.

#[export] Hint Resolve u32_range s32_range : kernel.

(** ** Lengths *)

Lemma zlen_nonneg {A} (l : list A) : 0 <= zlen l.
Proof. unfold zlen. lia. Qed.

Lemma zlen_nil {A} : zlen (@nil A) = 0.
Proof. reflexivity. Qed.

Lemma zlen_cons {A} (x : A) l : zlen (x :: l) = 1 + zlen l.
Proof. unfold zlen. rewrite length_cons. lia. Qed.

Lemma zlen_app {A} (l k : list A) : zlen (l ++ k) = zlen l + zlen k.
Proof. unfold zlen. rewrite length_app. lia. Qed.

Lemma zlen_replicate {A} n (x : A) : zlen (replicate n x) = Z.of_nat n.
Proof. unfold zlen. by rewrite length_replicate. Qed.

Lemma zlen_take {A} n (l : list A) : zlen (take n l) = Z.min (Z.of_nat n) (zlen l).
Proof. unfold zlen. rewrite length_take. lia. Qed.

Lemma zlen_drop {A} n (l : list A) : zlen (drop n l) = Z.max 0 (zlen l - Z.of_nat n).
Proof. unfold zlen. rewrite length_drop. lia. Qed.

Lemma zlen_le_bytes n z : zlen (le_bytes n z) = Z.of_nat n.
Proof.
  revert z. induction n as [|n IH]; intros z; [done |].
  cbn [le_bytes]. rewrite zlen_cons, IH. lia.
Qed.

#[export] Hint Rewrite @zlen_nil @zlen_cons @zlen_app @zlen_replicate zlen_le_bytes @zlen_take
  @zlen_drop : zlen.
#[export] Hint Resolve zlen_nonneg : kernel.

(** ** Buffer reads after writes *)

Lemma zlen_splice {A} (b : list A) off bs :
  0 <= off -> off + zlen bs <= zlen b -> zlen (splice b off bs) = zlen b.
Proof.
  intros H1 H2. unfold splice. autorewrite with zlen. unfold zlen in *. lia.
Qed.

Lemma bget_splice b off bs i :
  0 <= off -> off + zlen bs <= zlen b -> 0 <= i ->
  bget (splice b off bs) i =
    if (off <=? i) && (i <? off + zlen bs) then bget bs (i - off) else bget b i.
Proof.
  intros Hoff Hlen Hi. unfold bget, splice, zlen in *.
  assert (length (take (Z.to_nat off) b) = Z.to_nat off) as Ht.
  { rewrite length_take. lia. }
  case_if.
  - rewrite app_nth2 by lia. rewrite Ht, app_nth1 by lia. f_equal. lia.
  - destruct (Z.ltb_spec i off).
    + rewrite app_nth1 by lia. rewrite <- (take_drop (Z.to_nat off) b) at 2.
      rewrite app_nth1 by lia. done.
    + assert (off + Z.of_nat (length bs) <= i) by (destruct Heqb0; unbool; lia).
      rewrite app_nth2, app_nth2 by (rewrite ?Ht; lia). rewrite Ht.
      rewrite <- (take_drop (Z.to_nat off + length bs) b) at 2.
      rewrite (app_nth2 (take _ b)) by (rewrite length_take; lia).
      f_equal. rewrite length_take. lia.
Qed.

Lemma bget_app b1 b2 i :
  0 <= i ->
  bget (b1 ++ b2) i = if i <? zlen b1 then bget b1 i else bget b2 (i - zlen b1).
Proof.
  intros Hi. unfold bget, zlen. case_if.
  - rewrite app_nth1 by lia. done.
  - rewrite app_nth2 by lia. f_equal. lia.
Qed.

Lemma bget_ext b1 b2 :
  zlen b1 = zlen b2 -> (forall i, 0 <= i < zlen b1 -> bget b1 i = bget b2 i) -> b1 = b2.
Proof.
  unfold zlen, bget. intros Hl Hi. apply (nth_ext _ _ 0 0); [lia |].
  intros n Hn. specialize (Hi (Z.of_nat n)). rewrite Nat2Z.id in Hi. apply Hi. lia.
Qed.

Lemma bget_bslice b off n i :
  0 <= off -> 0 <= i < n -> bget (bslice b off n) i = bget b (off + i).
Proof.
  intros Ho Hi. unfold bget, bslice.
  rewrite nth_firstn, nth_skipn.
  destruct (Nat.ltb_spec (Z.to_nat i) (Z.to_nat n)); [f_equal |]; lia.
Qed.

(** ** Values read from user memory *)

Lemma le_Z_range (l : list Z) : Forall is_byte l -> 0 <= le_Z l < 256 ^ zlen l.
Proof.
  induction 1 as [|b l Hb Hl IH]; [unfold zlen; cbn; lia|]. cbn [le_Z].
  rewrite zlen_cons, Z.pow_add_r by (pose proof (zlen_nonneg l); lia).
  unfold is_byte in Hb. lia.
Qed.

Lemma copy_from_user_bytes m p n :
  bytes_ok m -> Forall is_byte (copy_from_user m p n).1 /\ (zlen (copy_from_user m p n).1 = Z.max 0 n).
Proof.
  intros Hm. assert (forall k, Forall is_byte (replicate k 0)) as Hz.
  { intros k. apply Forall_replicate. unfold is_byte. lia. }
  assert (forall k q, Forall is_byte (read_prefix (um_bytes m) q k) /\
    (length (read_prefix (um_bytes m) q k) <= k)%nat) as Hp.
  { induction k as [|k IH]; intros q; cbn; [by split; [constructor|lia]|].
    destruct (um_bytes m !! q) as [b|] eqn:E; [|split; [constructor|cbn; lia]].
    destruct (IH (q + 1)). split; [constructor; [by apply (Hm q)|done]|cbn; lia]. }
  unfold copy_from_user. destruct (Hp (Z.to_nat n) p) as [H1 H2]. case_if; cbn [fst].
  - rewrite Forall_app. split; [done|]. rewrite zlen_app, zlen_replicate. unfold zlen. lia.
  - split; [done|]. rewrite zlen_replicate. lia.
Qed.

(** ** Lists *)

Lemma Forall2_impl_in {A B} (P Q : A -> B -> Prop) l k :
  Forall2 P l k -> (forall x y, x ∈ l -> y ∈ k -> P x y -> Q x y) -> Forall2 Q l k.
Proof.
  induction 1 as [|x y l k Hxy _ IH]; intros HPQ; constructor.
  - apply HPQ; [left | left | done].
  - apply IH. intros x' y' Hx Hy. apply HPQ; by right.
Qed.

(** ** Removal from an intrusive list *)

Lemma elem_of_list_del `{EqDecision A} (x y : A) l : x ∈ list_del y l <-> x <> y /\ x ∈ l.
Proof. unfold list_del. by rewrite list_elem_of_filter. Qed.

Lemma list_del_notin `{EqDecision A} (x : A) l : x ∉ l -> list_del x l = l.
Proof.
  intros H. unfold list_del. induction l as [|y l IH]; [done|].
  apply not_elem_of_cons in H as [Hy Hl]. by rewrite filter_cons_True, IH by done.
Qed.

Lemma list_del_head `{EqDecision A} (x : A) l : list_del x (x :: l) = list_del x l.
Proof. unfold list_del. by rewrite filter_cons_False by naive_solver. Qed.

Lemma list_del_cons_ne `{EqDecision A} (x y : A) l : x <> y -> list_del x (y :: l) = y :: list_del x l.
Proof. intros H. unfold list_del. by rewrite filter_cons_True. Qed.

Lemma list_del_app `{EqDecision A} (x : A) l k : list_del x (l ++ k) = list_del x l ++ list_del x k.
Proof. unfold list_del. apply filter_app. Qed.

Lemma NoDup_list_del `{EqDecision A} (x : A) l : NoDup l -> NoDup (list_del x l).
Proof. unfold list_del. apply NoDup_filter. Qed.

Lemma length_list_del `{EqDecision A} (x : A) l : (length (list_del x l) <= length l)%nat.
Proof. unfold list_del. apply length_filter. Qed.
