(* ===== verification/Ring.v ===== *)
(** * Byte rings

    Facts shared by the ring buffers of the development: what a ring holds
    from a given offset on, and what a write that may wrap around the end of
    the buffer does to it. *)

From stdpp Require Import base numbers list gmap.
From S2P Require Import Prelude.

(** The ring [b] holds the bytes [bs] from offset [p] on, wrapping around. *)
Definition ring_holds (b : list Z) (p : Z) (bs : list Z) : Prop :=
  forall i, 0 <= i < zlen bs -> bget b ((p + i) mod zlen b) = bget bs i.

(** A write of [bs] at [w] in two pieces: up to the end of the buffer, then
    from its start. *)
Definition ring_put (b : list Z) (w : Z) (bs : list Z) : list Z :=
  let l := Z.min (zlen bs) (zlen b - w) in
  splice (splice b w (bslice bs 0 l)) 0 (bslice bs l (zlen bs - l)).

Lemma zlen_bslice {A} (b : list A) off n :
  0 <= off -> 0 <= n -> off + n <= zlen b -> zlen (bslice b off n) = n.
Proof. intros. unfold bslice. autorewrite with zlen. lia. Qed.

Lemma bslice_all {A} (b : list A) n : n = zlen b -> bslice b 0 n = b.
Proof.
  intros ->. unfold bslice, zlen. rewrite Nat2Z.id. simpl. by rewrite drop_0, firstn_all.
Qed.

Lemma bslice_nil {A} (b : list A) off : bslice b off 0 = [].
Proof. reflexivity. Qed.

Lemma splice_nil {A} (b : list A) off : splice b off [] = b.
Proof. unfold splice. simpl. rewrite Nat.add_0_r. apply take_drop. Qed.

Lemma ring_put_nil b w : ring_put b w [] = b.
Proof. unfold ring_put, bslice. by rewrite !drop_nil, !take_nil, !splice_nil. Qed.

(** Offsets modulo the size of the ring: one subtraction decides them. *)
Lemma mod_once x n : 0 <= x < 2 * n -> x mod n = if x <? n then x else x - n.
Proof.
  intros H. case_if.
  - apply Z.mod_small. lia.
  - symmetry. apply Z.mod_unique with 1; lia.
Qed.

Lemma mod_once_neg x n : - n <= x < n -> x mod n = if x <? 0 then x + n else x.
Proof.
  intros H. case_if.
  - symmetry. apply Z.mod_unique with (-1); lia.
  - apply Z.mod_small. lia.
Qed.

Section Put.
Context (b : list Z) (w : Z) (bs : list Z).
Hypothesis Hw : 0 <= w < zlen b.
Hypothesis Hfit : zlen bs <= zlen b.

Let l := Z.min (zlen bs) (zlen b - w).

Lemma ring_put_lens :
  zlen (bslice bs 0 l) = l /\ zlen (bslice bs l (zlen bs - l)) = zlen bs - l.
Proof.
  pose proof (zlen_nonneg bs). split; apply zlen_bslice; unfold l; lia.
Qed.

Lemma zlen_ring_put : zlen (ring_put b w bs) = zlen b.
Proof.
  destruct ring_put_lens as [H1 H2]. pose proof (zlen_nonneg bs). unfold ring_put. fold l.
  rewrite zlen_splice; rewrite ?zlen_splice; rewrite ?H1, ?H2; unfold l; lia.
Qed.

(** The byte at [j] is the one written at distance [(j - w) mod size], or the
    old one when the write does not reach that far. *)
Lemma bget_ring_put j :
  0 <= j < zlen b ->
  bget (ring_put b w bs) j =
    if (j - w) mod zlen b <? zlen bs then bget bs ((j - w) mod zlen b) else bget b j.
Proof.
  intros Hj. destruct ring_put_lens as [H1 H2]. pose proof (zlen_nonneg bs).
  unfold ring_put. fold l.
  rewrite bget_splice by (rewrite ?zlen_splice; rewrite ?H1, ?H2; unfold l; lia).
  rewrite bget_splice by (rewrite ?H1; unfold l; lia).
  rewrite H1, H2, mod_once_neg by lia.
  destruct (Z.ltb_spec (j - w) 0);
    repeat case_if; rewrite ?bget_bslice by (unfold l in *; lia);
    unfold l in *; try (f_equal; lia); destruct_or?; unbool; lia.
Qed.

Lemma ring_put_same : ring_holds (ring_put b w bs) w bs.
Proof.
  intros i Hi. rewrite zlen_ring_put, bget_ring_put by (apply Z.mod_pos_bound; lia).
  rewrite Zminus_mod_idemp_l. replace (w + i - w) with i by lia.
  rewrite Z.mod_small by lia. case_if; [done | lia].
Qed.

(** Bytes that end where the write starts survive it when both fit. *)
Lemma ring_put_other p xs :
  (p + zlen xs) mod zlen b = w -> zlen xs + zlen bs <= zlen b ->
  ring_holds b p xs -> ring_holds (ring_put b w bs) p xs.
Proof.
  intros Hp Hroom Hxs i Hi.
  rewrite zlen_ring_put, bget_ring_put by (apply Z.mod_pos_bound; lia).
  assert (((p + i) mod zlen b - w) mod zlen b = zlen b + i - zlen xs) as ->.
  { rewrite <- Hp, <- Zminus_mod.
    replace (p + i - (p + zlen xs)) with (i - zlen xs) by lia.
    pose proof (zlen_nonneg bs). rewrite mod_once_neg by lia. case_if; lia. }
  case_if; [lia | by apply Hxs].
Qed.
End Put.

Lemma ring_holds_nil b p : ring_holds b p [].
Proof. intros i Hi. change (zlen []) with 0 in Hi. lia. Qed.

Lemma ring_holds_app b p xs ys :
  ring_holds b p (xs ++ ys) <->
  ring_holds b p xs /\ ring_holds b ((p + zlen xs) mod zlen b) ys.
Proof.
  pose proof (zlen_nonneg xs). pose proof (zlen_nonneg ys).
  unfold ring_holds. setoid_rewrite zlen_app. split.
  - intros H'. split; intros i Hi.
    + rewrite H', bget_app by lia. case_if; [done | lia].
    + rewrite Zplus_mod_idemp_l.
      replace (p + zlen xs + i) with (p + (zlen xs + i)) by lia.
      rewrite H', bget_app by lia. case_if; [lia | f_equal; lia].
  - intros [Hx Hy] i Hi. rewrite bget_app by lia. case_if.
    + apply Hx. lia.
    + rewrite <- (Hy (i - zlen xs)), Zplus_mod_idemp_l by lia. do 2 f_equal. lia.
Qed.

#[export] Hint Resolve ring_holds_nil : kernel.
