(* ===== verification/CType.v ===== *)
(** * Characters and numbers (lib/ctype.c, lib/vsprintf.c)

    A C string is the list of its bytes without the terminator; reading the
    terminator gives 0.  Character classes, and the conversions of lib/vsprintf.c
    that read a number and leave the rest of the string. *)

From Stdlib Require Export Ascii.
From stdpp Require Export base numbers list strings.
From S2P Require Import Prelude.

Open Scope Z_scope.

(** ** Characters *)

(** The code of a character and the bytes of a string. *)
Definition chr (a : Ascii.ascii) : Z := Z.of_N (Ascii.N_of_ascii a).
Arguments chr _%_char.
Definition str (s : string) : list Z := chr <$> String.list_ascii_of_string s.
Arguments str _%_string.

Definition isspace (c : Z) : bool :=
  ((9 <=? c) && (c <=? 13)) || (c =? 32) || (c =? 160).
Definition isdigit (c : Z) : bool := (48 <=? c) && (c <=? 57).
Definition isxdigit (c : Z) : bool :=
  isdigit c || ((65 <=? c) && (c <=? 70)) || ((97 <=? c) && (c <=? 102)).
Definition isupper (c : Z) : bool :=
  ((65 <=? c) && (c <=? 90)) || ((192 <=? c) && (c <=? 214)) || ((216 <=? c) && (c <=? 222)).
Definition islower (c : Z) : bool :=
  ((97 <=? c) && (c <=? 122)) || ((223 <=? c) && (c <=? 246)) || ((248 <=? c) && (c <=? 255)).
Definition isalnum (c : Z) : bool := isupper c || islower c || isdigit c.
Definition toupper (c : Z) : Z := if islower c then c - 32 else c.
Definition TOLOWER (c : Z) : Z := Z.lor c 32.

(** The character at the pointer. *)
Definition ch (s : list Z) : Z := match s with [] => 0 | c :: _ => c end.

Fixpoint skip_space (s : list Z) : list Z :=
  match s with
  | c :: s' => if isspace c then skip_space s' else s
  | [] => []
  end.

(** ** Numbers *)

Definition simple_guess_base (s : list Z) : Z :=
  if ch s =? 48 then
    if (TOLOWER (ch (drop 1 s)) =? 120) && isxdigit (ch (drop 2 s)) then 16 else 8
  else 10.

Fixpoint strtoull_loop (base : Z) (s : list Z) (result : Z) : Z * list Z :=
  match s with
  | c :: s' =>
      if isxdigit c then
        let value := if isdigit c then c - 48 else TOLOWER c - 97 + 10 in
        if base <=? value then (result, s)
        else strtoull_loop base s' ((result * base + value) mod 2 ^ 64)
      else (result, s)
  | [] => (result, [])
  end.

(** With [base] 0 the base is guessed from the prefix. *)
Definition simple_strtoull (s : list Z) (base : Z) : Z * list Z :=
  let base := if base =? 0 then simple_guess_base s else base in
  let s1 := if (base =? 16) && (ch s =? 48) && (TOLOWER (ch (drop 1 s)) =? 120)
            then drop 2 s else s in
  strtoull_loop base s1 0.

Definition simple_strtoul (s : list Z) (base : Z) : Z * list Z :=
  let '(v, r) := simple_strtoull s base in (u32 v, r).

Definition simple_strtol (s : list Z) (base : Z) : Z * list Z :=
  if ch s =? chr "-" then let '(v, r) := simple_strtoul (drop 1 s) base in (s32 (- v), r)
  else let '(v, r) := simple_strtoul s base in (s32 v, r).

Definition simple_strtoll (s : list Z) (base : Z) : Z * list Z :=
  if ch s =? chr "-" then let '(v, r) := simple_strtoull (drop 1 s) base in (s64 (- v), r)
  else let '(v, r) := simple_strtoull s base in (s64 v, r).

Fixpoint atoi_loop (s : list Z) (i : Z) : Z * list Z :=
  match s with
  | c :: s' => if isdigit c then atoi_loop s' (s32 (i * 10 + c - 48)) else (i, s)
  | [] => (i, [])
  end.
Definition skip_atoi (s : list Z) : Z * list Z := atoi_loop s 0.

(** [strnlen]; [count] is unsigned. *)
Definition strnlen (s : list Z) (count : Z) : Z := Z.min (zlen s) count.
