(* ===== verification/Logger.v ===== *)
(** * The Android log devices (drivers/staging/android/logger.c)

    A [logger_log] is a ring of variable-length entries with one writer offset
    [w_off], a start offset [head] for new readers and one offset per open
    reader.  This file holds the model; [LoggerRefine] relates it to an
    abstract log of entries.

    All handlers run under [log->mutex], so each is one transition on the
    state.  [logger_read] releases the mutex between its test for data and its
    copy, and [logger_aio_write] samples [w_off] before it takes the mutex;
    both are split at those points. *)

From stdpp Require Import base numbers list gmap.
From S2P Require Import Prelude.

(** ** Data *)

Record logger_entry := LoggerEntry {
  len : Z; pad : Z; pid : Z; tid : Z; sec : Z; nsec : Z }.

Definition sizeof_logger_entry : Z := 20.
Definition LOGGER_ENTRY_MAX_LEN : Z := 4 * 1024.
Definition LOGGER_ENTRY_MAX_PAYLOAD : Z := LOGGER_ENTRY_MAX_LEN - sizeof_logger_entry.

(** The memory image of the header (no padding holes: 2+2+4+4+4+4 bytes). *)
Definition header_bytes (h : logger_entry) : list Z :=
  le_bytes 2 (len h) ++ le_bytes 2 (pad h) ++ le_bytes 4 (pid h) ++
  le_bytes 4 (tid h) ++ le_bytes 4 (sec h) ++ le_bytes 4 (nsec h).

Record logger_reader := LoggerReader { rd_id : nat; r_off : Z }.

Record logger_log := LoggerLog {
  buffer : list Z;
  minor : Z;
  readers : list logger_reader;
  w_off : Z;
  head : Z;
  size : Z }.

Definition set_buffer (l : logger_log) b :=
  LoggerLog b (minor l) (readers l) (w_off l) (head l) (size l).
Definition set_readers (l : logger_log) r :=
  LoggerLog (buffer l) (minor l) r (w_off l) (head l) (size l).
Definition set_w_off (l : logger_log) w :=
  LoggerLog (buffer l) (minor l) (readers l) w (head l) (size l).
Definition set_head (l : logger_log) h :=
  LoggerLog (buffer l) (minor l) (readers l) (w_off l) h (size l).

(** ** Ring helpers *)

Definition logger_offset (log : logger_log) (n : Z) : Z :=
  Z.land n (u32 (size log - 1)).

Definition get_entry_len (log : logger_log) (off : Z) : Z :=
  let val :=
    if u32 (size log - off) =? 1
    then bget (buffer log) off + 256 * bget (buffer log) 0
    else bget (buffer log) off + 256 * bget (buffer log) (off + 1) in
  u32 (sizeof_logger_entry + u16 val).

(** ** Reading *)

Definition find_reader (log : logger_log) (rid : nat) : option logger_reader :=
  List.find (fun r => Nat.eqb (rd_id r) rid) (readers log).

Definition set_r_off (rid : nat) (off : Z) (r : logger_reader) : logger_reader :=
  if Nat.eqb (rd_id r) rid then LoggerReader (rd_id r) off else r.

(** The result is the new user memory, the new log and the return value. *)
Definition do_read_log_to_user (log : logger_log) (reader : logger_reader)
    (m : umem) (buf count : Z) : umem * logger_log * Z :=
  let len := Z.min count (u32 (size log - r_off reader)) in
  let '(m1, left1) := copy_to_user m buf (bslice (buffer log) (r_off reader) len) in
  if negb (left1 =? 0) then (m1, log, - EFAULT)
  else
    let '(m2, left2) :=
      if negb (count =? len)
      then copy_to_user m1 (buf + len) (bslice (buffer log) 0 (count - len))
      else (m1, 0) in
    if negb (left2 =? 0) then (m2, log, - EFAULT)
    else
      let off := logger_offset log (u32 (r_off reader + count)) in
      (m2, set_readers log (set_r_off (rd_id reader) off <$> readers log), count).

(** One turn of the waiting loop of [logger_read]: leave it with data to read,
    leave it with an error, or sleep. *)
Inductive wait_result := WaitReady | WaitError (ret : Z) | WaitSchedule.

Definition logger_read_wait (log : logger_log) (reader : logger_reader)
    (nonblock signal : bool) : wait_result :=
  if negb (w_off log =? r_off reader) then WaitReady
  else if nonblock then WaitError (- EAGAIN)
  else if signal then WaitError (- EINTR)
  else WaitSchedule.

(** The second critical section; [None] is the [goto start] taken when the
    data is gone again. *)
Definition logger_read_locked (log : logger_log) (reader : logger_reader)
    (m : umem) (buf count : Z) : option (umem * logger_log * Z) :=
  if w_off log =? r_off reader then None
  else
    let ret := get_entry_len log (r_off reader) in
    if count <? ret then Some (m, log, - EINVAL)
    else Some (do_read_log_to_user log reader m buf ret).

(** ** Writing *)

(** The do-while loop of [get_next_entry]; [None] when the fuel is spent. *)
Fixpoint get_next_entry_loop (fuel : nat) (log : logger_log) (off count len : Z)
    : option Z :=
  match fuel with
  | O => None
  | S fuel' =>
      let nr := get_entry_len log off in
      let off' := logger_offset log (u32 (off + nr)) in
      let count' := u32 (count + nr) in
      if count' <? len then get_next_entry_loop fuel' log off' count' len
      else Some off'
  end.

Definition get_next_entry (log : logger_log) (off len : Z) : Z :=
  default off (get_next_entry_loop (S (Z.to_nat len)) log off 0 len).

Definition clock_interval (a b c : Z) : bool :=
  if b <? a then (a <? c) || (c <=? b)
  else (a <? c) && (c <=? b).

Definition fix_up_readers (log : logger_log) (len : Z) : logger_log :=
  let old := w_off log in
  let new := logger_offset log (u32 (old + len)) in
  let log1 :=
    if clock_interval old new (head log)
    then set_head log (get_next_entry log (head log) len) else log in
  set_readers log1
    ((fun r => if clock_interval old new (r_off r)
               then LoggerReader (rd_id r) (get_next_entry log (r_off r) len)
               else r) <$> readers log1).

Definition do_write_log (log : logger_log) (buf : list Z) (count : Z) : logger_log :=
  let len := Z.min count (u32 (size log - w_off log)) in
  let log1 := set_buffer log (splice (buffer log) (w_off log) (bslice buf 0 len)) in
  let log2 :=
    if negb (count =? len)
    then set_buffer log1 (splice (buffer log1) 0 (bslice buf len (count - len)))
    else log1 in
  set_w_off log2 (logger_offset log (u32 (w_off log + count))).

Definition do_write_log_from_user (log : logger_log) (m : umem) (buf count : Z)
    : logger_log * Z :=
  let len := Z.min count (u32 (size log - w_off log)) in
  let '(log1, left1) :=
    if negb (len =? 0) then
      let '(bs, rest) := copy_from_user m buf len in
      (set_buffer log (splice (buffer log) (w_off log) bs), rest)
    else (log, 0) in
  if negb (left1 =? 0) then (log1, - EFAULT)
  else
    let '(log2, left2) :=
      if negb (count =? len) then
        let '(bs, rest) := copy_from_user m (buf + len) (count - len) in
        (set_buffer log1 (splice (buffer log1) 0 bs), rest)
      else (log1, 0) in
    if negb (left2 =? 0) then (log2, - EFAULT)
    else (set_w_off log2 (logger_offset log2 (u32 (w_off log2 + count))), count).

(** A [struct iovec] of the caller: base address and length. *)
Record iovec := Iovec { iov_base : Z; iov_len : Z }.

(** The [while (nr_segs-- > 0)] loop; a failing segment restores [w_off]. *)
Fixpoint write_segs (log : logger_log) (m : umem) (orig hlen : Z)
    (iov : list iovec) (ret : Z) : logger_log * Z :=
  match iov with
  | [] => (log, ret)
  | v :: iov' =>
      let len := Z.min (iov_len v) (u32 (hlen - ret)) in
      let '(log', nr) := do_write_log_from_user log m (iov_base v) len in
      if nr <? 0 then (set_w_off log' orig, nr)
      else write_segs log' m orig hlen iov' (s32 (ret + nr))
  end.

(** What the writing task contributes to the header; [c_pad] is whatever the
    stack holds where [header.__pad] lies, which is never assigned. *)
Record writer := Writer {
  c_tgid : Z; c_pid : Z; c_sec : Z; c_nsec : Z; c_pad : Z }.

Definition write_header (c : writer) (ki_left : Z) : logger_entry :=
  LoggerEntry (u16 (Z.min ki_left LOGGER_ENTRY_MAX_PAYLOAD))
    (c_pad c) (c_tgid c) (c_pid c) (c_sec c) (c_nsec c).

(** The critical section of [logger_aio_write]. *)
Definition logger_aio_write_locked (log : logger_log) (m : umem) (orig : Z)
    (header : logger_entry) (iov : list iovec) : logger_log * Z :=
  let log1 := fix_up_readers log (sizeof_logger_entry + len header) in
  let log2 := do_write_log log1 (header_bytes header) sizeof_logger_entry in
  write_segs log2 m orig (len header) iov 0.

(** [orig] is read from the log before the mutex is taken: it is the value of
    [w_off] in an earlier state of the log. *)
Definition logger_aio_write_from (orig : Z) (log : logger_log) (m : umem)
    (c : writer) (ki_left : Z) (iov : list iovec) : logger_log * Z :=
  let header := write_header c ki_left in
  if len header =? 0 then (log, 0)
  else logger_aio_write_locked log m orig header iov.

(** The call when nothing runs between the sample and the lock. *)
Definition logger_aio_write (log : logger_log) (m : umem)
    (c : writer) (ki_left : Z) (iov : list iovec) : logger_log * Z :=
  logger_aio_write_from (w_off log) log m c ki_left iov.

(** ** Files, devices and the other file operations *)

Inductive log_id := log_main | log_events | log_radio | log_system.

#[export] Instance log_id_eq_dec : EqDecision log_id.
Proof. solve_decision. Defined.

Record logs := Logs {
  the_main : logger_log; the_events : logger_log;
  the_radio : logger_log; the_system : logger_log }.

Definition get_log (s : logs) (i : log_id) : logger_log :=
  match i with
  | log_main => the_main s | log_events => the_events s
  | log_radio => the_radio s | log_system => the_system s
  end.

Definition set_log (s : logs) (i : log_id) (l : logger_log) : logs :=
  match i with
  | log_main => Logs l (the_events s) (the_radio s) (the_system s)
  | log_events => Logs (the_main s) l (the_radio s) (the_system s)
  | log_radio => Logs (the_main s) (the_events s) l (the_system s)
  | log_system => Logs (the_main s) (the_events s) (the_radio s) l
  end.

Inductive private_data := PReader (l : log_id) (rid : nat) | PLog (l : log_id).

Record file := File {
  f_read : bool; f_write : bool; f_nonblock : bool; f_data : private_data }.

Definition file_get_log (f : file) : log_id :=
  match f_data f with
  | PReader l _ => l
  | PLog l => l
  end.

Definition get_log_from_minor (s : logs) (m : Z) : option log_id :=
  if minor (the_main s) =? m then Some log_main
  else if minor (the_events s) =? m then Some log_events
  else if minor (the_radio s) =? m then Some log_radio
  else if minor (the_system s) =? m then Some log_system
  else None.

(** [open_ret] is the result of [nonseekable_open], [rid] the reader that
    [kmalloc] returns, [None] when it fails. *)
Definition logger_open (s : logs) (open_ret m : Z) (fread fwrite nonblock : bool)
    (rid : option nat) : logs * (file + Z) :=
  if negb (open_ret =? 0) then (s, inr open_ret)
  else
    match get_log_from_minor s m with
    | None => (s, inr (- ENODEV))
    | Some i =>
        if fread then
          match rid with
          | None => (s, inr (- ENOMEM))
          | Some r =>
              let log := get_log s i in
              (set_log s i
                 (set_readers log
                    (list_add_tail (LoggerReader r (head log)) (readers log))),
               inl (File fread fwrite nonblock (PReader i r)))
          end
        else (s, inl (File fread fwrite nonblock (PLog i)))
    end.

Definition logger_release (s : logs) (f : file) : logs :=
  if f_read f then
    match f_data f with
    | PReader i rid =>
        let log := get_log s i in
        set_log s i
          (set_readers log (filter (fun r => rd_id r <> rid) (readers log)))
    | PLog _ => s
    end
  else s.

Definition POLLIN : Z := 1.
Definition POLLOUT : Z := 4.
Definition POLLRDNORM : Z := 64.
Definition POLLWRNORM : Z := 256.

Definition file_reader (s : logs) (f : file) : option logger_reader :=
  match f_data f with
  | PReader i rid => find_reader (get_log s i) rid
  | PLog _ => None
  end.

Definition logger_poll (s : logs) (f : file) : Z :=
  let ret := Z.lor POLLOUT POLLWRNORM in
  if negb (f_read f) then ret
  else
    match file_reader s f with
    | None => ret
    | Some reader =>
        if negb (w_off (get_log s (file_get_log f)) =? r_off reader)
        then Z.lor ret (Z.lor POLLIN POLLRDNORM) else ret
    end.

Inductive logger_cmd :=
  | LOGGER_GET_LOG_BUF_SIZE | LOGGER_GET_LOG_LEN | LOGGER_GET_NEXT_ENTRY_LEN
  | LOGGER_FLUSH_LOG | LOGGER_OTHER.

Definition log_len (log : logger_log) (reader : logger_reader) : Z :=
  if r_off reader <=? w_off log then w_off log - r_off reader
  else (size log - r_off reader) + w_off log.

Definition flush_log (log : logger_log) : logger_log :=
  set_head
    (set_readers log ((fun r => LoggerReader (rd_id r) (w_off log)) <$> readers log))
    (w_off log).

Definition logger_ioctl (s : logs) (f : file) (cmd : logger_cmd) : logs * Z :=
  let i := file_get_log f in
  let log := get_log s i in
  match cmd with
  | LOGGER_GET_LOG_BUF_SIZE => (s, size log)
  | LOGGER_GET_LOG_LEN =>
      if negb (f_read f) then (s, - EBADF)
      else
        match file_reader s f with
        | None => (s, - EBADF)
        | Some reader => (s, log_len log reader)
        end
  | LOGGER_GET_NEXT_ENTRY_LEN =>
      if negb (f_read f) then (s, - EBADF)
      else
        match file_reader s f with
        | None => (s, - EBADF)
        | Some reader =>
            (s, if negb (w_off log =? r_off reader)
                then get_entry_len log (r_off reader) else 0)
        end
  | LOGGER_FLUSH_LOG =>
      if negb (f_write f) then (s, - EBADF)
      else (set_log s i (flush_log log), 0)
  | LOGGER_OTHER => (s, - ENOTTY)
  end.

(** ** Initial state (DEFINE_LOGGER_DEVICE) *)

Definition define_logger_device (min : Z) (sz : Z) : logger_log :=
  LoggerLog (replicate (Z.to_nat sz) 0) min [] 0 0 sz.

Definition logger_devices (m1 m2 m3 m4 : Z) : logs :=
  Logs (define_logger_device m1 (64 * 1024)) (define_logger_device m2 (256 * 1024))
       (define_logger_device m3 (64 * 1024)) (define_logger_device m4 (64 * 1024)).

(** [init_log] registers the misc device; [logger_init] stops at the first
    failure.  [reg] gives the result of [misc_register] for each log. *)
Definition logger_init (reg : log_id -> Z) : Z :=
  if negb (reg log_main =? 0) then reg log_main
  else if negb (reg log_events =? 0) then reg log_events
  else if negb (reg log_radio =? 0) then reg log_radio
  else if negb (reg log_system =? 0) then reg log_system
  else 0.
