(* ===== verification/LoggerRefine.v ===== *)
(** * The log devices implement an abstract log

    The abstract log is the sequence of all entries ever written; every offset
    the driver keeps (the start offset for new readers and one per open reader)
    stands for the entries still to be read from there.  The theorems show that
    the ring arithmetic of logger.c implements this: writes append, readers get
    whole entries in order, and an offset the writer laps is moved forward over
    whole entries only. *)

From stdpp Require Import base numbers list gmap.
From S2P Require Import Prelude Ring Logger.

(** ** Entries and the abstraction *)

Record entry := Entry { e_hdr : logger_entry; e_msg : list Z }.

Definition encode (e : entry) : list Z := header_bytes (e_hdr e) ++ e_msg e.
Definition encodes (es : list entry) : list Z := concat (encode <$> es).

Arguments encode : simpl never.
Arguments encodes : simpl never.

Definition entry_ok (e : entry) : Prop :=
  len (e_hdr e) = zlen (e_msg e) /\ 0 < zlen (e_msg e) <= LOGGER_ENTRY_MAX_PAYLOAD.

(** The static facts about a log: what DEFINE_LOGGER_DEVICE asks of the size,
    the extent of the buffer and the range of the write offset. *)
Record log_ok (log : logger_log) : Prop := LogOk {
  ok_pow : exists k, 0 <= k < 31 /\ size log = 2 ^ k;
  ok_big : LOGGER_ENTRY_MAX_LEN < size log;
  ok_len : zlen (buffer log) = size log;
  ok_woff : 0 <= w_off log < size log }.

(** From offset [p] the ring holds exactly the entries [es], up to [w_off]. *)
Record pending (log : logger_log) (p : Z) (es : list entry) : Prop := Pending {
  pd_off : 0 <= p < size log;
  pd_ok : Forall entry_ok es;
  pd_fit : zlen (encodes es) < size log;
  pd_end : (p + zlen (encodes es)) mod size log = w_off log;
  pd_holds : ring_holds (buffer log) p (encodes es) }.

(** The abstract log: entries pending for new readers and for each reader. *)
Record alog := ALog { a_head : list entry; a_readers : list (nat * list entry) }.

Record refines (log : logger_log) (a : alog) : Prop := Refines {
  rf_ok : log_ok log;
  rf_head : pending log (head log) (a_head a);
  rf_readers : Forall2 (fun r ar => rd_id r = ar.1 /\ pending log (r_off r) ar.2)
                 (readers log) (a_readers a);
  rf_nodup : NoDup (rd_id <$> readers log) }.

(** ** Abstract operations *)

(** How many whole entries cover at least [n] bytes; at least one. *)
Fixpoint skip_count (n : Z) (es : list entry) : nat :=
  match es with
  | [] => 0
  | e :: es' =>
      if zlen (encode e) <? n then S (skip_count (n - zlen (encode e)) es') else 1
  end.

(** A pointer with no room for [n] more bytes before it is moved forward. *)
Definition advance (sz n : Z) (es : list entry) : list entry :=
  if (0 <? zlen (encodes es)) && (sz <=? zlen (encodes es) + n)
  then drop (skip_count n es) es else es.

Definition alog_map (f : list entry -> list entry) (a : alog) : alog :=
  ALog (f (a_head a)) ((fun ar => (ar.1, f ar.2)) <$> a_readers a).

Definition alog_write (sz : Z) (e : entry) (a : alog) : alog :=
  alog_map (fun es => advance sz (zlen (encode e)) es ++ [e]) a.

(** ** Encodings *)

Lemma zlen_header h : zlen (header_bytes h) = sizeof_logger_entry.
Proof. unfold header_bytes. rewrite !zlen_app, !zlen_le_bytes. done. Qed.

Lemma zlen_encode e : zlen (encode e) = sizeof_logger_entry + zlen (e_msg e).
Proof. unfold encode. by rewrite zlen_app, zlen_header. Qed.

Lemma encodes_cons e es : encodes (e :: es) = encode e ++ encodes es.
Proof. reflexivity. Qed.

Lemma encodes_app es1 es2 : encodes (es1 ++ es2) = encodes es1 ++ encodes es2.
Proof. unfold encodes. by rewrite fmap_app, concat_app. Qed.

Lemma encodes_one e : encodes [e] = encode e.
Proof. unfold encodes. simpl. by rewrite app_nil_r. Qed.

#[export] Hint Rewrite zlen_header zlen_encode : zlen.

Lemma entry_len_bounds e :
  entry_ok e -> sizeof_logger_entry < zlen (encode e) <= LOGGER_ENTRY_MAX_LEN.
Proof.
  intros [_ H]. rewrite zlen_encode. unfold LOGGER_ENTRY_MAX_PAYLOAD in H. lia.
Qed.

Lemma entry_encode_pos e : 0 < zlen (encode e).
Proof. rewrite zlen_encode. pose proof (zlen_nonneg (e_msg e)). unfold sizeof_logger_entry. lia. Qed.

(** ** Offsets *)

Section Log.
Context (log : logger_log) (Hok : log_ok log).

Lemma size_pos : 2 * LOGGER_ENTRY_MAX_LEN <= size log < 2 ^ 31.
Proof.
  destruct (ok_pow _ Hok) as (k & Hk & Hs). pose proof (ok_big _ Hok) as Hb.
  unfold LOGGER_ENTRY_MAX_LEN in *. rewrite Hs in *. change (4 * 1024) with (2 ^ 12) in *.
  apply Z.pow_lt_mono_r_iff in Hb; [| lia | lia].
  pose proof (Z.pow_lt_mono_r 2 k 31). pose proof (Z.pow_le_mono_r 2 13 k). lia.
Qed.

Lemma logger_offset_mod n : logger_offset log (u32 n) = n mod size log.
Proof.
  unfold logger_offset. destruct (ok_pow _ Hok) as (k & Hk & Hs).
  pose proof size_pos as Hsz. unfold LOGGER_ENTRY_MAX_LEN in Hsz.
  rewrite (u32_small (size log - 1)) by lia.
  rewrite Hs, land_pow2_mod by lia. unfold u32.
  apply Z.mod_mod_divide.
  exists (2 ^ (32 - k)). rewrite <- Z.pow_add_r by lia. f_equal. lia.
Qed.

Lemma pending_wf p es : pending log p es -> zlen (encodes es) = 0 <-> es = [].
Proof.
  intros _. split; [| by intros ->]. destruct es as [|e es]; [done |].
  rewrite encodes_cons, zlen_app. pose proof (entry_encode_pos e).
  pose proof (zlen_nonneg (encodes es)). lia.
Qed.

(** The distance from the write offset forward to a pending offset. *)
Lemma pending_gap p es :
  pending log p es ->
  (p - w_off log) mod size log = if zlen (encodes es) =? 0 then 0
                                 else size log - zlen (encodes es).
Proof.
  intros [Hp _ Hf He _]. pose proof (zlen_nonneg (encodes es)).
  rewrite <- He, Zminus_mod_idemp_r.
  replace (p - (p + zlen (encodes es))) with (- zlen (encodes es)) by lia.
  rewrite mod_once_neg by lia. repeat case_if; lia.
Qed.

Lemma pending_empty p es :
  pending log p es -> (w_off log =? p) = true <-> es = [].
Proof.
  intros H. rewrite <- (pending_wf _ _ H). destruct H as [Hp _ Hf He _].
  pose proof (zlen_nonneg (encodes es)). rewrite <- He, Z.eqb_eq.
  rewrite mod_once by lia. case_if; lia.
Qed.

(** *** The length field of the next entry *)

Lemma get_entry_len_bytes p b0 b1 :
  0 <= p < size log -> 0 <= b0 < 256 -> 0 <= b1 < 256 ->
  bget (buffer log) p = b0 -> bget (buffer log) ((p + 1) mod size log) = b1 ->
  get_entry_len log p = sizeof_logger_entry + (b0 + 256 * b1).
Proof.
  intros Hp H0 H1 Hb0 Hb1. pose proof size_pos as Hsz. unfold LOGGER_ENTRY_MAX_LEN in Hsz.
  unfold get_entry_len. rewrite (u32_small (size log - p)) by lia.
  rewrite mod_once in Hb1 by lia. rewrite Hb0. revert Hb1.
  destruct (Z.ltb_spec (p + 1) (size log)); intros Hb1; case_if; try lia.
  - rewrite Hb1, u16_small, u32_small; unfold sizeof_logger_entry; lia.
  - replace (p + 1 - size log) with 0 in Hb1 by lia.
    rewrite Hb1, u16_small, u32_small; unfold sizeof_logger_entry; lia.
Qed.

Lemma get_entry_len_pending p e es :
  pending log p (e :: es) -> get_entry_len log p = zlen (encode e).
Proof.
  intros [Hp Hes Hf He Hh]. inversion Hes as [|? ? [Hlen Hmsg] _]; subst.
  unfold LOGGER_ENTRY_MAX_PAYLOAD, LOGGER_ENTRY_MAX_LEN, sizeof_logger_entry in Hmsg.
  rewrite encodes_cons in Hh. apply ring_holds_app in Hh as [Hh _].
  rewrite zlen_encode, <- Hlen.
  assert (Hb : forall i, i = 0 \/ i = 1 ->
    bget (buffer log) ((p + i) mod size log) = bget (encode e) i).
  { intros i Hi. rewrite <- (ok_len _ Hok). apply Hh.
    rewrite zlen_encode. unfold sizeof_logger_entry. lia. }
  pose proof (Hb 0 (or_introl eq_refl)) as B0. pose proof (Hb 1 (or_intror eq_refl)) as B1.
  rewrite Z.add_0_r, Z.mod_small in B0 by lia.
  change (bget (encode e) 0) with (len (e_hdr e) mod 256) in B0.
  change (bget (encode e) 1) with (len (e_hdr e) / 256 mod 256) in B1.
  erewrite get_entry_len_bytes by (try exact B0; try exact B1; try lia; apply Z.mod_pos_bound; lia).
  rewrite (Z.mod_small (_ / 256)) by (split; [apply Z.div_pos | apply Z.div_lt_upper_bound]; lia).
  pose proof (Z.div_mod (len (e_hdr e)) 256). lia.
Qed.

(** *** Moving an offset over whole entries *)

Lemma pending_next p e es :
  pending log p (e :: es) -> pending log ((p + zlen (encode e)) mod size log) es.
Proof.
  intros [Hp Hes Hf He Hh]. pose proof (zlen_nonneg (encodes es)).
  pose proof (entry_encode_pos e). inversion Hes; subst.
  rewrite encodes_cons, zlen_app in *. apply ring_holds_app in Hh as [_ Hh].
  rewrite (ok_len _ Hok) in Hh.
  constructor; try done; [apply Z.mod_pos_bound; lia | lia |].
  rewrite Zplus_mod_idemp_l, <- He. f_equal. lia.
Qed.

(** The loop of [get_next_entry] stops at the first entry boundary at least
    [n] bytes ahead, and within the fuel it is given. *)
Lemma get_next_entry_loop_pending es : forall fuel p count n,
  pending log p es -> 0 <= count < n -> n <= LOGGER_ENTRY_MAX_LEN ->
  n - count <= zlen (encodes es) -> n - count <= Z.of_nat fuel ->
  exists p', get_next_entry_loop fuel log p count n = Some p' /\
             pending log p' (drop (skip_count (n - count) es) es).
Proof.
  induction es as [|e es IH]; intros fuel p count n Hp Hc Hn Hcov Hfuel.
  { change (zlen (encodes [])) with 0 in Hcov. lia. }
  destruct fuel as [|fuel]; [lia |]. cbn [get_next_entry_loop skip_count].
  rewrite (get_entry_len_pending _ _ _ Hp), logger_offset_mod.
  pose proof (pending_next _ _ _ Hp) as Hnext.
  pose proof (pd_ok _ _ _ Hp) as Hes. inversion Hes as [|? ? He _]; subst.
  pose proof (entry_len_bounds _ He) as Hb. rewrite encodes_cons, zlen_app in Hcov.
  unfold LOGGER_ENTRY_MAX_LEN, sizeof_logger_entry in *.
  rewrite (u32_small (count + _)) by lia.
  destruct (Z.ltb_spec (count + zlen (encode e)) n).
  - rewrite (proj2 (Z.ltb_lt (zlen (encode e)) (n - count))) by lia.
    destruct (IH fuel ((p + zlen (encode e)) mod size log) (count + zlen (encode e)) n)
      as (p' & Hloop & Hp'); try done; try lia.
    exists p'. split; [done |]. cbn [drop].
    by replace (n - count - zlen (encode e)) with (n - (count + zlen (encode e))) by lia.
  - rewrite (proj2 (Z.ltb_ge (zlen (encode e)) (n - count))) by lia.
    eexists; split; [done |]. cbn [drop]. by rewrite drop_0.
Qed.

Lemma get_next_entry_pending p es n :
  pending log p es -> 0 < n <= LOGGER_ENTRY_MAX_LEN -> n <= zlen (encodes es) ->
  pending log (get_next_entry log p n) (drop (skip_count n es) es).
Proof.
  intros Hp Hn Hcov.
  destruct (get_next_entry_loop_pending es (S (Z.to_nat n)) p 0 n)
    as (p' & Hl & Hp'); try done; try lia.
  unfold get_next_entry. rewrite Hl. simpl. by rewrite Z.sub_0_r in Hp'.
Qed.

Lemma skip_count_bytes es : forall n,
  0 < n <= zlen (encodes es) -> n <= zlen (encodes (take (skip_count n es) es)).
Proof.
  induction es as [|e es IH]; intros n Hn; [change (zlen (encodes [])) with 0 in Hn; lia |].
  cbn [skip_count]. rewrite encodes_cons, zlen_app in Hn. case_if.
  - cbn [take]. rewrite encodes_cons, zlen_app.
    specialize (IH (n - zlen (encode e))). lia.
  - cbn [take]. rewrite take_0, encodes_one. lia.
Qed.

(** *** Which offsets a write laps *)

Lemma clock_interval_dist a c n :
  0 <= a < size log -> 0 <= c < size log -> 0 < n < size log ->
  clock_interval a ((a + n) mod size log) c =
    (0 <? (c - a) mod size log) && ((c - a) mod size log <=? n).
Proof.
  intros Ha Hc Hn. unfold clock_interval.
  rewrite mod_once, mod_once_neg by lia.
  destruct (Z.ltb_spec (a + n) (size log)), (Z.ltb_spec (c - a) 0);
    repeat match goal with |- context [?x <? ?y] => destruct (Z.ltb_spec x y) end;
    repeat match goal with |- context [?x <=? ?y] => destruct (Z.leb_spec x y) end;
    simpl; try reflexivity; lia.
Qed.

(** What [fix_up_readers] does to one offset. *)
Definition fixed (n p : Z) : Z :=
  if clock_interval (w_off log) (logger_offset log (u32 (w_off log + n))) p
  then get_next_entry log p n else p.

Lemma fixed_pending p es n :
  pending log p es -> 0 < n <= LOGGER_ENTRY_MAX_LEN ->
  pending log (fixed n p) (advance (size log) n es).
Proof.
  intros Hp Hn. pose proof size_pos as Hsz. pose proof (ok_woff _ Hok).
  pose proof (pd_fit _ _ _ Hp). pose proof (zlen_nonneg (encodes es)).
  unfold fixed. rewrite logger_offset_mod, clock_interval_dist by (try apply Hp; lia).
  rewrite (pending_gap _ _ Hp). unfold advance.
  destruct (Z.eqb_spec (zlen (encodes es)) 0) as [E | E].
  - rewrite E. simpl. done.
  - rewrite (proj2 (Z.ltb_lt 0 (size log - _))), (proj2 (Z.ltb_lt 0 (zlen _))) by lia. simpl.
    destruct (Z.leb_spec (size log - zlen (encodes es)) n) as [Hl|Hl].
    + rewrite (proj2 (Z.leb_le (size log) _)) by lia. apply get_next_entry_pending; [done | lia | lia].
    + by rewrite (proj2 (Z.leb_gt (size log) _)) by lia.
Qed.

Lemma advance_room p es n :
  pending log p es -> 0 < n <= LOGGER_ENTRY_MAX_LEN ->
  zlen (encodes (advance (size log) n es)) + n < size log.
Proof.
  intros Hp Hn. pose proof size_pos. pose proof (pd_fit _ _ _ Hp).
  pose proof (zlen_nonneg (encodes es)). unfold advance.
  destruct (Z.ltb_spec 0 (zlen (encodes es))); simpl; [| lia].
  destruct (Z.leb_spec (size log) (zlen (encodes es) + n)); [| lia].
  pose proof (skip_count_bytes es n ltac:(lia)) as Hs.
  rewrite <- (take_drop (skip_count n es) es) in H0 at 1.
  rewrite encodes_app, zlen_app in H0. lia.
Qed.
End Log.

(** ** Reading user memory *)

(** The [n] bytes at [a] when [copy_from_user] copies all of them. *)
Definition user_read (m : umem) (a n : Z) : option (list Z) :=
  if n =? 0 then Some []
  else let '(bs, rest) := copy_from_user m a n in if rest =? 0 then Some bs else None.

(** The payload a write collects from its segments, [room] bytes at most. *)
Fixpoint gather (m : umem) (iov : list iovec) (room : Z) : option (list Z) :=
  match iov with
  | [] => Some []
  | v :: iov' =>
      let n := Z.min (iov_len v) room in
      match user_read m (iov_base v) n with
      | None => None
      | Some bs =>
          match gather m iov' (room - n) with
          | None => None
          | Some rest => Some (bs ++ rest)
          end
      end
  end.

Definition iov_total (iov : list iovec) : Z := foldr (fun v s => iov_len v + s) 0 iov.

Lemma read_prefix_le m a n : (length (read_prefix m a n) <= n)%nat.
Proof.
  revert a. induction n as [|n IH]; intros a; simpl; [lia |].
  destruct (m !! a); simpl; [specialize (IH (a + 1)) |]; lia.
Qed.

Lemma read_prefix_add m n k : forall a,
  read_prefix m a (n + k) =
    if Nat.eqb (length (read_prefix m a n)) n
    then read_prefix m a n ++ read_prefix m (a + Z.of_nat n) k
    else read_prefix m a n.
Proof.
  induction n as [|n IH]; intros a.
  { simpl. by rewrite Z.add_0_r. }
  cbn [read_prefix Nat.add]. destruct (m !! a) as [b|]; [| done].
  rewrite IH. cbn [length Nat.eqb]. destruct (Nat.eqb_spec (length (read_prefix m (a + 1) n)) n);
    [| done].
  simpl. do 3 f_equal. lia.
Qed.

Lemma zlen_copy_from_user m a n : 0 <= n -> zlen (copy_from_user m a n).1 = n.
Proof.
  intros Hn. unfold copy_from_user. destruct (access_ok m a n); cbn [fst]; autorewrite with zlen.
  - pose proof (read_prefix_le (um_bytes m) a (Z.to_nat n)). unfold zlen. lia.
  - lia.
Qed.

(** A read succeeds as a whole exactly when it succeeds in two pieces. *)
Lemma user_read_split m a l n :
  0 < l < n ->
  user_read m a n =
    match user_read m a l with
    | Some bs =>
        match user_read m (a + l) (n - l) with Some bs' => Some (bs ++ bs') | None => None end
    | None => None
    end.
Proof.
  intros Hl. unfold user_read. do 2 rewrite (proj2 (Z.eqb_neq _ 0)) by lia.
  rewrite (proj2 (Z.eqb_neq (n - l) 0)) by lia. unfold copy_from_user, access_ok.
  replace (a + l + (n - l)) with (a + n) by lia.
  pose proof (read_prefix_le (um_bytes m) a (Z.to_nat l)) as Hle.
  pose proof (read_prefix_le (um_bytes m) (a + l) (Z.to_nat (n - l))) as Hle'.
  destruct (Z.leb_spec (a + n) (um_limit m)) as [Hn|Hn].
  - rewrite (proj2 (Z.leb_le (a + l) _)) by lia.
    replace (Z.to_nat n) with (Z.to_nat l + Z.to_nat (n - l))%nat by lia.
    rewrite read_prefix_add, Z2Nat.id by lia. unfold zlen.
    destruct (Nat.eqb_spec (length (read_prefix (um_bytes m) a (Z.to_nat l))) (Z.to_nat l)) as [E|E].
    + rewrite length_app, E.
      rewrite (proj2 (Z.eqb_eq (l - _) 0)) by lia.
      destruct (Z.eqb_spec (n - l - Z.of_nat (length (read_prefix (um_bytes m) (a + l) (Z.to_nat (n - l))))) 0).
      * rewrite (proj2 (Z.eqb_eq _ 0)) by lia. f_equal.
        rewrite !(fun k => proj2 (Nat.sub_0_le _ k)) by lia. simpl. by rewrite !app_nil_r.
      * by rewrite (proj2 (Z.eqb_neq _ 0)) by lia.
    + rewrite (proj2 (Z.eqb_neq (l - _) 0)), (proj2 (Z.eqb_neq _ 0)) by lia. done.
  - rewrite (proj2 (Z.eqb_neq _ 0)) by lia.
    destruct (Z.leb_spec (a + l) (um_limit m));
      [destruct (_ =? 0); [| done] |]; rewrite (proj2 (Z.eqb_neq _ 0)) by lia; done.
Qed.

Lemma zlen_user_read m a n bs : 0 <= n -> user_read m a n = Some bs -> zlen bs = n.
Proof.
  intros Hn. unfold user_read. destruct (Z.eqb_spec n 0); [intros [= <-]; done |].
  pose proof (zlen_copy_from_user m a n Hn). destruct (copy_from_user m a n) as [bs' rest].
  case_if; [intros [= <-] | discriminate]. done.
Qed.

Lemma zlen_gather m iov : forall room bs,
  Forall (fun v => 0 <= iov_len v) iov -> 0 <= room ->
  gather m iov room = Some bs -> zlen bs = Z.min (iov_total iov) room.
Proof.
  induction iov as [|v iov IH]; intros room bs Hv Hr; cbn [gather iov_total foldr].
  { intros [= <-]. rewrite zlen_nil. lia. }
  inversion Hv as [|? ? Hlen Hrest]; subst.
  destruct (user_read m (iov_base v) (Z.min (iov_len v) room)) as [b1|] eqn:E1; [| discriminate].
  destruct (gather m iov (room - Z.min (iov_len v) room)) as [b2|] eqn:E2; [| discriminate].
  intros [= <-]. apply zlen_user_read in E1; [| lia]. apply IH in E2; [| done | lia].
  rewrite zlen_app, E1, E2. fold (iov_total iov). 
  assert (0 <= iov_total iov) by (clear -Hrest; induction Hrest; simpl; lia). lia.
Qed.

(** ** The two writers store through the ring *)

Definition put (log : logger_log) (bs : list Z) : logger_log :=
  set_buffer log (ring_put (buffer log) (w_off log) bs).

Lemma put_ok log bs : log_ok log -> zlen bs <= size log -> log_ok (put log bs).
Proof.
  intros Hok Hb. pose proof (ok_woff _ Hok). destruct Hok as [H1 H2 H3 H4].
  constructor; try done. cbn. rewrite zlen_ring_put; lia.
Qed.

Lemma do_write_log_put log bs :
  log_ok log -> zlen bs <= size log ->
  do_write_log log bs (zlen bs) =
    set_w_off (put log bs) ((w_off log + zlen bs) mod size log).
Proof.
  intros Hok Hfit. pose proof (size_pos _ Hok). pose proof (ok_woff _ Hok).
  unfold do_write_log. rewrite logger_offset_mod by done. f_equal.
  rewrite (u32_small (size log - _)) by lia. unfold put, ring_put. rewrite (ok_len _ Hok).
  destruct (Z.eqb_spec (zlen bs) (Z.min (zlen bs) (size log - w_off log))) as [E|E]; simpl;
    [| done].
  rewrite <- E, Z.sub_diag, bslice_nil, splice_nil. done.
Qed.

Lemma do_write_log_from_user_put log m a n :
  log_ok log -> 0 <= n <= size log ->
  exists bs, zlen bs <= n /\
  match user_read m a n with
  | Some bs' => bs' = bs /\ do_write_log_from_user log m a n =
      (set_w_off (put log bs) ((w_off log + n) mod size log), n)
  | None => do_write_log_from_user log m a n = (put log bs, - EFAULT)
  end.
Proof.
  intros Hok Hn. pose proof (size_pos _ Hok). pose proof (ok_woff _ Hok) as Hw.
  unfold do_write_log_from_user. rewrite (u32_small (size log - _)) by lia.
  set (l := Z.min n (size log - w_off log)).
  destruct (Z.eqb_spec l 0) as [El|El]; cbn [negb].
  { assert (n = 0) as -> by (unfold l in El; lia). rewrite El. exists []. cbn.
    split; [rewrite zlen_nil; lia |]. split; [done |].
    unfold put. rewrite logger_offset_mod by done. rewrite ring_put_nil. by destruct log. }
  pose proof (zlen_copy_from_user m a l ltac:(lia)) as L1.
  assert (Hur : user_read m a l = let '(bs, rest) := copy_from_user m a l in
                                  if rest =? 0 then Some bs else None)
    by (unfold user_read; by rewrite (proj2 (Z.eqb_neq l 0) El)).
  destruct (copy_from_user m a l) as [b1 r1]. cbn [fst] in L1.
  assert (Hput1 : set_buffer log (splice (buffer log) (w_off log) b1) = put log b1).
  { unfold put, ring_put. rewrite (ok_len _ Hok), L1, (Z.min_l l) by (unfold l; lia).
    by rewrite bslice_all, Z.sub_diag, bslice_nil, splice_nil by done. }
  destruct (Z.eqb_spec n l) as [En|En].
  - exists b1. rewrite En, Hur. split; [lia |].
    destruct (Z.eqb_spec r1 0); cbn [negb]; rewrite ?Z.eqb_refl; cbn [negb].
    + split; [done |]. by rewrite Hput1, logger_offset_mod by (apply put_ok; [done | lia]).
    + by rewrite Hput1.
  - assert (Hl : 0 < l < n) by lia. rewrite (user_read_split m a l n Hl), Hur.
    destruct (Z.eqb_spec r1 0); cbn [negb]; [| exists b1; split; [lia | by rewrite Hput1]].
    pose proof (zlen_copy_from_user m (a + l) (n - l) ltac:(lia)) as L2.
    unfold user_read. rewrite (proj2 (Z.eqb_neq (n - l) 0)) by lia.
    destruct (copy_from_user m (a + l) (n - l)) as [b2 r2]. cbn [fst] in L2.
    exists (b1 ++ b2). rewrite zlen_app. split; [lia |].
    assert (Hput2 : set_buffer (set_buffer log (splice (buffer log) (w_off log) b1))
        (splice (splice (buffer log) (w_off log) b1) 0 b2) = put log (b1 ++ b2)).
    { unfold put, ring_put. rewrite (ok_len _ Hok), zlen_app, L1, L2.
      replace (Z.min (l + (n - l)) (size log - w_off log)) with l by (unfold l; lia).
      unfold bslice, set_buffer. cbn. do 3 f_equal.
      - rewrite drop_0, take_app_le, firstn_all2 by (unfold zlen in *; lia). done.
      - rewrite drop_app_length' by (unfold zlen in *; lia).
        rewrite firstn_all2 by (unfold zlen in *; lia). done. }
    cbn [buffer set_buffer]. fold (set_buffer log (splice (buffer log) (w_off log) b1)).
    destruct (Z.eqb_spec r2 0); cbn [negb].
    + split; [done |].
      by rewrite Hput2, logger_offset_mod by (apply put_ok; [done | rewrite zlen_app; lia]).
    + by rewrite Hput2.
Qed.

(** ** A write in progress

    [b] is the buffer after the bytes [done] have been stored from [orig] on,
    out of the [n] bytes reserved there.  Whatever ended at [orig] and left
    room for the [n] bytes is still in place. *)

Record writing (b0 b : list Z) (orig n : Z) (done : list Z) : Prop := Writing {
  wr_len : zlen b = zlen b0;
  wr_fit : zlen done <= n;
  wr_done : ring_holds b orig done;
  wr_keep : forall p xs, (p + zlen xs) mod zlen b0 = orig -> zlen xs + n <= zlen b0 ->
      ring_holds b0 p xs -> ring_holds b p xs }.

Lemma writing_start b orig n : 0 <= n -> writing b b orig n [].
Proof. constructor; auto with kernel. Qed.

Lemma writing_put b0 b orig n done bs :
  0 <= orig < zlen b0 -> n <= zlen b0 -> zlen done + zlen bs <= n ->
  writing b0 b orig n done ->
  writing b0 (ring_put b ((orig + zlen done) mod zlen b0) bs) orig n (done ++ bs).
Proof.
  intros Ho Hn Hroom [Hl Hf Hd Hk]. pose proof (zlen_nonneg bs). pose proof (zlen_nonneg done).
  set (w := (orig + zlen done) mod zlen b0).
  assert (Hw : 0 <= w < zlen b) by (rewrite Hl; apply Z.mod_pos_bound; lia).
  constructor.
  - rewrite zlen_ring_put by lia. done.
  - rewrite zlen_app. lia.
  - apply ring_holds_app. rewrite zlen_ring_put by lia. split.
    + apply ring_put_other; rewrite ?Hl; try done; lia.
    + rewrite Hl. apply ring_put_same; lia.
  - intros p xs Hp Hxs Hb0. pose proof (zlen_nonneg xs).
    assert (Hboth : ring_holds b p (xs ++ done)).
    { apply ring_holds_app. split; [by apply Hk |]. by rewrite Hl, Hp. }
    apply (ring_put_other b w bs Hw) in Hboth; rewrite ?zlen_app, ?Hl; try lia.
    + by apply ring_holds_app in Hboth as [? _].
    + unfold w. rewrite <- Hp, Zplus_mod_idemp_l. f_equal. lia.
Qed.

Lemma set_w_off_ok log w : log_ok log -> log_ok (set_w_off log (w mod size log)).
Proof.
  intros Hok. pose proof (size_pos _ Hok). destruct Hok as [H1 H2 H3 H4].
  constructor; try done. cbn. apply Z.mod_pos_bound. unfold LOGGER_ENTRY_MAX_LEN in *. lia.
Qed.

(** The log in the middle of a write that reserved [n] bytes at [orig]. *)
Record mid_write (log0 log : logger_log) (orig n : Z) (done : list Z) : Prop := MidWrite {
  mw_frame : log = set_w_off (set_buffer log0 (buffer log)) (w_off log);
  mw_ok : log_ok log;
  mw_woff : w_off log = (orig + zlen done) mod size log0;
  mw_writing : writing (buffer log0) (buffer log) orig n done }.

Lemma mid_write_put log0 log orig n done bs :
  log_ok log0 -> 0 <= orig < size log0 -> n <= size log0 -> zlen done + zlen bs <= n ->
  mid_write log0 log orig n done ->
  mid_write log0 (set_w_off (put log bs) ((w_off log + zlen bs) mod size log)) orig n (done ++ bs).
Proof.
  intros Hok0 Ho Hn Hroom [Hfr Hok Hw Hwr].
  pose proof (zlen_nonneg done). pose proof (zlen_nonneg bs).
  assert (Hsz : size log = size log0) by (rewrite Hfr; done).
  constructor.
  - rewrite Hfr. done.
  - change (size log) with (size (put log bs)). apply set_w_off_ok, put_ok; [done | lia].
  - cbn. rewrite Hsz, Hw, Zplus_mod_idemp_l, zlen_app. f_equal. lia.
  - cbn. rewrite Hw, <- (ok_len _ Hok0). apply writing_put; rewrite ?(ok_len _ Hok0); lia || done.
Qed.

(** The payload loop stores what [gather] collects, or fails with EFAULT and
    sets the write offset to the value [back] sampled earlier. *)
Lemma write_segs_spec log0 orig back n hlen m iov : forall log ret done,
  log_ok log0 -> 0 <= orig < size log0 -> n <= size log0 ->
  Forall (fun v => 0 <= iov_len v) iov ->
  0 <= ret <= hlen -> hlen <= LOGGER_ENTRY_MAX_LEN -> zlen done + (hlen - ret) <= n ->
  mid_write log0 log orig n done ->
  match gather m iov (hlen - ret) with
  | Some bs => exists log', write_segs log m back hlen iov ret = (log', ret + zlen bs) /\
      mid_write log0 log' orig n (done ++ bs)
  | None => exists b', write_segs log m back hlen iov ret =
      (set_w_off (set_buffer log0 b') back, - EFAULT) /\
      exists done', writing (buffer log0) b' orig n done'
  end.
Proof.
  induction iov as [|v iov IH];
    intros log ret done Hok0 Ho Hn Hv Hret Hh Hroom Hmid; cbn [gather write_segs].
  { exists log. rewrite zlen_nil, Z.add_0_r, app_nil_r. done. }
  inversion Hv as [|? ? Hlen Hrest]; subst. unfold LOGGER_ENTRY_MAX_LEN in Hh.
  rewrite (u32_small (hlen - ret)) by lia. set (k := Z.min (iov_len v) (hlen - ret)).
  assert (Hsz : size log = size log0) by (destruct Hmid as [-> _ _ _]; done).
  pose proof (zlen_nonneg done) as Hd.
  destruct (do_write_log_from_user_put log m (iov_base v) k) as (bs & Hbs & Hspec);
    [apply Hmid | rewrite Hsz; unfold k; lia |].
  destruct (user_read m (iov_base v) k) as [bs'|] eqn:Er.
  - destruct Hspec as [-> ->]. apply zlen_user_read in Er as Ek; [| unfold k; lia].
    rewrite (proj2 (Z.ltb_ge k 0)) by (unfold k; lia).
    rewrite s32_small by (unfold k; lia).
    pose proof (mid_write_put log0 log orig n done bs Hok0 Ho Hn) as Hput.
    rewrite Ek in Hput. specialize (Hput ltac:(unfold k; lia) Hmid).
    specialize (IH _ (ret + k) (done ++ bs) Hok0 Ho Hn Hrest ltac:(unfold k; lia) Hh
      ltac:(rewrite zlen_app, Ek; unfold k; lia) Hput).
    replace (hlen - (ret + k)) with (hlen - ret - k) in IH by lia.
    destruct (gather m iov (hlen - ret - k)) as [rest|]; [| done].
    destruct IH as (log' & Hw & Hm'). exists log'. rewrite <- app_assoc in Hm'.
    split; [| done]. rewrite Hw, zlen_app, Ek. f_equal. lia.
  - rewrite Hspec. rewrite (proj2 (Z.ltb_lt (- EFAULT) 0)) by (unfold EFAULT; lia).
    exists (ring_put (buffer log) (w_off log) bs). split.
    + destruct Hmid as [-> _ _ _]. done.
    + exists (done ++ bs). destruct Hmid as [Hfr Hok Hw Hwr].
      rewrite Hw, <- (ok_len _ Hok0). pose proof (zlen_nonneg bs).
      apply writing_put; rewrite ?(ok_len _ Hok0); try done; unfold k in *; lia.
Qed.

(** ** From one offset to the whole log *)

Lemma fix_up_readers_eq log n :
  fix_up_readers log n =
    set_readers (set_head log (fixed log n (head log)))
      ((fun r => LoggerReader (rd_id r) (fixed log n (r_off r))) <$> readers log).
Proof.
  unfold fix_up_readers, fixed.
  set (new := logger_offset log (u32 (w_off log + n))).
  destruct (clock_interval (w_off log) new (head log)); cbn.
  all: unfold set_readers, set_head; cbn; f_equal; apply list_fmap_ext; intros i r _;
    destruct (clock_interval (w_off log) new (r_off r)); by destruct r.
Qed.

(** Replacing every offset by [f] and the buffer and write offset by new ones
    implements [g] on the pending entries when it does so for one offset. *)
Lemma refines_pointwise log a log' (f : Z -> Z) (g : list entry -> list entry) :
  refines log a -> log_ok log' ->
  head log' = f (head log) ->
  readers log' = (fun r => LoggerReader (rd_id r) (f (r_off r))) <$> readers log ->
  (forall p es, pending log p es -> pending log' (f p) (g es)) ->
  refines log' (alog_map g a).
Proof.
  intros [Hok Hh Hr Hnd] Hok' Eh Er Hpt. constructor; [done | | |].
  - rewrite Eh. by apply Hpt.
  - rewrite Er. unfold alog_map. cbn. apply Forall2_fmap.
    eapply Forall2_impl; [exact Hr |]. intros r ar [Hid Hp]. cbn. auto.
  - rewrite Er, <- list_fmap_compose. exact Hnd.
Qed.

(** ** Copying an entry out *)

Lemma write_prefix_app m xs ys : forall a,
  write_prefix m a (xs ++ ys) =
    let '(m1, r1) := write_prefix m a xs in
    if r1 =? 0 then write_prefix m1 (a + zlen xs) ys else (m1, r1 + zlen ys).
Proof.
  revert m. induction xs as [|x xs IH]; intros m a; cbn [app write_prefix].
  { change (zlen (@nil Z)) with 0. by rewrite Z.add_0_r. }
  destruct (m !! a).
  - rewrite IH. destruct (write_prefix (<[a:=x]> m) (a + 1) xs) as [m1 r1].
    rewrite zlen_cons. by replace (a + 1 + zlen xs) with (a + (1 + zlen xs)) by lia.
  - pose proof (zlen_nonneg xs). rewrite !zlen_cons, zlen_app.
    rewrite (proj2 (Z.eqb_neq _ 0)) by lia. f_equal. lia.
Qed.

Lemma write_prefix_rest m bs : forall a, 0 <= (write_prefix m a bs).2.
Proof.
  revert m. induction bs as [|b bs IH]; intros m a; cbn [write_prefix]; [done |].
  destruct (m !! a); [apply IH | apply zlen_nonneg].
Qed.

Lemma copy_to_user_nil m a : copy_to_user m a [] = (m, 0).
Proof. unfold copy_to_user. destruct m. by case_if. Qed.

(** A copy of [xs ++ ys] that succeeds can be done in two pieces. *)
Lemma copy_to_user_app m a xs ys m' :
  copy_to_user m a (xs ++ ys) = (m', 0) ->
  exists m1, copy_to_user m a xs = (m1, 0) /\ copy_to_user m1 (a + zlen xs) ys = (m', 0).
Proof.
  unfold copy_to_user, access_ok. rewrite zlen_app.
  pose proof (zlen_nonneg xs). pose proof (zlen_nonneg ys).
  destruct (Z.leb_spec (a + (zlen xs + zlen ys)) (um_limit m)).
  - rewrite (proj2 (Z.leb_le (a + zlen xs) _)) by lia. rewrite write_prefix_app.
    pose proof (write_prefix_rest (um_bytes m) xs a).
    destruct (write_prefix (um_bytes m) a xs) as [m1 r1]. cbn in *.
    destruct (Z.eqb_spec r1 0) as [->|]; [| intros [= _ E]; lia].
    intros Hw. exists (Umem m1 (um_limit m)). split; [done |]. cbn.
    rewrite (proj2 (Z.leb_le (a + zlen xs + zlen ys) _)) by lia. done.
  - intros [= -> E]. exists m'. assert (zlen xs = 0 /\ zlen ys = 0) as [Ex Ey] by lia.
    destruct xs; [| rewrite zlen_cons in Ex; pose proof (zlen_nonneg xs); lia].
    destruct ys; [| rewrite zlen_cons in Ey; pose proof (zlen_nonneg ys); lia].
    change (zlen (@nil Z)) with 0 in *. cbn. rewrite !Z.add_0_r in *.
    rewrite (proj2 (Z.leb_gt a _)) by lia. done.
Qed.

Lemma copy_to_user_join m a xs ys m1 m2 :
  copy_to_user m a xs = (m1, 0) -> copy_to_user m1 (a + zlen xs) ys = (m2, 0) ->
  copy_to_user m a (xs ++ ys) = (m2, 0).
Proof.
  destruct ys as [|y ys].
  { rewrite copy_to_user_nil, app_nil_r. by intros -> [= ->]. }
  unfold copy_to_user, access_ok. rewrite zlen_app.
  pose proof (zlen_nonneg xs). pose proof (zlen_nonneg ys).
  destruct (Z.leb_spec (a + zlen xs) (um_limit m)) as [Hl|Hl].
  - rewrite write_prefix_app. destruct (write_prefix (um_bytes m) a xs) as [w1 r1].
    intros [= <- ->]. cbn.
    destruct (Z.leb_spec (a + zlen xs + zlen (y :: ys)) (um_limit m)).
    + by rewrite (proj2 (Z.leb_le _ _)) by lia.
    + rewrite zlen_cons. intros [= _ E]. lia.
  - intros [= <- E]. rewrite zlen_cons.
    rewrite (proj2 (Z.leb_gt (a + zlen xs + _) _)) by lia. intros [= _ E']. lia.
Qed.

(** The two slices a read copies are the bytes the ring holds. *)
Lemma ring_slices b p bs :
  0 <= p < zlen b -> zlen bs <= zlen b -> ring_holds b p bs ->
  let l := Z.min (zlen bs) (zlen b - p) in
  bslice b p l ++ bslice b 0 (zlen bs - l) = bs.
Proof.
  intros Hp Hf Hh l. pose proof (zlen_nonneg bs).
  assert (L1 : zlen (bslice b p l) = l) by (apply zlen_bslice; unfold l; lia).
  assert (L2 : zlen (bslice b 0 (zlen bs - l)) = zlen bs - l)
    by (apply zlen_bslice; unfold l; lia).
  apply bget_ext; rewrite zlen_app, L1, L2; [lia |]. intros i Hi.
  rewrite bget_app, L1 by lia. rewrite <- Hh, mod_once by (unfold l in *; lia).
  destruct (Z.ltb_spec i l).
  - rewrite bget_bslice by lia. case_if; [done | unfold l in *; lia].
  - rewrite bget_bslice by lia. case_if; [unfold l in *; lia | f_equal; unfold l in *; lia].
Qed.

(** The entry at an offset, as the two slices the read copies. *)
Lemma pending_slices log rd e es :
  log_ok log -> pending log (r_off rd) (e :: es) ->
  u32 (size log - r_off rd) = size log - r_off rd /\
  let l := Z.min (zlen (encode e)) (size log - r_off rd) in
  zlen (bslice (buffer log) (r_off rd) l) = l /\
  bslice (buffer log) (r_off rd) l ++ bslice (buffer log) 0 (zlen (encode e) - l) = encode e.
Proof.
  intros Hok [Ho Hes Hf He Hh]. pose proof (size_pos _ Hok) as Hs.
  rewrite encodes_cons, zlen_app in Hf. pose proof (zlen_nonneg (encodes es)).
  pose proof (zlen_nonneg (encode e)).
  rewrite encodes_cons in Hh. apply ring_holds_app in Hh as [Hh _].
  split; [apply u32_small; lia |]. rewrite <- (ok_len _ Hok) in *. intros l.
  split; [apply zlen_bslice; unfold l; lia |]. apply ring_slices; [done | lia | done].
Qed.

(** A successful copy of the next entry moves the reader behind it. *)
Lemma do_read_log_to_user_entry log rd e es m buf m' :
  log_ok log -> pending log (r_off rd) (e :: es) ->
  copy_to_user m buf (encode e) = (m', 0) ->
  do_read_log_to_user log rd m buf (zlen (encode e)) =
    (m', set_readers log
           (set_r_off (rd_id rd) ((r_off rd + zlen (encode e)) mod size log) <$> readers log),
     zlen (encode e)).
Proof.
  intros Hok Hp Hcopy. pose proof (pending_slices log rd e es Hok Hp) as [Hu Hsl].
  unfold do_read_log_to_user. rewrite Hu, logger_offset_mod by done.
  set (l := Z.min (zlen (encode e)) (size log - r_off rd)) in *.
  destruct Hsl as [Hl Hsl]. rewrite <- Hsl in Hcopy.
  apply copy_to_user_app in Hcopy as (m1 & Hc1 & Hc2). rewrite Hl in Hc2. rewrite Hc1. cbn.
  destruct (Z.eqb_spec (zlen (encode e)) l) as [El|El]; cbn.
  - rewrite <- El, Z.sub_diag, bslice_nil, copy_to_user_nil in Hc2. by injection Hc2 as <-.
  - by rewrite Hc2.
Qed.

(** A copy that faults leaves the log as it is. *)
Lemma do_read_log_to_user_fault log rd e es m buf :
  log_ok log -> pending log (r_off rd) (e :: es) ->
  (copy_to_user m buf (encode e)).2 <> 0 ->
  exists m', do_read_log_to_user log rd m buf (zlen (encode e)) = (m', log, - EFAULT).
Proof.
  intros Hok Hp Hfault. pose proof (pending_slices log rd e es Hok Hp) as [Hu Hsl].
  unfold do_read_log_to_user. rewrite Hu.
  set (l := Z.min (zlen (encode e)) (size log - r_off rd)) in *.
  destruct Hsl as [Hl Hsl].
  destruct (copy_to_user m buf (bslice (buffer log) (r_off rd) l)) as [m1 r1] eqn:E1.
  destruct (Z.eqb_spec r1 0) as [->|]; cbn; [| by eexists].
  destruct (Z.eqb_spec (zlen (encode e)) l) as [El|El]; cbn.
  - rewrite <- El, Z.sub_diag, bslice_nil, app_nil_r in Hsl.
    rewrite <- El, Hsl in E1. by rewrite E1 in Hfault.
  - destruct (copy_to_user m1 (buf + l) (bslice (buffer log) 0 (zlen (encode e) - l)))
      as [m2 r2] eqn:E2.
    destruct (Z.eqb_spec r2 0) as [->|]; cbn; [| by eexists]. exfalso. apply Hfault.
    rewrite <- Hl in E2 at 1. rewrite <- Hsl. by rewrite (copy_to_user_join _ _ _ _ _ _ E1 E2).
Qed.
