(* ===== verification/LoggerProps.v ===== *)
(** * Properties of the log devices

    Per-operation refinement lemmas first, then the step relation of the four
    devices and its invariant, then the properties. *)

From stdpp Require Import base numbers list gmap relations.
From S2P Require Import Prelude Ring Logger LoggerRefine.

(** ** Helper lemmas *)

Lemma write_header_len c ki_left :
  0 <= ki_left ->
  len (write_header c ki_left) = Z.min ki_left LOGGER_ENTRY_MAX_PAYLOAD /\
  0 <= len (write_header c ki_left) <= LOGGER_ENTRY_MAX_PAYLOAD.
Proof.
  intros H. cbn [write_header len].
  unfold LOGGER_ENTRY_MAX_PAYLOAD, LOGGER_ENTRY_MAX_LEN, sizeof_logger_entry.
  rewrite u16_small by lia. lia.
Qed.

(** After the fix-up and the header, the write is in progress at the old offset. *)
Lemma header_mid_write log h :
  log_ok log -> 0 <= len h <= LOGGER_ENTRY_MAX_PAYLOAD ->
  let n := sizeof_logger_entry + len h in
  let log1 := fix_up_readers log n in
  mid_write log1 (do_write_log log1 (header_bytes h) sizeof_logger_entry)
    (w_off log) n (header_bytes h).
Proof.
  intros Hok Hh n log1. pose proof (size_pos _ Hok) as Hs.
  unfold LOGGER_ENTRY_MAX_PAYLOAD, LOGGER_ENTRY_MAX_LEN in Hh, Hs.
  assert (Hok1 : log_ok log1)
    by (unfold log1; rewrite fix_up_readers_eq; destruct Hok; by constructor).
  assert (Hw : w_off log1 = w_off log) by (unfold log1; by rewrite fix_up_readers_eq).
  assert (Hz : size log1 = size log) by (unfold log1; by rewrite fix_up_readers_eq).
  clearbody log1. rewrite <- (zlen_header h). rewrite do_write_log_put
    by (rewrite ?zlen_header; unfold sizeof_logger_entry; done || lia).
  change (header_bytes h) with ([] ++ header_bytes h) at 3.
  apply mid_write_put; rewrite ?Hz; try done.
  - apply Hok.
  - unfold n. lia.
  - change (zlen (@nil Z)) with 0. rewrite zlen_header. unfold n. lia.
  - constructor; try done.
    + by destruct log1.
    + change (zlen (@nil Z)) with 0. by rewrite Z.add_0_r, Hz, Hw, Z.mod_small by apply Hok.
    + apply writing_start. unfold n, sizeof_logger_entry. lia.
Qed.

Section Write.
Context (log : logger_log) (a : alog) (m : umem) (c : writer) (ki_left : Z) (iov : list iovec).
Hypothesis Href : refines log a.
Hypothesis Hiov : Forall (fun v => 0 <= iov_len v) iov.
Hypothesis Htotal : iov_total iov = ki_left.
Hypothesis Hpos : 0 < ki_left.

Let hdr := write_header c ki_left.
Let n := sizeof_logger_entry + len hdr.

Lemma write_hdr_bounds : 0 < len hdr <= LOGGER_ENTRY_MAX_PAYLOAD /\ 0 < n <= LOGGER_ENTRY_MAX_LEN.
Proof.
  destruct (write_header_len c ki_left ltac:(lia)) as [E B]. unfold n, hdr.
  rewrite E in *. unfold LOGGER_ENTRY_MAX_PAYLOAD, LOGGER_ENTRY_MAX_LEN, sizeof_logger_entry in *. lia.
Qed.

(** What the critical section does, for any value the writer sampled. *)
Lemma write_locked_cases back :
  let log1 := fix_up_readers log n in
  match gather m iov (len hdr) with
  | Some msg => exists log', logger_aio_write_from back log m c ki_left iov = (log', zlen msg) /\
      mid_write log1 log' (w_off log) n (header_bytes hdr ++ msg)
  | None => exists b', logger_aio_write_from back log m c ki_left iov =
      (set_w_off (set_buffer log1 b') back, - EFAULT) /\
      exists done', writing (buffer log1) b' (w_off log) n done'
  end.
Proof.
  intros log1. destruct write_hdr_bounds as [Hl Hn].
  pose proof (rf_ok _ _ Href) as Hok. pose proof (size_pos _ Hok) as Hs.
  pose proof (header_mid_write log hdr Hok ltac:(lia)) as Hmid. cbn zeta in Hmid. fold n log1 in Hmid.
  assert (Hok1 : log_ok log1)
    by (unfold log1; rewrite fix_up_readers_eq; destruct Hok; by constructor).
  assert (Hz : size log1 = size log) by (unfold log1; by rewrite fix_up_readers_eq).
  pose proof (write_segs_spec log1 (w_off log) back n (len hdr) m iov
    (do_write_log log1 (header_bytes hdr) sizeof_logger_entry) 0 (header_bytes hdr)
    Hok1 ltac:(rewrite Hz; apply Hok) ltac:(rewrite Hz; lia) Hiov ltac:(lia) ltac:(unfold n, sizeof_logger_entry in *; lia)
    ltac:(rewrite zlen_header; unfold n; lia) Hmid) as Hsegs.
  rewrite Z.sub_0_r in Hsegs. unfold logger_aio_write_from. fold hdr.
  rewrite (proj2 (Z.eqb_neq (len hdr) 0)) by lia.
  unfold logger_aio_write_locked. fold n log1. exact Hsegs.
Qed.

(** Bytes pending from a fixed-up offset are not touched by the write. *)
Lemma fixed_pending_survives p es b done :
  pending log p es -> writing (buffer log) b (w_off log) n done ->
  ring_holds b (fixed log n p) (encodes (advance (size log) n es)).
Proof.
  intros Hp Hwr. destruct write_hdr_bounds as [_ Hn]. pose proof (rf_ok _ _ Href) as Hok.
  pose proof (fixed_pending log Hok p es n Hp Hn) as Hf.
  pose proof (advance_room log Hok p es n Hp Hn) as Hroom.
  apply (wr_keep _ _ _ _ _ Hwr); rewrite ?(ok_len _ Hok); try apply Hf. lia.
Qed.
End Write.

(** ** Writes *)

Lemma write_appends log a m c ki_left iov back msg :
  refines log a ->
  Forall (fun v => 0 <= iov_len v) iov -> iov_total iov = ki_left -> 0 < ki_left ->
  gather m iov (Z.min ki_left LOGGER_ENTRY_MAX_PAYLOAD) = Some msg ->
  exists log',
    logger_aio_write_from back log m c ki_left iov =
      (log', Z.min ki_left LOGGER_ENTRY_MAX_PAYLOAD) /\
    refines log' (alog_write (size log) (Entry (write_header c ki_left) msg) a).
Proof.
  intros Href Hiov Htot Hpos Hmsg. pose proof (rf_ok _ _ Href) as Hok.
  destruct (write_header_len c ki_left ltac:(lia)) as [El Eb].
  destruct (write_hdr_bounds c ki_left Hpos) as [Hl Hn].
  pose proof (write_locked_cases log a m c ki_left iov Href Hiov Hpos back) as Hcase.
  cbn zeta in Hcase. rewrite El, Hmsg in Hcase. destruct Hcase as (log' & Hw & Hmid).
  apply zlen_gather in Hmsg as Hlen; [| done | unfold LOGGER_ENTRY_MAX_PAYLOAD, LOGGER_ENTRY_MAX_LEN,
    sizeof_logger_entry; lia].
  assert (Hlen' : zlen msg = len (write_header c ki_left)) by lia.
  rewrite <- El in *. clear El Hlen.
  set (hdr := write_header c ki_left) in *. set (n := sizeof_logger_entry + len hdr) in *.
  exists log'. split; [by rewrite Hw, Hlen' |].
  assert (He : zlen (encode (Entry hdr msg)) = n) by (rewrite zlen_encode; cbn; lia).
  unfold alog_write. rewrite He. rewrite fix_up_readers_eq in Hmid.
  destruct Hmid as [Hfr Hok' Hwoff Hwr]. cbn [buffer size set_readers set_head] in Hwr, Hwoff.
  apply (refines_pointwise log a log' (fixed log n)); try done; try (rewrite Hfr; done).
  intros p es Hp.
  pose proof (fixed_pending log Hok p es n Hp Hn) as Hf.
  pose proof (advance_room log Hok p es n Hp Hn) as Hroom.
  pose proof (fixed_pending_survives log a c ki_left Href Hpos p es _ _ Hp Hwr) as Hkeep.
  assert (Hsz : size log' = size log) by (rewrite Hfr; done).
  assert (Hdone : zlen (header_bytes hdr ++ msg) = n) by (rewrite zlen_app, zlen_header; lia).
  constructor; rewrite ?Hsz, ?encodes_app, ?encodes_one, ?zlen_app, ?He; fold n.
  - apply Hf.
  - apply Forall_app. split; [apply Hf |]. apply Forall_singleton. unfold entry_ok. cbn [e_hdr e_msg]. lia.
  - exact Hroom.
  - rewrite Hwoff, Hdone, <- (pd_end _ _ _ Hf), Zplus_mod_idemp_l. f_equal. lia.
  - apply ring_holds_app. rewrite (ok_len _ Hok'), Hsz, (pd_end _ _ _ Hf). split; [exact Hkeep |].
    exact (wr_done _ _ _ _ _ Hwr).
Qed.

Lemma write_fault log a m c ki_left iov :
  refines log a ->
  Forall (fun v => 0 <= iov_len v) iov -> 0 < ki_left ->
  gather m iov (Z.min ki_left LOGGER_ENTRY_MAX_PAYLOAD) = None ->
  exists log',
    logger_aio_write log m c ki_left iov = (log', - EFAULT) /\
    refines log' (alog_map (advance (size log)
      (sizeof_logger_entry + Z.min ki_left LOGGER_ENTRY_MAX_PAYLOAD)) a).
Proof.
  intros Href Hiov Hpos Hmsg. pose proof (rf_ok _ _ Href) as Hok.
  destruct (write_header_len c ki_left ltac:(lia)) as [El Eb].
  destruct (write_hdr_bounds c ki_left Hpos) as [Hl Hn].
  pose proof (write_locked_cases log a m c ki_left iov Href Hiov Hpos (w_off log)) as Hcase.
  cbn zeta in Hcase. rewrite El, Hmsg in Hcase. rewrite <- El in *.
  destruct Hcase as (b' & Hw & done' & Hwr).
  set (n := sizeof_logger_entry + len (write_header c ki_left)) in *.
  rewrite fix_up_readers_eq in Hw, Hwr. cbn [buffer set_readers set_head] in Hwr.
  eexists. split; [exact Hw |].
  apply (refines_pointwise log a _ (fixed log n)); try done.
  - destruct Hok. constructor; try done. cbn. by rewrite (wr_len _ _ _ _ _ Hwr).
  - intros p es Hp. pose proof (fixed_pending log Hok p es n Hp Hn) as [F1 F2 F3 F4 F5].
    constructor; try done. cbn.
    apply (fixed_pending_survives log a c ki_left Href Hpos p es b' done' Hp Hwr).
Qed.

(** ** Reads *)

(** The abstract read: the reader gives up its first pending entry. *)
Definition alog_read (rid : nat) (a : alog) : alog :=
  ALog (a_head a)
    ((fun ar => if Nat.eqb ar.1 rid then (ar.1, tail ar.2) else ar) <$> a_readers a).

Lemma find_reader_in log rid rd :
  find_reader log rid = Some rd -> rd ∈ readers log /\ rd_id rd = rid.
Proof.
  unfold find_reader. intros H. apply List.find_some in H as [Hin Hid].
  apply Nat.eqb_eq in Hid. by rewrite list_elem_of_In.
Qed.

Lemma readers_id_inj log r1 r2 :
  NoDup (rd_id <$> readers log) -> r1 ∈ readers log -> r2 ∈ readers log ->
  rd_id r1 = rd_id r2 -> r1 = r2.
Proof.
  generalize (readers log). intros l. induction l as [|r l IH]; [set_solver |].
  cbn. rewrite NoDup_cons. intros [Hni Hnd] H1 H2 Heq.
  apply elem_of_cons in H1 as [->|H1], H2 as [->|H2]; auto.
  - destruct Hni. rewrite Heq. by apply list_elem_of_fmap_2.
  - destruct Hni. rewrite <- Heq. by apply list_elem_of_fmap_2.
Qed.

Lemma refines_set_reader log a rd e es :
  refines log a -> rd ∈ readers log -> pending log (r_off rd) (e :: es) ->
  refines
    (set_readers log
       (set_r_off (rd_id rd) ((r_off rd + zlen (encode e)) mod size log) <$> readers log))
    (alog_read (rd_id rd) a).
Proof.
  intros [Hok Hh Hr Hnd] Hin Hp. constructor.
  - destruct Hok. by constructor.
  - destruct Hh. by constructor.
  - cbn. apply Forall2_fmap. apply (Forall2_impl_in _ _ _ _ Hr).
    intros r [i es'] Hrin _ [Hid Hpr]. cbn in *. subst i. unfold set_r_off.
    destruct (Nat.eqb_spec (rd_id r) (rd_id rd)) as [E|E]; cbn.
    + split; [done |]. assert (r = rd) as -> by (by eapply readers_id_inj).
      destruct es' as [|e' es'].
      { pose proof (proj2 (pending_empty log _ _ Hpr) eq_refl) as H'.
        by apply (pending_empty log _ _ Hp) in H'. }
      pose proof (pending_next log Hok _ _ _ Hpr) as Hn. cbn.
      rewrite <- (get_entry_len_pending log Hok _ _ _ Hpr) in Hn.
      rewrite (get_entry_len_pending log Hok _ _ _ Hp) in Hn. by destruct Hn.
    + split; [done |]. by destruct Hpr.
  - cbn. rewrite <- list_fmap_compose.
    erewrite list_fmap_ext; [exact Hnd |]. intros j r _. cbn. unfold set_r_off. by case_if.
Qed.

Lemma read_entry log a rd e es m m' buf count :
  refines log a -> rd ∈ readers log -> pending log (r_off rd) (e :: es) ->
  zlen (encode e) <= count -> copy_to_user m buf (encode e) = (m', 0) ->
  exists log', logger_read_locked log rd m buf count = Some (m', log', zlen (encode e)) /\
    refines log' (alog_read (rd_id rd) a).
Proof.
  intros Href Hin Hp Hcount Hcopy. pose proof (rf_ok _ _ Href) as Hok.
  unfold logger_read_locked. rewrite (get_entry_len_pending log Hok _ _ _ Hp).
  destruct (w_off log =? r_off rd) eqn:E; [by apply (pending_empty log _ _ Hp) in E |].
  rewrite (proj2 (Z.ltb_ge count _)) by done.
  rewrite (do_read_log_to_user_entry log rd e es m buf m' Hok Hp Hcopy).
  eexists. split; [done |]. by apply (refines_set_reader log a rd e es).
Qed.

Lemma read_no_effect log a rd es m buf count :
  refines log a -> rd ∈ readers log -> pending log (r_off rd) es ->
  match es with
  | [] => logger_read_locked log rd m buf count = None /\
          logger_read_wait log rd true false = WaitError (- EAGAIN) /\
          logger_read_wait log rd false true = WaitError (- EINTR) /\
          logger_read_wait log rd false false = WaitSchedule
  | e :: _ =>
      (forall nb sg, logger_read_wait log rd nb sg = WaitReady) /\
      (count < zlen (encode e) ->
         logger_read_locked log rd m buf count = Some (m, log, - EINVAL)) /\
      (zlen (encode e) <= count -> (copy_to_user m buf (encode e)).2 <> 0 ->
         exists m', logger_read_locked log rd m buf count = Some (m', log, - EFAULT))
  end.
Proof.
  intros Href Hin Hp. pose proof (rf_ok _ _ Href) as Hok.
  unfold logger_read_wait, logger_read_locked. destruct es as [|e es].
  - rewrite (proj2 (pending_empty log _ _ Hp)) by done. done.
  - destruct (w_off log =? r_off rd) eqn:E; [by apply (pending_empty log _ _ Hp) in E |].
    rewrite (get_entry_len_pending log Hok _ _ _ Hp). cbn. split_and!; [done | |].
    + intros Hc. by rewrite (proj2 (Z.ltb_lt count _)).
    + intros Hc Hf. rewrite (proj2 (Z.ltb_ge count _)) by done.
      destruct (do_read_log_to_user_fault log rd e es m buf Hok Hp Hf) as [m' ->]. by exists m'.
Qed.

(** ** Opening, flushing, closing *)

Lemma pending_set_readers log rs p es : pending log p es -> pending (set_readers log rs) p es.
Proof. intros []. by constructor. Qed.

Lemma refines_open log a r :
  refines log a -> r ∉ rd_id <$> readers log ->
  refines (set_readers log (list_add_tail (LoggerReader r (head log)) (readers log)))
    (ALog (a_head a) (a_readers a ++ [(r, a_head a)])).
Proof.
  intros [Hok Hh Hr Hnd] Hfresh. unfold list_add_tail. constructor.
  - destruct Hok. by constructor.
  - destruct Hh. by constructor.
  - cbn. apply Forall2_app.
    + eapply Forall2_impl; [exact Hr |]. intros ? ? [? ?]. auto using pending_set_readers.
    + constructor; [| constructor]. cbn. auto using pending_set_readers.
  - cbn. rewrite fmap_app. apply NoDup_app. split_and!; [done | | apply NoDup_singleton].
    intros x Hx. cbn. rewrite list_elem_of_singleton. by intros ->.
Qed.

Lemma refines_release log a rid :
  refines log a ->
  refines (set_readers log (filter (fun r => rd_id r <> rid) (readers log)))
    (ALog (a_head a) (filter (fun ar => ar.1 <> rid) (a_readers a))).
Proof.
  intros [Hok Hh Hr Hnd]. constructor.
  - destruct Hok. by constructor.
  - destruct Hh. by constructor.
  - cbn [readers a_readers set_readers].
    pose proof (pending_set_readers log (filter (fun r => rd_id r <> rid) (readers log))) as Hset.
    unfold set_readers in *. revert Hset. generalize (LoggerLog (buffer log) (minor log)
      (filter (fun r => rd_id r <> rid) (readers log)) (w_off log) (head log) (size log)).
    intros log' Hset. clear Hh Hnd. induction Hr as [|r ar rs ars [Hid Hp] _ IH]; [constructor |].
    rewrite !filter_cons, Hid. destruct (decide (ar.1 <> rid)); [| done].
    constructor; auto.
  - cbn. clear Hr. induction (readers log) as [|r rs IH]; [constructor |].
    cbn in Hnd. apply NoDup_cons in Hnd as [Hni Hnd]. rewrite filter_cons.
    case_decide; [| auto]. cbn. constructor; [| auto].
    intros Hin. apply Hni. apply list_elem_of_fmap in Hin as (r' & -> & Hin).
    apply list_elem_of_filter in Hin as [_ Hin]. by apply list_elem_of_fmap_2.
Qed.

Lemma refines_flush log a : refines log a -> refines (flush_log log) (alog_map (fun _ => []) a).
Proof.
  intros Href. pose proof (rf_ok _ _ Href) as Hok.
  apply (refines_pointwise log a (flush_log log) (fun _ => w_off log)); try done.
  - destruct Hok. by constructor.
  - intros p es Hp. pose proof (ok_woff _ Hok).
    constructor; change (encodes []) with (@nil Z); cbn; change (zlen []) with 0.
    + lia.
    + constructor.
    + lia.
    + by rewrite Z.add_0_r, Z.mod_small.
    + apply ring_holds_nil.
Qed.

Lemma define_logger_device_refines mi k :
  12 < k < 31 -> refines (define_logger_device mi (2 ^ k)) (ALog [] []).
Proof.
  intros Hk. pose proof (Z.pow_pos_nonneg 2 k). pose proof (Z.pow_lt_mono_r 2 12 k).
  constructor; cbn; try by constructor.
  - constructor; cbn.
    + exists k. split; [lia | done].
    + unfold LOGGER_ENTRY_MAX_LEN. lia.
    + rewrite zlen_replicate. lia.
    + lia.
  - constructor; change (encodes []) with (@nil Z); cbn; change (zlen []) with 0; try lia.
    + constructor.
    + by rewrite Z.mod_0_l by lia.
    + apply ring_holds_nil.
Qed.

(** ** The four devices as a transition system *)

Definition devices_ok (s : logs) : Prop := forall i, exists a, refines (get_log s i) a.

(** The write offset that a write sampled before it took the lock is [back]; it
    matters only when the data cannot be read. *)
Definition stale_fault (back : Z) (log : logger_log) (m : umem) (ki_left : Z) (iov : list iovec) : bool :=
  bool_decide (gather m iov (Z.min ki_left LOGGER_ENTRY_MAX_PAYLOAD) = None /\ back <> w_off log).

(** The steps, with whether they are a stale fault. *)
Inductive logs_step : bool -> logs -> logs -> Prop :=
  | step_open s s' open_ret mi fr fw nb rid res :
      (forall i r, rid = Some r -> r ∉ rd_id <$> readers (get_log s i)) ->
      logger_open s open_ret mi fr fw nb rid = (s', res) ->
      logs_step false s s'
  | step_release s f : logs_step false s (logger_release s f)
  | step_write s i m c ki_left iov back log' ret :
      Forall (fun v => 0 <= iov_len v) iov -> iov_total iov = ki_left ->
      logger_aio_write_from back (get_log s i) m c ki_left iov = (log', ret) ->
      logs_step (stale_fault back (get_log s i) m ki_left iov) s (set_log s i log')
  | step_read s i rd m buf count m' log' ret :
      rd ∈ readers (get_log s i) ->
      logger_read_locked (get_log s i) rd m buf count = Some (m', log', ret) ->
      logs_step false s (set_log s i log')
  | step_ioctl s f cmd s' ret :
      logger_ioctl s f cmd = (s', ret) -> logs_step false s s'.

Lemma get_set_log s i j l :
  get_log (set_log s i l) j = if decide (i = j) then l else get_log s j.
Proof. by destruct i, j. Qed.

Lemma devices_ok_set s i l a : devices_ok s -> refines l a -> devices_ok (set_log s i l).
Proof. intros Hs Hl j. rewrite get_set_log. case_decide; [by exists a | apply Hs]. Qed.

Lemma write_some_refines log a m c ki_left iov back log' ret :
  refines log a -> Forall (fun v => 0 <= iov_len v) iov -> iov_total iov = ki_left ->
  stale_fault back log m ki_left iov = false ->
  logger_aio_write_from back log m c ki_left iov = (log', ret) ->
  exists a', refines log' a'.
Proof.
  intros Href Hiov Htot Hback%bool_decide_eq_false Hw.
  assert (Hki : 0 <= ki_left).
  { rewrite <- Htot. clear -Hiov. induction Hiov; cbn; [lia |].
    change (foldr _ 0 l) with (iov_total l). lia. }
  destruct (Z.eqb_spec ki_left 0) as [E|E].
  { rewrite E in Hw. unfold logger_aio_write_from in Hw. cbn in Hw. injection Hw as <- _. by exists a. }
  destruct (gather m iov (Z.min ki_left LOGGER_ENTRY_MAX_PAYLOAD)) as [msg|] eqn:Eg.
  - destruct (write_appends log a m c ki_left iov back msg) as (l' & Hw' & Hr'); try done; try lia.
    rewrite Hw in Hw'. injection Hw' as -> _. eauto.
  - destruct (write_fault log a m c ki_left iov) as (l' & Hw' & Hr'); try done; try lia.
    assert (back = w_off log) as -> by (destruct (decide (back = w_off log)); [done|by destruct Hback]).
    unfold logger_aio_write in Hw'. rewrite Hw in Hw'.
    injection Hw' as -> _. eauto.
Qed.

Lemma read_some_refines log a rd m buf count m' log' ret :
  refines log a -> rd ∈ readers log ->
  logger_read_locked log rd m buf count = Some (m', log', ret) -> exists a', refines log' a'.
Proof.
  intros Href Hin Hread.
  destruct (proj1 (list_elem_of_lookup _ _) Hin) as [k Hk].
  destruct (Forall2_lookup_l _ _ _ _ _ (rf_readers _ _ Href) Hk) as ([i es] & _ & _ & Hp).
  cbn in Hp. pose proof (read_no_effect log a rd es m buf count Href Hin Hp) as Hno.
  destruct es as [|e es]; [destruct Hno as [Hno _]; congruence |].
  destruct Hno as (_ & Hsmall & Hfault).
  destruct (Z.ltb_spec count (zlen (encode e))) as [Hc|Hc].
  { rewrite (Hsmall Hc) in Hread. injection Hread as <- <- <-. by exists a. }
  destruct (copy_to_user m buf (encode e)) as [m1 r1] eqn:Ec. cbn in Hfault.
  destruct (Z.eqb_spec r1 0) as [->|Hr1].
  - destruct (read_entry log a rd e es m m1 buf count Href Hin Hp Hc Ec) as (l' & Hl & Hr).
    rewrite Hread in Hl. injection Hl as -> -> ->. eauto.
  - destruct (Hfault Hc Hr1) as [m2 Hl]. rewrite Hread in Hl. injection Hl as -> -> ->. eauto.
Qed.

Lemma logs_step_ok s s' : logs_step false s s' -> devices_ok s -> devices_ok s'.
Proof.
  intros H. remember false as stale eqn:Hb. destruct H as [s s' oret mi fr fw nb rid res Hfresh Ho | s f | s i m c ki iov back l r Hiov Ht Hw
                |s i rd m buf count m' l r Hin Hr | s f cmd s' r Hi]; intros Hs.
  - unfold logger_open in Ho. destruct (negb (oret =? 0)); [by injection Ho as <- <- |].
    destruct (get_log_from_minor s mi) as [i|]; [| by injection Ho as <- <-].
    destruct fr; [| by injection Ho as <- <-].
    destruct rid as [r|]; [| by injection Ho as <- <-]. injection Ho as <- <-.
    destruct (Hs i) as [a Ha]. eapply devices_ok_set; [done |]. apply refines_open; eauto.
  - unfold logger_release. destruct (f_read f); [| done]. destruct (f_data f) as [i rid|]; [| done].
    destruct (Hs i) as [a Ha]. eapply devices_ok_set; [done |]. by apply refines_release.
  - destruct (Hs i) as [a Ha].
    destruct (write_some_refines _ _ _ _ _ _ _ _ _ Ha Hiov Ht Hb Hw) as [a' Ha'].
    by eapply devices_ok_set.
  - destruct (Hs i) as [a Ha]. destruct (read_some_refines _ _ _ _ _ _ _ _ _ Ha Hin Hr) as [a' Ha'].
    by eapply devices_ok_set.
  - unfold logger_ioctl in Hi. destruct cmd; try (by injection Hi as <- <-).
    1,2: destruct (negb (f_read f)); [by injection Hi as <- <- |];
         destruct (file_reader s f); by injection Hi as <- <-.
    destruct (negb (f_write f)); injection Hi as <- <-; [done |].
    destruct (Hs (file_get_log f)) as [a Ha]. eapply devices_ok_set; [done |]. by apply refines_flush.
Qed.

(** ** Properties *)

(** A small log, a user memory holding two bytes and a writer, for witnesses. *)
Definition ex_log : logger_log := define_logger_device 0 (2 ^ 13).
Definition ex_reader : logger_reader := LoggerReader 7 0.
Definition ex_log_reader : logger_log :=
  set_readers ex_log (list_add_tail ex_reader (readers ex_log)).
Definition ex_mem : umem := Umem {[100 := 104; 101 := 105]} 1000.
Definition ex_writer : writer := Writer 10 11 12 13 0.
Definition ex_iov : list iovec := [Iovec 100 1; Iovec 101 1].

Lemma ex_refines : refines ex_log (ALog [] []).
Proof. apply (define_logger_device_refines 0 13). lia. Qed.

Lemma ex_reader_refines : refines ex_log_reader (ALog [] [(7%nat, [])]).
Proof. apply (refines_open ex_log (ALog [] []) 7 ex_refines). apply not_elem_of_nil. Qed.

(** C8: A write whose user memory is readable appends exactly one entry, the
    header followed by the first bytes of the caller's segments (at most
    LOGGER_ENTRY_MAX_PAYLOAD), and returns the payload length.  Every reader
    and the start offset keep their pending entries, except that one the write
    would lap first drops whole entries.  This holds whatever value of [w_off]
    the writer sampled before taking the mutex. *)
Theorem logger_aio_write_appends log a m c ki_left iov back msg :
  refines log a ->
  Forall (fun v => 0 <= iov_len v) iov -> iov_total iov = ki_left -> 0 < ki_left ->
  gather m iov (Z.min ki_left LOGGER_ENTRY_MAX_PAYLOAD) = Some msg ->
  exists log',
    logger_aio_write_from back log m c ki_left iov =
      (log', Z.min ki_left LOGGER_ENTRY_MAX_PAYLOAD) /\
    refines log' (alog_write (size log) (Entry (write_header c ki_left) msg) a).
Proof. apply write_appends. Qed.

Lemma logger_aio_write_appends_witness :
  exists log', logger_aio_write_from 0 ex_log ex_mem ex_writer 2 ex_iov = (log', 2) /\
    refines log' (ALog [Entry (write_header ex_writer 2) [104; 105]] []).
Proof.
  apply (logger_aio_write_appends ex_log (ALog [] []) ex_mem ex_writer 2 ex_iov 0 [104; 105]).
  - exact ex_refines.
  - repeat constructor; cbn; lia.
  - reflexivity.
  - lia.
  - reflexivity.
Defined.

(** A write that faults on user memory returns -EFAULT and appends nothing:
    the write offset is back where it was and what is pending from every offset
    is what remained after the fix-up, whole and undamaged. *)
Theorem logger_aio_write_fault log a m c ki_left iov :
  refines log a ->
  Forall (fun v => 0 <= iov_len v) iov -> 0 < ki_left ->
  gather m iov (Z.min ki_left LOGGER_ENTRY_MAX_PAYLOAD) = None ->
  exists log',
    logger_aio_write log m c ki_left iov = (log', - EFAULT) /\
    refines log' (alog_map (advance (size log)
      (sizeof_logger_entry + Z.min ki_left LOGGER_ENTRY_MAX_PAYLOAD)) a).
Proof. apply write_fault. Qed.

Lemma logger_aio_write_fault_witness :
  exists log', logger_aio_write ex_log ex_mem ex_writer 5 [Iovec 100 5] = (log', - EFAULT) /\
    refines log' (ALog [] []).
Proof.
  apply (logger_aio_write_fault ex_log (ALog [] []) ex_mem ex_writer 5 [Iovec 100 5]).
  - exact ex_refines.
  - repeat constructor; cbn; lia.
  - lia.
  - reflexivity.
Defined.

(** A read with an entry pending returns exactly that entry: the user
    buffer receives the header and payload as they were written (one whole
    [copy_to_user] of the encoded entry), the call returns its length and only
    this reader moves, to the entry behind. *)
Theorem logger_read_returns_entry log a rd e es m m' buf count :
  refines log a -> rd ∈ readers log -> pending log (r_off rd) (e :: es) ->
  zlen (encode e) <= count -> copy_to_user m buf (encode e) = (m', 0) ->
  exists log', logger_read_locked log rd m buf count = Some (m', log', zlen (encode e)) /\
    refines log' (alog_read (rd_id rd) a).
Proof. apply read_entry. Qed.

(** The log after one write of ["hi"] with a reader waiting for it. *)
Definition ex_log_hi : logger_log :=
  (logger_aio_write ex_log_reader ex_mem ex_writer 2 ex_iov).1.
Definition ex_entry_hi : entry := Entry (write_header ex_writer 2) [104; 105].

Lemma ex_hi_refines : refines ex_log_hi (ALog [ex_entry_hi] [(7%nat, [ex_entry_hi])]).
Proof.
  destruct (write_appends ex_log_reader (ALog [] [(7%nat, [])]) ex_mem ex_writer 2 ex_iov
    (w_off ex_log_reader) [104; 105]) as (l & Hl & Hr).
  - exact ex_reader_refines.
  - repeat constructor; cbn; lia.
  - reflexivity.
  - lia.
  - reflexivity.
  - unfold ex_log_hi, logger_aio_write. rewrite Hl. exact Hr.
Qed.

Lemma ex_hi_pending :
  LoggerReader 7 0 ∈ readers ex_log_hi /\ pending ex_log_hi 0 [ex_entry_hi].
Proof.
  assert (readers ex_log_hi = [LoggerReader 7 0]) as E by (vm_compute; reflexivity).
  pose proof (rf_readers _ _ ex_hi_refines) as Hr. rewrite E in Hr |- *.
  inversion Hr as [|? ? ? ? [_ Hp] _]; subst. split; [left | exact Hp].
Qed.

Definition ex_out : umem := Umem (list_to_map ((fun i => (Z.of_nat i, 0)) <$> seq 0 64)) 1000.

Lemma logger_read_returns_entry_witness :
  exists log' m', logger_read_locked ex_log_hi (LoggerReader 7 0) ex_out 0 64 =
      Some (m', log', 22) /\ refines log' (ALog [ex_entry_hi] [(7%nat, [])]).
Proof.
  destruct (logger_read_returns_entry ex_log_hi (ALog [ex_entry_hi] [(7%nat, [ex_entry_hi])])
    (LoggerReader 7 0) ex_entry_hi [] ex_out
    (copy_to_user ex_out 0 (encode ex_entry_hi)).1 0 64) as (l & Hl & Hr).
  - exact ex_hi_refines.
  - apply ex_hi_pending.
  - apply ex_hi_pending.
  - vm_compute. discriminate.
  - vm_compute. reflexivity.
  - exists l. eexists. split; [exact Hl | exact Hr].
Defined.

(** The other outcomes of a read change nothing in the log: with nothing
    pending the second test sends the reader back to wait, and the wait ends
    with -EAGAIN for a non-blocking file, -EINTR on a signal and otherwise
    sleeps; with a buffer shorter than the next entry the read returns
    -EINVAL; a fault while copying returns -EFAULT. *)
Theorem logger_read_no_effect log a rd es m buf count :
  refines log a -> rd ∈ readers log -> pending log (r_off rd) es ->
  match es with
  | [] => logger_read_locked log rd m buf count = None /\
          logger_read_wait log rd true false = WaitError (- EAGAIN) /\
          logger_read_wait log rd false true = WaitError (- EINTR) /\
          logger_read_wait log rd false false = WaitSchedule
  | e :: _ =>
      (forall nb sg, logger_read_wait log rd nb sg = WaitReady) /\
      (count < zlen (encode e) ->
         logger_read_locked log rd m buf count = Some (m, log, - EINVAL)) /\
      (zlen (encode e) <= count -> (copy_to_user m buf (encode e)).2 <> 0 ->
         exists m', logger_read_locked log rd m buf count = Some (m', log, - EFAULT))
  end.
Proof. apply read_no_effect. Qed.

Lemma logger_read_no_effect_witness :
  logger_read_locked ex_log_hi (LoggerReader 7 0) ex_out 0 21 = Some (ex_out, ex_log_hi, - EINVAL).
Proof.
  apply (logger_read_no_effect ex_log_hi (ALog [ex_entry_hi] [(7%nat, [ex_entry_hi])])
    (LoggerReader 7 0) [ex_entry_hi] ex_out 0 21).
  - exact ex_hi_refines.
  - apply ex_hi_pending.
  - apply ex_hi_pending.
  - vm_compute. reflexivity.
Defined.

(** C7: From their initial state, under any interleaving of opens, closes,
    reads, writes and ioctls on the four devices without a stale fault, every log
    stays a well-formed ring: the buffer keeps its extent, all offsets are in
    range and lie on entry boundaries, and the bytes from each of them up to the
    write offset are whole entries.  A stale fault is a write that cannot read its
    data and whose sample of [w_off], taken without the lock, is no longer
    [w_off]; other writes that fault are included.  A stale fault does break a log
    (logger.c:328). *)
Theorem logger_devices_invariant m1 m2 m3 m4 s :
  rtc (logs_step false) (logger_devices m1 m2 m3 m4) s -> devices_ok s.
Proof.
  intros Hsteps.
  assert (Hinit : devices_ok (logger_devices m1 m2 m3 m4)).
  { intros i. exists (ALog [] []).
    destruct i; cbn; [apply (define_logger_device_refines _ 16) | apply (define_logger_device_refines _ 18)
      | apply (define_logger_device_refines _ 16) | apply (define_logger_device_refines _ 16)]; lia. }
  induction Hsteps as [|s1 s2 s3 Hstep _ IH]; [done |]. eauto using logs_step_ok.
Qed.

(** A write, and one that faults behind it. *)
Definition ex_written : logs :=
  let s := logger_devices 1 2 3 4 in
  let s1 := set_log s log_main (logger_aio_write (get_log s log_main) ex_mem ex_writer 2 ex_iov).1 in
  set_log s1 log_main (logger_aio_write (get_log s1 log_main) ex_mem ex_writer 1 [Iovec 500 1]).1.

Lemma logger_devices_invariant_witness : w_off (get_log ex_written log_main) = 22 /\ devices_ok ex_written.
Proof.
  split; [vm_compute; reflexivity|]. apply (logger_devices_invariant 1 2 3 4).
  eapply rtc_l; [|eapply rtc_l; [|apply rtc_refl]].
  - pose proof (step_write (logger_devices 1 2 3 4) log_main ex_mem ex_writer 2 ex_iov 0) as W.
    eapply W; [by repeat constructor|reflexivity|]. apply surjective_pairing.
  - match goal with |- logs_step false ?s _ => pose proof (step_write s log_main ex_mem ex_writer 1 [Iovec 500 1] 22) as W end.
    eapply W; [by repeat constructor|reflexivity|]. apply surjective_pairing.
Defined.

(** The queries answer with what is pending for the reader:
    LOGGER_GET_LOG_LEN the number of bytes up to the write offset,
    LOGGER_GET_NEXT_ENTRY_LEN the size of the next entry (0 when there is
    none), and poll reports input exactly when something is pending. *)
Theorem logger_queries s f i rid rd es a :
  f = File true (f_write f) (f_nonblock f) (PReader i rid) ->
  refines (get_log s i) a -> find_reader (get_log s i) rid = Some rd ->
  pending (get_log s i) (r_off rd) es ->
  logger_ioctl s f LOGGER_GET_LOG_LEN = (s, zlen (encodes es)) /\
  logger_ioctl s f LOGGER_GET_NEXT_ENTRY_LEN =
    (s, match es with [] => 0 | e :: _ => zlen (encode e) end) /\
  logger_poll s f = match es with [] => 260 | _ => 325 end.
Proof.
  intros Hf Href Hfind Hp. pose proof (rf_ok _ _ Href) as Hok.
  rewrite Hf. unfold logger_ioctl, logger_poll, file_reader, file_get_log. cbn. rewrite Hfind.
  pose proof (ok_woff _ Hok). pose proof (zlen_nonneg (encodes es)) as Hnn. split.
  - f_equal. unfold log_len. destruct Hp as [Ho _ Hfit He _]. rewrite <- He.
    rewrite mod_once by lia. destruct (Z.ltb_spec (r_off rd + zlen (encodes es)) (size (get_log s i)));
      case_if; lia.
  - pose proof (pending_empty _ _ _ Hp) as Hemp. destruct es as [|e es].
    + rewrite (proj2 Hemp) by done. done.
    + rewrite (get_entry_len_pending _ Hok _ _ _ Hp).
      destruct (w_off (get_log s i) =? r_off rd); [by specialize (proj1 Hemp eq_refl) | done].
Qed.

Lemma logger_queries_witness :
  let s := Logs ex_log_hi ex_log ex_log ex_log in
  let f := File true false false (PReader log_main 7) in
  logger_ioctl s f LOGGER_GET_LOG_LEN = (s, 22) /\ logger_poll s f = 325.
Proof.
  destruct (logger_queries (Logs ex_log_hi ex_log ex_log ex_log)
    (File true false false (PReader log_main 7)) log_main 7 (LoggerReader 7 0)
    [ex_entry_hi] (ALog [ex_entry_hi] [(7%nat, [ex_entry_hi])])) as (H1 & _ & H2).
  - reflexivity.
  - exact ex_hi_refines.
  - vm_compute. reflexivity.
  - apply ex_hi_pending.
  - exact (conj H1 H2).
Defined.

(** An offset short of the write offset has a proper entry at it. *)
Lemma pending_step log p es :
  log_ok log -> pending log p es -> w_off log <> p ->
  sizeof_logger_entry < get_entry_len log p /\
  exists es', pending log ((p + get_entry_len log p) mod size log) es'.
Proof.
  intros Hok Hp Hne. destruct es as [|e es].
  { by apply Z.eqb_neq in Hne; rewrite (proj2 (pending_empty log _ _ Hp) eq_refl) in Hne. }
  rewrite (get_entry_len_pending log Hok _ _ _ Hp). pose proof (pd_ok _ _ _ Hp) as He.
  apply Forall_cons in He as [He _]. split; [by apply entry_len_bounds |].
  exists es. by apply pending_next.
Qed.

Definition ex_log_read : logger_log := set_readers ex_log_hi [LoggerReader 7 22].
Definition ex_log_bad : logger_log :=
  (logger_aio_write_from (w_off ex_log_reader) ex_log_read ex_mem ex_writer 1 [Iovec 500 1]).1.

(** The value of [w_off] that [logger_aio_write] samples before it takes
    the mutex is what a faulting write stores back.  When another write
    completes in between, that store rolls the log back over the other write's
    entry: here the entry is written and read, then the fault leaves the reader
    at an offset from which the ring holds no sequence of entries. *)
Theorem logger_stale_offset_corrupts :
  exists log0 a0 m c iov_ok iov_bad rd m_out log1 log2 log3 m2,
    refines log0 a0 /\
    (* the first writer samples w_off log0; the second writes and returns 2 *)
    logger_aio_write log0 m c 2 iov_ok = (log1, 2) /\
    logger_read_locked log1 rd m_out 0 64 = Some (m2, log2, 22) /\
    (* the first writer now runs its critical section and faults *)
    logger_aio_write_from (w_off log0) log2 m c 1 iov_bad = (log3, - EFAULT) /\
    forall a, ~ refines log3 a.
Proof.
  exists ex_log_reader, (ALog [] [(7%nat, [])]), ex_mem, ex_writer, ex_iov, [Iovec 500 1].
  exists (LoggerReader 7 0), ex_out, ex_log_hi, ex_log_read, ex_log_bad.
  exists (copy_to_user ex_out 0 (encode ex_entry_hi)).1.
  split; [exact ex_reader_refines |]. do 3 (split; [vm_compute; reflexivity |]).
  intros a Hr. pose proof (rf_ok _ _ Hr) as Hok. pose proof (rf_readers _ _ Hr) as Hrd.
  assert (readers ex_log_bad = [LoggerReader 7 22]) as E by (vm_compute; reflexivity).
  rewrite E in Hrd. inversion Hrd as [|? [i es] ? ? [_ Hp] _]; subst. cbn in Hp.
  assert (w_off ex_log_bad = 0 /\ size ex_log_bad = 8192) as [Ew Es] by (split; vm_compute; reflexivity).
  assert (get_entry_len ex_log_bad 22 = 21) as E1 by (vm_compute; reflexivity).
  assert (get_entry_len ex_log_bad 43 = 20) as E2 by (vm_compute; reflexivity).
  destruct (pending_step _ _ _ Hok Hp ltac:(rewrite Ew; lia)) as (_ & es' & Hp').
  rewrite E1, Es in Hp'. change ((22 + 21) mod 8192) with 43 in Hp'.
  destruct (pending_step _ _ _ Hok Hp' ltac:(rewrite Ew; lia)) as [Hbad _].
  rewrite E2 in Hbad. unfold sizeof_logger_entry in Hbad. lia.
Qed.
