(* ===== verification/Wakelock.v ===== *)
(** * Wake locks (kernel/power/wakelock.c)

    The model follows the configuration of the board (zte_blade.config):
    CONFIG_WAKELOCK_STAT and CONFIG_ZTE_SUSPEND_WAKEUP_MONITOR are set and HZ
    is 100.  Every operation runs with [list_lock] held and interrupts off, so
    it is one transition that reads the clocks once ([clock]).  A [BUG_ON] that
    fires is [None].

    [suspend] drops the lock around [pm_suspend]; it is split there into
    [suspend_enter] and [suspend_exit]. *)

From stdpp Require Import base numbers list gmap strings pretty.
From S2P Require Import Prelude.

Open Scope Z_scope.

(** ** Flags and constants *)

Definition WAKE_LOCK_TYPE_MASK : Z := 15.
Definition WAKE_LOCK_INITIALIZED : Z := 2 ^ 8.
Definition WAKE_LOCK_ACTIVE : Z := 2 ^ 9.
Definition WAKE_LOCK_AUTO_EXPIRE : Z := 2 ^ 10.
Definition WAKE_LOCK_PREVENTING_SUSPEND : Z := 2 ^ 11.

Definition WAKE_LOCK_SUSPEND : Z := 0.
Definition WAKE_LOCK_IDLE : Z := 1.
Definition WAKE_LOCK_TYPE_COUNT : Z := 2.

Definition DEBUG_EXIT_SUSPEND : Z := 1.
Definition DEBUG_WAKEUP : Z := 2.
Definition DEBUG_SUSPEND : Z := 4.
Definition DEBUG_EXPIRE : Z := 8.
Definition DEBUG_WAKE_LOCK : Z := 16.

Definition HZ : Z := 100.
Definition TICK_NSEC : Z := 10000000.
Definition NSEC_PER_SEC : Z := 1000000000.

(** [f & mask] as a truth value. *)
Definition flag (f mask : Z) : bool := negb (Z.land f mask =? 0).

(** ** State *)

Record lock_stat := LockStat {
  st_count : Z; st_expire_count : Z; st_wakeup_count : Z;
  total_time : Z; prevent_suspend_time : Z; max_time : Z; last_time : Z }.

Record wake_lock_t := WakeLock {
  flags : Z; name : string; expires : Z; stat : lock_stat }.

(** The locks wakelock.c itself owns. *)
Definition main_wake_lock : nat := 0.
Definition unknown_wakeup : nat := 1.
Definition deleted_wake_locks : nat := 2.

Record wl_state := WlState {
  locks : gmap nat wake_lock_t;
  inactive_locks : list nat;
  active_suspend : list nat;        (* active_wake_locks[WAKE_LOCK_SUSPEND] *)
  active_idle : list nat;           (* active_wake_locks[WAKE_LOCK_IDLE] *)
  current_event_num : Z;
  suspend_queued : bool;            (* suspend_work is pending *)
  expire_timer : option Z;          (* expiry of the pending timer *)
  suspend_exception_timer : option Z;
  last_sleep_time_update : Z;
  wait_for_wakeup : bool;
  debug_mask : Z }.

Definition active_wake_locks (s : wl_state) (type : Z) : list nat :=
  if type =? WAKE_LOCK_SUSPEND then active_suspend s else active_idle s.

Definition set_locks (s : wl_state) l :=
  WlState l (inactive_locks s) (active_suspend s) (active_idle s) (current_event_num s)
    (suspend_queued s) (expire_timer s) (suspend_exception_timer s)
    (last_sleep_time_update s) (wait_for_wakeup s) (debug_mask s).
Definition set_lists (s : wl_state) i a0 a1 :=
  WlState (locks s) i a0 a1 (current_event_num s) (suspend_queued s) (expire_timer s)
    (suspend_exception_timer s) (last_sleep_time_update s) (wait_for_wakeup s) (debug_mask s).
Definition set_event_num (s : wl_state) n :=
  WlState (locks s) (inactive_locks s) (active_suspend s) (active_idle s) n
    (suspend_queued s) (expire_timer s) (suspend_exception_timer s)
    (last_sleep_time_update s) (wait_for_wakeup s) (debug_mask s).
Definition set_queued (s : wl_state) q :=
  WlState (locks s) (inactive_locks s) (active_suspend s) (active_idle s)
    (current_event_num s) q (expire_timer s) (suspend_exception_timer s)
    (last_sleep_time_update s) (wait_for_wakeup s) (debug_mask s).
Definition set_expire_timer (s : wl_state) t :=
  WlState (locks s) (inactive_locks s) (active_suspend s) (active_idle s)
    (current_event_num s) (suspend_queued s) t (suspend_exception_timer s)
    (last_sleep_time_update s) (wait_for_wakeup s) (debug_mask s).
Definition set_exception_timer (s : wl_state) t :=
  WlState (locks s) (inactive_locks s) (active_suspend s) (active_idle s)
    (current_event_num s) (suspend_queued s) (expire_timer s) t
    (last_sleep_time_update s) (wait_for_wakeup s) (debug_mask s).
Definition set_last_sleep (s : wl_state) t :=
  WlState (locks s) (inactive_locks s) (active_suspend s) (active_idle s)
    (current_event_num s) (suspend_queued s) (expire_timer s) (suspend_exception_timer s)
    t (wait_for_wakeup s) (debug_mask s).
Definition set_wait (s : wl_state) w :=
  WlState (locks s) (inactive_locks s) (active_suspend s) (active_idle s)
    (current_event_num s) (suspend_queued s) (expire_timer s) (suspend_exception_timer s)
    (last_sleep_time_update s) w (debug_mask s).

Definition set_flags (l : wake_lock_t) f := WakeLock f (name l) (expires l) (stat l).
Definition set_expires (l : wake_lock_t) e := WakeLock (flags l) (name l) e (stat l).
Definition set_stat (l : wake_lock_t) st := WakeLock (flags l) (name l) (expires l) st.

Definition update_lock (s : wl_state) (id : nat) (f : wake_lock_t -> wake_lock_t) : wl_state :=
  set_locks s (alter f id (locks s)).

(** [list_del(&lock->link)]: the entry leaves whichever list it is on. *)
Definition link_del (s : wl_state) (id : nat) : wl_state :=
  set_lists s (list_del id (inactive_locks s)) (list_del id (active_suspend s))
    (list_del id (active_idle s)).

Definition link_inactive (s : wl_state) (id : nat) : wl_state :=
  set_lists s (list_add id (inactive_locks s)) (active_suspend s) (active_idle s).

(** [list_add] (no timeout) or [list_add_tail] (timeout) to the active list. *)
Definition link_active (s : wl_state) (type : Z) (tail : bool) (id : nat) : wl_state :=
  let add := if tail then list_add_tail id else list_add id in
  if type =? WAKE_LOCK_SUSPEND
  then set_lists s (inactive_locks s) (add (active_suspend s)) (active_idle s)
  else set_lists s (inactive_locks s) (active_suspend s) (add (active_idle s)).

(** ** Clocks *)

(** [jiffies], [ktime_get()] in nanoseconds, and the two timespecs that
    [get_expired_time] samples under [xtime_lock]. *)
Record clock := Clock {
  jiffies : Z; ktime_get : Z;
  kt_sec : Z; kt_nsec : Z; tomono_sec : Z; tomono_nsec : Z }.

(** [lock->expires - jiffies] as a [long]. *)
Definition time_left (clk : clock) (l : wake_lock_t) : Z := s32 (expires l - jiffies clk).

Definition jiffies_to_timespec (j : Z) : Z * Z :=
  let n := u32 j * TICK_NSEC in (n / NSEC_PER_SEC, n mod NSEC_PER_SEC).

Definition set_normalized_timespec (sec nsec : Z) : Z * Z :=
  (sec + nsec / NSEC_PER_SEC, nsec mod NSEC_PER_SEC).

Definition timespec_to_ktime (ts : Z * Z) : Z := ts.1 * NSEC_PER_SEC + ts.2.

Definition get_expired_time (clk : clock) (l : wake_lock_t) : option Z :=
  if negb (flag (flags l) WAKE_LOCK_AUTO_EXPIRE) then None
  else
    let timeout := time_left clk l in
    if 0 <? timeout then None
    else
      let delta := jiffies_to_timespec (- timeout) in
      Some (timespec_to_ktime
        (set_normalized_timespec (kt_sec clk + tomono_sec clk - delta.1)
           (kt_nsec clk + tomono_nsec clk - delta.2))).

(** ** Statistics *)

Definition wake_unlock_stat_lock (clk : clock) (last_sleep : Z) (expired : bool)
    (l : wake_lock_t) : wake_lock_t :=
  if negb (flag (flags l) WAKE_LOCK_ACTIVE) then l
  else
    let '(expired, now) :=
      match get_expired_time clk l with
      | Some t => (true, t)
      | None => (expired, ktime_get clk)
      end in
    let st := stat l in
    let duration := now - last_time st in
    let prev := flag (flags l) WAKE_LOCK_PREVENTING_SUSPEND in
    WakeLock
      (if prev then Z.ldiff (flags l) WAKE_LOCK_PREVENTING_SUSPEND else flags l)
      (name l) (expires l)
      (LockStat (st_count st + 1)
         (if expired then st_expire_count st + 1 else st_expire_count st)
         (st_wakeup_count st)
         (total_time st + duration)
         (if prev then prevent_suspend_time st + (now - last_sleep)
          else prevent_suspend_time st)
         (if max_time st <? duration then duration else max_time st)
         (ktime_get clk)).

Definition wake_unlock_stat_locked (clk : clock) (s : wl_state) (id : nat)
    (expired : bool) : wl_state :=
  update_lock s id (wake_unlock_stat_lock clk (last_sleep_time_update s) expired).

(** One turn of the loop of [update_sleep_wait_stats_locked]. *)
Definition sleep_wait_lock (clk : clock) (last_sleep : Z) (done : bool)
    (l : wake_lock_t) : wake_lock_t :=
  let elapsed := ktime_get clk - last_sleep in
  let etime := get_expired_time clk l in
  let l1 :=
    if flag (flags l) WAKE_LOCK_PREVENTING_SUSPEND then
      let add := match etime with Some t => t - last_sleep | None => elapsed end in
      let st := stat l in
      set_stat l (LockStat (st_count st) (st_expire_count st) (st_wakeup_count st)
        (total_time st) (prevent_suspend_time st + add) (max_time st) (last_time st))
    else l in
  if done || bool_decide (is_Some etime)
  then set_flags l1 (Z.ldiff (flags l1) WAKE_LOCK_PREVENTING_SUSPEND)
  else set_flags l1 (Z.lor (flags l1) WAKE_LOCK_PREVENTING_SUSPEND).

Definition update_sleep_wait_stats_locked (clk : clock) (s : wl_state) (done : bool) : wl_state :=
  let s' := foldl (fun s id => update_lock s id
                     (sleep_wait_lock clk (last_sleep_time_update s) done))
              s (active_suspend s) in
  set_last_sleep s' (ktime_get clk).

(** [print_lock_stat]: the figures of one line of /proc/wakelocks. *)
Record stat_line := StatLine {
  sl_name : string; sl_count : Z; sl_expire_count : Z; sl_wakeup_count : Z;
  sl_active : Z; sl_total : Z; sl_prevent : Z; sl_max : Z; sl_last : Z }.

Definition print_lock_stat (clk : clock) (last_sleep : Z) (l : wake_lock_t) : stat_line :=
  let st := stat l in
  if flag (flags l) WAKE_LOCK_ACTIVE then
    let etime := get_expired_time clk l in
    let now := match etime with Some t => t | None => ktime_get clk end in
    let add_time := now - last_time st in
    StatLine (name l) (st_count st + 1)
      (if etime is Some _ then st_expire_count st + 1 else st_expire_count st)
      (st_wakeup_count st)
      (if etime is Some _ then 0 else add_time)
      (total_time st + add_time)
      (if flag (flags l) WAKE_LOCK_PREVENTING_SUSPEND
       then prevent_suspend_time st + (now - last_sleep) else prevent_suspend_time st)
      (if max_time st <? add_time then add_time else max_time st)
      (last_time st)
  else
    StatLine (name l) (st_count st) (st_expire_count st) (st_wakeup_count st) 0
      (total_time st) (prevent_suspend_time st) (max_time st) (last_time st).

Definition wakelock_stats_show (clk : clock) (s : wl_state) : list stat_line :=
  let line id := match locks s !! id with
                 | Some l => [print_lock_stat clk (last_sleep_time_update s) l]
                 | None => [] end in
  concat (line <$> inactive_locks s) ++ concat (line <$> active_suspend s) ++
  concat (line <$> active_idle s).

(** ** Expiry *)

Definition clear_active (l : wake_lock_t) : wake_lock_t :=
  set_flags l (Z.ldiff (flags l) (Z.lor WAKE_LOCK_ACTIVE WAKE_LOCK_AUTO_EXPIRE)).

Definition expire_wake_lock (clk : clock) (s : wl_state) (id : nat) : wl_state :=
  let s1 := wake_unlock_stat_locked clk s id true in
  let s2 := update_lock s1 id clear_active in
  link_inactive (link_del s2 id) id.

(** The messages [print_active_locks] logs. *)
Inductive lock_msg :=
  | MsgActive (n : string) | MsgTimeLeft (n : string) (left_ : Z) | MsgExpired (n : string).

Fixpoint print_active_loop (clk : clock) (s : wl_state) (ids : list nat)
    (print_expired : bool) : list lock_msg :=
  match ids with
  | [] => []
  | id :: ids' =>
      match locks s !! id with
      | None => print_active_loop clk s ids' print_expired
      | Some l =>
          if flag (flags l) WAKE_LOCK_AUTO_EXPIRE then
            let timeout := time_left clk l in
            (if 0 <? timeout then [MsgTimeLeft (name l) timeout]
             else if print_expired then [MsgExpired (name l)] else [])
            ++ print_active_loop clk s ids' print_expired
          else
            MsgActive (name l) ::
            print_active_loop clk s ids'
              (* if ((!debug_mask) & DEBUG_EXPIRE) print_expired = false; *)
              (if flag (if debug_mask s =? 0 then 1 else 0) DEBUG_EXPIRE
               then false else print_expired)
      end
  end.

Definition print_active_locks (clk : clock) (s : wl_state) (type : Z)
    : option (list lock_msg) :=
  if WAKE_LOCK_TYPE_COUNT <=? type then None
  else Some (print_active_loop clk s (active_wake_locks s type) true).

Fixpoint has_wake_lock_loop (clk : clock) (s : wl_state) (ids : list nat)
    (max_timeout : Z) : wl_state * Z :=
  match ids with
  | [] => (s, max_timeout)
  | id :: ids' =>
      match locks s !! id with
      | None => has_wake_lock_loop clk s ids' max_timeout
      | Some l =>
          if flag (flags l) WAKE_LOCK_AUTO_EXPIRE then
            let timeout := time_left clk l in
            if timeout <=? 0 then
              has_wake_lock_loop clk (expire_wake_lock clk s id) ids' max_timeout
            else if max_timeout <? timeout then has_wake_lock_loop clk s ids' timeout
            else has_wake_lock_loop clk s ids' max_timeout
          else (s, -1)
      end
  end.

Definition has_wake_lock_locked (clk : clock) (s : wl_state) (type : Z)
    : option (wl_state * Z) :=
  if WAKE_LOCK_TYPE_COUNT <=? type then None
  else Some (has_wake_lock_loop clk s (active_wake_locks s type) 0).

(** The printing under DEBUG_SUSPEND has no effect on the state. *)
Definition has_wake_lock (clk : clock) (s : wl_state) (type : Z) : option (wl_state * Z) :=
  has_wake_lock_locked clk s type.

(** ** Taking and releasing locks *)

Definition wake_lock_active (s : wl_state) (id : nat) : bool :=
  match locks s !! id with
  | Some l => flag (flags l) WAKE_LOCK_ACTIVE
  | None => false
  end.

Definition queue_suspend_work (s : wl_state) : wl_state := set_queued s true.
Definition del_expire_timer (s : wl_state) : wl_state := set_expire_timer s None.
Definition mod_expire_timer (s : wl_state) (t : Z) : wl_state :=
  set_expire_timer s (Some (u32 t)).
Definition mod_exception_timer (s : wl_state) (t : Z) : wl_state :=
  set_exception_timer s (Some (u32 t)).

Definition zero_stat : lock_stat := LockStat 0 0 0 0 0 0 0.

(** [expires] of a fresh lock is whatever the caller's object holds. *)
Definition wake_lock_init (s : wl_state) (id : nat) (type : Z) (nm : option string)
    : option wl_state :=
  let old := locks s !! id in
  let nm' := match nm with Some n => Some n | None => name <$> old end in
  match nm' with
  | None => None
  | Some n =>
      let l := WakeLock (Z.lor (Z.land type WAKE_LOCK_TYPE_MASK) WAKE_LOCK_INITIALIZED) n
                 (match old with Some l => expires l | None => 0 end) zero_stat in
      Some (link_inactive (set_locks s (<[id := l]> (locks s))) id)
  end.

Definition add_deleted_stat (d st : lock_stat) : lock_stat :=
  LockStat (st_count d + st_count st) (st_expire_count d + st_expire_count st)
    (st_wakeup_count d) (total_time d + total_time st)
    (prevent_suspend_time d + prevent_suspend_time st) (max_time d + max_time st)
    (last_time d).

Definition wake_lock_destroy (s : wl_state) (id : nat) : option wl_state :=
  l ← locks s !! id;
  let s1 := update_lock s id (fun l => set_flags l (Z.ldiff (flags l) WAKE_LOCK_INITIALIZED)) in
  let s2 := if st_count (stat l) =? 0 then s1
            else update_lock s1 deleted_wake_locks
                   (fun d => set_stat d (add_deleted_stat (stat d) (stat l))) in
  Some (link_del s2 id).

(** The statistics at the start of [wake_lock_internal] and the setting of
    WAKE_LOCK_ACTIVE. *)
Definition wake_lock_begin (clk : clock) (s : wl_state) (id : nat) (l : wake_lock_t)
    (type : Z) : wl_state :=
  let s1 :=
    if (type =? WAKE_LOCK_SUSPEND) && wait_for_wakeup s then
      update_lock (set_wait s false) id (fun l => let st := stat l in
        set_stat l (LockStat (st_count st) (st_expire_count st) (st_wakeup_count st + 1)
          (total_time st) (prevent_suspend_time st) (max_time st) (last_time st)))
    else s in
  let set_last l := let st := stat l in
    set_stat l (LockStat (st_count st) (st_expire_count st) (st_wakeup_count st)
      (total_time st) (prevent_suspend_time st) (max_time st) (ktime_get clk)) in
  let s2 :=
    if flag (flags l) WAKE_LOCK_AUTO_EXPIRE && (time_left clk l <=? 0) then
      update_lock (wake_unlock_stat_locked clk s1 id false) id set_last
    else s1 in
  update_lock s2 id (fun l =>
    if flag (flags l) WAKE_LOCK_ACTIVE then l
    else set_last (set_flags l (Z.lor (flags l) WAKE_LOCK_ACTIVE))).

(** [list_del] and [list_add]/[list_add_tail] with the new expiry. *)
Definition wake_lock_link (clk : clock) (s : wl_state) (id : nat) (type timeout : Z)
    (has_timeout : bool) : wl_state :=
  let s1 := link_del s id in
  if has_timeout then
    link_active (update_lock s1 id (fun l =>
        set_flags (set_expires l (u32 (jiffies clk + timeout)))
          (Z.lor (flags l) WAKE_LOCK_AUTO_EXPIRE))) type true id
  else
    link_active (update_lock s1 id (fun l =>
        set_flags (set_expires l LONG_MAX)
          (Z.ldiff (flags l) WAKE_LOCK_AUTO_EXPIRE))) type false id.

(** Arm the expire timer, or stop it and queue the suspend work, by what
    [has_wake_lock_locked] answered. *)
Definition update_expire_timer (clk : clock) (s : wl_state) (expire_in : Z) : wl_state :=
  if 0 <? expire_in then mod_expire_timer s (jiffies clk + expire_in)
  else
    let s1 := del_expire_timer s in
    if expire_in =? 0 then queue_suspend_work s1 else s1.

(** The part of [wake_lock_internal] for WAKE_LOCK_SUSPEND locks. *)
Definition wake_lock_finish (clk : clock) (s : wl_state) (id : nat) (has_timeout : bool)
    : option wl_state :=
  let s1 := if decide (id = main_wake_lock)
            then set_exception_timer (set_event_num s (s32 (current_event_num s + 1))) None
            else s in
  let s2 := if decide (id = main_wake_lock) then update_sleep_wait_stats_locked clk s1 true
            else if negb (wake_lock_active s1 main_wake_lock)
            then update_sleep_wait_stats_locked clk s1 false
            else s1 in
  if has_timeout then
    '(s3, expire_in) ← has_wake_lock_locked clk s2 WAKE_LOCK_SUSPEND;
    Some (update_expire_timer clk s3 expire_in)
  else Some (update_expire_timer clk s2 (-1)).

Definition wake_lock_internal (clk : clock) (s : wl_state) (id : nat) (timeout : Z)
    (has_timeout : bool) : option wl_state :=
  l ← locks s !! id;
  let type := Z.land (flags l) WAKE_LOCK_TYPE_MASK in
  if WAKE_LOCK_TYPE_COUNT <=? type then None
  else if negb (flag (flags l) WAKE_LOCK_INITIALIZED) then None
  else
    let s1 := wake_lock_begin clk s id l type in
    let s2 := wake_lock_link clk s1 id type timeout has_timeout in
    if type =? WAKE_LOCK_SUSPEND then wake_lock_finish clk s2 id has_timeout
    else Some s2.

Definition wake_lock (clk : clock) (s : wl_state) (id : nat) : option wl_state :=
  wake_lock_internal clk s id 0 false.

Definition wake_lock_timeout (clk : clock) (s : wl_state) (id : nat) (timeout : Z)
    : option wl_state :=
  wake_lock_internal clk s id timeout true.

Definition wake_unlock (clk : clock) (s : wl_state) (id : nat) : option wl_state :=
  l ← locks s !! id;
  let type := Z.land (flags l) WAKE_LOCK_TYPE_MASK in
  let s1 := update_lock (wake_unlock_stat_locked clk s id false) id clear_active in
  let s2 := link_inactive (link_del s1 id) id in
  let s3 := if decide (id = main_wake_lock)
            then mod_exception_timer s2 (jiffies clk + 5 * 60 * HZ) else s2 in
  if type =? WAKE_LOCK_SUSPEND then
    '(s4, has_lock) ← has_wake_lock_locked clk s3 type;
    let s5 := update_expire_timer clk s4 has_lock in
    Some (if decide (id = main_wake_lock)
          then update_sleep_wait_stats_locked clk s5 false else s5)
  else Some s3.

(** ** The timers, the suspend work and the platform device *)

(** [expire_timer] fired: it is no longer pending when its handler runs. *)
Definition expire_wake_locks (clk : clock) (s : wl_state) : option wl_state :=
  '(s1, has_lock) ← has_wake_lock_locked clk (set_expire_timer s None) WAKE_LOCK_SUSPEND;
  Some (if has_lock =? 0 then queue_suspend_work s1 else s1).

(** [suspend] up to [pm_suspend]: [Some entry_event_num] when it goes on.  The
    work is no longer pending when its function runs. *)
Definition suspend_enter (clk : clock) (s : wl_state) : option (wl_state * option Z) :=
  '(s1, ret) ← has_wake_lock clk (set_queued s false) WAKE_LOCK_SUSPEND;
  if negb (ret =? 0) then Some (s1, None)
  else
    let s2 := set_exception_timer s1 None in
    Some (s2, Some (current_event_num s2)).

(** [suspend] after [pm_suspend] returned. *)
Definition suspend_exit (clk : clock) (s : wl_state) (entry_event_num : Z) : option wl_state :=
  if current_event_num s =? entry_event_num
  then wake_lock_timeout clk s unknown_wakeup (HZ / 2) else Some s.

Definition power_suspend_late (clk : clock) (s : wl_state) : option (wl_state * Z) :=
  '(s1, ret) ← has_wake_lock clk s WAKE_LOCK_SUSPEND;
  Some (set_wait s1 true, if negb (ret =? 0) then - EAGAIN else 0).

(** What the registrations of [wakelocks_init] returned. *)
Record init_results := InitResults {
  device_register : Z; driver_register : Z; workqueue_ok : bool; create_file : Z }.

Definition init_state : wl_state :=
  WlState ∅ [] [] [] 0 false None None 0 false
    (Z.lor (Z.lor DEBUG_EXIT_SUSPEND DEBUG_WAKEUP) DEBUG_SUSPEND).

Definition wakelocks_destroy (s : wl_state) : option wl_state :=
  s1 ← wake_lock_destroy s unknown_wakeup;
  s2 ← wake_lock_destroy s1 main_wake_lock;
  wake_lock_destroy s2 deleted_wake_locks.

Definition wakelocks_init (clk : clock) (r : init_results) : option (wl_state * Z) :=
  s1 ← wake_lock_init init_state deleted_wake_locks WAKE_LOCK_SUSPEND (Some "deleted_wake_locks"%string);
  s2 ← wake_lock_init s1 main_wake_lock WAKE_LOCK_SUSPEND (Some "main"%string);
  s3 ← wake_lock clk s2 main_wake_lock;
  s4 ← wake_lock_init s3 unknown_wakeup WAKE_LOCK_SUSPEND (Some "unknown_wakeups"%string);
  let err ret := s5 ← wakelocks_destroy s4; Some (s5, ret) in
  if negb (device_register r =? 0) then err (device_register r)
  else if negb (driver_register r =? 0) then err (driver_register r)
  else if negb (workqueue_ok r) then err (- ENOMEM)
  else if negb (create_file r =? 0) then err (create_file r)
  else Some (s4, 0).

Definition wakelocks_exit (s : wl_state) : option wl_state := wakelocks_destroy s.

(** ** The suspend monitor (CONFIG_ZTE_SUSPEND_WAKEUP_MONITOR) *)

Definition WAKE_LOCK_RECORD_NR : Z := 10.
Definition RECORD_SIZE : Z := 400.

(** [active_wake_lock_buf] is flat: a store past the end of one record lands in
    the next one. *)
Record monitor := Monitor { record_index : Z; active_wake_lock_buf : list Z }.

Fixpoint chars (t : string) : list Z :=
  match t with
  | EmptyString => []
  | String.String c t' => Z.of_nat (Ascii.nat_of_ascii c) :: chars t'
  end.

(** [snprintf] (lib/vsprintf.c): a negative size is rejected with 0, otherwise
    the length the whole text would need is returned. *)
Definition snprintf (buf : list Z) (off size : Z) (text : string) : list Z * Z :=
  let t := chars text in
  if s32 size <? 0 then (buf, 0)
  else if size =? 0 then (buf, zlen t)
  else (splice buf off (take (Z.to_nat (size - 1)) t ++ [0]), zlen t).

Definition newline : string := String.String (Ascii.ascii_of_nat 10) EmptyString.

Definition lock_line (clk : clock) (l : wake_lock_t) : string :=
  (if flag (flags l) WAKE_LOCK_AUTO_EXPIRE then
     let timeout := time_left clk l in
     if (timeout <=? 0)%Z then "wake lock " +:+ name l +:+ ", expired" +:+ newline
     else "active wake lock " +:+ name l +:+ ", time left " +:+ pretty timeout +:+ newline
   else "active wake lock " +:+ name l +:+ newline)%string.

(** The store [p_buf[i] = 0]; [None] when it is outside the array. *)
Definition store_nul (buf : list Z) (i : Z) : option (list Z) :=
  if (0 <=? i) && (i <? zlen buf) then Some (splice buf i [0]) else None.

Fixpoint record_loop (clk : clock) (s : wl_state) (p_buf used_size : Z) (buf : list Z)
    (ids : list nat) : option (list Z) :=
  let record_max_size := RECORD_SIZE - 1 in
  match ids with
  | [] => Some buf
  | id :: ids' =>
      match locks s !! id with
      | None => record_loop clk s p_buf used_size buf ids'
      | Some l =>
          let '(buf', ret) := snprintf buf (p_buf + used_size)
                                (record_max_size - used_size) (lock_line clk l) in
          if ret <=? 0 then store_nul buf' (p_buf + used_size)
          else record_loop clk s p_buf (used_size + ret) buf' ids'
      end
  end.

(** [stamp] is the date line; [None] is a store outside the buffer. *)
Definition suspend_exception_handle (clk : clock) (s : wl_state) (m : monitor)
    (stamp : string) : option (wl_state * monitor) :=
  let p_buf := record_index m * RECORD_SIZE in
  let '(buf, used_size) := snprintf (active_wake_lock_buf m) p_buf (RECORD_SIZE - 1) stamp in
  buf' ← (if used_size <=? 0 then store_nul buf p_buf
          else record_loop clk s p_buf used_size buf (active_suspend s));
  Some (mod_exception_timer s (jiffies clk + 5 * 60 * HZ),
        Monitor ((record_index m + 1) mod WAKE_LOCK_RECORD_NR) buf').
