(* ===== verification/WakelockInv.v ===== *)
(** * The wake lock lists: invariant and abstract view

    [wl_ok] is the invariant of the three lists: every initialised lock is on
    exactly one of them, the one its flags name, and an active list holds the
    locks without a timeout before those with one.  [held] is the abstract
    state of one lock type, a finite map from the active locks to their expiry
    ([None] for a lock without timeout).  The file shows what each primitive of
    Wakelock.v does to both. *)

From stdpp Require Import base numbers list gmap strings.
From S2P Require Import Prelude Wakelock.

Open Scope Z_scope.

(** ** The part of a lock the invariant reads *)

Definition is_init (l : wake_lock_t) : bool := flag (flags l) WAKE_LOCK_INITIALIZED.
Definition is_active (l : wake_lock_t) : bool := flag (flags l) WAKE_LOCK_ACTIVE.
Definition is_timed (l : wake_lock_t) : bool := flag (flags l) WAKE_LOCK_AUTO_EXPIRE.
Definition lock_type (l : wake_lock_t) : Z := Z.land (flags l) WAKE_LOCK_TYPE_MASK.

Record view := View {
  v_init : bool; v_active : bool; v_timed : bool; v_type : Z; v_expires : Z }.

Definition lock_view (l : wake_lock_t) : view :=
  View (is_init l) (is_active l) (is_timed l) (lock_type l) (expires l).

(** What the lists see of lock [id]. *)
Definition look (s : wl_state) (id : nat) : option view := lock_view <$> locks s !! id.

Definition untimed_first (lk : nat -> option view) (ids : list nat) : Prop :=
  exists l1 l2, ids = l1 ++ l2 /\
    (forall id, id ∈ l1 -> v_timed <$> lk id = Some false) /\
    (forall id, id ∈ l2 -> v_timed <$> lk id = Some true).

Definition inactive_view (v : view) : Prop :=
  v_init v = true /\ v_active v = false /\ v_timed v = false.
Definition active_view (t : Z) (v : view) : Prop :=
  v_init v = true /\ v_active v = true /\ v_type v = t.

Record ok_lists (lk : nat -> option view) (i a0 a1 : list nat) : Prop := {
  ok_nodup : NoDup (i ++ a0 ++ a1);
  ok_inactive id : id ∈ i -> exists v, lk id = Some v /\ inactive_view v;
  ok_suspend id : id ∈ a0 -> exists v, lk id = Some v /\ active_view WAKE_LOCK_SUSPEND v;
  ok_idle id : id ∈ a1 -> exists v, lk id = Some v /\ active_view WAKE_LOCK_IDLE v;
  ok_listed id v : lk id = Some v -> v_init v = true -> id ∈ i ++ a0 ++ a1;
  ok_order_suspend : untimed_first lk a0;
  ok_order_idle : untimed_first lk a1 }.

Definition wl_ok (s : wl_state) : Prop :=
  ok_lists (look s) (inactive_locks s) (active_suspend s) (active_idle s).

(** The abstract state. *)
Definition view_held (t : Z) (v : view) : option (option Z) :=
  if v_init v && v_active v && (v_type v =? t)
  then Some (if v_timed v then Some (v_expires v) else None) else None.

Definition held (s : wl_state) (t : Z) : gmap nat (option Z) :=
  omap (fun l => view_held t (lock_view l)) (locks s).

Definition has_untimed (h : gmap nat (option Z)) : Prop := exists id, h !! id = Some None.

Definition unexpired (clk : clock) (e : option Z) : Prop :=
  match e with None => True | Some e => 0 < s32 (e - jiffies clk) end.
#[export] Instance unexpired_dec clk e : Decision (unexpired clk e).
Proof. destruct e; cbn; apply _. Defined.

#[export] Instance has_untimed_dec h : Decision (has_untimed h).
Proof.
  destruct (decide (Exists (fun x : nat * option Z => snd x = None) (map_to_list h))) as [H|H].
  - left. apply Exists_exists in H as ([id o] & Hin%elem_of_map_to_list & Ho).
    exists id. cbn in Ho. by subst.
  - right. intros [id Hid]. apply H, Exists_exists. exists (id, None).
    by rewrite elem_of_map_to_list.
Defined.

(** Dropping the expired locks, which the code does only when no lock without
    timeout is held. *)
Definition sweep (clk : clock) (h : gmap nat (option Z)) : gmap nat (option Z) :=
  if decide (has_untimed h) then h else filter (fun kv => unexpired clk (snd kv)) h.

(** The answer [has_wake_lock] must give: -1, or the longest time left. *)
Definition answer_spec (clk : clock) (h : gmap nat (option Z)) (r : Z) : Prop :=
  (has_untimed h /\ r = -1) \/
  (~ has_untimed h /\ 0 <= r /\
   (forall id e, h !! id = Some (Some e) -> s32 (e - jiffies clk) <= r) /\
   (r = 0 \/ exists id e, h !! id = Some (Some e) /\ s32 (e - jiffies clk) = r)).

(** ** Flags *)

Lemma flag_pow2 f k : 0 <= k -> flag f (2 ^ k) = Z.testbit f k.
Proof.
  intros Hk. unfold flag. destruct (Z.testbit f k) eqn:E.
  - apply negb_true_iff, Z.eqb_neq. intros H0.
    assert (Z.testbit (Z.land f (2 ^ k)) k = true) as Hb
      by (by rewrite Z.land_spec, E, Z.pow2_bits_true).
    by rewrite H0, Z.bits_0 in Hb.
  - apply negb_false_iff, Z.eqb_eq, Z.bits_inj'. intros n Hn.
    rewrite Z.land_spec, Z.bits_0. destruct (decide (n = k)) as [->|Hne].
    + by rewrite E.
    + by rewrite Z.pow2_bits_false, andb_false_r by lia.
Qed.

Lemma flag_lor f k j : 0 <= k -> 0 <= j ->
  flag (Z.lor f (2 ^ j)) (2 ^ k) = flag f (2 ^ k) || (j =? k).
Proof. intros. by rewrite !flag_pow2, Z.lor_spec, Z.pow2_bits_eqb by done. Qed.

Lemma flag_ldiff f m k : 0 <= k -> flag (Z.ldiff f m) (2 ^ k) = flag f (2 ^ k) && negb (Z.testbit m k).
Proof. intros. by rewrite !flag_pow2, Z.ldiff_spec by done. Qed.

Lemma land_ldiff_type f m : Z.land 15 (Z.lnot m) = 15 -> Z.land (Z.ldiff f m) 15 = Z.land f 15.
Proof.
  intros H. rewrite Z.ldiff_land, <- Z.land_assoc, (Z.land_comm (Z.lnot m)). by rewrite H.
Qed.

Lemma land_lor_type f m : Z.land m 15 = 0 -> Z.land (Z.lor f m) 15 = Z.land f 15.
Proof. intros H. by rewrite Z.land_lor_distr_l, H, Z.lor_0_r. Qed.

(** Evaluates the flags of an updated lock. *)
Ltac solve_flags :=
  unfold lock_view, is_init, is_active, is_timed, lock_type; cbn [flags expires set_flags
    set_expires set_stat];
  unfold WAKE_LOCK_INITIALIZED, WAKE_LOCK_ACTIVE, WAKE_LOCK_AUTO_EXPIRE,
    WAKE_LOCK_PREVENTING_SUSPEND, WAKE_LOCK_TYPE_MASK in *;
  rewrite ?flag_lor, ?flag_ldiff, ?land_ldiff_type, ?land_lor_type by (lia || reflexivity);
  cbn; rewrite ?andb_true_r, ?andb_false_r, ?orb_true_r, ?orb_false_r.

Lemma view_clear_preventing l st e :
  lock_view (WakeLock (Z.ldiff (flags l) WAKE_LOCK_PREVENTING_SUSPEND) e (expires l) st)
  = lock_view l.
Proof. by solve_flags. Qed.

Lemma view_set_preventing l st e :
  lock_view (WakeLock (Z.lor (flags l) WAKE_LOCK_PREVENTING_SUSPEND) e (expires l) st)
  = lock_view l.
Proof. by solve_flags. Qed.

Lemma view_wake_unlock_stat clk last exp l :
  lock_view (wake_unlock_stat_lock clk last exp l) = lock_view l.
Proof.
  unfold wake_unlock_stat_lock. destruct (negb _); [done|].
  destruct (get_expired_time clk l); (destruct (flag _ WAKE_LOCK_PREVENTING_SUSPEND);
    [apply view_clear_preventing | done]).
Qed.

Lemma view_sleep_wait clk last done l :
  lock_view (sleep_wait_lock clk last done l) = lock_view l.
Proof.
  unfold sleep_wait_lock.
  destruct (flag _ WAKE_LOCK_PREVENTING_SUSPEND), (done || _); cbn zeta;
    unfold set_flags, set_stat; cbn [flags expires stat name];
    auto using view_clear_preventing, view_set_preventing.
Qed.

Lemma view_clear_active l : lock_view (clear_active l) =
  View (is_init l) false false (lock_type l) (expires l).
Proof. unfold clear_active. by solve_flags. Qed.

(** ** Lookups through updates *)

Lemma look_update s id f j :
  look (update_lock s id f) j =
  if decide (j = id) then (fun l => lock_view (f l)) <$> locks s !! id else look s j.
Proof.
  unfold look, update_lock. cbn. case_decide as E.
  - subst. rewrite lookup_alter_eq. by destruct (locks s !! id).
  - by rewrite lookup_alter_ne.
Qed.

Lemma held_lookup s t id : held s t !! id = look s id ≫= view_held t.
Proof. unfold held, look. rewrite lookup_omap. by destruct (locks s !! id). Qed.

(** States with the same lists and views. *)
Definition view_eq (s s' : wl_state) : Prop :=
  (forall id, look s id = look s' id) /\ inactive_locks s = inactive_locks s' /\
  active_suspend s = active_suspend s' /\ active_idle s = active_idle s'.

#[export] Instance view_eq_equiv : Equivalence view_eq.
Proof.
  split.
  - by intros s.
  - intros s s' (H & H1 & H2 & H3). repeat split; congruence.
  - intros s1 s2 s3 (H & H1 & H2 & H3) (K & K1 & K2 & K3). repeat split; congruence.
Qed.

#[export] Instance untimed_first_proper :
  Proper (pointwise_relation _ eq ==> eq ==> iff) untimed_first.
Proof.
  intros lk lk' H l ? <-. unfold untimed_first. by setoid_rewrite H.
Qed.

#[export] Instance ok_lists_proper :
  Proper (pointwise_relation _ eq ==> eq ==> eq ==> eq ==> iff) ok_lists.
Proof.
  intros lk lk' H i ? <- a0 ? <- a1 ? <-.
  split; intros [? Hi H0 H1 Hl ? ?]; (split; [done|..]).
  all: try (by rewrite H || by rewrite <- H).
  all: intros id; specialize (H id);
    first [rewrite <- H; eauto; fail | rewrite H; eauto; fail].
Qed.

#[export] Instance wl_ok_proper : Proper (view_eq ==> iff) wl_ok.
Proof. intros s s' (H & Hi & H0 & H1). unfold wl_ok. rewrite Hi, H0, H1. by apply ok_lists_proper. Qed.

#[export] Instance held_proper : Proper (view_eq ==> eq ==> eq) held.
Proof.
  intros s s' (H & _) t ? <-. apply map_eq. intros id. by rewrite !held_lookup, H.
Qed.

Lemma view_eq_update s id f :
  (forall l, lock_view (f l) = lock_view l) -> view_eq (update_lock s id f) s.
Proof.
  intros Hf. repeat split; try done. intros j. rewrite look_update. case_decide; [|done].
  subst. unfold look. destruct (locks s !! id) as [l|]; cbn; by rewrite ?Hf.
Qed.

Lemma view_eq_unlock_stat clk s id e : view_eq (wake_unlock_stat_locked clk s id e) s.
Proof. apply view_eq_update. intros. apply view_wake_unlock_stat. Qed.

Lemma view_eq_sleep_wait clk s done : view_eq (update_sleep_wait_stats_locked clk s done) s.
Proof.
  unfold update_sleep_wait_stats_locked.
  transitivity (foldl (fun s id => update_lock s id
    (sleep_wait_lock clk (last_sleep_time_update s) done)) s (active_suspend s)); [done|].
  generalize (active_suspend s). intros ids. revert s.
  induction ids as [|id ids IH]; intros s; cbn; [done|].
  rewrite IH. apply view_eq_update. intros. apply view_sleep_wait.
Qed.

(** ** Moving a lock between the lists *)

Lemma untimed_first_ext lk lk' ids :
  (forall j, j ∈ ids -> lk' j = lk j) -> untimed_first lk ids -> untimed_first lk' ids.
Proof.
  intros Hx (l1 & l2 & -> & H1 & H2). exists l1, l2. split_and!; [done|..];
    intros j Hj; rewrite Hx by set_solver; auto.
Qed.

Lemma untimed_first_del lk id ids : untimed_first lk ids -> untimed_first lk (list_del id ids).
Proof.
  intros (l1 & l2 & -> & H1 & H2). exists (list_del id l1), (list_del id l2).
  split_and!; [apply filter_app|..]; intros j [_ Hj]%elem_of_list_del; auto.
Qed.

(** A lock leaves the lists: it must no longer be initialised, or be absent. *)
Lemma ok_del lk lk' id i a0 a1 :
  (forall j, j <> id -> lk' j = lk j) ->
  (forall v, lk' id = Some v -> v_init v = false) ->
  ok_lists lk i a0 a1 ->
  ok_lists lk' (list_del id i) (list_del id a0) (list_del id a1).
Proof.
  intros Hx Hid [Hn Hi H0 H1 Hl Ho0 Ho1]. split.
  - unfold list_del. rewrite <- !filter_app. by apply NoDup_filter.
  - intros j [Hj ?]%elem_of_list_del. rewrite Hx by done. auto.
  - intros j [Hj ?]%elem_of_list_del. rewrite Hx by done. auto.
  - intros j [Hj ?]%elem_of_list_del. rewrite Hx by done. auto.
  - intros j v Hv Hi'. destruct (decide (j = id)) as [->|Hj].
    { rewrite (Hid v Hv) in Hi'. done. }
    rewrite Hx in Hv by done. pose proof (Hl j v Hv Hi'). rewrite !elem_of_app, !elem_of_list_del.
    set_solver.
  - eapply untimed_first_ext, untimed_first_del; [|done].
    intros j [Hj _]%elem_of_list_del. auto.
  - eapply untimed_first_ext, untimed_first_del; [|done].
    intros j [Hj _]%elem_of_list_del. auto.
Qed.

Section add.
Context (lk lk' : nat -> option view) (id : nat) (v : view) (i a0 a1 : list nat).
Context (Hok : ok_lists lk i a0 a1) (Hx : forall j, j <> id -> lk' j = lk j)
  (Hv : lk' id = Some v) (Hnew : id ∉ i ++ a0 ++ a1).

Lemma add_ne j : j ∈ i ++ a0 ++ a1 -> lk' j = lk j.
Proof using Hok Hx Hv Hnew. intros Hj. apply Hx. by intros ->. Qed.

Lemma add_inactive_old j : j ∈ i -> exists v, lk' j = Some v /\ inactive_view v.
Proof using Hok Hx Hv Hnew. intros Hj. rewrite add_ne by set_solver. by eapply ok_inactive. Qed.

Lemma add_suspend_old j : j ∈ a0 -> exists v, lk' j = Some v /\ active_view WAKE_LOCK_SUSPEND v.
Proof using Hok Hx Hv Hnew. intros Hj. rewrite add_ne by set_solver. by eapply ok_suspend. Qed.

Lemma add_idle_old j : j ∈ a1 -> exists v, lk' j = Some v /\ active_view WAKE_LOCK_IDLE v.
Proof using Hok Hx Hv Hnew. intros Hj. rewrite add_ne by set_solver. by eapply ok_idle. Qed.

Lemma add_listed_old j w : lk' j = Some w -> v_init w = true -> j = id \/ j ∈ i ++ a0 ++ a1.
Proof using Hok Hx Hv Hnew.
  intros Hw Hi. destruct (decide (j = id)) as [->|Hj]; [by left|right].
  rewrite Hx in Hw by done. by eapply ok_listed.
Qed.

Lemma add_order_old l : l ⊆ i ++ a0 ++ a1 -> untimed_first lk l -> untimed_first lk' l.
Proof using Hok Hx Hv Hnew. intros Hl. apply untimed_first_ext. intros j Hj. apply add_ne. by apply Hl. Qed.

Lemma add_order_head l :
  v_timed v = false -> l ⊆ i ++ a0 ++ a1 -> untimed_first lk l -> untimed_first lk' (id :: l).
Proof using Hok Hx Hv Hnew.
  intros Ht Hl (l1 & l2 & -> & H1 & H2)%add_order_old; [|done].
  exists (id :: l1), l2. split_and!; [done| |done].
  intros j [->|Hj]%elem_of_cons; [|auto]. by rewrite Hv; cbn; rewrite Ht.
Qed.

Lemma add_order_tail l :
  v_timed v = true -> l ⊆ i ++ a0 ++ a1 -> untimed_first lk l -> untimed_first lk' (l ++ [id]).
Proof using Hok Hx Hv Hnew.
  intros Ht Hl (l1 & l2 & -> & H1 & H2)%add_order_old; [|done].
  exists l1, (l2 ++ [id]). split_and!; [by rewrite <- app_assoc|done|].
  intros j [Hj|Hj%list_elem_of_singleton]%elem_of_app; [auto|]. subst. by rewrite Hv; cbn; rewrite Ht.
Qed.

Lemma ok_add_inactive : inactive_view v -> ok_lists lk' (list_add id i) a0 a1.
Proof using Hok Hx Hv Hnew.
  intros Hiv. unfold list_add. split.
  - apply NoDup_cons. split; [done|]. by eapply ok_nodup.
  - intros j [->|Hj]%elem_of_cons; [by eauto|]. by apply add_inactive_old.
  - apply add_suspend_old.
  - apply add_idle_old.
  - intros j w Hw Hi. destruct (add_listed_old j w Hw Hi); set_solver.
  - apply add_order_old; [set_solver|]. by eapply ok_order_suspend.
  - apply add_order_old; [set_solver|]. by eapply ok_order_idle.
Qed.

Lemma ok_add_suspend a0' :
  active_view WAKE_LOCK_SUSPEND v ->
  a0' ≡ₚ id :: a0 -> untimed_first lk' a0' -> ok_lists lk' i a0' a1.
Proof using Hok Hx Hv Hnew.
  intros Hav Hp Ho. split.
  - rewrite Hp. cbn. rewrite <- Permutation_middle. apply NoDup_cons. split; [done|].
    by eapply ok_nodup.
  - apply add_inactive_old.
  - intros j. rewrite Hp. intros [->|Hj]%elem_of_cons; [by eauto|]. by apply add_suspend_old.
  - apply add_idle_old.
  - intros j w Hw Hi. rewrite Hp. destruct (add_listed_old j w Hw Hi); set_solver.
  - done.
  - apply add_order_old; [set_solver|]. by eapply ok_order_idle.
Qed.

Lemma ok_add_idle a1' :
  active_view WAKE_LOCK_IDLE v ->
  a1' ≡ₚ id :: a1 -> untimed_first lk' a1' -> ok_lists lk' i a0 a1'.
Proof using Hok Hx Hv Hnew.
  intros Hav Hp Ho. split.
  - rewrite Hp, (app_assoc i a0), <- Permutation_middle. apply NoDup_cons.
    rewrite <- app_assoc. split; [done|]. by eapply ok_nodup.
  - apply add_inactive_old.
  - apply add_suspend_old.
  - intros j. rewrite Hp. intros [->|Hj]%elem_of_cons; [by eauto|]. by apply add_idle_old.
  - intros j w Hw Hi. rewrite Hp. destruct (add_listed_old j w Hw Hi); set_solver.
  - apply add_order_old; [set_solver|]. by eapply ok_order_suspend.
  - done.
Qed.
End add.

(** ** The lists against the abstract state *)

Definition valid_type (t : Z) : Prop := t = WAKE_LOCK_SUSPEND \/ t = WAKE_LOCK_IDLE.

Lemma active_look s t id :
  wl_ok s -> valid_type t -> id ∈ active_wake_locks s t ->
  exists v, look s id = Some v /\ active_view t v.
Proof.
  intros Hok [-> | ->]; cbn; intros Hid; [by eapply ok_suspend in Hid | by eapply ok_idle in Hid].
Qed.

Lemma active_order s t :
  wl_ok s -> valid_type t -> untimed_first (look s) (active_wake_locks s t).
Proof. by intros [] [-> | ->]. Qed.

Lemma active_nodup s t : wl_ok s -> valid_type t -> NoDup (active_wake_locks s t).
Proof.
  intros [(? & ? & (? & ? & ?)%NoDup_app)%NoDup_app] [-> | ->]; done.
Qed.

Lemma view_held_Some t v o :
  view_held t v = Some o <->
  active_view t v /\ o = (if v_timed v then Some (v_expires v) else None).
Proof.
  unfold view_held, active_view. destruct (v_init v), (v_active v); cbn; try naive_solver.
  case_if; naive_solver.
Qed.

Lemma held_Some s t id o :
  held s t !! id = Some o <->
  exists v, look s id = Some v /\ active_view t v /\
    o = (if v_timed v then Some (v_expires v) else None).
Proof.
  rewrite held_lookup. destruct (look s id) as [v|]; cbn.
  - rewrite view_held_Some. naive_solver.
  - naive_solver.
Qed.

Lemma active_held s t id :
  wl_ok s -> valid_type t -> id ∈ active_wake_locks s t <-> is_Some (held s t !! id).
Proof.
  intros Hok Ht. split.
  - intros (v & Hv & Ha)%active_look; [|done..]. eexists. apply held_Some. eauto.
  - intros [o (v & Hv & (Hi & Ha & Hty) & _)%held_Some].
    pose proof (ok_listed _ _ _ _ Hok _ _ Hv Hi) as Hin. rewrite !elem_of_app in Hin.
    destruct Hin as [Hin|[Hin|Hin]].
    + apply (ok_inactive _ _ _ _ Hok) in Hin as (? & ? & ? & ? & _). congruence.
    + pose proof Hin as (? & ? & ? & ? & ?)%(ok_suspend _ _ _ _ Hok).
      destruct Ht as [-> | ->]; [done|]. unfold WAKE_LOCK_IDLE, WAKE_LOCK_SUSPEND in *. congruence.
    + pose proof Hin as (? & ? & ? & ? & ?)%(ok_idle _ _ _ _ Hok).
      destruct Ht as [-> | ->]; [|done]. unfold WAKE_LOCK_IDLE, WAKE_LOCK_SUSPEND in *. congruence.
Qed.

(** ** Deactivation: what expiry and release have in common *)

Definition deactivate (clk : clock) (s : wl_state) (id : nat) (e : bool) : wl_state :=
  link_inactive (link_del (update_lock (wake_unlock_stat_locked clk s id e) id clear_active) id) id.

Lemma look_deactivate clk s id e j :
  look (deactivate clk s id e) j =
  if decide (j = id)
  then (fun v => View (v_init v) false false (v_type v) (v_expires v)) <$> look s id
  else look s j.
Proof.
  change (look (deactivate clk s id e) j) with
    (look (update_lock (wake_unlock_stat_locked clk s id e) id clear_active) j).
  rewrite look_update. pose proof (view_eq_unlock_stat clk s id e) as [Hv _].
  case_decide; [|by rewrite Hv]. rewrite <- Hv. unfold look.
  destruct (locks _ !! id); cbn; [|done]. by rewrite view_clear_active.
Qed.

Lemma held_deactivate clk s id e t : held (deactivate clk s id e) t = delete id (held s t).
Proof.
  apply map_eq. intros j. rewrite held_lookup, look_deactivate. case_decide.
  - subst. rewrite lookup_delete_eq. destruct (look s id); cbn; [|done].
    unfold view_held. cbn. by rewrite andb_false_r.
  - by rewrite lookup_delete_ne, held_lookup.
Qed.

Lemma deactivate_ok clk s id e v :
  wl_ok s -> look s id = Some v -> v_init v = true -> wl_ok (deactivate clk s id e).
Proof.
  intros Hok Hv Hi.
  apply (ok_add_inactive (fun j => if decide (j = id) then None else look s j) _ id
           (View (v_init v) false false (v_type v) (v_expires v))); [..|done].
  - eapply ok_del; [..|exact Hok]; cbn; intros; case_decide; done.
  - intros j Hj. rewrite look_deactivate. by case_decide.
  - rewrite look_deactivate, Hv. by case_decide.
  - cbn. rewrite !elem_of_app, !elem_of_list_del. naive_solver.
Qed.

Lemma frame_deactivate clk s id e :
  (current_event_num (deactivate clk s id e) = current_event_num s) /\
  (suspend_queued (deactivate clk s id e) = suspend_queued s) /\
  (expire_timer (deactivate clk s id e) = expire_timer s) /\
  (wait_for_wakeup (deactivate clk s id e) = wait_for_wakeup s).
Proof. done. Qed.

(** ** [has_wake_lock_locked] *)

(** The fields [has_wake_lock_locked] leaves alone. *)
Definition frame (s : wl_state) :=
  (current_event_num s, suspend_queued s, expire_timer s, suspend_exception_timer s,
   wait_for_wakeup s, debug_mask s).

Lemma loop_frame clk ids : forall s m, frame (has_wake_lock_loop clk s ids m).1 = frame s.
Proof.
  induction ids as [|id ids IH]; intros s m; cbn; [done|].
  destruct (locks s !! id) as [l|]; [|apply IH].
  destruct (flag _ _); [|done]. case_if; [by rewrite IH|]. case_if; apply IH.
Qed.

Lemma frame_sleep_wait clk s done : frame (update_sleep_wait_stats_locked clk s done) = frame s.
Proof.
  unfold update_sleep_wait_stats_locked. change (frame (set_last_sleep ?x _)) with (frame x).
  generalize (active_suspend s). intros ids. revert s.
  induction ids as [|id ids IH]; intros s; cbn; [done|]. by rewrite IH.
Qed.

Definition timed_in (s : wl_state) (ids : list nat) : Prop :=
  forall id, id ∈ ids -> exists v, look s id = Some v /\ v_init v = true /\ v_timed v = true.

Definition left_of (clk : clock) (s : wl_state) (id : nat) (d : Z) : Prop :=
  exists v, look s id = Some v /\ s32 (v_expires v - jiffies clk) = d.

Lemma held_expire clk s id t ids (v : view) :
  id ∉ ids -> look s id = Some v -> v_timed v = true ->
  s32 (v_expires v - jiffies clk) <= 0 ->
  filter (fun kv : nat * option Z => kv.1 ∈ ids -> unexpired clk kv.2) (delete id (held s t)) =
  filter (fun kv => kv.1 ∈ id :: ids -> unexpired clk kv.2) (held s t).
Proof.
  intros Hni Hv Ht He. apply map_eq. intros j. apply option_eq. intros o.
  rewrite !map_lookup_filter_Some, lookup_delete_Some. cbn. split.
  - intros [[Hj Ho] Hu]. split; [done|]. intros [->|Hin]%elem_of_cons; [done|auto].
  - intros [Ho Hu]. split; [split; [|done]|intros; apply Hu, elem_of_cons; auto].
    intros ->. apply held_Some in Ho as (v' & Hv' & _ & Ho). simplify_eq. rewrite Ht in Hu.
    cbn in Hu. pose proof (Hu (list_elem_of_here _ _)). lia.
Qed.

Lemma held_keep clk s id t ids (v : view) :
  look s id = Some v -> v_timed v = true -> 0 < s32 (v_expires v - jiffies clk) ->
  filter (fun kv : nat * option Z => kv.1 ∈ ids -> unexpired clk kv.2) (held s t) =
  filter (fun kv => kv.1 ∈ id :: ids -> unexpired clk kv.2) (held s t).
Proof.
  intros Hv Ht He. apply map_filter_ext. intros j o Ho. cbn. split.
  - intros Hu [->|Hin]%elem_of_cons; [|auto].
    apply held_Some in Ho as (v' & Hv' & _ & ->). simplify_eq. by rewrite Ht.
  - intros Hu Hin. apply Hu, elem_of_cons. auto.
Qed.

Definition loop_post (clk : clock) (s : wl_state) (ids : list nat) (m : Z)
    (s' : wl_state) (r : Z) : Prop :=
  wl_ok s' /\
  (forall t, held s' t =
     filter (fun kv => kv.1 ∈ ids -> unexpired clk kv.2) (held s t)) /\
  m <= r /\ (forall id d, id ∈ ids -> left_of clk s id d -> d <= r) /\
  (r = m \/ exists id, id ∈ ids /\ left_of clk s id r).

Lemma loop_post_nil clk s m : wl_ok s -> loop_post clk s [] m s m.
Proof.
  intros Hok. split_and!; [done| |lia|set_solver|by left].
  intros t. symmetry. apply map_filter_id. set_solver.
Qed.

(** The two turns of the loop over locks with a timeout. *)
Lemma loop_post_expired clk s id ids m s' r v :
  id ∉ ids -> look s id = Some v -> v_timed v = true ->
  s32 (v_expires v - jiffies clk) <= 0 -> 0 <= m ->
  loop_post clk (deactivate clk s id true) ids m s' r -> loop_post clk s (id :: ids) m s' r.
Proof.
  intros Hni Hv Ht He Hm (Hok & Hh & Hmr & Hle & Hr).
  assert (forall j, j ∈ ids -> look (deactivate clk s id true) j = look s j) as Hlk.
  { intros j Hj. rewrite look_deactivate. case_decide; [by subst|done]. }
  split_and!; [done| |done| |].
  - intros t. rewrite Hh, held_deactivate. by eapply held_expire.
  - intros j d [->|Hj]%elem_of_cons (w & Hw & <-); [simplify_eq; lia|].
    apply (Hle j); [done|]. exists w. by rewrite Hlk.
  - destruct Hr as [?|(j & Hj & w & Hw & <-)]; [by left|right]. exists j.
    split; [set_solver|]. exists w. by rewrite <- Hlk.
Qed.

Lemma loop_post_kept clk s id ids m s' r v :
  look s id = Some v -> v_timed v = true -> 0 < s32 (v_expires v - jiffies clk) ->
  loop_post clk s ids (Z.max m (s32 (v_expires v - jiffies clk))) s' r ->
  loop_post clk s (id :: ids) m s' r.
Proof.
  intros Hv Ht He (Hok & Hh & Hmr & Hle & Hr). split_and!; [done| |lia| |].
  - intros t. rewrite Hh. by eapply held_keep.
  - intros j d [->|Hj]%elem_of_cons (w & Hw & <-); [simplify_eq; lia|].
    apply (Hle j); [done|]. by exists w.
  - destruct Hr as [Hr|(j & Hj & Hr)]; [|right; exists j; set_solver].
    destruct (Z.max_spec m (s32 (v_expires v - jiffies clk))) as [[_ E]|[_ E]]; rewrite E in Hr.
    + right. exists id. split; [set_solver|]. by exists v.
    + by left.
Qed.

Lemma loop_spec clk ids : forall s m s' r,
  wl_ok s -> NoDup ids -> timed_in s ids -> 0 <= m ->
  has_wake_lock_loop clk s ids m = (s', r) -> loop_post clk s ids m s' r.
Proof.
  induction ids as [|id ids IH]; intros s m s' r Hok Hnd Ht Hm Hl; cbn in Hl.
  { simplify_eq. by apply loop_post_nil. }
  apply NoDup_cons in Hnd as [Hni Hnd].
  destruct (Ht id ltac:(set_solver)) as (v & Hv & Hi & Htm). pose proof Hv as Hv'.
  unfold look in Hv'. destruct (locks s !! id) as [l|]; [|done]. cbn in Hv'.
  assert (flag (flags l) WAKE_LOCK_AUTO_EXPIRE = true /\
    time_left clk l = s32 (v_expires v - jiffies clk)) as [Hfl Htl] by (by simplify_eq).
  rewrite Hfl, Htl in Hl.
  assert (timed_in s ids) as Ht' by (intros j Hj; apply Ht; set_solver).
  destruct (Z.leb_spec (s32 (v_expires v - jiffies clk)) 0) as [Hle|Hgt].
  - change (expire_wake_lock clk s id) with (deactivate clk s id true) in Hl.
    eapply loop_post_expired; [done..|]. apply IH; try done; [by eapply deactivate_ok|].
    intros j Hj. rewrite look_deactivate. case_decide; [by subst|by apply Ht'].
  - eapply loop_post_kept; [done..|]. apply IH; try done; [lia|].
    rewrite <- Hl. case_if; f_equal; lia.
Qed.

Lemma timed_or_untimed s t :
  wl_ok s -> valid_type t ->
  (~ has_untimed (held s t) /\ timed_in s (active_wake_locks s t)) \/
  (has_untimed (held s t) /\ exists id ids l,
     active_wake_locks s t = id :: ids /\ locks s !! id = Some l /\
     flag (flags l) WAKE_LOCK_AUTO_EXPIRE = false).
Proof.
  intros Hok Ht. pose proof (active_order s t Hok Ht) as ([|id l1] & l2 & El & H1 & H2).
  - left. cbn in El. rewrite El. split.
    + intros [id Hid]. pose proof Hid as (v & Hv & _ & Hn)%held_Some.
      assert (id ∈ l2) as Hin by (rewrite <- El; apply active_held; eauto).
      apply H2 in Hin. rewrite Hv in Hin. cbn in Hin. simplify_eq.
      by destruct (v_timed v).
    + intros id Hid. pose proof (H2 id Hid) as Htm. rewrite <- El in Hid.
      apply active_look in Hid as (v & Hv & Hi & _); [|done..]. exists v.
      rewrite Hv in Htm. cbn in Htm. by simplify_eq.
  - right. assert (id ∈ active_wake_locks s t) as Hin by (rewrite El; set_solver).
    pose proof (H1 id ltac:(set_solver)) as Htm.
    apply active_look in Hin as (v & Hv & Ha); [|done..].
    rewrite Hv in Htm. cbn in Htm. simplify_eq. split.
    + exists id. apply held_Some. exists v. split_and!; [done..|]. by rewrite Htm.
    + unfold look in Hv. destruct (locks s !! id) as [l|] eqn:E; [|done].
      exists id, (l1 ++ l2), l. cbn in Hv. by simplify_eq.
Qed.

(** The exact behaviour of [has_wake_lock_locked] in a well-formed state. *)
Lemma has_wake_lock_locked_spec clk s t :
  wl_ok s -> valid_type t ->
  exists s' r, has_wake_lock_locked clk s t = Some (s', r) /\ wl_ok s' /\
    held s' t = sweep clk (held s t) /\
    (forall t', t' <> t -> held s' t' = held s t') /\
    answer_spec clk (held s t) r /\ frame s' = frame s.
Proof.
  intros Hok Ht. unfold has_wake_lock_locked.
  assert ((WAKE_LOCK_TYPE_COUNT <=? t) = false) as -> by (by destruct Ht as [-> | ->]).
  destruct (timed_or_untimed s t Hok Ht) as [[Hnu Hti]|[Hu (id & ids & l & El & Hl & Hfl)]].
  - destruct (has_wake_lock_loop clk s (active_wake_locks s t) 0) as [s' r] eqn:El.
    pose proof (loop_frame clk (active_wake_locks s t) s 0) as Hfr. rewrite El in Hfr.
    apply loop_spec in El as (Hok' & Hh & H0 & Hle & Hr);
      [|done|by apply active_nodup|done|done].
    exists s', r. split_and!; [done..| | | |done].
    + rewrite Hh. unfold sweep. rewrite decide_False by done. apply map_filter_ext.
      intros id o Ho. cbn. assert (id ∈ active_wake_locks s t) by (apply active_held; eauto).
      naive_solver.
    + intros t' Hne. rewrite Hh. apply map_filter_id. cbn. intros id o Ho Hin.
      apply active_look in Hin as (v & Hv & _ & _ & Hty); [|done..].
      apply held_Some in Ho as (v' & Hv' & (_ & _ & Hty') & _). congruence.
    + right. split_and!; [done|done| |].
      * intros id e He. apply (Hle id); [apply active_held; eauto|].
        apply held_Some in He as (v & Hv & _ & He). exists v.
        destruct (v_timed v); by simplify_eq.
      * destruct Hr as [->|(id & Hin & v & Hv & <-)]; [by left|right].
        pose proof (Hti id Hin) as (v1 & Hv1 & _ & Htm).
        apply active_look in Hin as (v2 & Hv2 & Ha); [|done..].
        assert (v1 = v /\ v2 = v) as [-> ->] by (split; congruence).
        exists id, (v_expires v). split; [|done]. apply held_Some. exists v. by rewrite Htm.
  - exists s, (-1). rewrite El. cbn. rewrite Hl, Hfl. split_and!; try done.
    + unfold sweep. by rewrite decide_True.
    + by left.
Qed.
