(* ===== verification/WakelockProps.v ===== *)
(** * Wake locks: what the exported operations guarantee

    Functional refinement of the wake lock operations to the abstract maps of
    WakelockInv.v, the invariant of every reachable state, the suspend decision
    and the expire timer, the consistency of the statistics, and the bounds of
    the suspend monitor's record buffer. *)

From stdpp Require Import base numbers list gmap strings relations.
From S2P Require Import Prelude Wakelock WakelockInv.

Open Scope Z_scope.

(** ** Taking a lock *)

Definition same_lists (s s' : wl_state) : Prop :=
  inactive_locks s' = inactive_locks s /\ active_suspend s' = active_suspend s /\
  active_idle s' = active_idle s.

Lemma begin_lists clk s id l ty : same_lists s (wake_lock_begin clk s id l ty).
Proof. unfold wake_lock_begin. by repeat case_match. Qed.

Lemma view_eq_if (b : bool) (s s1 s2 : wl_state) :
  view_eq s1 s -> view_eq s2 s -> view_eq (if b then s1 else s2) s.
Proof. by destruct b. Qed.

Lemma look_begin clk s id l ty j :
  locks s !! id = Some l ->
  look (wake_lock_begin clk s id l ty) j =
  if decide (j = id)
  then Some (View (is_init l) true (is_timed l) (lock_type l) (expires l)) else look s j.
Proof.
  intros Hl. unfold wake_lock_begin.
  set (s1 := if _ && wait_for_wakeup s then _ else s).
  set (s2 := if _ && (_ <=? 0) then _ else s1).
  assert (view_eq s1 s) as H1.
  { apply view_eq_if; [|done]. etrans; [by apply view_eq_update|]. by repeat split. }
  assert (view_eq s2 s) as [H2 _].
  { apply view_eq_if; [|done]. rewrite <- H1. etrans; [by apply view_eq_update|].
    apply view_eq_unlock_stat. }
  rewrite look_update. case_decide; [|apply H2]. subst j.
  specialize (H2 id). unfold look in H2. rewrite Hl in H2.
  destruct (locks s2 !! id) as [l2|]; [|done]. cbn in *. f_equal.
  assert (lock_view l2 = lock_view l) as Hv by congruence. unfold lock_view in Hv at 1 2.
  injection Hv as Hi Ha Ht Hty He.
  destruct (flag (flags l2) WAKE_LOCK_ACTIVE) eqn:E.
  - unfold lock_view. rewrite Hi, Ht, Hty, He. f_equal. exact E.
  - rewrite <- Hi, <- Ht, <- Hty, <- He. by solve_flags.
Qed.

Definition new_expiry (clk : clock) (timeout : Z) (has_timeout : bool) : option Z :=
  if has_timeout then Some (u32 (jiffies clk + timeout)) else None.

(** [wake_lock_begin] and [wake_lock_link] together. *)
Definition activate (clk : clock) (s : wl_state) (id : nat) (l : wake_lock_t) (timeout : Z)
    (ht : bool) : wl_state :=
  wake_lock_link clk (wake_lock_begin clk s id l (lock_type l)) id (lock_type l) timeout ht.

(** What [wake_lock_link] does to the lock itself. *)
Definition relink (clk : clock) (timeout : Z) (ht : bool) (l : wake_lock_t) : wake_lock_t :=
  if ht then set_flags (set_expires l (u32 (jiffies clk + timeout)))
               (Z.lor (flags l) WAKE_LOCK_AUTO_EXPIRE)
  else set_flags (set_expires l LONG_MAX) (Z.ldiff (flags l) WAKE_LOCK_AUTO_EXPIRE).

Lemma look_link clk s id ty timeout ht j :
  look (wake_lock_link clk s id ty timeout ht) j = look (update_lock s id (relink clk timeout ht)) j.
Proof. unfold wake_lock_link, link_active. by destruct ht, (ty =? WAKE_LOCK_SUSPEND). Qed.

Definition new_view (clk : clock) (l : wake_lock_t) (timeout : Z) (ht : bool) : view :=
  View (is_init l) true ht (lock_type l)
    (match new_expiry clk timeout ht with Some e => e | None => LONG_MAX end).

Lemma look_activate clk s id l timeout ht j :
  locks s !! id = Some l ->
  look (activate clk s id l timeout ht) j =
  if decide (j = id) then Some (new_view clk l timeout ht) else look s j.
Proof.
  intros Hl. unfold activate. rewrite look_link, look_update.
  pose proof (look_begin clk s id l (lock_type l) j Hl) as Hb. case_decide; [|done].
  subst. unfold look in Hb.
  destruct (locks (wake_lock_begin _ _ _ _ _) !! id) as [l1|]; [|done]. cbn in *. f_equal.
  assert (lock_view l1 = View (is_init l) true (is_timed l) (lock_type l) (expires l)) as Hv
    by congruence.
  unfold lock_view in Hv. injection Hv as Hi Ha Ht Hy He. unfold new_view, relink.
  rewrite <- Hi, <- Ha, <- Hy. destruct ht; by solve_flags.
Qed.

Lemma held_activate clk s id l timeout ht t :
  locks s !! id = Some l -> is_init l = true ->
  held (activate clk s id l timeout ht) t =
  if decide (t = lock_type l)
  then <[id := new_expiry clk timeout ht]> (held s t) else delete id (held s t).
Proof.
  intros Hl Hi. apply map_eq. intros j. rewrite held_lookup, (look_activate _ _ _ l) by done.
  destruct (decide (j = id)) as [->|Hj].
  - cbn. unfold view_held. cbn. rewrite Hi. cbn. case_decide as E.
    + subst. rewrite Z.eqb_refl, lookup_insert_eq. by destruct ht.
    + rewrite lookup_delete_eq. by rewrite (proj2 (Z.eqb_neq _ _)).
  - case_decide; rewrite ?lookup_insert_ne, ?lookup_delete_ne, held_lookup; done.
Qed.

Lemma held_type_unique s id l t :
  locks s !! id = Some l -> t <> lock_type l -> held s t !! id = None.
Proof.
  intros Hl Hne. apply eq_None_not_Some. intros [o (v & Hv & (_ & _ & Ht) & _)%held_Some].
  unfold look in Hv. rewrite Hl in Hv. cbn in Hv. by simplify_eq.
Qed.

Lemma look_Some s id l : locks s !! id = Some l -> look s id = Some (lock_view l).
Proof. unfold look. by intros ->. Qed.

Lemma activate_ok clk s id l timeout ht :
  wl_ok s -> locks s !! id = Some l -> is_init l = true -> valid_type (lock_type l) ->
  wl_ok (activate clk s id l timeout ht).
Proof.
  intros Hok Hl Hi Hty.
  set (lk0 := fun j => if decide (j = id) then None else look s j).
  assert (ok_lists lk0 (list_del id (inactive_locks s)) (list_del id (active_suspend s))
    (list_del id (active_idle s))) as Hok0.
  { eapply ok_del; [..|exact Hok]; unfold lk0; intros; case_decide; done. }
  assert (Hx : forall j, j <> id -> look (activate clk s id l timeout ht) j = lk0 j).
  { intros j Hj. rewrite (look_activate _ _ _ l) by done. unfold lk0. by case_decide. }
  assert (Hv : look (activate clk s id l timeout ht) id = Some (new_view clk l timeout ht)).
  { rewrite (look_activate _ _ _ l) by done. by case_decide. }
  assert (Hnew : id ∉ list_del id (inactive_locks s) ++ list_del id (active_suspend s) ++
    list_del id (active_idle s)) by (rewrite !elem_of_app, !elem_of_list_del; naive_solver).
  destruct (begin_lists clk s id l (lock_type l)) as (Ei & E0 & E1).
  unfold wl_ok. revert Hx Hv. generalize (look (activate clk s id l timeout ht)). intros lk Hx Hv.
  unfold activate. generalize dependent (wake_lock_begin clk s id l (lock_type l)).
  intros s1 Ei E0 E1. unfold wake_lock_link, link_active, new_view in *.
  destruct Hty as [Hty|Hty]; rewrite Hty in *; destruct ht; cbn; rewrite Ei, E0, E1.
  all: first [eapply (ok_add_suspend _ _ _ _ _ _ _ Hok0 Hx Hv Hnew)
             | eapply (ok_add_idle _ _ _ _ _ _ _ Hok0 Hx Hv Hnew)].
  all: try (by unfold list_add_tail; rewrite <- Permutation_cons_append).
  all: try (by repeat split).
  - eapply (add_order_tail _ _ _ _ _ _ _ Hok0 Hx Hv Hnew); [done|set_solver|apply Hok0].
  - eapply (add_order_head _ _ _ _ _ _ _ Hok0 Hx Hv Hnew); [done|set_solver|apply Hok0].
  - eapply (add_order_tail _ _ _ _ _ _ _ Hok0 Hx Hv Hnew); [done|set_solver|apply Hok0].
  - eapply (add_order_head _ _ _ _ _ _ _ Hok0 Hx Hv Hnew); [done|set_solver|apply Hok0].
Qed.

(** ** The expire timer *)

(** Where an operation leaves the suspend decision: a lock without timeout is
    held; or none is held and the suspend work is queued; or the timer is armed
    for the moment the last of the timed locks expires. *)
Definition timer_post (clk : clock) (s : wl_state) : Prop :=
  let h := held s WAKE_LOCK_SUSPEND in
  (has_untimed h /\ expire_timer s = None) \/
  (h = ∅ /\ expire_timer s = None /\ suspend_queued s = true) \/
  (exists r, 0 < r < 2 ^ 31 /\ expire_timer s = Some (u32 (jiffies clk + r)) /\
    (forall id o, h !! id = Some o ->
       exists e, o = Some e /\ 0 < s32 (e - jiffies clk) <= r) /\
    exists id e, h !! id = Some (Some e) /\ s32 (e - jiffies clk) = r).

Lemma sweep_lookup clk h id o :
  ~ has_untimed h ->
  sweep clk h !! id = Some o <->
  exists e, o = Some e /\ h !! id = Some (Some e) /\ 0 < s32 (e - jiffies clk).
Proof.
  intros Hu. unfold sweep. rewrite decide_False, map_lookup_filter_Some by done. cbn.
  split; [|naive_solver]. intros [Ho He]. destruct o as [e|]; [eauto|].
  destruct Hu. by exists id.
Qed.

Lemma timer_view_eq clk s r : view_eq (update_expire_timer clk s r) s.
Proof. unfold update_expire_timer. by repeat case_match. Qed.

Lemma held_timer clk s r t : held (update_expire_timer clk s r) t = held s t.
Proof. apply held_proper; [apply timer_view_eq|done]. Qed.

Lemma update_expire_post clk s h r :
  held s WAKE_LOCK_SUSPEND = sweep clk h -> answer_spec clk h r ->
  timer_post clk (update_expire_timer clk s r).
Proof.
  intros Hh Ha. unfold timer_post. rewrite held_timer, Hh.
  destruct Ha as [[Hu ->]|(Hu & H0 & Hle & Hr)].
  { left. split; [|done]. unfold sweep. by rewrite decide_True. }
  right. unfold update_expire_timer. destruct (Z.ltb_spec 0 r) as [Hp|Hp].
  - right. exists r. destruct Hr as [?|(id & e & He & Hr)]; [lia|].
    pose proof (s32_range (e - jiffies clk)). split_and!; [lia..|done| |].
    + intros j o (e' & -> & He' & Hl)%sweep_lookup; [|done]. exists e'.
      split; [done|]. split; [done|]. by eapply Hle.
    + exists id, e. rewrite sweep_lookup by done. split; [|done]. exists e. split_and!; [done..|lia].
  - left. assert (r = 0) as -> by lia. split; [|done]. apply map_empty. intros id.
    apply eq_None_not_Some. intros [o (e & -> & He & Hl)%sweep_lookup]; [|done].
    apply Hle in He. lia.
Qed.

(** ** Functional behaviour of the operations *)

Lemma finish_spec clk s id ht :
  wl_ok s -> (ht = false -> has_untimed (held s WAKE_LOCK_SUSPEND)) ->
  exists s', wake_lock_finish clk s id ht = Some s' /\ wl_ok s' /\
    held s' WAKE_LOCK_SUSPEND =
      (if ht then sweep clk (held s WAKE_LOCK_SUSPEND) else held s WAKE_LOCK_SUSPEND) /\
    (forall t, t <> WAKE_LOCK_SUSPEND -> held s' t = held s t) /\ timer_post clk s'.
Proof.
  intros Hok Hu. unfold wake_lock_finish.
  set (s1 := if decide (id = main_wake_lock) then _ else s).
  set (s2 := if decide (id = main_wake_lock) then _ else _).
  assert (view_eq s1 s) as E1 by (unfold s1; by case_decide).
  assert (view_eq s2 s) as E2.
  { unfold s2. case_decide; [by rewrite view_eq_sleep_wait|].
    apply view_eq_if; [by rewrite view_eq_sleep_wait|done]. }
  assert (wl_ok s2) as Hok2 by (by rewrite E2).
  assert (forall t, held s2 t = held s t) as Eh by (intros t; by rewrite E2).
  destruct ht.
  - destruct (has_wake_lock_locked_spec clk s2 WAKE_LOCK_SUSPEND)
      as (s3 & r & -> & Hok3 & Hh & Ho & Ha & _); [done|by left|].
    cbn. eexists. split; [done|]. split_and!.
    + by rewrite timer_view_eq.
    + by rewrite held_timer, Hh, Eh.
    + intros t Ht. by rewrite held_timer, Ho, Eh.
    + by eapply update_expire_post.
  - eexists. split; [done|]. split_and!.
    + by rewrite timer_view_eq.
    + by rewrite held_timer, Eh.
    + intros t Ht. by rewrite held_timer, Eh.
    + left. rewrite held_timer, Eh. split; [by apply Hu|done].
Qed.

Lemma wake_lock_internal_spec clk s id l timeout ht :
  wl_ok s -> locks s !! id = Some l -> is_init l = true -> valid_type (lock_type l) ->
  exists s', wake_lock_internal clk s id timeout ht = Some s' /\ wl_ok s' /\
    held s' (lock_type l) =
      (let h := <[id := new_expiry clk timeout ht]> (held s (lock_type l)) in
       if ht && (lock_type l =? WAKE_LOCK_SUSPEND) then sweep clk h else h) /\
    (forall t, t <> lock_type l -> held s' t = held s t) /\
    (lock_type l = WAKE_LOCK_SUSPEND -> timer_post clk s').
Proof.
  intros Hok Hl Hi Hty. unfold wake_lock_internal. rewrite Hl. cbn.
  change (Z.land (flags l) WAKE_LOCK_TYPE_MASK) with (lock_type l).
  change (flag (flags l) WAKE_LOCK_INITIALIZED) with (is_init l). rewrite Hi. cbn.
  change (wake_lock_link _ _ _ _ _ _) with (activate clk s id l timeout ht).
  assert ((WAKE_LOCK_TYPE_COUNT <=? lock_type l) = false) as -> by (by destruct Hty as [-> | ->]).
  pose proof (activate_ok clk s id l timeout ht Hok Hl Hi Hty) as Hok1.
  assert (forall t, held (activate clk s id l timeout ht) t =
    if decide (t = lock_type l) then <[id := new_expiry clk timeout ht]> (held s t)
    else held s t) as Hh.
  { intros t. rewrite (held_activate clk s id l timeout ht t) by done. case_decide; [done|].
    apply delete_id. by eapply held_type_unique. }
  destruct (Z.eqb_spec (lock_type l) WAKE_LOCK_SUSPEND) as [E|E].
  - destruct (finish_spec clk (activate clk s id l timeout ht) id ht Hok1)
      as (s' & -> & Hok' & Hs & Ho & Hp).
    { intros ->. exists id. rewrite Hh, E, decide_True by done. by rewrite lookup_insert_eq. }
    exists s'. split_and!; [done..| | |done].
    + rewrite E, Hs, Hh, decide_True by done. by destruct ht.
    + intros t Ht. rewrite Ho, Hh, decide_False by congruence. done.
  - eexists. split_and!; [done..| | |done].
    + rewrite Hh, decide_True by done. by destruct ht.
    + intros t Ht. by rewrite Hh, decide_False.
Qed.

Lemma wake_unlock_spec clk s id l :
  wl_ok s -> locks s !! id = Some l -> is_init l = true ->
  exists s', wake_unlock clk s id = Some s' /\ wl_ok s' /\
    held s' WAKE_LOCK_SUSPEND =
      (let h := delete id (held s WAKE_LOCK_SUSPEND) in
       if lock_type l =? WAKE_LOCK_SUSPEND then sweep clk h else h) /\
    held s' WAKE_LOCK_IDLE = delete id (held s WAKE_LOCK_IDLE) /\
    (lock_type l = WAKE_LOCK_SUSPEND -> timer_post clk s').
Proof.
  intros Hok Hl Hi. unfold wake_unlock. rewrite Hl. cbn [mbind option_bind].
  change (link_inactive _ _) with (deactivate clk s id false).
  change (Z.land (flags l) WAKE_LOCK_TYPE_MASK) with (lock_type l).
  set (s3 := if decide (id = main_wake_lock) then _ else _).
  assert (view_eq s3 (deactivate clk s id false)) as E3 by (unfold s3; by case_decide).
  assert (wl_ok s3) as Hok3.
  { rewrite E3. eapply deactivate_ok; [done|by apply look_Some|done]. }
  assert (forall t, held s3 t = delete id (held s t)) as Eh.
  { intros t. rewrite E3. apply held_deactivate. }
  destruct (Z.eqb_spec (lock_type l) WAKE_LOCK_SUSPEND) as [E|E].
  - rewrite E. destruct (has_wake_lock_locked_spec clk s3 WAKE_LOCK_SUSPEND)
      as (s4 & r & -> & Hok4 & Hh & Ho & Ha & _); [done|by left|].
    cbn. eexists. split; [done|]. set (s5 := update_expire_timer clk s4 r).
    assert (timer_post clk s5) as Hp by (by eapply update_expire_post).
    set (s6 := if decide (id = main_wake_lock) then _ else s5).
    assert (view_eq s6 s5) as E6 by (unfold s6; case_decide; [apply view_eq_sleep_wait|done]).
    assert (forall t, held s6 t = held s4 t) as Eh6
      by (intros t; rewrite E6; apply held_timer).
    split_and!.
    + rewrite E6. unfold s5. by rewrite timer_view_eq.
    + by rewrite Eh6, Hh, Eh.
    + by rewrite Eh6, Ho, Eh.
    + intros _. unfold timer_post in *. rewrite Eh6. unfold s5 in Hp. rewrite held_timer in Hp.
      assert (frame s6 = frame s5) as Hf.
      { unfold s6. case_decide; [apply frame_sleep_wait|done]. }
      unfold frame in Hf. injection Hf as _ Hq Ht _ _ _. by rewrite Hq, Ht.
  - eexists. split; [done|]. rewrite !Eh. done.
Qed.

Lemma init_ok s id type nm s' :
  wl_ok s -> (forall v, look s id = Some v -> v_init v = false) -> id ∉ inactive_locks s ++ active_suspend s ++ active_idle s ->
  wake_lock_init s id type nm = Some s' -> wl_ok s'.
Proof.
  intros Hok Hno Hni. unfold wake_lock_init. case_match; [|done]. intros [= <-].
  set (l := WakeLock _ _ _ _).
  eapply (ok_add_inactive (look s) _ id (lock_view l)); [done|..].
  - intros j Hj. unfold look. cbn. by rewrite lookup_insert_ne.
  - unfold look. cbn -[lock_view l]. by rewrite lookup_insert_eq.
  - done.
  - unfold inactive_view, lock_view, is_init, is_active, is_timed, l. cbn.
    unfold WAKE_LOCK_INITIALIZED, WAKE_LOCK_ACTIVE, WAKE_LOCK_AUTO_EXPIRE, WAKE_LOCK_TYPE_MASK.
    rewrite !flag_lor by lia. rewrite !flag_pow2, !Z.land_spec by lia.
    by rewrite !andb_false_r, orb_true_r.
Qed.

Lemma not_listed s id :
  wl_ok s -> (forall v, look s id = Some v -> v_init v = false) ->
  id ∉ inactive_locks s ++ active_suspend s ++ active_idle s.
Proof.
  intros Hok Hno. rewrite !elem_of_app. intros [Hin|[Hin|Hin]].
  - apply (ok_inactive _ _ _ _ Hok) in Hin as (v & Hv & Hi & _). by rewrite (Hno v Hv) in Hi.
  - apply (ok_suspend _ _ _ _ Hok) in Hin as (v & Hv & Hi & _). by rewrite (Hno v Hv) in Hi.
  - apply (ok_idle _ _ _ _ Hok) in Hin as (v & Hv & Hi & _). by rewrite (Hno v Hv) in Hi.
Qed.

Lemma destroy_ok s id s' : wl_ok s -> wake_lock_destroy s id = Some s' -> wl_ok s'.
Proof.
  intros Hok. unfold wake_lock_destroy. destruct (locks s !! id) as [l|] eqn:Hl; [|done].
  cbn. intros [= <-].
  set (s1 := update_lock s id _). set (s2 := if _ : bool then s1 else _).
  assert (view_eq s2 s1) as E2.
  { unfold s2. case_match; [done|]. by apply view_eq_update. }
  eapply (ok_del (look s)); cbn -[look].
  - intros j Hj. change (look s2 j = look s j). destruct E2 as [-> _]. unfold s1.
    rewrite look_update. by case_decide.
  - intros v. change (look s2 id = Some v -> v_init v = false). destruct E2 as [-> _].
    unfold s1. rewrite look_update, Hl, decide_True by done. cbn. intros [= <-]. by solve_flags.
  - by destruct E2 as (_ & -> & -> & ->).
Qed.

(** ** The transitions of the component *)

Definition initialised (s : wl_state) (id : nat) : Prop :=
  exists l, locks s !! id = Some l /\ is_init l = true.

(** What drivers and the kernel may do to the wake locks.  A lock is only
    initialised when it is not yet (or no longer) in use, and only released or
    destroyed while it is. *)
Inductive wl_step (clk : clock) : wl_state -> wl_state -> Prop :=
  | step_init s id type nm s' :
      ~ initialised s id -> wake_lock_init s id type nm = Some s' -> wl_step clk s s'
  | step_destroy s id s' :
      initialised s id -> wake_lock_destroy s id = Some s' -> wl_step clk s s'
  | step_lock s id s' : wake_lock clk s id = Some s' -> wl_step clk s s'
  | step_lock_timeout s id timeout s' :
      wake_lock_timeout clk s id timeout = Some s' -> wl_step clk s s'
  | step_unlock s id s' :
      initialised s id -> wake_unlock clk s id = Some s' -> wl_step clk s s'
  | step_has_wake_lock s type s' r :
      valid_type type -> has_wake_lock clk s type = Some (s', r) -> wl_step clk s s'
  | step_expire s s' t :
      expire_timer s = Some t -> expire_wake_locks clk s = Some s' -> wl_step clk s s'
  | step_suspend_enter s s' r :
      suspend_queued s = true -> suspend_enter clk s = Some (s', r) -> wl_step clk s s'
  | step_suspend_exit s n s' : suspend_exit clk s n = Some s' -> wl_step clk s s'
  | step_suspend_late s s' r : power_suspend_late clk s = Some (s', r) -> wl_step clk s s'
  | step_monitor s m stamp s' m' :
      suspend_exception_handle clk s m stamp = Some (s', m') -> wl_step clk s s'.

Lemma locks_initialised s id l :
  locks s !! id = Some l -> is_init l = true -> initialised s id.
Proof. by exists l. Qed.

Lemma internal_some clk s id timeout ht s' :
  wake_lock_internal clk s id timeout ht = Some s' ->
  exists l, locks s !! id = Some l /\ is_init l = true /\ lock_type l < WAKE_LOCK_TYPE_COUNT.
Proof.
  unfold wake_lock_internal. destruct (locks s !! id) as [l|]; [|done]. cbn.
  case_if; [done|]. case_match; [done|]. intros _. exists l.
  split_and!; [done|by apply negb_false_iff|done].
Qed.

Lemma type_valid l : lock_type l < WAKE_LOCK_TYPE_COUNT -> valid_type (lock_type l).
Proof.
  intros H. assert (0 <= lock_type l) by (apply Z.land_nonneg; by right).
  unfold valid_type, WAKE_LOCK_TYPE_COUNT, WAKE_LOCK_SUSPEND, WAKE_LOCK_IDLE in *. lia.
Qed.

Lemma internal_ok clk s id timeout ht s' :
  wl_ok s -> wake_lock_internal clk s id timeout ht = Some s' -> wl_ok s'.
Proof.
  intros Hok Hs. pose proof (internal_some _ _ _ _ _ _ Hs) as (l & Hl & Hi & Hty).
  destruct (wake_lock_internal_spec clk s id l timeout ht Hok Hl Hi (type_valid _ Hty))
    as (s1 & Hs1 & Hok1 & _). congruence.
Qed.

Lemma has_ok clk s t s' r :
  wl_ok s -> valid_type t -> has_wake_lock clk s t = Some (s', r) -> wl_ok s'.
Proof.
  intros Hok Ht Hs. destruct (has_wake_lock_locked_spec clk s t Hok Ht) as (s1 & r1 & Hs1 & Hok1 & _).
  unfold has_wake_lock in Hs. congruence.
Qed.

Lemma set_queued_ok s q : wl_ok (set_queued s q) <-> wl_ok s.
Proof. done. Qed.

Lemma wl_step_ok clk s s' : wl_ok s -> wl_step clk s s' -> wl_ok s'.
Proof.
  intros Hok Hst. destruct Hst as [s id type nm s' Hn Hs|s id s' Hi Hs|s id s' Hs
    |s id timeout s' Hs|s id s' (l & Hl & Hi) Hs|s type s' r Ht Hs|s s' t _ Hs|s s' r _ Hs
    |s n s' Hs|s s' r Hs|s m stamp s' m' Hs].
  - assert (forall v, look s id = Some v -> v_init v = false) as Hno.
    { intros v. unfold look. destruct (locks s !! id) as [l|] eqn:El; [|done]. cbn.
      intros [= <-]. destruct (is_init l) eqn:Ei; [|done]. destruct Hn. by exists l. }
    eapply init_ok; eauto using not_listed.
  - by eapply destroy_ok.
  - by eapply internal_ok.
  - by eapply internal_ok.
  - destruct (wake_unlock_spec clk s id l Hok Hl Hi) as (s1 & Hs1 & Hok1 & _). congruence.
  - by eapply has_ok.
  - unfold expire_wake_locks in Hs.
    destruct (has_wake_lock_locked _ _ _) as [[s1 r]|] eqn:E; [|done]. cbn in Hs. simplify_eq.
    eapply has_ok in E; [|exact Hok|by left]. by case_match.
  - unfold suspend_enter in Hs.
    destruct (has_wake_lock _ _ _) as [[s1 r1]|] eqn:E; [|done]. cbn in Hs.
    eapply has_ok in E; [|exact Hok|by left]. by case_match; simplify_eq.
  - unfold suspend_exit in Hs. case_match; [by eapply internal_ok|by simplify_eq].
  - unfold power_suspend_late in Hs.
    destruct (has_wake_lock _ _ _) as [[s1 r1]|] eqn:E; [|done]. cbn in Hs.
    eapply has_ok in E; [|exact Hok|by left]. by simplify_eq.
  - unfold suspend_exception_handle in Hs. destruct (snprintf _ _ _ _) as [buf u].
    destruct (if u <=? 0 then _ else _); cbn in Hs; by simplify_eq.
Qed.

Lemma init_state_ok : wl_ok init_state.
Proof.
  split; try (intros ? Hin; by apply elem_of_nil in Hin).
  - constructor.
  - by intros id v.
  - exists [], []. set_solver.
  - exists [], []. set_solver.
Qed.

Lemma fresh_not_listed s id : wl_ok s -> locks s !! id = None ->
  (forall v, look s id = Some v -> v_init v = false) /\
  id ∉ inactive_locks s ++ active_suspend s ++ active_idle s.
Proof.
  intros Hok Hn. assert (forall v, look s id = Some v -> v_init v = false) as H.
  { intros v. unfold look. by rewrite Hn. }
  split; [done|]. by apply not_listed.
Qed.

Lemma init_fresh_ok s id type nm s' :
  wl_ok s -> locks s !! id = None -> wake_lock_init s id type nm = Some s' ->
  wl_ok s' /\ dom (locks s') = {[id]} ∪ dom (locks s).
Proof.
  intros Hok Hn Hs. destruct (fresh_not_listed s id Hok Hn). split; [by eapply init_ok|].
  unfold wake_lock_init in Hs. case_match; [|done]. simplify_eq. cbn. apply dom_insert_L.
Qed.

Lemma destroy_all_ok s s' : wl_ok s -> wakelocks_destroy s = Some s' -> wl_ok s'.
Proof.
  intros Hok. unfold wakelocks_destroy.
  destruct (wake_lock_destroy s unknown_wakeup) as [s1|] eqn:E1; [|done]. cbn [mbind option_bind].
  destruct (wake_lock_destroy s1 main_wake_lock) as [s2|] eqn:E2; [|done]. cbn [mbind option_bind].
  eauto using destroy_ok.
Qed.

(** The three locks of wakelock.c once [wakelocks_init] took "main". *)
Definition boot_state (clk : clock) : option wl_state :=
  s1 ← wake_lock_init init_state deleted_wake_locks WAKE_LOCK_SUSPEND
         (Some "deleted_wake_locks"%string);
  s2 ← wake_lock_init s1 main_wake_lock WAKE_LOCK_SUSPEND (Some "main"%string);
  wake_lock clk s2 main_wake_lock.

Lemma boot_state_fresh clk s : boot_state clk = Some s -> locks s !! unknown_wakeup = None.
Proof. intros H. vm_compute in H. injection H as <-. by vm_compute. Qed.

Lemma boot_state_ok clk s : boot_state clk = Some s -> wl_ok s.
Proof.
  unfold boot_state.
  destruct (wake_lock_init init_state _ _ _) as [s1|] eqn:E1; [|done]. cbn [mbind option_bind].
  destruct (wake_lock_init s1 _ _ _) as [s2|] eqn:E2; [|done]. cbn [mbind option_bind].
  pose proof (init_fresh_ok _ _ _ _ _ init_state_ok eq_refl E1) as [Hok1 Hd1].
  assert (locks s1 !! main_wake_lock = None) as Hn.
  { apply not_elem_of_dom. rewrite Hd1. cbn. set_solver. }
  pose proof (init_fresh_ok _ _ _ _ _ Hok1 Hn E2) as [Hok2 _].
  by apply internal_ok.
Qed.

Lemma wakelocks_init_ok clk r s ret : wakelocks_init clk r = Some (s, ret) -> wl_ok s.
Proof.
  pose proof (boot_state_ok clk) as Hok. pose proof (boot_state_fresh clk) as Hfr.
  unfold wakelocks_init. unfold boot_state in Hok, Hfr.
  destruct (wake_lock_init init_state _ _ _) as [s1|]; [|done]. cbn [mbind option_bind] in *.
  destruct (wake_lock_init s1 _ _ _) as [s2|]; [|done]. cbn [mbind option_bind] in *.
  destruct (wake_lock clk s2 _) as [s3|]; [|done]. cbn [mbind option_bind] in *.
  destruct (wake_lock_init s3 _ _ _) as [s4|] eqn:E4; [|done]. cbn [mbind option_bind].
  apply init_fresh_ok in E4 as [Hok4 _]; [|by apply Hok|by apply Hfr].
  assert (forall ret', (s5 ← wakelocks_destroy s4; Some (s5, ret')) = Some (s, ret) -> wl_ok s).
  { intros ret'. destruct (wakelocks_destroy s4) eqn:E; [|done]. cbn. intros [= <- _].
    by eapply destroy_all_ok. }
  repeat case_match; eauto. congruence.
Qed.

(** ** Firing of the expire timer *)

Lemma s32_congr x : exists k, x = s32 x + k * 2 ^ 32.
Proof.
  unfold s32. exists ((x + 2 ^ 31) / 2 ^ 32).
  pose proof (Z.div_mod (x + 2 ^ 31) (2 ^ 32) ltac:(lia)). lia.
Qed.

Lemma s32_of x y k : x = y + k * 2 ^ 32 -> - 2 ^ 31 <= y < 2 ^ 31 -> s32 x = y.
Proof.
  intros -> Hy. unfold s32. replace (y + k * 2 ^ 32 + 2 ^ 31) with (y + 2 ^ 31 + k * 2 ^ 32) by lia.
  rewrite Z.mod_add, Z.mod_small by lia. lia.
Qed.

Lemma expired_at_fire clk clk' e r late :
  0 < s32 (e - jiffies clk) <= r -> 0 <= late -> r + late < 2 ^ 31 ->
  jiffies clk' = u32 (jiffies clk + r + late) -> s32 (e - jiffies clk') <= 0.
Proof.
  intros He Hl Hr ->. destruct (s32_congr (e - jiffies clk)) as [k Hk]. unfold u32.
  pose proof (Z.div_mod (jiffies clk + r + late) (2 ^ 32) ltac:(lia)).
  rewrite (s32_of _ (s32 (e - jiffies clk) - r - late)
    (k + (jiffies clk + r + late) / 2 ^ 32)) by lia. lia.
Qed.

Lemma fire_spec clk s :
  wl_ok s -> ~ has_untimed (held s WAKE_LOCK_SUSPEND) ->
  (forall id e, held s WAKE_LOCK_SUSPEND !! id = Some (Some e) -> s32 (e - jiffies clk) <= 0) ->
  exists s', expire_wake_locks clk s = Some s' /\ suspend_queued s' = true /\
    held s' WAKE_LOCK_SUSPEND = ∅ /\ wl_ok s'.
Proof.
  intros Hok Hu He. unfold expire_wake_locks.
  destruct (has_wake_lock_locked_spec clk (set_expire_timer s None) WAKE_LOCK_SUSPEND)
    as (s1 & r & -> & Hok1 & Hh & _ & Ha & _); [done|by left|]. cbn.
  change (held (set_expire_timer s None) ?t) with (held s t) in *.
  assert (r = 0) as ->.
  { destruct Ha as [[? _]|(_ & H0 & _ & [?|(id & e & Hid & <-)])]; [done|done|].
    specialize (He id e Hid). lia. }
  exists (queue_suspend_work s1). split_and!; [done..| |done].
  change (held (queue_suspend_work s1) ?t) with (held s1 t). rewrite Hh.
  apply map_empty. intros id. apply eq_None_not_Some.
  intros [o (e & -> & Hid & Hl)%sweep_lookup]; [|done]. specialize (He id e Hid). lia.
Qed.

(** ** The suspend monitor's records *)

Lemma lock_line_nonempty clk l : 0 < zlen (chars (lock_line clk l)).
Proof.
  unfold lock_line. destruct (flag _ _); [destruct (_ <=? _)|]; reflexivity.
Qed.

(** Case analysis on every comparison of the goal. *)
Ltac split_cmp :=
  repeat match goal with
  | |- context [?a <=? ?b] => destruct (Z.leb_spec a b)
  | |- context [?a <? ?b] => destruct (Z.ltb_spec a b)
  end.

Lemma splice_extend (b : list Z) off t1 t2 z :
  0 <= off -> off + zlen t1 + zlen t2 + 1 <= zlen b ->
  splice (splice b off (t1 ++ [z])) (off + zlen t1) (t2 ++ [z]) = splice b off ((t1 ++ t2) ++ [z]).
Proof.
  intros H0 H. pose proof (zlen_nonneg t1). pose proof (zlen_nonneg t2).
  assert (forall t : list Z, zlen (t ++ [z]) = zlen t + 1) as Hz
    by (intros; by rewrite (zlen_app (A:=Z))).
  assert (zlen (splice b off (t1 ++ [z])) = zlen b) as Hs by (apply zlen_splice; rewrite ?Hz; lia).
  apply bget_ext.
  { rewrite !zlen_splice; rewrite ?Hs, ?Hz, ?zlen_app; lia. }
  intros i Hi. rewrite zlen_splice in Hi by (rewrite ?Hs, ?Hz; lia).
  rewrite Hs in Hi.
  rewrite !bget_splice by (rewrite ?Hs, ?Hz, ?zlen_app; lia).
  rewrite !Hz, zlen_app. split_cmp; cbn [andb]; try lia; try done;
    rewrite !bget_app by lia; rewrite ?zlen_app; split_cmp; try lia; try done; f_equal; lia.
Qed.

(** The text a record gets for the locks [ids]. *)
Definition record_text (clk : clock) (s : wl_state) (ids : list nat) : list Z :=
  concat ((fun id => match locks s !! id with
                     | Some l => chars (lock_line clk l) | None => [] end) <$> ids).

Lemma record_loop_fits clk s p b ids : forall t0,
  0 <= p -> p + RECORD_SIZE <= zlen b ->
  zlen t0 + zlen (record_text clk s ids) < RECORD_SIZE - 1 ->
  record_loop clk s p (zlen t0) (splice b p (t0 ++ [0])) ids =
  Some (splice b p ((t0 ++ record_text clk s ids) ++ [0])).
Proof.
  unfold RECORD_SIZE. induction ids as [|id ids IH]; intros t0 Hp Hb Hf.
  { cbn. by rewrite app_nil_r. }
  cbn [record_loop]. unfold record_text in Hf |- *. rewrite fmap_cons in Hf |- *.
  cbn [concat] in Hf |- *. fold (record_text clk s ids) in Hf |- *.
  destruct (locks s !! id) as [l|]; [|by apply IH].
  pose proof (lock_line_nonempty clk l) as Hn. rewrite zlen_app in Hf.
  pose proof (zlen_nonneg (record_text clk s ids)). pose proof (zlen_nonneg t0).
  unfold snprintf, RECORD_SIZE. rewrite s32_small by lia. repeat case_if; try lia.
  rewrite take_ge by (unfold zlen in *; lia). rewrite splice_extend by lia.
  rewrite <- zlen_app, IH; rewrite ?zlen_app, <- ?app_assoc; [done|lia..].
Qed.

(** ** Example states *)

Definition clk0 : clock := Clock 1000 0 0 0 0 0.
Definition boot : wl_state := default init_state (boot_state clk0).

Lemma boot_ok : wl_ok boot.
Proof. apply (boot_state_ok clk0). by vm_compute. Qed.

(** ** Properties *)

(** C9: In every state the wake lock code can reach from [wakelocks_init], by
    any sequence of lock operations, timer expiries and suspend attempts at any
    clock readings, each initialised lock is on exactly one of the three lists,
    the one its flags name, and each active list holds the locks without
    timeout first. *)
Theorem wakelock_lists_invariant clk r s0 ret s :
  wakelocks_init clk r = Some (s0, ret) ->
  rtc (fun a b => exists clk', wl_step clk' a b) s0 s -> wl_ok s.
Proof.
  intros Hi%wakelocks_init_ok Hr. revert Hi.
  induction Hr as [|a b c [clk' Hst] Hr IH]; intros Hok; [done|]. eauto using wl_step_ok.
Qed.

Lemma wakelock_lists_invariant_witness :
  exists s0 s1 s2, wakelocks_init clk0 (InitResults 0 0 true 0) = Some (s0, 0) /\
    wake_lock_timeout clk0 s0 unknown_wakeup 50 = Some s1 /\
    wake_unlock clk0 s1 main_wake_lock = Some s2 /\ wl_ok s2.
Proof.
  do 3 eexists. split; [vm_compute; reflexivity|]. split; [vm_compute; reflexivity|].
  split; [vm_compute; reflexivity|].
  eapply (wakelock_lists_invariant clk0 (InitResults 0 0 true 0)); [vm_compute; reflexivity|].
  eapply rtc_l; [exists clk0; eapply (step_lock_timeout _ _ unknown_wakeup 50);
    vm_compute; reflexivity|].
  eapply rtc_once. exists clk0. eapply (step_unlock _ _ main_wake_lock); [|vm_compute; reflexivity].
  eexists. split; vm_compute; reflexivity.
Defined.

(** C38: Taking an initialised lock of one of the two types never trips a
    BUG_ON ([wake_lock_init] takes the type as the caller gives it).
    [wake_lock] makes the lock held without expiry; [wake_lock_timeout] makes it
    held until [jiffies + timeout], and if it is a suspend lock, the expired
    suspend locks are then dropped if none without timeout is held.  Idle locks
    that have expired stay in the list.  The other lock type is unaffected, and for a
    suspend lock the expire timer and the suspend work are left consistent with
    what is held. *)
Theorem wake_lock_refines clk s id l timeout ht :
  wl_ok s -> locks s !! id = Some l -> is_init l = true -> valid_type (lock_type l) ->
  exists s', wake_lock_internal clk s id timeout ht = Some s' /\ wl_ok s' /\
    held s' (lock_type l) =
      (let h := <[id := new_expiry clk timeout ht]> (held s (lock_type l)) in
       if ht && (lock_type l =? WAKE_LOCK_SUSPEND) then sweep clk h else h) /\
    (forall t, t <> lock_type l -> held s' t = held s t) /\
    (lock_type l = WAKE_LOCK_SUSPEND -> timer_post clk s').
Proof. apply wake_lock_internal_spec. Qed.

Lemma wake_lock_refines_witness :
  exists l s', locks boot !! main_wake_lock = Some l /\
    wake_lock_internal clk0 boot main_wake_lock 50 true = Some s' /\
    held s' WAKE_LOCK_SUSPEND = {[ main_wake_lock := Some 1050 ]}.
Proof.
  edestruct (wake_lock_refines clk0 boot main_wake_lock) as (s' & Hs & _ & Hh & _);
    [apply boot_ok|vm_compute; reflexivity|vm_compute; reflexivity|by left; vm_compute|].
  eexists. exists s'. split; [vm_compute; reflexivity|]. split; [exact Hs|]. etrans; [exact Hh|]. vm_compute. reflexivity.
Defined.

(** Releasing an initialised lock removes it from what is held, drops the
    expired locks when a suspend lock was released and no lock without timeout
    remains, and then: if a lock without timeout remains nothing is scheduled;
    if locks with timeout remain the expire timer is armed for the last expiry;
    if none remains the suspend work is queued. *)
Theorem wake_unlock_refines clk s id l :
  wl_ok s -> locks s !! id = Some l -> is_init l = true ->
  exists s', wake_unlock clk s id = Some s' /\ wl_ok s' /\
    held s' WAKE_LOCK_SUSPEND =
      (let h := delete id (held s WAKE_LOCK_SUSPEND) in
       if lock_type l =? WAKE_LOCK_SUSPEND then sweep clk h else h) /\
    held s' WAKE_LOCK_IDLE = delete id (held s WAKE_LOCK_IDLE) /\
    (lock_type l = WAKE_LOCK_SUSPEND -> timer_post clk s').
Proof. apply wake_unlock_spec. Qed.

Lemma wake_unlock_refines_witness :
  exists l s', locks boot !! main_wake_lock = Some l /\
    wake_unlock clk0 boot main_wake_lock = Some s' /\ suspend_queued s' = true.
Proof.
  edestruct (wake_unlock_refines clk0 boot main_wake_lock) as (s' & Hs & _ & Hh & _ & Ht);
    [apply boot_ok|vm_compute; reflexivity|vm_compute; reflexivity|].
  eexists. exists s'. split; [vm_compute; reflexivity|]. split; [exact Hs|]. vm_compute in Hs. injection Hs as <-. reflexivity.
Defined.

(** [has_wake_lock] answers -1 exactly when a lock without timeout of the
    type is held, otherwise the longest time left of the held locks, 0 when
    none is left; expired locks are dropped only in the second case, and the
    other type, the timers and the suspend work are not touched. *)
Theorem has_wake_lock_exact clk s t :
  wl_ok s -> valid_type t ->
  exists s' r, has_wake_lock clk s t = Some (s', r) /\ wl_ok s' /\
    held s' t = sweep clk (held s t) /\
    (forall t', t' <> t -> held s' t' = held s t') /\
    answer_spec clk (held s t) r /\ frame s' = frame s.
Proof. apply has_wake_lock_locked_spec. Qed.

Lemma has_wake_lock_exact_witness :
  exists s', has_wake_lock clk0 boot WAKE_LOCK_SUSPEND = Some (s', -1) /\
    held s' WAKE_LOCK_SUSPEND = {[ main_wake_lock := None ]}.
Proof.
  destruct (has_wake_lock_exact clk0 boot WAKE_LOCK_SUSPEND boot_ok (or_introl eq_refl))
    as (s' & r & Hs & _ & Hh & _).
  exists s'. rewrite Hs. split; [vm_compute in Hs; injection Hs as _ <-; reflexivity|].
  rewrite Hh. vm_compute. reflexivity.
Defined.

(** The suspend locks that still prevent suspend. *)
Definition nothing_held (clk : clock) (s : wl_state) : Prop :=
  forall id o, held s WAKE_LOCK_SUSPEND !! id = Some o -> ~ unexpired clk o.

Lemma answer_zero clk s r :
  answer_spec clk (held s WAKE_LOCK_SUSPEND) r -> r = 0 <-> nothing_held clk s.
Proof.
  intros [[[id Hu] ->]|(Hu & H0 & Hle & Hr)]; split.
  - done.
  - intros Hn. destruct (Hn id None Hu). done.
  - intros -> id [e|] Hid; [|destruct Hu; by exists id]. cbn. specialize (Hle id e Hid). lia.
  - intros Hn. destruct Hr as [?|(id & e & Hid & Hr)]; [done|]. specialize (Hn id _ Hid).
    cbn in Hn. lia.
Qed.

(** C2: The system goes to sleep only when no suspend lock is held: the
    suspend work calls [pm_suspend] exactly when every held suspend lock has
    expired, and the late check of the platform device lets the suspend proceed
    exactly then, and aborts it with -EAGAIN otherwise. *)
Theorem suspend_only_when_released clk s :
  wl_ok s ->
  exists s1 entry s2 ret,
    suspend_enter clk s = Some (s1, entry) /\ power_suspend_late clk s = Some (s2, ret) /\
    (entry = Some (current_event_num s) <-> nothing_held clk s) /\
    (entry = None <-> ~ nothing_held clk s) /\
    (ret = 0 <-> nothing_held clk s) /\ (ret = - EAGAIN <-> ~ nothing_held clk s).
Proof.
  intros Hok. unfold suspend_enter, power_suspend_late, has_wake_lock.
  destruct (has_wake_lock_locked_spec clk (set_queued s false) WAKE_LOCK_SUSPEND)
    as (s1 & r & -> & _ & _ & _ & Ha & Hf); [done|by left|].
  change (held (set_queued s false) ?t) with (held s t) in Ha.
  destruct (has_wake_lock_locked_spec clk s WAKE_LOCK_SUSPEND)
    as (s2 & r' & -> & _ & _ & _ & Ha' & _); [done|by left|].
  apply answer_zero in Ha. apply answer_zero in Ha'.
  injection Hf as He _ _ _ _ _. cbn.
  destruct (Z.eqb_spec r 0), (Z.eqb_spec r' 0); cbn; try (exfalso; tauto);
    do 4 eexists; (split; [done|]); (split; [done|]); unfold EAGAIN.
  - split_and!; (split; [intros; try tauto; try done|intros; try tauto; try by rewrite <- He]).
  - split_and!; (split; [intros; try tauto; try done|intros; try tauto; try done]).
Qed.

Lemma suspend_only_when_released_witness :
  exists s1 s2, suspend_enter clk0 boot = Some (s1, None) /\
    power_suspend_late clk0 boot = Some (s2, - EAGAIN) /\ ~ nothing_held clk0 boot.
Proof.
  destruct (suspend_only_when_released clk0 boot boot_ok)
    as (s1 & entry & s2 & ret & H1 & H2 & _ & Hn & _ & Hr).
  exists s1, s2. assert (entry = None) as -> by (vm_compute in H1; by injection H1 as _ <-).
  assert (ret = - EAGAIN) as -> by (vm_compute in H2; by injection H2 as _ <-).
  split; [done|]. split; [done|]. by apply Hn.
Defined.

Lemma timer_post_fires clk clk' s t late :
  wl_ok s -> timer_post clk s -> expire_timer s = Some t ->
  0 <= late -> u32 (t - jiffies clk) + late < 2 ^ 31 -> jiffies clk' = u32 (t + late) ->
  exists s', expire_wake_locks clk' s = Some s' /\ suspend_queued s' = true /\
    held s' WAKE_LOCK_SUSPEND = ∅ /\ wl_ok s'.
Proof.
  intros Hok Hp Ht Hl Hb Hj.
  destruct Hp as [[_ Hn]|[(_ & Hn & _)|(r & Hr & Ht' & Hall & _)]]; [congruence..|].
  rewrite Ht in Ht'. injection Ht' as ->.
  assert (u32 (u32 (jiffies clk + r) - jiffies clk) = r) as Hu.
  { unfold u32. rewrite Zminus_mod_idemp_l. rewrite Z.mod_small; lia. }
  rewrite Hu in Hb. apply fire_spec; [done|..].
  - intros [id Hid]. apply Hall in Hid as (e & ? & _). done.
  - intros id e (e' & [= <-] & He)%Hall. eapply expired_at_fire; [exact He|done..|].
    rewrite Hj. unfold u32. by rewrite Zplus_mod_idemp_l.
Qed.

(** No wake-up is lost: when releasing a suspend lock, or taking one with a
    timeout, arms the expire timer, then the handler of that timer, run [late]
    ticks after it is due, finds every held lock expired, drops them all and
    queues the suspend work. *)
Theorem expire_timer_suspends clk clk' s id l timeout s' t late :
  wl_ok s -> locks s !! id = Some l -> is_init l = true -> lock_type l = WAKE_LOCK_SUSPEND ->
  wake_unlock clk s id = Some s' \/ wake_lock_timeout clk s id timeout = Some s' ->
  expire_timer s' = Some t -> 0 <= late -> u32 (t - jiffies clk) + late < 2 ^ 31 ->
  jiffies clk' = u32 (t + late) ->
  exists s'', expire_wake_locks clk' s' = Some s'' /\ suspend_queued s'' = true /\
    held s'' WAKE_LOCK_SUSPEND = ∅ /\ wl_ok s''.
Proof.
  intros Hok Hl Hi Hty [Hs|Hs] Ht H0 Hb Hj.
  - destruct (wake_unlock_spec clk s id l Hok Hl Hi) as (s1 & Hs1 & Hok1 & _ & _ & Hp).
    simplify_eq. eapply timer_post_fires; eauto.
  - destruct (wake_lock_internal_spec clk s id l timeout true Hok Hl Hi) as
      (s1 & Hs1 & Hok1 & _ & _ & Hp); [by left|]. unfold wake_lock_timeout in Hs.
    simplify_eq. eapply timer_post_fires; eauto.
Qed.

Lemma expire_timer_suspends_witness :
  exists l s' s'', locks boot !! main_wake_lock = Some l /\
    wake_lock_timeout clk0 boot main_wake_lock 50 = Some s' /\
    expire_timer s' = Some 1050 /\
    expire_wake_locks (Clock 1052 0 0 0 0 0) s' = Some s'' /\ suspend_queued s'' = true.
Proof.
  edestruct (expire_timer_suspends clk0 (Clock 1052 0 0 0 0 0) boot main_wake_lock)
    with (timeout := 50) (late := 2) as (s'' & Hs & Hq & _);
    [apply boot_ok|vm_compute; reflexivity|vm_compute; reflexivity|vm_compute; reflexivity
    |right; vm_compute; reflexivity|vm_compute; reflexivity|lia|vm_compute; reflexivity
    |vm_compute; reflexivity|].
  eexists. eexists. exists s''. split; [vm_compute; reflexivity|].
  split; [vm_compute; reflexivity|]. split; [reflexivity|]. split; [exact Hs|exact Hq].
Defined.

(** The line of /proc/wakelocks for an active lock already shows the
    figures the lock has after it is released at that moment: same count,
    expire count, wakeup count, total, prevented and maximal time; only the
    active time becomes 0 and the last change the time of the release.  For an
    inactive lock a release changes nothing. *)
Theorem stats_line_predicts_release clk last_sleep l :
  print_lock_stat clk last_sleep (clear_active (wake_unlock_stat_lock clk last_sleep false l)) =
  let p := print_lock_stat clk last_sleep l in
  if flag (flags l) WAKE_LOCK_ACTIVE
  then StatLine (sl_name p) (sl_count p) (sl_expire_count p) (sl_wakeup_count p) 0 (sl_total p)
         (sl_prevent p) (sl_max p) (ktime_get clk)
  else p.
Proof.
  unfold print_lock_stat at 1.
  assert (forall l', flag (flags (clear_active l')) WAKE_LOCK_ACTIVE = false) as ->.
  { intros l'. pose proof (view_clear_active l') as Hv. unfold lock_view in Hv. by injection Hv. }
  unfold wake_unlock_stat_lock, print_lock_stat.
  destruct (flag (flags l) WAKE_LOCK_ACTIVE); cbn; [|done].
  by destruct (get_expired_time clk l), (flag (flags l) WAKE_LOCK_PREVENTING_SUSPEND).
Qed.

(** When the date line and the lines of the active locks fit in a record
    with its terminator, the suspend monitor stores exactly that text,
    terminated, in the current record, leaves every other byte of the buffer
    alone, moves on to the next record and re-arms itself in five minutes. *)
Theorem monitor_record_fits clk s m stamp :
  let p := record_index m * RECORD_SIZE in
  let text := chars stamp ++ record_text clk s (active_suspend s) in
  0 <= record_index m < WAKE_LOCK_RECORD_NR ->
  zlen (active_wake_lock_buf m) = WAKE_LOCK_RECORD_NR * RECORD_SIZE ->
  0 < zlen (chars stamp) -> zlen text < RECORD_SIZE - 1 ->
  suspend_exception_handle clk s m stamp =
  Some (set_exception_timer s (Some (u32 (jiffies clk + 30000))),
        Monitor ((record_index m + 1) mod WAKE_LOCK_RECORD_NR)
          (splice (active_wake_lock_buf m) p (text ++ [0]))).
Proof.
  intros p text Hi Hb Hs Ht. unfold suspend_exception_handle, snprintf. fold p.
  unfold text in *. rewrite zlen_app in Ht. unfold WAKE_LOCK_RECORD_NR, RECORD_SIZE in *.
  pose proof (zlen_nonneg (record_text clk s (active_suspend s))).
  rewrite s32_small by lia. change (400 - 1 <? 0) with false. change (400 - 1 =? 0) with false.
  cbn match.
  rewrite take_ge by (unfold zlen in *; lia).
  rewrite (proj2 (Z.leb_gt _ _)) by lia.
  rewrite (record_loop_fits clk s p (active_wake_lock_buf m)); unfold RECORD_SIZE, p; [done|lia..].
Qed.

Lemma monitor_record_fits_witness :
  exists m', suspend_exception_handle clk0 boot (Monitor 9 (replicate 4000 7)) "now" =
    Some (set_exception_timer boot (Some 31000), m') /\
    bslice (active_wake_lock_buf m') 3598 30 =
      [7; 7] ++ chars "nowactive wake lock main" ++ [10; 0; 7; 7].
Proof.
  eexists. split.
  - etrans; [apply (monitor_record_fits clk0 boot (Monitor 9 (replicate 4000 7)) "now");
      [vm_compute; by split|vm_compute; reflexivity..]|]. vm_compute. reflexivity.
  - vm_compute. reflexivity.
Defined.

(** Three locks with names of 180 characters. *)
Definition long_name : string := String.concat "" (replicate 18 "0123456789"%string).
Definition crowded : wl_state :=
  let l := WakeLock (Z.lor WAKE_LOCK_INITIALIZED WAKE_LOCK_ACTIVE) long_name 0 zero_stat in
  set_lists (set_locks boot (<[3%nat := l]> (<[4%nat := l]> (<[5%nat := l]> (locks boot)))))
    (inactive_locks boot) ([3; 4; 5]%nat ++ active_suspend boot) [].

(** The monitor takes the length [snprintf] would have needed for the
    length it wrote.  With names that overflow a record the next size is
    negative, [snprintf] answers 0, and the terminator is stored at that
    offset: inside the next record, or, from the last record, past the end of
    the buffer (the store that the model reports as [None]). *)
Theorem monitor_stores_out_of_record :
  suspend_exception_handle clk0 crowded (Monitor 9 (replicate 4000 7))
    "(2011-01-01 00:00:00.000000000 UTC)" = None /\
  (exists s' m', suspend_exception_handle clk0 crowded (Monitor 0 (replicate 4000 7))
     "(2011-01-01 00:00:00.000000000 UTC)" = Some (s', m') /\
   bget (active_wake_lock_buf m') 429 = 7 /\ bget (active_wake_lock_buf m') 431 = 0).
Proof. split; [by vm_compute|]. do 2 eexists. split; [vm_compute; reflexivity|]. by vm_compute. Qed.
