(* ===== verification/WakelockApi.v ===== *)
(** * The interface of the wake locks

    What kernel/power/earlysuspend.c and kernel/power/userwakelock.c rely on
    when they call into kernel/power/wakelock.c: [WakeLockApi] lists the calls
    and [WakeLockLaws] what each of them promises.  The clients are verified
    against the laws; the instances at the end discharge them for the model of
    Wakelock.v. *)

From stdpp Require Import base numbers list gmap strings.
From S2P Require Import Prelude Wakelock WakelockInv WakelockProps.

Open Scope Z_scope.

Class WakeLockApi (S C : Type) := {
  api_init : S -> nat -> string -> option S;
  api_lock : C -> S -> nat -> option S;
  api_lock_timeout : C -> S -> nat -> Z -> option S;
  api_unlock : C -> S -> nat -> option S;
  api_active : S -> nat -> bool }.

(** [absent s id]: no lock [id] was ever set up.  [ready s id]: [id] is an
    initialised suspend lock.  [holds s id]: it is held without a timeout, so
    that nothing but a release ends it. *)
Class WakeLockLaws (S C : Type) `{WakeLockApi S C} := {
  api_ok : S -> Prop;
  absent : S -> nat -> Prop;
  ready : S -> nat -> Prop;
  holds : S -> nat -> Prop;
  holds_active s id : holds s id -> api_active s id = true;
  absent_not_ready s id : absent s id -> ready s id -> False;
  init_law s id nm : api_ok s -> absent s id ->
    exists s', api_init s id nm = Some s' /\ api_ok s' /\ ready s' id /\
      api_active s' id = false /\
      (forall j, j <> id -> (ready s' j <-> ready s j) /\ (absent s' j <-> absent s j) /\
         (holds s' j <-> holds s j));
  lock_law c s id : api_ok s -> ready s id ->
    exists s', api_lock c s id = Some s' /\ api_ok s' /\ holds s' id /\
      (forall j, (ready s' j <-> ready s j) /\ (absent s' j <-> absent s j)) /\
      (forall j, j <> id -> holds s' j <-> holds s j);
  lock_timeout_law c s id t : api_ok s -> ready s id ->
    exists s', api_lock_timeout c s id t = Some s' /\ api_ok s' /\ ~ holds s' id /\
      (forall j, (ready s' j <-> ready s j) /\ (absent s' j <-> absent s j)) /\
      (forall j, j <> id -> holds s' j <-> holds s j);
  unlock_law c s id : api_ok s -> ready s id ->
    exists s', api_unlock c s id = Some s' /\ api_ok s' /\ api_active s' id = false /\
      (forall j, (ready s' j <-> ready s j) /\ (absent s' j <-> absent s j)) /\
      (forall j, j <> id -> holds s' j <-> holds s j) }.

(** ** The model of wakelock.c satisfies the interface *)

#[export] Instance wakelock_api : WakeLockApi wl_state clock := {
  api_init s id nm := wake_lock_init s id WAKE_LOCK_SUSPEND (Some nm);
  api_lock := wake_lock;
  api_lock_timeout := wake_lock_timeout;
  api_unlock := wake_unlock;
  api_active := wake_lock_active }.

(** The part of a lock no operation but initialisation and destruction changes. *)
Definition kind (s : wl_state) (id : nat) : option (bool * Z) :=
  (fun v => (v_init v, v_type v)) <$> look s id.

Definition same_kind (s s' : wl_state) : Prop := forall j, kind s' j = kind s j.

#[export] Instance same_kind_trans : Transitive same_kind.
Proof. intros a b c H1 H2 j. by rewrite H2, H1. Qed.

Lemma kind_view_eq s s' : view_eq s' s -> same_kind s s'.
Proof. intros [H _] j. unfold kind. by rewrite H. Qed.

Lemma kind_deactivate clk s id e : same_kind s (deactivate clk s id e).
Proof.
  intros j. unfold kind. rewrite look_deactivate. case_decide; [|done]. subst.
  by destruct (look s id).
Qed.

Lemma kind_activate clk s id l timeout ht :
  locks s !! id = Some l -> same_kind s (activate clk s id l timeout ht).
Proof.
  intros Hl j. unfold kind. rewrite (look_activate _ _ _ l) by done. case_decide; [|done].
  subst. by rewrite (look_Some _ _ _ Hl).
Qed.

Lemma kind_loop clk ids : forall s m, same_kind s (has_wake_lock_loop clk s ids m).1.
Proof.
  induction ids as [|id ids IH]; intros s m; cbn; [done|].
  destruct (locks s !! id) as [l|]; [|apply IH]. destruct (flag _ _); [|done].
  destruct (_ <=? 0); [|destruct (_ <? _); apply IH].
  etrans; [|apply IH]. apply (kind_deactivate clk s id true).
Qed.

Lemma kind_has clk s t s' r : has_wake_lock_locked clk s t = Some (s', r) -> same_kind s s'.
Proof.
  unfold has_wake_lock_locked. destruct (_ <=? t); [done|]. intros [= Hs].
  pose proof (kind_loop clk (active_wake_locks s t) s 0) as Hk. by rewrite Hs in Hk.
Qed.

Lemma kind_finish clk s id ht s' : wake_lock_finish clk s id ht = Some s' -> same_kind s s'.
Proof.
  unfold wake_lock_finish.
  set (s1 := if decide (id = main_wake_lock) then _ else s).
  set (s2 := if decide (id = main_wake_lock) then _ else _).
  assert (same_kind s s2) as Hk2.
  { apply kind_view_eq. unfold s2, s1. case_decide; [by rewrite view_eq_sleep_wait|].
    apply view_eq_if; [by rewrite view_eq_sleep_wait|done]. }
  destruct ht.
  - destruct (has_wake_lock_locked _ _ _) as [[s3 r]|] eqn:E; [|done]. cbn. intros [= <-].
    etrans; [exact Hk2|]. etrans; [by eapply kind_has|]. apply kind_view_eq, timer_view_eq.
  - intros [= <-]. etrans; [exact Hk2|]. apply kind_view_eq, timer_view_eq.
Qed.

Lemma kind_internal clk s id timeout ht s' :
  wake_lock_internal clk s id timeout ht = Some s' -> same_kind s s'.
Proof.
  unfold wake_lock_internal. destruct (locks s !! id) as [l|] eqn:Hl; [|done]. cbn.
  destruct (_ <=? _); [done|]. destruct (negb _); [done|].
  pose proof (kind_activate clk s id l timeout ht Hl) as Hk. unfold activate in Hk.
  unfold lock_type in Hk. case_match; intros Hs.
  - etrans; [exact Hk|]. by eapply kind_finish.
  - by injection Hs as <-.
Qed.

Lemma kind_unlock clk s id s' : wake_unlock clk s id = Some s' -> same_kind s s'.
Proof.
  unfold wake_unlock. destruct (locks s !! id) as [l|] eqn:Hl; [|done].
  cbn [mbind option_bind]. change (link_inactive _ _) with (deactivate clk s id false).
  set (s3 := if decide (id = main_wake_lock) then _ else _).
  assert (same_kind s s3) as Hk3.
  { etrans; [apply (kind_deactivate clk s id false)|]. apply kind_view_eq. unfold s3. by case_decide. }
  destruct (_ =? _); [|by intros [= <-]].
  destruct (has_wake_lock_locked _ _ _) as [[s4 r]|] eqn:E; [|done]. cbn. intros [= <-].
  etrans; [exact Hk3|]. etrans; [by eapply kind_has|]. apply kind_view_eq.
  case_decide; [rewrite view_eq_sleep_wait|]; apply timer_view_eq.
Qed.

Lemma ready_lock s id :
  kind s id = Some (true, WAKE_LOCK_SUSPEND) ->
  exists l, locks s !! id = Some l /\ is_init l = true /\ lock_type l = WAKE_LOCK_SUSPEND.
Proof.
  unfold kind, look. destruct (locks s !! id) as [l|]; [|done]. cbn. intros [= Hi Ht]. by exists l.
Qed.

Lemma active_lookup s id : wake_lock_active s id = default false (v_active <$> look s id).
Proof. unfold wake_lock_active, look. by destruct (locks s !! id). Qed.

Lemma sweep_untimed clk h id : sweep clk h !! id = Some None <-> h !! id = Some None.
Proof.
  unfold sweep. case_decide; [done|]. rewrite map_lookup_filter_Some. cbn. naive_solver.
Qed.

Lemma held_inactive s id :
  kind s id = Some (true, WAKE_LOCK_SUSPEND) -> held s WAKE_LOCK_SUSPEND !! id = None ->
  wake_lock_active s id = false.
Proof.
  unfold kind. rewrite held_lookup, active_lookup. destruct (look s id) as [v|]; [|done].
  cbn. intros [= Hi Ht]. unfold view_held. rewrite Hi, Ht. by destruct (v_active v).
Qed.

Lemma same_kind_laws s s' : same_kind s s' ->
  forall j, (kind s' j = Some (true, WAKE_LOCK_SUSPEND) <-> kind s j = Some (true, WAKE_LOCK_SUSPEND)) /\
    (kind s' j = None <-> kind s j = None).
Proof. intros H j. by rewrite (H j). Qed.

Lemma wakelock_init_law s id nm :
  wl_ok s -> kind s id = None ->
  exists s', wake_lock_init s id WAKE_LOCK_SUSPEND (Some nm) = Some s' /\ wl_ok s' /\
    kind s' id = Some (true, WAKE_LOCK_SUSPEND) /\ wake_lock_active s' id = false /\
    forall j, j <> id -> look s' j = look s j.
Proof.
  intros Hok Hk. assert (locks s !! id = None) as Hn.
  { unfold kind, look in Hk. by destruct (locks s !! id). }
  destruct (wake_lock_init s id WAKE_LOCK_SUSPEND (Some nm)) as [s'|] eqn:E; [|done].
  exists s'. split; [done|]. split; [by eapply init_fresh_ok|].
  unfold wake_lock_init in E. rewrite Hn in E. injection E as <-.
  unfold kind, look, wake_lock_active. cbn. rewrite lookup_insert_eq. split_and!; [done..|].
  intros j Hj. by rewrite lookup_insert_ne.
Qed.

#[export] Program Instance wakelock_laws : WakeLockLaws wl_state clock := {
  api_ok := wl_ok;
  absent s id := kind s id = None;
  ready s id := kind s id = Some (true, WAKE_LOCK_SUSPEND);
  holds s id := held s WAKE_LOCK_SUSPEND !! id = Some None }.
Next Obligation.
  cbn. intros s id Hh. apply held_Some in Hh as (v & Hv & (_ & Ha & _) & _).
  by rewrite active_lookup, Hv.
Qed.
Next Obligation. cbn. intros s id H1 H2. congruence. Qed.
Next Obligation.
  intros s id nm Hok Hk. destruct (wakelock_init_law s id nm Hok Hk)
    as (s' & Hs & Hok' & Hr & Ha & Hl). exists s'. split_and!; [done..|].
  intros j Hj. cbn. by rewrite !held_lookup; unfold kind; rewrite !Hl.
Qed.
Next Obligation.
  cbn. intros clk s id Hok (l & Hl & Hi & Hty)%ready_lock.
  destruct (wake_lock_internal_spec clk s id l 0 false Hok Hl Hi) as (s' & Hs & Hok' & Hh & _);
    [by left|]. rewrite Hty in Hh. cbn in Hh.
  exists s'. split_and!; [done|done| | |].
  - by rewrite Hh, lookup_insert_eq.
  - by eapply same_kind_laws, kind_internal.
  - intros j Hj. by rewrite Hh, lookup_insert_ne.
Qed.
Next Obligation.
  cbn. intros clk s id t Hok (l & Hl & Hi & Hty)%ready_lock.
  destruct (wake_lock_internal_spec clk s id l t true Hok Hl Hi) as (s' & Hs & Hok' & Hh & _);
    [by left|]. rewrite Hty in Hh. cbn in Hh.
  exists s'. split_and!; [done|done| | |].
  - by rewrite Hh, sweep_untimed, lookup_insert_eq.
  - by eapply same_kind_laws, kind_internal.
  - intros j Hj. by rewrite Hh, sweep_untimed, lookup_insert_ne.
Qed.
Next Obligation.
  cbn. intros clk s id Hok Hr. pose proof Hr as (l & Hl & Hi & Hty)%ready_lock.
  destruct (wake_unlock_spec clk s id l Hok Hl Hi) as (s' & Hs & Hok' & Hh & _).
  rewrite Hty in Hh. cbn in Hh. pose proof (kind_unlock _ _ _ _ Hs) as Hk.
  exists s'. split_and!; [done|done| | |].
  - apply held_inactive; [by rewrite (Hk id)|]. rewrite Hh. apply eq_None_not_Some.
    intros [o Ho]. unfold sweep in Ho. case_decide.
    + by rewrite lookup_delete_eq in Ho.
    + apply map_lookup_filter_Some in Ho as [Ho _]. by rewrite lookup_delete_eq in Ho.
  - by apply same_kind_laws.
  - intros j Hj. by rewrite Hh, sweep_untimed, lookup_delete_ne.
Qed.
