(* ===== verification/EarlySuspend.v ===== *)
(** * Early suspend (kernel/power/earlysuspend.c)

    The state word, the ordered list of handlers, the two work items on the
    single-threaded suspend work queue, and the main wake lock behind the
    interface of WakelockApi.v.  The third work of this queue, [suspend_work] of
    wakelock.c, is not in [queue]: Wakelock.v has it, and here it is one of the
    changes of the wake locks that may come at any time.

    [early_suspend] and [late_resume] run on the queue's thread and can be
    overtaken by [request_suspend_state] wherever they do not hold
    [state_lock]; they are split at those points, and [worker] says where the
    thread is.  [early_suspend_lock] is held in [WEarlyHandlers] and
    [WLateHandlers], so handlers are not registered there. *)

From stdpp Require Import base numbers list gmap sorting relations.
From S2P Require Import Prelude Wakelock WakelockApi.

Open Scope Z_scope.

Definition SUSPEND_REQUESTED : Z := 1.
Definition SUSPENDED : Z := 2.
Definition SUSPEND_REQUESTED_AND_SUSPENDED : Z := Z.lor SUSPEND_REQUESTED SUSPENDED.
Definition PM_SUSPEND_ON : Z := 0.
Definition PM_SUSPEND_MEM : Z := 3.

(** [struct early_suspend]; a callback may be absent. *)
Record early_suspend_t := EarlySuspendT { level : Z; has_suspend : bool; has_resume : bool }.

Inductive work := EarlyWork | LateWork.
#[export] Instance work_eq_dec : EqDecision work.
Proof. solve_decision. Defined.

Inductive worker := WIdle | WEarlyHandlers | WEarlyFinish | WLateHandlers.
#[export] Instance worker_eq_dec : EqDecision worker.
Proof. solve_decision. Defined.

Inductive hcall := CallSuspend (id : nat) | CallResume (id : nat).

Section model.
Context {S C : Type} `{!WakeLockApi S C}.

Record es_state := EsState {
  state : Z;
  handlers : list nat;                       (* early_suspend_handlers *)
  hinfo : gmap nat early_suspend_t;          (* every handler ever registered *)
  requested_suspend_state : Z;
  queue : list work;                         (* early_suspend_work and late_resume_work, pending on suspend_work_queue *)
  pc : worker;
  wl : S;
  calls : list hcall }.                      (* callbacks made so far *)

Definition set_state (es : es_state) st q p w cs :=
  EsState st (handlers es) (hinfo es) (requested_suspend_state es) q p w cs.

Definition queue_work (w : work) (q : list work) : list work :=
  if decide (w ∈ q) then q else q ++ [w].

Definition flagged (st bit : Z) : bool := negb (Z.land st bit =? 0).

(** The list walk of [register_early_suspend]: before the first handler of a
    higher level. *)
Fixpoint insert_handler (info : gmap nat early_suspend_t) (id : nat) (lvl : Z)
    (hs : list nat) : list nat :=
  match hs with
  | [] => [id]
  | e :: hs' =>
      match info !! e with
      | Some h => if lvl <? level h then id :: hs else e :: insert_handler info id lvl hs'
      | None => e :: insert_handler info id lvl hs'
      end
  end.

Definition register_early_suspend (es : es_state) (id : nat) (h : early_suspend_t) : es_state :=
  EsState (state es) (insert_handler (hinfo es) id (level h) (handlers es))
    (<[id := h]> (hinfo es)) (requested_suspend_state es) (queue es) (pc es) (wl es)
    (if flagged (state es) SUSPENDED && has_suspend h
     then calls es ++ [CallSuspend id] else calls es).

Definition unregister_early_suspend (es : es_state) (id : nat) : es_state :=
  EsState (state es) (list_del id (handlers es)) (hinfo es) (requested_suspend_state es)
    (queue es) (pc es) (wl es) (calls es).

Definition suspend_calls (es : es_state) : list hcall :=
  CallSuspend <$> filter (fun id => has_suspend <$> hinfo es !! id = Some true) (handlers es).
Definition resume_calls (es : es_state) : list hcall :=
  CallResume <$> filter (fun id => has_resume <$> hinfo es !! id = Some true) (reverse (handlers es)).

(** [early_suspend], up to the release of [state_lock]. *)
Definition early_suspend_begin (es : es_state) : es_state :=
  let q := list_del EarlyWork (queue es) in
  if state es =? SUSPEND_REQUESTED
  then set_state es (Z.lor (state es) SUSPENDED) q WEarlyHandlers (wl es) (calls es)
  else set_state es (state es) q WEarlyFinish (wl es) (calls es).

Definition early_suspend_handlers (es : es_state) : es_state :=
  set_state es (state es) (queue es) WEarlyFinish (wl es) (calls es ++ suspend_calls es).

(** From the label [abort] on, after [sys_sync]. *)
Definition early_suspend_finish (c : C) (es : es_state) : option es_state :=
  if state es =? SUSPEND_REQUESTED_AND_SUSPENDED then
    w ← api_unlock c (wl es) main_wake_lock;
    Some (set_state es (state es) (queue es) WIdle w (calls es))
  else Some (set_state es (state es) (queue es) WIdle (wl es) (calls es)).

Definition late_resume_begin (es : es_state) : es_state :=
  let q := list_del LateWork (queue es) in
  if state es =? SUSPENDED
  then set_state es (Z.ldiff (state es) SUSPENDED) q WLateHandlers (wl es) (calls es)
  else set_state es (state es) q WIdle (wl es) (calls es).

Definition late_resume_handlers (es : es_state) : es_state :=
  set_state es (state es) (queue es) WIdle (wl es) (calls es ++ resume_calls es).

Definition request_suspend_state (c : C) (es : es_state) (new_state : Z) : option es_state :=
  let old_sleep := flagged (state es) SUSPEND_REQUESTED in
  let upd es' := EsState (state es') (handlers es') (hinfo es') new_state (queue es')
                   (pc es') (wl es') (calls es') in
  if negb old_sleep && negb (new_state =? PM_SUSPEND_ON) then
    Some (upd (set_state es (Z.lor (state es) SUSPEND_REQUESTED)
                 (queue_work EarlyWork (queue es)) (pc es) (wl es) (calls es)))
  else if old_sleep && (new_state =? PM_SUSPEND_ON) then
    w ← api_lock c (wl es) main_wake_lock;
    Some (upd (set_state es (Z.ldiff (state es) SUSPEND_REQUESTED)
                 (queue_work LateWork (queue es)) (pc es) w (calls es)))
  else Some (upd es).

Definition get_suspend_state (es : es_state) : Z := requested_suspend_state es.

Definition mutex_free (es : es_state) : Prop := pc es = WIdle \/ pc es = WEarlyFinish.
End model.
Arguments es_state : clear implicits.

(** ** The interleavings *)

Section steps.
Context {S C : Type} `{!WakeLockApi S C, !WakeLockLaws S C}.

(** Requests come at any time; the thread takes the works of its queue in
    order; handlers are registered and removed while the mutex is free; other
    drivers use their own wake locks. *)
Inductive es_step : es_state S -> es_state S -> Prop :=
  | es_request c es new es' : request_suspend_state c es new = Some es' -> es_step es es'
  | es_register es id h : mutex_free es -> hinfo es !! id = None ->
      es_step es (register_early_suspend es id h)
  | es_unregister es id : mutex_free es -> es_step es (unregister_early_suspend es id)
  | es_early_begin es q : pc es = WIdle -> queue es = EarlyWork :: q ->
      es_step es (early_suspend_begin es)
  | es_early_handlers es : pc es = WEarlyHandlers -> es_step es (early_suspend_handlers es)
  | es_early_finish c es es' : pc es = WEarlyFinish -> early_suspend_finish c es = Some es' ->
      es_step es es'
  | es_late_begin es q : pc es = WIdle -> queue es = LateWork :: q ->
      es_step es (late_resume_begin es)
  | es_late_handlers es : pc es = WLateHandlers -> es_step es (late_resume_handlers es)
  | es_env es w : api_ok w -> (forall j, ready (wl es) j -> ready w j) ->
      (holds w main_wake_lock <-> holds (wl es) main_wake_lock) ->
      api_active w main_wake_lock = api_active (wl es) main_wake_lock ->
      es_step es (set_state es (state es) (queue es) (pc es) w (calls es)).

(** After [wakelocks_init]: nothing requested, the main lock held. *)
Definition es_init (es : es_state S) : Prop :=
  state es = 0 /\ handlers es = [] /\ hinfo es = ∅ /\ queue es = [] /\ pc es = WIdle /\
  calls es = [] /\ api_ok (wl es) /\ ready (wl es) main_wake_lock /\ holds (wl es) main_wake_lock.

(** ** Main lock and state word *)

(** The state word, the pending works and the main lock agree: while the main
    lock is released the state is REQUESTED and SUSPENDED; a request that is
    not carried out yet has its work pending or running. *)
Record es_ok (es : es_state S) : Prop := {
  eo_wl : api_ok (wl es);
  eo_ready : ready (wl es) main_wake_lock;
  eo_state : state es = 0 \/ state es = 1 \/ state es = 2 \/ state es = 3;
  eo_main : holds (wl es) main_wake_lock \/
    (state es = SUSPEND_REQUESTED_AND_SUSPENDED /\ api_active (wl es) main_wake_lock = false);
  eo_early : state es = SUSPEND_REQUESTED -> EarlyWork ∈ queue es;
  eo_late : state es = SUSPENDED -> LateWork ∈ queue es;
  eo_release : state es = SUSPEND_REQUESTED_AND_SUSPENDED -> holds (wl es) main_wake_lock ->
    EarlyWork ∈ queue es \/ pc es = WEarlyHandlers \/ pc es = WEarlyFinish;
  eo_pc_early : pc es = WEarlyHandlers -> flagged (state es) SUSPENDED = true;
  eo_pc_late : pc es = WLateHandlers -> flagged (state es) SUSPENDED = false }.

Lemma holds_not_inactive w id : holds w id -> api_active w id = false -> False.
Proof. intros H%holds_active. congruence. Qed.

Lemma elem_of_queue_work w w' q : w ∈ queue_work w' q <-> w = w' \/ w ∈ q.
Proof. unfold queue_work. case_decide; set_solver. Qed.

Lemma request_ok c es new es' :
  es_ok es -> request_suspend_state c es new = Some es' -> es_ok es'.
Proof.
  intros [Hw Hr Hst Hm He Hl Hre Hpe Hpl]. unfold request_suspend_state.
  destruct Hst as [E|[E|[E|E]]]; rewrite E in *; cbn;
    destruct (new =? PM_SUSPEND_ON); cbn;
    try (intros [= <-]; split; cbn; rewrite ?E; auto; fail).
  - intros [= <-]. split; cbn; rewrite ?elem_of_queue_work; auto; try done.
    destruct Hm as [?|[? _]]; [by left|done].
  - destruct (lock_law c (wl es) main_wake_lock Hw Hr) as (w & -> & Hw' & Hh & Hk & _). cbn.
    intros [= <-]. split; cbn; rewrite ?elem_of_queue_work; auto; try done. by apply Hk.
  - intros [= <-]. split; cbn; rewrite ?elem_of_queue_work; auto; try done.
    destruct Hm as [?|[? _]]; [by left|done].
  - destruct (lock_law c (wl es) main_wake_lock Hw Hr) as (w & -> & Hw' & Hh & Hk & _). cbn.
    intros [= <-]. split; cbn; rewrite ?elem_of_queue_work; auto; try done. by apply Hk.
Qed.

Lemma early_begin_ok es : es_ok es -> pc es = WIdle -> es_ok (early_suspend_begin es).
Proof.
  intros [Hw Hr Hst Hm He Hl Hre Hpe Hpl] Hpc. unfold early_suspend_begin.
  destruct Hst as [E|[E|[E|E]]]; rewrite E in *; cbn;
    (split; cbn; rewrite ?E, ?elem_of_list_del; auto; try done).
  - destruct Hm as [?|[? _]]; [by left|done].
Qed.

Lemma late_begin_ok es : es_ok es -> pc es = WIdle -> es_ok (late_resume_begin es).
Proof.
  intros [Hw Hr Hst Hm He Hl Hre Hpe Hpl] Hpc. unfold late_resume_begin.
  destruct Hst as [E|[E|[E|E]]]; rewrite E in *; cbn;
    (split; cbn; rewrite ?E, ?elem_of_list_del; auto; try done).
  - destruct Hm as [?|[? _]]; [by left|done].
  - intros _ Hh. destruct (Hre eq_refl Hh) as [?|[?|?]]; [left; by split|congruence..].
Qed.

Lemma early_finish_ok c es es' :
  es_ok es -> pc es = WEarlyFinish -> early_suspend_finish c es = Some es' -> es_ok es'.
Proof.
  intros [Hw Hr Hst Hm He Hl Hre Hpe Hpl] Hpc. unfold early_suspend_finish.
  destruct (unlock_law c (wl es) main_wake_lock Hw Hr) as (w & Hu & Hw' & Ha & Hk & _).
  destruct (Z.eqb_spec (state es) SUSPEND_REQUESTED_AND_SUSPENDED) as [E|E].
  - rewrite Hu. cbn. intros [= <-]. split; cbn; auto; try done.
    + by apply Hk.
    + intros _ Hh. destruct (holds_not_inactive _ _ Hh Ha).
  - intros [= <-]. split; cbn; auto; done.
Qed.

Lemma es_step_ok es es' : es_ok es -> es_step es es' -> es_ok es'.
Proof.
  intros Hok Hst.
  destruct Hst as [c es new es' Hs|es id h Hf Hn|es id Hf|es q Hp Hq|es Hp|c es es' Hp Hs
    |es q Hp Hq|es Hp|es w Hw Hr Hh Ha].
  - by eapply request_ok.
  - destruct Hok. by split.
  - destruct Hok. by split.
  - by apply early_begin_ok.
  - destruct Hok as [? ? ? ? ? ? Hre ? ?]. split; cbn; auto; done.
  - by eapply early_finish_ok.
  - by apply late_begin_ok.
  - destruct Hok as [? ? ? ? ? ? Hre ? ?]. split; cbn; auto; try done.
    intros E Hh. destruct (Hre E Hh) as [?|[?|?]]; [by left|congruence..].
  - destruct Hok as [? ? ? Hm ? ? Hre ? ?]. split; cbn; auto; try done.
    + rewrite Hh, Ha. done.
    + intros E Hh'%Hh. auto.
Qed.

Lemma es_init_ok es : es_init es -> es_ok es.
Proof.
  intros (E & _ & _ & Hq & Hp & _ & Hw & Hr & Hh).
  split; rewrite ?E, ?Hp; auto; done.
Qed.
End steps.
