(* ===== verification/EarlySuspendProps.v ===== *)
(** * Early suspend: guarantees

    The main wake lock against the state word on every interleaving, what the
    suspend thread settles to once requests stop, and the order and
    alternation of the handlers' callbacks. *)

From stdpp Require Import base numbers list gmap sorting relations.
From S2P Require Import Prelude Wakelock WakelockInv WakelockProps WakelockApi EarlySuspend.

Open Scope Z_scope.

Section settle.
Context {S C : Type} `{!WakeLockApi S C, !WakeLockLaws S C}.

(** The next step of the suspend thread. *)
Definition worker_step (c : C) (es : es_state S) : option (es_state S) :=
  match pc es with
  | WIdle => match queue es with
             | [] => None
             | EarlyWork :: _ => Some (early_suspend_begin es)
             | LateWork :: _ => Some (late_resume_begin es)
             end
  | WEarlyHandlers => Some (early_suspend_handlers es)
  | WEarlyFinish => early_suspend_finish c es
  | WLateHandlers => Some (late_resume_handlers es)
  end.

Fixpoint worker_run (n : nat) (c : C) (es : es_state S) : option (es_state S) :=
  match n with
  | O => Some es
  | Datatypes.S n' => es' ← worker_step c es; worker_run n' c es'
  end.

(** Steps the thread still has to make. *)
Definition work_left (es : es_state S) : nat :=
  3 * length (queue es) +
  match pc es with WIdle => 0 | WEarlyHandlers => 2 | WEarlyFinish => 1 | WLateHandlers => 1 end.

Lemma finish_total c es :
  es_ok es -> exists es', early_suspend_finish c es = Some es' /\ pc es' = WIdle /\
    queue es' = queue es /\ state es' = state es.
Proof.
  intros [Hw Hr _ _ _ _ _ _ _]. unfold early_suspend_finish. case_match; [|by eexists].
  destruct (unlock_law c (wl es) main_wake_lock Hw Hr) as (w & -> & _). by eexists.
Qed.

Lemma worker_progress c es :
  es_ok es -> (work_left es > 0)%nat ->
  exists es', worker_step c es = Some es' /\ es_ok es' /\ (work_left es' < work_left es)%nat /\
    flagged (state es') SUSPEND_REQUESTED = flagged (state es) SUSPEND_REQUESTED.
Proof.
  intros Hok. unfold worker_step, work_left. pose proof (eo_state _ Hok) as Hst.
  destruct (pc es) eqn:Hp; [destruct (queue es) as [|[] q] eqn:Hq; cbn; [lia|..]|..].
  - intros _. exists (early_suspend_begin es). split; [done|]. split; [by apply early_begin_ok|].
    unfold early_suspend_begin. rewrite Hq, list_del_head.
    pose proof (length_list_del EarlyWork q).
    destruct Hst as [E|[E|[E|E]]]; rewrite E; cbn; rewrite ?E; (split; [lia|done]).
  - intros _. exists (late_resume_begin es). split; [done|]. split; [by apply late_begin_ok|].
    unfold late_resume_begin. rewrite Hq, list_del_head.
    pose proof (length_list_del LateWork q).
    destruct Hst as [E|[E|[E|E]]]; rewrite E; cbn; rewrite ?E; (split; [lia|done]).
  - intros _. exists (early_suspend_handlers es). split; [done|].
    split; [eapply es_step_ok; [done|by apply es_early_handlers]|]. cbn. split; [lia|done].
  - intros _. destruct (finish_total c es Hok) as (es' & Hs & Hp' & Hq' & Hs').
    exists es'. split; [done|]. split; [by eapply early_finish_ok|]. rewrite Hp', Hq', Hs'.
    split; [lia|done].
  - intros _. exists (late_resume_handlers es). split; [done|].
    split; [eapply es_step_ok; [done|by apply es_late_handlers]|]. cbn. split; [lia|done].
Qed.

(** At rest the state word and the main lock agree. *)
Lemma at_rest es :
  es_ok es -> work_left es = 0%nat ->
  pc es = WIdle /\ queue es = [] /\
  ((state es = 0 /\ holds (wl es) main_wake_lock) \/
   (state es = SUSPEND_REQUESTED_AND_SUSPENDED /\ api_active (wl es) main_wake_lock = false)).
Proof.
  intros [Hw Hr Hst Hm He Hl Hre Hpe Hpl] Hz. unfold work_left in Hz.
  destruct (queue es) as [|w q]; [|cbn in Hz; lia]. destruct (pc es); cbn in Hz; try lia.
  split; [done|]. split; [done|]. destruct Hm as [Hm|[Hm ?]]; [|by right].
  destruct Hst as [E|[E|[E|E]]]; [by left|..]; rewrite E in *; exfalso.
  - specialize (He eq_refl). set_solver.
  - specialize (Hl eq_refl). set_solver.
  - destruct (Hre eq_refl Hm) as [?|[?|?]]; [set_solver|done|done].
Qed.

Lemma worker_settles c n : forall es,
  es_ok es -> (work_left es <= n)%nat ->
  exists k es', (k <= n)%nat /\ worker_run k c es = Some es' /\ es_ok es' /\ work_left es' = 0%nat /\
    flagged (state es') SUSPEND_REQUESTED = flagged (state es) SUSPEND_REQUESTED.
Proof.
  induction n as [|n IH]; intros es Hok Hn.
  { exists O, es. split_and!; [done..|lia|done]. }
  destruct (decide (work_left es = 0%nat)) as [Hz|Hz].
  { exists O, es. split_and!; [lia|done..]. }
  destruct (worker_progress c es Hok) as (es1 & Hs & Hok1 & Hlt & Hf); [lia|].
  destruct (IH es1 Hok1) as (k & es' & Hk & Hr & Hok' & Hz' & Hf'); [lia|].
  exists (Datatypes.S k), es'. split_and!; [lia| |done|done|congruence]. cbn. by rewrite Hs.
Qed.
End settle.

(** ** Callbacks *)

(** Walks the callbacks of handler [id]: [None] when it is suspended twice in a
    row or resumed while not suspended. *)
Fixpoint alternates (id : nat) (susp : bool) (cs : list hcall) : option bool :=
  match cs with
  | [] => Some susp
  | CallSuspend j :: cs' =>
      if decide (j = id) then if susp then None else alternates id true cs'
      else alternates id susp cs'
  | CallResume j :: cs' =>
      if decide (j = id) then if susp then alternates id false cs' else None
      else alternates id susp cs'
  end.

Lemma alternates_app id cs1 : forall b cs2,
  alternates id b (cs1 ++ cs2) = b' ← alternates id b cs1; alternates id b' cs2.
Proof.
  induction cs1 as [|[j|j] cs1 IH]; intros b cs2; cbn; [done|..];
    case_decide; destruct b; rewrite ?IH; done.
Qed.

Lemma alternates_other id b (f : nat -> hcall) l :
  id ∉ l -> (f = CallSuspend \/ f = CallResume) -> alternates id b (f <$> l) = Some b.
Proof.
  intros Hni Hf. induction l as [|j l IH]; [done|]. apply not_elem_of_cons in Hni as [Hj Hl].
  destruct Hf as [-> | ->]; cbn; (case_decide; [congruence|auto]).
Qed.

Lemma alternates_suspend id l :
  NoDup l -> id ∈ l -> alternates id false (CallSuspend <$> l) = Some true.
Proof.
  induction 1 as [|j l Hj Hnd IH]; intros Hin; [set_solver|]. cbn. case_decide as E.
  - subst. by apply alternates_other; [|left].
  - apply IH. set_solver.
Qed.

Lemma alternates_resume id l :
  NoDup l -> id ∈ l -> alternates id true (CallResume <$> l) = Some false.
Proof.
  induction 1 as [|j l Hj Hnd IH]; intros Hin; [set_solver|]. cbn. case_decide as E.
  - subst. by apply alternates_other; [|right].
  - apply IH. set_solver.
Qed.

Section callbacks.
Context {S C : Type} `{!WakeLockApi S C, !WakeLockLaws S C}.

(** Whether the registered handlers are suspended. *)
Definition suspended_now (es : es_state S) : bool :=
  match pc es with
  | WEarlyHandlers => false
  | WLateHandlers => true
  | _ => flagged (state es) SUSPENDED
  end.

Definition level_of (info : gmap nat early_suspend_t) (id : nat) : Z :=
  match info !! id with Some h => level h | None => 0 end.

Definition by_level (info : gmap nat early_suspend_t) (a b : nat) : Prop :=
  level_of info a <= level_of info b.

Record hd_ok (es : es_state S) : Prop := {
  hd_nodup : NoDup (handlers es);
  hd_info id : id ∈ handlers es -> is_Some (hinfo es !! id);
  hd_calls id h : hinfo es !! id = Some h -> has_suspend h = true -> has_resume h = true ->
    exists b, alternates id false (calls es) = Some b /\
      (id ∈ handlers es -> b = suspended_now es);
  hd_new id : hinfo es !! id = None -> alternates id false (calls es) = Some false;
  hd_sorted : StronglySorted (by_level (hinfo es)) (handlers es) }.

(** Steps that touch neither the handlers nor the callbacks. *)
Lemma hd_ok_frame es es' :
  handlers es' = handlers es -> hinfo es' = hinfo es -> calls es' = calls es ->
  suspended_now es' = suspended_now es -> hd_ok es -> hd_ok es'.
Proof. intros Eh Ei Ec Es [? ? ? ? ?]. by split; rewrite ?Eh, ?Ei, ?Ec, ?Es. Qed.

Lemma elem_of_insert_handler info id lvl hs j :
  j ∈ insert_handler info id lvl hs <-> j = id \/ j ∈ hs.
Proof.
  induction hs as [|e hs IH]; cbn; [set_solver|].
  repeat case_match; rewrite ?elem_of_cons, ?IH; set_solver.
Qed.

Lemma nodup_insert_handler info id lvl hs :
  id ∉ hs -> NoDup hs -> NoDup (insert_handler info id lvl hs).
Proof.
  intros Hni. induction 1 as [|e hs He Hnd IH]; cbn; [apply NoDup_singleton|].
  apply not_elem_of_cons in Hni as [Hne Hni].
  repeat case_match; rewrite ?NoDup_cons; split_and?; auto; rewrite ?elem_of_insert_handler,
    ?elem_of_cons; naive_solver.
Qed.

Lemma sorted_ext info info' hs :
  (forall j, j ∈ hs -> info' !! j = info !! j) ->
  StronglySorted (by_level info) hs -> StronglySorted (by_level info') hs.
Proof.
  intros Hx Hs. induction Hs as [|e hs Hs IH Hf]; constructor.
  - apply IH. intros j Hj. apply Hx. set_solver.
  - rewrite Forall_forall in *. intros j Hj. specialize (Hf j Hj).
    unfold by_level, level_of in *. by rewrite !Hx by set_solver.
Qed.

Lemma sorted_insert_handler info id h hs :
  (forall j, j ∈ hs -> is_Some (info !! j)) -> info !! id = Some h ->
  StronglySorted (by_level info) hs ->
  StronglySorted (by_level info) (insert_handler info id (level h) hs).
Proof.
  intros Hin Hid Hs. induction Hs as [|e hs Hs IH Hf]; cbn; [repeat constructor|].
  destruct (Hin e) as [he He]; [set_solver|]. rewrite He. rewrite Forall_forall in Hf.
  destruct (Z.ltb_spec (level h) (level he)).
  - constructor; [constructor; [done|by apply Forall_forall]|].
    apply Forall_forall. intros j [->|Hj]%elem_of_cons; unfold by_level, level_of.
    + rewrite Hid, He. lia.
    + specialize (Hf j Hj). unfold by_level, level_of in Hf. rewrite He in Hf. rewrite Hid. lia.
  - constructor; [apply IH; set_solver|]. apply Forall_forall.
    intros j [->|Hj]%elem_of_insert_handler; [|auto]. unfold by_level, level_of.
    rewrite Hid, He. lia.
Qed.

Lemma insert_handler_ext info info' id lvl hs :
  (forall j, j ∈ hs -> info' !! j = info !! j) ->
  insert_handler info' id lvl hs = insert_handler info id lvl hs.
Proof.
  intros Hx. induction hs as [|e hs IH]; cbn; [done|].
  rewrite Hx, IH by set_solver. done.
Qed.

Lemma alternates_snoc_self id cs :
  alternates id false cs = Some false -> alternates id false (cs ++ [CallSuspend id]) = Some true.
Proof. intros H. rewrite alternates_app, H. cbn. by rewrite decide_True. Qed.

Lemma alternates_snoc_other id j b cs :
  j <> id -> alternates id b (cs ++ [CallSuspend j]) = alternates id b cs.
Proof.
  intros Hne. rewrite alternates_app. destruct (alternates id b cs); cbn; [|done].
  by rewrite decide_False.
Qed.

Lemma register_hd_ok es id h :
  mutex_free es -> hinfo es !! id = None -> hd_ok es -> hd_ok (register_early_suspend es id h).
Proof.
  intros Hf Hn [Hnd Hi Hc Hnew Hs].
  assert (id ∉ handlers es) as Hni by (intros [? ?]%Hi; congruence).
  assert (suspended_now (register_early_suspend es id h) = flagged (state es) SUSPENDED) as Es
    by (by destruct Hf as [E|E]; unfold suspended_now; cbn; rewrite E).
  assert (suspended_now es = flagged (state es) SUSPENDED) as Es'
    by (by destruct Hf as [E|E]; unfold suspended_now; rewrite E).
  assert (forall j, j <> id ->
    alternates j false (calls (register_early_suspend es id h)) = alternates j false (calls es)) as Ho.
  { intros j Hj. cbn. destruct (_ && _); [by apply alternates_snoc_other|done]. }
  split; cbn [handlers hinfo register_early_suspend].
  - by apply nodup_insert_handler.
  - intros j [->|Hj]%elem_of_insert_handler; [rewrite lookup_insert_eq; eauto|].
    rewrite lookup_insert_ne by (by intros ->). auto.
  - intros j h' Hj Hsu Hre. rewrite Es. destruct (decide (j = id)) as [->|Hne].
    + rewrite lookup_insert_eq in Hj. simplify_eq. cbn. rewrite Hsu, andb_true_r.
      destruct (flagged (state es) SUSPENDED); [|by eauto].
      rewrite alternates_snoc_self by auto. by eauto.
    + rewrite lookup_insert_ne in Hj by done. rewrite Ho by done.
      destruct (Hc j h' Hj Hsu Hre) as (b & Hb & Hb'). exists b. split; [done|].
      intros [?|?]%elem_of_insert_handler; [done|]. rewrite <- Es'. auto.
  - intros j Hj. destruct (decide (j = id)) as [->|Hne]; [by rewrite lookup_insert_eq in Hj|].
    rewrite lookup_insert_ne in Hj by done. rewrite Ho by done. auto.
  - rewrite <- (insert_handler_ext _ (<[id:=h]> (hinfo es))).
    + apply sorted_insert_handler; [|apply lookup_insert_eq|].
      * intros j Hj. rewrite lookup_insert_ne by (by intros ->). auto.
      * eapply sorted_ext; [|done]. intros j Hj. by rewrite lookup_insert_ne by (by intros ->).
    + intros j Hj. by rewrite lookup_insert_ne by (by intros ->).
Qed.

Lemma sorted_list_del (R : nat -> nat -> Prop) id l :
  StronglySorted R l -> StronglySorted R (list_del id l).
Proof.
  unfold list_del. induction 1 as [|e l Hs IH Hf]; [constructor|].
  rewrite filter_cons. case_decide; [|done]. constructor; [done|].
  rewrite Forall_forall in *. intros j [_ Hj]%list_elem_of_filter. auto.
Qed.

Lemma unregister_hd_ok es id : hd_ok es -> hd_ok (unregister_early_suspend es id).
Proof.
  intros [Hnd Hi Hc Hnew Hs]. split; cbn.
  - by apply NoDup_filter.
  - intros j [_ Hj]%elem_of_list_del. auto.
  - intros j h Hj H1 H2. destruct (Hc j h Hj H1 H2) as (b & Hb & Hb'). exists b.
    split; [done|]. intros [_ Hin]%elem_of_list_del. by apply Hb'.
  - done.
  - by apply sorted_list_del.
Qed.

(** The callbacks of one pass over the handlers [l]. *)
Lemma pass_hd_ok es es' (f : nat -> hcall) (l : list nat) b0 :
  (f = CallSuspend /\ b0 = false \/ f = CallResume /\ b0 = true) ->
  handlers es' = handlers es -> hinfo es' = hinfo es -> calls es' = calls es ++ (f <$> l) ->
  NoDup l -> (forall id, id ∈ l -> id ∈ handlers es) ->
  (forall id h, id ∈ handlers es -> hinfo es !! id = Some h ->
     has_suspend h = true -> has_resume h = true -> id ∈ l) ->
  suspended_now es = b0 -> suspended_now es' = negb b0 -> hd_ok es -> hd_ok es'.
Proof.
  intros Hf Eh Ei Ec Hndl Hsub Hall Eb Eb' [Hnd Hi Hc Hnew Hs].
  assert (f = CallSuspend \/ f = CallResume) as Hf' by naive_solver.
  split; rewrite ?Eh, ?Ei, ?Ec, ?Eb'; [done|done| | |done].
  - intros id h Hid H1 H2. destruct (Hc id h Hid H1 H2) as (b & Hb & Hb').
    rewrite alternates_app, Hb. cbn. destruct (decide (id ∈ handlers es)) as [Hin|Hin].
    + rewrite (Hb' Hin), Eb. exists (negb b0). split; [|done].
      pose proof (Hall id h Hin Hid H1 H2).
      destruct Hf as [[-> ->]|[-> ->]]; [by apply alternates_suspend|by apply alternates_resume].
    + exists b. split; [|done]. apply alternates_other; [|done]. intros ?%Hsub. done.
  - intros id Hid. rewrite alternates_app, (Hnew id Hid). cbn.
    apply alternates_other; [|done]. intros [h Hh]%Hsub%Hi. congruence.
Qed.

Lemma early_handlers_hd_ok es :
  es_ok es -> pc es = WEarlyHandlers -> hd_ok es -> hd_ok (early_suspend_handlers es).
Proof.
  intros Hok Hp Hh.
  eapply (pass_hd_ok es _ CallSuspend (filter (fun id => has_suspend <$> hinfo es !! id = Some true)
            (handlers es)) false); try done.
  - by left.
  - apply NoDup_filter. apply Hh.
  - intros id [_ ?]%list_elem_of_filter. done.
  - intros id h Hin Hid H1 _. apply list_elem_of_filter. split; [|done]. rewrite Hid. cbn. by rewrite H1.
  - unfold suspended_now. by rewrite Hp.
  - unfold suspended_now. cbn. by apply eo_pc_early.
Qed.

Lemma late_handlers_hd_ok es :
  es_ok es -> pc es = WLateHandlers -> hd_ok es -> hd_ok (late_resume_handlers es).
Proof.
  intros Hok Hp Hh.
  eapply (pass_hd_ok es _ CallResume (filter (fun id => has_resume <$> hinfo es !! id = Some true)
            (reverse (handlers es))) true); try done.
  - by right.
  - apply NoDup_filter. rewrite reverse_Permutation. apply Hh.
  - intros id [_ Hin]%list_elem_of_filter. by apply elem_of_reverse.
  - intros id h Hin Hid _ H2. apply list_elem_of_filter. rewrite elem_of_reverse.
    split; [|done]. rewrite Hid. cbn. by rewrite H2.
  - unfold suspended_now. by rewrite Hp.
  - unfold suspended_now. cbn. by apply eo_pc_late.
Qed.

Lemma request_hd_ok c es new es' :
  es_ok es -> request_suspend_state c es new = Some es' -> hd_ok es -> hd_ok es'.
Proof.
  intros [_ _ Hst _ _ _ _ _ _] Hs. unfold request_suspend_state in Hs.
  assert (flagged (Z.lor (state es) SUSPEND_REQUESTED) SUSPENDED = flagged (state es) SUSPENDED /\
    flagged (Z.ldiff (state es) SUSPEND_REQUESTED) SUSPENDED = flagged (state es) SUSPENDED)
    as [E1 E2] by (by destruct Hst as [E|[E|[E|E]]]; rewrite E).
  destruct (negb _ && _); [|destruct (_ && _)].
  - simplify_eq. apply hd_ok_frame; try done. unfold suspended_now. cbn. by rewrite E1.
  - destruct (api_lock _ _ _); [|done]. cbn in Hs. simplify_eq.
    apply hd_ok_frame; try done. unfold suspended_now. cbn. by rewrite E2.
  - simplify_eq. by apply hd_ok_frame.
Qed.

Lemma begin_hd_ok es :
  es_ok es -> pc es = WIdle -> hd_ok es ->
  hd_ok (early_suspend_begin es) /\ hd_ok (late_resume_begin es).
Proof.
  intros [_ _ Hst _ _ _ _ _ _] Hp Hh.
  split; (eapply hd_ok_frame; [..|exact Hh]);
    unfold early_suspend_begin, late_resume_begin, suspended_now;
    destruct Hst as [E|[E|[E|E]]]; rewrite E; cbn; rewrite ?E, ?Hp; done.
Qed.

Lemma finish_hd_ok c es es' :
  pc es = WEarlyFinish -> early_suspend_finish c es = Some es' -> hd_ok es -> hd_ok es'.
Proof.
  intros Hp Hs. unfold early_suspend_finish in Hs.
  apply hd_ok_frame; [..|unfold suspended_now; rewrite Hp]; destruct (_ =? _);
    try (destruct (api_unlock _ _ _); cbn in Hs; [|done]); by simplify_eq.
Qed.

Lemma es_step_hd_ok es es' : es_ok es -> hd_ok es -> es_step es es' -> hd_ok es'.
Proof.
  intros Hok Hh Hst.
  destruct Hst as [c es new es' Hs|es id h Hf Hn|es id Hf|es q Hp Hq|es Hp|c es es' Hp Hs
    |es q Hp Hq|es Hp|es w Hw Hr Hho Ha].
  - by eapply request_hd_ok.
  - by apply register_hd_ok.
  - by apply unregister_hd_ok.
  - by apply begin_hd_ok.
  - by apply early_handlers_hd_ok.
  - by eapply finish_hd_ok.
  - by apply begin_hd_ok.
  - by apply late_handlers_hd_ok.
  - by apply (hd_ok_frame es).
Qed.

Lemma es_init_hd_ok es : es_init es -> hd_ok es.
Proof.
  intros (_ & Eh & Ei & _ & _ & Ec & _). split; rewrite ?Eh, ?Ei, ?Ec; try done.
  - constructor.
  - set_solver.
  - constructor.
Qed.

Lemma es_reachable es0 es : es_init es0 -> rtc es_step es0 es -> es_ok es /\ hd_ok es.
Proof.
  intros Hi Hr. assert (es_ok es0 /\ hd_ok es0) as H by (split; [by apply es_init_ok|by apply es_init_hd_ok]).
  clear Hi. induction Hr as [|a b c Hst Hr IH]; [done|]. apply IH. destruct H.
  split; [by eapply es_step_ok|by eapply es_step_hd_ok].
Qed.
End callbacks.

(** ** Properties *)

Section properties.
Context {S C : Type} `{!WakeLockApi S C, !WakeLockLaws S C}.

(** C30: On every interleaving of requests, of the two work items and of
    handler registrations, the main wake lock is held without timeout unless
    the state is SUSPEND_REQUESTED_AND_SUSPENDED: the system can only go to
    sleep after user space asked for it, was not woken since, and the handlers
    were suspended. *)
Theorem main_lock_follows_request (es0 es : es_state S) :
  es_init es0 -> rtc es_step es0 es ->
  holds (wl es) main_wake_lock \/
  (state es = SUSPEND_REQUESTED_AND_SUSPENDED /\ api_active (wl es) main_wake_lock = false).
Proof. intros Hi Hr. by destruct (es_reachable es0 es Hi Hr) as [[] _]. Qed.

(** C39: Whenever requests stop, the suspend thread empties its queue of early
    suspend and late resume works within [work_left] steps (the suspend work of
    wakelock.c, which the same thread runs in between, is not counted), none of which fails, and then either nothing is
    requested, the state is 0 and the main lock is held, or sleep is requested,
    the state is SUSPEND_REQUESTED_AND_SUSPENDED and the main lock is released:
    no order of request and work loses a request. *)
Theorem suspend_thread_settles (c : C) (es0 es : es_state S) :
  es_init es0 -> rtc es_step es0 es ->
  exists k es', (k <= work_left es)%nat /\ worker_run k c es = Some es' /\
    pc es' = WIdle /\ queue es' = [] /\
    if flagged (state es) SUSPEND_REQUESTED
    then state es' = SUSPEND_REQUESTED_AND_SUSPENDED /\ api_active (wl es') main_wake_lock = false
    else state es' = 0 /\ holds (wl es') main_wake_lock.
Proof.
  intros Hi Hr. destruct (es_reachable es0 es Hi Hr) as [Hok _].
  destruct (worker_settles c (work_left es) es Hok) as (k & es' & Hk & Hs & Hok' & Hz & Hf); [done|].
  exists k, es'. destruct (at_rest es' Hok' Hz) as (Hp & Hq & Hfin). rewrite <- Hf.
  destruct Hfin as [[E Hh]|[E Ha]]; rewrite E; done.
Qed.

(** The handlers are kept in ascending level, and each handler with both
    callbacks sees its callbacks strictly alternate, suspend first; whenever
    the mutex is free every registered one has been suspended exactly when the
    state has SUSPENDED set. *)
Theorem handlers_alternate (es0 es : es_state S) (id : nat) (h : early_suspend_t) :
  es_init es0 -> rtc es_step es0 es -> hinfo es !! id = Some h ->
  has_suspend h = true -> has_resume h = true ->
  StronglySorted (by_level (hinfo es)) (handlers es) /\
  exists b, alternates id false (calls es) = Some b /\
    (id ∈ handlers es -> mutex_free es -> b = flagged (state es) SUSPENDED).
Proof.
  intros Hi Hr Hid H1 H2. destruct (es_reachable es0 es Hi Hr) as [_ [_ _ Hc _ Hs]].
  split; [done|]. destruct (Hc id h Hid H1 H2) as (b & Hb & Hb'). exists b. split; [done|].
  intros Hin Hf. rewrite (Hb' Hin). unfold suspended_now. by destruct Hf as [-> | ->].
Qed.
End properties.

(** ** Witnesses: a handler registered, then a sleep request carried out *)

Definition es_boot : es_state wl_state := EsState 0 [] ∅ PM_SUSPEND_MEM [] WIdle boot [].

Lemma es_boot_init : es_init es_boot.
Proof.
  repeat (split; [done|]). split; [apply boot_ok|]. split; vm_compute; reflexivity.
Qed.

Definition es_asleep : option (es_state wl_state) :=
  es ← request_suspend_state clk0
         (register_early_suspend es_boot 7 (EarlySuspendT 50 true true)) PM_SUSPEND_MEM;
  early_suspend_finish clk0 (early_suspend_handlers (early_suspend_begin es)).

Lemma es_asleep_reachable es : es_asleep = Some es -> rtc es_step es_boot es.
Proof.
  unfold es_asleep. set (es1 := register_early_suspend _ _ _).
  destruct (request_suspend_state clk0 es1 PM_SUSPEND_MEM) as [es2|] eqn:E2; [|done].
  cbn [mbind option_bind]. intros E5.
  eapply rtc_l; [apply (es_register _ 7 (EarlySuspendT 50 true true)); [by left|done]|].
  eapply rtc_l; [by eapply es_request|].
  vm_compute in E2. injection E2 as <-.
  eapply rtc_l; [by eapply es_early_begin|]. eapply rtc_l; [by eapply es_early_handlers|].
  eapply rtc_once. by eapply es_early_finish; [|exact E5].
Qed.

Lemma main_lock_follows_request_witness :
  exists es, es_asleep = Some es /\
    (holds (wl es) main_wake_lock \/
     state es = SUSPEND_REQUESTED_AND_SUSPENDED /\ api_active (wl es) main_wake_lock = false).
Proof.
  destruct es_asleep as [es|] eqn:E; [|vm_compute in E; discriminate].
  exists es. split; [done|].
  apply (main_lock_follows_request es_boot es es_boot_init (es_asleep_reachable es E)).
Defined.

Lemma suspend_thread_settles_witness :
  exists es es' k, request_suspend_state clk0 es_boot PM_SUSPEND_MEM = Some es /\
    worker_run k clk0 es = Some es' /\ state es' = SUSPEND_REQUESTED_AND_SUSPENDED.
Proof.
  destruct (request_suspend_state clk0 es_boot PM_SUSPEND_MEM) as [es|] eqn:E;
    [|vm_compute in E; discriminate].
  destruct (suspend_thread_settles clk0 es_boot es es_boot_init) as (k & es' & _ & Hr & _ & _ & Hf).
  { eapply rtc_once. by eapply es_request. }
  exists es, es', k. split; [done|]. split; [done|].
  vm_compute in E. injection E as <-. by destruct Hf.
Defined.

Lemma handlers_alternate_witness :
  exists es, es_asleep = Some es /\ alternates 7 false (calls es) = Some true.
Proof.
  destruct es_asleep as [es|] eqn:E; [|vm_compute in E; discriminate].
  exists es. split; [done|].
  destruct (handlers_alternate es_boot es 7 (EarlySuspendT 50 true true) es_boot_init
    (es_asleep_reachable es E)) as (_ & b & Hb & Hb');
    [vm_compute in E; injection E as <-; reflexivity|reflexivity|reflexivity|].
  rewrite Hb, Hb'; vm_compute in E; injection E as <-;
    [reflexivity|apply list_elem_of_here|by left].
Defined.
