(* ===== verification/LowMemoryKiller.v ===== *)
(** * Low memory killer (drivers/staging/android/lowmemorykiller.c)

    [lowmem_shrink] is one transition: it reads the page counters and the
    process list and may send one SIGKILL.  The integers are C's: [int] values
    are reduced with [s32], and the comparison of the [int] counters with the
    [size_t] thresholds is unsigned. *)

From stdpp Require Import base numbers list sets relations.
From S2P Require Import Prelude.

Open Scope Z_scope.

Definition OOM_ADJUST_MAX : Z := 15.
Definition HZ : Z := 100.

(** A process as [for_each_process] shows it: whether [p->mm] and [p->signal]
    are set, its oom_adj and its [get_mm_rss]. *)
Record task := Task { pid : Z; has_mm : bool; has_sig : bool; t_oom_adj : Z; rss : Z }.

Record counters := Counters {
  nr_free_pages : Z; nr_file_pages : Z; nr_shmem : Z;
  nr_active_anon : Z; nr_active_file : Z; nr_inactive_anon : Z; nr_inactive_file : Z }.

Record lmk := Lmk {
  lowmem_adj : list Z; lowmem_adj_size : Z;
  lowmem_minfree : list Z; lowmem_minfree_size : Z;
  lowmem_deathpending : option Z;
  lowmem_deathpending_timeout : Z;
  killed : list Z }.                     (* SIGKILLs sent so far, newest first *)

Definition lmk_init : lmk :=
  Lmk [0; 1; 6; 12; 0; 0] 4 [1536; 2048; 4096; 16384; 0; 0] 4 None 0 [].

(** [time_before_eq(a, b)]. *)
Definition time_before_eq (a b : Z) : bool := 0 <=? s32 (b - a).

Definition task_notify_func (st : lmk) (t : Z) : lmk :=
  if decide (lowmem_deathpending st = Some t)
  then Lmk (lowmem_adj st) (lowmem_adj_size st) (lowmem_minfree st) (lowmem_minfree_size st)
         None (lowmem_deathpending_timeout st) (killed st)
  else st.

(** The loop over the thresholds from index [i], [n] of them left. *)
Fixpoint find_min_adj (st : lmk) (other_free other_file : Z) (i : Z) (n : nat) : Z :=
  match n with
  | O => OOM_ADJUST_MAX + 1
  | S n' =>
      if (u32 other_free <? bget (lowmem_minfree st) i) &&
         (u32 other_file <? bget (lowmem_minfree st) i)
      then bget (lowmem_adj st) i
      else find_min_adj st other_free other_file (i + 1) n'
  end.

Definition array_size (st : lmk) : Z :=
  let n := 6 in
  let n := if lowmem_adj_size st <? n then lowmem_adj_size st else n in
  if lowmem_minfree_size st <? n then lowmem_minfree_size st else n.

(** [selected], [selected_tasksize] and [selected_oom_adj]. *)
Definition candidate : Type := option (Z * Z * Z).

Definition tasksize (p : task) : Z := s32 (rss p).

(** One turn of the loop over the processes. *)
Definition select_step (min_adj : Z) (sel : candidate) (p : task) : candidate :=
  if negb (has_mm p) || negb (has_sig p) then sel
  else if t_oom_adj p <? min_adj then sel
  else if tasksize p <=? 0 then sel
  else match sel with
       | Some (_, sz, adj) =>
           if t_oom_adj p <? adj then sel
           else if (t_oom_adj p =? adj) && (tasksize p <=? sz) then sel
           else Some (pid p, tasksize p, t_oom_adj p)
       | None => Some (pid p, tasksize p, t_oom_adj p)
       end.

Definition select_victim (min_adj : Z) (tasks : list task) : candidate :=
  foldl (select_step min_adj) None tasks.

Definition lru_pages (c : counters) : Z :=
  s32 (nr_active_anon c + nr_active_file c + nr_inactive_anon c + nr_inactive_file c).

Definition min_adj_of (st : lmk) (c : counters) : Z :=
  let other_free := s32 (nr_free_pages c) in
  let other_file := s32 (nr_file_pages c - nr_shmem c) in
  find_min_adj st other_free other_file 0 (Z.to_nat (array_size st)).

Definition lowmem_shrink (jiffies : Z) (c : counters) (tasks : list task)
    (st : lmk) (nr_to_scan : Z) : lmk * Z :=
  if bool_decide (is_Some (lowmem_deathpending st)) &&
     time_before_eq jiffies (lowmem_deathpending_timeout st)
  then (st, 0)
  else
    let min_adj := min_adj_of st c in
    let rem := lru_pages c in
    if (nr_to_scan <=? 0) || (min_adj =? OOM_ADJUST_MAX + 1) then (st, rem)
    else
      match select_victim min_adj tasks with
      | Some (p, sz, _) =>
          (Lmk (lowmem_adj st) (lowmem_adj_size st) (lowmem_minfree st)
             (lowmem_minfree_size st) (Some p) (u32 (jiffies + HZ)) (p :: killed st),
           s32 (rem - sz))
      | None => (st, rem)
      end.

(** ** Which process is selected *)

Definition eligible (min_adj : Z) (p : task) : Prop :=
  has_mm p = true /\ has_sig p = true /\ min_adj <= t_oom_adj p /\ 0 < tasksize p.

(** Lexicographic: a higher oom_adj first, then a larger resident size. *)
Definition not_better (q p : task) : Prop :=
  t_oom_adj q < t_oom_adj p \/ (t_oom_adj q = t_oom_adj p /\ tasksize q <= tasksize p).

Definition victim (min_adj : Z) (tasks : list task) (sel : candidate) : Prop :=
  match sel with
  | None => forall q, q ∈ tasks -> ~ eligible min_adj q
  | Some (i, sz, adj) => exists p, p ∈ tasks /\ eligible min_adj p /\
      i = pid p /\ sz = tasksize p /\ adj = t_oom_adj p /\
      forall q, q ∈ tasks -> eligible min_adj q -> not_better q p
  end.

Lemma select_step_spec m seen sel p :
  victim m seen sel -> victim m (seen ++ [p]) (select_step m sel p).
Proof.
  intros Hv. unfold select_step.
  assert (~ eligible m p -> victim m (seen ++ [p]) sel) as Hskip.
  { intros Hn. destruct sel as [[[i sz] adj]|]; cbn in *.
    - destruct Hv as (w & Hw & He & ? & ? & ? & Hall). exists w. split_and!; try done; [set_solver|].
      intros q [Hq|Hq%list_elem_of_singleton]%elem_of_app Heq; [auto|]. by subst.
    - intros q [Hq|Hq%list_elem_of_singleton]%elem_of_app; [auto|]. by subst. }
  destruct (has_mm p) eqn:E1; cbn; [|apply Hskip; unfold eligible; by rewrite E1; intros []].
  destruct (has_sig p) eqn:E2; cbn; [|apply Hskip; unfold eligible; rewrite E2; by intros (_ & ? & _)].
  case_if; [apply Hskip; unfold eligible; intros (_ & _ & ? & _); lia|].
  case_if; [apply Hskip; unfold eligible; intros (_ & _ & _ & ?); lia|].
  assert (eligible m p) as Hp by (unfold eligible; split_and!; done || lia).
  destruct sel as [[[i sz] adj]|]; cbn in Hv.
  - destruct Hv as (w & Hw & He & -> & -> & -> & Hall).
    destruct (Z.ltb_spec (t_oom_adj p) (t_oom_adj w)) as [Hlt|Hge];
      [|destruct (Z.eqb_spec (t_oom_adj p) (t_oom_adj w)) as [Heq|Hne];
        [destruct (Z.leb_spec (tasksize p) (tasksize w)) as [Hle|Hgt]|]]; cbn.
    1,2: exists w; split_and!; try done; [set_solver|];
      intros q [Hq|Hq%list_elem_of_singleton]%elem_of_app Hqe; [auto|]; subst;
      unfold not_better; lia.
    all: exists p; split_and!; try done; [set_solver|];
      intros q [Hq|Hq%list_elem_of_singleton]%elem_of_app Hqe;
      [destruct (Hall q Hq Hqe); unfold not_better; lia|subst; unfold not_better; lia].
  - cbn. exists p. split_and!; try done; [set_solver|].
    intros q [Hq|Hq%list_elem_of_singleton]%elem_of_app Hqe; [by destruct (Hv q Hq)|].
    subst. unfold not_better. lia.
Qed.

Lemma select_fold m : forall l seen sel,
  victim m seen sel -> victim m (seen ++ l) (foldl (select_step m) sel l).
Proof.
  induction l as [|p l IH]; intros seen sel Hv; cbn; [by rewrite app_nil_r|].
  rewrite cons_middle, app_assoc. apply IH. by apply select_step_spec.
Qed.

Lemma select_victim_spec m tasks : victim m tasks (select_victim m tasks).
Proof. apply (select_fold m tasks [] None). intros q Hq. set_solver. Qed.

(** ** Thresholds *)

Definition below (st : lmk) (c : counters) (i : Z) : Prop :=
  u32 (s32 (nr_free_pages c)) < bget (lowmem_minfree st) i /\
  u32 (s32 (nr_file_pages c - nr_shmem c)) < bget (lowmem_minfree st) i.

Lemma find_min_adj_spec st c n : forall i,
  let r := find_min_adj st (s32 (nr_free_pages c)) (s32 (nr_file_pages c - nr_shmem c)) i n in
  (r = OOM_ADJUST_MAX + 1 /\ forall k, i <= k < i + Z.of_nat n -> ~ below st c k) \/
  (exists k, i <= k < i + Z.of_nat n /\ below st c k /\ r = bget (lowmem_adj st) k /\
     forall k', i <= k' < k -> ~ below st c k').
Proof.
  induction n as [|n IH]; intros i; cbn [find_min_adj].
  { left. split; [done|]. intros k Hk. lia. }
  destruct (_ && _) eqn:E.
  - right. apply andb_true_iff in E as [E1%Z.ltb_lt E2%Z.ltb_lt]. exists i.
    split; [lia|]. split; [by split|]. split; [done|]. intros k' Hk'. lia.
  - assert (~ below st c i) as Hi.
    { intros [H1%Z.ltb_lt H2%Z.ltb_lt]. by rewrite H1, H2 in E. }
    destruct (IH (i + 1)) as [[Hr Hn]|(k & Hk & Hb & Hr & Hn)].
    + left. split; [done|]. intros k Hk. destruct (decide (k = i)) as [->|]; [done|]. apply Hn. lia.
    + right. exists k. split; [lia|]. split; [done|]. split; [done|]. intros k' Hk'.
      destruct (decide (k' = i)) as [->|]; [done|]. apply Hn. lia.
Qed.

(** ** Properties *)

Definition death_pending (jiffies : Z) (st : lmk) : Prop :=
  is_Some (lowmem_deathpending st) /\ 0 <= s32 (lowmem_deathpending_timeout st - jiffies).

Lemma pending_spec jiffies st :
  bool_decide (is_Some (lowmem_deathpending st)) &&
    time_before_eq jiffies (lowmem_deathpending_timeout st) = true <-> death_pending jiffies st.
Proof.
  unfold death_pending, time_before_eq. by rewrite andb_true_iff, bool_decide_eq_true, Z.leb_le.
Qed.

(** C40: A reclaim pass kills at most one process.  It kills none, and leaves
    the state alone, while an earlier victim is still dying, when only a count
    is asked for, when memory is above every threshold, or when no process is
    eligible.  Otherwise it kills an eligible process that no eligible process
    beats in oom_adj, or at equal oom_adj in resident size, remembers it for one
    second, and deducts its size from the reclaimable pages it reports. *)
Theorem lowmem_shrink_selects jiffies c tasks st nr st' rem :
  lowmem_shrink jiffies c tasks st nr = (st', rem) ->
  (death_pending jiffies st /\ st' = st /\ rem = 0) \/
  (~ death_pending jiffies st /\ st' = st /\ rem = lru_pages c /\
   (nr <= 0 \/ min_adj_of st c = OOM_ADJUST_MAX + 1 \/
    forall q, q ∈ tasks -> ~ eligible (min_adj_of st c) q)) \/
  (~ death_pending jiffies st /\ 0 < nr /\ min_adj_of st c <> OOM_ADJUST_MAX + 1 /\
   exists p, p ∈ tasks /\ eligible (min_adj_of st c) p /\
     (forall q, q ∈ tasks -> eligible (min_adj_of st c) q -> not_better q p) /\
     killed st' = pid p :: killed st /\ lowmem_deathpending st' = Some (pid p) /\
     lowmem_deathpending_timeout st' = u32 (jiffies + HZ) /\
     rem = s32 (lru_pages c - tasksize p)).
Proof.
  unfold lowmem_shrink. destruct (_ && time_before_eq _ _) eqn:E.
  { apply pending_spec in E. intros [= <- <-]. by left. }
  assert (~ death_pending jiffies st) as Hn by (rewrite <- pending_spec; by rewrite E).
  destruct (Z.leb_spec nr 0) as [Hnr|Hnr]; cbn [orb];
    [intros [= <- <-]; right; left; split_and!; auto|].
  destruct (Z.eqb_spec (min_adj_of st c) (OOM_ADJUST_MAX + 1)) as [Hm|Hm];
    [intros [= <- <-]; right; left; split_and!; auto|].
  pose proof (select_victim_spec (min_adj_of st c) tasks) as Hv.
  destruct (select_victim _ _) as [[[i sz] adj]|]; cbn in Hv;
    [|intros [= <- <-]; right; left; split_and!; auto].
  destruct Hv as (p & Hp & He & -> & -> & -> & Hall). intros [= <- <-].
  right. right. split_and!; try done. exists p. done.
Qed.

Definition ex_counters : counters := Counters 1000 1200 0 5000 5000 5000 5000.
Definition ex_tasks : list task :=
  [Task 1 true true (-16) 900; Task 20 true true 12 300; Task 21 true true 12 700;
   Task 22 false true 15 0; Task 23 true true 7 4000].

Lemma lowmem_shrink_selects_witness :
  exists st', lowmem_shrink 500 ex_counters ex_tasks lmk_init 128 = (st', 19300) /\
    killed st' = [21].
Proof.
  destruct (lowmem_shrink 500 ex_counters ex_tasks lmk_init 128) as [st' rem] eqn:E.
  pose proof (lowmem_shrink_selects 500 ex_counters ex_tasks lmk_init 128 st' rem E) as H.
  vm_compute in E. injection E as <- <-.
  destruct H as [(H & _)|[(_ & H & _)|(_ & _ & _ & p & _ & _ & _ & Hk & _)]].
  - by destruct H as [[? ?] _].
  - discriminate H.
  - eexists. split; [reflexivity|]. reflexivity.
Defined.

(** The oom_adj bar is that of the first configured threshold for which
    both the free pages and the page cache pages are below, and there is no bar
    when there is no such threshold. *)
Theorem min_adj_first_threshold st c :
  0 <= array_size st ->
  (min_adj_of st c = OOM_ADJUST_MAX + 1 /\ forall k, 0 <= k < array_size st -> ~ below st c k) \/
  (exists k, 0 <= k < array_size st /\ below st c k /\ min_adj_of st c = bget (lowmem_adj st) k /\
     forall k', 0 <= k' < k -> ~ below st c k').
Proof.
  intros Hs. pose proof (find_min_adj_spec st c (Z.to_nat (array_size st)) 0) as H.
  cbn zeta in H. rewrite Z.add_0_l, Z2Nat.id in H by done. exact H.
Qed.

Lemma min_adj_first_threshold_witness :
  min_adj_of lmk_init ex_counters = 0 /\ below lmk_init ex_counters 0.
Proof.
  destruct (min_adj_first_threshold lmk_init ex_counters) as [[H _]|(k & Hk & Hb & Hr & Hn)];
    [vm_compute; discriminate|vm_compute in H; discriminate|].
  split; [reflexivity|]. split; reflexivity.
Defined.

Lemma lowmem_shrink_cases jiffies c tasks st nr st' rem :
  lowmem_shrink jiffies c tasks st nr = (st', rem) ->
  st' = st \/ exists q, killed st' = q :: killed st /\ lowmem_deathpending st' = Some q /\
    lowmem_deathpending_timeout st' = u32 (jiffies + HZ).
Proof.
  unfold lowmem_shrink. destruct (_ && _); [intros [= <- _]; by left|].
  destruct (_ || _); [intros [= <- _]; by left|].
  destruct (select_victim _ _) as [[[q sz] adj]|]; intros [= <- _]; [|by left].
  right. by exists q.
Qed.

(** What happens while the victim [p] killed at [j0] is dying: reclaim passes
    within the second, and the end of other tasks. *)
Inductive dying_step (j0 p : Z) : lmk -> lmk -> Prop :=
  | dying_shrink d c tasks nr st st' rem : 0 <= d <= HZ ->
      lowmem_shrink (u32 (j0 + d)) c tasks st nr = (st', rem) -> dying_step j0 p st st'
  | dying_other t st : t <> p -> dying_step j0 p st (task_notify_func st t).

Lemma dying_pending j0 p d st :
  lowmem_deathpending st = Some p -> lowmem_deathpending_timeout st = u32 (j0 + HZ) ->
  0 <= d <= HZ -> death_pending (u32 (j0 + d)) st.
Proof.
  intros Hp Ht Hd. split; [by rewrite Hp|]. rewrite Ht. unfold u32, HZ in *.
  pose proof (Z.div_mod (j0 + 100) (2 ^ 32) ltac:(lia)).
  pose proof (Z.div_mod (j0 + d) (2 ^ 32) ltac:(lia)).
  replace ((j0 + 100) mod 2 ^ 32 - (j0 + d) mod 2 ^ 32) with
    (100 - d + ((j0 + d) / 2 ^ 32 - (j0 + 100) / 2 ^ 32) * 2 ^ 32) by lia.
  unfold s32. rewrite <- Z.add_assoc, (Z.add_comm (_ * _)), Z.add_assoc, Z.mod_add by lia.
  rewrite Z.mod_small by lia. lia.
Qed.

(** One victim at a time: from the pass that kills [p], as long as [p] has
    not been freed, no pass within the next second kills another process,
    whatever happens to other tasks in between. *)
Theorem one_victim_at_a_time jiffies c tasks st nr st1 rem p st2 :
  lowmem_shrink jiffies c tasks st nr = (st1, rem) -> killed st1 = p :: killed st ->
  rtc (dying_step jiffies p) st1 st2 -> killed st2 = p :: killed st.
Proof.
  intros Hs Hk Hr.
  assert (lowmem_deathpending st1 = Some p /\ lowmem_deathpending_timeout st1 = u32 (jiffies + HZ))
    as [Hp Ht].
  { apply lowmem_shrink_cases in Hs as [->|(q & Hq & Hd & Hti)]; 
      [|assert (q = p) by congruence; by subst].
    apply (f_equal length) in Hk. cbn in Hk. lia. }
  clear Hs. revert Hk Hp Ht. induction Hr as [|a b e Hst Hr IH]; [done|]. intros Hk Hp Ht.
  destruct Hst as [d c' tasks' nr' a b rem' Hd Hs|t a Hne].
  - pose proof (dying_pending jiffies p d a Hp Ht Hd) as Hpe%pending_spec.
    unfold lowmem_shrink in Hs. rewrite Hpe in Hs. simplify_eq. auto.
  - unfold task_notify_func in IH. rewrite decide_False in IH by congruence. auto.
Qed.

Lemma one_victim_at_a_time_witness :
  exists st1 st2 rem, lowmem_shrink 500 ex_counters ex_tasks lmk_init 128 = (st1, rem) /\
    (lowmem_shrink 560 ex_counters ex_tasks (task_notify_func st1 20) 128).1 = st2 /\
    killed st2 = [21].
Proof.
  eexists. eexists. eexists. split; [vm_compute; reflexivity|]. split; [vm_compute; reflexivity|].
  eapply (one_victim_at_a_time 500 ex_counters ex_tasks lmk_init 128 _ _ 21);
    [vm_compute; reflexivity|reflexivity|].
  eapply rtc_l; [apply (dying_other _ _ 20); lia|].
  eapply rtc_once. eapply (dying_shrink _ _ 60 ex_counters ex_tasks 128);
    [unfold HZ; lia|vm_compute; reflexivity].
Defined.
