(* ===== verification/RbTree.v ===== *)
(** * Red-black trees (lib/rbtree.c, include/linux/rbtree.h)

    A node with its parent pointer is a focus: the subtree rooted at the node
    and the path to the root, one [frame] per ancestor with the ancestor's
    colour, entry and other child.  Following [rb_parent] takes the next frame;
    storing into a child pointer rebuilds the subtree below it.  A dereference
    of a null pointer is [None]. *)

From stdpp Require Import base numbers list.
From S2P Require Import Prelude.

Inductive color := Red | Black.

Inductive tree (A : Type) :=
  | E
  | T (c : color) (l : tree A) (x : A) (r : tree A).
Arguments E {A}.
Arguments T {A} c l x r.

(** [FL c x r]: the focus is the left child of a node coloured [c] holding [x]
    whose right child is [r]; [FR c l x]: it is the right child. *)
Inductive frame (A : Type) :=
  | FL (c : color) (x : A) (r : tree A)
  | FR (c : color) (l : tree A) (x : A).
Arguments FL {A} c x r.
Arguments FR {A} c l x.

Section ops.
Context {A : Type}.
Implicit Types (t l r : tree A) (f : frame A) (k : list (frame A)).

Definition fill f t : tree A :=
  match f with FL c x r => T c t x r | FR c l x => T c l x t end.

Fixpoint plug t k : tree A :=
  match k with [] => t | f :: k' => plug (fill f t) k' end.

Definition frame_color f : color := match f with FL c _ _ => c | FR c _ _ => c end.

(** [node && rb_is_red(node)]. *)
Definition is_red t : bool := match t with T Red _ _ _ => true | _ => false end.

Definition set_color (c : color) t : tree A :=
  match t with E => E | T _ l x r => T c l x r end.
Definition set_black : tree A -> tree A := set_color Black.
Definition set_red : tree A -> tree A := set_color Red.
Definition rb_color t : color := match t with T c _ _ _ => c | E => Black end.

Definition rotate_left t : option (tree A) :=
  match t with
  | T c l x (T rc rl rx rr) => Some (T rc (T c l x rl) rx rr)
  | _ => None
  end.

Definition rotate_right t : option (tree A) :=
  match t with
  | T c (T lc ll lx lr) x r => Some (T lc ll lx (T c lr x r))
  | _ => None
  end.

(** The new node, red and without children, at an empty place of the tree. *)
Definition rb_link_node (x : A) : tree A := T Red E x E.

(** The loop of [rb_insert_color] at the focus [(t, k)].  After a rotation the
    parent is black, so the loop ends. *)
Fixpoint rb_insert_color t k : option (tree A) :=
  match k with
  | p :: k1 =>
      match frame_color p with
      | Black => Some (set_black (plug t k))
      | Red =>
          let parent := fill p t in
          match k1 with
          | [] => None                       (* gparent is NULL *)
          | FL _ gx uncle :: k2 =>
              if is_red uncle then
                rb_insert_color (T Red (set_black parent) gx (set_black uncle)) k2
              else
                parent' ← match p with FR _ _ _ => rotate_left parent
                                     | FL _ _ _ => Some parent end;
                g ← rotate_right (T Red (set_black parent') gx uncle);
                Some (set_black (plug g k2))
          | FR _ uncle gx :: k2 =>
              if is_red uncle then
                rb_insert_color (T Red (set_black uncle) gx (set_black parent)) k2
              else
                parent' ← match p with FL _ _ _ => rotate_right parent
                                     | FR _ _ _ => Some parent end;
                g ← rotate_left (T Red uncle gx (set_black parent'));
                Some (set_black (plug g k2))
          end
      end
  | [] => Some (set_black t)
  end.

(** The children of [other] are both black or absent. *)
Definition black_children t : bool :=
  match t with T _ l _ r => negb (is_red l) && negb (is_red r) | E => false end.

(** [other] when its far child is black: its near child moves up. *)
Definition far_left t : option (tree A) :=
  match t with
  | T c l x r => if is_red r then Some t else rotate_right (T Red (set_black l) x r)
  | E => None
  end.
Definition far_right t : option (tree A) :=
  match t with
  | T c l x r => if is_red l then Some t else rotate_left (T Red l x (set_black r))
  | E => None
  end.

Definition blacken_right t : tree A := match t with T c l x r => T c l x (set_black r) | E => E end.
Definition blacken_left t : tree A := match t with T c l x r => T c (set_black l) x r | E => E end.

(** A red sibling [other]: it becomes black, the parent red, and the parent is
    rotated towards the node; the result is the parent's colour, the new sibling
    and the path above the parent. *)
Definition sibling_right (c : color) (other : tree A) k : color * tree A * list (frame A) :=
  match other with
  | T Red ol ox or => (Red, ol, FL Black ox or :: k)
  | _ => (c, other, k)
  end.
Definition sibling_left (c : color) (other : tree A) k : color * tree A * list (frame A) :=
  match other with
  | T Red ol ox or => (Red, or, FR Black ol ox :: k)
  | _ => (c, other, k)
  end.

(** The loop of [__rb_erase_color] with [node] the root of [t]. *)
Fixpoint rb_erase_color (fuel : nat) t k : option (tree A) :=
  match fuel with
  | O => None
  | S fuel' =>
      if is_red t then Some (plug (set_black t) k)
      else match k with
      | [] => Some (set_black t)
      | FL c0 x other0 :: k0 =>
          let '(c, other, k') := sibling_right c0 other0 k0 in
          match other with
          | E => None
          | _ =>
              if black_children other then rb_erase_color fuel' (T c t x (set_red other)) k'
              else
                other' ← far_left other;
                p ← rotate_left (T Black t x (blacken_right (set_color c other')));
                Some (set_black (plug p k'))
          end
      | FR c0 other0 x :: k0 =>
          let '(c, other, k') := sibling_left c0 other0 k0 in
          match other with
          | E => None
          | _ =>
              if black_children other then rb_erase_color fuel' (T c (set_red other) x t) k'
              else
                other' ← far_right other;
                p ← rotate_right (T Black (blacken_left (set_color c other')) x t);
                Some (set_black (plug p k'))
          end
      end
  end.

(** The walk to the leftmost node of [T c l x r]: its colour, entry, right
    child and the path above it. *)
Fixpoint leftmost (c : color) l (x : A) r k : color * A * tree A * list (frame A) :=
  match l with
  | E => (c, x, r, k)
  | T c' l' x' r' => leftmost c' l' x' r' (FL c x r :: k)
  end.

(** Enough for every focus of the tree: a turn goes up one level, or, after a
    rotation that lengthened the path, makes a red node the focus, which ends the
    loop. *)
Definition erase_fuel k : nat := 2 + length k.

(** [rb_erase] of the node at the focus. *)
Definition rb_erase t k : option (tree A) :=
  match t with
  | E => None
  | T c l x r =>
      let '(color, child, k') :=
        match l, r with
        | E, _ => (c, r, k)
        | _, E => (c, l, k)
        | _, T rc rl rx rr =>
            let '(color, y, child, path) := leftmost rc rl rx rr [] in
            (color, child, path ++ FR c l y :: k)
        end in
      match color with
      | Black => rb_erase_color (erase_fuel k') child k'
      | Red => Some (plug child k')
      end
  end.

(** ** Traversal *)

Definition focus : Type := tree A * list (frame A).

Fixpoint go_left t k : focus :=
  match t with
  | T c (T _ _ _ _ as l) x r => go_left l (FL c x r :: k)
  | _ => (t, k)
  end.
Fixpoint go_right t k : focus :=
  match t with
  | T c l x (T _ _ _ _ as r) => go_right r (FR c l x :: k)
  | _ => (t, k)
  end.

Definition rb_first t : option focus := match t with E => None | _ => Some (go_left t []) end.
Definition rb_last t : option focus := match t with E => None | _ => Some (go_right t []) end.

(** Up while the node is a right (left) child. *)
Fixpoint up_right t k : option focus :=
  match k with
  | [] => None
  | FR c l x :: k' => up_right (T c l x t) k'
  | FL c x r :: k' => Some (T c t x r, k')
  end.
Fixpoint up_left t k : option focus :=
  match k with
  | [] => None
  | FL c x r :: k' => up_left (T c t x r) k'
  | FR c l x :: k' => Some (T c l x t, k')
  end.

Definition rb_next (z : focus) : option focus :=
  match z with
  | (T c l x (T _ _ _ _ as r), k) => Some (go_left r (FR c l x :: k))
  | (t, k) => up_right t k
  end.
Definition rb_prev (z : focus) : option focus :=
  match z with
  | (T c (T _ _ _ _ as l) x r, k) => Some (go_right l (FL c x r :: k))
  | (t, k) => up_left t k
  end.

(** The replacement takes over colour, children and parent. *)
Definition rb_replace_node (z : focus) (y : A) : tree A :=
  match z with
  | (T c l x r, k) => plug (T c l y r) k
  | (E, k) => plug E k
  end.

(** The loop [for (n = rb_first(root); n; n = rb_next(n))]. *)
Definition entry (z : focus) : option A := match z.1 with T _ _ x _ => Some x | E => None end.

Fixpoint walk (fuel : nat) (z : option focus) : list A :=
  match fuel, z with
  | S fuel', Some z' => option_list (entry z') ++ walk fuel' (rb_next z')
  | _, _ => []
  end.
End ops.

(** ** Search

    The descent every user of the tree writes out: left where the comparison of
    the key with the node's entry is negative, right where it is positive.  It
    ends at the node found, or at the empty place where the key belongs. *)
Fixpoint rb_search {A} (cmp : A -> comparison) (t : tree A) (k : list (frame A))
    : tree A * list (frame A) :=
  match t with
  | E => (E, k)
  | T c l x r =>
      match cmp x with
      | Lt => rb_search cmp l (FL c x r :: k)
      | Gt => rb_search cmp r (FR c l x :: k)
      | Eq => (t, k)
      end
  end.

(** ** Contents *)

Section contents.
Context {A : Type}.
Implicit Types (t l r : tree A) (f : frame A) (k : list (frame A)).

Fixpoint inorder t : list A :=
  match t with E => [] | T _ l x r => inorder l ++ x :: inorder r end.

(** What a path contributes before and after the focus. *)
Fixpoint before k : list A :=
  match k with
  | [] => []
  | FL _ _ _ :: k' => before k'
  | FR _ l x :: k' => before k' ++ inorder l ++ [x]
  end.
Fixpoint after k : list A :=
  match k with
  | [] => []
  | FL _ x r :: k' => x :: inorder r ++ after k'
  | FR _ _ _ :: k' => after k'
  end.

Lemma inorder_plug k : forall t, inorder (plug t k) = before k ++ inorder t ++ after k.
Proof.
  induction k as [|[c x r|c l x] k IH]; intros t; cbn; [by rewrite app_nil_r|..].
  - rewrite IH. cbn. by rewrite <- app_assoc.
  - rewrite IH. cbn. by rewrite <- !app_assoc.
Qed.

Lemma inorder_set_color c t : inorder (set_color c t) = inorder t.
Proof. by destruct t. Qed.

Lemma inorder_rotate_left t t' : rotate_left t = Some t' -> inorder t' = inorder t.
Proof.
  destruct t as [|c l x [|rc rl rx rr]]; intros [= <-]. cbn. by rewrite <- app_assoc.
Qed.

Lemma inorder_rotate_right t t' : rotate_right t = Some t' -> inorder t' = inorder t.
Proof.
  destruct t as [|c [|lc ll lx lr] x r]; intros [= <-]. cbn. by rewrite <- app_assoc.
Qed.

Lemma inorder_fill f t : inorder (fill f t) = before [f] ++ inorder t ++ after [f].
Proof. destruct f; cbn; by rewrite ?app_nil_r, <- ?app_assoc. Qed.
End contents.
