(* ===== verification/RbTreeProps.v ===== *)
(** * Red-black trees: balance, contents and traversal

    [rbt c n t] is the red-black invariant (root colour [c], [n] black nodes on
    every path), [ctxt c n k] that of a path into whose hole a tree of that kind
    fits.  Insertion and erasure never dereference a null pointer, keep the
    invariant and change the in-order sequence only at the focus; the traversal
    functions follow that sequence. *)

From stdpp Require Import base numbers list.
From S2P Require Import Prelude RbTree.

Inductive rbt {A} : color -> nat -> tree A -> Prop :=
  | rbt_E : rbt Black 0 E
  | rbt_R n l x r : rbt Black n l -> rbt Black n r -> rbt Red n (T Red l x r)
  | rbt_B n c1 c2 l x r : rbt c1 n l -> rbt c2 n r -> rbt Black (S n) (T Black l x r).

(** A path whose hole takes a tree with a root of colour [c]: below a black
    node both colours fit, below a red one and at the root only black. *)
Inductive ctxt {A} : color -> nat -> list (frame A) -> Prop :=
  | ctxt_nil n : ctxt Black n []
  | ctxt_BL c n x c' r k : rbt c' n r -> ctxt Black (S n) k -> ctxt c n (FL Black x r :: k)
  | ctxt_BR c n x c' l k : rbt c' n l -> ctxt Black (S n) k -> ctxt c n (FR Black l x :: k)
  | ctxt_RL n x r k : rbt Black n r -> ctxt Red n k -> ctxt Black n (FL Red x r :: k)
  | ctxt_RR n x l k : rbt Black n l -> ctxt Red n k -> ctxt Black n (FR Red l x :: k).

Create HintDb rbt.
#[export] Hint Constructors rbt ctxt : rbt.

Section balance.
Context {A : Type}.
Implicit Types (t l r : tree A) (f : frame A) (k : list (frame A)).

Lemma ctxt_weaken n k : ctxt Red n k -> ctxt Black n k.
Proof. inversion 1; subst; eauto with rbt. Qed.

Lemma plug_rbt k : forall c n t, rbt c n t -> ctxt c n k -> exists m, rbt Black m (plug t k).
Proof.
  induction k as [|f k IH]; intros c n t Ht Hk.
  - inversion Hk; subst. by exists n.
  - inversion Hk; subst; cbn; eapply IH; eauto with rbt.
Qed.

Lemma set_black_id n t : rbt Black n t -> set_black t = t.
Proof. by inversion 1. Qed.

Lemma rbt_not_red n t : rbt Black n t -> is_red t = false.
Proof. by inversion 1. Qed.

Lemma rbt_red_or_black c n t :
  rbt c n t -> (is_red t = true /\ c = Red) \/ (is_red t = false /\ rbt Black n t).
Proof. intros H. inversion H; subst; auto with rbt. Qed.

Lemma rbt_blacken c n t : rbt c n t -> exists m, rbt Black m (set_black t).
Proof. inversion 1; subst; eexists; eauto with rbt. Qed.

(** The red tree [t] may go where only a black one fits: recolour or rotate. *)
Definition fixed (o : option (tree A)) (s : list A) : Prop :=
  exists t' m, o = Some t' /\ rbt Black m t' /\ inorder t' = s.

Lemma fixed_plug c n t k s :
  rbt c n t -> ctxt c n k -> before k ++ inorder t ++ after k = s ->
  fixed (Some (set_black (plug t k))) s.
Proof.
  intros Ht Hk Hs. destruct (plug_rbt k c n t Ht Hk) as [m Hm].
  exists (set_black (plug t k)), m. split; [done|]. rewrite (set_black_id m) by done.
  split; [done|]. by rewrite inorder_plug.
Qed.

Lemma fixed_eq o s s' : fixed o s -> s = s' -> fixed o s'.
Proof. by intros H <-. Qed.

Ltac assoc := repeat (progress (cbn; rewrite ?app_nil_r, <- ?app_assoc)); done.

Lemma insert_color_spec m : forall k n t,
  (length k <= m)%nat -> rbt Red n t -> ctxt Black n k ->
  fixed (rb_insert_color t k) (before k ++ inorder t ++ after k).
Proof.
  induction m as [m IH] using lt_wf_ind. intros k n t Hm Ht Hk.
  inversion Ht as [|? l x r Hl Hr|]; subst.
  inversion Hk as [|c ? px c' pr k1 Hpr Hk1|c ? px c' pl k1 Hpl Hk1|? px pr k1 Hpr Hk1|? px pl k1 Hpl Hk1];
    subst; cbn.
  1: { exists (T Black l x r), (S n). split; [done|]. split; [eauto with rbt|assoc]. }
  1: { eapply fixed_plug; [eapply rbt_B; [exact Ht|exact Hpr]|exact Hk1|assoc]. }
  1: { eapply fixed_plug; [eapply rbt_B; [exact Hpl|exact Ht]|exact Hk1|assoc]. }
  all: inversion Hk1 as [|c ? gx c' u k2 Hu Hk2|c ? gx c' u k2 Hu Hk2| |]; subst;
    cbn in Hm |- *; (destruct (rbt_red_or_black _ _ _ Hu) as [[Hred ->]|[-> Hb]];
    [ rewrite Hred; inversion Hu; subst; cbn;
      eapply fixed_eq; [eapply (IH (length k2)); [lia|done| |exact Hk2]|assoc]
    | eapply fixed_plug; [|exact Hk2|assoc] ]).
  all: eauto 6 with rbt.
Qed.

(** ** Erasure *)

Lemma fixed_plug_plain c n t k s :
  rbt c n t -> ctxt c n k -> before k ++ inorder t ++ after k = s -> fixed (Some (plug t k)) s.
Proof.
  intros Ht Hk Hs. destruct (plug_rbt k c n t Ht Hk) as [m Hm].
  exists (plug t k), m. split; [done|]. split; [done|]. by rewrite inorder_plug.
Qed.

(** The turn of the loop once the sibling is black: the path above the parent
    takes what the parent's subtree was before the node became one short. *)
Definition above (c : color) (n : nat) : nat := match c with Black => S (S n) | Red => S n end.

Lemma rec_red fuel t k n s :
  rbt Black (S n) (set_black t) -> is_red t = true -> ctxt Red (S n) k ->
  before k ++ inorder t ++ after k = s -> fixed (rb_erase_color (S fuel) t k) s.
Proof.
  intros Ht Hr Hk Hs. cbn. rewrite Hr.
  eapply fixed_plug_plain; [exact Ht|by apply ctxt_weaken|].
  by destruct t.
Qed.

Lemma erase_turn_left fuel c n t x other k s :
  rbt Black n t -> rbt Black (S n) other -> ctxt c (above c n) k ->
  before k ++ inorder (T c t x other) ++ after k = s ->
  (c = Black -> rbt Black (S n) (T c t x (set_red other)) ->
     fixed (rb_erase_color (S fuel) (T c t x (set_red other)) k) s) ->
  fixed (match other with
         | E => None
         | _ =>
             if black_children other then rb_erase_color (S fuel) (T c t x (set_red other)) k
             else
               other' ← far_left other;
               p ← rotate_left (T Black t x (blacken_right (set_color c other')));
               Some (set_black (plug p k))
         end) s.
Proof.
  intros Ht Ho Hk Hs IH. inversion Ho as [| |? c1 c2 ol ox or Hol Hor]; subst.
  destruct (rbt_red_or_black _ _ _ Hol) as [[Hl ->]|[Hl Hbl]];
  destruct (rbt_red_or_black _ _ _ Hor) as [[Hr ->]|[Hr Hbr]];
    cbn [black_children]; rewrite Hl, Hr; cbn [negb andb far_left]; rewrite ?Hr.
  - inversion Hor; subst. cbn. eapply fixed_plug; [|exact Hk|assoc]. destruct c; eauto with rbt.
  - inversion Hol; subst. cbn. eapply fixed_plug; [|exact Hk|assoc]. destruct c; eauto 6 with rbt.
  - inversion Hor; subst. cbn. eapply fixed_plug; [|exact Hk|assoc]. destruct c; eauto with rbt.
  - destruct c.
    + eapply rec_red; [..|exact Hk|assoc]; cbn; [eauto with rbt|done].
    + apply IH; [done|]. cbn. eauto with rbt.
Qed.

Lemma erase_turn_right fuel c n t x other k s :
  rbt Black n t -> rbt Black (S n) other -> ctxt c (above c n) k ->
  before k ++ inorder (T c other x t) ++ after k = s ->
  (c = Black -> rbt Black (S n) (T c (set_red other) x t) ->
     fixed (rb_erase_color (S fuel) (T c (set_red other) x t) k) s) ->
  fixed (match other with
         | E => None
         | _ =>
             if black_children other then rb_erase_color (S fuel) (T c (set_red other) x t) k
             else
               other' ← far_right other;
               p ← rotate_right (T Black (blacken_left (set_color c other')) x t);
               Some (set_black (plug p k))
         end) s.
Proof.
  intros Ht Ho Hk Hs IH. inversion Ho as [| |? c1 c2 ol ox or Hol Hor]; subst.
  destruct (rbt_red_or_black _ _ _ Hol) as [[Hl ->]|[Hl Hbl]];
  destruct (rbt_red_or_black _ _ _ Hor) as [[Hr ->]|[Hr Hbr]];
    cbn [black_children]; rewrite Hl, Hr; cbn [negb andb far_right]; rewrite ?Hl.
  - inversion Hol; subst. cbn. eapply fixed_plug; [|exact Hk|assoc]. destruct c; eauto with rbt.
  - inversion Hol; subst. cbn. eapply fixed_plug; [|exact Hk|assoc]. destruct c; eauto with rbt.
  - inversion Hor; subst. cbn. eapply fixed_plug; [|exact Hk|assoc]. destruct c; eauto 6 with rbt.
  - destruct c.
    + eapply rec_red; [..|exact Hk|assoc]; cbn; [eauto with rbt|done].
    + apply IH; [done|]. cbn. eauto with rbt.
Qed.

Lemma erase_color_spec fuel : forall k n c t,
  (2 + length k <= fuel)%nat -> rbt c n t -> ctxt Black (S n) k ->
  fixed (rb_erase_color fuel t k) (before k ++ inorder t ++ after k).
Proof.
  induction fuel as [|fuel IH]; intros k n c t Hf Ht Hk; [lia|].
  destruct fuel as [|fuel]; [lia|].
  destruct (rbt_red_or_black _ _ _ Ht) as [[Hr ->]|[Hr Hb]].
  { cbn [rb_erase_color]. rewrite Hr. inversion Ht; subst.
    eapply fixed_plug_plain; [|exact Hk|assoc]. eauto with rbt. }
  remember (S fuel) as fuel1. cbn [rb_erase_color]. rewrite Hr.
  inversion Hk as [|c0 ? px c' o k1 Ho Hk1|c0 ? px c' o k1 Ho Hk1|? px o k1 Ho Hk1|? px o k1 Ho Hk1];
    subst.
  - cbn. exists t, n. rewrite (set_black_id n) by done. split; [done|]. split; [done|assoc].
  - destruct (rbt_red_or_black _ _ _ Ho) as [[Hor ->]|[Hor Hob]].
    + inversion Ho; subst. cbn [sibling_right].
      eapply erase_turn_left; [done|done| |assoc|done]. cbn. eauto with rbt.
    + assert (sibling_right Black o k1 = (Black, o, k1)) as -> by (by destruct o as [|[] ? ? ?]).
      eapply erase_turn_left; [done|done|done|assoc|]. intros _ Hrt.
      eapply fixed_eq; [eapply (IH k1); [cbn in Hf; lia|exact Hrt|exact Hk1]|].
      destruct o; assoc.
  - destruct (rbt_red_or_black _ _ _ Ho) as [[Hor ->]|[Hor Hob]].
    + inversion Ho; subst. cbn [sibling_left].
      eapply erase_turn_right; [done|done| |assoc|done]. cbn. eauto with rbt.
    + assert (sibling_left Black o k1 = (Black, o, k1)) as -> by (by destruct o as [|[] ? ? ?]).
      eapply erase_turn_right; [done|done|done|assoc|]. intros _ Hrt.
      eapply fixed_eq; [eapply (IH k1); [cbn in Hf; lia|exact Hrt|exact Hk1]|].
      destruct o; assoc.
  - assert (sibling_right Red o k1 = (Red, o, k1)) as -> by (by inversion Ho).
    eapply erase_turn_left; [done|done|done|assoc|done].
  - assert (sibling_left Red o k1 = (Red, o, k1)) as -> by (by inversion Ho).
    eapply erase_turn_right; [done|done|done|assoc|done].
Qed.

Lemma unplug k : forall m t, rbt Black m (plug t k) -> exists c n, rbt c n t /\ ctxt c n k.
Proof.
  induction k as [|f k IH]; intros m t H; cbn in H; [by exists Black, m; auto with rbt|].
  destruct (IH m _ H) as (c & n & Hf & Hk).
  destruct f as [fc x r|fc l x]; cbn in Hf; inversion Hf; subst; do 2 eexists;
    (split; [eassumption|]); eauto with rbt.
Qed.

Lemma leftmost_acc l : forall c x r path k c' y ch path',
  leftmost c l x r path = (c', y, ch, path') -> leftmost c l x r (path ++ k) = (c', y, ch, path' ++ k).
Proof.
  induction l as [|lc ll IH lx lr _]; intros c x r path k c' y ch path' H; cbn in *; [by simplify_eq|].
  apply (IH lc lx lr (FL c x r :: path)). done.
Qed.

Lemma leftmost_spec l : forall c x r k c' y ch k' c0 n,
  rbt c0 n (T c l x r) -> ctxt c0 n k -> leftmost c l x r k = (c', y, ch, k') ->
  exists n', rbt c' n' (T c' E y ch) /\ ctxt c' n' k' /\ before k' = before k /\
    y :: inorder ch ++ after k' = inorder l ++ x :: inorder r ++ after k.
Proof.
  induction l as [|lc ll IH lx lr _]; intros c x r k c' y ch k' c0 n Ht Hk H; cbn in H.
  - simplify_eq. exists n. inversion Ht; subst; done.
  - inversion Ht; subst.
    + edestruct (IH lc lx lr (FL Red x r :: k)) as (n' & ? & ? & Hb & Hi);
        [eassumption|by apply ctxt_RL|exact H|].
      exists n'. split_and!; try done. rewrite Hi. assoc.
    + edestruct (IH lc lx lr (FL Black x r :: k)) as (n' & ? & ? & Hb & Hi);
        [eassumption|by eapply ctxt_BL|exact H|].
      exists n'. split_and!; try done. rewrite Hi. assoc.
Qed.

Lemma erase_at c n c' l x ch k s :
  rbt c n (T c l x ch) \/ rbt c n (T c ch x l) -> l = E -> ctxt c n k ->
  before k ++ inorder ch ++ after k = s -> c' = c ->
  fixed (match c' with
         | Black => rb_erase_color (erase_fuel k) ch k
         | Red => Some (plug ch k)
         end) s.
Proof.
  intros Ht -> Hk Hs ->. destruct c.
  - eapply fixed_plug_plain; [|by apply ctxt_weaken|exact Hs].
    destruct Ht as [Ht|Ht]; inversion Ht; subst; eassumption.
  - assert (exists cc n', n = S n' /\ rbt cc n' ch) as (cc & n' & -> & Hch).
    { destruct Ht as [Ht|Ht]; inversion Ht; subst; eauto. }
    eapply fixed_eq; [eapply erase_color_spec; [|exact Hch|exact Hk]|exact Hs].
    unfold erase_fuel. done.
Qed.

Lemma rb_erase_spec m c l x r k :
  rbt Black m (plug (T c l x r) k) ->
  fixed (rb_erase (T c l x r) k) (before k ++ (inorder l ++ inorder r) ++ after k).
Proof.
  intros (c0 & n & Ht & Hk)%unplug. assert (c0 = c) as -> by (inversion Ht; done).
  cbn [rb_erase]. destruct l as [|lc ll lx lr]; [|destruct r as [|rc rl rx rr]].
  - eapply erase_at; [left; exact Ht|done|exact Hk|done|done].
  - eapply erase_at; [right; exact Ht|done|exact Hk|assoc|done].
  - destruct (leftmost rc rl rx rr []) as [[[c' y] ch] path] eqn:El.
    apply (leftmost_acc _ _ _ _ _ (FR c (T lc ll lx lr) y :: k)) in El. cbn [app] in El.
    assert (exists cr nr, rbt cr nr (T rc rl rx rr) /\
      ctxt cr nr (FR c (T lc ll lx lr) y :: k)) as (cr & nr & Hr & Hkr).
    { inversion Ht; subst; do 2 eexists; (split; [eassumption|]); eauto with rbt. }
    destruct (leftmost_spec _ _ _ _ _ _ _ _ _ _ _ Hr Hkr El) as (n' & Ht' & Hk' & Hb & Hi).
    eapply erase_at; [left; exact Ht'|done|exact Hk'| |done].
    rewrite Hb. cbn in Hi |- *. rewrite <- !app_assoc. cbn. by rewrite Hi.
Qed.
End balance.

(** ** Traversal *)

Section traversal.
Context {A : Type}.
Implicit Types (t l r : tree A) (k : list (frame A)) (z : @focus A).

(** The entries after (before) the focus in the whole tree. *)
Definition rest_after z : list A :=
  match z.1 with T _ _ _ r => inorder r ++ after z.2 | E => after z.2 end.
Definition rest_before z : list A :=
  match z.1 with T _ l _ _ => before z.2 ++ inorder l | E => before z.2 end.

Lemma go_left_spec t : forall c l x r k,
  t = T c l x r -> exists y, entry (go_left t k) = Some y /\
    y :: rest_after (go_left t k) = inorder t ++ after k /\
    rest_before (go_left t k) = before k /\
    plug (go_left t k).1 (go_left t k).2 = plug t k.
Proof.
  induction t as [|tc tl IH tx tr _]; intros c l x r k [= -> -> -> ->].
  destruct l as [|lc ll lx lr].
  - exists x. cbn. by rewrite app_nil_r.
  - change (go_left (T c (T lc ll lx lr) x r) k) with (go_left (T lc ll lx lr) (FL c x r :: k)).
    destruct (IH lc ll lx lr (FL c x r :: k) eq_refl) as (y & Hy & Hr & Hb & Hp).
    exists y. split; [done|]. split; [|done]. rewrite Hr. cbn. by rewrite <- !app_assoc.
Qed.

Lemma go_right_spec t : forall c l x r k,
  t = T c l x r -> exists y, entry (go_right t k) = Some y /\
    rest_before (go_right t k) ++ [y] = before k ++ inorder t /\
    rest_after (go_right t k) = after k /\
    plug (go_right t k).1 (go_right t k).2 = plug t k.
Proof.
  induction t as [|tc tl _ tx tr IH]; intros c l x r k [= -> -> -> ->].
  destruct r as [|rc rl rx rr].
  - exists x. cbn. by rewrite <- app_assoc.
  - change (go_right (T c l x (T rc rl rx rr)) k) with (go_right (T rc rl rx rr) (FR c l x :: k)).
    destruct (IH rc rl rx rr (FR c l x :: k) eq_refl) as (y & Hy & Hr & Hb & Hp).
    exists y. split; [done|]. split; [|done]. rewrite Hr. cbn. by rewrite <- !app_assoc.
Qed.

Lemma up_right_spec k : forall t,
  match up_right t k with
  | None => after k = []
  | Some z => exists y, entry z = Some y /\ after k = y :: rest_after z /\
      plug z.1 z.2 = plug t k
  end.
Proof.
  induction k as [|[c x r|c l x] k IH]; intros t; cbn; [done| |apply (IH (T c l x t))].
  by exists x.
Qed.

Lemma up_left_spec k : forall t,
  match up_left t k with
  | None => before k = []
  | Some z => exists y, entry z = Some y /\ before k = rest_before z ++ [y] /\
      plug z.1 z.2 = plug t k
  end.
Proof.
  induction k as [|[c x r|c l x] k IH]; intros t; cbn; [done|apply (IH (T c t x r))|].
  exists x. by rewrite <- app_assoc.
Qed.

Lemma rb_next_spec z y :
  entry z = Some y ->
  match rb_next z with
  | None => rest_after z = []
  | Some z' => exists y', entry z' = Some y' /\ rest_after z = y' :: rest_after z' /\
      plug z'.1 z'.2 = plug z.1 z.2
  end.
Proof.
  destruct z as [[|c l x [|rc rl rx rr]] k]; cbn [rb_next]; [done|..]; intros _.
  - pose proof (up_right_spec k (T c l x E)) as H. destruct (up_right _ _); [|done]. done.
  - destruct (go_left_spec (T rc rl rx rr) _ _ _ _ (FR c l x :: k) eq_refl) as (y' & Hy & Hr & _ & Hp).
    exists y'. split; [done|]. split; [|done]. by rewrite Hr.
Qed.

Lemma rb_prev_spec z y :
  entry z = Some y ->
  match rb_prev z with
  | None => rest_before z = []
  | Some z' => exists y', entry z' = Some y' /\ rest_before z = rest_before z' ++ [y'] /\
      plug z'.1 z'.2 = plug z.1 z.2
  end.
Proof.
  destruct z as [[|c [|lc ll lx lr] x r] k]; cbn [rb_prev]; [done|..]; intros _.
  - pose proof (up_left_spec k (T c E x r)) as H. unfold rest_before. cbn. rewrite app_nil_r.
    destruct (up_left _ _); [|done]. done.
  - destruct (go_right_spec (T lc ll lx lr) _ _ _ _ (FL c x r :: k) eq_refl) as (y' & Hy & Hr & _ & Hp).
    exists y'. split; [done|]. split; [|done]. by rewrite Hr.
Qed.

Lemma walk_spec fuel : forall z y,
  entry z = Some y -> (length (rest_after z) < fuel)%nat -> walk fuel (Some z) = y :: rest_after z.
Proof.
  induction fuel as [|fuel IH]; intros z y Hy Hf; [lia|]. cbn. rewrite Hy. cbn. f_equal.
  pose proof (rb_next_spec z y Hy) as Hn. destruct (rb_next z) as [z'|].
  - destruct Hn as (y' & Hy' & Hr & _). rewrite Hr in *. apply IH; [done|]. cbn in Hf. lia.
  - rewrite Hn. by destruct fuel.
Qed.

Lemma walk_first t fuel : (length (inorder t) <= fuel)%nat -> walk fuel (rb_first t) = inorder t.
Proof.
  intros Hf. destruct t as [|c l x r]; [by destruct fuel|]. cbn [rb_first].
  destruct (go_left_spec (T c l x r) _ _ _ _ [] eq_refl) as (y & Hy & Hr & _).
  cbn [after] in Hr. rewrite app_nil_r in Hr. rewrite <- Hr in Hf |- *. apply walk_spec; [done|].
  rewrite length_cons in Hf. lia.
Qed.
End traversal.

(** ** Search *)

Section search.
Context {A : Type} (cmp : A -> comparison).
Implicit Types (t : tree A) (k : list (frame A)).

Lemma rb_search_plug t : forall k,
  plug (rb_search cmp t k).1 (rb_search cmp t k).2 = plug t k.
Proof.
  induction t as [|c l IHl x r IHr]; intros k; cbn; [done|].
  destruct (cmp x); [done|apply IHl|apply IHr].
Qed.

Lemma rb_search_found t : forall k c l x r,
  (rb_search cmp t k).1 = T c l x r -> cmp x = Eq.
Proof.
  induction t as [|c l IHl x r IHr]; intros k c' l' x' r'; cbn; [done|].
  destruct (cmp x) eqn:Ex; [|apply IHl|apply IHr]. cbn. by intros [= <- <- <- <-].
Qed.

Lemma rb_search_missing t : forall k,
  (forall x, x ∈ before k -> cmp x = Gt) -> (forall x, x ∈ after k -> cmp x = Lt) ->
  (forall l1 x l2, inorder t = l1 ++ x :: l2 ->
     (cmp x = Lt -> forall y, y ∈ l2 -> cmp y = Lt) /\
     (cmp x = Gt -> forall y, y ∈ l1 -> cmp y = Gt)) ->
  (rb_search cmp t k).1 = E ->
  (forall x, x ∈ before (rb_search cmp t k).2 -> cmp x = Gt) /\
  (forall x, x ∈ after (rb_search cmp t k).2 -> cmp x = Lt).
Proof.
  induction t as [|c l IHl x r IHr]; intros k Hb Ha Ho; cbn; [done|].
  destruct (Ho (inorder l) x (inorder r) eq_refl) as [HL HG].
  destruct (cmp x) eqn:Ex; [done|..]; intros He.
  - apply IHl; [done| | |done].
    + cbn. intros y [->|[Hy|Hy]%elem_of_app]%elem_of_cons; auto.
    + intros l1 y l2 Hl. destruct (Ho l1 y (l2 ++ x :: inorder r)) as [H1 H2].
      { cbn. by rewrite Hl, <- app_assoc. }
      split; [|done]. intros Hy w Hw. apply H1; [done|]. apply elem_of_app. by left.
  - apply IHr; [| done| |done].
    + cbn. intros y [Hy|[Hy|Hy%list_elem_of_singleton]%elem_of_app]%elem_of_app; subst; auto.
    + intros l1 y l2 Hr. destruct (Ho (inorder l ++ x :: l1) y l2) as [H1 H2].
      { cbn. by rewrite Hr, <- app_assoc. }
      split; [done|]. intros Hy w Hw. apply H2; [done|]. apply elem_of_app. right.
      by apply elem_of_cons; right.
Qed.
End search.

(** ** Insertion at an empty place *)

Lemma insert_at {A} (m : nat) (x : A) k :
  rbt Black m (plug E k) ->
  exists t' m', rb_insert_color (rb_link_node x) k = Some t' /\ rbt Black m' t' /\
    inorder t' = before k ++ x :: after k.
Proof.
  intros (c & n & Ht & Hk)%unplug. inversion Ht; subst.
  apply (insert_color_spec (length k) k 0 (rb_link_node x)); [done| |done].
  apply rbt_R; constructor.
Qed.

(** ** Properties *)

(** C24: Linking a new node at an empty place of a red-black tree and calling
    [rb_insert_color] never follows a null pointer, yields a red-black tree
    again, and puts the entry at that place of the in-order sequence, the rest
    of which is unchanged. *)
Theorem rb_insert_correct {A} (m : nat) (x : A) (k : list (frame A)) :
  rbt Black m (plug E k) ->
  exists t' m', rb_insert_color (rb_link_node x) k = Some t' /\ rbt Black m' t' /\
    inorder t' = before k ++ x :: after k /\ inorder (plug E k) = before k ++ after k.
Proof.
  intros H. destruct (insert_at m x k H) as (t' & m' & H1 & H2 & H3). exists t', m'.
  split_and!; try done. by rewrite inorder_plug.
Qed.

Definition ex_tree : tree Z :=
  T Black (T Red (T Black E 1 E) 2 (T Black (T Red E 3 E) 4 (T Red E 5 E))) 7 (T Black E 9 E).

Lemma ex_tree_rbt : rbt Black 2 ex_tree.
Proof. unfold ex_tree. eauto 9 with rbt. Qed.

Lemma rb_insert_correct_witness :
  exists t', rb_insert_color (rb_link_node 6%Z) (rb_search (Z.compare 6) ex_tree []).2 = Some t' /\
    inorder t' = [1; 2; 3; 4; 5; 6; 7; 9]%Z.
Proof.
  destruct (rb_insert_correct 2 6%Z (rb_search (Z.compare 6) ex_tree []).2) as (t' & m' & H1 & _ & H2 & _);
    [exact ex_tree_rbt|]. exists t'. split; [exact H1|]. rewrite H2. reflexivity.
Defined.

(** C25: [rb_erase] of any node of a red-black tree never follows a null
    pointer, terminates within the fuel, yields a red-black tree again, and
    removes exactly that entry from the in-order sequence. *)
Theorem rb_erase_correct {A} (m : nat) c l (x : A) r k :
  rbt Black m (plug (T c l x r) k) ->
  exists t' m', rb_erase (T c l x r) k = Some t' /\ rbt Black m' t' /\
    inorder t' = before k ++ (inorder l ++ inorder r) ++ after k /\
    inorder (plug (T c l x r) k) = before k ++ (inorder l ++ x :: inorder r) ++ after k.
Proof.
  intros H. destruct (rb_erase_spec m c l x r k H) as (t' & m' & H1 & H2 & H3). exists t', m'.
  split_and!; try done. by rewrite inorder_plug.
Qed.

Lemma rb_erase_correct_witness :
  exists t' m', rb_erase (T Black E 9%Z E) [FR Black (T Red (T Black E 1 E) 2 (T Black (T Red E 3 E) 4 (T Red E 5 E))) 7]%Z = Some t' /\
    rbt Black m' t' /\ inorder t' = [1; 2; 3; 4; 5; 7]%Z.
Proof.
  destruct (rb_erase_correct 2 Black E 9%Z E [FR Black (T Red (T Black E 1 E) 2 (T Black (T Red E 3 E) 4 (T Red E 5 E))) 7]%Z)
    as (t' & m' & H1 & H2 & H3 & _); [exact ex_tree_rbt|].
  exists t', m'. split; [exact H1|]. split; [exact H2|]. rewrite H3. reflexivity.
Defined.

(** [rb_first] and [rb_next] visit every entry once and in order; at any
    node [rb_next] gives the next entry of that sequence and null exactly at
    its end, [rb_prev] the previous one and null exactly at its start. *)
Theorem rb_traversal_in_order {A} (t : tree A) (z : focus) (y : A) :
  plug z.1 z.2 = t -> entry z = Some y ->
  walk (length (inorder t)) (rb_first t) = inorder t /\
  inorder t = rest_before z ++ y :: rest_after z /\
  match rb_next z with
  | None => rest_after z = []
  | Some z' => exists y', entry z' = Some y' /\ rest_after z = y' :: rest_after z' /\ plug z'.1 z'.2 = t
  end /\
  match rb_prev z with
  | None => rest_before z = []
  | Some z' => exists y', entry z' = Some y' /\ rest_before z = rest_before z' ++ [y'] /\ plug z'.1 z'.2 = t
  end.
Proof.
  intros <- Hy. split; [by apply walk_first|]. split.
  - destruct z as [[|c l x r] k]; [done|]. cbn in Hy. injection Hy as ->.
    cbn [fst snd]. rewrite inorder_plug. unfold rest_before, rest_after. cbn.
    by rewrite <- !app_assoc.
  - split; [exact (rb_next_spec z y Hy)|exact (rb_prev_spec z y Hy)].
Qed.

Lemma rb_traversal_in_order_witness :
  walk 7 (rb_first ex_tree) = [1; 2; 3; 4; 5; 7; 9]%Z.
Proof.
  destruct (rb_traversal_in_order ex_tree (ex_tree, []) 7%Z eq_refl eq_refl) as [H _].
  exact H.
Defined.
