(* ===== verification/RbKeyed.v ===== *)
(** * Red-black trees in use: descents with checks, insertion, removal by pointer

    A client of lib/rbtree.c writes its own descent, which may follow pointers
    of its own; [rb_descend] is such a descent, [None] when one of them is bad.
    [rb_insert_by] links a new node where the descent ends, and [rb_delete] is
    [rb_erase] of a node that the client has a pointer to. *)

From stdpp Require Import base numbers list sorting sets.
From S2P Require Import Prelude RbTree RbTreeProps.

Section ops.
Context {A : Type}.
Implicit Types (t : tree A) (k : list (frame A)).

Fixpoint rb_descend (cmp : A -> option comparison) t k : option (tree A * list (frame A)) :=
  match t with
  | E => Some (E, k)
  | T c l x r =>
      o ← cmp x;
      match o with
      | Lt => rb_descend cmp l (FL c x r :: k)
      | Gt => rb_descend cmp r (FR c l x :: k)
      | Eq => Some (t, k)
      end
  end.

(** [rb_link_node] and [rb_insert_color] at the place the descent ends at;
    [None] when it ends at a node. *)
Definition rb_insert_by (cmp : A -> option comparison) (x : A) t : option (tree A) :=
  '(p, k) ← rb_descend cmp t [];
  match p with
  | E => rb_insert_color (rb_link_node x) k
  | T _ _ _ _ => None
  end.

(** The node that holds [x]. *)
Fixpoint rb_node_of `{EqDecision A} (x : A) t k : option focus :=
  match t with
  | E => None
  | T c l y r =>
      if decide (x = y) then Some (t, k)
      else match rb_node_of x l (FL c y r :: k) with
      | Some z => Some z
      | None => rb_node_of x r (FR c l y :: k)
      end
  end.

Definition rb_delete `{EqDecision A} (x : A) t : option (tree A) :=
  '(p, k) ← rb_node_of x t [];
  rb_erase p k.
End ops.

Section lemmas.
Context {A : Type}.
Implicit Types (t : tree A) (k : list (frame A)).

Lemma rb_descend_search (cmp : A -> option comparison) (c : A -> comparison) t : forall k,
  (forall x, x ∈ inorder t -> cmp x = Some (c x)) -> rb_descend cmp t k = Some (rb_search c t k).
Proof.
  induction t as [|cl l IHl x r IHr]; intros k H; [done|]. cbn.
  rewrite H by (cbn; rewrite elem_of_app, elem_of_cons; auto). cbn.
  destruct (c x); [done|apply IHl|apply IHr];
    intros y Hy; apply H; cbn; rewrite elem_of_app, elem_of_cons; auto.
Qed.

(** A tree whose comparisons are [Gt] up to some place and [Lt] from there on. *)
Definition splits (c : A -> comparison) (l : list A) : Prop :=
  forall l1 x l2, l = l1 ++ x :: l2 ->
    (c x = Lt -> forall y, y ∈ l2 -> c y = Lt) /\ (c x = Gt -> forall y, y ∈ l1 -> c y = Gt).

Lemma rb_insert_by_spec (cmp : A -> option comparison) (c : A -> comparison) m t x :
  rbt Black m t -> (forall y, y ∈ inorder t -> cmp y = Some (c y)) -> splits c (inorder t) ->
  (forall y, y ∈ inorder t -> c y <> Eq) ->
  exists t' m' l1 l2, rb_insert_by cmp x t = Some t' /\ rbt Black m' t' /\
    inorder t = l1 ++ l2 /\ inorder t' = l1 ++ x :: l2 /\
    (forall y, y ∈ l1 -> c y = Gt) /\ (forall y, y ∈ l2 -> c y = Lt).
Proof.
  intros Ht Hc Hs Hne. unfold rb_insert_by. rewrite (rb_descend_search _ c) by done. cbn.
  pose proof (rb_search_plug c t []) as Hp. pose proof (rb_search_found c t []) as Hf.
  pose proof (rb_search_missing c t []) as Hm.
  destruct (rb_search c t []) as [p k]. cbn [fst snd plug] in *.
  assert (p = E) as ->.
  { destruct p as [|cl l y r]; [done|]. exfalso. apply (Hne y); [|by eapply Hf].
    rewrite <- Hp, inorder_plug. cbn. rewrite !elem_of_app, elem_of_cons. auto. }
  destruct Hm as [HG HL]; [by intros ? ?%not_elem_of_nil|by intros ? ?%not_elem_of_nil|done|done|].
  destruct (insert_at m x k) as (t' & m' & H1 & H2 & H3); [by rewrite Hp|].
  exists t', m', (before k), (after k). split_and!; try done.
  by rewrite <- Hp, inorder_plug.
Qed.

Lemma rb_descend_found (cmp : A -> option comparison) (c : A -> comparison) t x :
  (forall y, y ∈ inorder t -> cmp y = Some (c y)) -> splits c (inorder t) ->
  x ∈ inorder t -> c x = Eq -> (forall y, y ∈ inorder t -> c y = Eq -> y = x) ->
  exists cl l r k, rb_descend cmp t [] = Some (T cl l x r, k) /\ plug (T cl l x r) k = t.
Proof.
  intros Hc Hs Hx Ex Hu. rewrite (rb_descend_search _ c) by done.
  pose proof (rb_search_plug c t []) as Hp. pose proof (rb_search_found c t []) as Hf.
  pose proof (rb_search_missing c t []) as Hm.
  destruct (rb_search c t []) as [p k]. cbn [fst snd plug] in *.
  destruct p as [|cl l y r].
  - destruct Hm as [HG HL]; [by intros ? ?%not_elem_of_nil|by intros ? ?%not_elem_of_nil|done|done|].
    rewrite <- Hp, inorder_plug in Hx. cbn in Hx.
    apply elem_of_app in Hx as [Hx|Hx]; [apply HG in Hx|apply HL in Hx]; congruence.
  - assert (y = x) as ->; [|eauto 10].
    apply Hu; [|by eapply Hf]. rewrite <- Hp, inorder_plug. cbn.
    rewrite !elem_of_app, elem_of_cons. auto.
Qed.

Lemma rb_descend_missing (cmp : A -> option comparison) (c : A -> comparison) t :
  (forall y, y ∈ inorder t -> cmp y = Some (c y)) -> (forall y, y ∈ inorder t -> c y <> Eq) ->
  exists k, rb_descend cmp t [] = Some (E, k) /\ plug E k = t.
Proof.
  intros Hc Hne. rewrite (rb_descend_search _ c) by done.
  pose proof (rb_search_plug c t []) as Hp. pose proof (rb_search_found c t []) as Hf.
  destruct (rb_search c t []) as [p k]. cbn [fst snd plug] in *.
  destruct p as [|cl l y r]; [eauto|]. exfalso. apply (Hne y); [|by eapply Hf].
  rewrite <- Hp, inorder_plug. cbn. rewrite !elem_of_app, elem_of_cons. auto.
Qed.

Context `{EqDecision A}.

Lemma rb_node_of_spec x t : forall k,
  match rb_node_of x t k with
  | Some (p, k') => plug p k' = plug t k /\ exists c l r, p = T c l x r
  | None => x ∉ inorder t
  end.
Proof.
  induction t as [|c l IHl y r IHr]; intros k; cbn; [apply not_elem_of_nil|].
  destruct (decide (x = y)) as [->|Hne]; [eauto 10|].
  specialize (IHl (FL c y r :: k)). destruct (rb_node_of x l _) as [[p k']|]; [done|].
  specialize (IHr (FR c l y :: k)). destruct (rb_node_of x r _) as [[p k']|]; [done|].
  rewrite elem_of_app, elem_of_cons. naive_solver.
Qed.

Lemma NoDup_split (l1 l2 k1 k2 : list A) x :
  NoDup (l1 ++ x :: l2) -> l1 ++ x :: l2 = k1 ++ x :: k2 -> l1 = k1 /\ l2 = k2.
Proof.
  revert k1. induction l1 as [|y l1 IH]; intros [|z k1] Hd; cbn.
  - by intros [= ->].
  - intros [= -> ->]. apply NoDup_cons in Hd as [Hd _]. contradict Hd. apply elem_of_app. right. left.
  - intros [= -> <-]. apply NoDup_cons in Hd as [Hd _]. contradict Hd. apply elem_of_app. right. left.
  - intros [= -> He]. apply NoDup_cons in Hd as [_ Hd]. by destruct (IH k1 Hd He) as [-> ->].
Qed.

Lemma rb_delete_spec m t x l1 l2 :
  rbt Black m t -> NoDup (inorder t) -> inorder t = l1 ++ x :: l2 ->
  exists t' m', rb_delete x t = Some t' /\ rbt Black m' t' /\ inorder t' = l1 ++ l2.
Proof.
  intros Ht Hd Ho. unfold rb_delete. pose proof (rb_node_of_spec x t []) as Hn.
  destruct (rb_node_of x t []) as [[p k]|].
  - destruct Hn as (Hp & c & l & r & ->). cbn [plug] in Hp. subst t. cbn.
    destruct (rb_erase_spec m c l x r k Ht) as (t' & m' & H1 & H2 & H3).
    exists t', m'. split_and!; try done. rewrite H3.
    rewrite inorder_plug in Ho, Hd. cbn [inorder] in Ho, Hd. rewrite <- app_assoc in Ho, Hd. cbn in Ho, Hd.
    rewrite app_assoc in Ho, Hd. destruct (NoDup_split _ _ _ _ _ Hd Ho) as [<- <-].
    by rewrite <- !app_assoc.
  - contradict Hn. rewrite Ho. apply elem_of_app. right. left.
Qed.
Lemma rb_delete_in t x t' : rb_delete x t = Some t' -> x ∈ inorder t.
Proof.
  unfold rb_delete. pose proof (rb_node_of_spec x t []) as Hn. destruct (rb_node_of x t []) as [[p k]|]; [|done].
  destruct Hn as (Hp & c & l & r & ->). cbn [plug] in Hp. intros _. rewrite <- Hp, inorder_plug. cbn.
  rewrite !elem_of_app, elem_of_cons. auto.
Qed.
End lemmas.

(** ** Sorted sequences *)

Lemma sorted_app {A} (R : A -> A -> Prop) l1 x l2 :
  StronglySorted R (l1 ++ l2) -> (forall y, y ∈ l1 -> R y x) -> (forall y, y ∈ l2 -> R x y) ->
  StronglySorted R (l1 ++ x :: l2).
Proof.
  intros Hs H1 H2. induction l1 as [|y l1 IH]; cbn in *.
  - constructor; [done|]. by apply Forall_forall.
  - inversion Hs as [|? ? Hs' Hf]; subst. constructor.
    + apply IH; [done|]. intros w Hw. apply H1. set_solver.
    + rewrite Forall_forall in *. intros w. rewrite elem_of_app, elem_of_cons.
      intros [Hw|[->|Hw]]; [apply Hf; set_solver|apply H1; set_solver|apply Hf; set_solver].
Qed.

Lemma sorted_split {A} (R : A -> A -> Prop) l1 x l2 :
  StronglySorted R (l1 ++ x :: l2) -> (forall y, y ∈ l1 -> R y x) /\ (forall y, y ∈ l2 -> R x y).
Proof.
  induction l1 as [|w l1 IH]; cbn; inversion 1 as [|? ? Hs Hf]; subst; rewrite Forall_forall in Hf.
  - split; [set_solver|done].
  - destruct (IH Hs) as [H1 H2]. split; [|done]. intros y [->|Hy]%elem_of_cons; [|auto].
    apply Hf. set_solver.
Qed.

Lemma sorted_delete {A} (R : A -> A -> Prop) l1 x l2 :
  StronglySorted R (l1 ++ x :: l2) -> StronglySorted R (l1 ++ l2).
Proof.
  rewrite !StronglySorted_app, StronglySorted_cons. intros (H & H1 & _ & H2). split_and!; try done.
  intros y z Hy Hz. apply H; [done|by right].
Qed.

Lemma sorted_impl {A} (R R' : A -> A -> Prop) l :
  (forall x y, x ∈ l -> y ∈ l -> R x y -> R' x y) -> StronglySorted R l -> StronglySorted R' l.
Proof.
  induction l as [|x l IH]; intros HR Hs; [constructor|]. apply StronglySorted_cons in Hs as [Hf Hs].
  apply StronglySorted_cons. split.
  - rewrite Forall_forall in *. intros y Hy. apply HR; [left|by right|by apply Hf].
  - apply IH; [|done]. intros y z Hy Hz. apply HR; by right.
Qed.

(** Descents by a key: to the right of equal keys, and with equal keys found. *)
Section keys.
Context {A : Type} (key : A -> Z).

Definition after_cmp (k : Z) (y : A) : comparison := if (k <? key y)%Z then Lt else Gt.

Lemma after_cmp_splits k l : StronglySorted (fun x y => (key x <= key y)%Z) l -> splits (after_cmp k) l.
Proof.
  intros Hs l1 x l2 ->. apply sorted_split in Hs as [H1 H2]. unfold after_cmp. split; intros Hx y Hy.
  - specialize (H2 y Hy). cbn in H2. destruct (Z.ltb_spec k (key x)); [|done].
    by rewrite (proj2 (Z.ltb_lt _ _)) by lia.
  - specialize (H1 y Hy). cbn in H1. destruct (Z.ltb_spec k (key x)); [done|].
    by rewrite (proj2 (Z.ltb_ge _ _)) by lia.
Qed.

Lemma compare_splits k l :
  StronglySorted (fun x y => (key x < key y)%Z) l -> splits (fun y => (k ?= key y)%Z) l.
Proof.
  intros Hs l1 x l2 ->. apply sorted_split in Hs as [H1 H2]. split; intros Hx y Hy.
  - specialize (H2 y Hy). cbn in H2. rewrite Z.compare_lt_iff in Hx |- *. lia.
  - specialize (H1 y Hy). cbn in H1. rewrite Z.compare_gt_iff in Hx |- *. lia.
Qed.

(** The two parts of a sorted sequence around a key are unique. *)
Lemma key_split_unique k l1 l2 k1 k2 :
  l1 ++ l2 = k1 ++ k2 -> (forall y, y ∈ l1 -> (key y < k)%Z) -> (forall y, y ∈ l2 -> (k < key y)%Z) ->
  (forall y, y ∈ k1 -> (key y < k)%Z) -> (forall y, y ∈ k2 -> (k < key y)%Z) -> l1 = k1 /\ l2 = k2.
Proof.
  revert k1. induction l1 as [|x l1 IH]; intros [|y k1]; cbn; intros He H1 H2 H3 H4.
  - done.
  - subst l2. exfalso. pose proof (H2 y (list_elem_of_here _ _)). pose proof (H3 y (list_elem_of_here _ _)). lia.
  - subst k2. exfalso. pose proof (H1 x (list_elem_of_here _ _)). pose proof (H4 x (list_elem_of_here _ _)). lia.
  - injection He as -> He. destruct (IH k1 He) as [-> ->]; [|done|..|done].
    + intros z Hz. apply H1. by right.
    + intros z Hz. apply H3. by right.
    + done.
Qed.
End keys.
