(* ===== verification/RbIndex.v ===== *)
(** * Red-black trees of pointers as indexes

    [index key member t] says that [t] is a red-black tree that holds exactly
    the members, in the order of their keys, which are all different. *)

From stdpp Require Import base numbers list sorting sets gmap.
From S2P Require Import Prelude RbTree RbTreeProps RbKeyed.

Open Scope Z_scope.

Definition index (key : Z -> Z) (member : Z -> Prop) (t : tree Z) : Prop :=
  (exists m, rbt Black m t) /\ StronglySorted (fun x y => key x < key y) (inorder t) /\
  (forall x, x ∈ inorder t <-> member x).

Lemma index_empty key member : (forall x, ~ member x) -> index key member E.
Proof.
  intros H. split; [exists 0%nat; constructor|]. split; [constructor|].
  intros x. cbn. split; [by intros ?%not_elem_of_nil|by intros ?%H].
Qed.

Lemma index_nothing key member : index key member E -> forall x, ~ member x.
Proof. intros (_ & _ & H) x Hx. apply H in Hx. by apply not_elem_of_nil in Hx. Qed.

Lemma index_ext key key' (member member' : Z -> Prop) t :
  index key member t -> (forall x, member x -> key' x = key x) -> (forall x, member x <-> member' x) ->
  index key' member' t.
Proof.
  intros (Ht & Hs & Hm) Hk Hmm. split; [done|]. split.
  - eapply sorted_impl; [|exact Hs]. intros x y Hx Hy. cbn. apply Hm in Hx, Hy. by rewrite !Hk by done.
  - intros x. by rewrite Hm, Hmm.
Qed.

Lemma index_key_inj key member t x y :
  index key member t -> member x -> member y -> key x = key y -> x = y.
Proof.
  intros (_ & Hs & Hm) Hx Hy He. apply Hm in Hx, Hy.
  apply list_elem_of_split in Hx as (l1 & l2 & Ho). rewrite Ho in Hs, Hy.
  apply sorted_split in Hs as [H1 H2]. apply elem_of_app in Hy as [Hy|[->|Hy]%elem_of_cons]; [|done|].
  - specialize (H1 _ Hy). cbn in H1. lia.
  - specialize (H2 _ Hy). cbn in H2. lia.
Qed.

(** A descent finds the member with the key, or the place where it would be. *)
Lemma index_descend key member t cmp k :
  index key member t -> (forall x, member x -> cmp x = Some (k ?= key x)) ->
  (exists x c l r ctx, rb_descend cmp t [] = Some (T c l x r, ctx) /\ member x /\ key x = k) \/
  (exists ctx, rb_descend cmp t [] = Some (E, ctx) /\ plug E ctx = t /\ (forall x, member x -> key x <> k)).
Proof.
  intros (Ht & Hs & Hm) Hc.
  assert (forall y, y ∈ inorder t -> cmp y = Some (k ?= key y)) as Hc' by (intros y Hy; by apply Hc, Hm).
  destruct (decide (Exists (fun x => key x = k) (inorder t))) as [Hx|Hx].
  - left. apply Exists_exists in Hx as (x & Hx & Hk). exists x.
    destruct (rb_descend_found cmp (fun y => k ?= key y) t x) as (c & l & r & ctx & Hd & _); [done|..].
    + by apply compare_splits.
    + done.
    + by apply Z.compare_eq_iff.
    + intros y Hy He%Z.compare_eq_iff. symmetry.
      apply (index_key_inj key member t); [done|by apply Hm|by apply Hm|congruence].
    + exists c, l, r, ctx. split; [done|]. split; [by apply Hm|done].
  - right. destruct (rb_descend_missing cmp (fun y => k ?= key y) t) as (ctx & Hd & Hp); [done|..].
    + intros y Hy He%Z.compare_eq_iff. apply Hx, Exists_exists. eauto.
    + exists ctx. split_and!; [done|done|]. intros x Hx' Hk. apply Hx, Exists_exists. exists x. by rewrite Hm.
Qed.

(** A new member is linked where the descent ended. *)
Lemma index_insert key key' member t cmp k x ctx :
  index key member t -> (forall y, member y -> cmp y = Some (k ?= key y)) ->
  rb_descend cmp t [] = Some (E, ctx) -> ~ member x -> (forall y, member y -> key' y = key y) -> key' x = k ->
  exists t', rb_insert_color (rb_link_node x) ctx = Some t' /\ index key' (fun y => y = x \/ member y) t'.
Proof.
  intros Hi Hc Hd Hx Hk Ek. pose proof Hi as ((m & Ht) & Hs & Hm).
  destruct (index_descend _ _ _ _ _ Hi Hc) as [(y & c & l & r & ctx' & Hd' & _)|(ctx' & Hd' & Hp & Hne)];
    [congruence|]. rewrite Hd in Hd'. injection Hd' as <-.
  destruct (rb_insert_by_spec cmp (fun y => k ?= key y) m t x Ht) as (t' & m' & l1 & l2 & Hins & Ht' & Ho & Ho' & H1 & H2).
  { intros y Hy. by apply Hc, Hm. }
  { by apply compare_splits. }
  { intros y Hy He%Z.compare_eq_iff. apply (Hne y); [by apply Hm|done]. }
  unfold rb_insert_by in Hins. rewrite Hd in Hins. cbn in Hins. exists t'. split; [done|].
  split; [eauto|]. rewrite Ho'. split.
  - apply sorted_app.
    + rewrite <- Ho. eapply sorted_impl; [|exact Hs]. intros y z Hy Hz. cbn. by rewrite !Hk by (by apply Hm).
    + intros y Hy. cbn. rewrite Ek, Hk by (apply Hm; rewrite Ho; set_solver).
      apply H1, Z.compare_gt_iff in Hy. lia.
    + intros y Hy. cbn. rewrite Ek, Hk by (apply Hm; rewrite Ho; set_solver).
      by apply H2, Z.compare_lt_iff in Hy.
  - intros y. rewrite <- Hm, Ho. set_solver.
Qed.

Lemma index_insert_by key key' member t cmp k x :
  index key member t -> (forall y, member y -> cmp y = Some (k ?= key y)) -> (forall y, member y -> key y <> k) ->
  ~ member x -> (forall y, member y -> key' y = key y) -> key' x = k ->
  exists t', rb_insert_by cmp x t = Some t' /\ index key' (fun y => y = x \/ member y) t'.
Proof.
  intros Hi Hc Hne Hx Hk Ek.
  destruct (index_descend _ _ _ _ _ Hi Hc) as [(y & c & l & r & ctx' & _ & Hy & Ey)|(ctx & Hd & Hp & _)].
  { by apply Hne in Ey. }
  destruct (index_insert key key' member t cmp k x ctx) as (t' & H1 & H2); [done..|].
  exists t'. split; [|done]. unfold rb_insert_by. by rewrite Hd.
Qed.

Lemma index_delete key member t x :
  index key member t -> member x ->
  exists t', rb_delete x t = Some t' /\ index key (fun y => y <> x /\ member y) t'.
Proof.
  intros ((m & Ht) & Hs & Hm) Hx.
  assert (NoDup (inorder t)) as Hn.
  { clear -Hs. induction (inorder t) as [|y l IH]; [constructor|]. apply StronglySorted_cons in Hs as [Hf Hs].
    apply NoDup_cons. split; [|by apply IH]. intros Hy. rewrite Forall_forall in Hf. specialize (Hf _ Hy). cbn in Hf. lia. }
  apply Hm in Hx. apply list_elem_of_split in Hx as (l1 & l2 & Ho).
  destruct (rb_delete_spec m t x l1 l2 Ht Hn Ho) as (t' & m' & Hd & Ht' & Ho').
  exists t'. split; [done|]. split; [eauto|]. rewrite Ho'. rewrite Ho in Hs, Hn. split.
  - by eapply sorted_delete.
  - intros y. rewrite <- Hm, Ho. apply NoDup_app in Hn as (_ & Hn1 & [Hn2 _]%NoDup_cons).
    rewrite !elem_of_app, elem_of_cons. split.
    + intros Hy. split; [|tauto]. intros ->. destruct Hy as [Hy|Hy]; [|done].
      apply (Hn1 x Hy). left.
    + tauto.
Qed.

(** The loop [for (n = rb_first(t); n; n = rb_next(n))] sees the members in the
    order of their keys. *)
Lemma index_walk key member t :
  index key member t ->
  exists l, walk (length (inorder t)) (rb_first t) = l /\ StronglySorted (fun x y => key x < key y) l /\
    (forall x, x ∈ l <-> member x).
Proof. intros (_ & Hs & Hm). exists (inorder t). split_and!; [by apply walk_first|done|done]. Qed.

(** ** Indexes of a table

    The objects are kept in a table by address; [f] is the owner of an object,
    if it has one, and [k] its key.  [indexed k f m p t]: [t] indexes the objects
    of [p]. *)

Section table.
Context {A : Type} (k : A -> Z) (f : A -> option Z).
Implicit Types (m : gmap Z A) (t : tree Z).

Definition key_in m (x : Z) : Z := from_option k 0 (m !! x).
Definition owned m (p x : Z) : Prop := exists a, m !! x = Some a /\ f a = Some p.
Definition indexed m (p : Z) t : Prop := index (key_in m) (owned m p) t.

Lemma key_in_ne m x y a : y <> x -> key_in (<[x := a]> m) y = key_in m y.
Proof. intros H. unfold key_in. by rewrite lookup_insert_ne. Qed.

(** The entry of [x] changes, and [x] does not become or stop being one of the
    objects of [p]. *)
Lemma indexed_keep m p t x (o : option A) :
  indexed m p t ->
  (forall a, m !! x = Some a -> f a = Some p -> exists b, o = Some b /\ f b = Some p /\ k b = k a) ->
  (forall b, o = Some b -> f b = Some p -> exists a, m !! x = Some a /\ f a = Some p) ->
  indexed (partial_alter (fun _ => o) x m) p t.
Proof.
  intros Hi H1 H2. eapply index_ext; [exact Hi| |].
  - intros y (a & Ha & Fa). unfold key_in. destruct (decide (y = x)) as [->|Hne].
    + destruct (H1 a Ha Fa) as (b & -> & _ & Hk). rewrite lookup_partial_alter_eq, Ha. done.
    + by rewrite lookup_partial_alter_ne.
  - intros y. unfold owned. destruct (decide (y = x)) as [->|Hne].
    + rewrite lookup_partial_alter_eq. split.
      * intros (a & Ha & Fa). destruct (H1 a Ha Fa) as (b & -> & ? & _). eauto.
      * intros (b & Hb & Fb). by apply (H2 b).
    + by rewrite lookup_partial_alter_ne.
Qed.

Lemma indexed_update m p t x a b :
  indexed m p t -> m !! x = Some a -> f b = f a -> k b = k a -> indexed (<[x := b]> m) p t.
Proof. intros Hi Ha Hf Hk. apply indexed_keep; [done|..]; naive_solver congruence. Qed.

Lemma indexed_insert_other m p t x b :
  indexed m p t -> m !! x = None -> f b <> Some p -> indexed (<[x := b]> m) p t.
Proof. intros Hi Ha Hf. apply indexed_keep; [done|..]; naive_solver congruence. Qed.

Lemma indexed_change_other m p t x a b :
  indexed m p t -> m !! x = Some a -> f a <> Some p -> f b <> Some p -> indexed (<[x := b]> m) p t.
Proof. intros Hi Ha Hf Hb. apply indexed_keep; [done|..]; naive_solver congruence. Qed.

Lemma indexed_deleted m p t x t' :
  indexed m p t -> rb_delete x t = Some t' -> exists a, m !! x = Some a /\ f a = Some p.
Proof. intros (_ & _ & Hm) Hd%rb_delete_in. by apply Hm in Hd. Qed.

Lemma indexed_delete_other m p t x a :
  indexed m p t -> m !! x = Some a -> f a <> Some p -> indexed (delete x m) p t.
Proof. intros Hi Ha Hf. apply indexed_keep; [done|..]; naive_solver congruence. Qed.

Lemma indexed_insert m p t cmp x b ctx :
  indexed m p t -> m !! x = None -> f b = Some p ->
  (forall y a, m !! y = Some a -> f a = Some p -> cmp y = Some (k b ?= k a)) ->
  rb_descend cmp t [] = Some (E, ctx) ->
  exists t', rb_insert_color (rb_link_node x) ctx = Some t' /\ indexed (<[x := b]> m) p t'.
Proof.
  intros Hi Hx Fb Hc Hd.
  destruct (index_insert (key_in m) (key_in (<[x := b]> m)) (owned m p) t cmp (k b) x ctx) as (t' & Ht' & Hi'); try done.
  - intros y (a & Ha & Fa). unfold key_in. rewrite Ha. by apply Hc.
  - by intros (a & Ha & _); simplify_eq.
  - intros y (a & Ha & _). apply key_in_ne. congruence.
  - unfold key_in. by rewrite lookup_insert_eq.
  - exists t'. split; [done|]. eapply index_ext; [exact Hi'|done|]. intros y. unfold owned.
    destruct (decide (y = x)) as [->|Hne].
    + rewrite lookup_insert_eq. naive_solver.
    + rewrite lookup_insert_ne by done. naive_solver.
Qed.

Lemma indexed_linked m p t cmp x b ctx t' :
  indexed m p t -> m !! x = None -> f b = Some p ->
  (forall y a, m !! y = Some a -> f a = Some p -> cmp y = Some (k b ?= k a)) ->
  rb_descend cmp t [] = Some (E, ctx) -> rb_insert_color (rb_link_node x) ctx = Some t' ->
  indexed (<[x := b]> m) p t'.
Proof.
  intros Hi Hx Fb Hc Hd Ht. destruct (indexed_insert m p t cmp x b ctx) as (t2 & Ht2 & Hi2); [done..|].
  by simplify_eq.
Qed.

Lemma indexed_insert_by m p t cmp x b :
  indexed m p t -> m !! x = None -> f b = Some p ->
  (forall y a, m !! y = Some a -> f a = Some p -> cmp y = Some (k b ?= k a)) ->
  (forall y a, m !! y = Some a -> f a = Some p -> k a <> k b) ->
  exists t', rb_insert_by cmp x t = Some t' /\ indexed (<[x := b]> m) p t'.
Proof.
  intros Hi Hx Fb Hc Hne.
  destruct (index_descend (key_in m) (owned m p) t cmp (k b)) as [(y & c & l & r & ctx & _ & (a & Ha & Fa) & Ey)|(ctx & Hd & _)].
  - done.
  - intros y (a & Ha & Fa). unfold key_in. rewrite Ha. by apply Hc.
  - unfold key_in in Ey. rewrite Ha in Ey. by apply (Hne y a) in Ey.
  - unfold rb_insert_by. rewrite Hd. cbn. by apply (indexed_insert m p t cmp).
Qed.

Lemma indexed_inserted m p t cmp x b t' :
  indexed m p t -> m !! x = None -> f b = Some p ->
  (forall y a, m !! y = Some a -> f a = Some p -> cmp y = Some (k b ?= k a)) ->
  rb_insert_by cmp x t = Some t' -> indexed (<[x := b]> m) p t'.
Proof.
  intros Hi Hx Fb Hc Ht. unfold rb_insert_by in Ht.
  destruct (rb_descend cmp t []) as [[[|] ctx]|] eqn:Hd; cbn in Ht; [|done|done].
  by eapply indexed_linked.
Qed.

Lemma indexed_remove m p t x a (o : option A) :
  indexed m p t -> m !! x = Some a -> f a = Some p -> (forall b, o = Some b -> f b <> Some p) ->
  exists t', rb_delete x t = Some t' /\ indexed (partial_alter (fun _ => o) x m) p t'.
Proof.
  intros Hi Ha Fa Ho. destruct (index_delete _ _ _ x Hi) as (t' & Hd & Hi'); [by exists a|].
  exists t'. split; [done|]. eapply index_ext; [exact Hi'| |].
  - intros y [Hne _]. unfold key_in. by rewrite lookup_partial_alter_ne.
  - intros y. unfold owned. destruct (decide (y = x)) as [->|Hne].
    + rewrite lookup_partial_alter_eq. naive_solver.
    + rewrite lookup_partial_alter_ne by done. naive_solver.
Qed.

Lemma indexed_delete m p t x a :
  indexed m p t -> m !! x = Some a -> f a = Some p ->
  exists t', rb_delete x t = Some t' /\ indexed (delete x m) p t'.
Proof. intros Hi Ha Fa. by apply (indexed_remove m p t x a None). Qed.

Lemma indexed_disown m p t x a b :
  indexed m p t -> m !! x = Some a -> f a = Some p -> f b <> Some p ->
  exists t', rb_delete x t = Some t' /\ indexed (<[x := b]> m) p t'.
Proof. intros Hi Ha Fa Hb. apply (indexed_remove m p t x a (Some b)); [done..|]. naive_solver. Qed.

(** A descent by key. *)
Lemma indexed_descend m p t cmp key :
  indexed m p t -> (forall y a, m !! y = Some a -> f a = Some p -> cmp y = Some (key ?= k a)) ->
  (exists x a c l r ctx, rb_descend cmp t [] = Some (T c l x r, ctx) /\ m !! x = Some a /\ f a = Some p /\ k a = key) \/
  (exists ctx, rb_descend cmp t [] = Some (E, ctx) /\ (forall x a, m !! x = Some a -> f a = Some p -> k a <> key)).
Proof.
  intros Hi Hc. destruct (index_descend (key_in m) (owned m p) t cmp key)
    as [(x & c & l & r & ctx & Hd & (a & Ha & Fa) & Ex)|(ctx & Hd & _ & Hne)].
  - done.
  - intros y (a & Ha & Fa). unfold key_in. rewrite Ha. by apply Hc.
  - left. exists x, a, c, l, r, ctx. unfold key_in in Ex. by rewrite Ha in Ex.
  - right. exists ctx. split; [done|]. intros x a Ha Fa. specialize (Hne x (ex_intro _ a (conj Ha Fa))).
    unfold key_in in Hne. by rewrite Ha in Hne.
Qed.

Lemma indexed_key_inj m p t x y a b :
  indexed m p t -> m !! x = Some a -> m !! y = Some b -> f a = Some p -> f b = Some p -> k a = k b -> x = y.
Proof.
  intros Hi Ha Hb Fa Fb Hk. apply (index_key_inj (key_in m) (owned m p) t); [done|by exists a|by exists b|].
  unfold key_in. by rewrite Ha, Hb.
Qed.

Lemma indexed_empty m p : (forall x a, m !! x = Some a -> f a <> Some p) -> indexed m p E.
Proof. intros H. apply index_empty. intros x (a & Ha & Fa). by apply (H x a). Qed.
Lemma indexed_nothing m p : indexed m p E -> forall x a, m !! x = Some a -> f a <> Some p.
Proof. intros Hi x a Ha Fa. apply (index_nothing _ _ Hi x). by exists a. Qed.
End table.
