(* ===== verification/BinderAlloc.v ===== *)
(** * The buffer allocator of binder (drivers/staging/android/binder.c)

    Every process that maps /dev/binder gets an address range in the kernel,
    mapped into the process as well, from which the driver allocates the buffers
    of incoming transactions.  The range is cut into buffers, each a header
    ([struct binder_buffer], 40 bytes) followed by its data; the headers form a
    list by address, the free ones a tree by size and the allocated ones a tree
    by address.  Only the pages that hold a header or the data of an allocated
    buffer are present.

    [binder_alloc] holds the fields of [struct binder_proc] that belong to the
    allocator.  A buffer is known by the address of its header.  [None] stands
    for a failing [BUG_ON], for an access to a header on a page that is not
    present and for an access outside of [proc->pages]. *)

From stdpp Require Import base numbers list gmap.
From S2P Require Import Prelude RbTree RbKeyed.

Open Scope Z_scope.

(** ** Data *)

Record binder_buffer := BinderBuffer {
  bb_free : bool;
  allow_user_free : bool;
  async_transaction : bool;
  bb_debug_id : Z;
  bb_transaction : option Z;
  target_node : option Z;
  data_size : Z;
  offsets_size : Z }.

Definition sizeof_buffer : Z := 40.
Definition buffer_data (b : Z) : Z := b + sizeof_buffer.

Record vm_area := VmArea { vm_start : Z; vm_end : Z; vm_flags : Z }.

Record binder_alloc := BinderAlloc {
  vma : option vm_area;
  buffer : Z;                           (* 0 when nothing is mapped *)
  user_buffer_offset : Z;
  buffers : list Z;
  headers : gmap Z binder_buffer;
  free_buffers : tree Z;
  allocated_buffers : tree Z;
  free_async_space : Z;
  pages : list bool;                    (* whether pages[i] is there *)
  buffer_size : Z }.

Definition set_pages (s : binder_alloc) (pg : list bool) : binder_alloc :=
  BinderAlloc (vma s) (buffer s) (user_buffer_offset s) (buffers s) (headers s) (free_buffers s)
    (allocated_buffers s) (free_async_space s) pg (buffer_size s).
Definition set_buffers (s : binder_alloc) (l : list Z) (h : gmap Z binder_buffer) : binder_alloc :=
  BinderAlloc (vma s) (buffer s) (user_buffer_offset s) l h (free_buffers s)
    (allocated_buffers s) (free_async_space s) (pages s) (buffer_size s).
Definition set_free_buffers (s : binder_alloc) (t : tree Z) : binder_alloc :=
  BinderAlloc (vma s) (buffer s) (user_buffer_offset s) (buffers s) (headers s) t
    (allocated_buffers s) (free_async_space s) (pages s) (buffer_size s).
Definition set_allocated_buffers (s : binder_alloc) (t : tree Z) : binder_alloc :=
  BinderAlloc (vma s) (buffer s) (user_buffer_offset s) (buffers s) (headers s) (free_buffers s)
    t (free_async_space s) (pages s) (buffer_size s).
Definition set_async_space (s : binder_alloc) (n : Z) : binder_alloc :=
  BinderAlloc (vma s) (buffer s) (user_buffer_offset s) (buffers s) (headers s) (free_buffers s)
    (allocated_buffers s) n (pages s) (buffer_size s).
Definition set_header (s : binder_alloc) (b : Z) (h : binder_buffer) : binder_alloc :=
  set_buffers s (buffers s) (<[b := h]> (headers s)).

Definition set_bb_free (f : bool) (h : binder_buffer) : binder_buffer :=
  BinderBuffer f (allow_user_free h) (async_transaction h) (bb_debug_id h) (bb_transaction h)
    (target_node h) (data_size h) (offsets_size h).
Definition set_sizes (ds os : Z) (async : bool) (h : binder_buffer) : binder_buffer :=
  BinderBuffer (bb_free h) (allow_user_free h) async (bb_debug_id h) (bb_transaction h)
    (target_node h) ds os.

Definition set_transaction (t : option Z) (h : binder_buffer) : binder_buffer :=
  BinderBuffer (bb_free h) (allow_user_free h) (async_transaction h) (bb_debug_id h) t
    (target_node h) (data_size h) (offsets_size h).
Definition set_allow_user_free (f : bool) (h : binder_buffer) : binder_buffer :=
  BinderBuffer (bb_free h) f (async_transaction h) (bb_debug_id h) (bb_transaction h)
    (target_node h) (data_size h) (offsets_size h).
Definition set_delivery (id : Z) (t node : option Z) (h : binder_buffer) : binder_buffer :=
  BinderBuffer (bb_free h) false (async_transaction h) id t node (data_size h) (offsets_size h).

(** What the rest of the kernel decides: whether the process still has an
    address space, what happens to each page, and what is in the memory of a
    header that is about to be made. *)
Inductive page_event := PageOk | NoPage | NoKernelMap | NoUserMap.
Record page_env := PageEnv {
  pe_mm : bool;
  pe_event : Z -> page_event;
  pe_stale : Z -> binder_buffer }.

(** ** Pages and headers *)

Definition page_get (s : binder_alloc) (a : Z) : option bool :=
  if a <? buffer s then None else pages s !! Z.to_nat ((a - buffer s) / PAGE_SIZE).
Definition page_set (s : binder_alloc) (a : Z) (p : bool) : binder_alloc :=
  set_pages s (<[Z.to_nat ((a - buffer s) / PAGE_SIZE) := p]> (pages s)).
Definition mapped (s : binder_alloc) (a : Z) : bool := default false (page_get s a).

(** A header is read: all its bytes are on pages that are there. *)
Definition header (s : binder_alloc) (b : Z) : option binder_buffer :=
  if mapped s b && mapped s (b + sizeof_buffer - 1) then headers s !! b else None.

(** The neighbours on the list. *)
Fixpoint next_in (l : list Z) (b : Z) : option Z :=
  match l with
  | x :: l' => if x =? b then head l' else next_in l' b
  | [] => None
  end.
Fixpoint prev_in (l : list Z) (b : Z) : option Z :=
  match l with
  | x :: (y :: _) as l' => if y =? b then Some x else prev_in l' b
  | _ => None
  end.
Definition list_is_last (l : list Z) (b : Z) : bool := bool_decide (last l = Some b).
Fixpoint list_add_after (l : list Z) (b new : Z) : list Z :=
  match l with
  | x :: l' => if x =? b then x :: new :: l' else x :: list_add_after l' b new
  | [] => []
  end.

Definition binder_buffer_size (s : binder_alloc) (b : Z) : option Z :=
  if list_is_last (buffers s) b then Some (u32 (buffer s + buffer_size s - buffer_data b))
  else next ← next_in (buffers s) b; Some (u32 (next - buffer_data b)).

(** ** The trees *)

Definition binder_insert_free_buffer (s : binder_alloc) (new : Z) : option binder_alloc :=
  h ← header s new;
  if negb (bb_free h) then None else
  new_size ← binder_buffer_size s new;
  t ← rb_insert_by (fun b =>
        h ← header s b;
        if negb (bb_free h) then None else
        size ← binder_buffer_size s b;
        Some (if new_size <? size then Lt else Gt)) new (free_buffers s);
  Some (set_free_buffers s t).

Definition binder_insert_allocated_buffer (s : binder_alloc) (new : Z) : option binder_alloc :=
  h ← header s new;
  if bb_free h then None else
  t ← rb_insert_by (fun b =>
        h ← header s b;
        if bb_free h then None else Some (new ?= b)) new (allocated_buffers s);
  Some (set_allocated_buffers s t).

(** [None] inside: no allocated buffer has its data at this user address. *)
Definition binder_buffer_lookup (s : binder_alloc) (user_ptr : Z) : option (option Z) :=
  let kern_ptr := u32 (user_ptr - user_buffer_offset s - sizeof_buffer) in
  '(p, _) ← rb_descend (fun b =>
        h ← header s b;
        if bb_free h then None else Some (kern_ptr ?= b)) (allocated_buffers s) [];
  Some match p with T _ _ b _ => Some b | E => None end.

(** ** Pages *)

(** mm/memory.c: an address outside of the area is refused. *)
Definition vm_insert_page (v : vm_area) (addr : Z) (e : page_event) : bool :=
  (vm_start v <=? addr) && (addr <? vm_end v) &&
  match e with NoUserMap => false | _ => true end.

(** The loop behind [free_range], from [page_addr] down to [start]. *)
Fixpoint free_pages (fuel : nat) (s : binder_alloc) (page_addr start : Z) : option binder_alloc :=
  if page_addr <? start then Some s else
  match fuel with
  | O => None
  | S fuel' =>
      present ← page_get s page_addr;
      if present : bool then free_pages fuel' (page_set s page_addr false) (page_addr - PAGE_SIZE) start
      else None
  end.

Definition page_count (start stop : Z) : nat := Z.to_nat ((stop - start) / PAGE_SIZE + 1).

(** The allocating loop.  A page that was allocated and could not be mapped is
    freed again where the error labels enter the loop above, which then goes on
    with the pages before it. *)
Fixpoint alloc_pages (fuel : nat) (env : page_env) (v : vm_area) (s : binder_alloc)
    (page_addr start stop : Z) : option (binder_alloc * Z) :=
  if stop <=? page_addr then Some (s, 0) else
  match fuel with
  | O => None
  | S fuel' =>
      present ← page_get s page_addr;
      if present : bool then None else
      let undo := s' ← free_pages (page_count start stop) s (page_addr - PAGE_SIZE) start;
                  Some (s', - ENOMEM) in
      match pe_event env page_addr with
      | NoPage | NoKernelMap => undo
      | e =>
          if vm_insert_page v (u32 (page_addr + user_buffer_offset s)) e
          then alloc_pages fuel' env v (page_set s page_addr true) (page_addr + PAGE_SIZE) start stop
          else undo
      end
  end.

Definition binder_update_page_range (env : page_env) (s : binder_alloc) (allocate : bool)
    (start stop : Z) (area : option vm_area) : option (binder_alloc * Z) :=
  if stop <=? start then Some (s, 0) else
  let v := match area with
           | Some v => Some v
           | None => if pe_mm env then vma s else None
           end in
  if allocate then
    match v with
    | None => Some (s, - ENOMEM)
    | Some v => alloc_pages (page_count start stop) env v s start start stop
    end
  else
    s' ← free_pages (page_count start stop) s (stop - PAGE_SIZE) start;
    Some (s', - ENOMEM).

(** ** Allocation *)

(** [ALIGN(x, sizeof(void * ))] on a [size_t]. *)
Definition ALIGN (x : Z) : Z := u32 (Z.land (u32 (x + 3)) (Z.lnot 3)).
Definition alloc_size (ds os : Z) : Z := u32 (ALIGN ds + ALIGN os).

(** The best fit, and whether it fits exactly. *)
Fixpoint best_fit_loop (s : binder_alloc) (size : Z) (n : tree Z) (best_fit : option Z)
    : option (option Z * bool) :=
  match n with
  | E => Some (best_fit, false)
  | T _ l b r =>
      h ← header s b;
      if negb (bb_free h) then None else
      bsize ← binder_buffer_size s b;
      if size <? bsize then best_fit_loop s size l (Some b)
      else if bsize <? size then best_fit_loop s size r best_fit
      else Some (Some b, true)
  end.

(** The end of the pages to allocate for a buffer [b] of [bsize] bytes of which
    [used] are taken. *)
Definition end_page (b bsize used : Z) : Z :=
  let has_page_addr := Z.land (u32 (buffer_data b + bsize)) PAGE_MASK in
  let end_page_addr := PAGE_ALIGN (buffer_data b + used) in
  if has_page_addr <? end_page_addr then has_page_addr else end_page_addr.

(** The part of [binder_alloc_buf] after the pages are there. *)
Definition take_buffer (env : page_env) (s : binder_alloc) (b size used : Z) (ds os : Z)
    (is_async : bool) : option binder_alloc :=
  t ← rb_delete b (free_buffers s);
  h ← header s b;
  s1 ← binder_insert_allocated_buffer (set_header (set_free_buffers s t) b (set_bb_free false h)) b;
  s2 ← (if used =? size then Some s1 else
        let new := buffer_data b + size in
        binder_insert_free_buffer
          (set_buffers s1 (list_add_after (buffers s1) b new)
             (<[new := set_bb_free true (pe_stale env new)]> (headers s1))) new);
  h ← header s2 b;
  let s3 := set_header s2 b (set_sizes ds os is_async h) in
  Some (if is_async
        then set_async_space s3 (u32 (free_async_space s3 - u32 (size + sizeof_buffer)))
        else s3).

Definition binder_alloc_buf (env : page_env) (s : binder_alloc) (ds os : Z) (is_async : bool)
    : option (binder_alloc * option Z) :=
  match vma s with
  | None => Some (s, None)
  | Some _ =>
      let size := alloc_size ds os in
      if (size <? ds) || (size <? os) then Some (s, None)
      else if is_async && (free_async_space s <? u32 (size + sizeof_buffer)) then Some (s, None)
      else
        '(best_fit, exact) ← best_fit_loop s size (free_buffers s) None;
        match best_fit with
        | None => Some (s, None)
        | Some b =>
            bsize ← binder_buffer_size s b;
            let used :=
              if exact : bool then bsize
              else if bsize <=? u32 (size + sizeof_buffer + 4) then size   (* no room for other buffers *)
              else u32 (size + sizeof_buffer) in
            '(s1, err) ← binder_update_page_range env s true (PAGE_ALIGN (buffer_data b))
                           (end_page b bsize used) None;
            if negb (err =? 0) then Some (s1, None)
            else
              s2 ← take_buffer env s1 b size used ds os is_async;
              Some (s2, Some b)
        end
  end.

(** ** Release *)

Definition buffer_start_page (b : Z) : Z := Z.land b PAGE_MASK.
Definition buffer_end_page (b : Z) : Z := Z.land (b + sizeof_buffer - 1) PAGE_MASK.

(** Which of the pages of the header go: the first and the last one. *)
Definition header_pages_free (prev : Z) (b : Z) (next : option Z) : bool * bool :=
  let '(free_start, free_end) :=
    if buffer_end_page prev =? buffer_start_page b
    then (false, negb (buffer_end_page prev =? buffer_end_page b)) else (true, true) in
  match next with
  | Some n =>
      if buffer_start_page n =? buffer_end_page b
      then (if buffer_start_page n =? buffer_start_page b then false else free_start, false)
      else (free_start, free_end)
  | None => (free_start, free_end)
  end.

Definition binder_delete_free_buffer (env : page_env) (s : binder_alloc) (b : Z) : option binder_alloc :=
  if bool_decide (head (buffers s) = Some b) then None else
  prev ← prev_in (buffers s) b;
  h ← header s prev;
  if negb (bb_free h) then None else
  let next := if list_is_last (buffers s) b then None else next_in (buffers s) b in
  let '(free_page_start, free_page_end) := header_pages_free prev b next in
  let s1 := set_buffers s (list_del b (buffers s)) (delete b (headers s)) in
  if free_page_start || free_page_end then
    '(s2, _) ← binder_update_page_range env s1 false
      (if free_page_start then buffer_start_page b else buffer_end_page b)
      ((if free_page_end then buffer_end_page b else buffer_start_page b) + PAGE_SIZE) None;
    Some s2
  else Some s1.

(** The merge with the buffer behind, if that is free. *)
Definition merge_next (env : page_env) (s : binder_alloc) (b : Z) : option binder_alloc :=
  if list_is_last (buffers s) b then Some s else
  next ← next_in (buffers s) b;
  h ← header s next;
  if bb_free h then
    t ← rb_delete next (free_buffers s);
    binder_delete_free_buffer env (set_free_buffers s t) next
  else Some s.

(** The merge with the buffer in front, if that is free; the result is the
    buffer that stays. *)
Definition merge_prev (env : page_env) (s : binder_alloc) (b : Z) : option (binder_alloc * Z) :=
  if bool_decide (head (buffers s) = Some b) then Some (s, b) else
  prev ← prev_in (buffers s) b;
  h ← header s prev;
  if bb_free h then
    s1 ← binder_delete_free_buffer env s b;
    t ← rb_delete prev (free_buffers s1);
    Some (set_free_buffers s1 t, prev)
  else Some (s, b).

Definition binder_free_buf (env : page_env) (s : binder_alloc) (b : Z) : option binder_alloc :=
  bsize ← binder_buffer_size s b;
  h ← header s b;
  let size := alloc_size (data_size h) (offsets_size h) in
  if bb_free h || (bsize <? size) || bool_decide (is_Some (bb_transaction h)) ||
     (b <? buffer s) || (buffer s + buffer_size s <? b) then None
  else
    let s1 := if async_transaction h
              then set_async_space s (u32 (free_async_space s + u32 (size + sizeof_buffer))) else s in
    '(s2, _) ← binder_update_page_range env s1 false (PAGE_ALIGN (buffer_data b))
                 (Z.land (u32 (buffer_data b + bsize)) PAGE_MASK) None;
    t ← rb_delete b (allocated_buffers s2);
    h' ← header s2 b;
    s3 ← merge_next env (set_header (set_allocated_buffers s2 t) b (set_bb_free true h')) b;
    '(s4, b') ← merge_prev env s3 b;
    binder_insert_free_buffer s4 b'.

(** ** Mapping the device *)

Definition SZ_4M : Z := 4194304.
Definition VM_WRITE : Z := 2.
Definition VM_MAYWRITE : Z := 32.
Definition VM_DONTCOPY : Z := 131072.

(** arch/arm: the two address bits above the page that select the cache colour. *)
Definition CACHE_COLOUR (a : Z) : Z := Z.shiftr (Z.land a 16383) 12.

Fixpoint colour_loop (fuel : nat) (start buf : Z) : option Z :=
  if CACHE_COLOUR (Z.lxor start buf) =? 0 then Some start else
  match fuel with
  | O => None
  | S fuel' => colour_loop fuel' (u32 (start + PAGE_SIZE)) buf
  end.

(** [area]: the kernel addresses [get_vm_area] reserves; [array]: whether the
    page array can be allocated. *)
Definition binder_mmap (env : page_env) (s : binder_alloc) (v : vm_area) (area : option Z) (array : bool)
    : option (binder_alloc * vm_area * Z) :=
  let v1 := if SZ_4M <? u32 (vm_end v - vm_start v)
            then VmArea (vm_start v) (u32 (vm_start v + SZ_4M)) (vm_flags v) else v in
  if negb (Z.land (vm_flags v1) VM_WRITE =? 0) then Some (s, v1, - EPERM) else
  let v2 := VmArea (vm_start v1) (vm_end v1)
              (Z.ldiff (Z.lor (vm_flags v1) VM_DONTCOPY) VM_MAYWRITE) in
  if negb (buffer s =? 0) then Some (s, v2, - EBUSY) else
  match area with
  | None => Some (s, v2, - ENOMEM)
  | Some addr =>
      start ← colour_loop 4 (vm_start v2) addr;
      let v3 := VmArea start (vm_end v2) (vm_flags v2) in
      let size := u32 (vm_end v3 - vm_start v3) in
      let offset := vm_start v2 - addr in
      if negb array then
        Some (BinderAlloc (vma s) 0 offset (buffers s) (headers s) (free_buffers s)
                (allocated_buffers s) (free_async_space s) [] (buffer_size s), v3, - ENOMEM)
      else
        let s1 := BinderAlloc (vma s) addr offset (buffers s) (headers s) (free_buffers s)
                    (allocated_buffers s) (free_async_space s)
                    (replicate (Z.to_nat (size / PAGE_SIZE)) false) size in
        '(s2, err) ← binder_update_page_range env s1 true addr (addr + PAGE_SIZE) (Some v3);
        if negb (err =? 0) then
          Some (BinderAlloc (vma s) 0 offset (buffers s) (headers s) (free_buffers s)
                  (allocated_buffers s) (free_async_space s) [] size, v3, - ENOMEM)
        else
          s3 ← binder_insert_free_buffer
                 (set_buffers s2 [addr] {[ addr := set_bb_free true (pe_stale env addr) ]}) addr;
          Some (BinderAlloc (Some v3) (buffer s3) (user_buffer_offset s3) (buffers s3) (headers s3)
                  (free_buffers s3) (allocated_buffers s3) (size / 2) (pages s3) (buffer_size s3),
                v3, 0)
  end.

(** A process that opened the device and has not mapped it. *)
Definition unmapped : binder_alloc := BinderAlloc None 0 0 [] ∅ E E 0 [] 0.
