(* ===== verification/BinderLayout.v ===== *)
(** * Binder buffers: the layout of the range

    [view]s of the allocator: the buffers with their headers, by address.  The
    file says what it means for a list of buffers to tile the range
    ([chain]), which pages it needs ([needed]), and what the list functions and
    the page loops of the model do in these terms. *)

From stdpp Require Import base numbers list gmap.
From S2P Require Import Prelude RbTree RbKeyed BinderAlloc.

Open Scope Z_scope.

Abbreviation view := (list (Z * binder_buffer)).

Implicit Types (v : view) (b : Z) (h : binder_buffer) (s : binder_alloc).

Definition start_of v (hi : Z) : Z := match v with [] => hi | (b, _) :: _ => b end.

(** Consecutive buffers up to [hi], each with room for its header. *)
Fixpoint chain v (hi : Z) : Prop :=
  match v with
  | [] => True
  | (b, _) :: v' => b + sizeof_buffer <= start_of v' hi /\ chain v' hi
  end.

Definition frees v : list Z := omap (fun p => if bb_free p.2 then Some p.1 else None) v.
Definition taken v : list Z := omap (fun p => if bb_free p.2 then None else Some p.1) v.

(** No two neighbours are both free. *)
Fixpoint merged v : Prop :=
  match v with
  | (_, h) :: ((_, h') :: _) as v' => (bb_free h && bb_free h' = false) /\ merged v'
  | _ => True
  end.

(** The pages of the headers and of the data of allocated buffers. *)
Definition holds_page (b last p : Z) : Prop := b / PAGE_SIZE <= p <= (last - 1) / PAGE_SIZE.
Definition used_end b h (next : Z) : Z := if bb_free h then b + sizeof_buffer else next.
Fixpoint needed v (hi p : Z) : Prop :=
  match v with
  | [] => False
  | (b, h) :: v' => holds_page b (used_end b h (start_of v' hi)) p \/ needed v' hi p
  end.

(** What asynchronous transactions hold. *)
Definition cost h : Z :=
  if negb (bb_free h) && async_transaction h
  then alloc_size (data_size h) (offsets_size h) + sizeof_buffer else 0.
Definition async_used v : Z := foldr (fun p n => cost p.2 + n) 0 v.

(** Linear arithmetic with division by the page size. *)
Ltac plia := unfold holds_page, buffer_data, PAGE_SIZE, sizeof_buffer in *; Z.to_euclidean_division_equations; lia.

(** ** Views *)

Lemma frees_app v1 v2 : frees (v1 ++ v2) = frees v1 ++ frees v2.
Proof. apply omap_app. Qed.
Lemma taken_app v1 v2 : taken (v1 ++ v2) = taken v1 ++ taken v2.
Proof. apply omap_app. Qed.
Lemma frees_cons b h v : frees ((b, h) :: v) = (if bb_free h then [b] else []) ++ frees v.
Proof. unfold frees. cbn. by destruct (bb_free h). Qed.
Lemma taken_cons b h v : taken ((b, h) :: v) = (if bb_free h then [] else [b]) ++ taken v.
Proof. unfold taken. cbn. by destruct (bb_free h). Qed.
Create Rewrite HintDb view.
#[export] Hint Rewrite frees_app taken_app frees_cons taken_cons : view.

Lemma elem_of_frees v b : b ∈ frees v <-> exists h, (b, h) ∈ v /\ bb_free h = true.
Proof.
  unfold frees. rewrite list_elem_of_omap. split.
  - intros ([b' h] & Hin & H). cbn in H. destruct (bb_free h) eqn:?; naive_solver.
  - intros (h & Hin & H). exists (b, h). cbn. by rewrite H.
Qed.
Lemma elem_of_taken v b : b ∈ taken v <-> exists h, (b, h) ∈ v /\ bb_free h = false.
Proof.
  unfold taken. rewrite list_elem_of_omap. split.
  - intros ([b' h] & Hin & H). cbn in H. destruct (bb_free h) eqn:?; naive_solver.
  - intros (h & Hin & H). exists (b, h). cbn. by rewrite H.
Qed.

Lemma start_of_app v1 v2 hi : start_of (v1 ++ v2) hi = start_of v1 (start_of v2 hi).
Proof. by destruct v1 as [|[b h] v1]. Qed.
Lemma start_of_head v hi : start_of v hi = default hi (head v.*1).
Proof. by destruct v as [|[b h] v]. Qed.

Lemma chain_app v1 v2 hi : chain (v1 ++ v2) hi <-> chain v1 (start_of v2 hi) /\ chain v2 hi.
Proof.
  induction v1 as [|[b h] v1 IH]; cbn; [naive_solver|]. rewrite IH, start_of_app. naive_solver.
Qed.
Lemma needed_app v1 v2 hi p :
  needed (v1 ++ v2) hi p <-> needed v1 (start_of v2 hi) p \/ needed v2 hi p.
Proof.
  induction v1 as [|[b h] v1 IH]; cbn; [naive_solver|]. rewrite IH, start_of_app. naive_solver.
Qed.
Lemma async_used_app v1 v2 : async_used (v1 ++ v2) = async_used v1 + async_used v2.
Proof. unfold async_used. induction v1 as [|[b h] v1 IH]; cbn; [done|]. rewrite IH. lia. Qed.

Lemma merged_app_inv v1 v2 : merged (v1 ++ v2) -> merged v1 /\ merged v2.
Proof.
  induction v1 as [|[b h] v1 IH]; cbn; [done|].
  destruct v1 as [|[b' h'] v1]; cbn in *; [destruct v2 as [|[]]; naive_solver|]. naive_solver.
Qed.

(** [v1] and [v2] meet at a boundary that is not between two free buffers. *)
Definition last_free v : bool := match last v with Some (_, h) => bb_free h | None => false end.
Definition first_free v : bool := match v with (_, h) :: _ => bb_free h | [] => false end.

Lemma merged_app v1 v2 :
  merged (v1 ++ v2) <-> merged v1 /\ merged v2 /\ last_free v1 && first_free v2 = false.
Proof.
  unfold last_free. induction v1 as [|[b h] v1 IH]; cbn [app].
  - cbn. naive_solver.
  - destruct v1 as [|[b' h'] v1].
    + cbn. destruct v2 as [|[b2 h2] v2]; cbn; [|naive_solver]. rewrite andb_false_r. naive_solver.
    + rewrite last_cons_cons. cbn [merged app] in *. rewrite IH. naive_solver.
Qed.
Lemma merged_cons b h v : merged ((b, h) :: v) <-> merged v /\ bb_free h && first_free v = false.
Proof.
  destruct v as [|[b' h'] v]; cbn; [|naive_solver]. rewrite andb_false_r. naive_solver.
Qed.
Lemma last_free_snoc v b h : last_free (v ++ [(b, h)]) = bb_free h.
Proof. unfold last_free. by rewrite last_snoc. Qed.

Lemma chain_le v hi : chain v hi -> start_of v hi <= hi.
Proof.
  induction v as [|[b h] v IH]; cbn; [lia|]. intros [H1 H2]. specialize (IH H2). unfold sizeof_buffer in *. lia.
Qed.
Lemma chain_in v hi b h : chain v hi -> (b, h) ∈ v -> start_of v hi <= b /\ b + sizeof_buffer <= hi.
Proof.
  induction v as [|[b' h'] v IH]; intros Hc Hin; [by apply not_elem_of_nil in Hin|].
  destruct Hc as [H1 H2]. pose proof (chain_le _ _ H2). cbn [start_of].
  apply elem_of_cons in Hin as [[= -> ->]|Hin]; [lia|].
  specialize (IH H2 Hin). unfold sizeof_buffer in *. lia.
Qed.

Lemma chain_NoDup v hi : chain v hi -> NoDup v.*1.
Proof.
  induction v as [|[b h] v IH]; cbn; [by constructor|]. intros [H1 H2].
  constructor; [|by apply IH]. intros ([b' h'] & -> & Hin)%list_elem_of_fmap.
  pose proof (chain_in v hi _ _ H2 Hin). cbn in *. unfold sizeof_buffer in *. lia.
Qed.

Lemma needed_bounds v hi p :
  chain v hi -> needed v hi p -> start_of v hi / PAGE_SIZE <= p <= (hi - 1) / PAGE_SIZE.
Proof.
  induction v as [|[b h] v IH]; [done|]. cbn [chain needed start_of]. intros [H1 H2] [Hp|Hp].
  - pose proof (chain_le _ _ H2). unfold used_end in Hp. destruct (bb_free h); plia.
  - specialize (IH H2 Hp). plia.
Qed.
Lemma needed_first v hi : v <> [] -> chain v hi -> needed v hi (start_of v hi / PAGE_SIZE).
Proof.
  destruct v as [|[b h] v]; [done|]. cbn. intros _ [H1 H2]. left. unfold used_end.
  destruct (bb_free h); plia.
Qed.

(** ** The list functions *)

Lemma next_in_at l1 b l2 : NoDup (l1 ++ b :: l2) -> next_in (l1 ++ b :: l2) b = head l2.
Proof.
  induction l1 as [|x l1 IH]; cbn; intros Hd; [by rewrite Z.eqb_refl|].
  apply NoDup_cons in Hd as [Hx Hd]. destruct (Z.eqb_spec x b) as [->|]; [|by apply IH].
  contradict Hx. apply elem_of_app. right. left.
Qed.

Lemma prev_in_at l1 p b l2 : NoDup (l1 ++ p :: b :: l2) -> prev_in (l1 ++ p :: b :: l2) b = Some p.
Proof.
  induction l1 as [|x l1 IH]; intros Hd; [cbn; by rewrite Z.eqb_refl|].
  cbn [app] in *. apply NoDup_cons in Hd as [Hx Hd]. specialize (IH Hd).
  destruct l1 as [|y l1]; cbn [app] in *.
  - cbn [prev_in] in *. destruct (Z.eqb_spec p b) as [->|]; [|done].
    apply NoDup_cons in Hd as [Hd _]. contradict Hd. left.
  - cbn [prev_in] in *. destruct (Z.eqb_spec y b) as [->|]; [|done].
    apply NoDup_cons in Hd as [Hd _]. contradict Hd. apply elem_of_app. right. right. left.
Qed.

Lemma is_last_at l1 b l2 : NoDup (l1 ++ b :: l2) -> list_is_last (l1 ++ b :: l2) b = bool_decide (l2 = []).
Proof.
  intros Hd. unfold list_is_last. destruct l2 as [|x l2] using rev_ind.
  - rewrite last_snoc. by rewrite !bool_decide_true.
  - clear IHl2. rewrite app_comm_cons, app_assoc, last_snoc.
    rewrite (bool_decide_false (l2 ++ [x] = [])) by (by destruct l2).
    apply bool_decide_false. intros [= ->]. apply NoDup_app in Hd as (_ & _ & Hd).
    apply NoDup_cons in Hd as [Hd _]. apply Hd. apply elem_of_app. right. left.
Qed.

Lemma head_at l1 b l2 :
  NoDup (l1 ++ b :: l2) -> bool_decide (head (l1 ++ b :: l2) = Some b) = bool_decide (l1 = []).
Proof.
  destruct l1 as [|x l1]; cbn [app head]; intros Hd; [by rewrite !bool_decide_true|].
  rewrite (bool_decide_false (x :: l1 = [])) by done. apply bool_decide_false. intros [= ->].
  apply NoDup_cons in Hd as [Hd _]. apply Hd. apply elem_of_app. right. left.
Qed.

Lemma add_after_at l1 b l2 new :
  NoDup (l1 ++ b :: l2) -> list_add_after (l1 ++ b :: l2) b new = l1 ++ b :: new :: l2.
Proof.
  induction l1 as [|x l1 IH]; cbn; intros Hd; [by rewrite Z.eqb_refl|].
  apply NoDup_cons in Hd as [Hx Hd]. destruct (Z.eqb_spec x b) as [->|]; [|by rewrite IH].
  contradict Hx. apply elem_of_app. right. left.
Qed.

Lemma list_del_at l1 b l2 : NoDup (l1 ++ b :: l2) -> list_del b (l1 ++ b :: l2) = l1 ++ l2.
Proof.
  intros Hd. apply NoDup_app in Hd as (_ & H1 & H2). apply NoDup_cons in H2 as [H2 _].
  rewrite list_del_app, list_del_head, !list_del_notin; [done|done|].
  intros Hb. apply (H1 b Hb). left.
Qed.

(** The successor of any other buffer does not change when the buffers right
    behind [b] do. *)
Lemma next_in_other l1 b m m' l2 x :
  x <> b -> x ∉ m -> x ∉ m' ->
  next_in (l1 ++ b :: m ++ l2) x = next_in (l1 ++ b :: m' ++ l2) x.
Proof.
  intros Hb Hm Hm'. assert (forall m, x ∉ m -> next_in (m ++ l2) x = next_in l2 x) as Hskip.
  { clear -x. induction m as [|y m IH]; cbn; intros Hx; [done|].
    apply not_elem_of_cons in Hx as [Hx ?]. rewrite (proj2 (Z.eqb_neq y x)) by done. by apply IH. }
  induction l1 as [|y l1 IH]; cbn.
  - rewrite (proj2 (Z.eqb_neq b x)) by done. by rewrite !Hskip.
  - destruct (y =? x); [|done]. by destruct l1.
Qed.

(** * Binder buffers: pages

    What the two loops of [binder_update_page_range] do to the set of pages
    that are there ([present]). *)

Implicit Types (pg : list bool) (p i j : Z).

Definition limit s : Z := buffer s + buffer_size s.
Definition present s p : Prop := page_get s (p * PAGE_SIZE) = Some true.

(** The kernel range: whole pages below 4 GB, with a slot for each. *)
Record region s : Prop := {
  rg_base : buffer s mod PAGE_SIZE = 0;
  rg_pos : 0 < buffer s;
  rg_size : buffer_size s mod PAGE_SIZE = 0;
  rg_nonempty : 0 < buffer_size s;
  rg_limit : limit s < 2 ^ 32;
  rg_pages : zlen (pages s) * PAGE_SIZE = buffer_size s }.

Lemma region_set_pages s pg : region s -> zlen pg = zlen (pages s) -> region (set_pages s pg).
Proof. intros [] H. split; try done. cbn. by rewrite H. Qed.

(** The region does not depend on the buffers and trees. *)
Lemma region_ext s s' :
  buffer s' = buffer s -> buffer_size s' = buffer_size s -> pages s' = pages s -> region s -> region s'.
Proof. intros H1 H2 H3 []. split; unfold limit in *; rewrite ?H1, ?H2, ?H3; done. Qed.

Lemma present_ext s s' p :
  buffer s' = buffer s -> pages s' = pages s -> present s' p <-> present s p.
Proof. intros H1 H2. unfold present, page_get. by rewrite H1, H2. Qed.

Lemma slot_page s p : region s -> (p * PAGE_SIZE - buffer s) / PAGE_SIZE = p - buffer s / PAGE_SIZE.
Proof. intros [H1 _ _ _ _ _]. plia. Qed.

Lemma slot_addr s a :
  region s -> (a - buffer s) / PAGE_SIZE = (a / PAGE_SIZE * PAGE_SIZE - buffer s) / PAGE_SIZE.
Proof. intros [H1 _ _ _ _ _]. plia. Qed.

Lemma page_get_page s a : region s -> page_get s a = page_get s (a / PAGE_SIZE * PAGE_SIZE).
Proof.
  intros Hr. unfold page_get. rewrite <- (slot_addr s a) by done.
  assert ((a / PAGE_SIZE * PAGE_SIZE <? buffer s) = (a <? buffer s)) as ->; [|done].
  destruct Hr as [H1 _ _ _ _ _]. apply eq_true_iff_eq. rewrite !Z.ltb_lt. plia.
Qed.

Lemma mapped_present s a : region s -> mapped s a = true <-> present s (a / PAGE_SIZE).
Proof.
  intros Hr. unfold mapped, present. rewrite (page_get_page s a) by done.
  destruct (page_get s _) as [[]|]; naive_solver.
Qed.

Lemma page_get_in s p :
  region s -> buffer s / PAGE_SIZE <= p < limit s / PAGE_SIZE -> exists x, page_get s (p * PAGE_SIZE) = Some x.
Proof.
  intros Hr Hp. unfold page_get. rewrite slot_page by done. destruct Hr as [H1 H2 H3 H4 H5 H6].
  rewrite (proj2 (Z.ltb_ge _ _)) by plia. apply lookup_lt_is_Some. unfold zlen, limit in *. plia.
Qed.

Lemma present_range s p : region s -> present s p -> buffer s / PAGE_SIZE <= p < limit s / PAGE_SIZE.
Proof.
  intros Hr H. unfold present, page_get in H. rewrite slot_page in H by done. destruct (Z.ltb_spec (p * PAGE_SIZE) (buffer s)); [done|].
  apply lookup_lt_Some in H. destruct Hr. unfold zlen, limit in *. plia.
Qed.

Lemma page_set_spec s q x :
  region s -> buffer s / PAGE_SIZE <= q < limit s / PAGE_SIZE ->
  exists pg, page_set s (q * PAGE_SIZE) x = set_pages s pg /\ zlen pg = zlen (pages s) /\
    forall p, present (set_pages s pg) p <-> if p =? q then x = true else present s p.
Proof.
  intros Hr Hq. eexists. split; [reflexivity|]. split; [unfold zlen; by rewrite length_insert|].
  intros p. unfold present, page_get. cbn [buffer set_pages pages]. rewrite !slot_page by done.
  destruct Hr as [H1 H2 H3 H4 H5 H6]. unfold zlen, limit in *.
  destruct (Z.ltb_spec (p * PAGE_SIZE) (buffer s)).
  - assert ((p =? q) = false) as -> by (apply Z.eqb_neq; plia). done.
  - destruct (Z.eqb_spec p q) as [->|Hne].
    + rewrite list_lookup_insert_eq by plia. naive_solver.
    + rewrite list_lookup_insert_ne; [done|]. plia.
Qed.

Lemma set_pages_twice s pg pg' : set_pages (set_pages s pg) pg' = set_pages s pg'.
Proof. done. Qed.

Lemma free_pages_spec n : forall s fuel i j,
  region s -> n = Z.to_nat (j - i) -> (n <= fuel)%nat -> (forall p, i <= p < j -> present s p) ->
  exists pg, free_pages fuel s ((j - 1) * PAGE_SIZE) (i * PAGE_SIZE) = Some (set_pages s pg) /\
    zlen pg = zlen (pages s) /\
    forall p, present (set_pages s pg) p <-> present s p /\ ~ (i <= p < j).
Proof.
  induction n as [|n IH]; intros s fuel i j Hr Hn Hf Hp.
  - exists (pages s). assert (set_pages s (pages s) = s) as Hs by (by destruct s).
    destruct fuel; cbn [free_pages]; rewrite (proj2 (Z.ltb_lt _ _)) by plia; rewrite Hs;
      (split; [done|]; split; [done|]; intros p; split; [intros; split; [done|lia]|by intros []]).
  - destruct fuel as [|fuel]; [lia|]. cbn [free_pages]. rewrite (proj2 (Z.ltb_ge _ _)) by plia.
    pose proof (Hp (j - 1)) as Hj. unfold present in Hj. rewrite Hj by lia. cbn.
    destruct (page_set_spec s (j - 1) false) as (pg & -> & Hl & Hpg).
    { done. } { apply present_range; [done|]. apply Hp. lia. }
    replace ((j - 1) * PAGE_SIZE - PAGE_SIZE) with ((j - 1 - 1) * PAGE_SIZE) by lia.
    destruct (IH (set_pages s pg) fuel i (j - 1)) as (pg' & -> & Hl' & Hpg');
      [by apply region_set_pages|lia|lia| |].
    { intros p Hi. apply Hpg. rewrite (proj2 (Z.eqb_neq _ _)) by lia. apply Hp. lia. }
    rewrite set_pages_twice in *. exists pg'. split; [done|]. split; [by rewrite Hl'|].
    intros p. rewrite Hpg', Hpg. destruct (Z.eqb_spec p (j - 1)); [naive_solver lia|].
    split; intros []; split; [done|lia|done|lia].
Qed.

(** Two page arrays of the region with the same pages are equal. *)
Lemma mapped_pages_ext s pg pg' :
  region s -> zlen pg = zlen (pages s) -> zlen pg' = zlen (pages s) ->
  (forall p, present (set_pages s pg) p <-> present (set_pages s pg') p) -> pg = pg'.
Proof.
  intros Hr H1 H2 Hp. unfold zlen in *. apply list_eq_same_length with (n := length (pages s)); [lia|lia|].
  intros k x y Hk Hx Hy. specialize (Hp (Z.of_nat k + buffer s / PAGE_SIZE)).
  unfold present, page_get in Hp. cbn [buffer set_pages pages] in Hp. rewrite !slot_page in Hp by done.
  replace (Z.to_nat (Z.of_nat k + buffer s / PAGE_SIZE - buffer s / PAGE_SIZE)) with k in Hp by lia.
  rewrite Hx, Hy in Hp. destruct Hr. rewrite (proj2 (Z.ltb_ge _ _)) in Hp by plia.
  destruct x, y; naive_solver.
Qed.

(** Page [p] cannot be allocated and mapped at its two places. *)
Definition page_fails (env : page_env) (v : vm_area) s p : Prop :=
  pe_event env (p * PAGE_SIZE) <> PageOk \/
  ~ (vm_start v <= u32 (p * PAGE_SIZE + user_buffer_offset s) < vm_end v).

(** The allocating loop at page [k]: it goes through to [j], or takes back what
    it allocated from [i] on. *)
Definition alloc_post env (v : vm_area) s i j k (o : option (binder_alloc * Z)) : Prop :=
  exists pg r, o = Some (set_pages s pg, r) /\ zlen pg = zlen (pages s) /\
    (r = 0 /\ (forall p, present (set_pages s pg) p <-> present s p \/ k <= p < j) \/
     r = - ENOMEM /\ (exists p, k <= p < j /\ page_fails env v s p) /\
       (forall p, present (set_pages s pg) p <-> present s p /\ ~ (i <= p < k))).

Lemma undo_post env (v : vm_area) s i j k :
  region s -> i <= k < j -> (forall p, i <= p < k -> present s p) -> page_fails env v s k ->
  alloc_post env v s i j k
    (s' ← free_pages (page_count (i * PAGE_SIZE) (j * PAGE_SIZE)) s (k * PAGE_SIZE - PAGE_SIZE) (i * PAGE_SIZE);
     Some (s', - ENOMEM)).
Proof.
  intros Hr Hk Hin Hfail. replace (k * PAGE_SIZE - PAGE_SIZE) with ((k - 1) * PAGE_SIZE) by lia.
  destruct (free_pages_spec (Z.to_nat (k - i)) s (page_count (i * PAGE_SIZE) (j * PAGE_SIZE)) i k)
    as (pg & -> & Hl & Hpg); [done|done|unfold page_count; plia|done|].
  exists pg, (- ENOMEM). cbn. split; [done|]. split; [done|]. right. split; [done|]. split; [|done].
  exists k. split; [lia|done].
Qed.

(** A page more, then the rest. *)
Lemma alloc_post_step env (v : vm_area) s pg i j k o :
  i <= k < j -> ~ present s k -> zlen pg = zlen (pages s) ->
  (forall p, present (set_pages s pg) p <-> if p =? k then true = true else present s p) ->
  alloc_post env v (set_pages s pg) i j (k + 1) o -> alloc_post env v s i j k o.
Proof.
  intros Hk Hout Hl Hpg (pg' & r & -> & Hl' & Hr). rewrite set_pages_twice in *.
  exists pg', r. split; [done|]. split; [by rewrite Hl'|].
  destruct Hr as [[-> Hr]|(-> & (q & Hq & Hfail) & Hr)]; [left|right]; (split; [done|]);
    [|split; [exists q; split; [lia|exact Hfail]|]];
    intros p; rewrite Hr, Hpg; destruct (Z.eqb_spec p k) as [->|].
  - split; [right; lia|by left].
  - split; (intros [|]; [by left|right; lia]).
  - split; [intros [_ Hc]; lia|by intros [Hc _]].
  - split; intros []; split; [done|lia|done|lia].
Qed.

Lemma alloc_pages_spec env (v : vm_area) n : forall s fuel i j k,
  region s -> n = Z.to_nat (j - k) -> (n <= fuel)%nat -> i <= k ->
  buffer s / PAGE_SIZE <= i -> j <= limit s / PAGE_SIZE ->
  (forall p, i <= p < k -> present s p) -> (forall p, k <= p < j -> ~ present s p) ->
  alloc_post env v s i j k (alloc_pages fuel env v s (k * PAGE_SIZE) (i * PAGE_SIZE) (j * PAGE_SIZE)).
Proof.
  induction n as [|n IH]; intros s fuel i j k Hr Hn Hf Hk Hi Hj Hin Hout.
  - exists (pages s), 0. assert (set_pages s (pages s) = s) as -> by (by destruct s).
    destruct fuel; cbn [alloc_pages]; rewrite (proj2 (Z.leb_le _ _)) by plia;
      (split; [done|]; split; [done|]; left; split; [done|]; intros p; split; [by left|intros [|]; [done|lia]]).
  - destruct fuel as [|fuel]; [lia|]. cbn [alloc_pages]. rewrite (proj2 (Z.leb_gt _ _)) by plia.
    destruct (page_get_in s k Hr) as [x Hx]; [lia|]. rewrite Hx. cbn [mbind option_bind].
    destruct x; [exfalso; apply (Hout k); [lia|done]|].
    assert (alloc_post env v s i j k (alloc_pages fuel env v (page_set s (k * PAGE_SIZE) true)
        (k * PAGE_SIZE + PAGE_SIZE) (i * PAGE_SIZE) (j * PAGE_SIZE))) as Hnext.
    { destruct (page_set_spec s k true) as (pg & -> & Hl & Hpg); [done|lia|].
      replace (k * PAGE_SIZE + PAGE_SIZE) with ((k + 1) * PAGE_SIZE) by lia.
      apply (alloc_post_step env v s pg); [lia|apply Hout; lia|done|done|].
      apply IH; [by apply region_set_pages|lia|lia|lia|done|done|..].
      - intros p Hp. apply Hpg. destruct (Z.eqb_spec p k); [done|]. apply Hin. lia.
      - intros p Hp. rewrite Hpg, (proj2 (Z.eqb_neq _ _)) by lia. apply Hout. lia. }
    destruct (pe_event env (k * PAGE_SIZE)) eqn:Ee;
      try (apply undo_post; [done|lia|done|left; congruence]);
      (destruct (vm_insert_page _ _ _) eqn:Ev; [exact Hnext|]);
      (apply undo_post; [done|lia|done|]); [right|left; congruence].
    unfold vm_insert_page in Ev. rewrite andb_true_r in Ev. unbool. lia.
Qed.

(** ** The whole operation *)

Lemma update_alloc_spec env s i j area :
  region s -> buffer s / PAGE_SIZE <= i -> j <= limit s / PAGE_SIZE ->
  (forall p, i <= p < j -> ~ present s p) ->
  exists s' r, binder_update_page_range env s true (i * PAGE_SIZE) (j * PAGE_SIZE) area = Some (s', r) /\
    (r <> 0 /\ s' = s /\
       match area with
       | Some v => exists p, i <= p < j /\ page_fails env v s p
       | None => pe_mm env = false \/ vma s = None \/
                 exists (v : vm_area) p, vma s = Some v /\ i <= p < j /\ page_fails env v s p
       end \/
     r = 0 /\ exists pg, s' = set_pages s pg /\ zlen pg = zlen (pages s) /\
    forall p, present s' p <-> present s p \/ i <= p < j).
Proof.
  intros Hr Hi Hj Hout. assert (set_pages s (pages s) = s) as Hs by (by destruct s).
  unfold binder_update_page_range. case_if.
  { exists s, 0. split; [done|]. right. split; [done|]. exists (pages s). rewrite Hs.
    split; [done|]. split; [done|]. intros p. split; [by left|intros [|]; [done|plia]]. }
  destruct (match area with Some v => _ | None => _ end) as [v|] eqn:Ea.
  2: { exists s, (- ENOMEM). split; [done|]. left. split; [done|]. split; [done|].
       destruct area; [done|]. destruct (pe_mm env); auto. }
  destruct (alloc_pages_spec env v (Z.to_nat (j - i)) s (page_count (i * PAGE_SIZE) (j * PAGE_SIZE)) i j i)
    as (pg & r & -> & Hl & Hpg); [done|done|unfold page_count; plia|lia|done|done|intros; lia|done|].
  exists (set_pages s pg), r. split; [done|]. destruct Hpg as [[-> Hpg]|(-> & Hfail & Hpg)].
  - right. split; [done|]. eauto.
  - left. split; [done|]. assert (pg = pages s) as ->.
    { eapply (mapped_pages_ext s); [done|done|done|]. intros p. rewrite Hs, Hpg. split; [by intros []|].
      intros Hp. split; [done|lia]. }
    split; [done|]. destruct area; [by injection Ea as ->|].
    destruct (pe_mm env); [|by left]. right. right. destruct Hfail as (p & Hp & Hfail). eauto.
Qed.

Lemma update_free_spec env s i j area :
  region s -> (forall p, i <= p < j -> present s p) ->
  exists pg r, binder_update_page_range env s false (i * PAGE_SIZE) (j * PAGE_SIZE) area =
      Some (set_pages s pg, r) /\ zlen pg = zlen (pages s) /\
    forall p, present (set_pages s pg) p <-> present s p /\ ~ (i <= p < j).
Proof.
  intros Hr Hin. unfold binder_update_page_range. case_if.
  { exists (pages s), 0. assert (set_pages s (pages s) = s) as -> by (by destruct s).
    split; [done|]. split; [done|]. intros p. split; [intros; split; [done|plia]|by intros []]. }
  replace (j * PAGE_SIZE - PAGE_SIZE) with ((j - 1) * PAGE_SIZE) by lia.
  destruct (free_pages_spec (Z.to_nat (j - i)) s (page_count (i * PAGE_SIZE) (j * PAGE_SIZE)) i j)
    as (pg & -> & Hl & Hpg); [done|done|unfold page_count; plia|done|].
  exists pg, (- ENOMEM). cbn. eauto.
Qed.
