(* ===== verification/BinderAllocInv.v ===== *)
(** * Binder buffers: the invariant of the allocator

    [layout s v]: the headers of [s] are the view [v], which tiles the range,
    and exactly the pages it needs are there.  [free_tree s l]: the tree of free
    buffers holds [l] in the order of the sizes; [alloc_tree s l]: the tree of
    allocated ones is [l], by address.  [alloc_ok] puts these together
    with the rule that no two neighbours are free and the account of the space
    for asynchronous transactions. *)

From stdpp Require Import base numbers list gmap sorting.
From S2P Require Import Prelude RbTree RbTreeProps RbKeyed BinderAlloc BinderLayout.

Open Scope Z_scope.

Implicit Types (v : view) (b : Z) (h : binder_buffer) (s : binder_alloc) (p : Z).

(** The data and behind it the offsets of a transaction fit its buffer. *)
Definition sizes_ok h (room : Z) : Prop :=
  0 <= data_size h <= ALIGN (data_size h) /\ 0 <= offsets_size h /\
  ALIGN (data_size h) + offsets_size h <= alloc_size (data_size h) (offsets_size h) <= room.
Fixpoint fits v (hi : Z) : Prop :=
  match v with
  | [] => True
  | (b, h) :: v' =>
      (bb_free h = false -> sizes_ok h (start_of v' hi - buffer_data b)) /\ fits v' hi
  end.

Record layout s v : Prop := {
  ly_region : region s;
  ly_buffers : buffers s = v.*1;
  ly_headers : forall b h, headers s !! b = Some h <-> (b, h) ∈ v;
  ly_start : start_of v (limit s) = buffer s;
  ly_chain : chain v (limit s);
  ly_aligned : Forall (fun q => q.1 mod 4 = 0) v;
  ly_fits : fits v (limit s);
  ly_pages : forall p, present s p <-> needed v (limit s) p }.

Definition bsize s b : Z := default 0 (binder_buffer_size s b).

Definition free_tree s (l : list Z) : Prop :=
  (exists m, rbt Black m (free_buffers s)) /\ inorder (free_buffers s) ≡ₚ l /\
  StronglySorted (fun x y => bsize s x <= bsize s y) (inorder (free_buffers s)).

Definition alloc_tree s (l : list Z) : Prop :=
  (exists m, rbt Black m (allocated_buffers s)) /\ inorder (allocated_buffers s) = l.

Record alloc_ok s v : Prop := {
  ao_layout : layout s v;
  ao_taken : alloc_tree s (taken v);
  ao_free : free_tree s (frees v);
  ao_merged : merged v;
  ao_async : free_async_space s + async_used v = buffer_size s / 2;
  ao_async_nonneg : 0 <= free_async_space s }.

(** ** Consequences of the layout *)

Lemma fits_app v1 v2 hi : fits (v1 ++ v2) hi <-> fits v1 (start_of v2 hi) /\ fits v2 hi.
Proof.
  induction v1 as [|[b h] v1 IH]; cbn; [naive_solver|]. rewrite IH, start_of_app. naive_solver.
Qed.

Lemma layout_NoDup s v : layout s v -> NoDup v.*1.
Proof. intros H. eapply chain_NoDup, H. Qed.

Lemma layout_fun s v b h h' : layout s v -> (b, h) ∈ v -> (b, h') ∈ v -> h = h'.
Proof. intros H H1%H H2%H. congruence. Qed.

Lemma needed_in v hi b h p :
  chain v hi -> (b, h) ∈ v -> b / PAGE_SIZE <= p <= (b + sizeof_buffer - 1) / PAGE_SIZE -> needed v hi p.
Proof.
  induction v as [|[b' h'] v IH]; intros Hc Hin Hp; [by apply not_elem_of_nil in Hin|].
  destruct Hc as [H1 H2]. apply elem_of_cons in Hin as [[= -> ->]|Hin]; cbn [needed].
  - left. unfold used_end. destruct (bb_free h'); plia.
  - right. by apply IH.
Qed.

Lemma layout_bounds s v b h :
  layout s v -> (b, h) ∈ v -> buffer s <= b /\ b + sizeof_buffer <= limit s.
Proof. intros H Hin. rewrite <- (ly_start _ _ H). eapply chain_in; [apply H|done]. Qed.

Lemma layout_header s v b h : layout s v -> (b, h) ∈ v -> header s b = Some h.
Proof.
  intros H Hin. destruct H as [Hr Hb Hh Hs Hc Ha Hf Hp]. unfold header.
  assert (mapped s b = true) as ->.
  { apply mapped_present, Hp; [done|]. eapply needed_in; [done|done|]. plia. }
  assert (mapped s (b + sizeof_buffer - 1) = true) as ->.
  { apply mapped_present, Hp; [done|]. eapply needed_in; [done|done|]. plia. }
  by apply Hh.
Qed.

Lemma fmap_split v1 b h v2 : (v1 ++ (b, h) :: v2).*1 = v1.*1 ++ b :: v2.*1.
Proof. by rewrite fmap_app. Qed.

Lemma layout_size s v1 b h v2 :
  layout s (v1 ++ (b, h) :: v2) ->
  binder_buffer_size s b = Some (start_of v2 (limit s) - buffer_data b).
Proof.
  intros H. pose proof (layout_NoDup _ _ H) as Hd. rewrite fmap_split in Hd.
  destruct (layout_bounds _ _ b h H) as [B1 B2]; [apply elem_of_app; right; left|].
  pose proof (ly_chain _ _ H) as Hc. apply chain_app in Hc as [_ Hc]. cbn in Hc. destruct Hc as [Hc1 Hc2].
  pose proof (chain_le _ _ Hc2) as Hle. pose proof (ly_region _ _ H) as [].
  unfold binder_buffer_size. rewrite (ly_buffers _ _ H), fmap_split, is_last_at, next_in_at by done.
  destruct v2 as [|[n hn] v2].
  - rewrite bool_decide_true by done. cbn. unfold limit in *. rewrite u32_small; [done|].
    unfold buffer_data, sizeof_buffer in *. cbn in *. lia.
  - rewrite bool_decide_false by done. cbn in *. rewrite u32_small; [done|].
    unfold buffer_data, sizeof_buffer in *. lia.
Qed.

Lemma layout_size_in s v b h : layout s v -> (b, h) ∈ v -> binder_buffer_size s b = Some (bsize s b).
Proof.
  intros H (v1 & v2 & ->)%list_elem_of_split. unfold bsize. by rewrite (layout_size _ _ _ _ _ H).
Qed.

(** Headers and sizes of these buffers can be read. *)
Definition readable s v : Prop :=
  forall b h, (b, h) ∈ v -> header s b = Some h /\ binder_buffer_size s b = Some (bsize s b).

Lemma layout_readable s v : layout s v -> readable s v.
Proof. intros H b h Hin. split; [by eapply layout_header|by eapply layout_size_in]. Qed.

(** The layout reads only these fields. *)
Lemma layout_ext s s' v :
  buffer s' = buffer s -> buffer_size s' = buffer_size s -> pages s' = pages s ->
  buffers s' = buffers s -> headers s' = headers s -> layout s v -> layout s' v.
Proof.
  intros E1 E2 E3 E4 E5 []. assert (limit s' = limit s) as El by (unfold limit; by rewrite E1, E2).
  split; rewrite ?El, ?E1, ?E4, ?E5; try done.
  - by eapply region_ext.
  - intros p. rewrite <- ly_pages0. by apply present_ext.
Qed.

Lemma bsize_ext s s' b :
  buffer s' = buffer s -> buffer_size s' = buffer_size s -> buffers s' = buffers s -> bsize s' b = bsize s b.
Proof. intros E1 E2 E3. unfold bsize, binder_buffer_size. by rewrite E1, E2, E3. Qed.

(** The sizes of the other buffers do not change when the buffers right behind
    [b] do. *)
Lemma is_last_other l1 b m m' l2 x :
  x <> b -> x ∉ m -> x ∉ m' ->
  list_is_last (l1 ++ b :: m ++ l2) x = list_is_last (l1 ++ b :: m' ++ l2) x.
Proof.
  intros Hb Hm Hm'. unfold list_is_last. destruct l2 as [|y l2] using rev_ind.
  - assert (forall m, x ∉ m -> bool_decide (last (l1 ++ b :: m ++ []) = Some x) = false) as Hno.
    { intros k Hk. rewrite app_nil_r. apply bool_decide_false. destruct k as [|y k] using rev_ind.
      - rewrite last_snoc. congruence.
      - rewrite app_comm_cons, app_assoc, last_snoc. intros [= ->]. apply Hk, elem_of_app. right. left. }
    by rewrite !Hno.
  - by rewrite !app_assoc, !app_comm_cons, !app_assoc, !last_snoc.
Qed.

Lemma bsize_other s s' l1 b m m' l2 x :
  buffer s' = buffer s -> buffer_size s' = buffer_size s ->
  buffers s = l1 ++ b :: m ++ l2 -> buffers s' = l1 ++ b :: m' ++ l2 ->
  x <> b -> x ∉ m -> x ∉ m' -> bsize s' x = bsize s x.
Proof.
  intros E1 E2 E3 E4 Hb Hm Hm'. unfold bsize, binder_buffer_size. rewrite E1, E2, E3, E4.
  by rewrite (is_last_other l1 b m' m), (next_in_other l1 b m' m).
Qed.

(** A tree of free buffers whose sizes did not change. *)
Lemma free_tree_ext s s' l l' :
  free_buffers s' = free_buffers s -> (forall x, x ∈ l -> bsize s' x = bsize s x) -> l ≡ₚ l' ->
  free_tree s l -> free_tree s' l'.
Proof.
  intros E1 Hx Hl (Hm & Hp & Hs). unfold free_tree. rewrite E1. split_and!; [done|by rewrite Hp|].
  eapply sorted_impl; [|exact Hs]. intros x y. rewrite Hp. intros Hxl Hyl. cbn. by rewrite !Hx.
Qed.

(** ** Changing one header *)

Lemma headers_update v1 b h h' v2 (hs : gmap Z binder_buffer) :
  NoDup (v1 ++ (b, h) :: v2).*1 ->
  (forall x k, hs !! x = Some k <-> (x, k) ∈ v1 ++ (b, h) :: v2) ->
  forall x k, <[b := h']> hs !! x = Some k <-> (x, k) ∈ v1 ++ (b, h') :: v2.
Proof.
  intros Hd Hhs x k. rewrite fmap_split in Hd. apply NoDup_app in Hd as (_ & Hd1 & Hd2).
  apply NoDup_cons in Hd2 as [Hd2 _].
  rewrite lookup_insert_Some, Hhs, !elem_of_app, !elem_of_cons. split.
  - intros [[-> ->]|[Hne [H|[[= <- <-]|H]]]]; auto. done.
  - intros [H|[[= <- <-]|H]]; [right|by left|right]; (split; [|auto]).
    + intros <-. apply (Hd1 b); [apply list_elem_of_fmap; by exists (b, k)|left].
    + intros <-. apply Hd2. apply list_elem_of_fmap. by exists (b, k).
Qed.

(** ** The trees *)

Lemma insert_free_spec s v1 b h v2 :
  readable s (v1 ++ (b, h) :: v2) -> bb_free h = true -> free_tree s (frees v1 ++ frees v2) ->
  exists t, binder_insert_free_buffer s b = Some (set_free_buffers s t) /\
    free_tree (set_free_buffers s t) (frees (v1 ++ (b, h) :: v2)).
Proof.
  intros H Hf ([m Hm] & Hp & Hs). set (w := v1 ++ (b, h) :: v2) in *.
  assert ((b, h) ∈ w) as Hb by (apply elem_of_app; right; left).
  assert (forall y, y ∈ inorder (free_buffers s) -> exists k, (y, k) ∈ w /\ bb_free k = true) as Hin.
  { intros y. rewrite Hp, <- frees_app, elem_of_frees. intros (k & Hk & ?). exists k. split; [|done].
    unfold w. rewrite elem_of_app, elem_of_cons. apply elem_of_app in Hk. naive_solver. }
  unfold binder_insert_free_buffer. rewrite (proj1 (H _ _ Hb)). cbn. rewrite Hf. cbn.
  rewrite (proj2 (H _ _ Hb)). cbn.
  edestruct (rb_insert_by_spec (fun y => h ← header s y; if negb (bb_free h) then None else
      size ← binder_buffer_size s y; Some (if bsize s b <? size then Lt else Gt))
    (after_cmp (bsize s) (bsize s b)) m (free_buffers s) b) as (t & m' & l1 & l2 & Ht & Hr & H1 & H2 & H3 & H4);
    [done| |by apply after_cmp_splits|by intros y _; unfold after_cmp; case_match|].
  { intros y (k & Hk & Hkf)%Hin. rewrite (proj1 (H _ _ Hk)). cbn. rewrite Hkf. cbn.
    by rewrite (proj2 (H _ _ Hk)). }
  rewrite Ht. exists t. split; [done|]. split_and!; cbn; [by exists m'|..].
  - rewrite H2. unfold w. autorewrite with view. rewrite Hf. cbn. rewrite H1 in Hp.
    by rewrite <- !Permutation_middle, Hp.
  - rewrite H2. apply sorted_app; [by rewrite <- H1|..]; intros y Hy; cbn.
    + specialize (H3 y Hy). unfold after_cmp in H3. destruct (Z.ltb_spec (bsize s b) (bsize s y)); [done|].
      by rewrite !(bsize_ext s (set_free_buffers s t)).
    + specialize (H4 y Hy). unfold after_cmp in H4. destruct (Z.ltb_spec (bsize s b) (bsize s y)); [|done].
      rewrite !(bsize_ext s (set_free_buffers s t)) by done. lia.
Qed.

Lemma taken_sorted v hi : chain v hi -> StronglySorted (fun x y => x < y) (taken v).
Proof.
  induction v as [|[b h] v IH]; [constructor|]. intros [H1 H2]. rewrite taken_cons.
  destruct (bb_free h); [by apply IH|]. cbn. apply StronglySorted_cons. split; [|by apply IH].
  apply Forall_forall. intros y (k & Hk & _)%elem_of_taken. pose proof (chain_in _ _ _ _ H2 Hk).
  unfold sizeof_buffer in *. lia.
Qed.

Lemma chain_around v1 b h v2 hi y k :
  chain (v1 ++ (b, h) :: v2) hi -> ((y, k) ∈ v1 -> y < b) /\ ((y, k) ∈ v2 -> b < y).
Proof.
  intros [H1 H2]%chain_app. cbn in H1, H2. destruct H2 as [H2 H3]. unfold sizeof_buffer in *. split; intros Hy.
  - apply (chain_in _ _ _ _ H1) in Hy as [_ Hy]. unfold sizeof_buffer in *. lia.
  - apply (chain_in _ _ _ _ H3) in Hy as [Hy _]. lia.
Qed.

Lemma insert_taken_spec s v1 b h v2 hi :
  readable s (v1 ++ (b, h) :: v2) -> chain (v1 ++ (b, h) :: v2) hi -> bb_free h = false -> alloc_tree s (taken v1 ++ taken v2) ->
  exists t, binder_insert_allocated_buffer s b = Some (set_allocated_buffers s t) /\
    alloc_tree (set_allocated_buffers s t) (taken (v1 ++ (b, h) :: v2)).
Proof.
  intros H Hc Hf ([m Hm] & Hp). set (w := v1 ++ (b, h) :: v2) in *.
  assert ((b, h) ∈ w) as Hb by (apply elem_of_app; right; left).
  assert (forall y, y ∈ taken v1 -> y < b) as G1.
  { intros y (k & Hk & _)%elem_of_taken. by apply (proj1 (chain_around v1 b h v2 _ y k Hc)). }
  assert (forall y, y ∈ taken v2 -> b < y) as G2.
  { intros y (k & Hk & _)%elem_of_taken. by apply (proj2 (chain_around v1 b h v2 _ y k Hc)). }
  assert (StronglySorted (fun x y => x < y) (taken v1 ++ taken v2)) as Hs.
  { pose proof (taken_sorted _ _ Hc) as Hs. unfold w in Hs. autorewrite with view in Hs. rewrite Hf in Hs.
    cbn in Hs. by eapply sorted_delete. }
  unfold binder_insert_allocated_buffer. rewrite (proj1 (H _ _ Hb)). cbn. rewrite Hf.
  edestruct (rb_insert_by_spec (fun y => h ← header s y; if bb_free h then None else Some (b ?= y))
    (fun y => b ?= y) m (allocated_buffers s) b) as (t & m' & l1 & l2 & Ht & Hr & H1 & H2 & H3 & H4);
    [done|..].
  { intros y. rewrite Hp, <- taken_app. intros (k & Hk & Hkf)%elem_of_taken.
    assert ((y, k) ∈ w) as Hk'.
    { unfold w. rewrite elem_of_app, elem_of_cons. apply elem_of_app in Hk. naive_solver. }
    rewrite (proj1 (H _ _ Hk')). cbn. by rewrite Hkf. }
  { rewrite Hp. by apply (compare_splits (fun x => x)). }
  { intros y. rewrite Hp, elem_of_app. intros Hy He. apply Z.compare_eq_iff in He. subst y.
    destruct Hy as [Hy|Hy]; [apply G1 in Hy|apply G2 in Hy]; lia. }
  rewrite Ht. exists t. split; [done|]. split; cbn; [by exists m'|]. rewrite H2.
  rewrite H1 in Hp. destruct (key_split_unique (fun x => x) b l1 l2 (taken v1) (taken v2)) as [-> ->];
    [exact Hp|..|exact G1|exact G2|].
  - intros y Hy. specialize (H3 y Hy). cbn in H3. by apply Z.compare_gt_iff in H3.
  - intros y Hy. specialize (H4 y Hy). by apply Z.compare_lt_iff in H4.
  - unfold w. autorewrite with view. by rewrite Hf.
Qed.

(** Removal from the trees. *)
Lemma delete_free_tree s x l :
  free_tree s (x :: l) -> NoDup (x :: l) ->
  exists t, rb_delete x (free_buffers s) = Some t /\ free_tree (set_free_buffers s t) l.
Proof.
  intros ([m Hm] & Hp & Hs) Hd.
  assert (x ∈ inorder (free_buffers s)) as Hx by (rewrite Hp; left).
  apply list_elem_of_split in Hx as (l1 & l2 & He).
  destruct (rb_delete_spec m (free_buffers s) x l1 l2) as (t & m' & Ht & Hr & Ho); [done|by rewrite Hp|done|].
  exists t. split; [done|]. split_and!; cbn; [by exists m'|..]; rewrite Ho.
  - rewrite He, <- Permutation_middle in Hp. by apply Permutation_cons_inv in Hp.
  - rewrite He in Hs. apply sorted_delete in Hs. eapply sorted_impl; [|exact Hs]. intros y z _ _.
    by rewrite !(bsize_ext s (set_free_buffers s t)).
Qed.

Lemma delete_alloc_tree s x l1 l2 :
  alloc_tree s (l1 ++ x :: l2) -> NoDup (l1 ++ x :: l2) ->
  exists t, rb_delete x (allocated_buffers s) = Some t /\ alloc_tree (set_allocated_buffers s t) (l1 ++ l2).
Proof.
  intros ([m Hm] & Hp) Hd.
  destruct (rb_delete_spec m (allocated_buffers s) x l1 l2) as (t & m' & Ht & Hr & Ho); [done|by rewrite Hp|done|].
  exists t. split; [done|]. split; [by exists m'|done].
Qed.

(** ** Removing a free buffer behind a free one *)

Lemma start_page_eq b : 0 <= b < 2 ^ 32 -> buffer_start_page b = b / PAGE_SIZE * PAGE_SIZE.
Proof. apply land_page_mask. Qed.
Lemma end_page_eq b :
  0 <= b -> b + sizeof_buffer <= 2 ^ 32 ->
  buffer_end_page b = (b + sizeof_buffer - 1) / PAGE_SIZE * PAGE_SIZE.
Proof. intros. apply land_page_mask. unfold sizeof_buffer in *. lia. Qed.

(** The pages that go are those of the header that neither neighbour's header
    is on. *)
Lemma header_pages_spec prev b next fs fe q :
  header_pages_free prev b next = (fs, fe) -> 0 <= prev -> prev + sizeof_buffer <= b ->
  b + sizeof_buffer <= 2 ^ 32 ->
  match next with Some n => b + sizeof_buffer <= n < 2 ^ 32 | None => True end ->
  fs || fe = true /\
    (if fs then b / PAGE_SIZE else (b + sizeof_buffer - 1) / PAGE_SIZE) <= q <
      (if fe then (b + sizeof_buffer - 1) / PAGE_SIZE else b / PAGE_SIZE) + 1 <->
  b / PAGE_SIZE <= q <= (b + sizeof_buffer - 1) / PAGE_SIZE /\
    (prev + sizeof_buffer - 1) / PAGE_SIZE < q /\
    match next with Some n => q < n / PAGE_SIZE | None => True end.
Proof.
  unfold header_pages_free. intros Hd Hp Hb Hl Hn.
  rewrite !start_page_eq, !end_page_eq in Hd by (unfold sizeof_buffer in *; lia).
  destruct next as [n|]; [rewrite !start_page_eq in Hd by (unfold sizeof_buffer in *; lia)|];
  repeat match type of Hd with context [?x =? ?y] => destruct (Z.eqb_spec x y) end;
    injection Hd as <- <-; cbn [orb negb]; split; intros [? ?]; repeat split; try done; plia.
Qed.

(** The pages [header_pages_free] names for the buffer [b] between [prev] and
    [next]. *)
Definition gone (fs fe : bool) b q : Prop :=
  fs || fe = true /\
    (if fs then b / PAGE_SIZE else (b + sizeof_buffer - 1) / PAGE_SIZE) <= q <
      (if fe then (b + sizeof_buffer - 1) / PAGE_SIZE else b / PAGE_SIZE) + 1.

Lemma delete_needed v1 p hp b hb v2 hi fs fe q :
  chain (v1 ++ (p, hp) :: (b, hb) :: v2) hi -> 0 <= p -> hi < 2 ^ 32 ->
  bb_free hp = true -> bb_free hb = true -> header_pages_free p b (head v2.*1) = (fs, fe) ->
  (needed (v1 ++ (p, hp) :: v2) hi q <->
    needed (v1 ++ (p, hp) :: (b, hb) :: v2) hi q /\ ~ gone fs fe b q) /\
  (gone fs fe b q -> needed (v1 ++ (p, hp) :: (b, hb) :: v2) hi q).
Proof.
  intros Hc Hp Hhi Fp Fb Ehp. apply chain_app in Hc as [Hc1 Hc2]. cbn [chain start_of] in Hc1, Hc2.
  destruct Hc2 as (Hc2 & Hc3 & Hc4). pose proof (chain_le _ _ Hc4) as Hle.
  unfold gone. rewrite (header_pages_spec p b (head v2.*1) fs fe q Ehp); [|lia|done|unfold sizeof_buffer in *; lia|].
  2: { destruct v2 as [|[n hn] v2]; [done|]. cbn in *. unfold sizeof_buffer in *. lia. }
  rewrite !needed_app. cbn [needed start_of]. unfold used_end. rewrite Fp, Fb.
  pose proof (needed_bounds v1 p q Hc1) as B1. pose proof (needed_bounds v2 _ q Hc4) as B2.
  assert (match head v2.*1 with Some n => needed v2 hi (n / PAGE_SIZE) | None => True end) as B3.
  { destruct v2 as [|[n hn] v2]; [done|]. apply (needed_first ((n, hn) :: v2)); done. }
  rewrite start_of_head in *. split; [split|intros (Hv & _ & _); right; right; left; plia].
  - intros [Hv|[Hv|Hv]]; (split; [tauto|]); [specialize (B1 Hv); plia|plia|specialize (B2 Hv)].
    destruct v2 as [|[n hn] v2]; [done|]. cbn in *. plia.
  - intros [[Hv|[Hv|[Hv|Hv]]] Hn]; [by left|by right; left| |by right; right].
    destruct (head v2.*1) as [n|]; cbn in *; [|right; left; plia].
    destruct (Z.eq_dec q (n / PAGE_SIZE)) as [->|]; [by right; right|]. right. left. plia.
Qed.

Lemma headers_delete v1 b h v2 (hs : gmap Z binder_buffer) :
  NoDup (v1 ++ (b, h) :: v2).*1 ->
  (forall x k, hs !! x = Some k <-> (x, k) ∈ v1 ++ (b, h) :: v2) ->
  forall x k, delete b hs !! x = Some k <-> (x, k) ∈ v1 ++ v2.
Proof.
  intros Hd Hhs x k. rewrite fmap_split in Hd. apply NoDup_app in Hd as (_ & Hd1 & Hd2).
  apply NoDup_cons in Hd2 as [Hd2 _].
  rewrite lookup_delete_Some, Hhs, !elem_of_app, !elem_of_cons. split.
  - intros [Hne [H|[[= <- <-]|H]]]; auto. done.
  - intros [H|H]; (split; [|auto]); intros <-.
    + apply (Hd1 b); [apply list_elem_of_fmap; by exists (b, k)|left].
    + apply Hd2. apply list_elem_of_fmap. by exists (b, k).
Qed.

Lemma layout_delete s v1 p hp b hb v2 pg :
  layout s (v1 ++ (p, hp) :: (b, hb) :: v2) -> bb_free hp = true -> zlen pg = zlen (pages s) ->
  let s' := set_pages (set_buffers s (v1 ++ (p, hp) :: v2).*1 (delete b (headers s))) pg in
  (forall q, present s' q <-> needed (v1 ++ (p, hp) :: v2) (limit s) q) ->
  layout s' (v1 ++ (p, hp) :: v2).
Proof.
  intros H Fp Hl s' Hq. pose proof (layout_NoDup _ _ H) as Hd.
  destruct H as [Hr Hb Hh Hs Hc Ha Hf Hp]. split.
  - apply region_set_pages; [|done]. by eapply region_ext; [..|exact Hr].
  - done.
  - intros x k. cbn [s' headers set_pages set_buffers].
    replace (v1 ++ (p, hp) :: (b, hb) :: v2) with ((v1 ++ [(p, hp)]) ++ (b, hb) :: v2) in *
      by (by rewrite <- app_assoc).
    rewrite (headers_delete (v1 ++ [(p, hp)]) b hb v2) by done. by rewrite <- app_assoc.
  - rewrite !start_of_app in *. done.
  - rewrite !chain_app in *. cbn [chain start_of] in *. destruct Hc as (? & Hc2 & Hc3 & ?).
    split_and!; try done. change (limit s') with (limit s). unfold sizeof_buffer in *. lia.
  - rewrite !Forall_app, !Forall_cons in *. naive_solver.
  - rewrite !fits_app in *. cbn [fits start_of] in *. destruct Hf as (? & _ & _ & ?).
    split_and!; try done. by rewrite Fp.
  - done.
Qed.

Lemma delete_free_spec env s v1 p hp b hb v2 :
  layout s (v1 ++ (p, hp) :: (b, hb) :: v2) -> bb_free hp = true -> bb_free hb = true ->
  exists pg, let s' := set_pages (set_buffers s (v1 ++ (p, hp) :: v2).*1 (delete b (headers s))) pg in
    binder_delete_free_buffer env s b = Some s' /\ layout s' (v1 ++ (p, hp) :: v2).
Proof.
  intros H Fp Fb.
  assert (buffers s = (v1.*1 ++ [p]) ++ b :: v2.*1) as Hbs.
  { rewrite (ly_buffers _ _ H), fmap_app, <- app_assoc. done. }
  pose proof (layout_NoDup _ _ H) as Hd. rewrite <- (ly_buffers _ _ H), Hbs in Hd.
  assert (prev_in (buffers s) b = Some p) as Hprev.
  { rewrite Hbs, <- app_assoc in *. by apply prev_in_at. }
  unfold binder_delete_free_buffer. rewrite Hprev, Hbs, head_at, bool_decide_false by (done || by destruct (v1.*1)).
  cbn [mbind option_bind].
  rewrite (layout_header _ _ p hp H) by (apply elem_of_app; right; left). cbn [mbind option_bind]. rewrite Fp. cbn [negb].
  rewrite is_last_at, next_in_at, list_del_at by done.
  assert ((if bool_decide (v2.*1 = []) then None else head v2.*1) = head v2.*1) as -> by (by destruct v2).
  rewrite <- app_assoc. cbn [app]. replace (v1.*1 ++ p :: v2.*1) with (v1 ++ (p, hp) :: v2).*1 by apply fmap_split.
  set (s1 := set_buffers s (v1 ++ (p, hp) :: v2).*1 (delete b (headers s))).
  pose proof (ly_region _ _ H) as Hr. assert (region s1) as Hr1 by (by eapply region_ext; [..|exact Hr]).
  destruct (layout_bounds _ _ p hp H) as [Bp _]; [apply elem_of_app; right; left|].
  destruct (layout_bounds _ _ b hb H) as [Bb Bb']; [apply elem_of_app; right; right; left|].
  pose proof (rg_pos _ Hr). pose proof (rg_limit _ Hr).
  destruct (header_pages_free p b (head v2.*1)) as [fs fe] eqn:Ehp.
  pose proof (fun q => delete_needed _ _ _ _ _ _ _ _ _ q (ly_chain _ _ H) ltac:(lia) (rg_limit _ Hr) Fp Fb Ehp) as Hq.
  assert (forall q, present s1 q <-> needed (v1 ++ (p, hp) :: (b, hb) :: v2) (limit s) q) as Hp1.
  { intros q. rewrite <- (ly_pages _ _ H). by apply present_ext. }
  rewrite start_page_eq, end_page_eq by (unfold sizeof_buffer in *; lia).
  destruct (fs || fe) eqn:Ef.
  - destruct (update_free_spec env s1 (if fs then b / PAGE_SIZE else (b + sizeof_buffer - 1) / PAGE_SIZE)
      ((if fe then (b + sizeof_buffer - 1) / PAGE_SIZE else b / PAGE_SIZE) + 1) None) as (pg & r & Hu & Hl & Hpg); [done|..].
    { intros q Hg. apply Hp1, Hq. split; [exact Ef|exact Hg]. }
    exists pg. cbn zeta. split.
    + replace ((if fe then _ else _) + PAGE_SIZE) with
        (((if fe then (b + sizeof_buffer - 1) / PAGE_SIZE else b / PAGE_SIZE) + 1) * PAGE_SIZE) by (destruct fe; lia).
      by destruct fs; rewrite Hu.
    + apply (layout_delete s v1 p hp b hb v2 pg H Fp Hl). fold s1. intros q.
      rewrite Hpg, Hp1, (proj1 (Hq q)). unfold gone. rewrite Ef. tauto.
  - exists (pages s). assert (set_pages s1 (pages s) = s1) as Hs by done. split; [done|].
    apply (layout_delete s v1 p hp b hb v2 (pages s) H Fp); [done|]. fold s1. rewrite Hs. intros q.
    rewrite Hp1, (proj1 (Hq q)). unfold gone. rewrite Ef. naive_solver.
Qed.
