(* ===== verification/BinderRelease.v ===== *)
(** * Binder buffers: release

    What [binder_free_buf] does to the view: the buffer becomes free and merges
    with the free buffers next to it ([released]), its pages go, and the space
    of an asynchronous transaction is given back. *)

From stdpp Require Import base numbers list gmap sorting.
From S2P Require Import Prelude RbTree RbTreeProps RbKeyed BinderAlloc BinderLayout BinderAllocInv.

Open Scope Z_scope.

Implicit Types (v w : view) (b : Z) (h : binder_buffer) (s : binder_alloc) (p : Z).

(** The fields no merge touches. *)
Definition rest_eq s s' : Prop :=
  vma s' = vma s /\ buffer s' = buffer s /\ user_buffer_offset s' = user_buffer_offset s /\
  buffer_size s' = buffer_size s /\ allocated_buffers s' = allocated_buffers s /\
  free_async_space s' = free_async_space s.

Lemma rest_eq_refl s : rest_eq s s.
Proof. done. Qed.
Lemma rest_eq_trans s1 s2 s3 : rest_eq s1 s2 -> rest_eq s2 s3 -> rest_eq s1 s3.
Proof. unfold rest_eq. intuition congruence. Qed.
#[export] Hint Resolve rest_eq_refl : kernel.

Lemma frees_keys v b : b ∈ frees v -> b ∈ v.*1.
Proof. intros (h & Hh & _)%elem_of_frees. apply list_elem_of_fmap. by exists (b, h). Qed.
Lemma taken_keys v b : b ∈ taken v -> b ∈ v.*1.
Proof. intros (h & Hh & _)%elem_of_taken. apply list_elem_of_fmap. by exists (b, h). Qed.

Lemma NoDup_frees v : NoDup v.*1 -> NoDup (frees v).
Proof.
  induction v as [|[b h] v IH]; [constructor|]. rewrite frees_cons. intros [Hb Hd]%NoDup_cons.
  destruct (bb_free h); [|by apply IH]. constructor; [|by apply IH]. intros Hin. by apply Hb, frees_keys.
Qed.
Lemma NoDup_taken v : NoDup v.*1 -> NoDup (taken v).
Proof.
  induction v as [|[b h] v IH]; [constructor|]. rewrite taken_cons. intros [Hb Hd]%NoDup_cons.
  destruct (bb_free h); [by apply IH|]. constructor; [|by apply IH]. intros Hin. by apply Hb, taken_keys.
Qed.

(** ** Merging *)

(** The free buffers other than [a] keep their sizes when [c], behind [a], goes. *)
Lemma bsize_gap s s' v a c w x :
  buffer s' = buffer s -> buffer_size s' = buffer_size s ->
  buffers s = v.*1 ++ a :: c :: w.*1 -> buffers s' = v.*1 ++ a :: w.*1 ->
  NoDup (v.*1 ++ a :: c :: w.*1) -> x ∈ frees v ++ frees w -> bsize s' x = bsize s x.
Proof.
  intros E1 E2 E3 E4 Hd Hx.
  assert (x ∈ v.*1 ++ w.*1) as Hx'.
  { rewrite elem_of_app in *. destruct Hx as [Hx|Hx]; apply frees_keys in Hx; auto. }
  rewrite <- !Permutation_middle in Hd. apply NoDup_cons in Hd as [Ha Hd]. apply NoDup_cons in Hd as [Hc Hd].
  apply (bsize_other _ _ v.*1 a [c] [] w.*1); try done.
  - intros ->. apply Ha. by right.
  - by intros ->%list_elem_of_singleton.
  - apply not_elem_of_nil.
Qed.

(** [w] without its first buffer if that is free. *)
Definition drop_free w : view :=
  match w with (c, hc) :: w' => if bb_free hc then w' else w | [] => [] end.

Lemma merge_next_spec env s v b h w :
  layout s (v ++ (b, h) :: w) -> bb_free h = true -> free_tree s (frees v ++ frees w) ->
  exists s', merge_next env s b = Some s' /\ layout s' (v ++ (b, h) :: drop_free w) /\
    free_tree s' (frees v ++ frees (drop_free w)) /\ rest_eq s s'.
Proof.
  intros H Fb Ft. pose proof (layout_NoDup _ _ H) as Hd. unfold merge_next.
  rewrite (ly_buffers _ _ H), fmap_split in *. rewrite is_last_at, next_in_at by done.
  destruct w as [|[c hc] w]; [rewrite bool_decide_true by done; cbn; eauto with kernel|].
  rewrite bool_decide_false by done. cbn [fmap list_fmap head mbind option_bind fst drop_free].
  rewrite (layout_header _ _ c hc H) by (apply elem_of_app; right; right; left). cbn [mbind option_bind].
  destruct (bb_free hc) eqn:Fc; [|eauto with kernel]. rewrite frees_cons, Fc in Ft. cbn in Ft, Hd.
  destruct (delete_free_tree s c (frees v ++ frees w)) as (t & Ht & Ft').
  { destruct Ft as (? & Hp & ?). split; [done|]. split; [|done]. by rewrite Hp, Permutation_middle. }
  { rewrite Permutation_middle. replace (frees v ++ c :: frees w) with (frees (v ++ (c, hc) :: w))
      by (autorewrite with view; by rewrite Fc).
    apply NoDup_frees. rewrite fmap_split. rewrite <- Permutation_middle in Hd. by apply NoDup_cons in Hd as [_ Hd]. }
  rewrite Ht. cbn [mbind option_bind].
  destruct (delete_free_spec env (set_free_buffers s t) v b h c hc w) as (pg & -> & Hl);
    [by eapply layout_ext; [..|exact H]|done|done|].
  eexists. split; [reflexivity|]. split; [exact Hl|]. split; [|done].
  eapply free_tree_ext; [| |done|exact Ft']; [done|].
  intros x Hx. apply (bsize_gap _ _ v b c w); [done|done| |apply fmap_split|done|done].
  cbn. by rewrite (ly_buffers _ _ H), fmap_app.
Qed.

Lemma merge_prev_spec env s v b h w :
  layout s (v ++ (b, h) :: w) -> bb_free h = true -> free_tree s (frees v ++ frees w) ->
  exists s' v' b' h', merge_prev env s b = Some (s', b') /\ layout s' (v' ++ (b', h') :: w) /\
    bb_free h' = true /\ free_tree s' (frees v' ++ frees w) /\ rest_eq s s' /\
    v' ++ [(b', h')] = if last_free v then v else v ++ [(b, h)].
Proof.
  intros H Fb Ft. pose proof (layout_NoDup _ _ H) as Hd. unfold merge_prev.
  destruct v as [|[p hp] v _] using rev_ind.
  { rewrite (ly_buffers _ _ H). cbn. rewrite bool_decide_true by done. exists s, [], b, h. eauto 10 with kernel. }
  rewrite last_free_snoc. rewrite <- app_assoc in H, Hd. cbn [app] in H, Hd.
  assert (buffers s = (v.*1 ++ [p]) ++ b :: w.*1) as Hbs by (by rewrite (ly_buffers _ _ H), fmap_app, <- app_assoc).
  rewrite fmap_app in Hd. cbn in Hd.
  rewrite Hbs, head_at, bool_decide_false by (by rewrite <- ?app_assoc || by destruct (v.*1)).
  rewrite <- app_assoc. cbn [app]. rewrite prev_in_at by done. cbn [mbind option_bind].
  rewrite (layout_header _ _ p hp H) by (apply elem_of_app; right; left). cbn [mbind option_bind].
  destruct (bb_free hp) eqn:Fp.
  2: { exists s, (v ++ [(p, hp)]), b, h. rewrite <- app_assoc. eauto 10 with kernel. }
  destruct (delete_free_spec env s v p hp b h w) as (pg & -> & Hl); [done..|]. cbn [mbind option_bind].
  autorewrite with view in Ft. rewrite Fp in Ft. cbn in Ft. rewrite <- app_assoc in Ft. cbn in Ft.
  destruct (delete_free_tree s p (frees v ++ frees w)) as (t & Ht & Ft').
  { destruct Ft as (? & Hp & ?). split; [done|]. split; [|done]. by rewrite Hp, Permutation_middle. }
  { rewrite Permutation_middle. replace (frees v ++ p :: frees w) with (frees (v ++ (p, hp) :: w))
      by (autorewrite with view; by rewrite Fp).
    apply NoDup_frees. rewrite fmap_split. replace (v.*1 ++ p :: w.*1) with ((v.*1 ++ [p]) ++ w.*1) by (by rewrite <- app_assoc).
    replace (v.*1 ++ p :: b :: w.*1) with ((v.*1 ++ [p]) ++ b :: w.*1) in Hd by (by rewrite <- app_assoc).
    rewrite <- Permutation_middle in Hd. by apply NoDup_cons in Hd as [_ Hd]. }
  cbn [free_buffers set_pages set_buffers]. rewrite Ht. cbn [mbind option_bind].
  eexists _, v, p, hp. split; [reflexivity|]. split; [by eapply layout_ext; [..|exact Hl]|].
  split; [done|]. split; [|done].
  eapply free_tree_ext; [| |done|exact Ft']; [done|].
  intros x Hx. apply (bsize_gap _ _ v p b w); [done|done| |apply fmap_split|done|done].
  cbn. by rewrite Hbs, <- app_assoc.
Qed.

(** ** The pages *)

Lemma page_align_eq x : 0 <= x -> x + 4095 < 2 ^ 32 -> PAGE_ALIGN x = (x + 4095) / PAGE_SIZE * PAGE_SIZE.
Proof. intros. unfold PAGE_ALIGN. rewrite u32_small by lia. apply land_page_mask. lia. Qed.

(** The pages of the data of [b] that hold nothing else. *)
Definition data_pages b (next q : Z) : Prop :=
  (buffer_data b + 4095) / PAGE_SIZE <= q < next / PAGE_SIZE.

Lemma needed_own v b h w hi q :
  chain (v ++ (b, h) :: w) hi -> hi mod PAGE_SIZE = 0 -> bb_free h = false ->
  needed (v ++ (b, h) :: w) hi q <->
    needed (v ++ (b, set_bb_free true h) :: w) hi q \/ data_pages b (start_of w hi) q.
Proof.
  intros Hc Hhi Fb. apply chain_app in Hc as [Hc1 Hc2]. cbn [chain start_of] in Hc1, Hc2. destruct Hc2 as [Hc2 Hc3].
  rewrite !needed_app. cbn [needed start_of]. unfold used_end, data_pages, set_bb_free. cbn [bb_free]. rewrite Fb.
  split; [|intros [[?|[?|?]]|?]; try tauto; right; left; plia].
  intros [?|[Hq|?]]; [tauto| |tauto].
  destruct (Z.le_gt_cases (start_of w hi / PAGE_SIZE) q) as [Hge|]; [|destruct (Z.le_gt_cases q ((b + sizeof_buffer - 1) / PAGE_SIZE))].
  - left. right. destruct w as [|[n hn] w]; [exfalso; cbn in *; plia|]. right.
    replace q with (start_of ((n, hn) :: w) hi / PAGE_SIZE) by plia. by apply needed_first.
  - left. right. left. plia.
  - right. plia.
Qed.

Lemma data_pages_own v b h w hi q :
  chain (v ++ (b, h) :: w) hi -> bb_free h = true ->
  data_pages b (start_of w hi) q -> ~ needed (v ++ (b, h) :: w) hi q.
Proof.
  intros Hc Fb Hq. apply chain_app in Hc as [Hc1 Hc2]. cbn [chain start_of] in Hc1, Hc2. destruct Hc2 as [Hc2 Hc3].
  rewrite needed_app. cbn [needed start_of]. unfold used_end, data_pages in *. rewrite Fb.
  intros [Hn|[Hn|Hn]]; [apply (needed_bounds _ _ _ Hc1) in Hn| |apply (needed_bounds _ _ _ Hc3) in Hn]; plia.
Qed.

(** ** Replacing a header *)

Lemma layout_replace s v b h h' w pg hs :
  layout s (v ++ (b, h) :: w) -> zlen pg = zlen (pages s) -> hs = <[b := h']> (headers s) ->
  (bb_free h' = false -> sizes_ok h' (start_of w (limit s) - buffer_data b)) ->
  let s' := set_pages (set_buffers s (buffers s) hs) pg in
  (forall q, present s' q <-> needed (v ++ (b, h') :: w) (limit s) q) ->
  layout s' (v ++ (b, h') :: w).
Proof.
  intros H Hl -> Hf' s' Hq. pose proof (layout_NoDup _ _ H) as Hd.
  destruct H as [Hr Hb Hh Hs Hc Ha Hf Hp]. split; change (limit s') with (limit s).
  - apply region_set_pages; [|done]. by eapply region_ext; [..|exact Hr].
  - cbn. by rewrite Hb, !fmap_split.
  - intros x k. apply (headers_update v b h h' w); done.
  - rewrite start_of_app in *. done.
  - rewrite chain_app in *. done.
  - rewrite Forall_app, Forall_cons in *. done.
  - rewrite fits_app in *. cbn [fits start_of] in *. tauto.
  - done.
Qed.

(** ** The operation *)

Definition released v b h w : view :=
  (if last_free v then v else v ++ [(b, set_bb_free true h)]) ++ drop_free w.

Lemma drop_free_facts w :
  taken (drop_free w) = taken w /\ async_used (drop_free w) = async_used w /\
  (merged w -> merged (drop_free w) /\ first_free (drop_free w) = false).
Proof.
  destruct w as [|[c hc] w]; [done|]. cbn [drop_free]. rewrite taken_cons.
  destruct (bb_free hc) eqn:Fc; [|cbn; rewrite ?Fc; by destruct w as [|[]]].
  split_and!; [done|unfold async_used, cost; cbn; by rewrite Fc|].
  destruct w as [|[d hd] w]; [done|]. cbn. rewrite Fc. cbn. by intros [-> ?].
Qed.

Lemma released_facts v b h w :
  bb_free h = false -> merged (v ++ (b, h) :: w) ->
  taken (released v b h w) = taken v ++ taken w /\
  async_used (released v b h w) = async_used v + async_used w /\ merged (released v b h w).
Proof.
  intros Fb Hm. apply merged_app in Hm as (Hv & Hw & _). apply merged_cons in Hw as [Hw _].
  destruct (drop_free_facts w) as (T & U & M). destruct (M Hw) as [M1 M2]. unfold released.
  destruct (last_free v) eqn:Hl; autorewrite with view; rewrite ?async_used_app, ?T, ?U.
  - split_and!; [done|done|]. apply merged_app. by rewrite M2, andb_false_r.
  - rewrite app_nil_r. change (async_used [_]) with 0. split_and!; [done|lia|].
    rewrite <- app_assoc. apply merged_app. split_and!; [done| |by rewrite Hl].
    apply merged_cons. by rewrite M2, andb_false_r.
Qed.

Lemma alloc_size_range ds os : 0 <= alloc_size ds os < 2 ^ 32.
Proof. apply u32_range. Qed.
Lemma async_used_nonneg v : 0 <= async_used v.
Proof.
  unfold async_used. induction v as [|[b h] v IH]; cbn [foldr snd]; [lia|].
  assert (0 <= cost h); [|lia]. unfold cost, sizeof_buffer.
  pose proof (alloc_size_range (data_size h) (offsets_size h)). destruct (_ && _); lia.
Qed.

(** The account of the asynchronous space after a release. *)
Definition given_back s h : Z :=
  if async_transaction h then free_async_space s + alloc_size (data_size h) (offsets_size h) + sizeof_buffer
  else free_async_space s.

Lemma give_back s v b h w :
  alloc_ok s (v ++ (b, h) :: w) -> bb_free h = false ->
  0 <= given_back s h /\ given_back s h + (async_used v + async_used w) = buffer_size s / 2 /\
  (if async_transaction h
   then set_async_space s (u32 (free_async_space s + u32 (alloc_size (data_size h) (offsets_size h) + sizeof_buffer)))
   else s) = set_async_space s (given_back s h).
Proof.
  intros [Hl _ _ _ Ha Hn] Fb. rewrite async_used_app in Ha. unfold async_used in Ha at 2. cbn [foldr] in Ha.
  change (foldr _ 0 w) with (async_used w) in Ha. cbn [snd] in Ha. unfold cost in Ha. rewrite Fb in Ha. cbn [negb andb] in Ha.
  pose proof (async_used_nonneg v). pose proof (async_used_nonneg w).
  pose proof (alloc_size_range (data_size h) (offsets_size h)).
  pose proof (ly_region _ _ Hl) as []. unfold limit in *. unfold given_back, sizeof_buffer in *.
  assert (buffer_size s / 2 <= buffer_size s) by (Z.to_euclidean_division_equations; lia).
  destruct (async_transaction h); [|by destruct s; split_and!; [lia|lia|]].
  rewrite !u32_small by (rewrite ?u32_small by lia; lia). split_and!; [lia|lia|f_equal; lia].
Qed.

Lemma header_ext s s' b h :
  pages s' = pages s -> buffer s' = buffer s -> is_Some (header s' b) -> headers s !! b = Some h ->
  header s b = Some h.
Proof.
  intros E1 E2 [k Hk] Hh. unfold header, mapped, page_get in *. rewrite E1, E2 in Hk. by case_match.
Qed.

(** The pages of the data go, and the header says so. *)
Lemma free_data_spec env s v b h w :
  layout s (v ++ (b, h) :: w) -> bb_free h = false ->
  exists pg r, binder_update_page_range env s false (PAGE_ALIGN (buffer_data b))
      (Z.land (u32 (buffer_data b + (start_of w (limit s) - buffer_data b))) PAGE_MASK) None
    = Some (set_pages s pg, r) /\
    header (set_pages s pg) b = Some h /\
    layout (set_header (set_pages s pg) b (set_bb_free true h)) (v ++ (b, set_bb_free true h) :: w).
Proof.
  intros H Fb. pose proof (ly_region _ _ H) as Hr. pose proof (ly_chain _ _ H) as Hc.
  pose proof Hc as [_ [Hc2 Hc3]]%chain_app. cbn [chain] in Hc2. pose proof (chain_le _ _ Hc3) as Hle.
  destruct (layout_bounds _ _ b h H) as [B1 B2]; [apply elem_of_app; right; left|].
  pose proof Hr as [R1 R2 R3 R4 R5 R6]. set (n := start_of w (limit s)) in *.
  assert (limit s mod PAGE_SIZE = 0) as Rl by (unfold limit in *; plia).
  assert (limit s <= 2 ^ 32 - PAGE_SIZE) by plia.
  rewrite page_align_eq, Zplus_minus, u32_small, land_page_mask by (unfold buffer_data, sizeof_buffer, PAGE_SIZE in *; lia).
  pose proof (fun q => needed_own v b h w _ q Hc Rl Fb) as Hown.
  pose proof (fun q => data_pages_own v b (set_bb_free true h) w (limit s) q) as Hout.
  assert (chain (v ++ (b, set_bb_free true h) :: w) (limit s)) as Hc' by (rewrite chain_app in *; done).
  destruct (update_free_spec env s ((buffer_data b + 4095) / PAGE_SIZE) (n / PAGE_SIZE) None) as (pg & r & -> & Hl & Hpg);
    [done|intros q Hq; apply (ly_pages _ _ H), Hown; by right|].
  assert (layout (set_header (set_pages s pg) b (set_bb_free true h)) (v ++ (b, set_bb_free true h) :: w)) as HL.
  { apply (layout_replace s v b h (set_bb_free true h) w pg); [done|done|done|done|].
    intros q. rewrite (present_ext (set_pages s pg)) by done. rewrite Hpg, (ly_pages _ _ H), Hown.
    fold n. specialize (Hout q Hc' eq_refl). fold n in Hout. unfold data_pages in *. tauto. }
  exists pg, r. split; [done|]. split; [|done].
  eapply (header_ext _ (set_header (set_pages s pg) b (set_bb_free true h))); [done|done| |].
  { rewrite (layout_header _ _ b (set_bb_free true h) HL); [done|]. apply elem_of_app. right. left. }
  cbn. apply (ly_headers _ _ H). apply elem_of_app. right. left.
Qed.

Lemma free_buf_spec env s v b h w :
  alloc_ok s (v ++ (b, h) :: w) -> bb_free h = false -> bb_transaction h = None ->
  exists s', binder_free_buf env s b = Some s' /\ alloc_ok s' (released v b h w) /\
    vma s' = vma s /\ buffer s' = buffer s /\ user_buffer_offset s' = user_buffer_offset s /\
    buffer_size s' = buffer_size s /\ free_async_space s' = given_back s h.
Proof.
  intros Hok Fb Ht. pose proof (ao_layout _ _ Hok) as H.
  assert ((b, h) ∈ v ++ (b, h) :: w) as Hin by (apply elem_of_app; right; left).
  destruct (layout_bounds _ _ b h H Hin) as [B1 B2]. destruct (give_back _ _ _ _ _ Hok Fb) as (A1 & A2 & A3).
  pose proof (ly_fits _ _ H) as Hf. rewrite fits_app in Hf. destruct Hf as [_ [Hf _]]. destruct (Hf Fb) as (_ & _ & _ & F3).
  unfold binder_free_buf. rewrite (layout_size _ _ _ _ _ H). cbn [mbind option_bind].
  rewrite (layout_header _ _ _ _ H Hin). cbn [mbind option_bind].
  rewrite Fb, Ht, (proj2 (Z.ltb_ge _ _) F3), (proj2 (Z.ltb_ge b (buffer s)) B1).
  rewrite (proj2 (Z.ltb_ge (buffer s + buffer_size s) b)) by (unfold limit, sizeof_buffer in *; lia).
  rewrite bool_decide_false by (by intros []). cbn [orb]. rewrite A3.
  set (s1 := set_async_space s (given_back s h)). change (limit s) with (limit s1).
  assert (layout s1 (v ++ (b, h) :: w)) as H1 by (by eapply layout_ext; [..|exact H]).
  destruct (free_data_spec env s1 v b h w H1 Fb) as (pg & r & -> & Hh & H2). cbn [mbind option_bind].
  destruct (delete_alloc_tree s1 b (taken v) (taken w)) as (t & Hdel & At).
  { destruct (ao_taken _ _ Hok) as [? Hk]. split; [done|]. cbn. rewrite Hk. autorewrite with view. by rewrite Fb. }
  { pose proof (NoDup_taken _ (layout_NoDup _ _ H)) as Hd. autorewrite with view in Hd. by rewrite Fb in Hd. }
  cbn [allocated_buffers set_pages]. rewrite Hdel. cbn [mbind option_bind]. rewrite Hh. cbn [mbind option_bind].
  destruct (merge_next_spec env (set_header (set_allocated_buffers (set_pages s1 pg) t) b (set_bb_free true h))
    v b (set_bb_free true h) w) as (s3 & -> & H3 & Ft3 & R3); [by eapply layout_ext; [..|exact H2]|done| |].
  { eapply (free_tree_ext s); [done| |done|]; [by intros x _; apply bsize_ext|].
    pose proof (ao_free _ _ Hok) as Ft. autorewrite with view in Ft. by rewrite Fb in Ft. }
  cbn [mbind option_bind].
  destruct (merge_prev_spec env s3 v b (set_bb_free true h) (drop_free w) H3 eq_refl Ft3)
    as (s4 & v' & b' & h' & -> & H4 & Fh' & Ft4 & R4 & Hv'). cbn [mbind option_bind].
  destruct (insert_free_spec s4 v' b' h' (drop_free w) (layout_readable _ _ H4) Fh' Ft4) as (tf & -> & Ft5).
  destruct (rest_eq_trans _ _ _ R3 R4) as (E1 & E2 & E3 & E4 & E5 & E6). cbn in E1, E2, E3, E4, E5, E6.
  assert (v' ++ (b', h') :: drop_free w = released v b h w) as Hrel.
  { unfold released. rewrite <- Hv'. by rewrite <- app_assoc. }
  destruct (released_facts v b h w Fb (ao_merged _ _ Hok)) as (T & U & M). rewrite Hrel in *.
  eexists. split; [reflexivity|]. split; [|done]. split.
  - by eapply layout_ext; [..|exact H4].
  - rewrite T. destruct At as [? At]. unfold alloc_tree. cbn. by rewrite E5.
  - done.
  - done.
  - cbn. rewrite E6, E4, U. done.
  - cbn. by rewrite E6.
Qed.
