(* ===== verification/BinderTake.v ===== *)
(** * Binder buffers: allocation

    [binder_alloc_buf] takes a smallest free buffer that is large enough, cuts
    off the rest if that can hold a buffer of its own ([carve]), and makes the
    pages it needs present. *)

From stdpp Require Import base numbers list gmap sorting.
From S2P Require Import Prelude RbTree RbTreeProps RbKeyed BinderAlloc BinderLayout BinderAllocInv.
From S2P Require Import BinderRelease.

Open Scope Z_scope.

Implicit Types (v w : view) (b : Z) (h : binder_buffer) (s : binder_alloc) (p : Z).

(** ** Sizes *)

Lemma ALIGN_eq x : ALIGN x = 4 * (u32 (x + 3) / 4).
Proof.
  unfold ALIGN. change (Z.lnot 3) with (Z.lnot (Z.ones 2)). rewrite <- Z.ldiff_land.
  rewrite Z.ldiff_ones_r by lia. rewrite Z.shiftl_mul_pow2, Z.shiftr_div_pow2 by lia.
  change (2 ^ 2) with 4. pose proof (u32_range (x + 3)). rewrite u32_small; [lia|].
  Z.to_euclidean_division_equations; lia.
Qed.

Lemma alloc_size_aligned ds os : alloc_size ds os mod 4 = 0.
Proof.
  unfold alloc_size. rewrite !ALIGN_eq, <- Z.mul_add_distr_l. unfold u32 at 1.
  change (2 ^ 32) with (4 * 2 ^ 30). rewrite Z.mul_mod_distr_l by lia. by rewrite Z.mul_comm, Z.mod_mul.
Qed.

(** The two comparisons in [binder_alloc_buf] catch every overflow. *)
Lemma size_check ds os :
  0 <= ds < 2 ^ 32 -> 0 <= os < 2 ^ 32 -> ds <= alloc_size ds os -> os <= alloc_size ds os ->
  ds <= ALIGN ds /\ ALIGN ds + os <= alloc_size ds os /\ alloc_size ds os < ds + os + 8.
Proof.
  intros Hd Ho H1 H2. unfold alloc_size in *. pose proof (ALIGN_eq ds) as Ed. pose proof (ALIGN_eq os) as Eo.
  unfold u32 in *. set (a := ALIGN ds) in *. set (c := ALIGN os) in *. clearbody a c.
  Z.to_euclidean_division_equations; lia.
Qed.

(** ** The search *)

Lemma best_fit_spec s size t : forall best,
  (forall y, y ∈ inorder t ->
     exists h, header s y = Some h /\ bb_free h = true /\ binder_buffer_size s y = Some (bsize s y)) ->
  StronglySorted (fun x y => bsize s x <= bsize s y) (inorder t) ->
  (forall b, best = Some b -> size < bsize s b /\ forall y, y ∈ inorder t -> bsize s y <= bsize s b) ->
  exists r e, best_fit_loop s size t best = Some (r, e) /\
    match r with
    | None => best = None /\ forall y, y ∈ inorder t -> bsize s y < size
    | Some b => (b ∈ inorder t \/ best = Some b) /\ size <= bsize s b /\
        (forall y, y ∈ inorder t -> size <= bsize s y -> bsize s b <= bsize s y) /\
        e = (bsize s b =? size)
    end.
Proof.
  induction t as [|c l IHl x r IHr]; intros best Hh Hs Hb.
  { exists best, false. split; [done|]. destruct best as [b|].
    - destruct (Hb b eq_refl) as [H1 H2]. split_and!; [by right|lia|by intros ? ?%not_elem_of_nil|].
      symmetry. apply Z.eqb_neq. lia.
    - split; [done|]. by intros ? ?%not_elem_of_nil. }
  cbn [inorder] in *. pose proof Hs as Hs'. apply StronglySorted_app in Hs' as (_ & Hsl & Hsr).
  apply StronglySorted_cons in Hsr as [_ Hsr]. apply sorted_split in Hs as [S1 S2].
  destruct (Hh x) as (h & H1 & H2 & H3); [apply elem_of_app; right; left|].
  cbn [best_fit_loop]. rewrite H1. cbn [mbind option_bind]. rewrite H2. cbn [negb]. rewrite H3. cbn [mbind option_bind].
  assert (forall y, y ∈ inorder l ++ x :: inorder r -> y ∈ inorder l \/ y = x \/ y ∈ inorder r) as Hsp
    by (intros y; by rewrite elem_of_app, elem_of_cons).
  destruct (Z.ltb_spec size (bsize s x)) as [Hlt|Hge]; [|destruct (Z.ltb_spec (bsize s x) size) as [Hlt|Hge']].
  - destruct (IHl (Some x)) as (b & e & -> & Hpost);
      [intros y Hy; apply Hh, elem_of_app; by left|done|intros b [= <-]; auto|].
    exists b, e. split; [done|]. destruct b as [b|]; [|by destruct Hpost].
    destruct Hpost as (G1 & G2 & G3 & G4). assert (bsize s b <= bsize s x) as Hbx.
    { destruct G1 as [G1|[= <-]]; [by apply S1|lia]. }
    split_and!; [|done| |done].
    + left. rewrite elem_of_app, elem_of_cons. destruct G1 as [|[= <-]]; auto.
    + intros y [Hy|[->|Hy]]%Hsp Hsy; [by apply G3|done|]. specialize (S2 y Hy). cbn in S2. lia.
  - destruct (IHr best) as (b & e & -> & Hpost);
      [intros y Hy; apply Hh, elem_of_app; right; by right|done| |].
    { intros b Hbb. destruct (Hb b Hbb) as [? Hall]. split; [done|]. intros y Hy. apply Hall, elem_of_app. right. by right. }
    exists b, e. split; [done|].
    assert (forall y, y ∈ inorder l -> bsize s y < size) as Hl by (intros y Hy; specialize (S1 y Hy); cbn in S1; lia).
    destruct b as [b|].
    + destruct Hpost as (G1 & G2 & G3 & G4). split_and!; [|done| |done].
      * rewrite elem_of_app, elem_of_cons. tauto.
      * intros y [Hy|[->|Hy]]%Hsp Hsy; [specialize (Hl y Hy); lia|lia|by apply G3].
    + destruct Hpost as [-> G]. split; [done|]. intros y [Hy|[->|Hy]]%Hsp; [by apply Hl|done|by apply G].
  - exists (Some x), true. split; [done|]. assert (bsize s x = size) as Hx by lia. split_and!.
    + left. apply elem_of_app. right. left.
    + lia.
    + intros y _ Hy. lia.
    + symmetry. by apply Z.eqb_eq.
Qed.

(** ** Cutting a free buffer *)

Definition taken_header h (ds os : Z) (async : bool) : binder_buffer :=
  set_sizes ds os async (set_bb_free false h).

(** Whether the rest of a buffer of [room] bytes becomes a buffer. *)
Definition splits_off (size room : Z) : bool := size + sizeof_buffer + 4 <? room.

Definition cut_off (env : page_env) b (size room : Z) : view :=
  if splits_off size room then [(buffer_data b + size, set_bb_free true (pe_stale env (buffer_data b + size)))]
  else [].

Definition carve (env : page_env) b h (ds os : Z) (async : bool) (room : Z) : view :=
  (b, taken_header h ds os async) :: cut_off env b (alloc_size ds os) room.

(** The end of what the cut buffers need. *)
Definition carve_end b (size room : Z) : Z :=
  if splits_off size room then buffer_data b + size + sizeof_buffer else buffer_data b + room.

Lemma carve_span env b h ds os async room q :
  0 <= alloc_size ds os <= room ->
  needed (carve env b h ds os async room) (buffer_data b + room) q <->
    holds_page b (carve_end b (alloc_size ds os) room) q.
Proof.
  intros Hs. unfold carve, cut_off, carve_end, splits_off. set (size := alloc_size ds os) in *. clearbody size.
  destruct (Z.ltb_spec (size + sizeof_buffer + 4) room); cbn [needed start_of];
    unfold used_end; cbn [bb_free taken_header set_sizes set_bb_free]; split.
  - intros [?|[?|[]]]; plia.
  - intros ?. destruct (Z.le_gt_cases q ((buffer_data b + size - 1) / PAGE_SIZE)); [left|right; left]; plia.
  - intros [?|[]]; plia.
  - intros ?. left. plia.
Qed.

(** The pages from the end of the header of [b] to [j] are the missing ones. *)
Lemma carve_needed env v b h w hi ds os async q :
  chain (v ++ (b, h) :: w) hi -> hi mod PAGE_SIZE = 0 -> bb_free h = true ->
  let n := start_of w hi in let room := n - buffer_data b in let size := alloc_size ds os in
  0 <= size <= room ->
  let used := if splits_off size room then size + sizeof_buffer else size in
  let j := Z.min (n / PAGE_SIZE) ((buffer_data b + used + 4095) / PAGE_SIZE) in
  (needed (v ++ carve env b h ds os async room ++ w) hi q <->
    needed (v ++ (b, h) :: w) hi q \/ (buffer_data b + 4095) / PAGE_SIZE <= q < j) /\
  ((buffer_data b + 4095) / PAGE_SIZE <= q < j -> ~ needed (v ++ (b, h) :: w) hi q).
Proof.
  intros Hc Hhi Fb n room size Hsz used j. apply chain_app in Hc as [Hc1 Hc2].
  cbn [chain start_of] in Hc1, Hc2. destruct Hc2 as [Hc2 Hc3]. fold n in Hc2.
  pose proof (needed_bounds v b q Hc1) as B1. pose proof (needed_bounds w hi q Hc3) as B2. fold n in B2.
  assert (n mod PAGE_SIZE <> 0 -> needed w hi (n / PAGE_SIZE)) as B3.
  { intros Hn. destruct w as [|[c hc] w]; [done|]. by apply (needed_first ((c, hc) :: w)). }
  assert (n = buffer_data b + room) as En by (unfold room; lia).
  rewrite !needed_app. cbn [start_of needed]. fold n.
  change (start_of (carve env b h ds os async room ++ w) hi) with b.
  rewrite En at 1. rewrite carve_span by done. unfold used_end. rewrite Fb.
  fold size. unfold carve_end, used, splits_off in *. clearbody size. split; [split|].
  - intros [Hv|[Hv|Hv]]; [tauto| |tauto].
    destruct (Z.le_gt_cases q ((b + sizeof_buffer - 1) / PAGE_SIZE)); [left; right; left; plia|].
    destruct (Z.le_gt_cases (n / PAGE_SIZE) q); destruct (Z.ltb_spec (size + sizeof_buffer + 4) room);
      try (right; unfold j; plia); left; right; right;
      (replace q with (n / PAGE_SIZE) by plia; apply B3; plia).
  - intros [[Hv|[Hv|Hv]]|Hv]; [tauto| |tauto|]; right; left;
      destruct (Z.ltb_spec (size + sizeof_buffer + 4) room); unfold j in *; plia.
  - intros Hq [Hv|[Hv|Hv]]; [specialize (B1 Hv)| |specialize (B2 Hv)]; unfold j in *; plia.
Qed.

Lemma headers_insert v w b h (hs : gmap Z binder_buffer) :
  b ∉ (v ++ w).*1 -> (forall x k, hs !! x = Some k <-> (x, k) ∈ v ++ w) ->
  forall x k, <[b := h]> hs !! x = Some k <-> (x, k) ∈ v ++ (b, h) :: w.
Proof.
  intros Hb Hhs x k. rewrite lookup_insert_Some, Hhs, !elem_of_app, !elem_of_cons. split.
  - intros [[-> ->]|[Hne [H|H]]]; auto.
  - intros [H|[[= <- <-]|H]]; [right|by left|right]; (split; [|auto]); intros <-; apply Hb;
      apply list_elem_of_fmap; exists (b, k); (split; [done|]); apply elem_of_app; auto.
Qed.

(** The view after the cut. *)
Lemma layout_carve env s s' v b h w ds os async :
  layout s (v ++ (b, h) :: w) ->
  let room := start_of w (limit s) - buffer_data b in
  alloc_size ds os <= room -> sizes_ok (taken_header h ds os async) room ->
  buffer s' = buffer s -> buffer_size s' = buffer_size s -> zlen (pages s') = zlen (pages s) ->
  buffers s' = (v ++ carve env b h ds os async room ++ w).*1 ->
  (forall x k, headers s' !! x = Some k <-> (x, k) ∈ v ++ carve env b h ds os async room ++ w) ->
  (forall q, present s' q <-> needed (v ++ carve env b h ds os async room ++ w) (limit s) q) ->
  layout s' (v ++ carve env b h ds os async room ++ w).
Proof.
  intros [[] Hb Hh Hs Hc Ha Hf Hp] room Hroom Hfit E1 E2 E3 E4 Hhs Hq.
  assert (limit s' = limit s) as El by (unfold limit; by rewrite E1, E2).
  pose proof (alloc_size_range ds os) as Hsz. pose proof (alloc_size_aligned ds os) as Hal.
  assert (start_of w (limit s) = buffer_data b + room) as En by (unfold room; lia).
  rewrite chain_app in Hc. cbn [chain start_of] in Hc. destruct Hc as (Hc1 & Hc2 & Hc3).
  rewrite fits_app in Hf. cbn [fits start_of] in Hf. destruct Hf as (Hf1 & _ & Hf3).
  rewrite Forall_app, Forall_cons in Ha. destruct Ha as (Ha1 & Ha2 & Ha3). cbn [fst] in Ha2.
  split; rewrite ?El, ?E1; try done.
  - split; unfold limit in *; rewrite ?E1, ?E2, ?E3; done.
  - by rewrite start_of_app in *.
  - rewrite !chain_app. split_and!; [done| |done]. unfold carve, cut_off, splits_off. rewrite En.
    case_if; cbn [chain start_of]; split_and!; try done; unfold buffer_data, sizeof_buffer in *; lia.
  - rewrite !Forall_app. split_and!; [done| |done]. unfold carve, cut_off. constructor; [done|].
    case_if; [|constructor]. constructor; [|constructor]. cbn [fst]. clear -Ha2 Hal. plia.
  - rewrite !fits_app. split_and!; [done| |done]. unfold carve, cut_off, splits_off. rewrite En. destruct Hfit as (F1 & F2 & F3).
    cbn [data_size offsets_size taken_header set_sizes] in *.
    case_if; cbn [fits start_of]; (split; [intros _|done]); unfold sizes_ok;
      cbn [data_size offsets_size taken_header set_sizes]; unfold room in *; lia.
Qed.

(** Reading from a state that has more pages, or another header for a buffer. *)
Lemma readable_intro s s' w w' :
  layout s w -> buffer s' = buffer s -> buffer_size s' = buffer_size s -> buffers s' = buffers s ->
  region s' -> (forall q, present s q -> present s' q) ->
  (forall b h, (b, h) ∈ w' -> headers s' !! b = Some h /\ b ∈ w.*1) -> readable s' w'.
Proof.
  intros H E1 E2 E3 Hr Hpres Hw b h Hin. destruct (Hw b h Hin) as [Hh ([b' k] & -> & Hk)%list_elem_of_fmap]. cbn in *.
  assert (forall a, mapped s a = true -> mapped s' a = true) as Hm.
  { intros a. rewrite !mapped_present by (done || apply H). apply Hpres. }
  pose proof (layout_header _ _ _ _ H Hk) as Hd. pose proof (layout_size_in _ _ _ _ H Hk) as Hz. split.
  - unfold header in *. destruct (mapped s b' && _) eqn:Em; [|done]. apply andb_true_iff in Em as [M1 M2].
    by rewrite (Hm _ M1), (Hm _ M2).
  - rewrite (bsize_ext s) by done. unfold binder_buffer_size in *. rewrite E1, E2, E3. done.
Qed.

Lemma carve_taken env v b h w ds os async room :
  taken (v ++ carve env b h ds os async room ++ w) = taken v ++ b :: taken w.
Proof. unfold carve, cut_off. autorewrite with view. by destruct (splits_off _ _). Qed.

Lemma carve_async env b h ds os async room :
  async_used (carve env b h ds os async room) = if async then alloc_size ds os + sizeof_buffer else 0.
Proof.
  unfold carve, cut_off, async_used, cost. cbn [foldr snd taken_header set_sizes bb_free set_bb_free async_transaction
    data_size offsets_size negb andb]. destruct async, (splits_off _ _);
    cbn [foldr snd bb_free set_bb_free negb andb]; lia.
Qed.

Lemma carve_merged env v b h w ds os async room :
  merged (v ++ (b, h) :: w) -> bb_free h = true -> merged (v ++ carve env b h ds os async room ++ w).
Proof.
  intros (Hv & Hw & _)%merged_app Fb. apply merged_cons in Hw as [Hw Hf]. rewrite Fb in Hf. cbn in Hf.
  apply merged_app. split_and!; [done| |].
  - unfold carve, cut_off. destruct (splits_off _ _); cbn [app]; rewrite !merged_cons; by rewrite ?Hf.
  - unfold carve. cbn. by rewrite andb_false_r.
Qed.

(** ** Taking the buffer once the pages are there *)

Definition headers1 s b h : gmap Z binder_buffer := <[b := set_bb_free false h]> (headers s).
Definition headers2 (env : page_env) s b h (size room : Z) : gmap Z binder_buffer :=
  foldr (fun q m => <[q.1 := q.2]> m) (headers1 s b h) (cut_off env b size room).

Section take.
Context (env : page_env) (s : binder_alloc) (v w : view) (b : Z) (h : binder_buffer).
Context (Hok : alloc_ok s (v ++ (b, h) :: w)).

Lemma take_headers1 x k : headers1 s b h !! x = Some k <-> (x, k) ∈ v ++ (b, set_bb_free false h) :: w.
Proof using Hok.
  apply (headers_update v b h); [eapply layout_NoDup, Hok|apply Hok].
Qed.

Context (size room : Z) (Hroom : room = start_of w (limit s) - buffer_data b) (Hsize : 0 <= size <= room).

Lemma take_new : splits_off size room = true -> buffer_data b + size ∉ v.*1 ++ b :: w.*1.
Proof using Hok Hsize Hroom.
  intros Hsp Hin. pose proof (ly_chain _ _ (ao_layout _ _ Hok)) as Hc.
  rewrite chain_app in Hc. cbn [chain start_of] in Hc. destruct Hc as (Hc1 & Hc2 & Hc3).
  unfold splits_off in *. unbool. apply elem_of_app in Hin as [Hin|[Hin|Hin]%elem_of_cons].
  - apply list_elem_of_fmap in Hin as ([x k] & Hx & Hin). cbn in Hx. subst x.
    apply (chain_in _ _ _ _ Hc1) in Hin. unfold buffer_data, sizeof_buffer in *. lia.
  - unfold buffer_data, sizeof_buffer in *. lia.
  - apply list_elem_of_fmap in Hin as ([x k] & Hx & Hin). cbn in Hx. subst x.
    apply (chain_in _ _ _ _ Hc3) in Hin. unfold buffer_data, sizeof_buffer in *. lia.
Qed.

Lemma take_headers2 x k :
  headers2 env s b h size room !! x = Some k <->
  (x, k) ∈ v ++ (b, set_bb_free false h) :: cut_off env b size room ++ w.
Proof using Hok Hsize Hroom.
  unfold headers2, cut_off. destruct (splits_off size room) eqn:Hsp; cbn [foldr fst snd]; [|apply take_headers1].
  rewrite (cons_middle (b, _)), app_assoc. cbn [app]. apply headers_insert.
  - pose proof (take_new Hsp) as Hn. rewrite <- app_assoc. cbn [app]. by rewrite fmap_split.
  - intros y j. rewrite take_headers1, <- app_assoc. done.
Qed.

Lemma take_NoDup h' : NoDup (v ++ (b, h') :: cut_off env b size room ++ w).*1.
Proof using Hok Hsize Hroom.
  pose proof (layout_NoDup _ _ (ao_layout _ _ Hok)) as Hd. unfold cut_off. rewrite !fmap_split in *.
  destruct (splits_off size room) eqn:Hsp; [|done].
  pose proof (take_new Hsp) as Hn. cbn in *. rewrite <- !Permutation_middle in *.
  apply NoDup_cons in Hd as [Hd1 Hd2]. apply not_elem_of_cons in Hn as [Hn1 Hn2].
  constructor; [apply not_elem_of_cons; split; [congruence|done]|]. by constructor.
Qed.

Lemma take_headers3 h' x k :
  <[b := h']> (headers2 env s b h size room) !! x = Some k <->
  (x, k) ∈ v ++ (b, h') :: cut_off env b size room ++ w.
Proof using Hok Hsize Hroom.
  apply (headers_update v b (set_bb_free false h)); [apply take_NoDup|apply take_headers2].
Qed.
End take.

(** Fields that taking a buffer does not change. *)
Definition area_eq s s' : Prop :=
  vma s' = vma s /\ buffer s' = buffer s /\ user_buffer_offset s' = user_buffer_offset s /\
  buffer_size s' = buffer_size s.

(** The rest that is cut off is linked and entered as free. *)
Lemma cut_off_spec env s1 v w b h size room hs :
  readable (set_buffers s1 (v ++ (b, h) :: cut_off env b size room ++ w).*1 hs)
    (v ++ (b, h) :: cut_off env b size room ++ w) ->
  NoDup (v ++ (b, h) :: cut_off env b size room ++ w).*1 ->
  buffers s1 = v.*1 ++ b :: w.*1 ->
  hs = foldr (fun q m => <[q.1 := q.2]> m) (headers s1) (cut_off env b size room) ->
  bb_free h = false -> free_tree s1 (frees v ++ frees w) ->
  exists t, (if (if splits_off size room then size + sizeof_buffer else size) =? size then Some s1 else
        binder_insert_free_buffer
          (set_buffers s1 (list_add_after (buffers s1) b (buffer_data b + size))
             (<[buffer_data b + size := set_bb_free true (pe_stale env (buffer_data b + size))]> (headers s1)))
          (buffer_data b + size)) =
      Some (set_free_buffers (set_buffers s1 (v ++ (b, h) :: cut_off env b size room ++ w).*1 hs) t) /\
    free_tree (set_free_buffers (set_buffers s1 (v ++ (b, h) :: cut_off env b size room ++ w).*1 hs) t)
      (frees (v ++ (b, h) :: cut_off env b size room ++ w)).
Proof.
  intros Hrd Hd Hb Hhs Fb Ft. unfold cut_off in *. destruct (splits_off size room).
  - rewrite (proj2 (Z.eqb_neq _ _)) by (unfold sizeof_buffer; lia). cbn [foldr fst snd] in Hhs. rewrite <- Hhs.
    assert (NoDup (v.*1 ++ b :: w.*1)) as Hd'.
    { rewrite fmap_split in Hd. cbn in Hd. rewrite <- !Permutation_middle in *.
      apply NoDup_cons in Hd as [Hd1 Hd2]. apply NoDup_cons in Hd2 as [_ Hd2]. apply not_elem_of_cons in Hd1 as [_ Hd1].
      by constructor. }
    rewrite Hb, add_after_at by done. rewrite fmap_split in *. cbn [app fmap list_fmap fst] in *.
    set (new := buffer_data b + size) in *. set (k := set_bb_free true (pe_stale env new)) in *.
    set (s2 := set_buffers s1 (v.*1 ++ b :: new :: w.*1) hs) in *.
    destruct (insert_free_spec s2 (v ++ [(b, h)]) new k w) as (t & Ht & Hft).
    + rewrite <- app_assoc. exact Hrd.
    + done.
    + eapply free_tree_ext; [| | |exact Ft]; [done| |by autorewrite with view; rewrite Fb; cbn; rewrite app_nil_r].
      intros x Hx. apply (bsize_other s1 s2 v.*1 b [] [new] w.*1); [done|done|done|done|..].
      all: assert (x ∈ v.*1 ++ w.*1) as Hx' by
        (rewrite elem_of_app in *; destruct Hx as [Hx|Hx]; apply frees_keys in Hx; auto).
      all: rewrite <- !Permutation_middle in Hd; apply NoDup_cons in Hd as [Hd1 Hd2]; apply NoDup_cons in Hd2 as [Hd2 _].
      * intros ->. apply Hd1. by right.
      * apply not_elem_of_nil.
      * by intros ->%list_elem_of_singleton.
    + exists t. split; [exact Ht|]. rewrite <- app_assoc in Hft. exact Hft.
  - rewrite Z.eqb_refl. cbn [foldr app] in *. exists (free_buffers s1). rewrite fmap_split, <- Hb, Hhs.
    split; [by destruct s1|]. eapply free_tree_ext; [| | |exact Ft]; [done|by intros x _; apply bsize_ext|].
    autorewrite with view. by rewrite Fb.
Qed.

Lemma readable_more s s1 v :
  layout s v -> buffer s1 = buffer s -> buffer_size s1 = buffer_size s -> buffers s1 = buffers s ->
  headers s1 = headers s -> region s1 -> (forall q, present s q -> present s1 q) -> readable s1 v.
Proof.
  intros H E1 E2 E3 E4 Hr Hmore. apply (readable_intro s s1 v v H); try done.
  intros x k Hk. rewrite E4. split; [by apply H|]. apply list_elem_of_fmap. by exists (x, k).
Qed.

(** From the tree of free buffers to that of allocated ones. *)
Lemma take_first s s1 v b h w :
  alloc_ok s (v ++ (b, h) :: w) -> bb_free h = true ->
  region s1 -> (forall q, present s q -> present s1 q) -> (exists pg, s1 = set_pages s pg) ->
  exists t tA, let sA := set_header (set_free_buffers s1 t) b (set_bb_free false h) in
    rb_delete b (free_buffers s1) = Some t /\ header s1 b = Some h /\
    binder_insert_allocated_buffer sA b = Some (set_allocated_buffers sA tA) /\
    free_tree (set_allocated_buffers sA tA) (frees v ++ frees w) /\
    alloc_tree (set_allocated_buffers sA tA) (taken v ++ b :: taken w).
Proof.
  intros Hok Fb Hr Hmore [pg ->]. pose proof (ao_layout _ _ Hok) as H.
  destruct (delete_free_tree s b (frees v ++ frees w)) as (t & Ht & Ft).
  { destruct (ao_free _ _ Hok) as (? & Hp & ?). split; [done|]. split; [|done]. rewrite Hp.
    autorewrite with view. rewrite Fb. cbn. by rewrite Permutation_middle. }
  { pose proof (NoDup_frees _ (layout_NoDup _ _ H)) as Hd. autorewrite with view in Hd. rewrite Fb in Hd. cbn in Hd.
    by rewrite Permutation_middle. }
  set (sA := set_header (set_free_buffers (set_pages s pg) t) b (set_bb_free false h)).
  destruct (insert_taken_spec sA v b (set_bb_free false h) w (limit s)) as (tA & HtA & At); [| |done| |].
  { apply (readable_intro s sA _ _ H); [done|done|done|by eapply region_ext; [..|exact Hr]|exact Hmore|]. intros x k Hk. split; [by apply (take_headers1 s v w b h Hok)|].
    rewrite fmap_split, elem_of_app, elem_of_cons.
    apply elem_of_app in Hk as [Hk|[[= -> ->]|Hk]%elem_of_cons]; [left|by right; left|right; right]; apply list_elem_of_fmap; by exists (x, k). }
  { pose proof (ly_chain _ _ H) as Hc. by rewrite chain_app in *. }
  { destruct (ao_taken _ _ Hok) as [? Hk]. split; [done|]. cbn. rewrite Hk. autorewrite with view. by rewrite Fb. }
  exists t, tA. cbn zeta. fold sA. split_and!; [done| |done| |].
  - apply (readable_more s (set_pages s pg) (v ++ (b, h) :: w) H); try done. apply elem_of_app. right. left.
  - eapply free_tree_ext; [| |done|exact Ft]; [done|]. intros x _. by apply bsize_ext.
  - autorewrite with view in At. exact At.
Qed.

(** The account of the asynchronous space. *)
Lemma take_async s v b h w ds os (async : bool) :
  alloc_ok s (v ++ (b, h) :: w) -> bb_free h = true ->
  let size := alloc_size ds os in
  (async = true -> size + sizeof_buffer <= free_async_space s) ->
  let left := free_async_space s - (if async then size + sizeof_buffer else 0) in
  left + (async_used v + async_used w + if async then size + sizeof_buffer else 0) = buffer_size s / 2 /\
  0 <= left /\
  (if async then u32 (free_async_space s - u32 (size + sizeof_buffer)) else free_async_space s) = left.
Proof.
  intros [Hl _ _ _ Ha Hn] Fb size Has left. rewrite async_used_app in Ha. unfold async_used in Ha at 2.
  cbn [foldr snd] in Ha. change (foldr _ 0 w) with (async_used w) in Ha. unfold cost in Ha. rewrite Fb in Ha.
  cbn [negb andb] in Ha. pose proof (async_used_nonneg v). pose proof (async_used_nonneg w).
  pose proof (alloc_size_range ds os) as Hsz. fold size in Hsz. pose proof (ly_region _ _ Hl) as []. unfold limit in *.
  assert (buffer_size s / 2 <= buffer_size s) by (Z.to_euclidean_division_equations; lia).
  unfold left, sizeof_buffer in *. destruct async; [specialize (Has eq_refl)|].
  - rewrite (u32_small (size + 40)), u32_small by lia. lia.
  - lia.
Qed.

Lemma take_buffer_spec env s v b h w ds os async pg :
  alloc_ok s (v ++ (b, h) :: w) -> bb_free h = true ->
  let room := start_of w (limit s) - buffer_data b in
  let size := alloc_size ds os in
  let view' := v ++ carve env b h ds os async room ++ w in
  size <= room -> sizes_ok (taken_header h ds os async) room -> zlen pg = zlen (pages s) ->
  (forall q, present (set_pages s pg) q <-> needed view' (limit s) q) ->
  (forall q, present s q -> present (set_pages s pg) q) ->
  (async = true -> size + sizeof_buffer <= free_async_space s) ->
  exists s', take_buffer env (set_pages s pg) b size
      (if splits_off size room then size + sizeof_buffer else size) ds os async = Some s' /\
    alloc_ok s' view' /\ area_eq s s' /\
    free_async_space s' = free_async_space s - (if async then size + sizeof_buffer else 0).
Proof.
  intros Hok Fb room size view' Hsize Hfit Hlen Hpres Hmore Has. pose proof (ao_layout _ _ Hok) as H.
  assert (0 <= size <= room) as Hsz by (split; [apply alloc_size_range|done]). set (s1 := set_pages s pg) in *.
  assert (region s1) as Hr1 by (apply region_set_pages; [apply H|done]).
  set (h1 := set_bb_free false h). set (hs2 := headers2 env s b h size room).
  set (h3 := taken_header h ds os async) in *. set (hs3 := <[b := h3]> hs2).
  set (keys := (v ++ (b, h1) :: cut_off env b size room ++ w).*1).
  assert (keys = view'.*1) as Hkeys by (unfold keys, view', carve; cbn [app]; by rewrite !fmap_split).
  assert (layout (set_buffers s1 keys hs3) view') as HL.
  { apply (layout_carve env s _ v b h w ds os async H); try done.
    intros x k. by apply (take_headers3 env s v w b h Hok size room eq_refl Hsz). }
  destruct (take_first s s1 v b h w Hok Fb Hr1 Hmore) as (t & tA & Ht & Hh & HA & Ft & At); [by exists pg|].
  unfold take_buffer. rewrite Ht. cbn [mbind option_bind]. rewrite Hh. cbn [mbind option_bind]. rewrite HA.
  cbn [mbind option_bind]. set (sB := set_allocated_buffers _ tA) in *.
  assert (readable (set_buffers sB keys hs2) (v ++ (b, h1) :: cut_off env b size room ++ w)) as HrdB.
  { apply (readable_intro _ _ _ _ HL); [done|done|done|by eapply region_ext; [..|exact Hr1]|done|].
    intros x k Hk. split; [by apply (take_headers2 env s v w b h Hok size room eq_refl Hsz)|].
    rewrite <- Hkeys. apply list_elem_of_fmap. by exists (x, k). }
  destruct (cut_off_spec env sB v w b h1 size room hs2 HrdB) as (tf & -> & Ff); [by eapply take_NoDup| |done|done|done|].
  { cbn. rewrite (ly_buffers _ _ H). apply fmap_split. }
  cbn [mbind option_bind]. fold keys in Ff |- *.
  assert (header (set_free_buffers (set_buffers sB keys hs2) tf) b = Some h1) as ->.
  { eapply (header_ext _ (set_buffers sB keys hs2)); [done|done| |].
    - rewrite (proj1 (HrdB b h1 ltac:(apply elem_of_app; right; left))). done.
    - cbn. apply (take_headers2 env s v w b h Hok size room eq_refl Hsz). apply elem_of_app. right. left. }
  cbn [mbind option_bind]. change (set_sizes ds os async h1) with h3.
  set (s3 := set_header (set_free_buffers (set_buffers sB keys hs2) tf) b h3).
  destruct (take_async s v b h w ds os async Hok Fb Has) as (A1 & A2 & A3).
  eexists. split; [reflexivity|].
  assert ((if async then set_async_space s3 (u32 (free_async_space s3 - u32 (size + sizeof_buffer))) else s3) =
    set_async_space s3 (free_async_space s - (if async then size + sizeof_buffer else 0))) as ->.
  { destruct async; [by f_equal|]. by rewrite Z.sub_0_r. }
  split; [|done]. split.
  - by eapply layout_ext; [..|exact HL].
  - unfold view'. by rewrite carve_taken.
  - eapply free_tree_ext; [| | |exact Ff]; [done|by intros x _; apply bsize_ext|].
    unfold view', carve. by autorewrite with view.
  - by apply carve_merged; [apply Hok|].
  - cbn. unfold view'. rewrite !async_used_app, carve_async. fold size. lia.
  - cbn. done.
Qed.

(** ** The operation *)

Lemma end_page_min b room used :
  0 <= b -> 0 <= used <= room -> buffer_data b + room <= 2 ^ 32 - PAGE_SIZE ->
  end_page b room used =
    Z.min ((buffer_data b + room) / PAGE_SIZE) ((buffer_data b + used + 4095) / PAGE_SIZE) * PAGE_SIZE.
Proof.
  intros Hb Hu Hl. unfold end_page.
  rewrite u32_small, land_page_mask, page_align_eq by (unfold buffer_data, sizeof_buffer, PAGE_SIZE in *; lia).
  set (x := (buffer_data b + room) / PAGE_SIZE). set (y := (buffer_data b + used + 4095) / PAGE_SIZE).
  unfold PAGE_SIZE. destruct (Z.ltb_spec (x * 4096) (y * 4096)); lia.
Qed.

(** Why an allocation may be refused. *)
Definition alloc_refused (env : page_env) s v (ds os : Z) (async : bool) : Prop :=
  vma s = None \/
  alloc_size ds os < ds \/ alloc_size ds os < os \/
  (async = true /\ free_async_space s < alloc_size ds os + sizeof_buffer) \/
  (forall b h, (b, h) ∈ v -> bb_free h = true -> bsize s b < alloc_size ds os) \/
  pe_mm env = false \/
  exists area p, vma s = Some area /\ buffer s / PAGE_SIZE <= p < limit s / PAGE_SIZE /\ page_fails env area s p.

(** A smallest of the free buffers that are large enough. *)
Definition best_fit s v b h (size : Z) : Prop :=
  bb_free h = true /\ size <= bsize s b /\
  forall c k, (c, k) ∈ v -> bb_free k = true -> size <= bsize s c -> bsize s b <= bsize s c.

Lemma search_spec s v size :
  alloc_ok s v ->
  exists r e, best_fit_loop s size (free_buffers s) None = Some (r, e) /\
    match r with
    | None => forall b h, (b, h) ∈ v -> bb_free h = true -> bsize s b < size
    | Some b => exists h v1 v2, v = v1 ++ (b, h) :: v2 /\ best_fit s v b h size /\ e = (bsize s b =? size)
    end.
Proof.
  intros Hok. destruct (ao_free _ _ Hok) as (_ & Hp & Hs). pose proof (ao_layout _ _ Hok) as H.
  assert (forall y, y ∈ inorder (free_buffers s) <-> exists k, (y, k) ∈ v /\ bb_free k = true) as Hin
    by (intros y; by rewrite Hp, elem_of_frees).
  destruct (best_fit_spec s size (free_buffers s) None) as (r & e & -> & Hr); [|done|done|].
  { intros y (k & Hk & Fk)%Hin. exists k. split_and!; [by eapply layout_header|done|by eapply layout_size_in]. }
  exists r, e. split; [done|]. destruct r as [b|].
  - destruct Hr as ([Hb|Hb] & H1 & H2 & H3); [|done]. apply Hin in Hb as (h & Hb & Fb).
    pose proof Hb as (v1 & v2 & ->)%list_elem_of_split. exists h, v1, v2.
    split; [done|]. split; [|done]. split; [done|]. split; [done|]. intros c k Hc Fc. apply H2, Hin. eauto.
  - destruct Hr as [_ Hr]. intros b h Hb Fb. apply Hr, Hin. eauto.
Qed.

(** The pages for a buffer of [size] bytes in a free one of [room] bytes. *)
Lemma take_pages env s v b h w ds os async :
  layout s (v ++ (b, h) :: w) -> bb_free h = true ->
  let n := start_of w (limit s) in let room := n - buffer_data b in let size := alloc_size ds os in
  size <= room ->
  let used := if splits_off size room then size + sizeof_buffer else size in
  exists s' r, binder_update_page_range env s true (PAGE_ALIGN (buffer_data b)) (end_page b room used) None = Some (s', r) /\
    (r <> 0 /\ s' = s /\
       (pe_mm env = false \/ vma s = None \/
        exists area p, vma s = Some area /\ buffer s / PAGE_SIZE <= p < limit s / PAGE_SIZE /\ page_fails env area s p) \/
     r = 0 /\ exists pg, s' = set_pages s pg /\ zlen pg = zlen (pages s) /\
       (forall q, present s' q <-> needed (v ++ carve env b h ds os async room ++ w) (limit s) q) /\
       forall q, present s q -> present s' q).
Proof.
  intros H Fb n room size Hsize used. pose proof (ly_region _ _ H) as Hr. pose proof Hr as [R1 R2 R3 R4 R5 R6].
  pose proof (alloc_size_range ds os) as Hsz. fold size in Hsz.
  pose proof (ly_chain _ _ H) as Hc. pose proof Hc as [_ [Hc2 Hc3]]%chain_app. fold n in Hc2.
  pose proof (chain_le _ _ Hc3) as Hle. fold n in Hle.
  destruct (layout_bounds _ _ b h H) as [B1 B2]; [apply elem_of_app; right; left|].
  assert (limit s mod PAGE_SIZE = 0 /\ limit s <= 2 ^ 32 - PAGE_SIZE) as [Rl Rm] by (unfold limit in *; plia).
  assert (0 <= used <= room) as Hu.
  { unfold used, splits_off. destruct (Z.ltb_spec (size + sizeof_buffer + 4) room); unfold sizeof_buffer in *; lia. }
  rewrite page_align_eq, end_page_min by (unfold room, buffer_data, sizeof_buffer, PAGE_SIZE in *; lia).
  replace (buffer_data b + room) with n by (unfold room; lia).
  set (i := (buffer_data b + 4095) / PAGE_SIZE). set (j := Z.min (n / PAGE_SIZE) ((buffer_data b + used + 4095) / PAGE_SIZE)).
  pose proof (fun q => carve_needed env v b h w (limit s) ds os async q Hc Rl Fb (conj (proj1 Hsz) Hsize)) as Hq.
  cbn zeta in Hq. fold n room size used j i in Hq.
  assert (buffer s / PAGE_SIZE <= i /\ j <= limit s / PAGE_SIZE) as [Bi Bj] by (unfold i, j; plia).
  destruct (update_alloc_spec env s i j None Hr Bi Bj) as (s' & r & -> & Hpost).
  { intros q Hiq. rewrite (ly_pages _ _ H). by apply Hq. }
  exists s', r. split; [done|]. destruct Hpost as [(H1 & H2 & H3)|(-> & pg & -> & Hl & Hpg)].
  - left. split_and!; [done|done|]. destruct H3 as [?|[?|(area & p & ? & ? & ?)]]; [tauto|tauto|].
    right. right. exists area, p. split_and!; try done; lia.
  - right. split; [done|]. exists pg. split_and!; try done.
    + intros q. rewrite Hpg, (ly_pages _ _ H). symmetry. apply Hq.
    + intros q Hp. apply Hpg. by left.
Qed.

Lemma used_eq size room :
  0 <= size <= room -> room + sizeof_buffer + 4 < 2 ^ 32 ->
  (if room =? size then room
   else if room <=? u32 (size + sizeof_buffer + 4) then size else u32 (size + sizeof_buffer)) =
  if splits_off size room then size + sizeof_buffer else size.
Proof.
  intros Hs Hr. unfold splits_off, sizeof_buffer in *. rewrite !u32_small by lia.
  destruct (Z.eqb_spec room size); destruct (Z.leb_spec room (size + 40 + 4));
    destruct (Z.ltb_spec (size + 40 + 4) room); lia.
Qed.

Lemma alloc_buf_spec env s v ds os async :
  alloc_ok s v -> 0 <= ds < 2 ^ 32 -> 0 <= os < 2 ^ 32 ->
  exists s' r, binder_alloc_buf env s ds os async = Some (s', r) /\
    (r = None /\ s' = s /\ alloc_refused env s v ds os async \/
     exists b h v1 v2, r = Some b /\ v = v1 ++ (b, h) :: v2 /\ best_fit s v b h (alloc_size ds os) /\
       alloc_ok s' (v1 ++ carve env b h ds os async (bsize s b) ++ v2) /\ area_eq s s' /\
       free_async_space s' = free_async_space s - (if async then alloc_size ds os + sizeof_buffer else 0)).
Proof.
  intros Hok Hds Hos. pose proof (ao_layout _ _ Hok) as H. unfold binder_alloc_buf.
  destruct (vma s) as [area|] eqn:Ev; [|exists s, None; unfold alloc_refused; auto 10].
  pose proof (alloc_size_range ds os) as Hsz. unfold alloc_refused. set (size := alloc_size ds os) in *.
  destruct (Z.ltb_spec size ds); [exists s, None; auto 10|]. destruct (Z.ltb_spec size os); [exists s, None; auto 10|].
  cbn [orb]. destruct (async && (free_async_space s <? u32 (size + sizeof_buffer))) eqn:Eas.
  { exists s, None. split; [done|]. left. split_and!; [done|done|]. do 3 right. left. unbool. split; [done|].
    pose proof (Z.mod_le (size + sizeof_buffer) (2 ^ 32)). unfold u32, sizeof_buffer in *. lia. }
  destruct (search_spec s v size Hok) as (r & e & -> & Hr). cbn [mbind option_bind].
  destruct r as [b|]; [|exists s, None; unfold alloc_refused; auto 10].
  destruct Hr as (h & v1 & v2 & Hv & (Fb & Hfit & Hbest) & ->). subst v.
  pose proof (layout_size _ _ _ _ _ H) as Eb. set (n := start_of v2 (limit s)) in *. set (room := n - buffer_data b) in *.
  assert (bsize s b = room) as Er by (unfold bsize; by rewrite Eb). rewrite Eb, Er in *. cbn [mbind option_bind].
  destruct (layout_bounds _ _ b h H) as [B1 B2]; [apply elem_of_app; right; left|].
  pose proof (ly_region _ _ H) as [R1 R2 R3 R4 R5 R6].
  pose proof (ly_chain _ _ H) as [_ [_ Hc3]]%chain_app. pose proof (chain_le _ _ Hc3) as Hle. fold n in Hle.
  assert (room + sizeof_buffer + 4 < 2 ^ 32) as Hroom.
  { unfold room, limit, buffer_data in *. plia. }
  rewrite used_eq by lia.
  destruct (take_pages env s v1 b h v2 ds os async H Fb Hfit) as (s' & r & Hu & Hpost).
  fold n room size in Hu, Hpost. rewrite Hu. cbn [mbind option_bind].
  destruct Hpost as [(P1 & -> & P3)|(-> & pg & -> & Hl & Hpg & Hmore)].
  { rewrite (proj2 (Z.eqb_neq _ _)) by done. exists s, None. split; [done|]. left. split_and!; [done|done|]. tauto. }
  destruct (size_check ds os Hds Hos) as (C1 & C2 & C3); [done|done|].
  destruct (take_buffer_spec env s v1 b h v2 ds os async pg Hok Fb Hfit) as (s' & Ht & Hok' & Harea & Has); try done.
  { unfold sizes_ok. cbn. fold n room size. lia. }
  { intros ->. cbn in Eas. unbool. rewrite u32_small in Eas by (unfold sizeof_buffer in *; lia). done. }
  fold n room size in Ht, Hok'. rewrite Z.eqb_refl, Ht. cbn [negb mbind option_bind].
  exists s', (Some b). split; [done|]. right. exists b, h, v1, v2. unfold best_fit. by rewrite Er.
Qed.
