(* ===== verification/BinderAllocProps.v ===== *)
(** * Binder buffers: what the allocator promises

    The step relation of one process's allocator, its invariant, and the claims
    on allocation, release, lookup and mapping. *)

From stdpp Require Import base numbers list gmap sorting relations.
From S2P Require Import Prelude RbTree RbTreeProps RbKeyed BinderAlloc BinderLayout BinderAllocInv.
From S2P Require Import BinderRelease BinderTake.

Open Scope Z_scope.

Implicit Types (v w : view) (b : Z) (h k : binder_buffer) (s : binder_alloc) (p q : Z).

(** ** Consequences of the invariant *)

(** The bytes that belong to an allocated buffer. *)
Definition in_buffer b h (a : Z) : Prop :=
  buffer_data b <= a < buffer_data b + alloc_size (data_size h) (offsets_size h).

Lemma fits_room v1 b h v2 hi :
  fits (v1 ++ (b, h) :: v2) hi -> bb_free h = false ->
  alloc_size (data_size h) (offsets_size h) <= start_of v2 hi - buffer_data b.
Proof. intros [_ [Hf _]]%fits_app Fb. destruct (Hf Fb) as (_ & _ & _ & Hf'). exact Hf'. Qed.

Lemma in_buffer_bounds s v b h a :
  layout s v -> (b, h) ∈ v -> bb_free h = false -> in_buffer b h a -> buffer_data b <= a < limit s.
Proof.
  intros H (v1 & v2 & ->)%list_elem_of_split Fb Ha. pose proof (fits_room _ _ _ _ _ (ly_fits _ _ H) Fb).
  pose proof (ly_chain _ _ H) as [_ [_ Hc]]%chain_app. apply chain_le in Hc. unfold in_buffer in *. lia.
Qed.

(** Buffers do not overlap, their headers included. *)
Lemma in_buffer_disjoint s v b h c k a :
  layout s v -> (b, h) ∈ v -> bb_free h = false -> in_buffer b h a ->
  (c, k) ∈ v -> c <> b -> a < c \/ buffer_data c <= a /\ (bb_free k = false -> ~ in_buffer c k a).
Proof.
  intros H Hb Fb Ha Hc Hne. pose proof Hb as (v1 & v2 & ->)%list_elem_of_split.
  pose proof (fits_room _ _ _ _ _ (ly_fits _ _ H) Fb) as Hroom.
  pose proof (ly_chain _ _ H) as Hch. pose proof Hch as [Hc1 [Hc2 Hc3]]%chain_app. cbn [start_of] in Hc1.
  apply elem_of_app in Hc as [Hc|[[= -> ->]|Hc]%elem_of_cons]; [|done|].
  - right. pose proof (chain_in _ _ _ _ Hc1 Hc) as [_ Hcb]. split; [unfold in_buffer, buffer_data, sizeof_buffer in *; lia|].
    intros Fk Hk. apply list_elem_of_split in Hc as (u1 & u2 & ->).
    pose proof (ly_fits _ _ H) as [Hf _]%fits_app. cbn [start_of] in Hf.
    pose proof (fits_room _ _ _ _ _ Hf Fk). pose proof Hc1 as [_ [_ Hu]]%chain_app. apply chain_le in Hu.
    unfold in_buffer, buffer_data, sizeof_buffer in *. lia.
  - left. pose proof (chain_in _ _ _ _ Hc3 Hc) as [Hcb _]. unfold in_buffer, buffer_data, sizeof_buffer in *. lia.
Qed.

Lemma needed_data v hi b h a :
  chain v hi -> fits v hi -> (b, h) ∈ v -> bb_free h = false -> in_buffer b h a -> needed v hi (a / PAGE_SIZE).
Proof.
  intros Hc Hf (v1 & v2 & ->)%list_elem_of_split Fb Ha. pose proof (fits_room _ _ _ _ _ Hf Fb).
  apply needed_app. right. left. unfold used_end. rewrite Fb. unfold in_buffer in *. plia.
Qed.

(** The data of an allocated buffer is on pages that are there. *)
Lemma in_buffer_mapped s v b h a :
  layout s v -> (b, h) ∈ v -> bb_free h = false -> in_buffer b h a -> mapped s a = true.
Proof.
  intros H Hb Fb Ha. apply mapped_present, (ly_pages _ _ H); [apply H|]. by eapply needed_data; [apply H|apply H|..].
Qed.

(** ** Lookup *)

Lemma buffer_lookup_spec s v user_ptr :
  alloc_ok s v ->
  let kern := u32 (user_ptr - user_buffer_offset s - sizeof_buffer) in
  (forall h, (kern, h) ∈ v -> bb_free h = false -> binder_buffer_lookup s user_ptr = Some (Some kern)) /\
  ((forall h, (kern, h) ∈ v -> bb_free h = true) -> binder_buffer_lookup s user_ptr = Some None).
Proof.
  intros Hok kern. pose proof (ao_layout _ _ Hok) as H. destruct (ao_taken _ _ Hok) as [_ Ht].
  unfold binder_buffer_lookup. fold kern.
  assert (forall y, y ∈ inorder (allocated_buffers s) ->
    (h ← header s y; if bb_free h then None else Some (kern ?= y)) = Some (kern ?= y)) as Hcmp.
  { intros y. rewrite Ht. intros (k & Hk & Fk)%elem_of_taken. rewrite (layout_header _ _ _ _ H Hk). cbn. by rewrite Fk. }
  split.
  - intros h Hh Fh. destruct (rb_descend_found _ (fun y => kern ?= y) (allocated_buffers s) kern Hcmp) as (c & l & r & z & -> & _).
    + rewrite Ht. apply (compare_splits (fun x => x)). by eapply taken_sorted, H.
    + rewrite Ht. apply elem_of_taken. eauto.
    + apply Z.compare_refl.
    + intros y _ Hy. by apply Z.compare_eq in Hy.
    + done.
  - intros Hno. destruct (rb_descend_missing _ (fun y => kern ?= y) (allocated_buffers s) Hcmp) as (z & -> & _); [|done].
    intros y. rewrite Ht. intros (k & Hk & Fk)%elem_of_taken He%Z.compare_eq. subst y. specialize (Hno k Hk). congruence.
Qed.

(** ** Mapping *)

(** The user's view of the range is the range, shifted. *)
Definition area_ok s : Prop :=
  forall area, vma s = Some area ->
    vm_start area = buffer s + user_buffer_offset s /\ vm_end area = vm_start area + buffer_size s /\
    0 <= vm_start area /\ vm_end area < 2 ^ 32.

Lemma area_page_ok env s area p :
  region s -> area_ok s -> vma s = Some area -> buffer s / PAGE_SIZE <= p < limit s / PAGE_SIZE ->
  page_fails env area s p -> pe_event env (p * PAGE_SIZE) <> PageOk.
Proof.
  intros [] Ha Ev Hp [?|Hno]; [done|]. destruct (Ha area Ev) as (A1 & A2 & A3 & A4). contradict Hno.
  unfold limit in *. rewrite u32_small; plia.
Qed.

(** What [mmap] is called with: whole pages of user space, which ends at
    TASK_SIZE (arch/arm/include/asm/memory.h), and kernel addresses for as many. *)
Definition TASK_SIZE : Z := 3221225472 - 16777216.
Record mmap_request (va : vm_area) (addr : Z) : Prop := {
  mr_start : 0 <= vm_start va /\ vm_start va mod PAGE_SIZE = 0;
  mr_end : vm_start va < vm_end va <= TASK_SIZE /\ vm_end va mod PAGE_SIZE = 0;
  mr_addr : 0 < addr /\ addr mod PAGE_SIZE = 0;
  mr_room : addr + Z.min SZ_4M (vm_end va - vm_start va) < 2 ^ 32 }.

(** Nothing is mapped, and nothing is left of a mapping that failed. *)
Definition fresh s : Prop :=
  vma s = None /\ buffer s = 0 /\ buffers s = [] /\ headers s = ∅ /\ free_buffers s = E /\ allocated_buffers s = E.

Lemma one_buffer_layout s addr h :
  region s -> buffers s = [addr] -> headers s = {[ addr := h ]} -> bb_free h = true -> buffer s = addr ->
  (forall p, present s p <-> addr / PAGE_SIZE <= p < addr / PAGE_SIZE + 1) -> layout s [(addr, h)].
Proof.
  intros Hr Hb Hh Fh Ha Hp. pose proof Hr as [R1 R2 R3 R4 R5 R6]. unfold limit in *. split; try done.
  - intros x k. rewrite Hh, lookup_singleton_Some, list_elem_of_singleton. naive_solver.
  - cbn. unfold limit. split; [|done]. plia.
  - constructor; [|constructor]. cbn. plia.
  - cbn. by rewrite Fh.
  - intros p. rewrite Hp. cbn. unfold used_end. rewrite Fh. split; [left; plia|intros [?|[]]; plia].
Qed.

Lemma mmap_first_page env s addr size offset area :
  let s1 := BinderAlloc (vma s) addr offset (buffers s) (headers s) (free_buffers s)
              (allocated_buffers s) (free_async_space s) (replicate (Z.to_nat (size / PAGE_SIZE)) false) size in
  0 < addr -> addr mod PAGE_SIZE = 0 -> 0 < size -> size mod PAGE_SIZE = 0 -> addr + size < 2 ^ 32 ->
  exists s' r, binder_update_page_range env s1 true addr (addr + PAGE_SIZE) (Some area) = Some (s', r) /\
    (r <> 0 /\ page_fails env area s1 (addr / PAGE_SIZE) \/
     r = 0 /\ exists pg, s' = set_pages s1 pg /\ region s' /\
       forall p, present s' p <-> addr / PAGE_SIZE <= p < addr / PAGE_SIZE + 1).
Proof.
  intros s1 H1 H2 H3 H4 H5.
  assert (region s1) as Hr.
  { split; cbn; try done. unfold zlen. rewrite length_replicate. plia. }
  assert (forall p, ~ present s1 p) as Hnone.
  { intros p. unfold present, page_get. case_if; [done|]. cbn [pages s1]. intros Hl. apply lookup_replicate in Hl as [Hl _]. done. }
  assert (addr = addr / PAGE_SIZE * PAGE_SIZE) as Ea by plia.
  destruct (update_alloc_spec env s1 (addr / PAGE_SIZE) (addr / PAGE_SIZE + 1) (Some area) Hr) as (s2 & r2 & Hu2 & Hpost).
  { done. } { unfold limit. cbn. plia. } { intros p _. apply Hnone. }
  rewrite Z.mul_add_distr_r, Z.mul_1_l, <- Ea in Hu2. exists s2, r2. split; [done|].
  destruct Hpost as [(? & _ & p & Hp & Hfail)|(-> & pg & -> & Hl & Hpg)].
  { left. split; [done|]. by replace (addr / PAGE_SIZE) with p by lia. }
  right. split; [done|]. exists pg.
  split; [done|]. split; [by apply region_set_pages|]. intros p. rewrite Hpg. specialize (Hnone p). tauto.
Qed.

Lemma colour_loop_done n start buf : CACHE_COLOUR (Z.lxor start buf) = 0 -> colour_loop n start buf = Some start.
Proof. intros H. destruct n; cbn [colour_loop]; by rewrite H, Z.eqb_refl. Qed.

(** The colour of an address is the number of its page modulo 4. *)
Lemma colour_eq x a : CACHE_COLOUR (Z.lxor x a) = 0 <-> (x / PAGE_SIZE) mod 4 = (a / PAGE_SIZE) mod 4.
Proof.
  unfold CACHE_COLOUR, PAGE_SIZE. rewrite Z.shiftr_land, Z.shiftr_lxor, !Z.shiftr_div_pow2 by lia.
  change (16383 / 2 ^ 12) with (Z.ones 2). change (2 ^ 12) with 4096. change 4 with (2 ^ 2). rewrite <- !Z.land_ones by lia. rewrite <- (Z.lxor_eq_0_iff (Z.land (x / 4096) (Z.ones 2))).
  enough (Z.land (Z.lxor (x / 4096) (a / 4096)) (Z.ones 2) = Z.lxor (Z.land (x / 4096) (Z.ones 2)) (Z.land (a / 4096) (Z.ones 2))) as -> by done.
  apply Z.bits_inj'. intros n _. rewrite Z.lxor_spec, !Z.land_spec, Z.lxor_spec. by destruct (Z.testbit _ n), (Z.testbit _ n), (Z.testbit _ n).
Qed.

(** The loop moves on by at most three pages. *)
Lemma colour_loop_moves x a :
  0 <= x <= TASK_SIZE -> CACHE_COLOUR (Z.lxor x a) <> 0 ->
  exists k : Z, 1 <= k <= 3 /\ colour_loop 4 x a = Some (x + k * PAGE_SIZE).
Proof.
  intros Hx Hc. unfold TASK_SIZE in Hx.
  assert (u32 (x + PAGE_SIZE) = x + 1 * PAGE_SIZE) as U1 by (rewrite u32_small; unfold PAGE_SIZE; lia).
  assert (u32 (x + 1 * PAGE_SIZE + PAGE_SIZE) = x + 2 * PAGE_SIZE) as U2 by (rewrite u32_small; unfold PAGE_SIZE; lia).
  assert (u32 (x + 2 * PAGE_SIZE + PAGE_SIZE) = x + 3 * PAGE_SIZE) as U3 by (rewrite u32_small; unfold PAGE_SIZE; lia).
  assert (forall k : Z, (x + k * PAGE_SIZE) / PAGE_SIZE = x / PAGE_SIZE + k) as Hd by (intros k; by rewrite Z.div_add).
  cbn [colour_loop]. rewrite U1, U2, U3.
  rewrite (proj2 (Z.eqb_neq _ _)) by done. rewrite colour_eq in Hc.
  destruct (Z.eqb_spec (CACHE_COLOUR (Z.lxor (x + 1 * PAGE_SIZE) a)) 0) as [|H1]; [by exists 1|].
  destruct (Z.eqb_spec (CACHE_COLOUR (Z.lxor (x + 2 * PAGE_SIZE) a)) 0) as [|H2]; [by exists 2|].
  exists 3. split; [lia|]. rewrite colour_eq, Hd in H1, H2.
  rewrite (proj2 (Z.eqb_eq (CACHE_COLOUR (Z.lxor (x + 3 * PAGE_SIZE) a)) 0)); [done|]. apply colour_eq. rewrite Hd.
  Z.to_euclidean_division_equations; lia.
Qed.

(** The first page belongs in front of an area that has moved on. *)
Lemma moved_first_page env s start addr size (v : vm_area) :
  let s1 := BinderAlloc (vma s) addr (start - addr) (buffers s) (headers s) (free_buffers s)
              (allocated_buffers s) (free_async_space s) (replicate (Z.to_nat (size / PAGE_SIZE)) false) size in
  0 <= start < 2 ^ 32 -> 0 < addr -> start < vm_start v ->
  binder_update_page_range env s1 true addr (addr + PAGE_SIZE) (Some v) =
    if (0 <? size / PAGE_SIZE) then Some (s1, - ENOMEM) else None.
Proof.
  intros s1 Hst Ha Hv. unfold binder_update_page_range. rewrite (proj2 (Z.leb_gt _ _)) by (unfold PAGE_SIZE; lia).
  unfold page_count. replace (addr + PAGE_SIZE - addr) with PAGE_SIZE by lia. change (Z.to_nat (PAGE_SIZE / PAGE_SIZE + 1)) with 2%nat. cbn [alloc_pages].
  rewrite (proj2 (Z.leb_gt _ _)) by (unfold PAGE_SIZE; lia). 
  assert (page_get s1 addr = replicate (Z.to_nat (size / PAGE_SIZE)) false !! 0%nat) as ->
    by (unfold page_get, s1; cbn [buffer pages]; rewrite Z.ltb_irrefl, Z.sub_diag; done).
  destruct (Z.ltb_spec 0 (size / PAGE_SIZE)) as [Hs|Hs].
  2: { by replace (Z.to_nat (size / PAGE_SIZE)) with 0%nat by lia. }
  replace (Z.to_nat (size / PAGE_SIZE)) with (S (Z.to_nat (size / PAGE_SIZE - 1))) at 1 by lia. cbn [replicate lookup list_lookup mbind option_bind].
  assert (u32 (addr + user_buffer_offset s1) = start) as -> by (cbn; rewrite u32_small; lia).
  unfold vm_insert_page. rewrite (proj2 (Z.leb_gt _ _)) by lia. cbn [andb].
  assert (free_pages (page_count addr (addr + PAGE_SIZE)) s1 (addr - PAGE_SIZE) addr = Some s1) as ->
    by (generalize (page_count addr (addr + PAGE_SIZE)); intros [|f]; cbn [free_pages]; rewrite (proj2 (Z.ltb_lt _ _)) by (unfold PAGE_SIZE; lia); done).
  by destruct (pe_event env addr).
Qed.

(** A mapping of another colour fails. *)
Lemma mmap_moved env s va addr array :
  fresh s -> mmap_request va addr -> CACHE_COLOUR (Z.lxor (vm_start va) addr) <> 0 ->
  (forall s' va' r, binder_mmap env s va (Some addr) array = Some (s', va', r) -> r <> 0 /\ fresh s') /\
  (3 * PAGE_SIZE < vm_end va - vm_start va -> is_Some (binder_mmap env s va (Some addr) array)).
Proof.
  intros (F1 & F2 & F3 & F4 & F5 & F6) [[S1 S2] [E1 E2] [A1 A2] Hroom] Hcol. unfold binder_mmap.
  set (v1 := if SZ_4M <? _ then _ else va). destruct (negb (Z.land (vm_flags v1) VM_WRITE =? 0)).
  { split; [|done]. intros s' va' r [= <- <- <-]. split; [done|unfold fresh; auto 10]. }
  rewrite F2. cbn [negb Z.eqb]. assert (vm_start v1 = vm_start va) as Es by (unfold v1; by case_match).
  assert (vm_end v1 = vm_start va + Z.min SZ_4M (vm_end va - vm_start va)) as Ee.
  { unfold v1, SZ_4M, TASK_SIZE in *. rewrite (u32_small (vm_end va - vm_start va)) by lia. case_if; cbn [vm_end]; [|lia].
    rewrite u32_small; lia. }
  cbn [vm_start vm_end]. rewrite Es. destruct (colour_loop_moves (vm_start va) addr ltac:(lia) Hcol) as (k & Hk & ->).
  cbn [mbind option_bind]. destruct array; cbn [negb].
  2: { split; [|done]. intros s' va' r [= <- <- <-]. split; [done|unfold fresh; auto 10]. }
  rewrite moved_first_page by (cbn; unfold TASK_SIZE, PAGE_SIZE in *; lia). split.
  - intros s' va' r. case_if; [|done]. cbn. intros [= <- <- <-]. split; [done|unfold fresh; auto 10].
  - intros H3. rewrite (proj2 (Z.ltb_lt _ _)); [done|]. rewrite Ee. unfold SZ_4M, PAGE_SIZE, TASK_SIZE in *. rewrite u32_small by lia.
    apply Z.div_str_pos. Z.to_euclidean_division_equations; lia.
Qed.

Lemma mmap_spec env s va area array :
  fresh s -> (forall addr, area = Some addr -> mmap_request va addr /\ CACHE_COLOUR (Z.lxor (vm_start va) addr) = 0) ->
  exists s' va' r, binder_mmap env s va area array = Some (s', va', r) /\
    (r <> 0 /\ fresh s' /\
       (Z.land (vm_flags va) VM_WRITE <> 0 \/ area = None \/ array = false \/
        exists addr, area = Some addr /\ pe_event env addr <> PageOk) \/
     exists addr, r = 0 /\ area = Some addr /\ Z.land (vm_flags va) VM_WRITE = 0 /\
       alloc_ok s' [(addr, set_bb_free true (pe_stale env addr))] /\ area_ok s' /\
       vma s' = Some va' /\ buffer s' = addr /\ buffer_size s' = Z.min SZ_4M (vm_end va - vm_start va)).
Proof.
  intros (F1 & F2 & F3 & F4 & F5 & F6) Hreq. unfold binder_mmap.
  set (v1 := if SZ_4M <? _ then _ else va).
  assert (vm_flags v1 = vm_flags va) as Ef by (unfold v1; by case_match). rewrite Ef.
  destruct (Z.eqb_spec (Z.land (vm_flags va) VM_WRITE) 0) as [Hw|Hw]; cbn [negb].
  2: { eexists _, _, _. split; [reflexivity|]. left. split_and!; [done|unfold fresh; auto 10|auto]. }
  rewrite F2. cbn [negb Z.eqb]. destruct area as [addr|].
  2: { eexists _, _, _. split; [reflexivity|]. left. split_and!; [done|unfold fresh; auto 10|auto]. }
  destruct (Hreq addr eq_refl) as [[[S1 S2] [E1 E2] [A1 A2] Hroom] Hcol]. unfold TASK_SIZE in E1.
  assert (vm_start v1 = vm_start va) as Es by (unfold v1; by case_match).
  assert (vm_end v1 = vm_start va + Z.min SZ_4M (vm_end va - vm_start va)) as Ee.
  { unfold v1, SZ_4M in *. rewrite (u32_small (vm_end va - vm_start va)) by lia. case_if; cbn [vm_end]; [|lia].
    rewrite u32_small; lia. }
  cbn [vm_start vm_end]. rewrite Es, Ee, colour_loop_done by done. cbn [mbind option_bind].
  set (size := Z.min SZ_4M (vm_end va - vm_start va)) in *.
  assert (0 < size /\ size mod PAGE_SIZE = 0 /\ size <= vm_end va - vm_start va) as (Z1 & Z2 & Z3)
    by (unfold size, SZ_4M; plia).
  replace (vm_start va + size - vm_start va) with size by lia. rewrite (u32_small size) by lia.
  destruct array; cbn [negb].
  2: { eexists _, _, _. split; [reflexivity|]. left. split_and!; [done|unfold fresh; auto 10|auto]. }
  set (v3 := VmArea (vm_start va) (vm_start va + size) _).
  destruct (mmap_first_page env s addr size (vm_start va - addr) v3 A1 A2 Z1 Z2 Hroom) as (s2 & r & -> & Hpost).
  cbn [mbind option_bind]. destruct Hpost as [(Hr & Hfail)|(-> & pg & -> & Hreg & Hpg)].
  { rewrite (proj2 (Z.eqb_neq _ _)) by done. cbn [negb]. eexists _, _, _. split; [reflexivity|]. left.
    split_and!; [done|unfold fresh; auto 10|]. do 3 right. exists addr. split; [done|].
    replace (pe_event env addr) with (pe_event env (addr / PAGE_SIZE * PAGE_SIZE)) by (f_equal; plia).
    destruct Hfail as [?|Hno]; [done|]. contradict Hno. cbn. rewrite u32_small; plia. }
  rewrite Z.eqb_refl. cbn [negb]. set (h := set_bb_free true (pe_stale env addr)).
  set (s2 := set_buffers _ [addr] {[addr := h]}).
  assert (layout s2 [(addr, h)]) as HL.
  { apply one_buffer_layout; try done. by eapply region_ext; [..|exact Hreg]. }
  destruct (insert_free_spec s2 [] addr h []) as (t & -> & Ft); [by apply layout_readable|done| |].
  { unfold free_tree. cbn. rewrite F5. split_and!; [by exists 0%nat; constructor|done|constructor]. }
  cbn [mbind option_bind]. eexists _, _, _. split; [reflexivity|]. right. exists addr. split_and!; try done.
  - split.
    + by eapply layout_ext; [..|exact HL].
    + unfold alloc_tree. cbn. rewrite F6. split; [by exists 0%nat; constructor|done].
    + eapply free_tree_ext; [| |done|exact Ft]; [done|]. intros x _. by apply bsize_ext.
    + done.
    + cbn. lia.
    + apply Z.div_pos; lia.
  - intros area [= <-]. cbn. lia.
Qed.

Lemma mmap_busy env s va area array :
  buffer s <> 0 -> exists va' r, binder_mmap env s va area array = Some (s, va', r) /\ r <> 0.
Proof.
  intros Hb. unfold binder_mmap. destruct (negb (Z.land _ _ =? 0)); [eauto|].
  rewrite (proj2 (Z.eqb_neq _ _)) by done. cbn. eauto.
Qed.

(** ** The driver's own notes in a header *)

(** The fields of a header that belong to the allocator are the same. *)
Definition same_alloc h h' : Prop :=
  bb_free h' = bb_free h /\ async_transaction h' = async_transaction h /\
  data_size h' = data_size h /\ offsets_size h' = offsets_size h.

Lemma note_ok s v1 b h h' v2 :
  alloc_ok s (v1 ++ (b, h) :: v2) -> same_alloc h h' -> alloc_ok (set_header s b h') (v1 ++ (b, h') :: v2).
Proof.
  intros [Hl Ht Hf Hm Ha Hn] (S1 & S2 & S3 & S4). pose proof Hl as [Hr Hb Hh Hs Hc Hal Hfit Hp].
  assert (forall hi q, needed (v1 ++ (b, h') :: v2) hi q <-> needed (v1 ++ (b, h) :: v2) hi q) as Hneed.
  { intros hi q. rewrite !needed_app. cbn [needed start_of]. unfold used_end. by rewrite S1. }
  split.
  - apply (layout_replace s v1 b h h' v2 (pages s)); [done|done|done| |].
    + rewrite S1. intros Fb. rewrite fits_app in Hfit. cbn in Hfit. unfold sizes_ok in *. rewrite S3, S4. tauto.
    + intros q. rewrite Hneed, <- Hp. by apply present_ext.
  - unfold alloc_tree in *. cbn. destruct Ht as [? ->]. autorewrite with view. by rewrite S1.
  - eapply free_tree_ext; [| | |exact Hf]; [done|by intros x _; apply bsize_ext|]. autorewrite with view. by rewrite S1.
  - rewrite merged_app, merged_cons in *. cbn [first_free] in *. by rewrite S1.
  - assert (cost h' = cost h) as Ec by (unfold cost; by rewrite S1, S2, S3, S4).
    rewrite async_used_app in *. unfold async_used in *. cbn [foldr snd] in *. rewrite Ec. exact Ha.
  - done.
Qed.

(** ** The operations of one process, in any order *)

Definition set_vma s (a : option vm_area) : binder_alloc :=
  BinderAlloc a (buffer s) (user_buffer_offset s) (buffers s) (headers s) (free_buffers s)
    (allocated_buffers s) (free_async_space s) (pages s) (buffer_size s).

(** [AsNote]: the driver writes the fields of an allocated header that are its
    own; [AsClose]: the user's mapping goes ([binder_vma_close]).  A user area of
    another cache colour is moved on by [AsMmap] as the code does it. *)
Inductive alloc_step : binder_alloc -> binder_alloc -> Prop :=
  | AsMmap env s va area array s' va' r :
      (forall addr, area = Some addr -> mmap_request va addr) ->
      binder_mmap env s va area array = Some (s', va', r) -> alloc_step s s'
  | AsAlloc env s ds os async s' r :
      0 <= ds < 2 ^ 32 -> 0 <= os < 2 ^ 32 -> binder_alloc_buf env s ds os async = Some (s', r) -> alloc_step s s'
  | AsFree env s b h s' :
      headers s !! b = Some h -> bb_free h = false -> bb_transaction h = None ->
      binder_free_buf env s b = Some s' -> alloc_step s s'
  | AsNote s b h h' :
      headers s !! b = Some h -> bb_free h = false -> same_alloc h h' -> alloc_step s (set_header s b h')
  | AsClose s : alloc_step s (set_vma s None).

Definition state_ok s : Prop := fresh s \/ exists v, alloc_ok s v /\ area_ok s.

Lemma alloc_ok_split s v b h :
  alloc_ok s v -> headers s !! b = Some h -> exists v1 v2, v = v1 ++ (b, h) :: v2.
Proof. intros Hok Hb. by apply list_elem_of_split, (ly_headers _ _ (ao_layout _ _ Hok)). Qed.

Lemma area_ok_eq s s' : area_eq s s' -> area_ok s -> area_ok s'.
Proof. intros (E1 & E2 & E3 & E4) H area. rewrite E1, E2, E3, E4. apply H. Qed.

Lemma set_vma_ok s v : alloc_ok s v -> alloc_ok (set_vma s None) v.
Proof.
  intros [Hl Ht Hf Hm Ha Hn]. split; try done. by eapply layout_ext; [..|exact Hl].
Qed.

Lemma mmap_keeps env s va area array s' va' r :
  fresh s -> (forall addr, area = Some addr -> mmap_request va addr) ->
  binder_mmap env s va area array = Some (s', va', r) -> state_ok s'.
Proof.
  intros Hs Hreq Hm. destruct area as [addr|].
  - destruct (decide (CACHE_COLOUR (Z.lxor (vm_start va) addr) = 0)) as [Hc|Hc].
    + destruct (mmap_spec env s va (Some addr) array Hs) as (s2 & va2 & r2 & Hm2 & Hpost); [by intros ? [= <-]; auto|].
      rewrite Hm in Hm2. injection Hm2 as <- <- <-. destruct Hpost as [(_ & Hf & _)|(a & _ & _ & _ & Hok & Ha & _)]; [by left|right; eauto].
    + left. eapply (mmap_moved env s va addr array); [done|by apply Hreq|done|exact Hm].
  - destruct (mmap_spec env s va None array Hs) as (s2 & va2 & r2 & Hm2 & Hpost); [done|].
    rewrite Hm in Hm2. injection Hm2 as <- <- <-. destruct Hpost as [(_ & Hf & _)|(a & _ & [=] & _)]. by left.
Qed.

Lemma mmap_total env s va area array :
  state_ok s ->
  (forall addr, area = Some addr -> mmap_request va addr /\
     (CACHE_COLOUR (Z.lxor (vm_start va) addr) = 0 \/ 3 * PAGE_SIZE < vm_end va - vm_start va)) ->
  is_Some (binder_mmap env s va area array).
Proof.
  intros [Hs|(v & Hok & _)] Hreq.
  - destruct area as [addr|].
    + destruct (Hreq addr eq_refl) as [Hr Hc]. destruct (decide (CACHE_COLOUR (Z.lxor (vm_start va) addr) = 0)) as [E|E].
      * destruct (mmap_spec env s va (Some addr) array Hs) as (s2 & va2 & r2 & -> & _); [by intros ? [= <-]|done].
      * destruct Hc as [|Hc]; [done|]. by apply (mmap_moved env s va addr array).
    + destruct (mmap_spec env s va None array Hs) as (s2 & va2 & r2 & -> & _); done.
  - destruct (mmap_busy env s va area array) as (va2 & r2 & -> & _); [|done].
    pose proof (rg_pos _ (ly_region _ _ (ao_layout _ _ Hok))). lia.
Qed.

Lemma alloc_step_ok s s' : state_ok s -> alloc_step s s' -> state_ok s'.
Proof.
  intros Hs. destruct 1 as [env s va area array s' va' r Hreq Hm|env s ds os async s' r Hd Ho Hal|env s b h s' Hb Fb Ht Hf
    |s b h h' Hb Fb Hn|s].
  - destruct Hs as [Hs|(v & Hok & Ha)].
    + by eapply mmap_keeps.
    + destruct (mmap_busy env s va area array) as (va2 & r2 & Hm2 & _).
      { pose proof (rg_pos _ (ly_region _ _ (ao_layout _ _ Hok))). lia. }
      rewrite Hm in Hm2. injection Hm2 as -> -> ->. right. eauto.
  - destruct Hs as [Hs|(v & Hok & Ha)].
    + unfold binder_alloc_buf in Hal. rewrite (proj1 Hs) in Hal. injection Hal as <- <-. by left.
    + destruct (alloc_buf_spec env s v ds os async Hok Hd Ho) as (s2 & r2 & Hal2 & Hpost). rewrite Hal in Hal2.
      injection Hal2 as <- <-. destruct Hpost as [(_ & -> & _)|(b & h & v1 & v2 & _ & _ & _ & Hok' & Harea & _)]; right.
      * eauto.
      * eexists. split; [exact Hok'|]. by eapply area_ok_eq.
  - destruct Hs as [Hs|(v & Hok & Ha)]; [destruct Hs as (_ & _ & _ & He & _); by rewrite He in Hb|].
    destruct (alloc_ok_split s v b h Hok Hb) as (v1 & v2 & ->).
    destruct (free_buf_spec env s v1 b h v2 Hok Fb Ht) as (s2 & Hf2 & Hok' & E1 & E2 & E3 & E4 & _).
    rewrite Hf in Hf2. injection Hf2 as <-. right. eexists. split; [exact Hok'|]. by eapply area_ok_eq.
  - destruct Hs as [Hs|(v & Hok & Ha)]; [destruct Hs as (_ & _ & _ & He & _); by rewrite He in Hb|].
    destruct (alloc_ok_split s v b h Hok Hb) as (v1 & v2 & ->). right. eexists. split; [by eapply note_ok|done].
  - destruct Hs as [Hs|(v & Hok & Ha)]; [left|right].
    + destruct Hs as (_ & ? & ? & ? & ? & ?). by split_and!.
    + exists v. split; [by apply set_vma_ok|done].
Qed.

Lemma alloc_reach_ok s : rtc alloc_step unmapped s -> state_ok s.
Proof.
  intros H. assert (state_ok unmapped) as H0 by (left; done). revert H0.
  induction H as [s|s1 s2 s3 Hs _ IH]; [done|]. intros H0. apply IH. by eapply alloc_step_ok.
Qed.

(** ** A release undoes an allocation *)

Lemma released_carve env v1 b h h' v2 ds os room :
  merged (v1 ++ (b, h) :: v2) -> bb_free h = true ->
  released v1 b h' (cut_off env b (alloc_size ds os) room ++ v2) = v1 ++ (b, set_bb_free true h') :: v2.
Proof.
  intros Hm Fb. apply merged_app in Hm as (_ & Hw & Hl). apply merged_cons in Hw as [_ Hf].
  cbn [first_free] in Hl. rewrite Fb, andb_true_r in Hl. rewrite Fb in Hf. cbn in Hf.
  unfold released. rewrite Hl, <- app_assoc. cbn [app]. do 2 f_equal. unfold cut_off.
  destruct (splits_off _ _); [done|]. cbn [app]. destruct v2 as [|[c k] v2]; [done|]. cbn in *. by rewrite Hf.
Qed.

Lemma same_pages s s' v v' :
  layout s v -> layout s' v' -> buffer s' = buffer s -> buffer_size s' = buffer_size s ->
  (forall q, needed v' (limit s) q <-> needed v (limit s) q) -> pages s' = pages s.
Proof.
  intros H H' E1 E2 Hq. assert (limit s' = limit s) as El by (unfold limit; by rewrite E1, E2).
  apply (mapped_pages_ext s); [apply H| |done|].
  - pose proof (rg_pages _ (ly_region _ _ H)). pose proof (rg_pages _ (ly_region _ _ H')). unfold PAGE_SIZE in *. lia.
  - intros p. rewrite (present_ext s' (set_pages s (pages s'))), (present_ext s (set_pages s (pages s))) by done.
    by rewrite (ly_pages _ _ H), (ly_pages _ _ H'), El, Hq.
Qed.

(** The bytes [a] of an allocated buffer [b] are no one else's. *)
Definition own_byte s b h (a : Z) : Prop :=
  buffer s <= a < limit s /\ mapped s a = true /\
  (forall c k, headers s !! c = Some k -> ~ (c <= a < buffer_data c)) /\
  (forall c k, headers s !! c = Some k -> c <> b -> bb_free k = false -> ~ in_buffer c k a).

Lemma allocated_bytes s v b h a :
  alloc_ok s v -> headers s !! b = Some h -> bb_free h = false -> in_buffer b h a -> own_byte s b h a.
Proof.
  intros Hok Hb Fb Ha. pose proof (ao_layout _ _ Hok) as H. pose proof (ly_headers _ _ H) as Hh.
  apply Hh in Hb. destruct (in_buffer_bounds _ _ _ _ _ H Hb Fb Ha) as [B1 B2].
  destruct (layout_bounds _ _ _ _ H Hb) as [B3 B4].
  unfold own_byte. split_and!.
  - unfold buffer_data, sizeof_buffer in *. lia.
  - done.
  - by eapply in_buffer_mapped.
  - intros c k Hc%Hh. destruct (Z.eq_dec c b) as [->|Hne]; [unfold in_buffer in Ha; lia|].
    destruct (in_buffer_disjoint _ _ _ _ _ _ _ H Hb Fb Ha Hc Hne); lia.
  - intros c k Hc%Hh Hne Fc Hk. destruct (in_buffer_disjoint _ _ _ _ _ _ _ H Hb Fb Ha Hc Hne) as [?|[_ Hno]].
    + unfold in_buffer, buffer_data, sizeof_buffer in *. lia.
    + by apply Hno.
Qed.

(** A release leaves the other allocated buffers as they are. *)
Lemma released_elem v1 b h v2 c k :
  (c, k) ∈ v1 ++ (b, h) :: v2 -> c <> b -> bb_free k = false -> (c, k) ∈ released v1 b h v2.
Proof.
  intros Hc Hne Fk. unfold released. apply elem_of_app. apply elem_of_app in Hc as [Hc|Hc].
  - left. case_match; [done|]. apply elem_of_app. by left.
  - right. apply elem_of_cons in Hc as [[= -> ->]|Hc]; [done|]. destruct v2 as [|[d hd] v2]; [by apply elem_of_nil in Hc|]. cbn.
    destruct (bb_free hd) eqn:Fd; [|done]. apply elem_of_cons in Hc as [[= -> ->]|Hc]; [congruence|done].
Qed.

(** ** Claims *)

(** C13: In every state that mapping, allocating, releasing, writing the driver's
    own fields of a header and unmapping can produce, in any order and with
    pages or memory running out at any point, the buffers tile the range, the
    two trees hold the free ones by size and the allocated ones by address, no
    two neighbours are free, exactly the needed pages are there and the
    asynchronous space adds up.  No allocation, no release of an allocated
    buffer that no transaction refers to and no lookup then trips a [BUG_ON],
    reads a header on a missing page or runs over the page array; nor does a
    mapping of user pages, unless it has at most three pages and another cache
    colour than the kernel's addresses ([mmap_wrong_colour_small]). *)
Theorem binder_alloc_invariant s :
  rtc alloc_step unmapped s ->
  (fresh s \/ exists v, alloc_ok s v /\ area_ok s) /\
  (forall env ds os async, 0 <= ds < 2 ^ 32 -> 0 <= os < 2 ^ 32 -> is_Some (binder_alloc_buf env s ds os async)) /\
  (forall env b h, headers s !! b = Some h -> bb_free h = false -> bb_transaction h = None ->
     is_Some (binder_free_buf env s b)) /\
  (forall user_ptr, is_Some (binder_buffer_lookup s user_ptr)) /\
  (forall env va area array,
     (forall addr, area = Some addr -> mmap_request va addr /\
        (CACHE_COLOUR (Z.lxor (vm_start va) addr) = 0 \/ 3 * PAGE_SIZE < vm_end va - vm_start va)) ->
     is_Some (binder_mmap env s va area array)).
Proof.
  intros Hr%alloc_reach_ok. pose proof (fun env va area array => mmap_total env s va area array Hr) as Hm.
  destruct Hr as [Hs|(v & Hok & Ha)]; (split; [by eauto|]).
  - destruct Hs as (F1 & F2 & F3 & F4 & F5 & F6). split_and!.
    + intros env ds os async _ _. unfold binder_alloc_buf. rewrite F1. done.
    + intros env b h. by rewrite F4.
    + intros p. unfold binder_buffer_lookup. rewrite F6. done.
    + done.
  - split_and!.
    + intros env ds os async Hd Ho. destruct (alloc_buf_spec env s v ds os async Hok Hd Ho) as (s' & r & -> & _). done.
    + intros env b h Hb Fb Ht. destruct (alloc_ok_split s v b h Hok Hb) as (v1 & v2 & ->).
      destruct (free_buf_spec env s v1 b h v2 Hok Fb Ht) as (s' & -> & _). done.
    + intros p. destruct (buffer_lookup_spec s v p Hok) as [L1 L2]. set (kern := u32 _) in *.
      destruct (headers s !! kern) as [h|] eqn:Eh.
      * destruct (bb_free h) eqn:Fh; [rewrite L2; [done|]|rewrite (L1 h); [done| |done]].
        -- intros k Hk. apply (ly_headers _ _ (ao_layout _ _ Hok)) in Hk. congruence.
        -- by apply (ly_headers _ _ (ao_layout _ _ Hok)).
      * rewrite L2; [done|]. intros k Hk. apply (ly_headers _ _ (ao_layout _ _ Hok)) in Hk. congruence.
    + done.
Qed.

(** C14: Transactions cannot write over each other or over the allocator.  When,
    in a state that the operations can produce, an allocation succeeds, the
    buffer has the sizes asked for and was not allocated before; each of its
    bytes, into which the data and behind it the offsets fit, lies inside of the
    range, on a page that is there, outside of every header, and belongs to no
    other allocated buffer; and the headers of all buffers that were allocated
    before are as they were.  A release leaves all other allocated buffers as
    they were, too. *)
Theorem binder_buffers_separate s :
  rtc alloc_step unmapped s ->
  (forall env ds os async s' b, 0 <= ds < 2 ^ 32 -> 0 <= os < 2 ^ 32 -> binder_alloc_buf env s ds os async = Some (s', Some b) ->
     exists h, headers s' !! b = Some h /\ bb_free h = false /\ data_size h = ds /\ offsets_size h = os /\
       ALIGN ds + os <= alloc_size ds os /\ (forall a, in_buffer b h a -> own_byte s' b h a) /\
       (forall c k, headers s !! c = Some k -> bb_free k = false -> c <> b /\ headers s' !! c = Some k)) /\
  (forall env b h s', headers s !! b = Some h -> bb_free h = false -> bb_transaction h = None -> binder_free_buf env s b = Some s' ->
     forall c k, headers s !! c = Some k -> c <> b -> bb_free k = false -> headers s' !! c = Some k).
Proof.
  intros [Hs|(v & Hok & Ha)]%alloc_reach_ok.
  { destruct Hs as (F1 & F2 & F3 & F4 & F5 & F6). split.
    - intros env ds os async s' b _ _. unfold binder_alloc_buf. by rewrite F1.
    - intros env b h s'. by rewrite F4. }
  pose proof (ly_headers _ _ (ao_layout _ _ Hok)) as Hh. split.
  - intros env ds os async s' b Hd Ho Hal. destruct (alloc_buf_spec env s v ds os async Hok Hd Ho) as (s2 & r & Hal2 & Hpost).
    rewrite Hal in Hal2. injection Hal2 as <- <-. destruct Hpost as [[? _]|(b' & h & v1 & v2 & [= <-] & -> & (Fb & _) & Hok' & _)]; [done|].
    pose proof (ly_headers _ _ (ao_layout _ _ Hok')) as Hh'. set (h' := taken_header h ds os async).
    assert (headers s' !! b = Some h') as Hb by (apply Hh', elem_of_app; right; left).
    exists h'. do 4 (split; [done|]). split; [|split; [intros a; by apply (allocated_bytes _ _ _ _ _ Hok')|]].
    + pose proof (ly_fits _ _ (ao_layout _ _ Hok')) as (_ & Hf & _)%fits_app. destruct (Hf eq_refl) as (_ & _ & H1 & _). exact H1.
    + intros c k Hc Fk. assert (c <> b) as Hne.
      { intros ->. assert (headers s !! b = Some h) as Hbs by (apply Hh, elem_of_app; right; left). congruence. }
      split; [done|]. apply Hh'. apply Hh in Hc. rewrite !elem_of_app. apply elem_of_app in Hc as [?|[?|?]%elem_of_cons]; [by left|congruence|by right; right].
  - intros env b h s' Hb Fb Ht Hf c k Hc Hne Fk. destruct (alloc_ok_split s v b h Hok Hb) as (v1 & v2 & ->).
    destruct (free_buf_spec env s v1 b h v2 Hok Fb Ht) as (s2 & Hf2 & Hok' & _). rewrite Hf in Hf2. injection Hf2 as <-.
    apply (ly_headers _ _ (ao_layout _ _ Hok')), released_elem; [by apply Hh|done|done].
Qed.

(** An allocation takes a smallest of the free buffers that can hold the
    data and the offsets, each rounded up to words; it keeps the rest as a free
    buffer of its own unless that would have no more than four bytes of room,
    and changes nothing else.  It fails, without any effect, only when the sizes
    overflow, the asynchronous space is used up, every free buffer is too small,
    or the kernel cannot provide or map a page. *)
Theorem binder_alloc_buf_best_fit env s v area ds os async :
  alloc_ok s v -> area_ok s -> vma s = Some area -> 0 <= ds < 2 ^ 32 -> 0 <= os < 2 ^ 32 ->
  let size := alloc_size ds os in
  exists s' r, binder_alloc_buf env s ds os async = Some (s', r) /\
    match r with
    | Some b => exists h v1 v2, v = v1 ++ (b, h) :: v2 /\ best_fit s v b h size /\
        alloc_ok s' (v1 ++ carve env b h ds os async (bsize s b) ++ v2) /\
        ALIGN ds + os <= size < ds + os + 8 /\
        free_async_space s' = free_async_space s - (if async then size + sizeof_buffer else 0)
    | None => s' = s /\
        (size < ds \/ size < os \/ async = true /\ free_async_space s < size + sizeof_buffer \/
         (forall b h, (b, h) ∈ v -> bb_free h = true -> bsize s b < size) \/
         pe_mm env = false \/ exists a, pe_event env a <> PageOk)
    end.
Proof.
  intros Hok Ha Ev Hd Ho size. destruct (alloc_buf_spec env s v ds os async Hok Hd Ho) as (s' & r & -> & Hpost).
  exists s', r. split; [done|]. destruct Hpost as [(-> & -> & Hwhy)|(b & h & v1 & v2 & -> & Hv & Hfit & Hok' & _ & Has)].
  - split; [done|]. destruct Hwhy as [?|[?|[?|[?|[?|[?|(a2 & p & Ea & Hp & Hfail)]]]]]]; try tauto; [congruence|].
    do 5 right. exists (p * PAGE_SIZE). eapply area_page_ok; [apply Hok|done|exact Ea|done|done].
  - exists h, v1, v2. split; [done|]. split; [done|]. split; [done|]. split; [|done].
    pose proof (ly_headers _ _ (ao_layout _ _ Hok') b (taken_header h ds os async)) as [_ Hin].
    pose proof (ly_fits _ _ (ao_layout _ _ Hok')) as Hf. rewrite !fits_app in Hf. destruct Hf as (_ & Hf & _).
    destruct Hf as [Hf _]. destruct (Hf eq_refl) as (G1 & G2 & G3 & G4). cbn [data_size offsets_size taken_header set_sizes] in *.
    destruct (size_check ds os Hd Ho) as (C1 & C2 & C3); [fold size; lia|fold size|fold size in C2, C3; lia].
    fold size in G3. pose proof (ALIGN_eq ds). pose proof (u32_range (ds + 3)). Z.to_euclidean_division_equations; lia.
Qed.

(** Releasing an allocated buffer that no transaction refers to any more
    makes it free and merges it with the free buffers on both sides; all other
    buffers keep their place and contents, the pages that only it needed go, and
    the space of an asynchronous transaction is given back.  The release always
    succeeds. *)
Theorem binder_free_buf_merges env s v1 b h v2 :
  alloc_ok s (v1 ++ (b, h) :: v2) -> bb_free h = false -> bb_transaction h = None ->
  exists s', binder_free_buf env s b = Some s' /\ alloc_ok s' (released v1 b h v2) /\
    area_eq s s' /\ free_async_space s' = given_back s h.
Proof.
  intros Hok Fb Ht. destruct (free_buf_spec env s v1 b h v2 Hok Fb Ht) as (s' & H1 & H2 & E1 & E2 & E3 & E4 & E5).
  exists s'. split_and!; try done.
Qed.

(** Releasing a buffer right after its allocation restores the allocator:
    the same buffers at the same addresses with the same headers, the same pages,
    the same sets of free and of allocated buffers and the same asynchronous
    space. *)
Theorem binder_alloc_free_roundtrip env env' s v ds os async s1 b h1 :
  alloc_ok s v -> 0 <= ds < 2 ^ 32 -> 0 <= os < 2 ^ 32 ->
  binder_alloc_buf env s ds os async = Some (s1, Some b) -> headers s1 !! b = Some h1 ->
  exists s', binder_free_buf env' (set_header s1 b (set_transaction None h1)) b = Some s' /\
    buffers s' = buffers s /\ pages s' = pages s /\ free_async_space s' = free_async_space s /\
    inorder (allocated_buffers s') = inorder (allocated_buffers s) /\
    inorder (free_buffers s') ≡ₚ inorder (free_buffers s) /\
    (forall c, c <> b -> headers s' !! c = headers s !! c) /\
    (exists h', headers s' !! b = Some h' /\ bb_free h' = true).
Proof.
  intros Hok Hd Ho Hal Hh1. destruct (alloc_buf_spec env s v ds os async Hok Hd Ho) as (s2 & r & Hal2 & Hpost).
  rewrite Hal in Hal2. injection Hal2 as <- <-.
  destruct Hpost as [(? & _)|(b' & h & v1 & v2 & [= <-] & -> & (Fb & _) & Hok1 & (E1 & E2 & E3 & E4) & Has)]; [done|].
  assert (h1 = taken_header h ds os async) as ->.
  { assert (headers s1 !! b = Some (taken_header h ds os async)) as Hh; [|congruence].
    apply (ly_headers _ _ (ao_layout _ _ Hok1)). apply elem_of_app. right. left. }
  set (h1 := taken_header h ds os async) in *. unfold carve in Hok1. cbn [app] in Hok1. fold h1 in Hok1.
  apply (note_ok _ _ _ _ (set_transaction None h1)) in Hok1; [|done].
  destruct (free_buf_spec env' _ _ _ _ _ Hok1 eq_refl eq_refl) as (s' & -> & Hok' & _ & G2 & _ & G4 & G5).
  erewrite released_carve in Hok' by (apply Hok || done).
  exists s'. split; [done|]. pose proof (ao_layout _ _ Hok) as H. pose proof (ao_layout _ _ Hok') as H'.
  cbn [buffer buffer_size set_header set_buffers] in G2, G4. split_and!.
  - by rewrite (ly_buffers _ _ H), (ly_buffers _ _ H'), !fmap_split.
  - eapply same_pages; [exact H|exact H'|congruence|congruence|].
    intros q. rewrite !needed_app. cbn [needed start_of]. unfold used_end. by rewrite Fb.
  - rewrite G5. unfold given_back. cbn. rewrite Has. destruct async; lia.
  - destruct (ao_taken _ _ Hok) as [_ ->]. destruct (ao_taken _ _ Hok') as [_ ->]. autorewrite with view. by rewrite Fb.
  - destruct (ao_free _ _ Hok) as (_ & P1 & _). destruct (ao_free _ _ Hok') as (_ & P2 & _). rewrite P1, P2. autorewrite with view. by rewrite Fb.
  - intros c Hc. apply option_eq. intros k. rewrite (ly_headers _ _ H), (ly_headers _ _ H'), !elem_of_app, !elem_of_cons.
    naive_solver.
  - exists (set_bb_free true (set_transaction None h1)). split; [|done]. apply (ly_headers _ _ H'), elem_of_app. right. left.
Qed.

(** [BC_FREE_BUFFER] finds a buffer by the user address of its data: the
    lookup returns exactly the allocated buffer whose data the process sees at
    this address, and nothing for any other address. *)
Theorem binder_buffer_lookup_exact s v user_ptr b :
  alloc_ok s v -> 0 <= user_ptr < 2 ^ 32 ->
  binder_buffer_lookup s user_ptr = Some (Some b) <->
  exists h, headers s !! b = Some h /\ bb_free h = false /\ user_ptr = u32 (buffer_data b + user_buffer_offset s).
Proof.
  intros Hok Hp. destruct (buffer_lookup_spec s v user_ptr Hok) as [L1 L2]. set (kern := u32 _) in *.
  pose proof (ao_layout _ _ Hok) as H. pose proof (ly_headers _ _ H) as Hh.
  assert (forall h, (b, h) ∈ v -> b = kern <-> user_ptr = u32 (buffer_data b + user_buffer_offset s)) as Heq.
  { intros h Hb. destruct (layout_bounds _ _ _ _ H Hb) as [B1 B2]. pose proof (ly_region _ _ H) as [_ R2 _ _ R5 _].
    unfold kern, u32, buffer_data, sizeof_buffer, limit in *. clear -B1 B2 R2 R5 Hp.
    change (2 ^ 32) with 4294967296 in *. split; intros He; Z.to_euclidean_division_equations; lia. }
  split.
  - intros Hl. destruct (headers s !! kern) as [h|] eqn:Ek; [destruct (bb_free h) eqn:Fh|].
    + rewrite L2 in Hl; [done|]. intros k Hk%Hh. congruence.
    + rewrite (L1 h) in Hl by (done || by apply Hh). injection Hl as <-. exists h. split_and!; try done.
      by apply (Heq h); [apply Hh|].
    + rewrite L2 in Hl; [done|]. intros k Hk%Hh. congruence.
  - intros (h & Hb & Fb & He). apply Hh in Hb as Hb'. apply (Heq h Hb') in He. subst b. by apply (L1 h).
Qed.

(** ** Witnesses *)

Definition blank : binder_buffer := BinderBuffer false false false 0 None None 0 0.
Definition ex_env : page_env := PageEnv true (fun _ => PageOk) (fun _ => blank).
Definition ex_base : Z := 3489660928.                   (* 0xd0000000 *)
Definition ex_area : vm_area := VmArea 1073741824 (1073741824 + 8192) 1.
Definition ex_mapped : binder_alloc :=
  from_option (fun r => r.1.1) unmapped (binder_mmap ex_env unmapped ex_area (Some ex_base) true).
Definition ex_taken : binder_alloc :=
  from_option fst unmapped (binder_alloc_buf ex_env ex_mapped 100 8 false).

Lemma ex_buffer_request addr : Some ex_base = Some addr -> mmap_request ex_area addr.
Proof. intros [= <-]. by split; repeat split. Qed.

Lemma mmap_result env s va addr s' va' :
  fresh s -> (mmap_request va addr /\ CACHE_COLOUR (Z.lxor (vm_start va) addr) = 0) ->
  binder_mmap env s va (Some addr) true = Some (s', va', 0) ->
  alloc_ok s' [(addr, set_bb_free true (pe_stale env addr))] /\ area_ok s' /\ vma s' = Some va'.
Proof.
  intros Hf Hreq Hm.
  destruct (mmap_spec env s va (Some addr) true Hf) as (s2 & va2 & r & Hm2 & Hpost); [by intros ? [= <-]|].
  rewrite Hm in Hm2. injection Hm2 as <- <- <-.
  destruct Hpost as [(? & _)|(a & _ & [= <-] & _ & Hok & Ha & Hv & _)]; done.
Qed.

Lemma alloc_one_result env s addr h ds os async s' b :
  alloc_ok s [(addr, h)] -> 0 <= ds < 2 ^ 32 -> 0 <= os < 2 ^ 32 ->
  binder_alloc_buf env s ds os async = Some (s', Some b) ->
  alloc_ok s' (carve env addr h ds os async (bsize s addr)).
Proof.
  intros Hok Hd Ho Hal. destruct (alloc_buf_spec env s _ ds os async Hok Hd Ho) as (s2 & r & Hal2 & Hpost).
  rewrite Hal in Hal2. injection Hal2 as <- <-.
  destruct Hpost as [(? & _)|(b2 & h2 & v1 & v2 & [= <-] & Hv12 & _ & Hok' & _)]; [done|].
  destruct v1 as [|x [|y v1]]; [|done|done]. injection Hv12 as <- <- <-. cbn [app] in Hok'. by rewrite app_nil_r in Hok'.
Qed.

Definition ex_vma : vm_area := VmArea 1073741824 (1073741824 + 8192) 131073.

Lemma ex_mmap : binder_mmap ex_env unmapped ex_area (Some ex_base) true = Some (ex_mapped, ex_vma, 0).
Proof. vm_compute. reflexivity. Qed.
Lemma ex_alloc : binder_alloc_buf ex_env ex_mapped 100 8 false = Some (ex_taken, Some ex_base).
Proof. vm_compute. reflexivity. Qed.

Lemma ex_mapped_ok :
  alloc_ok ex_mapped [(ex_base, set_bb_free true blank)] /\ area_ok ex_mapped /\ vma ex_mapped = Some ex_vma.
Proof.
  refine (mmap_result _ _ _ _ _ _ _ (conj (ex_buffer_request _ eq_refl) eq_refl) ex_mmap).
  by repeat split.
Qed.

Lemma ex_taken_ok :
  alloc_ok ex_taken (carve ex_env ex_base (set_bb_free true blank) 100 8 false (bsize ex_mapped ex_base)).
Proof. exact (alloc_one_result ex_env ex_mapped ex_base _ 100 8 false _ _ (proj1 ex_mapped_ok) ltac:(lia) ltac:(lia) ex_alloc). Qed.

Definition ex_header : binder_buffer := taken_header (set_bb_free true blank) 100 8 false.

Lemma ex_reached : rtc alloc_step unmapped ex_taken.
Proof.
  eapply rtc_l; [exact (AsMmap _ _ _ _ _ _ _ _ ex_buffer_request ex_mmap)|].
  eapply rtc_l; [exact (AsAlloc ex_env ex_mapped 100 8 false _ _ ltac:(lia) ltac:(lia) ex_alloc)|constructor].
Qed.

Lemma binder_alloc_invariant_witness :
  rtc alloc_step unmapped ex_taken /\ is_Some (binder_free_buf ex_env ex_taken ex_base) /\
  is_Some (binder_alloc_buf ex_env ex_taken 4000 0 true).
Proof.
  pose proof ex_reached as Hr.
  destruct (binder_alloc_invariant ex_taken Hr) as (_ & Ha & Hf & _).
  split; [done|]. split.
  - apply (Hf ex_env ex_base ex_header); reflexivity.
  - apply Ha; lia.
Defined.

(** A second buffer behind the first. *)
Lemma binder_buffers_separate_witness :
  exists s' b h, binder_alloc_buf ex_env ex_taken 50 4 false = Some (s', Some b) /\ headers s' !! b = Some h /\
    own_byte s' b h (buffer_data b + 55) /\ headers s' !! ex_base = Some ex_header.
Proof.
  destruct (binder_alloc_buf ex_env ex_taken 50 4 false) as [[s' [b|]]|] eqn:E; [|vm_compute in E; discriminate|vm_compute in E; discriminate].
  destruct (proj1 (binder_buffers_separate ex_taken ex_reached) ex_env 50 4 false s' b ltac:(lia) ltac:(lia) E)
    as (h & Hb & _ & Hd & Ho & _ & Hown & Hold).
  exists s', b, h. split; [reflexivity|]. split; [exact Hb|]. split.
  - apply Hown. unfold in_buffer. rewrite Hd, Ho. change (alloc_size 50 4) with 56. lia.
  - apply (Hold ex_base ex_header); vm_compute; reflexivity.
Defined.

Lemma binder_alloc_buf_best_fit_witness :
  exists s' b, binder_alloc_buf ex_env ex_mapped 5000 12 false = Some (s', Some b).
Proof.
  destruct ex_mapped_ok as (Hok & Ha & Hv).
  destruct (binder_alloc_buf_best_fit ex_env ex_mapped _ ex_vma 5000 12 false Hok Ha Hv) as (s' & [b|] & Hal & Hpost);
    [lia|lia|eauto|].
  exfalso. revert Hal. vm_compute. discriminate.
Defined.

Lemma binder_free_buf_merges_witness :
  exists s', binder_free_buf ex_env ex_taken ex_base = Some s' /\
    alloc_ok s' [(ex_base, set_bb_free true ex_header)].
Proof.
  pose proof ex_taken_ok as Hok.
  destruct (binder_free_buf_merges ex_env ex_taken [] ex_base ex_header
    (cut_off ex_env ex_base (alloc_size 100 8) (bsize ex_mapped ex_base)) Hok) as (s' & H1 & H2 & _); [reflexivity..|].
  exists s'. split; [exact H1|exact H2].
Defined.

Lemma binder_alloc_free_roundtrip_witness :
  exists s', binder_free_buf ex_env (set_header ex_taken ex_base (set_transaction None ex_header)) ex_base = Some s' /\
    pages s' = pages ex_mapped /\ buffers s' = buffers ex_mapped.
Proof.
  destruct ex_mapped_ok as (Hok & _). pose proof ex_alloc as Hal.
  destruct (binder_alloc_free_roundtrip ex_env ex_env ex_mapped _ 100 8 false ex_taken ex_base ex_header Hok)
    as (s' & H1 & H2 & H3 & _); [lia|lia|exact Hal|reflexivity|].
  exists s'. split; [exact H1|]. split; [exact H3|exact H2].
Defined.

Lemma binder_buffer_lookup_exact_witness :
  binder_buffer_lookup ex_taken (1073741824 + 40) = Some (Some ex_base).
Proof.
  pose proof ex_taken_ok as Hok.
  apply (binder_buffer_lookup_exact ex_taken _ (1073741824 + 40) ex_base Hok); [lia|].
  exists ex_header. split; [reflexivity|]. split; reflexivity.
Defined.

(** ** Defects that modelling showed *)

(** A mapping whose user address has another cache colour than the kernel's:
    [vm_start] moves on, but the pages go to the addresses computed before, so
    mapping the first page fails. *)
Example mmap_wrong_colour :
  from_option snd 0 (binder_mmap ex_env unmapped (VmArea 1073745920 (1073745920 + 32768) 1) (Some ex_base) true)
  = - ENOMEM.
Proof. vm_compute. reflexivity. Qed.

(** With one page only, nothing is left of the area and the page array has no
    slot: the first store is out of its bounds. *)
Example mmap_wrong_colour_small :
  binder_mmap ex_env unmapped (VmArea 1073754112 (1073754112 + 4096) 1) (Some ex_base) true = None.
Proof. vm_compute. reflexivity. Qed.
