(* ===== verification/BinderProtocol.v ===== *)
(** * The binder protocol (drivers/staging/android/binder.h)

    Commands are numbers in the encoding of ioctl requests
    (include/asm-generic/ioctl.h): direction, size of the argument, type and
    number. *)

From stdpp Require Import base numbers list.
From S2P Require Import Prelude.

Open Scope Z_scope.

Definition IOC (dir type nr size : Z) : Z :=
  Z.lor (Z.lor (Z.shiftl dir 30) (Z.shiftl type 8)) (Z.lor nr (Z.shiftl size 16)).
Definition IO (type nr : Z) : Z := IOC 0 type nr 0.
Definition IOW (type nr size : Z) : Z := IOC 1 type nr size.
Definition IOR (type nr size : Z) : Z := IOC 2 type nr size.
Definition IOWR (type nr size : Z) : Z := IOC 3 type nr size.
Definition IOC_SIZE (cmd : Z) : Z := Z.land (Z.shiftr cmd 16) (2 ^ 14 - 1).

(** Sizes of the structures on this machine. *)
Definition sizeof_transaction_data : Z := 40.
Definition sizeof_ptr_cookie : Z := 8.
Definition sizeof_pri_desc : Z := 8.
Definition sizeof_write_read : Z := 24.
Definition sizeof_version : Z := 4.
Definition sizeof_flat_object : Z := 16.

(** Objects in transactions. *)
Definition B_PACK_CHARS (c1 c2 c3 c4 : Z) : Z :=
  Z.lor (Z.lor (Z.shiftl c1 24) (Z.shiftl c2 16)) (Z.lor (Z.shiftl c3 8) c4).
Definition BINDER_TYPE_BINDER : Z := B_PACK_CHARS 115 98 42 133.
Definition BINDER_TYPE_WEAK_BINDER : Z := B_PACK_CHARS 119 98 42 133.
Definition BINDER_TYPE_HANDLE : Z := B_PACK_CHARS 115 104 42 133.
Definition BINDER_TYPE_WEAK_HANDLE : Z := B_PACK_CHARS 119 104 42 133.
Definition BINDER_TYPE_FD : Z := B_PACK_CHARS 102 100 42 133.
Definition FLAT_BINDER_FLAG_PRIORITY_MASK : Z := 255.
Definition FLAT_BINDER_FLAG_ACCEPTS_FDS : Z := 256.

Definition TF_ONE_WAY : Z := 1.
Definition TF_ACCEPT_FDS : Z := 16.

Record binder_transaction_data := TransactionData {
  tr_target : Z;
  tr_cookie : Z;
  tr_code : Z;
  tr_flags : Z;
  tr_sender_pid : Z;
  tr_sender_euid : Z;
  tr_data_size : Z;
  tr_offsets_size : Z;
  tr_buffer : Z;
  tr_offsets : Z }.

(** Requests of the device. *)
Definition BINDER_WRITE_READ : Z := IOWR 98 1 sizeof_write_read.
Definition BINDER_SET_MAX_THREADS : Z := IOW 98 5 4.
Definition BINDER_SET_CONTEXT_MGR : Z := IOW 98 7 4.
Definition BINDER_THREAD_EXIT : Z := IOW 98 8 4.
Definition BINDER_VERSION : Z := IOWR 98 9 sizeof_version.
Definition BINDER_CURRENT_PROTOCOL_VERSION : Z := 7.

(** What the driver returns. *)
Definition BR_ERROR : Z := IOR 114 0 4.
Definition BR_OK : Z := IO 114 1.
Definition BR_TRANSACTION : Z := IOR 114 2 sizeof_transaction_data.
Definition BR_REPLY : Z := IOR 114 3 sizeof_transaction_data.
Definition BR_DEAD_REPLY : Z := IO 114 5.
Definition BR_TRANSACTION_COMPLETE : Z := IO 114 6.
Definition BR_INCREFS : Z := IOR 114 7 sizeof_ptr_cookie.
Definition BR_ACQUIRE : Z := IOR 114 8 sizeof_ptr_cookie.
Definition BR_RELEASE : Z := IOR 114 9 sizeof_ptr_cookie.
Definition BR_DECREFS : Z := IOR 114 10 sizeof_ptr_cookie.
Definition BR_NOOP : Z := IO 114 12.
Definition BR_SPAWN_LOOPER : Z := IO 114 13.
Definition BR_DEAD_BINDER : Z := IOR 114 15 4.
Definition BR_CLEAR_DEATH_NOTIFICATION_DONE : Z := IOR 114 16 4.
Definition BR_FAILED_REPLY : Z := IO 114 17.

(** What a thread asks for. *)
Definition BC_TRANSACTION : Z := IOW 99 0 sizeof_transaction_data.
Definition BC_REPLY : Z := IOW 99 1 sizeof_transaction_data.
Definition BC_ACQUIRE_RESULT : Z := IOW 99 2 4.
Definition BC_FREE_BUFFER : Z := IOW 99 3 4.
Definition BC_INCREFS : Z := IOW 99 4 4.
Definition BC_ACQUIRE : Z := IOW 99 5 4.
Definition BC_RELEASE : Z := IOW 99 6 4.
Definition BC_DECREFS : Z := IOW 99 7 4.
Definition BC_INCREFS_DONE : Z := IOW 99 8 sizeof_ptr_cookie.
Definition BC_ACQUIRE_DONE : Z := IOW 99 9 sizeof_ptr_cookie.
Definition BC_ATTEMPT_ACQUIRE : Z := IOW 99 10 sizeof_pri_desc.
Definition BC_REGISTER_LOOPER : Z := IO 99 11.
Definition BC_ENTER_LOOPER : Z := IO 99 12.
Definition BC_EXIT_LOOPER : Z := IO 99 13.
Definition BC_REQUEST_DEATH_NOTIFICATION : Z := IOW 99 14 sizeof_ptr_cookie.
Definition BC_CLEAR_DEATH_NOTIFICATION : Z := IOW 99 15 sizeof_ptr_cookie.
Definition BC_DEAD_BINDER_DONE : Z := IOW 99 16 4.
