(* ===== verification/BinderCore.v ===== *)
(** * The state of the binder driver (drivers/staging/android/binder.c)

    Processes exchange messages through the driver.  A process offers objects,
    the driver's nodes, and holds references to the nodes of other processes
    under small numbers, the descriptors.  A message, a transaction, carries
    data and may carry objects, which the driver translates between the name
    spaces of the two processes.

    Every object of the driver is known by its address.  An operation is a
    function on the state, in the monad [M]; it has no result, [None], when it
    runs into a [BUG_ON] or accesses an object that is not there, be it through
    a null pointer or after it was freed.  The driver runs under one lock, so
    an operation is atomic up to where it sleeps. *)

From stdpp Require Import base numbers list gmap countable.
From S2P Require Import Prelude RbTree RbKeyed BinderAlloc.

Open Scope Z_scope.

(** ** Data *)

(** An object that a process offers, at the user address [node_ptr]; without a
    process once that is gone.  [node_refs] are the references to it. *)
Record binder_node := BinderNode {
  node_debug_id : Z;
  node_proc : option Z;
  node_refs : list Z;
  internal_strong_refs : Z;
  local_weak_refs : Z;
  local_strong_refs : Z;
  node_ptr : Z;
  node_cookie : Z;
  has_strong_ref : bool;
  pending_strong_ref : bool;
  has_weak_ref : bool;
  pending_weak_ref : bool;
  has_async_transaction : bool;
  accept_fds : bool;
  min_priority : Z }.

(** A process's reference to a node, known to the process as [ref_desc]. *)
Record binder_ref := BinderRef {
  ref_debug_id : Z;
  ref_proc : Z;
  ref_node : Z;
  ref_desc : Z;
  ref_strong : Z;
  ref_weak : Z;
  ref_death : option Z }.

(** The kinds of work a death notification is queued as; none before it is
    queued for the first time. *)
Inductive death_work :=
  | NoDeathWork
  | BINDER_WORK_DEAD_BINDER
  | BINDER_WORK_DEAD_BINDER_AND_CLEAR
  | BINDER_WORK_CLEAR_DEATH_NOTIFICATION.

(** A request to be told of the death of a node. *)
Record binder_ref_death := BinderRefDeath {
  death_type : death_work;
  death_cookie : Z }.

(** A thread that uses the device. *)
Record binder_thread := BinderThread {
  thread_proc : Z;
  thread_pid : Z;
  looper : Z;
  transaction_stack : option Z;
  return_error : Z;
  return_error2 : Z }.

(** A transaction on its way or waiting for its reply.  A buffer is known by
    the process whose area it lies in and its address. *)
Record binder_transaction_t := BinderTransaction {
  t_debug_id : Z;
  t_from : option Z;
  from_parent : option Z;
  to_proc : option Z;
  to_thread : option Z;
  to_parent : option Z;
  need_reply : bool;
  t_buffer : option (Z * Z);
  t_code : Z;
  t_flags : Z;
  t_priority : Z;
  saved_priority : Z;
  sender_euid : Z }.

(** The open files of a process: the file behind each descriptor, the
    descriptors in use and where the search for a free one starts. *)
Record fdtable := FdTable {
  fds : gmap Z Z;
  open_fds : gset Z;
  next_fd : Z }.

(** A process that opened the device.  The trees hold threads by their pid,
    nodes by their user address, and references by descriptor and by the address
    of the node.  [memory] is what is in the buffers, byte by byte. *)
Record binder_proc := BinderProc {
  proc_threads : tree Z;
  proc_nodes : tree Z;
  refs_by_desc : tree Z;
  refs_by_node : tree Z;
  proc_pid : Z;
  proc_files : option fdtable;
  deferred_work : Z;
  alloc : binder_alloc;
  memory : gmap Z Z;
  max_threads : Z;
  requested_threads : Z;
  requested_threads_started : Z;
  ready_threads : Z;
  default_priority : Z }.

(** Work items and the lists they wait on. *)
Inductive work :=
  | WTransaction (t : Z)
  | WTransactionComplete (w : Z)
  | WNode (n : Z)
  | WDeath (d : Z).

Inductive list_id :=
  | ThreadTodo (th : Z)
  | ProcTodo (p : Z)
  | AsyncTodo (n : Z)
  | DeliveredDeath (p : Z).

Global Instance work_eq : EqDecision work.
Proof. solve_decision. Defined.
Global Instance list_id_eq : EqDecision list_id.
Proof. solve_decision. Defined.
Global Instance list_id_countable : Countable list_id.
Proof.
  refine (inj_countable'
    (fun l => match l with
              | ThreadTodo x => inl (inl x) | ProcTodo x => inl (inr x)
              | AsyncTodo x => inr (inl x) | DeliveredDeath x => inr (inr x)
              end)
    (fun c => match c with
              | inl (inl x) => ThreadTodo x | inl (inr x) => ProcTodo x
              | inr (inl x) => AsyncTodo x | inr (inr x) => DeliveredDeath x
              end) _).
  by intros [].
Defined.

(** The task that entered the driver, and what the rest of the kernel decides:
    the pages, the files of the current process and their descriptors, the limit
    of open files of the target and whether its table can grow, the effective user
    of the task that opened a process, and what a variable on the stack holds that
    was not initialised. *)
Record task := Task { pid : Z; tgid : Z; euid : Z; nice : Z; rlim_nice : Z; cap_sys_nice : bool }.
Record world := World {
  page : page_env;
  fget : Z -> option Z;
  files : fdtable;
  rlim_nofile : Z;
  expand_files : Z -> Z;
  tsk_euid : Z -> Z;
  uninit : Z }.

(** The driver: the objects it allocated, by address, its work lists, and the
    task it runs for. *)
Record binder := Binder {
  procs : gmap Z binder_proc;
  threads : gmap Z binder_thread;
  nodes : gmap Z binder_node;
  refs : gmap Z binder_ref;
  deaths : gmap Z binder_ref_death;
  transactions : gmap Z binder_transaction_t;
  completes : gset Z;
  lists : gmap list_id (list work);
  dead_nodes : list Z;
  context_mgr_node : option Z;
  context_mgr_uid : Z;
  last_id : Z;
  deferred_list : list Z;
  supply : list (option Z);
  current : task;
  user : umem;
  env : world }.

Definition set_node_proc (v : option Z) (N : binder_node) : binder_node :=
  BinderNode (node_debug_id N) v (node_refs N) (internal_strong_refs N) (local_weak_refs N)
    (local_strong_refs N) (node_ptr N) (node_cookie N) (has_strong_ref N) (pending_strong_ref
    N) (has_weak_ref N) (pending_weak_ref N) (has_async_transaction N) (accept_fds N)
    (min_priority N).
Definition set_node_refs (v : list Z) (N : binder_node) : binder_node :=
  BinderNode (node_debug_id N) (node_proc N) v (internal_strong_refs N) (local_weak_refs N)
    (local_strong_refs N) (node_ptr N) (node_cookie N) (has_strong_ref N) (pending_strong_ref
    N) (has_weak_ref N) (pending_weak_ref N) (has_async_transaction N) (accept_fds N)
    (min_priority N).
Definition set_internal_strong_refs (v : Z) (N : binder_node) : binder_node :=
  BinderNode (node_debug_id N) (node_proc N) (node_refs N) v (local_weak_refs N)
    (local_strong_refs N) (node_ptr N) (node_cookie N) (has_strong_ref N) (pending_strong_ref
    N) (has_weak_ref N) (pending_weak_ref N) (has_async_transaction N) (accept_fds N)
    (min_priority N).
Definition set_local_weak_refs (v : Z) (N : binder_node) : binder_node :=
  BinderNode (node_debug_id N) (node_proc N) (node_refs N) (internal_strong_refs N) v
    (local_strong_refs N) (node_ptr N) (node_cookie N) (has_strong_ref N) (pending_strong_ref
    N) (has_weak_ref N) (pending_weak_ref N) (has_async_transaction N) (accept_fds N)
    (min_priority N).
Definition set_local_strong_refs (v : Z) (N : binder_node) : binder_node :=
  BinderNode (node_debug_id N) (node_proc N) (node_refs N) (internal_strong_refs N)
    (local_weak_refs N) v (node_ptr N) (node_cookie N) (has_strong_ref N) (pending_strong_ref
    N) (has_weak_ref N) (pending_weak_ref N) (has_async_transaction N) (accept_fds N)
    (min_priority N).
Definition set_has_strong_ref (v : bool) (N : binder_node) : binder_node :=
  BinderNode (node_debug_id N) (node_proc N) (node_refs N) (internal_strong_refs N)
    (local_weak_refs N) (local_strong_refs N) (node_ptr N) (node_cookie N) v
    (pending_strong_ref N) (has_weak_ref N) (pending_weak_ref N) (has_async_transaction N)
    (accept_fds N) (min_priority N).
Definition set_pending_strong_ref (v : bool) (N : binder_node) : binder_node :=
  BinderNode (node_debug_id N) (node_proc N) (node_refs N) (internal_strong_refs N)
    (local_weak_refs N) (local_strong_refs N) (node_ptr N) (node_cookie N) (has_strong_ref N) v
    (has_weak_ref N) (pending_weak_ref N) (has_async_transaction N) (accept_fds N)
    (min_priority N).
Definition set_has_weak_ref (v : bool) (N : binder_node) : binder_node :=
  BinderNode (node_debug_id N) (node_proc N) (node_refs N) (internal_strong_refs N)
    (local_weak_refs N) (local_strong_refs N) (node_ptr N) (node_cookie N) (has_strong_ref N)
    (pending_strong_ref N) v (pending_weak_ref N) (has_async_transaction N) (accept_fds N)
    (min_priority N).
Definition set_pending_weak_ref (v : bool) (N : binder_node) : binder_node :=
  BinderNode (node_debug_id N) (node_proc N) (node_refs N) (internal_strong_refs N)
    (local_weak_refs N) (local_strong_refs N) (node_ptr N) (node_cookie N) (has_strong_ref N)
    (pending_strong_ref N) (has_weak_ref N) v (has_async_transaction N) (accept_fds N)
    (min_priority N).
Definition set_has_async_transaction (v : bool) (N : binder_node) : binder_node :=
  BinderNode (node_debug_id N) (node_proc N) (node_refs N) (internal_strong_refs N)
    (local_weak_refs N) (local_strong_refs N) (node_ptr N) (node_cookie N) (has_strong_ref N)
    (pending_strong_ref N) (has_weak_ref N) (pending_weak_ref N) v (accept_fds N) (min_priority
    N).
Definition set_accept_fds (v : bool) (N : binder_node) : binder_node :=
  BinderNode (node_debug_id N) (node_proc N) (node_refs N) (internal_strong_refs N)
    (local_weak_refs N) (local_strong_refs N) (node_ptr N) (node_cookie N) (has_strong_ref N)
    (pending_strong_ref N) (has_weak_ref N) (pending_weak_ref N) (has_async_transaction N) v
    (min_priority N).
Definition set_min_priority (v : Z) (N : binder_node) : binder_node :=
  BinderNode (node_debug_id N) (node_proc N) (node_refs N) (internal_strong_refs N)
    (local_weak_refs N) (local_strong_refs N) (node_ptr N) (node_cookie N) (has_strong_ref N)
    (pending_strong_ref N) (has_weak_ref N) (pending_weak_ref N) (has_async_transaction N)
    (accept_fds N) v.

Definition set_ref_strong (v : Z) (R : binder_ref) : binder_ref :=
  BinderRef (ref_debug_id R) (ref_proc R) (ref_node R) (ref_desc R) v (ref_weak R) (ref_death
    R).
Definition set_ref_weak (v : Z) (R : binder_ref) : binder_ref :=
  BinderRef (ref_debug_id R) (ref_proc R) (ref_node R) (ref_desc R) (ref_strong R) v (ref_death
    R).
Definition set_ref_death (v : option Z) (R : binder_ref) : binder_ref :=
  BinderRef (ref_debug_id R) (ref_proc R) (ref_node R) (ref_desc R) (ref_strong R) (ref_weak R)
    v.

Definition set_death_type (v : death_work) (D : binder_ref_death) : binder_ref_death :=
  BinderRefDeath v (death_cookie D).

Definition set_looper (v : Z) (th : binder_thread) : binder_thread :=
  BinderThread (thread_proc th) (thread_pid th) v (transaction_stack th) (return_error th)
    (return_error2 th).
Definition set_transaction_stack (v : option Z) (th : binder_thread) : binder_thread :=
  BinderThread (thread_proc th) (thread_pid th) (looper th) v (return_error th) (return_error2
    th).
Definition set_return_error (v : Z) (th : binder_thread) : binder_thread :=
  BinderThread (thread_proc th) (thread_pid th) (looper th) (transaction_stack th) v
    (return_error2 th).
Definition set_return_error2 (v : Z) (th : binder_thread) : binder_thread :=
  BinderThread (thread_proc th) (thread_pid th) (looper th) (transaction_stack th)
    (return_error th) v.

Definition set_t_from (v : option Z) (t : binder_transaction_t) : binder_transaction_t :=
  BinderTransaction (t_debug_id t) v (from_parent t) (to_proc t) (to_thread t) (to_parent t)
    (need_reply t) (t_buffer t) (t_code t) (t_flags t) (t_priority t) (saved_priority t)
    (sender_euid t).
Definition set_from_parent (v : option Z) (t : binder_transaction_t) : binder_transaction_t :=
  BinderTransaction (t_debug_id t) (t_from t) v (to_proc t) (to_thread t) (to_parent t)
    (need_reply t) (t_buffer t) (t_code t) (t_flags t) (t_priority t) (saved_priority t)
    (sender_euid t).
Definition set_to_proc (v : option Z) (t : binder_transaction_t) : binder_transaction_t :=
  BinderTransaction (t_debug_id t) (t_from t) (from_parent t) v (to_thread t) (to_parent t)
    (need_reply t) (t_buffer t) (t_code t) (t_flags t) (t_priority t) (saved_priority t)
    (sender_euid t).
Definition set_to_thread (v : option Z) (t : binder_transaction_t) : binder_transaction_t :=
  BinderTransaction (t_debug_id t) (t_from t) (from_parent t) (to_proc t) v (to_parent t)
    (need_reply t) (t_buffer t) (t_code t) (t_flags t) (t_priority t) (saved_priority t)
    (sender_euid t).
Definition set_to_parent (v : option Z) (t : binder_transaction_t) : binder_transaction_t :=
  BinderTransaction (t_debug_id t) (t_from t) (from_parent t) (to_proc t) (to_thread t) v
    (need_reply t) (t_buffer t) (t_code t) (t_flags t) (t_priority t) (saved_priority t)
    (sender_euid t).
Definition set_need_reply (v : bool) (t : binder_transaction_t) : binder_transaction_t :=
  BinderTransaction (t_debug_id t) (t_from t) (from_parent t) (to_proc t) (to_thread t)
    (to_parent t) v (t_buffer t) (t_code t) (t_flags t) (t_priority t) (saved_priority t)
    (sender_euid t).
Definition set_t_buffer (v : option (Z * Z)) (t : binder_transaction_t) : binder_transaction_t :=
  BinderTransaction (t_debug_id t) (t_from t) (from_parent t) (to_proc t) (to_thread t)
    (to_parent t) (need_reply t) v (t_code t) (t_flags t) (t_priority t) (saved_priority t)
    (sender_euid t).
Definition set_saved_priority (v : Z) (t : binder_transaction_t) : binder_transaction_t :=
  BinderTransaction (t_debug_id t) (t_from t) (from_parent t) (to_proc t) (to_thread t)
    (to_parent t) (need_reply t) (t_buffer t) (t_code t) (t_flags t) (t_priority t) v
    (sender_euid t).

Definition set_proc_threads (v : tree Z) (P : binder_proc) : binder_proc :=
  BinderProc v (proc_nodes P) (refs_by_desc P) (refs_by_node P) (proc_pid P)
    (proc_files P) (deferred_work P) (alloc P) (memory P) (max_threads P) (requested_threads P)
    (requested_threads_started P) (ready_threads P) (default_priority P).
Definition set_proc_nodes (v : tree Z) (P : binder_proc) : binder_proc :=
  BinderProc (proc_threads P) v (refs_by_desc P) (refs_by_node P) (proc_pid P)
    (proc_files P) (deferred_work P) (alloc P) (memory P) (max_threads P) (requested_threads P)
    (requested_threads_started P) (ready_threads P) (default_priority P).
Definition set_refs_by_desc (v : tree Z) (P : binder_proc) : binder_proc :=
  BinderProc (proc_threads P) (proc_nodes P) v (refs_by_node P) (proc_pid P)
    (proc_files P) (deferred_work P) (alloc P) (memory P) (max_threads P) (requested_threads P)
    (requested_threads_started P) (ready_threads P) (default_priority P).
Definition set_refs_by_node (v : tree Z) (P : binder_proc) : binder_proc :=
  BinderProc (proc_threads P) (proc_nodes P) (refs_by_desc P) v (proc_pid P)
    (proc_files P) (deferred_work P) (alloc P) (memory P) (max_threads P) (requested_threads P)
    (requested_threads_started P) (ready_threads P) (default_priority P).
Definition set_proc_files (v : option fdtable) (P : binder_proc) : binder_proc :=
  BinderProc (proc_threads P) (proc_nodes P) (refs_by_desc P) (refs_by_node P) (proc_pid P) v (deferred_work P) (alloc P) (memory P) (max_threads P) (requested_threads
    P) (requested_threads_started P) (ready_threads P) (default_priority P).
Definition set_deferred_work (v : Z) (P : binder_proc) : binder_proc :=
  BinderProc (proc_threads P) (proc_nodes P) (refs_by_desc P) (refs_by_node P) (proc_pid P) (proc_files P) v (alloc P) (memory P) (max_threads P) (requested_threads P)
    (requested_threads_started P) (ready_threads P) (default_priority P).
Definition set_alloc (v : binder_alloc) (P : binder_proc) : binder_proc :=
  BinderProc (proc_threads P) (proc_nodes P) (refs_by_desc P) (refs_by_node P) (proc_pid P) (proc_files P) (deferred_work P) v (memory P) (max_threads P)
    (requested_threads P) (requested_threads_started P) (ready_threads P) (default_priority P).
Definition set_memory (v : gmap Z Z) (P : binder_proc) : binder_proc :=
  BinderProc (proc_threads P) (proc_nodes P) (refs_by_desc P) (refs_by_node P) (proc_pid P) (proc_files P) (deferred_work P) (alloc P) v (max_threads P)
    (requested_threads P) (requested_threads_started P) (ready_threads P) (default_priority P).
Definition set_max_threads (v : Z) (P : binder_proc) : binder_proc :=
  BinderProc (proc_threads P) (proc_nodes P) (refs_by_desc P) (refs_by_node P) (proc_pid P) (proc_files P) (deferred_work P) (alloc P) (memory P) v (requested_threads P)
    (requested_threads_started P) (ready_threads P) (default_priority P).
Definition set_requested_threads (v : Z) (P : binder_proc) : binder_proc :=
  BinderProc (proc_threads P) (proc_nodes P) (refs_by_desc P) (refs_by_node P) (proc_pid P) (proc_files P) (deferred_work P) (alloc P) (memory P) (max_threads P) v
    (requested_threads_started P) (ready_threads P) (default_priority P).
Definition set_requested_threads_started (v : Z) (P : binder_proc) : binder_proc :=
  BinderProc (proc_threads P) (proc_nodes P) (refs_by_desc P) (refs_by_node P) (proc_pid P) (proc_files P) (deferred_work P) (alloc P) (memory P) (max_threads P)
    (requested_threads P) v (ready_threads P) (default_priority P).
Definition set_ready_threads (v : Z) (P : binder_proc) : binder_proc :=
  BinderProc (proc_threads P) (proc_nodes P) (refs_by_desc P) (refs_by_node P) (proc_pid P) (proc_files P) (deferred_work P) (alloc P) (memory P) (max_threads P)
    (requested_threads P) (requested_threads_started P) v (default_priority P).

Definition set_procs (v : gmap Z binder_proc) (s : binder) : binder :=
  Binder v (threads s) (nodes s) (refs s) (deaths s) (transactions s) (completes s) (lists s)
    (dead_nodes s) (context_mgr_node s) (context_mgr_uid s) (last_id s) (deferred_list s)
    (supply s) (current s) (user s) (env s).
Definition set_threads (v : gmap Z binder_thread) (s : binder) : binder :=
  Binder (procs s) v (nodes s) (refs s) (deaths s) (transactions s) (completes s) (lists s)
    (dead_nodes s) (context_mgr_node s) (context_mgr_uid s) (last_id s) (deferred_list s)
    (supply s) (current s) (user s) (env s).
Definition set_nodes (v : gmap Z binder_node) (s : binder) : binder :=
  Binder (procs s) (threads s) v (refs s) (deaths s) (transactions s) (completes s) (lists s)
    (dead_nodes s) (context_mgr_node s) (context_mgr_uid s) (last_id s) (deferred_list s)
    (supply s) (current s) (user s) (env s).
Definition set_refs (v : gmap Z binder_ref) (s : binder) : binder :=
  Binder (procs s) (threads s) (nodes s) v (deaths s) (transactions s) (completes s) (lists s)
    (dead_nodes s) (context_mgr_node s) (context_mgr_uid s) (last_id s) (deferred_list s)
    (supply s) (current s) (user s) (env s).
Definition set_deaths (v : gmap Z binder_ref_death) (s : binder) : binder :=
  Binder (procs s) (threads s) (nodes s) (refs s) v (transactions s) (completes s) (lists s)
    (dead_nodes s) (context_mgr_node s) (context_mgr_uid s) (last_id s) (deferred_list s)
    (supply s) (current s) (user s) (env s).
Definition set_transactions (v : gmap Z binder_transaction_t) (s : binder) : binder :=
  Binder (procs s) (threads s) (nodes s) (refs s) (deaths s) v (completes s) (lists s)
    (dead_nodes s) (context_mgr_node s) (context_mgr_uid s) (last_id s) (deferred_list s)
    (supply s) (current s) (user s) (env s).
Definition set_completes (v : gset Z) (s : binder) : binder :=
  Binder (procs s) (threads s) (nodes s) (refs s) (deaths s) (transactions s) v (lists s)
    (dead_nodes s) (context_mgr_node s) (context_mgr_uid s) (last_id s) (deferred_list s)
    (supply s) (current s) (user s) (env s).
Definition set_lists (v : gmap list_id (list work)) (s : binder) : binder :=
  Binder (procs s) (threads s) (nodes s) (refs s) (deaths s) (transactions s) (completes s) v
    (dead_nodes s) (context_mgr_node s) (context_mgr_uid s) (last_id s) (deferred_list s)
    (supply s) (current s) (user s) (env s).
Definition set_dead_nodes (v : list Z) (s : binder) : binder :=
  Binder (procs s) (threads s) (nodes s) (refs s) (deaths s) (transactions s) (completes s)
    (lists s) v (context_mgr_node s) (context_mgr_uid s) (last_id s) (deferred_list s) (supply
    s) (current s) (user s) (env s).
Definition set_context_mgr_node (v : option Z) (s : binder) : binder :=
  Binder (procs s) (threads s) (nodes s) (refs s) (deaths s) (transactions s) (completes s)
    (lists s) (dead_nodes s) v (context_mgr_uid s) (last_id s) (deferred_list s) (supply s)
    (current s) (user s) (env s).
Definition set_context_mgr_uid (v : Z) (s : binder) : binder :=
  Binder (procs s) (threads s) (nodes s) (refs s) (deaths s) (transactions s) (completes s)
    (lists s) (dead_nodes s) (context_mgr_node s) v (last_id s) (deferred_list s) (supply s)
    (current s) (user s) (env s).
Definition set_last_id (v : Z) (s : binder) : binder :=
  Binder (procs s) (threads s) (nodes s) (refs s) (deaths s) (transactions s) (completes s)
    (lists s) (dead_nodes s) (context_mgr_node s) (context_mgr_uid s) v (deferred_list s)
    (supply s) (current s) (user s) (env s).
Definition set_deferred_list (v : list Z) (s : binder) : binder :=
  Binder (procs s) (threads s) (nodes s) (refs s) (deaths s) (transactions s) (completes s)
    (lists s) (dead_nodes s) (context_mgr_node s) (context_mgr_uid s) (last_id s) v (supply s)
    (current s) (user s) (env s).
Definition set_supply (v : list (option Z)) (s : binder) : binder :=
  Binder (procs s) (threads s) (nodes s) (refs s) (deaths s) (transactions s) (completes s)
    (lists s) (dead_nodes s) (context_mgr_node s) (context_mgr_uid s) (last_id s)
    (deferred_list s) v (current s) (user s) (env s).
Definition set_current (v : task) (s : binder) : binder :=
  Binder (procs s) (threads s) (nodes s) (refs s) (deaths s) (transactions s) (completes s)
    (lists s) (dead_nodes s) (context_mgr_node s) (context_mgr_uid s) (last_id s)
    (deferred_list s) (supply s) v (user s) (env s).
Definition set_user (v : umem) (s : binder) : binder :=
  Binder (procs s) (threads s) (nodes s) (refs s) (deaths s) (transactions s) (completes s)
    (lists s) (dead_nodes s) (context_mgr_node s) (context_mgr_uid s) (last_id s)
    (deferred_list s) (supply s) (current s) v (env s).

(** ** Operations *)

Definition M (A : Type) : Type := binder -> option (binder * A).

Global Instance M_ret : MRet M := fun A x s => Some (s, x).
Global Instance M_bind : MBind M := fun A B f m s =>
  match m s with Some (s', x) => f x s' | None => None end.

Definition bug {A} : M A := fun _ => None.
Definition lift {A} (o : option A) : M A := fun s =>
  match o with Some x => Some (s, x) | None => None end.
Definition gets {A} (f : binder -> A) : M A := fun s => Some (s, f s).
Definition modify (f : binder -> binder) : M unit := fun s => Some (f s, tt).
Definition skip : M unit := mret tt.
Definition bug_on (b : bool) : M unit := if b then bug else skip.
Definition when (b : bool) (m : M unit) : M unit := if b then m else skip.

(** Objects of the heap, read and changed through a pointer. *)
Definition the_proc (p : Z) : M binder_proc := fun s => P ← procs s !! p; Some (s, P).
Definition the_thread (th : Z) : M binder_thread := fun s => t ← threads s !! th; Some (s, t).
Definition the_node (n : Z) : M binder_node := fun s => N ← nodes s !! n; Some (s, N).
Definition the_ref (r : Z) : M binder_ref := fun s => R ← refs s !! r; Some (s, R).
Definition the_death (d : Z) : M binder_ref_death := fun s => D ← deaths s !! d; Some (s, D).
Definition the_transaction (t : Z) : M binder_transaction_t := fun s => T ← transactions s !! t; Some (s, T).

Definition mod_proc (p : Z) (f : binder_proc -> binder_proc) : M unit := fun s =>
  P ← procs s !! p; Some (set_procs (<[p := f P]> (procs s)) s, tt).
Definition mod_thread (th : Z) (f : binder_thread -> binder_thread) : M unit := fun s =>
  t ← threads s !! th; Some (set_threads (<[th := f t]> (threads s)) s, tt).
Definition mod_node (n : Z) (f : binder_node -> binder_node) : M unit := fun s =>
  N ← nodes s !! n; Some (set_nodes (<[n := f N]> (nodes s)) s, tt).
Definition mod_ref (r : Z) (f : binder_ref -> binder_ref) : M unit := fun s =>
  R ← refs s !! r; Some (set_refs (<[r := f R]> (refs s)) s, tt).
Definition mod_death (d : Z) (f : binder_ref_death -> binder_ref_death) : M unit := fun s =>
  D ← deaths s !! d; Some (set_deaths (<[d := f D]> (deaths s)) s, tt).
Definition mod_transaction (t : Z) (f : binder_transaction_t -> binder_transaction_t) : M unit := fun s =>
  T ← transactions s !! t; Some (set_transactions (<[t := f T]> (transactions s)) s, tt).

(** [kzalloc]: the next address the allocator offers.  It never hands out null,
    an address that does not fit a pointer or one that is in use, so an offer of
    that kind counts as a failure. *)
Definition in_use (s : binder) (a : Z) : bool :=
  bool_decide (a ∈ dom (procs s) \/ a ∈ dom (threads s) \/ a ∈ dom (nodes s) \/ a ∈ dom (refs s) \/
               a ∈ dom (deaths s) \/ a ∈ dom (transactions s) \/ a ∈ completes s).
Definition kzalloc : M (option Z) := fun s =>
  match supply s with
  | [] => Some (s, None)
  | o :: rest =>
      Some (set_supply rest s,
            a ← o; if (0 <? a) && (a <? 2 ^ 32) && negb (in_use s a) then Some a else None)
  end.

(** [++binder_last_id] *)
Definition next_id : M Z := fun s =>
  let i := s32 (last_id s + 1) in Some (set_last_id i s, i).

(** *** Work lists *)

Definition todo (s : binder) (l : list_id) : list work := default [] (lists s !! l).

(** The object a list head is part of is there. *)
Definition owner_there (s : binder) (l : list_id) : bool :=
  match l with
  | ThreadTodo th => bool_decide (is_Some (threads s !! th))
  | ProcTodo p | DeliveredDeath p => bool_decide (is_Some (procs s !! p))
  | AsyncTodo n => bool_decide (is_Some (nodes s !! n))
  end.
Definition add_tail (w : work) (l : list_id) : M unit := fun s =>
  if owner_there s l then Some (set_lists (<[l := todo s l ++ [w]]> (lists s)) s, tt) else None.
Definition add_head (w : work) (l : list_id) : M unit := fun s =>
  if owner_there s l then Some (set_lists (<[l := w :: todo s l]> (lists s)) s, tt) else None.
Definition init_list (l : list_id) : M unit := modify (fun s => set_lists (delete l (lists s)) s).

(** [list_del] and [list_del_init]: off the list it is on, if any. *)
Definition unlink (w : work) : M unit := modify (fun s => set_lists (list_del w <$> lists s) s).

(** [list_empty(&w->entry)]: on no list. *)
Definition unlinked (s : binder) (w : work) : bool :=
  bool_decide (map_Forall (fun _ l => w ∉ l) (lists s)).

(** *** Memory *)

Definition read_word (m : gmap Z Z) (a : Z) : Z :=
  u32 (le_Z ((fun i => default 0 (m !! (a + i))) <$> [0; 1; 2; 3])).
Fixpoint write_bytes (m : gmap Z Z) (a : Z) (bs : list Z) : gmap Z Z :=
  match bs with
  | [] => m
  | b :: bs' => write_bytes (<[a := b]> m) (a + 1) bs'
  end.
Definition write_word (m : gmap Z Z) (a v : Z) : gmap Z Z := write_bytes m a (le_bytes 4 v).

(** The header of a buffer. *)
Definition the_buffer (pb : Z * Z) : M binder_buffer :=
  P ← the_proc pb.1; lift (header (alloc P) pb.2).
Definition mod_buffer (pb : Z * Z) (f : binder_buffer -> binder_buffer) : M unit :=
  P ← the_proc pb.1;
  h ← lift (header (alloc P) pb.2);
  mod_proc pb.1 (set_alloc (set_header (alloc P) pb.2 (f h))).
