(* ===== verification/BinderRefs.v ===== *)
(** * Nodes and references of binder (drivers/staging/android/binder.c)

    A node counts the references to it by kind: strong references of other
    processes ([internal_strong_refs], one for each reference that is strong),
    and what its own process holds locally.  When the first reference appears or
    the last one goes, the node is queued for its process, which keeps the
    object alive in the meantime.  A reference counts how often its process
    acquired it, and goes with the last of these counts. *)

From stdpp Require Import base numbers list gmap.
From S2P Require Import Prelude RbTree RbKeyed BinderAlloc BinderCore.

Open Scope Z_scope.

(** ** Nodes *)

Definition node_cmp (s : binder) (ptr n : Z) : option comparison :=
  N ← nodes s !! n; Some (ptr ?= node_ptr N).

Definition binder_get_node (p ptr : Z) : M (option Z) :=
  P ← the_proc p;
  s ← gets id;
  '(t, _) ← lift (rb_descend (node_cmp s ptr) (proc_nodes P) []);
  mret (match t with T _ _ n _ => Some n | E => None end).

Definition new_node (id p ptr cookie : Z) : binder_node :=
  BinderNode id (Some p) [] 0 0 0 ptr cookie false false false false false false 0.

Definition binder_new_node (p ptr cookie : Z) : M (option Z) :=
  P ← the_proc p;
  s ← gets id;
  '(t, k) ← lift (rb_descend (node_cmp s ptr) (proc_nodes P) []);
  match t with
  | T _ _ _ _ => mret None
  | E =>
      o ← kzalloc;
      match o with
      | None => mret None
      | Some n =>
          t' ← lift (rb_insert_color (rb_link_node n) k);
          mod_proc p (set_proc_nodes t');;
          i ← next_id;
          modify (fun s => set_nodes (<[n := new_node i p ptr cookie]> (nodes s)) s);;
          init_list (AsyncTodo n);;
          mret (Some n)
      end
  end.

Definition incr (x : Z) : Z := s32 (x + 1).
Definition decr (x : Z) : Z := s32 (x - 1).

Definition binder_inc_node (n : Z) (strong internal : bool) (target_list : option list_id) : M Z :=
  N ← the_node n;
  mgr ← gets context_mgr_node;
  if strong then
    if internal && negb (bool_decide (is_Some target_list)) && (internal_strong_refs N =? 0) &&
       negb (bool_decide (mgr = Some n) && has_strong_ref N)
    then mret (- EINVAL)
    else
      mod_node n (fun N =>
        if internal then set_internal_strong_refs (incr (internal_strong_refs N)) N
        else set_local_strong_refs (incr (local_strong_refs N)) N);;
      match target_list with
      | Some l => when (negb (has_strong_ref N)) (unlink (WNode n);; add_tail (WNode n) l)
      | None => skip
      end;;
      mret 0
  else
    when (negb internal) (mod_node n (fun N => set_local_weak_refs (incr (local_weak_refs N)) N));;
    s ← gets id;
    if negb (has_weak_ref N) && unlinked s (WNode n) then
      match target_list with
      | None => mret (- EINVAL)
      | Some l => add_tail (WNode n) l;; mret 0
      end
    else mret 0.

(** [rb_erase] from the tree of the process, or [hlist_del] from the dead
    nodes. *)
Definition unhash_node (n : Z) (N : binder_node) : M unit :=
  match node_proc N with
  | Some p =>
      P ← the_proc p;
      t ← lift (rb_delete n (proc_nodes P));
      mod_proc p (set_proc_nodes t)
  | None =>
      dead ← gets dead_nodes;
      bug_on (negb (bool_decide (n ∈ dead)));;
      modify (set_dead_nodes (list_del n dead))
  end.

Definition free_node (n : Z) : M unit :=
  modify (fun s => set_nodes (delete n (nodes s)) s);;
  init_list (AsyncTodo n).

Definition binder_dec_node (n : Z) (strong internal : bool) : M Z :=
  mod_node n (fun N =>
    if strong then
      if internal then set_internal_strong_refs (decr (internal_strong_refs N)) N
      else set_local_strong_refs (decr (local_strong_refs N)) N
    else if internal then N else set_local_weak_refs (decr (local_weak_refs N)) N);;
  N ← the_node n;
  if (if strong
      then negb (local_strong_refs N =? 0) || negb (internal_strong_refs N =? 0)
      else negb (local_weak_refs N =? 0) || negb (bool_decide (node_refs N = [])))
  then mret 0
  else
    match node_proc N with
    | Some p =>
        if has_strong_ref N || has_weak_ref N then
          s ← gets id;
          when (unlinked s (WNode n)) (add_tail (WNode n) (ProcTodo p));;
          mret 0
        else
          when (bool_decide (node_refs N = []) && (local_strong_refs N =? 0) && (local_weak_refs N =? 0))
            (unlink (WNode n);; unhash_node n N;; free_node n);;
          mret 0
    | None =>
        when (bool_decide (node_refs N = []) && (local_strong_refs N =? 0) && (local_weak_refs N =? 0))
          (unlink (WNode n);; unhash_node n N;; free_node n);;
        mret 0
    end.

(** ** References *)

Definition desc_cmp (s : binder) (desc r : Z) : option comparison :=
  R ← refs s !! r; Some (desc ?= ref_desc R).
Definition ref_node_cmp (s : binder) (n r : Z) : option comparison :=
  R ← refs s !! r; Some (n ?= ref_node R).

Definition binder_get_ref (p desc : Z) : M (option Z) :=
  P ← the_proc p;
  s ← gets id;
  '(t, _) ← lift (rb_descend (desc_cmp s desc) (refs_by_desc P) []);
  mret (match t with T _ _ r _ => Some r | E => None end).

(** The search for the first descriptor that is not in use. *)
Fixpoint desc_loop (s : binder) (rs : list Z) (desc : Z) : option Z :=
  match rs with
  | [] => Some desc
  | r :: rs' =>
      R ← refs s !! r;
      if desc <? ref_desc R then Some desc else desc_loop s rs' (u32 (ref_desc R + 1))
  end.

(** The second descent starts with the parent that the first one left: that of
    a node of the other tree, should this tree be empty and the other not. *)
Definition binder_get_ref_for_node (p n : Z) : M (option Z) :=
  P ← the_proc p;
  s ← gets id;
  '(t, k) ← lift (rb_descend (ref_node_cmp s n) (refs_by_node P) []);
  match t with
  | T _ _ r _ => mret (Some r)
  | E =>
      o ← kzalloc;
      match o with
      | None => mret None
      | Some r =>
          i ← next_id;
          t1 ← lift (rb_insert_color (rb_link_node r) k);
          desc ← lift (desc_loop s (walk (length (inorder (refs_by_desc P))) (rb_first (refs_by_desc P)))
                         (if bool_decide (context_mgr_node s = Some n) then 0 else 1));
          bug_on (match refs_by_desc P, k with E, _ :: _ => true | _, _ => false end);;
          t2 ← lift (rb_insert_by (desc_cmp s desc) r (refs_by_desc P));
          mod_proc p (fun P => set_refs_by_desc t2 (set_refs_by_node t1 P));;
          modify (fun s => set_refs (<[r := BinderRef i p n desc 0 0 None]> (refs s)) s);;
          mod_node n (fun N => set_node_refs (r :: node_refs N) N);;
          mret (Some r)
      end
  end.

Definition free_death (d : Z) : M unit := modify (fun s => set_deaths (delete d (deaths s)) s).

Definition binder_delete_ref (r : Z) : M unit :=
  R ← the_ref r;
  P ← the_proc (ref_proc R);
  t1 ← lift (rb_delete r (refs_by_desc P));
  t2 ← lift (rb_delete r (refs_by_node P));
  mod_proc (ref_proc R) (fun P => set_refs_by_node t2 (set_refs_by_desc t1 P));;
  when (negb (ref_strong R =? 0)) (binder_dec_node (ref_node R) true true;; skip);;
  mod_node (ref_node R) (fun N => set_node_refs (list_del r (node_refs N)) N);;
  binder_dec_node (ref_node R) false true;;
  match ref_death R with
  | Some d => the_death d;; unlink (WDeath d);; free_death d
  | None => skip
  end;;
  modify (fun s => set_refs (delete r (refs s)) s).

Definition binder_inc_ref (r : Z) (strong : bool) (target_list : option list_id) : M Z :=
  R ← the_ref r;
  ret ← (if (if strong then ref_strong R else ref_weak R) =? 0
         then binder_inc_node (ref_node R) strong true target_list else mret 0);
  if negb (ret =? 0) then mret ret
  else
    mod_ref r (fun R => if strong then set_ref_strong (incr (ref_strong R)) R
                        else set_ref_weak (incr (ref_weak R)) R);;
    mret 0.

(** The last part of [binder_dec_ref]. *)
Definition drop_ref (r : Z) : M Z :=
  R ← the_ref r;
  when ((ref_strong R =? 0) && (ref_weak R =? 0)) (binder_delete_ref r);;
  mret 0.

Definition binder_dec_ref (r : Z) (strong : bool) : M Z :=
  R ← the_ref r;
  if strong then
    if ref_strong R =? 0 then mret (- EINVAL)
    else
      mod_ref r (set_ref_strong (decr (ref_strong R)));;
      ret ← (if decr (ref_strong R) =? 0 then binder_dec_node (ref_node R) true true else mret 0);
      if negb (ret =? 0) then mret ret else drop_ref r
  else
    if ref_weak R =? 0 then mret (- EINVAL)
    else mod_ref r (set_ref_weak (decr (ref_weak R)));; drop_ref r.
