(* ===== verification/BinderGraph.v ===== *)
(** * The object graph of binder

    What of the state of the driver the pointers between processes, threads,
    nodes and references are made of, [graph], and that they are consistent,
    [graph_ok]: the trees of a process hold exactly its threads, nodes and
    references, each once and in order; every reference points to a node that is
    there and is on its list of references, and the other way round; the nodes
    without a process are the dead ones; addresses and descriptors are words; a
    node that user space holds strongly is one that it holds weakly. *)

From stdpp Require Import base numbers list sorting gmap.
From S2P Require Import Prelude RbTree RbTreeProps RbKeyed RbIndex BinderAlloc BinderCore BinderRefs.

Open Scope Z_scope.

Record thread_shape := ThreadShape { ts_proc : Z; ts_pid : Z }.
Record node_shape := NodeShape {
  ns_proc : option Z;
  ns_ptr : Z;
  ns_cookie : Z;
  ns_refs : list Z;
  ns_strong : bool;
  ns_weak : bool }.
Record ref_shape := RefShape { rs_proc : Z; rs_node : Z; rs_desc : Z }.
Record proc_shape := ProcShape { ps_threads : tree Z; ps_nodes : tree Z; ps_by_desc : tree Z; ps_by_node : tree Z }.
Record graph := Graph {
  g_procs : gmap Z proc_shape;
  g_threads : gmap Z thread_shape;
  g_nodes : gmap Z node_shape;
  g_refs : gmap Z ref_shape;
  g_dead : list Z }.

Definition thread_shape_of (TH : binder_thread) : thread_shape := ThreadShape (thread_proc TH) (thread_pid TH).
Definition node_shape_of (N : binder_node) : node_shape := 
  NodeShape (node_proc N) (node_ptr N) (node_cookie N) (node_refs N) (has_strong_ref N) (has_weak_ref N).
Definition ref_shape_of (R : binder_ref) : ref_shape := RefShape (ref_proc R) (ref_node R) (ref_desc R).
Definition proc_shape_of (P : binder_proc) : proc_shape :=
  ProcShape (proc_threads P) (proc_nodes P) (refs_by_desc P) (refs_by_node P).
Definition graph_of (s : binder) : graph :=
  Graph (proc_shape_of <$> procs s) (thread_shape_of <$> threads s) (node_shape_of <$> nodes s)
    (ref_shape_of <$> refs s) (dead_nodes s).

Record proc_ok (g : graph) (p : Z) (P : proc_shape) : Prop := {
  po_threads : indexed ts_pid (fun TH => Some (ts_proc TH)) (g_threads g) p (ps_threads P);
  po_nodes : indexed ns_ptr ns_proc (g_nodes g) p (ps_nodes P);
  po_desc : indexed rs_desc (fun R => Some (rs_proc R)) (g_refs g) p (ps_by_desc P);
  po_node : indexed rs_node (fun R => Some (rs_proc R)) (g_refs g) p (ps_by_node P) }.

Record graph_ok (g : graph) : Prop := {
  go_proc p P : g_procs g !! p = Some P -> proc_ok g p P;
  go_thread_proc th TH : g_threads g !! th = Some TH -> is_Some (g_procs g !! ts_proc TH);
  go_node_proc n N p : g_nodes g !! n = Some N -> ns_proc N = Some p -> is_Some (g_procs g !! p);
  go_ref_proc r R : g_refs g !! r = Some R -> is_Some (g_procs g !! rs_proc R);
  go_ref_node r R : g_refs g !! r = Some R ->
    exists N, g_nodes g !! rs_node R = Some N /\ r ∈ ns_refs N;
  go_node_refs n N : g_nodes g !! n = Some N ->
    NoDup (ns_refs N) /\ (forall r, r ∈ ns_refs N -> exists R, g_refs g !! r = Some R /\ rs_node R = n);
  go_dead n : n ∈ g_dead g <-> exists N, g_nodes g !! n = Some N /\ ns_proc N = None;
  go_dead_nodup : NoDup (g_dead g);
  go_ptr n N : g_nodes g !! n = Some N -> 0 <= ns_ptr N < 2 ^ 32;
  go_desc r R : g_refs g !! r = Some R -> 0 <= rs_desc R < 2 ^ 32;
  go_flags n N : g_nodes g !! n = Some N -> ns_strong N = true -> ns_weak N = true }.

(** ** Changes of the graph *)

Section changes.
Variable (g : graph).
Hypothesis (Hg : graph_ok g).

Lemma graph_new_proc p :
  g_procs g !! p = None ->
  graph_ok (Graph (<[p := ProcShape E E E E]> (g_procs g)) (g_threads g) (g_nodes g) (g_refs g) (g_dead g)).
Proof.
  intros Hp. destruct Hg as [H1 H2 H3 H4 H5 H6 H7 H8 H9 H10 H11]. split; cbn; try done.
  - intros q Q. rewrite lookup_insert_Some. intros [[<- <-]|[Hne Hq]]; [|by destruct (H1 q Q Hq); split].
    split; cbn; apply indexed_empty.
    + intros x a Ha [= <-]. by destruct (H2 x a Ha); simplify_eq.
    + intros x a Ha Fa. by destruct (H3 x a p Ha Fa); simplify_eq.
    + intros x a Ha [= <-]. by destruct (H4 x a Ha); simplify_eq.
    + intros x a Ha [= <-]. by destruct (H4 x a Ha); simplify_eq.
  - intros th TH Ht. destruct (H2 th TH Ht) as [Q HQ]. rewrite lookup_insert_ne by congruence. eauto.
  - intros n N q Hn Fn. destruct (H3 n N q Hn Fn) as [Q HQ]. rewrite lookup_insert_ne by congruence. eauto.
  - intros r R Hr. destruct (H4 r R Hr) as [Q HQ]. rewrite lookup_insert_ne by congruence. eauto.
Qed.

Lemma graph_del_proc p P :
  g_procs g !! p = Some P -> ps_threads P = E -> ps_nodes P = E -> ps_by_desc P = E ->
  graph_ok (Graph (delete p (g_procs g)) (g_threads g) (g_nodes g) (g_refs g) (g_dead g)).
Proof.
  intros Hp E1 E2 E3. destruct Hg as [H1 H2 H3 H4 H5 H6 H7 H8 H9 H10 H11]. destruct (H1 p P Hp) as [I1 I2 I3 I4].
  rewrite E1 in I1. rewrite E2 in I2. rewrite E3 in I3. split; cbn; try done.
  - intros q Q. rewrite lookup_delete_Some. intros [_ Hq]. by destruct (H1 q Q Hq); split.
  - intros th TH Ht. rewrite lookup_delete_ne; [eauto|]. intros He.
    apply (indexed_nothing _ _ _ _ I1 th TH Ht). by rewrite He.
  - intros n N q Hn Fn. rewrite lookup_delete_ne; [eauto|]. intros ->.
    by apply (indexed_nothing _ _ _ _ I2 n N Hn).
  - intros r R Hr. rewrite lookup_delete_ne; [eauto|]. intros He.
    apply (indexed_nothing _ _ _ _ I3 r R Hr). by rewrite He.
Qed.

Local Ltac there := rewrite lookup_insert_is_Some'; right; eauto.

(** The tree of threads of a process and the table of threads change
    together. *)
Lemma graph_threads p P t ts :
  g_procs g !! p = Some P ->
  indexed ts_pid (fun TH => Some (ts_proc TH)) ts p t ->
  (forall q Q, q <> p -> g_procs g !! q = Some Q ->
     indexed ts_pid (fun TH => Some (ts_proc TH)) ts q (ps_threads Q)) ->
  (forall th TH, ts !! th = Some TH -> is_Some (g_procs g !! ts_proc TH)) ->
  graph_ok (Graph (<[p := ProcShape t (ps_nodes P) (ps_by_desc P) (ps_by_node P)]> (g_procs g)) ts
              (g_nodes g) (g_refs g) (g_dead g)).
Proof.
  intros Hp Ht Ho Hts. destruct Hg as [H1 H2 H3 H4 H5 H6 H7 H8 H9 H10 H11]. split; cbn; try done.
  - intros q Q. rewrite lookup_insert_Some. intros [[<- <-]|[Hne Hq]].
    + by destruct (H1 p P Hp); split.
    + destruct (H1 q Q Hq); split; try done. apply Ho; [congruence|done].
  - intros th TH Hth. there.
  - intros n N q Hn Fn. there.
  - intros r R Hr. there.
Qed.

Lemma graph_new_thread p P th q t cmp ctx :
  g_procs g !! p = Some P -> g_threads g !! th = None ->
  (forall y TH, g_threads g !! y = Some TH -> ts_proc TH = p -> cmp y = Some (q ?= ts_pid TH)) ->
  rb_descend cmp (ps_threads P) [] = Some (E, ctx) -> rb_insert_color (rb_link_node th) ctx = Some t ->
  graph_ok (Graph (<[p := ProcShape t (ps_nodes P) (ps_by_desc P) (ps_by_node P)]> (g_procs g))
              (<[th := ThreadShape p q]> (g_threads g)) (g_nodes g) (g_refs g) (g_dead g)).
Proof.
  intros Hp Hn Hc Hd Ht. apply graph_threads; [done|..].
  - destruct (indexed_insert ts_pid (fun TH => Some (ts_proc TH)) (g_threads g) p (ps_threads P) cmp th (ThreadShape p q) ctx)
      as (t' & Ht' & Hi); [by apply (go_proc _ Hg)|done|done| |done|by simplify_eq].
    intros y TH Hy [= Fy]. by apply Hc.
  - intros q' Q Hne HQ. apply indexed_insert_other; [by apply (go_proc _ Hg)|done|cbn; congruence].
  - intros th' TH. rewrite lookup_insert_Some. intros [[<- <-]|[_ Hth]]; [eauto|by apply (go_thread_proc _ Hg _ _ Hth)].
Qed.

Lemma graph_del_thread p P th TH t :
  g_procs g !! p = Some P -> g_threads g !! th = Some TH -> ts_proc TH = p ->
  rb_delete th (ps_threads P) = Some t ->
  graph_ok (Graph (<[p := ProcShape t (ps_nodes P) (ps_by_desc P) (ps_by_node P)]> (g_procs g))
              (delete th (g_threads g)) (g_nodes g) (g_refs g) (g_dead g)).
Proof.
  intros Hp Hn Fp Ht. apply graph_threads; [done|..].
  - destruct (indexed_delete ts_pid (fun TH => Some (ts_proc TH)) (g_threads g) p (ps_threads P) th TH)
      as (t' & Ht' & Hi); [by apply (go_proc _ Hg)|done|by rewrite Fp|by simplify_eq].
  - intros q' Q Hne HQ. eapply indexed_delete_other; [by apply (go_proc _ Hg)|done|cbn; congruence].
  - intros th' TH'. rewrite lookup_delete_Some. intros [_ Hth]. by apply (go_thread_proc _ Hg _ _ Hth).
Qed.

(** The tree of nodes of a process and the table of nodes. *)
Lemma graph_new_node p P n ptr cookie t cmp ctx :
  g_procs g !! p = Some P -> g_nodes g !! n = None -> 0 <= ptr < 2 ^ 32 ->
  (forall y N, g_nodes g !! y = Some N -> ns_proc N = Some p -> cmp y = Some (ptr ?= ns_ptr N)) ->
  rb_descend cmp (ps_nodes P) [] = Some (E, ctx) -> rb_insert_color (rb_link_node n) ctx = Some t ->
  graph_ok (Graph (<[p := ProcShape (ps_threads P) t (ps_by_desc P) (ps_by_node P)]> (g_procs g)) (g_threads g)
              (<[n := NodeShape (Some p) ptr cookie [] false false]> (g_nodes g)) (g_refs g) (g_dead g)).
Proof.
  intros Hp Hn Hw Hc Hd Ht. destruct Hg as [H1 H2 H3 H4 H5 H6 H7 H8 H9 H10 H11]. split; cbn; try done.
  - intros q Q. rewrite lookup_insert_Some. intros [[<- <-]|[Hne Hq]].
    + destruct (H1 p P Hp) as [I1 I2 I3 I4]. split; try done. cbn.
      destruct (indexed_insert ns_ptr ns_proc (g_nodes g) p (ps_nodes P) cmp n (NodeShape (Some p) ptr cookie [] false false) ctx)
        as (t' & Ht' & Hi); [done..|by simplify_eq].
    + destruct (H1 q Q Hq) as [I1 I2 I3 I4]. split; try done. cbn.
      apply indexed_insert_other; [done|done|cbn; congruence].
  - intros th TH Hth. there.
  - intros n' N q. rewrite lookup_insert_Some. intros [[<- <-]|[_ Hn']] Fn; [|there].
    injection Fn as <-. rewrite lookup_insert_is_Some'. by left.
  - intros r R Hr. there.
  - intros r R Hr. destruct (H5 r R Hr) as (N & HN & ?). exists N. by rewrite lookup_insert_ne by congruence.
  - intros n' N. rewrite lookup_insert_Some. intros [[<- <-]|[_ Hn']]; [|by eauto].
    split; [constructor|]. by intros r ?%not_elem_of_nil.
  - intros n'. rewrite H7. split; intros (N & HN & Fn).
    + exists N. by rewrite lookup_insert_ne by congruence.
    + apply lookup_insert_Some in HN as [[<- <-]|[_ HN]]; [done|eauto].
  - intros n' N. rewrite lookup_insert_Some. intros [[<- <-]|[_ Hn']]; eauto.
  - intros n' N. rewrite lookup_insert_Some. intros [[<- <-]|[_ Hn']]; eauto.
Qed.

(** A node without references goes. *)
Lemma graph_del_node p P n N t :
  g_procs g !! p = Some P -> g_nodes g !! n = Some N -> ns_proc N = Some p -> ns_refs N = [] ->
  rb_delete n (ps_nodes P) = Some t ->
  graph_ok (Graph (<[p := ProcShape (ps_threads P) t (ps_by_desc P) (ps_by_node P)]> (g_procs g)) (g_threads g)
              (delete n (g_nodes g)) (g_refs g) (g_dead g)).
Proof.
  intros Hp Hn Fn Hr Ht. destruct Hg as [H1 H2 H3 H4 H5 H6 H7 H8 H9 H10 H11]. split; cbn; try done.
  - intros q Q. rewrite lookup_insert_Some. intros [[<- <-]|[Hne Hq]].
    + destruct (H1 p P Hp) as [I1 I2 I3 I4]. split; try done. cbn.
      destruct (indexed_delete ns_ptr ns_proc (g_nodes g) p (ps_nodes P) n N) as (t' & Ht' & Hi); [done..|by simplify_eq].
    + destruct (H1 q Q Hq) as [I1 I2 I3 I4]. split; try done. cbn.
      eapply indexed_delete_other; [done|done|congruence].
  - intros th TH Hth. there.
  - intros n' N' q. rewrite lookup_delete_Some. intros [_ Hn'] Fn'. there.
  - intros r R Hr'. there.
  - intros r R Hr'. destruct (H5 r R Hr') as (N' & HN & Hin). exists N'. split; [|done].
    rewrite lookup_delete_ne; [done|]. intros He. rewrite <- He, Hn in HN. injection HN as <-.
    rewrite Hr in Hin. by apply not_elem_of_nil in Hin.
  - intros n' N'. rewrite lookup_delete_Some. intros [_ Hn']. eauto.
  - intros n'. rewrite H7. split; intros (N' & HN & Fn').
    + exists N'. rewrite lookup_delete_ne by congruence. done.
    + apply lookup_delete_Some in HN as [_ HN]. eauto.
  - intros n' N'. rewrite lookup_delete_Some. intros [_ Hn']. eauto.
  - intros n' N'. rewrite lookup_delete_Some. intros [_ Hn']. eauto.
Qed.

Lemma graph_del_dead_node n N :
  g_nodes g !! n = Some N -> ns_proc N = None -> ns_refs N = [] ->
  graph_ok (Graph (g_procs g) (g_threads g) (delete n (g_nodes g)) (g_refs g) (list_del n (g_dead g))).
Proof.
  intros Hn Fn Hr. destruct Hg as [H1 H2 H3 H4 H5 H6 H7 H8 H9 H10 H11]. split; cbn; try done.
  - intros q Q Hq. destruct (H1 q Q Hq) as [I1 I2 I3 I4]. split; try done. cbn.
    eapply indexed_delete_other; [done|done|congruence].
  - intros n' N' q. rewrite lookup_delete_Some. intros [_ Hn'] Fn'. eauto.
  - intros r R Hr'. destruct (H5 r R Hr') as (N' & HN & Hin). exists N'. split; [|done].
    rewrite lookup_delete_ne; [done|]. intros He. rewrite <- He, Hn in HN. injection HN as <-.
    rewrite Hr in Hin. by apply not_elem_of_nil in Hin.
  - intros n' N'. rewrite lookup_delete_Some. intros [_ Hn']. eauto.
  - intros n'. rewrite elem_of_list_del, H7. setoid_rewrite lookup_delete_Some. naive_solver.
  - by apply NoDup_list_del.
  - intros n' N'. rewrite lookup_delete_Some. intros [_ Hn']. eauto.
  - intros n' N'. rewrite lookup_delete_Some. intros [_ Hn']. eauto.
Qed.

(** A node loses its process. *)
Lemma graph_node_dies p P n N t :
  g_procs g !! p = Some P -> g_nodes g !! n = Some N -> ns_proc N = Some p -> rb_delete n (ps_nodes P) = Some t ->
  graph_ok (Graph (<[p := ProcShape (ps_threads P) t (ps_by_desc P) (ps_by_node P)]> (g_procs g)) (g_threads g)
              (<[n := NodeShape None (ns_ptr N) (ns_cookie N) (ns_refs N) (ns_strong N) (ns_weak N)]> (g_nodes g)) (g_refs g) (n :: g_dead g)).
Proof.
  intros Hp Hn Fn Ht. destruct Hg as [H1 H2 H3 H4 H5 H6 H7 H8 H9 H10 H11]. split; cbn; try done.
  - intros q Q. rewrite lookup_insert_Some. intros [[<- <-]|[Hne Hq]].
    + destruct (H1 p P Hp) as [I1 I2 I3 I4]. split; try done. cbn.
      destruct (indexed_disown ns_ptr ns_proc (g_nodes g) p (ps_nodes P) n N (NodeShape None (ns_ptr N) (ns_cookie N) (ns_refs N) (ns_strong N) (ns_weak N)))
        as (t' & Ht' & Hi); [done..|by simplify_eq].
    + destruct (H1 q Q Hq) as [I1 I2 I3 I4]. split; try done. cbn.
      eapply indexed_change_other; [done|done|congruence|done].
  - intros th TH Hth. there.
  - intros n' N' q. rewrite lookup_insert_Some. intros [[<- <-]|[_ Hn']] Fn'; [done|there].
  - intros r R Hr'. there.
  - intros r R Hr'. destruct (H5 r R Hr') as (N' & HN & Hin). destruct (decide (rs_node R = n)) as [He|Hne].
    + rewrite He in *. rewrite lookup_insert_eq. simplify_eq. eauto.
    + rewrite lookup_insert_ne by done. eauto.
  - intros n' N'. rewrite lookup_insert_Some. intros [[<- <-]|[_ Hn']]; [cbn|]; eauto.
  - intros n'. rewrite elem_of_cons, H7. setoid_rewrite lookup_insert_Some. split.
    + intros [->|(N' & HN & Fn')]; [eauto|]. exists N'. split; [right; split; congruence|done].
    + intros (N' & [[-> _]|[_ HN]] & Fn'); eauto.
  - apply NoDup_cons. split; [|done]. rewrite H7. intros (N' & HN & Fn'). congruence.
  - intros n' N'. rewrite lookup_insert_Some. intros [[<- <-]|[_ Hn']]; [cbn|]; eauto.
  - intros n' N'. rewrite lookup_insert_Some. intros [[<- <-]|[_ Hn']]; [cbn|]; eauto.
Qed.

(** What user space holds changes. *)
Lemma graph_flags n N st wk :
  g_nodes g !! n = Some N -> (st = true -> wk = true) ->
  graph_ok (Graph (g_procs g) (g_threads g) (<[n := NodeShape (ns_proc N) (ns_ptr N) (ns_cookie N) (ns_refs N) st wk]> (g_nodes g))
              (g_refs g) (g_dead g)).
Proof.
  intros Hn Hf. destruct Hg as [H1 H2 H3 H4 H5 H6 H7 H8 H9 H10 H11]. split; cbn; try done.
  - intros q Q Hq. destruct (H1 q Q Hq) as [I1 I2 I3 I4]. split; try done. by eapply indexed_update.
  - intros n' N' q. rewrite lookup_insert_Some. intros [[<- <-]|[_ Hn']]; [cbn|]; eauto.
  - intros r R Hr. destruct (H5 r R Hr) as (N' & HN & Hin). destruct (decide (rs_node R = n)) as [He|Hne].
    + rewrite He in *. rewrite lookup_insert_eq. simplify_eq. eauto.
    + rewrite lookup_insert_ne by done. eauto.
  - intros n' N'. rewrite lookup_insert_Some. intros [[<- <-]|[_ Hn']]; [cbn|]; eauto.
  - intros n'. rewrite H7. setoid_rewrite lookup_insert_Some. split.
    + intros (N' & HN & Fn). destruct (decide (n = n')) as [->|]; [|naive_solver].
      eexists. split; [left; done|]. cbn. congruence.
    + intros (N' & [[<- <-]|[_ HN]] & Fn); eauto.
  - intros n' N'. rewrite lookup_insert_Some. intros [[<- <-]|[_ Hn']]; [cbn|]; eauto.
  - intros n' N'. rewrite lookup_insert_Some. intros [[<- <-]|[_ Hn']]; [cbn|]; eauto.
Qed.

(** A new reference. *)
Lemma graph_new_ref p P n N r desc t1 t2 :
  g_procs g !! p = Some P -> g_nodes g !! n = Some N -> g_refs g !! r = None -> 0 <= desc < 2 ^ 32 ->
  indexed rs_desc (fun R => Some (rs_proc R)) (<[r := RefShape p n desc]> (g_refs g)) p t2 ->
  indexed rs_node (fun R => Some (rs_proc R)) (<[r := RefShape p n desc]> (g_refs g)) p t1 ->
  graph_ok (Graph (<[p := ProcShape (ps_threads P) (ps_nodes P) t2 t1]> (g_procs g)) (g_threads g)
              (<[n := NodeShape (ns_proc N) (ns_ptr N) (ns_cookie N) (r :: ns_refs N) (ns_strong N) (ns_weak N)]> (g_nodes g))
              (<[r := RefShape p n desc]> (g_refs g)) (g_dead g)).
Proof.
  intros Hp Hn Hr Hw Ht2 Ht1. destruct Hg as [H1 H2 H3 H4 H5 H6 H7 H8 H9 H10 H11].
  assert (r ∉ ns_refs N) as Hnot.
  { intros Hin. destruct (proj2 (H6 n N Hn) r Hin) as (R & HR & _). congruence. }
  split; cbn; try done.
  - intros q Q. rewrite lookup_insert_Some. intros [[<- <-]|[Hne Hq]].
    + destruct (H1 p P Hp) as [I1 I2 I3 I4]. split; try done. by eapply indexed_update.
    + destruct (H1 q Q Hq) as [I1 I2 I3 I4].
      split; [done|by eapply indexed_update|..]; (apply indexed_insert_other; [done|done|cbn; congruence]).
  - intros th TH Hth. there.
  - intros n' N' q. rewrite lookup_insert_Some. intros [[<- <-]|[_ Hn']] Fn'; there.
  - intros r' R'. rewrite lookup_insert_Some. intros [[<- <-]|[_ Hr']]; [|there].
    rewrite lookup_insert_is_Some'. by left.
  - intros r' R'. rewrite lookup_insert_Some. intros [[<- <-]|[_ Hr']]; cbn.
    + rewrite lookup_insert_eq. eexists. split; [done|]. left.
    + destruct (H5 r' R' Hr') as (N' & HN & Hin). destruct (decide (rs_node R' = n)) as [He|Hne].
      * rewrite He in *. rewrite lookup_insert_eq. simplify_eq. eexists. split; [done|]. by right.
      * rewrite lookup_insert_ne by done. eauto.
  - intros n' N'. rewrite lookup_insert_Some. intros [[<- <-]|[Hne Hn']]; cbn.
    + split; [apply NoDup_cons; split; [done|by apply (H6 n)]|]. intros r' [->|Hr']%elem_of_cons.
      * rewrite lookup_insert_eq. eauto.
      * destruct (proj2 (H6 n N Hn) r' Hr') as (R' & HR & ?). rewrite lookup_insert_ne by congruence. eauto.
    + destruct (H6 n' N' Hn') as [Hd Hin]. split; [done|]. intros r' Hr'.
      destruct (Hin r' Hr') as (R' & HR & ?). rewrite lookup_insert_ne by congruence. eauto.
  - intros n'. rewrite H7. setoid_rewrite lookup_insert_Some. split.
    + intros (N' & HN & Fn'). destruct (decide (n = n')) as [->|]; [|naive_solver].
      eexists. split; [left; done|]. cbn. congruence.
    + intros (N' & [[<- <-]|[_ HN]] & Fn'); eauto.
  - intros n' N'. rewrite lookup_insert_Some. intros [[<- <-]|[_ Hn']]; [cbn|]; eauto.
  - intros r' R'. rewrite lookup_insert_Some. intros [[<- <-]|[_ Hr']]; eauto.
  - intros n' N'. rewrite lookup_insert_Some. intros [[<- <-]|[_ Hn']]; [cbn|]; eauto.
Qed.

(** A reference goes. *)
Lemma graph_del_ref p P r R N t1 t2 :
  g_procs g !! p = Some P -> g_refs g !! r = Some R -> rs_proc R = p -> g_nodes g !! rs_node R = Some N ->
  rb_delete r (ps_by_desc P) = Some t1 -> rb_delete r (ps_by_node P) = Some t2 ->
  graph_ok (Graph (<[p := ProcShape (ps_threads P) (ps_nodes P) t1 t2]> (g_procs g)) (g_threads g)
              (<[rs_node R := NodeShape (ns_proc N) (ns_ptr N) (ns_cookie N) (list_del r (ns_refs N)) (ns_strong N) (ns_weak N)]> (g_nodes g))
              (delete r (g_refs g)) (g_dead g)).
Proof.
  intros Hp Hr Fr Hn Ht1 Ht2. destruct Hg as [H1 H2 H3 H4 H5 H6 H7 H8 H9 H10 H11]. split; cbn; try done.
  - intros q Q. rewrite lookup_insert_Some. intros [[<- <-]|[Hne Hq]].
    + destruct (H1 p P Hp) as [I1 I2 I3 I4].
      destruct (indexed_delete _ _ _ _ _ _ _ I3 Hr) as (t1' & Ht1' & Hi1); [by rewrite Fr|].
      destruct (indexed_delete _ _ _ _ _ _ _ I4 Hr) as (t2' & Ht2' & Hi2); [by rewrite Fr|]. simplify_eq.
      split; try done. by eapply indexed_update.
    + destruct (H1 q Q Hq) as [I1 I2 I3 I4].
      split; [done|by eapply indexed_update|..]; (eapply indexed_delete_other; [done|done|cbn; congruence]).
  - intros th TH Hth. there.
  - intros n' N' q. rewrite lookup_insert_Some. intros [[<- <-]|[_ Hn']] Fn'; there.
  - intros r' R'. rewrite lookup_delete_Some. intros [_ Hr']. there.
  - intros r' R'. rewrite lookup_delete_Some. intros [Hne Hr'].
    destruct (H5 r' R' Hr') as (N' & HN & Hin). destruct (decide (rs_node R' = rs_node R)) as [He|Hne'].
    + rewrite He in *. rewrite lookup_insert_eq. simplify_eq. eexists. split; [done|]. cbn.
      rewrite elem_of_list_del. split; [congruence|done].
    + rewrite lookup_insert_ne by done. eauto.
  - intros n' N'. rewrite lookup_insert_Some. intros [[<- <-]|[Hne Hn']]; cbn.
    + destruct (H6 _ _ Hn) as [Hd Hin]. split; [by apply NoDup_list_del|]. intros r' [Hne Hr']%elem_of_list_del.
      rewrite lookup_delete_ne by done. by apply Hin.
    + destruct (H6 n' N' Hn') as [Hd Hin]. split; [done|]. intros r' Hr'.
      destruct (Hin r' Hr') as (R' & HR & HE). rewrite lookup_delete_ne; [eauto|]. congruence.
  - intros n'. rewrite H7. setoid_rewrite lookup_insert_Some. split.
    + intros (N' & HN & Fn'). destruct (decide (rs_node R = n')) as [He|]; [|naive_solver].
      eexists. split; [left; done|]. cbn. congruence.
    + intros (N' & [[<- <-]|[_ HN]] & Fn'); eauto.
  - intros n' N'. rewrite lookup_insert_Some. intros [[<- <-]|[_ Hn']]; [cbn|]; eauto.
  - intros r' R'. rewrite lookup_delete_Some. intros [_ Hr']. eauto.
  - intros n' N'. rewrite lookup_insert_Some. intros [[<- <-]|[_ Hn']]; [cbn|]; eauto.
Qed.
End changes.
