(* ===== verification/BinderRun.v ===== *)
(** * Runs of driver operations

    How an operation that has a result got there, step by step, and the
    operations that leave the object graph alone or keep it consistent. *)

From stdpp Require Import base numbers list gmap.
From S2P Require Import Prelude RbTree RbKeyed RbIndex BinderAlloc BinderCore BinderRefs BinderGraph.

Open Scope Z_scope.

(** ** Inversion of runs *)

Section run.
Implicit Types (s : binder).

Lemma bind_run {A B} (m : M A) (f : A -> M B) s r :
  (m ≫= f) s = Some r -> exists s1 x, m s = Some (s1, x) /\ f x s1 = Some r.
Proof. unfold mbind, M_bind. destruct (m s) as [[s1 x]|]; [eauto|done]. Qed.

Lemma ret_run {A} (x : A) s s' y : (mret x : M A) s = Some (s', y) -> s' = s /\ y = x.
Proof. by intros [= <- <-]. Qed.
Lemma lift_run {A} (o : option A) s s' y : lift o s = Some (s', y) -> s' = s /\ o = Some y.
Proof. unfold lift. destruct o; [|done]. by intros [= <- <-]. Qed.
Lemma gets_run {A} (f : binder -> A) s s' y : gets f s = Some (s', y) -> s' = s /\ y = f s.
Proof. by intros [= <- <-]. Qed.
Lemma modify_run f s s' y : modify f s = Some (s', y) -> s' = f s.
Proof. by intros [= <- _]. Qed.
Lemma bug_on_run b s s' y : bug_on b s = Some (s', y) -> s' = s /\ b = false.
Proof. unfold bug_on. destruct b; [done|]. by intros [= <- _]. Qed.
Lemma skip_run s s' y : skip s = Some (s', y) -> s' = s.
Proof. by intros [= <- _]. Qed.
Lemma when_run b m s s' y : when b m s = Some (s', y) -> (b = true /\ m s = Some (s', y)) \/ (b = false /\ s' = s).
Proof. unfold when. destruct b; [by left|]. intros [= <- _]. by right. Qed.

Lemma the_proc_run p s s' P : the_proc p s = Some (s', P) -> s' = s /\ procs s !! p = Some P.
Proof. unfold the_proc. destruct (procs s !! p); [|done]. by intros [= <- <-]. Qed.
Lemma the_thread_run p s s' P : the_thread p s = Some (s', P) -> s' = s /\ threads s !! p = Some P.
Proof. unfold the_thread. destruct (threads s !! p); [|done]. by intros [= <- <-]. Qed.
Lemma the_node_run p s s' P : the_node p s = Some (s', P) -> s' = s /\ nodes s !! p = Some P.
Proof. unfold the_node. destruct (nodes s !! p); [|done]. by intros [= <- <-]. Qed.
Lemma the_ref_run p s s' P : the_ref p s = Some (s', P) -> s' = s /\ refs s !! p = Some P.
Proof. unfold the_ref. destruct (refs s !! p); [|done]. by intros [= <- <-]. Qed.
Lemma the_death_run p s s' P : the_death p s = Some (s', P) -> s' = s /\ deaths s !! p = Some P.
Proof. unfold the_death. destruct (deaths s !! p); [|done]. by intros [= <- <-]. Qed.
Lemma the_transaction_run p s s' P : the_transaction p s = Some (s', P) -> s' = s /\ transactions s !! p = Some P.
Proof. unfold the_transaction. destruct (transactions s !! p); [|done]. by intros [= <- <-]. Qed.

Lemma mod_proc_run p f s s' y :
  mod_proc p f s = Some (s', y) -> exists P, procs s !! p = Some P /\ s' = set_procs (<[p := f P]> (procs s)) s.
Proof. unfold mod_proc. destruct (procs s !! p); [|done]. intros [= <- _]. eauto. Qed.
Lemma mod_thread_run p f s s' y :
  mod_thread p f s = Some (s', y) -> exists P, threads s !! p = Some P /\ s' = set_threads (<[p := f P]> (threads s)) s.
Proof. unfold mod_thread. destruct (threads s !! p); [|done]. intros [= <- _]. eauto. Qed.
Lemma mod_node_run p f s s' y :
  mod_node p f s = Some (s', y) -> exists P, nodes s !! p = Some P /\ s' = set_nodes (<[p := f P]> (nodes s)) s.
Proof. unfold mod_node. destruct (nodes s !! p); [|done]. intros [= <- _]. eauto. Qed.
Lemma mod_ref_run p f s s' y :
  mod_ref p f s = Some (s', y) -> exists P, refs s !! p = Some P /\ s' = set_refs (<[p := f P]> (refs s)) s.
Proof. unfold mod_ref. destruct (refs s !! p); [|done]. intros [= <- _]. eauto. Qed.
Lemma mod_death_run p f s s' y :
  mod_death p f s = Some (s', y) -> exists P, deaths s !! p = Some P /\ s' = set_deaths (<[p := f P]> (deaths s)) s.
Proof. unfold mod_death. destruct (deaths s !! p); [|done]. intros [= <- _]. eauto. Qed.
Lemma mod_transaction_run p f s s' y :
  mod_transaction p f s = Some (s', y) ->
  exists P, transactions s !! p = Some P /\ s' = set_transactions (<[p := f P]> (transactions s)) s.
Proof. unfold mod_transaction. destruct (transactions s !! p); [|done]. intros [= <- _]. eauto. Qed.

Lemma kzalloc_run s s' o :
  kzalloc s = Some (s', o) ->
  (exists l, s' = set_supply l s) /\ (forall a, o = Some a -> 0 < a < 2 ^ 32 /\ in_use s a = false).
Proof.
  unfold kzalloc. destruct (supply s) as [|x l] eqn:E.
  - intros [= <- <-]. split; [|done]. exists (supply s). by destruct s.
  - intros [= <- <-]. split; [eauto|]. intros a. destruct x as [b|]; [|done]. cbn. case_if; [|done].
    intros [= <-]. split; [lia|done].
Qed.

Lemma add_tail_run w l s s' y :
  add_tail w l s = Some (s', y) -> owner_there s l = true /\ s' = set_lists (<[l := todo s l ++ [w]]> (lists s)) s.
Proof. unfold add_tail. destruct (owner_there s l); [|done]. by intros [= <- _]. Qed.
Lemma add_head_run w l s s' y :
  add_head w l s = Some (s', y) -> owner_there s l = true /\ s' = set_lists (<[l := w :: todo s l]> (lists s)) s.
Proof. unfold add_head. destruct (owner_there s l); [|done]. by intros [= <- _]. Qed.

Lemma init_list_run l s s' y : init_list l s = Some (s', y) -> s' = set_lists (delete l (lists s)) s.
Proof. by intros [= <- _]. Qed.
Lemma unlink_run w s s' y : unlink w s = Some (s', y) -> s' = set_lists (list_del w <$> lists s) s.
Proof. by intros [= <- _]. Qed.

(** An address that is not in use. *)
Lemma not_in_use s a :
  in_use s a = false ->
  procs s !! a = None /\ threads s !! a = None /\ nodes s !! a = None /\ refs s !! a = None /\
  deaths s !! a = None /\ transactions s !! a = None /\ a ∉ completes s.
Proof.
  unfold in_use. rewrite bool_decide_eq_false. intros H.
  split_and!; [apply not_elem_of_dom; tauto..|tauto].
Qed.
End run.

(** Takes the runs among the hypotheses apart. *)
Ltac inv_run :=
  repeat match goal with
  | H : (_ ≫= _) _ = Some _ |- _ => apply bind_run in H as (? & ? & ? & H)
  | H : mret _ _ = Some _ |- _ => apply ret_run in H as [-> ?]
  | H : lift _ _ = Some _ |- _ => apply lift_run in H as [-> H]
  | H : gets _ _ = Some _ |- _ => apply gets_run in H as [-> ?]
  | H : modify _ _ = Some _ |- _ => apply modify_run in H as ->
  | H : bug_on _ _ = Some _ |- _ => apply bug_on_run in H as [-> ?]
  | H : skip _ = Some _ |- _ => apply skip_run in H as ->
  | H : bug _ = Some _ |- _ => discriminate H
  | H : the_proc _ _ = Some _ |- _ => apply the_proc_run in H as [-> H]
  | H : the_thread _ _ = Some _ |- _ => apply the_thread_run in H as [-> H]
  | H : the_node _ _ = Some _ |- _ => apply the_node_run in H as [-> H]
  | H : the_ref _ _ = Some _ |- _ => apply the_ref_run in H as [-> H]
  | H : the_death _ _ = Some _ |- _ => apply the_death_run in H as [-> H]
  | H : the_transaction _ _ = Some _ |- _ => apply the_transaction_run in H as [-> H]
  | H : mod_proc _ _ _ = Some _ |- _ => apply mod_proc_run in H as (? & H & ->)
  | H : mod_thread _ _ _ = Some _ |- _ => apply mod_thread_run in H as (? & H & ->)
  | H : mod_node _ _ _ = Some _ |- _ => apply mod_node_run in H as (? & H & ->)
  | H : mod_ref _ _ _ = Some _ |- _ => apply mod_ref_run in H as (? & H & ->)
  | H : mod_death _ _ _ = Some _ |- _ => apply mod_death_run in H as (? & H & ->)
  | H : mod_transaction _ _ _ = Some _ |- _ => apply mod_transaction_run in H as (? & H & ->)
  | H : add_tail _ _ _ = Some _ |- _ => apply add_tail_run in H as [H ->]
  | H : add_head _ _ _ = Some _ |- _ => apply add_head_run in H as [H ->]
  | H : init_list _ _ = Some _ |- _ => apply init_list_run in H as ->
  | H : unlink _ _ = Some _ |- _ => apply unlink_run in H as ->
  | H : next_id _ = Some _ |- _ => injection H as <- <-
  | H : (match ?x with (_, _) => _ end) _ = Some _ |- _ => is_var x; destruct x
  | H : ?x = id ?s |- _ => is_var x; change (id s) with s in H; subst x
  end.

(** Follows the branch a run took. *)
Ltac case_run :=
  match goal with
  | H : (match ?x with _ => _ end) _ = Some _ |- _ => destruct x eqn:?
  end; inv_run; unbool.

(** ** Operations that leave the graph alone *)

Definition same_graph {A} (m : M A) : Prop := forall s s' x, m s = Some (s', x) -> graph_of s' = graph_of s.

Create HintDb graph.

Section same.
Context {A : Type}.
Implicit Types (m : M A).

Lemma same_bind {B} (m : M A) (f : A -> M B) : same_graph m -> (forall x, same_graph (f x)) -> same_graph (m ≫= f).
Proof. intros Hm Hf s s' x H. inv_run. rewrite (Hf _ _ _ _ H). by eapply Hm. Qed.
Lemma same_ret (x : A) : same_graph (mret x).
Proof. intros s s' y H. by inv_run. Qed.
Lemma same_lift (o : option A) : same_graph (lift o).
Proof. intros s s' y H. by inv_run. Qed.
Lemma same_gets (f : binder -> A) : same_graph (gets f).
Proof. intros s s' y H. by inv_run. Qed.
Lemma same_bug : same_graph (@bug A).
Proof. done. Qed.
Lemma same_bug_on b : same_graph (bug_on b).
Proof. intros s s' y H. by inv_run. Qed.
Lemma same_modify f : (forall s, graph_of (f s) = graph_of s) -> same_graph (modify f).
Proof. intros Hf s s' y H. inv_run. apply Hf. Qed.
End same.

Lemma same_skip : same_graph skip.
Proof. apply same_ret. Qed.
Lemma same_kzalloc : same_graph kzalloc.
Proof. intros s s' o [(l & ->) _]%kzalloc_run. done. Qed.
Lemma same_next_id : same_graph next_id.
Proof. intros s s' i [= <- _]. done. Qed.
Lemma same_the_proc p : same_graph (the_proc p).
Proof. intros s s' P H. by inv_run. Qed.
Lemma same_the_thread p : same_graph (the_thread p).
Proof. intros s s' P H. by inv_run. Qed.
Lemma same_the_node p : same_graph (the_node p).
Proof. intros s s' P H. by inv_run. Qed.
Lemma same_the_ref p : same_graph (the_ref p).
Proof. intros s s' P H. by inv_run. Qed.
Lemma same_the_death p : same_graph (the_death p).
Proof. intros s s' P H. by inv_run. Qed.
Lemma same_the_transaction p : same_graph (the_transaction p).
Proof. intros s s' P H. by inv_run. Qed.

Lemma fmap_same {A B} (f : A -> B) (m : gmap Z A) i x y :
  m !! i = Some x -> f y = f x -> f <$> <[i := y]> m = f <$> m.
Proof. intros Hi Hf. rewrite fmap_insert, Hf. apply insert_id. by rewrite lookup_fmap, Hi. Qed.

Lemma same_mod_proc p f : (forall P, proc_shape_of (f P) = proc_shape_of P) -> same_graph (mod_proc p f).
Proof. intros Hf s s' y H. inv_run. unfold graph_of. cbn. by erewrite fmap_same by done. Qed.
Lemma same_mod_thread p f : (forall P, thread_shape_of (f P) = thread_shape_of P) -> same_graph (mod_thread p f).
Proof. intros Hf s s' y H. inv_run. unfold graph_of. cbn. by erewrite fmap_same by done. Qed.
Lemma same_mod_node p f : (forall P, node_shape_of (f P) = node_shape_of P) -> same_graph (mod_node p f).
Proof. intros Hf s s' y H. inv_run. unfold graph_of. cbn. by erewrite fmap_same by done. Qed.
Lemma same_mod_ref p f : (forall P, ref_shape_of (f P) = ref_shape_of P) -> same_graph (mod_ref p f).
Proof. intros Hf s s' y H. inv_run. unfold graph_of. cbn. by erewrite fmap_same by done. Qed.
Lemma same_mod_death p f : same_graph (mod_death p f).
Proof. intros s s' y H. by inv_run. Qed.
Lemma same_mod_transaction p f : same_graph (mod_transaction p f).
Proof. intros s s' y H. by inv_run. Qed.
Lemma same_add_tail w l : same_graph (add_tail w l).
Proof. intros s s' y H. by inv_run. Qed.
Lemma same_add_head w l : same_graph (add_head w l).
Proof. intros s s' y H. by inv_run. Qed.
Lemma same_unlink w : same_graph (unlink w).
Proof. by apply same_modify. Qed.
Lemma same_init_list l : same_graph (init_list l).
Proof. by apply same_modify. Qed.

#[export] Hint Resolve same_ret same_lift same_gets same_bug same_bug_on same_skip same_kzalloc same_next_id
  same_the_proc same_the_thread same_the_node same_the_ref same_the_death same_the_transaction
  same_mod_death same_mod_transaction same_add_tail same_add_head same_unlink same_init_list : graph.

(** Decomposes an operation into those that are known. *)
Ltac shape := intros; repeat case_match; reflexivity.
Ltac same_step :=
  match goal with
  | |- same_graph (_ ≫= _) => apply same_bind; [|intros]
  | |- same_graph (when _ _) => unfold when
  | |- same_graph (match ?x with _ => _ end) => destruct x
  | |- same_graph (modify _) => apply same_modify; shape
  | |- same_graph (mod_proc _ _) => apply same_mod_proc; shape
  | |- same_graph (mod_thread _ _) => apply same_mod_thread; shape
  | |- same_graph (mod_node _ _) => apply same_mod_node; shape
  | |- same_graph (mod_ref _ _) => apply same_mod_ref; shape
  | |- same_graph _ => solve [auto with graph]
  end; cbv beta zeta.
Ltac same_auto := repeat same_step.

(** From a run of such an operation, the equation of the graphs. *)
Ltac same_run H :=
  match type of H with ?m ?s = Some _ =>
    let K := fresh in assert (same_graph m) as K by same_auto; apply K in H; clear K
  end.

Lemma same_the_buffer pb : same_graph (the_buffer pb).
Proof. unfold the_buffer. same_auto. Qed.
Lemma same_mod_buffer pb f : same_graph (mod_buffer pb f).
Proof. unfold mod_buffer. same_auto. Qed.
#[export] Hint Resolve same_the_buffer same_mod_buffer : graph.

(** ** Operations that keep it consistent *)

Definition keeps {A} (m : M A) : Prop :=
  forall s s' x, graph_ok (graph_of s) -> m s = Some (s', x) -> graph_ok (graph_of s').

Lemma keeps_same {A} (m : M A) : same_graph m -> keeps m.
Proof. intros Hm s s' x Hg H. by rewrite (Hm _ _ _ H). Qed.
Lemma keeps_bind {A B} (m : M A) (f : A -> M B) : keeps m -> (forall x, keeps (f x)) -> keeps (m ≫= f).
Proof. intros Hm Hf s s' x Hg H. inv_run. eapply Hf; [|exact H]. by eapply Hm. Qed.

Ltac keeps_step :=
  match goal with
  | |- keeps (_ ≫= _) => apply keeps_bind; [|intros]
  | |- keeps (when _ _) => unfold when
  | |- keeps (match ?x with _ => _ end) => destruct x
  | |- keeps _ => solve [auto with graph]
  | |- keeps _ => apply keeps_same; solve [same_auto]
  end; cbv beta zeta.
Ltac keeps_auto := repeat keeps_step.
