(* ===== verification/BinderRefsInv.v ===== *)
(** * Nodes and references keep the graph consistent

    What the operations on nodes and references do to the object graph, and that
    each of them keeps it consistent. *)

From stdpp Require Import base numbers list gmap sorting.
From S2P Require Import Prelude RbTree RbTreeProps RbKeyed RbIndex BinderAlloc BinderCore BinderRefs BinderGraph BinderRun.

Open Scope Z_scope.

(** ** Nodes *)

Lemma same_get_node p ptr : same_graph (binder_get_node p ptr).
Proof. unfold binder_get_node. same_auto. Qed.
Lemma same_get_ref p desc : same_graph (binder_get_ref p desc).
Proof. unfold binder_get_ref. same_auto. Qed.
Lemma same_inc_node n strong internal l : same_graph (binder_inc_node n strong internal l).
Proof. unfold binder_inc_node. same_auto. Qed.
Lemma same_inc_ref r strong l : same_graph (binder_inc_ref r strong l).
Proof. pose proof same_inc_node. unfold binder_inc_ref. same_auto. Qed.
#[export] Hint Resolve same_get_node same_get_ref same_inc_node same_inc_ref : graph.

Lemma lookup_shape {A B} (f : A -> B) (m : gmap Z A) i x : m !! i = Some x -> (f <$> m) !! i = Some (f x).
Proof. intros H. by rewrite lookup_fmap, H. Qed.
Lemma lookup_shape_none {A B} (f : A -> B) (m : gmap Z A) i : m !! i = None -> (f <$> m) !! i = None.
Proof. intros H. by rewrite lookup_fmap, H. Qed.
#[export] Hint Resolve lookup_shape lookup_shape_none : graph.

Lemma node_cmp_shape s ptr y N :
  (node_shape_of <$> nodes s) !! y = Some N -> node_cmp s ptr y = Some (ptr ?= ns_ptr N).
Proof. unfold node_cmp. rewrite lookup_fmap. destruct (nodes s !! y); [|done]. by intros [= <-]. Qed.
Lemma desc_cmp_shape s desc y R :
  (ref_shape_of <$> refs s) !! y = Some R -> desc_cmp s desc y = Some (desc ?= rs_desc R).
Proof. unfold desc_cmp. rewrite lookup_fmap. destruct (refs s !! y); [|done]. by intros [= <-]. Qed.
Lemma ref_node_cmp_shape s n y R :
  (ref_shape_of <$> refs s) !! y = Some R -> ref_node_cmp s n y = Some (n ?= rs_node R).
Proof. unfold ref_node_cmp. rewrite lookup_fmap. destruct (refs s !! y); [|done]. by intros [= <-]. Qed.

Lemma keeps_new_node p ptr cookie : 0 <= ptr < 2 ^ 32 -> keeps (binder_new_node p ptr cookie).
Proof.
  intros Hptr s s' x Hg H. unfold binder_new_node in H. inv_run. case_run; [|done].
  match goal with H : kzalloc _ = Some (_, ?o) |- _ => rename H into Hk; destruct o as [n|] end;
    [|inv_run; by rewrite (same_kzalloc _ _ _ Hk)].
  apply kzalloc_run in Hk as [(l' & ->) Hk]. destruct (Hk n eq_refl) as [_ Hu].
  apply not_in_use in Hu as (_ & _ & Hn & _). inv_run. cbn in *. simplify_eq.
  unfold graph_of. cbn. rewrite !fmap_insert.
  eapply (graph_new_node _ Hg p (proc_shape_of _) n ptr cookie _ (node_cmp s ptr)); cbn; eauto with graph.
  intros y N Hy _. by apply node_cmp_shape.
Qed.
#[export] Hint Resolve keeps_new_node : graph.

(** A node without references is freed. *)
Inductive node_freed (n : Z) (g : graph) : graph -> Prop :=
  | NodeFreed p P N t :
      g_procs g !! p = Some P -> g_nodes g !! n = Some N -> ns_proc N = Some p -> ns_refs N = [] ->
      rb_delete n (ps_nodes P) = Some t ->
      node_freed n g (Graph (<[p := ProcShape (ps_threads P) t (ps_by_desc P) (ps_by_node P)]> (g_procs g))
        (g_threads g) (delete n (g_nodes g)) (g_refs g) (g_dead g))
  | DeadNodeFreed N :
      g_nodes g !! n = Some N -> ns_proc N = None -> ns_refs N = [] ->
      node_freed n g (Graph (g_procs g) (g_threads g) (delete n (g_nodes g)) (g_refs g) (list_del n (g_dead g))).

Lemma node_freed_ok n g g' : node_freed n g g' -> graph_ok g -> graph_ok g'.
Proof. intros [p P N t|N] Hg; [by eapply graph_del_node|by eapply graph_del_dead_node]. Qed.

Lemma free_node_graph n N s s' x :
  nodes s !! n = Some N -> node_refs N = [] -> (unlink (WNode n);; unhash_node n N;; free_node n) s = Some (s', x) ->
  node_freed n (graph_of s) (graph_of s').
Proof.
  intros Hn Hr H. unfold unhash_node, free_node in H. inv_run. destruct (node_proc N) as [p|] eqn:Hp; inv_run; cbn in *; simplify_eq.
  - eapply lookup_shape in Hn. unfold graph_of at 2. cbn. rewrite fmap_insert, fmap_delete.
    eapply (NodeFreed n (graph_of s) p (proc_shape_of _)); cbn; eauto with graph.
  - eapply lookup_shape in Hn. unfold graph_of at 2. cbn. rewrite fmap_delete.
    eapply (DeadNodeFreed n (graph_of s)); cbn; eauto.
Qed.

Lemma dec_node_graph n strong internal s s' x :
  binder_dec_node n strong internal s = Some (s', x) ->
  graph_of s' = graph_of s \/ node_freed n (graph_of s) (graph_of s').
Proof.
  intros H. unfold binder_dec_node in H. apply bind_run in H as (s1 & y & Hm & H).
  assert (graph_of s1 = graph_of s) as Hs by (eapply same_mod_node; [|exact Hm]; shape).
  rewrite <- Hs. clear Hs Hm.
  apply bind_run in H as (? & N & HN & H). inv_run. case_run; [by left|].
  assert (forall s2 z, when (bool_decide (node_refs N = []) && (local_strong_refs N =? 0) && (local_weak_refs N =? 0))
            (unlink (WNode n);; unhash_node n N;; free_node n) s1 = Some (s2, z) ->
          graph_of s2 = graph_of s1 \/ node_freed n (graph_of s1) (graph_of s2)) as Hfree.
  { intros s2 z [[Hb Hf]|[_ ->]]%when_run; [right|by left]. unbool.
    eapply free_node_graph; [done| |done]. by eapply bool_decide_eq_true_1. }
  case_run; [case_run|]; try (eapply Hfree; eassumption).
  left. match goal with H : when _ _ _ = _ |- _ => apply when_run in H as [[_ H]|[_ ->]] end; [|done].
  by inv_run.
Qed.

Lemma keeps_dec_node n strong internal : keeps (binder_dec_node n strong internal).
Proof.
  intros s s' x Hg H. destruct (dec_node_graph _ _ _ _ _ _ H) as [->|Hf]; [done|]. by eapply node_freed_ok.
Qed.
#[export] Hint Resolve keeps_dec_node : graph.

(** ** References *)

Lemma desc_loop_range s : forall rs desc d, desc_loop s rs desc = Some d -> 0 <= desc < 2 ^ 32 -> 0 <= d < 2 ^ 32.
Proof.
  induction rs as [|r rs IH]; intros desc d; cbn; [congruence|].
  destruct (refs s !! r) as [R|]; cbn; [|done]. case_if; [congruence|]. intros H _.
  apply (IH _ _ H), u32_range.
Qed.

Lemma keeps_get_ref_for_node p n : keeps (binder_get_ref_for_node p n).
Proof.
  intros s s' x Hg H. unfold binder_get_ref_for_node in H. inv_run. case_run; [|done].
  match goal with H : kzalloc _ = Some (_, ?o) |- _ => rename H into Hk; destruct o as [r|] end;
    [|inv_run; by rewrite (same_kzalloc _ _ _ Hk)].
  apply kzalloc_run in Hk as [(l' & ->) Hk]. destruct (Hk r eq_refl) as [_ Hu].
  apply not_in_use in Hu as (_ & _ & _ & Hr & _). inv_run. cbn in *. simplify_eq.
  unfold graph_of. cbn. rewrite !fmap_insert.
  match goal with Hp : procs s !! p = Some ?P, Hn : nodes s !! n = Some ?N |- _ =>
    pose proof (go_proc _ Hg p _ (lookup_shape _ _ _ _ Hp)) as [_ _ I3 I4];
    eapply (graph_new_ref _ Hg p (proc_shape_of P) n (node_shape_of N) r); cbn; eauto with graph
  end.
  - eapply desc_loop_range; [done|by case_if].
  - eapply indexed_inserted; [exact I3|by apply lookup_shape_none|done| |done].
    intros y R Hy _. by apply desc_cmp_shape.
  - eapply indexed_linked; [exact I4|by apply lookup_shape_none|done| |done|done].
    intros y R Hy _. by apply ref_node_cmp_shape.
Qed.
#[export] Hint Resolve keeps_get_ref_for_node : graph.

Lemma same_free_death d : same_graph (free_death d).
Proof. unfold free_death. same_auto. Qed.
#[export] Hint Resolve same_free_death : graph.

(** The references play no part when a node is freed. *)
Definition with_refs (rs : gmap Z ref_shape) (g : graph) : graph :=
  Graph (g_procs g) (g_threads g) (g_nodes g) rs (g_dead g).
Lemma node_freed_refs n g g' rs : node_freed n g g' -> node_freed n (with_refs rs g) (with_refs rs g').
Proof.
  intros [p P N t Hp Hn Fn Hr Ht|N Hn Fn Hr].
  - exact (NodeFreed n (with_refs rs g) p P N t Hp Hn Fn Hr Ht).
  - exact (DeadNodeFreed n (with_refs rs g) N Hn Fn Hr).
Qed.

(** While a reference is on the list of its node, the node stays. *)
Lemma node_not_freed n g g' N : node_freed n g g' -> g_nodes g !! n = Some N -> ns_refs N = [].
Proof. by intros [p P N' t|N']; intros; simplify_eq. Qed.

(** The reference is off the trees and the list of its node, and gone. *)
Definition ref_unlinked (r : Z) (R : ref_shape) (P : proc_shape) (N : node_shape) (t1 t2 : tree Z) (g : graph) : graph :=
  Graph (<[rs_proc R := ProcShape (ps_threads P) (ps_nodes P) t1 t2]> (g_procs g)) (g_threads g)
    (<[rs_node R := NodeShape (ns_proc N) (ns_ptr N) (ns_cookie N) (list_del r (ns_refs N)) (ns_strong N) (ns_weak N)]> (g_nodes g))
    (delete r (g_refs g)) (g_dead g).

Lemma delete_ref_graph r R P N t1 t2 s s' x :
  graph_ok (graph_of s) -> refs s !! r = Some R -> procs s !! ref_proc R = Some P -> nodes s !! ref_node R = Some N ->
  rb_delete r (refs_by_desc P) = Some t1 -> rb_delete r (refs_by_node P) = Some t2 ->
  binder_delete_ref r s = Some (s', x) ->
  let g := ref_unlinked r (ref_shape_of R) (proc_shape_of P) (node_shape_of N) t1 t2 (graph_of s) in
  graph_of s' = g \/ node_freed (ref_node R) g (graph_of s').
Proof.
  intros Hg HR HP HN Ht1 Ht2 H. unfold binder_delete_ref in H. inv_run. simplify_eq.
  match goal with H : when _ _ _ = Some (?s1, _), Hd : binder_dec_node _ false true _ = Some (?s2, _),
    Hm : match ref_death R with _ => _ end _ = Some (?s3, _) |- _ =>
    rename H into Hw, Hd into Hdec, Hm into Hdeath; rename s1 into sa, s2 into sb, s3 into sc end.
  same_run Hdeath.
  assert (graph_of sa = graph_of (set_procs (<[ref_proc R := set_refs_by_node t2 (set_refs_by_desc t1 P)]> (procs s)) s)) as Ha.
  { apply when_run in Hw as [[_ Hw]|[_ ->]]; [|done]. apply bind_run in Hw as (sd & ? & Hw & Hskip). inv_run.
    destruct (dec_node_graph _ _ _ _ _ _ Hw) as [Hsd|Hf]; [done|exfalso].
    eapply node_not_freed in Hf; [|cbn; by apply lookup_shape].
    destruct (go_ref_node _ Hg r _ (lookup_shape _ _ _ _ HR)) as (N' & HN' & Hin). cbn in HN'.
    rewrite lookup_fmap, HN in HN'. injection HN' as <-. cbn in Hf, Hin. rewrite Hf in Hin.
    by apply not_elem_of_nil in Hin. }
  match goal with H : nodes sa !! ref_node R = Some ?Na |- _ => rename H into HNa; rename Na into Nb end.
  set (g := ref_unlinked _ _ _ _ _ _ _).
  assert (graph_of (set_nodes (<[ref_node R := set_node_refs (list_del r (node_refs Nb)) Nb]> (nodes sa)) sa)
          = with_refs (g_refs (graph_of s)) g) as Hh.
  { unfold graph_of in Ha. injection Ha as Ha1 Ha2 Ha3 Ha4 Ha5. cbn in *.
    assert (node_shape_of Nb = node_shape_of N) as Hsh.
    { apply (lookup_shape node_shape_of) in HNa. rewrite Ha3, lookup_fmap, HN in HNa. change (Some (node_shape_of N) = Some (node_shape_of Nb)) in HNa. congruence. }
    injection Hsh as Hp1 Hp2 Hp3 Hp4 Hp5 Hp6. unfold graph_of, with_refs, g, ref_unlinked. cbn.
    rewrite fmap_insert, Ha1, Ha2, Ha3, Ha4, Ha5, fmap_insert. unfold node_shape_of at 1. cbn. by rewrite Hp1, Hp2, Hp3, Hp4, Hp5, Hp6. }
  assert (graph_of (set_refs (delete r (refs sc)) sc) = with_refs (delete r (g_refs (graph_of sc))) (graph_of sc)) as Hf.
  { unfold graph_of, with_refs. cbn. by rewrite fmap_delete. }
  rewrite Hf, Hdeath. destruct (dec_node_graph _ _ _ _ _ _ Hdec) as [->|Hfr]; rewrite Hh in *; [by left|right].
  assert (g_refs (graph_of sb) = g_refs (graph_of s)) as -> by (by destruct Hfr).
  exact (node_freed_refs _ _ _ (delete r (g_refs (graph_of s))) Hfr).
Qed.

Lemma keeps_delete_ref r : keeps (binder_delete_ref r).
Proof.
  intros s s' x Hg H. pose proof H as H'. unfold binder_delete_ref in H'.
  apply bind_run in H' as (? & R & HR & H'). inv_run. simplify_eq.
  match goal with HP : procs s !! ref_proc R = Some ?P |- _ => rename HP into HP', P into P' end.
  destruct (go_ref_node _ Hg r _ (lookup_shape _ _ _ _ HR)) as (N' & HN' & _). cbn in HN'.
  rewrite lookup_fmap in HN'. destruct (nodes s !! ref_node R) as [N|] eqn:HN; [|done].
  edestruct (delete_ref_graph r R P' N) as [->|Hf]; try done.
  - eapply (graph_del_ref _ Hg (ref_proc R) (proc_shape_of P') r (ref_shape_of R)); cbn; eauto with graph.
  - eapply node_freed_ok; [done|].
    eapply (graph_del_ref _ Hg (ref_proc R) (proc_shape_of P') r (ref_shape_of R)); cbn; eauto with graph.
Qed.
#[export] Hint Resolve keeps_delete_ref : graph.

Lemma keeps_dec_ref r strong : keeps (binder_dec_ref r strong).
Proof. unfold binder_dec_ref, drop_ref. keeps_auto. Qed.
#[export] Hint Resolve keeps_dec_ref : graph.

(** * What the operations on references do

    In a consistent state the operations on nodes and references have a result,
    and it is the one they are meant to have. *)

(** ** Evaluation *)

Lemma bind_eval {A B} (m : M A) (f : A -> M B) s s1 x : m s = Some (s1, x) -> (m ≫= f) s = f x s1.
Proof. unfold mbind, M_bind. by intros ->. Qed.
Lemma the_proc_eval p P s : procs s !! p = Some P -> the_proc p s = Some (s, P).
Proof. unfold the_proc. by intros ->. Qed.
Lemma the_thread_eval p P s : threads s !! p = Some P -> the_thread p s = Some (s, P).
Proof. unfold the_thread. by intros ->. Qed.
Lemma the_node_eval p P s : nodes s !! p = Some P -> the_node p s = Some (s, P).
Proof. unfold the_node. by intros ->. Qed.
Lemma the_ref_eval p P s : refs s !! p = Some P -> the_ref p s = Some (s, P).
Proof. unfold the_ref. by intros ->. Qed.
Lemma the_death_eval p P s : deaths s !! p = Some P -> the_death p s = Some (s, P).
Proof. unfold the_death. by intros ->. Qed.
Lemma the_transaction_eval p P s : transactions s !! p = Some P -> the_transaction p s = Some (s, P).
Proof. unfold the_transaction. by intros ->. Qed.
Lemma lift_eval {A} (o : option A) x s : o = Some x -> lift o s = Some (s, x).
Proof. by intros ->. Qed.
Lemma mod_proc_eval p P f s : procs s !! p = Some P -> mod_proc p f s = Some (set_procs (<[p := f P]> (procs s)) s, tt).
Proof. unfold mod_proc. by intros ->. Qed.
Lemma mod_thread_eval p P f s :
  threads s !! p = Some P -> mod_thread p f s = Some (set_threads (<[p := f P]> (threads s)) s, tt).
Proof. unfold mod_thread. by intros ->. Qed.
Lemma mod_node_eval p P f s : nodes s !! p = Some P -> mod_node p f s = Some (set_nodes (<[p := f P]> (nodes s)) s, tt).
Proof. unfold mod_node. by intros ->. Qed.
Lemma mod_ref_eval p P f s : refs s !! p = Some P -> mod_ref p f s = Some (set_refs (<[p := f P]> (refs s)) s, tt).
Proof. unfold mod_ref. by intros ->. Qed.
Lemma mod_transaction_eval p P f s :
  transactions s !! p = Some P -> mod_transaction p f s = Some (set_transactions (<[p := f P]> (transactions s)) s, tt).
Proof. unfold mod_transaction. by intros ->. Qed.

(** [kzalloc] has a result: nothing, or an address that is not in use. *)
Lemma kzalloc_eval s :
  exists l o, kzalloc s = Some (set_supply l s, o) /\ (forall a, o = Some a -> in_use s a = false).
Proof.
  destruct (kzalloc s) as [[s' o]|] eqn:Hk; [|unfold kzalloc in Hk; by destruct (supply s)].
  apply kzalloc_run in Hk as [(l & ->) Ha]. exists l, o. split; [done|]. intros a Ho. by apply Ha.
Qed.

Section refs.
Context (s : binder).
Hypothesis (Hg : graph_ok (graph_of s)).

Lemma ref_shape_inv r R : g_refs (graph_of s) !! r = Some R -> exists R', refs s !! r = Some R' /\ R = ref_shape_of R'.
Proof. cbn. rewrite lookup_fmap. destruct (refs s !! r); [|done]. intros [= <-]. eauto. Qed.
Lemma node_shape_inv n N : g_nodes (graph_of s) !! n = Some N -> exists N', nodes s !! n = Some N' /\ N = node_shape_of N'.
Proof. cbn. rewrite lookup_fmap. destruct (nodes s !! n); [|done]. intros [= <-]. eauto. Qed.

Lemma proc_index p P : procs s !! p = Some P -> proc_ok (graph_of s) p (proc_shape_of P).
Proof. intros HP. apply (go_proc _ Hg). by apply lookup_shape. Qed.

(** ** Lookups *)

Lemma get_ref_spec p P desc :
  procs s !! p = Some P ->
  exists o, binder_get_ref p desc s = Some (s, o) /\
    match o with
    | Some r => exists R, refs s !! r = Some R /\ ref_proc R = p /\ ref_desc R = desc
    | None => forall r R, refs s !! r = Some R -> ref_proc R = p -> ref_desc R <> desc
    end.
Proof.
  intros HP. unfold binder_get_ref. rewrite (bind_eval _ _ _ _ _ (the_proc_eval _ _ _ HP)).
  rewrite (bind_eval _ _ _ s s) by done.
  destruct (indexed_descend _ _ _ _ _ (desc_cmp s desc) desc (po_desc _ _ _ (proc_index _ _ HP)))
    as [(r & R & c & l & r' & ctx & Hd & HR & [= Fr] & Kr)|(ctx & Hd & Hne)].
  - intros y R Hy _. by apply desc_cmp_shape.
  - rewrite (bind_eval _ _ _ _ _ (lift_eval _ _ _ Hd)). eexists. split; [done|]. cbn.
    destruct (ref_shape_inv _ _ HR) as (R' & HR' & ->). eauto.
  - rewrite (bind_eval _ _ _ _ _ (lift_eval _ _ _ Hd)). eexists. split; [done|]. cbn.
    intros r R HR Fr. apply (Hne r (ref_shape_of R)); [by apply lookup_shape|by rewrite <- Fr].
Qed.

Lemma get_node_spec p P ptr :
  procs s !! p = Some P ->
  exists o, binder_get_node p ptr s = Some (s, o) /\
    match o with
    | Some n => exists N, nodes s !! n = Some N /\ node_proc N = Some p /\ node_ptr N = ptr
    | None => forall n N, nodes s !! n = Some N -> node_proc N = Some p -> node_ptr N <> ptr
    end.
Proof.
  intros HP. unfold binder_get_node. rewrite (bind_eval _ _ _ _ _ (the_proc_eval _ _ _ HP)).
  rewrite (bind_eval _ _ _ s s) by done.
  destruct (indexed_descend _ _ _ _ _ (node_cmp s ptr) ptr (po_nodes _ _ _ (proc_index _ _ HP)))
    as [(n & N & c & l & r' & ctx & Hd & HN & Fn & Kn)|(ctx & Hd & Hne)].
  - intros y N Hy _. by apply node_cmp_shape.
  - rewrite (bind_eval _ _ _ _ _ (lift_eval _ _ _ Hd)). eexists. split; [done|]. cbn.
    destruct (node_shape_inv _ _ HN) as (N' & HN' & ->). eauto.
  - rewrite (bind_eval _ _ _ _ _ (lift_eval _ _ _ Hd)). eexists. split; [done|]. cbn.
    intros n N HN Fn. apply (Hne n (node_shape_of N)); [by apply lookup_shape|done].
Qed.

(** ** The first free descriptor *)

Definition desc_used (p d : Z) : Prop := exists r R, refs s !! r = Some R /\ ref_proc R = p /\ ref_desc R = d.

(** The loop on references with increasing descriptors, of which at most one
    is in front of where it starts. *)
Lemma desc_loop_spec : forall rs desc,
  (forall r, r ∈ rs -> exists R, refs s !! r = Some R /\ 0 <= ref_desc R < 2 ^ 32 - 1) ->
  StronglySorted (fun x y => key_in rs_desc (g_refs (graph_of s)) x < key_in rs_desc (g_refs (graph_of s)) y) rs ->
  (forall r R, r ∈ rs -> refs s !! r = Some R -> desc <= ref_desc R \/ ref_desc R + 1 = desc) ->
  exists d, desc_loop s rs desc = Some d /\ desc <= d /\
    (forall r R, r ∈ rs -> refs s !! r = Some R -> ref_desc R <> d) /\
    (forall d', desc <= d' < d -> exists r R, r ∈ rs /\ refs s !! r = Some R /\ ref_desc R = d').
Proof.
  induction rs as [|r rs IH]; intros desc Hin Hs H; cbn [desc_loop].
  { exists desc. split_and!; [done|done| |lia]. by intros r R ?%not_elem_of_nil. }
  destruct (Hin r) as (R & HR & Hd); [left|]. rewrite HR. cbn [mbind option_bind].
  apply StronglySorted_cons in Hs as [Hf Hs].
  assert (forall y Y, y ∈ rs -> refs s !! y = Some Y -> ref_desc R < ref_desc Y) as Hlater.
  { intros y Y Hy HY. rewrite Forall_forall in Hf. specialize (Hf y Hy). unfold key_in in Hf. cbn in Hf.
    by rewrite !lookup_fmap, HR, HY in Hf. }
  specialize (H r R (list_elem_of_here _ _) HR) as Hr.
  destruct (Z.ltb_spec desc (ref_desc R)) as [Hlt|Hge].
  - exists desc. split_and!; [done|done| |lia]. intros y Y [->|Hy]%elem_of_cons HY; [simplify_eq; lia|].
    specialize (Hlater y Y Hy HY). lia.
  - rewrite u32_small by lia. destruct (IH (ref_desc R + 1)) as (d & Hl & Hle & Hne & Hall).
    + intros y Hy. apply Hin. by right.
    + done.
    + intros y Y Hy HY. specialize (Hlater y Y Hy HY). lia.
    + exists d. split_and!; [done|lia| |].
      * intros y Y [->|Hy]%elem_of_cons HY; [simplify_eq; lia|]. by apply (Hne y).
      * intros d' Hd'. destruct (Z.le_gt_cases (ref_desc R + 1) d').
        -- destruct (Hall d') as (y & Y & Hy & ?); [lia|]. exists y, Y. split; [by right|done].
        -- exists r, R. split; [left|]. split; [done|]. lia.
Qed.

(** The descriptors of a process are small enough to be counted on. *)
Definition descs_ok (p : Z) : Prop :=
  forall r R, refs s !! r = Some R -> ref_proc R = p -> 0 <= ref_desc R < 2 ^ 32 - 1.

(** The lowest descriptor of [p], from 0 on for the context manager and from 1
    on for others, that is free. *)
Definition first_desc (n : Z) : Z := if bool_decide (context_mgr_node s = Some n) then 0 else 1.
Definition lowest_desc (p n d : Z) : Prop :=
  first_desc n <= d /\ ~ desc_used p d /\ (forall d', first_desc n <= d' < d -> desc_used p d').

Lemma empty_index {A} (k : A -> Z) f m p t : indexed k f m p E -> indexed (A := A) k f m p t -> t = E.
Proof.
  intros (_ & _ & H1) (_ & _ & H2). destruct t as [|c l x r]; [done|].
  exfalso. apply (not_elem_of_nil x). apply H1, H2. cbn. rewrite elem_of_app, elem_of_cons. auto.
Qed.

Lemma first_free p P n :
  procs s !! p = Some P -> descs_ok p ->
  exists d, desc_loop s (walk (length (inorder (refs_by_desc P))) (rb_first (refs_by_desc P))) (first_desc n) = Some d /\
    lowest_desc p n d.
Proof.
  intros HP Hd. destruct (index_walk _ _ _ (po_desc _ _ _ (proc_index p P HP))) as (rs & Hw & Hs & Hm).
  cbn in Hw. rewrite Hw. clear Hw.
  assert (forall r, r ∈ rs <-> exists R, refs s !! r = Some R /\ ref_proc R = p) as Hm'.
  { intros r. rewrite Hm. split.
    - intros (R & HR & [= Fr]). destruct (ref_shape_inv _ _ HR) as (R' & HR' & ->). eauto.
    - intros (R & HR & Fr). exists (ref_shape_of R). split; [by apply lookup_shape|cbn; congruence]. }
  destruct (desc_loop_spec rs (first_desc n)) as (d & Hl & Hle & Hne & Hall).
  - intros r (R & HR & Fr)%Hm'. eauto.
  - exact Hs.
  - intros r R (R' & HR' & Fr)%Hm' HR. rewrite HR in HR'. injection HR' as <-.
    specialize (Hd r R HR Fr). unfold first_desc. case_if; lia.
  - exists d. split; [done|]. split_and!; [done|..].
    + intros (r & R & HR & Fr & He). apply (Hne r R); [|done|done]. apply Hm'. eauto.
    + intros d' Hd'. destruct (Hall d' Hd') as (r & R & Hr & HR & He). apply Hm' in Hr as (R' & HR' & Fr).
      rewrite HR in HR'. injection HR' as <-. exists r, R. auto.
Qed.

(** a process has one reference to a node, under the lowest descriptor that
    was free.  In a consistent state [binder_get_ref_for_node] always has a
    result: the reference that the process has already; otherwise nothing, when
    there is no memory; otherwise a new reference that is on the list of the
    node, with the lowest free descriptor, 0 being kept for the context
    manager's node, and without counts. *)
Theorem get_ref_for_node_correct p P n N :
  procs s !! p = Some P -> nodes s !! n = Some N -> descs_ok p ->
  exists s' o, binder_get_ref_for_node p n s = Some (s', o) /\
    ((exists r R, o = Some r /\ s' = s /\ refs s !! r = Some R /\ ref_proc R = p /\ ref_node R = n) \/
     ((forall r R, refs s !! r = Some R -> ref_proc R = p -> ref_node R <> n) /\
      ((o = None /\ exists l, s' = set_supply l s) \/
       (exists r d i, o = Some r /\ refs s !! r = None /\ lowest_desc p n d /\
          refs s' = <[r := BinderRef i p n d 0 0 None]> (refs s) /\
          nodes s' = <[n := set_node_refs (r :: node_refs N) N]> (nodes s))))).
Proof.
  intros HP HN Hd. unfold binder_get_ref_for_node. rewrite (bind_eval _ _ _ _ _ (the_proc_eval _ _ _ HP)).
  rewrite (bind_eval _ _ _ s s) by done. pose proof (proc_index p P HP) as HI.
  destruct (indexed_descend _ _ _ _ _ (ref_node_cmp s n) n (po_node _ _ _ HI))
    as [(r & R & c & l & r' & ctx & Hdd & HR & [= Fr] & Kr)|(ctx & Hdd & Hne)].
  { intros y R Hy _. by apply ref_node_cmp_shape. }
  { rewrite (bind_eval _ _ _ _ _ (lift_eval _ _ _ Hdd)). destruct (ref_shape_inv _ _ HR) as (R' & HR' & ->).
    exists s, (Some r). split; [done|]. left. exists r, R'. auto. }
  rewrite (bind_eval _ _ _ _ _ (lift_eval _ _ _ Hdd)). cbv beta iota.
  assert (forall r R, refs s !! r = Some R -> ref_proc R = p -> ref_node R <> n) as Hno.
  { intros r R HR Fr. apply (Hne r (ref_shape_of R)); [by apply lookup_shape|by rewrite <- Fr]. }
  destruct (kzalloc_eval s) as (l & o & Hk & Ho). rewrite (bind_eval _ _ _ _ _ Hk).
  destruct o as [r|]; [|eexists _, _; split; [done|]; right; eauto 10].
  destruct (not_in_use s r (Ho r eq_refl)) as (_ & _ & _ & Hr & _).
  destruct (first_free p P n HP Hd) as (d & Hl & Hlow).
  destruct (indexed_insert rs_node (fun R => Some (rs_proc R)) (g_refs (graph_of s)) p (refs_by_node P) (ref_node_cmp s n)
    r (RefShape p n d) ctx) as (t1 & Ht1 & _); [apply HI|by apply lookup_shape_none|done| |done|].
  { intros y R Hy _. by apply ref_node_cmp_shape. }
  destruct (indexed_insert_by rs_desc (fun R => Some (rs_proc R)) (g_refs (graph_of s)) p (refs_by_desc P) (desc_cmp s d)
    r (RefShape p n d)) as (t2 & Ht2 & _); [apply HI|by apply lookup_shape_none|done|..].
  { intros y R Hy _. by apply desc_cmp_shape. }
  { intros y R Hy [= Fy]. destruct (ref_shape_inv _ _ Hy) as (R' & HR' & ->). cbn. intros He.
    apply (proj1 (proj2 Hlow)). exists y, R'. auto. }
  rewrite (bind_eval _ _ _ _ _ (eq_refl : next_id _ = Some (_, _))).
  rewrite (bind_eval _ _ _ _ _ (lift_eval _ _ _ Ht1)), (bind_eval _ _ _ _ _ (lift_eval _ _ _ Hl)).
  rewrite (bind_eval _ _ _ (set_last_id (s32 (last_id s + 1)) (set_supply l s)) tt).
  2:{ destruct (refs_by_desc P) eqn:HE; [|done]. destruct ctx; [done|]. exfalso.
      pose proof (po_desc _ _ _ HI) as I3. cbn in I3. rewrite HE in I3. pose proof (po_node _ _ _ HI) as I4.
      cbn in Hdd, I4. eapply empty_index in I4; [by rewrite I4 in Hdd|].
      apply indexed_empty. intros y R Hy Fy. by apply (indexed_nothing _ _ _ _ I3 y R). }
  rewrite (bind_eval _ _ _ _ _ (lift_eval _ _ _ Ht2)). erewrite bind_eval by (apply mod_proc_eval; exact HP).
  erewrite bind_eval by reflexivity. erewrite bind_eval by (apply mod_node_eval; exact HN).
  eexists _, _. split; [done|]. right. split; [done|]. right. exists r, d, (s32 (last_id s + 1)). auto 10.
Qed.
End refs.
