(* ===== verification/BinderTransaction.v ===== *)
(** * Transactions of binder (drivers/staging/android/binder.c)

    A transaction is copied into a buffer of the target process.  The objects in
    it, which its offsets point to, are rewritten in place: a node of the sender
    becomes a reference of the target, a reference to a node of the target
    becomes that node, any other reference becomes one of the target to the same
    node, and a file descriptor is opened in the target.  A transaction that
    waits for its reply is on the stack of the thread that sent it and, once
    delivered, on that of the thread that works on it. *)

From stdpp Require Import base numbers list gmap.
From S2P Require Import Prelude RbTree RbKeyed BinderAlloc BinderProtocol BinderCore BinderRefs.

Open Scope Z_scope.

(** ** Priorities *)

Definition can_nice (c : task) (n : Z) : bool := (u32 (20 - n) <=? rlim_nice c) || cap_sys_nice c.
Definition set_user_nice (n : Z) (c : task) : task :=
  if (n <? -20) || (19 <? n) then c
  else Task (pid c) (tgid c) (euid c) n (rlim_nice c) (cap_sys_nice c).
Definition binder_set_nice (n : Z) : M unit :=
  modify (fun s =>
    let c := current s in
    set_current (set_user_nice (if can_nice c n then n else s32 (20 - rlim_nice c)) c) s).

(** ** File descriptors of another process *)

Fixpoint find_next_zero_bit (fuel : nat) (l : gset Z) (fd : Z) : Z :=
  match fuel with
  | O => fd
  | S fuel' => if decide (fd ∈ l) then find_next_zero_bit fuel' l (fd + 1) else fd
  end.

Definition task_get_unused_fd_flags (p : Z) : M Z :=
  P ← the_proc p;
  w ← gets env;
  match proc_files P with
  | None => mret (- ESRCH)
  | Some f =>
      let fd := find_next_zero_bit (S (size (open_fds f))) (open_fds f) (next_fd f) in
      if rlim_nofile w <=? fd then mret (- EMFILE)
      else if expand_files w fd <? 0 then mret (expand_files w fd)
      else
        mod_proc p (set_proc_files (Some (FdTable (delete fd (fds f)) ({[fd]} ∪ open_fds f) (fd + 1))));;
        mret fd
  end.

Definition task_fd_install (p fd file : Z) : M unit :=
  P ← the_proc p;
  match proc_files P with
  | None => skip
  | Some f =>
      bug_on (bool_decide (is_Some (fds f !! fd)));;
      mod_proc p (set_proc_files (Some (FdTable (<[fd := file]> (fds f)) (open_fds f) (next_fd f))))
  end.

Definition task_close_fd (p fd : Z) : M Z :=
  P ← the_proc p;
  match proc_files P with
  | None => mret (- ESRCH)
  | Some f =>
      match fds f !! fd with
      | None => mret (- EBADF)
      | Some _ =>
          mod_proc p (set_proc_files (Some (FdTable (delete fd (fds f)) (open_fds f ∖ {[fd]})
                                              (if fd <? next_fd f then fd else next_fd f))));;
          mret 0
      end
  end.

(** ** Replies that fail *)

Definition free_transaction (t : Z) : M unit := modify (fun s => set_transactions (delete t (transactions s)) s).
Definition the_complete (w : Z) : M unit := fun s => if decide (w ∈ completes s) then Some (s, tt) else None.
Definition free_complete (w : Z) : M unit := modify (fun s => set_completes (completes s ∖ {[w]}) s).

Definition binder_pop_transaction (target_thread : option Z) (t : Z) : M unit :=
  match target_thread with
  | Some th =>
      TH ← the_thread th;
      bug_on (negb (bool_decide (transaction_stack TH = Some t)));;
      X ← the_transaction t;
      bug_on (negb (bool_decide (t_from X = Some th)));;
      mod_thread th (set_transaction_stack (from_parent X));;
      mod_transaction t (set_t_from None)
  | None => skip
  end;;
  mod_transaction t (set_need_reply false);;
  X ← the_transaction t;
  match t_buffer X with
  | Some b => mod_buffer b (set_transaction None)
  | None => skip
  end;;
  free_transaction t.

(** The error of a thread makes room for another one, if that is possible. *)
Definition shift_error (TH : binder_thread) : binder_thread :=
  if negb (return_error TH =? BR_OK) && (return_error2 TH =? BR_OK)
  then set_return_error BR_OK (set_return_error2 (return_error TH) TH) else TH.

(** Every round frees a transaction, so there are no more rounds than
    transactions. *)
Fixpoint failed_reply_loop (fuel : nat) (t error_code : Z) : M unit :=
  match fuel with
  | O => bug
  | S fuel' =>
      X ← the_transaction t;
      match t_from X with
      | Some th =>
          mod_thread th shift_error;;
          TH ← the_thread th;
          if return_error TH =? BR_OK then
            binder_pop_transaction (Some th) t;;
            mod_thread th (set_return_error error_code)
          else skip
      | None =>
          binder_pop_transaction None t;;
          match from_parent X with
          | None => skip
          | Some next => failed_reply_loop fuel' next error_code
          end
      end
  end.

Definition one_way (flags : Z) : bool := negb (Z.land flags TF_ONE_WAY =? 0).

Definition binder_send_failed_reply (t error_code : Z) : M unit :=
  X ← the_transaction t;
  bug_on (one_way (t_flags X));;
  n ← gets (fun s => size (transactions s));
  failed_reply_loop n t error_code.

(** ** The contents of a buffer *)

(** A word of a buffer; its page has to be there. *)
Definition the_word (p a : Z) : M Z :=
  P ← the_proc p;
  bug_on (negb (mapped (alloc P) a));;
  mret (read_word (memory P) a).
Definition put_word (p a v : Z) : M unit :=
  P ← the_proc p;
  bug_on (negb (mapped (alloc P) a));;
  mod_proc p (set_memory (write_word (memory P) a v)).

(** [copy_from_user] into a buffer; whether all of it could be read. *)
Definition copy_in (p a from n : Z) : M bool :=
  P ← the_proc p;
  m ← gets user;
  let '(bs, rest) := copy_from_user m from n in
  mod_proc p (set_memory (write_bytes (memory P) a bs));;
  mret (rest =? 0).

(** [struct flat_binder_object] at an address. *)
Definition fp_type (fp : Z) : Z := fp.
Definition fp_flags (fp : Z) : Z := fp + 4.
Definition fp_binder (fp : Z) : Z := fp + 8.
Definition fp_cookie (fp : Z) : Z := fp + 12.

Definition bad_offset (ds off : Z) : bool :=
  (u32 (ds - sizeof_flat_object) <? off) || (ds <? sizeof_flat_object) || negb (Z.land off 3 =? 0).

Definition offsets_start (b ds : Z) : Z := buffer_data b + ALIGN ds.

(** One object that is released with its buffer. *)
Definition release_object (p b offp : Z) (failed : bool) : M unit :=
  h ← the_buffer (p, b);
  off ← the_word p offp;
  if bad_offset (data_size h) off then skip
  else
    let fp := buffer_data b + off in
    ty ← the_word p (fp_type fp);
    v ← the_word p (fp_binder fp);
    if (ty =? BINDER_TYPE_BINDER) || (ty =? BINDER_TYPE_WEAK_BINDER) then
      o ← binder_get_node p v;
      match o with
      | None => skip
      | Some n => binder_dec_node n (ty =? BINDER_TYPE_BINDER) false;; skip
      end
    else if (ty =? BINDER_TYPE_HANDLE) || (ty =? BINDER_TYPE_WEAK_HANDLE) then
      o ← binder_get_ref p v;
      match o with
      | None => skip
      | Some r => binder_dec_ref r (ty =? BINDER_TYPE_HANDLE);; skip
      end
    else if ty =? BINDER_TYPE_FD then
      when failed (task_close_fd p v;; skip)
    else skip.

Fixpoint release_loop (fuel : nat) (p b offp off_end : Z) (failed : bool) : M unit :=
  if off_end <=? offp then skip else
  match fuel with
  | O => bug
  | S fuel' => release_object p b offp failed;; release_loop fuel' p b (offp + 4) off_end failed
  end.

Definition binder_transaction_buffer_release (p b : Z) (failed_at : option Z) : M unit :=
  h ← the_buffer (p, b);
  match target_node h with
  | Some n => binder_dec_node n true false;; skip
  | None => skip
  end;;
  let offp := offsets_start b (data_size h) in
  let off_end := match failed_at with Some a => a | None => offp + offsets_size h end in
  release_loop (Z.to_nat ((off_end - offp) / 4 + 1)) p b offp off_end (bool_decide (is_Some failed_at)).

(** ** Sending *)

(** Where a transaction goes. *)
Record target := Target {
  tg_proc : Z;
  tg_thread : option Z;
  tg_node : option Z;
  in_reply_to : option Z }.

(** A failure: what the sender is told, and the transaction that was to be
    replied to. *)
Definition failure : Type := Z * option Z.

Definition reply_target (th : Z) : M (failure + target) :=
  TH ← the_thread th;
  match transaction_stack TH with
  | None => mret (inl (BR_FAILED_REPLY, None))
  | Some t =>
      X ← the_transaction t;
      binder_set_nice (saved_priority X);;
      if negb (bool_decide (to_thread X = Some th)) then mret (inl (BR_FAILED_REPLY, None))
      else
        mod_thread th (set_transaction_stack (to_parent X));;
        match t_from X with
        | None => mret (inl (BR_DEAD_REPLY, Some t))
        | Some th' =>
            TH' ← the_thread th';
            if negb (bool_decide (transaction_stack TH' = Some t)) then mret (inl (BR_FAILED_REPLY, None))
            else mret (inr (Target (thread_proc TH') (Some th') None (Some t)))
        end
  end.

(** The loop over the stack: the outermost sender in the target process. *)
Fixpoint stack_loop (fuel : nat) (tmp : option Z) (p : Z) (found : option Z) : M (option Z) :=
  match tmp with
  | None => mret found
  | Some t =>
      match fuel with
      | O => bug
      | S fuel' =>
          X ← the_transaction t;
          found' ← match t_from X with
                   | Some th =>
                       TH ← the_thread th;
                       mret (if thread_proc TH =? p then Some th else found)
                   | None => mret found
                   end;
          stack_loop fuel' (from_parent X) p found'
      end
  end.

Definition call_target (p th : Z) (tr : binder_transaction_data) : M (failure + target) :=
  o ← (if tr_target tr =? 0 then
         mgr ← gets context_mgr_node;
         mret (match mgr with Some n => inr n | None => inl BR_DEAD_REPLY end)
       else
         o ← binder_get_ref p (tr_target tr);
         match o with
         | None => mret (inl BR_FAILED_REPLY)
         | Some r => R ← the_ref r; mret (inr (ref_node R))
         end : M (Z + Z));
  match o with
  | inl e => mret (inl (e, None))
  | inr n =>
      N ← the_node n;
      match node_proc N with
      | None => mret (inl (BR_DEAD_REPLY, None))
      | Some tp =>
          TH ← the_thread th;
          match transaction_stack TH with
          | Some tmp =>
              if one_way (tr_flags tr) then mret (inr (Target tp None (Some n) None))
              else
                X ← the_transaction tmp;
                if negb (bool_decide (to_thread X = Some th)) then mret (inl (BR_FAILED_REPLY, None))
                else
                  count ← gets (fun s => size (transactions s));
                  found ← stack_loop count (Some tmp) tp None;
                  mret (inr (Target tp found (Some n) None))
          | None => mret (inr (Target tp None (Some n) None))
          end
      end
  end.

(** One object of a transaction; the error, if there is one. *)
Definition translate_binder (p th tp fp ty : Z) : M (option Z) :=
  v ← the_word tp (fp_binder fp);
  cookie ← the_word tp (fp_cookie fp);
  flags ← the_word tp (fp_flags fp);
  o ← binder_get_node p v;
  o ← match o with
      | Some n => mret (Some n)
      | None =>
          o ← binder_new_node p v cookie;
          match o with
          | Some n =>
              mod_node n (fun N =>
                set_accept_fds (negb (Z.land flags FLAT_BINDER_FLAG_ACCEPTS_FDS =? 0))
                  (set_min_priority (Z.land flags FLAT_BINDER_FLAG_PRIORITY_MASK) N));;
              mret (Some n)
          | None => mret None
          end
      end;
  match o with
  | None => mret (Some BR_FAILED_REPLY)
  | Some n =>
      N ← the_node n;
      if negb (cookie =? node_cookie N) then w ← gets env; mret (Some (uninit w))
      else
        o ← binder_get_ref_for_node tp n;
        match o with
        | None => mret (Some BR_FAILED_REPLY)
        | Some r =>
            R ← the_ref r;
            let strong := ty =? BINDER_TYPE_BINDER in
            put_word tp (fp_type fp) (if strong then BINDER_TYPE_HANDLE else BINDER_TYPE_WEAK_HANDLE);;
            put_word tp (fp_binder fp) (ref_desc R);;
            binder_inc_ref r strong (Some (ThreadTodo th));;
            mret None
        end
  end.

Definition translate_handle (p tp fp ty : Z) : M (option Z) :=
  v ← the_word tp (fp_binder fp);
  let strong := ty =? BINDER_TYPE_HANDLE in
  o ← binder_get_ref p v;
  match o with
  | None => mret (Some BR_FAILED_REPLY)
  | Some r =>
      R ← the_ref r;
      N ← the_node (ref_node R);
      if bool_decide (node_proc N = Some tp) then
        put_word tp (fp_type fp) (if strong then BINDER_TYPE_BINDER else BINDER_TYPE_WEAK_BINDER);;
        put_word tp (fp_binder fp) (node_ptr N);;
        put_word tp (fp_cookie fp) (node_cookie N);;
        binder_inc_node (ref_node R) strong false None;;
        mret None
      else
        o ← binder_get_ref_for_node tp (ref_node R);
        match o with
        | None => mret (Some BR_FAILED_REPLY)
        | Some r' =>
            R' ← the_ref r';
            put_word tp (fp_binder fp) (ref_desc R');;
            binder_inc_ref r' strong None;;
            mret None
        end
  end.

(** Whether the receiver takes file descriptors. *)
Definition fds_allowed (tg : target) : M bool :=
  match in_reply_to tg with
  | Some t => X ← the_transaction t; mret (negb (Z.land (t_flags X) TF_ACCEPT_FDS =? 0))
  | None =>
      match tg_node tg with
      | Some n => N ← the_node n; mret (accept_fds N)
      | None => bug
      end
  end.

Definition translate_fd (tg : target) (fp : Z) : M (option Z) :=
  v ← the_word (tg_proc tg) (fp_binder fp);
  ok ← fds_allowed tg;
  if negb ok then mret (Some BR_FAILED_REPLY)
  else
    w ← gets env;
    match fget w v with
    | None => mret (Some BR_FAILED_REPLY)
    | Some file =>
        fd ← task_get_unused_fd_flags (tg_proc tg);
        if fd <? 0 then mret (Some BR_FAILED_REPLY)
        else
          task_fd_install (tg_proc tg) fd file;;
          put_word (tg_proc tg) (fp_binder fp) fd;;
          mret None
    end.

Definition translate_object (p th : Z) (tg : target) (b offp : Z) : M (option Z) :=
  h ← the_buffer (tg_proc tg, b);
  off ← the_word (tg_proc tg) offp;
  if bad_offset (data_size h) off then mret (Some BR_FAILED_REPLY)
  else
    let fp := buffer_data b + off in
    ty ← the_word (tg_proc tg) (fp_type fp);
    if (ty =? BINDER_TYPE_BINDER) || (ty =? BINDER_TYPE_WEAK_BINDER) then
      translate_binder p th (tg_proc tg) fp ty
    else if (ty =? BINDER_TYPE_HANDLE) || (ty =? BINDER_TYPE_WEAK_HANDLE) then
      translate_handle p (tg_proc tg) fp ty
    else if ty =? BINDER_TYPE_FD then translate_fd tg fp
    else mret (Some BR_FAILED_REPLY).

(** The loop over the offsets; on an error, what it is and where it was. *)
Fixpoint translate_loop (fuel : nat) (p th : Z) (tg : target) (b offp off_end : Z) : M (option (Z * Z)) :=
  if off_end <=? offp then mret None else
  match fuel with
  | O => bug
  | S fuel' =>
      e ← translate_object p th tg b offp;
      match e with
      | Some e => mret (Some (e, offp))
      | None => translate_loop fuel' p th tg b (offp + 4) off_end
      end
  end.

(** The contents of the buffer: copied and translated. *)
Definition fill_buffer (p th : Z) (tr : binder_transaction_data) (tg : target) (b : Z) : M (option (Z * Z)) :=
  let offp := offsets_start b (tr_data_size tr) in
  ok ← copy_in (tg_proc tg) (buffer_data b) (tr_buffer tr) (tr_data_size tr);
  if negb ok then mret (Some (BR_FAILED_REPLY, offp))
  else
    ok ← copy_in (tg_proc tg) offp (tr_offsets tr) (tr_offsets_size tr);
    if negb ok then mret (Some (BR_FAILED_REPLY, offp))
    else if negb (Z.land (tr_offsets_size tr) 3 =? 0) then mret (Some (BR_FAILED_REPLY, offp))
    else translate_loop (Z.to_nat (tr_offsets_size tr / 4 + 1)) p th tg b offp (offp + tr_offsets_size tr).

(** A finished transaction is queued. *)
Definition commit (th : Z) (tg : target) (reply : bool) (t b tcomplete : Z) : M unit :=
  let target_list := match tg_thread tg with Some th' => ThreadTodo th' | None => ProcTodo (tg_proc tg) end in
  X ← the_transaction t;
  h ← the_buffer (tg_proc tg, b);
  target_list ←
    (if reply then
       bug_on (async_transaction h);;
       match in_reply_to tg with
       | Some t' => binder_pop_transaction (tg_thread tg) t'
       | None => bug
       end;;
       mret target_list
     else if negb (one_way (t_flags X)) then
       bug_on (async_transaction h);;
       TH ← the_thread th;
       mod_transaction t (fun X => set_from_parent (transaction_stack TH) (set_need_reply true X));;
       mod_thread th (set_transaction_stack (Some t));;
       mret target_list
     else
       match tg_node tg with
       | None => bug
       | Some n =>
           bug_on (negb (async_transaction h));;
           N ← the_node n;
           if has_async_transaction N then mret (AsyncTodo n)
           else mod_node n (set_has_async_transaction true);; mret target_list
       end);
  add_tail (WTransaction t) target_list;;
  add_tail (WTransactionComplete tcomplete) (ThreadTodo th).

(** [binder_free_buf] on the buffers of a process. *)
Definition free_buf (p b : Z) : M unit :=
  P ← the_proc p;
  w ← gets env;
  a ← lift (binder_free_buf (page w) (alloc P) b);
  mod_proc p (set_alloc a).

Definition alloc_buf (p ds os : Z) (async : bool) : M (option Z) :=
  P ← the_proc p;
  w ← gets env;
  '(a, o) ← lift (binder_alloc_buf (page w) (alloc P) ds os async);
  mod_proc p (set_alloc a);;
  mret o.

(** The transaction is made and queued; otherwise nothing is left of it and the
    result is the error. *)
Definition send (p th : Z) (tr : binder_transaction_data) (reply : bool) (tg : target) : M (option Z) :=
  match tg_thread tg with Some th' => the_thread th';; skip | None => skip end;;
  the_proc (tg_proc tg);;
  o ← kzalloc;
  match o with
  | None => mret (Some BR_FAILED_REPLY)
  | Some t =>
      modify (fun s => set_transactions
        (<[t := BinderTransaction 0 None None None None None false None 0 0 0 0 0]> (transactions s)) s);;
      o ← kzalloc;
      match o with
      | None => free_transaction t;; mret (Some BR_FAILED_REPLY)
      | Some tcomplete =>
          modify (fun s => set_completes ({[tcomplete]} ∪ completes s) s);;
          i ← next_id;
          w ← gets env;
          c ← gets current;
          o ← alloc_buf (tg_proc tg) (tr_data_size tr) (tr_offsets_size tr)
                (negb reply && one_way (tr_flags tr));
          mod_transaction t (fun _ =>
            BinderTransaction i (if negb reply && negb (one_way (tr_flags tr)) then Some th else None) None
              (Some (tg_proc tg)) (tg_thread tg) None false
              (match o with Some b => Some (tg_proc tg, b) | None => None end)
              (tr_code tr) (tr_flags tr) (nice c) 0 (tsk_euid w p));;
          match o with
          | None => free_complete tcomplete;; free_transaction t;; mret (Some BR_FAILED_REPLY)
          | Some b =>
              mod_buffer (tg_proc tg, b) (set_delivery i (Some t) (tg_node tg));;
              match tg_node tg with
              | Some n => binder_inc_node n true false None;; skip
              | None => skip
              end;;
              e ← fill_buffer p th tr tg b;
              match e with
              | None => commit th tg reply t b tcomplete;; mret None
              | Some (e, offp) =>
                  binder_transaction_buffer_release (tg_proc tg) b (Some offp);;
                  mod_buffer (tg_proc tg, b) (set_transaction None);;
                  free_buf (tg_proc tg) b;;
                  free_complete tcomplete;;
                  free_transaction t;;
                  mret (Some e)
              end
          end
      end
  end.

(** What is left to do when a transaction failed. *)
Definition transaction_failed (th : Z) (f : failure) : M unit :=
  TH ← the_thread th;
  bug_on (negb (return_error TH =? BR_OK));;
  match f.2 with
  | Some t =>
      mod_thread th (set_return_error BR_TRANSACTION_COMPLETE);;
      binder_send_failed_reply t f.1
  | None => mod_thread th (set_return_error f.1)
  end.

Definition binder_transaction (p th : Z) (tr : binder_transaction_data) (reply : bool) : M unit :=
  o ← (if reply then reply_target th else call_target p th tr);
  match o with
  | inl f => transaction_failed th f
  | inr tg =>
      e ← send p th tr reply tg;
      match e with
      | None => skip
      | Some e => transaction_failed th (e, in_reply_to tg)
      end
  end.
