(* ===== verification/BinderThread.v ===== *)
(** * Threads of binder and their commands (drivers/staging/android/binder.c)

    A thread hands the driver a buffer of commands and a buffer for what the
    driver has to tell it ([BINDER_WRITE_READ]).  Reading may sleep: the
    operation then ends with [ReadSleep] and [binder_thread_read_resume]
    continues it once the thread was woken up.  The counters of commands and the
    log of transactions, which only debugfs shows, are left out, and so are
    wake-ups. *)

From stdpp Require Import base numbers list gmap.
From S2P Require Import Prelude RbTree RbKeyed BinderAlloc BinderProtocol BinderCore BinderRefs BinderTransaction.

Open Scope Z_scope.

Definition LOOPER_REGISTERED : Z := 1.
Definition LOOPER_ENTERED : Z := 2.
Definition LOOPER_EXITED : Z := 4.
Definition LOOPER_INVALID : Z := 8.
Definition LOOPER_WAITING : Z := 16.
Definition LOOPER_NEED_RETURN : Z := 32.

Definition has_bits (x bits : Z) : bool := negb (Z.land x bits =? 0).
Definition add_looper (bits : Z) (th : binder_thread) : binder_thread := set_looper (Z.lor (looper th) bits) th.
Definition clear_looper (bits : Z) (th : binder_thread) : binder_thread := set_looper (Z.ldiff (looper th) bits) th.
Definition is_looper (th : binder_thread) : bool := has_bits (looper th) (Z.lor LOOPER_REGISTERED LOOPER_ENTERED).

(** ** User memory *)

(** [get_user] of a word: [None] is a fault. *)
Definition get_user (a : Z) : M (option Z) :=
  m ← gets user;
  let '(bs, rest) := copy_from_user m a 4 in
  mret (if rest =? 0 then Some (le_Z bs) else None).

(** [copy_to_user]: whether all of it could be written. *)
Definition copy_out (a : Z) (bs : list Z) : M bool :=
  m ← gets user;
  let '(m', rest) := copy_to_user m a bs in
  modify (set_user m');;
  mret (rest =? 0).
Definition put_user (a v : Z) : M bool := copy_out a (le_bytes 4 v).

(** ** Commands

    A command ends the write with an error, [inl], or goes on behind its
    arguments, [inr]. *)

Definition outcome : Type := Z + Z.
Definition fault : M outcome := mret (inl (- EFAULT)).

(** [BC_INCREFS], [BC_ACQUIRE], [BC_RELEASE], [BC_DECREFS].  The reference to
    the context manager is used without a test for null. *)
Definition refs_command (p cmd ptr : Z) : M outcome :=
  o ← get_user ptr;
  match o with
  | None => fault
  | Some target =>
      mgr ← gets context_mgr_node;
      o ← match mgr with
          | Some n =>
              if (target =? 0) && ((cmd =? BC_INCREFS) || (cmd =? BC_ACQUIRE))
              then o ← binder_get_ref_for_node p n;
                   match o with Some r => mret (Some r) | None => bug end
              else binder_get_ref p target
          | None => binder_get_ref p target
          end;
      match o with
      | None => skip
      | Some r =>
          (if cmd =? BC_INCREFS then binder_inc_ref r false None
           else if cmd =? BC_ACQUIRE then binder_inc_ref r true None
           else if cmd =? BC_RELEASE then binder_dec_ref r true
           else binder_dec_ref r false);;
          skip
      end;;
      mret (inr (ptr + 4))
  end.

(** [BC_INCREFS_DONE], [BC_ACQUIRE_DONE]. *)
Definition refs_done_command (p cmd ptr : Z) : M outcome :=
  o1 ← get_user ptr;
  match o1 with
  | None => fault
  | Some node_ptr =>
      o2 ← get_user (ptr + 4);
      match o2 with
      | None => fault
      | Some cookie =>
          o ← binder_get_node p node_ptr;
          match o with
          | None => skip
          | Some n =>
              N ← the_node n;
              if negb (cookie =? node_cookie N) then skip
              else if cmd =? BC_ACQUIRE_DONE then
                when (pending_strong_ref N)
                  (mod_node n (set_pending_strong_ref false);; binder_dec_node n true false;; skip)
              else
                when (pending_weak_ref N)
                  (mod_node n (set_pending_weak_ref false);; binder_dec_node n false false;; skip)
          end;;
          mret (inr (ptr + 8))
      end
  end.

(** The next transaction without reply of the node of a buffer, if there is
    one, is handed to the thread that frees the buffer. *)
Definition next_async (th n : Z) : M unit :=
  N ← the_node n;
  bug_on (negb (has_async_transaction N));;
  s ← gets id;
  match todo s (AsyncTodo n) with
  | [] => mod_node n (set_has_async_transaction false)
  | w :: _ => unlink w;; add_tail w (ThreadTodo th)
  end.

Definition free_buffer_command (p th ptr : Z) : M outcome :=
  o ← get_user ptr;
  match o with
  | None => fault
  | Some data_ptr =>
      P ← the_proc p;
      o ← lift (binder_buffer_lookup (alloc P) data_ptr);
      match o with
      | None => skip
      | Some b =>
          h ← the_buffer (p, b);
          when (allow_user_free h) (
            match bb_transaction h with
            | Some t => mod_transaction t (set_t_buffer None);; mod_buffer (p, b) (set_transaction None)
            | None => skip
            end;;
            match target_node h with
            | Some n => when (async_transaction h) (next_async th n)
            | None => skip
            end;;
            binder_transaction_buffer_release p b None;;
            free_buf p b)
      end;;
      mret (inr (ptr + 4))
  end.

Definition words (bs : list Z) (i : nat) : Z := le_Z (take 4 (drop (4 * i) bs)).

(** [BC_TRANSACTION], [BC_REPLY]. *)
Definition transaction_command (p th cmd ptr : Z) : M outcome :=
  m ← gets user;
  let '(bs, rest) := copy_from_user m ptr sizeof_transaction_data in
  if negb (rest =? 0) then fault
  else
    binder_transaction p th
      (TransactionData (words bs 0) (words bs 1) (words bs 2) (words bs 3) (words bs 4) (words bs 5)
         (words bs 6) (words bs 7) (words bs 8) (words bs 9)) (cmd =? BC_REPLY);;
    mret (inr (ptr + sizeof_transaction_data)).

Definition register_looper (p th : Z) : M unit :=
  TH ← the_thread th;
  P ← the_proc p;
  (if has_bits (looper TH) LOOPER_ENTERED then mod_thread th (add_looper LOOPER_INVALID)
   else if requested_threads P =? 0 then mod_thread th (add_looper LOOPER_INVALID)
   else mod_proc p (fun P => set_requested_threads_started (s32 (requested_threads_started P + 1))
                               (set_requested_threads (s32 (requested_threads P - 1)) P)));;
  mod_thread th (add_looper LOOPER_REGISTERED).

Definition enter_looper (th : Z) : M unit :=
  TH ← the_thread th;
  when (has_bits (looper TH) LOOPER_REGISTERED) (mod_thread th (add_looper LOOPER_INVALID));;
  mod_thread th (add_looper LOOPER_ENTERED).

(** Work for the thread itself if it is a looper, and for the process
    otherwise. *)
Definition queue_death (p th d : Z) : M unit :=
  TH ← the_thread th;
  add_tail (WDeath d) (if is_looper TH then ThreadTodo th else ProcTodo p).

Definition request_death (p th r cookie : Z) : M unit :=
  R ← the_ref r;
  match ref_death R with
  | Some _ => skip
  | None =>
      o ← kzalloc;
      match o with
      | None => mod_thread th (set_return_error BR_ERROR)
      | Some d =>
          modify (fun s => set_deaths (<[d := BinderRefDeath NoDeathWork cookie]> (deaths s)) s);;
          mod_ref r (set_ref_death (Some d));;
          N ← the_node (ref_node R);
          when (negb (bool_decide (is_Some (node_proc N))))
            (mod_death d (set_death_type BINDER_WORK_DEAD_BINDER);; queue_death p th d)
      end
  end.

Definition clear_death (p th r cookie : Z) : M unit :=
  R ← the_ref r;
  match ref_death R with
  | None => skip
  | Some d =>
      D ← the_death d;
      when (death_cookie D =? cookie) (
        mod_ref r (set_ref_death None);;
        s ← gets id;
        if unlinked s (WDeath d) then
          mod_death d (set_death_type BINDER_WORK_CLEAR_DEATH_NOTIFICATION);; queue_death p th d
        else
          bug_on (match death_type D with BINDER_WORK_DEAD_BINDER => false | _ => true end);;
          mod_death d (set_death_type BINDER_WORK_DEAD_BINDER_AND_CLEAR))
  end.

(** [BC_REQUEST_DEATH_NOTIFICATION], [BC_CLEAR_DEATH_NOTIFICATION]. *)
Definition death_command (p th cmd ptr : Z) : M outcome :=
  o1 ← get_user ptr;
  match o1 with
  | None => fault
  | Some target =>
      o2 ← get_user (ptr + 4);
      match o2 with
      | None => fault
      | Some cookie =>
          o ← binder_get_ref p target;
          match o with
          | None => skip
          | Some r =>
              if cmd =? BC_REQUEST_DEATH_NOTIFICATION then request_death p th r cookie
              else clear_death p th r cookie
          end;;
          mret (inr (ptr + 8))
      end
  end.

(** The first notification that was delivered with this cookie. *)
Fixpoint find_death (ws : list work) (cookie : Z) : M (option Z) :=
  match ws with
  | [] => mret None
  | WDeath d :: ws' =>
      D ← the_death d;
      if death_cookie D =? cookie then mret (Some d) else find_death ws' cookie
  | _ :: _ => bug
  end.

Definition dead_binder_done_command (p th ptr : Z) : M outcome :=
  o ← get_user ptr;
  match o with
  | None => fault
  | Some cookie =>
      s ← gets id;
      o ← find_death (todo s (DeliveredDeath p)) cookie;
      match o with
      | None => skip
      | Some d =>
          D ← the_death d;
          unlink (WDeath d);;
          match death_type D with
          | BINDER_WORK_DEAD_BINDER_AND_CLEAR =>
              mod_death d (set_death_type BINDER_WORK_CLEAR_DEATH_NOTIFICATION);; queue_death p th d
          | _ => skip
          end
      end;;
      mret (inr (ptr + 4))
  end.

Definition write_command (p th cmd ptr : Z) : M outcome :=
  if (cmd =? BC_INCREFS) || (cmd =? BC_ACQUIRE) || (cmd =? BC_RELEASE) || (cmd =? BC_DECREFS)
  then refs_command p cmd ptr
  else if (cmd =? BC_INCREFS_DONE) || (cmd =? BC_ACQUIRE_DONE) then refs_done_command p cmd ptr
  else if (cmd =? BC_ATTEMPT_ACQUIRE) || (cmd =? BC_ACQUIRE_RESULT) then mret (inl (- EINVAL))
  else if cmd =? BC_FREE_BUFFER then free_buffer_command p th ptr
  else if (cmd =? BC_TRANSACTION) || (cmd =? BC_REPLY) then transaction_command p th cmd ptr
  else if cmd =? BC_REGISTER_LOOPER then register_looper p th;; mret (inr ptr)
  else if cmd =? BC_ENTER_LOOPER then enter_looper th;; mret (inr ptr)
  else if cmd =? BC_EXIT_LOOPER then mod_thread th (add_looper LOOPER_EXITED);; mret (inr ptr)
  else if (cmd =? BC_REQUEST_DEATH_NOTIFICATION) || (cmd =? BC_CLEAR_DEATH_NOTIFICATION)
  then death_command p th cmd ptr
  else if cmd =? BC_DEAD_BINDER_DONE then dead_binder_done_command p th ptr
  else mret (inl (- EINVAL)).

(** The result and the number of bytes consumed.  A command is at least four
    bytes long. *)
Fixpoint write_loop (fuel : nat) (p th buffer ptr end_ consumed : Z) : M (Z * Z) :=
  TH ← the_thread th;
  if (ptr <? end_) && (return_error TH =? BR_OK) then
    match fuel with
    | O => bug
    | S fuel' =>
        o ← get_user ptr;
        match o with
        | None => mret (- EFAULT, consumed)
        | Some cmd =>
            r ← write_command p th cmd (ptr + 4);
            match r with
            | inl e => mret (e, consumed)
            | inr ptr' => write_loop fuel' p th buffer ptr' end_ (s32 (ptr' - buffer))
            end
        end
    end
  else mret (0, consumed).

(** The sums of pointers wrap.  Those further on do not: a pointer is advanced
    over what was just read or written only. *)
Definition binder_thread_write (p th buffer size consumed : Z) : M (Z * Z) :=
  let ptr := u32 (buffer + consumed) in
  let end_ := u32 (buffer + size) in
  write_loop (Z.to_nat ((end_ - ptr) / 4 + 1)) p th buffer ptr end_ consumed.

(** ** Reading *)

Definition binder_has_proc_work (s : binder) (p : Z) (TH : binder_thread) : bool :=
  negb (bool_decide (todo s (ProcTodo p) = [])) || has_bits (looper TH) LOOPER_NEED_RETURN.
Definition binder_has_thread_work (s : binder) (th : Z) (TH : binder_thread) : bool :=
  negb (bool_decide (todo s (ThreadTodo th) = [])) || negb (return_error TH =? BR_OK) ||
  has_bits (looper TH) LOOPER_NEED_RETURN.

Inductive read_result :=
  | ReadReturn (ret consumed : Z)
  | ReadSleep (ptr : Z) (wait_for_proc_work : bool).

(** The label [done], with the end of what was written. *)
Definition read_done (p th buffer ptr : Z) : M read_result :=
  P ← the_proc p;
  TH ← the_thread th;
  if (requested_threads P + ready_threads P =? 0) && (requested_threads_started P <? max_threads P) &&
     is_looper TH
  then
    mod_proc p (fun P => set_requested_threads (s32 (requested_threads P + 1)) P);;
    ok ← put_user buffer BR_SPAWN_LOOPER;
    mret (ReadReturn (if ok : bool then 0 else - EFAULT) (s32 (ptr - buffer)))
  else mret (ReadReturn 0 (s32 (ptr - buffer))).

(** The label [retry], up to where the thread sleeps. *)
Definition read_retry (p th buffer ptr end_ consumed : Z) : M read_result :=
  TH ← the_thread th;
  s ← gets id;
  let wait_for_proc_work :=
    bool_decide (transaction_stack TH = None) && bool_decide (todo s (ThreadTodo th) = []) in
  if negb (return_error TH =? BR_OK) && (ptr <? end_) then
    '(ok, stop, ptr1) ← (if negb (return_error2 TH =? BR_OK) then
        ok ← put_user ptr (return_error2 TH);
        if negb ok then mret (false, true, ptr)
        else if ptr + 4 =? end_ then mret (true, true, ptr + 4)
        else mod_thread th (set_return_error2 BR_OK);; mret (true, false, ptr + 4)
      else mret (true, false, ptr));
    if negb ok then mret (ReadReturn (- EFAULT) consumed)
    else if stop : bool then read_done p th buffer ptr1
    else
      ok ← put_user ptr1 (return_error TH);
      if negb ok then mret (ReadReturn (- EFAULT) consumed)
      else mod_thread th (set_return_error BR_OK);; read_done p th buffer (ptr1 + 4)
  else
    mod_thread th (add_looper LOOPER_WAITING);;
    when wait_for_proc_work (
      mod_proc p (fun P => set_ready_threads (s32 (ready_threads P + 1)) P);;
      P ← the_proc p;
      binder_set_nice (default_priority P));;
    mret (ReadSleep ptr wait_for_proc_work).

(** What the wait returns at once: with [O_NONBLOCK] it does not sleep, and
    without it sleeps unless there is work. *)
Definition read_ready (p th : Z) (wait_for_proc_work : bool) : M bool :=
  TH ← the_thread th;
  s ← gets id;
  mret (if wait_for_proc_work then binder_has_proc_work s p TH else binder_has_thread_work s th TH).

(** *** One item of work *)

(** What became of an item: the loop goes on, ends, or a fault ends the read. *)
Inductive item_result := ItemNext (ptr : Z) | ItemDone (ptr : Z) | ItemFault.

Definition node_command (N : binder_node) : Z * binder_node :=
  let strong := negb (internal_strong_refs N =? 0) || negb (local_strong_refs N =? 0) in
  let weak := negb (bool_decide (node_refs N = [])) || negb (local_weak_refs N =? 0) || strong in
  if weak && negb (has_weak_ref N) then
    (BR_INCREFS, set_local_weak_refs (incr (local_weak_refs N))
                   (set_pending_weak_ref true (set_has_weak_ref true N)))
  else if strong && negb (has_strong_ref N) then
    (BR_ACQUIRE, set_local_strong_refs (incr (local_strong_refs N))
                   (set_pending_strong_ref true (set_has_strong_ref true N)))
  else if negb strong && has_strong_ref N then (BR_RELEASE, set_has_strong_ref false N)
  else if negb weak && has_weak_ref N then (BR_DECREFS, set_has_weak_ref false N)
  else (BR_NOOP, N).

(** Three words, one after the other. *)
Definition put_user3 (ptr a b c : Z) : M bool :=
  ok ← put_user ptr a;
  if negb ok then mret false else
  ok ← put_user (ptr + 4) b;
  if negb ok then mret false else put_user (ptr + 8) c.

Definition read_node (p n ptr : Z) : M item_result :=
  N ← the_node n;
  let '(cmd, N') := node_command N in
  if negb (cmd =? BR_NOOP) then
    mod_node n (fun _ => N');;
    ok ← put_user3 ptr cmd (node_ptr N) (node_cookie N);
    mret (if ok : bool then ItemNext (ptr + 12) else ItemFault)
  else
    unlink (WNode n);;
    when (bool_decide (node_refs N = []) && (local_weak_refs N =? 0) &&
          (internal_strong_refs N =? 0) && (local_strong_refs N =? 0))
      (P ← the_proc p;
       t ← lift (rb_delete n (proc_nodes P));
       mod_proc p (set_proc_nodes t);;
       free_node n);;
    mret (ItemNext ptr).

Definition read_complete (w ptr : Z) : M item_result :=
  the_complete w;;
  ok ← put_user ptr BR_TRANSACTION_COMPLETE;
  if negb ok then mret ItemFault
  else
    unlink (WTransactionComplete w);;
    free_complete w;;
    mret (ItemNext (ptr + 4)).

Definition read_death (p d ptr : Z) : M item_result :=
  D ← the_death d;
  let clear := match death_type D with BINDER_WORK_CLEAR_DEATH_NOTIFICATION => true | _ => false end in
  ok ← put_user ptr (if clear then BR_CLEAR_DEATH_NOTIFICATION_DONE else BR_DEAD_BINDER);
  if negb ok then mret ItemFault
  else
    ok ← put_user (ptr + 4) (death_cookie D);
    if negb ok then mret ItemFault
    else if clear then
      unlink (WDeath d);; free_death d;; mret (ItemNext (ptr + 8))
    else
      unlink (WDeath d);; add_head (WDeath d) (DeliveredDeath p);; mret (ItemDone (ptr + 8)).

(** The priority a thread works on a transaction with. *)
Definition adopt_priority (X : binder_transaction_t) (N : binder_node) : M Z :=
  c ← gets current;
  (if (t_priority X <? min_priority N) && negb (one_way (t_flags X)) then binder_set_nice (t_priority X)
   else when (negb (one_way (t_flags X)) || (min_priority N <? nice c)) (binder_set_nice (min_priority N)));;
  mret (nice c).

Definition sender_pid (X : binder_transaction_t) : M Z :=
  match t_from X with
  | Some th => TH ← the_thread th; P ← the_proc (thread_proc TH); mret (proc_pid P)
  | None => mret 0
  end.

Definition read_transaction (p th t ptr : Z) : M item_result :=
  X ← the_transaction t;
  match t_buffer X with
  | None => bug
  | Some pb =>
      h ← the_buffer pb;
      '(cmd, ptr_, cookie) ← match target_node h with
        | Some n =>
            N ← the_node n;
            saved ← adopt_priority X N;
            mod_transaction t (set_saved_priority saved);;
            mret (BR_TRANSACTION, node_ptr N, node_cookie N)
        | None => mret (BR_REPLY, 0, 0)
        end;
      sender ← sender_pid X;
      P ← the_proc p;
      let data := u32 (buffer_data pb.2 + user_buffer_offset (alloc P)) in
      ok ← put_user ptr cmd;
      if negb ok then mret ItemFault
      else
        ok ← copy_out (ptr + 4)
          (le_bytes 4 ptr_ ++ le_bytes 4 cookie ++ le_bytes 4 (t_code X) ++ le_bytes 4 (t_flags X) ++
           le_bytes 4 sender ++ le_bytes 4 (sender_euid X) ++ le_bytes 4 (data_size h) ++
           le_bytes 4 (offsets_size h) ++ le_bytes 4 data ++ le_bytes 4 (u32 (data + ALIGN (data_size h))));
        if negb ok then mret ItemFault
        else
          unlink (WTransaction t);;
          mod_buffer pb (set_allow_user_free true);;
          (if (cmd =? BR_TRANSACTION) && negb (one_way (t_flags X)) then
             TH ← the_thread th;
             mod_transaction t (fun X => set_to_thread (Some th) (set_to_parent (transaction_stack TH) X));;
             mod_thread th (set_transaction_stack (Some t))
           else
             mod_buffer pb (set_transaction None);;
             free_transaction t);;
          mret (ItemDone (ptr + 4 + sizeof_transaction_data))
  end.

Definition read_item (p th : Z) (w : work) (ptr : Z) : M item_result :=
  match w with
  | WTransaction t => read_transaction p th t ptr
  | WTransactionComplete w => read_complete w ptr
  | WNode n => read_node p n ptr
  | WDeath d => read_death p d ptr
  end.

(** The loop.  Every item writes at least one word or goes off its list.  The room
    is compared as an unsigned number: where the first word was written behind a
    buffer of less than four bytes, it is nearly 2^32. *)
Fixpoint read_loop (fuel : nat) (p th buffer ptr end_ consumed : Z) (wait_for_proc_work : bool) : M read_result :=
  match fuel with
  | O => bug
  | S fuel' =>
      s ← gets id;
      match (match todo s (ThreadTodo th) with
             | w :: _ => Some w
             | [] => if wait_for_proc_work then head (todo s (ProcTodo p)) else None
             end) with
      | None =>
          TH ← the_thread th;
          if (s32 (ptr - buffer) =? 4) && negb (has_bits (looper TH) LOOPER_NEED_RETURN)
          then read_retry p th buffer ptr end_ consumed
          else read_done p th buffer ptr
      | Some w =>
          if u32 (end_ - ptr) <? sizeof_transaction_data + 4 then read_done p th buffer ptr
          else
            r ← read_item p th w ptr;
            match r with
            | ItemNext ptr' => read_loop fuel' p th buffer ptr' end_ consumed wait_for_proc_work
            | ItemDone ptr' => read_done p th buffer ptr'
            | ItemFault => mret (ReadReturn (- EFAULT) consumed)
            end
      end
  end.

Definition binder_thread_read (p th buffer size consumed : Z) : M read_result :=
  let ptr := u32 (buffer + consumed) in
  let end_ := u32 (buffer + size) in
  if consumed =? 0 then
    ok ← put_user ptr BR_NOOP;
    if negb ok then mret (ReadReturn (- EFAULT) consumed)
    else read_retry p th buffer (ptr + 4) end_ consumed
  else read_retry p th buffer ptr end_ consumed.

(** After the wait, which ended with [ret]. *)
Definition binder_thread_read_resume (p th buffer size consumed ptr : Z) (wait_for_proc_work : bool) (ret : Z)
    : M read_result :=
  when wait_for_proc_work (mod_proc p (fun P => set_ready_threads (s32 (ready_threads P - 1)) P));;
  mod_thread th (clear_looper LOOPER_WAITING);;
  if negb (ret =? 0) then mret (ReadReturn ret consumed)
  else
    s ← gets id;
    let end_ := u32 (buffer + size) in
    read_loop (Z.to_nat (u32 (end_ - ptr) / 4 + 2) + length (todo s (ThreadTodo th)) + length (todo s (ProcTodo p)))
      p th buffer ptr end_ consumed wait_for_proc_work.

(** ** Threads *)

(** Transactions that are not delivered any more. *)
Fixpoint release_work_loop (fuel : nat) (l : list_id) : M unit :=
  s ← gets id;
  match todo s l with
  | [] => skip
  | w :: _ =>
      match fuel with
      | O => bug
      | S fuel' =>
          unlink w;;
          match w with
          | WTransaction t =>
              X ← the_transaction t;
              match t_buffer X with
              | None => bug
              | Some pb =>
                  h ← the_buffer pb;
                  when (bool_decide (is_Some (target_node h)) && negb (one_way (t_flags X)))
                    (binder_send_failed_reply t BR_DEAD_REPLY)
              end
          | WTransactionComplete c => the_complete c;; free_complete c
          | _ => skip
          end;;
          release_work_loop fuel' l
      end
  end.
Definition binder_release_work (l : list_id) : M unit :=
  s ← gets id;
  release_work_loop (length (todo s l)) l.

Definition thread_cmp (s : binder) (q th : Z) : option comparison :=
  TH ← threads s !! th; Some (q ?= thread_pid TH).

Definition binder_get_thread (p : Z) : M (option Z) :=
  P ← the_proc p;
  s ← gets id;
  let q := pid (current s) in
  '(t, k) ← lift (rb_descend (thread_cmp s q) (proc_threads P) []);
  match t with
  | T _ _ th _ => mret (Some th)
  | E =>
      o ← kzalloc;
      match o with
      | None => mret None
      | Some th =>
          t' ← lift (rb_insert_color (rb_link_node th) k);
          mod_proc p (set_proc_threads t');;
          modify (fun s => set_threads
            (<[th := BinderThread p q LOOPER_NEED_RETURN None BR_OK BR_OK]> (threads s)) s);;
          init_list (ThreadTodo th);;
          mret (Some th)
      end
  end.

(** The transactions on the stack of a thread that goes lose it; the result
    counts them. *)
Fixpoint free_thread_loop (fuel : nat) (th : Z) (t : option Z) (count : Z) : M Z :=
  match t with
  | None => mret count
  | Some t =>
      match fuel with
      | O => bug
      | S fuel' =>
          X ← the_transaction t;
          if bool_decide (to_thread X = Some th) then
            match t_buffer X with Some b => mod_buffer b (set_transaction None) | None => skip end;;
            mod_transaction t (fun X => set_t_buffer None (set_to_thread None (set_to_proc None X)));;
            free_thread_loop fuel' th (to_parent X) (count + 1)
          else if bool_decide (t_from X = Some th) then
            mod_transaction t (set_t_from None);;
            free_thread_loop fuel' th (from_parent X) (count + 1)
          else bug
      end
  end.

Definition binder_free_thread (p th : Z) : M Z :=
  P ← the_proc p;
  tr ← lift (rb_delete th (proc_threads P));
  mod_proc p (set_proc_threads tr);;
  TH ← the_thread th;
  send_reply ← match transaction_stack TH with
    | Some t =>
        X ← the_transaction t;
        mret (if bool_decide (to_thread X = Some th) then Some t else None)
    | None => mret None
    end;
  n ← gets (fun s => size (transactions s));
  count ← free_thread_loop n th (transaction_stack TH) 0;
  match send_reply with
  | Some t => binder_send_failed_reply t BR_DEAD_REPLY
  | None => skip
  end;;
  binder_release_work (ThreadTodo th);;
  modify (fun s => set_threads (delete th (threads s)) s);;
  init_list (ThreadTodo th);;
  mret count.
