(* ===== verification/BinderDevice.v ===== *)
(** * The device /dev/binder (drivers/staging/android/binder.c)

    The file operations: open, mmap, ioctl, poll, flush and release, and the
    work that the last two leave to a work queue.  An ioctl that sleeps ends
    with [IoctlSleep] and is continued by [binder_ioctl_resume]. *)

From stdpp Require Import base numbers list gmap.
From S2P Require Import Prelude RbTree RbKeyed BinderAlloc BinderProtocol BinderCore BinderRefs BinderTransaction BinderThread.

Open Scope Z_scope.

(** ** ioctl *)

Record binder_write_read := WriteRead {
  write_size : Z;
  write_consumed : Z;
  write_buffer : Z;
  read_size : Z;
  read_consumed : Z;
  read_buffer : Z }.

Inductive ioctl_result :=
  | IoctlReturn (ret : Z)
  | IoctlSleep (th : Z) (bwr : binder_write_read) (ptr : Z) (wait_for_proc_work : bool).

Definition bwr_bytes (b : binder_write_read) : list Z :=
  le_bytes 4 (write_size b) ++ le_bytes 4 (write_consumed b) ++ le_bytes 4 (write_buffer b) ++
  le_bytes 4 (read_size b) ++ le_bytes 4 (read_consumed b) ++ le_bytes 4 (read_buffer b).

(** The label [err], with the thread if that is still there. *)
Definition ioctl_exit (th : option Z) (ret : Z) : M ioctl_result :=
  match th with
  | Some th => mod_thread th (clear_looper LOOPER_NEED_RETURN)
  | None => skip
  end;;
  mret (IoctlReturn ret).

(** After the read. *)
Definition write_read_finish (th ubuf : Z) (bwr : binder_write_read) (ret : Z) : M ioctl_result :=
  ok ← copy_out ubuf (bwr_bytes bwr);
  ioctl_exit (Some th) (if ok : bool then (if ret <? 0 then ret else 0) else - EFAULT).

Definition read_outcome (th ubuf : Z) (bwr : binder_write_read) (r : read_result) : M ioctl_result :=
  match r with
  | ReadReturn ret c =>
      write_read_finish th ubuf
        (WriteRead (write_size bwr) (write_consumed bwr) (write_buffer bwr) (read_size bwr) c (read_buffer bwr)) ret
  | ReadSleep ptr w => mret (IoctlSleep th bwr ptr w)
  end.

Definition ioctl_write_read (p th cmd ubuf : Z) : M ioctl_result :=
  if negb (IOC_SIZE cmd =? sizeof_write_read) then ioctl_exit (Some th) (- EINVAL)
  else
    m ← gets user;
    let '(bs, rest) := copy_from_user m ubuf sizeof_write_read in
    if negb (rest =? 0) then ioctl_exit (Some th) (- EFAULT)
    else
      let bwr := WriteRead (s32 (words bs 0)) (s32 (words bs 1)) (words bs 2) (s32 (words bs 3))
                   (s32 (words bs 4)) (words bs 5) in
      '(ret, bwr) ← (if 0 <? write_size bwr then
          '(ret, c) ← binder_thread_write p th (write_buffer bwr) (write_size bwr) (write_consumed bwr);
          mret (ret, WriteRead (write_size bwr) c (write_buffer bwr) (read_size bwr)
                       (if ret <? 0 then 0 else read_consumed bwr) (read_buffer bwr))
        else mret (0, bwr));
      if (ret <? 0) || negb (0 <? read_size bwr) then write_read_finish th ubuf bwr ret
      else
        r ← binder_thread_read p th (read_buffer bwr) (read_size bwr) (read_consumed bwr);
        read_outcome th ubuf bwr r.

Definition binder_ioctl_resume (p th ubuf : Z) (bwr : binder_write_read) (ptr : Z) (wait_for_proc_work : bool)
    (ret : Z) : M ioctl_result :=
  r ← binder_thread_read_resume p th (read_buffer bwr) (read_size bwr) (read_consumed bwr) ptr
        wait_for_proc_work ret;
  read_outcome th ubuf bwr r.

Definition set_context_mgr (p th : Z) : M ioctl_result :=
  s ← gets id;
  match context_mgr_node s with
  | Some _ => ioctl_exit (Some th) (- EBUSY)
  | None =>
      let uid := euid (current s) in
      if negb (context_mgr_uid s =? u32 (-1)) && negb (context_mgr_uid s =? uid)
      then ioctl_exit (Some th) (- EPERM)
      else
        modify (set_context_mgr_uid uid);;
        o ← binder_new_node p 0 0;
        modify (set_context_mgr_node o);;
        match o with
        | None => ioctl_exit (Some th) (- ENOMEM)
        | Some n =>
            mod_node n (fun N =>
              set_has_weak_ref true (set_has_strong_ref true
                (set_local_strong_refs (incr (local_strong_refs N))
                  (set_local_weak_refs (incr (local_weak_refs N)) N))));;
            ioctl_exit (Some th) 0
        end
  end.

Definition binder_ioctl (p cmd arg : Z) : M ioctl_result :=
  o ← binder_get_thread p;
  match o with
  | None => ioctl_exit None (- ENOMEM)
  | Some th =>
      if cmd =? BINDER_WRITE_READ then ioctl_write_read p th cmd arg
      else if cmd =? BINDER_SET_MAX_THREADS then
        m ← gets user;
        let '(bs, rest) := copy_from_user m arg 4 in
        mod_proc p (set_max_threads (s32 (le_Z bs)));;
        ioctl_exit (Some th) (if rest =? 0 then 0 else - EINVAL)
      else if cmd =? BINDER_SET_CONTEXT_MGR then set_context_mgr p th
      else if cmd =? BINDER_THREAD_EXIT then
        binder_free_thread p th;; ioctl_exit None 0
      else if cmd =? BINDER_VERSION then
        if negb (IOC_SIZE cmd =? sizeof_version) then ioctl_exit (Some th) (- EINVAL)
        else
          ok ← put_user arg BINDER_CURRENT_PROTOCOL_VERSION;
          ioctl_exit (Some th) (if ok : bool then 0 else - EINVAL)
      else ioctl_exit (Some th) (- EINVAL)
  end.

(** ** poll *)

(** Whether there is something to read.  The thread is used without a test for
    null. *)
Definition binder_poll (p : Z) : M bool :=
  o ← binder_get_thread p;
  match o with
  | None => bug
  | Some th =>
      TH ← the_thread th;
      s ← gets id;
      mret (if bool_decide (transaction_stack TH = None) && bool_decide (todo s (ThreadTodo th) = []) &&
               (return_error TH =? BR_OK)
            then binder_has_proc_work s p TH
            else binder_has_thread_work s th TH)
  end.

(** ** open and mmap *)

Definition binder_open : M (Z + Z) :=
  o ← kzalloc;
  match o with
  | None => mret (inl (- ENOMEM))
  | Some p =>
      c ← gets current;
      modify (fun s => set_procs
        (<[p := BinderProc E E E E (tgid c) None 0 unmapped ∅ 0 0 0 0 (nice c)]> (procs s)) s);;
      init_list (ProcTodo p);;
      init_list (DeliveredDeath p);;
      mret (inr p)
  end.

Definition device_mmap (p : Z) (v : vm_area) (area : option Z) (array : bool) : M Z :=
  P ← the_proc p;
  w ← gets env;
  '(a, _, ret) ← lift (binder_mmap (page w) (alloc P) v area array);
  mod_proc p (fun P => set_proc_files (if ret =? 0 then Some (files w) else proc_files P) (set_alloc a P));;
  mret ret.

(** ** Deferred work *)

Definition DEFERRED_PUT_FILES : Z := 1.
Definition DEFERRED_FLUSH : Z := 2.
Definition DEFERRED_RELEASE : Z := 4.

Definition binder_defer_work (p defer : Z) : M unit :=
  mod_proc p (fun P => set_deferred_work (Z.lor (deferred_work P) defer) P);;
  modify (fun s => if decide (p ∈ deferred_list s) then s else set_deferred_list (p :: deferred_list s) s).

Definition binder_vma_close (p : Z) : M unit :=
  mod_proc p (fun P =>
    let a := alloc P in
    set_alloc (BinderAlloc None (buffer a) (user_buffer_offset a) (buffers a) (headers a) (free_buffers a)
                 (allocated_buffers a) (free_async_space a) (pages a) (buffer_size a)) P);;
  binder_defer_work p DEFERRED_PUT_FILES.
Definition binder_flush (p : Z) : M Z := binder_defer_work p DEFERRED_FLUSH;; mret 0.
Definition binder_release (p : Z) : M Z := binder_defer_work p DEFERRED_RELEASE;; mret 0.

Fixpoint flush_threads (ths : list Z) : M unit :=
  match ths with
  | [] => skip
  | th :: ths' => mod_thread th (add_looper LOOPER_NEED_RETURN);; flush_threads ths'
  end.
Definition binder_deferred_flush (p : Z) : M unit :=
  P ← the_proc p;
  flush_threads (walk (length (inorder (proc_threads P))) (rb_first (proc_threads P))).

Definition first_of (t : tree Z) : option Z := z ← rb_first t; entry z.

Fixpoint release_threads (fuel : nat) (p : Z) : M unit :=
  P ← the_proc p;
  match first_of (proc_threads P) with
  | None => skip
  | Some th =>
      match fuel with
      | O => bug
      | S fuel' => binder_free_thread p th;; release_threads fuel' p
      end
  end.

(** The references to a node that dies: those that asked for it are told. *)
Fixpoint notify_deaths (rs : list Z) : M unit :=
  match rs with
  | [] => skip
  | r :: rs' =>
      R ← the_ref r;
      match ref_death R with
      | Some d =>
          s ← gets id;
          bug_on (negb (unlinked s (WDeath d)));;
          mod_death d (set_death_type BINDER_WORK_DEAD_BINDER);;
          add_tail (WDeath d) (ProcTodo (ref_proc R))
      | None => skip
      end;;
      notify_deaths rs'
  end.

Definition release_node (p n : Z) : M unit :=
  P ← the_proc p;
  t ← lift (rb_delete n (proc_nodes P));
  mod_proc p (set_proc_nodes t);;
  unlink (WNode n);;
  N ← the_node n;
  if bool_decide (node_refs N = []) then free_node n
  else
    mod_node n (fun N => set_local_weak_refs 0 (set_local_strong_refs 0 (set_node_proc None N)));;
    modify (fun s => set_dead_nodes (n :: dead_nodes s) s);;
    notify_deaths (node_refs N).

Fixpoint release_nodes (fuel : nat) (p : Z) : M unit :=
  P ← the_proc p;
  match first_of (proc_nodes P) with
  | None => skip
  | Some n =>
      match fuel with
      | O => bug
      | S fuel' => release_node p n;; release_nodes fuel' p
      end
  end.

Fixpoint release_refs (fuel : nat) (p : Z) : M unit :=
  P ← the_proc p;
  match first_of (refs_by_desc P) with
  | None => skip
  | Some r =>
      match fuel with
      | O => bug
      | S fuel' => binder_delete_ref r;; release_refs fuel' p
      end
  end.

Definition release_buffer (p b : Z) : M unit :=
  h ← the_buffer (p, b);
  match bb_transaction h with
  | Some t => mod_transaction t (set_t_buffer None);; mod_buffer (p, b) (set_transaction None)
  | None => skip
  end;;
  free_buf p b.

Fixpoint release_buffers (fuel : nat) (p : Z) : M unit :=
  P ← the_proc p;
  match first_of (allocated_buffers (alloc P)) with
  | None => skip
  | Some b =>
      match fuel with
      | O => bug
      | S fuel' => release_buffer p b;; release_buffers fuel' p
      end
  end.

(** The process goes, with its area and its page array. *)
Definition free_proc (p : Z) : M unit :=
  modify (fun s => set_procs (delete p (procs s)) s);;
  init_list (ProcTodo p);;
  init_list (DeliveredDeath p).

Definition binder_deferred_release (p : Z) : M unit :=
  P ← the_proc p;
  bug_on (bool_decide (is_Some (vma (alloc P))));;
  bug_on (bool_decide (is_Some (proc_files P)));;
  mgr ← gets context_mgr_node;
  match mgr with
  | Some n =>
      N ← the_node n;
      when (bool_decide (node_proc N = Some p)) (modify (set_context_mgr_node None))
  | None => skip
  end;;
  release_threads (length (inorder (proc_threads P))) p;;
  P ← the_proc p;
  release_nodes (length (inorder (proc_nodes P))) p;;
  P ← the_proc p;
  release_refs (length (inorder (refs_by_desc P))) p;;
  binder_release_work (ProcTodo p);;
  P ← the_proc p;
  release_buffers (length (inorder (allocated_buffers (alloc P)))) p;;
  free_proc p.

(** One round of the work function; whether there was something to do. *)
Definition binder_deferred_func_round : M bool :=
  l ← gets deferred_list;
  match l with
  | [] => mret false
  | p :: rest =>
      modify (set_deferred_list rest);;
      P ← the_proc p;
      let defer := deferred_work P in
      mod_proc p (set_deferred_work 0);;
      when (has_bits defer DEFERRED_PUT_FILES) (mod_proc p (set_proc_files None));;
      when (has_bits defer DEFERRED_FLUSH) (binder_deferred_flush p);;
      when (has_bits defer DEFERRED_RELEASE) (binder_deferred_release p);;
      mret true
  end.
