(* ===== verification/BinderInv.v ===== *)
(** * The object graph of binder stays consistent

    Every operation of the device keeps the graph of processes, threads, nodes
    and references consistent. *)

From stdpp Require Import base numbers list gmap relations.
From S2P Require Import Prelude RbTree RbKeyed RbIndex BinderAlloc BinderProtocol BinderCore BinderRefs BinderGraph BinderRun BinderRefsInv BinderTransaction BinderThread BinderDevice.

Open Scope Z_scope.

(** ** Transactions *)

Lemma same_set_nice n : same_graph (binder_set_nice n).
Proof. unfold binder_set_nice. same_auto. Qed.
Lemma same_get_unused_fd p : same_graph (task_get_unused_fd_flags p).
Proof. unfold task_get_unused_fd_flags. same_auto. Qed.
Lemma same_fd_install p fd file : same_graph (task_fd_install p fd file).
Proof. unfold task_fd_install. same_auto. Qed.
Lemma same_close_fd p fd : same_graph (task_close_fd p fd).
Proof. unfold task_close_fd. same_auto. Qed.
Lemma same_free_transaction t : same_graph (free_transaction t).
Proof. unfold free_transaction. same_auto. Qed.
Lemma same_the_complete t : same_graph (the_complete t).
Proof. intros s s' x. unfold the_complete. case_decide; [|done]. by intros [= <- _]. Qed.
Lemma same_free_complete t : same_graph (free_complete t).
Proof. unfold free_complete. same_auto. Qed.
#[export] Hint Resolve same_set_nice same_get_unused_fd same_fd_install same_close_fd same_free_transaction
  same_the_complete same_free_complete : graph.

Lemma same_pop_transaction th t : same_graph (binder_pop_transaction th t).
Proof. unfold binder_pop_transaction. same_auto. Qed.
Lemma same_shift_error th : same_graph (mod_thread th shift_error).
Proof. apply same_mod_thread. intros TH. unfold shift_error. by case_if. Qed.
#[export] Hint Resolve same_pop_transaction same_shift_error : graph.
Lemma same_failed_reply_loop fuel : forall t e, same_graph (failed_reply_loop fuel t e).
Proof.
  induction fuel as [|fuel IH]; intros t e; cbn [failed_reply_loop]; same_auto.
Qed.
#[export] Hint Resolve same_failed_reply_loop : graph.
Lemma same_send_failed_reply t e : same_graph (binder_send_failed_reply t e).
Proof. unfold binder_send_failed_reply. same_auto. Qed.
Lemma same_the_word p a : same_graph (the_word p a).
Proof. unfold the_word. same_auto. Qed.
Lemma same_put_word p a v : same_graph (put_word p a v).
Proof. unfold put_word. same_auto. Qed.
Lemma same_copy_in p a from n : same_graph (copy_in p a from n).
Proof. unfold copy_in. same_auto. Qed.
Lemma same_free_buf p b : same_graph (free_buf p b).
Proof. unfold free_buf. same_auto. Qed.
Lemma same_alloc_buf p ds os async : same_graph (alloc_buf p ds os async).
Proof. unfold alloc_buf. same_auto. Qed.
#[export] Hint Resolve same_send_failed_reply same_the_word same_put_word same_copy_in same_free_buf
  same_alloc_buf : graph.

Lemma keeps_release_object p b offp failed : keeps (release_object p b offp failed).
Proof. unfold release_object. keeps_auto. Qed.
#[export] Hint Resolve keeps_release_object : graph.
Lemma keeps_release_loop fuel p b : forall offp off_end failed, keeps (release_loop fuel p b offp off_end failed).
Proof. induction fuel as [|fuel IH]; intros offp off_end failed; cbn [release_loop]; keeps_auto. Qed.
#[export] Hint Resolve keeps_release_loop : graph.
Lemma keeps_buffer_release p b failed_at : keeps (binder_transaction_buffer_release p b failed_at).
Proof. unfold binder_transaction_buffer_release. keeps_auto. Qed.
#[export] Hint Resolve keeps_buffer_release : graph.

Lemma same_reply_target th : same_graph (reply_target th).
Proof. unfold reply_target. same_auto. Qed.
Lemma same_stack_loop fuel p : forall tmp found, same_graph (stack_loop fuel tmp p found).
Proof. induction fuel as [|fuel IH]; intros tmp found; cbn [stack_loop]; same_auto. Qed.
#[export] Hint Resolve same_reply_target same_stack_loop : graph.
Lemma same_call_target p th tr : same_graph (call_target p th tr).
Proof. unfold call_target. same_auto. Qed.
#[export] Hint Resolve same_call_target : graph.

Lemma read_word_range m a : 0 <= read_word m a < 2 ^ 32.
Proof. apply u32_range. Qed.
Lemma keeps_the_word {A} p a (f : Z -> M A) : (forall v, 0 <= v < 2 ^ 32 -> keeps (f v)) -> keeps (the_word p a ≫= f).
Proof.
  intros Hf s s' x Hg H. unfold the_word in H. inv_run.
  eapply (Hf _ (read_word_range _ a)); [exact Hg|]. by simplify_eq.
Qed.
Lemma keeps_translate_binder p th tp fp ty : keeps (translate_binder p th tp fp ty).
Proof. unfold translate_binder. apply keeps_the_word. intros v Hv. keeps_auto. Qed.
Lemma keeps_translate_handle p tp fp ty : keeps (translate_handle p tp fp ty).
Proof. unfold translate_handle. keeps_auto. Qed.
Lemma same_fds_allowed tg : same_graph (fds_allowed tg).
Proof. unfold fds_allowed. same_auto. Qed.
#[export] Hint Resolve keeps_translate_binder keeps_translate_handle same_fds_allowed : graph.
Lemma keeps_translate_fd tg fp : keeps (translate_fd tg fp).
Proof. unfold translate_fd. keeps_auto. Qed.
#[export] Hint Resolve keeps_translate_fd : graph.
Lemma keeps_translate_object p th tg b offp : keeps (translate_object p th tg b offp).
Proof. unfold translate_object. keeps_auto. Qed.
#[export] Hint Resolve keeps_translate_object : graph.
Lemma keeps_translate_loop fuel p th tg b : forall offp off_end, keeps (translate_loop fuel p th tg b offp off_end).
Proof. induction fuel as [|fuel IH]; intros offp off_end; cbn [translate_loop]; keeps_auto. Qed.
#[export] Hint Resolve keeps_translate_loop : graph.
Lemma keeps_fill_buffer p th tr tg b : keeps (fill_buffer p th tr tg b).
Proof. unfold fill_buffer. keeps_auto. Qed.
Lemma same_commit th tg reply t b tc : same_graph (commit th tg reply t b tc).
Proof. unfold commit. same_auto. Qed.
#[export] Hint Resolve keeps_fill_buffer same_commit : graph.
Lemma keeps_send p th tr reply tg : keeps (send p th tr reply tg).
Proof. unfold send. keeps_auto. Qed.
Lemma same_transaction_failed th f : same_graph (transaction_failed th f).
Proof. unfold transaction_failed. same_auto. Qed.
#[export] Hint Resolve keeps_send same_transaction_failed : graph.
Lemma keeps_transaction p th tr reply : keeps (binder_transaction p th tr reply).
Proof. unfold binder_transaction. keeps_auto. Qed.
#[export] Hint Resolve keeps_transaction : graph.

(** ** Threads *)

Lemma same_get_user a : same_graph (get_user a).
Proof. unfold get_user. same_auto. Qed.
Lemma same_copy_out a bs : same_graph (copy_out a bs).
Proof. unfold copy_out. same_auto. Qed.
Lemma same_put_user a v : same_graph (put_user a v).
Proof. apply same_copy_out. Qed.
#[export] Hint Resolve same_get_user same_copy_out same_put_user : graph.
Lemma same_fault : same_graph fault.
Proof. apply same_ret. Qed.
#[export] Hint Resolve same_fault : graph.

Lemma keeps_refs_command p cmd ptr : keeps (refs_command p cmd ptr).
Proof. unfold refs_command. keeps_auto. Qed.
Lemma keeps_refs_done_command p cmd ptr : keeps (refs_done_command p cmd ptr).
Proof. unfold refs_done_command. keeps_auto. Qed.
Lemma same_next_async th n : same_graph (next_async th n).
Proof. unfold next_async. same_auto. Qed.
#[export] Hint Resolve same_next_async keeps_refs_command keeps_refs_done_command : graph.
Lemma keeps_free_buffer_command p th ptr : keeps (free_buffer_command p th ptr).
Proof. unfold free_buffer_command. keeps_auto. Qed.
Lemma keeps_transaction_command p th cmd ptr : keeps (transaction_command p th cmd ptr).
Proof. unfold transaction_command. keeps_auto. Qed.
Lemma same_register_looper p th : same_graph (register_looper p th).
Proof. unfold register_looper. same_auto. Qed.
Lemma same_enter_looper th : same_graph (enter_looper th).
Proof. unfold enter_looper. same_auto. Qed.
Lemma same_queue_death p th d : same_graph (queue_death p th d).
Proof. unfold queue_death. same_auto. Qed.
#[export] Hint Resolve keeps_free_buffer_command keeps_transaction_command same_register_looper
  same_enter_looper same_queue_death : graph.
Lemma same_request_death p th r cookie : same_graph (request_death p th r cookie).
Proof. unfold request_death. same_auto. Qed.
Lemma same_clear_death p th r cookie : same_graph (clear_death p th r cookie).
Proof. unfold clear_death. same_auto. Qed.
#[export] Hint Resolve same_request_death same_clear_death : graph.
Lemma same_death_command p th cmd ptr : same_graph (death_command p th cmd ptr).
Proof. unfold death_command. same_auto. Qed.
Lemma same_find_death ws : forall cookie, same_graph (find_death ws cookie).
Proof. induction ws as [|w ws IH]; intros cookie; cbn [find_death]; same_auto. Qed.
#[export] Hint Resolve same_death_command same_find_death : graph.
Lemma same_dead_binder_done_command p th ptr : same_graph (dead_binder_done_command p th ptr).
Proof. unfold dead_binder_done_command. same_auto. Qed.
#[export] Hint Resolve same_dead_binder_done_command : graph.
Lemma keeps_write_command p th cmd ptr : keeps (write_command p th cmd ptr).
Proof. unfold write_command. keeps_auto. Qed.
#[export] Hint Resolve keeps_write_command : graph.
Lemma keeps_write_loop fuel p th buffer : forall ptr end_ consumed, keeps (write_loop fuel p th buffer ptr end_ consumed).
Proof. induction fuel as [|fuel IH]; intros ptr end_ consumed; cbn [write_loop]; keeps_auto. Qed.
#[export] Hint Resolve keeps_write_loop : graph.
Lemma keeps_thread_write p th buffer size consumed : keeps (binder_thread_write p th buffer size consumed).
Proof. unfold binder_thread_write. keeps_auto. Qed.
#[export] Hint Resolve keeps_thread_write : graph.

Lemma same_read_done p th buffer ptr : same_graph (read_done p th buffer ptr).
Proof. unfold read_done. same_auto. Qed.
#[export] Hint Resolve same_read_done : graph.
Lemma same_read_retry p th buffer ptr end_ consumed : same_graph (read_retry p th buffer ptr end_ consumed).
Proof. unfold read_retry. same_auto. Qed.
Lemma same_put_user3 ptr a b c : same_graph (put_user3 ptr a b c).
Proof. unfold put_user3. same_auto. Qed.
Lemma same_adopt_priority X N : same_graph (adopt_priority X N).
Proof. unfold adopt_priority. same_auto. Qed.
Lemma same_sender_pid X : same_graph (sender_pid X).
Proof. unfold sender_pid. same_auto. Qed.
#[export] Hint Resolve same_read_retry same_put_user3 same_adopt_priority same_sender_pid : graph.
Lemma same_read_complete w ptr : same_graph (read_complete w ptr).
Proof. unfold read_complete. same_auto. Qed.
Lemma same_read_death p d ptr : same_graph (read_death p d ptr).
Proof. unfold read_death. same_auto. Qed.
Lemma same_read_transaction p th t ptr : same_graph (read_transaction p th t ptr).
Proof. unfold read_transaction. same_auto. Qed.
#[export] Hint Resolve same_read_complete same_read_death same_read_transaction : graph.

(** A node after a change of what user space holds. *)
Record node_kept (N N' : binder_node) : Prop := {
  nk_proc : node_proc N' = node_proc N;
  nk_ptr : node_ptr N' = node_ptr N;
  nk_cookie : node_cookie N' = node_cookie N;
  nk_refs : node_refs N' = node_refs N;
  nk_flags : (has_strong_ref N = true -> has_weak_ref N = true) -> has_strong_ref N' = true -> has_weak_ref N' = true }.
Lemma graph_set_node n N N' s :
  graph_ok (graph_of s) -> nodes s !! n = Some N -> node_kept N N' ->
  graph_ok (graph_of (set_nodes (<[n := N']> (nodes s)) s)).
Proof.
  intros Hg HN [E1 E2 E3 E4 Hf]. unfold graph_of. cbn. rewrite fmap_insert. unfold node_shape_of at 1.
  rewrite E1, E2, E3, E4.
  apply (graph_flags _ Hg n (node_shape_of N)); [by apply lookup_shape|]. apply Hf.
  apply (go_flags _ Hg n (node_shape_of N)). by apply lookup_shape.
Qed.
Lemma keeps_mod_node n f : (forall N, node_kept N (f N)) -> keeps (mod_node n f).
Proof. intros Hf s s' x Hg H. inv_run. by eapply graph_set_node. Qed.

Lemma node_command_kept N : node_kept N (node_command N).2.
Proof.
  unfold node_command. set (strong := negb _ || negb (local_strong_refs N =? 0)).
  set (held := negb (bool_decide _) || _).
  destruct (has_strong_ref N) eqn:Hs, (has_weak_ref N) eqn:Hw, strong, held; cbn; split; cbn; rewrite ?Hs, ?Hw; tauto.
Qed.

(** A node is freed by the process that reads its work. *)
Lemma keeps_free_own_node p n N :
  node_refs N = [] -> forall s s' x, graph_ok (graph_of s) -> nodes s !! n = Some N ->
  (P ← the_proc p; t ← lift (rb_delete n (proc_nodes P)); mod_proc p (set_proc_nodes t);; free_node n) s = Some (s', x) ->
  graph_ok (graph_of s').
Proof.
  intros Hr s s' x Hg Hn H. unfold free_node in H. inv_run. cbn in *. simplify_eq.
  match goal with HP : procs s !! p = Some ?P, Hd : rb_delete n _ = Some ?t |- _ => rename P into P0, t into t0 end.
  pose proof (go_proc _ Hg p (proc_shape_of P0) ltac:(by apply lookup_shape)) as HP.
  destruct (indexed_deleted _ _ _ _ _ _ _ (po_nodes _ _ _ HP) H1) as (N' & HN' & Fn). cbn in HN'.
  rewrite lookup_fmap, Hn in HN'. injection HN' as <-.
  unfold graph_of. cbn. rewrite fmap_insert, fmap_delete.
  eapply (graph_del_node _ Hg p (proc_shape_of P0) n (node_shape_of N)); cbn; eauto with graph.
Qed.

Lemma keeps_read_node p n ptr : keeps (read_node p n ptr).
Proof.
  intros s s' x Hg H. unfold read_node in H. apply bind_run in H as (? & N & HN & H). inv_run.
  pose proof (node_command_kept N) as Hs. destruct (node_command N) as [cmd N'] eqn:Hc. cbn in Hs.
  case_run.
  - match goal with H : put_user3 _ _ _ _ _ = _ |- _ => rewrite (same_put_user3 _ _ _ _ _ _ _ H) end.
    eapply graph_set_node; [exact Hg|exact HN|exact Hs].
  - match goal with H : when _ _ _ = _ |- _ => rename H into Hw; apply when_run in Hw as [[Hb Hw]|[_ ->]] end; [|done].
    unbool. refine (keeps_free_own_node p n N _ _ _ _ _ _ Hw); [by eapply bool_decide_eq_true_1|exact Hg|exact HN].
Qed.
#[export] Hint Resolve keeps_read_node : graph.

Lemma keeps_read_item p th w ptr : keeps (read_item p th w ptr).
Proof. unfold read_item. keeps_auto. Qed.
#[export] Hint Resolve keeps_read_item : graph.
Lemma keeps_read_loop fuel p th buffer end_ consumed w : forall ptr,
  keeps (read_loop fuel p th buffer ptr end_ consumed w).
Proof. induction fuel as [|fuel IH]; intros ptr; cbn [read_loop]; keeps_auto. Qed.
#[export] Hint Resolve keeps_read_loop : graph.
Lemma same_thread_read p th buffer size consumed : same_graph (binder_thread_read p th buffer size consumed).
Proof. unfold binder_thread_read. same_auto. Qed.
Lemma keeps_thread_read_resume p th buffer size consumed ptr w ret :
  keeps (binder_thread_read_resume p th buffer size consumed ptr w ret).
Proof. unfold binder_thread_read_resume. keeps_auto. Qed.
#[export] Hint Resolve same_thread_read keeps_thread_read_resume : graph.

Lemma same_release_work_loop fuel l : same_graph (release_work_loop fuel l).
Proof. induction fuel as [|fuel IH]; cbn [release_work_loop]; same_auto. Qed.
#[export] Hint Resolve same_release_work_loop : graph.
Lemma same_release_work l : same_graph (binder_release_work l).
Proof. unfold binder_release_work. same_auto. Qed.
Lemma same_free_thread_loop fuel th : forall t count, same_graph (free_thread_loop fuel th t count).
Proof. induction fuel as [|fuel IH]; intros t count; cbn [free_thread_loop]; same_auto. Qed.
#[export] Hint Resolve same_release_work same_free_thread_loop : graph.

Lemma keeps_get_thread p : keeps (binder_get_thread p).
Proof.
  intros s s' x Hg H. unfold binder_get_thread in H. inv_run. case_run; [|done].
  match goal with H : kzalloc _ = Some (_, ?o) |- _ => rename H into Hk; destruct o as [th|] end;
    [|inv_run; by rewrite (same_kzalloc _ _ _ Hk)].
  apply kzalloc_run in Hk as [(l' & ->) Hk]. destruct (Hk th eq_refl) as [_ Hu].
  apply not_in_use in Hu as (_ & Hn & _). inv_run. cbn in *. simplify_eq.
  unfold graph_of. cbn. rewrite !fmap_insert.
  eapply (graph_new_thread _ Hg p (proc_shape_of _) th (pid (current s)) _ (thread_cmp s (pid (current s))));
    cbn; eauto with graph.
  intros y TH Hy _. unfold thread_cmp. rewrite lookup_fmap in Hy. destruct (threads s !! y); [|done].
  by injection Hy as <-.
Qed.

(** Taking a thread off the tree and freeing it later comes to the same as doing
    both at once, as long as the graph is left alone in between. *)
Lemma free_thread_graph p th P t s s1 :
  graph_ok (graph_of s) -> procs s !! p = Some P -> rb_delete th (proc_threads P) = Some t ->
  graph_of s1 = graph_of (set_procs (<[p := set_proc_threads t P]> (procs s)) s) ->
  graph_ok (graph_of (set_threads (delete th (threads s1)) s1)).
Proof.
  intros Hg HP Hd H1.
  pose proof (go_proc _ Hg p (proc_shape_of P) ltac:(by apply lookup_shape)) as HP'.
  destruct (indexed_deleted _ _ _ _ _ _ _ (po_threads _ _ _ HP') Hd) as (TH & HTH & [= Fp]).
  unfold graph_of in H1. injection H1 as E1 E2 E3 E4 E5. cbn in *.
  unfold graph_of. cbn. rewrite fmap_delete, E1, E2, E3, E4, E5, fmap_insert.
  eapply (graph_del_thread _ Hg p (proc_shape_of P) th TH); cbn; eauto with graph.
Qed.

Lemma keeps_free_thread p th : keeps (binder_free_thread p th).
Proof.
  intros s s' x Hg H. unfold binder_free_thread in H. inv_run. simplify_eq.
  match goal with H1 : match transaction_stack _ with _ => _ end _ = _, H2 : free_thread_loop _ _ _ _ _ = _,
    H3 : match _ with Some t => binder_send_failed_reply t _ | None => skip end _ = _,
    H4 : binder_release_work _ _ = _ |- _ => same_run H1; same_run H2; same_run H3; same_run H4;
    rewrite H1 in H2; rewrite H2 in H3; rewrite H3 in H4; rename H4 into Hs end.
  refine (free_thread_graph p th _ _ _ _ Hg _ _ Hs); done.
Qed.
#[export] Hint Resolve keeps_get_thread keeps_free_thread : graph.

(** ** The device *)

Lemma same_ioctl_exit th ret : same_graph (ioctl_exit th ret).
Proof. unfold ioctl_exit. same_auto. Qed.
#[export] Hint Resolve same_ioctl_exit : graph.
Lemma same_write_read_finish th ubuf bwr ret : same_graph (write_read_finish th ubuf bwr ret).
Proof. unfold write_read_finish. same_auto. Qed.
#[export] Hint Resolve same_write_read_finish : graph.
Lemma same_read_outcome th ubuf bwr r : same_graph (read_outcome th ubuf bwr r).
Proof. unfold read_outcome. same_auto. Qed.
#[export] Hint Resolve same_read_outcome : graph.
Lemma keeps_ioctl_write_read p th cmd ubuf : keeps (ioctl_write_read p th cmd ubuf).
Proof. unfold ioctl_write_read. keeps_auto. Qed.
Lemma keeps_set_context_mgr p th : keeps (set_context_mgr p th).
Proof. unfold set_context_mgr. keeps_auto; [by apply keeps_new_node|]. by apply keeps_mod_node. Qed.
#[export] Hint Resolve keeps_ioctl_write_read keeps_set_context_mgr : graph.
Lemma keeps_ioctl p cmd arg : keeps (binder_ioctl p cmd arg).
Proof. unfold binder_ioctl. keeps_auto. Qed.
Lemma keeps_ioctl_resume p th ubuf bwr ptr w ret : keeps (binder_ioctl_resume p th ubuf bwr ptr w ret).
Proof. unfold binder_ioctl_resume. keeps_auto. Qed.
Lemma keeps_poll p : keeps (binder_poll p).
Proof. unfold binder_poll. keeps_auto. Qed.
Lemma same_mmap p v area array : same_graph (device_mmap p v area array).
Proof. unfold device_mmap. same_auto. Qed.
Lemma keeps_open : keeps binder_open.
Proof.
  intros s s' x Hg H. unfold binder_open in H. inv_run.
  match goal with H : kzalloc _ = Some (_, ?o) |- _ => rename H into Hk; destruct o as [p|] end;
    [|inv_run; by rewrite (same_kzalloc _ _ _ Hk)].
  apply kzalloc_run in Hk as [(l' & ->) Hk]. destruct (Hk p eq_refl) as [_ Hu].
  apply not_in_use in Hu as (Hn & _). inv_run. cbn in *. simplify_eq.
  unfold graph_of. cbn. rewrite !fmap_insert.
  apply (graph_new_proc _ Hg p). cbn. by apply lookup_shape_none.
Qed.
Lemma same_defer_work p d : same_graph (binder_defer_work p d).
Proof. unfold binder_defer_work. same_auto. Qed.
#[export] Hint Resolve same_defer_work : graph.
Lemma same_vma_close p : same_graph (binder_vma_close p).
Proof. unfold binder_vma_close. same_auto. Qed.
Lemma same_flush p : same_graph (binder_flush p).
Proof. unfold binder_flush. same_auto. Qed.
Lemma same_release p : same_graph (binder_release p).
Proof. unfold binder_release. same_auto. Qed.
Lemma same_flush_threads ths : same_graph (flush_threads ths).
Proof. induction ths as [|th ths IH]; cbn [flush_threads]; same_auto. Qed.
#[export] Hint Resolve same_flush_threads : graph.
Lemma same_deferred_flush p : same_graph (binder_deferred_flush p).
Proof. unfold binder_deferred_flush. same_auto. Qed.
Lemma same_notify_deaths rs : same_graph (notify_deaths rs).
Proof. induction rs as [|r rs IH]; cbn [notify_deaths]; same_auto. Qed.
#[export] Hint Resolve same_deferred_flush same_notify_deaths : graph.
Lemma same_release_buffer p b : same_graph (release_buffer p b).
Proof. unfold release_buffer. same_auto. Qed.
#[export] Hint Resolve same_release_buffer : graph.
Lemma same_release_buffers fuel p : same_graph (release_buffers fuel p).
Proof. induction fuel as [|fuel IH]; cbn [release_buffers]; same_auto. Qed.
#[export] Hint Resolve same_release_buffers : graph.

(** ** A process goes

    Its trees are emptied one after the other; what is empty stays empty. *)

Definition empties (g g' : graph) : Prop :=
  forall p P, g_procs g !! p = Some P -> exists P', g_procs g' !! p = Some P' /\
    (ps_threads P = E -> ps_threads P' = E) /\ (ps_nodes P = E -> ps_nodes P' = E).
Definition emptying {A} (m : M A) : Prop := forall s s' x, m s = Some (s', x) -> empties (graph_of s) (graph_of s').

Lemma empties_refl g : empties g g.
Proof. intros p P HP. eauto. Qed.
Lemma emptying_bind {A B} (m : M A) (f : A -> M B) : emptying m -> (forall x, emptying (f x)) -> emptying (m ≫= f).
Proof.
  intros Hm Hf s s' x H. inv_run. intros p P HP.
  match goal with H1 : m s = Some _ |- _ => destruct (Hm _ _ _ H1 p P HP) as (P1 & HP1 & ? & ?) end.
  destruct (Hf _ _ _ _ H p P1 HP1) as (P2 & HP2 & ? & ?). eauto 10.
Qed.
Lemma emptying_same {A} (m : M A) : same_graph m -> emptying m.
Proof. intros Hm s s' x H. rewrite (Hm _ _ _ H). apply empties_refl. Qed.
Lemma emptying_modify f : (forall s, procs (f s) = procs s) -> emptying (modify f).
Proof. intros Hf s s' x H. inv_run. intros p P HP. cbn in *. rewrite Hf. eauto. Qed.
Lemma emptying_mod_node n f : emptying (mod_node n f).
Proof. intros s s' x H. inv_run. intros p P HP. cbn in *. eauto. Qed.
Lemma emptying_mod_proc p f :
  (forall P, proc_threads (f P) = proc_threads P /\ proc_nodes (f P) = proc_nodes P) -> emptying (mod_proc p f).
Proof.
  intros Hf s s' x H. inv_run. intros q Q HQ. unfold graph_of in HQ |- *. cbn in *. rewrite fmap_insert.
  destruct (decide (p = q)) as [->|Hne].
  - apply (lookup_shape proc_shape_of) in H. rewrite HQ in H. injection H as ->. rewrite lookup_insert_eq.
    eexists. split; [done|]. cbn. by destruct (Hf x0) as [-> ->].
  - rewrite lookup_insert_ne by done. eauto.
Qed.

(** A tree from which something is taken is not empty. *)
Lemma emptying_erase {A} p (get : binder_proc -> tree Z) (set : tree Z -> binder_proc -> binder_proc) x
    (k : binder_proc -> tree Z -> M A) :
  (forall t P, (proc_threads (set t P) = proc_threads P \/ get = proc_threads /\ proc_threads (set t P) = t) /\
               (proc_nodes (set t P) = proc_nodes P \/ get = proc_nodes /\ proc_nodes (set t P) = t)) ->
  (forall P t, emptying (k P t)) ->
  emptying (P ← the_proc p; t ← lift (rb_delete x (get P)); mod_proc p (set t);; k P t).
Proof.
  intros Hset Hk s s' y H. inv_run. simplify_eq. intros q Q HQ.
  match goal with HP : procs s !! p = Some ?P, Hd : rb_delete x (get ?P) = Some ?t |- _ =>
    rename P into P0; rename t into t0; rename Hd into Hd0; rename HP into HP0 end.
  assert (exists Q1, g_procs (graph_of (set_procs (<[p := set t0 P0]> (procs s)) s)) !! q = Some Q1 /\
    (ps_threads Q = E -> ps_threads Q1 = E) /\ (ps_nodes Q = E -> ps_nodes Q1 = E)) as (Q1 & HQ1 & HE1 & HE2).
  { unfold graph_of in HQ |- *. cbn in *. rewrite fmap_insert. destruct (decide (p = q)) as [->|Hne].
    - apply (lookup_shape proc_shape_of) in HP0. rewrite HQ in HP0. injection HP0 as ->. rewrite lookup_insert_eq.
      eexists. split; [done|]. cbn. destruct (Hset t0 P0) as [H1 H2]. split.
      + intros E1. destruct H1 as [->|[-> _]]; [done|]. by rewrite E1 in Hd0.
      + intros E1. destruct H2 as [->|[-> _]]; [done|]. by rewrite E1 in Hd0.
    - rewrite lookup_insert_ne by done. eauto. }
  destruct (Hk _ _ _ _ _ H q Q1 HQ1) as (Q2 & HQ2 & ? & ?). eauto 10.
Qed.

Lemma emptying_dec_node n strong internal : emptying (binder_dec_node n strong internal).
Proof.
  intros s s' x H. destruct (dec_node_graph _ _ _ _ _ _ H) as [->|Hf]; [apply empties_refl|].
  intros q Q HQ. destruct Hf as [p P N t HP HN Fn Hr Ht|]; cbn; [|eauto].
  destruct (decide (p = q)) as [->|Hne]; [|rewrite lookup_insert_ne by done; eauto].
  rewrite HP in HQ. injection HQ as <-. rewrite lookup_insert_eq. eexists. split; [done|]. cbn.
  split; [done|]. intros E1. by rewrite E1 in Ht.
Qed.

Ltac emptying_step :=
  match goal with
  | |- emptying (_ ≫= _) => apply emptying_bind; [|intros]
  | |- emptying (when _ _) => unfold when
  | |- emptying (match ?x with _ => _ end) => destruct x
  | |- emptying (binder_dec_node _ _ _) => apply emptying_dec_node
  | |- emptying (mod_node _ _) => apply emptying_mod_node
  | |- emptying _ => apply emptying_same; solve [same_auto]
  | |- emptying (mod_proc _ _) => apply emptying_mod_proc; done
  | |- emptying (modify _) => apply emptying_modify; done
  | H : forall x, emptying _ |- _ => apply H
  end; cbv beta zeta.
Ltac emptying_auto := repeat emptying_step.

Lemma emptying_delete_ref r : emptying (binder_delete_ref r).
Proof. unfold binder_delete_ref. emptying_auto. Qed.
Lemma emptying_free_thread p th : emptying (binder_free_thread p th).
Proof.
  unfold binder_free_thread. apply (emptying_erase p proc_threads set_proc_threads th).
  - intros t P. cbn. auto.
  - intros P t. emptying_auto.
Qed.
Lemma emptying_release_node p n : emptying (release_node p n).
Proof.
  unfold release_node. apply (emptying_erase p proc_nodes set_proc_nodes n).
  - intros t P. cbn. auto.
  - intros P t. unfold free_node. emptying_auto.
Qed.

Lemma first_of_none t : first_of t = None -> t = E.
Proof.
  unfold first_of, rb_first. destruct t as [|c l x r]; [done|]. cbn [mbind option_bind].
  assert (forall (t : tree Z) k, t <> E -> entry (go_left t k) <> None) as Hgo.
  { clear. induction t as [|c l IHl x r _]; intros k Hne; [done|]. cbn [go_left].
    destruct l as [|]; [done|]. by apply IHl. }
  intros H. by apply Hgo in H.
Qed.

Section emptied.
Variable (p : Z).

(** What a loop over a tree of the process leaves. *)
Definition emptied (get : proc_shape -> tree Z) (m : M unit) : Prop :=
  forall s s' x, m s = Some (s', x) -> exists P, g_procs (graph_of s') !! p = Some P /\ get P = E.

Lemma release_threads_run fuel : keeps (release_threads fuel p) /\ emptied ps_threads (release_threads fuel p).
Proof.
  induction fuel as [|fuel [IH1 IH2]]; cbn [release_threads]; (split; [keeps_auto|]); intros s s' x H; inv_run.
  - case_run. eexists. split; [by apply lookup_shape|]. by apply first_of_none.
  - case_run; [by eapply IH2|]. eexists. split; [by apply lookup_shape|]. by apply first_of_none.
Qed.

Lemma keeps_release_node n : keeps (release_node p n).
Proof.
  intros s s' x Hg H. unfold release_node in H. apply bind_run in H as (? & P & HP & H).
  apply bind_run in H as (? & t & Hd & H). inv_run. cbn in *.
  pose proof (go_proc _ Hg p (proc_shape_of P) ltac:(by apply lookup_shape)) as HP'.
  destruct (indexed_deleted _ _ _ _ _ _ _ (po_nodes _ _ _ HP') Hd) as (N' & HN' & Fn). cbn in HN'.
  match goal with HN : nodes s !! n = Some ?N |- _ => rename HN into HN0, N into N0 end.
  rewrite lookup_fmap, HN0 in HN'. injection HN' as <-. simplify_eq. case_run.
  - unfold free_node in H. inv_run. cbn in *. unfold graph_of. cbn. rewrite fmap_insert, fmap_delete.
    eapply (graph_del_node _ Hg p (proc_shape_of P) n (node_shape_of N0)); cbn; eauto with graph.
    by eapply bool_decide_eq_true_1.
  - same_run H. rewrite H. clear H. cbn in *. simplify_eq. unfold graph_of. cbn. rewrite !fmap_insert.
    eapply (graph_node_dies _ Hg p (proc_shape_of P) n (node_shape_of _)); cbn; eauto with graph.
Qed.
Hint Resolve keeps_release_node : graph.

Lemma release_nodes_run fuel :
  keeps (release_nodes fuel p) /\ emptied ps_nodes (release_nodes fuel p) /\ emptying (release_nodes fuel p).
Proof.
  pose proof emptying_release_node.
  induction fuel as [|fuel (IH1 & IH2 & IH3)]; cbn [release_nodes]; (split; [keeps_auto|]); (split; [|emptying_auto; auto]);
    intros s s' x Hr; inv_run.
  - case_run. eexists. split; [by apply lookup_shape|]. by apply first_of_none.
  - case_run; [by eapply IH2|]. eexists. split; [by apply lookup_shape|]. by apply first_of_none.
Qed.

Lemma release_refs_run fuel :
  keeps (release_refs fuel p) /\ emptied ps_by_desc (release_refs fuel p) /\ emptying (release_refs fuel p).
Proof.
  pose proof emptying_delete_ref.
  induction fuel as [|fuel (IH1 & IH2 & IH3)]; cbn [release_refs]; (split; [keeps_auto|]); (split; [|emptying_auto; auto]);
    intros s s' x Hr; inv_run.
  - case_run. eexists. split; [by apply lookup_shape|]. by apply first_of_none.
  - case_run; [by eapply IH2|]. eexists. split; [by apply lookup_shape|]. by apply first_of_none.
Qed.
End emptied.

Lemma free_proc_run p P s s' x :
  free_proc p s = Some (s', x) -> graph_ok (graph_of s) -> g_procs (graph_of s) !! p = Some P ->
  ps_threads P = E -> ps_nodes P = E -> ps_by_desc P = E -> graph_ok (graph_of s').
Proof.
  intros H Hg HP E1 E2 E3. unfold free_proc in H. inv_run. unfold graph_of. cbn. rewrite fmap_delete.
  by eapply (graph_del_proc _ Hg p P).
Qed.

Lemma keeps_deferred_release p : keeps (binder_deferred_release p).
Proof.
  intros s s' x Hg H. unfold binder_deferred_release in H. inv_run.
  match goal with H1 : match _ with Some n => _ | None => skip end s = Some _,
    H2 : release_threads _ p _ = Some (?s1, _), H3 : release_nodes _ p ?s1 = Some (?s2, _),
    H4 : release_refs _ p ?s2 = Some (?s3, _), H5 : binder_release_work _ ?s3 = Some (?s4, _),
    H6 : release_buffers _ p ?s4 = Some (?s5, _) |- _ =>
    same_run H1; same_run H5; same_run H6; rename H1 into R1, H2 into R2, H3 into R3, H4 into R4, H5 into R5, H6 into R6 end.
  rewrite <- R1 in Hg. destruct (release_threads_run p (length (inorder (proc_threads x1)))) as [K1 L1].
  destruct (L1 _ _ _ R2) as (P1 & HP1 & E1). pose proof (K1 _ _ _ Hg R2) as G1.
  edestruct (release_nodes_run p) as (K2 & L2 & M2). destruct (L2 _ _ _ R3) as (P2 & HP2 & E2).
  destruct (M2 _ _ _ R3 p P1 HP1) as (P2' & HP2' & F2 & _). rewrite HP2 in HP2'. injection HP2' as <-.
  pose proof (K2 _ _ _ G1 R3) as G2.
  edestruct (release_refs_run p) as (K3 & L3 & M3). destruct (L3 _ _ _ R4) as (P3 & HP3 & E3).
  destruct (M3 _ _ _ R4 p P2 HP2) as (P3' & HP3' & F3 & F3'). rewrite HP3 in HP3'. injection HP3' as <-.
  pose proof (K3 _ _ _ G2 R4) as G3.
  rewrite R5 in R6. eapply free_proc_run; [exact H|..]; rewrite ?R6; eauto.
Qed.
#[export] Hint Resolve keeps_deferred_release : graph.

Lemma keeps_deferred_func_round : keeps binder_deferred_func_round.
Proof. unfold binder_deferred_func_round. keeps_auto. Qed.

(** ** Runs of the device *)

(** A call of the driver, by some task with some user memory.  An ioctl that
    slept is continued with whatever the wait returned. *)
Inductive device_call :=
  | CallOpen
  | CallMmap (p : Z) (v : vm_area) (area : option Z) (array : bool)
  | CallIoctl (p cmd arg : Z)
  | CallIoctlResume (p th ubuf : Z) (bwr : binder_write_read) (ptr : Z) (wait_for_proc_work : bool) (ret : Z)
  | CallPoll (p : Z)
  | CallVmaClose (p : Z)
  | CallFlush (p : Z)
  | CallRelease (p : Z)
  | CallDeferred.

Definition run_call (c : device_call) : M unit :=
  match c with
  | CallOpen => binder_open;; skip
  | CallMmap p v area array => device_mmap p v area array;; skip
  | CallIoctl p cmd arg => binder_ioctl p cmd arg;; skip
  | CallIoctlResume p th ubuf bwr ptr w ret => binder_ioctl_resume p th ubuf bwr ptr w ret;; skip
  | CallPoll p => binder_poll p;; skip
  | CallVmaClose p => binder_vma_close p
  | CallFlush p => binder_flush p;; skip
  | CallRelease p => binder_release p;; skip
  | CallDeferred => binder_deferred_func_round;; skip
  end.

Definition enter (c : task) (m : umem) (l : list (option Z)) (w : world) (s : binder) : binder :=
  Binder (procs s) (threads s) (nodes s) (refs s) (deaths s) (transactions s) (completes s) (lists s)
    (dead_nodes s) (context_mgr_node s) (context_mgr_uid s) (last_id s) (deferred_list s) l c m w.

Inductive binder_step (s : binder) : binder -> Prop :=
  | BinderStep c m l w call s' x : run_call call (enter c m l w s) = Some (s', x) -> binder_step s s'.

(** The driver when nothing has been opened yet. *)
Definition binder_init (w : world) : binder :=
  Binder ∅ ∅ ∅ ∅ ∅ ∅ ∅ ∅ [] None (u32 (-1)) 0 [] [] (Task 0 0 0 0 0 false) (Umem ∅ 0) w.

#[export] Hint Resolve keeps_open keeps_ioctl keeps_ioctl_resume keeps_poll keeps_deferred_func_round same_mmap
  same_vma_close same_flush same_release : graph.

Lemma keeps_call c : keeps (run_call c).
Proof. unfold run_call. destruct c; keeps_auto. Qed.

Lemma graph_init w : graph_ok (graph_of (binder_init w)).
Proof.
  split; cbn; try (intros; by rewrite fmap_empty in *).
  - intros n. split; [by intros ?%not_elem_of_nil|]. intros (N & HN & _). by rewrite fmap_empty in HN.
  - constructor.
Qed.

Lemma graph_reach w s : rtc binder_step (binder_init w) s -> graph_ok (graph_of s).
Proof.
  intros H. pose proof (graph_init w) as H0. revert H0. induction H as [s|s1 s2 s3 Hs _ IH]; [done|].
  intros H1. apply IH. destruct Hs as [c m l w' call s' x Hr]. by eapply keeps_call; [|exact Hr].
Qed.

(** ** The fuel of the loops over user buffers

    More fuel makes no difference: where these loops have no result, an object is
    used that is not there. *)

(** Commands and items go forwards. *)
Lemma write_command_next p th cmd ptr s s' ptr' : write_command p th cmd ptr s = Some (s', inr ptr') -> ptr <= ptr'.
Proof.
  intros H. unfold write_command, refs_command, refs_done_command, free_buffer_command, transaction_command, death_command,
    dead_binder_done_command, fault, sizeof_transaction_data in H. repeat (inv_run; try case_run; simplify_eq; try lia).
Qed.

Lemma bind_eq {A B} (m : M A) (f g : A -> M B) s :
  (forall s' x, m s = Some (s', x) -> f x s' = g x s') -> (m ≫= f) s = (m ≫= g) s.
Proof. unfold mbind, M_bind. intros H. destruct (m s) as [[s' x]|]; [by apply H|done]. Qed.

Lemma write_loop_fuel f1 : forall f2 p th buffer ptr end_ consumed s,
  (end_ - ptr) / 4 + 1 <= Z.of_nat f1 -> (end_ - ptr) / 4 + 1 <= Z.of_nat f2 ->
  write_loop f1 p th buffer ptr end_ consumed s = write_loop f2 p th buffer ptr end_ consumed s.
Proof.
  induction f1 as [|f1 IH]; intros [|f2] p th buffer ptr end_ consumed s H1 H2; cbn [write_loop]; apply bind_eq; intros s1 TH _;
    destruct (Z.ltb_spec ptr end_) as [Hlt|]; simpl andb; try done; try (pose proof (Z.div_pos (end_ - ptr) 4); lia).
  destruct (return_error TH =? BR_OK); [|done]. apply bind_eq. intros s2 [cmd|] _; [|done]. apply bind_eq. intros s3 [e|ptr'] H; [done|].
  apply write_command_next in H. assert ((end_ - ptr') / 4 + 1 <= (end_ - ptr) / 4).
  { replace (end_ - ptr) with (end_ - ptr - 4 + 1 * 4) by lia. rewrite Z.div_add by lia. pose proof (Z.div_le_mono (end_ - ptr') (end_ - ptr - 4) 4). lia. }
  apply IH; lia.
Qed.

(** An item that leaves the loop to go on has written, or is off its list. *)
Lemma todo_unlink s w l : todo (set_lists (list_del w <$> lists s) s) l = list_del w (todo s l).
Proof. unfold todo. cbn. rewrite lookup_fmap. by destruct (lists s !! l). Qed.
Definition shorter (s s' : binder) : Prop := forall l, (length (todo s' l) <= length (todo s l))%nat.

Lemma shorter_lists s s' : lists s' = lists s -> shorter s s'.
Proof. intros E l. unfold todo. by rewrite E. Qed.
Lemma shorter_unlink s w s' : shorter (set_lists (list_del w <$> lists s) s) s' -> shorter s s'.
Proof. intros H l. specialize (H l). rewrite todo_unlink in H. pose proof (length_list_del w (todo s l)). lia. Qed.
Lemma shorter_head s s' w l r : shorter (set_lists (list_del w <$> lists s) s) s' -> todo s l = w :: r ->
  (length (todo s' l) < length (todo s l))%nat.
Proof.
  intros H E. specialize (H l). rewrite todo_unlink, E, list_del_head in H. pose proof (length_list_del w r). rewrite E. simpl. lia.
Qed.

Lemma shorter_delete s s' l : lists s' = delete l (lists s) -> shorter s s'.
Proof.
  intros E k. unfold todo. rewrite E. destruct (decide (k = l)) as [->|]; [rewrite lookup_delete_eq; simpl; lia|].
  by rewrite lookup_delete_ne.
Qed.

Lemma read_item_next p th w ptr s s' ptr' : read_item p th w ptr s = Some (s', ItemNext ptr') ->
  ptr <= ptr' <= ptr + 12 /\ shorter s s' /\
  (ptr' < ptr + 4 -> forall l r, todo s l = w :: r -> (length (todo s' l) < length (todo s l))%nat).
Proof.
  intros H. destruct w; cbn [read_item] in H;
    unfold read_transaction, read_complete, read_node, read_death, put_user3, put_user, copy_out in H;
    repeat (inv_run; try case_run; simplify_eq; try lia).
  - match goal with H : the_complete _ _ = _ |- _ => unfold the_complete in H; case_decide; [|done]; injection H as -> end.
    match goal with H : free_complete _ _ = _ |- _ => unfold free_complete in H; inv_run end.
    split; [lia|]. split; [|lia]. apply (shorter_unlink _ (WTransactionComplete w)), shorter_lists. reflexivity.
  - destruct (z0 =? 0); simplify_eq. split; [lia|]. split; [by apply shorter_lists|lia].
  - match goal with H : when _ _ _ = _ |- _ => rename H into Hw end.
    assert (Sh : shorter (set_lists (list_del (WNode n) <$> lists s) s) x2).
    { apply when_run in Hw as [[_ Hw]|[_ ->]]; [|by intros ?]. unfold free_node in Hw. inv_run. cbn in *. by eapply shorter_delete. }
    split; [lia|]. split; [by eapply shorter_unlink|]. intros _ l r. by apply shorter_head.
  - match goal with H : free_death _ _ = _ |- _ => unfold free_death in H; inv_run end.
    split; [lia|]. split; [|lia]. apply (shorter_unlink _ (WDeath d)), shorter_lists. reflexivity.
Qed.

Definition read_weight (p th ptr end_ : Z) (s : binder) : Z :=
  u32 (end_ - ptr) / 4 + Z.of_nat (length (todo s (ThreadTodo th)) + length (todo s (ProcTodo p))).

Lemma u32_less a d : 0 <= d <= u32 a -> u32 (a - d) = u32 a - d.
Proof.
  unfold u32. intros H. pose proof (Z.mod_pos_bound a (2 ^ 32)). rewrite <- (Z.mod_small (a mod 2 ^ 32 - d) (2 ^ 32)) by lia.
  by rewrite Zminus_mod_idemp_l.
Qed.

Lemma read_loop_fuel f1 : forall f2 p th buffer ptr end_ consumed w s,
  read_weight p th ptr end_ s < Z.of_nat f1 -> read_weight p th ptr end_ s < Z.of_nat f2 ->
  read_loop f1 p th buffer ptr end_ consumed w s = read_loop f2 p th buffer ptr end_ consumed w s.
Proof.
  assert (P : forall p th ptr end_ s, 0 <= read_weight p th ptr end_ s).
  { intros. unfold read_weight, u32. pose proof (Z.mod_pos_bound (end_ - ptr) (2 ^ 32)). pose proof (Z.div_pos ((end_ - ptr) mod 2 ^ 32) 4). lia. }
  induction f1 as [|f1 IH]; intros [|f2] p th buffer ptr end_ consumed w s H1 H2; try (specialize (P p th ptr end_ s); lia).
  cbn [read_loop]. apply bind_eq. intros s1 s2 Hg. inv_run. subst.
  destruct (match todo s (ThreadTodo th) with w0 :: _ => _ | [] => _ end) as [x|] eqn:Ex; [|done].
  destruct (Z.ltb_spec (u32 (end_ - ptr)) (sizeof_transaction_data + 4)) as [|Hroom]; [done|].
  apply bind_eq. intros s1 [ptr'| |] Hi; [|done..]. apply read_item_next in Hi as (Hp & Hs & Hh).
  assert (Hw : read_weight p th ptr' end_ s1 < read_weight p th ptr end_ s).
  { unfold read_weight, sizeof_transaction_data in *. pose proof (Hs (ThreadTodo th)). pose proof (Hs (ProcTodo p)).
    replace (end_ - ptr') with (end_ - ptr - (ptr' - ptr)) by lia. rewrite u32_less by lia.
    destruct (decide (ptr' < ptr + 4)) as [Hlt|].
    - assert (exists l r, (l = ThreadTodo th \/ l = ProcTodo p) /\ todo s l = x :: r) as (l & r & Hl & El).
      { destruct (todo s (ThreadTodo th)) as [|y r] eqn:Et; [destruct w; [|done]|injection Ex as ->; eauto].
        destruct (todo s (ProcTodo p)) as [|y r] eqn:Ep; [done|]. injection Ex as ->. eauto. }
      specialize (Hh Hlt l r El). pose proof (Z.div_le_mono (u32 (end_ - ptr) - (ptr' - ptr)) (u32 (end_ - ptr)) 4).
      destruct Hl as [-> | ->]; lia.
    - pose proof (Z.div_le_mono (u32 (end_ - ptr) - (ptr' - ptr)) (u32 (end_ - ptr) - 4) 4).
      replace (u32 (end_ - ptr)) with (u32 (end_ - ptr) - 4 + 1 * 4) at 2 by lia. rewrite Z.div_add by lia. lia. }
  apply IH; lia.
Qed.

(** The offsets of a buffer are four bytes apart. *)
Lemma offsets_left offp off_end f : offp < off_end -> (off_end - offp) / 4 + 1 <= Z.of_nat (S f) -> (off_end - (offp + 4)) / 4 + 1 <= Z.of_nat f.
Proof.
  intros Hlt H. replace (off_end - offp) with (off_end - (offp + 4) + 1 * 4) in H by lia. rewrite Z.div_add in H by lia. lia.
Qed.
Lemma translate_loop_fuel f1 : forall f2 p th tg b offp off_end s,
  (off_end - offp) / 4 + 1 <= Z.of_nat f1 -> (off_end - offp) / 4 + 1 <= Z.of_nat f2 ->
  translate_loop f1 p th tg b offp off_end s = translate_loop f2 p th tg b offp off_end s.
Proof.
  induction f1 as [|f1 IH]; intros [|f2] p th tg b offp off_end s H1 H2; cbn [translate_loop]; destruct (Z.leb_spec off_end offp) as [|Hlt];
    try done; try (pose proof (Z.div_pos (off_end - offp) 4); lia).
  apply bind_eq. intros s' [e|] _; [done|]. apply IH; by apply offsets_left.
Qed.
Lemma release_loop_fuel f1 : forall f2 p b offp off_end failed s,
  (off_end - offp) / 4 + 1 <= Z.of_nat f1 -> (off_end - offp) / 4 + 1 <= Z.of_nat f2 ->
  release_loop f1 p b offp off_end failed s = release_loop f2 p b offp off_end failed s.
Proof.
  induction f1 as [|f1 IH]; intros [|f2] p b offp off_end failed s H1 H2; cbn [release_loop]; destruct (Z.leb_spec off_end offp) as [|Hlt];
    try done; try (pose proof (Z.div_pos (off_end - offp) 4); lia).
  apply bind_eq. intros s' [] _. apply IH; by apply offsets_left.
Qed.

