(* ===== verification/BinderTranslate.v ===== *)
(** * Objects keep their identity in a transaction

    An object in a transaction names a node: by its user address in the process
    that owns the node, or by a descriptor of a process that holds a reference.
    Translation replaces the name that the sender uses by one that the target
    uses for the same node. *)

From stdpp Require Import base numbers list gmap.
From S2P Require Import Prelude RbTree RbKeyed RbIndex BinderAlloc BinderProtocol BinderCore BinderRefs BinderGraph BinderRun BinderRefsInv BinderTransaction BinderThread BinderDevice BinderInv.

Open Scope Z_scope.

(** ** Words in memory *)

Lemma le_Z_bytes n : forall z, le_Z (le_bytes n z) = z mod 256 ^ Z.of_nat n.
Proof.
  induction n as [|n IH]; intros z; cbn [le_bytes le_Z]; [cbn; by rewrite Z.mod_1_r|].
  rewrite IH, Nat2Z.inj_succ, Z.pow_succ_r by lia.
  rewrite Z.rem_mul_r by lia. lia.
Qed.

Lemma write_bytes_lookup bs : forall m a x,
  write_bytes m a bs !! x = if (a <=? x) && (x <? a + zlen bs) then Some (bget bs (x - a)) else m !! x.
Proof.
  induction bs as [|b bs IH]; intros m a x; cbn [write_bytes].
  { rewrite zlen_nil. case_if; [lia|done]. }
  rewrite IH, zlen_cons. destruct (Z.eq_dec x a) as [->|Hne].
  - rewrite (proj2 (Z.leb_gt (a + 1) a)) by lia. cbn. rewrite lookup_insert_eq.
    pose proof (zlen_nonneg bs). rewrite (proj2 (Z.leb_le a a)), (proj2 (Z.ltb_lt a _)) by lia. cbn.
    by rewrite Z.sub_diag.
  - rewrite lookup_insert_ne by done.
    replace (a + 1 <=? x) with (a <=? x) by (destruct (Z.leb_spec a x), (Z.leb_spec (a + 1) x); lia).
    replace (a + 1 + zlen bs) with (a + (1 + zlen bs)) by lia. case_if; [|done].
    unfold bget. f_equal. replace (Z.to_nat (x - a)) with (S (Z.to_nat (x - (a + 1)))) by lia. done.
Qed.

Lemma read_word_ext m m' a : (forall x, a <= x < a + 4 -> m !! x = m' !! x) -> read_word m a = read_word m' a.
Proof. intros H. unfold read_word. cbn. by rewrite !H by lia. Qed.
Lemma read_written m a v : 0 <= v < 2 ^ 32 -> read_word (write_word m a v) a = v.
Proof.
  intros Hv. unfold read_word, write_word. cbn [fmap list_fmap].
  rewrite !write_bytes_lookup. change (zlen (le_bytes 4 v)) with 4.
  rewrite !(proj2 (Z.leb_le _ _)), !(proj2 (Z.ltb_lt _ _)) by lia. cbn [andb from_option].
  replace (a + 0 - a) with 0 by lia. replace (a + 1 - a) with 1 by lia.
  replace (a + 2 - a) with 2 by lia. replace (a + 3 - a) with 3 by lia.
  pose proof (le_Z_bytes 4 v) as H. change (256 ^ Z.of_nat 4) with (2 ^ 32) in H. rewrite Z.mod_small in H by lia.
  transitivity (u32 (le_Z (le_bytes 4 v))); [reflexivity|]. rewrite H. by apply u32_small.
Qed.

Lemma read_other m a b v : b + 4 <= a \/ a + 4 <= b -> read_word (write_word m a v) b = read_word m b.
Proof.
  intros H. apply read_word_ext. intros x Hx. unfold write_word. rewrite write_bytes_lookup.
  change (zlen (le_bytes 4 v)) with 4. case_if; [lia|done].
Qed.

(** ** Operations that leave the buffers alone *)

Definition memories (s : binder) : gmap Z (gmap Z Z) := memory <$> procs s.
Definition allocs (s : binder) : gmap Z binder_alloc := alloc <$> procs s.
Definition same_memory {A} (m : M A) : Prop :=
  forall s s' x, m s = Some (s', x) -> memories s' = memories s /\ allocs s' = allocs s.

Lemma memory_bind {A B} (m : M A) (f : A -> M B) : same_memory m -> (forall x, same_memory (f x)) -> same_memory (m ≫= f).
Proof. intros Hm Hf s s' x H. inv_run. apply Hf in H as [-> ->]. by eapply Hm. Qed.
Lemma memory_modify f : (forall s, procs (f s) = procs s) -> same_memory (modify f).
Proof. intros Hf s s' x H. inv_run. unfold memories, allocs. by rewrite Hf. Qed.
Lemma memory_mod_proc p f : (forall P, memory (f P) = memory P /\ alloc (f P) = alloc P) -> same_memory (mod_proc p f).
Proof. intros Hf s s' x H. inv_run. unfold memories, allocs. cbn. by split; erewrite fmap_same by (done || apply Hf). Qed.
Lemma memory_procs {A} (m : M A) : (forall s s' x, m s = Some (s', x) -> procs s' = procs s) -> same_memory m.
Proof. intros Hm s s' x H. unfold memories, allocs. by rewrite (Hm _ _ _ H). Qed.

Ltac memory_step :=
  match goal with
  | |- same_memory (_ ≫= _) => apply memory_bind; [|intros]
  | |- same_memory (when _ _) => unfold when
  | |- same_memory (match ?x with _ => _ end) => destruct x
  | |- same_memory (modify _) => apply memory_modify; done
  | |- same_memory (mod_proc _ _) => apply memory_mod_proc; done
  | |- same_memory _ => solve [auto with graph]
  | |- same_memory _ => apply memory_procs; intros; inv_run; done
  | |- same_memory kzalloc => apply memory_procs; intros ? ? ? [(? & ->) _]%kzalloc_run; done
  | |- same_memory next_id => by apply memory_procs; intros ? ? ? [= <- _]
  end; cbv beta zeta.
Ltac memory_auto := repeat memory_step.

Lemma memory_inc_node n strong internal l : same_memory (binder_inc_node n strong internal l).
Proof. unfold binder_inc_node. memory_auto. Qed.
#[export] Hint Resolve memory_inc_node : graph.
Lemma memory_inc_ref r strong l : same_memory (binder_inc_ref r strong l).
Proof. unfold binder_inc_ref. memory_auto. Qed.
Lemma memory_get_node p ptr : same_memory (binder_get_node p ptr).
Proof. unfold binder_get_node. memory_auto. Qed.
Lemma memory_get_ref p ptr : same_memory (binder_get_ref p ptr).
Proof. unfold binder_get_ref. memory_auto. Qed.
Lemma memory_new_node p ptr cookie : same_memory (binder_new_node p ptr cookie).
Proof. unfold binder_new_node. memory_auto. Qed.
Lemma memory_get_ref_for_node p n : same_memory (binder_get_ref_for_node p n).
Proof. unfold binder_get_ref_for_node. memory_auto. Qed.

Lemma the_word_run p a s s' x :
  the_word p a s = Some (s', x) -> s' = s /\ exists m, memories s !! p = Some m /\ x = read_word m a.
Proof.
  intros H. unfold the_word in H. inv_run. split; [done|]. eexists. split; [|done]. unfold memories. by apply lookup_shape.
Qed.
Lemma put_word_run p a v s s' x :
  put_word p a v s = Some (s', x) ->
  exists m, memories s !! p = Some m /\ memories s' = <[p := write_word m a v]> (memories s).
Proof.
  intros H. unfold put_word in H. inv_run. simplify_eq. eexists. unfold memories. cbn. split; [by apply lookup_shape|].
  by rewrite fmap_insert.
Qed.

(** ** Names *)

Definition is_binder (ty : Z) : Prop := ty = BINDER_TYPE_BINDER \/ ty = BINDER_TYPE_WEAK_BINDER.
Definition is_handle (ty : Z) : Prop := ty = BINDER_TYPE_HANDLE \/ ty = BINDER_TYPE_WEAK_HANDLE.
Definition is_strong (ty : Z) : Prop := ty = BINDER_TYPE_BINDER \/ ty = BINDER_TYPE_HANDLE.

(** In the process [p], an object of this type with this value is the node [n]. *)
Inductive names (g : graph) (p ty v n : Z) : Prop :=
  | NamesNode N : is_binder ty -> g_nodes g !! n = Some N -> ns_proc N = Some p -> ns_ptr N = v -> names g p ty v n
  | NamesRef r R : is_handle ty -> g_refs g !! r = Some R -> rs_proc R = p -> rs_desc R = v -> rs_node R = n ->
      names g p ty v n.

Lemma type_cases ty : is_binder ty -> is_handle ty -> False.
Proof. intros [->| ->] [?|?]; discriminate. Qed.

(** A name stands for one node. *)
Lemma names_unique g p P ty v n n' :
  graph_ok g -> g_procs g !! p = Some P -> names g p ty v n -> names g p ty v n' -> n = n'.
Proof.
  intros Hg HP [N Ht HN Fn Kn|r R Ht HR Fr Kr Nr] [N' Ht' HN' Fn' Kn'|r' R' Ht' HR' Fr' Kr' Nr'];
    try (by exfalso; eapply type_cases).
  - eapply (indexed_key_inj _ _ _ _ _ _ _ _ _ (po_nodes _ _ _ (go_proc _ Hg p P HP))); eauto. congruence.
  - assert (r = r') as <-; [|congruence].
    eapply (indexed_key_inj _ _ _ _ _ _ _ _ _ (po_desc _ _ _ (go_proc _ Hg p P HP))); eauto; congruence.
Qed.

(** Nodes and references are added, none is renamed. *)
Definition grows (g g' : graph) : Prop :=
  (forall n N, g_nodes g !! n = Some N ->
     exists N', g_nodes g' !! n = Some N' /\ ns_proc N' = ns_proc N /\ ns_ptr N' = ns_ptr N /\ ns_cookie N' = ns_cookie N) /\
  (forall r R, g_refs g !! r = Some R -> g_refs g' !! r = Some R).
Lemma grows_refl g : grows g g.
Proof. split; eauto. Qed.
Lemma grows_trans g1 g2 g3 : grows g1 g2 -> grows g2 g3 -> grows g1 g3.
Proof.
  intros [H1 H2] [H3 H4]. split; [|by eauto]. intros n N HN.
  destruct (H1 n N HN) as (N2 & HN2 & <- & <- & <-). eauto.
Qed.
Lemma names_grows g g' p ty v n : grows g g' -> names g p ty v n -> names g' p ty v n.
Proof.
  intros [H1 H2] [N Ht HN Fn Kn|r R Ht HR Fr Kr Nr].
  - destruct (H1 n N HN) as (N' & HN' & E1 & E2 & _). eapply NamesNode; eauto; congruence.
  - eapply NamesRef; eauto.
Qed.

Lemma new_node_grows p ptr cookie s s' n :
  binder_new_node p ptr cookie s = Some (s', Some n) ->
  nodes s !! n = None /\ grows (graph_of s) (graph_of s') /\ g_refs (graph_of s') = g_refs (graph_of s) /\
  g_nodes (graph_of s') = <[n := NodeShape (Some p) ptr cookie [] false false]> (g_nodes (graph_of s)).
Proof.
  intros H. unfold binder_new_node in H. inv_run. case_run; [|done].
  match goal with H : kzalloc _ = Some (_, ?o) |- _ => rename H into Hk; destruct o as [n'|] end; [|by inv_run].
  apply kzalloc_run in Hk as [(l' & ->) Hk]. destruct (Hk n' eq_refl) as [_ Hu].
  apply not_in_use in Hu as (_ & _ & Hn & _). inv_run. simplify_eq. split; [done|].
  assert (g_nodes (graph_of s) !! n' = None) as Hn' by (by apply lookup_shape_none).
  assert (forall s1, nodes s1 = <[n' := new_node (s32 (last_id s + 1)) p ptr cookie]> (nodes s) ->
    g_nodes (graph_of s1) = <[n' := NodeShape (Some p) ptr cookie [] false false]> (g_nodes (graph_of s))) as Hs.
  { intros s1 E1. cbn. by rewrite E1, fmap_insert. }
  split; [|by auto]. split; [|by auto]. intros n N HN. rewrite Hs by done. exists N.
  rewrite lookup_insert_ne; [done|]. congruence.
Qed.

Lemma get_ref_for_node_grows p n s s' r :
  graph_ok (graph_of s) -> binder_get_ref_for_node p n s = Some (s', Some r) ->
  grows (graph_of s) (graph_of s') /\
  exists R, refs s' !! r = Some R /\ ref_proc R = p /\ ref_node R = n /\ 0 <= ref_desc R < 2 ^ 32.
Proof.
  intros Hg H. unfold binder_get_ref_for_node in H. apply bind_run in H as (? & P & HP & H). inv_run.
  destruct (indexed_descend _ _ _ _ _ (ref_node_cmp s n) n (po_node _ _ _ (proc_index s Hg p P HP)))
    as [(r' & R & c & tl & tr & ctx & Hdd & HR & [= Fr] & Kr)|(ctx & Hdd & Hne)].
  { intros y R Hy _. by apply ref_node_cmp_shape. }
  { cbn in Hdd. simplify_eq. inv_run. simplify_eq. split; [apply grows_refl|].
    pose proof (go_desc _ Hg _ _ HR). destruct (ref_shape_inv _ _ _ HR) as (R' & HR' & ->). eauto. }
  cbn in Hdd. simplify_eq. inv_run.
  match goal with H : kzalloc _ = Some (_, ?o) |- _ => rename H into Hk; destruct o as [r'|] end; [|by inv_run].
  apply kzalloc_run in Hk as [(l' & ->) Hk]. destruct (Hk r' eq_refl) as [_ Hu].
  apply not_in_use in Hu as (_ & _ & _ & Hr & _). inv_run. simplify_eq. cbn in *.
  match goal with H : desc_loop _ _ _ = Some _ |- _ => rename H into Hl; apply desc_loop_range in Hl; [|by case_if] end.
  split; [|eexists; rewrite lookup_insert_eq; eauto]. split; cbn.
  - intros n' N. rewrite fmap_insert. destruct (decide (n' = n)) as [->|Hn]; [|rewrite lookup_insert_ne by done; eauto].
    rewrite lookup_insert_eq. intros HN. eexists. split; [done|]. rewrite lookup_fmap in HN. simplify_eq.
    by match goal with HX : nodes s !! n = Some _ |- _ => rewrite HX in HN; injection HN as <- end.
  - intros r R HR. rewrite fmap_insert, lookup_insert_ne; [done|]. intros ->. by rewrite lookup_fmap, Hr in HR.
Qed.

(** ** Translation *)

(** What is shown of an object at [fp]: before, the sender's name of [n], which
    may be a node that is made on the way; afterwards, the target's.  The cookie of
    a node is the one that its owner passes. *)
Definition translated (p tp fp ty : Z) (s s' : binder) : Prop :=
  exists n m m', memories s !! tp = Some m /\ memories s' !! tp = Some m' /\
    names (graph_of s') p ty (read_word m (fp_binder fp)) n /\
    names (graph_of s') tp (read_word m' (fp_type fp)) (read_word m' (fp_binder fp)) n /\
    (is_strong (read_word m' (fp_type fp)) <-> is_strong ty) /\
    (names (graph_of s) p ty (read_word m (fp_binder fp)) n \/ nodes s !! n = None) /\
    (is_binder ty -> is_handle (read_word m' (fp_type fp)) /\
       forall N, g_nodes (graph_of s') !! n = Some N -> ns_cookie N = read_word m (fp_cookie fp)).

Lemma type_after m fp ty v : 0 <= ty < 2 ^ 32 ->
  read_word (write_word (write_word m (fp_type fp) ty) (fp_binder fp) v) (fp_type fp) = ty.
Proof. intros H. unfold fp_type, fp_binder. rewrite read_other by lia. by apply read_written. Qed.
Lemma value_after m fp v : 0 <= v < 2 ^ 32 -> read_word (write_word m (fp_binder fp) v) (fp_binder fp) = v.
Proof. apply read_written. Qed.

(** The node of the sender, found or made. *)
Lemma sender_node_run p v cookie (f : binder_node -> binder_node) ty s s' n o :
  graph_ok (graph_of s) -> 0 <= v < 2 ^ 32 -> is_binder ty ->
  (forall N, node_shape_of (f N) = node_shape_of N) ->
  binder_get_node p v s = Some (s, o) ->
  (match o with
   | Some n => mret (Some n)
   | None => o ← binder_new_node p v cookie;
             match o with Some n => mod_node n f;; mret (Some n) | None => mret None end
   end) s = Some (s', Some n) ->
  graph_ok (graph_of s') /\ memories s' = memories s /\ names (graph_of s') p ty v n /\
  (names (graph_of s) p ty v n \/ nodes s !! n = None).
Proof.
  intros Hg Hv Ht Hf Hget H.
  assert (exists P, procs s !! p = Some P) as (P & HP).
  { unfold binder_get_node in Hget. inv_run. eauto. }
  destruct (get_node_spec s Hg p P v HP) as (o' & Hget' & Ho). rewrite Hget in Hget'. injection Hget' as <-.
  destruct o as [n'|].
  - inv_run. simplify_eq. destruct Ho as (N & HN & Fn & Kn).
    assert (names (graph_of s) p ty v n') as Hnm by (eapply NamesNode; [done|by apply lookup_shape|done|done]).
    split_and!; auto.
  - apply bind_run in H as (s1 & o1 & Hnew & H). destruct o1 as [n1|]; [|by inv_run].
    apply bind_run in H as (s2 & ? & Hmod & H). inv_run. simplify_eq.
    pose proof (keeps_new_node p v cookie Hv _ _ _ Hg Hnew) as Hg1.
    pose proof (memory_new_node p v cookie _ _ _ Hnew) as [Hm1 _].
    destruct (new_node_grows _ _ _ _ _ _ Hnew) as (Hn & _ & Hr & Hns).
    match type of Hmod with nodes s1 !! n1 = Some ?N => 
      assert (graph_of (set_nodes (<[n1 := f N]> (nodes s1)) s1) = graph_of s1) as Hs
        by (unfold graph_of; cbn; by rewrite (fmap_same node_shape_of _ _ _ _ Hmod (Hf N))) end.
    rewrite Hs. split_and!; [done|done| |by right]. eapply NamesNode; [done|rewrite Hns, lookup_insert_eq; done|done|done].
Qed.

Lemma translate_binder_names p th tp fp ty s s' :
  graph_ok (graph_of s) -> is_binder ty ->
  translate_binder p th tp fp ty s = Some (s', None) -> translated p tp fp ty s s'.
Proof.
  intros Hg Ht H. unfold translate_binder in H.
  apply bind_run in H as (? & v & Hv & H). apply the_word_run in Hv as (-> & m & Hm & ->).
  apply bind_run in H as (? & cookie & Hc & H). apply the_word_run in Hc as (-> & mc & Hmc & ->).
  rewrite Hm in Hmc. injection Hmc as <-.
  apply bind_run in H as (? & flags & Hf & H). apply the_word_run in Hf as (-> & _).
  apply bind_run in H as (s0 & o & Hget & H). apply bind_run in H as (s1 & o1 & Hn & H).
  assert (s0 = s) as -> by (unfold binder_get_node in Hget; by inv_run).
  destruct o1 as [n|]; [|by inv_run]. apply sender_node_run with (ty := ty) in Hn; try done; [|apply read_word_range].
  destruct Hn as (Hg1 & Hm1 & Hnm1 & Hold).
  apply bind_run in H as (? & N & HN & H). inv_run. case_run; [done|].
  match goal with Hb : read_word m (fp_cookie fp) = node_cookie N |- _ => rename Hb into Hck end.
  match goal with H : binder_get_ref_for_node _ _ _ = Some (?s2, ?o) |- _ => rename H into Hr, s2 into sr; destruct o as [r|] end; [|by inv_run].
  destruct (get_ref_for_node_grows _ _ _ _ _ Hg1 Hr) as (Hgr & R & HR & FR & NR & DR).
  pose proof (memory_get_ref_for_node _ _ _ _ _ Hr) as [Hm2 _].
  assert (forall N', g_nodes (graph_of sr) !! n = Some N' -> ns_cookie N' = read_word m (fp_cookie fp)) as Hnc.
  { intros N' HN'. match goal with HNn : nodes _ !! n = Some N |- _ =>
      destruct (proj1 Hgr n _ (lookup_shape _ _ _ _ HNn)) as (N2 & HN2 & _ & _ & E3) end.
    rewrite HN2 in HN'. injection HN' as <-. rewrite E3. done. }
  inv_run. simplify_eq.
  match goal with H1 : put_word _ _ _ sr = Some (?sa, _), H2 : put_word _ _ _ ?sa = Some (?sb, _),
    H3 : binder_inc_ref _ _ _ ?sb = Some _ |- _ =>
    pose proof (memory_inc_ref _ _ _ _ _ _ H3) as [Hm5 _]; same_run H3; rename H3 into G3;
    pose proof (same_put_word _ _ _ _ _ _ H1) as G1; pose proof (same_put_word _ _ _ _ _ _ H2) as G2;
    apply put_word_run in H1 as (m1 & E1 & E1'); apply put_word_run in H2 as (m2 & E2 & E2') end.
  rewrite Hm2, Hm1 in E1, E1'. rewrite Hm in E1. injection E1 as <-.
  rewrite E1', lookup_insert_eq in E2. injection E2 as <-.
  eexists _, m, _. split; [done|]. split; [rewrite Hm5, E2', lookup_insert_eq; done|].
  rewrite G3, G2, G1, type_after, value_after by (done || by case_if). split_and!.
  - by eapply names_grows.
  - eapply NamesRef; [unfold is_handle; case_if; auto|by apply lookup_shape|done..].
  - destruct Ht as [->| ->]; unfold is_strong; cbn; naive_solver discriminate.
  - done.
  - intros _. split; [unfold is_handle; case_if; auto|exact Hnc].
Qed.

(** A reference to a node of the target becomes the node. *)
Lemma to_node_words tp fp n N m ty strong s s' x :
  memories s !! tp = Some m ->
  (put_word tp (fp_type fp) ty;;
   put_word tp (fp_binder fp) (node_ptr N);;
   put_word tp (fp_cookie fp) (node_cookie N);;
   binder_inc_node n strong false None;;
   mret (@None Z)) s = Some (s', x) ->
  memories s' !! tp =
    Some (write_word (write_word (write_word m (fp_type fp) ty) (fp_binder fp) (node_ptr N)) (fp_cookie fp) (node_cookie N)) /\
  graph_of s' = graph_of s.
Proof.
  intros Hm H. inv_run.
  match goal with H1 : put_word _ _ _ s = Some (?sa, _), H2 : put_word _ _ _ ?sa = Some (?sb, _),
    H3 : put_word _ _ _ ?sb = Some (?sc, _), H4 : binder_inc_node _ _ _ _ ?sc = Some _ |- _ =>
    pose proof (memory_inc_node _ _ _ _ _ _ _ H4) as [Hm5 _]; same_run H4; rename H4 into G4;
    pose proof (same_put_word _ _ _ _ _ _ H1) as G1; pose proof (same_put_word _ _ _ _ _ _ H2) as G2;
    pose proof (same_put_word _ _ _ _ _ _ H3) as G3;
    apply put_word_run in H1 as (m1 & E1 & E1'); apply put_word_run in H2 as (m2 & E2 & E2');
    apply put_word_run in H3 as (m3 & E3 & E3') end.
  rewrite Hm in E1. injection E1 as <-. rewrite E1', lookup_insert_eq in E2. injection E2 as <-.
  rewrite E2', lookup_insert_eq in E3. injection E3 as <-. rewrite Hm5, E3', lookup_insert_eq, G4, G3, G2, G1. done.
Qed.

Lemma translate_to_node p tp fp ty n N m strong s s' x :
  graph_ok (graph_of s) -> is_handle ty -> strong = (ty =? BINDER_TYPE_HANDLE) -> memories s !! tp = Some m ->
  nodes s !! n = Some N -> node_proc N = Some tp -> names (graph_of s) p ty (read_word m (fp_binder fp)) n ->
  (put_word tp (fp_type fp) (if strong then BINDER_TYPE_BINDER else BINDER_TYPE_WEAK_BINDER);;
   put_word tp (fp_binder fp) (node_ptr N);;
   put_word tp (fp_cookie fp) (node_cookie N);;
   binder_inc_node n strong false None;;
   mret (@None Z)) s = Some (s', x) ->
  translated p tp fp ty s s'.
Proof.
  intros Hg Ht -> Hm HN FN Hnm H. destruct (to_node_words _ _ _ _ _ _ _ _ _ _ Hm H) as [Hm' Hg'].
  eexists n, m, _. split; [done|]. split; [exact Hm'|].
  pose proof (go_ptr _ Hg n (node_shape_of N) ltac:(by apply lookup_shape)) as HwN. cbn in HwN.
  rewrite Hg', (read_other _ (fp_cookie fp) (fp_type fp)), (read_other _ (fp_cookie fp) (fp_binder fp)),
    type_after, value_after by (done || (unfold fp_type, fp_binder, fp_cookie; lia) || by case_if).
  split_and!; [done| | |by left|by intros ?%type_cases].
  - eapply NamesNode; [unfold is_binder; case_if; auto|by apply lookup_shape|done|done].
  - destruct Ht as [->| ->]; unfold is_strong; cbn; naive_solver discriminate.
Qed.

(** Any other reference becomes one of the target. *)
Lemma translate_to_ref p tp fp ty n m r strong s sr s' x R :
  is_handle ty -> memories s !! tp = Some m -> ty = read_word m (fp_type fp) ->
  memories sr = memories s -> grows (graph_of s) (graph_of sr) ->
  refs sr !! r = Some R -> ref_proc R = tp -> ref_node R = n -> 0 <= ref_desc R < 2 ^ 32 ->
  names (graph_of s) p ty (read_word m (fp_binder fp)) n ->
  (put_word tp (fp_binder fp) (ref_desc R);; binder_inc_ref r strong None;; mret (@None Z)) sr = Some (s', x) ->
  translated p tp fp ty s s'.
Proof.
  intros Ht Hm Hty Hm2 Hgr HR FR NR DR Hnm H. inv_run.
  match goal with H1 : put_word _ _ _ sr = Some (?sa, _), H3 : binder_inc_ref _ _ _ ?sa = Some _ |- _ =>
    pose proof (memory_inc_ref _ _ _ _ _ _ H3) as [Hm5 _]; same_run H3; rename H3 into G3;
    pose proof (same_put_word _ _ _ _ _ _ H1) as G1; apply put_word_run in H1 as (m1 & E1 & E1') end.
  rewrite Hm2 in E1, E1'. rewrite Hm in E1. injection E1 as <-.
  eexists n, m, _. split; [done|]. split; [rewrite Hm5, E1', lookup_insert_eq; done|].
  rewrite G3, G1, value_after by done. rewrite (read_other _ _ (fp_type fp)), <- Hty by (unfold fp_type, fp_binder; lia).
  split_and!; [by eapply names_grows| |done|by left|by intros ?%type_cases]. eapply NamesRef; [done|by apply lookup_shape|done..].
Qed.

Lemma translate_handle_names p tp fp ty s s' :
  graph_ok (graph_of s) -> is_handle ty ->
  (forall m, memories s !! tp = Some m -> ty = read_word m (fp_type fp)) ->
  translate_handle p tp fp ty s = Some (s', None) -> translated p tp fp ty s s'.
Proof.
  intros Hg Ht Hty H. unfold translate_handle in H.
  apply bind_run in H as (? & v & Hv & H). apply the_word_run in Hv as (-> & m & Hm & ->).
  specialize (Hty m Hm). apply bind_run in H as (s0 & o & Hget & H).
  assert (s0 = s) as -> by (unfold binder_get_ref in Hget; by inv_run).
  assert (exists P, procs s !! p = Some P) as (P & HP) by (unfold binder_get_ref in Hget; inv_run; eauto).
  destruct (get_ref_spec s Hg p P (read_word m (fp_binder fp)) HP) as (o' & Hget' & Ho).
  rewrite Hget in Hget'. injection Hget' as <-.
  destruct o as [r|]; [|by inv_run]. destruct Ho as (R & HR & FR & DR).
  assert (names (graph_of s) p ty (read_word m (fp_binder fp)) (ref_node R)) as Hnm.
  { eapply NamesRef; [done|by apply lookup_shape|done..]. }
  apply bind_run in H as (? & R' & HR' & H). apply bind_run in H as (? & N & HN & H).
  apply the_ref_run in HR' as [-> HR']. apply the_node_run in HN as [-> HN].
  rewrite HR in HR'. injection HR' as <-. destruct (bool_decide (node_proc N = Some tp)) eqn:Hb.
  - apply bool_decide_eq_true in Hb. by eapply translate_to_node.
  - apply bind_run in H as (sr & o & Hr & H). destruct o as [r'|]; [|by inv_run].
    destruct (get_ref_for_node_grows _ _ _ _ _ Hg Hr) as (Hgr & R' & HR' & FR' & NR' & DR').
    pose proof (memory_get_ref_for_node _ _ _ _ _ Hr) as [Hm2 _].
    apply bind_run in H as (? & R2 & HR2 & H). apply the_ref_run in HR2 as [-> HR2].
    rewrite HR' in HR2. injection HR2 as <-. by eapply translate_to_ref.
Qed.

(** * Objects that come back

    An object that a process passes to another one and that is passed back
    arrives with the address and the cookie it had. *)

(** A handle that comes to the process of its node. *)
Lemma translate_handle_home q p fp ty n N s s' m :
  graph_ok (graph_of s) -> is_handle ty -> memories s !! p = Some m ->
  names (graph_of s) q ty (read_word m (fp_binder fp)) n -> g_nodes (graph_of s) !! n = Some N -> ns_proc N = Some p ->
  0 <= ns_cookie N < 2 ^ 32 ->
  translate_handle q p fp ty s = Some (s', None) ->
  exists m', memories s' !! p = Some m' /\
    read_word m' (fp_type fp) = (if ty =? BINDER_TYPE_HANDLE then BINDER_TYPE_BINDER else BINDER_TYPE_WEAK_BINDER) /\
    read_word m' (fp_binder fp) = ns_ptr N /\ read_word m' (fp_cookie fp) = ns_cookie N.
Proof.
  intros Hg Ht Hm Hnm HN FN Hck H. unfold translate_handle in H.
  apply bind_run in H as (? & v & Hv & H). apply the_word_run in Hv as (-> & m1 & Hm1 & ->). simplify_eq.
  apply bind_run in H as (s0 & o & Hget & H). assert (s0 = s) as -> by (unfold binder_get_ref in Hget; by inv_run).
  assert (exists Q, procs s !! q = Some Q) as (Q & HQ) by (unfold binder_get_ref in Hget; inv_run; eauto).
  destruct (get_ref_spec s Hg q Q (read_word m (fp_binder fp)) HQ) as (o' & Hget' & Ho).
  rewrite Hget in Hget'. injection Hget' as <-. destruct o as [r|]; [|by inv_run]. destruct Ho as (R & HR & FR & DR).
  assert (ref_node R = n) as HRn.
  { eapply (names_unique (graph_of s) q (proc_shape_of Q)); [done|by apply lookup_shape| |exact Hnm].
    eapply NamesRef; [done|by apply lookup_shape|done..]. }
  apply bind_run in H as (? & R' & HR' & H). apply bind_run in H as (? & N' & HN' & H).
  apply the_ref_run in HR' as [-> HR']. apply the_node_run in HN' as [-> HN']. simplify_eq.
  apply (lookup_shape node_shape_of) in HN'. cbn in HN. rewrite HN' in HN. injection HN as <-. cbn in FN, Hck.
  rewrite bool_decide_eq_true_2 in H by done. destruct (to_node_words _ _ _ _ _ _ _ _ _ _ Hm H) as [Hm' _].
  pose proof (go_ptr _ Hg _ _ HN') as Hp. cbn in Hp. eexists. split; [exact Hm'|].
  rewrite (read_other _ (fp_cookie fp) (fp_type fp)), (read_other _ (fp_cookie fp) (fp_binder fp)), type_after, value_after,
    read_written by (done || (unfold fp_type, fp_binder, fp_cookie; lia) || by case_if). done.
Qed.

(** C35: an object that is passed on and back is the object it was.  The process
    [p] passes the object at its address with its cookie to [q], which gets a
    handle; when [q] passes that handle back, while the node and the reference
    are still there, [p] gets the type, the address and the cookie it had
    passed. *)
Theorem object_round_trip p th q fp fp' s s1 s2 s3 m m1 m2 :
  graph_ok (graph_of s) -> memories s !! q = Some m -> is_binder (read_word m (fp_type fp)) ->
  translate_binder p th q fp (read_word m (fp_type fp)) s = Some (s1, None) -> memories s1 !! q = Some m1 ->
  graph_ok (graph_of s2) -> grows (graph_of s1) (graph_of s2) -> memories s2 !! p = Some m2 ->
  read_word m2 (fp_binder fp') = read_word m1 (fp_binder fp) ->
  translate_handle q p fp' (read_word m1 (fp_type fp)) s2 = Some (s3, None) ->
  exists m3, memories s3 !! p = Some m3 /\
    read_word m3 (fp_type fp') = read_word m (fp_type fp) /\
    read_word m3 (fp_binder fp') = read_word m (fp_binder fp) /\
    read_word m3 (fp_cookie fp') = read_word m (fp_cookie fp).
Proof.
  intros Hg Hm Ht H1 Hm1 Hg2 Hgr Hm2 Hb2 H2. apply translate_binder_names in H1; [|done..].
  destruct H1 as (n & m' & m1' & E1 & E2 & Nm & Nm1 & Hst & _ & Hck). rewrite Hm in E1. injection E1 as <-.
  rewrite Hm1 in E2. injection E2 as <-. destruct (Hck Ht) as [Ht1 Hck1].
  destruct Nm as [N _ HN FN Kn|r R Ht' _ _ _ _]; [|by destruct (type_cases _ Ht Ht')].
  destruct (proj1 Hgr n N HN) as (N2 & HN2 & F2 & K2 & C2).
  pose proof (read_word_range m (fp_cookie fp)) as Hrange. rewrite <- (Hck1 N HN), <- C2 in Hrange.
  destruct (translate_handle_home q p fp' _ n N2 s2 s3 m2 Hg2 Ht1 Hm2) as (m3 & Hm3 & T3 & V3 & C3); try done.
  - rewrite Hb2. by eapply names_grows.
  - congruence.
  - exists m3. rewrite T3, V3, C3, K2, C2, (Hck1 N HN). split_and!; try done.
    destruct Ht as [Ht|Ht], Ht1 as [Ht1|Ht1]; rewrite Ht, Ht1 in *; try done;
      exfalso; clear -Hst; unfold is_strong in Hst; naive_solver discriminate.
Qed.
