(* ===== verification/BinderObjects.v ===== *)
(** * The objects of a transaction arrive

    The loop over the offsets of a transaction, and the copy it works on: when
    no two objects overlap, every object that the sender names arrives as the
    same node under the target's name. *)

From stdpp Require Import base numbers list gmap.
From S2P Require Import Prelude RbTree RbKeyed RbIndex BinderAlloc BinderTake BinderProtocol BinderCore BinderRefs BinderGraph BinderRun BinderRefsInv BinderTransaction BinderThread BinderDevice BinderInv BinderTranslate.

Open Scope Z_scope.

(** ** What one object changes *)

(** Of the buffers, only the words from [lo] to [hi] of the process [tp]. *)
Definition words_kept (tp lo hi : Z) (s s' : binder) : Prop :=
  allocs s' = allocs s /\
  forall m, memories s !! tp = Some m ->
    exists m', memories s' !! tp = Some m' /\ forall a, a + 4 <= lo \/ hi <= a -> read_word m' a = read_word m a.
Definition writes_only (tp lo hi : Z) {A} (m : M A) : Prop :=
  forall s s' x, m s = Some (s', x) -> words_kept tp lo hi s s'.

Lemma words_kept_refl tp lo hi s : words_kept tp lo hi s s.
Proof. split; eauto. Qed.
Lemma words_kept_trans tp lo hi s1 s2 s3 :
  words_kept tp lo hi s1 s2 -> words_kept tp lo hi s2 s3 -> words_kept tp lo hi s1 s3.
Proof.
  intros [E1 H1] [E2 H2]. split; [congruence|]. intros m Hm. destruct (H1 m Hm) as (m1 & Hm1 & F1).
  destruct (H2 m1 Hm1) as (m2 & Hm2 & F2). exists m2. split; [done|]. intros a Ha. by rewrite F2, F1.
Qed.
Lemma writes_memory tp lo hi {A} (m : M A) : same_memory m -> writes_only tp lo hi m.
Proof. intros Hm s s' x H. destruct (Hm _ _ _ H) as [E1 E2]. split; [done|]. rewrite E1. eauto. Qed.
Lemma writes_bind tp lo hi {A B} (m : M A) (f : A -> M B) :
  writes_only tp lo hi m -> (forall x, writes_only tp lo hi (f x)) -> writes_only tp lo hi (m ≫= f).
Proof. intros Hm Hf s s' x H. inv_run. eapply words_kept_trans; [by eapply Hm|by eapply Hf]. Qed.
Lemma writes_put_word tp lo hi a v : lo <= a -> a + 4 <= hi -> writes_only tp lo hi (put_word tp a v).
Proof.
  intros Hl Hh s s' x H. split.
  - unfold put_word in H. inv_run. simplify_eq. unfold allocs. cbn. by erewrite fmap_same by done.
  - intros m Hm. apply put_word_run in H as (m1 & Hm1 & ->). simplify_eq. rewrite lookup_insert_eq. eexists. split; [done|].
    intros a' Ha. apply read_other. lia.
Qed.

Ltac writes_step :=
  match goal with
  | |- writes_only _ _ _ (_ ≫= _) => apply writes_bind; [|intros]
  | |- writes_only _ _ _ (match ?x with _ => _ end) => destruct x
  | |- writes_only _ _ _ (put_word _ _ _) => apply writes_put_word; unfold fp_type, fp_binder, fp_cookie; lia
  | |- writes_only _ _ _ _ => apply writes_memory; solve [memory_auto]
  end; cbv beta zeta.
Ltac writes_auto := repeat writes_step.

#[export] Hint Resolve memory_inc_ref memory_get_node memory_get_ref memory_new_node memory_get_ref_for_node : graph.
Lemma memory_the_word p a : same_memory (the_word p a).
Proof. unfold the_word. memory_auto. Qed.
#[export] Hint Resolve memory_the_word : graph.

Lemma writes_binder p th tp fp ty : writes_only tp fp (fp + 16) (translate_binder p th tp fp ty).
Proof. unfold translate_binder. writes_auto. Qed.
Lemma writes_handle p tp fp ty : writes_only tp fp (fp + 16) (translate_handle p tp fp ty).
Proof. unfold translate_handle. writes_auto. Qed.
Lemma memory_fds_allowed tg : same_memory (fds_allowed tg).
Proof. unfold fds_allowed. memory_auto. Qed.
Lemma memory_get_unused_fd p : same_memory (task_get_unused_fd_flags p).
Proof. unfold task_get_unused_fd_flags. memory_auto. Qed.
Lemma memory_fd_install p fd file : same_memory (task_fd_install p fd file).
Proof. unfold task_fd_install. memory_auto. Qed.
#[export] Hint Resolve memory_fds_allowed memory_get_unused_fd memory_fd_install : graph.
Lemma writes_fd tg fp : writes_only (tg_proc tg) fp (fp + 16) (translate_fd tg fp).
Proof. unfold translate_fd. writes_auto. Qed.

(** Names are added, none changes. *)
Definition only_grows {A} (m : M A) : Prop :=
  forall s s' x, graph_ok (graph_of s) -> m s = Some (s', x) -> graph_ok (graph_of s') /\ grows (graph_of s) (graph_of s').
Lemma grows_same {A} (m : M A) : same_graph m -> only_grows m.
Proof. intros Hm s s' x Hg H. rewrite (Hm _ _ _ H). split; [done|apply grows_refl]. Qed.
Lemma grows_bind {A B} (m : M A) (f : A -> M B) : only_grows m -> (forall x, only_grows (f x)) -> only_grows (m ≫= f).
Proof.
  intros Hm Hf s s' x Hg H. inv_run. match goal with H1 : m s = Some _ |- _ => apply Hm in H1 as [Hg1 G1]; [|done] end.
  apply Hf in H as [Hg2 G2]; [|done]. split; [done|by eapply grows_trans].
Qed.

Lemma grows_get_ref_for_node p n : only_grows (binder_get_ref_for_node p n).
Proof.
  intros s s' [r|] Hg H; (split; [by eapply keeps_get_ref_for_node|]).
  - by eapply get_ref_for_node_grows.
  - unfold binder_get_ref_for_node in H. inv_run. case_run; [|done].
    match goal with H : kzalloc _ = Some (_, ?o) |- _ => rename H into Hk; destruct o end; inv_run; [done|].
    rewrite (same_kzalloc _ _ _ Hk). apply grows_refl.
Qed.
Lemma grows_new_node p v cookie : 0 <= v < 2 ^ 32 -> only_grows (binder_new_node p v cookie).
Proof.
  intros Hv s s' [n|] Hg H; (split; [by eapply keeps_new_node|]).
  - by eapply new_node_grows.
  - unfold binder_new_node in H. inv_run. case_run; [|inv_run; simplify_eq; apply grows_refl].
    match goal with H : kzalloc _ = Some (_, ?o) |- _ => rename H into Hk; destruct o end; inv_run; [done|].
    rewrite (same_kzalloc _ _ _ Hk). apply grows_refl.
Qed.
#[export] Hint Resolve grows_get_ref_for_node grows_new_node : graph.

Ltac grows_step :=
  match goal with
  | |- only_grows (_ ≫= _) => apply grows_bind; [|intros]
  | |- only_grows (match ?x with _ => _ end) => destruct x
  | |- only_grows _ => solve [auto with graph]
  | |- only_grows _ => apply grows_same; solve [same_auto]
  end; cbv beta zeta.
Ltac grows_auto := repeat grows_step.

Lemma grows_the_word {A} p a (f : Z -> M A) :
  (forall v, 0 <= v < 2 ^ 32 -> only_grows (f v)) -> only_grows (the_word p a ≫= f).
Proof.
  intros Hf s s' x Hg H. apply bind_run in H as (? & v & Hv & H). apply the_word_run in Hv as (-> & m & _ & ->).
  eapply (Hf _ (read_word_range _ a)); [exact Hg|done].
Qed.
Lemma grows_binder p th tp fp ty : only_grows (translate_binder p th tp fp ty).
Proof. unfold translate_binder. apply grows_the_word. intros v Hv. grows_auto. Qed.
Lemma grows_handle p tp fp ty : only_grows (translate_handle p tp fp ty).
Proof. unfold translate_handle. grows_auto. Qed.
Lemma grows_fd tg fp : only_grows (translate_fd tg fp).
Proof. unfold translate_fd. grows_auto. Qed.

Lemma the_buffer_run p b s s' h :
  the_buffer (p, b) s = Some (s', h) -> s' = s /\ exists A, allocs s !! p = Some A /\ header A b = Some h.
Proof.
  intros H. unfold the_buffer in H. inv_run. split; [done|]. eexists. split; [|done].
  unfold allocs. by apply lookup_shape.
Qed.

(** ** One object *)

(** The object at [fp] is the same node before and after. *)
Definition carried (g : graph) (p tp fp : Z) (m m' : gmap Z Z) : Prop :=
  let ty := read_word m (fp_type fp) in
  ty <> BINDER_TYPE_FD ->
  exists n, names g p ty (read_word m (fp_binder fp)) n /\
    names g tp (read_word m' (fp_type fp)) (read_word m' (fp_binder fp)) n /\
    (is_strong (read_word m' (fp_type fp)) <-> is_strong ty).

Lemma translated_carried p tp fp s s' m m' :
  memories s !! tp = Some m -> memories s' !! tp = Some m' ->
  translated p tp fp (read_word m (fp_type fp)) s s' -> carried (graph_of s') p tp fp m m'.
Proof. intros Hm Hm' (n & m1 & m1' & E1 & E2 & H1 & H2 & H3 & _) _. simplify_eq. eauto. Qed.

Lemma good_offset ds off : 0 <= off -> bad_offset ds off = false -> off + 16 <= ds.
Proof.
  unfold bad_offset. change sizeof_flat_object with 16. intros Ho H. unbool.
  pose proof (Z.mod_le (ds - 16) (2 ^ 32)). unfold u32 in *. lia.
Qed.

Record object_step (p tp fp : Z) (s s' : binder) (m m' : gmap Z Z) : Prop := {
  os_graph : graph_ok (graph_of s');
  os_grows : grows (graph_of s) (graph_of s');
  os_allocs : allocs s' = allocs s;
  os_words a : a + 4 <= fp \/ fp + 16 <= a -> read_word m' a = read_word m a;
  os_carried : carried (graph_of s') p tp fp m m' }.

Lemma object_stepped p tp fp s s' m :
  graph_ok (graph_of s') -> grows (graph_of s) (graph_of s') -> words_kept tp fp (fp + 16) s s' ->
  memories s !! tp = Some m ->
  (forall m', memories s' !! tp = Some m' -> carried (graph_of s') p tp fp m m') ->
  exists m', memories s' !! tp = Some m' /\ object_step p tp fp s s' m m'.
Proof. intros Hg Hgr [Ha Hk] Hm Hc. destruct (Hk m Hm) as (m' & Hm' & Hw). exists m'. split; [done|]. by split; auto. Qed.

Lemma translate_object_step p th tg b offp s s' m A h :
  graph_ok (graph_of s) -> memories s !! tg_proc tg = Some m ->
  allocs s !! tg_proc tg = Some A -> header A b = Some h ->
  translate_object p th tg b offp s = Some (s', None) ->
  let fp := buffer_data b + read_word m offp in
  fp + 16 <= buffer_data b + data_size h /\
  exists m', memories s' !! tg_proc tg = Some m' /\ object_step p (tg_proc tg) fp s s' m m'.
Proof.
  intros Hg Hm HA Hh H fp. unfold translate_object in H. apply bind_run in H as (? & h' & Hb & H).
  apply the_buffer_run in Hb as (-> & A' & HA' & Hh'). simplify_eq.
  apply bind_run in H as (? & off & Ho & H). apply the_word_run in Ho as (-> & m1 & Hm1 & ->). simplify_eq.
  destruct (bad_offset _ _) eqn:Hoff; [by inv_run|].
  apply good_offset in Hoff; [|apply read_word_range]. split; [unfold fp; lia|].
  apply bind_run in H as (? & ty & Ht & H). apply the_word_run in Ht as (-> & m2 & Hm2 & ->). simplify_eq.
  fold fp in H. revert H. remember (read_word m (fp_type fp)) as ty eqn:Hty. intros H.
  destruct ((ty =? BINDER_TYPE_BINDER) || (ty =? BINDER_TYPE_WEAK_BINDER)) eqn:Hb.
  { eapply object_stepped; [by eapply grows_binder..|by eapply writes_binder|done|]. intros m' Hm'.
    apply (translated_carried _ _ _ s); [done..|]. rewrite <- Hty. eapply translate_binder_names; [done| |done].
    unfold is_binder. unbool. lia. }
  destruct ((ty =? BINDER_TYPE_HANDLE) || (ty =? BINDER_TYPE_WEAK_HANDLE)) eqn:Hh2.
  { eapply object_stepped; [by eapply grows_handle..|by eapply writes_handle|done|]. intros m' Hm'.
    apply (translated_carried _ _ _ s); [done..|]. rewrite <- Hty. eapply translate_handle_names; [done| | |done].
    - unfold is_handle. unbool. lia.
    - intros m1 Hm1. by simplify_eq. }
  destruct (ty =? BINDER_TYPE_FD) eqn:Hf; [|by inv_run].
  eapply object_stepped; [by eapply grows_fd..|by eapply writes_fd|done|]. intros m' Hm' Hn. unbool. congruence.
Qed.

(** ** The loop *)

(** The [i]-th object of a buffer, by the array of offsets at [offp]. *)
Definition object_at (m : gmap Z Z) (b offp i : Z) : Z := buffer_data b + read_word m (offp + 4 * i).
(** No two objects of an array of [k] offsets overlap. *)
Definition apart (m : gmap Z Z) (b offp k : Z) : Prop :=
  forall i j, 0 <= i < j -> j < k ->
    object_at m b offp i + 16 <= object_at m b offp j \/ object_at m b offp j + 16 <= object_at m b offp i.

(** The outcome of the loop over [k] offsets, of objects that end by [lim]. *)
Record objects_step (p tp b lim offp k : Z) (s s' : binder) (m m' : gmap Z Z) : Prop := {
  obs_graph : graph_ok (graph_of s');
  obs_grows : grows (graph_of s) (graph_of s');
  obs_words a : (forall i, 0 <= i < k -> a + 4 <= object_at m b offp i \/ object_at m b offp i + 16 <= a) ->
    read_word m' a = read_word m a;
  obs_end i : 0 <= i < k -> object_at m b offp i + 16 <= lim;
  obs_carried i : 0 <= i < k -> carried (graph_of s') p tp (object_at m b offp i) m m' }.

Lemma object_at_next m b offp i : object_at m b (offp + 4) i = object_at m b offp (i + 1).
Proof. unfold object_at. do 2 f_equal. lia. Qed.

Lemma carried_before g p tp fp m m1 m' :
  (forall a, fp <= a <= fp + 12 -> read_word m1 a = read_word m a) -> carried g p tp fp m1 m' -> carried g p tp fp m m'.
Proof. unfold carried, fp_type, fp_binder. intros H. rewrite !H by lia. done. Qed.
Lemma carried_after g g' p tp fp m m1 m' :
  (forall a, fp <= a <= fp + 12 -> read_word m' a = read_word m1 a) -> grows g g' ->
  carried g p tp fp m m1 -> carried g' p tp fp m m'.
Proof.
  unfold carried, fp_type, fp_binder. intros H Hgr Hc Hf. rewrite !H by lia.
  destruct (Hc Hf) as (n & H1 & H2 & H3). exists n. split_and!; [by eapply names_grows..|done].
Qed.

Lemma words_apart m m1 b offp k fp :
  fp + 16 <= offp -> (forall a, a + 4 <= fp \/ fp + 16 <= a -> read_word m1 a = read_word m a) ->
  forall i, 0 <= i < k -> object_at m1 b offp i = object_at m b offp i.
Proof. intros Hf Hw i Hi. unfold object_at. rewrite Hw by lia. done. Qed.

(** The first object, then the others. *)
Lemma objects_step_cons p tp b lim offp k s s1 s' m m1 m' :
  object_at m b offp 0 + 16 <= lim -> lim <= offp -> apart m b offp (k + 1) -> 0 <= k ->
  object_step p tp (object_at m b offp 0) s s1 m m1 ->
  objects_step p tp b lim (offp + 4) k s1 s' m1 m' ->
  objects_step p tp b lim offp (k + 1) s s' m m'.
Proof.
  intros Hend Hlim Hap Hk [G1 Gr1 _ W1 C1] [G2 Gr2 W2 E2 C2].
  assert (forall i, 0 <= i < k -> object_at m1 b (offp + 4) i = object_at m b offp (i + 1)) as Hat.
  { intros i Hi. rewrite <- object_at_next. eapply words_apart; [|exact W1|done]. lia. }
  split; [done|by eapply grows_trans|..].
  - intros a Ha. rewrite W2, W1; [done|apply Ha; lia|]. intros i Hi. rewrite Hat by done. apply Ha. lia.
  - intros i Hi. destruct (decide (i = 0)) as [->|Hne]; [done|].
    replace i with ((i - 1) + 1) by lia. rewrite <- Hat by lia. apply E2. lia.
  - intros i Hi. destruct (decide (i = 0)) as [->|Hne].
    + eapply carried_after; [|exact Gr2|exact C1]. intros a Ha. apply W2. intros i Hi'. rewrite Hat by done.
      destruct (Hap 0 (i + 1)); lia.
    + replace i with ((i - 1) + 1) by lia. rewrite <- Hat by lia. eapply carried_before; [|apply C2; lia].
      intros a Ha. rewrite Hat in Ha by lia. apply W1. destruct (Hap 0 (i - 1 + 1)); lia.
Qed.

Lemma translate_loop_step p th tg b A h : forall fuel offp k s s' m,
  graph_ok (graph_of s) -> memories s !! tg_proc tg = Some m ->
  allocs s !! tg_proc tg = Some A -> header A b = Some h -> buffer_data b + data_size h <= offp ->
  0 <= k -> apart m b offp k ->
  translate_loop fuel p th tg b offp (offp + 4 * k) s = Some (s', None) ->
  exists m', memories s' !! tg_proc tg = Some m' /\ objects_step p (tg_proc tg) b (buffer_data b + data_size h) offp k s s' m m'.
Proof.
  induction fuel as [|fuel IH]; intros offp k s s' m Hg Hm HA Hh Hoff Hk Hap H; cbn in H;
    destruct (_ <=? offp) eqn:Hle; unbool.
  1,3: inv_run; exists m; split; [done|]; split; [done|apply grows_refl|done|lia..].
  { by inv_run. }
  apply bind_run in H as (s1 & e & H1 & H). destruct e as [e|]; [by inv_run|].
  destruct (translate_object_step _ _ _ _ _ _ _ _ _ _ Hg Hm HA Hh H1) as (Hend & m1 & Hm1 & Hstep).
  replace k with ((k - 1) + 1) by lia.
  assert (object_at m b offp 0 = buffer_data b + read_word m offp) as Hat.
  { unfold object_at. do 2 f_equal. lia. }
  rewrite <- Hat in Hend, Hstep.
  destruct (IH (offp + 4) (k - 1) s1 s' m1) as (m' & Hm' & Hrest).
  - apply Hstep.
  - done.
  - by rewrite (os_allocs _ _ _ _ _ _ _ Hstep).
  - done.
  - lia.
  - lia.
  - intros i j Hi Hj. rewrite !(words_apart m m1 b (offp + 4) (k - 1) (object_at m b offp 0)); try lia;
      [|apply Hstep..]. rewrite !object_at_next. apply Hap; lia.
  - by replace (offp + 4 + 4 * (k - 1)) with (offp + 4 * k) by lia.
  - exists m'. split; [done|]. eapply objects_step_cons; [lia|done| |lia|done|done].
    by replace (k - 1 + 1) with k by lia.
Qed.

(** ** The copy *)

Lemma read_prefix_get m n : forall a i,
  length (read_prefix m a n) = n -> 0 <= i < Z.of_nat n -> m !! (a + i) = Some (bget (read_prefix m a n) i).
Proof.
  induction n as [|n IH]; intros a i; cbn [read_prefix]; [lia|]. intros Hl Hi.
  destruct (m !! a) as [x|] eqn:Ha; [|done]. cbn in Hl. destruct (decide (i = 0)) as [->|Hne].
  - by rewrite Z.add_0_r, Ha.
  - replace (a + i) with ((a + 1) + (i - 1)) by lia. rewrite (IH (a + 1) (i - 1)) by lia.
    unfold bget. replace (Z.to_nat i) with (S (Z.to_nat (i - 1))) by lia. done.
Qed.

(** All of it is there when nothing is left. *)
Lemma copy_from_user_all m from n bs :
  0 <= n -> copy_from_user m from n = (bs, 0) ->
  zlen bs = n /\ forall i, 0 <= i < n -> um_bytes m !! (from + i) = Some (bget bs i).
Proof.
  intros Hn. unfold copy_from_user. case_if; intros [= <- Hr].
  - assert (length (read_prefix (um_bytes m) from (Z.to_nat n)) = Z.to_nat n) as Hl by (unfold zlen in Hr; lia).
    rewrite Hl, Nat.sub_diag, app_nil_r. split; [unfold zlen; lia|]. intros i Hi. apply read_prefix_get; [done|lia].
  - subst. split; [done|lia].
Qed.

Lemma copy_in_run p a from n s s' :
  0 <= n -> copy_in p a from n s = Some (s', true) ->
  exists m m1, memories s !! p = Some m /\ memories s' !! p = Some m1 /\
    allocs s' = allocs s /\ user s' = user s /\ graph_of s' = graph_of s /\
    (forall x, a <= x < a + n -> m1 !! x = um_bytes (user s) !! (x - a + from)) /\
    (forall x, x < a \/ a + n <= x -> m1 !! x = m !! x).
Proof.
  intros Hn H. pose proof (same_copy_in p a from n _ _ _ H) as Hg. unfold copy_in in H. inv_run.
  destruct (copy_from_user _ _ _) as [bs rest] eqn:Hc. inv_run.
  match goal with Hr : true = (rest =? 0) |- _ => apply eq_sym, Z.eqb_eq in Hr; subst end.
  match goal with H1 : procs s !! p = Some ?P, H2 : procs s !! p = Some ?P' |- _ =>
    rewrite H1 in H2; injection H2 as -> end.
  destruct (copy_from_user_all _ _ _ _ Hn Hc) as [Hl Hb].
  eexists _, _. unfold memories, allocs. cbn. rewrite fmap_insert, lookup_insert_eq.
  split; [by apply lookup_shape|]. split; [done|]. split; [by erewrite fmap_same by done|]. split; [done|]. split; [exact Hg|]. split.
  - intros x Hx. cbn. rewrite write_bytes_lookup, Hl. case_if; [|lia].
    replace (x - a + from) with (from + (x - a)) by lia. by rewrite Hb by lia.
  - intros x Hx. cbn. rewrite write_bytes_lookup, Hl. case_if; [lia|done].
Qed.

(** The objects that the sender passes and those that the target gets: the
    [i]-th offset is [off]. *)
Definition delivered (g : graph) (p tp b : Z) (tr : binder_transaction_data) (u m' : gmap Z Z) (i : Z) : Prop :=
  let off := read_word u (tr_offsets tr + 4 * i) in
  let from := tr_buffer tr + off in
  let to := buffer_data b + off in
  let ty := read_word u (fp_type from) in
  ty <> BINDER_TYPE_FD ->
  exists n, names g p ty (read_word u (fp_binder from)) n /\
    names g tp (read_word m' (fp_type to)) (read_word m' (fp_binder to)) n /\
    (is_strong (read_word m' (fp_type to)) <-> is_strong ty).

Lemma ALIGN_le x : 0 <= x <= 2 ^ 32 - 4 -> x <= ALIGN x.
Proof. intros H. rewrite ALIGN_eq, u32_small by lia. Z.to_euclidean_division_equations; lia. Qed.

Lemma read_word_moved m u a c : (forall k, 0 <= k < 4 -> m !! (a + k) = u !! (c + k)) -> read_word m a = read_word u c.
Proof. intros H. unfold read_word. cbn. by rewrite !H by lia. Qed.

(** What the two copies of a transaction leave in the buffer. *)
Lemma copies_run p b tr s s1 s2 A h :
  let ds := tr_data_size tr in let os := tr_offsets_size tr in let offp := offsets_start b ds in
  0 <= ds <= 2 ^ 32 - 4 -> 0 <= os -> allocs s !! p = Some A -> header A b = Some h ->
  copy_in p (buffer_data b) (tr_buffer tr) ds s = Some (s1, true) ->
  copy_in p offp (tr_offsets tr) os s1 = Some (s2, true) ->
  exists m, memories s2 !! p = Some m /\ allocs s2 = allocs s /\ graph_of s2 = graph_of s /\
    (forall x, 0 <= x -> x + 4 <= ds -> read_word m (buffer_data b + x) = read_word (um_bytes (user s)) (tr_buffer tr + x)) /\
    (forall x, 0 <= x -> x + 4 <= os -> read_word m (offp + x) = read_word (um_bytes (user s)) (tr_offsets tr + x)).
Proof.
  intros ds os offp Hds Hos HA Hh H1 H2. pose proof (ALIGN_le ds Hds) as Hal.
  apply copy_in_run in H1 as (m0 & m1 & _ & Hm1 & A1 & U1 & G1 & I1 & _); [|lia].
  apply copy_in_run in H2 as (m1' & m & Hm1' & Hm & A2 & U2 & G2 & I2 & O2); [|lia].
  rewrite Hm1 in Hm1'. injection Hm1' as <-. rewrite U1 in I2.
  exists m. split; [done|]. split; [congruence|]. split; [congruence|]. split.
  - intros x Hx Hx'. apply read_word_moved. intros k Hk.
    rewrite O2, I1 by (unfold offp, offsets_start; lia). f_equal. lia.
  - intros x Hx Hx'. apply read_word_moved. intros k Hk. rewrite I2 by lia. f_equal. lia.
Qed.

(** The objects do not overlap where the sender has them. *)
Definition offsets_apart (u : gmap Z Z) (tr : binder_transaction_data) : Prop :=
  forall i j, 0 <= i < j -> 4 * j < tr_offsets_size tr ->
    let off k := read_word u (tr_offsets tr + 4 * k) in off i + 16 <= off j \/ off j + 16 <= off i.

(** C5: a transaction whose objects do not overlap is copied and translated
    without an error only if every binder object and handle that the sender
    passed names a node; then the target's copy of the object, at the same
    offset, names the same node in the target's process, and is strong exactly
    if the sender's was. *)
Theorem fill_buffer_delivers p th tr tg b s s' A h :
  graph_ok (graph_of s) -> allocs s !! tg_proc tg = Some A -> header A b = Some h ->
  data_size h = tr_data_size tr -> 0 <= tr_data_size tr <= 2 ^ 32 - 4 -> 0 <= tr_offsets_size tr ->
  offsets_apart (um_bytes (user s)) tr ->
  fill_buffer p th tr tg b s = Some (s', None) ->
  graph_ok (graph_of s') /\
  exists m', memories s' !! tg_proc tg = Some m' /\
    forall i, 0 <= i -> 4 * i < tr_offsets_size tr ->
      delivered (graph_of s') p (tg_proc tg) b tr (um_bytes (user s)) m' i.
Proof.
  intros Hg HA Hh Eds Hds Hos Hap H. unfold fill_buffer in H.
  apply bind_run in H as (s1 & ok & H1 & H). destruct ok; cbn [negb] in H; [|by inv_run].
  apply bind_run in H as (s2 & ok & H2 & H). destruct ok; cbn [negb] in H; [|by inv_run].
  destruct (Z.land (tr_offsets_size tr) 3 =? 0) eqn:H4; cbn [negb] in H; [|by inv_run].
  destruct (copies_run _ _ _ _ _ _ _ _ Hds Hos HA Hh H1 H2) as (m & Hm & A2 & G2 & Hd & Ho).
  set (offp := offsets_start b (tr_data_size tr)) in *. set (k := tr_offsets_size tr / 4).
  assert (tr_offsets_size tr = 4 * k) as Hk.
  { apply Z.eqb_eq in H4. change 3 with (Z.ones 2) in H4. rewrite Z.land_ones in H4 by lia.
    unfold k. Z.to_euclidean_division_equations; lia. }
  assert (forall i, 0 <= i < k -> object_at m b offp i = buffer_data b + read_word (um_bytes (user s)) (tr_offsets tr + 4 * i)) as Hat.
  { intros i Hi. unfold object_at. by rewrite Ho by lia. }
  pose proof (ALIGN_le _ Hds) as Hal. rewrite Hk in H.
  remember (Z.to_nat (4 * k / 4 + 1)) as fuel.
  destruct (translate_loop_step p th tg b A h fuel offp k s2 s' m) as (m' & Hm' & [Hg' _ _ Hend Hc]); try done.
  - by rewrite G2.
  - by rewrite A2.
  - rewrite Eds. unfold offp, offsets_start. lia.
  - lia.
  - intros i j Hi Hj. rewrite !Hat by lia. destruct (Hap i j); lia.
  - split; [done|]. exists m'. split; [done|]. intros i Hi Hi'. specialize (Hend i). specialize (Hc i).
    rewrite Hat in Hend, Hc by lia. pose proof (read_word_range (um_bytes (user s)) (tr_offsets tr + 4 * i)).
    unfold delivered, carried, fp_type, fp_binder in *. rewrite <- !Z.add_assoc in *.
    rewrite !Hd in Hc by lia. apply Hc. lia.
Qed.
