(* ===== verification/BinderReply.v ===== *)
(** * Replies

    The stacks of transactions of the threads: what a reply does to them, and
    that a caller gets an answer, be it the reply or an error. *)

From stdpp Require Import base numbers list gmap fin_maps.
From S2P Require Import Prelude RbTree RbKeyed RbIndex BinderAlloc BinderProtocol BinderCore BinderRefs BinderGraph BinderRun BinderRefsInv BinderTransaction.

Open Scope Z_scope.

Create HintDb calls.

(** ** Operations that leave threads and transactions alone *)

Definition same_calls {A} (m : M A) : Prop :=
  forall s s' x, m s = Some (s', x) ->
    threads s' = threads s /\ transactions s' = transactions s /\ env s' = env s.

Lemma calls_bind {A B} (m : M A) (f : A -> M B) : same_calls m -> (forall x, same_calls (f x)) -> same_calls (m ≫= f).
Proof. intros Hm Hf s s' x H. inv_run. apply Hf in H as (-> & -> & ->). by eapply Hm. Qed.
Lemma calls_kzalloc : same_calls kzalloc.
Proof. by intros s s' o [(l & ->) _]%kzalloc_run. Qed.
Lemma calls_next_id : same_calls next_id.
Proof. by intros s s' o [= <- _]. Qed.
#[export] Hint Resolve calls_kzalloc calls_next_id : calls.

Ltac calls_step :=
  match goal with
  | |- same_calls (_ ≫= _) => apply calls_bind; [|intros]
  | |- same_calls (when _ _) => unfold when
  | |- same_calls (match ?x with _ => _ end) => destruct x
  | |- same_calls _ => solve [auto with calls]
  | |- same_calls _ => intros ? ? ? ?; inv_run; done
  end; cbv beta zeta.
Ltac calls_auto := repeat calls_step.

Lemma calls_unlink w : same_calls (unlink w).
Proof. unfold unlink. calls_auto. Qed.
#[export] Hint Resolve calls_unlink : calls.
Lemma calls_inc_node n strong internal l : same_calls (binder_inc_node n strong internal l).
Proof. unfold binder_inc_node. calls_auto. Qed.
Lemma calls_dec_node n strong internal : same_calls (binder_dec_node n strong internal).
Proof. unfold binder_dec_node, unhash_node, free_node. calls_auto. Qed.
#[export] Hint Resolve calls_inc_node calls_dec_node : calls.
Lemma calls_get_node p v : same_calls (binder_get_node p v).
Proof. unfold binder_get_node. calls_auto. Qed.
Lemma calls_new_node p v c : same_calls (binder_new_node p v c).
Proof. unfold binder_new_node. calls_auto. Qed.
Lemma calls_get_ref p v : same_calls (binder_get_ref p v).
Proof. unfold binder_get_ref. calls_auto. Qed.
Lemma calls_get_ref_for_node p n : same_calls (binder_get_ref_for_node p n).
Proof. unfold binder_get_ref_for_node. calls_auto. Qed.
Lemma calls_inc_ref r strong l : same_calls (binder_inc_ref r strong l).
Proof. unfold binder_inc_ref. calls_auto. Qed.
Lemma calls_delete_ref r : same_calls (binder_delete_ref r).
Proof. unfold binder_delete_ref, free_death. calls_auto. Qed.
#[export] Hint Resolve calls_get_node calls_new_node calls_get_ref calls_get_ref_for_node calls_inc_ref calls_delete_ref : calls.
Lemma calls_dec_ref r strong : same_calls (binder_dec_ref r strong).
Proof. unfold binder_dec_ref, drop_ref. calls_auto. Qed.
#[export] Hint Resolve calls_dec_ref : calls.
Lemma calls_the_word p a : same_calls (the_word p a).
Proof. unfold the_word. calls_auto. Qed.
Lemma calls_put_word p a v : same_calls (put_word p a v).
Proof. unfold put_word. calls_auto. Qed.
Lemma calls_copy_in p a from n : same_calls (copy_in p a from n).
Proof. unfold copy_in. calls_auto. Qed.
Lemma calls_the_buffer pb : same_calls (the_buffer pb).
Proof. unfold the_buffer. calls_auto. Qed.
Lemma calls_mod_buffer pb f : same_calls (mod_buffer pb f).
Proof. unfold mod_buffer. calls_auto. Qed.
Lemma calls_get_unused_fd p : same_calls (task_get_unused_fd_flags p).
Proof. unfold task_get_unused_fd_flags. calls_auto. Qed.
Lemma calls_fd_install p fd file : same_calls (task_fd_install p fd file).
Proof. unfold task_fd_install. calls_auto. Qed.
Lemma calls_close_fd p fd : same_calls (task_close_fd p fd).
Proof. unfold task_close_fd. calls_auto. Qed.
#[export] Hint Resolve calls_the_word calls_put_word calls_copy_in calls_the_buffer calls_mod_buffer
  calls_get_unused_fd calls_fd_install calls_close_fd : calls.
Lemma calls_release_object p b offp failed : same_calls (release_object p b offp failed).
Proof. unfold release_object. calls_auto. Qed.
#[export] Hint Resolve calls_release_object : calls.
Lemma calls_release_loop fuel p b failed : forall offp off_end, same_calls (release_loop fuel p b offp off_end failed).
Proof. induction fuel as [|fuel IH]; intros offp off_end; cbn [release_loop]; calls_auto. Qed.
#[export] Hint Resolve calls_release_loop : calls.
Lemma calls_buffer_release p b failed_at : same_calls (binder_transaction_buffer_release p b failed_at).
Proof. unfold binder_transaction_buffer_release. calls_auto. Qed.
Lemma calls_fds_allowed tg : same_calls (fds_allowed tg).
Proof. unfold fds_allowed. calls_auto. Qed.
#[export] Hint Resolve calls_fds_allowed : calls.
Lemma calls_translate_object p th tg b offp : same_calls (translate_object p th tg b offp).
Proof. unfold translate_object, translate_binder, translate_handle, translate_fd. calls_auto. Qed.
#[export] Hint Resolve calls_buffer_release calls_translate_object : calls.
Lemma calls_translate_loop fuel p th tg b : forall offp off_end, same_calls (translate_loop fuel p th tg b offp off_end).
Proof. induction fuel as [|fuel IH]; intros offp off_end; cbn [translate_loop]; calls_auto. Qed.
#[export] Hint Resolve calls_translate_loop : calls.
Lemma calls_fill_buffer p th tr tg b : same_calls (fill_buffer p th tr tg b).
Proof. unfold fill_buffer. calls_auto. Qed.
Lemma calls_free_buf p b : same_calls (free_buf p b).
Proof. unfold free_buf. calls_auto. Qed.
Lemma calls_alloc_buf p ds os async : same_calls (alloc_buf p ds os async).
Proof. unfold alloc_buf. calls_auto. Qed.
#[export] Hint Resolve calls_fill_buffer calls_free_buf calls_alloc_buf : calls.

Lemma calls_free_complete w : same_calls (free_complete w).
Proof. unfold free_complete. calls_auto. Qed.
#[export] Hint Resolve calls_free_complete : calls.

Ltac calls_run H :=
  match type of H with ?m ?s = Some _ =>
    let K := fresh in assert (same_calls m) as K by calls_auto; apply K in H as (? & ? & ?); clear K
  end.

(** ** A transaction goes *)

(** What happens to threads and transactions when a transaction is popped off
    the stack of its sender. *)
Lemma pop_run th t s s' x :
  binder_pop_transaction (Some th) t s = Some (s', x) ->
  exists TH X, threads s !! th = Some TH /\ transactions s !! t = Some X /\
    transaction_stack TH = Some t /\ t_from X = Some th /\
    threads s' = <[th := set_transaction_stack (from_parent X) TH]> (threads s) /\
    transactions s' = delete t (transactions s).
Proof.
  intros H. unfold binder_pop_transaction in H. inv_run.
  match goal with HX : (match t_buffer ?X with Some b => _ | None => _ end) _ = Some _ |- _ => calls_run HX end.
  unfold free_transaction in H. inv_run. cbn in *. unbool.
  repeat match goal with HB : bool_decide _ = true |- _ => apply bool_decide_eq_true in HB end.
  simplify_map_eq. eexists _, _. split_and!; try done.
  match goal with H1 : transactions ?s1 = _ |- delete t (transactions ?s1) = _ => rewrite H1 end.
  by rewrite insert_insert_eq, delete_insert_eq.
Qed.

Definition has_room (TH : binder_thread) : Prop := return_error TH = BR_OK \/ return_error2 TH = BR_OK.
Lemma shift_room TH : has_room TH -> return_error (shift_error TH) = BR_OK.
Proof. unfold has_room, shift_error. intros [H|H]; rewrite H; case_if; unbool; [done|lia|done|lia]. Qed.
Lemma shift_stack TH : transaction_stack (shift_error TH) = transaction_stack TH.
Proof. unfold shift_error. by case_if. Qed.

(** A sender that is still there gets the error. *)
Lemma failed_reply_run th TH t X e s s' x :
  threads s !! th = Some TH -> transactions s !! t = Some X -> t_from X = Some th -> has_room TH ->
  binder_send_failed_reply t e s = Some (s', x) ->
  threads s' = <[th := set_return_error e (set_transaction_stack (from_parent X) (shift_error TH))]> (threads s) /\
  transactions s' = delete t (transactions s).
Proof.
  intros HT HX Hf Hroom H. unfold binder_send_failed_reply in H. inv_run.
  match goal with H0 : failed_reply_loop ?n _ _ _ = _ |- _ => destruct n; cbn [failed_reply_loop] in H0; [done|] end.
  apply bind_run in H as (? & X' & HX' & H). apply the_transaction_run in HX' as [-> HX']. simplify_eq. rewrite Hf in H.
  apply bind_run in H as (? & ? & Hm & H). apply mod_thread_run in Hm as (TH' & HT' & ->). simplify_eq.
  apply bind_run in H as (? & TH2 & HT2 & H). apply the_thread_run in HT2 as [-> HT2].
  cbn in HT2. rewrite lookup_insert_eq in HT2. injection HT2 as <-.
  rewrite (shift_room _ Hroom) in H. change (BR_OK =? BR_OK) with true in H. cbn iota in H.
  apply bind_run in H as (s2 & ? & Hp & H). apply pop_run in Hp as (TH' & X' & H3 & H4 & _ & _ & H7 & H8).
  apply mod_thread_run in H as (TH2 & HT2 & ->). cbn in H3, H4, H7, H8 |- *. rewrite H7 in *. simplify_map_eq.
  split; [|done]. by rewrite !insert_insert_eq.
Qed.

(** ** What a failure is *)

(** The errors of an operation: the transaction failed, or whatever was in a
    variable that was not set. *)
Definition fails_with {A} (err : A -> option Z) (m : M A) : Prop :=
  forall s s' x e, m s = Some (s', x) -> err x = Some e -> e = BR_FAILED_REPLY \/ e = uninit (env s).

Lemma fails_bind {A B} (err : B -> option Z) (m : M A) (f : A -> M B) :
  same_calls m -> (forall x, fails_with err (f x)) -> fails_with err (m ≫= f).
Proof.
  intros Hm Hf s s' x e H He. apply bind_run in H as (s1 & y & H1 & H). apply Hm in H1 as (_ & _ & <-).
  by eapply Hf.
Qed.
Lemma fails_uninit : fails_with id (w ← gets env; mret (Some (uninit w))).
Proof. intros s s' x e H He. inv_run. cbn in He. simplify_eq. by right. Qed.
Lemma fails_bad A (err : A -> option Z) x : err x = Some BR_FAILED_REPLY \/ err x = None -> fails_with err (mret x).
Proof. intros Hx s s' y e H He. inv_run. simplify_eq. destruct Hx; simplify_eq. by left. Qed.
Lemma fails_bug A (err : A -> option Z) : fails_with err bug.
Proof. done. Qed.
#[export] Hint Resolve fails_uninit fails_bug : calls.

Ltac fails_step :=
  match goal with
  | |- fails_with _ _ => solve [auto with calls]
  | |- fails_with _ (_ ≫= _) => apply fails_bind; [solve [calls_auto]|intros]
  | |- fails_with _ (match ?x with _ => _ end) => destruct x
  | |- fails_with _ (mret _) => apply fails_bad; solve [auto]
  end; cbv beta zeta.
Ltac fails_auto := repeat fails_step.

Lemma fails_translate_object p th tg b offp : fails_with id (translate_object p th tg b offp).
Proof. unfold translate_object, translate_binder, translate_handle, translate_fd. fails_auto. Qed.
Lemma fails_translate_loop p th tg b : forall fuel offp off_end,
  fails_with (fmap fst) (translate_loop fuel p th tg b offp off_end).
Proof.
  induction fuel as [|fuel IH]; intros offp off_end; cbn [translate_loop]; case_if.
  1,2,3: fails_auto.
  intros s s' x e H He. apply bind_run in H as (s1 & o & Ho & H). destruct o as [e'|].
  - inv_run. cbn in He. simplify_eq. by eapply fails_translate_object.
  - apply calls_translate_object in Ho as (_ & _ & <-). by eapply IH.
Qed.
#[export] Hint Resolve fails_translate_loop : calls.
Lemma fails_fill_buffer p th tr tg b : fails_with (fmap fst) (fill_buffer p th tr tg b).
Proof. unfold fill_buffer. fails_auto. Qed.

(** ** Sending a reply *)

Lemma add_tail_here w l s s' x : add_tail w l s = Some (s', x) -> w ∈ todo s' l.
Proof.
  unfold add_tail. destruct (owner_there _ _); [|done]. intros [= <- _]. unfold todo at 1. cbn.
  rewrite lookup_insert_eq. cbn. set_solver.
Qed.
Lemma add_tail_stays w l w' l' s s' x : add_tail w' l' s = Some (s', x) -> w ∈ todo s l -> w ∈ todo s' l.
Proof.
  unfold add_tail. destruct (owner_there _ _); [|done]. intros [= <- _] Hw. unfold todo at 1. cbn.
  destruct (decide (l = l')) as [->|Hne]; [rewrite lookup_insert_eq; cbn; set_solver|by rewrite lookup_insert_ne].
Qed.

Section reply.
Context (p th c t : Z) (tr : binder_transaction_data) (tg : target).
Hypothesis (Htg : tg_thread tg = Some c).
Hypothesis (Hin : in_reply_to tg = Some t).

Lemma commit_reply_run t' b tcomplete s s' x :
  commit th tg true t' b tcomplete s = Some (s', x) ->
  exists TC X, threads s !! c = Some TC /\ transactions s !! t = Some X /\
    threads s' = <[c := set_transaction_stack (from_parent X) TC]> (threads s) /\
    transactions s' = delete t (transactions s) /\ WTransaction t' ∈ todo s' (ThreadTodo c).
Proof.
  intros H. unfold commit in H. rewrite Htg, Hin in H.
  apply bind_run in H as (? & X' & HX' & H). apply the_transaction_run in HX' as [-> _].
  apply bind_run in H as (s1 & h & Hh & H). calls_run Hh.
  apply bind_run in H as (s2 & l & Hp & H). apply bind_run in Hp as (s3 & ? & Hb & Hp). apply bug_on_run in Hb as [-> _].
  apply bind_run in Hp as (s3 & ? & Hp & Hl). apply ret_run in Hl as [-> ->].
  apply pop_run in Hp as (TC & X & HT & HX & _ & _ & E1 & E2).
  apply bind_run in H as (s4 & ? & Ha & H). pose proof (add_tail_here _ _ _ _ _ Ha) as Hw.
  eapply add_tail_stays in Hw; [|exact H]. calls_run Ha. calls_run H.
  exists TC, X. split_and!; congruence.
Qed.

(** What a reply that was sent is, and what a failed one leaves. *)
Definition reply_sent (s s' : binder) (o : option Z) : Prop :=
  match o with
  | Some e =>
      threads s' = threads s /\ transactions s' = transactions s /\ (e = BR_FAILED_REPLY \/ e = uninit (env s))
  | None =>
      exists t' X' TC X, transactions s !! t' = None /\ threads s !! c = Some TC /\ transactions s !! t = Some X /\
        threads s' = <[c := set_transaction_stack (from_parent X) TC]> (threads s) /\
        transactions s' = delete t (<[t' := X']> (transactions s)) /\
        WTransaction t' ∈ todo s' (ThreadTodo c) /\ to_thread X' = Some c /\ t_code X' = tr_code tr
  end.

(** The part of [send] that has a transaction and a buffer. *)
Lemma send_filled_run t' b tcomplete X' s0 s s' o :
  threads s = threads s0 -> transactions s = <[t' := X']> (transactions s0) -> env s = env s0 ->
  transactions s0 !! t' = None -> is_Some (transactions s0 !! t) -> to_thread X' = Some c -> t_code X' = tr_code tr ->
  (e ← fill_buffer p th tr tg b;
   match e with
   | None => commit th tg true t' b tcomplete;; mret None
   | Some (e, offp) =>
       binder_transaction_buffer_release (tg_proc tg) b (Some offp);;
       mod_buffer (tg_proc tg, b) (set_transaction None);;
       free_buf (tg_proc tg) b;;
       free_complete tcomplete;;
       free_transaction t';;
       mret (Some e)
   end) s = Some (s', o) ->
  reply_sent s0 s' o.
Proof.
  intros ET EX EE Hnew [X0 HX0] Hto Hcode H. apply bind_run in H as (s1 & e & Hf & H).
  pose proof (calls_fill_buffer _ _ _ _ _ _ _ _ Hf) as (F1 & F2 & F3). destruct e as [[e offp]|].
  - pose proof (fails_fill_buffer _ _ _ _ _ _ _ _ e Hf eq_refl) as He. rewrite EE in He.
    apply bind_run in H as (s2 & ? & H2 & H). apply bind_run in H as (s3 & ? & H3 & H).
    apply bind_run in H as (s4 & ? & H4 & H). apply bind_run in H as (s5 & ? & H5 & H).
    unfold free_transaction in H. apply bind_run in H as (s6 & ? & H6 & H).
    apply modify_run in H6 as ->. apply ret_run in H as [-> ->].
    calls_run H2. calls_run H3. calls_run H4. calls_run H5.
    cbn. split_and!; [congruence| |done]. replace (transactions s5) with (<[t' := X']> (transactions s0)) by congruence.
    by rewrite delete_insert_id.
  - apply bind_run in H as (s2 & ? & H2 & H). apply ret_run in H as [-> ->].
    apply commit_reply_run in H2 as (TC & X & HT & HX & E1 & E2 & Hw).
    rewrite F2, EX in HX, E2. rewrite F1, ET in HT, E1.
    assert (t <> t') as Hne by congruence.
    rewrite lookup_insert_ne in HX by done. by exists t', X', TC, X.
Qed.

(** Up to a point of [send] only the transactions changed. *)
Definition so_far (s0 : binder) (T : gmap Z binder_transaction_t) (s : binder) : Prop :=
  threads s = threads s0 /\ transactions s = T /\ env s = env s0.
Lemma so_far_run {A} (m : M A) s0 T s s' x : same_calls m -> m s = Some (s', x) -> so_far s0 T s -> so_far s0 T s'.
Proof. intros Hm H (H1 & H2 & H3). apply Hm in H as (E1 & E2 & E3). split_and!; congruence. Qed.
Lemma send_failed s0 s s' o :
  so_far s0 (transactions s0) s -> (mret (Some BR_FAILED_REPLY) : M (option Z)) s = Some (s', o) -> reply_sent s0 s' o.
Proof. intros (? & ? & ?) [-> ->]%ret_run. cbn. auto. Qed.
Lemma so_far_freed s0 t' X s s' x :
  transactions s0 !! t' = None -> so_far s0 (<[t' := X]> (transactions s0)) s -> free_transaction t' s = Some (s', x) ->
  so_far s0 (transactions s0) s'.
Proof. intros Hn (E1 & E2 & E3) ->%modify_run. split_and!; cbn; [done|by rewrite E2, delete_insert_id|done]. Qed.
Local Ltac step H y Hy :=
  let s1 := fresh "s" in let H1 := fresh in
  apply bind_run in H as (s1 & y & H1 & H); pose proof H1 as Hy; eapply so_far_run in H1; [|solve [calls_auto]|eassumption].

Lemma send_reply_run s s' o :
  is_Some (transactions s !! t) -> send p th tr true tg s = Some (s', o) -> reply_sent s s' o.
Proof.
  intros Ht H. assert (so_far s (transactions s) s) as Hat by done. unfold send in H. rewrite Htg in H.
  step H x1 K1. step H x2 K2. step H o1 K3. clear K1 K2. apply kzalloc_run in K3 as [_ Ho1].
  destruct o1 as [t'|]; [|by eapply send_failed].
  destruct (Ho1 t' eq_refl) as [_ Hu]. apply not_in_use in Hu as (_ & _ & _ & _ & _ & Hnew & _).
  match goal with Hs : so_far s _ ?s1, Hn : transactions ?s1 !! t' = None |- _ =>
    replace (transactions s1) with (transactions s) in Hn by (symmetry; apply Hs) end.
  apply bind_run in H as (sa & ? & H4 & H). apply modify_run in H4.
  assert (exists X, so_far s (<[t' := X]> (transactions s)) sa) as [X Hat3].
  { match goal with Hs : so_far s _ ?s1, E : sa = set_transactions _ ?s1 |- _ =>
      rewrite E; destruct Hs as (E1 & E2 & E3); eexists; split_and!; cbn; [done|by rewrite E2|done] end. }
  clear H4. step H o2 K4. destruct o2 as [tcomplete|].
  2: { apply bind_run in H as (sb & ? & H5 & H). eapply send_failed; [|exact H]. by eapply so_far_freed. }
  step H x3 K5. step H i K6. step H P K7. step H cu K8. step H o3 K9.
  apply bind_run in H as (sc & ? & H9 & H). apply mod_transaction_run in H9 as (X9 & _ & H9).
  set (X' := BinderTransaction i _ _ _ _ _ _ _ _ _ _ _ _) in *.
  assert (so_far s (<[t' := X']> (transactions s)) sc) as Hat9.
  { match goal with Hs : so_far s _ ?s1, E : sc = set_transactions _ ?s1 |- _ =>
      rewrite E; destruct Hs as (E1 & E2 & E3); split_and!; cbn; [done|rewrite E2; apply insert_insert_eq|done] end. }
  destruct o3 as [b|].
  - step H x4 K10. step H x5 K11. 
    match goal with Hs : so_far s (<[t' := X']> _) ?s1, HH : _ ?s1 = Some (s', o) |- _ => destruct Hs as (E1 & E2 & E3) end.
    eapply send_filled_run; [exact E1|exact E2|exact E3|done|done|done|done|exact H].
  - step H x4 K10. apply bind_run in H as (sd & ? & H11 & H). eapply send_failed; [|exact H]. by eapply so_far_freed.
Qed.
End reply.

(** The thread that a reply goes to. *)
Lemma reply_target_run th t c TH TC X s s1 o :
  threads s !! th = Some TH -> transaction_stack TH = Some t ->
  transactions s !! t = Some X -> to_thread X = Some th -> t_from X = Some c -> c <> th ->
  threads s !! c = Some TC -> transaction_stack TC = Some t ->
  reply_target th s = Some (s1, o) ->
  o = inr (Target (thread_proc TC) (Some c) None (Some t)) /\
  threads s1 = <[th := set_transaction_stack (to_parent X) TH]> (threads s) /\
  transactions s1 = transactions s /\ env s1 = env s.
Proof.
  intros HTH Hst HX Hto Hfrom Hne HTC Hstc Hr. unfold reply_target in Hr.
  apply bind_run in Hr as (? & TH1 & K & Hr). apply the_thread_run in K as [-> K]. simplify_eq. rewrite Hst in Hr.
  apply bind_run in Hr as (? & X1 & K' & Hr). apply the_transaction_run in K' as [-> K']. simplify_eq.
  apply bind_run in Hr as (s2 & ? & Hn & Hr). apply modify_run in Hn.
  rewrite bool_decide_eq_true_2 in Hr by done. cbn [negb] in Hr.
  apply bind_run in Hr as (s3 & ? & Hm & Hr). apply mod_thread_run in Hm as (TH2 & HTH2 & Hs3).
  subst s2. cbn in HTH2. simplify_eq. rewrite Hfrom in Hr.
  apply bind_run in Hr as (? & TC1 & K2 & Hr). apply the_thread_run in K2 as [-> K2].
  cbn in K2. rewrite lookup_insert_ne in K2 by done. simplify_eq.
  rewrite bool_decide_eq_true_2 in Hr by done. cbn [negb] in Hr. by apply ret_run in Hr as [-> ->].
Qed.

(** C6: a reply ends the call on both sides.  When the transaction that a thread
    is handling was sent by another thread that waits for it and has room for an
    error, then after a BC_REPLY that completes it is off both stacks and freed.
    Either the reply is queued for the caller, or the caller's error is
    BR_FAILED_REPLY or what the variable return_error held when the function was
    entered: an object of the reply whose cookie is not that of its node leaves
    it unset (binder.c:1614).  So the caller has an answer, an error included,
    provided that this value is not BR_OK, which is no error. *)
Theorem reply_answers_caller p th tr t c TH TC X s s' x :
  threads s !! th = Some TH -> transaction_stack TH = Some t ->
  transactions s !! t = Some X -> to_thread X = Some th -> t_from X = Some c -> c <> th ->
  threads s !! c = Some TC -> transaction_stack TC = Some t -> has_room TC ->
  binder_transaction p th tr true s = Some (s', x) ->
  exists TH' TC',
    threads s' !! th = Some TH' /\ transaction_stack TH' = to_parent X /\
    threads s' !! c = Some TC' /\ transaction_stack TC' = from_parent X /\
    transactions s' !! t = None /\
    ((return_error TC' = return_error TC /\
      exists t' X', WTransaction t' ∈ todo s' (ThreadTodo c) /\ transactions s' !! t' = Some X' /\
        to_thread X' = Some c /\ t_code X' = tr_code tr) \/
     ((return_error TC' = BR_FAILED_REPLY \/ return_error TC' = uninit (env s)) /\
      (uninit (env s) <> BR_OK -> return_error TC' <> BR_OK))).
Proof.
  intros HTH Hst HX Hto Hfrom Hne HTC Hstc Hroom H. unfold binder_transaction in H.
  apply bind_run in H as (s1 & o & Hr & H).
  destruct (reply_target_run _ _ _ _ _ _ _ _ _ HTH Hst HX Hto Hfrom Hne HTC Hstc Hr) as (-> & T1 & X1 & E1).
  apply bind_run in H as (s2 & e & Hsend & H).
  apply (send_reply_run _ _ c t) in Hsend; [|done|done|rewrite X1; eauto]. unfold reply_sent in Hsend.
  rewrite T1, X1, E1 in Hsend. destruct e as [e|]; cbn in H.
  - destruct Hsend as (T2 & X2 & He). unfold transaction_failed in H. cbn in H.
    apply bind_run in H as (? & TH3 & K & H). apply the_thread_run in K as [-> K].
    apply bind_run in H as (? & ? & K1 & H). apply bug_on_run in K1 as [-> _].
    apply bind_run in H as (? & ? & K2 & H). apply mod_thread_run in K2 as (TH4 & K2 & ->).
    rewrite T2 in K, K2. simplify_map_eq.
    apply (failed_reply_run c TC t X) in H as [T3 X3]; cbn; [|by rewrite T2, !lookup_insert_ne by done|congruence|done|done].
    cbn in T3, X3. rewrite T2 in T3. rewrite X2 in X3. rewrite T3, X3, lookup_insert_eq, lookup_delete_eq.
    rewrite lookup_insert_ne, lookup_insert_eq by done. eexists _, _. split_and!; [done..|]. cbn.
    right. split; [tauto|]. intros Hu. by destruct He as [-> | ->].
  - destruct Hsend as (t' & X' & TC' & X0 & Hnew & HTC' & HX0 & T2 & X2 & Hw & Hto' & Hcode).
    apply skip_run in H as ->. rewrite lookup_insert_ne in HTC' by done. simplify_eq.
    rewrite T2, X2, lookup_insert_eq, lookup_delete_eq. rewrite lookup_insert_ne, lookup_insert_eq by done.
    eexists _, _. split_and!; [done..|]. left. split; [done|]. exists t', X'.
    rewrite lookup_delete_ne, lookup_insert_eq by congruence. auto.
Qed.

(** * Replies that fail

    A transaction whose sender is gone is given up together with the ones below
    it on the stack, up to one whose sender is still there, which is told. *)

(** The stack below a transaction: those whose senders are gone, and the first
    one whose sender is there, if there is one. *)
Inductive unwinds (T : gmap Z binder_transaction_t) : Z -> list Z -> option (Z * Z) -> Prop :=
  | UnwindsSender t X th : T !! t = Some X -> t_from X = Some th -> unwinds T t [] (Some (t, th))
  | UnwindsEnd t X : T !! t = Some X -> t_from X = None -> from_parent X = None -> unwinds T t [t] None
  | UnwindsNext t X next ts o :
      T !! t = Some X -> t_from X = None -> from_parent X = Some next -> unwinds T next ts o ->
      t ∉ ts -> (forall t' th, o = Some (t', th) -> t <> t') -> unwinds T t (t :: ts) o.

(** The buffer of a transaction is there. *)
Definition has_header (s : binder) (pb : Z * Z) : Prop :=
  exists P h, procs s !! pb.1 = Some P /\ header (alloc P) pb.2 = Some h.
Definition buffer_there (s : binder) (X : binder_transaction_t) : Prop :=
  forall pb, t_buffer X = Some pb -> has_header s pb.

Lemma set_header_header A b h b' : is_Some (header A b') -> is_Some (header (set_header A b h) b').
Proof.
  unfold header. change (mapped (set_header A b h)) with (mapped A). case_if; [|by intros [? ?]].
  unfold set_header. cbn. intros [h' Hh']. destruct (decide (b = b')) as [->|Hne].
  - rewrite lookup_insert_eq. eauto.
  - rewrite lookup_insert_ne by done. eauto.
Qed.

Lemma mod_buffer_there pb f s :
  has_header s pb ->
  exists s', mod_buffer pb f s = Some (s', tt) /\ threads s' = threads s /\ transactions s' = transactions s /\
    forall pb', has_header s pb' -> has_header s' pb'.
Proof.
  intros (P & h & HP & Hh). unfold mod_buffer. rewrite (bind_eval _ _ _ _ _ (the_proc_eval _ _ _ HP)).
  rewrite (bind_eval _ _ _ _ _ (lift_eval _ _ _ Hh)). eexists. split; [by apply mod_proc_eval|]. split_and!; [done..|].
  intros pb' (P' & h' & HP' & Hh'). unfold has_header. cbn. destruct (decide (pb.1 = pb'.1)) as [He|Hne].
  - rewrite <- He, lookup_insert_eq. rewrite <- He, HP in HP'. injection HP' as <-.
    destruct (set_header_header (alloc P) pb.2 (f h) pb'.2) as [h2 Hh2]; [eauto|]. eexists _, h2. split; [done|]. exact Hh2.
  - rewrite lookup_insert_ne by done. eauto.
Qed.

Lemma pop_none_eval t X s :
  transactions s !! t = Some X -> buffer_there s X ->
  exists s', binder_pop_transaction None t s = Some (s', tt) /\ threads s' = threads s /\
    transactions s' = delete t (transactions s) /\ forall pb, has_header s pb -> has_header s' pb.
Proof.
  intros HX Hb. unfold binder_pop_transaction. rewrite (bind_eval skip _ s s tt) by done.
  erewrite bind_eval by (apply mod_transaction_eval; exact HX).
  erewrite bind_eval by (apply the_transaction_eval; cbn; apply lookup_insert_eq). cbn.
  set (s1 := set_transactions _ s).
  assert (exists s2, (match t_buffer X with Some b => mod_buffer b (set_transaction None) | None => skip end) s1 = Some (s2, tt) /\
    threads s2 = threads s /\ transactions s2 = transactions s1 /\ forall pb, has_header s pb -> has_header s2 pb)
    as (s2 & H2 & E1 & E2 & H3).
  { destruct (t_buffer X) as [pb|] eqn:Ht; [|by exists s1].
    destruct (mod_buffer_there pb (set_transaction None) s1) as (s2 & Hs & ? & ? & Hp); [by apply Hb|].
    exists s2. split_and!; [done..|]. intros pb' Hpb. by apply Hp. }
  erewrite bind_eval by exact H2. eexists. split; [done|]. cbn. split_and!; [done| |done].
  rewrite E2. unfold s1. cbn. by rewrite delete_insert_eq.
Qed.

(** What is left of the transactions, and what the sender is told. *)
Fixpoint unwound (T : gmap Z binder_transaction_t) (ts : list Z) : gmap Z binder_transaction_t :=
  match ts with [] => T | t :: ts' => delete t (unwound T ts') end.

Lemma unwound_lookup T ts t : t ∉ ts -> unwound T ts !! t = T !! t.
Proof.
  induction ts as [|t' ts IH]; cbn; [done|]. intros [Hne Hn]%not_elem_of_cons. by rewrite lookup_delete_ne, IH.
Qed.
Lemma unwound_delete T ts t : unwound (delete t T) ts = delete t (unwound T ts).
Proof. induction ts as [|t' ts IH]; cbn; [done|]. by rewrite IH, delete_delete. Qed.
Lemma unwinds_delete T t0 t ts o :
  unwinds T t ts o -> t0 ∉ ts -> (forall t' th, o = Some (t', th) -> t0 <> t') -> unwinds (delete t0 T) t ts o.
Proof.
  induction 1 as [t X th HX Hf|t X HX Hf Hp|t X next ts o HX Hf Hp Hn IH Hin Ho]; intros Ht Ho'.
  - econstructor; [|done]. rewrite lookup_delete_ne; [done|]. by eapply Ho'.
  - econstructor; [|done..]. rewrite lookup_delete_ne; [done|set_solver].
  - econstructor; [rewrite lookup_delete_ne; [done|set_solver]|done|done|apply IH; [set_solver|done]|done|done].
Qed.
(** The transactions on the way are different ones. *)
Lemma unwinds_size T t ts o : unwinds T t ts o -> (length ts + (if o is Some _ then 1 else 0) <= size T)%nat.
Proof.
  intros H. assert (forall t', t' ∈ ts ++ (if o is Some (t', _) then [t'] else []) -> is_Some (T !! t')) as Hin.
  { induction H; set_solver. }
  assert (NoDup (ts ++ (if o is Some (t', _) then [t'] else []))) as Hnd.
  { induction H as [| |t X next ts o HX Hf Hp Hn IH Hin' Ho]; [cbn; apply NoDup_singleton..|].
    cbn. apply NoDup_cons. split; [|apply IH; set_solver]. destruct o as [[t' th]|]; [|by rewrite app_nil_r].
    specialize (Ho t' th eq_refl). set_solver. }
  assert (list_to_set (ts ++ (if o is Some (t', _) then [t'] else [])) ⊆ dom T) as Hsub.
  { intros t' Ht'%elem_of_list_to_set. by apply elem_of_dom, Hin. }
  apply subseteq_size in Hsub. rewrite size_list_to_set, size_dom in Hsub by done.
  rewrite length_app in Hsub. destruct o as [[]|]; cbn in *; lia.
Qed.

Lemma pop_some_eval th TH t X s :
  threads s !! th = Some TH -> transaction_stack TH = Some t ->
  transactions s !! t = Some X -> t_from X = Some th -> buffer_there s X ->
  exists s', binder_pop_transaction (Some th) t s = Some (s', tt) /\
    threads s' = <[th := set_transaction_stack (from_parent X) TH]> (threads s) /\
    transactions s' = delete t (transactions s).
Proof.
  intros HT Hst HX Hf Hb. set (s1 := set_threads (<[th := set_transaction_stack (from_parent X) TH]> (threads s)) s).
  set (s2 := set_transactions (<[t := set_t_from None X]> (transactions s1)) s1).
  destruct (pop_none_eval t (set_t_from None X) s2) as (s3 & H3 & E1 & E2 & _); [apply lookup_insert_eq|exact Hb|].
  exists s3. split_and!; [|done|].
  - unfold binder_pop_transaction in H3 |- *. rewrite (bind_eval skip _ s2 s2 tt) in H3 by done.
    erewrite (bind_eval _ _ s s2 tt); [exact H3|]. rewrite (bind_eval _ _ _ _ _ (the_thread_eval _ _ _ HT)).
    rewrite (bool_decide_eq_true_2 _ Hst). rewrite (bind_eval _ _ s s tt) by done.
    rewrite (bind_eval _ _ _ _ _ (the_transaction_eval _ _ _ HX)). rewrite (bool_decide_eq_true_2 _ Hf).
    rewrite (bind_eval _ _ s s tt) by done. rewrite (bind_eval _ _ _ _ _ (mod_thread_eval _ _ _ _ HT)).
    by apply mod_transaction_eval.
  - rewrite E2. cbn. by rewrite delete_insert_eq.
Qed.

#[export] Instance has_room_dec TH : Decision (has_room TH) := decide (return_error TH = BR_OK \/ return_error2 TH = BR_OK).

(** The sender gets the error if it has room for it; otherwise the transaction
    stays. *)
Definition told (e : Z) (o : option (Z * Z)) (s s' : binder) (ts : list Z) : Prop :=
  match o with
  | None => threads s' = threads s /\ transactions s' = unwound (transactions s) ts
  | Some (t, th) =>
      exists TH X, threads s !! th = Some TH /\ transactions s !! t = Some X /\
        if decide (has_room TH) then
          threads s' = <[th := set_return_error e (set_transaction_stack (from_parent X) (shift_error TH))]> (threads s) /\
          transactions s' = delete t (unwound (transactions s) ts)
        else threads s' = threads s /\ transactions s' = unwound (transactions s) ts
  end.

Definition sender_waits (s : binder) (o : option (Z * Z)) : Prop :=
  forall t th, o = Some (t, th) -> exists TH, threads s !! th = Some TH /\ transaction_stack TH = Some t.

Lemma no_room_shift TH : ~ has_room TH -> shift_error TH = TH /\ (return_error TH =? BR_OK) = false.
Proof. unfold has_room, shift_error. intros H. case_if; unbool; [tauto|]. split; [done|]. apply Z.eqb_neq. tauto. Qed.

(** One sender that is there. *)
Lemma failed_reply_sender fuel th TH t X e s :
  threads s !! th = Some TH -> transaction_stack TH = Some t ->
  transactions s !! t = Some X -> t_from X = Some th -> buffer_there s X ->
  exists s', failed_reply_loop (S fuel) t e s = Some (s', tt) /\ told e (Some (t, th)) s s' [].
Proof.
  intros HT Hst HX Hf Hb. cbn [failed_reply_loop]. rewrite (bind_eval _ _ _ _ _ (the_transaction_eval _ _ _ HX)), Hf.
  rewrite (bind_eval _ _ _ _ _ (mod_thread_eval _ _ _ _ HT)).
  set (s1 := set_threads (<[th := shift_error TH]> (threads s)) s).
  assert (threads s1 !! th = Some (shift_error TH)) as HT1 by apply lookup_insert_eq.
  rewrite (bind_eval _ _ _ _ _ (the_thread_eval _ _ _ HT1)). destruct (decide (has_room TH)) as [Hr|Hr].
  - rewrite (shift_room _ Hr). change (BR_OK =? BR_OK) with true. cbn iota.
    destruct (pop_some_eval th (shift_error TH) t X s1) as (s2 & H2 & E1 & E2); [done|by rewrite shift_stack|done..|].
    rewrite (bind_eval _ _ _ _ _ H2). eexists. split; [apply mod_thread_eval; rewrite E1; apply lookup_insert_eq|].
    cbn. exists TH, X. rewrite decide_True by done. rewrite E1, E2. cbn. by rewrite !insert_insert_eq.
  - destruct (no_room_shift _ Hr) as [Hs Ho]. rewrite Hs, Ho. eexists. split; [done|].
    cbn. exists TH, X. rewrite decide_False by done. rewrite Hs. by rewrite insert_id.
Qed.

Lemma failed_reply_loop_eval fuel : forall t ts o e s,
  unwinds (transactions s) t ts o -> (length ts + (if o is Some _ then 1 else 0) <= fuel)%nat ->
  sender_waits s o -> (forall t X, transactions s !! t = Some X -> buffer_there s X) ->
  exists s', failed_reply_loop fuel t e s = Some (s', tt) /\ told e o s s' ts.
Proof.
  induction fuel as [|fuel IH]; intros t ts o e s H Hl Hw Hb; inversion H as [? X th HX Hf|? X HX Hf Hp|? X next ts' ? HX Hf Hp Hn Hin Ho];
    subst; cbn [length] in Hl; try lia.
  - destruct (Hw t th eq_refl) as (TH & HT & Hst). by eapply failed_reply_sender; eauto.
  - cbn [failed_reply_loop]. rewrite (bind_eval _ _ _ _ _ (the_transaction_eval _ _ _ HX)), Hf.
    destruct (pop_none_eval t X s HX (Hb t X HX)) as (s1 & H1 & E1 & E2 & _).
    rewrite (bind_eval _ _ _ _ _ H1), Hp. exists s1. by split; [|split].
  - cbn [failed_reply_loop]. rewrite (bind_eval _ _ _ _ _ (the_transaction_eval _ _ _ HX)), Hf.
    destruct (pop_none_eval t X s HX (Hb t X HX)) as (s1 & H1 & E1 & E2 & E3).
    rewrite (bind_eval _ _ _ _ _ H1), Hp. destruct (IH next ts' o e s1) as (s' & Hs' & Ht).
    + rewrite E2. by apply unwinds_delete.
    + lia.
    + intros t' th He. rewrite E1. by apply Hw.
    + intros t' X' HX' pb Hpb. apply E3. rewrite E2 in HX'. apply lookup_delete_Some in HX' as [_ HX']. by eapply Hb.
    + exists s'. split; [done|]. unfold told in *. rewrite E1, E2, unwound_delete in Ht.
      destruct o as [[t' th]|]; [|done]. destruct Ht as (TH & X' & HT & HX' & Ht). exists TH, X'.
      rewrite lookup_delete_Some in HX'. by destruct HX'.
Qed.

(** C36: giving a transaction up ends.  For a transaction that is not one-way
    (one that is trips a [BUG_ON]), along a stack without cycles whose
    buffers are there, [binder_send_failed_reply] frees every transaction whose
    sender is gone, up to the first one whose sender waits for it; that one gets
    the error and loses the transaction from its stack if it has room for the
    error, and stays as it is otherwise.  The number of transactions bounds the
    loop. *)
Theorem failed_reply_unwinds t X ts o e s :
  unwinds (transactions s) t ts o -> transactions s !! t = Some X -> one_way (t_flags X) = false ->
  sender_waits s o -> (forall t X, transactions s !! t = Some X -> buffer_there s X) ->
  exists s', binder_send_failed_reply t e s = Some (s', tt) /\ told e o s s' ts.
Proof.
  intros H HX Hone Hw Hb. unfold binder_send_failed_reply. rewrite (bind_eval _ _ _ _ _ (the_transaction_eval _ _ _ HX)).
  rewrite Hone, (bind_eval _ _ s s tt) by done. rewrite (bind_eval _ _ s s (size (transactions s))) by done.
  apply failed_reply_loop_eval; [done|by apply (unwinds_size _ t)|done|done].
Qed.
