(* ===== verification/BinderNodes.v ===== *)
(** * What user space is told about its nodes

    A node with work on a list gives one command per round of a read, until user
    space holds it exactly as the driver does. *)

From stdpp Require Import base numbers list gmap.
From S2P Require Import Prelude RbTree RbKeyed RbIndex BinderAlloc BinderProtocol BinderCore BinderRefs BinderGraph BinderRun BinderRefsInv BinderTransaction BinderThread BinderDevice BinderInv.

Open Scope Z_scope.

(** The references to a node: from other processes and from the driver's own
    buffers and commands. *)
Definition strong_held (N : binder_node) : bool := negb (internal_strong_refs N =? 0) || negb (local_strong_refs N =? 0).
Definition weak_held (N : binder_node) : bool :=
  negb (bool_decide (node_refs N = [])) || negb (local_weak_refs N =? 0) || strong_held N.

(** The commands that a node gives, one after the other. *)
Fixpoint node_commands (fuel : nat) (N : binder_node) : list Z * binder_node :=
  match fuel with
  | O => ([], N)
  | S fuel' =>
      let '(cmd, N') := node_command N in
      if cmd =? BR_NOOP then ([], N')
      else let '(cs, N'') := node_commands fuel' N' in (cmd :: cs, N'')
  end.

(** What they are, from what user space held to what it holds. *)
Definition commands_between (strong weak strong' weak' : bool) : list Z :=
  (if negb weak && weak' then [BR_INCREFS] else []) ++ (if negb strong && strong' then [BR_ACQUIRE] else []) ++
  (if strong && negb strong' then [BR_RELEASE] else []) ++ (if weak && negb weak' then [BR_DECREFS] else []).

Lemma incr_nonzero x : 0 <= x < 2 ^ 31 -> (incr x =? 0) = false.
Proof. intros H. apply Z.eqb_neq. unfold incr, s32. Z.to_euclidean_division_equations; lia. Qed.

(** What matters of a node here. *)
Definition view (N : binder_node) : bool * bool * bool * bool :=
  (has_strong_ref N, has_weak_ref N, strong_held N, weak_held N).

Lemma node_command_eq N :
  node_command N =
    if weak_held N && negb (has_weak_ref N) then
      (BR_INCREFS, set_local_weak_refs (incr (local_weak_refs N)) (set_pending_weak_ref true (set_has_weak_ref true N)))
    else if strong_held N && negb (has_strong_ref N) then
      (BR_ACQUIRE, set_local_strong_refs (incr (local_strong_refs N)) (set_pending_strong_ref true (set_has_strong_ref true N)))
    else if negb (strong_held N) && has_strong_ref N then (BR_RELEASE, set_has_strong_ref false N)
    else if negb (weak_held N) && has_weak_ref N then (BR_DECREFS, set_has_weak_ref false N)
    else (BR_NOOP, N).
Proof. reflexivity. Qed.

Lemma strong_weak N : strong_held N = true -> weak_held N = true.
Proof. unfold weak_held. intros ->. apply orb_true_r. Qed.

(** One command and what it leaves. *)
Definition gives (N : binder_node) (cmd : Z) (v : bool * bool * bool * bool) (N' : binder_node) : Prop :=
  node_command N = (cmd, N') /\ view N' = v /\ local_strong_refs N' = local_strong_refs N.

Lemma gives_increfs N hs sh :
  0 <= local_weak_refs N < 2 ^ 31 -> view N = (hs, false, sh, true) -> exists N', gives N BR_INCREFS (hs, true, sh, true) N'.
Proof.
  intros Hl%incr_nonzero [= <- Hw <- Hh]. eexists. split; [rewrite node_command_eq, Hh, Hw; reflexivity|]. split; [|done].
  unfold view. f_equal. unfold weak_held. cbn [local_weak_refs set_local_weak_refs]. rewrite Hl. cbn.
  by rewrite orb_true_r.
Qed.
Lemma gives_acquire N :
  0 <= local_strong_refs N < 2 ^ 31 -> view N = (false, true, true, true) ->
  exists N', node_command N = (BR_ACQUIRE, N') /\ view N' = (true, true, true, true).
Proof.
  intros Hl%incr_nonzero [= Hs Hw Hsh Hh]. eexists. split; [rewrite node_command_eq, Hh, Hw, Hsh, Hs; reflexivity|].
  assert (forall N', (local_strong_refs N' =? 0) = false -> strong_held N' = true) as HN.
  { intros N' HN. unfold strong_held. rewrite HN. apply orb_true_r. }
  set (N' := set_local_strong_refs _ _). pose proof (HN N' Hl) as HS. unfold view.
  rewrite HS, (strong_weak _ HS). cbn. by rewrite Hw.
Qed.
Lemma gives_release N wh :
  view N = (true, true, false, wh) -> exists N', gives N BR_RELEASE (false, true, false, wh) N'.
Proof.
  intros [= Hs Hw Hsh <-]. eexists. split; [rewrite node_command_eq, Hw, Hsh, Hs, andb_false_r; reflexivity|].
  split; [|done]. transitivity (false, has_weak_ref N, strong_held N, weak_held N); [reflexivity|]. by rewrite Hw, Hsh.
Qed.
Lemma gives_decrefs N :
  view N = (false, true, false, false) -> exists N', gives N BR_DECREFS (false, false, false, false) N'.
Proof.
  intros [= Hs Hw Hsh Hh]. eexists. split; [rewrite node_command_eq, Hw, Hsh, Hs, Hh; reflexivity|].
  split; [|done]. transitivity (has_strong_ref N, false, strong_held N, weak_held N); [reflexivity|]. by rewrite Hs, Hsh, Hh.
Qed.
Lemma gives_noop N s w : view N = (s, w, s, w) -> node_command N = (BR_NOOP, N).
Proof. intros [= Hs Hw Hsh Hh]. rewrite node_command_eq, Hs, Hw, Hsh, Hh. by destruct s, w. Qed.

Lemma command_named : BR_INCREFS <> BR_NOOP /\ BR_ACQUIRE <> BR_NOOP /\ BR_RELEASE <> BR_NOOP /\ BR_DECREFS <> BR_NOOP.
Proof. done. Qed.

Lemma commands_stop k N s w : view N = (s, w, s, w) -> node_commands (S k) N = ([], N).
Proof. intros H. cbn [node_commands]. by rewrite (gives_noop _ _ _ H), Z.eqb_refl. Qed.
Lemma commands_go k N cmd N' :
  node_command N = (cmd, N') -> cmd <> BR_NOOP ->
  node_commands (S k) N = (cmd :: (node_commands k N').1, (node_commands k N').2).
Proof.
  intros H Hc. cbn [node_commands]. rewrite H. apply Z.eqb_neq in Hc. rewrite Hc. by destruct (node_commands k N').
Qed.

Lemma node_commands_eq k N hs hw sh wh :
  view N = (hs, hw, sh, wh) -> (hs = true -> hw = true) ->
  0 <= local_strong_refs N < 2 ^ 31 -> 0 <= local_weak_refs N < 2 ^ 31 ->
  exists N', node_commands (3 + k) N = (commands_between hs hw sh wh, N') /\ view N' = (sh, wh, sh, wh).
Proof.
  intros Hv Hf Hs Hw. destruct command_named as (C1 & C2 & C3 & C4).
  assert (sh = true -> wh = true) as Hsw by (injection Hv as <- <- <- <-; apply strong_weak).
  cbn [Nat.add]. destruct hw.
  - destruct hs, sh.
    + rewrite (Hsw eq_refl) in *. exists N. split; [by apply (commands_stop _ _ true true)|done].
    + destruct (gives_release N wh Hv) as (N1 & G1 & V1 & _). rewrite (commands_go _ _ _ _ G1 C3). destruct wh.
      * rewrite (commands_stop _ _ false true V1). by exists N1.
      * destruct (gives_decrefs N1 V1) as (N2 & G2 & V2 & _). rewrite (commands_go _ _ _ _ G2 C4).
        rewrite (commands_stop _ _ false false V2). by exists N2.
    + rewrite (Hsw eq_refl) in *. destruct (gives_acquire N Hs Hv) as (N1 & G1 & V1).
      rewrite (commands_go _ _ _ _ G1 C2), (commands_stop _ _ true true V1). by exists N1.
    + destruct wh; [exists N; split; [by apply (commands_stop _ _ false true)|done]|].
      destruct (gives_decrefs N Hv) as (N1 & G1 & V1 & _). rewrite (commands_go _ _ _ _ G1 C4).
      rewrite (commands_stop _ _ false false V1). by exists N1.
  - destruct hs; [by discriminate Hf|]. destruct wh.
    + destruct (gives_increfs N false sh Hw Hv) as (N1 & G1 & V1 & L1). rewrite (commands_go _ _ _ _ G1 C1). destruct sh.
      * rewrite <- L1 in Hs. destruct (gives_acquire N1 Hs V1) as (N2 & G2 & V2).
        rewrite (commands_go _ _ _ _ G2 C2), (commands_stop _ _ true true V2). by exists N2.
      * rewrite (commands_stop _ _ false true V1). by exists N1.
    + destruct sh; [by discriminate Hsw|]. exists N. split; [by apply (commands_stop _ _ false false)|done].
Qed.

