(* ===== verification/BinderExamples.v ===== *)
(** * Runs of the driver

    Scripts of calls by concrete tasks, evaluated from the initial state. *)

From stdpp Require Import base numbers list gmap.
From S2P Require Import Prelude RbTree RbKeyed RbIndex BinderAlloc BinderProtocol BinderCore BinderRefs BinderGraph BinderRun BinderRefsInv BinderTransaction BinderThread BinderDevice BinderInv BinderTranslate BinderObjects BinderReply BinderNodes.

Open Scope Z_scope.

(** ** Scripts *)

(** A call with the task that makes it, its memory and the addresses that
    [kzalloc] finds. *)
Record event := Event { ev_task : task; ev_user : umem; ev_supply : list (option Z); ev_call : device_call }.

(** An ioctl that waits goes on if what it waits for is there. *)
Definition run_event (w : world) (e : event) (s : binder) : option binder :=
  let s0 := enter (ev_task e) (ev_user e) (ev_supply e) w s in
  match ev_call e with
  | CallIoctl p cmd arg =>
      match binder_ioctl p cmd arg s0 with
      | Some (s1, IoctlReturn _) => Some s1
      | Some (s1, IoctlSleep th bwr ptr wt) =>
          match read_ready p th wt s1 with
          | Some (_, true) => fst <$> binder_ioctl_resume p th arg bwr ptr wt 0 s1
          | _ => None
          end
      | None => None
      end
  | c => fst <$> run_call c s0
  end.
Fixpoint run_events (w : world) (es : list event) (s : binder) : option binder :=
  match es with
  | [] => Some s
  | e :: es' => match run_event w e s with Some s' => run_events w es' s' | None => None end
  end.

Lemma enter_same s : enter (current s) (user s) (supply s) (env s) s = s.
Proof. by destruct s. Qed.
Lemma run_call_step c w e s s' :
  fst <$> run_call c (enter (ev_task e) (ev_user e) (ev_supply e) w s) = Some s' -> rtc binder_step s s'.
Proof.
  destruct (run_call _ _) as [[s1 x]|] eqn:H1; cbn; [|done]. intros [= <-]. apply rtc_once. by econstructor.
Qed.
Lemma run_event_reach w e s s' : run_event w e s = Some s' -> rtc binder_step s s'.
Proof.
  unfold run_event. destruct (ev_call e) as [| |p cmd arg| | | | | |] eqn:Hc; try apply run_call_step.
  destruct (binder_ioctl _ _ _ _) as [[s1 r]|] eqn:H1; [|done].
  assert (binder_step s s1) as Hs.
  { eapply (BinderStep _ _ _ _ _ (CallIoctl p cmd arg) s1 tt). cbn. by rewrite (bind_eval _ _ _ _ _ H1). }
  destruct r as [ret|th bwr ptr wt]; [intros [= <-]; by apply rtc_once|].
  destruct (read_ready _ _ _ _) as [[? [|]]|]; [|done..].
  destruct (binder_ioctl_resume _ _ _ _ _ _ _ _) as [[s2 r]|] eqn:H2; cbn; [|done]. intros [= <-].
  eapply rtc_l; [done|]. apply rtc_once.
  apply (BinderStep _ (current s1) (user s1) (supply s1) (env s1) (CallIoctlResume p th arg bwr ptr wt 0) s2 tt).
  rewrite enter_same. cbn. by rewrite (bind_eval _ _ _ _ _ H2).
Qed.
Lemma run_events_reach w es : forall s s', run_events w es s = Some s' -> rtc binder_step s s'.
Proof.
  induction es as [|e es IH]; intros s s'; cbn; [by intros [= <-]|].
  destruct (run_event w e s) as [s1|] eqn:H1; [|done]. intros H.
  etransitivity; [by eapply run_event_reach|by apply IH].
Qed.

(** ** The machine of the examples *)

Definition ex_world : world :=
  World (PageEnv true (fun _ => PageOk) (fun _ => BinderBuffer false false false 0 None None 0 0))
    (fun fd => Some (100 + fd)) (FdTable ∅ ∅ 0) 1024 (fun _ => 0) (fun _ => 1000) 0.
Definition ex_task (pid_ : Z) : task := Task pid_ pid_ 1000 0 0 true.
(** Words of user memory. *)
Definition ex_user (l : list (Z * Z)) : umem := Umem (foldr (fun '(a, v) m => write_word m a v) ∅ l) 3221225472.
Definition ex_words (base : Z) (vs : list Z) : list (Z * Z) :=
  zip ((fun i => base + 4 * Z.of_nat i) <$> seq 0 (length vs)) vs.
Definition ex_supply (k : Z) : list (option Z) := (fun i => Some (k + 16 * Z.of_nat i)) <$> seq 0 8.

(** The process that opens the device at [pid_] and maps an area. *)
Definition ex_open (pid_ p kaddr : Z) : list event :=
  [Event (ex_task pid_) (ex_user []) [Some p] CallOpen;
   Event (ex_task pid_) (ex_user []) [] (CallMmap p (VmArea kaddr (kaddr + 65536) 1) (Some (kaddr + 2 ^ 31)) true)].
Definition ex_ioctl (p pid_ k cmd : Z) : event :=
  Event (ex_task pid_) (ex_user []) (ex_supply k) (CallIoctl p cmd 0).

(** BINDER_WRITE_READ: the commands, the number of words to read, and the
    memory of transactions: objects at 12288, offsets at 16384. *)
Definition ex_write_read (p pid_ k : Z) (cmds : list Z) (rs : nat) (objects offsets : list Z) : event :=
  Event (ex_task pid_)
    (ex_user (ex_words 256 [4 * zlen cmds; 0; 4096; 4 * Z.of_nat rs; 0; 8192] ++ ex_words 4096 cmds ++
              ex_words 8192 (replicate rs 0) ++ ex_words 12288 objects ++ ex_words 16384 offsets))
    (ex_supply k) (CallIoctl p BINDER_WRITE_READ 256).
Definition ex_tx (cmd target flags : Z) (objects offsets : list Z) : list Z :=
  [cmd; target; 0; 7; flags; 0; 0; 4 * zlen objects; 4 * zlen offsets; 12288; 16384].
Definition ex_send (p pid_ k : Z) (cmd target flags : Z) (objects offsets : list Z) : event :=
  ex_write_read p pid_ k (ex_tx cmd target flags objects offsets) 0 objects offsets.

(** What was read, by words. *)
Definition ex_read (n : nat) (s : binder) : list Z :=
  (fun i => read_word (um_bytes (user s)) (8192 + 4 * Z.of_nat i)) <$> seq 0 n.
(** The buffers of a process that are in use, with their target nodes. *)
Definition ex_buffers (p : Z) (s : binder) : list (Z * option Z) :=
  match procs s !! p with
  | Some P =>
      omap (fun b => match header (alloc P) b with
                     | Some h => if bb_free h then None else Some (b, target_node h)
                     | None => None
                     end) (buffers (alloc P))
  | None => []
  end.

Lemma ex_buffers_spec p s b o :
  (b, o) ∈ ex_buffers p s ->
  exists P h, procs s !! p = Some P /\ header (alloc P) b = Some h /\ bb_free h = false /\ target_node h = o.
Proof.
  unfold ex_buffers. destruct (procs s !! p) as [P|]; [|by intros ?%not_elem_of_nil].
  intros (b' & _ & Hb)%list_elem_of_omap. destruct (header (alloc P) b') as [h|] eqn:Hh; [|done].
  destruct (bb_free h) eqn:Hf; [done|]. injection Hb as <- <-. eauto 10.
Qed.

(** ** Two offsets of the same object *)

(** The context manager and a client. *)
Definition manager : Z := 4096.
Definition client : Z := 8192.
Definition ex_setup : list event :=
  ex_open 1 manager 1073741824 ++ ex_open 2 client 1107296256 ++ [ex_ioctl manager 1 20000 BINDER_SET_CONTEXT_MGR].
Definition ex_object (ptr cookie : Z) : list Z := [BINDER_TYPE_BINDER; 256; ptr; cookie].

(** The manager's reply gives the client a reference to its node 80; a
    transaction to that node is with the manager. *)
Definition ex_held : list event :=
  ex_setup ++
  [ex_send client 2 21000 BC_TRANSACTION 0 0 [] [];
   ex_write_read manager 1 22000 [BC_ENTER_LOOPER] 64 [] [];
   ex_write_read manager 1 23000 ([BC_FREE_BUFFER; 1073741864] ++ ex_tx BC_REPLY 0 0 (ex_object 80 81) [0]) 0 (ex_object 80 81) [0];
   ex_write_read client 2 24000 [] 64 [] [];
   ex_write_read client 2 25000 [BC_ACQUIRE; 1; BC_FREE_BUFFER; 1107296296] 0 [] [];
   ex_write_read manager 1 26000 [] 64 [] [];
   ex_write_read manager 1 26000 [BC_INCREFS_DONE; 80; 81; BC_ACQUIRE_DONE; 80; 81] 0 [] [];
   ex_send client 2 27000 BC_TRANSACTION 1 TF_ONE_WAY [] [];
   ex_write_read manager 1 26000 [] 64 [] []].
(** The client passes one object under two offsets; the manager reads the
    transaction and frees its buffer; the client gives its reference up. *)
Definition ex_overlap : list event :=
  ex_held ++
  [ex_send client 2 28000 BC_TRANSACTION 0 TF_ONE_WAY (ex_object 96 97) [0; 0];
   ex_write_read manager 1 26000 [] 64 [] [];
   ex_write_read manager 1 26000 [BC_FREE_BUFFER; 1073741904] 0 [] [];
   ex_write_read client 2 29000 [BC_RELEASE; 1] 0 [] [];
   ex_write_read manager 1 30000 [] 64 [] []].

Definition stale_buffer (s : binder) (bo : Z * option Z) : bool :=
  match bo.2 with Some n => bool_decide (nodes s !! n = None) | None => false end.
Definition ex_stale (s : binder) : bool :=
  existsb (stale_buffer s) (ex_buffers manager s) &&
  match run_event ex_world (ex_write_read manager 1 31000 [BC_FREE_BUFFER; 1073741864] 0 [] []) s with
  | None => true | Some _ => false end.

(** two offsets of a transaction may name the same object, which is then
    translated twice: the reference counts are wrong afterwards and a node is
    freed under a buffer that was sent to it.  After a client's transaction with
    one object and two equal offsets, a manager that follows the protocol has a
    buffer whose target node is gone, and freeing the buffer uses it. *)
Theorem overlapping_objects_free_target :
  exists s P b h n,
    rtc binder_step (binder_init ex_world) s /\
    procs s !! manager = Some P /\ header (alloc P) b = Some h /\ bb_free h = false /\
    target_node h = Some n /\ nodes s !! n = None /\
    run_event ex_world (ex_write_read manager 1 31000 [BC_FREE_BUFFER; 1073741864] 0 [] []) s = None.
Proof.
  assert (match run_events ex_world ex_overlap (binder_init ex_world) with Some s => ex_stale s | None => false end = true)
    as H by (vm_compute; reflexivity).
  destruct (run_events _ _ _) as [s|] eqn:Hs; [|done]. apply run_events_reach in Hs.
  apply andb_true_iff in H as [H1 H2]. apply existsb_exists in H1 as ([b o] & Hin & Hst).
  apply list_elem_of_In, ex_buffers_spec in Hin as (P & h & HP & Hh & Hf & Ho).
  unfold stale_buffer in Hst. cbn in Hst. destruct o as [n|]; [|done]. apply bool_decide_eq_true in Hst.
  exists s, P, b, h, n. split_and!; try done. by destruct (run_event _ _ s).
Qed.

(** ** A thread that calls itself *)

(** The manager calls the client, which calls the manager back; while it handles
    that call the manager calls its own node, and the driver picks the calling
    thread as the one that is to answer. *)
Definition ex_self_call : list event :=
  ex_setup ++
  [ex_send client 2 21000 BC_TRANSACTION 0 TF_ONE_WAY (ex_object 80 81) [0];
   ex_write_read manager 1 22000 [] 64 [] [];
   ex_write_read manager 1 23000 [BC_ACQUIRE; 1; BC_FREE_BUFFER; 1073741864] 0 [] [];
   ex_send manager 1 24000 BC_TRANSACTION 1 0 [] [];
   ex_write_read client 2 25000 [] 64 [] [];
   ex_write_read client 2 25000 [] 64 [] [];
   ex_send client 2 26000 BC_TRANSACTION 0 0 [] [];
   ex_write_read manager 1 27000 [] 64 [] [];
   ex_send manager 1 28000 BC_TRANSACTION 0 0 [] []].

Definition queued (s : binder) (th t : Z) : bool := bool_decide (WTransaction t ∈ todo s (ThreadTodo th)).
Definition ex_exit_stale (s : binder) (th t : Z) : bool :=
  match threads s !! th, transactions s !! t with
  | Some TH, Some X =>
      bool_decide (transaction_stack TH = Some t /\ t_from X = Some th /\ to_thread X = Some th)
  | _, _ => false
  end && queued s th t &&
  match binder_send_failed_reply t BR_DEAD_REPLY s with
  | Some (s1, _) => bool_decide (transactions s1 !! t = None) && queued s1 th t
  | None => false
  end &&
  match run_event ex_world (ex_ioctl manager 1 29000 BINDER_THREAD_EXIT) s with None => true | Some _ => false end.

(** a thread can be both the sender of a transaction and the one it is for.
    When such a thread exits, the reply that tells the sender that its target
    died frees the transaction, which is still on the thread's list of work: the
    loop over that list uses freed memory. *)
Theorem self_call_exit_uses_freed :
  exists s th TH t X s1,
    rtc binder_step (binder_init ex_world) s /\
    threads s !! th = Some TH /\ transactions s !! t = Some X /\
    transaction_stack TH = Some t /\ t_from X = Some th /\ to_thread X = Some th /\
    binder_send_failed_reply t BR_DEAD_REPLY s = Some (s1, tt) /\
    transactions s1 !! t = None /\ WTransaction t ∈ todo s1 (ThreadTodo th) /\
    run_event ex_world (ex_ioctl manager 1 29000 BINDER_THREAD_EXIT) s = None.
Proof.
  assert (match run_events ex_world ex_self_call (binder_init ex_world) with
          | Some s => ex_exit_stale s 20000 28000 | None => false end = true) as H by (vm_compute; reflexivity).
  destruct (run_events _ _ _) as [s|] eqn:Hs; [|done]. apply run_events_reach in Hs.
  apply andb_true_iff in H as [H H4]. apply andb_true_iff in H as [H H3]. apply andb_true_iff in H as [H1 H2].
  destruct (threads s !! 20000) as [TH|] eqn:HT; [|done].
  destruct (transactions s !! 28000) as [X|] eqn:HX; [|done]. apply bool_decide_eq_true in H1 as (E1 & E2 & E3).
  destruct (binder_send_failed_reply _ _ s) as [[s1 []]|] eqn:Hr; [|done].
  apply andb_true_iff in H3 as [H5 H6]. apply bool_decide_eq_true in H5, H6.
  exists s, 20000, TH, 28000, X, s1. split_and!; try done. by destruct (run_event _ _ s).
Qed.

(** ** States of the examples *)

Definition ex_result (es : list event) : binder := default (binder_init ex_world) (run_events ex_world es (binder_init ex_world)).
Lemma ex_result_reach es : rtc binder_step (binder_init ex_world) (ex_result es).
Proof.
  unfold ex_result. destruct (run_events _ _ _) as [s|] eqn:H; cbn; [by eapply run_events_reach|done].
Qed.

(** What is found at an address that is not empty. *)
Lemma found {A} (m : gmap Z A) i : bool_decide (is_Some (m !! i)) = true -> exists x, m !! i = Some x.
Proof. intros [x Hx]%bool_decide_eq_true. eauto. Qed.


(** The client asks for the context manager's node, with memory and without. *)
Definition ex_asking (l : list (option Z)) : binder :=
  enter (ex_task 2) (ex_user []) l ex_world (ex_result ex_held).
Lemma enter_graph c m l w s : graph_of (enter c m l w s) = graph_of s.
Proof. reflexivity. Qed.
Lemma ex_asking_graph l : graph_ok (graph_of (ex_asking l)).
Proof. unfold ex_asking. rewrite enter_graph. exact (graph_reach _ _ (ex_result_reach ex_held)). Qed.
Lemma small_descs s p :
  forallb (fun R => (0 <=? ref_desc R.2) && (ref_desc R.2 <? 2 ^ 32 - 1)) (map_to_list (refs s)) = true -> descs_ok s p.
Proof.
  intros H r R HR _. rewrite forallb_forall in H. specialize (H (r, R)). cbn in H.
  rewrite andb_true_iff, Z.leb_le, Z.ltb_lt in H. apply H, list_elem_of_In, elem_of_map_to_list. exact HR.
Qed.
Lemma get_ref_for_node_correct_witness :
  exists P N s' o, procs (ex_asking [Some 40000]) !! client = Some P /\
    nodes (ex_asking [Some 40000]) !! 20016 = Some N /\ descs_ok (ex_asking [Some 40000]) client /\
    binder_get_ref_for_node client 20016 (ex_asking [Some 40000]) = Some (s', o).
Proof.
  destruct (found (procs (ex_asking [Some 40000])) client) as [P HP]; [vm_compute; reflexivity|].
  destruct (found (nodes (ex_asking [Some 40000])) 20016) as [N HN]; [vm_compute; reflexivity|].
  destruct (get_ref_for_node_correct (ex_asking [Some 40000]) (ex_asking_graph _) client P 20016 N HP HN)
    as (s' & o & H & _); [apply small_descs; vm_compute; reflexivity|].
  exists P, N, s', o. split; [exact HP|]. split; [exact HN|]. split; [apply small_descs; vm_compute; reflexivity|exact H].
Defined.


(** ** A transaction with two objects *)

Definition ex_two : list event :=
  ex_setup ++ [ex_send client 2 21000 BC_TRANSACTION 0 TF_ONE_WAY (ex_object 80 81 ++ ex_object 96 97) [0; 16]].
Definition ex_two_data : binder_transaction_data :=
  TransactionData 0 0 7 TF_ONE_WAY 0 0 32 8 12288 16384.
Definition ex_two_target : target := Target manager None (Some 20016) None.
Definition ex_buffer : Z := 3221225472.

(** The result of a run, which has one. *)
Definition has_result {A} (P : A -> bool) (o : option (binder * A)) : bool := match o with Some (_, x) => P x | None => false end.
Lemma result_there {A} (P : A -> bool) o : has_result P o = true -> exists s x, o = Some (s, x) /\ P x = true.
Proof. destruct o as [[s x]|]; [|done]. eauto. Qed.
Definition ok_result {A} (x : option A) : bool := match x with None => true | Some _ => false end.

(** The header of a buffer, with its size. *)
Definition sized (s : binder) (p b ds : Z) : bool :=
  match allocs s !! p with
  | Some A => match header A b with Some h => data_size h =? ds | None => false end
  | None => false
  end.
Lemma sized_there s p b ds :
  sized s p b ds = true -> exists A h, allocs s !! p = Some A /\ header A b = Some h /\ data_size h = ds.
Proof.
  unfold sized. destruct (allocs s !! p) as [A|]; [|done]. destruct (header A b) as [h|] eqn:Hh; [|done].
  intros H%Z.eqb_eq. eauto 10.
Qed.

Lemma fill_buffer_delivers_witness :
  exists s' m', fill_buffer client 21000 ex_two_data ex_two_target ex_buffer (ex_result ex_two) = Some (s', None) /\
    memories s' !! manager = Some m' /\
    delivered (graph_of s') client manager ex_buffer ex_two_data (um_bytes (user (ex_result ex_two))) m' 1.
Proof.
  destruct (sized_there (ex_result ex_two) manager ex_buffer 32) as (A & h & HA & Hh & Hd); [vm_compute; reflexivity|].
  destruct (result_there ok_result (fill_buffer client 21000 ex_two_data ex_two_target ex_buffer (ex_result ex_two)))
    as (s' & o & Hf & Ho); [vm_compute; reflexivity|]. destruct o; [done|].
  assert (read_word (um_bytes (user (ex_result ex_two))) 16384 = 0) as E0 by (vm_compute; reflexivity).
  assert (read_word (um_bytes (user (ex_result ex_two))) 16388 = 16) as E1 by (vm_compute; reflexivity).
  destruct (fill_buffer_delivers client 21000 ex_two_data ex_two_target ex_buffer (ex_result ex_two) s' A h)
    as (_ & m' & Hm' & H).
  - exact (graph_reach _ _ (ex_result_reach ex_two)).
  - exact HA.
  - exact Hh.
  - exact Hd.
  - cbn. lia.
  - cbn. lia.
  - intros i j Hi Hj. cbn in Hj. assert (i = 0) as -> by lia. assert (j = 1) as -> by lia.
    cbn [tr_offsets ex_two_data]. change (16384 + 4 * 0) with 16384. change (16384 + 4 * 1) with 16388. lia.
  - exact Hf.
  - exists s', m'. split; [exact Hf|]. split; [exact Hm'|]. apply H; cbn; lia.
Defined.

(** ** An object that comes back *)

(** The words of an object are put at an address of a process. *)
Definition ex_place (p fp : Z) (ws : list Z) (s : binder) : binder :=
  match copy_in p fp 12288 16 (enter (ex_task 1) (ex_user (ex_words 12288 ws)) (ex_supply 50000) ex_world s) with
  | Some (s', _) => s'
  | None => s
  end.
Lemma ex_place_graph p fp ws s : graph_of (ex_place p fp ws s) = graph_of s.
Proof.
  unfold ex_place. destruct (copy_in _ _ _ _ _) as [[s' x]|] eqn:H; [|done].
  by rewrite (same_copy_in _ _ _ _ _ _ _ H), enter_graph.
Qed.

(** The client's object in the manager's buffer, and the handle it becomes in
    the client's first page. *)
Definition ex_out : binder := ex_place manager (ex_buffer + 40) (ex_object 112 113) (ex_result ex_two).
Definition ex_home (ty d : Z) (s : binder) : binder := ex_place client 3254779944 [ty; 256; d; 0] s.
Definition memory_word (s : binder) (p a v : Z) : bool :=
  match memories s !! p with Some m => read_word m a =? v | None => false end.
Definition ex_trip : bool :=
  memory_word ex_out manager (ex_buffer + 40) BINDER_TYPE_BINDER &&
  match translate_binder client 21000 manager (ex_buffer + 40) BINDER_TYPE_BINDER ex_out with
  | Some (s1, None) =>
      memory_word s1 manager (ex_buffer + 40) BINDER_TYPE_HANDLE && memory_word s1 manager (ex_buffer + 48) 3 &&
      memory_word (ex_home BINDER_TYPE_HANDLE 3 s1) client 3254779952 3 &&
      has_result ok_result (translate_handle manager client 3254779944 BINDER_TYPE_HANDLE (ex_home BINDER_TYPE_HANDLE 3 s1))
  | _ => false
  end.
Lemma memory_word_there s p a v : memory_word s p a v = true -> exists m, memories s !! p = Some m /\ read_word m a = v.
Proof. unfold memory_word. destruct (memories s !! p) as [m|]; [|done]. intros H%Z.eqb_eq. eauto. Qed.
Lemma memory_word_is s p a v m : memory_word s p a v = true -> memories s !! p = Some m -> read_word m a = v.
Proof. unfold memory_word. intros H Hm. rewrite Hm in H. by apply Z.eqb_eq in H. Qed.

Lemma object_round_trip_witness :
  exists s1 s3 m m3,
    translate_binder client 21000 manager (ex_buffer + 40) BINDER_TYPE_BINDER ex_out = Some (s1, None) /\
    translate_handle manager client 3254779944 BINDER_TYPE_HANDLE (ex_home BINDER_TYPE_HANDLE 3 s1) = Some (s3, None) /\
    memories ex_out !! manager = Some m /\ memories s3 !! client = Some m3 /\
    read_word m3 (fp_binder 3254779944) = read_word m (fp_binder (ex_buffer + 40)) /\
    read_word m3 (fp_cookie 3254779944) = read_word m (fp_cookie (ex_buffer + 40)).
Proof.
  assert (ex_trip = true) as H by (vm_compute; reflexivity).
  apply andb_true_iff in H as [H0 H]. apply memory_word_there in H0 as (m & Hm & Ht).
  destruct (translate_binder _ _ _ _ _ _) as [[s1 [e|]]|] eqn:H1; [done| |done].
  apply andb_true_iff in H as [H H5]. apply andb_true_iff in H as [H H4]. apply andb_true_iff in H as [H2 H3].
  apply memory_word_there in H2 as (m1 & Hm1 & T1). pose proof (memory_word_is _ _ _ _ _ H3 Hm1) as V1.
  apply memory_word_there in H4 as (m2 & Hm2 & V2).
  destruct (result_there _ _ H5) as (s3 & o & H6 & Ho). destruct o; [done|].
  assert (graph_ok (graph_of ex_out)) as Hg.
  { unfold ex_out. rewrite ex_place_graph. exact (graph_reach _ _ (ex_result_reach ex_two)). }
  destruct (object_round_trip client 21000 manager (ex_buffer + 40) 3254779944 ex_out s1 (ex_home BINDER_TYPE_HANDLE 3 s1) s3 m m1 m2)
    as (m3 & Hm3 & _ & E1 & E2).
  - exact Hg.
  - exact Hm.
  - left. exact Ht.
  - unfold fp_type. rewrite Ht. exact H1.
  - exact Hm1.
  - unfold ex_home. rewrite ex_place_graph. by eapply keeps_translate_binder.
  - unfold ex_home. rewrite ex_place_graph. apply grows_refl.
  - exact Hm2.
  - transitivity 3; [exact V2|symmetry; exact V1].
  - unfold fp_type. rewrite T1. exact H6.
  - exists s1, s3, m, m3. split; [reflexivity|]. split; [exact H6|]. auto.
Defined.

(** ** A call and its reply *)

(** The client waits for the manager, which has read the call. *)
Definition ex_called : list event :=
  ex_setup ++ [ex_send client 2 21000 BC_TRANSACTION 0 0 [] []; ex_write_read manager 1 22000 [BC_ENTER_LOOPER] 64 [] []].
Definition ex_replying : binder := enter (ex_task 1) (ex_user []) (ex_supply 23000) ex_world (ex_result ex_called).
Definition ex_reply : binder_transaction_data := TransactionData 0 0 9 0 0 0 0 0 12288 16384.
Definition ex_call_ready (s : binder) : bool :=
  match threads s !! 20000, threads s !! 21000, transactions s !! 21016 with
  | Some TH, Some TC, Some X =>
      bool_decide (transaction_stack TH = Some 21016 /\ to_thread X = Some 20000 /\ t_from X = Some 21000 /\
                   transaction_stack TC = Some 21016 /\ return_error TC = BR_OK)
  | _, _, _ => false
  end.

Lemma reply_answers_caller_witness :
  exists s' TC', binder_transaction manager 20000 ex_reply true ex_replying = Some (s', tt) /\
    threads s' !! 21000 = Some TC' /\ transactions s' !! 21016 = None.
Proof.
  assert (ex_call_ready ex_replying = true) as H by (vm_compute; reflexivity). unfold ex_call_ready in H.
  destruct (threads ex_replying !! 20000) as [TH|] eqn:HT; [|done].
  destruct (threads ex_replying !! 21000) as [TC|] eqn:HC; [|done].
  destruct (transactions ex_replying !! 21016) as [X|] eqn:HX; [|done].
  apply bool_decide_eq_true in H as (E1 & E2 & E3 & E4 & E5).
  destruct (result_there (fun _ => true) (binder_transaction manager 20000 ex_reply true ex_replying)) as (s' & [] & H & _);
    [vm_compute; reflexivity|].
  destruct (reply_answers_caller manager 20000 ex_reply 21016 21000 TH TC X ex_replying s' tt)
    as (TH' & TC' & _ & _ & H3 & _ & H5 & _); try assumption; [done|by left|].
  exists s', TC'. auto.
Defined.

(** ** A caller that died *)

(** The manager called the client, which called it back and then exited: the
    manager's reply fails, and so does its own call. *)
Definition ex_orphaned : list event :=
  ex_setup ++
  [ex_send client 2 21000 BC_TRANSACTION 0 TF_ONE_WAY (ex_object 80 81) [0];
   ex_write_read manager 1 22000 [] 64 [] [];
   ex_write_read manager 1 23000 [BC_ACQUIRE; 1; BC_FREE_BUFFER; 1073741864] 0 [] [];
   ex_send manager 1 24000 BC_TRANSACTION 1 0 [] [];
   ex_write_read client 2 25000 [] 64 [] [];
   ex_write_read client 2 25000 [] 64 [] [];
   ex_send client 2 26000 BC_TRANSACTION 0 0 [] [];
   ex_write_read manager 1 27000 [] 64 [] [];
   ex_ioctl client 2 28000 BINDER_THREAD_EXIT].
(** The manager's stack is popped before its reply fails. *)
Definition ex_failing : binder :=
  match reply_target 20000 (ex_result ex_orphaned) with Some (s, _) => s | None => ex_result ex_orphaned end.
Definition ex_orphans (s : binder) : bool :=
  match threads s !! 20000, transactions s !! 26000, transactions s !! 24000 with
  | Some TH, Some X, Some Y =>
      bool_decide (t_from X = None /\ from_parent X = Some 24000 /\ t_from Y = Some 20000 /\
                   transaction_stack TH = Some 24000) && negb (one_way (t_flags X))
  | _, _, _ => false
  end &&
  forallb (fun X => match t_buffer X.2 with
                    | None => true
                    | Some pb => match procs s !! pb.1 with
                                 | Some P => bool_decide (is_Some (header (alloc P) pb.2))
                                 | None => false
                                 end
                    end) (map_to_list (transactions s)).

Lemma ex_orphans_buffers s t X : ex_orphans s = true -> transactions s !! t = Some X -> buffer_there s X.
Proof.
  intros [_ H]%andb_true_iff HX pb Hpb. rewrite forallb_forall in H. specialize (H (t, X)). cbn in H. rewrite Hpb in H.
  rewrite <- list_elem_of_In, elem_of_map_to_list in H. specialize (H HX). unfold has_header.
  destruct (procs s !! pb.1) as [P|]; [|done]. apply bool_decide_eq_true in H as [h Hh]. eauto.
Qed.

Lemma ex_orphans_stack s :
  ex_orphans s = true ->
  exists X, unwinds (transactions s) 26000 [26000] (Some (24000, 20000)) /\ transactions s !! 26000 = Some X /\
    one_way (t_flags X) = false /\ sender_waits s (Some (24000, 20000)).
Proof.
  intros [H _]%andb_true_iff. destruct (threads s !! 20000) as [TH|] eqn:HT; [|done].
  destruct (transactions s !! 26000) as [X|] eqn:HX; [|done]. destruct (transactions s !! 24000) as [Y|] eqn:HY; [|done].
  apply andb_true_iff in H as [H Hone]. apply bool_decide_eq_true in H as (E1 & E2 & E3 & E4). exists X. split_and!.
  - eapply UnwindsNext; [exact HX|exact E1|exact E2|by econstructor|by apply not_elem_of_nil|]. by intros t th [= <- <-].
  - done.
  - by apply negb_true_iff.
  - intros t th [= <- <-]. eauto.
Qed.

Lemma failed_reply_unwinds_witness :
  exists s', binder_send_failed_reply 26000 BR_DEAD_REPLY ex_failing = Some (s', tt) /\
    told BR_DEAD_REPLY (Some (24000, 20000)) ex_failing s' [26000].
Proof.
  assert (ex_orphans ex_failing = true) as H by (vm_compute; reflexivity).
  destruct (ex_orphans_stack _ H) as (X & H1 & H2 & H3 & H4).
  apply (failed_reply_unwinds 26000 X [26000] (Some (24000, 20000)) BR_DEAD_REPLY ex_failing H1 H2 H3 H4).
  intros t X'. exact (ex_orphans_buffers ex_failing t X' H).
Defined.
