(* ===== verification/UserWakelock.v ===== *)
(** * User-space wake locks (kernel/power/userwakelock.c)

    The files /sys/power/wake_lock and /sys/power/wake_unlock: a red-black tree
    of named locks over the interface of WakelockApi.v.  The helpers of
    lib/string.c that the code calls are modelled with it, those of
    lib/vsprintf.c in CType.v. *)

From stdpp Require Import base numbers list gmap strings sorting.
From S2P Require Import Prelude CType RbTree RbTreeProps WakelockApi.

Open Scope Z_scope.

(** ** Strings *)

(** The bytes up to the first white space, and what follows. *)
Fixpoint split_name (s : list Z) : list Z * list Z :=
  match s with
  | [] => ([], [])
  | c :: s' => if isspace c then ([], s)
               else let '(n, r) := split_name s' in (c :: n, r)
  end.

Fixpoint strncmp (cs ct : list Z) (count : nat) : Z :=
  match count with
  | O => 0
  | S n =>
      let c1 := ch cs in
      let c2 := ch ct in
      if negb (c1 =? c2) then (if c1 <? c2 then -1 else 1)
      else if c1 =? 0 then 0
      else strncmp (drop 1 cs) (drop 1 ct) n
  end.

(** ** Parsing a request *)

Definition NSEC_PER_JIFFY : Z := 10000000.      (* NSEC_PER_SEC / HZ *)

(** Nanoseconds to jiffies, in 64 bits, then stored in a [long]. *)
Definition to_jiffies (timeout : Z) : Z :=
  let t := ((timeout + (NSEC_PER_JIFFY - 1)) mod 2 ^ 64) / NSEC_PER_JIFFY in
  s32 (if t <=? 0 then 1 else t).

(** The argument part of [lookup_wake_lock_name]: the name and the timeout in
    jiffies, 0 for none; [None] is the label [bad_arg]. *)
Definition parse_request (buf : list Z) (with_timeout : bool) : option (list Z * Z) :=
  let '(name, arg) := split_name buf in
  if bool_decide (name = []) then None
  else
    let arg := skip_space arg in
    if with_timeout && negb (ch arg =? 0) then
      let '(timeout, arg) := simple_strtoull arg 0 in
      if negb (ch (skip_space arg) =? 0) then None
      else Some (name, to_jiffies timeout)
    else if negb (ch arg =? 0) then None
    else Some (name, 0).

(** ** The tree of locks *)

Record user_wake_lock := UserWakeLock { uname : list Z; uid : nat }.

(** [diff] of the search loop: [strncmp] over the length of the name, and less
    if the entry's name goes on. *)
Definition name_diff (buf : list Z) (name_len : nat) (l : user_wake_lock) : Z :=
  let diff := strncmp buf (uname l) name_len in
  if (diff =? 0) && negb (ch (drop name_len (uname l)) =? 0) then -1 else diff.

Definition name_cmp (buf : list Z) (name_len : nat) (l : user_wake_lock) : comparison :=
  let diff := name_diff buf name_len l in
  if diff <? 0 then Lt else if 0 <? diff then Gt else Eq.

Fixpoint bytes_string (l : list Z) : string :=
  match l with
  | [] => EmptyString
  | c :: l' => String.String (Ascii.ascii_of_nat (Z.to_nat c)) (bytes_string l')
  end.

Section model.
Context {S C : Type} `{!WakeLockApi S C}.

Record uwl_state := UwlState { user_wake_locks : tree user_wake_lock; uwl : S }.

(** [alloc] is what [kzalloc] returns: the identity of the new lock, or no
    memory.  The result is an error, or the lock and the timeout. *)
Definition lookup_wake_lock_name (st : uwl_state) (buf : list Z) (allocate with_timeout : bool)
    (alloc : option nat) : option (uwl_state * (Z + user_wake_lock * Z)) :=
  match parse_request buf with_timeout with
  | None => Some (st, inl (- EINVAL))
  | Some (name, timeout) =>
      match rb_search (name_cmp buf (length name)) (user_wake_locks st) [] with
      | (T _ _ l _, _) => Some (st, inr (l, timeout))
      | (E, place) =>
          if negb allocate then Some (st, inl (- EINVAL))
          else match alloc with
          | None => Some (st, inl (- ENOMEM))
          | Some id =>
              let l := UserWakeLock (take (length name) buf) id in
              s ← api_init (uwl st) id (bytes_string (uname l));
              t ← rb_insert_color (rb_link_node l) place;
              Some (UwlState t s, inr (l, timeout))
          end
      end
  end.

Definition wake_lock_store (c : C) (st : uwl_state) (buf : list Z) (n : Z)
    (alloc : option nat) : option (uwl_state * Z) :=
  '(st1, r) ← lookup_wake_lock_name st buf true true alloc;
  match r with
  | inl err => Some (st1, err)
  | inr (l, timeout) =>
      s ← (if negb (timeout =? 0) then api_lock_timeout c (uwl st1) (uid l) timeout
           else api_lock c (uwl st1) (uid l));
      Some (UwlState (user_wake_locks st1) s, n)
  end.

Definition wake_unlock_store (c : C) (st : uwl_state) (buf : list Z) (n : Z)
    : option (uwl_state * Z) :=
  '(st1, r) ← lookup_wake_lock_name st buf false false None;
  match r with
  | inl err => Some (st1, err)
  | inr (l, _) =>
      s ← api_unlock c (uwl st1) (uid l);
      Some (UwlState (user_wake_locks st1) s, n)
  end.

(** [s += scnprintf(s, end - s, ...)]: what fits in the page, terminator
    included, is written. *)
Definition scnprintf (out text : list Z) : list Z :=
  out ++ take (Z.to_nat (PAGE_SIZE - zlen out - 1)) text.

Definition show (want : bool) (st : uwl_state) : list Z :=
  let names := walk (length (inorder (user_wake_locks st))) (rb_first (user_wake_locks st)) in
  let out := foldl (fun out l => if bool_decide (api_active (uwl st) (uid l) = want)
                                 then scnprintf out (uname l ++ [32]) else out) [] names in
  scnprintf out [10].

Definition wake_lock_show (st : uwl_state) : list Z := show true st.
Definition wake_unlock_show (st : uwl_state) : list Z := show false st.
End model.
Arguments uwl_state : clear implicits.
