(* ===== verification/UserWakelockProps.v ===== *)
(** * User-space wake locks: guarantees

    The search of the code is a lexicographic one, so the tree stays a sorted
    red-black tree with each name once; what the two store files and the two
    show files do; the conversion of timeouts and its overflow. *)

From stdpp Require Import base numbers list gmap strings sorting.
From S2P Require Import Prelude CType RbTree RbTreeProps RbKeyed.
From S2P Require Import Wakelock WakelockInv WakelockProps WakelockApi UserWakelock.

Open Scope Z_scope.

(** ** Order of names *)

Fixpoint lex (a b : list Z) : comparison :=
  match a, b with
  | [], [] => Eq
  | [], _ => Lt
  | _, [] => Gt
  | x :: a', y :: b' => match x ?= y with Eq => lex a' b' | c => c end
  end.

Lemma lex_eq a : forall b, lex a b = Eq <-> a = b.
Proof.
  induction a as [|x a IH]; intros [|y b]; cbn; try done.
  destruct (Z.compare_spec x y) as [->|?|?].
  - rewrite IH. split; [by intros ->|by intros [= ->]].
  - split; [done|intros [= -> _]; lia].
  - split; [done|intros [= -> _]; lia].
Qed.

Lemma lex_opp a : forall b, lex b a = CompOpp (lex a b).
Proof.
  induction a as [|x a IH]; intros [|y b]; cbn; try done.
  rewrite (Z.compare_antisym x y). destruct (x ?= y); cbn; auto.
Qed.

Lemma lex_trans a : forall b c, lex a b = Lt -> lex b c = Lt -> lex a c = Lt.
Proof.
  induction a as [|x a IH]; intros [|y b] [|z c]; cbn; try done.
  destruct (x ?= y) eqn:E1; [apply Z.compare_eq_iff in E1|rewrite Z.compare_lt_iff in E1|done];
    (destruct (y ?= z) eqn:E2; [apply Z.compare_eq_iff in E2|rewrite Z.compare_lt_iff in E2|done]);
    subst; intros H1 H2; rewrite ?Z.compare_refl; cbn; eauto;
    by match goal with |- context [?a ?= ?b] => rewrite (proj2 (Z.compare_lt_iff a b)) by lia end.
Qed.

Definition name_ok (n : list Z) : Prop :=
  n <> [] /\ Forall (fun c => 0 < c /\ isspace c = false) n.
Definition text_ok (s : list Z) : Prop := Forall (fun c => 0 < c) s.

Lemma name_cmp_lex name : forall rest l,
  text_ok name -> text_ok (uname l) ->
  name_cmp (name ++ rest) (length name) l = lex name (uname l).
Proof.
  intros rest [ct id] Hn Hc. cbn [uname] in *. unfold name_cmp, name_diff. cbn [uname].
  revert ct Hc. induction Hn as [|c name Hp Hn IH]; intros ct Hc.
  - cbn. destruct Hc as [|d ct Hd Hc]; cbn; [done|]. by rewrite (proj2 (Z.eqb_neq d 0)) by lia.
  - destruct Hc as [|d ct Hd Hc].
    + cbn. rewrite (proj2 (Z.eqb_neq c 0)) by lia. cbn.
      by rewrite (proj2 (Z.ltb_ge c 0)) by lia.
    + cbn. rewrite drop_0. destruct (Z.compare_spec c d) as [->|Hlt|Hgt].
      * rewrite Z.eqb_refl, (proj2 (Z.eqb_neq d 0)) by lia. cbn. by apply IH.
      * rewrite (proj2 (Z.eqb_neq c d)), (proj2 (Z.ltb_lt c d)) by lia. done.
      * rewrite (proj2 (Z.eqb_neq c d)), (proj2 (Z.ltb_ge c d)) by lia. done.
Qed.

(** ** Parsing *)

Lemma split_name_spec s n r :
  split_name s = (n, r) -> s = n ++ r /\ Forall (fun c => isspace c = false) n.
Proof.
  revert n r. induction s as [|c s IH]; intros n r; cbn; [by intros [= <- <-]|].
  destruct (isspace c) eqn:E; [by intros [= <- <-]|].
  destruct (split_name s) as [n' r'] eqn:Es. intros [= <- <-].
  destruct (IH n' r' eq_refl) as [-> H]. auto.
Qed.

Lemma parse_name buf wt name t :
  text_ok buf -> parse_request buf wt = Some (name, t) ->
  name_ok name /\ exists rest, buf = name ++ rest.
Proof.
  intros Hb. unfold parse_request. destruct (split_name buf) as [n r] eqn:Es.
  apply split_name_spec in Es as [-> Hf]. case_bool_decide; [done|].
  intros Hp. assert (name = n) as ->.
  { destruct (wt && _); [destruct (simple_strtoull _ _) as [v a]|]; destruct (negb _); by simplify_eq. }
  split; [|by eexists]. split; [done|]. apply Forall_app in Hb as [Hb _].
  apply Forall_and. split; done.
Qed.

Lemma name_text n : name_ok n -> text_ok n.
Proof. intros [_ H]. eapply Forall_impl; [exact H|]. by intros c []. Qed.

(** ** The tree *)

Section tree.
Context {S C : Type} `{!WakeLockApi S C, !WakeLockLaws S C}.
Implicit Types (st : uwl_state S).

Definition name_lt (l l' : user_wake_lock) : Prop := lex (uname l) (uname l') = Lt.

Definition entries st : list user_wake_lock := inorder (user_wake_locks st).

(** A red-black tree sorted by name, its locks distinct and set up. *)
Record uwl_ok st : Prop := {
  uo_rbt : exists m, rbt Black m (user_wake_locks st);
  uo_sorted : StronglySorted name_lt (entries st);
  uo_names l : l ∈ entries st -> name_ok (uname l);
  uo_api : api_ok (uwl st);
  uo_ready l : l ∈ entries st -> ready (uwl st) (uid l);
  uo_ids : NoDup (uid <$> entries st) }.

(** What the search loop finds. *)
Lemma search_name st name rest t place :
  uwl_ok st -> name_ok name ->
  rb_search (name_cmp (name ++ rest) (length name)) (user_wake_locks st) [] = (t, place) ->
  match t with
  | T _ _ l _ => l ∈ entries st /\ uname l = name
  | E => entries st = before place ++ after place /\
      (forall l, l ∈ before place -> lex (uname l) name = Lt) /\
      (forall l, l ∈ after place -> lex name (uname l) = Lt) /\
      exists m, rbt Black m (plug E place)
  end.
Proof.
  intros Hok Hn Hs. pose proof (name_text _ Hn) as Hnt.
  assert (forall l, l ∈ entries st ->
    name_cmp (name ++ rest) (length name) l = lex name (uname l)) as Hcmp.
  { intros l Hl. apply name_cmp_lex; [done|]. apply name_text. by eapply uo_names. }
  pose proof (rb_search_plug (name_cmp (name ++ rest) (length name)) (user_wake_locks st) []) as Hp.
  rewrite Hs in Hp. cbn in Hp.
  assert (entries st = before place ++ inorder t ++ after place) as He
    by (unfold entries; rewrite <- Hp; apply inorder_plug).
  destruct t as [|c l x r].
  - assert ((forall l, l ∈ before place -> name_cmp (name ++ rest) (length name) l = Gt) /\
      (forall l, l ∈ after place -> name_cmp (name ++ rest) (length name) l = Lt)) as [Hb Ha].
    { pose proof (rb_search_missing (name_cmp (name ++ rest) (length name)) (user_wake_locks st) [])
        as Hm. rewrite Hs in Hm. apply Hm; [set_solver|set_solver| |done].
      intros l1 x l2 Hi. fold (entries st) in Hi. pose proof (uo_sorted _ Hok) as Hso.
      rewrite Hi in Hso. apply sorted_split in Hso as [H1 H2].
      rewrite Hcmp by (rewrite Hi; set_solver). split; intros Hx y Hy;
        rewrite Hcmp by (rewrite Hi; set_solver).
      - eapply lex_trans; [exact Hx|]. by apply H2.
      - rewrite lex_opp in Hx |- *. apply CompOpp_iff in Hx. apply CompOpp_iff.
        eapply lex_trans; [by apply H1|exact Hx]. }
    cbn in He. split_and!; [done| | |].
    + intros l Hl. specialize (Hb l Hl). rewrite Hcmp in Hb by (rewrite He; set_solver).
      by rewrite lex_opp, Hb.
    + intros l Hl. specialize (Ha l Hl). by rewrite Hcmp in Ha by (rewrite He; set_solver).
    + rewrite Hp. apply Hok.
  - assert (x ∈ entries st) as Hx by (rewrite He; cbn; set_solver). split; [done|].
    pose proof (rb_search_found (name_cmp (name ++ rest) (length name)) (user_wake_locks st) [] c l x r) as Hf.
    rewrite Hs in Hf. specialize (Hf eq_refl). rewrite Hcmp in Hf by done.
    by apply lex_eq in Hf.
Qed.

(** Adding the lock [l] set up as [id] at the place the search ended. *)
Lemma insert_lock st name place id m :
  uwl_ok st -> name_ok name -> absent (uwl st) id ->
  entries st = before place ++ after place ->
  (forall l, l ∈ before place -> lex (uname l) name = Lt) ->
  (forall l, l ∈ after place -> lex name (uname l) = Lt) ->
  rbt Black m (plug E place) ->
  exists s t, api_init (uwl st) id (bytes_string name) = Some s /\
    rb_insert_color (rb_link_node (UserWakeLock name id)) place = Some t /\
    uwl_ok (UwlState t s) /\
    (forall l, l ∈ inorder t <-> l = UserWakeLock name id \/ l ∈ entries st) /\
    (forall l, l ∈ entries st -> holds s (uid l) <-> holds (uwl st) (uid l)).
Proof.
  intros [Hr Hs Hn Ha Hre Hid] Hname Hab He Hb Haf Hm.
  destruct (init_law (uwl st) id (bytes_string name) Ha Hab) as (s & Hs1 & Ha' & Hrd & _ & Hoth).
  destruct (insert_at m (UserWakeLock name id) place Hm) as (t & m' & Ht & Hrt & Hin).
  assert (forall l, l ∈ entries st -> uid l <> id) as Hne.
  { intros l Hl <-. eapply absent_not_ready; [exact Hab|]. by apply Hre. }
  assert (forall l, l ∈ inorder t <-> l = UserWakeLock name id \/ l ∈ entries st) as Hel.
  { intros l. rewrite Hin, He. set_solver. }
  exists s, t. split_and!; [done|done| |done|].
  - split; cbn.
    + by exists m'.
    + unfold entries. cbn. rewrite Hin. apply sorted_app; [by rewrite <- He|..]; unfold name_lt; auto.
    + intros l [->|Hl]%Hel; [done|auto].
    + done.
    + intros l [->|Hl]%Hel; [done|]. apply Hoth; auto.
    + unfold entries. cbn. rewrite Hin, fmap_app, fmap_cons, <- Permutation_middle, <- fmap_app, <- He.
      apply NoDup_cons. split; [|done]. cbn. intros (l & ? & Hl)%list_elem_of_fmap. by eapply Hne.
  - intros l Hl. apply Hoth. auto.
Qed.

Definition named st (name : list Z) : Prop := exists l, l ∈ entries st /\ uname l = name.

(** What [lookup_wake_lock_name] does with a well-formed request. *)
Definition lookup_post st (allocate : bool) (alloc : option nat) (name : list Z) (t : Z)
    (st' : uwl_state S) (r : Z + user_wake_lock * Z) : Prop :=
  (exists l, l ∈ entries st' /\ uname l = name /\ r = inr (l, t) /\
     (st' = st \/
      (allocate = true /\ alloc = Some (uid l) /\ ~ named st name /\
       (forall l', l' ∈ entries st' <-> l' = l \/ l' ∈ entries st) /\
       (forall l', l' ∈ entries st -> holds (uwl st') (uid l') <-> holds (uwl st) (uid l'))))) \/
  (st' = st /\ ~ named st name /\
   ((allocate = false /\ r = inl (- EINVAL)) \/
    (allocate = true /\ alloc = None /\ r = inl (- ENOMEM)))).

Lemma lookup_spec st buf allocate wt alloc :
  uwl_ok st -> text_ok buf -> (forall id, alloc = Some id -> absent (uwl st) id) ->
  exists st' r, lookup_wake_lock_name st buf allocate wt alloc = Some (st', r) /\ uwl_ok st' /\
    match parse_request buf wt with
    | None => st' = st /\ r = inl (- EINVAL)
    | Some (name, t) => lookup_post st allocate alloc name t st' r
    end.
Proof.
  intros Hok Hb Hal. unfold lookup_wake_lock_name.
  destruct (parse_request buf wt) as [[name t]|] eqn:Ep; [|by do 2 eexists].
  apply parse_name in Ep as [Hn [rest ->]]; [|done].
  destruct (rb_search _ _ _) as [tt place] eqn:Es.
  apply search_name in Es; [|done|done]. destruct tt as [|c tl l tr].
  - destruct Es as (He & Hbe & Haf & m & Hm).
    assert (~ named st name) as Hno.
    { intros (l & Hl & <-). rewrite He, elem_of_app in Hl.
      assert (lex (uname l) (uname l) = Eq) as Hq by (by apply lex_eq).
      destruct Hl as [Hl|Hl]; [specialize (Hbe l Hl)|specialize (Haf l Hl)]; congruence. }
    destruct allocate; cbn; [|do 2 eexists; split; [done|]; split; [done|]; right; auto].
    destruct alloc as [id|]; [|do 2 eexists; split; [done|]; split; [done|]; right; split_and!; auto 6].
    rewrite take_app_length.
    destruct (insert_lock st name place id m) as (s & tn & -> & -> & Hok' & Hel & Hh);
      [done|done|by apply Hal|done..|]. cbn.
    do 2 eexists. split; [done|]. split; [done|]. left. exists (UserWakeLock name id).
    split_and!; [apply Hel; by left|done|done|]. right. split_and!; done.
  - destruct Es as [Hl <-]. do 2 eexists. split; [done|]. split; [done|]. left. exists l. auto.
Qed.

(** The tree is unaffected by operations on the locks themselves. *)
Lemma uwl_ok_api st s :
  uwl_ok st -> api_ok s -> (forall j, ready s j <-> ready (uwl st) j) ->
  uwl_ok (UwlState (user_wake_locks st) s).
Proof.
  intros [Hr Hs Hn Ha Hre Hid] Hs' Hj. split; try done. intros l Hl. apply Hj. auto.
Qed.

(** Two entries with the same lock are the same entry. *)
Lemma uid_inj st l l' :
  uwl_ok st -> l ∈ entries st -> l' ∈ entries st -> uid l = uid l' -> l = l'.
Proof.
  intros Hok Hl Hl' Hu. pose proof (uo_ids _ Hok) as Hnd.
  apply list_elem_of_lookup in Hl as [i Hi]. apply list_elem_of_lookup in Hl' as [j Hj].
  assert (i = j) as ->; [|congruence].
  eapply NoDup_lookup; [exact Hnd|by rewrite list_lookup_fmap, Hi|].
  by rewrite list_lookup_fmap, Hj, Hu.
Qed.

(** What [wake_lock_store] does with a well-formed request. *)
Definition store_post st (alloc : option nat) (name : list Z) (t n : Z)
    (st' : uwl_state S) (r : Z) : Prop :=
  (exists l, l ∈ entries st' /\ uname l = name /\ r = n /\
     (t = 0 -> holds (uwl st') (uid l)) /\ (t <> 0 -> ~ holds (uwl st') (uid l)) /\
     (forall l', l' ∈ entries st' <-> l' = l \/ l' ∈ entries st) /\
     (forall l', l' ∈ entries st -> l' <> l -> holds (uwl st') (uid l') <-> holds (uwl st) (uid l'))) \/
  (st' = st /\ ~ named st name /\ alloc = None /\ r = - ENOMEM).

Lemma store_spec c st buf n alloc :
  uwl_ok st -> text_ok buf -> (forall id, alloc = Some id -> absent (uwl st) id) ->
  exists st' r, wake_lock_store c st buf n alloc = Some (st', r) /\ uwl_ok st' /\
    match parse_request buf true with
    | None => st' = st /\ r = - EINVAL
    | Some (name, t) => store_post st alloc name t n st' r
    end.
Proof.
  intros Hok Hb Hal. unfold wake_lock_store.
  destruct (lookup_spec st buf true true alloc Hok Hb Hal) as (st1 & r1 & -> & Hok1 & Hp). cbn.
  destruct (parse_request buf true) as [[name t]|]; [|destruct Hp as [-> ->]; by do 2 eexists].
  destruct Hp as [(l & Hl & Hn & -> & Hcase)|(-> & Hno & [[? _]|(_ & -> & ->)])];
    [|done|do 2 eexists; split; [done|]; split; [done|]; by right].
  pose proof (uo_ready _ Hok1 l Hl) as Hrd. pose proof (uo_api _ Hok1) as Ha1.
  assert (exists s, (if negb (t =? 0) then api_lock_timeout c (uwl st1) (uid l) t
      else api_lock c (uwl st1) (uid l)) = Some s /\ api_ok s /\
      (t = 0 -> holds s (uid l)) /\ (t <> 0 -> ~ holds s (uid l)) /\
      (forall j, ready s j <-> ready (uwl st1) j) /\
      (forall j, j <> uid l -> holds s j <-> holds (uwl st1) j))
    as (s & -> & Ha & H0 & Ht & Hk & Hh).
  { destruct (Z.eqb_spec t 0) as [E|E]; cbn.
    - destruct (lock_law c (uwl st1) (uid l) Ha1 Hrd) as (s & ? & ? & ? & Hk & ?).
      exists s. split_and!; try done. intros j. apply Hk.
    - destruct (lock_timeout_law c (uwl st1) (uid l) t Ha1 Hrd) as (s & ? & ? & ? & Hk & ?).
      exists s. split_and!; try done. intros j. apply Hk. }
  cbn. do 2 eexists. split; [done|]. split; [by apply uwl_ok_api|]. left. exists l.
  assert (forall l', l' ∈ entries st1 -> l' <> l -> holds s (uid l') <-> holds (uwl st1) (uid l')) as Hs1.
  { intros l' Hl' Hne. apply Hh. intros Hu. apply Hne. by eapply uid_inj. }
  assert (forall l', l' ∈ entries st1 <-> l' = l \/ l' ∈ entries st) as Hel.
  { destruct Hcase as [->|(_ & _ & _ & H & _)]; [|done]. set_solver. }
  split_and!; try done. intros l' Hl' Hne. rewrite Hs1; [|apply Hel; by right|done].
  destruct Hcase as [->|(_ & _ & _ & _ & H)]; [done|by apply H].
Qed.

Lemma unlock_store_spec c st buf n :
  uwl_ok st -> text_ok buf ->
  exists st' r, wake_unlock_store c st buf n = Some (st', r) /\ uwl_ok st' /\
    entries st' = entries st /\
    match parse_request buf false with
    | None => st' = st /\ r = - EINVAL
    | Some (name, _) =>
        (exists l, l ∈ entries st /\ uname l = name /\ r = n /\
           api_active (uwl st') (uid l) = false /\
           (forall l', l' ∈ entries st -> l' <> l ->
              holds (uwl st') (uid l') <-> holds (uwl st) (uid l'))) \/
        (st' = st /\ ~ named st name /\ r = - EINVAL)
    end.
Proof.
  intros Hok Hb. unfold wake_unlock_store.
  destruct (lookup_spec st buf false false None Hok Hb) as (st1 & r1 & -> & Hok1 & Hp); [done|]. cbn.
  destruct (parse_request buf false) as [[name t]|]; [|destruct Hp as [-> ->]; by do 2 eexists].
  destruct Hp as [(l & Hl & Hn & -> & [->|(? & _)])|(-> & Hno & [[_ ->]|(? & _)])];
    [|done|do 2 eexists; split; [done|]; split; [done|]; split; [done|]; by right|done].
  destruct (unlock_law c (uwl st) (uid l)) as (s & -> & Ha & Hin & Hk & Hh);
    [apply Hok|by apply Hok|]. cbn.
  do 2 eexists. split; [done|]. split; [apply uwl_ok_api; [done..|]; intros j; apply Hk|].
  split; [done|]. left. exists l. split_and!; try done.
  intros l' Hl' Hne. apply Hh. intros Hu. apply Hne. by eapply uid_inj.
Qed.

(** ** The show files *)

Definition show_text (want : bool) st : list Z :=
  concat ((fun l => uname l ++ [32]) <$>
    filter (fun l => api_active (uwl st) (uid l) = want) (entries st)) ++ [10].

Lemma scnprintf_fits out text :
  zlen out + zlen text < PAGE_SIZE -> scnprintf out text = out ++ text.
Proof. intros H. unfold scnprintf. rewrite take_ge; [done|]. unfold zlen in *. lia. Qed.

Lemma scnprintf_bound out text : zlen out < PAGE_SIZE -> zlen (scnprintf out text) < PAGE_SIZE.
Proof. intros H. unfold scnprintf. rewrite zlen_app, zlen_take. unfold zlen in *. lia. Qed.

Lemma show_fold st want ls : forall out,
  zlen out + zlen (concat ((fun l => uname l ++ [32]) <$>
    filter (fun l => api_active (uwl st) (uid l) = want) ls)) < PAGE_SIZE ->
  foldl (fun out l => if bool_decide (api_active (uwl st) (uid l) = want)
                      then scnprintf out (uname l ++ [32]) else out) out ls =
  out ++ concat ((fun l => uname l ++ [32]) <$>
    filter (fun l => api_active (uwl st) (uid l) = want) ls).
Proof.
  induction ls as [|l ls IH]; intros out Hz; cbn [foldl]; [by rewrite app_nil_r|].
  rewrite filter_cons in Hz |- *. case_bool_decide as E.
  - rewrite decide_True in Hz |- * by done. rewrite fmap_cons in Hz |- *. cbn [concat] in Hz |- *.
    rewrite zlen_app in Hz.
    match type of Hz with context [zlen (concat ?x)] => pose proof (zlen_nonneg (concat x)) end.
    rewrite scnprintf_fits by lia. rewrite IH by (rewrite zlen_app; lia). by rewrite <- app_assoc.
  - rewrite decide_False in Hz |- * by done. by apply IH.
Qed.

Lemma show_spec want st : zlen (show_text want st) < PAGE_SIZE -> show want st = show_text want st.
Proof.
  unfold show_text, show. intros Hz. rewrite walk_first by done. fold (entries st).
  rewrite zlen_app in Hz. change (zlen [10]) with 1 in Hz.
  rewrite show_fold; [|change (zlen (@nil Z)) with 0; lia]. apply scnprintf_fits.
  cbn [app]. change (zlen [10]) with 1. lia.
Qed.

Lemma show_bound want st : zlen (show want st) < PAGE_SIZE.
Proof.
  unfold show. apply scnprintf_bound.
  assert (forall ls out, zlen out < PAGE_SIZE ->
    zlen (foldl (fun out l => if bool_decide (api_active (uwl st) (uid l) = want)
      then scnprintf out (uname l ++ [32]) else out) out ls) < PAGE_SIZE) as H.
  { induction ls as [|l ls IH]; intros out Ho; cbn; [done|]. apply IH.
    case_bool_decide; [by apply scnprintf_bound|done]. }
  by apply H.
Qed.
End tree.

(** ** Properties *)

Section properties.
Context {S C : Type} `{!WakeLockApi S C, !WakeLockLaws S C}.
Implicit Types (st : uwl_state S).

(** Writing to /sys/power/wake_lock keeps the tree a red-black tree sorted
    by name with one lock per name.  A malformed request is refused with
    -EINVAL and changes nothing.  Otherwise the lock of that name, set up if it
    is new, is held: without timeout if none was given, and with one otherwise;
    the locks of other names are as before.  Only when a new lock cannot be
    allocated is the answer -ENOMEM, with nothing changed. *)
Theorem wake_lock_store_correct (c : C) st buf n alloc :
  uwl_ok st -> text_ok buf -> (forall id, alloc = Some id -> absent (uwl st) id) ->
  exists st' r, wake_lock_store c st buf n alloc = Some (st', r) /\ uwl_ok st' /\
    match parse_request buf true with
    | None => st' = st /\ r = - EINVAL
    | Some (name, t) => store_post st alloc name t n st' r
    end.
Proof. apply store_spec. Qed.

(** Writing to /sys/power/wake_unlock releases the lock of that name and
    no other; a malformed request or an unknown name is refused with -EINVAL
    and changes nothing.  No lock is ever created. *)
Theorem wake_unlock_store_correct (c : C) st buf n :
  uwl_ok st -> text_ok buf ->
  exists st' r, wake_unlock_store c st buf n = Some (st', r) /\ uwl_ok st' /\
    entries st' = entries st /\
    match parse_request buf false with
    | None => st' = st /\ r = - EINVAL
    | Some (name, _) =>
        (exists l, l ∈ entries st /\ uname l = name /\ r = n /\
           api_active (uwl st') (uid l) = false /\
           (forall l', l' ∈ entries st -> l' <> l ->
              holds (uwl st') (uid l') <-> holds (uwl st) (uid l'))) \/
        (st' = st /\ ~ named st name /\ r = - EINVAL)
    end.
Proof. apply unlock_store_spec. Qed.

(** The two show files never write more than a page, and when the text
    fits, /sys/power/wake_lock lists exactly the names of the active locks and
    /sys/power/wake_unlock exactly the others, each in the order of the tree. *)
Theorem wake_lock_show_correct st :
  zlen (wake_lock_show st) < PAGE_SIZE /\ zlen (wake_unlock_show st) < PAGE_SIZE /\
  (zlen (show_text true st) < PAGE_SIZE -> wake_lock_show st = show_text true st) /\
  (zlen (show_text false st) < PAGE_SIZE -> wake_unlock_show st = show_text false st).
Proof. split_and!; try apply show_bound; apply show_spec. Qed.
End properties.

(** A timeout of at least one nanosecond is rounded up to whole jiffies,
    at least one, as long as it is below 2^31 jiffies. *)
Theorem timeout_rounds_up ns :
  0 <= ns <= (2 ^ 31 - 1) * NSEC_PER_JIFFY ->
  1 <= to_jiffies ns < 2 ^ 31 /\ ns <= to_jiffies ns * NSEC_PER_JIFFY /\
  (0 < ns -> (to_jiffies ns - 1) * NSEC_PER_JIFFY < ns).
Proof.
  unfold to_jiffies, NSEC_PER_JIFFY. intros H. rewrite Z.mod_small by lia.
  set (q := (ns + (10000000 - 1)) / 10000000).
  pose proof (Z.div_mod (ns + (10000000 - 1)) 10000000 ltac:(lia)) as Hd.
  pose proof (Z.mod_pos_bound (ns + (10000000 - 1)) 10000000 ltac:(lia)) as Hm. fold q in Hd.
  destruct (Z.leb_spec q 0); rewrite s32_small by lia; lia.
Qed.

(** ** Witnesses, over the model of wakelock.c *)

Definition uwl_boot : uwl_state wl_state := UwlState E boot.

Lemma uwl_boot_ok : uwl_ok uwl_boot.
Proof.
  split; cbn; try (intros l Hl; by apply elem_of_nil in Hl).
  - exists 0%nat. constructor.
  - constructor.
  - apply boot_ok.
  - constructor.
Qed.

Lemma chars_ok_mmc : text_ok (chars "mmc0 1500000000").
Proof. unfold text_ok. apply (bool_decide_unpack _). by vm_compute. Qed.

Lemma wake_lock_store_correct_witness :
  exists st', wake_lock_store clk0 uwl_boot (chars "mmc0 1500000000") 15 (Some 7%nat) = Some (st', 15) /\
    held (uwl st') WAKE_LOCK_SUSPEND !! 7%nat = Some (Some 1150).
Proof.
  destruct (wake_lock_store_correct clk0 uwl_boot (chars "mmc0 1500000000") 15 (Some 7%nat)
    uwl_boot_ok chars_ok_mmc) as (st' & r & H & _); [intros id [= <-]; vm_compute; reflexivity|].
  exists st'. vm_compute in H. injection H as <- <-. split; vm_compute; reflexivity.
Defined.

Definition uwl_mmc : uwl_state wl_state :=
  match wake_lock_store clk0 uwl_boot (chars "mmc0") 4 (Some 7%nat) with
  | Some (st, _) => st | None => uwl_boot end.

Lemma chars_ok_short : text_ok (chars "mmc0").
Proof. unfold text_ok. apply (bool_decide_unpack _). by vm_compute. Qed.

Lemma uwl_mmc_ok : uwl_ok uwl_mmc.
Proof.
  unfold uwl_mmc. destruct (store_spec clk0 uwl_boot (chars "mmc0") 4 (Some 7%nat)
    uwl_boot_ok chars_ok_short) as (st' & r & -> & Hok & _); [|done].
  intros id [= <-]. vm_compute. reflexivity.
Qed.

Lemma wake_unlock_store_correct_witness :
  exists st', wake_unlock_store clk0 uwl_mmc (chars "mmc0") 4 = Some (st', 4) /\
    wake_lock_show uwl_mmc = chars "mmc0 " ++ [10] /\ wake_lock_show st' = [10].
Proof.
  destruct (wake_unlock_store_correct clk0 uwl_mmc (chars "mmc0") 4 uwl_mmc_ok chars_ok_short)
    as (st' & r & H & _).
  exists st'. vm_compute in H. injection H as <- <-. split_and!; vm_compute; reflexivity.
Defined.

Lemma timeout_rounds_up_witness : to_jiffies 1500000001 = 151 /\ 1 <= to_jiffies 1500000001 < 2 ^ 31.
Proof.
  split; [reflexivity|]. apply (timeout_rounds_up 1500000001). unfold NSEC_PER_JIFFY. lia.
Defined.

(** The number of jiffies is truncated to a [long]: a timeout of 2^32
    jiffies (about 497 days) becomes 0, which takes the lock without any
    timeout, and one of 2^31 jiffies becomes negative, so that the lock has
    expired when it is taken and the suspend work is queued at once. *)
Theorem timeout_truncation :
  (exists st', wake_lock_store clk0 uwl_boot (chars "x 42949672960000000") 19 (Some 7%nat)
     = Some (st', 19) /\ held (uwl st') WAKE_LOCK_SUSPEND !! 7%nat = Some None) /\
  (exists st1 st2 s2, wake_unlock clk0 boot main_wake_lock = Some s2 /\
     wake_lock_store clk0 (UwlState E (set_queued s2 false)) (chars "x 21474836480000000") 19
       (Some 7%nat) = Some (st1, 19) /\ st2 = uwl st1 /\
     wake_lock_active st2 7 = false /\ suspend_queued st2 = true).
Proof.
  split; [eexists; split; vm_compute; reflexivity|].
  do 3 eexists. split; [vm_compute; reflexivity|]. split; [vm_compute; reflexivity|].
  split; [reflexivity|]. split; vm_compute; reflexivity.
Qed.
