(* ===== verification/Ashmem.v ===== *)
(** * Anonymous shared memory (mm/ashmem.c)

    All areas share one store of unpinned ranges, one LRU list and its page
    count, protected by [ashmem_mutex]; every operation below is one critical
    section.  A range is on the [unpinned_list] of its area and, unless it was
    purged, on [ashmem_lru_list]: both lists hold the identities of the ranges
    in [ranges].  [mem] says whether an allocation succeeds.  The backing shmem
    file is an identity with a reference count; [vmtruncate_range] calls on it
    are recorded in [truncated]. *)

From stdpp Require Import base numbers list gmap strings.
From S2P Require Import Prelude.

Open Scope Z_scope.

Definition ASHMEM_NAME_LEN : Z := 256.
Definition ASHMEM_NAME_PREFIX : list Z := [100; 101; 118; 47; 97; 115; 104; 109; 101; 109; 47].
Definition ASHMEM_NAME_PREFIX_LEN : Z := 11.
Definition ASHMEM_FULL_NAME_LEN : Z := ASHMEM_NAME_LEN + ASHMEM_NAME_PREFIX_LEN.
(** "dev/ashmem" with its terminator. *)
Definition ASHMEM_NAME_DEF : list Z := [100; 101; 118; 47; 97; 115; 104; 109; 101; 109; 0].

Definition ASHMEM_NOT_PURGED : Z := 0.
Definition ASHMEM_WAS_PURGED : Z := 1.
Definition ASHMEM_IS_UNPINNED : Z := 0.
Definition ASHMEM_IS_PINNED : Z := 1.

Definition PROT_READ : Z := 1.
Definition PROT_WRITE : Z := 2.
Definition PROT_EXEC : Z := 4.
Definition PROT_MASK : Z := 7.
Definition VM_SHARED : Z := 8.
Definition VM_CAN_NONLINEAR : Z := 2 ^ 27.

(** ** State *)

Record range_t := Range { r_asma : nat; pgstart : Z; pgend : Z; purged : Z }.

Record area_t := Area {
  a_name : list Z;
  unpinned_list : list nat;
  a_file : option nat;                   (* the backing file *)
  a_size : Z;
  vm_start : Z;
  prot_mask : Z }.

Record ashmem := Ashmem {
  areas : gmap nat area_t;
  ranges : gmap nat range_t;
  ashmem_lru_list : list nat;
  lru_count : Z;
  next_range : nat;                      (* the next fresh range object *)
  fcount : gmap nat Z;                   (* reference counts of backing files *)
  truncated : list (nat * Z * Z) }.      (* vmtruncate_range(file, start, end) calls *)

Definition set_areas (s : ashmem) a :=
  Ashmem a (ranges s) (ashmem_lru_list s) (lru_count s) (next_range s) (fcount s) (truncated s).
Definition set_ranges (s : ashmem) r n :=
  Ashmem (areas s) r (ashmem_lru_list s) (lru_count s) n (fcount s) (truncated s).
Definition set_lru (s : ashmem) l n :=
  Ashmem (areas s) (ranges s) l n (next_range s) (fcount s) (truncated s).
Definition set_fcount (s : ashmem) f :=
  Ashmem (areas s) (ranges s) (ashmem_lru_list s) (lru_count s) (next_range s) f (truncated s).
Definition set_truncated (s : ashmem) t :=
  Ashmem (areas s) (ranges s) (ashmem_lru_list s) (lru_count s) (next_range s) (fcount s) t.

Definition set_unpinned (s : ashmem) (a : nat) (f : list nat -> list nat) : ashmem :=
  set_areas s (alter (fun x => Area (a_name x) (f (unpinned_list x)) (a_file x) (a_size x)
                                 (vm_start x) (prot_mask x)) a (areas s)).

(** ** Ranges *)

Definition range_size (r : range_t) : Z := u32 (pgend r - pgstart r + 1).
Definition range_on_lru (r : range_t) : bool := purged r =? ASHMEM_NOT_PURGED.
Definition page_range_subsumes_range (r : range_t) (st en : Z) : bool :=
  (st <=? pgstart r) && (pgend r <=? en).
Definition page_range_subsumed_by_range (r : range_t) (st en : Z) : bool :=
  (pgstart r <=? st) && (en <=? pgend r).
Definition page_in_range (r : range_t) (page : Z) : bool :=
  (pgstart r <=? page) && (page <=? pgend r).
Definition page_range_in_range (r : range_t) (st en : Z) : bool :=
  page_in_range r st || page_in_range r en || page_range_subsumes_range r st en.
Definition range_before_page (r : range_t) (page : Z) : bool := pgend r <? page.

Definition lru_add (s : ashmem) (id : nat) (r : range_t) : ashmem :=
  set_lru s (list_add_tail id (ashmem_lru_list s)) (u32 (lru_count s + range_size r)).
Definition lru_del (s : ashmem) (id : nat) (r : range_t) : ashmem :=
  set_lru s (list_del id (ashmem_lru_list s)) (u32 (lru_count s - range_size r)).

(** [list_add_tail(&range->unpinned, &prev_range->unpinned)]: before
    [prev], or at the end when the loop ran to the list head. *)
Fixpoint insert_before (prev : option nat) (id : nat) (l : list nat) : list nat :=
  match l with
  | [] => [id]
  | x :: l' => if decide (prev = Some x) then id :: x :: l' else x :: insert_before prev id l'
  end.

Definition range_alloc (mem : bool) (s : ashmem) (a : nat) (prev : option nat) (prg st en : Z)
    : ashmem * Z :=
  if negb mem then (s, - ENOMEM)
  else
    let id := next_range s in
    let r := Range a st en prg in
    let s1 := set_ranges s (<[id := r]> (ranges s)) (S id) in
    let s2 := set_unpinned s1 a (insert_before prev id) in
    (if range_on_lru r then lru_add s2 id r else s2, 0).

Definition range_del (s : ashmem) (id : nat) : ashmem :=
  match ranges s !! id with
  | None => s
  | Some r =>
      let s1 := set_unpinned s (r_asma r) (list_del id) in
      let s2 := if range_on_lru r then lru_del s1 id r else s1 in
      set_ranges s2 (delete id (ranges s2)) (next_range s2)
  end.

Definition range_shrink (s : ashmem) (id : nat) (st en : Z) : ashmem :=
  match ranges s !! id with
  | None => s
  | Some r =>
      let r' := Range (r_asma r) st en (purged r) in
      let s1 := set_ranges s (<[id := r']> (ranges s)) (next_range s) in
      if range_on_lru r
      then set_lru s1 (ashmem_lru_list s1) (u32 (lru_count s1 - (range_size r - range_size r')))
      else s1
  end.

(** ** Pinning *)

(** The loop of [ashmem_pin] over the ranges [ids] still to visit. *)
Fixpoint pin_loop (mem : bool) (s : ashmem) (a : nat) (ids : list nat) (st en ret : Z)
    : ashmem * Z :=
  match ids with
  | [] => (s, ret)
  | id :: ids' =>
      match ranges s !! id with
      | None => (s, ret)
      | Some r =>
          if range_before_page r st then (s, ret)
          else if page_range_in_range r st en then
            let ret := Z.lor ret (purged r) in
            if page_range_subsumes_range r st en then
              pin_loop mem (range_del s id) a ids' st en ret
            else if st <=? pgstart r then
              pin_loop mem (range_shrink s id (en + 1) (pgend r)) a ids' st en ret
            else if pgend r <=? en then
              pin_loop mem (range_shrink s id (pgstart r) (st - 1)) a ids' st en ret
            else
              let '(s1, _) := range_alloc mem s a (Some id) (purged r) (en + 1) (pgend r) in
              (range_shrink s1 id (pgstart r) (st - 1), ret)
          else pin_loop mem s a ids' st en ret
      end
  end.

Definition area_unpinned (s : ashmem) (a : nat) : list nat :=
  match areas s !! a with Some x => unpinned_list x | None => [] end.

Definition ashmem_pin (mem : bool) (s : ashmem) (a : nat) (st en : Z) : ashmem * Z :=
  pin_loop mem s a (area_unpinned s a) st en ASHMEM_NOT_PURGED.

(** One pass of [ashmem_unpin]: where it stopped. *)
Inductive unpin_stop :=
  | UnpinDone                                        (* already unpinned *)
  | UnpinRestart (id : nat) (r : range_t)            (* merge with this range *)
  | UnpinInsert (prev : option nat).                 (* insertion point *)

Fixpoint unpin_scan (s : ashmem) (ids : list nat) (st en : Z) : unpin_stop :=
  match ids with
  | [] => UnpinInsert None
  | id :: ids' =>
      match ranges s !! id with
      | None => UnpinInsert None
      | Some r =>
          if range_before_page r st then UnpinInsert (Some id)
          else if page_range_subsumed_by_range r st en then UnpinDone
          else if page_range_in_range r st en then UnpinRestart id r
          else unpin_scan s ids' st en
      end
  end.

(** The restarts remove one range each: [fuel] is the length of the list. *)
Fixpoint unpin_loop (fuel : nat) (mem : bool) (s : ashmem) (a : nat) (st en prg : Z)
    : option (ashmem * Z) :=
  match unpin_scan s (area_unpinned s a) st en with
  | UnpinDone => Some (s, 0)
  | UnpinInsert prev => Some (range_alloc mem s a prev prg st en)
  | UnpinRestart id r =>
      match fuel with
      | O => None
      | S fuel' =>
          unpin_loop fuel' mem (range_del s id) a (Z.min (pgstart r) st) (Z.max (pgend r) en)
            (Z.lor prg (purged r))
      end
  end.

Definition ashmem_unpin (mem : bool) (s : ashmem) (a : nat) (st en : Z) : option (ashmem * Z) :=
  unpin_loop (length (area_unpinned s a)) mem s a st en ASHMEM_NOT_PURGED.

Fixpoint pin_status_loop (s : ashmem) (ids : list nat) (st en : Z) : Z :=
  match ids with
  | [] => ASHMEM_IS_PINNED
  | id :: ids' =>
      match ranges s !! id with
      | None => ASHMEM_IS_PINNED
      | Some r =>
          if range_before_page r st then ASHMEM_IS_PINNED
          else if page_range_in_range r st en then ASHMEM_IS_UNPINNED
          else pin_status_loop s ids' st en
      end
  end.

Definition ashmem_get_pin_status (s : ashmem) (a : nat) (st en : Z) : Z :=
  pin_status_loop s (area_unpinned s a) st en.

Inductive pin_cmd := ASHMEM_PIN | ASHMEM_UNPIN | ASHMEM_GET_PIN_STATUS.

(** The checks of [ashmem_pin_unpin] on the request, and the page range. *)
Definition pin_range (size offset len0 : Z) : option (Z * Z) :=
  let len := if len0 =? 0 then u32 (PAGE_ALIGN size - offset) else len0 in
  if negb (Z.land (Z.lor offset len) 4095 =? 0) then None
  else if 2 ^ 32 - 1 - offset <? len then None
  else if PAGE_ALIGN size <? u32 (offset + len) then None
  else let st := offset / PAGE_SIZE in Some (st, u32 (st + len / PAGE_SIZE - 1)).

Definition ashmem_pin_unpin (mem : bool) (m : umem) (s : ashmem) (a : nat) (cmd : pin_cmd) (p : Z)
    : option (ashmem * Z) :=
  x ← areas s !! a;
  match a_file x with
  | None => Some (s, - EINVAL)
  | Some _ =>
      let '(bytes, left_) := copy_from_user m p 8 in
      if negb (left_ =? 0) then Some (s, - EFAULT)
      else
        match pin_range (a_size x) (le_Z (take 4 bytes)) (le_Z (drop 4 bytes)) with
        | None => Some (s, - EINVAL)
        | Some (st, en) =>
            match cmd with
            | ASHMEM_PIN => Some (ashmem_pin mem s a st en)
            | ASHMEM_UNPIN => ashmem_unpin mem s a st en
            | ASHMEM_GET_PIN_STATUS => Some (s, ashmem_get_pin_status s a st en)
            end
        end
  end.

(** ** The shrinker *)

(** The loop of [ashmem_shrink] over the LRU entries [ids] still to visit.
    [vmtruncate_range] of the area's file is recorded. *)
Fixpoint shrink_loop (s : ashmem) (ids : list nat) (nr_to_scan : Z) : option ashmem :=
  match ids with
  | [] => Some s
  | id :: ids' =>
      r ← ranges s !! id;
      x ← areas s !! r_asma r;
      f ← a_file x;                                    (* range->asma->file *)
      let s1 := set_truncated s (truncated s ++
                  [(f, u32 (pgstart r * PAGE_SIZE), u32 (u32 ((pgend r + 1) * PAGE_SIZE) - 1))]) in
      let s2 := set_ranges s1 (<[id := Range (r_asma r) (pgstart r) (pgend r) ASHMEM_WAS_PURGED]>
                                 (ranges s1)) (next_range s1) in
      let s3 := lru_del s2 id r in
      let nr := s32 (nr_to_scan - range_size r) in
      if nr <=? 0 then Some s3 else shrink_loop s3 ids' nr
  end.

(** [gfp_fs]: the mask has [__GFP_FS].  A dereference of a null [asma->file]
    is [None]. *)
Definition ashmem_shrink (s : ashmem) (nr_to_scan : Z) (gfp_fs : bool) : option (ashmem * Z) :=
  if negb (nr_to_scan =? 0) && negb gfp_fs then Some (s, -1)
  else if nr_to_scan =? 0 then Some (s, s32 (lru_count s))
  else s' ← shrink_loop s (ashmem_lru_list s) nr_to_scan; Some (s', s32 (lru_count s')).

(** ** Opening, closing, reading *)

Definition empty_name : list Z := ASHMEM_NAME_PREFIX ++ replicate (Z.to_nat ASHMEM_NAME_LEN) 0.

(** [open_ret] is what [generic_file_open] returned. *)
Definition ashmem_open (mem : bool) (s : ashmem) (a : nat) (open_ret : Z) : ashmem * Z :=
  if negb (open_ret =? 0) then (s, open_ret)
  else if negb mem then (s, - ENOMEM)
  else (set_areas s (<[a := Area empty_name [] None 0 0 PROT_MASK]> (areas s)), 0).

Definition fput (s : ashmem) (f : nat) : ashmem :=
  set_fcount s (alter (fun n => n - 1) f (fcount s)).
Definition get_file (s : ashmem) (f : nat) : ashmem :=
  set_fcount s (alter (fun n => n + 1) f (fcount s)).

Definition ashmem_release (s : ashmem) (a : nat) : option (ashmem * Z) :=
  x ← areas s !! a;
  let s1 := foldl range_del s (unpinned_list x) in
  let s2 := match a_file x with Some f => fput s1 f | None => s1 end in
  Some (set_areas s2 (delete a (areas s2)), 0).

(** [file_read] is what the backing file's [read] returns. *)
Definition ashmem_read (s : ashmem) (a : nat) (file_read : nat -> Z) : option Z :=
  x ← areas s !! a;
  if a_size x =? 0 then Some 0
  else match a_file x with None => Some (- EBADF) | Some f => Some (file_read f) end.

Definition ashmem_llseek (s : ashmem) (a : nat) (file_llseek : nat -> Z) : option Z :=
  x ← areas s !! a;
  if a_size x =? 0 then Some (- EINVAL)
  else match a_file x with None => Some (- EBADF) | Some f => Some (file_llseek f) end.

(** ** Mapping *)

Definition _calc_vm_trans (x bit1 bit2 : Z) : Z := Z.land x bit1 * (bit2 / bit1).

(** VM_READ, VM_WRITE and VM_EXEC are 1, 2 and 4; the VM_MAY bits 16, 32, 64. *)
Definition calc_vm_prot_bits (prot : Z) : Z :=
  Z.lor (Z.lor (_calc_vm_trans prot PROT_READ 1) (_calc_vm_trans prot PROT_WRITE 2))
    (_calc_vm_trans prot PROT_EXEC 4).
Definition calc_vm_may_flags (prot : Z) : Z :=
  Z.lor (Z.lor (_calc_vm_trans prot PROT_READ 16) (_calc_vm_trans prot PROT_WRITE 32))
    (_calc_vm_trans prot PROT_EXEC 64).

Record vma := Vma { v_start : Z; v_flags : Z; v_file : option nat }.

(** [setup] is what [shmem_file_setup] returns: an error or a new file with
    one reference. *)
Definition ashmem_mmap (s : ashmem) (a : nat) (v : vma) (setup : Z + nat)
    : option (ashmem * vma * Z) :=
  x ← areas s !! a;
  if a_size x =? 0 then Some (s, v, - EINVAL)
  else if negb (Z.land (Z.ldiff (v_flags v) (calc_vm_prot_bits (prot_mask x)))
                  (calc_vm_prot_bits PROT_MASK) =? 0)
  then Some (s, v, - EPERM)
  else
    let flags1 := Z.ldiff (v_flags v) (calc_vm_may_flags (u32 (Z.lnot (prot_mask x)))) in
    let v1 := Vma (v_start v) flags1 (v_file v) in
    let with_file :=
      match a_file x with
      | Some f => inr (s, f)
      | None => match setup with
                | inl err => inl err
                | inr f => inr (set_fcount s (<[f := 1]> (fcount s)), f)
                end
      end in
    match with_file with
    | inl err => Some (s, v1, err)
    | inr (s1, f) =>
        let s2 := get_file s1 f in
        let s3 := match v_file v with Some old => fput s2 old | None => s2 end in
        let x' := Area (a_name x) (unpinned_list x) (Some f) (a_size x) (v_start v) (prot_mask x) in
        Some (set_areas s3 (<[a := x']> (areas s3)),
              Vma (v_start v) (Z.lor flags1 VM_CAN_NONLINEAR) (Some f), 0)
    end.

(** ** Protection, name, cache *)

Definition set_prot_mask (s : ashmem) (a : nat) (prot : Z) (read_implies_exec : bool)
    : option (ashmem * Z) :=
  x ← areas s !! a;
  if negb (Z.land (prot_mask x) prot =? prot) then Some (s, - EINVAL)
  else
    let prot' := if negb (Z.land prot PROT_READ =? 0) && read_implies_exec
                 then Z.lor prot PROT_EXEC else prot in
    Some (set_areas s (<[a := Area (a_name x) (unpinned_list x) (a_file x) (a_size x)
                                (vm_start x) prot']> (areas s)), 0).

Definition set_name (m : umem) (s : ashmem) (a : nat) (name : Z) : option (ashmem * Z) :=
  x ← areas s !! a;
  match a_file x with
  | Some _ => Some (s, - EINVAL)
  | None =>
      let '(bytes, left_) := copy_from_user m name ASHMEM_NAME_LEN in
      let n1 := splice (a_name x) ASHMEM_NAME_PREFIX_LEN bytes in
      let n2 := splice n1 (ASHMEM_FULL_NAME_LEN - 1) [0] in
      Some (set_areas s (<[a := Area n2 (unpinned_list x) (a_file x) (a_size x) (vm_start x)
                                  (prot_mask x)]> (areas s)),
            if left_ =? 0 then 0 else - EFAULT)
  end.

(** The bytes of a C string with its terminator. *)
Fixpoint cstring (l : list Z) : list Z :=
  match l with
  | [] => []
  | c :: l' => if c =? 0 then [0] else c :: cstring l'
  end.

Definition get_name (m : umem) (s : ashmem) (a : nat) (name : Z) : option (umem * Z) :=
  x ← areas s !! a;
  let text := if negb (bget (a_name x) ASHMEM_NAME_PREFIX_LEN =? 0)
              then cstring (drop (Z.to_nat ASHMEM_NAME_PREFIX_LEN) (a_name x))
              else ASHMEM_NAME_DEF in
  let '(m', left_) := copy_to_user m name text in
  Some (m', if left_ =? 0 then 0 else - EFAULT).

(** The loop over the pages of the mapping: the physical pages whose outer
    cache lines are flushed, and whether it ran to the end.  [walk] is the
    page table walk, 0 for a page that is not mapped. *)
Fixpoint flush_loop (walk : Z -> Z) (n : nat) (addr : Z) : list Z * bool :=
  match n with
  | O => ([], true)
  | S n' =>
      let phys := walk addr in
      if phys =? 0 then ([], false)
      else let '(l, ok) := flush_loop walk n' (addr + PAGE_SIZE) in (phys :: l, ok)
  end.

(** The flushed pages and the value returned; [result] is computed and not
    returned. *)
Definition ashmem_flush_cache_range (s : ashmem) (a : nat) (walk : Z -> Z) : option (list Z * Z) :=
  x ← areas s !! a;
  let size := a_size x in
  let addr := vm_start x in
  if (addr =? 0) || negb (Z.land addr (PAGE_SIZE - 1) =? 0) || (size =? 0) ||
     negb (Z.land size (PAGE_SIZE - 1) =? 0)
  then Some ([], 0)
  else Some ((flush_loop walk (Z.to_nat (size / PAGE_SIZE)) addr).1, 0).

(** ** ioctl *)

Inductive ashmem_cmd :=
  | SetName (p : Z) | GetName (p : Z) | SetSize (n : Z) | GetSize | SetProtMask (prot : Z)
  | GetProtMask | PinUnpin (c : pin_cmd) (p : Z) | PurgeAll | FlushRange | OtherCmd.

(** What the environment contributes to one call. *)
Record ioctl_env := IoctlEnv {
  e_mem : bool; e_umem : umem; e_read_implies_exec : bool; e_sys_admin : bool; e_walk : Z -> Z }.

Definition ashmem_ioctl (env : ioctl_env) (s : ashmem) (a : nat) (cmd : ashmem_cmd)
    : option (ashmem * umem * Z) :=
  x ← areas s !! a;
  let keep r := '(s', ret) ← (r : option (ashmem * Z)); Some (s', e_umem env, ret) in
  match cmd with
  | SetName p => keep (set_name (e_umem env) s a p)
  | GetName p => '(m', ret) ← get_name (e_umem env) s a p; Some (s, m', ret)
  | SetSize n =>
      keep (Some (match a_file x with
                  | Some _ => (s, - EINVAL)
                  | None => (set_areas s (<[a := Area (a_name x) (unpinned_list x) None (u32 n)
                                                   (vm_start x) (prot_mask x)]> (areas s)), 0)
                  end))
  | GetSize => keep (Some (s, s32 (a_size x)))
  | SetProtMask prot => keep (set_prot_mask s a prot (e_read_implies_exec env))
  | GetProtMask => keep (Some (s, s32 (prot_mask x)))
  | PinUnpin c p => keep (ashmem_pin_unpin (e_mem env) (e_umem env) s a c p)
  | PurgeAll =>
      if e_sys_admin env then
        '(s1, ret) ← ashmem_shrink s 0 true;
        '(s2, _) ← ashmem_shrink s1 ret true;
        Some (s2, e_umem env, ret)
      else keep (Some (s, - EPERM))
  | FlushRange => '(_, ret) ← ashmem_flush_cache_range s a (e_walk env); Some (s, e_umem env, ret)
  | OtherCmd => keep (Some (s, - ENOTTY))
  end.

Definition ashmem_init_state : ashmem := Ashmem ∅ ∅ [] 0 0 ∅ [].
