(* ===== verification/AshmemInv.v ===== *)
(** * Ashmem: the range store

    [ash_ok] relates the store of ranges, the per-area lists, the LRU list and
    the page count; the primitives on ranges preserve it.  [vlist] reads an
    area's list as a list of ranges. *)

From stdpp Require Import base numbers list gmap.
From S2P Require Import Prelude Ashmem.

Open Scope Z_scope.

(** Pages of a set of ranges. *)
Definition size_of (s : ashmem) (id : nat) : Z :=
  match ranges s !! id with Some r => range_size r | None => 0 end.

Definition pages_of (s : ashmem) (ids : list nat) : Z := foldr Z.add 0 (size_of s <$> ids).

Arguments pages_of : simpl never.
Arguments size_of : simpl never.
Arguments range_size : simpl never.

Record ash_ok (s : ashmem) : Prop := {
  ao_unpinned a x : areas s !! a = Some x -> NoDup (unpinned_list x) /\
    forall id, id ∈ unpinned_list x -> exists r, ranges s !! id = Some r /\ r_asma r = a;
  ao_listed id r : ranges s !! id = Some r ->
    exists x, areas s !! r_asma r = Some x /\ id ∈ unpinned_list x /\ is_Some (a_file x);
  ao_lru_nodup : NoDup (ashmem_lru_list s);
  ao_lru id : id ∈ ashmem_lru_list s <-> exists r, ranges s !! id = Some r /\ purged r = 0;
  ao_count : lru_count s = u32 (pages_of s (ashmem_lru_list s));
  ao_fresh id r : ranges s !! id = Some r -> (id < next_range s)%nat;
  ao_purged id r : ranges s !! id = Some r -> purged r = 0 \/ purged r = 1 }.

(** An area without its list of ranges. *)
Definition strip (x : area_t) := (a_name x, a_file x, a_size x, vm_start x, prot_mask x).
Definition same_areas (s s' : ashmem) : Prop := forall b, strip <$> areas s' !! b = strip <$> areas s !! b.

#[export] Instance same_areas_trans : Transitive same_areas.
Proof. intros s1 s2 s3 H1 H2 b. by rewrite H2, H1. Qed.
#[export] Instance same_areas_refl : Reflexive same_areas.
Proof. by intros s b. Qed.

Definition vlist (s : ashmem) (ids : list nat) : list range_t := omap (fun id => ranges s !! id) ids.

(** ** Sums *)

Lemma pages_ext s s' ids :
  (forall id, id ∈ ids -> ranges s' !! id = ranges s !! id) -> pages_of s' ids = pages_of s ids.
Proof.
  intros H. unfold pages_of. f_equal. apply list_fmap_ext. intros i id Hi. unfold size_of.
  by rewrite H by (eapply list_elem_of_lookup_2; eassumption).
Qed.

Lemma pages_app s l k : pages_of s (l ++ k) = pages_of s l + pages_of s k.
Proof.
  unfold pages_of. rewrite fmap_app, foldr_app. generalize (foldr Z.add 0 (size_of s <$> k)).
  intros z. induction (size_of s <$> l) as [|x xs IH]; cbn; [lia|]. rewrite IH. lia.
Qed.

Lemma pages_cons s id l : pages_of s (id :: l) = size_of s id + pages_of s l.
Proof. done. Qed.

Lemma pages_del s id l :
  NoDup l -> id ∈ l -> pages_of s l = size_of s id + pages_of s (list_del id l).
Proof.
  induction 1 as [|x l Hx Hnd IH]; intros Hin; [set_solver|].
  apply elem_of_cons in Hin as [->|Hin].
  - by rewrite list_del_head, list_del_notin.
  - rewrite list_del_cons_ne by (by intros ->). rewrite !pages_cons, IH by done. lia.
Qed.

Lemma u32_add_l x y : u32 (u32 x + y) = u32 (x + y).
Proof. unfold u32. apply Zplus_mod_idemp_l. Qed.
Lemma u32_sub_l x y : u32 (u32 x - y) = u32 (x - y).
Proof. unfold u32. apply Zminus_mod_idemp_l. Qed.

Lemma elem_of_insert_before prev id l j : j ∈ insert_before prev id l <-> j = id \/ j ∈ l.
Proof. induction l as [|x l IH]; cbn; [set_solver|]. case_decide; set_solver. Qed.

Lemma nodup_insert_before prev id l : id ∉ l -> NoDup l -> NoDup (insert_before prev id l).
Proof.
  intros Hni. induction 1 as [|x l Hx Hnd IH]; cbn; [apply NoDup_singleton|].
  apply not_elem_of_cons in Hni as [Hne Hni]. case_decide.
  - apply NoDup_cons. split; [set_solver|]. by apply NoDup_cons.
  - apply NoDup_cons. split; [|by apply IH]. rewrite elem_of_insert_before. set_solver.
Qed.

Lemma insert_before_split id new l1 l2 :
  id ∉ l1 -> insert_before (Some id) new (l1 ++ id :: l2) = l1 ++ new :: id :: l2.
Proof.
  induction l1 as [|x l1 IH]; intros H; cbn; [by rewrite decide_True|].
  rewrite decide_False by set_solver. rewrite IH by set_solver. done.
Qed.

Lemma insert_before_none new l : insert_before None new l = l ++ [new].
Proof. induction l as [|x l IH]; cbn; [done|]. rewrite decide_False by done. by rewrite IH. Qed.

(** ** Areas through updates *)

Lemma areas_set_unpinned s a f b :
  areas (set_unpinned s a f) !! b =
  (if decide (b = a) then (fun x => Area (a_name x) (f (unpinned_list x)) (a_file x) (a_size x)
                                      (vm_start x) (prot_mask x)) else id) <$> areas s !! b.
Proof.
  cbn. case_decide.
  - subst. by rewrite lookup_alter_eq.
  - rewrite lookup_alter_ne by done. by destruct (areas s !! b).
Qed.

Lemma same_areas_set_unpinned s a f : same_areas s (set_unpinned s a f).
Proof. intros b. rewrite areas_set_unpinned. case_decide; by destruct (areas s !! b). Qed.

Lemma area_unpinned_set s a f b x :
  areas s !! a = Some x ->
  area_unpinned (set_unpinned s a f) b =
  if decide (b = a) then f (area_unpinned s b) else area_unpinned s b.
Proof.
  intros Ha. unfold area_unpinned. rewrite areas_set_unpinned. case_decide.
  - subst. by rewrite Ha.
  - by destruct (areas s !! b).
Qed.

(** ** The primitives *)

Lemma pages_update s s' id l :
  (forall j, j <> id -> ranges s' !! j = ranges s !! j) ->
  NoDup l -> id ∈ l -> pages_of s' l = pages_of s l - size_of s id + size_of s' id.
Proof.
  intros Hx Hnd Hin. rewrite (pages_del s' id l), (pages_del s id l) by done.
  rewrite (pages_ext s s'); [lia|]. intros j [Hj _]%elem_of_list_del. auto.
Qed.

Lemma area_unpinned_lookup s a x : areas s !! a = Some x -> area_unpinned s a = unpinned_list x.
Proof. unfold area_unpinned. by intros ->. Qed.

Lemma in_area s id r a :
  ash_ok s -> ranges s !! id = Some r -> id ∈ area_unpinned s a -> r_asma r = a.
Proof.
  intros Hok Hr. unfold area_unpinned. destruct (areas s !! a) as [x|] eqn:Ex; [|set_solver].
  intros Hin. destruct (ao_unpinned _ Hok a x Ex) as [_ H].
  destruct (H id Hin) as (r' & Hr' & <-). congruence.
Qed.

(** The fields after [range_del]. *)
Lemma range_del_fields s id r :
  ranges s !! id = Some r ->
  ranges (range_del s id) = delete id (ranges s) /\
  areas (range_del s id) = areas (set_unpinned s (r_asma r) (list_del id)) /\
  truncated (range_del s id) = truncated s /\ next_range (range_del s id) = next_range s.
Proof. intros Hr. unfold range_del. rewrite Hr. by destruct (range_on_lru r). Qed.

Lemma range_del_lru s id r :
  ash_ok s -> ranges s !! id = Some r ->
  ashmem_lru_list (range_del s id) = list_del id (ashmem_lru_list s) /\
  lru_count (range_del s id) = u32 (pages_of s (list_del id (ashmem_lru_list s))).
Proof.
  intros Hok Hr. unfold range_del. rewrite Hr. pose proof (ao_lru _ Hok id) as Hl. unfold range_on_lru.
  destruct (Z.eqb_spec (purged r) ASHMEM_NOT_PURGED) as [E|E]; cbn.
  - split; [done|]. rewrite (ao_count _ Hok), u32_sub_l.
    rewrite (pages_del s id) by (eauto using ao_lru_nodup || (apply Hl; by eauto)).
    unfold size_of at 1. rewrite Hr. f_equal. lia.
  - assert (id ∉ ashmem_lru_list s) by (rewrite Hl; intros (r' & ? & ?); by simplify_eq).
    rewrite list_del_notin by done. split; [done|apply Hok].
Qed.

Lemma range_del_unpinned s id r b :
  ash_ok s -> ranges s !! id = Some r ->
  area_unpinned (range_del s id) b = list_del id (area_unpinned s b).
Proof.
  intros Hok Hr. destruct (ao_listed _ Hok id r Hr) as (x & Hx & Hin & Hf).
  destruct (range_del_fields s id r Hr) as (_ & Ea & _).
  unfold area_unpinned at 1. rewrite Ea.
  change (area_unpinned (set_unpinned s (r_asma r) (list_del id)) b = list_del id (area_unpinned s b)).
  rewrite (area_unpinned_set _ _ _ _ x) by done. case_decide as E; [done|].
  rewrite list_del_notin; [done|]. intros Hb. apply E. symmetry. by eapply in_area.
Qed.

Lemma range_del_ok s id r : ash_ok s -> ranges s !! id = Some r -> ash_ok (range_del s id).
Proof.
  intros Hok Hr. destruct (range_del_fields s id r Hr) as (Er & Ea & _ & En).
  destruct (range_del_lru s id r Hok Hr) as [El Ec].
  split; rewrite ?Er, ?El, ?Ec, ?En.
  - intros a y Ha. pose proof (range_del_unpinned s id r a Hok Hr) as Eu.
    rewrite (area_unpinned_lookup _ _ y Ha) in Eu. rewrite Eu.
    rewrite Ea, areas_set_unpinned in Ha. destruct (areas s !! a) as [x0|] eqn:Ex; [|done].
    rewrite (area_unpinned_lookup _ _ x0 Ex). destruct (ao_unpinned _ Hok a x0 Ex) as [Hnd Hall].
    split; [by apply NoDup_list_del|].
    intros j [Hj Hjin]%elem_of_list_del. rewrite lookup_delete_ne by done. auto.
  - intros j r' [Hj Hr']%lookup_delete_Some.
    destruct (ao_listed _ Hok j r' Hr') as (y & Hy & Hjin & Hfy). rewrite Ea, areas_set_unpinned, Hy.
    cbn. eexists. split; [done|]. case_decide; cbn; [|done].
    rewrite elem_of_list_del. done.
  - apply NoDup_list_del, Hok.
  - intros j. rewrite elem_of_list_del, (ao_lru _ Hok j).
    setoid_rewrite lookup_delete_Some. naive_solver.
  - f_equal. symmetry. apply pages_ext. intros j [Hj _]%elem_of_list_del.
    by rewrite Er, lookup_delete_ne.
  - intros j r' [_ Hr']%lookup_delete_Some. by eapply ao_fresh.
  - intros j r' [_ Hr']%lookup_delete_Some. by eapply ao_purged.
Qed.

Lemma range_del_areas s id : same_areas s (range_del s id).
Proof.
  unfold range_del. destruct (ranges s !! id) as [r|]; [|done].
  intros b. destruct (range_on_lru r); apply same_areas_set_unpinned.
Qed.

(** [range_shrink] changes one range in place. *)
Lemma range_shrink_count s id r st en :
  ash_ok s -> ranges s !! id = Some r ->
  lru_count (range_shrink s id st en) =
  u32 (pages_of (range_shrink s id st en) (ashmem_lru_list s)).
Proof.
  intros Hok Hr. pose proof (ao_lru _ Hok id) as Hl.
  assert (forall j, j <> id -> ranges (range_shrink s id st en) !! j = ranges s !! j) as Hx.
  { intros j Hj. unfold range_shrink. rewrite Hr.
    destruct (range_on_lru r); cbn; by rewrite lookup_insert_ne. }
  unfold range_shrink at 1. rewrite Hr. unfold range_on_lru.
  destruct (Z.eqb_spec (purged r) ASHMEM_NOT_PURGED) as [E|E]; cbn.
  - rewrite (pages_update s _ id) by (done || eauto using ao_lru_nodup || (apply Hl; by eauto)).
    rewrite (ao_count _ Hok), u32_sub_l. unfold size_of, range_shrink. rewrite Hr.
    unfold range_on_lru. rewrite (proj2 (Z.eqb_eq _ _)) by done. cbn. rewrite lookup_insert_eq.
    f_equal. lia.
  - rewrite (ao_count _ Hok). f_equal. symmetry. apply pages_ext. intros j Hj. apply Hx.
    intros ->. apply Hl in Hj as (r' & ? & ?). by simplify_eq.
Qed.

Lemma range_shrink_ok s id r st en :
  ash_ok s -> ranges s !! id = Some r ->
  ash_ok (range_shrink s id st en) /\
  ranges (range_shrink s id st en) = <[id := Range (r_asma r) st en (purged r)]> (ranges s) /\
  areas (range_shrink s id st en) = areas s.
Proof.
  intros Hok Hr. set (r' := Range (r_asma r) st en (purged r)).
  assert (ranges (range_shrink s id st en) = <[id := r']> (ranges s) /\
    areas (range_shrink s id st en) = areas s /\
    ashmem_lru_list (range_shrink s id st en) = ashmem_lru_list s /\
    next_range (range_shrink s id st en) = next_range s) as (Er & Ea & El & En).
  { unfold range_shrink. rewrite Hr. by destruct (range_on_lru r). }
  assert (forall j q, <[id := r']> (ranges s) !! j = Some q -> exists q', ranges s !! j = Some q' /\
    r_asma q' = r_asma q /\ purged q' = purged q) as Hold.
  { intros j q. destruct (decide (j = id)) as [->|Hj].
    - rewrite lookup_insert_eq. intros [= <-]. by exists r.
    - rewrite lookup_insert_ne by done. by exists q. }
  assert (forall j q, ranges s !! j = Some q -> exists q', <[id := r']> (ranges s) !! j = Some q' /\
    r_asma q' = r_asma q /\ purged q' = purged q) as Hnew.
  { intros j q Hq. destruct (decide (j = id)) as [->|Hj].
    - rewrite lookup_insert_eq. exists r'. by simplify_eq.
    - rewrite lookup_insert_ne by done. by exists q. }
  split_and!; [|done|done]. split; rewrite ?Er, ?Ea, ?El, ?En.
  - intros a x Hx. destruct (ao_unpinned _ Hok a x Hx) as [Hnd H]. split; [done|].
    intros j (q & Hq & <-)%H. destruct (Hnew j q Hq) as (q' & ? & ? & _). eauto.
  - intros j q (q' & Hq' & <- & _)%Hold. by eapply ao_listed.
  - apply Hok.
  - intros j. rewrite (ao_lru _ Hok j). split.
    + intros (q & Hq & Hp). destruct (Hnew j q Hq) as (q' & ? & _ & ?). exists q'. split; congruence.
    + intros (q & (q' & Hq' & _ & ?)%Hold & Hp). exists q'. split; congruence.
  - apply (range_shrink_count s id r st en Hok Hr).
  - intros j q (q' & Hq' & _)%Hold. by eapply ao_fresh.
  - intros j q (q' & Hq' & _ & <-)%Hold. by eapply ao_purged.
Qed.

Lemma range_shrink_areas s id st en :
  areas (range_shrink s id st en) = areas s /\ truncated (range_shrink s id st en) = truncated s.
Proof.
  unfold range_shrink. destruct (ranges s !! id) as [r|]; [|done]. by destruct (range_on_lru r).
Qed.

Lemma range_alloc_fields s a prev prg st en :
  let s' := (range_alloc true s a prev prg st en).1 in
  ranges s' = <[next_range s := Range a st en prg]> (ranges s) /\
  areas s' = areas (set_unpinned s a (insert_before prev (next_range s))) /\
  next_range s' = S (next_range s) /\ truncated s' = truncated s /\
  (range_alloc true s a prev prg st en).2 = 0.
Proof. unfold range_alloc. cbn. by destruct (range_on_lru _). Qed.

Lemma fresh_range s : ash_ok s -> ranges s !! next_range s = None.
Proof.
  intros Hok. destruct (ranges s !! next_range s) as [r|] eqn:E; [|done].
  apply (ao_fresh _ Hok) in E. lia.
Qed.

Lemma range_alloc_lru s a prev prg st en :
  ash_ok s ->
  let s' := (range_alloc true s a prev prg st en).1 in
  ashmem_lru_list s' = (if prg =? 0 then ashmem_lru_list s ++ [next_range s] else ashmem_lru_list s) /\
  lru_count s' = u32 (pages_of s' (ashmem_lru_list s')).
Proof.
  intros Hok s'. destruct (range_alloc_fields s a prev prg st en) as (Er & _ & _ & _ & _).
  fold s' in Er. pose proof (fresh_range s Hok) as Hfr.
  assert (next_range s ∉ ashmem_lru_list s) as Hni.
  { rewrite (ao_lru _ Hok). intros (r & Hr & _). congruence. }
  assert (pages_of s' (ashmem_lru_list s) = pages_of s (ashmem_lru_list s)) as Hp.
  { apply pages_ext. intros j Hj. rewrite Er, lookup_insert_ne; [done|]. by intros <-. }
  assert (size_of s' (next_range s) = range_size (Range a st en prg)) as Hs.
  { unfold size_of. by rewrite Er, lookup_insert_eq. }
  unfold s', range_alloc in *. cbn in *. unfold range_on_lru in *. cbn [purged] in *.
  change ASHMEM_NOT_PURGED with 0 in *. destruct (prg =? 0); cbn in *.
  - split; [done|]. unfold list_add_tail. rewrite pages_app, Hp, pages_cons.
    change (pages_of _ []) with 0. rewrite Hs, (ao_count _ Hok), u32_add_l. f_equal. lia.
  - split; [done|]. by rewrite Hp, (ao_count _ Hok).
Qed.

Lemma range_alloc_ok s a x prev prg st en :
  ash_ok s -> areas s !! a = Some x -> is_Some (a_file x) -> prg = 0 \/ prg = 1 ->
  ash_ok (range_alloc true s a prev prg st en).1.
Proof.
  intros Hok Hx Hf Hp. destruct (range_alloc_fields s a prev prg st en) as (Er & Ea & En & _ & _).
  destruct (range_alloc_lru s a prev prg st en Hok) as [El Ec].
  set (s' := (range_alloc true s a prev prg st en).1) in *. set (new := next_range s) in *.
  pose proof (fresh_range s Hok) as Hfr. fold new in Hfr.
  assert (forall j q, ranges s !! j = Some q -> j <> new) as Hne by (by intros j q Hq ->; congruence).
  assert (forall j, (exists r, <[new := Range a st en prg]> (ranges s) !! j = Some r /\ purged r = 0) <->
    (j = new /\ prg = 0) \/ j ∈ ashmem_lru_list s) as Hl.
  { intros j. rewrite (ao_lru _ Hok j). destruct (decide (j = new)) as [->|Hj].
    - rewrite lookup_insert_eq, Hfr. naive_solver.
    - rewrite lookup_insert_ne by done. naive_solver. }
  assert (new ∉ ashmem_lru_list s) as Hnl by (rewrite (ao_lru _ Hok); intros (r & ? & _); congruence).
  split; rewrite ?Er, ?Ea, ?En.
  - intros b y Hb. rewrite areas_set_unpinned in Hb. destruct (areas s !! b) as [z|] eqn:Ez; [|done].
    destruct (ao_unpinned _ Hok b z Ez) as [Hnd Hall]. cbn in Hb.
    assert (new ∉ unpinned_list z) as Hnz by (intros (r & ? & _)%Hall; congruence).
    assert (forall j, j ∈ unpinned_list z ->
      exists r, <[new := Range a st en prg]> (ranges s) !! j = Some r /\ r_asma r = b) as Hall'.
    { intros j Hj. rewrite lookup_insert_ne by (by intros <-). auto. }
    case_decide as E; injection Hb as <-; cbn; [|by split].
    split; [by apply nodup_insert_before|]. intros j [->|Hj]%elem_of_insert_before; [|auto].
    rewrite lookup_insert_eq. by eexists.
  - intros j q [[<- <-]|[Hj Hq]]%lookup_insert_Some.
    + cbn [r_asma]. rewrite areas_set_unpinned, Hx, decide_True by done. cbn. eexists. split; [done|]. cbn.
      rewrite elem_of_insert_before. auto.
    + destruct (ao_listed _ Hok j q Hq) as (y & Hy & Hin & Hfy). rewrite areas_set_unpinned, Hy. cbn.
      eexists. split; [done|]. case_decide; cbn; [|done]. rewrite elem_of_insert_before. auto.
  - rewrite El. pose proof (ao_lru_nodup _ Hok). case_if; [|done]. apply NoDup_app.
    split_and!; [done|set_solver|apply NoDup_singleton].
  - intros j. rewrite Hl, El. case_if; [rewrite elem_of_app, list_elem_of_singleton|]; naive_solver.
  - done.
  - intros j q [[<- _]|[_ Hq]]%lookup_insert_Some; [unfold new; lia|].
    apply (ao_fresh _ Hok) in Hq. lia.
  - intros j q [[_ <-]|[_ Hq]]%lookup_insert_Some; [done|]. by eapply ao_purged.
Qed.

Lemma range_alloc_areas mem s a prev prg st en : same_areas s (range_alloc mem s a prev prg st en).1.
Proof.
  destruct mem; [|done]. destruct (range_alloc_fields s a prev prg st en) as (_ & Ea & _).
  intros b. rewrite Ea. apply same_areas_set_unpinned.
Qed.

Lemma range_alloc_unpinned s a x prev prg st en b :
  areas s !! a = Some x ->
  area_unpinned (range_alloc true s a prev prg st en).1 b =
  if decide (b = a) then insert_before prev (next_range s) (area_unpinned s b)
  else area_unpinned s b.
Proof.
  intros Hx. destruct (range_alloc_fields s a prev prg st en) as (_ & Ea & _).
  unfold area_unpinned at 1. rewrite Ea. by eapply area_unpinned_set.
Qed.
