(* ===== verification/AshmemPin.v ===== *)
(** * Ashmem: pinned and unpinned pages

    The list of an area read as ranges, sorted by descending page, describes
    which pages are unpinned ([covers]) and which of those were purged since
    ([marked]).  The file shows what pinning does to these two sets. *)

From stdpp Require Import base numbers list gmap sorting.
From S2P Require Import Prelude Ashmem AshmemInv.

Open Scope Z_scope.

Implicit Types (l : list range_t) (r : range_t) (s : ashmem).

Definition holds_page (r : range_t) (p : Z) : Prop := pgstart r <= p <= pgend r.
(** A page is in a range of [l] whose flag satisfies [P]. *)
Definition hit (P : Z -> Prop) (l : list range_t) (p : Z) : Prop :=
  exists r, r ∈ l /\ holds_page r p /\ P (purged r).
Definition covers : list range_t -> Z -> Prop := hit (fun _ => True).
Definition marked : list range_t -> Z -> Prop := hit (fun q => q = 1).

(** Sorted by descending page, disjoint, none empty. *)
Definition above (r r' : range_t) : Prop := pgend r' < pgstart r.
Record desc (l : list range_t) : Prop := {
  d_sorted : StronglySorted above l;
  d_nonempty r : r ∈ l -> pgstart r <= pgend r }.

Definition rl (s : ashmem) (a : nat) : list range_t := vlist s (area_unpinned s a).

(** ** Lists *)

Lemma hit_nil P p : ~ hit P [] p.
Proof. intros (r & Hr & _). set_solver. Qed.
Lemma hit_app P l k p : hit P (l ++ k) p <-> hit P l p \/ hit P k p.
Proof. unfold hit. set_solver. Qed.
Lemma hit_cons P r l p : hit P (r :: l) p <-> (holds_page r p /\ P (purged r)) \/ hit P l p.
Proof. unfold hit. set_solver. Qed.

Lemma marked_covers l p : marked l p -> covers l p.
Proof. intros (r & ? & ? & _). by exists r. Qed.

Lemma sorted_app_inv {A} (R : A -> A -> Prop) k1 k2 :
  StronglySorted R (k1 ++ k2) <->
  StronglySorted R k1 /\ StronglySorted R k2 /\ forall x y, x ∈ k1 -> y ∈ k2 -> R x y.
Proof.
  induction k1 as [|x k1 IH]; cbn.
  - split; [intros H; split_and!; [constructor|done|set_solver]|tauto].
  - split.
    + inversion 1 as [|? ? Hs Hf]; subst. apply IH in Hs as (H1 & H2 & H3).
      rewrite Forall_app, !Forall_forall in Hf. destruct Hf as [Hf1 Hf2].
      split_and!; [constructor; [done|by apply Forall_forall]|done|set_solver].
    + intros (H1 & H2 & H3). inversion H1 as [|? ? Hs Hf]; subst. constructor.
      * apply IH. split_and!; [done..|set_solver].
      * rewrite Forall_app, !Forall_forall in *. set_solver.
Qed.

Lemma desc_app l k :
  desc (l ++ k) <-> desc l /\ desc k /\ forall r r', r ∈ l -> r' ∈ k -> above r r'.
Proof.
  split.
  - intros [(H1 & H2 & H3)%sorted_app_inv Hn]. split_and!; [split|split|]; set_solver.
  - intros ([H1 N1] & [H2 N2] & H3). split; [by apply sorted_app_inv|]. set_solver.
Qed.

Lemma desc_cons r l :
  desc (r :: l) <-> pgstart r <= pgend r /\ desc l /\ forall r', r' ∈ l -> above r r'.
Proof.
  change (r :: l) with ([r] ++ l). rewrite desc_app. split.
  - intros ([_ H1] & H2 & H3). split_and!; [set_solver|done|set_solver].
  - intros (H1 & H2 & H3). split_and!; [|done|set_solver].
    split; [repeat constructor|set_solver].
Qed.

Lemma desc_nil : desc [].
Proof. split; [constructor|set_solver]. Qed.

(** ** Reading the store *)

Lemma vlist_ext s s' ids :
  (forall j, j ∈ ids -> ranges s' !! j = ranges s !! j) -> vlist s' ids = vlist s ids.
Proof.
  unfold vlist. intros H. induction ids as [|j ids IH]; cbn; [done|].
  rewrite H by set_solver. rewrite IH by set_solver. done.
Qed.

Lemma vlist_app s ids jds : vlist s (ids ++ jds) = vlist s ids ++ vlist s jds.
Proof. apply omap_app. Qed.

Lemma vlist_cons s id ids r :
  ranges s !! id = Some r -> vlist s (id :: ids) = r :: vlist s ids.
Proof. unfold vlist. cbn. by intros ->. Qed.

Lemma unpinned_nodup s a : ash_ok s -> NoDup (area_unpinned s a).
Proof.
  intros Hok. unfold area_unpinned. destruct (areas s !! a) as [x|] eqn:E; [|constructor].
  by destruct (ao_unpinned _ Hok a x E).
Qed.

Lemma unpinned_range s a id :
  ash_ok s -> id ∈ area_unpinned s a -> exists r, ranges s !! id = Some r /\ r_asma r = a.
Proof.
  intros Hok. unfold area_unpinned. destruct (areas s !! a) as [x|] eqn:E; [|set_solver].
  destruct (ao_unpinned _ Hok a x E) as [_ H]. apply H.
Qed.

Section split.
Context (s : ashmem) (a : nat) (l1 : list nat) (id : nat) (l2 : list nat) (r : range_t).
Context (Hok : ash_ok s) (Hsp : area_unpinned s a = l1 ++ id :: l2) (Hr : ranges s !! id = Some r).

Lemma split_notin : (id ∉ l1) /\ (id ∉ l2).
Proof using Hok Hsp Hr.
  pose proof (unpinned_nodup s a Hok) as H. rewrite Hsp in H.
  apply NoDup_app in H as (_ & H1 & H2%NoDup_cons). split; [|by destruct H2].
  intros Hin. apply (H1 id Hin). set_solver.
Qed.

Lemma split_asma : r_asma r = a.
Proof using Hok Hsp Hr. eapply in_area; [done..|]. rewrite Hsp. set_solver. Qed.

Lemma rl_split : rl s a = vlist s l1 ++ r :: vlist s l2.
Proof using Hok Hsp Hr. unfold rl. by rewrite Hsp, vlist_app, (vlist_cons _ _ _ r). Qed.

Lemma other_notin b : b <> a -> id ∉ area_unpinned s b.
Proof using Hok Hsp Hr.
  intros Hb Hin. apply Hb. rewrite <- split_asma. symmetry. by eapply in_area.
Qed.

Lemma rl_del :
  area_unpinned (range_del s id) a = l1 ++ l2 /\
  (forall ids, id ∉ ids -> vlist (range_del s id) ids = vlist s ids) /\
  forall b, b <> a -> rl (range_del s id) b = rl s b.
Proof using Hok Hsp Hr.
  destruct (range_del_fields s id r Hr) as (Er & _). destruct split_notin as [Hn1 Hn2].
  assert (forall ids, id ∉ ids -> vlist (range_del s id) ids = vlist s ids) as Hv.
  { intros ids Hi. apply vlist_ext. intros j Hj. rewrite Er, lookup_delete_ne; [done|]. by intros ->. }
  split_and!; [|done|].
  - rewrite (range_del_unpinned s id r) by done.
    by rewrite Hsp, list_del_app, list_del_head, !list_del_notin.
  - intros b Hb. unfold rl. rewrite (range_del_unpinned s id r) by done.
    pose proof (other_notin b Hb). rewrite list_del_notin by done. by apply Hv.
Qed.

Lemma rl_shrink st en :
  area_unpinned (range_shrink s id st en) a = l1 ++ id :: l2 /\
  rl (range_shrink s id st en) a =
    vlist s l1 ++ Range (r_asma r) st en (purged r) :: vlist s l2 /\
  (forall ids, id ∉ ids -> vlist (range_shrink s id st en) ids = vlist s ids) /\
  forall b, b <> a -> rl (range_shrink s id st en) b = rl s b.
Proof using Hok Hsp Hr.
  destruct (range_shrink_ok s id r st en Hok Hr) as (_ & Er & Ea). destruct split_notin as [Hn1 Hn2].
  assert (forall b, area_unpinned (range_shrink s id st en) b = area_unpinned s b) as Eu
    by (intros b; unfold area_unpinned; by rewrite Ea).
  assert (forall ids, id ∉ ids -> vlist (range_shrink s id st en) ids = vlist s ids) as Hv.
  { intros ids Hi. apply vlist_ext. intros j Hj. rewrite Er, lookup_insert_ne; [done|]. by intros ->. }
  split_and!; [by rewrite Eu| |done|].
  - unfold rl. rewrite Eu, Hsp, vlist_app.
    rewrite (vlist_cons _ _ _ (Range (r_asma r) st en (purged r))) by (by rewrite Er, lookup_insert_eq).
    by rewrite !Hv.
  - intros b Hb. unfold rl. rewrite Eu. by apply Hv, other_notin.
Qed.
End split.

Lemma area_file s a id r :
  ash_ok s -> ranges s !! id = Some r -> r_asma r = a ->
  exists x, areas s !! a = Some x /\ is_Some (a_file x).
Proof. intros Hok Hr <-. destruct (ao_listed _ Hok id r Hr) as (x & ? & _ & ?). eauto. Qed.

Lemma rl_alloc s a x prev prg st en :
  ash_ok s -> areas s !! a = Some x ->
  let s' := (range_alloc true s a prev prg st en).1 in
  ranges s' !! next_range s = Some (Range a st en prg) /\
  area_unpinned s' a = insert_before prev (next_range s) (area_unpinned s a) /\
  (forall b j, j ∈ area_unpinned s b -> ranges s' !! j = ranges s !! j) /\
  forall b, b <> a -> rl s' b = rl s b.
Proof.
  intros Hok Hx s'. destruct (range_alloc_fields s a prev prg st en) as (Er & _). fold s' in Er.
  assert (forall b j, j ∈ area_unpinned s b -> ranges s' !! j = ranges s !! j) as Hj.
  { intros b j (r & Hr & _)%unpinned_range; [|done]. rewrite Er, lookup_insert_ne; [done|].
    intros <-. by rewrite (fresh_range s Hok) in Hr. }
  split_and!.
  - by rewrite Er, lookup_insert_eq.
  - unfold s'. by rewrite (range_alloc_unpinned s a x), decide_True.
  - done.
  - intros b Hb. unfold rl, s'. rewrite (range_alloc_unpinned s a x), decide_False by done.
    apply vlist_ext, Hj.
Qed.

(** ** Pinning a list of ranges *)

Fixpoint pin_list (mem : bool) (l : list range_t) (st en : Z) : list range_t * Z :=
  match l with
  | [] => ([], 0)
  | r :: l' =>
      if range_before_page r st then (l, 0)
      else if page_range_in_range r st en then
        if page_range_subsumes_range r st en then
          let '(k, q) := pin_list mem l' st en in (k, Z.lor (purged r) q)
        else if st <=? pgstart r then
          let '(k, q) := pin_list mem l' st en in
          (Range (r_asma r) (en + 1) (pgend r) (purged r) :: k, Z.lor (purged r) q)
        else if pgend r <=? en then
          let '(k, q) := pin_list mem l' st en in
          (Range (r_asma r) (pgstart r) (st - 1) (purged r) :: k, Z.lor (purged r) q)
        else
          ((if mem then [Range (r_asma r) (en + 1) (pgend r) (purged r)] else []) ++
           Range (r_asma r) (pgstart r) (st - 1) (purged r) :: l', purged r)
      else let '(k, q) := pin_list mem l' st en in (r :: k, q)
  end.

Definition pin_post (s : ashmem) (a : nat) (l : list range_t) (ret : Z) (s' : ashmem) (ret' : Z) : Prop :=
  ash_ok s' /\ rl s' a = l /\ ret' = ret /\ (forall b, b <> a -> rl s' b = rl s b) /\
  same_areas s s' /\ truncated s' = truncated s.

Lemma pin_post_trans s s1 s2 a l l' q ret1 ret2 :
  pin_post s a l q s1 ret1 -> pin_post s1 a l' ret2 s2 ret2 -> pin_post s a l' ret2 s2 ret2.
Proof.
  intros (_ & _ & _ & H1 & H2 & H3) (K0 & K & _ & K1 & K2 & K3).
  split_and!; try done; [|by etrans|congruence]. intros b Hb. by rewrite K1, H1.
Qed.

Lemma pin_hole mem s a (l1 : list nat) id (l2 : list nat) r st en :
  ash_ok s -> area_unpinned s a = l1 ++ id :: l2 -> ranges s !! id = Some r ->
  let s1 := (range_alloc mem s a (Some id) (purged r) (en + 1) (pgend r)).1 in
  pin_post s a
    (vlist s l1 ++ (if mem then [Range (r_asma r) (en + 1) (pgend r) (purged r)] else []) ++
     Range (r_asma r) (pgstart r) (st - 1) (purged r) :: vlist s l2) 0
    (range_shrink s1 id (pgstart r) (st - 1)) 0.
Proof.
  intros Hok Hsp Hr. pose proof (split_asma s a l1 id l2 r Hok Hsp Hr) as Ha.
  destruct (area_file s a id r Hok Hr Ha) as (x & Hx & Hf).
  destruct (split_notin s a l1 id l2 r Hok Hsp Hr) as [Hn1 Hn2].
  destruct mem; cbn zeta.
  - destruct (rl_alloc s a x (Some id) (purged r) (en + 1) (pgend r) Hok Hx) as (Hnew & Hu & Hold & Ho).
    pose proof (range_alloc_ok s a x (Some id) (purged r) (en + 1) (pgend r) Hok Hx Hf
      (ao_purged _ Hok id r Hr)) as Hok1.
    pose proof (range_alloc_areas true s a (Some id) (purged r) (en + 1) (pgend r)) as Hsa.
    destruct (range_alloc_fields s a (Some id) (purged r) (en + 1) (pgend r)) as (_ & _ & _ & Ht & _).
    set (s1 := (range_alloc true s a (Some id) (purged r) (en + 1) (pgend r)).1) in *.
    rewrite Hsp, insert_before_split in Hu by done.
    assert (ranges s1 !! id = Some r) as Hr1.
    { rewrite (Hold a id); [done|]. rewrite Hsp. set_solver. }
    assert (area_unpinned s1 a = (l1 ++ [next_range s]) ++ id :: l2) as Hu' by (by rewrite <- app_assoc).
    destruct (rl_shrink s1 a _ id l2 r Hok1 Hu' Hr1 (pgstart r) (st - 1)) as (_ & Hrl & _ & Ho').
    destruct (range_shrink_areas s1 id (pgstart r) (st - 1)) as [Ea Et].
    split_and!; [by eapply range_shrink_ok| |done| |intros b; rewrite Ea; apply Hsa|congruence].
    + rewrite Hrl, vlist_app, (vlist_cons _ _ _ _ Hnew), <- app_assoc, <- Ha. cbn.
      rewrite !(vlist_ext s s1); [done|..]; intros j Hj; apply (Hold a); rewrite Hsp; set_solver.
    + intros b Hb. by rewrite Ho', Ho.
  - cbn [range_alloc negb fst].
    destruct (rl_shrink s a l1 id l2 r Hok Hsp Hr (pgstart r) (st - 1)) as (_ & Hrl & _ & Ho').
    destruct (range_shrink_areas s id (pgstart r) (st - 1)) as [Ea Et].
    split_and!; [by eapply range_shrink_ok|done|done|done|intros b; by rewrite Ea|done].
Qed.

Lemma del_post s a (l1 : list nat) id (l2 : list nat) r :
  ash_ok s -> area_unpinned s a = l1 ++ id :: l2 -> ranges s !! id = Some r ->
  pin_post s a (vlist s (l1 ++ l2)) 0 (range_del s id) 0.
Proof.
  intros Hok Hsp Hr. destruct (rl_del s a l1 id l2 r Hok Hsp Hr) as (Hu & Hv & Ho).
  destruct (split_notin s a l1 id l2 r Hok Hsp Hr) as [Hn1 Hn2].
  destruct (range_del_fields s id r Hr) as (_ & _ & Ht & _).
  split_and!; [by eapply range_del_ok| |done|done|apply range_del_areas|done].
  unfold rl. rewrite Hu. apply Hv. set_solver.
Qed.

Lemma shrink_post s a (l1 : list nat) id (l2 : list nat) r st en :
  ash_ok s -> area_unpinned s a = l1 ++ id :: l2 -> ranges s !! id = Some r ->
  pin_post s a (vlist s l1 ++ Range (r_asma r) st en (purged r) :: vlist s l2) 0
    (range_shrink s id st en) 0.
Proof.
  intros Hok Hsp Hr. destruct (rl_shrink s a l1 id l2 r Hok Hsp Hr st en) as (_ & Hrl & _ & Ho).
  destruct (range_shrink_areas s id st en) as [Ea Et].
  split_and!; [by eapply range_shrink_ok|done|done|done|intros b; by rewrite Ea|done].
Qed.

(** Going on with the loop after a primitive changed the range at hand. *)
Lemma pin_continue mem s s1 a (pre ids : list nat) l0 st en ret :
  (let '(s', ret') := pin_loop mem s1 a ids st en ret in
   let '(k, q) := pin_list mem (vlist s1 ids) st en in
   pin_post s1 a (vlist s1 pre ++ k) (Z.lor ret q) s' ret') ->
  pin_post s a l0 0 s1 0 -> vlist s1 ids = vlist s ids ->
  let '(s', ret') := pin_loop mem s1 a ids st en ret in
  let '(k, q) := pin_list mem (vlist s ids) st en in
  pin_post s a (vlist s1 pre ++ k) (Z.lor ret q) s' ret'.
Proof.
  intros H Hp Hv. rewrite Hv in H. destruct (pin_loop mem s1 a ids st en ret) as [s' ret'].
  destruct (pin_list mem (vlist s ids) st en) as [k q].
  assert (ret' = Z.lor ret q) as -> by apply H.
  eapply pin_post_trans; [exact Hp|exact H].
Qed.

Lemma pin_shrink_case mem a st en (ids : list nat) s (pre : list nat) id r ret st' en' :
  (forall s pre ret, ash_ok s -> area_unpinned s a = pre ++ ids ->
     let '(s', ret') := pin_loop mem s a ids st en ret in
     let '(k, q) := pin_list mem (vlist s ids) st en in
     pin_post s a (vlist s pre ++ k) (Z.lor ret q) s' ret') ->
  ash_ok s -> area_unpinned s a = pre ++ id :: ids -> ranges s !! id = Some r ->
  let '(s', ret') := pin_loop mem (range_shrink s id st' en') a ids st en ret in
  let '(k, q) := pin_list mem (vlist s ids) st en in
  pin_post s a (vlist s pre ++ Range (r_asma r) st' en' (purged r) :: k) (Z.lor ret q) s' ret'.
Proof.
  intros IH Hok Hsp Hr. destruct (split_notin s a pre id ids r Hok Hsp Hr) as [Hn1 Hn2].
  destruct (range_shrink_ok s id r st' en' Hok Hr) as (Hok1 & Er & _).
  destruct (rl_shrink s a pre id ids r Hok Hsp Hr st' en') as (Hu & _ & Hv & _).
  assert (area_unpinned (range_shrink s id st' en') a = (pre ++ [id]) ++ ids) as Hu'
    by (by rewrite Hu, <- app_assoc).
  pose proof (pin_continue mem s _ a (pre ++ [id]) ids _ st en ret (IH _ _ ret Hok1 Hu')
    (shrink_post s a pre id ids r st' en' Hok Hsp Hr) (Hv ids Hn2)) as H.
  destruct (pin_loop _ _ _ _ _ _ _) as [s' ret']. destruct (pin_list _ _ _ _) as [k q].
  rewrite vlist_app, (Hv pre Hn1) in H.
  rewrite (vlist_cons _ _ _ (Range (r_asma r) st' en' (purged r))) in H
    by (by rewrite Er, lookup_insert_eq).
  by rewrite <- app_assoc in H.
Qed.

Lemma pin_loop_spec mem a st en (ids : list nat) : forall s (pre : list nat) ret,
  ash_ok s -> area_unpinned s a = pre ++ ids ->
  let '(s', ret') := pin_loop mem s a ids st en ret in
  let '(k, q) := pin_list mem (vlist s ids) st en in
  pin_post s a (vlist s pre ++ k) (Z.lor ret q) s' ret'.
Proof.
  induction ids as [|id ids IH]; intros s pre ret Hok Hsp.
  { cbn. rewrite Z.lor_0_r. split_and!; try done. unfold rl. by rewrite Hsp, app_nil_r, app_nil_r. }
  assert (id ∈ area_unpinned s a) as Hin by (rewrite Hsp; set_solver).
  destruct (unpinned_range s a id Hok Hin) as (r & Hr & Ha).
  destruct (split_notin s a pre id ids r Hok Hsp Hr) as [Hn1 Hn2].
  rewrite (vlist_cons s id ids r Hr). cbn [pin_loop pin_list]. rewrite Hr.
  assert (area_unpinned s a = (pre ++ [id]) ++ ids) as Hsp' by (by rewrite <- app_assoc).
  destruct (range_before_page r st).
  { rewrite Z.lor_0_r. split_and!; try done. unfold rl. by rewrite Hsp, vlist_app, (vlist_cons _ _ _ r). }
  destruct (page_range_in_range r st en).
  2: { specialize (IH s (pre ++ [id]) ret Hok Hsp'). destruct (pin_loop mem s a ids st en ret).
       destruct (pin_list mem (vlist s ids) st en).
       rewrite vlist_app, (vlist_cons s id [] r Hr), <- app_assoc in IH. exact IH. }
  destruct (page_range_subsumes_range r st en); [|destruct (st <=? pgstart r); [|destruct (pgend r <=? en)]].
  - destruct (rl_del s a pre id ids r Hok Hsp Hr) as (Hu & Hv & _).
    pose proof (pin_continue mem s _ a pre ids _ st en (Z.lor ret (purged r))
      (IH _ pre _ (range_del_ok s id r Hok Hr) Hu) (del_post s a pre id ids r Hok Hsp Hr) (Hv ids Hn2)) as H.
    destruct (pin_loop _ _ _ _ _ _ _). destruct (pin_list _ _ _ _).
    by rewrite (Hv pre Hn1), <- Z.lor_assoc in H.
  - pose proof (pin_shrink_case mem a st en ids s pre id r (Z.lor ret (purged r)) (en + 1) (pgend r)
      IH Hok Hsp Hr) as H.
    destruct (pin_loop _ _ _ _ _ _ _). destruct (pin_list _ _ _ _). by rewrite <- Z.lor_assoc in H.
  - pose proof (pin_shrink_case mem a st en ids s pre id r (Z.lor ret (purged r)) (pgstart r) (st - 1)
      IH Hok Hsp Hr) as H.
    destruct (pin_loop _ _ _ _ _ _ _). destruct (pin_list _ _ _ _). by rewrite <- Z.lor_assoc in H.
  - pose proof (pin_hole mem s a pre id ids r st en Hok Hsp Hr) as H. cbn zeta in H.
    destruct (range_alloc mem s a (Some id) (purged r) (en + 1) (pgend r)) as [s1 r1]. cbn [fst] in H.
    destruct H as (? & ? & _ & ? & ? & ?). by split_and!.
Qed.

(** What pinning does to the pages. *)

Lemma overlap r st en :
  st <= en -> pgstart r <= pgend r -> range_before_page r st = false ->
  page_range_in_range r st en = true <-> pgstart r <= en.
Proof.
  unfold page_range_in_range, page_in_range, page_range_subsumes_range, range_before_page.
  intros. unbool. lia.
Qed.

Lemma hit_below P l p st :
  (forall r, r ∈ l -> pgend r < st) -> hit P l p -> p < st.
Proof. intros H (r & Hr & Hp & _). specialize (H r Hr). unfold holds_page in Hp. lia. Qed.

(** The tests of the code as order facts. *)
Ltac pages :=
  unfold page_range_in_range, page_in_range, page_range_subsumes_range,
    page_range_subsumed_by_range, range_before_page, above, holds_page in *; cbn in *; unbool.

(** Case analysis on one step of [pin_list], with [k] and [q] the result of the
    recursive call. *)
Ltac pin_step l k q :=
  cbn [pin_list]; destruct (pin_list _ l _ _) as [k q]; cbn [fst snd] in *;
  destruct (range_before_page _ _) eqn:?; [|
  destruct (page_range_in_range _ _ _) eqn:?;
  [destruct (page_range_subsumes_range _ _ _) eqn:?;
   [|destruct (_ <=? pgstart _) eqn:?; [|destruct (pgend _ <=? _) eqn:?]]|]];
  cbn [fst snd] in *.

Lemma pin_list_within mem l st en r' :
  r' ∈ (pin_list mem l st en).1 -> exists r, r ∈ l /\ (pgend r' <= pgend r).
Proof.
  induction l as [|r l IH]; [set_solver|]. pin_step l k q; [set_solver|..]; [| | |clear IH|].
  1: intros (r0 & ? & ?)%IH; set_solver.
  3: intros [Hin|[->|]%elem_of_cons]%elem_of_app; [destruct mem; [|set_solver]|..].
  3: apply list_elem_of_singleton in Hin as ->.
  3-4: exists r; pages; split; [set_solver|lia].
  3: exists r'; split; [set_solver|lia].
  all: intros [->|(r0 & ? & ?)%IH]%elem_of_cons; [exists r; pages; split; [set_solver|lia]|set_solver].
Qed.

Lemma pin_list_desc mem l st en : st <= en -> desc l -> desc (pin_list mem l st en).1.
Proof.
  intros Hse. induction l as [|r l IH]; [done|]. rewrite desc_cons. intros (Hr & Hd & Hab).
  pose proof (pin_list_within mem l st en) as W. specialize (IH Hd).
  assert (forall r0, pgstart r <= pgstart r0 ->
    forall r', r' ∈ (pin_list mem l st en).1 -> above r0 r') as Hk.
  { intros r0 H0 r' (r1 & H1 & ?)%W. specialize (Hab r1 H1). unfold above in *. lia. }
  pin_step l k q; [by rewrite desc_cons|done|..]; rewrite ?desc_cons.
  - split_and!; [pages; lia|done|apply Hk; pages; lia].
  - split_and!; [pages; lia|done|apply Hk; pages; lia].
  - assert (forall r', r' ∈ l -> above (Range (r_asma r) (pgstart r) (st - 1) (purged r)) r') by done.
    destruct mem; cbn [app]; rewrite !desc_cons; pages; split_and!; try done; try lia.
    intros r' [->|Hin]%elem_of_cons; cbn; [lia|]. specialize (Hab r' Hin). lia.
  - split_and!; [lia|done|apply Hk; lia].
Qed.

(** Exactly the pages of the request are pinned; without memory for the
    upper half of a hole that half is pinned too. *)
Lemma pin_list_hit mem l st en P p :
  st <= en -> desc l ->
  (hit P (pin_list mem l st en).1 p -> hit P l p /\ ~ (st <= p <= en)) /\
  (mem = true -> hit P l p -> ~ (st <= p <= en) -> hit P (pin_list mem l st en).1 p).
Proof.
  intros Hse. induction l as [|r l IH]; [|rewrite desc_cons; intros (Hr & Hd & Hab)].
  { intros _. cbn. split; [intros H|intros _ H]; by apply hit_nil in H. }
  specialize (IH Hd).
  assert (hit P l p -> p < pgstart r) as Hl by (apply hit_below; exact Hab).
  pin_step l k q; rewrite ?hit_app, ?hit_cons in *.
  5: clear IH; destruct mem; rewrite ?hit_cons; assert (~ hit P [] p) by apply hit_nil.
  all: pages; try destruct IH as [IH1 IH2].
  all: destruct (Z.lt_ge_cases p st), (Z.lt_ge_cases en p); intuition (congruence || lia).
Qed.

Lemma lor_flag x y : x = 0 \/ x = 1 -> y = 0 \/ y = 1 -> (Z.lor x y = 0 \/ Z.lor x y = 1) /\
  (Z.lor x y = 1 <-> x = 1 \/ y = 1).
Proof. intros [-> | ->] [-> | ->]; cbn; intuition lia. Qed.

(** The result tells whether a page of the request was purged. *)
Lemma pin_list_ret mem l st en :
  st <= en -> desc l -> (forall r, r ∈ l -> purged r = 0 \/ purged r = 1) ->
  let q := (pin_list mem l st en).2 in
  (q = 0 \/ q = 1) /\ (q = 1 <-> exists p, st <= p <= en /\ marked l p).
Proof.
  intros Hse. cbn zeta. induction l as [|r l IH]; [|rewrite desc_cons; intros (Hr & Hd & Hab) Hf].
  { intros _ _. cbn. split; [by left|]. split; [done|]. by intros (p & _ & ?%hit_nil). }
  specialize (IH Hd ltac:(set_solver)). assert (purged r = 0 \/ purged r = 1) as Hp by set_solver.
  assert ((exists p, st <= p <= en /\ marked (r :: l) p) <->
    purged r = 1 /\ (exists p, st <= p <= en /\ holds_page r p) \/
    (exists p, st <= p <= en /\ marked l p)) as ->.
  { setoid_rewrite hit_cons. naive_solver. }
  assert ((exists p, st <= p <= en /\ holds_page r p) <-> pgstart r <= en /\ st <= pgend r) as ->.
  { unfold holds_page. split; [intros (p & ? & ?); lia|]. intros. exists (Z.max st (pgstart r)). lia. }
  assert ((exists p, st <= p <= en /\ marked l p) -> st < pgstart r) as Hl.
  { intros (p & ? & Hm). assert (p < pgstart r) by (revert Hm; apply hit_below; exact Hab). lia. }
  destruct IH as [IH1 IH2]. destruct (lor_flag (purged r) (pin_list mem l st en).2 Hp IH1) as [L1 L2].
  pin_step l k q.
  all: pages; try split; intuition (try (congruence || lia)).
Qed.
