(* ===== verification/AshmemUnpin.v ===== *)
(** * Ashmem: unpinning, the pin status and the shrinker

    [ashmem_unpin] merges the request with every range it meets and restarts;
    the file shows that this terminates and what it does to the unpinned and
    the purged pages, that the pin status is exact, and what the shrinker
    does. *)

From stdpp Require Import base numbers list gmap sorting.
From S2P Require Import Prelude Ashmem AshmemInv AshmemPin.

Open Scope Z_scope.

Implicit Types (l : list range_t) (r : range_t) (s : ashmem).

(** ** The scan *)

Definition scan_post s (ids : list nat) (st en : Z) (out : unpin_stop) : Prop :=
  match out with
  | UnpinDone => exists r, r ∈ vlist s ids /\ pgstart r <= st /\ en <= pgend r
  | UnpinRestart id r =>
      id ∈ ids /\ ranges s !! id = Some r /\ pgstart r <= en /\ st <= pgend r
  | UnpinInsert prev =>
      exists (l1 l2 : list nat), ids = l1 ++ l2 /\ prev = head l2 /\
        (forall r, r ∈ vlist s l1 -> en < pgstart r) /\
        (forall r, r ∈ vlist s l2 -> pgend r < st)
  end.

Lemma unpin_scan_spec s st en (ids : list nat) :
  st <= en -> desc (vlist s ids) -> (forall id, id ∈ ids -> is_Some (ranges s !! id)) ->
  scan_post s ids st en (unpin_scan s ids st en).
Proof.
  intros Hse. induction ids as [|id ids IH]; intros Hd Hs.
  { exists [], []. cbn. set_solver. }
  destruct (Hs id) as [r Hr]; [set_solver|]. rewrite (vlist_cons _ _ _ _ Hr) in Hd.
  apply desc_cons in Hd as (Hn & Hd & Hab). specialize (IH Hd ltac:(set_solver)).
  cbn [unpin_scan]. rewrite Hr.
  destruct (range_before_page r st) eqn:E1.
  { exists [], (id :: ids). split_and!; [done|done|set_solver|]. rewrite (vlist_cons _ _ _ _ Hr).
    pages. intros r' [->|Hin]%elem_of_cons; [done|]. specialize (Hab r' Hin). lia. }
  destruct (page_range_subsumed_by_range r st en) eqn:E2.
  { cbn [scan_post]. rewrite (vlist_cons _ _ _ _ Hr). exists r. pages. set_solver. }
  destruct (page_range_in_range r st en) eqn:E3.
  { cbn. pages. split_and!; [set_solver|done|lia|lia]. }
  destruct (unpin_scan s ids st en) as [|id' r'|prev]; cbn [scan_post] in *.
  - rewrite (vlist_cons _ _ _ _ Hr). set_solver.
  - set_solver.
  - destruct IH as (l1 & l2 & -> & -> & H1 & H2). exists (id :: l1), l2. split_and!; [done|done| |done].
    rewrite (vlist_cons _ _ _ _ Hr). pages.
    intros r' [->|Hin]%elem_of_cons; [|by apply H1]. lia.
Qed.

(** ** The restarts *)

(** What [ashmem_unpin] does, from any point of its restarts: the pages from
    [st] to [en] become unpinned, marked purged if [prg] says so. *)
Record unpin_post (mem : bool) s a (st en prg : Z) s' (ret : Z) : Prop := {
  up_ok : ash_ok s';
  up_desc : desc (rl s' a);
  up_others b : b <> a -> rl s' b = rl s b;
  up_areas : same_areas s s';
  up_truncated : truncated s' = truncated s;
  up_within p : covers (rl s' a) p -> covers (rl s a) p \/ st <= p <= en;
  up_ret : mem = true -> ret = 0;
  up_covers p : mem = true -> covers (rl s a) p \/ st <= p <= en -> covers (rl s' a) p;
  up_marked p : mem = true -> marked (rl s a) p -> marked (rl s' a) p;
  up_prg p : mem = true -> prg = 1 -> (exists q, st <= q <= en /\ ~ covers (rl s a) q) ->
    st <= p <= en -> marked (rl s' a) p;
  up_clean p : prg = 0 -> (forall q, st <= q <= en -> ~ marked (rl s a) q) ->
    marked (rl s' a) p -> marked (rl s a) p }.

Section unpin.
Context (s : ashmem) (a : nat) (x : area_t) (st en prg : Z).
Context (Hok : ash_ok s) (Hx : areas s !! a = Some x) (Hf : is_Some (a_file x)).
Context (Hd : desc (rl s a)) (Hse : st <= en) (Hp : prg = 0 \/ prg = 1).

(** The range that is inserted. *)
Lemma rl_insert (l1 l2 : list nat) :
  area_unpinned s a = l1 ++ l2 ->
  rl (range_alloc true s a (head l2) prg st en).1 a = vlist s l1 ++ Range a st en prg :: vlist s l2.
Proof using Hok Hx Hf Hd Hse Hp.
  intros Hsp. destruct (rl_alloc s a x (head l2) prg st en Hok Hx) as (Hn & Hu & Hold & _).
  set (s' := (range_alloc true s a (head l2) prg st en).1) in *.
  assert (area_unpinned s' a = l1 ++ next_range s :: l2) as Hu'.
  { rewrite Hu, Hsp. destruct l2 as [|id l2]; cbn [head]; [by rewrite app_nil_r, insert_before_none|].
    apply insert_before_split. pose proof (unpinned_nodup s a Hok) as Hnd. rewrite Hsp in Hnd.
    apply NoDup_app in Hnd as (_ & H & _). intros Hin. apply (H id Hin). set_solver. }
  unfold rl. rewrite Hu', vlist_app, (vlist_cons _ _ _ _ Hn).
  rewrite !(vlist_ext s s'); [done|..]; intros j Hj; apply (Hold a); rewrite Hsp; set_solver.
Qed.

Lemma unpin_insert_post mem prev :
  scan_post s (area_unpinned s a) st en (UnpinInsert prev) ->
  let '(s', ret) := range_alloc mem s a prev prg st en in unpin_post mem s a st en prg s' ret.
Proof using Hok Hx Hf Hd Hse Hp.
  intros (l1 & l2 & Hsp & -> & H1 & H2). destruct mem; [|split; try done; intros p ?; by left].
  pose proof (rl_insert l1 l2 Hsp) as Hrl.
  pose proof (range_alloc_ok s a x (head l2) prg st en Hok Hx Hf Hp) as Hok'.
  destruct (rl_alloc s a x (head l2) prg st en Hok Hx) as (_ & _ & _ & Ho).
  pose proof (range_alloc_areas true s a (head l2) prg st en) as Ha.
  destruct (range_alloc_fields s a (head l2) prg st en) as (_ & _ & _ & Ht & Hret).
  destruct (range_alloc true s a (head l2) prg st en) as [s' ret]. cbn [fst snd] in *.
  assert (rl s a = vlist s l1 ++ vlist s l2) as Hrl0 by (unfold rl; by rewrite Hsp, vlist_app).
  rewrite Hrl0 in Hd. apply desc_app in Hd as (D1 & D2 & D12).
  assert (forall P p, hit P (rl s' a) p <-> hit P (rl s a) p \/ (st <= p <= en /\ P prg)) as Hh.
  { intros P p. rewrite Hrl, Hrl0, !hit_app, hit_cons. unfold holds_page. cbn. tauto. }
  split; try done; unfold covers, marked.
  - rewrite Hrl. apply desc_app. rewrite desc_cons. split_and!; [done|cbn; lia|done|exact H2|].
    intros r r' Hr [->|Hr']%elem_of_cons; [exact (H1 r Hr)|by apply D12].
  - intros p. rewrite Hh. tauto.
  - intros p _. rewrite Hh. tauto.
  - intros p _. rewrite Hh. tauto.
  - intros p _ -> _ Hin. rewrite Hh. tauto.
  - intros p -> _. rewrite Hh. by intros [?|[_ ?]].
Qed.

Lemma unpin_done_post mem :
  scan_post s (area_unpinned s a) st en UnpinDone -> unpin_post mem s a st en prg s 0.
Proof using Hok Hx Hf Hd Hse Hp.
  intros (r & Hr & H1 & H2).
  assert (forall p, st <= p <= en -> covers (rl s a) p) as Hc.
  { intros p Hin. exists r. unfold holds_page. split_and!; [done|lia|lia|done]. }
  split; try done; [by left|intros p _ [?|?]; [done|by apply Hc]|].
  intros p _ _ (q & Hq & []). by apply Hc.
Qed.

Lemma unpin_restart_post mem id r s' ret :
  scan_post s (area_unpinned s a) st en (UnpinRestart id r) ->
  unpin_post mem (range_del s id) a (Z.min (pgstart r) st) (Z.max (pgend r) en) (Z.lor prg (purged r)) s' ret ->
  unpin_post mem s a st en prg s' ret.
Proof using Hok Hx Hf Hd Hse Hp.
  intros (Hin & Hr & H1 & H2) [K1 K2 K3 K4 K5 K6 K7 K8 K9 K10 K11].
  apply list_elem_of_split in Hin as (l1 & l2 & Hsp).
  destruct (del_post s a l1 id l2 r Hok Hsp Hr) as (_ & Hrl & _ & Ho & Ha & Ht).
  pose proof (rl_split s a l1 id l2 r Hok Hsp Hr) as Hrl0. rewrite vlist_app in Hrl.
  assert (forall P p, hit P (rl s a) p <-> hit P (rl (range_del s id) a) p \/ (holds_page r p /\ P (purged r)))
    as Hh by (intros P p; rewrite Hrl, Hrl0, !hit_app, hit_cons; tauto).
  rewrite Hrl0 in Hd. apply desc_app in Hd as (D1 & (Dn & D2 & Hbelow)%desc_cons & Habove).
  assert (forall P p, hit P (rl (range_del s id) a) p -> ~ holds_page r p) as Hdis.
  { intros P p. rewrite Hrl, hit_app. unfold holds_page. intros [(q & Hq & Hh' & _)|Hq].
    - specialize (Habove q r Hq ltac:(set_solver)). unfold above, holds_page in *. lia.
    - assert (p < pgstart r) by (revert Hq; by apply hit_below). lia. }
  pose proof (ao_purged _ Hok id r Hr) as Hpr. destruct (lor_flag prg (purged r) Hp Hpr) as [L1 L2].
  assert (exists q, Z.min (pgstart r) st <= q <= Z.max (pgend r) en /\
    ~ covers (rl (range_del s id) a) q) as Hfree.
  { exists (pgstart r). split; [lia|]. intros Hc. apply (Hdis _ _ Hc). unfold holds_page. lia. }
  split; try done; unfold covers, marked, holds_page in *.
  - intros b Hb. by rewrite K3, Ho.
  - by etrans.
  - congruence.
  - intros p Hc. rewrite Hh. destruct (K6 p Hc); [tauto|lia].
  - intros p Hm. rewrite Hh. intros Hc. apply K8; [done|]. intuition lia.
  - intros p Hm. rewrite Hh. intros [Hc|[Hr' Hq]]; [by apply K9|]. apply K10; [done|tauto|done|lia].
  - intros p Hm -> _ Hin'. apply K10; [done|tauto|done|lia].
  - intros p Hz Hno Hc. rewrite Hh. left. apply K11; [| |done].
    + destruct L1 as [|[?|Hq]%L2]; [done|lia|]. destruct (Hno (Z.max st (pgstart r))); [lia|].
      rewrite Hh. right. lia.
    + intros q Hq Hm. apply (Hdis _ _) in Hm as Hm'. apply (Hno q); [lia|]. rewrite Hh. by left.
Qed.

End unpin.

Lemma unpinned_present s a : ash_ok s -> forall id, id ∈ area_unpinned s a -> is_Some (ranges s !! id).
Proof. intros Hok id Hin. destruct (unpinned_range s a id Hok Hin) as (r & -> & _). done. Qed.

Lemma unpin_loop_spec mem a fuel : forall s x st en prg,
  ash_ok s -> areas s !! a = Some x -> is_Some (a_file x) -> desc (rl s a) -> st <= en ->
  prg = 0 \/ prg = 1 -> (length (area_unpinned s a) <= fuel)%nat ->
  exists s' ret, unpin_loop fuel mem s a st en prg = Some (s', ret) /\ unpin_post mem s a st en prg s' ret.
Proof.
  induction fuel as [|fuel IH]; intros s x st en prg Hok Hx Hf Hd Hse Hp Hlen;
    pose proof (unpin_scan_spec s st en (area_unpinned s a) Hse Hd (unpinned_present s a Hok)) as Hsc;
    cbn [unpin_loop]; destruct (unpin_scan s (area_unpinned s a) st en) as [|id r|prev].
  - eexists _, _. split; [done|]. by eapply unpin_done_post.
  - exfalso. destruct Hsc as [Hin _]. destruct (area_unpinned s a); [set_solver|cbn in Hlen; lia].
  - pose proof (unpin_insert_post s a x st en prg Hok Hx Hf Hd Hse Hp mem prev Hsc) as H.
    destruct (range_alloc mem s a prev prg st en) as [s' ret]. eauto.
  - eexists _, _. split; [done|]. by eapply unpin_done_post.
  - pose proof Hsc as (Hin & Hr & H1 & H2). apply list_elem_of_split in Hin as (l1 & l2 & Hsp).
    destruct (rl_del s a l1 id l2 r Hok Hsp Hr) as (Hu & _).
    destruct (del_post s a l1 id l2 r Hok Hsp Hr) as (Hok1 & Hrl & _ & _ & Ha & _).
    pose proof (rl_split s a l1 id l2 r Hok Hsp Hr) as Hrl0. rewrite vlist_app in Hrl.
    pose proof Hd as Hd'. rewrite Hrl0 in Hd'.
    apply desc_app in Hd' as (D1 & (Dn & D2 & Hbelow)%desc_cons & Habove).
    specialize (Ha a). rewrite Hx in Ha. destruct (areas (range_del s id) !! a) as [x'|] eqn:Ex'; [|done].
    injection Ha as _ Hf' _ _ _.
    destruct (lor_flag prg (purged r) Hp (ao_purged _ Hok id r Hr)) as [L1 _].
    destruct (IH (range_del s id) x' (Z.min (pgstart r) st) (Z.max (pgend r) en) (Z.lor prg (purged r)))
      as (s' & ret & E & Hpost); try done; [by rewrite Hf'| |lia| |].
    + rewrite Hrl. apply desc_app. split_and!; [done..|]. intros q q' Hq Hq'. apply Habove; set_solver.
    + rewrite Hu. rewrite Hsp in Hlen. rewrite length_app in *. cbn in Hlen. lia.
    + exists s', ret. split; [done|]. by eapply unpin_restart_post.
  - pose proof (unpin_insert_post s a x st en prg Hok Hx Hf Hd Hse Hp mem prev Hsc) as H.
    destruct (range_alloc mem s a prev prg st en) as [s' ret]. eauto.
Qed.

(** ** The pin status *)

Lemma pin_status_spec s st en (ids : list nat) :
  st <= en -> desc (vlist s ids) -> (forall id, id ∈ ids -> is_Some (ranges s !! id)) ->
  pin_status_loop s ids st en = ASHMEM_IS_UNPINNED /\ (exists p, st <= p <= en /\ covers (vlist s ids) p) \/
  pin_status_loop s ids st en = ASHMEM_IS_PINNED /\ (forall p, st <= p <= en -> ~ covers (vlist s ids) p).
Proof.
  intros Hse. induction ids as [|id ids IH]; intros Hd Hs.
  { right. split; [done|]. intros p _. apply hit_nil. }
  destruct (Hs id) as [r Hr]; [set_solver|]. rewrite (vlist_cons _ _ _ _ Hr) in *.
  apply desc_cons in Hd as (Hn & Hd & Hab). specialize (IH Hd ltac:(set_solver)).
  assert (forall p, covers (vlist s ids) p -> p < pgstart r) as Hl by (intros p; apply hit_below, Hab).
  cbn [pin_status_loop]. rewrite Hr. setoid_rewrite hit_cons.
  destruct (range_before_page r st) eqn:E1; [|destruct (page_range_in_range r st en) eqn:E3].
  - right. split; [done|]. intros p Hp [[H _]|H%Hl]; pages; lia.
  - left. split; [done|]. exists (Z.max st (pgstart r)). pages. split; [|left; split; [|done]]; lia.
  - destruct IH as [[-> (p & ? & ?)]|[-> IH]]; [left|right]; (split; [done|]).
    + exists p. tauto.
    + intros p Hp [[H _]|H]; [pages; lia|]. by apply (IH p).
Qed.

(** ** The shrinker *)

(** The range [id] of [s] after its pages were purged. *)
Definition purge s (id : nat) (r : range_t) (f : nat) : ashmem :=
  lru_del (set_ranges (set_truncated s (truncated s ++
      [(f, u32 (pgstart r * PAGE_SIZE), u32 (u32 ((pgend r + 1) * PAGE_SIZE) - 1))]))
    (<[id := Range (r_asma r) (pgstart r) (pgend r) ASHMEM_WAS_PURGED]> (ranges s)) (next_range s)) id r.

Lemma purge_ok s id r f :
  ash_ok s -> ranges s !! id = Some r -> purged r = 0 -> ash_ok (purge s id r f).
Proof.
  intros Hok Hr Hp. set (s' := purge s id r f).
  set (r' := Range (r_asma r) (pgstart r) (pgend r) ASHMEM_WAS_PURGED).
  assert (ranges s' = <[id := r']> (ranges s)) as Er by done.
  assert (id ∈ ashmem_lru_list s) as Hin by (apply (ao_lru _ Hok); eauto).
  assert (forall j q, ranges s' !! j = Some q ->
    exists q0, ranges s !! j = Some q0 /\ r_asma q = r_asma q0 /\ (purged q = purged q0 \/ purged q = 1)) as Hq.
  { intros j q. rewrite Er. intros [[<- <-]|[_ H]]%lookup_insert_Some; eauto. }
  split.
  - intros a x Ha. destruct (ao_unpinned _ Hok a x Ha) as [Hn H]. split; [done|].
    intros j (q & Hj & <-)%H. rewrite Er. destruct (decide (j = id)) as [->|Hne].
    + rewrite lookup_insert_eq. exists r'. split; [done|]. cbn. congruence.
    + rewrite lookup_insert_ne by done. eauto.
  - intros j q (q0 & H0 & -> & _)%Hq. apply (ao_listed _ Hok j q0 H0).
  - apply NoDup_list_del, (ao_lru_nodup _ Hok).
  - intros j. change (ashmem_lru_list s') with (list_del id (ashmem_lru_list s)).
    rewrite elem_of_list_del, (ao_lru _ Hok), Er. destruct (decide (j = id)) as [->|Hne].
    + rewrite lookup_insert_eq. split; [by intros [[]]|]. intros (q & [= <-] & ?). done.
    + rewrite lookup_insert_ne by done. tauto.
  - change (lru_count s') with (u32 (lru_count s - range_size r)).
    change (ashmem_lru_list s') with (list_del id (ashmem_lru_list s)).
    rewrite (ao_count _ Hok), (pages_ext s s'), (pages_del s id (ashmem_lru_list s)).
    + unfold size_of. rewrite Hr. unfold u32. rewrite Zminus_mod_idemp_l. f_equal. lia.
    + apply (ao_lru_nodup _ Hok).
    + done.
    + intros j [Hj _]%elem_of_list_del. by rewrite Er, lookup_insert_ne.
  - intros j q (q0 & H0 & _)%Hq. apply (ao_fresh _ Hok j q0 H0).
  - intros j q (q0 & H0 & _ & H)%Hq. pose proof (ao_purged _ Hok j q0 H0). lia.
Qed.

Definition purge_range (r : range_t) : range_t := Range (r_asma r) (pgstart r) (pgend r) ASHMEM_WAS_PURGED.

(** The [vmtruncate_range] call for a range. *)
Definition trunc_call s (id : nat) : list (nat * Z * Z) :=
  match ranges s !! id with
  | Some r =>
      match areas s !! r_asma r with
      | Some x =>
          match a_file x with
          | Some f => [(f, u32 (pgstart r * PAGE_SIZE), u32 (u32 ((pgend r + 1) * PAGE_SIZE) - 1))]
          | None => []
          end
      | None => []
      end
  | None => []
  end.

(** [s'] is [s] after the ranges [V], the oldest ones, were purged. *)
Record shrink_post s s' (V : list nat) : Prop := {
  sp_ok : ash_ok s';
  sp_areas : areas s' = areas s;
  sp_lru : ashmem_lru_list s = V ++ ashmem_lru_list s';
  sp_ranges j : ranges s' !! j = (if decide (j ∈ V) then purge_range else id) <$> ranges s !! j;
  sp_truncated : truncated s' = truncated s ++ concat (trunc_call s <$> V) }.

(** How far the shrinker goes. *)
Definition enough s (V rest : list nat) (nr : Z) : Prop :=
  (rest = [] \/ nr <= pages_of s V) /\ forall V1 v V2, V = V1 ++ v :: V2 -> pages_of s V1 < nr.

Lemma purge_post s id (rest : list nat) r x f :
  ash_ok s -> ashmem_lru_list s = id :: rest -> ranges s !! id = Some r ->
  areas s !! r_asma r = Some x -> a_file x = Some f -> purged r = 0 ->
  ashmem_lru_list (purge s id r f) = rest /\ shrink_post s (purge s id r f) [id].
Proof.
  intros Hok Hl Hr Hx Hf Hp. pose proof (ao_lru_nodup _ Hok) as Hnd. rewrite Hl in Hnd.
  apply NoDup_cons in Hnd as [Hn _].
  assert (ashmem_lru_list (purge s id r f) = rest) as El.
  { cbn. by rewrite Hl, list_del_head, list_del_notin. }
  split; [done|]. split; [by apply purge_ok|done|by rewrite El| |].
  - intros j. cbn. case_decide as Hj.
    + apply list_elem_of_singleton in Hj as ->. by rewrite lookup_insert_eq, Hr.
    + rewrite lookup_insert_ne by set_solver. by destruct (ranges s !! j).
  - cbn. unfold trunc_call. by rewrite Hr, Hx, Hf.
Qed.

Lemma shrink_post_trans s s1 s2 id (V : list nat) :
  NoDup (ashmem_lru_list s) -> shrink_post s s1 [id] -> shrink_post s1 s2 V -> shrink_post s s2 (id :: V).
Proof.
  intros Hnd [_ A1 L1 R1 T1] [K A2 L2 R2 T2]. rewrite L1, L2 in Hnd.
  apply NoDup_cons in Hnd as [Hn _].
  split; [done|congruence|by rewrite L1, L2| |].
  - intros j. rewrite R2, R1. destruct (ranges s !! j); [|by cbn]. cbn. do 3 case_decide; set_solver.
  - rewrite T2, T1, <- app_assoc. f_equal. cbn. rewrite app_nil_r. do 2 f_equal.
    apply list_fmap_ext. intros i j Hj%list_elem_of_lookup_2. unfold trunc_call.
    rewrite R1, A1, decide_False by set_solver. by destruct (ranges s !! j).
Qed.

Lemma shrink_post_size s s' V j : shrink_post s s' V -> size_of s' j = size_of s j.
Proof.
  intros H. unfold size_of. rewrite (sp_ranges _ _ _ H j). destruct (ranges s !! j); [|done].
  cbn. by case_decide.
Qed.

Lemma shrink_post_pages s s' V (ids : list nat) :
  shrink_post s s' V -> pages_of s' ids = pages_of s ids.
Proof.
  intros H. unfold pages_of. f_equal. apply list_fmap_ext. intros. by eapply shrink_post_size.
Qed.

Lemma enough_cons s s1 id (V rest : list nat) nr :
  shrink_post s s1 [id] -> 0 < nr -> enough s1 V rest (nr - size_of s id) -> enough s (id :: V) rest nr.
Proof.
  intros Hp Hnr [H1 H2]. split.
  - rewrite pages_cons, <- (shrink_post_pages s s1 [id] V Hp). destruct H1; [by left|right; lia].
  - intros V1 v V2 E. destruct V1 as [|w V1]; [done|]. injection E as <- E. specialize (H2 V1 v V2 E).
    rewrite (shrink_post_pages s s1 [id] V1 Hp) in H2. rewrite pages_cons. lia.
Qed.

Lemma shrink_loop_spec (ids : list nat) : forall s nr,
  ash_ok s -> ashmem_lru_list s = ids ->
  exists s' V, shrink_loop s ids nr = Some s' /\ shrink_post s s' V /\
    (0 < nr < 2 ^ 31 -> (forall id, id ∈ ids -> size_of s id < 2 ^ 31) -> enough s V (ashmem_lru_list s') nr).
Proof.
  induction ids as [|id ids IH]; intros s nr Hok Hl.
  { exists s, []. split_and!; [done| |split; [by left|by intros []]].
    split; try done; [|by rewrite app_nil_r]. intros j. rewrite decide_False by set_solver.
    by destruct (ranges s !! j). }
  destruct (proj1 (ao_lru _ Hok id)) as (r & Hr & Hp); [rewrite Hl; set_solver|].
  destruct (ao_listed _ Hok id r Hr) as (x & Hx & _ & [f Hf]).
  cbn [shrink_loop]. rewrite Hr. cbn [mbind option_bind]. rewrite Hx. cbn [mbind option_bind]. rewrite Hf.
  cbn [mbind option_bind]. change (lru_del _ id r) with (purge s id r f).
  destruct (purge_post s id ids r x f Hok Hl Hr Hx Hf Hp) as [El Hpo].
  assert (size_of s id = range_size r) as Es by (unfold size_of; by rewrite Hr).
  assert (0 <= range_size r) by apply u32_range. rewrite <- Es in *.
  assert (0 < nr < 2 ^ 31 -> (forall j, j ∈ id :: ids -> size_of s j < 2 ^ 31) ->
    s32 (nr - size_of s id) = nr - size_of s id) as Hs.
  { intros Hnr Hsz. specialize (Hsz id ltac:(set_solver)). apply s32_small. lia. }
  case_if.
  - exists (purge s id r f), [id]. split_and!; [done|done|]. intros Hnr Hsz. rewrite Hs in * by done.
    apply (enough_cons s (purge s id r f)); [done|lia|].
    split; [right; cbn; unfold pages_of; cbn; lia|]. by intros [].
  - destruct (IH (purge s id r f) (s32 (nr - size_of s id))) as (s' & V & E & Hpo' & Hen); [apply Hpo|done|].
    exists s', (id :: V). split_and!; [done| |].
    { eapply shrink_post_trans; [apply (ao_lru_nodup _ Hok)|done..]. }
    intros Hnr Hsz. rewrite Hs in * by done. eapply enough_cons; [done|lia|]. apply Hen; [lia|].
    intros j Hj. rewrite (shrink_post_size _ _ _ j Hpo). apply Hsz. set_solver.
Qed.

(** The lists of ranges keep their pages; the purged ones are marked. *)
Lemma shrink_post_vlist s s' V (ids : list nat) :
  shrink_post s s' V -> Forall2 (fun r r' => pgstart r' = pgstart r /\ pgend r' = pgend r) (vlist s ids) (vlist s' ids).
Proof.
  intros H. induction ids as [|j ids IH]; [constructor|]. unfold vlist in *. cbn.
  rewrite (sp_ranges _ _ _ H j). destruct (ranges s !! j); cbn; [|done].
  constructor; [by case_decide|done].
Qed.

Lemma desc_ext l l' :
  Forall2 (fun r r' => pgstart r' = pgstart r /\ pgend r' = pgend r) l l' -> desc l -> desc l'.
Proof.
  induction 1 as [|r r' l l' [E1 E2] Hl IH]; [done|]. rewrite !desc_cons.
  intros (Hn & Hd & Hab). split_and!; [lia|by apply IH|]. intros q' Hq'.
  apply list_elem_of_lookup in Hq' as [i Hi]. destruct (Forall2_lookup_r _ _ _ i q' Hl Hi) as (q & Hq & F1 & F2).
  specialize (Hab q ltac:(by eapply list_elem_of_lookup_2)). unfold above in *. lia.
Qed.

Lemma elem_of_vlist s (ids : list nat) r : r ∈ vlist s ids <-> exists id, id ∈ ids /\ ranges s !! id = Some r.
Proof. unfold vlist. rewrite list_elem_of_omap. naive_solver. Qed.

Lemma shrink_post_hit s s' V (ids : list nat) P p :
  shrink_post s s' V ->
  hit P (vlist s' ids) p <->
  exists id r, id ∈ ids /\ ranges s !! id = Some r /\ holds_page r p /\
    P (if decide (id ∈ V) then ASHMEM_WAS_PURGED else purged r).
Proof.
  intros H. unfold hit. setoid_rewrite elem_of_vlist. split.
  - intros (r' & (j & Hj & Hr) & Hh & HP). rewrite (sp_ranges _ _ _ H j) in Hr.
    destruct (ranges s !! j) as [r|] eqn:E; [|done]. injection Hr as <-. exists j, r. by case_decide.
  - intros (j & r & Hj & Hr & Hh & HP). exists ((if decide (j ∈ V) then purge_range else id) r).
    split; [exists j; rewrite (sp_ranges _ _ _ H j), Hr; done|]. by case_decide.
Qed.
