(* ===== verification/AshmemSteps.v ===== *)
(** * Ashmem: the entry points

    [ash_inv] adds to the range store that every area's list is sorted,
    disjoint and inside the area, and that areas have files of their own.
    Every entry point preserves it; [ash_step] is one call of one of them. *)

From stdpp Require Import base numbers list gmap sorting relations.
From S2P Require Import Prelude Ashmem AshmemInv AshmemPin AshmemUnpin.

Open Scope Z_scope.

Implicit Types (l : list range_t) (r : range_t) (s : ashmem) (a : nat).

(** ** The invariant *)

Record ash_inv s : Prop := {
  ai_ok : ash_ok s;
  ai_desc a : desc (rl s a);
  ai_bound a x p : areas s !! a = Some x -> covers (rl s a) p ->
    0 <= p /\ (p + 1) * PAGE_SIZE <= PAGE_ALIGN (a_size x);
  ai_size a x : areas s !! a = Some x -> 0 <= a_size x < 2 ^ 32;
  ai_files a b x y : areas s !! a = Some x -> areas s !! b = Some y -> is_Some (a_file x) ->
    a_file x = a_file y -> a = b }.

(** The offset and the length that [struct ashmem_pin] at [p] holds. *)
Definition pin_arg (m : umem) (p : Z) : Z * Z :=
  let bytes := (copy_from_user m p 8).1 in (le_Z (take 4 bytes), le_Z (drop 4 bytes)).

(** A request for no page at all: everything from an offset at the end. *)
Definition empty_request (size : Z) (arg : Z * Z) : Prop := arg.2 = 0 /\ arg.1 = PAGE_ALIGN size.

Definition ioctl_ok (env : ioctl_env) s a (cmd : ashmem_cmd) : Prop :=
  bytes_ok (e_umem env) /\
  match cmd with
  | PinUnpin _ p => forall x, areas s !! a = Some x -> ~ empty_request (a_size x) (pin_arg (e_umem env) p)
  | _ => True
  end.

#[global] Instance empty_request_dec size arg : Decision (empty_request size arg).
Proof. unfold empty_request. apply _. Defined.

(** Whether a call is such a request. *)
Definition empty_call (env : ioctl_env) s a (cmd : ashmem_cmd) : bool :=
  match cmd, areas s !! a with
  | PinUnpin _ p, Some x => bool_decide (empty_request (a_size x) (pin_arg (e_umem env) p))
  | _, _ => false
  end.

Lemma empty_call_ok env s a cmd : bytes_ok (e_umem env) -> empty_call env s a cmd = false -> ioctl_ok env s a cmd.
Proof.
  intros Hm He. split; [done|]. destruct cmd; try done. intros x Hx. unfold empty_call in He. rewrite Hx in He.
  by apply bool_decide_eq_false in He.
Qed.

(** [shmem_file_setup] returns a file that is not in use. *)
Definition new_file s (setup : Z + nat) : Prop :=
  forall f b y, setup = inr f -> areas s !! b = Some y -> a_file y <> Some f.

(** One call of an entry point, and whether it is an empty request; a new area
    is a new object. *)
Inductive ash_step : bool -> ashmem -> ashmem -> Prop :=
  | StOpen mem s a ret : areas s !! a = None -> ash_step false s (ashmem_open mem s a ret).1
  | StRelease s a s' ret : ashmem_release s a = Some (s', ret) -> ash_step false s s'
  | StMmap s a v setup s' v' ret :
      new_file s setup -> ashmem_mmap s a v setup = Some (s', v', ret) -> ash_step false s s'
  | StIoctl env s a cmd s' m' ret :
      bytes_ok (e_umem env) -> ashmem_ioctl env s a cmd = Some (s', m', ret) -> ash_step (empty_call env s a cmd) s s'
  | StShrink s nr gfp_fs s' ret : ashmem_shrink s nr gfp_fs = Some (s', ret) -> ash_step false s s'.

Lemma ioctl_step env s a cmd s' m' ret :
  ioctl_ok env s a cmd -> ashmem_ioctl env s a cmd = Some (s', m', ret) -> ash_step false s s'.
Proof.
  intros [Hm Hc] E. assert (empty_call env s a cmd = false) as <-; [|by eapply StIoctl].
  unfold empty_call. destruct cmd; try done. destruct (areas s !! a) as [x|] eqn:Hx; [|done]. by apply bool_decide_eq_false, Hc.
Qed.

(** ** Requests *)

Lemma page_align_bounds size :
  0 <= size < 2 ^ 32 -> 0 <= PAGE_ALIGN size <= 2 ^ 32 - PAGE_SIZE /\ PAGE_ALIGN size mod PAGE_SIZE = 0.
Proof.
  intros Hs. unfold PAGE_ALIGN, PAGE_SIZE. pose proof (u32_range (size + 4095)) as Hu.
  set (y := u32 (size + 4095)) in *.
  rewrite land_page_mask by done. unfold PAGE_SIZE.
  pose proof (Z.div_mod y 4096). pose proof (Z.mod_pos_bound y 4096).
  assert (y / 4096 <= (2 ^ 32 - 1) / 4096) by (apply Z.div_le_mono; lia).
  change ((2 ^ 32 - 1) / 4096) with (2 ^ 20 - 1) in *. split; [lia|]. apply Z.mod_mul. lia.
Qed.

Lemma land_low x : Z.land x 4095 = 0 <-> x mod PAGE_SIZE = 0.
Proof. unfold PAGE_SIZE. change 4095 with (2 ^ 12 - 1). by rewrite land_pow2_mod. Qed.

Lemma u32_sub x y :
  0 <= x < 2 ^ 32 -> 0 <= y < 2 ^ 32 -> u32 (x - y) = if y <=? x then x - y else x - y + 2 ^ 32.
Proof.
  intros. unfold u32. case_if; [apply Z.mod_small; lia|].
  rewrite <- (Z.mod_add _ 1) by lia. rewrite Z.mod_small; lia.
Qed.

(** The pages of an accepted request are in the area. *)
Lemma pin_range_spec size offset len st en :
  0 <= size < 2 ^ 32 -> 0 <= offset < 2 ^ 32 -> 0 <= len < 2 ^ 32 ->
  pin_range size offset len = Some (st, en) -> ~ empty_request size (offset, len) ->
  0 <= st <= en /\ (en + 1) * PAGE_SIZE <= PAGE_ALIGN size /\ st * PAGE_SIZE = offset /\
  (en + 1) * PAGE_SIZE = if len =? 0 then PAGE_ALIGN size else offset + len.
Proof.
  intros Hs Ho Hl. destruct (page_align_bounds size Hs) as [Hp Hpm]. unfold pin_range, empty_request. cbn [fst snd].
  set (n := if len =? 0 then u32 (PAGE_ALIGN size - offset) else len).
  assert (0 <= n < 2 ^ 32) as Hn by (unfold n; case_if; [apply u32_range|done]).
  case_if; [done|]. case_if; [done|]. case_if; [done|]. intros [= <- <-] Hne.

  assert (offset mod PAGE_SIZE = 0 /\ n mod PAGE_SIZE = 0) as [Eo En].
  { rewrite <- !land_low. rewrite Z.land_lor_distr_l in Heqb. by apply Z.lor_eq_0_iff. }
  rewrite u32_small in Heqb1 by lia.
  apply Z.div_exact in Eo, En; [|done..]. unfold PAGE_SIZE in *.
  assert (n = if len =? 0 then PAGE_ALIGN size - offset else len) as Hn'.
  { unfold n in *. case_if; [|done]. rewrite u32_sub in * by lia. case_if; lia. }
  clearbody n. assert (0 < n) by (revert Hn'; case_if; lia).
  rewrite u32_small by lia. split_and!; try lia. revert Hn'. case_if; lia.
Qed.

Lemma pin_arg_range m p :
  bytes_ok m -> 0 <= (pin_arg m p).1 < 2 ^ 32 /\ 0 <= (pin_arg m p).2 < 2 ^ 32.
Proof.
  intros Hm. destruct (copy_from_user_bytes m p 8 Hm) as [Hf Hl]. unfold pin_arg.
  set (b := (copy_from_user m p 8).1) in *. cbn [fst snd].
  pose proof (le_Z_range (take 4 b) (Forall_take _ _ _ Hf)) as H1.
  pose proof (le_Z_range (drop 4 b) (Forall_drop _ _ _ Hf)) as H2.
  rewrite zlen_take in H1. rewrite zlen_drop in H2. rewrite Hl in *. change (256 ^ Z.min (Z.of_nat 4) (Z.max 0 8)) with (2 ^ 32) in H1.
  change (256 ^ Z.max 0 (Z.max 0 8 - Z.of_nat 4)) with (2 ^ 32) in H2. done.
Qed.

(** ** Pinning and unpinning keep the invariant *)

Lemma inv_purged s a r : ash_inv s -> r ∈ rl s a -> purged r = 0 \/ purged r = 1.
Proof. intros Hi (id & _ & Hr)%elem_of_vlist. by eapply (ao_purged _ (ai_ok _ Hi)). Qed.

Lemma same_areas_lookup s s' a x' :
  same_areas s s' -> areas s' !! a = Some x' ->
  exists x, areas s !! a = Some x /\ a_size x' = a_size x /\ a_file x' = a_file x.
Proof.
  intros H Hx'. specialize (H a). rewrite Hx' in H. destruct (areas s !! a) as [x|]; [|done].
  injection H as _ Hf Hs _ _. eauto.
Qed.

(** An operation on one area that keeps its list sorted and inside. *)
Lemma inv_area s s' a :
  ash_inv s -> ash_ok s' -> desc (rl s' a) -> (forall b, b <> a -> rl s' b = rl s b) -> same_areas s s' ->
  (forall x p, areas s !! a = Some x -> covers (rl s' a) p ->
    covers (rl s a) p \/ 0 <= p /\ (p + 1) * PAGE_SIZE <= PAGE_ALIGN (a_size x)) ->
  ash_inv s'.
Proof.
  intros Hi Hok Hd Ho Ha Hc. split.
  - done.
  - intros b. destruct (decide (b = a)) as [->|]; [done|]. rewrite Ho by done. apply (ai_desc _ Hi).
  - intros b x' p Hx'. destruct (same_areas_lookup s s' b x' Ha Hx') as (x & Hx & -> & _).
    destruct (decide (b = a)) as [->|]; [|rewrite Ho by done; by apply (ai_bound _ Hi)].
    intros [H|H]%(Hc x); [by apply (ai_bound _ Hi a)|done|done].
  - intros b x' Hx'. destruct (same_areas_lookup s s' b x' Ha Hx') as (x & Hx & -> & _).
    by apply (ai_size _ Hi b).
  - intros b c y z Hy Hz. destruct (same_areas_lookup s s' b y Ha Hy) as (x1 & H1 & _ & ->).
    destruct (same_areas_lookup s s' c z Ha Hz) as (x2 & H2 & _ & ->). by eapply (ai_files _ Hi).
Qed.

Lemma ashmem_pin_spec mem s a st en :
  ash_inv s -> st <= en ->
  let '(s', ret) := ashmem_pin mem s a st en in
  ash_inv s' /\ pin_post s a (pin_list mem (rl s a) st en).1 (pin_list mem (rl s a) st en).2 s' ret.
Proof.
  intros Hi Hse. unfold ashmem_pin.
  pose proof (pin_loop_spec mem a st en (area_unpinned s a) s [] ASHMEM_NOT_PURGED (ai_ok _ Hi) eq_refl) as H.
  destruct (pin_loop mem s a (area_unpinned s a) st en ASHMEM_NOT_PURGED) as [s' ret].
  change (vlist s (area_unpinned s a)) with (rl s a) in H.
  pose proof (pin_list_desc mem (rl s a) st en Hse (ai_desc _ Hi a)) as Hd.
  pose proof (fun p => proj1 (pin_list_hit mem (rl s a) st en (fun _ => True) p Hse (ai_desc _ Hi a))) as Hc.
  destruct (pin_list mem (rl s a) st en) as [k q]. cbn [fst snd] in *. split; [|exact H].
  destruct H as (Hok & Hrl & _ & Ho & Ha & _). cbn in Hrl. apply (inv_area s s' a); try done.
  - by rewrite Hrl.
  - intros x p _. rewrite Hrl. intros [? _]%Hc. by left.
Qed.

Lemma ashmem_unpin_spec mem s a x st en :
  ash_inv s -> areas s !! a = Some x -> is_Some (a_file x) -> 0 <= st <= en ->
  (en + 1) * PAGE_SIZE <= PAGE_ALIGN (a_size x) ->
  exists s' ret, ashmem_unpin mem s a st en = Some (s', ret) /\ ash_inv s' /\
    unpin_post mem s a st en ASHMEM_NOT_PURGED s' ret.
Proof.
  intros Hi Hx Hf Hse Hen. unfold ashmem_unpin.
  destruct (unpin_loop_spec mem a (length (area_unpinned s a)) s x st en ASHMEM_NOT_PURGED (ai_ok _ Hi) Hx Hf
    (ai_desc _ Hi a)) as (s' & ret & E & Hp); [lia|by left|done|].
  exists s', ret. split_and!; [done| |done]. apply (inv_area s s' a); [done|apply Hp..|].
  intros x' p Hx'. rewrite Hx in Hx'. injection Hx' as <-.
  intros [?|?]%(up_within _ _ _ _ _ _ _ _ Hp); [by left|right]. unfold PAGE_SIZE in *. lia.
Qed.

(** ** The other entry points keep the invariant *)

Lemma inv_shrink s s' V : ash_inv s -> shrink_post s s' V -> ash_inv s'.
Proof.
  intros Hi Hp. assert (forall a, area_unpinned s' a = area_unpinned s a) as Eu.
  { intros a. unfold area_unpinned. by rewrite (sp_areas _ _ _ Hp). }
  split; rewrite ?(sp_areas _ _ _ Hp).
  - apply Hp.
  - intros a. unfold rl. rewrite Eu. eapply desc_ext; [by apply (shrink_post_vlist s s' V)|].
    apply (ai_desc _ Hi).
  - intros a x p Hx Hc. apply (ai_bound _ Hi a x p Hx). unfold rl, covers in *. rewrite Eu in Hc.
    apply (shrink_post_hit s s' V) in Hc as (id & r & Hin & Hr & Hh & _); [|done].
    exists r. rewrite elem_of_vlist. eauto.
  - apply (ai_size _ Hi).
  - apply (ai_files _ Hi).
Qed.

(** A change of an area that keeps its ranges; without a file it has none. *)
Lemma inv_set_area s a x x' f :
  ash_inv s -> areas s !! a = Some x -> unpinned_list x' = unpinned_list x ->
  (is_Some (a_file x) -> a_file x' = a_file x /\ a_size x' = a_size x) -> 0 <= a_size x' < 2 ^ 32 ->
  (forall b y, b <> a -> areas s !! b = Some y -> is_Some (a_file x') -> a_file y <> a_file x') ->
  ash_inv (set_areas (set_fcount s f) (<[a := x']> (areas s))).
Proof.
  intros Hi Hx Hu Hf Hs Hnew. pose proof (ai_ok _ Hi) as Hok. set (s' := set_areas _ _).
  assert (forall b, area_unpinned s' b = area_unpinned s b) as Eu.
  { intros b. unfold area_unpinned, s'. cbn. destruct (decide (b = a)) as [->|].
    - by rewrite lookup_insert_eq, Hx. - by rewrite lookup_insert_ne. }
  split; [split|..]; try (by apply Hok).
  - intros b y Hy. pose proof (area_unpinned_lookup s' b y Hy) as E. rewrite <- E, Eu.
    split; [by apply unpinned_nodup|]. intros id. exact (unpinned_range s b id Hok).
  - intros id r Hr. destruct (ao_listed _ Hok id r Hr) as (y & Hy & Hin & Hfy). cbn.
    destruct (decide (r_asma r = a)) as [E|]; [|exists y; by rewrite lookup_insert_ne].
    rewrite E in *. rewrite Hx in Hy. injection Hy as <-. exists x'.
    rewrite lookup_insert_eq, Hu. split_and!; [done|done|]. by destruct (Hf Hfy) as [-> _].
  - intros b. unfold rl. rewrite Eu. apply (ai_desc _ Hi).
  - intros b y p Hy. unfold rl. rewrite Eu. change (vlist s' (area_unpinned s b)) with (rl s b).
    intros Hc. revert Hy. cbn. intros [[<- <-]|[_ Hy]]%lookup_insert_Some; [|by apply (ai_bound _ Hi b)].
    replace (a_size x') with (a_size x); [by apply (ai_bound _ Hi a)|]. symmetry. apply Hf.
    destruct Hc as (r & (id & Hin & Hr)%elem_of_vlist & _).
    destruct (ao_listed _ Hok id r Hr) as (y & Hy & _ & Hfy).
    destruct (unpinned_range s a id Hok Hin) as (r' & Hr' & E). congruence.
  - intros b y. cbn. intros [[<- <-]|[_ Hy]]%lookup_insert_Some; [done|by apply (ai_size _ Hi b)].
  - intros b c y z. cbn. intros [[<- <-]|[Hb Hy]]%lookup_insert_Some [[<- <-]|[Hc Hz]]%lookup_insert_Some Hs' E.
    + done.
    + by destruct (Hnew c z).
    + destruct (Hnew b y); [done|done|by rewrite <- E|done].
    + by eapply (ai_files _ Hi).
Qed.

Lemma inv_fcount s f : ash_inv s -> ash_inv (set_fcount s f).
Proof.
  intros [[H1 H2 H3 H4 H5 H6 H7] Hd Hb Hs Hf]. split; [by split|exact Hd|exact Hb|exact Hs|exact Hf].
Qed.

Lemma release_loop a : forall (ids : list nat) s,
  ash_inv s -> area_unpinned s a = ids ->
  let s' := foldl range_del s ids in
  ash_inv s' /\ area_unpinned s' a = [] /\ (forall b, b <> a -> rl s' b = rl s b) /\ same_areas s s' /\
  truncated s' = truncated s.
Proof.
  induction ids as [|id ids IH]; intros s Hi Hu; cbn [foldl]; [done|].
  destruct (unpinned_range s a id (ai_ok _ Hi)) as (r & Hr & _); [rewrite Hu; set_solver|].
  destruct (rl_del s a [] id ids r (ai_ok _ Hi) Hu Hr) as (Hu' & _).
  destruct (del_post s a [] id ids r (ai_ok _ Hi) Hu Hr) as (Hok1 & Hrl & _ & Ho & Ha & Ht).
  pose proof (rl_split s a [] id ids r (ai_ok _ Hi) Hu Hr) as Hrl0. cbn in Hrl, Hrl0.
  pose proof (ai_desc _ Hi a) as Hd. rewrite Hrl0 in Hd. apply desc_cons in Hd as (_ & Hd & _).
  destruct (IH (range_del s id)) as (K1 & K2 & K3 & K4 & K5).
  - apply (inv_area s (range_del s id) a); try done; [by rewrite Hrl|].
    intros x p _. unfold covers. rewrite Hrl, Hrl0, hit_cons. tauto.
  - done.
  - split_and!; [done|done| |by etrans|congruence]. intros b Hb. by rewrite K3, Ho.
Qed.

Lemma inv_drop_area s a :
  ash_inv s -> area_unpinned s a = [] -> ash_inv (set_areas s (delete a (areas s))).
Proof.
  intros Hi Hu. pose proof (ai_ok _ Hi) as Hok. set (s' := set_areas _ _).
  assert (forall b, b <> a -> area_unpinned s' b = area_unpinned s b) as Eu.
  { intros b Hb. unfold area_unpinned, s'. cbn. by rewrite lookup_delete_ne. }
  assert (forall b x, areas s' !! b = Some x -> b <> a /\ areas s !! b = Some x) as Hl.
  { intros b x. cbn. intros [Hb Hx]%lookup_delete_Some. auto. }
  split; [split|..]; try (by apply Hok).
  - intros b x [_ Hx]%Hl. apply (ao_unpinned _ Hok b x Hx).
  - intros id r Hr. destruct (ao_listed _ Hok id r Hr) as (x & Hx & Hin & Hf). exists x. cbn.
    rewrite lookup_delete_ne; [done|]. intros ->. rewrite (area_unpinned_lookup _ _ x Hx) in Hu.
    rewrite Hu in Hin. set_solver.
  - intros b. destruct (decide (b = a)) as [->|Hb].
    + unfold rl, area_unpinned. cbn. rewrite lookup_delete_eq. apply desc_nil.
    + unfold rl. rewrite Eu by done. apply (ai_desc _ Hi).
  - intros b x p [Hb Hx]%Hl. unfold rl. rewrite Eu by done. by apply (ai_bound _ Hi b).
  - intros b x [_ Hx]%Hl. by apply (ai_size _ Hi b).
  - intros b c x y [_ Hx]%Hl [_ Hy]%Hl. by eapply (ai_files _ Hi).
Qed.

Lemma inv_release s a s' ret : ash_inv s -> ashmem_release s a = Some (s', ret) -> ash_inv s'.
Proof.
  intros Hi. unfold ashmem_release. destruct (areas s !! a) as [x|] eqn:Hx; [|done]. cbn [mbind option_bind].
  destruct (release_loop a (unpinned_list x) s Hi (area_unpinned_lookup s a x Hx)) as (K1 & K2 & _).
  set (s1 := foldl range_del s (unpinned_list x)) in *. intros [= <- <-].
  destruct (a_file x) as [f|]; [|by apply inv_drop_area].
  apply (inv_drop_area (fput s1 f) a); [by apply inv_fcount|done].
Qed.

Lemma inv_open mem s a ret : ash_inv s -> areas s !! a = None -> ash_inv (ashmem_open mem s a ret).1.
Proof.
  intros Hi Ha. unfold ashmem_open. case_if; [done|]. destruct mem; [|done]. cbn [negb fst].
  pose proof (ai_ok _ Hi) as Hok. set (x := Area _ _ _ _ _ _). set (s' := set_areas _ _).
  assert (forall b, rl s' b = rl s b) as Hrl.
  { intros b. unfold rl, area_unpinned, s'. cbn. destruct (decide (b = a)) as [->|].
    - by rewrite lookup_insert_eq, Ha. - by rewrite lookup_insert_ne. }
  split; [split|..]; try (by apply Hok).
  - intros b y. cbn. intros [[<- <-]|[_ Hy]]%lookup_insert_Some; [|by apply (ao_unpinned _ Hok)].
    split; [constructor|set_solver].
  - intros id r Hr. destruct (ao_listed _ Hok id r Hr) as (y & Hy & Hin & Hf). exists y. cbn.
    rewrite lookup_insert_ne; [done|]. intros ->. congruence.
  - intros b. rewrite Hrl. apply (ai_desc _ Hi).
  - intros b y p. rewrite Hrl. cbn. intros [[<- <-]|[_ Hy]]%lookup_insert_Some; [|by apply (ai_bound _ Hi b)].
    unfold rl, area_unpinned. rewrite Ha. intros Hc. by apply hit_nil in Hc.
  - intros b y. cbn. intros [[<- <-]|[_ Hy]]%lookup_insert_Some; [cbn; lia|by apply (ai_size _ Hi b)].
  - intros b c y z. cbn. intros [[<- <-]|[Hb Hy]]%lookup_insert_Some [[<- <-]|[Hc Hz]]%lookup_insert_Some Hs' E;
      [done|by destruct Hs'|rewrite E in Hs'; by destruct Hs'|by eapply (ai_files _ Hi)].
Qed.

Lemma inv_mmap s a v setup s' v' ret :
  ash_inv s -> new_file s setup -> ashmem_mmap s a v setup = Some (s', v', ret) -> ash_inv s'.
Proof.
  intros Hi Hnew. unfold ashmem_mmap. destruct (areas s !! a) as [x|] eqn:Hx; [|done]. cbn [mbind option_bind].
  case_if; [by intros [= <- _ _]|]. case_if; [by intros [= <- _ _]|].
  pose proof (ai_size _ Hi a x Hx) as Hs.
  destruct (a_file x) as [f|] eqn:Hf; [|destruct setup as [err|f]; [by intros [= <- _ _]|]];
    intros [= <- _ _]; destruct (v_file v) as [old|];
    (eapply (inv_set_area s a x); [done|done|done| |done|]); cbn; rewrite ?Hf; try done.
  1, 2: intros b y Hb Hy Hs' E; apply Hb, (ai_files _ Hi b a y x Hy Hx); rewrite ?E; eauto.
  all: intros b y _ Hy _; by apply (Hnew f b y).
Qed.

Lemma pin_unpin_total mem m s a cmd p x :
  ash_inv s -> areas s !! a = Some x -> bytes_ok m -> ~ empty_request (a_size x) (pin_arg m p) ->
  exists s' ret, ashmem_pin_unpin mem m s a cmd p = Some (s', ret) /\ ash_inv s'.
Proof.
  intros Hi Hx Hm Hne. unfold ashmem_pin_unpin. rewrite Hx. cbn [mbind option_bind].
  destruct (pin_arg_range m p Hm) as [Ho Hl]. unfold pin_arg in *.
  destruct (a_file x) as [f|] eqn:Hf; [|eauto].
  destruct (copy_from_user m p 8) as [bytes left_]. cbn [fst snd] in *. case_if; [eauto|].
  destruct (pin_range _ _ _) as [[st en]|] eqn:Hr; [|eauto].
  destruct (pin_range_spec _ _ _ _ _ (ai_size _ Hi a x Hx) Ho Hl Hr Hne) as (Hse & Hen & _).
  destruct cmd; [|..|eauto].
  - pose proof (ashmem_pin_spec mem s a st en Hi) as H. destruct (ashmem_pin mem s a st en) as [s' ret].
    exists s', ret. split; [done|]. apply H. lia.
  - destruct (ashmem_unpin_spec mem s a x st en Hi Hx) as (s' & ret & E & Hi' & _); [by rewrite Hf|done..|eauto].
Qed.

Lemma shrink_total s nr gfp_fs :
  ash_inv s -> exists s' ret, ashmem_shrink s nr gfp_fs = Some (s', ret) /\ ash_inv s'.
Proof.
  intros Hi. unfold ashmem_shrink. case_if; [eauto|]. case_if; [eauto|].
  destruct (shrink_loop_spec (ashmem_lru_list s) s nr (ai_ok _ Hi) eq_refl) as (s' & V & -> & Hp & _).
  eexists _, _. split; [done|]. by eapply inv_shrink.
Qed.

Lemma ioctl_total env s a cmd x :
  ash_inv s -> areas s !! a = Some x -> ioctl_ok env s a cmd ->
  exists s' m' ret, ashmem_ioctl env s a cmd = Some (s', m', ret) /\ ash_inv s'.
Proof.
  intros Hi Hx [Hm Hc]. unfold ashmem_ioctl. rewrite Hx. cbn [mbind option_bind].
  pose proof (ai_size _ Hi a x Hx) as Hs.
  assert (forall x', unpinned_list x' = unpinned_list x -> a_size x' = a_size x -> a_file x' = a_file x ->
    ash_inv (set_areas s (<[a := x']> (areas s)))) as Hset.
  { intros x' H1 H2 H3. eapply (inv_set_area s a x x' (fcount s)); try done; rewrite ?H2, ?H3; auto.
    intros b y Hb Hy Hs' E. apply Hb, (ai_files _ Hi b a y x Hy Hx); rewrite ?E; eauto. }
  destruct cmd as [p|p|n| |prot| |c p| | |]; cbn [mbind option_bind]; [..|eauto].
  - unfold set_name. rewrite Hx. cbn [mbind option_bind]. destruct (a_file x) as [f|] eqn:Hf; [eauto|].
    destruct (copy_from_user _ _ _). cbn [mbind option_bind]. eauto 10.
  - unfold get_name. rewrite Hx. cbn [mbind option_bind]. destruct (copy_to_user _ _ _). cbn. eauto.
  - destruct (a_file x) as [f|] eqn:Hf; [eauto|]. eexists _, _, _. split; [done|].
    eapply (inv_set_area s a x _ (fcount s)); [done..| |apply u32_range|].
    + rewrite Hf. by intros [].
    + intros b y _ _ []. done.
  - eauto.
  - unfold set_prot_mask. rewrite Hx. cbn [mbind option_bind]. case_if; cbn [mbind option_bind]; eauto 10.
  - eauto.
  - destruct (pin_unpin_total (e_mem env) (e_umem env) s a c p x) as (s' & ret & -> & ?); [done..|by apply Hc|].
    cbn. eauto.
  - destruct (e_sys_admin env); [|cbn; eauto].
    destruct (shrink_total s 0 true Hi) as (s1 & ret & -> & Hi1). cbn.
    destruct (shrink_total s1 ret true Hi1) as (s2 & ret2 & -> & Hi2). cbn. eauto.
  - unfold ashmem_flush_cache_range. rewrite Hx. cbn [mbind option_bind]. case_if; cbn; eauto.
Qed.

Lemma inv_step s s' : ash_inv s -> ash_step false s s' -> ash_inv s'.
Proof.
  intros Hi Hst. remember false as b eqn:Eb. revert Hi.
  destruct Hst as [mem s a ret Ha|s a s' ret E|s a v setup s' v' ret Hn E|env s a cmd s' m' ret Hm E
    |s nr fs s' ret E]; intros Hi.
  - by apply inv_open.
  - by eapply inv_release.
  - by eapply inv_mmap.
  - assert (exists x, areas s !! a = Some x) as [x Hx].
    { unfold ashmem_ioctl in E. destruct (areas s !! a); [eauto|done]. }
    destruct (ioctl_total env s a cmd x Hi Hx (empty_call_ok _ _ _ _ Hm Eb)) as (s1 & m1 & r1 & E1 & H1). congruence.
  - destruct (shrink_total s nr fs Hi) as (s1 & r1 & E1 & H1). congruence.
Qed.

Lemma inv_init : ash_inv ashmem_init_state.
Proof.
  split; [split|..]; cbn; try (intros; by rewrite lookup_empty in * ); try done.
  - constructor.
  - intros id. setoid_rewrite lookup_empty. set_solver.
  - intros a. unfold rl, area_unpinned. cbn. rewrite lookup_empty. apply desc_nil.
Qed.
