(* ===== verification/AshmemProps.v ===== *)
(** * Ashmem: what the driver promises

    The claims on mm/ashmem.c: the invariant of every reachable state, what a
    pin, an unpin, a status request and the shrinker do to the unpinned and
    the purged pages, and that a pin never misses a purge. *)

From stdpp Require Import base numbers list gmap sorting relations.
From S2P Require Import Prelude Ashmem AshmemInv AshmemPin AshmemUnpin AshmemSteps.

Open Scope Z_scope.

Implicit Types (r : range_t) (s : ashmem) (a : nat).

(** ** Requests *)

(** The user memory at [p] holds an acceptable request for the pages [st] to
    [en] of the mapped area [a]. *)
Record request (m : umem) s a (p : Z) (x : area_t) (st en : Z) : Prop := {
  rq_area : areas s !! a = Some x;
  rq_file : is_Some (a_file x);
  rq_bytes : bytes_ok m;
  rq_copied : (copy_from_user m p 8).2 = 0;
  rq_range : pin_range (a_size x) (pin_arg m p).1 (pin_arg m p).2 = Some (st, en);
  rq_some : ~ empty_request (a_size x) (pin_arg m p) }.

Lemma request_pages m s a p x st en :
  ash_inv s -> request m s a p x st en ->
  0 <= st <= en /\ (en + 1) * PAGE_SIZE <= PAGE_ALIGN (a_size x) /\ st * PAGE_SIZE = (pin_arg m p).1.
Proof.
  intros Hi [Hx _ Hm _ Hr Hne]. destruct (pin_arg_range m p Hm) as [Ho Hl].
  destruct (pin_arg m p) as [off len].
  by destruct (pin_range_spec _ _ _ _ _ (ai_size _ Hi a x Hx) Ho Hl Hr Hne) as (? & ? & ? & _).
Qed.

Lemma request_call mem m s a cmd p x st en :
  request m s a p x st en ->
  ashmem_pin_unpin mem m s a cmd p =
  match cmd with
  | ASHMEM_PIN => Some (ashmem_pin mem s a st en)
  | ASHMEM_UNPIN => ashmem_unpin mem s a st en
  | ASHMEM_GET_PIN_STATUS => Some (s, ashmem_get_pin_status s a st en)
  end.
Proof.
  intros [Hx [f Hf] _ Hc Hr _]. unfold ashmem_pin_unpin. rewrite Hx. cbn [mbind option_bind]. rewrite Hf.
  unfold pin_arg in Hr. destruct (copy_from_user m p 8) as [bytes left_]. cbn [fst snd] in *.
  rewrite Hc, Hr. done.
Qed.

(** What pinning the pages [st] to [en] means. *)
Lemma pin_effect s a st en :
  ash_inv s -> st <= en ->
  let '(s', ret) := ashmem_pin true s a st en in
  ash_inv s' /\
  (forall q, covers (rl s' a) q <-> covers (rl s a) q /\ ~ (st <= q <= en)) /\
  (forall q, marked (rl s' a) q <-> marked (rl s a) q /\ ~ (st <= q <= en)) /\
  (ret = ASHMEM_WAS_PURGED \/ ret = ASHMEM_NOT_PURGED) /\
  (ret = ASHMEM_WAS_PURGED <-> exists q, st <= q <= en /\ marked (rl s a) q) /\
  (forall b, b <> a -> rl s' b = rl s b) /\ same_areas s s' /\ truncated s' = truncated s.
Proof.
  intros Hi Hse. pose proof (ashmem_pin_spec true s a st en Hi Hse) as H.
  destruct (ashmem_pin true s a st en) as [s' ret]. destruct H as (Hi' & _ & Hrl & -> & Ho & Ha & Ht).
  assert (forall P q, hit P (rl s' a) q <-> hit P (rl s a) q /\ ~ (st <= q <= en)) as Hh.
  { intros P q. rewrite Hrl. destruct (pin_list_hit true (rl s a) st en P q Hse (ai_desc _ Hi a)). naive_solver. }
  destruct (pin_list_ret true (rl s a) st en Hse (ai_desc _ Hi a) (fun r => inv_purged s a r Hi)) as [Hq Hm].
  split_and!; [done|apply Hh|apply Hh|unfold ASHMEM_WAS_PURGED, ASHMEM_NOT_PURGED; lia|apply Hm|done..].
Qed.

(** ** Purged pages *)

(** Page [q] of area [a] is in a part of its file that was truncated between
    [s] and [s']. *)
Definition truncated_in s s' a (q : Z) : Prop :=
  exists x f lo hi, areas s !! a = Some x /\ a_file x = Some f /\
    (f, lo, hi) ∈ drop (length (truncated s)) (truncated s') /\ lo <= q * PAGE_SIZE <= hi.

Lemma not_truncated s s' a q : truncated s' = truncated s -> ~ truncated_in s s' a q.
Proof. intros E (x & f & lo & hi & _ & _ & H & _). rewrite E, drop_all in H. set_solver. Qed.

Lemma range_bounds s id r :
  ash_inv s -> ranges s !! id = Some r ->
  id ∈ area_unpinned s (r_asma r) /\ 0 <= pgstart r <= pgend r /\ (pgend r + 1) * PAGE_SIZE < 2 ^ 32.
Proof.
  intros Hi Hr. destruct (ao_listed _ (ai_ok _ Hi) id r Hr) as (x & Hx & Hin & _).
  rewrite <- (area_unpinned_lookup _ _ _ Hx) in Hin.
  assert (r ∈ rl s (r_asma r)) as Hrl by (apply elem_of_vlist; eauto).
  pose proof (d_nonempty _ (ai_desc _ Hi (r_asma r)) r Hrl) as Hn.
  destruct (page_align_bounds (a_size x) (ai_size _ Hi _ x Hx)) as [Hb _]. unfold PAGE_SIZE in *.
  assert (forall q, holds_page r q -> 0 <= q /\ (q + 1) * PAGE_SIZE <= PAGE_ALIGN (a_size x)) as Hq.
  { intros q Hq. apply (ai_bound _ Hi _ x q Hx). by exists r. }
  destruct (Hq (pgstart r)) as [? _]; [unfold holds_page; lia|].
  destruct (Hq (pgend r)) as [_ ?]; [unfold holds_page; lia|]. unfold PAGE_SIZE in *. split; [done|lia].
Qed.

Lemma elem_of_concat {A} (x : A) ls : x ∈ concat ls <-> exists k, x ∈ k /\ k ∈ ls.
Proof. rewrite list_elem_of_In, in_concat. setoid_rewrite list_elem_of_In. naive_solver. Qed.

(** The truncated pages are those of the purged ranges. *)
Lemma shrink_truncated s s' V a q :
  ash_inv s -> shrink_post s s' V ->
  truncated_in s s' a q <-> exists id r, id ∈ V /\ ranges s !! id = Some r /\ r_asma r = a /\ holds_page r q.
Proof.
  intros Hi Hp. unfold truncated_in. rewrite (sp_truncated _ _ _ Hp), drop_app_length. split.
  - intros (x & f & lo & hi & Hx & Hf & Hin & Hq).
    apply elem_of_concat in Hin as (c & Hc & (id & -> & HV)%list_elem_of_fmap).
    unfold trunc_call in Hc. destruct (ranges s !! id) as [r|] eqn:Hr; [|set_solver].
    destruct (areas s !! r_asma r) as [y|] eqn:Hy; [|set_solver].
    destruct (a_file y) as [g|] eqn:Hg; [|set_solver]. apply list_elem_of_singleton in Hc as [= -> -> ->].
    exists id, r. destruct (range_bounds s id r Hi Hr) as (_ & Hb1 & Hb2). unfold PAGE_SIZE in *.
    rewrite !u32_small in Hq by (rewrite ?u32_small; lia). split_and!; [done|done| |unfold holds_page; lia].
    apply (ai_files _ Hi _ _ y x Hy Hx); [eauto|congruence].
  - intros (id & r & HV & Hr & <- & Hq). destruct (ao_listed _ (ai_ok _ Hi) id r Hr) as (x & Hx & _ & [f Hf]).
    eexists x, f, _, _. split_and!; [done|done| |..].
    + apply elem_of_concat. exists (trunc_call s id). split; [|apply list_elem_of_fmap; eauto].
      unfold trunc_call. rewrite Hr, Hx, Hf. by apply list_elem_of_singleton.
    + destruct (range_bounds s id r Hi Hr) as (_ & Hb1 & Hb2). unfold PAGE_SIZE, holds_page in *.
      rewrite u32_small; lia.
    + destruct (range_bounds s id r Hi Hr) as (_ & Hb1 & Hb2). unfold PAGE_SIZE, holds_page in *.
      rewrite !u32_small by (rewrite ?u32_small; lia). lia.
Qed.

Lemma shrink_marks s s' V a q :
  ash_inv s -> shrink_post s s' V ->
  (covers (rl s' a) q <-> covers (rl s a) q) /\
  (marked (rl s' a) q <-> marked (rl s a) q \/ truncated_in s s' a q).
Proof.
  intros Hi Hp. pose proof (ai_ok _ Hi) as Hok.
  assert (area_unpinned s' a = area_unpinned s a) as Eu by (unfold area_unpinned; by rewrite (sp_areas _ _ _ Hp)).
  rewrite (shrink_truncated s s' V a q Hi Hp). unfold covers, marked, rl. rewrite Eu.
  rewrite !(shrink_post_hit s s' V _ _ _ Hp). unfold hit. setoid_rewrite elem_of_vlist. split; [naive_solver|split].
  - intros (id & r & Hin & Hr & Hq & H). case_decide; [right|left; naive_solver].
    exists id, r. split_and!; try done. by eapply in_area.
  - intros [(r & (id & Hin & Hr) & Hq & H)|(id & r & HV & Hr & <- & Hq)]; exists id, r.
    + split_and!; [done..|]. by case_decide.
    + destruct (range_bounds s id r Hi Hr) as [Hin _]. rewrite decide_True by done. done.
Qed.

(** ** Runs, with the pages whose contents were lost *)

Definition lost := nat -> Z -> Prop.

(** The pages that a successful pin takes back. *)
Definition repinned (env : ioctl_env) s a (cmd : ashmem_cmd) (ret : Z) (b : nat) (q : Z) : Prop :=
  match cmd with
  | PinUnpin ASHMEM_PIN p =>
      0 <= ret /\ b = a /\ exists x st en, areas s !! a = Some x /\
        pin_range (a_size x) (pin_arg (e_umem env) p).1 (pin_arg (e_umem env) p).2 = Some (st, en) /\
        st <= q <= en
  | _ => False
  end.

(** [L] collects the pages truncated since they were last pinned. *)
Inductive run_step : ashmem * lost -> ashmem * lost -> Prop :=
  | RunOpen mem s L a ret : areas s !! a = None -> run_step (s, L) ((ashmem_open mem s a ret).1, L)
  | RunRelease s L a s' ret :
      ashmem_release s a = Some (s', ret) -> run_step (s, L) (s', fun b q => b <> a /\ L b q)
  | RunMmap s L a v setup s' v' ret :
      new_file s setup -> ashmem_mmap s a v setup = Some (s', v', ret) -> run_step (s, L) (s', L)
  | RunIoctl env s L a cmd s' m' ret :
      e_mem env = true -> ioctl_ok env s a cmd -> ashmem_ioctl env s a cmd = Some (s', m', ret) ->
      run_step (s, L) (s', fun b q => L b q /\ ~ repinned env s a cmd ret b q \/ truncated_in s s' b q)
  | RunShrink s L nr gfp_fs s' ret :
      ashmem_shrink s nr gfp_fs = Some (s', ret) ->
      run_step (s, L) (s', fun b q => L b q \/ truncated_in s s' b q).

Definition run_ok (c : ashmem * lost) : Prop :=
  ash_inv c.1 /\ forall b q, c.2 b q -> marked (rl c.1 b) q.

(** A call that changes no list of ranges and truncates nothing. *)
Definition quiet s s' : Prop := (forall b, rl s' b = rl s b) /\ truncated s' = truncated s.

Lemma quiet_set_area s a x x' f :
  areas s !! a = Some x -> unpinned_list x' = unpinned_list x ->
  quiet s (set_areas (set_fcount s f) (<[a := x']> (areas s))).
Proof.
  intros Hx Hu. split; [|done]. intros b. unfold rl, area_unpinned. cbn.
  destruct (decide (b = a)) as [->|]; [by rewrite lookup_insert_eq, Hx, Hu|by rewrite lookup_insert_ne].
Qed.

Lemma shrink_effect s nr gfp_fs s' ret :
  ash_inv s -> ashmem_shrink s nr gfp_fs = Some (s', ret) ->
  forall a q, marked (rl s' a) q <-> marked (rl s a) q \/ truncated_in s s' a q.
Proof.
  intros Hi. unfold ashmem_shrink. case_if; [intros [= <- <-]|case_if; [intros [= <- <-]|]].
  1-2: intros a q; pose proof (not_truncated s s a q eq_refl); tauto.
  destruct (shrink_loop_spec (ashmem_lru_list s) s nr (ai_ok _ Hi) eq_refl) as (s1 & V & -> & Hp & _).
  intros [= -> <-] a q. by apply (shrink_marks s s' V a q Hi Hp).
Qed.

Lemma pin_unpin_effect m s a cmd p x s' ret :
  ash_inv s -> areas s !! a = Some x -> bytes_ok m -> ~ empty_request (a_size x) (pin_arg m p) ->
  ashmem_pin_unpin true m s a cmd p = Some (s', ret) ->
  quiet s s' \/ exists st en, request m s a p x st en /\
    match cmd with
    | ASHMEM_PIN => ashmem_pin true s a st en = (s', ret)
    | ASHMEM_UNPIN => ashmem_unpin true s a st en = Some (s', ret)
    | ASHMEM_GET_PIN_STATUS => False
    end.
Proof.
  intros Hi Hx Hm Hne E. destruct (a_file x) as [f|] eqn:Hf.
  2: { unfold ashmem_pin_unpin in E. rewrite Hx in E. cbn [mbind option_bind] in E. rewrite Hf in E.
       injection E as <- <-. by left. }
  destruct (pin_range (a_size x) (pin_arg m p).1 (pin_arg m p).2) as [[st en]|] eqn:Hr.
  - destruct (decide ((copy_from_user m p 8).2 = 0)) as [H0|H0].
    + assert (request m s a p x st en) as Hq by (split; rewrite ?Hf; eauto).
      rewrite (request_call true m s a cmd p x st en Hq) in E.
      destruct cmd; [right|right|left; by injection E as <- <-]; exists st, en; split; congruence.
    + left. unfold ashmem_pin_unpin in E. rewrite Hx in E. cbn [mbind option_bind] in E. rewrite Hf in E.
      destruct (copy_from_user m p 8) as [bytes left_]. cbn in H0. apply Z.eqb_neq in H0. rewrite H0 in E.
      by injection E as <- <-.
  - left. unfold ashmem_pin_unpin in E. rewrite Hx in E. cbn [mbind option_bind] in E. rewrite Hf in E.
    unfold pin_arg in Hr. destruct (copy_from_user m p 8) as [bytes left_]. cbn [fst snd] in Hr. rewrite Hr in E.
    destruct (negb (left_ =? 0)); by injection E as <- <-.
Qed.

Lemma ioctl_quiet env s a cmd s' m' ret :
  match cmd with PinUnpin _ _ | PurgeAll => False | _ => True end ->
  ashmem_ioctl env s a cmd = Some (s', m', ret) -> quiet s s'.
Proof.
  intros Hcmd. unfold ashmem_ioctl. destruct (areas s !! a) as [x|] eqn:Hx; [|done]. cbn [mbind option_bind].
  pose proof (fun x' => quiet_set_area s a x x' (fcount s) Hx) as Hset.

  assert (forall x', unpinned_list x' = unpinned_list x -> quiet s (set_areas s (<[a := x']> (areas s)))) as Hs.
  { intros x' Hu. destruct (Hset x' Hu) as [H1 H2]. by split. }
  destruct cmd as [p|p|n| |prot| |c p| | |]; cbn [mbind option_bind]; try done; try (by intros [= <- _ _]).
  - unfold set_name. rewrite Hx. cbn [mbind option_bind].
    destruct (a_file x); [|destruct (copy_from_user _ _ _)]; cbn; intros [= <- _ _]; by try apply Hs.
  - unfold get_name. rewrite Hx. cbn [mbind option_bind]. destruct (copy_to_user _ _ _). cbn. by intros [= <- _ _].
  - destruct (a_file x); intros [= <- _ _]; by try apply Hs.
  - unfold set_prot_mask. rewrite Hx. cbn [mbind option_bind].
    case_if; cbn; intros [= <- _ _]; by try apply Hs.
  - unfold ashmem_flush_cache_range. rewrite Hx. cbn [mbind option_bind]. case_if; cbn; by intros [= <- _ _].
Qed.

Lemma ioctl_effect env s a cmd s' m' ret :
  ash_inv s -> e_mem env = true -> ioctl_ok env s a cmd -> ashmem_ioctl env s a cmd = Some (s', m', ret) ->
  forall b q, (marked (rl s b) q -> marked (rl s' b) q \/ repinned env s a cmd ret b q) /\
    (truncated_in s s' b q -> marked (rl s' b) q).
Proof.
  intros Hi Hmem [Hm Hc] E b q.
  assert (quiet s s' -> (marked (rl s b) q -> marked (rl s' b) q \/ repinned env s a cmd ret b q) /\
    (truncated_in s s' b q -> marked (rl s' b) q)) as Hquiet.
  { intros [H1 H2]. rewrite H1. split; [by left|]. by intros H%not_truncated. }
  pose proof (ioctl_quiet env s a cmd s' m' ret) as Hq.
  unfold ashmem_ioctl in E. destruct (areas s !! a) as [x|] eqn:Hx; [|done]. cbn [mbind option_bind] in E.
  destruct cmd as [p|p|n| |prot| |c p| | |]; try (by apply Hquiet, Hq; unfold ashmem_ioctl; rewrite ?Hx).
  - rewrite Hmem in E. destruct (ashmem_pin_unpin true _ _ _ _ _) as [[s1 r1]|] eqn:E1; [|done].
    injection E as -> _ ->. specialize (Hc x eq_refl).
    destruct (pin_unpin_effect _ s a c p x s' ret Hi Hx Hm Hc E1) as [?|(st & en & Hrq & E2)]; [by apply Hquiet|].
    destruct (request_pages _ _ _ _ _ _ _ Hi Hrq) as (Hse & Hen & _). destruct c; [| |done].
    + pose proof (pin_effect s a st en Hi ltac:(lia)) as H. rewrite E2 in H.
      destruct H as (_ & _ & Hmk & Hret & _ & Ho & _ & Ht). split; [|by intros H%not_truncated].
      destruct (decide (b = a)) as [->|]; [|rewrite Ho by done; by left]. intros Hb.
      destruct (decide (st <= q <= en)); [right|left; by apply Hmk]. cbn. split_and!; [|done|].
      * unfold ASHMEM_WAS_PURGED, ASHMEM_NOT_PURGED in Hret. lia.
      * exists x, st, en. split_and!; [done|apply Hrq|lia|lia].
    + destruct (ashmem_unpin_spec true s a x st en Hi Hx (rq_file _ _ _ _ _ _ _ Hrq)) as (s1 & r1 & E3 & _ & Hp);
        [done..|]. rewrite E2 in E3. injection E3 as <- <-.
      split; [|by intros H%not_truncated; [|apply Hp]]. left.
      destruct (decide (b = a)) as [->|]; [by apply Hp|by rewrite (up_others _ _ _ _ _ _ _ _ Hp)].
  - destruct (e_sys_admin env); [|injection E as <- _ _; by apply Hquiet].
    cbn in E. destruct (ashmem_shrink s (s32 (lru_count s)) true) as [[s1 r1]|] eqn:E1; [|done].
    injection E as -> _ _. pose proof (shrink_effect s _ _ s' r1 Hi E1 b q). tauto.
Qed.

Lemma run_step_ok c c' : run_ok c -> run_step c c' -> run_ok c'.
Proof.
  intros Hr Hst. revert Hr.
  destruct Hst as [mem s L a ret Ha|s L a s' ret E|s L a v setup s' v' ret Hn E|env s L a cmd s' m' ret Hmem Hc E
    |s L nr fs s' ret E]; intros [Hi HL]; cbn [fst snd] in *.
  - split; [by apply inv_open|]. intros b q Hb. specialize (HL b q Hb).
    unfold ashmem_open. cbn. case_if; [done|]. destruct mem; [|done]. cbn.
    unfold rl, area_unpinned in *. cbn. rewrite lookup_insert_ne; [done|]. intros ->.
    rewrite Ha in HL. by apply hit_nil in HL.
  - split; [by eapply inv_release|]. intros b q [Hb HLb]. specialize (HL b q HLb). cbn [fst].
    unfold ashmem_release in E. destruct (areas s !! a) as [x|] eqn:Hx; [|done]. cbn [mbind option_bind] in E.
    destruct (release_loop a (unpinned_list x) s Hi (area_unpinned_lookup s a x Hx)) as (_ & _ & Ho & _).
    rewrite <- (Ho b Hb) in HL. injection E as <- _. destruct (a_file x);
      unfold rl, area_unpinned in *; cbn; by rewrite lookup_delete_ne.
  - split; [by eapply inv_mmap|]. intros b q HLb. specialize (HL b q HLb). cbn [fst].
    unfold ashmem_mmap in E. destruct (areas s !! a) as [x|] eqn:Hx; [|done]. cbn [mbind option_bind] in E.
    assert (forall x' f, unpinned_list x' = unpinned_list x ->
      marked (rl (set_areas (set_fcount s f) (<[a := x']> (areas s))) b) q) as Hset.
    { intros x' f Hu. by rewrite (proj1 (quiet_set_area s a x x' f Hx Hu)). }
    revert E. case_if; [by intros [= <- _ _]|]. case_if; [by intros [= <- _ _]|].
    destruct (a_file x); [|destruct setup; [by intros [= <- _ _]|]]; intros [= <- _ _];
      destruct (v_file v); by eapply Hset.
  - assert (ash_inv s') as Hi' by (eapply inv_step; [done|by eapply ioctl_step]). split; [done|].
    intros b q H. destruct (ioctl_effect env s a cmd s' m' ret Hi Hmem Hc E b q) as [H1 H2]. cbn [fst snd] in *.
    destruct H as [[HLb Hn]|H]; [destruct (H1 (HL b q HLb)); tauto|tauto].
  - assert (ash_inv s') as Hi' by (eapply inv_step; [done|by eapply StShrink]). split; [done|].
    intros b q H. cbn [fst snd] in *. apply (shrink_effect s nr fs s' ret Hi E). naive_solver.
Qed.

(** ** An example: a three-page area, its first two pages unpinned, then purged *)

Definition ex_umem : umem :=
  Umem (list_to_map (zip [0; 1; 2; 3; 4; 5; 6; 7; 8; 9; 10; 11; 12; 13; 14; 15]
    (le_bytes 4 0 ++ le_bytes 4 8192 ++ le_bytes 4 4096 ++ le_bytes 4 0))) 4096.
Definition ex_env : ioctl_env := IoctlEnv true ex_umem false true (fun _ => 0).
Definition state_of {A B} (d : A) (o : option (A * B)) : A := from_option fst d o.
Definition ex_open : ashmem := (ashmem_open true ashmem_init_state 0 0).1.
Definition ex_sized : ashmem := (state_of (ex_open, ex_umem) (ashmem_ioctl ex_env ex_open 0 (SetSize 12288))).1.
Definition ex_mapped : ashmem :=
  (state_of (ex_sized, Vma 0 0 None) (ashmem_mmap ex_sized 0 (Vma 65536 3 None) (inr 7%nat))).1.
Definition ex_unpinned : ashmem :=
  (state_of (ex_mapped, ex_umem) (ashmem_ioctl ex_env ex_mapped 0 (PinUnpin ASHMEM_UNPIN 0))).1.
Definition ex_purged : ashmem := state_of ex_unpinned (ashmem_shrink ex_unpinned 1 true).

Lemma ex_bytes : bytes_ok ex_umem.
Proof.
  intros p b Hb. apply elem_of_list_to_map_2, list_elem_of_In in Hb. vm_compute in Hb.
  repeat (destruct Hb as [[= <- <-]|Hb]; [unfold is_byte; lia|]). done.
Qed.

Lemma ex_arg : pin_arg ex_umem 0 = (0, 8192) /\ pin_arg ex_umem 8 = (4096, 0).
Proof. by vm_compute. Qed.

Lemma ex_ioctl s cmd c : cmd = SetSize 12288 \/ cmd = PinUnpin c 0 -> ioctl_ok ex_env s 0 cmd.
Proof.
  intros H. split; [apply ex_bytes|]. destruct H as [-> | ->]; [done|]. intros x _.
  cbn. rewrite (proj1 ex_arg). unfold empty_request. cbn. lia.
Qed.

Definition nothing_lost : lost := fun _ _ => False.

Lemma ex_run_unpinned : exists L, rtc run_step (ashmem_init_state, nothing_lost) (ex_unpinned, L).
Proof.
  eexists. eapply rtc_l; [by apply (RunOpen true ashmem_init_state _ 0 0)|].
  eapply rtc_l; [|eapply rtc_l; [|eapply rtc_l; [|apply rtc_refl]]].
  - eapply (RunIoctl ex_env ex_open _ 0 (SetSize 12288)); [done|by eapply (ex_ioctl _ _ ASHMEM_PIN); left|].
    vm_compute. reflexivity.
  - eapply (RunMmap ex_sized _ 0 (Vma 65536 3 None) (inr 7%nat)); [|vm_compute; reflexivity].
    assert (areas ex_sized = {[0%nat := Area empty_name [] None 12288 0 PROT_MASK]}) as E by (by vm_compute).
    intros f b y _. rewrite E. by intros [_ <-]%lookup_singleton_Some.
  - eapply (RunIoctl ex_env ex_mapped _ 0 (PinUnpin ASHMEM_UNPIN 0)); [done|by eapply ex_ioctl; right|].
    vm_compute. reflexivity.
Qed.

Lemma ex_run_purged : exists L, rtc run_step (ashmem_init_state, nothing_lost) (ex_purged, L) /\ L 0%nat 1.
Proof.
  destruct ex_run_unpinned as [L HL]. eexists. split.
  - eapply rtc_r; [exact HL|]. eapply (RunShrink ex_unpinned L 1 true). vm_compute. reflexivity.
  - right. eexists _, 7%nat, 0, 8191. split_and!; [vm_compute; reflexivity|done| |done|done].
    vm_compute. apply list_elem_of_here.
Qed.

Lemma run_inv c c' : run_ok c -> rtc run_step c c' -> run_ok c'.
Proof. intros H. induction 1 as [|c c1 c2 Hst _ IH]; [done|]. by eapply IH, run_step_ok. Qed.

Lemma run_init : run_ok (ashmem_init_state, nothing_lost).
Proof. split; [apply inv_init|done]. Qed.

Lemma ex_unpinned_inv : ash_inv ex_unpinned.
Proof. destruct ex_run_unpinned as [L HL]. by apply (run_inv _ _ run_init HL). Qed.

Lemma ex_purged_inv : ash_inv ex_purged.
Proof. destruct ex_run_purged as (L & HL & _). by apply (run_inv _ _ run_init HL). Qed.

Lemma ex_request s p st en :
  areas s !! 0%nat = areas ex_unpinned !! 0%nat -> (p, st, en) = (0, 0, 1) \/ (p, st, en) = (8, 1, 2) ->
  exists x, request ex_umem s 0 p x st en.
Proof.
  intros Ha Hp. destruct ex_arg as [E1 E2].
  eexists. split.
  - rewrite Ha. vm_compute. reflexivity.
  - by eexists.
  - apply ex_bytes.
  - destruct Hp as [[= -> -> ->]|[= -> -> ->]]; by vm_compute.
  - destruct Hp as [[= -> -> ->]|[= -> -> ->]]; rewrite ?E1, ?E2; by vm_compute.
  - destruct Hp as [[= -> -> ->]|[= -> -> ->]]; rewrite ?E1, ?E2; unfold empty_request; cbn; [lia|].
    by intros [_ H]; vm_compute in H.
Qed.

(** ** Claims *)

Lemma step_inv s s' : ash_inv s -> rtc (ash_step false) s s' -> ash_inv s'.
Proof. intros H. induction 1 as [|s s1 s2 Hst _ IH]; [done|]. by eapply IH, inv_step. Qed.

(** C23: In every state that opens, closes, mappings, ioctls and shrinker calls
    can produce, with or without memory for new ranges, but without a request
    for no page at all (all the rest from the end of an area on, which the code
    does not refuse: [empty_requests_pile_up]), each range is on its area's list
    once and on the LRU list exactly when it was not purged, [lru_count] is the
    number of pages on the LRU list, every area's list is sorted, disjoint and
    inside the area; and no shrinker call and no ioctl other than such a request
    follows a null file pointer or a stale range. *)
Theorem ashmem_invariant s :
  rtc (ash_step false) ashmem_init_state s ->
  ash_inv s /\
  (forall nr gfp_fs, is_Some (ashmem_shrink s nr gfp_fs)) /\
  (forall env a x cmd, areas s !! a = Some x -> bytes_ok (e_umem env) -> empty_call env s a cmd = false ->
     is_Some (ashmem_ioctl env s a cmd)).
Proof.
  intros H. assert (ash_inv s) as Hi by (eapply step_inv; [apply inv_init|done]). split_and!; [done|..].
  - intros nr fs. destruct (shrink_total s nr fs Hi) as (s' & ret & -> & _). done.
  - intros env a x cmd Hx Hm Hc. by destruct (ioctl_total env s a cmd x Hi Hx (empty_call_ok _ _ _ _ Hm Hc)) as (s' & m' & ret & -> & _).
Qed.

(** An area of three pages: the first two are unpinned and then purged, and all
    are unpinned again. *)
Definition ex_again : ashmem :=
  (state_of (ex_purged, ex_umem) (ashmem_ioctl ex_env ex_purged 0 (PinUnpin ASHMEM_UNPIN 8))).1.

Lemma ex_steps : rtc (ash_step false) ashmem_init_state ex_again.
Proof.
  assert (forall s cmd s' m' ret, ashmem_ioctl ex_env s 0 cmd = Some (s', m', ret) -> empty_call ex_env s 0 cmd = false ->
    ash_step false s s') as Hio by (intros s cmd s' m' ret E He; rewrite <- He; by eapply StIoctl; [apply ex_bytes|]).
  eapply rtc_l; [by apply (StOpen true ashmem_init_state 0 0)|].
  eapply rtc_l; [by apply (Hio ex_open (SetSize 12288) ex_sized ex_umem 0); vm_compute|]. eapply rtc_l.
  { eapply (StMmap ex_sized 0 (Vma 65536 3 None) (inr 7%nat) ex_mapped); [|vm_compute; reflexivity].
    assert (areas ex_sized = {[0%nat := Area empty_name [] None 12288 0 PROT_MASK]}) as E by (by vm_compute).
    intros f b y _. rewrite E. by intros [_ <-]%lookup_singleton_Some. }
  eapply rtc_l; [by apply (Hio ex_mapped (PinUnpin ASHMEM_UNPIN 0) ex_unpinned ex_umem 0); vm_compute|].
  eapply rtc_l; [by eapply (StShrink ex_unpinned 1 true ex_purged); vm_compute|].
  eapply rtc_l; [by apply (Hio ex_purged (PinUnpin ASHMEM_UNPIN 8) ex_again ex_umem 0); vm_compute|]. apply rtc_refl.
Qed.

Lemma ashmem_invariant_witness :
  rl ex_again 0 = [Range 0 0 2 1] /\ ash_inv ex_again /\ is_Some (ashmem_shrink ex_again 5 true) /\
  is_Some (ashmem_ioctl ex_env ex_again 0 (PinUnpin ASHMEM_PIN 0)).
Proof.
  split; [vm_compute; reflexivity|]. destruct (ashmem_invariant ex_again ex_steps) as (H1 & H2 & H3). split; [exact H1|]. split; [apply H2|].
  eapply H3; [vm_compute; reflexivity|apply ex_bytes|vm_compute; reflexivity].
Defined.

(** A pin request for the pages [st] to [en] of an area, those at the
    requested offset, pins exactly these pages: the other pages keep their
    state, those of other areas too.  It returns [ASHMEM_WAS_PURGED] exactly
    when a page of the request was purged, else [ASHMEM_NOT_PURGED]. *)
Theorem ashmem_pin_correct m s a p x st en :
  ash_inv s -> request m s a p x st en ->
  exists s' ret, ashmem_pin_unpin true m s a ASHMEM_PIN p = Some (s', ret) /\
    st * PAGE_SIZE = (pin_arg m p).1 /\
    (forall q, covers (rl s' a) q <-> covers (rl s a) q /\ ~ (st <= q <= en)) /\
    (forall q, marked (rl s' a) q <-> marked (rl s a) q /\ ~ (st <= q <= en)) /\
    (ret = ASHMEM_WAS_PURGED \/ ret = ASHMEM_NOT_PURGED) /\
    (ret = ASHMEM_WAS_PURGED <-> exists q, st <= q <= en /\ marked (rl s a) q) /\
    (forall b, b <> a -> rl s' b = rl s b) /\ truncated s' = truncated s.
Proof.
  intros Hi Hrq. destruct (request_pages _ _ _ _ _ _ _ Hi Hrq) as (Hse & _ & Hst).
  rewrite (request_call true _ _ _ _ _ _ _ _ Hrq).
  pose proof (pin_effect s a st en Hi ltac:(lia)) as H. destruct (ashmem_pin true s a st en) as [s' ret].
  destruct H as (_ & ? & ? & ? & ? & ? & _ & ?). exists s', ret. by split_and!.
Qed.

Lemma ashmem_pin_correct_witness :
  exists s' ret, ashmem_pin_unpin true ex_umem ex_purged 0 ASHMEM_PIN 8 = Some (s', ret) /\
    (ret = ASHMEM_WAS_PURGED <-> exists q, 1 <= q <= 2 /\ marked (rl ex_purged 0) q).
Proof.
  destruct (ex_request ex_purged 8 1 2) as [x Hx]; [vm_compute; reflexivity|right; reflexivity|].
  destruct (ashmem_pin_correct ex_umem ex_purged 0 8 x 1 2 ex_purged_inv Hx)
    as (s' & ret & H1 & _ & _ & _ & _ & H2 & _).
  exists s', ret. split; [exact H1|exact H2].
Defined.

(** An unpin request for the pages [st] to [en] terminates after at most
    as many restarts as the area has ranges and returns 0; afterwards exactly
    the pages that were unpinned before and those of the request are unpinned.
    A purged page stays marked, and when no page of the request was purged no
    other page gets marked. *)
Theorem ashmem_unpin_correct m s a p x st en :
  ash_inv s -> request m s a p x st en ->
  exists s', ashmem_pin_unpin true m s a ASHMEM_UNPIN p = Some (s', 0) /\
    (forall q, covers (rl s' a) q <-> covers (rl s a) q \/ st <= q <= en) /\
    (forall q, marked (rl s a) q -> marked (rl s' a) q) /\
    ((forall q, st <= q <= en -> ~ marked (rl s a) q) ->
      forall q, marked (rl s' a) q <-> marked (rl s a) q) /\
    (forall b, b <> a -> rl s' b = rl s b) /\ truncated s' = truncated s.
Proof.
  intros Hi Hrq. destruct (request_pages _ _ _ _ _ _ _ Hi Hrq) as (Hse & Hen & _).
  rewrite (request_call true _ _ _ _ _ _ _ _ Hrq).
  destruct (ashmem_unpin_spec true s a x st en Hi) as (s' & ret & -> & _ & Hp); [apply Hrq|apply Hrq|done..|].
  rewrite (up_ret _ _ _ _ _ _ _ _ Hp eq_refl). exists s'. split_and!; [done| | | |apply Hp..].
  - intros q. split; [apply Hp|by apply Hp].
  - intros q. by apply Hp.
  - intros Hno q. split; [by apply Hp|by apply Hp].
Qed.

Lemma ashmem_unpin_correct_witness :
  exists s', ashmem_pin_unpin true ex_umem ex_unpinned 0 ASHMEM_UNPIN 8 = Some (s', 0) /\
    (forall q, covers (rl s' 0) q <-> covers (rl ex_unpinned 0) q \/ 1 <= q <= 2).
Proof.
  destruct (ex_request ex_unpinned 8 1 2) as [x Hx]; [reflexivity|right; reflexivity|].
  destruct (ashmem_unpin_correct ex_umem ex_unpinned 0 8 x 1 2 ex_unpinned_inv Hx) as (s' & H1 & H2 & _).
  exists s'. split; [exact H1|exact H2].
Defined.

(** A status request changes nothing and returns [ASHMEM_IS_UNPINNED] when
    a page of the request is unpinned, [ASHMEM_IS_PINNED] when none is. *)
Theorem get_pin_status_correct mem m s a p x st en :
  ash_inv s -> request m s a p x st en ->
  exists ret, ashmem_pin_unpin mem m s a ASHMEM_GET_PIN_STATUS p = Some (s, ret) /\
    (ret = ASHMEM_IS_UNPINNED /\ (exists q, st <= q <= en /\ covers (rl s a) q) \/
     ret = ASHMEM_IS_PINNED /\ (forall q, st <= q <= en -> ~ covers (rl s a) q)).
Proof.
  intros Hi Hrq. destruct (request_pages _ _ _ _ _ _ _ Hi Hrq) as (Hse & _).
  rewrite (request_call mem _ _ _ _ _ _ _ _ Hrq). eexists. split; [done|].
  apply (pin_status_spec s st en (area_unpinned s a)); [lia|apply (ai_desc _ Hi)|].
  apply unpinned_present, (ai_ok _ Hi).
Qed.

Lemma get_pin_status_correct_witness :
  exists ret, ashmem_pin_unpin false ex_umem ex_unpinned 0 ASHMEM_GET_PIN_STATUS 8 = Some (ex_unpinned, ret) /\
    (ret = ASHMEM_IS_UNPINNED \/ forall q, 1 <= q <= 2 -> ~ covers (rl ex_unpinned 0) q).
Proof.
  destruct (ex_request ex_unpinned 8 1 2) as [x Hx]; [reflexivity|right; reflexivity|].
  destruct (get_pin_status_correct false ex_umem ex_unpinned 0 8 x 1 2 ex_unpinned_inv Hx)
    as (ret & H1 & [[H2 _]|[_ H2]]); exists ret; (split; [exact H1|]); [left|right]; exact H2.
Defined.

(** A shrinker call that may free [nr] pages purges the oldest ranges [V]
    of the LRU list and no others: it stops as soon as they have at least [nr]
    pages or none is left.  Exactly their pages are truncated and marked
    purged; no page changes between pinned and unpinned. *)
Theorem ashmem_shrink_correct s nr :
  ash_inv s -> 0 < nr < 2 ^ 31 ->
  exists s' ret V, ashmem_shrink s nr true = Some (s', ret) /\
    ashmem_lru_list s = V ++ ashmem_lru_list s' /\ enough s V (ashmem_lru_list s') nr /\
    (forall a q, truncated_in s s' a q <->
       exists id r, id ∈ V /\ ranges s !! id = Some r /\ r_asma r = a /\ holds_page r q) /\
    (forall a q, covers (rl s' a) q <-> covers (rl s a) q) /\
    (forall a q, marked (rl s' a) q <-> marked (rl s a) q \/ truncated_in s s' a q).
Proof.
  intros Hi Hnr. unfold ashmem_shrink. destruct (Z.eqb_spec nr 0) as [E|_]; [lia|]. cbn [andb negb].
  destruct (shrink_loop_spec (ashmem_lru_list s) s nr (ai_ok _ Hi) eq_refl) as (s' & V & -> & Hp & Hen).
  eexists s', _, V. split_and!; [done|apply Hp| |..].
  - apply Hen; [done|]. intros id _. unfold size_of. destruct (ranges s !! id) as [r|] eqn:Hr; [|lia].
    destruct (range_bounds s id r Hi Hr) as (_ & ? & ?). unfold range_size, PAGE_SIZE in *.
    rewrite u32_small; lia.
  - intros a q. by apply shrink_truncated.
  - intros a q. by apply (shrink_marks s s' V a q Hi Hp).
  - intros a q. by apply (shrink_marks s s' V a q Hi Hp).
Qed.

Lemma ashmem_shrink_correct_witness :
  exists s' ret V, ashmem_shrink ex_unpinned 1 true = Some (s', ret) /\
    enough ex_unpinned V (ashmem_lru_list s') 1.
Proof.
  destruct (ashmem_shrink_correct ex_unpinned 1 ex_unpinned_inv ltac:(lia)) as (s' & ret & V & H1 & _ & H2 & _).
  exists s', ret, V. split; [exact H1|exact H2].
Defined.

(** C1: No pin misses a purge.  Along any run of the entry points in which
    ranges can be allocated and no request is for no page at all (all the rest
    from the end of an area on), if the contents of a page of an area were
    truncated since the page was last pinned, a pin request that includes the
    page returns [ASHMEM_WAS_PURGED], whether or not this request itself finds
    memory. *)
Theorem pin_never_misses_purge s L mem m a p x st en :
  rtc run_step (ashmem_init_state, nothing_lost) (s, L) ->
  request m s a p x st en -> (exists q, st <= q <= en /\ L a q) ->
  exists s', ashmem_pin_unpin mem m s a ASHMEM_PIN p = Some (s', ASHMEM_WAS_PURGED).
Proof.
  intros Hrun Hrq (q & Hq & HL). destruct (run_inv _ _ run_init Hrun) as [Hi Hm]. cbn [fst snd] in *.
  destruct (request_pages _ _ _ _ _ _ _ Hi Hrq) as (Hse & _).
  rewrite (request_call mem _ _ _ _ _ _ _ _ Hrq).
  pose proof (ashmem_pin_spec mem s a st en Hi ltac:(lia)) as H. destruct (ashmem_pin mem s a st en) as [s' ret].
  destruct H as (_ & _ & _ & -> & _). exists s'. do 2 f_equal.
  destruct (pin_list_ret mem (rl s a) st en) as [_ H]; [lia|apply (ai_desc _ Hi)|by intros r; apply inv_purged|].
  apply H. eauto.
Qed.

Lemma pin_never_misses_purge_witness :
  exists s', ashmem_pin_unpin false ex_umem ex_purged 0 ASHMEM_PIN 8 = Some (s', ASHMEM_WAS_PURGED).
Proof.
  destruct ex_run_purged as (L & HL & H1).
  destruct (ex_request ex_purged 8 1 2) as [x Hx]; [vm_compute; reflexivity|right; reflexivity|].
  apply (pin_never_misses_purge ex_purged L false ex_umem 0 8 x 1 2 HL Hx).
  exists 1. split; [split; discriminate|exact H1].
Defined.

(** ** What happens without memory, and at the end of an area *)

(** Requests for the whole area, its second page, its third page, and for the
    nothing that is left behind its last page. *)
Definition ex2_umem : umem :=
  Umem (list_to_map (zip (seqZ 0 32)
    (le_bytes 4 0 ++ le_bytes 4 0 ++ le_bytes 4 4096 ++ le_bytes 4 4096 ++
     le_bytes 4 8192 ++ le_bytes 4 4096 ++ le_bytes 4 12288 ++ le_bytes 4 0))) 4096.
Definition ex2_call (mem : bool) s (c : pin_cmd) (p : Z) : ashmem * Z :=
  from_option id (s, -1) (ashmem_pin_unpin mem ex2_umem s 0 c p).
Definition ex2_purged : ashmem :=
  state_of ex_mapped (ashmem_shrink (ex2_call true ex_mapped ASHMEM_UNPIN 0).1 1 true).

(** All three pages were purged.  A pin of the second page that finds no
    memory for the range behind the hole silently pins the third page too: a
    later pin of it reports that it was not purged. *)
Example pin_hole_without_memory :
  let s1 := (ex2_call false ex2_purged ASHMEM_PIN 8).1 in
  (ex2_call true ex2_purged ASHMEM_PIN 16).2 = ASHMEM_WAS_PURGED /\
  (ex2_call true s1 ASHMEM_GET_PIN_STATUS 16).2 = ASHMEM_IS_PINNED /\
  (ex2_call true s1 ASHMEM_PIN 16).2 = ASHMEM_NOT_PURGED.
Proof. by vm_compute. Qed.

(** Unpinning "the rest" from the end of an area is accepted and allocates an
    empty range each time. *)
Example empty_requests_pile_up :
  let s1 := (ex2_call true ex_mapped ASHMEM_UNPIN 24).1 in
  let s2 := (ex2_call true s1 ASHMEM_UNPIN 24).1 in
  rl s2 0 = [Range 0 3 2 0; Range 0 3 2 0].
Proof. by vm_compute. Qed.

(** Unpinning a page that was never purged next to purged ones in one request
    marks it purged: it is not put on the LRU list again. *)
Example merged_unpin_marks_new_pages :
  let s1 := (ex2_call true ex2_purged ASHMEM_PIN 16).1 in
  let s2 := (ex2_call true s1 ASHMEM_UNPIN 0).1 in
  rl s1 0 = [Range 0 0 1 1] /\ rl s2 0 = [Range 0 0 2 1] /\ ashmem_lru_list s2 = [].
Proof. by vm_compute. Qed.
