(* ===== verification/Pmem.v ===== *)
(** * The physical memory allocators (drivers/misc/pmem.c)

    A pmem device hands out parts of one physical region.  Four allocators
    serve it; each is modelled on its own state.  Accesses to the bitmaps are
    checked: [None] stands for an access outside of the array (or, in a loop,
    for missing fuel).  An [int] result of -1 is a failed allocation. *)

From stdpp Require Import base numbers list gmap.
From S2P Require Import Prelude.

Open Scope Z_scope.

Definition PMEM_MAX_ORDER : Z := 128.
Definition PMEM_INITIAL_NUM_BITMAP_ALLOCATIONS : Z := 64.
Definition SYSTEM_ALLOC_RETRY : nat := 10.
Definition BITS_PER_LONG : Z := 32.
Definition PMEM_32BIT_WORD_ORDER : Z := 5.
Definition PMEM_BITS_PER_WORD_MASK : Z := BITS_PER_LONG - 1.


(** The region of a device; [num_entries] quanta of [quantum] bytes each. *)
Record pmem_info := PmemInfo { pm_base : Z; pm_size : Z; num_entries : Z; quantum : Z; pm_cached : bool }.

Record pmem_freespace := Freespace { fs_total : Z; fs_largest : Z }.

(** Checked access to an array. *)
Definition array_get {A} (b : list A) (i : Z) : option A := if i <? 0 then None else b !! Z.to_nat i.
Definition array_upd {A} (b : list A) (i : Z) (f : A -> A) : option (list A) :=
  x ← array_get b i; Some (<[Z.to_nat i := f x]> b).

(** ** All or nothing *)

Definition pmem_allocator_all_or_nothing (p : pmem_info) (allocated : Z) (len : Z) : Z * Z :=
  if (pm_size p <? len) || negb (allocated =? 0) then (allocated, -1) else (1, s32 len).
Definition pmem_free_all_or_nothing (allocated : Z) : Z * Z := (0, 0).
Definition pmem_free_space_all_or_nothing (p : pmem_info) (allocated : Z) : pmem_freespace :=
  let total := if allocated =? 0 then pm_size p else 0 in Freespace total total.
Definition pmem_start_addr_all_or_nothing (p : pmem_info) : Z := u32 (0 * quantum p + pm_base p).
Definition pmem_len_all_or_nothing (index : Z) : Z := u32 index.

(** ** Buddy best fit *)

Record pmem_bits := Bits { allocated : bool; order : Z }.

Definition set_order (o : Z) (b : pmem_bits) : pmem_bits := Bits (allocated b) (o mod 2 ^ 7).
Definition set_allocated (x : bool) (b : pmem_bits) : pmem_bits := Bits x (order b).

Definition PMEM_IS_FREE_BUDDY (bm : list pmem_bits) (i : Z) : option bool :=
  b ← array_get bm i; Some (negb (allocated b)).
Definition PMEM_BUDDY_ORDER (bm : list pmem_bits) (i : Z) : option Z := b ← array_get bm i; Some (order b).
Definition PMEM_BUDDY_INDEX (bm : list pmem_bits) (i : Z) : option Z :=
  o ← PMEM_BUDDY_ORDER bm i; Some (Z.lxor i (s32 (Z.shiftl 1 o))).
Definition PMEM_BUDDY_NEXT_INDEX (bm : list pmem_bits) (i : Z) : option Z :=
  o ← PMEM_BUDDY_ORDER bm i; Some (s32 (i + s32 (Z.shiftl 1 o))).
Definition PMEM_BUDDY_LEN (p : pmem_info) (bm : list pmem_bits) (i : Z) : option Z :=
  o ← PMEM_BUDDY_ORDER bm i; Some (u32 (s32 (Z.shiftl 1 o) * quantum p)).

(** The loop that finds the order of a length in quanta. *)
Fixpoint order_loop (fuel : nat) (len i : Z) : Z :=
  match fuel with
  | O => i
  | S fuel' => if Z.shiftr len i =? 0 then i else order_loop fuel' len (i + 1)
  end.
Definition pmem_order (p : pmem_info) (len : Z) : Z :=
  order_loop 32 (u32 (u32 (len + quantum p - 1) / quantum p - 1)) 0.

(** The search for a slot of the order, or the smallest larger one. *)
Fixpoint buddy_scan (fuel : nat) (n : Z) (bm : list pmem_bits) (o curr best_fit : Z) : option Z :=
  if curr <? n then
    match fuel with
    | O => None
    | S fuel' =>
        is_free ← PMEM_IS_FREE_BUDDY bm curr;
        oc ← PMEM_BUDDY_ORDER bm curr;
        next ← PMEM_BUDDY_NEXT_INDEX bm curr;
        if is_free : bool then
          if oc =? u8 o then Some curr
          else
            better ← (if u8 o <? oc then
                        if best_fit <? 0 then Some true
                        else ob ← PMEM_BUDDY_ORDER bm best_fit; Some (oc <? ob)
                      else Some false);
            buddy_scan fuel' n bm o next (if better : bool then curr else best_fit)
        else buddy_scan fuel' n bm o next best_fit
    end
  else Some best_fit.

(** Splitting the slot until it has the order. *)
Fixpoint buddy_split (fuel : nat) (bm : list pmem_bits) (o best_fit : Z) : option (list pmem_bits) :=
  ob ← PMEM_BUDDY_ORDER bm best_fit;
  if u8 o <? ob then
    match fuel with
    | O => None
    | S fuel' =>
        bm1 ← array_upd bm best_fit (set_order (ob - 1));
        buddy ← PMEM_BUDDY_INDEX bm1 best_fit;
        o1 ← PMEM_BUDDY_ORDER bm1 best_fit;
        bm2 ← array_upd bm1 buddy (set_order o1);
        buddy_split fuel' bm2 o best_fit
    end
  else Some bm.

(** A scan visits at most [num_entries] slots, a 7-bit order is split at most
    127 times. *)
Definition pmem_allocator_buddy_bestfit (p : pmem_info) (bm : list pmem_bits) (len : Z)
    : option (list pmem_bits * Z) :=
  let o := pmem_order p len in
  if PMEM_MAX_ORDER <? o then Some (bm, -1)
  else
    best_fit ← buddy_scan (Z.to_nat (num_entries p)) (num_entries p) bm o 0 (-1);
    if best_fit <? 0 then Some (bm, best_fit)
    else
      bm1 ← buddy_split 128 bm o best_fit;
      bm2 ← array_upd bm1 best_fit (set_allocated true);
      Some (bm2, best_fit).

(** Merging with the buddy while it is free and of the same order. *)
Fixpoint buddy_merge (fuel : nat) (n : Z) (bm : list pmem_bits) (curr : Z) : option (list pmem_bits) :=
  match fuel with
  | O => None
  | S fuel' =>
      buddy ← PMEM_BUDDY_INDEX bm curr;
      merge ← (if buddy <? n then
                 is_free ← PMEM_IS_FREE_BUDDY bm buddy;
                 ob ← PMEM_BUDDY_ORDER bm buddy;
                 oc ← PMEM_BUDDY_ORDER bm curr;
                 Some (is_free && (ob =? oc))
               else Some false);
      if merge : bool then
        ob ← PMEM_BUDDY_ORDER bm buddy;
        bm1 ← array_upd bm buddy (set_order (ob + 1));
        oc ← PMEM_BUDDY_ORDER bm1 curr;
        bm2 ← array_upd bm1 curr (set_order (oc + 1));
        let curr' := Z.min buddy curr in
        if curr' <? n then buddy_merge fuel' n bm2 curr' else Some bm2
      else Some bm
  end.

Definition pmem_free_buddy_bestfit (p : pmem_info) (bm : list pmem_bits) (index : Z)
    : option (list pmem_bits * Z) :=
  bm1 ← array_upd bm index (set_allocated false);
  bm2 ← buddy_merge 128 (num_entries p) bm1 index;
  Some (bm2, 0).

Fixpoint buddy_free_loop (fuel : nat) (p : pmem_info) (bm : list pmem_bits) (curr : Z) (fs : pmem_freespace)
    : option pmem_freespace :=
  if curr <? num_entries p then
    match fuel with
    | O => None
    | S fuel' =>
        is_free ← PMEM_IS_FREE_BUDDY bm curr;
        next ← PMEM_BUDDY_NEXT_INDEX bm curr;
        sz ← PMEM_BUDDY_LEN p bm curr;
        buddy_free_loop fuel' p bm next
          (if is_free : bool
           then Freespace (u32 (fs_total fs + sz)) (if fs_largest fs <? sz then sz else fs_largest fs)
           else fs)
    end
  else Some fs.

Definition pmem_free_space_buddy_bestfit (p : pmem_info) (bm : list pmem_bits) : option pmem_freespace :=
  buddy_free_loop (Z.to_nat (num_entries p)) p bm 0 (Freespace 0 0).

Definition pmem_start_addr_buddy_bestfit (p : pmem_info) (index : Z) : Z := u32 (index * quantum p + pm_base p).
Definition pmem_len_buddy_bestfit (p : pmem_info) (bm : list pmem_bits) (index : Z) : option Z :=
  PMEM_BUDDY_LEN p bm index.

(** The orders that [pmem_setup] enters: the binary digits of [num_entries]. *)
Fixpoint buddy_setup_loop (i : nat) (n : Z) (bm : list pmem_bits) (index : Z) : option (list pmem_bits) :=
  match i with
  | O => Some bm
  | S i' =>
      if negb (Z.land n (Z.shiftl 1 (Z.of_nat i')) =? 0) then
        bm1 ← array_upd bm index (set_order (Z.of_nat i'));
        next ← PMEM_BUDDY_NEXT_INDEX bm1 index;
        buddy_setup_loop i' n bm1 next
      else buddy_setup_loop i' n bm index
  end.
Definition buddy_setup (p : pmem_info) : option (list pmem_bits) :=
  buddy_setup_loop 32 (num_entries p) (replicate (Z.to_nat (num_entries p)) (Bits false 0)) 0.

(** ** Bitmap *)

(** One allocation in the table: a [short] and an [unsigned short]; bit -1 is
    an unused entry. *)
Record bitm_entry := Entry { bit : Z; quanta : Z }.
Definition mk_entry (b q : Z) : bitm_entry := Entry (s16 b) (u16 q).

Record bitmap_t := Bitmap {
  bitmap_free : Z;                     (* number of zero bits *)
  bitmap : list Z;                     (* 32-bit words *)
  bitm_alloc : option (list bitm_entry) }.     (* its length is bitmap_allocs *)

Definition start_mask (bit_start : Z) : Z :=
  u32 (Z.shiftl (2 ^ 32 - 1) (Z.land bit_start PMEM_BITS_PER_WORD_MASK)).
Definition end_mask (bit_end : Z) : Z :=
  Z.shiftr (2 ^ 32 - 1) (Z.land (BITS_PER_LONG - bit_end) PMEM_BITS_PER_WORD_MASK).
Definition compute_total_words (bit_end word_index : Z) : Z :=
  Z.shiftr (bit_end + BITS_PER_LONG - 1) PMEM_32BIT_WORD_ORDER - word_index.

(** [fls] of a 32-bit word. *)
Definition fls (x : Z) : Z := if x =? 0 then 0 else Z.log2 x + 1.

(** [memset] of [n] words. *)
Definition memset_words (b : list Z) (i n v : Z) : option (list Z) :=
  if (i <? 0) || (zlen b <? i + n) then None else Some (splice b i (replicate (Z.to_nat n) v)).

Definition bitmap_bits_set_all (bitp : list Z) (bit_start bit_end : Z) : option (list Z) :=
  let word_index := Z.shiftr bit_start PMEM_32BIT_WORD_ORDER in
  let total_words := compute_total_words bit_end word_index in
  if 0 <? total_words then
    if total_words =? 1 then
      array_upd bitp word_index (fun w => Z.lor w (Z.land (start_mask bit_start) (end_mask bit_end)))
    else
      b1 ← array_upd bitp word_index (fun w => Z.lor w (start_mask bit_start));
      let wi := word_index + 1 in
      if 2 <? total_words then
        b2 ← memset_words b1 wi (total_words - 2) (2 ^ 32 - 1);
        array_upd b2 (wi + (total_words - 2)) (fun w => Z.lor w (end_mask bit_end))
      else array_upd b1 wi (fun w => Z.lor w (end_mask bit_end))
  else Some bitp.

Definition bitmap_bits_clear_all (bitp : list Z) (bit_start bit_end : Z) : option (list Z) :=
  let word_index := Z.shiftr bit_start PMEM_32BIT_WORD_ORDER in
  let total_words := compute_total_words bit_end word_index in
  if 0 <? total_words then
    if total_words =? 1 then
      array_upd bitp word_index (fun w => Z.ldiff w (Z.land (start_mask bit_start) (end_mask bit_end)))
    else
      b1 ← array_upd bitp word_index (fun w => Z.ldiff w (start_mask bit_start));
      let wi := word_index + 1 in
      if 2 <? total_words then
        b2 ← memset_words b1 wi (total_words - 2) 0;
        array_upd b2 (wi + (total_words - 2)) (fun w => Z.ldiff w (end_mask bit_end))
      else array_upd b1 wi (fun w => Z.ldiff w (end_mask bit_end))
  else Some bitp.

(** The loop over the words between the first and the last: [last_bit] and
    [word_index] where it stops. *)
Fixpoint middle_words (n : nat) (bitp : list Z) (word_index : Z) : option (Z * Z) :=
  match n with
  | O => Some (0, word_index)
  | S n' =>
      w ← array_get bitp word_index;
      let last_bit := fls w in
      if negb (last_bit =? 0) then Some (last_bit, word_index) else middle_words n' bitp (word_index + 1)
  end.

(** The test of one candidate: [last_bit] is 0 when all its bits are clear. *)
Definition test_run (bitp : list Z) (bit_start bit_end : Z) : option (Z * Z) :=
  let word_index := Z.shiftr bit_start PMEM_32BIT_WORD_ORDER in
  let total_words := compute_total_words bit_end word_index in
  if total_words =? 1 then
    w ← array_get bitp word_index;
    Some (fls (Z.land w (Z.land (start_mask bit_start) (end_mask bit_end))), word_index)
  else
    let end_word := word_index + (total_words - 1) in
    w ← array_get bitp word_index;
    let last_bit := fls (Z.land w (start_mask bit_start)) in
    if negb (last_bit =? 0) then Some (last_bit, word_index)
    else
      '(last_bit, wi) ← middle_words (Z.to_nat (end_word - (word_index + 1))) bitp (word_index + 1);
      if negb (last_bit =? 0) then Some (last_bit, wi)
      else
        w ← array_get bitp wi;
        Some (fls (Z.land w (end_mask bit_end)), wi).

Fixpoint contiguous_loop (fuel : nat) (bitp : list Z) (num_bits_to_alloc total_bits spacing bit_start : Z)
    : option (list Z * Z) :=
  match fuel with
  | O => None
  | S fuel' =>
      let bit_end := s32 (bit_start + num_bits_to_alloc) in
      if total_bits <? bit_end then Some (bitp, -1)
      else
        let word_index := Z.shiftr bit_start PMEM_32BIT_WORD_ORDER in
        if compute_total_words bit_end word_index <=? 0 then Some (bitp, -1)
        else
          '(last_bit, wi) ← test_run bitp bit_start bit_end;
          if negb (last_bit =? 0) then
            contiguous_loop fuel' bitp num_bits_to_alloc total_bits spacing
              (Z.land (s32 (last_bit + Z.shiftl wi PMEM_32BIT_WORD_ORDER + spacing - 1)) (Z.lnot (spacing - 1)))
          else
            bitp' ← bitmap_bits_set_all bitp bit_start bit_end;
            Some (bitp', bit_start)
  end.

(** Every candidate is above the one before: [total_bits] + 1 are enough. *)
Definition bitmap_allocate_contiguous (bitp : list Z) (num_bits_to_alloc total_bits spacing : Z)
    : option (list Z * Z) :=
  if num_bits_to_alloc <=? 0 then Some (bitp, -1)
  else contiguous_loop (S (Z.to_nat total_bits)) bitp num_bits_to_alloc total_bits spacing 0.

Definition paddr_from_bit (p : pmem_info) (bitnum : Z) : Z := u32 (pm_base p + quantum p * bitnum).
Definition bit_from_paddr (p : pmem_info) (paddr : Z) : Z := u32 (paddr - pm_base p) / quantum p.

Definition reserve_quanta (p : pmem_info) (st : bitmap_t) (quanta_needed align : Z) : option (bitmap_t * Z) :=
  if bitmap_free st <? quanta_needed then Some (st, -1)
  else
    let start_bit := s32 (bit_from_paddr p (Z.ldiff (u32 (pm_base p + align - 1)) (align - 1))) in
    if start_bit <=? -1 then Some (st, -1)
    else
      let spacing0 := s32 (align / quantum p) in
      let spacing := if 1 <? spacing0 then spacing0 else 1 in
      '(bitp, ret) ← bitmap_allocate_contiguous (bitmap st) (s32 quanta_needed)
                       (s32 (u32 (pm_size p + quantum p - 1) / quantum p)) spacing;
      Some (Bitmap (bitmap_free st) bitp (bitm_alloc st), ret).

(** The first unused entry of the table, or its length. *)
Fixpoint first_unused (t : list bitm_entry) : nat :=
  match t with
  | [] => O
  | e :: t' => if negb (bit e =? -1) then S (first_unused t') else O
  end.

(** The table doubled.  [junk] is what [krealloc] left in the new entries; the
    loop resets their [bit], but [quanta] only of the first one. *)
Definition grown_table (t : list bitm_entry) (junk : nat -> Z) : list bitm_entry :=
  t ++ imap (fun j _ => Entry (-1) (if decide (j = O) then 0 else u16 (junk j))) t.

Definition pmem_allocator_bitmap (p : pmem_info) (st : bitmap_t) (len align : Z) (mem : bool) (junk : nat -> Z)
    : option (bitmap_t * Z) :=
  match bitm_alloc st with
  | None => Some (st, -1)
  | Some t =>
      let quanta_needed := u32 (len + quantum p - 1) / quantum p in
      if bitmap_free st <? quanta_needed then Some (st, -1)
      else
        '(st1, bitnum) ← reserve_quanta p st quanta_needed align;
        if bitnum =? -1 then Some (st1, bitnum)
        else
          let i := first_unused t in
          let store t' :=
            Some (Bitmap (u32 (bitmap_free st1 - quanta_needed)) (bitmap st1)
                    (Some (<[i := mk_entry bitnum quanta_needed]> t')), bitnum) in
          if (i <? length t)%nat then store t
          else
            let new_bitmap_allocs := s32 (Z.shiftl (zlen t) 1) in
            if new_bitmap_allocs =? 0 then Some (st1, -1)
            else if num_entries p <? u32 new_bitmap_allocs then Some (st1, -1)
            else if negb mem then Some (st1, -1)
            else store (grown_table t junk)
  end.

(** The entry of [bitnum], and its index. *)
Definition find_entry (t : list bitm_entry) (bitnum : Z) : option (nat * bitm_entry) :=
  list_find (fun e => bit e = bitnum) t.

Definition pmem_free_bitmap (st : bitmap_t) (bitnum : Z) : option (bitmap_t * Z) :=
  match find_entry (default [] (bitm_alloc st)) bitnum with
  | Some (i, e) =>
      bitp ← bitmap_bits_clear_all (bitmap st) (bit e) (bit e + quanta e);
      Some (Bitmap (u32 (bitmap_free st + quanta e)) bitp
              (<[i := Entry (-1) 0]> <$> bitm_alloc st), 0)
  | None => Some (st, -1)
  end.

(** One search for the next allocation above [alloc_start]: the index of the
    allocation that starts there and the start of the next one. *)
Fixpoint next_alloc_loop (t : list bitm_entry) (j alloc_start alloc_idx next_alloc : Z) : Z * Z :=
  match t with
  | [] => (alloc_idx, next_alloc)
  | e :: t' =>
      if bit e =? -1 then next_alloc_loop t' (j + 1) alloc_start alloc_idx next_alloc
      else
        let alloc_idx := if alloc_start =? bit e then j else alloc_idx in
        if bit e <=? alloc_start then next_alloc_loop t' (j + 1) alloc_start alloc_idx next_alloc
        else next_alloc_loop t' (j + 1) alloc_start alloc_idx (if bit e <? next_alloc then bit e else next_alloc)
  end.

Fixpoint free_space_loop (i : nat) (p : pmem_info) (t : list bitm_entry) (alloc_start : Z) (fs : pmem_freespace)
    : option pmem_freespace :=
  match i with
  | O => Some fs
  | S i' =>
      let '(alloc_idx, next_alloc) := next_alloc_loop t 0 alloc_start 0 (s32 (num_entries p)) in
      e ← array_get t alloc_idx;
      let sz := u32 ((next_alloc - (alloc_start + quanta e)) * quantum p) in
      let fs' := Freespace (u32 (fs_total fs + sz)) (if fs_largest fs <? sz then sz else fs_largest fs) in
      if next_alloc =? s32 (num_entries p) then Some fs' else free_space_loop i' p t next_alloc fs'
  end.

Definition pmem_free_space_bitmap (p : pmem_info) (st : bitmap_t) : option pmem_freespace :=
  let t := default [] (bitm_alloc st) in free_space_loop (length t) p t 0 (Freespace 0 0).

Definition pmem_start_addr_bitmap (p : pmem_info) (index : Z) : Z := u32 (index * quantum p + pm_base p).
Definition pmem_len_bitmap (p : pmem_info) (st : bitmap_t) (index : Z) : Z :=
  match find_entry (default [] (bitm_alloc st)) index with
  | Some (_, e) => u32 (quanta e * quantum p)
  | None => 0
  end.

(** What [pmem_setup] starts with. *)
Definition bitmap_setup (p : pmem_info) : bitmap_t :=
  Bitmap (num_entries p) (replicate (Z.to_nat ((num_entries p + 31) / 32)) 0)
    (Some (replicate (Z.to_nat PMEM_INITIAL_NUM_BITMAP_ALLOCATIONS) (Entry (-1) 0))).

(** ** System memory *)

(** An item of the list, with the addresses and the size it records. *)
Record alloc_list := AllocList { al_addr : Z; al_aaddr : Z; al_size : Z; al_vaddr : Z }.

Record system_t := System {
  used : Z;                              (* bytes currently allocated *)
  alist : list Z;                        (* addresses of the items *)
  items : gmap Z alloc_list }.

(** At most [SYSTEM_ALLOC_RETRY] attempts; [buf] tells what each one returns. *)
Fixpoint retry_kmalloc (n : nat) (buf : nat -> option Z) : option Z :=
  match n with
  | O => None
  | S n' => match buf n' with Some b => Some b | None => retry_kmalloc n' buf end
  end.

(** [item] is the new list item, if there is memory for it; [pa] translates
    the buffer's address and [ioremap] maps it. *)
Definition pmem_allocator_system (p : pmem_info) (st : system_t) (len align : Z)
    (item : option Z) (buf : nat -> option Z) (pa : Z -> Z) (ioremap : bool -> Z -> Z -> Z) : system_t * Z :=
  if pm_size p <? u32 (used st + len) then (st, -1)
  else
    let aligned_len := u32 (len + align) in
    match item with
    | None => (st, -1)
    | Some l =>
        match retry_kmalloc SYSTEM_ALLOC_RETRY buf with
        | None => (st, -1)
        | Some b =>
            let addr := pa b in
            let aaddr := Z.ldiff (u32 (addr + (align - 1))) (align - 1) in
            let x := AllocList addr aaddr aligned_len (ioremap (pm_cached p) addr aligned_len) in
            (System (used st) (list_add l (alist st)) (<[l := x]> (items st)), s32 l)
        end
    end.

(** [index] is the address of the item, as an [int]. *)
Definition pmem_free_system (st : system_t) (index : Z) : option (system_t * Z) :=
  if index =? 0 then Some (st, 0)
  else
    x ← items st !! u32 index;
    if al_vaddr x =? 0 then Some (st, 0)
    else Some (System (used st) (list_del (u32 index) (alist st)) (delete (u32 index) (items st)), 0).

Definition pmem_free_space_system (p : pmem_info) : pmem_freespace := Freespace (pm_size p) (pm_size p).
Definition pmem_start_addr_system (st : system_t) (index : Z) : option Z :=
  x ← items st !! u32 index; Some (al_aaddr x).
Definition pmem_len_system (st : system_t) (index : Z) : option Z :=
  x ← items st !! u32 index; Some (al_size x).

(** ** The allocator of a device *)

Inductive allocator :=
  | AllOrNothing (allocated : Z)
  | BuddyBestfit (buddy_bitmap : list pmem_bits)
  | BitmapAlloc (st : bitmap_t)
  | SystemMem (st : system_t).

(** What the environment contributes to one allocation. *)
Record alloc_env := AllocEnv {
  ae_mem : bool; ae_junk : nat -> Z; ae_item : option Z; ae_buf : nat -> option Z; ae_pa : Z -> Z;
  ae_ioremap : bool -> Z -> Z -> Z }.

(** [pmem[id].allocate], [pmem[id].free] and [pmem[id].free_space]. *)
Definition allocate (env : alloc_env) (p : pmem_info) (a : allocator) (len align : Z) : option (allocator * Z) :=
  match a with
  | AllOrNothing x =>
      let '(x', ret) := pmem_allocator_all_or_nothing p x len in Some (AllOrNothing x', ret)
  | BuddyBestfit bm =>
      '(bm', ret) ← pmem_allocator_buddy_bestfit p bm len; Some (BuddyBestfit bm', ret)
  | BitmapAlloc st =>
      '(st', ret) ← pmem_allocator_bitmap p st len align (ae_mem env) (ae_junk env); Some (BitmapAlloc st', ret)
  | SystemMem st =>
      let '(st', ret) := pmem_allocator_system p st len align (ae_item env) (ae_buf env) (ae_pa env)
                           (ae_ioremap env) in
      Some (SystemMem st', ret)
  end.

Definition free (p : pmem_info) (a : allocator) (index : Z) : option (allocator * Z) :=
  match a with
  | AllOrNothing x => let '(x', ret) := pmem_free_all_or_nothing x in Some (AllOrNothing x', ret)
  | BuddyBestfit bm => '(bm', ret) ← pmem_free_buddy_bestfit p bm index; Some (BuddyBestfit bm', ret)
  | BitmapAlloc st => '(st', ret) ← pmem_free_bitmap st index; Some (BitmapAlloc st', ret)
  | SystemMem st => '(st', ret) ← pmem_free_system st index; Some (SystemMem st', ret)
  end.

Definition free_space (p : pmem_info) (a : allocator) : option pmem_freespace :=
  match a with
  | AllOrNothing x => Some (pmem_free_space_all_or_nothing p x)
  | BuddyBestfit bm => pmem_free_space_buddy_bestfit p bm
  | BitmapAlloc st => pmem_free_space_bitmap p st
  | SystemMem _ => Some (pmem_free_space_system p)
  end.

(** [pmem[id].len] and [pmem[id].start_addr]. *)
Definition alloc_len (p : pmem_info) (a : allocator) (index : Z) : option Z :=
  match a with
  | AllOrNothing _ => Some (pmem_len_all_or_nothing index)
  | BuddyBestfit bm => pmem_len_buddy_bestfit p bm index
  | BitmapAlloc st => Some (pmem_len_bitmap p st index)
  | SystemMem st => pmem_len_system st index
  end.

Definition start_addr (p : pmem_info) (a : allocator) (index : Z) : option Z :=
  match a with
  | AllOrNothing _ => Some (pmem_start_addr_all_or_nothing p)
  | BuddyBestfit bm => Some (pmem_start_addr_buddy_bestfit p index)
  | BitmapAlloc st => Some (pmem_start_addr_bitmap p index)
  | SystemMem st => pmem_start_addr_system st index
  end.
