(* ===== verification/PmemBitmap.v ===== *)
(** * Pmem: bit runs in words

    [tb b k] is bit [k] of a bitmap.  Setting and clearing a run of bits word
    by word changes exactly the bits of the run, and the search for a run of
    clear bits finds the lowest aligned one. *)

From stdpp Require Import base numbers list.
From S2P Require Import Prelude Pmem.

Open Scope Z_scope.

Definition word_ok (w : Z) : Prop := 0 <= w < 2 ^ 32.
Definition words_ok (b : list Z) : Prop := Forall word_ok b.

Definition tb (b : list Z) (k : Z) : bool := Z.testbit (bget b (k / 32)) (k mod 32).

(** ** Arrays *)

Lemma array_get_bget b i : 0 <= i < zlen b -> array_get b i = Some (bget b i).
Proof.
  intros H. unfold array_get, bget, zlen in *. destruct (Z.ltb_spec i 0); [lia|].
  destruct (nth_lookup_or_length b (Z.to_nat i) 0); [done|lia].
Qed.

Lemma array_upd_spec b i f :
  0 <= i < zlen b ->
  exists b', array_upd b i f = Some b' /\ zlen b' = zlen b /\
    forall j, 0 <= j -> bget b' j = if j =? i then f (bget b i) else bget b j.
Proof.
  intros H. unfold array_upd. rewrite array_get_bget by done. eexists. split; [done|].
  split; [unfold zlen; by rewrite length_insert|]. intros j Hj. unfold bget, zlen in *.
  rewrite !nth_lookup. case_if.
  - subst. by rewrite list_lookup_insert_eq by lia.
  - by rewrite list_lookup_insert_ne by lia.
Qed.

Lemma bget_replicate n v i : 0 <= i < Z.of_nat n -> bget (replicate n v) i = v.
Proof.
  intros H. unfold bget. rewrite nth_lookup, lookup_replicate_2 by lia. done.
Qed.

Lemma memset_spec b i n v :
  0 <= i -> 0 <= n -> i + n <= zlen b ->
  exists b', memset_words b i n v = Some b' /\ zlen b' = zlen b /\
    forall j, 0 <= j -> bget b' j = if (i <=? j) && (j <? i + n) then v else bget b j.
Proof.
  intros Hi Hn Hl. unfold memset_words.
  assert ((i <? 0) || (zlen b <? i + n) = false) as -> by (apply orb_false_iff; lia).
  assert (zlen (replicate (Z.to_nat n) v) = n) as Hz by (rewrite zlen_replicate; lia).
  eexists. split; [done|]. split; [apply zlen_splice; lia|]. intros j Hj.
  rewrite bget_splice by lia. rewrite Hz. case_if; [|done]. apply bget_replicate. lia.
Qed.

Lemma bget_word b j : words_ok b -> word_ok (bget b j).
Proof.
  intros H. unfold bget. rewrite nth_lookup. destruct (b !! Z.to_nat j) as [w|] eqn:E; cbn.
  - by eapply Forall_lookup_1.
  - unfold word_ok. lia.
Qed.

(** ** Masks *)

Lemma land_31 x : Z.land x 31 = x mod 32.
Proof. change 31 with (2 ^ 5 - 1). by rewrite land_pow2_mod. Qed.

Lemma ones_32 : 2 ^ 32 - 1 = Z.ones 32.
Proof. done. Qed.

Lemma start_mask_bit b i : 0 <= i < 32 -> Z.testbit (start_mask b) i = (b mod 32 <=? i).
Proof.
  intros H. unfold start_mask, PMEM_BITS_PER_WORD_MASK, BITS_PER_LONG. change (32 - 1) with 31.
  rewrite land_31, ones_32. unfold u32. rewrite Z.mod_pow2_bits_low by lia.
  pose proof (Z.mod_pos_bound b 32). rewrite Z.shiftl_spec by lia.
  destruct (Z.leb_spec (b mod 32) i).
  - apply Z.ones_spec_low. lia.
  - apply Z.testbit_neg_r. lia.
Qed.

Lemma end_mask_bit b i : 0 <= i < 32 -> Z.testbit (end_mask b) i = (i <=? (b - 1) mod 32).
Proof.
  intros H. unfold end_mask, PMEM_BITS_PER_WORD_MASK, BITS_PER_LONG. change (32 - 1) with 31.
  rewrite land_31, ones_32. pose proof (Z.mod_pos_bound (32 - b) 32). rewrite Z.shiftr_spec by lia.
  assert ((32 - b) mod 32 = 31 - (b - 1) mod 32) as E.
  { pose proof (Z.mod_pos_bound (b - 1) 32). symmetry. apply Z.mod_unique with (q := - ((b - 1) / 32)); [lia|].
    pose proof (Z.div_mod (b - 1) 32). lia. }
  rewrite E in *. destruct (Z.leb_spec i ((b - 1) mod 32)).
  - apply Z.ones_spec_low. lia.
  - apply Z.ones_spec_high. lia.
Qed.

Lemma mask_word b : word_ok (start_mask b) /\ word_ok (end_mask b).
Proof.
  split; [apply u32_range|]. unfold end_mask, word_ok. rewrite Z.shiftr_div_pow2.
  - pose proof (Z.pow_pos_nonneg 2 (Z.land (BITS_PER_LONG - b) PMEM_BITS_PER_WORD_MASK)).
    assert (0 <= Z.land (BITS_PER_LONG - b) PMEM_BITS_PER_WORD_MASK) by (apply Z.land_nonneg; right; done).
    split; [apply Z.div_pos; lia|]. apply Z.div_lt_upper_bound; [lia|]. nia.
  - apply Z.land_nonneg. right. done.
Qed.

Lemma word_bit_high w i : word_ok w -> 32 <= i -> Z.testbit w i = false.
Proof.
  intros [H0 H1] Hi. destruct (Z.eq_dec w 0) as [->|]; [apply Z.testbit_0_l|].
  apply Z.bits_above_log2; [done|]. apply Z.log2_lt_pow2; [lia|].
  eapply Z.lt_le_trans; [exact H1|]. apply Z.pow_le_mono_r; lia.
Qed.

Lemma bits_word w : 0 <= w -> (forall i, 32 <= i -> Z.testbit w i = false) -> word_ok w.
Proof.
  intros H0 Hb. split; [done|]. destruct (Z.lt_ge_cases w (2 ^ 32)) as [|Hge]; [done|exfalso].
  specialize (Hb (Z.log2 w)). rewrite Z.bit_log2 in Hb by lia.
  assert (32 <= Z.log2 w) as Hl by (apply Z.log2_le_pow2; lia). by specialize (Hb Hl).
Qed.

(** The bits of word [j] that are in the run from [bs] to [be]. *)
Definition wmask (bs be j : Z) : Z :=
  if (bs / 32 <=? j) && (j <=? (be - 1) / 32) then
    Z.land (if j =? bs / 32 then start_mask bs else 2 ^ 32 - 1)
      (if j =? (be - 1) / 32 then end_mask be else 2 ^ 32 - 1)
  else 0.

Lemma wmask_bit bs be j i :
  bs < be -> 0 <= i < 32 ->
  Z.testbit (wmask bs be j) i = (bs <=? 32 * j + i) && (32 * j + i <? be).
Proof.
  intros Hb Hi. unfold wmask.
  pose proof (Z.div_mod bs 32). pose proof (Z.mod_pos_bound bs 32).
  pose proof (Z.div_mod (be - 1) 32). pose proof (Z.mod_pos_bound (be - 1) 32).
  case_if.
  - rewrite Z.land_spec. f_equal.
    + case_if; [rewrite start_mask_bit by done|rewrite ones_32, Z.ones_spec_low by lia]; lia.
    + case_if; [rewrite end_mask_bit by done|rewrite ones_32, Z.ones_spec_low by lia]; lia.
  - rewrite Z.testbit_0_l. symmetry. lia.
Qed.

Lemma wmask_word bs be j : word_ok (wmask bs be j).
Proof.
  destruct (mask_word bs) as [[? ?] _], (mask_word be) as [_ [? ?]].
  unfold wmask. case_if; [|unfold word_ok; lia]. apply bits_word.
  - apply Z.land_nonneg. left. case_if; lia.
  - intros i Hi. rewrite Z.land_spec. apply andb_false_iff. left.
    case_if; apply word_bit_high; try done; unfold word_ok; lia.
Qed.

Lemma total_words bs be : compute_total_words be (bs / 32) = (be - 1) / 32 + 1 - bs / 32.
Proof.
  unfold compute_total_words, BITS_PER_LONG, PMEM_32BIT_WORD_ORDER. rewrite Z.shiftr_div_pow2 by lia.
  change (2 ^ 5) with 32. replace (be + 32 - 1) with ((be - 1) + 1 * 32) by lia. rewrite Z.div_add; lia.
Qed.

Lemma lor_full w : word_ok w -> Z.lor w (2 ^ 32 - 1) = 2 ^ 32 - 1.
Proof.
  intros H. rewrite ones_32. apply Z.bits_inj'. intros i Hi. rewrite Z.lor_spec.
  destruct (Z.lt_ge_cases i 32).
  - by rewrite Z.ones_spec_low, orb_true_r by lia.
  - rewrite Z.ones_spec_high by lia. by rewrite word_bit_high.
Qed.

Lemma ldiff_full w : word_ok w -> Z.ldiff w (2 ^ 32 - 1) = 0.
Proof.
  intros H. rewrite ones_32. apply Z.bits_inj'. intros i Hi. rewrite Z.ldiff_spec, Z.testbit_0_l.
  destruct (Z.lt_ge_cases i 32).
  - by rewrite Z.ones_spec_low, andb_false_r by lia.
  - by rewrite word_bit_high.
Qed.

Lemma wmask_first bs be : bs < be -> bs / 32 < (be - 1) / 32 -> wmask bs be (bs / 32) = start_mask bs.
Proof.
  intros H1 H2. unfold wmask. case_if; [|lia]. rewrite Z.eqb_refl. case_if; [lia|].
  apply Z.bits_inj'. intros i Hi. rewrite Z.land_spec, ones_32. destruct (Z.lt_ge_cases i 32).
  - by rewrite Z.ones_spec_low, andb_true_r by lia.
  - rewrite Z.ones_spec_high, andb_false_r by lia. symmetry. apply word_bit_high; [apply mask_word|done].
Qed.

Lemma wmask_last bs be : bs < be -> bs / 32 < (be - 1) / 32 -> wmask bs be ((be - 1) / 32) = end_mask be.
Proof.
  intros H1 H2. unfold wmask. case_if; [|lia]. rewrite Z.eqb_refl. case_if; [lia|].
  apply Z.bits_inj'. intros i Hi. rewrite Z.land_spec, ones_32. destruct (Z.lt_ge_cases i 32).
  - by rewrite Z.ones_spec_low, andb_true_l by lia.
  - rewrite Z.ones_spec_high by lia. symmetry. apply word_bit_high; [apply mask_word|done].
Qed.

Lemma wmask_only bs be :
  bs / 32 = (be - 1) / 32 -> wmask bs be (bs / 32) = Z.land (start_mask bs) (end_mask be).
Proof. intros H. unfold wmask. case_if; [|lia]. rewrite <- H, Z.eqb_refl. done. Qed.

Lemma wmask_mid bs be j : bs / 32 < j < (be - 1) / 32 -> wmask bs be j = 2 ^ 32 - 1.
Proof.
  intros H. unfold wmask. case_if; [|lia]. case_if; [lia|]. case_if; [lia|]. apply Z.land_diag.
Qed.

Lemma wmask_out bs be j : j < bs / 32 \/ (be - 1) / 32 < j -> wmask bs be j = 0.
Proof. intros H. unfold wmask. case_if; [lia|done]. Qed.

(** Both routines combine every word with its mask. *)
Section runs.
Context (op : Z -> Z -> Z) (fill : Z).
Context (op_0 : forall w, op w 0 = w) (op_full : forall w, word_ok w -> op w (2 ^ 32 - 1) = fill).

Definition run_words (bitp : list Z) (bs be : Z) : option (list Z) :=
  let wi := Z.shiftr bs PMEM_32BIT_WORD_ORDER in
  let tw := compute_total_words be wi in
  if 0 <? tw then
    if tw =? 1 then array_upd bitp wi (fun w => op w (Z.land (start_mask bs) (end_mask be)))
    else
      b1 ← array_upd bitp wi (fun w => op w (start_mask bs));
      let wi := wi + 1 in
      if 2 <? tw then
        b2 ← memset_words b1 wi (tw - 2) fill;
        array_upd b2 (wi + (tw - 2)) (fun w => op w (end_mask be))
      else array_upd b1 wi (fun w => op w (end_mask be))
  else Some bitp.

Lemma run_words_spec b bs be :
  words_ok b -> 0 <= bs < be -> be <= 32 * zlen b ->
  exists b', run_words b bs be = Some b' /\ zlen b' = zlen b /\
    forall j, 0 <= j -> bget b' j = op (bget b j) (wmask bs be j).
Proof using op_0 op_full.
  intros Hw Hb Hl. unfold run_words, PMEM_32BIT_WORD_ORDER. rewrite Z.shiftr_div_pow2 by lia. change (2 ^ 5) with 32.
  rewrite total_words. set (f := bs / 32). set (g := (be - 1) / 32).
  assert (0 <= f <= g) as Hfg by (split; [apply Z.div_pos|apply Z.div_le_mono]; lia).
  assert (g < zlen b) as Hg by (apply Z.div_lt_upper_bound; lia).
  destruct (Z.ltb_spec 0 (g + 1 - f)); [|lia]. destruct (Z.eqb_spec (g + 1 - f) 1) as [E|E].
  - destruct (array_upd_spec b f (fun w => op w (Z.land (start_mask bs) (end_mask be)))) as (b' & -> & Hz & Hj);
      [lia|]. exists b'. split_and!; [done|done|]. intros j Hj0. rewrite Hj by done.
    destruct (Z.eqb_spec j f) as [->|]; [by rewrite wmask_only by lia|].
    rewrite wmask_out by lia. by rewrite op_0.
  - destruct (array_upd_spec b f (fun w => op w (start_mask bs))) as (b1 & -> & Hz1 & Hj1); [lia|].
    cbn [mbind option_bind]. destruct (Z.ltb_spec 2 (g + 1 - f)).
    + destruct (memset_spec b1 (f + 1) (g + 1 - f - 2) fill) as (b2 & -> & Hz2 & Hj2); [lia..|].
      cbn [mbind option_bind]. replace (f + 1 + (g + 1 - f - 2)) with g in * by lia.
      destruct (array_upd_spec b2 g (fun w => op w (end_mask be))) as (b3 & -> & Hz3 & Hj3); [lia|].
      exists b3. split_and!; [done|lia|]. intros j Hj0. rewrite Hj3, !Hj2, !Hj1 by lia.
      destruct (Z.lt_trichotomy j f) as [?|[->|?]]; [rewrite wmask_out by lia| |].
      * repeat case_if; try lia; by rewrite op_0.
      * rewrite wmask_first by lia. repeat case_if; try lia; done.
      * destruct (Z.lt_trichotomy j g) as [?|[->|?]]; [rewrite wmask_mid by lia|..].
        -- repeat case_if; try lia; symmetry; by apply op_full, bget_word.
        -- rewrite wmask_last by lia. repeat case_if; try lia; done.
        -- rewrite wmask_out by lia. repeat case_if; try lia; by rewrite op_0.
    + assert (f + 1 = g) as -> by lia.
      destruct (array_upd_spec b1 g (fun w => op w (end_mask be))) as (b3 & -> & Hz3 & Hj3); [lia|].
      exists b3. split_and!; [done|lia|]. intros j Hj0. rewrite Hj3, !Hj1 by lia.
      destruct (Z.eqb_spec j g) as [->|].
      * rewrite wmask_last by lia. case_if; [lia|done].
      * destruct (Z.eqb_spec j f) as [->|]; [by rewrite wmask_first by lia|].
        rewrite wmask_out by lia. by rewrite op_0.
Qed.
End runs.

Lemma words_ok_bget b : (forall j, 0 <= j < zlen b -> word_ok (bget b j)) -> words_ok b.
Proof.
  intros H. apply Forall_lookup. intros i w Hw. specialize (H (Z.of_nat i)).
  unfold bget in H. rewrite Nat2Z.id, nth_lookup, Hw in H. apply H.
  apply lookup_lt_Some in Hw. unfold zlen. lia.
Qed.

Lemma split_bit k : 32 * (k / 32) + k mod 32 = k.
Proof. symmetry. by apply Z.div_mod. Qed.

(** [bitmap_bits_set_all] sets the bits of the run and no others. *)
Lemma set_all_spec b bs be :
  words_ok b -> 0 <= bs < be -> be <= 32 * zlen b ->
  exists b', bitmap_bits_set_all b bs be = Some b' /\ zlen b' = zlen b /\ words_ok b' /\
    forall k, 0 <= k -> tb b' k = tb b k || ((bs <=? k) && (k <? be)).
Proof.
  intros Hw Hb Hl.
  destruct (run_words_spec Z.lor (2 ^ 32 - 1) Z.lor_0_r lor_full b bs be Hw Hb Hl) as (b' & E & Hz & Hj).
  exists b'. split_and!; [exact E|done| |].
  - apply words_ok_bget. intros j Hj0. rewrite Hj by lia.
    pose proof (bget_word b j Hw) as W1. pose proof (wmask_word bs be j) as W2. apply bits_word.
    + apply Z.lor_nonneg. split; [apply W1|apply W2].
    + intros i Hi. by rewrite Z.lor_spec, !word_bit_high.
  - intros k Hk. unfold tb. pose proof (Z.mod_pos_bound k 32). assert (0 <= k / 32) by (apply Z.div_pos; lia).
    rewrite Hj, Z.lor_spec, wmask_bit by lia. by rewrite split_bit.
Qed.

(** [bitmap_bits_clear_all] clears the bits of the run and no others. *)
Lemma clear_all_spec b bs be :
  words_ok b -> 0 <= bs < be -> be <= 32 * zlen b ->
  exists b', bitmap_bits_clear_all b bs be = Some b' /\ zlen b' = zlen b /\ words_ok b' /\
    forall k, 0 <= k -> tb b' k = tb b k && negb ((bs <=? k) && (k <? be)).
Proof.
  intros Hw Hb Hl.
  destruct (run_words_spec Z.ldiff 0 Z.ldiff_0_r ldiff_full b bs be Hw Hb Hl) as (b' & E & Hz & Hj).
  exists b'. split_and!; [exact E|done| |].
  - apply words_ok_bget. intros j Hj0. rewrite Hj by lia. pose proof (bget_word b j Hw) as W1. apply bits_word.
    + apply Z.ldiff_nonneg. left. apply W1.
    + intros i Hi. by rewrite Z.ldiff_spec, word_bit_high.
  - intros k Hk. unfold tb. pose proof (Z.mod_pos_bound k 32). assert (0 <= k / 32) by (apply Z.div_pos; lia).
    rewrite Hj, Z.ldiff_spec, wmask_bit by lia. by rewrite split_bit.
Qed.

(** ** The search *)

Lemma fls_spec w :
  word_ok w -> fls w = 0 /\ w = 0 \/ 0 < fls w <= 32 /\ Z.testbit w (fls w - 1) = true.
Proof.
  intros [H0 H1]. unfold fls. case_if; [by left|right].
  pose proof (Z.log2_nonneg w). assert (Z.log2 w < 32) by (apply Z.log2_lt_pow2; lia).
  split; [lia|]. replace (Z.log2 w + 1 - 1) with (Z.log2 w) by lia. apply Z.bit_log2. lia.
Qed.

(** What the search learns from word [j] of a candidate run. *)
Definition word_tested (b : list Z) (bs be j l : Z) : Prop :=
  l = 0 /\ (forall k, k / 32 = j -> bs <= k < be -> tb b k = false) \/
  0 < l /\ bs <= 32 * j + l - 1 < be /\ tb b (32 * j + l - 1) = true.

Lemma word_test b bs be j :
  words_ok b -> bs < be -> 0 <= j -> word_tested b bs be j (fls (Z.land (bget b j) (wmask bs be j))).
Proof.
  intros Hw Hb Hj. pose proof (bget_word b j Hw) as W1. pose proof (wmask_word bs be j) as W2.
  assert (word_ok (Z.land (bget b j) (wmask bs be j))) as W.
  { apply bits_word; [apply Z.land_nonneg; left; apply W1|]. intros i Hi. by rewrite Z.land_spec, word_bit_high. }
  destruct (fls_spec _ W) as [[E0 E]|[Hl Ht]]; [left|right].
  - split; [done|]. intros k Hk Hin. unfold tb. rewrite Hk. pose proof (Z.mod_pos_bound k 32).
    assert (Z.testbit (Z.land (bget b j) (wmask bs be j)) (k mod 32) = false) as Hz
      by (rewrite E; apply Z.testbit_0_l).
    rewrite Z.land_spec, wmask_bit in Hz by lia. rewrite <- Hk, split_bit in Hz.
    assert ((bs <=? k) && (k <? be) = true) as Hr by lia. rewrite Hr, andb_true_r in Hz. by rewrite <- Hk.
  - set (l := fls _) in *. rewrite Z.land_spec, wmask_bit in Ht by lia. unbool.
    split_and!; [lia|lia|lia|]. unfold tb.
    assert ((32 * j + l - 1) / 32 = j) as ->.
    { symmetry. apply Z.div_unique with (r := l - 1); lia. }
    assert ((32 * j + l - 1) mod 32 = l - 1) as ->; [|done].
    symmetry. apply Z.mod_unique with (q := j); lia.
Qed.

Lemma middle_words_spec b bs be : forall n wi,
  words_ok b -> bs < be -> bs / 32 < wi -> 0 <= bs -> wi + Z.of_nat n = (be - 1) / 32 -> (be - 1) / 32 < zlen b ->
  exists l wi', middle_words n b wi = Some (l, wi') /\
    (l = 0 /\ wi' = (be - 1) / 32 /\ (forall k, wi <= k / 32 < wi' -> bs <= k < be -> tb b k = false) \/
     0 < l /\ bs <= 32 * wi' + l - 1 < be /\ tb b (32 * wi' + l - 1) = true).
Proof.
  induction n as [|n IH]; intros wi Hw Hb Hwi H0 Hn Hz; cbn [middle_words].
  { exists 0, wi. split; [done|]. left. split_and!; [done|lia|]. intros k Hk. lia. }
  assert (0 <= bs / 32) by (apply Z.div_pos; lia).
  rewrite array_get_bget by lia. cbn [mbind option_bind].
  pose proof (word_test b bs be wi Hw Hb ltac:(lia)) as Ht.
  assert (wmask bs be wi = 2 ^ 32 - 1) as Em by (apply wmask_mid; lia).
  assert (Z.land (bget b wi) (wmask bs be wi) = bget b wi) as El.
  { rewrite Em, ones_32, Z.land_ones by lia. apply Z.mod_small, (bget_word b wi Hw). }
  rewrite El in Ht. destruct Ht as [[E Hk]|(Hl & Hin & Ht)].
  - rewrite E. cbn. destruct (IH (wi + 1)) as (l & wi' & -> & H'); [done|done|lia|done|lia|done|].
    exists l, wi'. split; [done|]. destruct H' as [(-> & -> & Hk')|H']; [left|by right].
    split_and!; [done|done|]. intros k Hr Hin. destruct (Z.eq_dec (k / 32) wi) as [Ek|]; [by apply Hk|].
    apply Hk'; lia.
  - case_if; [|lia]. exists (fls (bget b wi)), wi. split; [done|]. by right.
Qed.

Lemma test_run_spec b bs be :
  words_ok b -> 0 <= bs < be -> be <= 32 * zlen b ->
  exists l wi, test_run b bs be = Some (l, wi) /\
    (l = 0 /\ (forall k, bs <= k < be -> tb b k = false) \/
     0 < l /\ bs <= 32 * wi + l - 1 < be /\ tb b (32 * wi + l - 1) = true).
Proof.
  intros Hw Hb Hl. unfold test_run, PMEM_32BIT_WORD_ORDER. rewrite Z.shiftr_div_pow2 by lia. change (2 ^ 5) with 32.
  rewrite total_words. set (f := bs / 32). set (g := (be - 1) / 32).
  assert (0 <= f <= g) as Hfg by (split; [apply Z.div_pos|apply Z.div_le_mono]; lia).
  assert (g < zlen b) as Hg by (apply Z.div_lt_upper_bound; lia).
  assert (forall k, bs <= k < be -> f <= k / 32 <= g) as Hkw by (intros k Hk; split; apply Z.div_le_mono; lia).
  pose proof (word_test b bs be f Hw ltac:(lia) ltac:(lia)) as Tf.
  rewrite array_get_bget by lia. cbn [mbind option_bind].
  destruct (Z.eqb_spec (g + 1 - f) 1) as [E|E].
  - eexists _, f. split; [done|]. unfold f, g in *. rewrite wmask_only in Tf by lia.
    destruct Tf as [[E0 Hk]|?]; [left|by right]. split; [done|]. intros k Hin. apply Hk; [|done].
    specialize (Hkw k Hin). lia.
  - unfold f in Tf at 2. rewrite wmask_first in Tf by lia. fold f in Tf.
    destruct Tf as [[E0 Hk0]|(Hl0 & Hin0 & Ht0)].
    2: { case_if; [|lia]. eexists _, f. split; [done|]. by right. }
    rewrite E0. cbn [negb Z.eqb].
    destruct (middle_words_spec b bs be (Z.to_nat (f + (g + 1 - f - 1) - (f + 1))) (f + 1))
      as (l & wi & -> & Hm); [done|lia|fold f; lia|lia|fold g; lia|fold g; lia|]. cbn [mbind option_bind].
    destruct Hm as [(-> & -> & Hk1)|(Hl1 & Hin1 & Ht1)].
    2: { case_if; [|lia]. eexists _, wi. split; [done|]. by right. }
    cbn [negb Z.eqb]. fold g in Hk1 |- *. rewrite array_get_bget by lia. cbn [mbind option_bind].
    pose proof (word_test b bs be g Hw ltac:(lia) ltac:(lia)) as Tg. unfold g in Tg at 2.
    rewrite wmask_last in Tg by lia. fold g in Tg.
    eexists _, g. split; [done|]. destruct Tg as [[E1 Hk2]|?]; [left|by right].
    split; [done|]. intros k Hin. pose proof (Hkw k Hin).
    destruct (Z.eq_dec (k / 32) f); [by apply Hk0|]. destruct (Z.eq_dec (k / 32) g); [by apply Hk2|].
    apply Hk1; [lia|done].
Qed.

(** A run that is not free has a bit set. *)
Definition run_free (b : list Z) (s n : Z) : Prop := forall k, s <= k < s + n -> tb b k = false.
Definition run_hit (b : list Z) (s n : Z) : Prop := exists k, s <= k < s + n /\ tb b k = true.

Lemma round_up x sp k :
  sp = 2 ^ k -> 0 <= k -> Z.land (x + sp - 1) (Z.lnot (sp - 1)) = sp * ((x + sp - 1) / sp).
Proof.
  intros -> Hk. rewrite <- Z.ldiff_land. replace (2 ^ k - 1) with (Z.ones k) by (rewrite Z.ones_equiv; lia).
  rewrite Z.ldiff_ones_r by done. rewrite Z.shiftl_mul_pow2, Z.shiftr_div_pow2 by done. lia.
Qed.

(** What an allocation of [n] bits at a multiple of [sp] may do. *)
Definition contiguous_post (b : list Z) (n total sp : Z) (b' : list Z) (ret : Z) : Prop :=
  ret = -1 /\ b' = b /\ (forall s, 0 <= s -> (sp | s) -> s + n <= total -> run_hit b s n) \/
  0 <= ret /\ (sp | ret) /\ ret + n <= total /\ run_free b ret n /\
  (forall s, 0 <= s < ret -> (sp | s) -> run_hit b s n) /\
  zlen b' = zlen b /\ words_ok b' /\
  (forall k, 0 <= k -> tb b' k = tb b k || ((ret <=? k) && (k <? ret + n))).

Lemma skipped b sp k n bs p s :
  sp = 2 ^ k -> 0 <= k -> bs <= p < bs + n -> tb b p = true -> (sp | s) ->
  bs <= s < sp * ((p + 1 + sp - 1) / sp) -> run_hit b s n.
Proof.
  intros -> Hk Hp Ht [q ->] Hs. exists p. split; [|done].
  assert (0 < 2 ^ k) by (apply Z.pow_pos_nonneg; lia).
  assert (q < (p + 1 + 2 ^ k - 1) / 2 ^ k) as Hq by nia.
  pose proof (Z.mul_div_le (p + 1 + 2 ^ k - 1) (2 ^ k)). nia.
Qed.

Lemma contiguous_loop_spec b n total sp k :
  words_ok b -> 0 < n -> sp = 2 ^ k -> 0 <= k -> total <= 32 * zlen b -> 0 <= total ->
  total + n + sp < 2 ^ 31 ->
  forall fuel bs, 0 <= bs <= total + sp -> (sp | bs) -> (Z.to_nat (total - bs) < fuel)%nat ->
  (forall s, 0 <= s < bs -> (sp | s) -> run_hit b s n) ->
  exists b' ret, contiguous_loop fuel b n total sp bs = Some (b', ret) /\ contiguous_post b n total sp b' ret.
Proof.
  intros Hw Hn Hsp Hk Ht Ht0 Hb. assert (0 < sp) as Hsp0 by (rewrite Hsp; apply Z.pow_pos_nonneg; lia).
  induction fuel as [|fuel IH]; intros bs Hbs Hd Hf Hskip; [lia|]. cbn [contiguous_loop].
  rewrite s32_small by lia. destruct (Z.ltb_spec total (bs + n)).
  { exists b, (-1). split; [done|]. left. split_and!; [done|done|]. intros s Hs Hds Hst.
    apply Hskip; [lia|done]. }
  unfold PMEM_32BIT_WORD_ORDER. rewrite Z.shiftr_div_pow2 by lia. change (2 ^ 5) with 32. rewrite total_words.
  assert (bs / 32 <= (bs + n - 1) / 32) by (apply Z.div_le_mono; lia). case_if; [lia|].
  destruct (test_run_spec b bs (bs + n)) as (l & wi & -> & Hr); [done|lia|lia|]. cbn [mbind option_bind].
  destruct Hr as [[-> Hfree]|(Hl & Hin & Hset)].
  - cbn [negb Z.eqb]. destruct (set_all_spec b bs (bs + n)) as (b' & -> & Hz & Hw' & Hbit); [done|lia|lia|].
    cbn [mbind option_bind]. exists b', bs. split; [done|]. right. by split_and!; [lia|..].
  - case_if; [|lia]. rewrite Z.shiftl_mul_pow2 by lia. change (2 ^ 5) with 32.
    set (p := 32 * wi + l - 1) in *. replace (l + wi * 32 + sp - 1) with (p + 1 + sp - 1) by lia.
    rewrite s32_small by lia. rewrite (round_up (p + 1) sp k) by done.
    pose proof (Z.mul_div_le (p + 1 + sp - 1) sp). pose proof (Z.mul_succ_div_gt (p + 1 + sp - 1) sp).
    apply IH; [lia|by exists ((p + 1 + sp - 1) / sp); lia|lia|].
    intros s Hs Hds. destruct (Z.lt_ge_cases s bs); [apply Hskip; [lia|done]|].
    eapply (skipped b sp k n bs p s); try done. lia.
Qed.

Lemma allocate_contiguous_spec b n total sp k :
  words_ok b -> 0 < n -> sp = 2 ^ k -> 0 <= k -> 0 <= total <= 32 * zlen b -> total + n + sp < 2 ^ 31 ->
  exists b' ret, bitmap_allocate_contiguous b n total sp = Some (b', ret) /\ contiguous_post b n total sp b' ret.
Proof.
  intros Hw Hn Hsp Hk Ht Hb. assert (0 < sp) by (rewrite Hsp; apply Z.pow_pos_nonneg; lia).
  unfold bitmap_allocate_contiguous. case_if; [lia|].
  apply (contiguous_loop_spec b n total sp k); try done; try lia. apply Z.divide_0_r.
Qed.
