(* ===== verification/PmemTable.v ===== *)
(** * Pmem: the bitmap allocator and its table

    [bitmap_ok] relates the table of allocations to the bitmap and to the
    number of free quanta; allocation and release preserve it. *)

From stdpp Require Import base numbers list gmap.
From S2P Require Import Prelude Pmem PmemBitmap.

Open Scope Z_scope.

(** What [pmem_setup] accepts for this allocator: a power of two as quantum
    that divides the size.  The table stores a bit number in a [short]. *)
Record region_ok (p : pmem_info) : Prop := {
  ro_quantum : exists k, 12 <= k /\ quantum p = 2 ^ k;
  ro_size : pm_size p = num_entries p * quantum p;
  ro_entries : 0 < num_entries p;
  ro_bits : pm_size p < 2 ^ 32 }.

Definition in_use (e : bitm_entry) : Prop := bit e <> -1.
#[export] Instance in_use_dec e : Decision (in_use e) := _.
Definition entry_has (e : bitm_entry) (k : Z) : Prop := bit e <= k < bit e + quanta e.

Definition weight (e : bitm_entry) : Z := if decide (in_use e) then quanta e else 0.
Definition used_quanta (t : list bitm_entry) : Z := foldr (fun e n => weight e + n) 0 t.
Arguments used_quanta : simpl never.

Record bitmap_ok (p : pmem_info) (st : bitmap_t) (t : list bitm_entry) : Prop := {
  bo_table : bitm_alloc st = Some t;
  bo_words : words_ok (bitmap st);
  bo_size : num_entries p <= 32 * zlen (bitmap st);
  bo_entry e : e ∈ t -> in_use e -> 0 <= bit e /\ 0 < quanta e /\ bit e + quanta e <= num_entries p;
  bo_disjoint i j e e' : t !! i = Some e -> t !! j = Some e' -> i <> j -> in_use e -> in_use e' ->
    bit e + quanta e <= bit e' \/ bit e' + quanta e' <= bit e;
  bo_marked e k : e ∈ t -> in_use e -> entry_has e k -> tb (bitmap st) k = true;
  bo_free : bitmap_free st = num_entries p - used_quanta t;
  bo_free_nonneg : 0 <= bitmap_free st }.

(** Every set bit belongs to an allocation. *)
Definition no_leak (p : pmem_info) (st : bitmap_t) (t : list bitm_entry) : Prop :=
  forall k, 0 <= k < num_entries p -> tb (bitmap st) k = true -> exists e, e ∈ t /\ in_use e /\ entry_has e k.

(** ** The table *)

Lemma used_quanta_cons e t : used_quanta (e :: t) = weight e + used_quanta t.
Proof. done. Qed.

Lemma used_quanta_insert t i e e' :
  t !! i = Some e -> used_quanta (<[i := e']> t) = used_quanta t - weight e + weight e'.
Proof.
  revert i. induction t as [|x t IH]; intros [|i] H; try done.
  - injection H as ->. cbn [insert list_insert]. rewrite !used_quanta_cons. lia.
  - change (<[S i := e']> (x :: t)) with (x :: <[i := e']> t). rewrite !used_quanta_cons, IH by done. lia.
Qed.

Lemma used_quanta_app t t' : used_quanta (t ++ t') = used_quanta t + used_quanta t'.
Proof. induction t as [|x t IH]; [done|]. cbn [app]. rewrite !used_quanta_cons, IH. lia. Qed.

Lemma used_quanta_unused t : (forall e, e ∈ t -> ~ in_use e) -> used_quanta t = 0.
Proof.
  induction t as [|x t IH]; intros H; [done|]. rewrite used_quanta_cons, IH by set_solver.
  unfold weight. rewrite decide_False; [done|]. apply H. set_solver.
Qed.

Lemma first_unused_spec t :
  match t !! first_unused t with
  | Some e => bit e = -1
  | None => first_unused t = length t
  end.
Proof.
  induction t as [|e t IH]; cbn; [done|]. case_if; cbn; [|done].
  destruct (t !! first_unused t); [done|]. by f_equal.
Qed.

Lemma first_unused_full t : (length t <= first_unused t)%nat -> forall e, e ∈ t -> in_use e.
Proof.
  induction t as [|e t IH]; cbn; [set_solver|]. case_if; [|lia].
  intros Hl x [-> |Hx]%elem_of_cons; [done|]. apply IH; [lia|done].
Qed.

(** The table with room for another allocation. *)
Lemma grown_spec t junk :
  (exists t', grown_table t junk = t ++ t' /\ length t' = length t /\ forall e, e ∈ t' -> ~ in_use e) /\
  used_quanta (grown_table t junk) = used_quanta t.
Proof.
  assert (exists t', grown_table t junk = t ++ t' /\ length t' = length t /\ forall e, e ∈ t' -> ~ in_use e)
    as (t' & E & Hl & Hu).
  { eexists. split; [done|]. split; [by rewrite length_imap|]. intros e He.
    apply list_elem_of_lookup in He as [i Hi]. rewrite list_lookup_imap in Hi.
    destruct (t !! i); [|done]. injection Hi as <-. unfold in_use. cbn. tauto. }
  split; [by exists t'|]. rewrite E, used_quanta_app, (used_quanta_unused t') by done. lia.
Qed.

(** A table of which [t] is the used part. *)
Lemma grown_ok p st t junk :
  bitmap_ok p st t -> bitmap_ok p (Bitmap (bitmap_free st) (bitmap st) (Some (grown_table t junk))) (grown_table t junk).
Proof.
  intros Hok. destruct (grown_spec t junk) as ((t' & E & Hl & Hu) & Hs).
  assert (forall e, e ∈ grown_table t junk -> in_use e -> e ∈ t) as Hin.
  { intros e He Hue. rewrite E in He. apply elem_of_app in He as [?|He]; [done|]. by destruct (Hu e He). }
  assert (forall i e, grown_table t junk !! i = Some e -> in_use e -> t !! i = Some e) as Hlk.
  { intros i e Hi Hue. rewrite E in Hi. apply lookup_app_Some in Hi as [?|[_ Hi]]; [done|].
    by destruct (Hu e (list_elem_of_lookup_2 _ _ _ Hi)). }
  split; cbn; try apply Hok; try done.
  - intros e He Hue. apply (bo_entry _ _ _ Hok); auto.
  - intros i j e e' Hi Hj Hne H1 H2. eapply (bo_disjoint _ _ _ Hok); eauto.
  - intros e k He Hue. apply (bo_marked _ _ _ Hok); auto.
  - rewrite Hs. apply Hok.
Qed.

(** ** Storing and dropping an entry *)

Lemma store_ok p st t i e0 r q b' free' :
  bitmap_ok p st t -> t !! i = Some e0 -> bit e0 = -1 ->
  0 <= r -> 0 < q -> r + q <= num_entries p -> num_entries p <= 2 ^ 15 -> run_free (bitmap st) r q ->
  zlen b' = zlen (bitmap st) -> words_ok b' ->
  (forall k, 0 <= k -> tb b' k = tb (bitmap st) k || ((r <=? k) && (k <? r + q))) ->
  free' = bitmap_free st - q -> 0 <= free' ->
  let t' := <[i := mk_entry r q]> t in
  bitmap_ok p (Bitmap free' b' (Some t')) t' /\ (no_leak p st t -> no_leak p (Bitmap free' b' (Some t')) t').
Proof.
  intros Hok Hi He0 Hr Hq Hrq Hn Hfree Hz Hw Hbit Hf Hf0 t'.
  assert (mk_entry r q = Entry r q) as Em.
  { unfold mk_entry. f_equal; [unfold s16; rewrite Z.mod_small; lia|apply u16_small; lia]. }
  unfold t'. clear t'. rewrite Em. set (e := Entry r q). set (t' := <[i := e]> t).
  assert (forall j x, t' !! j = Some x -> j = i /\ x = e \/ j <> i /\ t !! j = Some x) as Hlk.
  { intros j x. unfold t'. intros [(-> & -> & _)|[? ?]]%list_lookup_insert_Some; auto. }
  assert (forall x, x ∈ t' -> x = e \/ x ∈ t) as Hin.
  { intros x [j [(_ & ->)|(_ & Hj)]%Hlk]%list_elem_of_lookup; [by left|right]. by eapply list_elem_of_lookup_2. }
  assert (forall x, x ∈ t -> in_use x -> bit x + quanta x <= r \/ r + q <= bit x) as Hdis.
  { intros x Hx Hu. destruct (bo_entry _ _ _ Hok x Hx Hu) as (H1 & H2 & _).
    destruct (Z.le_gt_cases (bit x + quanta x) r); [by left|]. destruct (Z.le_gt_cases (r + q) (bit x)); [by right|].
    assert (tb (bitmap st) (Z.max r (bit x)) = true) as T
      by (apply (bo_marked _ _ _ Hok x _ Hx Hu); unfold entry_has; lia).
    rewrite Hfree in T by lia. done. }
  split; [split; cbn; try done|].
  - pose proof (bo_size _ _ _ Hok). lia.
  - intros x [-> |Hx]%Hin Hu; [unfold e; cbn; lia|by apply (bo_entry _ _ _ Hok)].
  - intros j1 j2 x y H1 H2 Hne U1 U2.
    destruct (Hlk _ _ H1) as [[-> ->]|[? H1']], (Hlk _ _ H2) as [[-> ->]|[? H2']]; [done|..].
    + destruct (Hdis y); [by eapply list_elem_of_lookup_2|done|by right|by left].
    + destruct (Hdis x); [by eapply list_elem_of_lookup_2|done|by left|by right].
    + by eapply (bo_disjoint _ _ _ Hok).
  - intros x k Hx Hu Hk. unfold entry_has in Hk. destruct (Hin x Hx) as [->|Hx'].
    + rewrite Hbit by (unfold e in Hk; cbn in Hk; lia). unfold e in Hk. cbn in Hk. lia.
    + destruct (bo_entry _ _ _ Hok x Hx' Hu). rewrite Hbit by lia.
      by rewrite (bo_marked _ _ _ Hok x k Hx' Hu Hk).
  - unfold t'. rewrite (used_quanta_insert t i e0 e Hi), (bo_free _ _ _ Hok) in *.
    unfold weight. rewrite decide_False by (unfold in_use; tauto). rewrite decide_True by (unfold in_use, e; cbn; lia).
    unfold e. cbn. lia.
  - intros Hleak k Hk. cbn. rewrite Hbit by lia. intros [T|T]%orb_true_iff.
    + destruct (Hleak k Hk T) as (x & Hx & Hu & Hxk). exists x. split; [|done].
      apply list_elem_of_lookup in Hx as [j Hj]. apply (list_elem_of_lookup_2 _ j). unfold t'.
      rewrite list_lookup_insert_ne; [done|]. intros ->. rewrite Hi in Hj. injection Hj as ->. by destruct Hu.
    + exists e. split_and!; [|unfold in_use, e; cbn; lia|unfold entry_has, e; cbn; lia].
      apply list_elem_of_insert. by eapply lookup_lt_Some.
Qed.

Lemma drop_ok p st t i e b' :
  bitmap_ok p st t -> t !! i = Some e -> in_use e ->
  zlen b' = zlen (bitmap st) -> words_ok b' ->
  (forall k, 0 <= k -> tb b' k = tb (bitmap st) k && negb ((bit e <=? k) && (k <? bit e + quanta e))) ->
  let t' := <[i := Entry (-1) 0]> t in
  let st' := Bitmap (bitmap_free st + quanta e) b' (Some t') in
  bitmap_ok p st' t' /\ (no_leak p st t -> no_leak p st' t').
Proof.
  intros Hok Hi Hu Hz Hw Hbit t' st'.
  assert (e ∈ t) as He by (by eapply list_elem_of_lookup_2).
  destruct (bo_entry _ _ _ Hok e He Hu) as (Hb0 & Hq0 & Hbq).
  assert (forall j x, t' !! j = Some x -> in_use x -> j <> i /\ t !! j = Some x) as Hlk.
  { intros j x. unfold t'. intros [(-> & <- & _)|[? ?]]%list_lookup_insert_Some Hx; [|auto].
    by destruct Hx. }
  assert (forall x, x ∈ t' -> in_use x ->
    x ∈ t /\ (bit x + quanta x <= bit e \/ bit e + quanta e <= bit x)) as Hin.
  { intros x [j Hj]%list_elem_of_lookup Hx. destruct (Hlk j x Hj Hx) as [Hne Hj'].
    split; [by eapply list_elem_of_lookup_2|]. by eapply (bo_disjoint _ _ _ Hok j i). }
  split; [split; cbn; try done|].
  - pose proof (bo_size _ _ _ Hok). lia.
  - intros x Hx Hux. apply (bo_entry _ _ _ Hok); [|done]. by apply Hin.
  - intros j1 j2 x y H1 H2 Hne U1 U2. destruct (Hlk _ _ H1 U1), (Hlk _ _ H2 U2).
    by eapply (bo_disjoint _ _ _ Hok).
  - intros x k Hx Hux Hk. destruct (Hin x Hx Hux) as [Hx' Hd].
    destruct (bo_entry _ _ _ Hok x Hx' Hux). unfold entry_has in Hk. rewrite Hbit by lia.
    rewrite (bo_marked _ _ _ Hok x k Hx' Hux Hk). lia.
  - unfold t'. rewrite (used_quanta_insert t i e _ Hi), (bo_free _ _ _ Hok).
    unfold weight. rewrite decide_True by done. rewrite decide_False by (unfold in_use; cbn; tauto). lia.
  - pose proof (bo_free_nonneg _ _ _ Hok). lia.
  - intros Hleak k Hk. cbn. rewrite Hbit by lia. intros [T1 T2]%andb_true_iff.
    destruct (Hleak k Hk T1) as (x & Hx & Hux & Hxk). exists x. split; [|done].
    apply list_elem_of_lookup in Hx as [j Hj]. apply (list_elem_of_lookup_2 _ j). unfold t'.
    rewrite list_lookup_insert_ne; [done|]. intros ->. rewrite Hi in Hj. injection Hj as ->.
    unfold entry_has in Hxk. lia.
Qed.

(** The table holds at most one allocation that starts at a bit. *)
Lemma find_entry_spec p st t i e :
  bitmap_ok p st t -> t !! i = Some e -> in_use e -> find_entry t (bit e) = Some (i, e).
Proof.
  intros Hok Hi Hu. unfold find_entry.
  destruct (list_find_elem_of (fun x => bit x = bit e) t e) as [[j x] E];
    [by eapply list_elem_of_lookup_2|done|]. rewrite E.
  apply list_find_Some in E as (Hj & Hb & _). assert (in_use x) as Hx by (unfold in_use in *; congruence).
  destruct (decide (j = i)) as [->|Hne]; [congruence|].
  destruct (bo_entry _ _ _ Hok e (list_elem_of_lookup_2 _ _ _ Hi) Hu) as (_ & ? & _).
  destruct (bo_entry _ _ _ Hok x (list_elem_of_lookup_2 _ _ _ Hj) Hx) as (_ & ? & _).
  destruct (bo_disjoint _ _ _ Hok j i x e); [done|done|done|done|done|lia|lia].
Qed.

Lemma weight_bounds p st t e : bitmap_ok p st t -> e ∈ t -> 0 <= weight e.
Proof.
  intros Hok He. unfold weight. case_decide as Hu; [|lia].
  destruct (bo_entry _ _ _ Hok e He Hu) as (_ & ? & _). lia.
Qed.

Lemma used_quanta_ge p st t i e :
  bitmap_ok p st t -> t !! i = Some e -> in_use e -> quanta e <= used_quanta t.
Proof.
  intros Hok. pose proof (fun x => weight_bounds p st t x Hok) as Hw. clear Hok. revert i.
  induction t as [|x t IH]; intros [|i] Hi Hu; try done; rewrite used_quanta_cons.
  - injection Hi as ->. unfold weight at 1. rewrite decide_True by done.
    assert (0 <= used_quanta t); [|lia]. clear IH. induction t as [|y t IH']; [done|].
    rewrite used_quanta_cons. specialize (Hw y ltac:(set_solver)) as Hy. assert (0 <= used_quanta t); [|lia].
    apply IH'. intros z Hz. apply Hw. set_solver.
  - specialize (Hw x ltac:(set_solver)) as Hx. assert (quanta e <= used_quanta t); [|lia].
    apply (IH ltac:(intros z Hz; apply Hw; set_solver) i Hi Hu).
Qed.

(** [pmem_free_bitmap] of an allocation. *)
Lemma free_bitmap_spec p st t i e :
  region_ok p -> bitmap_ok p st t -> t !! i = Some e -> in_use e ->
  exists st', pmem_free_bitmap st (bit e) = Some (st', 0) /\
    let t' := <[i := Entry (-1) 0]> t in
    bitmap_ok p st' t' /\ (no_leak p st t -> no_leak p st' t') /\
    bitmap_free st' = bitmap_free st + quanta e /\
    forall k, 0 <= k -> tb (bitmap st') k = tb (bitmap st) k && negb ((bit e <=? k) && (k <? bit e + quanta e)).
Proof.
  intros Hp Hok Hi Hu. unfold pmem_free_bitmap. rewrite (bo_table _ _ _ Hok). change (default [] (Some t)) with t.
  rewrite (find_entry_spec p st t i e Hok Hi Hu).
  destruct (bo_entry _ _ _ Hok e (list_elem_of_lookup_2 _ _ _ Hi) Hu) as (H1 & H2 & H3).
  destruct (clear_all_spec (bitmap st) (bit e) (bit e + quanta e)) as (b' & -> & Hz & Hw & Hbit);
    [apply Hok|lia|pose proof (bo_size _ _ _ Hok); lia|]. cbn [mbind option_bind].
  pose proof (used_quanta_ge p st t i e Hok Hi Hu). pose proof (bo_free _ _ _ Hok). pose proof (bo_free_nonneg _ _ _ Hok).
  destruct (ro_quantum _ Hp) as (k & Hk & Ek). pose proof (ro_size _ Hp) as Es. pose proof (ro_bits _ Hp).
  assert (2 ^ 12 <= 2 ^ k) by (apply Z.pow_le_mono_r; lia).
  rewrite u32_small by nia. eexists. split; [done|]. cbn zeta.
  destruct (drop_ok p st t i e b' Hok Hi Hu Hz Hw Hbit) as [K1 K2].
  by split_and!.
Qed.

(** ** Allocation *)

Definition quanta_of (p : pmem_info) (len : Z) : Z := (len + quantum p - 1) / quantum p.
Definition spacing_of (p : pmem_info) (align : Z) : Z :=
  if 1 <? align / quantum p then align / quantum p else 1.

(** What an allocation of [q] quanta at a multiple of [sp] may do: there is no
    room; the lowest run that fits is taken; or the table is full and cannot
    grow, and the run is lost. *)
Inductive alloc_result (p : pmem_info) (st : bitmap_t) (t : list bitm_entry) (q sp : Z) (mem : bool)
    : bitmap_t -> Z -> list bitm_entry -> Prop :=
  | AllocNone :
      bitmap_free st < q \/ (forall s, 0 <= s -> (sp | s) -> s + q <= num_entries p -> run_hit (bitmap st) s q) ->
      alloc_result p st t q sp mem st (-1) t
  | AllocDone r i st' t' :
      0 <= r -> (sp | r) -> r + q <= num_entries p -> run_free (bitmap st) r q ->
      (forall s, 0 <= s < r -> (sp | s) -> run_hit (bitmap st) s q) ->
      t' !! i = Some (Entry r q) -> (forall j e, j <> i -> t' !! j = Some e -> in_use e -> t !! j = Some e) ->
      (forall e, e ∈ t -> in_use e -> e ∈ t') ->
      (forall k, 0 <= k -> tb (bitmap st') k = tb (bitmap st) k || ((r <=? k) && (k <? r + q))) ->
      bitmap_free st' = bitmap_free st - q ->
      (no_leak p st t -> no_leak p st' t') ->
      alloc_result p st t q sp mem st' r t'
  | AllocLost r b' :
      (forall e, e ∈ t -> in_use e) -> mem = false \/ num_entries p < 2 * zlen t \/ t = [] \/ 2 ^ 30 <= zlen t ->
      0 <= r -> r + q <= num_entries p -> run_free (bitmap st) r q ->
      (forall k, 0 <= k -> tb b' k = tb (bitmap st) k || ((r <=? k) && (k <? r + q))) ->
      alloc_result p st t q sp mem (Bitmap (bitmap_free st) b' (Some t)) (-1) t.

Section alloc.
Context (p : pmem_info) (st : bitmap_t) (t : list bitm_entry) (Hp : region_ok p) (Hok : bitmap_ok p st t).
Context (Hn : num_entries p <= 2 ^ 15).
Context (len align : Z) (a : Z) (Hlen : 0 < len) (Hlen' : len + quantum p - 1 < 2 ^ 32).
Context (Ha : align = 2 ^ a) (Ha0 : 0 <= a < 31).

Lemma quantum_bounds : 4096 <= quantum p /\ quantum p <= pm_size p /\ pm_size p + quantum p - 1 < 2 ^ 32.
Proof using Hp Hok Hn Hlen Hlen' Ha Ha0.
  destruct (ro_quantum _ Hp) as (k & Hk & Ek). pose proof (ro_size _ Hp) as Es. pose proof (ro_bits _ Hp) as Hb.
  pose proof (ro_entries _ Hp) as He.
  assert (2 ^ 12 <= 2 ^ k) as H12 by (apply Z.pow_le_mono_r; lia). change (2 ^ 12) with 4096 in H12.
  assert (quantum p <= pm_size p) by nia. split_and!; [lia|done|].
  assert (k < 32) as Hk'.
  { destruct (Z.lt_ge_cases k 32); [done|]. assert (2 ^ 32 <= 2 ^ k) by (apply Z.pow_le_mono_r; lia). lia. }
  assert (2 ^ 32 = 2 ^ (32 - k) * quantum p) as E32.
  { rewrite Ek, <- Z.pow_add_r by lia. f_equal. lia. }
  assert (num_entries p < 2 ^ (32 - k)) by nia. nia.
Qed.

Lemma quanta_pos : 0 < quanta_of p len.
Proof using Hp Hok Hn Hlen Hlen' Ha Ha0.
  destruct quantum_bounds as (Hq & _). unfold quanta_of. apply Z.div_str_pos. lia.
Qed.

Lemma spacing_pow : exists k, 0 <= k /\ spacing_of p align = 2 ^ k /\ 2 ^ k <= 2 ^ 19 /\ 0 <= align / quantum p < 2 ^ 31.
Proof using Hp Hok Hn Hlen Hlen' Ha Ha0.
  destruct (ro_quantum _ Hp) as (k & Hk & Ek). unfold spacing_of. rewrite Ek, Ha.
  assert (0 < 2 ^ k) by (apply Z.pow_pos_nonneg; lia).
  destruct (Z.le_gt_cases k a).
  - assert (2 ^ a / 2 ^ k = 2 ^ (a - k)) as E.
    { replace (2 ^ a) with (2 ^ (a - k) * 2 ^ k) by (rewrite <- Z.pow_add_r by lia; f_equal; lia).
      apply Z.div_mul. lia. }
    rewrite E. assert (0 < 2 ^ (a - k)) by (apply Z.pow_pos_nonneg; lia).
    assert (2 ^ (a - k) <= 2 ^ 19) by (apply Z.pow_le_mono_r; lia).
    destruct (Z.ltb_spec 1 (2 ^ (a - k))).
    + exists (a - k). split_and!; [lia|done|done|lia|lia].
    + exists 0. split_and!; [lia|done|lia|lia|lia].
  - rewrite Z.div_small by (split; [apply Z.pow_nonneg; lia|apply Z.pow_lt_mono_r; lia]).
    exists 0. cbn. lia.
Qed.

Lemma reserve_spec :
  quanta_of p len <= bitmap_free st ->
  exists b' r, reserve_quanta p st (quanta_of p len) align = Some (Bitmap (bitmap_free st) b' (Some t), r) /\
    contiguous_post (bitmap st) (quanta_of p len) (num_entries p) (spacing_of p align) b' r.
Proof using Hp Hok Hn Hlen Hlen' Ha Ha0.
  intros Hfree. destruct quantum_bounds as (Hq & Hqs & Hss). destruct spacing_pow as (k & Hk & Esp & Hsp & Hal).
  pose proof quanta_pos. pose proof (ro_size _ Hp) as Es. pose proof (ro_entries _ Hp).
  assert (bitmap_free st <= num_entries p) as Hfn.
  { rewrite (bo_free _ _ _ Hok). assert (0 <= used_quanta t); [|lia].
    pose proof (fun x => weight_bounds p st t x Hok) as Hw. clear -Hw. induction t as [|y u IH]; [done|].
    rewrite used_quanta_cons. assert (0 <= used_quanta u) by (apply IH; set_solver).
    specialize (Hw y ltac:(set_solver)). lia. }
  unfold reserve_quanta. case_if; [lia|].
  set (x := Z.ldiff _ _). assert (0 <= bit_from_paddr p x < 2 ^ 31) as Hbp.
  { unfold bit_from_paddr. pose proof (u32_range (x - pm_base p)). split; [apply Z.div_pos; lia|].
    apply Z.div_lt_upper_bound; [lia|]. nia. }
  rewrite (s32_small (bit_from_paddr p x)) by lia. case_if; [lia|].
  rewrite (s32_small (align / quantum p)) by lia. fold (spacing_of p align).
  rewrite (u32_small (pm_size p + quantum p - 1)) by lia.
  assert ((pm_size p + quantum p - 1) / quantum p = num_entries p) as ->.
  { rewrite Es. symmetry. apply Z.div_unique with (r := quantum p - 1); lia. }
  rewrite !s32_small by lia.
  destruct (allocate_contiguous_spec (bitmap st) (quanta_of p len) (num_entries p) (spacing_of p align) k)
    as (b' & r & -> & Hpost); [apply Hok|done|done|done|pose proof (bo_size _ _ _ Hok); lia|lia|].
  cbn [mbind option_bind]. rewrite (bo_table _ _ _ Hok). eauto.
Qed.

Lemma lost_ok b' r q :
  zlen b' = zlen (bitmap st) -> words_ok b' -> 0 <= r ->
  (forall k, 0 <= k -> tb b' k = tb (bitmap st) k || ((r <=? k) && (k <? r + q))) ->
  bitmap_ok p (Bitmap (bitmap_free st) b' (Some t)) t.
Proof using Hp Hok Hn Hlen Hlen' Ha Ha0.
  intros Hz Hw Hr Hbit. split; cbn; try apply Hok; try done.
  - pose proof (bo_size _ _ _ Hok). lia.
  - intros e k He Hu Hk. destruct (bo_entry _ _ _ Hok e He Hu). unfold entry_has in Hk. rewrite Hbit by lia.
    by rewrite (bo_marked _ _ _ Hok e k He Hu Hk).
Qed.

(** Storing the allocation into [t0], the table or the table grown. *)
Lemma store_result mem t0 i e0 b' r :
  let q := quanta_of p len in
  let st0 := Bitmap (bitmap_free st) (bitmap st) (Some t0) in
  let t' := <[i := mk_entry r q]> t0 in
  let st' := Bitmap (u32 (bitmap_free st - q)) b' (Some t') in
  bitmap_ok p st0 t0 -> (no_leak p st t -> no_leak p st0 t0) -> t0 !! i = Some e0 -> bit e0 = -1 ->
  (forall e, e ∈ t -> e ∈ t0) -> (forall j e, t0 !! j = Some e -> in_use e -> t !! j = Some e) ->
  q <= bitmap_free st -> 0 <= r ->
  contiguous_post (bitmap st) q (num_entries p) (spacing_of p align) b' r ->
  bitmap_ok p st' t' /\ alloc_result p st t q (spacing_of p align) mem st' r t'.
Proof using Hp Hok Hn Hlen Hlen' Ha Ha0.
  intros q st0 t' st' Hok0 Hleak Hi He0 Hsub Hlk Hq Hr Hpost.
  pose proof quanta_pos as Hq0. fold q in Hq0.
  destruct Hpost as [(-> & _)|(_ & Hd & Hrq & Hfree & Hlow & Hz & Hw & Hbit)]; [lia|].
  assert (bitmap_free st < 2 ^ 32) as Hf32.
  { pose proof (bo_free _ _ _ Hok). pose proof (bo_free _ _ _ Hok0). cbn in *.
    destruct quantum_bounds as (Hqm & _ & Hss). pose proof (ro_size _ Hp) as Es. pose proof (ro_entries _ Hp).
    assert (0 <= used_quanta t); [|lia]. pose proof (fun x => weight_bounds p st t x Hok) as Hwt.
    clear -Hwt. induction t as [|y u IH]; [done|]. rewrite used_quanta_cons.
    assert (0 <= used_quanta u) by (apply IH; set_solver). specialize (Hwt y ltac:(set_solver)). lia. }
  assert (u32 (bitmap_free st - q) = bitmap_free st - q) as Eu by (apply u32_small; lia).
  destruct (store_ok p st0 t0 i e0 r q b' (bitmap_free st - q)) as [K1 K2]; try done; [lia|].
  assert (mk_entry r q = Entry r q) as Em.
  { unfold mk_entry. f_equal; [unfold s16; rewrite Z.mod_small; lia|apply u16_small; lia]. }
  unfold st'. rewrite Eu. split; [done|]. apply (AllocDone p st t q (spacing_of p align) mem r i); try done.
  - unfold t'. rewrite Em. apply list_lookup_insert_eq. by eapply lookup_lt_Some.
  - intros j e Hj. unfold t'. rewrite list_lookup_insert_ne by done. apply Hlk.
  - intros e He Hu. apply Hsub in He. apply list_elem_of_lookup in He as [j Hj].
    apply (list_elem_of_lookup_2 _ j). unfold t'. rewrite list_lookup_insert_ne; [done|]. intros ->.
    rewrite Hi in Hj. injection Hj as ->. by destruct Hu.
  - auto.
Qed.

Lemma lost_result mem b' r :
  (forall e, e ∈ t -> in_use e) -> 0 <= r ->
  contiguous_post (bitmap st) (quanta_of p len) (num_entries p) (spacing_of p align) b' r ->
  mem = false \/ num_entries p < 2 * zlen t \/ t = [] \/ 2 ^ 30 <= zlen t ->
  bitmap_ok p (Bitmap (bitmap_free st) b' (Some t)) t /\
  alloc_result p st t (quanta_of p len) (spacing_of p align) mem (Bitmap (bitmap_free st) b' (Some t)) (-1) t.
Proof using Hp Hok Hn Hlen Hlen' Ha Ha0.
  intros Hfull Hr [(-> & _)|(_ & _ & Hrq & Hfree & _ & Hz & Hw & Hbit)] Hwhy; [lia|].
  split; [by eapply lost_ok|]. by eapply AllocLost.
Qed.

Lemma alloc_spec mem junk :
  exists st' r t', pmem_allocator_bitmap p st len align mem junk = Some (st', r) /\ bitmap_ok p st' t' /\
    alloc_result p st t (quanta_of p len) (spacing_of p align) mem st' r t'.
Proof using Hp Hok Hn Hlen Hlen' Ha Ha0.
  destruct quantum_bounds as (Hqm & _). unfold pmem_allocator_bitmap.
  rewrite (bo_table _ _ _ Hok). rewrite u32_small by lia.
  change ((len + quantum p - 1) / quantum p) with (quanta_of p len). set (q := quanta_of p len).
  case_if; [exists st, (-1), t; split; [done|]; split; [done|]; by apply AllocNone; left|].
  destruct (reserve_spec Heqb) as (b' & r & E & Hpost). fold q in E, Hpost. rewrite E. cbn [mbind option_bind].
  destruct (Z.eqb_spec r (-1)) as [->|Hr].
  { destruct Hpost as [(_ & -> & Hno)|(? & _)]; [|lia].
    exists st, (-1), t. replace (Bitmap (bitmap_free st) (bitmap st) (Some t)) with st
      by (rewrite <- (bo_table _ _ _ Hok); by destruct st).
    split; [done|]. split; [done|]. apply AllocNone. by right. }
  assert (0 <= r) as Hr0 by (destruct Hpost as [(? & _)|(? & _)]; [lia|done]).
  cbn [bitmap_free bitmap].
  assert (Bitmap (bitmap_free st) (bitmap st) (Some t) = st) as Est
    by (rewrite <- (bo_table _ _ _ Hok); by destruct st).
  pose proof (first_unused_spec t) as Hfu. destruct (Nat.ltb_spec (first_unused t) (length t)) as [Hlt|Hge].
  - destruct (lookup_lt_is_Some_2 t (first_unused t) Hlt) as [e0 He0]. rewrite He0 in Hfu.
    destruct (store_result mem t (first_unused t) e0 b' r) as [K1 K2]; rewrite ?Est; try done.
    eexists _, _, _. split; [done|]. by split.
  - pose proof (first_unused_full t Hge) as Hfull.
    assert (first_unused t = length t) as Efu by (by rewrite lookup_ge_None_2 in Hfu).
    pose proof (lost_result mem b' r Hfull Hr0 Hpost) as Hlost.
    assert (t = [] \/ 2 ^ 30 <= zlen t \/ u32 (s32 (Z.shiftl (zlen t) 1)) = 2 * zlen t /\
      s32 (Z.shiftl (zlen t) 1) <> 0) as Hcases.
    { rewrite Z.shiftl_mul_pow2 by lia. destruct (Z.le_gt_cases (2 ^ 30) (zlen t)) as [?|Hs]; [tauto|].
      destruct t as [|x u]; [tauto|right; right]. rewrite zlen_cons in *. pose proof (zlen_nonneg u).
      rewrite s32_small by lia. rewrite u32_small by lia. lia. }
    case_if; [exists (Bitmap (bitmap_free st) b' (Some t)), (-1), t; split; [done|]; apply Hlost; tauto|].
    case_if; [exists (Bitmap (bitmap_free st) b' (Some t)), (-1), t; split; [done|]; apply Hlost; intuition lia|].
    destruct mem; [|exists (Bitmap (bitmap_free st) b' (Some t)), (-1), t; split; [done|]; apply Hlost; tauto].
    destruct (grown_spec t junk) as ((t' & Eg & Hl & Hu) & _).
    assert (t <> []) as Hne by (intros ->; done).
    destruct t' as [|e0 t'].
    { destruct Hne. by apply nil_length_inv. }
    destruct (store_result true (grown_table t junk) (first_unused t) e0 b' r) as [K1 K2]; try done.
    + by apply grown_ok.
    + intros Hleak k Hk T. destruct (Hleak k Hk T) as (e & He & ?). exists e. rewrite Eg. set_solver.
    + rewrite Efu, Eg, lookup_app_r, Nat.sub_diag by lia. done.
    + destruct (decide (bit e0 = -1)); [done|]. destruct (Hu e0); [set_solver|done].
    + intros e He. rewrite Eg. set_solver.
    + intros j e Hj Hue. rewrite Eg in Hj. apply lookup_app_Some in Hj as [?|[_ Hj]]; [done|].
      by destruct (Hu e (list_elem_of_lookup_2 _ _ _ Hj)).
    + eexists _, _, _. split; [done|]. by split.
Qed.
End alloc.
