(* ===== verification/PmemBuddy.v ===== *)
(** * Pmem: the buddy allocator

    The slots of [buddy_bitmap] that are reached from slot 0 by stepping over
    whole blocks tile the region with aligned blocks of powers of two
    ([tiling]).  Allocation splits one free block and takes its lowest part,
    release merges free buddies until none are left. *)

From stdpp Require Import base numbers list gmap.
From S2P Require Import Prelude Pmem.

Open Scope Z_scope.

Record block := Block { b_start : Z; b_order : Z; b_alloc : bool }.

(** The blocks from index [i] to index [e]. *)
Inductive tiling (bm : list pmem_bits) : Z -> Z -> list block -> Prop :=
  | tiling_nil e : tiling bm e e []
  | tiling_cons i e o al l :
      array_get bm i = Some (Bits al o) -> 0 <= i -> 0 <= o < 30 -> (2 ^ o | i) ->
      tiling bm (i + 2 ^ o) e l -> tiling bm i e (Block i o al :: l).

Definition block_has (b : block) (x : Z) : Prop := b_start b <= x < b_start b + 2 ^ b_order b.

(** No two free blocks could be merged. *)
Definition coalesced (l : list block) : Prop :=
  forall i j o, Block i o false ∈ l -> Block j o false ∈ l -> j <> Z.lxor i (2 ^ o).

(** Slots inside of a block are never marked allocated. *)
Definition no_stale (bm : list pmem_bits) (l : list block) : Prop :=
  forall i b, array_get bm i = Some b -> allocated b = true -> exists o, Block i o true ∈ l.

Record buddy_ok (n : Z) (bm : list pmem_bits) (l : list block) : Prop := {
  bk_len : zlen bm = n;
  bk_max : 0 < n < 2 ^ 30;
  bk_tiling : tiling bm 0 n l;
  bk_stale : no_stale bm l;
  bk_merged : coalesced l }.

(** ** Slots *)

Lemma array_upd_lookup {A} (b : list A) i f x :
  array_get b i = Some x ->
  exists b', array_upd b i f = Some b' /\ zlen b' = zlen b /\
    forall j, array_get b' j = if decide (j = i) then Some (f x) else array_get b j.
Proof.
  intros Hx. unfold array_upd. rewrite Hx. eexists. split; [done|]. unfold array_get, zlen in *.
  split; [by rewrite length_insert|]. intros j. revert Hx. case_if; [done|]. intros Hx.
  destruct (decide (j = i)) as [->|Hne].
  - destruct (Z.ltb_spec i 0); [lia|]. apply list_lookup_insert_eq. by eapply lookup_lt_Some.
  - destruct (Z.ltb_spec j 0); [done|]. apply list_lookup_insert_ne. lia.
Qed.

Lemma array_get_lt {A} (b : list A) i : 0 <= i < zlen b -> exists x, array_get b i = Some x.
Proof.
  intros H. unfold array_get. destruct (Z.ltb_spec i 0); [lia|].
  apply lookup_lt_is_Some_2. unfold zlen in H. lia.
Qed.

(** ** Tilings *)

Lemma tiling_app bm l1 l2 : forall i e,
  tiling bm i e (l1 ++ l2) <-> exists m, tiling bm i m l1 /\ tiling bm m e l2.
Proof.
  induction l1 as [|b l1 IH]; intros i e; cbn.
  - split; [intros H; exists i; split; [constructor|done]|]. intros (m & H1 & H2). by inversion H1; subst.
  - split.
    + inversion 1 as [|i0 e0 o al l0 Hg Hi Ho Hd Ht]; subst. apply IH in Ht as (m & H1 & H2).
      exists m. split; [by constructor|done].
    + intros (m & H1 & H2). inversion H1 as [|i0 e0 o al l0 Hg Hi Ho Hd Ht]; subst.
      constructor; try done. apply IH. eauto.
Qed.

Lemma tiling_le bm l : forall i e, tiling bm i e l -> i <= e.
Proof.
  induction 1 as [e|i e o al l Hg Hi Ho Hd Ht IH]; [done|].
  assert (0 < 2 ^ o) by (apply Z.pow_pos_nonneg; lia). lia.
Qed.

Lemma tiling_block bm l i e b :
  tiling bm i e l -> b ∈ l ->
  i <= b_start b /\ b_start b + 2 ^ b_order b <= e /\ 0 <= b_order b < 30 /\ 0 <= b_start b /\
  (2 ^ b_order b | b_start b) /\ array_get bm (b_start b) = Some (Bits (b_alloc b) (b_order b)).
Proof.
  induction 1 as [e|i e o al l Hg Hi Ho Hd Ht IH]; [set_solver|].
  assert (0 < 2 ^ o) by (apply Z.pow_pos_nonneg; lia). pose proof (tiling_le _ _ _ _ Ht).
  intros [->|Hb]%elem_of_cons; cbn; [split_and!; try done; lia|].
  destruct (IH Hb) as (? & ? & ? & ? & ? & ?). split_and!; try done; lia.
Qed.

Lemma tiling_ext bm bm' l : forall i e,
  tiling bm i e l -> (forall b, b ∈ l -> array_get bm' (b_start b) = array_get bm (b_start b)) ->
  tiling bm' i e l.
Proof.
  induction 1 as [e|i e o al l Hg Hi Ho Hd Ht IH]; intros H; [constructor|].
  constructor; try done; [|apply IH; set_solver]. rewrite <- Hg. apply (H (Block i o al)). set_solver.
Qed.

(** Two blocks are the same or apart. *)
Lemma tiling_apart bm l i e b c :
  tiling bm i e l -> b ∈ l -> c ∈ l ->
  b = c \/ b_start b + 2 ^ b_order b <= b_start c \/ b_start c + 2 ^ b_order c <= b_start b.
Proof.
  induction 1 as [e|i e o al l Hg Hi Ho Hd Ht IH]; [set_solver|].
  intros [->|Hb]%elem_of_cons [->|Hc]%elem_of_cons; [by left|..|by apply IH].
  - destruct (tiling_block _ _ _ _ c Ht Hc) as (? & _). cbn. tauto.
  - destruct (tiling_block _ _ _ _ b Ht Hb) as (? & _). cbn. tauto.
Qed.

Lemma tiling_cover bm l i e x : tiling bm i e l -> i <= x < e -> exists b, b ∈ l /\ block_has b x.
Proof.
  induction 1 as [e|i e o al l Hg Hi Ho Hd Ht IH]; intros Hx; [lia|].
  destruct (Z.lt_ge_cases x (i + 2 ^ o)) as [Hlt|Hge].
  - exists (Block i o al). split; [set_solver|]. unfold block_has. cbn. lia.
  - destruct (IH ltac:(lia)) as (b & Hb & ?). exists b. split; [set_solver|done].
Qed.

(** Blocks with a common index are the same. *)
Lemma tiling_same bm l i e b c x :
  tiling bm i e l -> b ∈ l -> c ∈ l -> block_has b x -> block_has c x -> b = c.
Proof.
  intros Ht Hb Hc H1 H2. destruct (tiling_apart _ _ _ _ b c Ht Hb Hc) as [?|?]; [done|].
  unfold block_has in *. lia.
Qed.

Lemma block_start bm l i e b : tiling bm i e l -> b ∈ l -> block_has b (b_start b).
Proof.
  intros Ht Hb. destruct (tiling_block _ _ _ _ b Ht Hb) as (_ & _ & Ho & _). unfold block_has.
  assert (0 < 2 ^ b_order b) by (apply Z.pow_pos_nonneg; lia). lia.
Qed.

(** ** Buddies *)

Lemma lxor_1 m : Z.lxor m 1 = if Z.even m then m + 1 else m - 1.
Proof.
  assert (forall q, Z.lxor (2 * q) 1 = 2 * q + 1) as H.
  { intros q. symmetry. apply Z.add_nocarry_lxor. change 1 with (2 ^ 1 - 1). rewrite land_pow2_mod by lia.
    change (2 ^ 1) with 2. rewrite Z.mul_comm. apply Z.mod_mul. lia. }
  destruct (Z.even m) eqn:E.
  - apply Z.even_spec in E as [q ->]. apply H.
  - assert (Z.odd m = true) as Eo by (by rewrite <- Z.negb_even, E). apply Z.odd_spec in Eo as [q ->].
    rewrite <- H, Z.lxor_assoc, Z.lxor_nilpotent, Z.lxor_0_r, H. lia.
Qed.

(** The buddy of an aligned index is its upper or its lower neighbour. *)
Lemma buddy_cases k c :
  0 <= k -> (2 ^ k | c) ->
  (2 ^ (k + 1) | c) /\ Z.lxor c (2 ^ k) = c + 2 ^ k \/
  (2 ^ (k + 1) | c - 2 ^ k) /\ Z.lxor c (2 ^ k) = c - 2 ^ k.
Proof.
  intros Hk [m ->]. rewrite Z.pow_add_r by lia. change (2 ^ 1) with 2.
  assert (Z.lxor (m * 2 ^ k) (2 ^ k) = Z.lxor m 1 * 2 ^ k) as ->.
  { rewrite <- (Z.mul_1_l (2 ^ k)) at 2. rewrite <- !Z.shiftl_mul_pow2 by lia. by rewrite Z.shiftl_lxor. }
  rewrite lxor_1. destruct (Z.even m) eqn:E.
  - left. apply Z.even_spec in E as [q ->]. split; [exists q; lia|lia].
  - right. assert (Z.odd m = true) as Eo by (by rewrite <- Z.negb_even, E). apply Z.odd_spec in Eo as [q ->].
    split; [exists q; lia|lia].
Qed.

Lemma lxor_twice c k : Z.lxor (Z.lxor c k) k = c.
Proof. by rewrite Z.lxor_assoc, Z.lxor_nilpotent, Z.lxor_0_r. Qed.

(** ** The search *)

Section slots.
Context (bm : list pmem_bits) (i : Z) (al : bool) (o : Z).
Context (Hg : array_get bm i = Some (Bits al o)) (Ho : 0 <= o < 30).

Lemma slot_order : PMEM_BUDDY_ORDER bm i = Some o.
Proof using Hg. unfold PMEM_BUDDY_ORDER. by rewrite Hg. Qed.

Lemma slot_free : PMEM_IS_FREE_BUDDY bm i = Some (negb al).
Proof using Hg. unfold PMEM_IS_FREE_BUDDY. by rewrite Hg. Qed.

Lemma slot_pow : s32 (Z.shiftl 1 o) = 2 ^ o /\ 0 < 2 ^ o < 2 ^ 30.
Proof using Ho.
  assert (2 ^ o < 2 ^ 30) by (apply Z.pow_lt_mono_r; lia). assert (0 < 2 ^ o) by (apply Z.pow_pos_nonneg; lia).
  rewrite Z.shiftl_mul_pow2, Z.mul_1_l by lia. split; [|lia]. apply s32_small. lia.
Qed.

Lemma slot_next : 0 <= i < 2 ^ 30 -> PMEM_BUDDY_NEXT_INDEX bm i = Some (i + 2 ^ o).
Proof using Hg Ho.
  intros Hi. unfold PMEM_BUDDY_NEXT_INDEX. rewrite slot_order. cbn [mbind option_bind].
  destruct slot_pow as [-> ?]. f_equal. apply s32_small. lia.
Qed.

Lemma slot_buddy : PMEM_BUDDY_INDEX bm i = Some (Z.lxor i (2 ^ o)).
Proof using Hg Ho.
  unfold PMEM_BUDDY_INDEX. rewrite slot_order. cbn [mbind option_bind]. by destruct slot_pow as [-> _].
Qed.
End slots.

Lemma elem_of_snoc {A} (x y : A) l : x ∈ l ++ [y] -> x ∈ l \/ x = y.
Proof. rewrite elem_of_app, list_elem_of_singleton. done. Qed.

(** The best of the blocks seen so far. *)
Definition best_of (l : list block) (o best : Z) : Prop :=
  best = -1 /\ (forall b, b ∈ l -> b_alloc b = false -> b_order b < o) \/
  exists ob, Block best ob false ∈ l /\ o <= ob /\
    forall b, b ∈ l -> b_alloc b = false -> b_order b < o \/ ob <= b_order b.

Lemma best_of_snoc l o best b :
  best_of l o best -> b_alloc b = true \/ b_order b < o -> best_of (l ++ [b]) o best.
Proof.
  intros [[-> H]|(ob & Hin & Ho & H)] Hb; [left|right; exists ob].
  - split; [done|]. intros c [Hc| ->]%elem_of_snoc Hf; [auto|].
    destruct Hb; [congruence|done].
  - split_and!; [set_solver|done|]. intros c [Hc| ->]%elem_of_snoc Hf; [auto|].
    destruct Hb; [congruence|auto].
Qed.

(** One more free block of an order above [o]. *)
Lemma best_of_free l o best i oi :
  best_of l o best -> o < oi ->
  (best < 0 \/ exists ob, Block best ob false ∈ l /\ oi < ob) -> 0 <= i ->
  (forall b, b ∈ l -> 0 <= b_start b) -> (forall ob ob', Block best ob false ∈ l -> Block best ob' false ∈ l -> ob = ob') ->
  best_of (l ++ [Block i oi false]) o i.
Proof.
  intros Hb Ho Hbetter Hi Hpos Huniq. right. exists oi. split_and!; [set_solver|lia|].
  intros c [Hc| ->]%elem_of_snoc Hf; [|cbn; lia].
  destruct Hb as [[-> H]|(ob & Hin & Ho' & H)]; [left; by apply H|].
  destruct Hbetter as [Hneg|(ob' & Hin' & Hlt)]; [specialize (Hpos _ Hin); cbn in Hpos; lia|].
  rewrite <- (Huniq _ _ Hin Hin') in Hlt. destruct (H c Hc Hf); lia.
Qed.

Lemma buddy_scan_spec bm n l o :
  tiling bm 0 n l -> n < 2 ^ 30 -> 0 <= o < 2 ^ 8 ->
  forall fuel l1 l2 curr best, l = l1 ++ l2 -> tiling bm curr n l2 -> (Z.to_nat (n - curr) <= fuel)%nat ->
  best_of l1 o best -> exists r, buddy_scan fuel n bm o curr best = Some r /\ best_of l o r.
Proof.
  intros Htl Hn Ho. assert (u8 o = o) as Eo by (apply Z.mod_small; lia).
  assert (forall b, b ∈ l -> 0 <= b_start b) as Hpos by (intros b Hb; by apply (tiling_block _ _ _ _ b Htl Hb)).
  assert (forall i ob ob', Block i ob false ∈ l -> Block i ob' false ∈ l -> ob = ob') as Huniq.
  { intros i ob ob' H1 H2. destruct (tiling_block _ _ _ _ _ Htl H1) as (_ & _ & _ & _ & _ & G1).
    destruct (tiling_block _ _ _ _ _ Htl H2) as (_ & _ & _ & _ & _ & G2). cbn in *. congruence. }
  induction fuel as [|fuel IH]; intros l1 l2 curr best El Ht Hf Hbest.
  all: inversion Ht as [e|i e oc al l' Hg Hi Hoc Hd Ht']; subst; cbn [buddy_scan].
  1, 3: rewrite Z.ltb_irrefl; exists best; rewrite app_nil_r; done.
  1: pose proof (tiling_le _ _ _ _ Ht'); assert (0 < 2 ^ oc) by (apply Z.pow_pos_nonneg; lia); lia.
  pose proof (tiling_le _ _ _ _ Ht') as Hle. assert (0 < 2 ^ oc) as Hp by (apply Z.pow_pos_nonneg; lia).
  assert (curr < n) as Hcn by lia. apply Z.ltb_lt in Hcn. rewrite Hcn.
  rewrite (slot_free _ _ _ _ Hg), (slot_order _ _ _ _ Hg), (slot_next _ _ _ _ Hg Hoc) by lia. cbn [mbind option_bind].
  assert (l1 ++ Block curr oc al :: l' = (l1 ++ [Block curr oc al]) ++ l') as Eapp by (by rewrite <- app_assoc).
  rewrite Eo. destruct al; cbn [negb].
  { destruct (IH (l1 ++ [Block curr oc true]) l' (curr + 2 ^ oc) best) as (r & Hr & Hbr); try done; [lia| |eauto].
    apply best_of_snoc; [done|by left]. }
  destruct (Z.eqb_spec oc o) as [->|Hne].
  { exists curr. split; [done|]. right. exists o. split_and!; [set_solver|done|].
    intros b Hb Hfb. destruct (Z.lt_ge_cases (b_order b) o); [by left|by right]. }
  destruct (Z.ltb_spec o oc) as [Hlt|Hge]; cbn [mbind option_bind].
  2: { destruct (IH (l1 ++ [Block curr oc false]) l' (curr + 2 ^ oc) best) as (r & Hr & Hbr); try done; [lia| |eauto].
       apply best_of_snoc; [done|right; cbn; lia]. }
  assert (forall ob, Block best ob false ∈ l1 -> PMEM_BUDDY_ORDER bm best = Some ob) as Hord.
  { intros ob Hin. destruct (tiling_block _ _ _ _ (Block best ob false) Htl) as (_ & _ & _ & _ & _ & G);
      [set_solver|]. by apply (slot_order _ _ _ _ G). }
  assert (exists better : bool, (if best <? 0 then Some true else ob ← PMEM_BUDDY_ORDER bm best; Some (oc <? ob)) = Some better /\
    best_of (l1 ++ [Block curr oc false]) o (if better then curr else best)) as (better & -> & Hnew).
  { destruct (Z.ltb_spec best 0) as [Hneg|Hpb].
    - exists true. split; [done|]. apply (best_of_free l1 o best curr oc); try done; [by left|set_solver|].
      intros ob ob' H1 H2. apply (Huniq best); set_solver.
    - destruct Hbest as [[-> _]|(ob & Hin & Hob & Hmin)]; [lia|]. rewrite (Hord ob Hin). eexists. split; [done|].
      destruct (Z.ltb_spec oc ob).
      + apply (best_of_free l1 o best curr oc); try done; [right; eauto|right; eauto|set_solver|].
        intros ob1 ob2 H1 H2. apply (Huniq best); set_solver.
      + right. exists ob. split_and!; [set_solver|done|].
        intros b [Hc| ->]%elem_of_snoc Hfb; [auto|right; done]. }
  cbn [mbind option_bind].
  destruct (IH (l1 ++ [Block curr oc false]) l' (curr + 2 ^ oc) (if better then curr else best))
    as (r & Hr & Hbr); try done; [lia|eauto].
Qed.

(** ** Splitting *)

(** The free upper halves that [m] splits of the block at [b] leave. *)
Fixpoint halves (b o : Z) (m : nat) : list block :=
  match m with
  | O => []
  | S m' => halves b o m' ++ [Block (b + 2 ^ (o + Z.of_nat m')) (o + Z.of_nat m') false]
  end.

Lemma set_order_small al o o' : 0 <= o < 30 -> set_order o (Bits al o') = Bits al o.
Proof. intros. unfold set_order. cbn. f_equal. apply Z.mod_small. lia. Qed.

Lemma pow2_half o : 0 <= o -> 2 ^ (o + 1) = 2 ^ o + 2 ^ o.
Proof. intros. rewrite Z.pow_add_r by lia. lia. Qed.

(** One split. *)
Lemma split_step bm n l1 l2 b ob :
  let l := l1 ++ Block b ob false :: l2 in
  let l' := l1 ++ Block b (ob - 1) false :: Block (b + 2 ^ (ob - 1)) (ob - 1) false :: l2 in
  tiling bm 0 n l -> no_stale bm l -> zlen bm = n -> 0 < ob ->
  exists bm1 bm2, array_upd bm b (set_order (ob - 1)) = Some bm1 /\
    PMEM_BUDDY_INDEX bm1 b = Some (b + 2 ^ (ob - 1)) /\ PMEM_BUDDY_ORDER bm1 b = Some (ob - 1) /\
    array_upd bm1 (b + 2 ^ (ob - 1)) (set_order (ob - 1)) = Some bm2 /\
    tiling bm2 0 n l' /\ no_stale bm2 l' /\ zlen bm2 = n.
Proof.
  intros l l' Ht Hst Hz Hob. set (h := 2 ^ (ob - 1)).
  assert (Block b ob false ∈ l) as Hin by set_solver.
  destruct (tiling_block _ _ _ _ _ Ht Hin) as (_ & He & Ho & Hb0 & Hd & Hg). cbn in *.
  assert (2 ^ ob = h + h) as Eh by (unfold h; rewrite <- pow2_half by lia; f_equal; lia).
  assert (0 < h) as Hh by (apply Z.pow_pos_nonneg; lia).
  destruct (array_upd_lookup bm b (set_order (ob - 1)) _ Hg) as (bm1 & E1 & Z1 & G1).
  rewrite set_order_small in G1 by lia.
  assert (array_get bm1 b = Some (Bits false (ob - 1))) as Hg1 by (by rewrite G1, decide_True).
  destruct (array_get_lt bm (b + h)) as [[al oh] Hgh]; [lia|].
  assert (al = false) as ->.
  { destruct al; [|done]. destruct (Hst (b + h) _ Hgh eq_refl) as (o' & Hin').
    assert (Block b ob false = Block (b + h) o' true) as E; [|injection E; lia].
    apply (tiling_same _ _ _ _ _ _ (b + h) Ht Hin Hin'); [unfold block_has; cbn; lia|].
    exact (block_start _ _ _ _ _ Ht Hin'). }
  assert (array_get bm1 (b + h) = Some (Bits false oh)) as Hgh1 by (by rewrite G1, decide_False by lia).
  destruct (array_upd_lookup bm1 (b + h) (set_order (ob - 1)) _ Hgh1) as (bm2 & E2 & Z2 & G2).
  rewrite set_order_small in G2 by lia.
  assert (forall j, j <> b -> j <> b + h -> array_get bm2 j = array_get bm j) as Gne.
  { intros j H1 H2. by rewrite G2, G1, !decide_False. }
  assert (array_get bm2 b = Some (Bits false (ob - 1))) as Gb by (by rewrite G2, decide_False by lia).
  assert (array_get bm2 (b + h) = Some (Bits false (ob - 1))) as Gh by (by rewrite G2, decide_True).
  exists bm1, bm2. split_and!; [done| |exact (slot_order _ _ _ _ Hg1)|done| | |lia].
  - rewrite (slot_buddy _ _ _ _ Hg1) by lia. f_equal. fold h.
    destruct (buddy_cases (ob - 1) b) as [[_ ?]|[Hd' _]]; [lia| |done|exfalso].
    + apply Z.divide_trans with (m := 2 ^ ob); [|done]. rewrite Eh. exists 2. lia.
    + replace (ob - 1 + 1) with ob in Hd' by lia. fold h in Hd'.
      assert (2 ^ ob | h) as Hdh by (apply Z.divide_add_cancel_r with (m := b - h); [done|]; by replace (b - h + h) with b by lia).
      apply Z.divide_pos_le in Hdh; lia.
  - unfold l, l' in *. apply tiling_app in Ht as (m & T1 & T2).
    inversion T2 as [|i0 e0 o0 al0 l0 Hg0 Hi0 Ho0 Hd0 T3]; subst. apply tiling_app. exists b.
    assert (forall c, c ∈ l1 -> b_start c <> b /\ b_start c <> b + h) as N1.
    { intros c Hc. destruct (tiling_block _ _ _ _ c T1 Hc) as (_ & ? & ? & _).
      assert (0 < 2 ^ b_order c) by (apply Z.pow_pos_nonneg; lia). lia. }
    assert (forall c, c ∈ l2 -> b_start c <> b /\ b_start c <> b + h) as N2.
    { intros c Hc. destruct (tiling_block _ _ _ _ c T3 Hc) as (? & _). lia. }
    split; [eapply tiling_ext; [exact T1|intros c Hc; apply Gne; by apply N1]|].
    assert ((2 ^ (ob - 1) | b)) as Hd1.
    { apply Z.divide_trans with (m := 2 ^ ob); [|done]. rewrite Eh. exists 2. fold h. lia. }
    constructor; [done|lia|lia|done|]. fold h.
    constructor; [done|lia|lia|apply Z.divide_add_r; [done|apply Z.divide_refl]|]. fold h.
    replace (b + h + h) with (b + 2 ^ ob) by lia. eapply tiling_ext; [exact T3|].
    intros c Hc. apply Gne; by apply N2.
  - intros j x. rewrite G2. case_decide as Hj; [by intros [= <-]|]. rewrite G1.
    case_decide; [by intros [= <-]|]. intros Hx Ha. destruct (Hst j x Hx Ha) as (o' & Hin'). exists o'.
    unfold l, l' in *. set_solver.
Qed.

Lemma buddy_split_spec n l1 b o : forall m fuel bm l2,
  let l := l1 ++ Block b (o + Z.of_nat m) false :: l2 in
  let l' := l1 ++ Block b o false :: halves b o m ++ l2 in
  tiling bm 0 n l -> no_stale bm l -> zlen bm = n -> 0 <= o -> (m <= fuel)%nat ->
  exists bm', buddy_split fuel bm o b = Some bm' /\ tiling bm' 0 n l' /\ no_stale bm' l' /\ zlen bm' = n.
Proof.
  induction m as [|m IH]; intros fuel bm l2 l l' Ht Hst Hz Ho Hf.
  all: edestruct (tiling_block bm l 0 n) as (_ & _ & Hob & _ & _ & Hg);
    [done|apply elem_of_app; right; left|cbn in Hob, Hg].
  all: assert (u8 o = o) as Eo by (apply Z.mod_small; lia).
  - exists bm. unfold l, l' in *. rewrite Z.add_0_r in *. split; [|done].
    destruct fuel; cbn [buddy_split]; rewrite (slot_order _ _ _ _ Hg); cbn [mbind option_bind];
      by rewrite Eo, Z.ltb_irrefl.
  - destruct fuel as [|fuel]; [lia|]. cbn [buddy_split]. rewrite (slot_order _ _ _ _ Hg). cbn [mbind option_bind].
    rewrite Eo. destruct (Z.ltb_spec o (o + Z.of_nat (S m))); [|lia].
    destruct (split_step bm n l1 l2 b (o + Z.of_nat (S m))) as (bm1 & bm2 & E1 & E2 & E3 & E4 & Ht' & Hst' & Hz');
      [done|done|done|lia|].
    rewrite E1. cbn [mbind option_bind]. rewrite E2. cbn [mbind option_bind]. rewrite E3. cbn [mbind option_bind].
    rewrite E4. cbn [mbind option_bind]. replace (o + Z.of_nat (S m) - 1) with (o + Z.of_nat m) in * by lia.
    destruct (IH fuel bm2 (Block (b + 2 ^ (o + Z.of_nat m)) (o + Z.of_nat m) false :: l2))
      as (bm' & E & K1 & K2 & K3); [done|done|done|done|lia|].
    exists bm'. split; [done|]. unfold l'. cbn [halves]. by rewrite <- app_assoc.
Qed.

Lemma halves_elem b o m x : x ∈ halves b o m <-> exists k, o <= k < o + Z.of_nat m /\ x = Block (b + 2 ^ k) k false.
Proof.
  induction m as [|m IH]; cbn [halves].
  - split; [set_solver|]. intros (k & ? & _). lia.
  - rewrite elem_of_app, IH, list_elem_of_singleton. split.
    + intros [(k & ? & ->)| ->]; eexists; (split; [|done]); lia.
    + intros (k & ? & ->). destruct (decide (k = o + Z.of_nat m)) as [->|]; [by right|left].
      exists k. split; [lia|done].
Qed.

Lemma divide_pow2 j k x : 0 <= j <= k -> (2 ^ k | x) -> (2 ^ j | x).
Proof.
  intros H. apply Z.divide_trans. exists (2 ^ (k - j)). rewrite <- Z.pow_add_r by lia. f_equal. lia.
Qed.

(** The buddy of an upper half is the block itself. *)
Lemma half_buddy b k : 0 <= k -> (2 ^ (k + 1) | b) -> Z.lxor (b + 2 ^ k) (2 ^ k) = b /\ Z.lxor b (2 ^ k) = b + 2 ^ k.
Proof.
  intros Hk Hd. destruct (buddy_cases k b) as [[_ E]|[Hd' _]]; [lia|by apply (divide_pow2 k (k + 1)); [lia|]|..].
  - split; [|done]. rewrite <- E. apply lxor_twice.
  - exfalso. assert ((2 ^ (k + 1) | 2 ^ k)) as Hx.
    { apply Z.divide_add_cancel_r with (m := b - 2 ^ k); [done|]. by replace (b - 2 ^ k + 2 ^ k) with b by lia. }
    rewrite pow2_half in Hx by lia. assert (0 < 2 ^ k) by (apply Z.pow_pos_nonneg; lia).
    apply Z.divide_pos_le in Hx; lia.
Qed.

(** Two blocks of one tiling that start together are the same. *)
Lemma start_unique bm n l i o al o' al' :
  tiling bm 0 n l -> Block i o al ∈ l -> Block i o' al' ∈ l -> o = o' /\ al = al'.
Proof.
  intros Ht H1 H2. destruct (tiling_block _ _ _ _ _ Ht H1) as (_ & _ & _ & _ & _ & G1).
  destruct (tiling_block _ _ _ _ _ Ht H2) as (_ & _ & _ & _ & _ & G2). cbn in *. by simplify_eq.
Qed.

(** The split that an allocation leaves has no free buddies either. *)
Lemma coalesced_alloc bm n l1 l2 b o m :
  let l := l1 ++ Block b (o + Z.of_nat m) false :: l2 in
  let l' := l1 ++ Block b o true :: halves b o m ++ l2 in
  coalesced l -> tiling bm 0 n l' -> 0 <= o -> (2 ^ (o + Z.of_nat m) | b) -> coalesced l'.
Proof.
  intros l l' Hc Ht Ho Hd. assert (Block b o true ∈ l') as Hb by (unfold l'; set_solver).
  assert (forall i k, Block i k false ∈ l' -> i <> b) as Hnb.
  { intros i k Hi ->. destruct (start_unique bm n l' _ _ _ _ _ Ht Hb Hi). done. }
  assert (forall i k, Block i k false ∈ l' -> Block i k false ∈ l \/ Z.lxor i (2 ^ k) = b) as Hcase.
  { intros i k Hi. unfold l' in Hi. rewrite elem_of_app, elem_of_cons, elem_of_app, halves_elem in Hi.
    destruct Hi as [?|[?|[(k' & ? & [= -> <-])|?]]]; [left; unfold l; set_solver|done|right|left; unfold l; set_solver].
    apply half_buddy; [lia|]. by apply (divide_pow2 (k + 1) (o + Z.of_nat m)); [lia|]. }
  intros i j k Hi Hj E. destruct (Hcase i k Hi) as [Hi'|Ei]; [|rewrite Ei in E; by apply (Hnb j k Hj)].
  destruct (Hcase j k Hj) as [Hj'|Ej]; [by apply (Hc i j k)|].
  rewrite E, lxor_twice in Ej. by apply (Hnb i k Hi).
Qed.

(** ** Allocation *)

Lemma order_loop_spec len : forall fuel i,
  0 <= i -> 0 <= len < 2 ^ (i + Z.of_nat fuel) ->
  let r := order_loop fuel len i in
  i <= r <= i + Z.of_nat fuel /\ len < 2 ^ r /\ (i < r -> 2 ^ (r - 1) <= len).
Proof.
  induction fuel as [|fuel IH]; intros i Hi Hl; cbn [order_loop].
  { rewrite Z.add_0_r in *. lia. }
  rewrite Z.shiftr_div_pow2 by lia. assert (0 < 2 ^ i) by (apply Z.pow_pos_nonneg; lia). case_if.
  - split; [lia|]. split; [|lia]. apply Z.div_small_iff in Heqb; lia.
  - assert (2 ^ i <= len) as Hge.
    { destruct (Z.lt_ge_cases len (2 ^ i)); [|done]. rewrite Z.div_small in Heqb by lia. done. }
    destruct (IH (i + 1)) as (H1 & H2 & H3); [lia|by replace (i + 1 + Z.of_nat fuel) with (i + Z.of_nat (S fuel)) by lia|].
    set (r := order_loop fuel len (i + 1)) in *. split; [lia|]. split; [done|].
    intros _. destruct (Z.eq_dec r (i + 1)) as [->|]; [by replace (i + 1 - 1) with i by lia|]. apply H3. lia.
Qed.

(** [pmem_order] is the smallest order whose blocks hold [len] bytes. *)
Lemma pmem_order_spec p len :
  0 < quantum p -> 0 < len -> len + quantum p - 1 < 2 ^ 32 ->
  let o := pmem_order p len in
  0 <= o <= 32 /\ len <= 2 ^ o * quantum p /\ (0 < o -> 2 ^ (o - 1) * quantum p < len).
Proof.
  intros Hq Hl Hb. unfold pmem_order. rewrite (u32_small (len + quantum p - 1)) by lia.
  set (q := (len + quantum p - 1) / quantum p). assert (0 < q) by (apply Z.div_str_pos; lia).
  assert (q < 2 ^ 32) by (apply Z.div_lt_upper_bound; [lia|nia]).
  rewrite u32_small by lia.
  destruct (order_loop_spec (q - 1) 32 0) as (H1 & H2 & H3); [lia|change (0 + Z.of_nat 32) with 32; lia|].
  set (o := order_loop 32 (q - 1) 0) in *. cbn zeta.
  pose proof (Z.mul_div_le (len + quantum p - 1) (quantum p)) as M1.
  pose proof (Z.mul_succ_div_gt (len + quantum p - 1) (quantum p)) as M2. fold q in M1, M2.
  split; [lia|]. split; [nia|]. intros Ho. specialize (H3 Ho). nia.
Qed.

Lemma set_allocated_step bm n l1 l2 b o al al' :
  let l := l1 ++ Block b o al :: l2 in
  let l' := l1 ++ Block b o al' :: l2 in
  tiling bm 0 n l -> no_stale bm l -> zlen bm = n ->
  exists bm', array_upd bm b (set_allocated al') = Some bm' /\ tiling bm' 0 n l' /\ no_stale bm' l' /\ zlen bm' = n.
Proof.
  intros l l' Ht Hst Hz. edestruct (tiling_block bm l 0 n) as (_ & _ & Ho & _ & _ & Hg);
    [done|apply elem_of_app; right; left|cbn in Hg].
  destruct (array_upd_lookup bm b (set_allocated al') _ Hg) as (bm' & E & Z' & G). unfold set_allocated in G. cbn in G.
  exists bm'. split_and!; [done| | |lia].
  - unfold l, l' in *. apply tiling_app in Ht as (m & T1 & T2).
    inversion T2 as [|i0 e0 o0 al0 l0 Hg0 Hi0 Ho0 Hd0 T3]; subst. apply tiling_app. exists b.
    assert (0 < 2 ^ o) by (apply Z.pow_pos_nonneg; lia).
    split; [|constructor; try done; [by rewrite G, decide_True|]]; (eapply tiling_ext; [eassumption|]);
      intros c Hc; rewrite G; apply decide_False.
    + destruct (tiling_block _ _ _ _ c T1 Hc) as (_ & ? & ? & _).
      assert (0 < 2 ^ b_order c) by (apply Z.pow_pos_nonneg; lia). lia.
    + destruct (tiling_block _ _ _ _ c T3 Hc) as (? & _). lia.
  - intros j x. rewrite G. case_decide as Hj.
    + intros [= <-] Ha. cbn in Ha. subst. exists o. unfold l'. set_solver.
    + intros Hx Ha. destruct (Hst j x Hx Ha) as (o' & Hin). exists o'. unfold l, l' in *.
      rewrite elem_of_app, elem_of_cons in *. destruct Hin as [?|[[= -> _ _]|?]]; tauto.
Qed.

Lemma buddy_alloc_spec p bm l len :
  buddy_ok (num_entries p) bm l -> 0 < quantum p -> 0 < len -> len + quantum p - 1 < 2 ^ 32 ->
  let o := pmem_order p len in
  exists bm' r l', pmem_allocator_buddy_bestfit p bm len = Some (bm', r) /\ buddy_ok (num_entries p) bm' l' /\
    (r = -1 /\ bm' = bm /\ l' = l /\ (forall b, b ∈ l -> b_alloc b = false -> b_order b < o) \/
     exists l1 l2 m, l = l1 ++ Block r (o + Z.of_nat m) false :: l2 /\
       l' = l1 ++ Block r o true :: halves r o m ++ l2 /\
       forall b, b ∈ l -> b_alloc b = false -> b_order b < o \/ o + Z.of_nat m <= b_order b).
Proof.
  intros Hok Hq Hl Hb o. destruct (pmem_order_spec p len Hq Hl Hb) as (Ho & _). fold o in Ho.
  destruct Hok as [Hz Hmax Ht Hst Hco]. unfold pmem_allocator_buddy_bestfit. fold o. unfold PMEM_MAX_ORDER.
  case_if; [lia|].
  destruct (buddy_scan_spec bm (num_entries p) l o Ht ltac:(lia) ltac:(lia) (Z.to_nat (num_entries p)) [] l 0 (-1))
    as (r & -> & Hr); [done|done|lia|left; split; [done|set_solver]|]. cbn [mbind option_bind].
  destruct Hr as [[-> Hno]|(ob & Hin & Hob & Hmin)].
  { exists bm, (-1), l. split; [done|]. split; [done|]. by left. }
  destruct (tiling_block _ _ _ _ _ Ht Hin) as (_ & _ & Hr30 & Hr0 & Hd & _). cbn in Hr30, Hr0, Hd. case_if; [lia|].
  apply list_elem_of_split in Hin as (l1 & l2 & ->).
  assert (ob = o + Z.of_nat (Z.to_nat (ob - o))) as Em by lia. set (m := Z.to_nat (ob - o)) in *. clearbody m. subst ob.
  destruct (buddy_split_spec (num_entries p) l1 r o m 128 bm l2) as (bm1 & -> & T1 & S1 & Z1); [done|done|done|lia|lia|].
  cbn [mbind option_bind].
  destruct (set_allocated_step bm1 (num_entries p) l1 (halves r o m ++ l2) r o false true T1 S1 Z1)
    as (bm2 & -> & T2 & S2 & Z2). cbn [mbind option_bind].
  eexists bm2, r, _. split; [done|]. split; [|by right; exists l1, l2, m].
  split; try done. by eapply coalesced_alloc; [| |lia|].
Qed.

(** ** Release *)

(** The index of a buddy is the start of a block. *)
Lemma buddy_head bm n l c k al :
  tiling bm 0 n l -> Block c k al ∈ l -> Z.lxor c (2 ^ k) < n ->
  exists o' al', Block (Z.lxor c (2 ^ k)) o' al' ∈ l.
Proof.
  intros Ht Hc Hn. destruct (tiling_block _ _ _ _ _ Ht Hc) as (_ & He & Hk & Hc0 & Hd & _). cbn in He, Hk, Hc0, Hd.
  assert (0 < 2 ^ k) as Hp by (apply Z.pow_pos_nonneg; lia).
  destruct (buddy_cases k c ltac:(lia) Hd) as [[_ E]|[Hd' E]]; rewrite E in *.
  - apply list_elem_of_split in Hc as (l1 & l2 & ->). apply tiling_app in Ht as (m & _ & T2).
    inversion T2 as [|i0 e0 o0 al0 l0 Hg0 Hi0 Ho0 Hd0 T3]; subst.
    inversion T3 as [e1|i1 e1 o1 al1 l3 Hg1 Hi1 Ho1 Hd1 T4]; subst; [lia|]. exists o1, al1. set_solver.
  - assert (0 <= c - 2 ^ k) as Hlo.
    { destruct Hd' as [q Hq]. assert (0 < 2 ^ (k + 1)) by (apply Z.pow_pos_nonneg; lia).
      rewrite pow2_half in * by lia. assert (0 <= q) by nia. nia. }
    destruct (tiling_cover bm l 0 n (c - 2 ^ k) Ht ltac:(lia)) as ([h o al'] & Hb & Hhas).
    destruct (tiling_block _ _ _ _ _ Ht Hb) as (_ & _ & Ho & _ & Hdh & _). unfold block_has in Hhas. cbn in Hhas, Ho, Hdh.
    assert (h + 2 ^ o <= c) as Hend.
    { destruct (tiling_apart _ _ _ _ _ _ Ht Hb Hc) as [E'|[?|?]]; cbn in *; [injection E'; lia|lia|lia]. }
    assert (h = c - 2 ^ k) as <-; [|eauto]. destruct (Z.le_gt_cases o k) as [Hok|Hok].
    + assert (2 ^ o | c - 2 ^ k) as [q1 E1] by (apply (divide_pow2 o (k + 1)); [lia|done]).
      destruct Hdh as [q2 E2]. rewrite E1, E2 in Hhas |- *. assert (0 < 2 ^ o) by (apply Z.pow_pos_nonneg; lia).
      assert (q2 <= q1 < q2 + 1) by nia. f_equal. lia.
    + exfalso. assert ((2 ^ (k + 1) | h + 2 ^ o)) as [q1 E1].
      { apply Z.divide_add_r; [by apply (divide_pow2 (k + 1) o); [lia|]|].
        apply (divide_pow2 (k + 1) o); [lia|apply Z.divide_refl]. }
      destruct Hd' as [q2 E2]. rewrite pow2_half in E1, E2 by lia.
      assert (q2 < q1) by nia. assert (q1 < q2 + 1) by nia. lia.
Qed.

(** Two neighbours of one order in a tiling. *)
Lemma neighbours bm n l lo k al al' :
  tiling bm 0 n l -> Block lo k al ∈ l -> Block (lo + 2 ^ k) k al' ∈ l ->
  exists l1 l2, l = l1 ++ Block lo k al :: Block (lo + 2 ^ k) k al' :: l2.
Proof.
  intros Ht H1 H2. pose proof Ht as Ht'. destruct (tiling_block _ _ _ _ _ Ht H2) as (_ & He & Hk & _). cbn in He, Hk.
  assert (0 < 2 ^ k) by (apply Z.pow_pos_nonneg; lia).
  apply list_elem_of_split in H1 as (l1 & l2 & ->). apply tiling_app in Ht as (m & _ & T2).
  inversion T2 as [|i0 e0 o0 al0 l0 Hg0 Hi0 Ho0 Hd0 T3]; subst.
  inversion T3 as [e1|i1 e1 o1 al1 l3 Hg1 Hi1 Ho1 Hd1 T4]; subst; [lia|].
  destruct (start_unique _ _ _ (lo + 2 ^ k) o1 al1 k al' Ht') as [-> ->]; [set_solver|done|eauto].
Qed.

(** One merge: both slots get the next order, the lower one is the block. *)
Lemma merge_step bm n l1 l2 lo k :
  let hi := lo + 2 ^ k in
  let l := l1 ++ Block lo k false :: Block hi k false :: l2 in
  let l' := l1 ++ Block lo (k + 1) false :: l2 in
  forall c d, c = lo /\ d = hi \/ c = hi /\ d = lo ->
  tiling bm 0 n l -> no_stale bm l -> zlen bm = n -> n < 2 ^ 30 -> (2 ^ (k + 1) | lo) ->
  exists bm1 bm2, array_upd bm d (set_order (k + 1)) = Some bm1 /\ PMEM_BUDDY_ORDER bm1 c = Some k /\
    array_upd bm1 c (set_order (k + 1)) = Some bm2 /\ tiling bm2 0 n l' /\ no_stale bm2 l' /\ zlen bm2 = n.
Proof.
  intros hi l l' c d Hcd Ht Hst Hz Hn Hd.
  assert (Block lo k false ∈ l /\ Block hi k false ∈ l) as [Hlo Hhi] by (unfold l; set_solver).
  destruct (tiling_block _ _ _ _ _ Ht Hlo) as (_ & _ & Hk & Hlo0 & _ & Glo).
  destruct (tiling_block _ _ _ _ _ Ht Hhi) as (_ & He & _ & _ & _ & Ghi). cbn in Hk, Hlo0, He, Glo, Ghi.
  assert (0 < 2 ^ k) as Hp by (apply Z.pow_pos_nonneg; lia).
  assert (k + 1 < 30) as Hk30.
  { destruct (Z.lt_ge_cases (k + 1) 30); [done|]. assert (2 ^ 30 <= 2 ^ (k + 1)) by (apply Z.pow_le_mono_r; lia).
    rewrite pow2_half in * by lia. unfold hi in *. lia. }
  assert (array_get bm d = Some (Bits false k)) as Gd by (destruct Hcd as [[_ ->]|[_ ->]]; done).
  assert (array_get bm c = Some (Bits false k)) as Gc by (destruct Hcd as [[-> _]|[-> _]]; done).
  assert (c <> d) as Hne by (unfold hi in *; lia).
  destruct (array_upd_lookup bm d (set_order (k + 1)) _ Gd) as (bm1 & E1 & Z1 & G1).
  assert (array_get bm1 c = Some (Bits false k)) as Gc1 by (by rewrite G1, decide_False).
  destruct (array_upd_lookup bm1 c (set_order (k + 1)) _ Gc1) as (bm2 & E2 & Z2 & G2).
  rewrite set_order_small in G1, G2 by lia.
  assert (forall j, j <> lo -> j <> hi -> array_get bm2 j = array_get bm j) as Gne.
  { intros j H1 H2. rewrite G2, G1, !decide_False by lia. done. }
  assert (array_get bm2 lo = Some (Bits false (k + 1))) as Gl.
  { rewrite G2, G1. repeat case_decide; try done. lia. }
  exists bm1, bm2. split_and!; [done|exact (slot_order _ _ _ _ Gc1)|done| | |lia].
  - unfold l, l' in *. apply tiling_app in Ht as (m & T1 & T2).
    inversion T2 as [|i0 e0 o0 al0 l0 Hg0 Hi0 Ho0 Hd0 T3]; subst.
    inversion T3 as [|i1 e1 o1 al1 l3 Hg1 Hi1 Ho1 Hd1 T4]; subst. apply tiling_app. exists lo.
    split; [|constructor; [done|lia|lia|done|rewrite pow2_half, Z.add_assoc by lia]];
      (eapply tiling_ext; [eassumption|]); intros b Hb; apply Gne; unfold hi in *.
    1, 2: destruct (tiling_block _ _ _ _ b T1 Hb) as (_ & ? & ? & _);
      assert (0 < 2 ^ b_order b) by (apply Z.pow_pos_nonneg; lia); lia.
    all: destruct (tiling_block _ _ _ _ b T4 Hb) as (? & _); lia.
  - intros j x. rewrite G2. case_decide; [by intros [= <-]|]. rewrite G1. case_decide; [by intros [= <-]|].
    intros Hx Ha. destruct (Hst j x Hx Ha) as (o' & Hin). exists o'. unfold l, l' in *. set_solver.
Qed.

(** Free buddies are left only at [c]. *)
Definition coalesced_but (c : Z) (l : list block) : Prop :=
  forall i j o, Block i o false ∈ l -> Block j o false ∈ l -> j = Z.lxor i (2 ^ o) -> i = c \/ j = c.

(** The test of the loop is exact. *)
Lemma merge_test bm n l c k :
  tiling bm 0 n l -> Block c k false ∈ l ->
  let d := Z.lxor c (2 ^ k) in
  exists merge, (if d <? n then
                   is_free ← PMEM_IS_FREE_BUDDY bm d; ob ← PMEM_BUDDY_ORDER bm d;
                   oc ← PMEM_BUDDY_ORDER bm c; Some (is_free && (ob =? oc))
                 else Some false) = Some merge /\ (merge = true <-> Block d k false ∈ l).
Proof.
  intros Ht Hc d. destruct (tiling_block _ _ _ _ _ Ht Hc) as (_ & _ & _ & _ & _ & Gc). cbn in Gc.
  destruct (Z.ltb_spec d n) as [Hd|Hd].
  - destruct (buddy_head bm n l c k false Ht Hc Hd) as (o' & al' & Hin). fold d in Hin.
    destruct (tiling_block _ _ _ _ _ Ht Hin) as (_ & _ & _ & _ & _ & Gd). cbn in Gd.
    rewrite (slot_free _ _ _ _ Gd), (slot_order _ _ _ _ Gd), (slot_order _ _ _ _ Gc). cbn [mbind option_bind].
    eexists. split; [done|]. split.
    + intros [H1 H2]%andb_true_iff. apply Z.eqb_eq in H2 as ->. by destruct al'.
    + intros Hin'. destruct (start_unique _ _ _ _ _ _ _ _ Ht Hin Hin') as [-> ->]. by rewrite Z.eqb_refl.
  - exists false. split; [done|]. split; [done|]. intros Hin.
    destruct (tiling_block _ _ _ _ _ Ht Hin) as (_ & ? & ? & _). cbn in *.
    assert (0 < 2 ^ k) by (apply Z.pow_pos_nonneg; lia). lia.
Qed.

Lemma coalesced_but_merge bm n l1 l2 lo k c :
  let l := l1 ++ Block lo k false :: Block (lo + 2 ^ k) k false :: l2 in
  let l' := l1 ++ Block lo (k + 1) false :: l2 in
  tiling bm 0 n l' -> 0 <= k -> coalesced_but c l -> c = lo \/ c = lo + 2 ^ k -> coalesced_but lo l'.
Proof.
  intros l l' Ht Hk Hbut Hc i j o Hi Hj E.
  destruct (decide (i = lo)); [by left|]. destruct (decide (j = lo)); [by right|]. exfalso.
  assert (0 < 2 ^ k) by (apply Z.pow_pos_nonneg; lia).
  assert (Block lo (k + 1) false ∈ l') as Hl' by (apply elem_of_app; right; left).
  assert (forall x o0, x <> lo -> Block x o0 false ∈ l' -> x <> lo + 2 ^ k /\ Block x o0 false ∈ l) as Hold.
  { intros x o0 Hx Hxl. split.
    - intros ->. assert (Block (lo + 2 ^ k) o0 false = Block lo (k + 1) false) as Ex; [|injection Ex; lia].
      apply (tiling_same _ _ _ _ _ _ (lo + 2 ^ k) Ht Hxl Hl'); [exact (block_start _ _ _ _ _ Ht Hxl)|].
      unfold block_has. cbn. rewrite pow2_half by lia. lia.
    - unfold l, l' in *. rewrite elem_of_app, ?elem_of_cons in *.
      destruct Hxl as [?|[[= -> _]|?]]; [by left|done|by right; right; right]. }
  destruct (Hold i o) as [? Hi']; [done..|]. destruct (Hold j o) as [? Hj']; [done..|].
  destruct (Hbut i j o Hi' Hj' E); lia.
Qed.

Lemma buddy_merge_spec n : forall fuel bm l c k,
  tiling bm 0 n l -> no_stale bm l -> zlen bm = n -> n < 2 ^ 30 -> Block c k false ∈ l ->
  (Z.to_nat (30 - k) < fuel)%nat -> coalesced_but c l ->
  exists bm' l', buddy_merge fuel n bm c = Some bm' /\ tiling bm' 0 n l' /\ no_stale bm' l' /\ zlen bm' = n /\
    coalesced l' /\ forall i o, Block i o true ∈ l' <-> Block i o true ∈ l.
Proof.
  induction fuel as [|fuel IH]; intros bm l c k Ht Hst Hz Hn Hc Hf Hbut; [lia|]. cbn [buddy_merge].
  destruct (tiling_block _ _ _ _ _ Ht Hc) as (_ & _ & Hk & Hc0 & Hd & Gc). cbn in Hk, Hc0, Hd, Gc.
  rewrite (slot_buddy _ _ _ _ Gc Hk). cbn [mbind option_bind].
  destruct (merge_test bm n l c k Ht Hc) as (merge & -> & Hm). cbn [mbind option_bind].
  set (d := Z.lxor c (2 ^ k)) in *. destruct merge.
  2: { exists bm, l. split_and!; try done. intros i j o Hi Hj E.
       assert (Block d k false ∈ l) as Hx; [|by apply Hm in Hx].
       destruct (Hbut i j o Hi Hj E) as [-> | ->].
       - destruct (start_unique _ _ _ _ _ _ _ _ Ht Hc Hi) as [<- _]. by rewrite E in Hj.
       - destruct (start_unique _ _ _ _ _ _ _ _ Ht Hc Hj) as [<- _]. unfold d.
         by rewrite E, lxor_twice. }
  assert (Block d k false ∈ l) as Hin by (by apply Hm). clear Hm.
  assert (0 < 2 ^ k) as Hp by (apply Z.pow_pos_nonneg; lia).
  assert (exists lo, (c = lo /\ d = lo + 2 ^ k \/ c = lo + 2 ^ k /\ d = lo) /\ (2 ^ (k + 1) | lo)) as (lo & Hcd & Hlo).
  { destruct (buddy_cases k c ltac:(lia) Hd) as [[H1 H2]|[H1 H2]]; fold d in H2.
    - exists c. auto. - exists (c - 2 ^ k). split; [right; lia|done]. }
  assert (Block lo k false ∈ l /\ Block (lo + 2 ^ k) k false ∈ l) as [Hl1 Hl2]
    by (destruct Hcd as [[-> <-]|[<- ->]]; done).
  destruct (tiling_block _ _ _ _ _ Ht Hin) as (_ & _ & _ & _ & _ & Gd). cbn in Gd.
  rewrite (slot_order _ _ _ _ Gd). cbn [mbind option_bind].
  destruct (neighbours bm n l lo k false false Ht Hl1 Hl2) as (l1 & l2 & El).
  destruct (merge_step bm n l1 l2 lo k c d Hcd) as (bm1 & bm2 & E1 & E2 & E3 & T' & S' & Z'); try (by rewrite <- El); [done..|].
  rewrite E1. cbn [mbind option_bind]. rewrite E2. cbn [mbind option_bind]. rewrite E3. cbn [mbind option_bind].
  set (l' := l1 ++ Block lo (k + 1) false :: l2) in *. assert (Block lo (k + 1) false ∈ l') as Hl'
    by (apply elem_of_app; right; left).
  replace (Z.min d c) with lo by lia.
  destruct (tiling_block _ _ _ _ _ T' Hl') as (_ & He & Hk1 & _). cbn in He, Hk1. rewrite pow2_half in He by lia.
  destruct (Z.ltb_spec lo n); [|lia].
  destruct (IH bm2 l' lo (k + 1)) as (bm' & l'' & E & K1 & K2 & K3 & K4 & K5); try done; [lia| |].
  - apply (coalesced_but_merge bm2 n l1 l2 lo k c); [done|lia|by rewrite <- El|destruct Hcd as [[? _]|[? _]]; auto].
  - exists bm', l''. split_and!; try done. intros i o. rewrite K5, El. unfold l'.
    rewrite !elem_of_app, !elem_of_cons. naive_solver.
Qed.

(** [pmem_free_buddy_bestfit] of an allocated block. *)
Lemma buddy_free_spec p bm l b o :
  buddy_ok (num_entries p) bm l -> Block b o true ∈ l ->
  exists bm' l', pmem_free_buddy_bestfit p bm b = Some (bm', 0) /\ buddy_ok (num_entries p) bm' l' /\
    forall i o', Block i o' true ∈ l' <-> Block i o' true ∈ l /\ i <> b.
Proof.
  intros [Hz Hmax Ht Hst Hco] Hin. unfold pmem_free_buddy_bestfit.
  assert (forall i o', Block i o' true ∈ l -> i = b -> o' = o) as Hu.
  { intros i o' Hi ->. by destruct (start_unique _ _ _ _ _ _ _ _ Ht Hi Hin). }
  destruct (tiling_block _ _ _ _ _ Ht Hin) as (_ & _ & Ho & _). cbn in Ho.
  apply list_elem_of_split in Hin as (l1 & l2 & ->).
  destruct (set_allocated_step bm (num_entries p) l1 l2 b o true false Ht Hst Hz) as (bm1 & -> & T1 & S1 & Z1).
  cbn [mbind option_bind]. set (l' := l1 ++ Block b o false :: l2) in *.
  assert (forall x, x ∈ l' <-> x ∈ l1 \/ x = Block b o false \/ x ∈ l2) as Hl'
    by (intros x; unfold l'; by rewrite elem_of_app, elem_of_cons).
  destruct (buddy_merge_spec (num_entries p) 128 bm1 l' b o) as (bm2 & l'' & -> & T2 & S2 & Z2 & C2 & A2);
    try done; [lia|apply Hl'; tauto|lia| |].
  - intros i j k Hi Hj E. destruct (decide (i = b)); [by left|]. destruct (decide (j = b)); [by right|].
    exfalso. apply (Hco i j k); [..|done]; rewrite elem_of_app, elem_of_cons;
      [apply Hl' in Hi as [?|[[= -> _]|?]]|apply Hl' in Hj as [?|[[= -> _]|?]]]; tauto.
  - cbn [mbind option_bind]. exists bm2, l''. split; [done|]. split; [by split|]. intros i k.
    rewrite A2, Hl', elem_of_app, elem_of_cons. split.
    + intros H. assert (Block i k true ∈ l') as Hi by (apply Hl'; tauto). split; [naive_solver|]. intros ->.
      assert (Block b o false ∈ l') as Hb by (apply Hl'; tauto).
      by destruct (start_unique _ _ _ _ _ _ _ _ T1 Hi Hb).
    + intros [[?|[[= -> ->]|?]] ?]; tauto.
Qed.

(** ** Setup *)

Lemma land_bit n i : 0 <= i -> negb (Z.land n (Z.shiftl 1 i) =? 0) = Z.testbit n i.
Proof.
  intros Hi. rewrite Z.shiftl_mul_pow2, Z.mul_1_l by done. destruct (Z.testbit n i) eqn:E.
  - apply negb_true_iff, Z.eqb_neq. intros H.
    assert (Z.testbit (Z.land n (2 ^ i)) i = true) as T by (by rewrite Z.land_spec, E, Z.pow2_bits_true).
    by rewrite H, Z.testbit_0_l in T.
  - apply negb_false_iff, Z.eqb_eq. apply Z.bits_inj'. intros j Hj. rewrite Z.land_spec, Z.testbit_0_l.
    destruct (Z.eq_dec i j) as [->|]; [by rewrite E|]. by rewrite Z.pow2_bits_false, andb_false_r by done.
Qed.

Lemma mod_next n i : 0 <= i -> n mod 2 ^ (i + 1) = n mod 2 ^ i + 2 ^ i * Z.b2z (Z.testbit n i).
Proof.
  intros Hi. rewrite Z.pow_add_r, Z.rem_mul_r by lia. by rewrite Z.testbit_spec'.
Qed.

Lemma tiling_snoc bm e o al l :
  tiling bm 0 e l -> array_get bm e = Some (Bits al o) -> 0 <= e -> 0 <= o < 30 -> (2 ^ o | e) ->
  tiling bm 0 (e + 2 ^ o) (l ++ [Block e o al]).
Proof. intros. apply tiling_app. exists e. split; [done|]. constructor; try done. constructor. Qed.

Lemma lxor_ne i o : 0 <= o -> Z.lxor i (2 ^ o) <> i.
Proof.
  intros Ho E. assert (2 ^ o = 0) as E0; [|pose proof (Z.pow_pos_nonneg 2 o); lia].
  apply (f_equal (Z.lxor i)) in E. by rewrite <- Z.lxor_assoc, Z.lxor_nilpotent, Z.lxor_0_l in E.
Qed.

(** One slot for each binary digit, the highest first. *)
Lemma buddy_setup_loop_spec n : 0 < n < 2 ^ 30 -> forall i bm l,
  let index := n - n mod 2 ^ Z.of_nat i in
  tiling bm 0 index l -> zlen bm = n -> (forall j x, array_get bm j = Some x -> allocated x = false) ->
  (forall b c, b ∈ l -> c ∈ l -> b_order b = b_order c -> b = c) ->
  (forall b, b ∈ l -> Z.of_nat i <= b_order b) ->
  exists bm' l', buddy_setup_loop i n bm index = Some bm' /\ buddy_ok n bm' l' /\ forall b, b ∈ l' -> b_alloc b = false.
Proof.
  intros Hn. induction i as [|i IH]; intros bm l index Ht Hz Hfree Hdist Hord; cbn [buddy_setup_loop].
  - exists bm, l. unfold index in *. rewrite Z.mod_1_r, Z.sub_0_r in *. split; [done|].
    assert (forall b, b ∈ l -> b_alloc b = false) as Hall.
    { intros b Hb. destruct (tiling_block _ _ _ _ b Ht Hb) as (_ & _ & _ & _ & _ & G).
      by apply Hfree in G. }
    split; [|done]. split; try done.
    + intros j x Hj Ha. by rewrite (Hfree j x Hj) in Ha.
    + intros j k o Hj Hk E. destruct (tiling_block _ _ _ _ _ Ht Hj) as (_ & _ & Ho & _). cbn in Ho.
      assert (Block j o false = Block k o false) as [= <-] by (by apply Hdist). by apply (lxor_ne j o); [lia|].
  - rewrite land_bit by lia. pose proof (mod_next n (Z.of_nat i) ltac:(lia)) as Em.
    replace (Z.of_nat i + 1) with (Z.of_nat (S i)) in Em by lia.
    assert (0 < 2 ^ Z.of_nat i) as Hp by (apply Z.pow_pos_nonneg; lia).
    assert (0 < 2 ^ Z.of_nat (S i)) as Hp' by (apply Z.pow_pos_nonneg; lia).
    pose proof (Z.mod_pos_bound n (2 ^ Z.of_nat i) Hp) as Hmod.
    destruct (Z.testbit n (Z.of_nat i)) eqn:Hb; cbn [Z.b2z] in Em.
    2: { replace index with (n - n mod 2 ^ Z.of_nat i) in * by (unfold index; lia).
         apply (IH bm l); try done. intros b Hb'. specialize (Hord b Hb'). lia. }
    assert (0 <= index < n) as Hidx.
    { pose proof (Z.mod_le n (2 ^ Z.of_nat (S i)) ltac:(lia) Hp'). unfold index. lia. }
    assert (Z.of_nat i < 30) as Hi30.
    { destruct (Z.lt_ge_cases (Z.of_nat i) 30); [done|].
      assert (2 ^ 30 <= 2 ^ Z.of_nat i) by (apply Z.pow_le_mono_r; lia). unfold index in Hidx. lia. }
    destruct (array_get_lt bm index) as [[al0 o0] Hg]; [lia|].
    assert (al0 = false) as -> by (by apply Hfree in Hg).
    destruct (array_upd_lookup bm index (set_order (Z.of_nat i)) _ Hg) as (bm1 & -> & Z1 & G1). cbn [mbind option_bind].
    rewrite set_order_small in G1 by lia.
    assert (array_get bm1 index = Some (Bits false (Z.of_nat i))) as Hg1 by (by rewrite G1, decide_True).
    rewrite (slot_next _ _ _ _ Hg1) by lia. cbn [mbind option_bind].
    assert (index + 2 ^ Z.of_nat i = n - n mod 2 ^ Z.of_nat i) as Enext by (unfold index; lia). rewrite Enext.
    assert ((2 ^ Z.of_nat i | index)) as Hd.
    { apply (divide_pow2 _ (Z.of_nat (S i))); [lia|]. exists (n / 2 ^ Z.of_nat (S i)). unfold index.
      pose proof (Z.div_mod n (2 ^ Z.of_nat (S i)) ltac:(lia)). lia. }
    apply (IH bm1 (l ++ [Block index (Z.of_nat i) false])).
    + rewrite <- Enext. apply tiling_snoc; try done; [|lia..].
      eapply tiling_ext; [exact Ht|]. intros b Hb'. rewrite G1, decide_False; [done|].
      destruct (tiling_block _ _ _ _ b Ht Hb') as (_ & ? & ? & _).
      assert (0 < 2 ^ b_order b) by (apply Z.pow_pos_nonneg; lia). lia.
    + lia.
    + intros j x. rewrite G1. case_decide; [by intros [= <-]|apply Hfree].
    + intros b c [Hb'| ->]%elem_of_snoc [Hc| ->]%elem_of_snoc E; [by apply Hdist|..|done]; cbn in E.
      * specialize (Hord b Hb'). lia.
      * specialize (Hord c Hc). lia.
    + intros b [Hb'| ->]%elem_of_snoc; [specialize (Hord b Hb'); lia|done].
Qed.

Lemma buddy_setup_spec p :
  0 < num_entries p < 2 ^ 30 ->
  exists bm l, buddy_setup p = Some bm /\ buddy_ok (num_entries p) bm l /\ forall b, b ∈ l -> b_alloc b = false.
Proof.
  intros Hn. unfold buddy_setup.
  pose proof (buddy_setup_loop_spec (num_entries p) Hn 32 (replicate (Z.to_nat (num_entries p)) (Bits false 0)) []) as H.
  cbn zeta in H. rewrite Z.mod_small, Z.sub_diag in H by (change (2 ^ Z.of_nat 32) with (2 ^ 32); lia).
  apply H; clear H.
  - constructor.
  - rewrite zlen_replicate. lia.
  - intros j x. unfold array_get. case_if; [done|]. by intros [-> _]%lookup_replicate.
  - intros b c Hb. by apply not_elem_of_nil in Hb.
  - intros b Hb. by apply not_elem_of_nil in Hb.
Qed.
