(* ===== verification/PmemProps.v ===== *)
(** * Pmem: what the allocators promise

    The claims on drivers/misc/pmem.c: the bitmap allocator finds the lowest
    aligned run and keeps its table, bitmap and count in step; the buddy
    allocator keeps the region tiled and hands out disjoint blocks. *)

From stdpp Require Import base numbers list gmap.
From S2P Require Import Prelude Pmem PmemBitmap PmemTable PmemBuddy.

Open Scope Z_scope.

(** ** The state after setup *)

Lemma tb_zero n k : tb (replicate n 0) k = false.
Proof.
  unfold tb, bget. rewrite nth_lookup. destruct (replicate n 0 !! _) as [w|] eqn:E; cbn; [|apply Z.testbit_0_l].
  apply lookup_replicate in E as [-> _]. apply Z.testbit_0_l.
Qed.

Lemma bitmap_setup_ok p :
  region_ok p -> exists t, bitmap_ok p (bitmap_setup p) t /\ no_leak p (bitmap_setup p) t /\ forall e, e ∈ t -> ~ in_use e.
Proof.
  intros Hp. set (t := replicate (Z.to_nat PMEM_INITIAL_NUM_BITMAP_ALLOCATIONS) (Entry (-1) 0)). exists t.
  pose proof (ro_entries _ Hp) as Hn.
  assert (forall e, e ∈ t -> ~ in_use e) as Hu.
  { intros e [-> _]%elem_of_replicate. unfold in_use. cbn. tauto. }
  assert (0 <= (num_entries p + 31) / 32) by (apply Z.div_pos; lia).
  split; [split; cbn [bitmap_setup bitm_alloc bitmap bitmap_free]; try done|split; [|exact Hu]].
  - apply Forall_replicate. unfold word_ok. lia.
  - rewrite zlen_replicate, Z2Nat.id by done. pose proof (Z.mul_succ_div_gt (num_entries p + 31) 32). lia.
  - intros e He Hue. by destruct (Hu e He).
  - intros i j e e' Hi _ _ Hue. by destruct (Hu e (list_elem_of_lookup_2 _ _ _ Hi)).
  - intros e k He Hue. by destruct (Hu e He).
  - rewrite (used_quanta_unused t Hu). lia.
  - lia.
  - intros k _. cbn. by rewrite tb_zero.
Qed.

(** ** Examples: a region of 16 pages *)

Definition ex_region : pmem_info := PmemInfo 268435456 65536 16 4096 false.
Definition ex_bitmap : bitmap_t := bitmap_setup ex_region.
Definition no_junk : nat -> Z := fun _ => 0.

Lemma ex_region_ok : region_ok ex_region.
Proof. split; [exists 12; done|done|done|done]. Qed.

(** ** Claims *)

(** C29: The word-wise search of the bitmap allocator terminates, stays inside
    of the bitmap and is exact: it returns the lowest multiple of [spacing]
    at which [n] bits are clear, and sets exactly these bits; it fails only
    when there is no such run, and then changes nothing. *)
Theorem allocate_contiguous_lowest b n total spacing k :
  words_ok b -> 0 < n -> spacing = 2 ^ k -> 0 <= k -> 0 <= total <= 32 * zlen b ->
  total + n + spacing < 2 ^ 31 ->
  exists b' ret, bitmap_allocate_contiguous b n total spacing = Some (b', ret) /\
    (ret = -1 /\ b' = b /\ (forall s, 0 <= s -> (spacing | s) -> s + n <= total -> run_hit b s n) \/
     0 <= ret /\ (spacing | ret) /\ ret + n <= total /\ run_free b ret n /\
     (forall s, 0 <= s < ret -> (spacing | s) -> run_hit b s n) /\
     (forall k, 0 <= k -> tb b' k = tb b k || ((ret <=? k) && (k <? ret + n)))).
Proof.
  intros H1 H2 H3 H4 H5 H6.
  destruct (allocate_contiguous_spec b n total spacing k H1 H2 H3 H4 H5 H6) as (b' & ret & E & H).
  exists b', ret. split; [done|]. destruct H as [?|(? & ? & ? & ? & ? & _ & _ & ?)]; [by left|by right].
Qed.

Lemma allocate_contiguous_lowest_witness :
  exists b' ret, bitmap_allocate_contiguous [4026531847; 1] 26 64 4 = Some (b', ret) /\ ret = 36.
Proof.
  destruct (allocate_contiguous_lowest [4026531847; 1] 26 64 4 2) as (b' & ret & E & _).
  - repeat constructor; unfold word_ok; lia.
  - lia.
  - reflexivity.
  - lia.
  - unfold zlen. cbn. lia.
  - lia.
  - exists b', ret. split; [exact E|]. vm_compute in E. injection E as _ E. symmetry. exact E.
Defined.

(** An allocation of [len] bytes at an alignment either takes the lowest
    aligned run of quanta that are all free, enters it into the table and
    counts it, so that every allocation stays disjoint from the others and
    its length is at least [len]; or it fails without any effect because no
    such run exists; or, when the table is full and cannot be doubled, it
    fails and the bits of the run stay set. *)
Theorem bitmap_allocator_correct p st t len align a mem junk :
  region_ok p -> num_entries p <= 2 ^ 15 -> bitmap_ok p st t ->
  0 < len -> len + quantum p - 1 < 2 ^ 32 -> align = 2 ^ a -> 0 <= a < 31 ->
  exists st' r t', pmem_allocator_bitmap p st len align mem junk = Some (st', r) /\
    bitmap_ok p st' t' /\
    alloc_result p st t (quanta_of p len) (spacing_of p align) mem st' r t' /\
    (0 <= r -> len <= pmem_len_bitmap p st' r).
Proof.
  intros Hp Hn Hok Hl Hl' Ha Ha0.
  destruct (alloc_spec p st t Hp Hok Hn len align a Hl Hl' Ha Ha0 mem junk) as (st' & r & t' & E & Hok' & Hres).
  exists st', r, t'. split_and!; [done..|]. intros Hr.
  destruct Hres as [?|r i st' t' _ _ Hrq _ _ Hi _ _ _ _ _|]; [lia| |lia].
  unfold pmem_len_bitmap. rewrite (bo_table _ _ _ Hok'). change (default [] (Some t')) with t'.
  pose proof (find_entry_spec p st' t' i _ Hok' Hi) as Hf. cbn [bit quanta] in Hf.
  rewrite Hf by (unfold in_use; cbn; lia). cbn [quanta].
  destruct (quantum_bounds p st t Hp Hok Hn len align a Hl Hl' Ha Ha0) as (Hq & _).
  pose proof (quanta_pos p st t Hp Hok Hn len align a Hl Hl' Ha Ha0).
  pose proof (ro_size _ Hp). pose proof (ro_bits _ Hp). rewrite u32_small by nia.
  unfold quanta_of. pose proof (Z.mul_succ_div_gt (len + quantum p - 1) (quantum p)). nia.
Qed.

Lemma bitmap_allocator_correct_witness :
  exists st' r t', pmem_allocator_bitmap ex_region ex_bitmap 10000 8192 true no_junk = Some (st', r) /\
    bitmap_ok ex_region st' t' /\ r = 0.
Proof.
  destruct (bitmap_setup_ok ex_region ex_region_ok) as (t & Hok & _).
  destruct (bitmap_allocator_correct ex_region ex_bitmap t 10000 8192 13 true no_junk)
    as (st' & r & t' & E & H & _).
  - exact ex_region_ok.
  - cbn. lia.
  - exact Hok.
  - lia.
  - cbn. lia.
  - reflexivity.
  - lia.
  - exists st', r, t'. split; [exact E|]. split; [exact H|]. vm_compute in E. injection E as _ E. symmetry. exact E.
Defined.

(** Releasing an allocation clears exactly its bits, removes it from the
    table and returns its quanta to the count; the other allocations keep
    their runs.  Releasing a bit that no allocation starts at changes nothing
    and fails. *)
Theorem bitmap_free_correct p st t bitnum :
  region_ok p -> bitmap_ok p st t -> bitnum <> -1 ->
  (forall e, e ∈ t -> bit e <> bitnum) /\ pmem_free_bitmap st bitnum = Some (st, -1) \/
  exists st' i e, t !! i = Some e /\ bit e = bitnum /\
    pmem_free_bitmap st bitnum = Some (st', 0) /\
    bitmap_ok p st' (<[i := Entry (-1) 0]> t) /\
    (no_leak p st t -> no_leak p st' (<[i := Entry (-1) 0]> t)) /\
    bitmap_free st' = bitmap_free st + quanta e /\
    (forall k, 0 <= k -> tb (bitmap st') k = tb (bitmap st) k && negb ((bit e <=? k) && (k <? bit e + quanta e))).
Proof.
  intros Hp Hok Hb. destruct (list_find (fun e => bit e = bitnum) t) as [[i e]|] eqn:E.
  - right. apply list_find_Some in E as (Hi & He & _). subst bitnum.
    destruct (free_bitmap_spec p st t i e Hp Hok Hi Hb) as (st' & E & K1 & K2 & K3 & K4).
    exists st', i, e. by split_and!.
  - left. pose proof E as E'. apply list_find_None in E. rewrite Forall_forall in E. split; [done|].
    unfold pmem_free_bitmap, find_entry. rewrite (bo_table _ _ _ Hok). change (default [] (Some t)) with t.
    by rewrite E'.
Qed.

Lemma bitmap_free_correct_witness :
  exists st t, bitmap_ok ex_region st t /\ exists st', pmem_free_bitmap st 0 = Some (st', 0) /\
    bitmap_free st' = 16.
Proof.
  destruct (bitmap_setup_ok ex_region ex_region_ok) as (t & Hok & _).
  destruct (alloc_spec ex_region ex_bitmap t ex_region_ok Hok ltac:(cbn; lia) 10000 8192 13 ltac:(lia)
    ltac:(cbn; lia) eq_refl ltac:(lia) true no_junk) as (st' & r & t' & E & Hok' & _).
  exists st', t'. split; [exact Hok'|]. vm_compute in E. injection E as E _.
  destruct (bitmap_free_correct ex_region st' t' 0 ex_region_ok Hok' ltac:(discriminate))
    as [[_ H]|(st2 & i & e & _ & _ & H & _)].
  - exfalso. rewrite <- E in H. vm_compute in H. discriminate H.
  - exists st2. split; [exact H|]. rewrite <- E in H. vm_compute in H. injection H as <-. reflexivity.
Defined.

(** C27: The buddy allocator serves a request with a block of the smallest
    power of two that holds it, taken from a smallest free block that is
    large enough; the rest of that block stays free, in ever larger halves,
    and all other blocks are untouched.  It fails, without any effect, only
    when every free block is too small.  The blocks still tile the region and
    no two free buddies arise. *)
Theorem buddy_allocator_correct p bm l len :
  buddy_ok (num_entries p) bm l -> 0 < quantum p -> num_entries p * quantum p < 2 ^ 32 ->
  0 < len -> len + quantum p - 1 < 2 ^ 32 ->
  let o := pmem_order p len in
  (0 <= o /\ len <= 2 ^ o * quantum p /\ (0 < o -> 2 ^ (o - 1) * quantum p < len)) /\
  exists bm' r l', pmem_allocator_buddy_bestfit p bm len = Some (bm', r) /\ buddy_ok (num_entries p) bm' l' /\
    (r = -1 /\ bm' = bm /\ l' = l /\ (forall b, b ∈ l -> b_alloc b = false -> b_order b < o) \/
     pmem_len_buddy_bestfit p bm' r = Some (2 ^ o * quantum p) /\
     exists l1 l2 m, l = l1 ++ Block r (o + Z.of_nat m) false :: l2 /\
       l' = l1 ++ Block r o true :: halves r o m ++ l2 /\
       forall b, b ∈ l -> b_alloc b = false -> b_order b < o \/ o + Z.of_nat m <= b_order b).
Proof.
  intros Hok Hq Hsz Hl Hl' o. destruct (pmem_order_spec p len Hq Hl Hl') as (Ho & Hlen & Hmin). fold o in Ho, Hlen, Hmin.
  split; [split_and!; [lia|done|done]|].
  destruct (buddy_alloc_spec p bm l len Hok Hq Hl Hl') as (bm' & r & l' & E & Hok' & H). fold o in H.
  exists bm', r, l'. split; [done|]. split; [done|]. destruct H as [?|(l1 & l2 & m & H1 & H2 & H3)]; [by left|right].
  split; [|by exists l1, l2, m]. clearbody o.
  assert (Block r o true ∈ l') as Hin by (rewrite H2; apply elem_of_app; right; left).
  destruct (tiling_block _ _ _ _ _ (bk_tiling _ _ _ Hok') Hin) as (_ & He & Ho30 & Hr & _ & Hg). cbn in He, Ho30, Hr, Hg.
  unfold pmem_len_buddy_bestfit, PMEM_BUDDY_LEN. rewrite (slot_order _ _ _ _ Hg). cbn [mbind option_bind].
  destruct (slot_pow o Ho30) as [Ep ?]. rewrite Ep. f_equal. apply u32_small. nia.
Qed.

Definition ex_buddy : list pmem_bits := default [] (buddy_setup ex_region).

Lemma ex_buddy_ok : exists l, buddy_ok 16 ex_buddy l.
Proof.
  destruct (buddy_setup_spec ex_region ltac:(cbn; lia)) as (bm & l & E & Hok & _). exists l.
  unfold ex_buddy. by rewrite E.
Qed.

Lemma buddy_allocator_correct_witness :
  exists bm' r l', pmem_allocator_buddy_bestfit ex_region ex_buddy 10000 = Some (bm', r) /\
    buddy_ok 16 bm' l' /\ r = 0.
Proof.
  destruct ex_buddy_ok as (l & Hok).
  destruct (buddy_allocator_correct ex_region ex_buddy l 10000 Hok) as (_ & bm' & r & l' & E & Hok' & _).
  - cbn. lia.
  - cbn. lia.
  - lia.
  - cbn. lia.
  - exists bm', r, l'. split; [exact E|]. split; [exact Hok'|]. vm_compute in E. injection E as _ E. symmetry. exact E.
Defined.

(** C28: Releasing an allocated block frees this block and no other one, and
    merges it with its buddy, and the result with the next larger buddy, as
    long as they are free: the blocks tile the region and no two free buddies
    are left. *)
Theorem buddy_free_correct p bm l b o :
  buddy_ok (num_entries p) bm l -> Block b o true ∈ l ->
  exists bm' l', pmem_free_buddy_bestfit p bm b = Some (bm', 0) /\ buddy_ok (num_entries p) bm' l' /\
    forall i o', Block i o' true ∈ l' <-> Block i o' true ∈ l /\ i <> b.
Proof. apply buddy_free_spec. Qed.

Lemma buddy_free_correct_witness :
  exists bm l, buddy_ok 16 bm l /\ exists bm' l', pmem_free_buddy_bestfit ex_region bm 0 = Some (bm', 0) /\
    buddy_ok 16 bm' l'.
Proof.
  destruct ex_buddy_ok as (l & Hok).
  destruct (buddy_alloc_spec ex_region ex_buddy l 10000 Hok ltac:(cbn; lia) ltac:(lia) ltac:(cbn; lia))
    as (bm' & r & l' & E & Hok' & H).
  exists bm', l'. split; [exact Hok'|]. vm_compute in E. injection E as _ E.
  destruct H as [(-> & _)|(l1 & l2 & m & _ & -> & _)]; [discriminate E|].
  destruct (buddy_free_correct ex_region bm' _ r (pmem_order ex_region 10000) Hok') as (bm2 & l2' & E2 & Hok2 & _).
  - apply elem_of_app. right. left.
  - exists bm2, l2'. split; [rewrite <- E in E2; exact E2|exact Hok2].
Defined.

(** ** Where the bitmap allocator goes wrong *)

Definition big_region : pmem_info := PmemInfo 268435456 409600 100 4096 false.
Definition ex_alloc (p : pmem_info) (len : Z) (st : bitmap_t) : bitmap_t :=
  from_option fst st (pmem_allocator_bitmap p st len 4096 true no_junk).

(** With 64 one-page allocations of 100 pages the table is full and may not be
    doubled: the next allocation fails, and its page is lost. *)
Example full_table_loses_pages :
  let st := Nat.iter 64 (ex_alloc big_region 4096) (bitmap_setup big_region) in
  let st' := ex_alloc big_region 4096 st in
  snd <$> pmem_allocator_bitmap big_region st 4096 4096 true no_junk = Some (-1) /\
  bitmap_free st' = 36 /\ tb (bitmap st) 64 = false /\ tb (bitmap st') 64 = true.
Proof. by vm_compute. Qed.

(** With no allocation at the start of the region, the free space in front of
    the first one is computed with the size of the allocation in entry 0. *)
Example free_space_wraps :
  let st := ex_alloc ex_region 16384 (ex_alloc ex_region 16384 ex_bitmap) in
  let st' := ex_alloc ex_region 32768 (from_option fst st (pmem_free_bitmap st 0)) in
  bitm_alloc st' ≫= head = Some (Entry 8 8) /\
  pmem_free_space_bitmap ex_region st' = Some (Freespace (2 ^ 32 - 16384) (2 ^ 32 - 16384)).
Proof. by vm_compute. Qed.
