(* ===== verification/PmemVm.v ===== *)
(** * Pmem: the state of the driver and the mappings of its files

    A pmem device hands out parts of its region to files; a file can be mapped
    into processes.  This file has the state that the file operations of
    drivers/misc/pmem.c work on, the monad they are written in and the
    functions of mm/memory.c they call, on flat page tables: [ptes] maps a page
    of an address space to the page frame it shows. *)

From stdpp Require Import base numbers list gmap countable.
From S2P Require Import Prelude Pmem.

Open Scope Z_scope.

(** ** Constants *)

Definition PAGE_SHIFT : Z := 12.
Definition SZ_4K : Z := 4096.
Definition SZ_1M : Z := 1048576.
Definition MISC_MAJOR : Z := 10.
Definition PMEM_MAX_DEVICES : Z := 10.

Definition PMEM_FLAGS_CONNECTED : Z := Z.shiftl 1 1.
Definition PMEM_FLAGS_MASTERMAP : Z := Z.shiftl 1 2.
Definition PMEM_FLAGS_SUBMAP : Z := Z.shiftl 1 3.
Definition PMEM_FLAGS_UNSUBMAP : Z := Z.shiftl 1 4.

Definition MEMORY_STABLE : Z := 0.
Definition MEMORY_UNSTABLE_NO_MEMORY_ALLOCATED : Z := 1.

Definition VM_WRITE : Z := 2.
Definition VM_SHARED : Z := 8.
Definition VM_MAYWRITE : Z := 32.
Definition VM_PFNMAP : Z := 1024.
Definition VM_IO : Z := 16384.
Definition VM_RESERVED : Z := 524288.
Definition VM_MIXEDMAP : Z := 268435456.
Definition VM_PFN_AT_MMAP : Z := 1073741824.

(** [flags & mask], as a condition. *)
Definition has (flags mask : Z) : bool := negb (Z.land flags mask =? 0).

Definition PMEM_IS_PAGE_ALIGNED (addr : Z) : bool := Z.land addr (PAGE_SIZE - 1) =? 0.

(** ** State *)

Record pmem_region := Region { offset : Z; rlen : Z }.

(** What a file of the device stands for.  [sem] tells that its semaphore is
    held for writing by an operation that has returned: operations are atomic,
    and all others release it. *)
Record pmem_data := PmemData {
  index : Z;
  flags : Z;
  sem : bool;
  vma : option Z;
  task : option Z;
  pid : Z;
  master_fd : Z;
  master_file : option Z;
  region_list : list pmem_region }.

Definition PMEM_IS_SUBMAP (d : pmem_data) : bool :=
  has (flags d) PMEM_FLAGS_SUBMAP && negb (has (flags d) PMEM_FLAGS_UNSUBMAP).

(** A device: the region, the state of its allocator, where the kernel sees the
    region, the page that stands for unmapped parts, and the data of its open
    files. *)
Record device := Device {
  d_info : pmem_info;
  d_alloc : allocator;
  d_vbase : Z;
  d_garbage_pfn : Z;
  d_memory_state : Z;
  d_minor : Z;
  data_list : list Z }.

(** An open file; [f_rdev] is the major and minor number of its inode. *)
Record file := File { f_rdev : Z * Z; f_sync : bool; private_data : option Z }.

(** A mapping of a file into the address space [vm_mm]; [vm_ops] tells that
    the driver's operations are attached, [vm_wc] that it is write-combined. *)
Record vm_area := VmArea {
  vm_mm : Z;
  vm_start : Z;
  vm_end : Z;
  vm_file : Z;
  vm_pgoff : Z;
  vm_flags : Z;
  vm_wc : bool;
  vm_ops : bool }.

(** Maintenance of the caches, as it is asked for. *)
Inductive cache_op :=
  | DmacFlush (start stop : Z)
  | OuterFlush (start stop : Z)
  | CleanInv (vaddr len paddr : Z)
  | Clean (vaddr len paddr : Z)
  | Inv (vaddr len paddr : Z).

Record pmem := Pmem {
  devices : gmap Z device;
  files : gmap Z file;
  datas : gmap Z pmem_data;
  vmas : gmap Z vm_area;
  ptes : gmap (Z * Z) Z;
  fds : gmap (Z * Z) Z;              (* of a process and a descriptor *)
  task_mm : gmap Z Z;                (* the address spaces of the processes *)
  drivers : list Z;                  (* files other drivers hold *)
  caches : list cache_op }.

Definition set_devices (f : gmap Z device -> gmap Z device) (s : pmem) : pmem :=
  Pmem (f (devices s)) (files s) (datas s) (vmas s) (ptes s) (fds s) (task_mm s) (drivers s) (caches s).
Definition set_files (f : gmap Z file -> gmap Z file) (s : pmem) : pmem :=
  Pmem (devices s) (f (files s)) (datas s) (vmas s) (ptes s) (fds s) (task_mm s) (drivers s) (caches s).
Definition set_datas (f : gmap Z pmem_data -> gmap Z pmem_data) (s : pmem) : pmem :=
  Pmem (devices s) (files s) (f (datas s)) (vmas s) (ptes s) (fds s) (task_mm s) (drivers s) (caches s).
Definition set_vmas (f : gmap Z vm_area -> gmap Z vm_area) (s : pmem) : pmem :=
  Pmem (devices s) (files s) (datas s) (f (vmas s)) (ptes s) (fds s) (task_mm s) (drivers s) (caches s).
Definition set_ptes (f : gmap (Z * Z) Z -> gmap (Z * Z) Z) (s : pmem) : pmem :=
  Pmem (devices s) (files s) (datas s) (vmas s) (f (ptes s)) (fds s) (task_mm s) (drivers s) (caches s).
Definition set_fds (f : gmap (Z * Z) Z -> gmap (Z * Z) Z) (s : pmem) : pmem :=
  Pmem (devices s) (files s) (datas s) (vmas s) (ptes s) (f (fds s)) (task_mm s) (drivers s) (caches s).
Definition set_drivers (f : list Z -> list Z) (s : pmem) : pmem :=
  Pmem (devices s) (files s) (datas s) (vmas s) (ptes s) (fds s) (task_mm s) (f (drivers s)) (caches s).
Definition add_cache_op (o : cache_op) (s : pmem) : pmem :=
  Pmem (devices s) (files s) (datas s) (vmas s) (ptes s) (fds s) (task_mm s) (drivers s) (o :: caches s).

Definition set_index (x : Z) (d : pmem_data) : pmem_data :=
  PmemData x (flags d) (sem d) (vma d) (task d) (pid d) (master_fd d) (master_file d) (region_list d).
Definition set_flags (x : Z) (d : pmem_data) : pmem_data :=
  PmemData (index d) x (sem d) (vma d) (task d) (pid d) (master_fd d) (master_file d) (region_list d).
Definition set_sem (x : bool) (d : pmem_data) : pmem_data :=
  PmemData (index d) (flags d) x (vma d) (task d) (pid d) (master_fd d) (master_file d) (region_list d).
Definition set_vma (x : option Z) (d : pmem_data) : pmem_data :=
  PmemData (index d) (flags d) (sem d) x (task d) (pid d) (master_fd d) (master_file d) (region_list d).
Definition set_task (x : option Z) (d : pmem_data) : pmem_data :=
  PmemData (index d) (flags d) (sem d) (vma d) x (pid d) (master_fd d) (master_file d) (region_list d).
Definition set_pid (x : Z) (d : pmem_data) : pmem_data :=
  PmemData (index d) (flags d) (sem d) (vma d) (task d) x (master_fd d) (master_file d) (region_list d).
Definition set_master (fd : Z) (x : option Z) (d : pmem_data) : pmem_data :=
  PmemData (index d) (flags d) (sem d) (vma d) (task d) (pid d) fd x (region_list d).
Definition set_regions (x : list pmem_region) (d : pmem_data) : pmem_data :=
  PmemData (index d) (flags d) (sem d) (vma d) (task d) (pid d) (master_fd d) (master_file d) x.

Definition set_alloc (a : allocator) (d : device) : device :=
  Device (d_info d) a (d_vbase d) (d_garbage_pfn d) (d_memory_state d) (d_minor d) (data_list d).
Definition set_data_list (f : list Z -> list Z) (d : device) : device :=
  Device (d_info d) (d_alloc d) (d_vbase d) (d_garbage_pfn d) (d_memory_state d) (d_minor d) (f (data_list d)).

Definition set_pgoff (x : Z) (v : vm_area) : vm_area :=
  VmArea (vm_mm v) (vm_start v) (vm_end v) (vm_file v) x (vm_flags v) (vm_wc v) (vm_ops v).
Definition set_vm_flags (x : Z) (v : vm_area) : vm_area :=
  VmArea (vm_mm v) (vm_start v) (vm_end v) (vm_file v) (vm_pgoff v) x (vm_wc v) (vm_ops v).
Definition set_wc (x : bool) (v : vm_area) : vm_area :=
  VmArea (vm_mm v) (vm_start v) (vm_end v) (vm_file v) (vm_pgoff v) (vm_flags v) x (vm_ops v).
Definition set_ops (x : bool) (v : vm_area) : vm_area :=
  VmArea (vm_mm v) (vm_start v) (vm_end v) (vm_file v) (vm_pgoff v) (vm_flags v) (vm_wc v) x.

Definition set_private (x : option Z) (f : file) : file := File (f_rdev f) (f_sync f) x.

(** ** The monad

    An operation returns, runs into a [BUG_ON] or a bad pointer, or waits for
    a semaphore that nobody will release. *)

Inductive outcome (A : Type) :=
  | Done (s : pmem) (a : A)
  | Oops
  | Deadlock.
Arguments Done {A} s a.
Arguments Oops {A}.
Arguments Deadlock {A}.

Definition M (A : Type) : Type := pmem -> outcome A.

Definition ret {A} (a : A) : M A := fun s => Done s a.
Definition bind {A B} (m : M A) (f : A -> M B) : M B := fun s =>
  match m s with Done s' a => f a s' | Oops => Oops | Deadlock => Deadlock end.
Definition oops {A} : M A := fun _ => Oops.
Definition deadlock {A} : M A := fun _ => Deadlock.
Definition get : M pmem := fun s => Done s s.
Definition modify (f : pmem -> pmem) : M unit := fun s => Done (f s) tt.
Definition BUG_ON (b : bool) : M unit := if b then oops else ret tt.

Declare Scope pmem_scope.
Delimit Scope pmem_scope with pmem.
Notation "x <- m ;; k" := (bind m (fun x => k)) (at level 100, m at next level, right associativity) : pmem_scope.
Notation "m ;; k" := (bind m (fun _ => k)) (at level 100, right associativity) : pmem_scope.
Open Scope pmem_scope.

(** An object by its address; a bad pointer is an oops. *)
Definition the {A} (o : pmem -> option A) : M A := fun s => match o s with Some a => Done s a | None => Oops end.
Definition the_device (id : Z) : M device := the (fun s => devices s !! id).
Definition the_file (f : Z) : M file := the (fun s => files s !! f).
Definition the_data (d : Z) : M pmem_data := the (fun s => datas s !! d).
Definition the_vma (v : Z) : M vm_area := the (fun s => vmas s !! v).
Definition mod_device (id : Z) (f : device -> device) : M unit :=
  d <- the_device id;; modify (set_devices <[id := f d]>).
Definition mod_data (d : Z) (f : pmem_data -> pmem_data) : M unit :=
  x <- the_data d;; modify (set_datas <[d := f x]>).
Definition mod_vma (v : Z) (f : vm_area -> vm_area) : M unit :=
  x <- the_vma v;; modify (set_vmas <[v := f x]>).

(** [down_read] or [down_write] on the semaphore of [d], which the operation
    releases before it returns; the data behind it. *)
Definition down (d : Z) : M pmem_data := x <- the_data d;; if sem x then deadlock else ret x.

(** ** Page tables (mm/memory.c) *)

Definition page (addr : Z) : Z := Z.shiftr addr PAGE_SHIFT.

Definition is_cow_mapping (vmflags : Z) : bool := Z.land vmflags (Z.lor VM_SHARED VM_MAYWRITE) =? VM_MAYWRITE.

(** The pages that [zap_page_range] clears: those of [start, end) that lie in
    the mapping or in one behind it. *)
Definition zapped (s : pmem) (w : vm_area) (start stop mm pg : Z) : bool :=
  (mm =? vm_mm w) && (start <=? pg * PAGE_SIZE) && (pg * PAGE_SIZE <? stop) &&
  bool_decide (map_Exists (fun _ w' => vm_mm w' = vm_mm w /\ vm_start w <= vm_start w' /\
    vm_start w' <= pg * PAGE_SIZE < vm_end w') (vmas s)).

Definition zap_page_range (v address size : Z) : M unit :=
  w <- the_vma v;;
  modify (fun s => set_ptes (filter (fun e => zapped s w address (u32 (address + size)) e.1.1 e.1.2 = false)) s).

(** [pt] tells for which pages there is memory for the page table. *)
Section page_tables.
Context (pt : Z -> bool).

Definition vm_insert_pfn (v addr pfn : Z) : M Z :=
  w <- the_vma v;;
  BUG_ON (negb (has (vm_flags w) (Z.lor VM_PFNMAP VM_MIXEDMAP)));;
  BUG_ON (Z.land (vm_flags w) (Z.lor VM_PFNMAP VM_MIXEDMAP) =? Z.lor VM_PFNMAP VM_MIXEDMAP);;
  BUG_ON (has (vm_flags w) VM_PFNMAP && is_cow_mapping (vm_flags w));;
  if (addr <? vm_start w) || (vm_end w <=? addr) then ret (- EFAULT)
  else if negb (pt (page addr)) then ret (- ENOMEM)
  else
    s <- get;;
    match ptes s !! (vm_mm w, page addr) with
    | Some _ => ret (- EBUSY)
    | None => modify (set_ptes <[(vm_mm w, page addr) := pfn]>);; ret 0
    end.

(** The pages of a range, one after the other. *)
Fixpoint remap_pte_range (n : nat) (mm pg pfn : Z) : M Z :=
  match n with
  | O => ret 0
  | S n' =>
      if negb (pt pg) then ret (- ENOMEM)
      else
        s <- get;;
        BUG_ON (bool_decide (is_Some (ptes s !! (mm, pg))));;
        modify (set_ptes <[(mm, pg) := pfn]>);;
        remap_pte_range n' mm (pg + 1) (pfn + 1)
  end.

Definition remap_pfn_range (v addr pfn size : Z) : M Z :=
  w <- the_vma v;;
  let stop := u32 (addr + PAGE_ALIGN size) in
  let whole := (addr =? vm_start w) && (stop =? vm_end w) in
  if negb whole && is_cow_mapping (vm_flags w) then ret (- EINVAL)
  else
    (if whole then mod_vma v (fun w => set_vm_flags (Z.lor (vm_flags w) VM_PFN_AT_MMAP) (set_pgoff pfn w)) else ret tt);;
    mod_vma v (fun w => set_vm_flags (Z.lor (vm_flags w) (Z.lor VM_IO (Z.lor VM_RESERVED VM_PFNMAP))) w);;
    BUG_ON (stop <=? addr);;
    remap_pte_range (Z.to_nat (page (stop - addr))) (vm_mm w) (page addr) pfn.

End page_tables.
