(* ===== verification/PmemFile.v ===== *)
(** * Pmem: the file operations (drivers/misc/pmem.c)

    Opening, mapping, releasing and controlling the files of a pmem device,
    connecting a file to the allocation of another one, mapping and revoking
    parts of it, and the interface for other drivers.  Messages, the debugging
    options and the hooks of [pmem_setup], null for this driver, are left out. *)

From stdpp Require Import base numbers list gmap countable.
From S2P Require Import Prelude Pmem PmemVm.

Open Scope Z_scope.
Open Scope pmem_scope.

(** What the environment contributes to an operation: the current process, the
    page tables that can be allocated, what others do in the windows where the
    operation holds no lock, the memory of the allocators, a new object, what
    such an object holds, and whether there is an outer cache. *)
Record env := Env {
  current : Z;
  page_table : Z -> bool;
  windows : list (M unit);
  alloc_memory : alloc_env;
  new_data : option Z;
  node_memory : bool;
  junk_fd : Z;
  outer_cache : bool }.

(** ** Files *)

Definition get_id (f : Z) : M Z := x <- the_file f;; ret (f_rdev x).2.

Definition is_pmem_file (f : Z) : M bool :=
  x <- the_file f;;
  s <- get;;
  let id := (f_rdev x).2 in
  ret (negb ((PMEM_MAX_DEVICES <=? id) ||
             negb (bool_decide (f_rdev x = (MISC_MAJOR, default 0 (d_minor <$> devices s !! id)))))).

Definition has_allocation (f : Z) : M bool :=
  x <- the_file f;;
  match private_data x with
  | None => ret false
  | Some d => y <- the_data d;; ret (negb (index y =? -1))
  end.

(** [file->private_data] where the code relies on it. *)
Definition data_of (f : Z) : M Z := x <- the_file f;; match private_data x with Some d => ret d | None => oops end.

Definition is_master_owner (e : env) (f : Z) : M bool :=
  d <- data_of f;;
  b <- has_allocation f;;
  if negb b then ret false
  else
    x <- the_data d;;
    if has PMEM_FLAGS_MASTERMAP (flags x) then ret true
    else
      s <- get;;
      match fds s !! (current e, master_fd x) with
      | Some m => ret (bool_decide (master_file x = Some m))
      | None => ret false
      end.

Definition pmem_open (e : env) (f : Z) : M Z :=
  id <- get_id f;;
  dev <- the_device id;;
  if d_memory_state dev =? MEMORY_UNSTABLE_NO_MEMORY_ALLOCATED then ret (- ENODEV)
  else
    match new_data e with
    | None => ret (-1)
    | Some d =>
        modify (set_datas <[d := PmemData (-1) 0 false None None 0 (junk_fd e) None []]>);;
        x <- the_file f;;
        modify (set_files <[f := set_private (Some d) x]>);;
        mod_device id (set_data_list (list_add d));;
        ret 0
    end.

(** ** The allocator of the device *)

Definition lift_alloc {A} (o : option A) : M A := match o with Some a => ret a | None => oops end.

Definition dev_allocate (e : env) (id len align : Z) : M Z :=
  dev <- the_device id;;
  r <- lift_alloc (allocate (alloc_memory e) (d_info dev) (d_alloc dev) len align);;
  mod_device id (set_alloc r.1);;
  ret r.2.
Definition dev_free (id idx : Z) : M Z :=
  dev <- the_device id;;
  r <- lift_alloc (free (d_info dev) (d_alloc dev) idx);;
  mod_device id (set_alloc r.1);;
  ret r.2.
Definition dev_len (id idx : Z) : M Z :=
  dev <- the_device id;; lift_alloc (alloc_len (d_info dev) (d_alloc dev) idx).
Definition dev_start (id idx : Z) : M Z :=
  dev <- the_device id;; lift_alloc (start_addr (d_info dev) (d_alloc dev) idx).

Definition pmem_start_vaddr (id idx : Z) : M Z :=
  dev <- the_device id;;
  match d_alloc dev with
  | SystemMem st => x <- lift_alloc (items st !! u32 idx);; ret (al_vaddr x)
  | _ => a <- dev_start id idx;; ret (u32 (a - pm_base (d_info dev) + d_vbase dev))
  end.

(** ** Mappings *)

Definition pmem_phys_mem_access_prot (f : Z) (wc : bool) : M bool :=
  id <- get_id f;;
  dev <- the_device id;;
  x <- the_file f;;
  ret (if negb (pm_cached (d_info dev)) || f_sync x then true else wc).

Definition garbage_flags (x : Z) : Z :=
  Z.lor x (Z.lor VM_IO (Z.lor VM_RESERVED (Z.lor VM_PFNMAP (Z.lor VM_SHARED VM_WRITE)))).

Fixpoint garbage_loop (pt : Z -> bool) (n : nat) (i v offset pfn : Z) : M Z :=
  match n with
  | O => ret 0
  | S n' =>
      w <- the_vma v;;
      r <- vm_insert_pfn pt v (u32 (vm_start w + offset + i * PAGE_SIZE)) pfn;;
      if negb (r =? 0) then ret (- EAGAIN) else garbage_loop pt n' (i + 1) v offset pfn
  end.

Definition pmem_map_garbage (pt : Z -> bool) (id v offset len : Z) : M Z :=
  dev <- the_device id;;
  mod_vma v (fun w => set_vm_flags (garbage_flags (vm_flags w)) w);;
  garbage_loop pt (Z.to_nat (page len)) 0 v offset (d_garbage_pfn dev).

Definition pmem_unmap_pfn_range (pt : Z -> bool) (id v offset len : Z) : M Z :=
  BUG_ON (negb (PMEM_IS_PAGE_ALIGNED len));;
  w <- the_vma v;;
  zap_page_range v (u32 (vm_start w + offset)) len;;
  pmem_map_garbage pt id v offset len;;
  ret 0.

Definition pmem_map_pfn_range (pt : Z -> bool) (id v idx offset len : Z) : M Z :=
  w <- the_vma v;;
  BUG_ON (negb (PMEM_IS_PAGE_ALIGNED (vm_start w)));;
  BUG_ON (negb (PMEM_IS_PAGE_ALIGNED (vm_end w)));;
  BUG_ON (negb (PMEM_IS_PAGE_ALIGNED len));;
  BUG_ON (negb (PMEM_IS_PAGE_ALIGNED offset));;
  a <- dev_start id idx;;
  r <- remap_pfn_range pt v (u32 (vm_start w + offset)) (page (u32 (a + offset))) len;;
  ret (if negb (r =? 0) then - EAGAIN else r).

Definition pmem_remap_pfn_range (pt : Z -> bool) (id v idx offset len : Z) : M Z :=
  w <- the_vma v;;
  zap_page_range v (u32 (vm_start w + offset)) len;;
  pmem_map_pfn_range pt id v idx offset len.

Definition pmem_vma_open (e : env) (v : Z) : M unit :=
  w <- the_vma v;;
  d <- data_of (vm_file w);;
  id <- get_id (vm_file w);;
  down d;;
  b <- has_allocation (vm_file w);;
  BUG_ON (negb b);;
  pmem_unmap_pfn_range (page_table e) id v 0 (u32 (vm_start w - vm_end w));;
  ret tt.

Definition pmem_vma_close (v : Z) : M unit :=
  w <- the_vma v;;
  p <- is_pmem_file (vm_file w);;
  if negb p then ret tt
  else
    d <- data_of (vm_file w);;
    y <- down d;;
    b <- has_allocation (vm_file w);;
    if negb b then ret tt
    else if bool_decide (vma y = Some v) then
      mod_data d (set_vma None);;
      if has (flags y) PMEM_FLAGS_CONNECTED && has (flags y) PMEM_FLAGS_SUBMAP
      then mod_data d (set_flags (Z.lor (flags y) PMEM_FLAGS_UNSUBMAP))
      else ret tt
    else ret tt.

(** The regions of a connected file, as they are entered into its mapping. *)
Fixpoint remap_regions (pt : Z -> bool) (id v idx : Z) (l : list pmem_region) : M Z :=
  match l with
  | [] => ret 0
  | r :: l' =>
      x <- pmem_remap_pfn_range pt id v idx (offset r) (rlen r);;
      if negb (x =? 0) then ret (- EAGAIN) else remap_regions pt id v idx l'
  end.

(** The part of [pmem_mmap] behind the checks of the file's flags. *)
Definition mmap_map (e : env) (f d id v vma_size : Z) : M Z :=
  x <- the_data d;;
  a <- dev_start id (index x);;
  w <- the_vma v;;
  wc <- pmem_phys_mem_access_prot f (vm_wc w);;
  mod_vma v (fun w => set_wc wc (set_pgoff (page a) w));;
  if has (flags x) PMEM_FLAGS_CONNECTED then
    r <- pmem_map_garbage (page_table e) id v 0 vma_size;;
    if negb (r =? 0) then ret (- EAGAIN)
    else
      r <- remap_regions (page_table e) id v (index x) (region_list x);;
      if negb (r =? 0) then ret (- EAGAIN)
      else
        mod_data d (fun x => set_vma (Some v) (set_task (Some (current e))
                               (set_flags (Z.lor (flags x) PMEM_FLAGS_SUBMAP) x)));;
        mod_vma v (set_ops true);;
        ret 0
  else
    r <- pmem_map_pfn_range (page_table e) id v (index x) 0 vma_size;;
    if negb (r =? 0) then ret (- EAGAIN)
    else
      mod_data d (fun x => set_pid (current e) (set_flags (Z.lor (flags x) PMEM_FLAGS_MASTERMAP) x));;
      mod_vma v (set_ops true);;
      ret 0.

Definition pmem_mmap (e : env) (f v : Z) : M Z :=
  x <- the_file f;;
  w <- the_vma v;;
  id <- get_id f;;
  let vma_size := u32 (vm_end w - vm_start w) in
  match private_data x with
  | None => ret (- EINVAL)
  | Some d =>
      if negb (vm_pgoff w =? 0) || negb (PMEM_IS_PAGE_ALIGNED vma_size) then ret (- EINVAL)
      else
        y <- down d;;
        if has (flags y) PMEM_FLAGS_SUBMAP || has (flags y) PMEM_FLAGS_UNSUBMAP then ret (- EINVAL)
        else
          idx <- (if index y =? -1 then dev_allocate e id vma_size SZ_4K else ret (index y));;
          if idx =? -1 then ret (- ENOMEM)
          else
            mod_data d (set_index idx);;
            n <- dev_len id idx;;
            if n <? vma_size then ret (- EINVAL) else mmap_map e f d id v vma_size
  end.

(** ** Connected files *)

(** The mm of the process that mapped the file, with both locks held; -1 when
    it is gone.  Others run in the window between the two checks. *)
Fixpoint pmem_lock_data_and_mm (ws : list (M unit)) (d : Z) : M (Z * option Z) :=
  x <- down d;;
  s <- get;;
  mm <- (if PMEM_IS_SUBMAP x
         then match task x with Some t => ret (task_mm s !! t) | None => oops end
         else ret None);;
  if PMEM_IS_SUBMAP x && bool_decide (mm = None) then ret (-1, None)
  else
    match ws with w :: _ => w | [] => ret tt end;;
    y <- down d;;
    if PMEM_IS_SUBMAP y && bool_decide (mm = None) then
      match ws with _ :: ws' => pmem_lock_data_and_mm ws' d | [] => oops end
    else if has (flags y) PMEM_FLAGS_UNSUBMAP && negb (bool_decide (mm = None)) then
      (if has (flags y) PMEM_FLAGS_SUBMAP
       then mod_data d (fun y => set_flags (Z.ldiff (flags y) PMEM_FLAGS_SUBMAP) (set_task None y))
       else ret tt);;
      ret (-1, None)
    else ret (0, mm).

Definition pmem_connect (e : env) (connect f : Z) : M Z :=
  s <- get;;
  match fds s !! (current e, connect) with
  | None => ret (- EBADF)
  | Some src =>
      if src =? f then ret (- EINVAL)
      else
        p <- is_pmem_file src;;
        if negb p then ret (- EINVAL)
        else
          x <- the_file src;;
          match private_data x with
          | None => ret (- EINVAL)
          | Some sd =>
              y <- down sd;;
              b <- has_allocation src;;
              if negb b then ret (- EINVAL)
              else
                z <- the_file f;;
                match private_data z with
                | None => ret (- EINVAL)
                | Some d =>
                    w <- down d;;
                    b <- has_allocation f;;
                    if b && negb (index w =? index y) then ret (- EINVAL)
                    else
                      mod_data d (fun w => set_master connect (Some src)
                        (set_flags (Z.lor (flags w) PMEM_FLAGS_CONNECTED) (set_index (index y) w)));;
                      ret 0
                end
          end
  end.

Inductive remap_op := PMEM_MAP | PMEM_UNMAP.

Definition same_region (r x : pmem_region) : bool := (offset x =? offset r) && (rlen x =? rlen r).

(** What the operation does to the list of regions; [None] when there is no
    memory for a new entry or no entry to remove. *)
Definition edit_regions (e : env) (op : remap_op) (r : pmem_region) (l : list pmem_region)
    : Z * list pmem_region :=
  match op with
  | PMEM_MAP => if node_memory e then (0, list_add r l) else (- ENOMEM, l)
  | PMEM_UNMAP =>
      if existsb (same_region r) l then (0, filter (fun x => same_region r x = false) l) else (- EINVAL, l)
  end.

Definition pmem_remap (e : env) (r : pmem_region) (f : Z) (op : remap_op) : M Z :=
  id <- get_id f;;
  p <- is_pmem_file f;;
  if negb p then ret (- EINVAL)
  else if negb (PMEM_IS_PAGE_ALIGNED (offset r)) || negb (PMEM_IS_PAGE_ALIGNED (rlen r)) then ret (- EINVAL)
  else if rlen r =? 0 then ret 0
  else
    d <- data_of f;;
    l <- pmem_lock_data_and_mm (windows e) d;;
    if negb (l.1 =? 0) then ret 0
    else
      owner <- is_master_owner e f;;
      if negb owner then ret (- EINVAL)
      else
        x <- the_data d;;
        n <- dev_len id (index x);;
        if (n <? offset r) || (n <? rlen r) || (n <? u32 (offset r + rlen r)) then ret (- EINVAL)
        else
          let '(err, l') := edit_regions e op r (region_list x) in
          if negb (err =? 0) then ret err
          else
            mod_data d (set_regions l');;
            match vma x with
            | Some v =>
                if PMEM_IS_SUBMAP x then
                  match op with
                  | PMEM_MAP => pmem_remap_pfn_range (page_table e) id v (index x) (offset r) (rlen r)
                  | PMEM_UNMAP => pmem_unmap_pfn_range (page_table e) id v (offset r) (rlen r)
                  end
                else ret 0
            | None => ret 0
            end.

Fixpoint revoke_loop (pt : Z -> bool) (id v d : Z) (l : list pmem_region) : M unit :=
  match l with
  | [] => ret tt
  | r :: l' =>
      pmem_unmap_pfn_range pt id v (offset r) (rlen r);;
      mod_data d (set_regions l');;
      revoke_loop pt id v d l'
  end.

Definition pmem_revoke (e : env) (f d : Z) : M unit :=
  id <- get_id f;;
  mod_data d (fun x => set_master (master_fd x) None x);;
  l <- pmem_lock_data_and_mm (windows e) d;;
  if negb (l.1 =? 0) then ret tt
  else
    x <- the_data d;;
    match vma x with
    | Some v => revoke_loop (page_table e) id v d (region_list x)
    | None => ret tt
    end.

Fixpoint revoke_connected (e : env) (f : Z) (l : list Z) : M unit :=
  match l with
  | [] => ret tt
  | d :: l' =>
      x <- down d;;
      (if PMEM_IS_SUBMAP x && bool_decide (master_file x = Some f) then pmem_revoke e f d else ret tt);;
      revoke_connected e f l'
  end.

Definition pmem_release (e : env) (f : Z) : M Z :=
  d <- data_of f;;
  id <- get_id f;;
  x <- the_data d;;
  dev <- the_device id;;
  (if has PMEM_FLAGS_MASTERMAP (flags x) then revoke_connected e f (data_list dev) else ret tt);;
  mod_device id (set_data_list (list_del d));;
  y <- down d;;
  b <- has_allocation f;;
  r <- (if negb (has PMEM_FLAGS_CONNECTED (flags y)) && b then dev_free id (index y) else ret 0);;
  x <- the_file f;;
  modify (set_files <[f := set_private None x]>);;
  modify (set_datas (delete d));;
  ret r.

(** ** The interface for other drivers *)

Definition get_pmem_user_addr (f : Z) : M (Z * Z * Z) :=
  p <- is_pmem_file f;;
  if negb p then ret (-1, 0, 0)
  else
    d <- data_of f;;
    x <- down d;;
    b <- has_allocation f;;
    if negb b then ret (-1, 0, 0)
    else
      match vma x with
      | Some v => w <- the_vma v;; ret (0, vm_start w, u32 (vm_end w - vm_start w))
      | None => ret (0, 0, 0)
      end.

(** The physical and the kernel's address of the allocation and its length. *)
Definition get_pmem_addr (f : Z) : M (option (Z * Z * Z)) :=
  p <- is_pmem_file f;;
  if negb p then ret None
  else
    d <- data_of f;;
    x <- down d;;
    b <- has_allocation f;;
    if negb b then ret None
    else
      id <- get_id f;;
      start <- dev_start id (index x);;
      len <- dev_len id (index x);;
      vstart <- pmem_start_vaddr id (index x);;
      ret (Some (start, vstart, len)).

Definition get_pmem_file (e : env) (fd : Z) : M (option (Z * Z * Z * Z)) :=
  s <- get;;
  match fds s !! (current e, fd) with
  | None => ret None
  | Some f =>
      a <- get_pmem_addr f;;
      match a with
      | Some (start, vstart, len) => modify (set_drivers (cons f));; ret (Some (f, start, vstart, len))
      | None => ret None
      end
  end.

(** The region of a connected file that holds the range. *)
Definition region_of (offs len : Z) (l : list pmem_region) : option pmem_region :=
  list_find (fun r => offset r <= offs /\ u32 (offs + len) <= u32 (offset r + rlen r)) l ≫= fun x => Some x.2.

Definition cache_flush (e : env) (vstart vend pstart pend : Z) : M unit :=
  modify (add_cache_op (DmacFlush vstart vend));;
  if outer_cache e then modify (add_cache_op (OuterFlush pstart pend)) else ret tt.

Definition flush_pmem_file (e : env) (f offs len : Z) : M unit :=
  p <- is_pmem_file f;;
  if negb p then ret tt
  else
    id <- get_id f;;
    dev <- the_device id;;
    if negb (pm_cached (d_info dev)) then ret tt
    else
      d <- data_of f;;
      x <- down d;;
      b <- has_allocation f;;
      if negb b then ret tt
      else
        vaddr <- pmem_start_vaddr id (index x);;
        let phys a := u32 (a - d_vbase dev + pm_base (d_info dev)) in
        match d_alloc dev with
        | SystemMem st =>
            it <- lift_alloc (items st !! u32 (index x));;
            cache_flush e vaddr (u32 (vaddr + al_size it)) (al_aaddr it) (u32 (al_aaddr it + al_size it))
        | _ =>
            if negb (has (flags x) PMEM_FLAGS_CONNECTED) then
              n <- dev_len id (index x);;
              cache_flush e vaddr (u32 (vaddr + n)) (phys vaddr) (u32 (phys vaddr + n))
            else
              match region_of offs len (region_list x) with
              | Some r =>
                  let flush_start := u32 (vaddr + offset r) in
                  cache_flush e flush_start (u32 (flush_start + rlen r)) (phys flush_start)
                    (u32 (phys flush_start + rlen r))
              | None => ret tt
              end
        end.

(** ** Control *)

Definition pmem_cmd (n : Z) : Z := 1074032640 + n.
Definition PMEM_GET_PHYS : Z := pmem_cmd 1.
Definition PMEM_MAP_CMD : Z := pmem_cmd 2.
Definition PMEM_GET_SIZE : Z := pmem_cmd 3.
Definition PMEM_UNMAP_CMD : Z := pmem_cmd 4.
Definition PMEM_ALLOCATE : Z := pmem_cmd 5.
Definition PMEM_CONNECT : Z := pmem_cmd 6.
Definition PMEM_GET_TOTAL_SIZE : Z := pmem_cmd 7.
Definition PMEM_CLEAN_INV_CACHES : Z := pmem_cmd 11.
Definition PMEM_CLEAN_CACHES : Z := pmem_cmd 12.
Definition PMEM_INV_CACHES : Z := pmem_cmd 13.
Definition PMEM_GET_FREE_SPACE : Z := pmem_cmd 14.
Definition PMEM_ALLOCATE_ALIGNED : Z := pmem_cmd 15.

Record pmem_addr := PmemAddr { pa_vaddr : Z; pa_offset : Z; pa_length : Z }.

Definition pmem_cache_maint (f cmd : Z) (a : pmem_addr) : M Z :=
  id <- get_id f;;
  dev <- the_device id;;
  if negb (pm_cached (d_info dev)) then ret 0
  else
    d <- data_of f;;
    x <- down d;;
    b <- has_allocation f;;
    if negb b then ret (- EINVAL)
    else
      n <- dev_len id (index x);;
      start <- dev_start id (index x);;
      if n <? u32 (pa_offset a + pa_length a) then ret (- EINVAL)
      else
        let paddr := u32 (start + pa_offset a) in
        (if cmd =? PMEM_CLEAN_INV_CACHES then modify (add_cache_op (CleanInv (pa_vaddr a) (pa_length a) paddr))
         else if cmd =? PMEM_CLEAN_CACHES then modify (add_cache_op (Clean (pa_vaddr a) (pa_length a) paddr))
         else if cmd =? PMEM_INV_CACHES then modify (add_cache_op (Inv (pa_vaddr a) (pa_length a) paddr))
         else ret tt);;
        ret 0.

(** The address and length of the allocation, for [PMEM_GET_PHYS] and
    [PMEM_GET_SIZE]. *)
Definition pmem_get_size (f : Z) : M pmem_region :=
  d <- data_of f;;
  id <- get_id f;;
  x <- down d;;
  b <- has_allocation f;;
  if negb b then ret (Region 0 0)
  else
    start <- dev_start id (index x);;
    len <- dev_len id (index x);;
    ret (Region start len).

(** The structures of the ioctls are words in user memory. *)
Definition words_out (m : umem) (arg : Z) (l : list Z) : umem * Z :=
  let '(m', n) := copy_to_user m arg (concat (le_bytes 4 <$> l)) in
  (m', if negb (n =? 0) then - EFAULT else 0).
Definition word_at (l : list Z) (i : Z) : Z := le_Z (bslice l (4 * i) 4).

(** [PMEM_ALLOCATE] and [PMEM_ALLOCATE_ALIGNED]; three errors of the latter
    leave the semaphore held. *)
Definition ioctl_allocate (e : env) (f len : Z) : M Z :=
  d <- data_of f;;
  id <- get_id f;;
  down d;;
  b <- has_allocation f;;
  if b then ret (- EINVAL)
  else
    idx <- dev_allocate e id len SZ_4K;;
    mod_data d (set_index idx);;
    ret (if idx =? -1 then - ENOMEM else idx).

Definition is_bitmap (a : allocator) : bool := match a with BitmapAlloc _ => true | _ => false end.

Definition ioctl_allocate_aligned (e : env) (f size align : Z) : M Z :=
  d <- data_of f;;
  id <- get_id f;;
  dev <- the_device id;;
  down d;;
  b <- has_allocation f;;
  if b then ret (- EINVAL)
  else if negb (Z.land align (u32 (align - 1)) =? 0) then mod_data d (set_sem true);; ret (- EINVAL)
  else if negb (align =? SZ_4K) && negb (is_bitmap (d_alloc dev)) then mod_data d (set_sem true);; ret (- EINVAL)
  else if (SZ_1M <? align) || (align <? SZ_4K) then mod_data d (set_sem true);; ret (- EINVAL)
  else
    idx <- dev_allocate e id size align;;
    mod_data d (set_index idx);;
    ret (if idx =? -1 then - ENOMEM else idx).

Definition pmem_ioctl (e : env) (m : umem) (f cmd arg : Z) : M (umem * Z) :=
  id <- get_id f;;
  if (cmd =? PMEM_GET_PHYS) || (cmd =? PMEM_GET_SIZE) then
    r <- pmem_get_size f;; ret (words_out m arg [offset r; rlen r])
  else if (cmd =? PMEM_MAP_CMD) || (cmd =? PMEM_UNMAP_CMD) then
    let '(bs, n) := copy_from_user m arg 8 in
    if negb (n =? 0) then ret (m, - EFAULT)
    else r <- pmem_remap e (Region (word_at bs 0) (word_at bs 1)) f
                (if cmd =? PMEM_MAP_CMD then PMEM_MAP else PMEM_UNMAP);; ret (m, r)
  else if cmd =? PMEM_GET_TOTAL_SIZE then
    dev <- the_device id;; ret (words_out m arg [0; pm_size (d_info dev)])
  else if cmd =? PMEM_GET_FREE_SPACE then
    dev <- the_device id;;
    fs <- lift_alloc (free_space (d_info dev) (d_alloc dev));;
    ret (words_out m arg [fs_total fs; fs_largest fs])
  else if cmd =? PMEM_ALLOCATE then r <- ioctl_allocate e f arg;; ret (m, r)
  else if cmd =? PMEM_ALLOCATE_ALIGNED then
    let '(bs, n) := copy_from_user m arg 8 in
    if negb (n =? 0) then ret (m, - EFAULT)
    else r <- ioctl_allocate_aligned e f (word_at bs 0) (word_at bs 1);; ret (m, r)
  else if cmd =? PMEM_CONNECT then r <- pmem_connect e arg f;; ret (m, r)
  else if (cmd =? PMEM_CLEAN_INV_CACHES) || (cmd =? PMEM_CLEAN_CACHES) || (cmd =? PMEM_INV_CACHES) then
    let '(bs, n) := copy_from_user m arg 12 in
    if negb (n =? 0) then ret (m, - EFAULT)
    else r <- pmem_cache_maint f cmd (PmemAddr (word_at bs 0) (word_at bs 1) (word_at bs 2));; ret (m, r)
  else ret (m, - EINVAL).
