(* ===== verification/PmemSystem.v ===== *)
(** * Pmem: setting up devices, and the driver under the system calls

    [pmem_setup] registers a device.  The system calls open, close, map, unmap
    and control files and fork their mappings; a file is released with the last
    descriptor, mapping or driver that holds it.  [pmem_step] is one call by any
    process. *)

From stdpp Require Import base numbers list gmap countable.
From S2P Require Import Prelude Pmem PmemProps PmemVm PmemFile.

Open Scope Z_scope.
Open Scope pmem_scope.

(** ** Setup *)

Definition PMEM_ALLOCATORTYPE_BITMAP : Z := 0.
Definition PMEM_ALLOCATORTYPE_SYSTEM : Z := 1.
Definition PMEM_ALLOCATORTYPE_ALLORNOTHING : Z := 2.
Definition PMEM_ALLOCATORTYPE_BUDDYBESTFIT : Z := 3.

Record platform_data := PlatformData {
  pd_size : Z; pd_allocator_type : Z; pd_quantum : Z; pd_cached : bool; pd_unstable : bool }.

(** What the rest of the kernel contributes: memory for the tables, the sysfs
    object, the registration of the device, the region, its address in the
    kernel and the garbage page. *)
Record setup_env := SetupEnv {
  se_table : bool; se_bitmap : bool; se_kobject : bool; se_misc : bool; se_base : Z; se_vbase : Z;
  se_garbage_pfn : Z }.

Definition is_power_of_2 (n : Z) : bool := negb (n =? 0) && (Z.land n (n - 1) =? 0).

(** The [switch] over the type: the region and the allocator, or an error. *)
Definition setup_allocator (se : setup_env) (type : Z) (p : pmem_info) : option (pmem_info * allocator) :=
  if type =? PMEM_ALLOCATORTYPE_ALLORNOTHING then
    if se_kobject se
    then Some (PmemInfo (pm_base p) (pm_size p) 1 (pm_size p) (pm_cached p), AllOrNothing 0) else None
  else if type =? PMEM_ALLOCATORTYPE_BUDDYBESTFIT then
    if se_table se && se_kobject se then bm ← buddy_setup p; Some (p, BuddyBestfit bm) else None
  else if type =? PMEM_ALLOCATORTYPE_BITMAP then
    if se_table se && se_kobject se && se_bitmap se then Some (p, BitmapAlloc (bitmap_setup p)) else None
  else if type =? PMEM_ALLOCATORTYPE_SYSTEM then
    if se_kobject se
    then Some (PmemInfo (pm_base p) (pm_size p) 0 PAGE_SIZE (pm_cached p), SystemMem (System 0 [] ∅)) else None
  else None.

Definition set_base (b : Z) (p : pmem_info) : pmem_info :=
  PmemInfo b (pm_size p) (num_entries p) (quantum p) (pm_cached p).

(** The new [id_count] and the result. *)
Definition pmem_setup (se : setup_env) (pd : platform_data) (id_count : Z) : M (Z * Z) :=
  if PMEM_MAX_DEVICES <=? id_count then ret (id_count, -1)
  else if pd_size pd =? 0 then ret (id_count, -1)
  else
    let id := id_count in
    let q := if negb (pd_quantum pd =? 0) then pd_quantum pd else PAGE_SIZE in
    let p := PmemInfo 0 (pd_size pd) (pd_size pd / q) q (pd_cached pd) in
    let fail state := modify (set_devices <[id := Device p (AllOrNothing 0) 0 0 state (-1) []]>);; ret (id_count + 1, -1) in
    let state := if pd_unstable pd then MEMORY_UNSTABLE_NO_MEMORY_ALLOCATED else MEMORY_STABLE in
    s <- get;;
    if match devices s !! id with Some dev => negb (d_minor dev =? -1) | None => false end
    then ret (id_count + 1, -1)
    else if (q <? PAGE_SIZE) || negb (is_power_of_2 q) then fail MEMORY_STABLE
    else if negb (pd_size pd mod q =? 0) then fail MEMORY_STABLE
    else
      match setup_allocator se (pd_allocator_type pd) p with
      | None => fail state
      | Some (p', a) =>
          if negb (se_misc se) then fail state
          else if pd_unstable pd then
            modify (set_devices <[id := Device p' a 0 0 state id []]>);;
            ret (id_count + 1, 0)
          else
            let system := pd_allocator_type pd =? PMEM_ALLOCATORTYPE_SYSTEM in
            if negb system && (se_vbase se =? 0) then fail state
            else
              modify (set_devices <[id := Device (set_base (se_base se) p') a (if system then 0 else se_vbase se)
                                            (se_garbage_pfn se) state id []]>);;
              ret (id_count + 1, 0)
      end.

(** ** References to files *)

(** A descriptor, a mapping or a driver that holds the file. *)
Definition held (s : pmem) (f : Z) : bool :=
  bool_decide (map_Exists (fun _ g => g = f) (fds s)) ||
  bool_decide (map_Exists (fun _ w => vm_file w = f) (vmas s)) || bool_decide (f ∈ drivers s).

(** Called when a holder is gone. *)
Definition fput (e : env) (f : Z) : M unit :=
  s <- get;;
  if held s f then ret tt else pmem_release e f;; modify (set_files (delete f)).

Fixpoint remove_one (f : Z) (l : list Z) : list Z :=
  match l with
  | [] => []
  | g :: l' => if g =? f then l' else g :: remove_one f l'
  end.

Definition put_pmem_file (e : env) (f : Z) : M unit :=
  p <- is_pmem_file f;;
  if negb p then ret tt else modify (set_drivers (remove_one f));; fput e f.

(** ** System calls *)

Definition sys_open (e : env) (f fd minor : Z) (sync : bool) : M Z :=
  modify (set_files <[f := File (MISC_MAJOR, minor) sync None]>);;
  r <- pmem_open e f;;
  if negb (r =? 0) then modify (set_files (delete f));; ret r
  else modify (set_fds <[(current e, fd) := f]>);; ret fd.

Definition sys_close (e : env) (fd : Z) : M Z :=
  s <- get;;
  match fds s !! (current e, fd) with
  | None => ret (- EBADF)
  | Some f => modify (set_fds (delete (current e, fd)));; fput e f;; ret 0
  end.

(** Another descriptor of the same file, in this or another process. *)
Definition sys_pass (e : env) (fd p' fd' : Z) : M Z :=
  s <- get;;
  match fds s !! (current e, fd) with
  | None => ret (- EBADF)
  | Some f => modify (set_fds <[(p', fd') := f]>);; ret 0
  end.

Definition in_vma (w : vm_area) (mm pg : Z) : bool :=
  (mm =? vm_mm w) && (vm_start w <=? pg * PAGE_SIZE) && (pg * PAGE_SIZE <? vm_end w).

Definition unmap_region (w : vm_area) : M unit :=
  modify (set_ptes (filter (fun e => in_vma w e.1.1 e.1.2 = false))).

Definition sys_mmap (e : env) (fd v : Z) (mm start stop pgoff vmflags : Z) : M Z :=
  s <- get;;
  match fds s !! (current e, fd) with
  | None => ret (- EBADF)
  | Some f =>
      modify (set_vmas <[v := VmArea mm start stop f pgoff vmflags false false]>);;
      r <- pmem_mmap e f v;;
      if negb (r =? 0) then
        w <- the_vma v;;
        unmap_region w;; modify (set_vmas (delete v));; fput e f;; ret r
      else ret start
  end.

Definition sys_munmap (e : env) (v : Z) : M Z :=
  w <- the_vma v;;
  (if vm_ops w then pmem_vma_close v else ret tt);;
  w <- the_vma v;;
  unmap_region w;; modify (set_vmas (delete v));; fput e (vm_file w);; ret 0.

(** The mapping [v] in the address space of a new process: its entries are
    copied, then the driver is told. *)
Definition copy_ptes (w : vm_area) (mm' : Z) (m : gmap (Z * Z) Z) : gmap (Z * Z) Z :=
  map_fold (fun k pfn acc => if in_vma w k.1 k.2 then <[(mm', k.2) := pfn]> acc else acc) m m.

Definition dup_vma (e : env) (v mm' v' : Z) : M unit :=
  w <- the_vma v;;
  modify (set_vmas <[v' := VmArea mm' (vm_start w) (vm_end w) (vm_file w) (vm_pgoff w) (vm_flags w) (vm_wc w) (vm_ops w)]>);;
  modify (set_ptes (copy_ptes w mm'));;
  if vm_ops w then pmem_vma_open e v' else ret tt.

Definition sys_ioctl (e : env) (m : umem) (fd cmd arg : Z) : M (umem * Z) :=
  s <- get;;
  match fds s !! (current e, fd) with
  | None => ret (m, - EBADF)
  | Some f => pmem_ioctl e m f cmd arg
  end.

(** ** One call *)

Inductive call :=
  | Open (f fd minor : Z) (sync : bool)
  | Close (fd : Z)
  | Pass (fd p' fd' : Z)
  | Mmap (fd v mm start stop pgoff vmflags : Z)
  | Munmap (v : Z)
  | DupVma (v mm' v' : Z)
  | Ioctl (m : umem) (fd cmd arg : Z)
  | GetFile (fd : Z)
  | PutFile (f : Z)
  | FlushFile (f offs len : Z).

Definition run_call (e : env) (c : call) : M unit :=
  match c with
  | Open f fd minor sync => sys_open e f fd minor sync;; ret tt
  | Close fd => sys_close e fd;; ret tt
  | Pass fd p' fd' => sys_pass e fd p' fd';; ret tt
  | Mmap fd v mm start stop pgoff vmflags => sys_mmap e fd v mm start stop pgoff vmflags;; ret tt
  | Munmap v => sys_munmap e v;; ret tt
  | DupVma v mm' v' => dup_vma e v mm' v'
  | Ioctl m fd cmd arg => sys_ioctl e m fd cmd arg;; ret tt
  | GetFile fd => get_pmem_file e fd;; ret tt
  | PutFile f => put_pmem_file e f
  | FlushFile f offs len => flush_pmem_file e f offs len
  end.

(** Ranges of one address space. *)
Definition vma_free (s : pmem) (mm start stop : Z) : Prop :=
  forall v w, vmas s !! v = Some w -> vm_mm w = mm -> stop <= vm_start w \/ vm_end w <= start.

(** What the kernel guarantees at a call: new objects are new, mappings are
    ranges of whole pages that do not overlap, and no one interferes; what a
    driver puts back it holds. *)
Definition call_ok (e : env) (s : pmem) (c : call) : Prop :=
  windows e = [] /\
  (forall d, new_data e = Some d -> datas s !! d = None) /\
  match c with
  | Open f fd minor sync => files s !! f = None /\ fds s !! (current e, fd) = None /\
      (exists dev, devices s !! minor = Some dev /\ d_minor dev = minor /\ minor < PMEM_MAX_DEVICES)
  | Pass fd p' fd' => fds s !! (p', fd') = None
  | Mmap fd v mm start stop pgoff vmflags =>
      vmas s !! v = None /\ 0 <= start < stop /\ stop < 2 ^ 32 /\ (PAGE_SIZE | start) /\ (PAGE_SIZE | stop) /\
      vma_free s mm start stop /\ 0 <= vmflags < 2 ^ 10
  | Munmap v => is_Some (vmas s !! v)
  | DupVma v mm' v' =>
      is_Some (vmas s !! v) /\ vmas s !! v' = None /\ forall w, vmas s !! v = Some w -> vma_free s mm' (vm_start w) (vm_end w)
  | Ioctl m fd cmd arg => 0 <= arg < 2 ^ 32 /\ bytes_ok m
  | PutFile f => f ∈ drivers s
  | FlushFile f _ _ => held s f = true
  | _ => True
  end.

Inductive pmem_step (ok : call -> Prop) : pmem -> pmem -> Prop :=
  | step_call e c s s' : call_ok e s c -> ok c -> run_call e c s = Done s' tt -> pmem_step ok s s'.

(** Calls that do not connect files. *)
Definition no_connect (c : call) : Prop :=
  match c with Ioctl _ _ cmd _ => cmd <> PMEM_CONNECT | _ => True end.

(** Devices that are set up, and nothing open. *)
Definition initial (devs : gmap Z device) (mms : gmap Z Z) : pmem := Pmem devs ∅ ∅ ∅ ∅ ∅ mms [] [].

(** * Pmem: runs of the driver on given calls

    Whether a call is one the kernel makes can be decided, so that a sequence
    of calls can be run and shown to be one. *)

Open Scope pmem_scope.

#[export] Instance no_connect_dec c : Decision (no_connect c).
Proof. destruct c; cbn; apply _. Defined.

#[export] Instance windows_dec (l : list (M unit)) : Decision (l = []).
Proof. destruct l; [by left|by right]. Defined.

#[export] Instance fresh_dec (o : option Z) (m : gmap Z pmem_data) : Decision (forall d, o = Some d -> m !! d = None).
Proof.
  destruct o as [d|]; [|by left]. destruct (m !! d) eqn:E; [right; intros H; by rewrite (H d) in E|left; by intros ? [= <-]].
Defined.

#[export] Instance device_dec (m : gmap Z device) minor :
  Decision (exists dev, m !! minor = Some dev /\ d_minor dev = minor /\ minor < PMEM_MAX_DEVICES).
Proof.
  destruct (m !! minor) as [dev|]; [|right; naive_solver].
  destruct (decide (d_minor dev = minor /\ minor < PMEM_MAX_DEVICES)) as [H|H]; [left; naive_solver|right; naive_solver].
Defined.

#[export] Instance divide_dec (a b : Z) : Decision (a | b).
Proof.
  refine (match decide (b = a * (b / a)) with left H => left _ | right H => right _ end).
  - exists (b / a). lia.
  - intros [k ->]. apply H. destruct (Z.eq_dec a 0) as [->|Ha]; [lia|]. rewrite Z.div_mul by done. lia.
Defined.

#[export] Instance vma_free_dec s mm start stop : Decision (vma_free s mm start stop).
Proof.
  change (Decision (map_Forall (fun _ w => vm_mm w = mm -> stop <= vm_start w \/ vm_end w <= start) (vmas s))). apply _.
Defined.

#[export] Instance dup_dec s (o : option vm_area) mm :
  Decision (forall w, o = Some w -> vma_free s mm (vm_start w) (vm_end w)).
Proof.
  destruct o as [w|]; [|by left]. destruct (decide (vma_free s mm (vm_start w) (vm_end w))); [left; by intros ? [= <-]|right; auto].
Defined.

#[export] Instance bytes_ok_dec m : Decision (bytes_ok m).
Proof. change (Decision (map_Forall (fun _ b => 0 <= b < 256) (um_bytes m))). apply _. Defined.

#[export] Instance call_ok_dec e s c : Decision (call_ok e s c).
Proof. unfold call_ok. destruct c; apply _. Defined.

(** ** Sequences of calls *)

Definition next (ec : env * call) (s : pmem) : outcome unit := run_call ec.1 ec.2 s.

Fixpoint run (l : list (env * call)) (s : pmem) : outcome unit :=
  match l with
  | [] => Done s tt
  | ec :: l' => match next ec s with Done s' _ => run l' s' | Oops => Oops | Deadlock => Deadlock end
  end.

Section runs.
Context (ok : call -> Prop) {ok_dec : forall c, Decision (ok c)}.

Fixpoint kernel_calls (l : list (env * call)) (s : pmem) : bool :=
  match l with
  | [] => true
  | ec :: l' => bool_decide (call_ok ec.1 s ec.2) && bool_decide (ok ec.2) &&
      match next ec s with Done s' _ => kernel_calls l' s' | _ => true end
  end.

Lemma run_steps l s s' : kernel_calls l s = true -> run l s = Done s' tt -> rtc (pmem_step ok) s s'.
Proof.
  revert s. induction l as [|[e c] l IH]; intros s Hk Hr; cbn in *; [injection Hr as ->; apply rtc_refl|].
  destruct (next (e, c) s) as [s1 []| |] eqn:E; [|done|done]. apply andb_true_iff in Hk as [[H1 H2]%andb_true_iff H3].
  apply bool_decide_eq_true in H1, H2. eapply rtc_l; [by apply (step_call _ e c)|by apply IH].
Qed.

End runs.

(** ** The examples' device: 16 pages, with the bitmap allocator *)

Definition ex_device : device := Device ex_region (BitmapAlloc ex_bitmap) 3221225472 7 MEMORY_STABLE 0 [].
Definition ex_start : pmem := initial {[0 := ex_device]} {[1 := 101; 2 := 102; 3 := 103]}.

(** The process [p], for which the next object is [d]. *)
Definition ex_env (p d : Z) : env :=
  Env p (fun _ => true) [] (AllocEnv true no_junk None (fun _ => None) (fun a => a) (fun _ _ _ => 0)) (Some d) true 0 false.

(** Words at the address 4096. *)
Definition ex_words (l : list Z) : umem :=
  Umem (list_to_map (zip (seqZ 4096 (4 * zlen l)) (concat (le_bytes 4 <$> l)))) (2 ^ 31).
Definition ex_ioctl (l : list Z) (fd cmd : Z) : call := Ioctl (ex_words l) fd cmd 4096.

(** What a page of a process shows. *)
Definition page_of (o : outcome unit) (mm addr : Z) : option Z :=
  match o with Done s _ => ptes s !! (mm, page addr) | _ => None end.
