(* ===== verification/PmemApi.v ===== *)
(** * Pmem: what an allocator promises to the file operations

    [PmemAllocator] is the interface: the allocations that are out, by their
    index and length, their places in the region, which do not overlap, and
    what [allocate] and [free] do to them.  The all-or-nothing, the buddy and
    the bitmap allocator implement it. *)

From stdpp Require Import base numbers list gmap.
From S2P Require Import Prelude Pmem PmemBitmap PmemTable PmemBuddy PmemProps.

Open Scope Z_scope.

(** ** The interface *)

Class PmemAllocator (p : pmem_info) := {
  (** The state of the allocator, and the lengths of what it has handed out. *)
  serves : allocator -> gmap Z Z -> Prop;
  (** An allocation is refused without an effect on the others, or new. *)
  serves_allocate env a live len align k :
    serves a live -> 0 <= len < 2 ^ 32 -> align = 2 ^ k -> 0 <= k < 31 ->
    exists a' r, allocate env p a len align = Some (a', r) /\
      (forall i, start_addr p a' i = start_addr p a i) /\
      (r = -1 /\ serves a' live \/
       exists n, 0 <= r /\ live !! r = None /\ serves a' (<[r := n]> live) /\ len <= n);
  serves_free a live r n :
    serves a live -> live !! r = Some n ->
    exists a', free p a r = Some (a', 0) /\ serves a' (delete r live) /\
      forall i, start_addr p a' i = start_addr p a i;
  (** Where an allocation is. *)
  serves_place a live r n :
    serves a live -> live !! r = Some n ->
    exists start, start_addr p a r = Some start /\ alloc_len p a r = Some n /\
      (PAGE_SIZE | start) /\ 0 <= n /\ pm_base p <= start /\ start + n <= pm_base p + pm_size p /\
      0 <= start /\ start + n < 2 ^ 32;
  serves_apart a live r n start r' n' start' :
    serves a live -> live !! r = Some n -> live !! r' = Some n' -> r <> r' ->
    start_addr p a r = Some start -> start_addr p a r' = Some start' ->
    start + n <= start' \/ start' + n' <= start;
  serves_kind a live : serves a live -> forall st, a <> SystemMem st;
  serves_space a live : serves a live -> is_Some (free_space p a) }.

(** Where the region of a device may lie. *)
Record placed (p : pmem_info) : Prop := {
  pl_base : (PAGE_SIZE | pm_base p);
  pl_low : 0 <= pm_base p;
  pl_high : pm_base p + pm_size p < 2 ^ 32 }.

(** ** All or nothing *)

Section all_or_nothing.
Context (p : pmem_info) (Hp : placed p) (Hs : 0 <= pm_size p < 2 ^ 31).

Inductive aon_serves : allocator -> gmap Z Z -> Prop :=
  | aon_free : aon_serves (AllOrNothing 0) ∅
  | aon_taken len : 0 <= len <= pm_size p -> aon_serves (AllOrNothing 1) {[len := len]}.

Definition aon_allocator : PmemAllocator p.
Proof using Hp Hs.
  refine {| serves := aon_serves |}.
  - intros env a live len align k [|len' Hl] Hlen _ _; cbn [allocate]; unfold pmem_allocator_all_or_nothing.
    + cbn [Z.eqb negb]. rewrite orb_false_r. destruct (Z.ltb_spec (pm_size p) len).
      * eexists _, _. split; [done|]. split; [done|]. left. by split; [|constructor].
      * eexists _, _. split; [done|]. split; [done|]. right. exists len. rewrite s32_small by lia.
        split_and!; [lia|by rewrite lookup_empty|rewrite insert_empty; constructor; lia|lia].
    + rewrite orb_true_r. eexists _, _. split; [done|]. split; [done|]. left. by split; [|constructor].
  - intros a live r n [|len Hl] Hr; [by rewrite lookup_empty in Hr|]. apply lookup_singleton_Some in Hr as [<- <-].
    eexists. cbn. split; [done|]. split; [|done]. rewrite delete_singleton_eq. constructor.
  - intros a live r n [|len Hl] Hr; [by rewrite lookup_empty in Hr|]. apply lookup_singleton_Some in Hr as [<- <-].
    destruct Hp as [H1 H2 H3]. eexists. cbn. unfold pmem_start_addr_all_or_nothing, pmem_len_all_or_nothing.
    rewrite Z.mul_0_l, Z.add_0_l. rewrite !u32_small by lia. split_and!; [done|done|done|lia..].
  - intros a live r n start r' n' start' [|len Hl] Hr Hr' Hne; [by rewrite lookup_empty in Hr|].
    apply lookup_singleton_Some in Hr as [<- _]. apply lookup_singleton_Some in Hr' as [<- _]. done.
  - by intros a live [|].
  - intros a live [|]; by eexists.
Defined.

End all_or_nothing.

(** ** Places that the index gives *)

Section indexed.
Context (p : pmem_info) (Hp : placed p) (Hr : region_ok p).

Lemma quantum_pages : (PAGE_SIZE | quantum p) /\ 0 < quantum p.
Proof using Hr.
  destruct (ro_quantum _ Hr) as (k & Hk & ->). split; [|lia].
  exists (2 ^ (k - 12)). change PAGE_SIZE with (2 ^ 12). rewrite <- Z.pow_add_r by lia. f_equal. lia.
Qed.

(** The place of [q] quanta from the quantum [i] on. *)
Lemma index_place i q :
  0 <= i -> 0 <= q -> i + q <= num_entries p ->
  let start := u32 (i * quantum p + pm_base p) in
  start = i * quantum p + pm_base p /\ (PAGE_SIZE | start) /\ 0 <= q * quantum p < 2 ^ 32 /\
  pm_base p <= start /\ start + q * quantum p <= pm_base p + pm_size p.
Proof using Hp Hr.
  intros Hi Hq Hle start. destruct quantum_pages as [Hd Hq0]. destruct Hp as [H1 H2 H3]. pose proof (ro_size _ Hr).
  assert (start = i * quantum p + pm_base p) as -> by (apply u32_small; nia).
  split_and!; [done| |nia|nia|nia|nia]. by apply Z.divide_add_r; [apply Z.divide_mul_r|].
Qed.

(** A length that is zero, or so large that rounding it up wraps, needs no quanta. *)
Lemma no_quanta len : 0 <= len < 2 ^ 32 -> len = 0 \/ 2 ^ 32 <= len + quantum p - 1 -> u32 (len + quantum p - 1) / quantum p = 0.
Proof using Hr.
  intros Hl H. destruct quantum_pages as [_ Hq]. pose proof (ro_bits _ Hr). pose proof (ro_size _ Hr).
  pose proof (ro_entries _ Hr). assert (quantum p < 2 ^ 32) by nia.
  destruct H as [->|H]; [rewrite u32_small by lia; apply Z.div_small; lia|].
  unfold u32. replace (len + quantum p - 1) with (len + quantum p - 1 - 2 ^ 32 + 1 * 2 ^ 32) by lia.
  rewrite Z.mod_add by lia. rewrite Z.mod_small by lia. apply Z.div_small. lia.
Qed.

End indexed.

(** ** Buddy best fit *)

Section buddy.
Context (p : pmem_info) (Hp : placed p) (Hr : region_ok p).

Definition buddy_serves (a : allocator) (live : gmap Z Z) : Prop :=
  exists bm l, a = BuddyBestfit bm /\ buddy_ok (num_entries p) bm l /\
    forall i n, live !! i = Some n <-> exists o, Block i o true ∈ l /\ n = 2 ^ o * quantum p.

Lemma buddy_refuses bm l len :
  buddy_ok (num_entries p) bm l -> 0 <= len < 2 ^ 32 -> len = 0 \/ 2 ^ 32 <= len + quantum p - 1 ->
  pmem_allocator_buddy_bestfit p bm len = Some (bm, -1).
Proof using Hp Hr.
  intros Hok Hl Hw. unfold pmem_allocator_buddy_bestfit, pmem_order. rewrite (no_quanta p Hr len Hl Hw).
  replace (order_loop 32 (u32 (0 - 1)) 0) with 32 by done. change (PMEM_MAX_ORDER <? 32) with false. cbv iota.
  destruct (buddy_scan_spec bm (num_entries p) l 32) with (fuel := Z.to_nat (num_entries p)) (l1 := @nil block)
    (l2 := l) (curr := 0) (best := -1) as (r & -> & Hb).
  - apply Hok.
  - apply Hok.
  - lia.
  - done.
  - apply Hok.
  - lia.
  - left. split; [done|set_solver].
  - cbn [mbind option_bind]. destruct Hb as [[-> _]|(ob & Hin & Hge & _)]; [done|].
    destruct (tiling_block _ _ _ _ _ (bk_tiling _ _ _ Hok) Hin) as (_ & _ & Ho & _). cbn in Ho. lia.
Qed.

Lemma buddy_serves_alloc a live len :
  buddy_serves a live -> 0 < len -> len + quantum p - 1 < 2 ^ 32 ->
  exists bm bm' r, a = BuddyBestfit bm /\ pmem_allocator_buddy_bestfit p bm len = Some (bm', r) /\
    (r = -1 /\ buddy_serves (BuddyBestfit bm') live \/
     exists n, 0 <= r /\ live !! r = None /\ buddy_serves (BuddyBestfit bm') (<[r := n]> live) /\ len <= n).
Proof using Hp Hr.
  intros (bm & l & -> & Hok & Hlive) Hl Hw. destruct (quantum_pages p Hr) as [_ Hq].
  destruct (pmem_order_spec p len Hq Hl Hw) as (_ & Hlen & _).
  destruct (buddy_alloc_spec p bm l len Hok Hq Hl Hw) as (bm' & r & l' & E & Hok' & H).
  exists bm, bm', r. split; [done|]. split; [done|]. set (o := pmem_order p len) in *. clearbody o.
  destruct H as [(-> & -> & -> & _)|(l1 & l2 & m & El & El' & _)]; [left; split; [done|by exists bm, l]|right].
  assert (Block r (o + Z.of_nat m) false ∈ l) as Hin by (rewrite El; set_solver).
  exists (2 ^ o * quantum p). split_and!; [| |exists bm', l'; split; [done|split; [done|]]|done].
  - destruct (tiling_block _ _ _ _ _ (bk_tiling _ _ _ Hok) Hin) as (_ & _ & _ & H & _). exact H.
  - destruct (live !! r) eqn:E'; [|done]. apply Hlive in E' as (o' & Hin' & _).
    by destruct (start_unique _ _ _ _ _ _ _ _ (bk_tiling _ _ _ Hok) Hin Hin').
  - intros i n. assert (forall i' o', i' <> r -> Block i' o' true ∈ l' <-> Block i' o' true ∈ l) as Hsame.
    { intros i' o' Hne. rewrite El, El', !elem_of_app, !elem_of_cons, elem_of_app, halves_elem. naive_solver. }
    destruct (decide (i = r)) as [->|Hne].
    + rewrite lookup_insert_eq. split; [intros [= <-]; exists o; split; [|done]; rewrite El'; set_solver|].
      intros (o' & Hin' & ->). do 2 f_equal. assert (Block r o true ∈ l') as Hin2 by (rewrite El'; set_solver).
      by destruct (start_unique _ _ _ _ _ _ _ _ (bk_tiling _ _ _ Hok') Hin2 Hin') as [-> _].
    + rewrite lookup_insert_ne by done. rewrite Hlive. by setoid_rewrite (Hsame i _ Hne).
Qed.

Lemma buddy_space bm l : tiling bm 0 (num_entries p) l -> num_entries p < 2 ^ 30 ->
  forall fuel l2 curr fs, tiling bm curr (num_entries p) l2 -> (Z.to_nat (num_entries p - curr) <= fuel)%nat ->
  is_Some (buddy_free_loop fuel p bm curr fs).
Proof using Hp Hr.
  intros _ Hn. induction fuel as [|fuel IH]; intros l2 curr fs Ht Hf.
  all: inversion Ht as [e|i e o al l' Hg Hi Ho Hd Ht']; subst; cbn [buddy_free_loop].
  1, 3: by rewrite Z.ltb_irrefl; eexists.
  all: pose proof (tiling_le _ _ _ _ Ht'); assert (0 < 2 ^ o) by (apply Z.pow_pos_nonneg; lia).
  1: lia.
  case_if; [|by eexists]. rewrite (slot_free _ _ _ _ Hg). cbn [mbind option_bind].
  rewrite (slot_next _ _ _ _ Hg Ho) by lia. cbn [mbind option_bind].
  unfold PMEM_BUDDY_LEN. rewrite (slot_order _ _ _ _ Hg). cbn [mbind option_bind]. eapply IH; [done|lia].
Qed.

Definition buddy_allocator : PmemAllocator p.
Proof using Hp Hr.
  refine {| serves := buddy_serves |}.
  - intros env a live len align k Hs Hl _ _.
    destruct (decide (len = 0 \/ 2 ^ 32 <= len + quantum p - 1)) as [Hw|Hw].
    + pose proof Hs as (bm & l & -> & Hok & Hlive). eexists _, _. cbn [allocate].
      rewrite (buddy_refuses bm l len Hok Hl Hw). split; [done|]. split; [done|]. by left.
    + destruct (buddy_serves_alloc a live len Hs) as (bm & bm' & r & -> & E & H); [lia|lia|].
      eexists _, _. cbn [allocate]. rewrite E. split; [done|]. by split.
  - intros a live r n (bm & l & -> & Hok & Hlive) Hn. apply Hlive in Hn as (o & Hin & ->).
    destruct (buddy_free_spec p bm l r o Hok Hin) as (bm' & l' & E & Hok' & Hin').
    eexists. cbn [free]. rewrite E. split; [done|]. split; [|done]. exists bm', l'. split; [done|]. split; [done|].
    intros i n. setoid_rewrite Hin'. rewrite lookup_delete_Some, Hlive. naive_solver.
  - intros a live r n (bm & l & -> & Hok & Hlive) Hn. apply Hlive in Hn as (o & Hin & ->).
    destruct (tiling_block _ _ _ _ _ (bk_tiling _ _ _ Hok) Hin) as (_ & Hle & Ho & Hr0 & _ & Hg). cbn in Hle, Ho, Hr0, Hg.
    assert (0 < 2 ^ o) by (apply Z.pow_pos_nonneg; lia).
    destruct (index_place p Hp Hr r (2 ^ o)) as (E & Hd & Hb & H1 & H2); [lia|lia|lia|].
    eexists. cbn [start_addr alloc_len]. unfold pmem_start_addr_buddy_bestfit, pmem_len_buddy_bestfit, PMEM_BUDDY_LEN.
    rewrite (slot_order _ _ _ _ Hg). cbn [mbind option_bind]. destruct (slot_pow o Ho) as [Ep _].
    rewrite Ep, (u32_small (2 ^ o * quantum p)) by lia. destruct Hp. split_and!; [done|done|done|lia..].
  - intros a live r n start r' n' start' (bm & l & -> & Hok & Hlive) H1 H2 Hne [= <-] [= <-].
    apply Hlive in H1 as (o & Hin & ->). apply Hlive in H2 as (o' & Hin' & ->).
    pose proof (tiling_block _ _ _ _ _ (bk_tiling _ _ _ Hok) Hin) as (_ & Hle & Ho & Hr0 & _).
    pose proof (tiling_block _ _ _ _ _ (bk_tiling _ _ _ Hok) Hin') as (_ & Hle' & Ho' & Hr0' & _). cbn in *.
    assert (0 < 2 ^ o /\ 0 < 2 ^ o') as [? ?] by (split; apply Z.pow_pos_nonneg; lia).
    destruct (index_place p Hp Hr r (2 ^ o)) as (E & _); [lia..|].
    destruct (index_place p Hp Hr r' (2 ^ o')) as (E' & _); [lia..|]. unfold pmem_start_addr_buddy_bestfit.
    rewrite E, E'. destruct (quantum_pages p Hr) as [_ Hq].
    destruct (tiling_apart _ _ _ _ _ _ (bk_tiling _ _ _ Hok) Hin Hin') as [K|[K|K]]; [by injection K|cbn in K..]; nia.
  - by intros a live (bm & l & -> & _).
  - intros a live (bm & l & -> & Hok & _). cbn. unfold pmem_free_space_buddy_bestfit.
    apply (buddy_space bm l (bk_tiling _ _ _ Hok)) with l; [apply Hok|apply Hok|lia].
Defined.

End buddy.

(** ** Bitmap *)

Section bitmap.
Context (p : pmem_info) (Hp : placed p) (Hr : region_ok p) (Hn : num_entries p <= 2 ^ 15).

Definition bitmap_serves (a : allocator) (live : gmap Z Z) : Prop :=
  exists st t, a = BitmapAlloc st /\ bitmap_ok p st t /\
    forall i n, live !! i = Some n <-> exists e, e ∈ t /\ in_use e /\ bit e = i /\ n = quanta e * quantum p.

Lemma entry_unique st t e e' : bitmap_ok p st t -> e ∈ t -> e' ∈ t -> in_use e -> bit e' = bit e -> e' = e.
Proof using.
  intros Hok He He' Hu Hb. apply list_elem_of_lookup in He as (i & Hi). apply list_elem_of_lookup in He' as (j & Hj).
  pose proof (find_entry_spec p st t i e Hok Hi Hu) as H1. rewrite <- Hb in H1.
  rewrite (find_entry_spec p st t j e' Hok Hj) in H1 by (unfold in_use in *; congruence). by injection H1.
Qed.

Lemma bitmap_refuses st t len align mem junk :
  bitmap_ok p st t -> 0 <= len < 2 ^ 32 -> len = 0 \/ 2 ^ 32 <= len + quantum p - 1 ->
  exists st', pmem_allocator_bitmap p st len align mem junk = Some (st', -1) /\ bitmap_ok p st' t.
Proof using Hp Hr.
  intros Hok Hl Hw. unfold pmem_allocator_bitmap. rewrite (bo_table _ _ _ Hok), (no_quanta p Hr len Hl Hw).
  pose proof (bo_free_nonneg _ _ _ Hok). destruct (Z.ltb_spec (bitmap_free st) 0); [lia|]. unfold reserve_quanta.
  destruct (Z.ltb_spec (bitmap_free st) 0); [lia|]. destruct (_ <=? -1); [by exists st|].
  unfold bitmap_allocate_contiguous. change (s32 0 <=? 0) with true. cbn [mbind option_bind Z.eqb].
  exists st. split; [|done]. by destruct st.
Qed.

Lemma bitmap_serves_alloc a live len align k mem junk :
  bitmap_serves a live -> 0 < len -> len + quantum p - 1 < 2 ^ 32 -> align = 2 ^ k -> 0 <= k < 31 ->
  exists st st' r, a = BitmapAlloc st /\ pmem_allocator_bitmap p st len align mem junk = Some (st', r) /\
    (r = -1 /\ bitmap_serves (BitmapAlloc st') live \/
     exists n, 0 <= r /\ live !! r = None /\ bitmap_serves (BitmapAlloc st') (<[r := n]> live) /\ len <= n).
Proof using Hp Hr Hn.
  intros (st & t & -> & Hok & Hlive) Hl Hw Ha Hk.
  destruct (alloc_spec p st t Hr Hok Hn len align k Hl Hw Ha Hk mem junk) as (st' & r & t' & E & Hok' & Hres).
  exists st, st', r. split; [done|]. split; [done|].
  destruct Hres as [|r i st' t' H0 _ Hle Hfree _ Hi Hold Hkeep _ _ _|]; [by left; split; [|exists st, t]| |
    by left; split; [|eexists _, t]].
  right. assert (quanta_of p len * quantum p >= len) as Hlen.
  { unfold quanta_of. destruct (quantum_pages p Hr) as [_ Hq].
    pose proof (Z.mul_succ_div_gt (len + quantum p - 1) (quantum p)). nia. }
  pose proof (quanta_pos p st t Hr Hok Hn len align k Hl Hw Ha Hk) as Hqp.
  exists (quanta_of p len * quantum p). split_and!; [done| |exists st', t'; split; [done|split; [done|]]|lia].
  - destruct (live !! r) eqn:E'; [|done]. apply Hlive in E' as (e & He & Hu & <- & _).
    pose proof (bo_entry _ _ _ Hok e He Hu) as (? & ? & ?).
    pose proof (Hfree (bit e) ltac:(lia)) as F.
    by rewrite (bo_marked _ _ _ Hok e (bit e) He Hu ltac:(unfold entry_has; lia)) in F.
  - intros j n. assert (in_use (Entry r (quanta_of p len))) as Hu' by (unfold in_use; cbn; lia).
    assert (Entry r (quanta_of p len) ∈ t') as Hin by (by eapply list_elem_of_lookup_2).
    destruct (decide (j = r)) as [->|Hne].
    + rewrite lookup_insert_eq. split; [intros [= <-]; by exists (Entry r (quanta_of p len))|].
      intros (e & He & Hu & Hb & ->). do 2 f_equal. by rewrite (entry_unique st' t' _ e Hok' Hin He Hu' Hb).
    + rewrite lookup_insert_ne by done. rewrite Hlive. split; intros (e & He & Hu & Hb & ->); exists e; split_and!; auto.
      apply list_elem_of_lookup in He as (m & Hm). apply list_elem_of_lookup. exists m. apply Hold; [|done|done].
      intros ->. rewrite Hi in Hm. injection Hm as <-. done.
Qed.

Lemma space_loop_some t n alloc_start fs : t <> [] -> is_Some (free_space_loop n p t alloc_start fs).
Proof using.
  intros Ht. revert alloc_start fs. induction n as [|n IH]; intros alloc_start fs; cbn [free_space_loop]; [by eexists|].
  assert (forall l j i nx, 0 <= j -> (0 <= i < zlen t) -> j + zlen l <= zlen t ->
    0 <= (next_alloc_loop l j alloc_start i nx).1 < zlen t) as Hidx.
  { induction l as [|e l IHl]; intros j i nx Hj Hi Hle; [done|]. rewrite zlen_cons in Hle. cbn [next_alloc_loop].
    pose proof (zlen_nonneg l). destruct (alloc_start =? bit e); repeat case_if; apply IHl; lia. }
  assert (0 < zlen t) by (destruct t; [done|]; rewrite zlen_cons; pose proof (zlen_nonneg t); lia).
  specialize (Hidx t 0 0 (s32 (num_entries p)) ltac:(lia) ltac:(lia) ltac:(lia)).
  destruct (next_alloc_loop t 0 alloc_start 0 (s32 (num_entries p))) as [idx next]. cbn in Hidx.
  destruct (array_get_lt t idx Hidx) as (e & ->). cbn [mbind option_bind]. case_if; [by eexists|apply IH].
Qed.

Definition bitmap_allocator : PmemAllocator p.
Proof using Hp Hr Hn.
  refine {| serves := bitmap_serves |}.
  - intros env a live len align k Hs Hl Ha Hk.
    destruct (decide (len = 0 \/ 2 ^ 32 <= len + quantum p - 1)) as [Hw|Hw].
    + destruct Hs as (st & t & -> & Hok & Hlive). cbn [allocate].
      destruct (bitmap_refuses st t len align (ae_mem env) (ae_junk env) Hok Hl Hw) as (st' & -> & Hok').
      eexists _, _. split; [done|]. split; [done|]. left. split; [done|]. by exists st', t.
    + destruct (bitmap_serves_alloc a live len align k (ae_mem env) (ae_junk env) Hs) as (st & st' & r & -> & E & H);
        [lia|lia|done|done|]. eexists _, _. cbn [allocate]. rewrite E. split; [done|]. by split.
  - intros a live r n (st & t & -> & Hok & Hlive) Hlr. apply Hlive in Hlr as (e & He & Hu & <- & ->).
    pose proof He as He'. apply list_elem_of_lookup in He' as (i & Hi).
    destruct (free_bitmap_spec p st t i e Hr Hok Hi Hu) as (st' & E & Hok' & _).
    eexists. cbn [free]. rewrite E. split; [done|]. split; [|done]. eexists st', _. split; [done|]. split; [done|].
    intros j n. rewrite lookup_delete_Some, Hlive. split.
    + intros (Hne & e' & He' & Hu' & <- & ->). exists e'. split_and!; try done.
      apply list_elem_of_lookup in He' as (m & Hm). apply list_elem_of_lookup. exists m.
      rewrite list_lookup_insert_ne; [done|]. intros ->. rewrite Hi in Hm. by injection Hm as ->.
    + intros (e' & He' & Hu' & <- & ->). apply list_elem_of_lookup in He' as (m & Hm).
      apply list_lookup_insert_Some in Hm as [(-> & <- & _)|(Hne & Hm)]; [by destruct Hu'|].
      split; [|exists e'; split_and!; try done; by eapply list_elem_of_lookup_2].
      intros Hb. pose proof (find_entry_spec p st t i e Hok Hi Hu) as H1. rewrite Hb in H1.
      rewrite (find_entry_spec p st t m e' Hok Hm Hu') in H1. by injection H1.
  - intros a live r n (st & t & -> & Hok & Hlive) Hlr. apply Hlive in Hlr as (e & He & Hu & <- & ->).
    pose proof (bo_entry _ _ _ Hok e He Hu) as (H1 & H2 & H3).
    destruct (index_place p Hp Hr (bit e) (quanta e)) as (E & Hd & Hb & K1 & K2); [lia..|].
    eexists. cbn [start_addr alloc_len]. unfold pmem_start_addr_bitmap, pmem_len_bitmap. rewrite (bo_table _ _ _ Hok).
    apply list_elem_of_lookup in He as (i & Hi). change (default [] (Some t)) with t.
    rewrite (find_entry_spec p st t i e Hok Hi Hu), (u32_small (quanta e * quantum p)) by lia.
    destruct Hp. split_and!; [done|done|done|lia..].
  - intros a live r n start r' n' start' (st & t & -> & Hok & Hlive) H1 H2 Hne [= <-] [= <-].
    apply Hlive in H1 as (e & He & Hu & <- & ->). apply Hlive in H2 as (e' & He' & Hu' & <- & ->).
    pose proof (bo_entry _ _ _ Hok e He Hu) as (? & ? & ?). pose proof (bo_entry _ _ _ Hok e' He' Hu') as (? & ? & ?).
    destruct (index_place p Hp Hr (bit e) (quanta e)) as (E & _); [lia..|].
    destruct (index_place p Hp Hr (bit e') (quanta e')) as (E' & _); [lia..|]. unfold pmem_start_addr_bitmap.
    rewrite E, E'. destruct (quantum_pages p Hr) as [_ Hq].
    apply list_elem_of_lookup in He as (i & Hi). apply list_elem_of_lookup in He' as (j & Hj).
    destruct (bo_disjoint _ _ _ Hok i j e e' Hi Hj ltac:(congruence) Hu Hu'); nia.
  - by intros a live (st & t & -> & _).
  - intros a live (st & t & -> & Hok & _). cbn. unfold pmem_free_space_bitmap. rewrite (bo_table _ _ _ Hok).
    change (default [] (Some t)) with t. destruct t; [by eexists|]. by apply space_loop_some.
Defined.

End bitmap.

(** ** The start *)

Lemma buddy_starts p bm :
  0 < num_entries p < 2 ^ 30 -> buddy_setup p = Some bm -> buddy_serves p (BuddyBestfit bm) ∅.
Proof.
  intros Hn E. destruct (buddy_setup_spec p Hn) as (bm' & l & E' & Hok & Hfree). assert (bm' = bm) as -> by congruence.
  exists bm, l. split; [done|]. split; [done|]. intros i n. rewrite lookup_empty. split; [done|].
  intros (o & Hin & _). by apply Hfree in Hin.
Qed.

Lemma bitmap_starts p : region_ok p -> bitmap_serves p (BitmapAlloc (bitmap_setup p)) ∅.
Proof.
  intros Hp. destruct (bitmap_setup_ok p Hp) as (t & Hok & _ & Hu). exists (bitmap_setup p), t. split; [done|]. split; [done|].
  intros i n. rewrite lookup_empty. split; [done|]. intros (e & He & Hue & _). by apply Hu in He.
Qed.
