(* ===== verification/PmemIsolation.v ===== *)
(** * Pmem: the invariant of files that are not connected

    Rules for the monad of the file operations, and [pmem_ok]: every file has
    its own allocation, and a mapping shows pages of the allocation of its file
    or the garbage page of the device. *)

From stdpp Require Import base numbers list gmap countable functions.
From S2P Require Import Prelude Pmem PmemApi PmemVm PmemFile PmemSystem.

Open Scope Z_scope.
Open Scope pmem_scope.

(** ** Rules for operations

    [wp D m s Q]: from [s] the operation does not run into a bug, [Q] holds
    when it returns, and it waits forever only if [D]. *)

Definition wp {A} (D : Prop) (m : M A) (s : pmem) (Q : pmem -> A -> Prop) : Prop :=
  match m s with Done s' a => Q s' a | Oops => False | Deadlock => D end.

Lemma wp_ret {A} D (a : A) s Q : Q s a -> wp D (ret a) s Q.
Proof. done. Qed.

Lemma wp_bind {A B} D (m : M A) (k : A -> M B) s Q :
  wp D m s (fun s' a => wp D (k a) s' Q) -> wp D (bind m k) s Q.
Proof. unfold wp, bind. by destruct (m s). Qed.

Lemma wp_mono {A} D (m : M A) s Q Q' : wp D m s Q -> (forall s' a, Q s' a -> Q' s' a) -> wp D m s Q'.
Proof. unfold wp. destruct (m s); auto. Qed.

Lemma wp_deadlock {A} (D D' : Prop) (m : M A) s Q : wp D m s Q -> (D -> D') -> wp D' m s Q.
Proof. unfold wp. destruct (m s); auto. Qed.

Lemma wp_get D s Q : Q s s -> wp D get s Q.
Proof. done. Qed.

Lemma wp_modify D f s Q : Q (f s) tt -> wp D (modify f) s Q.
Proof. done. Qed.

Lemma wp_BUG_ON D b s Q : b = false -> Q s tt -> wp D (BUG_ON b) s Q.
Proof. by intros ->. Qed.

Lemma wp_the {B} D (o : pmem -> option B) s Q x : o s = Some x -> Q s x -> wp D (the o) s Q.
Proof. unfold wp, the. by intros ->. Qed.

Lemma wp_lift {A} D (o : option A) s Q x : o = Some x -> Q s x -> wp D (lift_alloc o) s Q.
Proof. by intros ->. Qed.

Lemma wp_mod_device D id f s Q dev :
  devices s !! id = Some dev -> Q (set_devices <[id := f dev]> s) tt -> wp D (mod_device id f) s Q.
Proof. intros H HQ. unfold mod_device, the_device. apply wp_bind. by eapply wp_the. Qed.

Lemma wp_mod_data D d f s Q x :
  datas s !! d = Some x -> Q (set_datas <[d := f x]> s) tt -> wp D (mod_data d f) s Q.
Proof. intros H HQ. unfold mod_data, the_data. apply wp_bind. by eapply wp_the. Qed.

Lemma wp_mod_vma D v f s Q w :
  vmas s !! v = Some w -> Q (set_vmas <[v := f w]> s) tt -> wp D (mod_vma v f) s Q.
Proof. intros H HQ. unfold mod_vma, the_vma. apply wp_bind. by eapply wp_the. Qed.

Lemma wp_down D d s Q x :
  datas s !! d = Some x -> (sem x = true -> D) -> Q s x -> wp D (down d) s Q.
Proof.
  intros H HD HQ. unfold down, the_data. apply wp_bind. eapply wp_the; [done|].
  destruct (sem x) eqn:E; [by apply HD|done].
Qed.

(** A wait is for a semaphore that was left held. *)
Definition leaked (s : pmem) : Prop := exists d x, datas s !! d = Some x /\ sem x = true.

Lemma wp_down_leaked d s Q x : datas s !! d = Some x -> Q s x -> wp (leaked s) (down d) s Q.
Proof. intros H HQ. eapply wp_down; [done| |done]. intros ?. by exists d, x. Qed.

(** ** Open files *)

(** [f] is an open file of the device [id] with the data [y] at [d]. *)
Record opened (s : pmem) (f id d : Z) (x : file) (y : pmem_data) (dev : device) : Prop := {
  op_file : files s !! f = Some x;
  op_rdev : f_rdev x = (MISC_MAJOR, id);
  op_private : private_data x = Some d;
  op_data : datas s !! d = Some y;
  op_device : devices s !! id = Some dev;
  op_minor : d_minor dev = id;
  op_max : id < PMEM_MAX_DEVICES }.

Section opened.
Context {s : pmem} {f id d : Z} {x : file} {y : pmem_data} {dev : device} (H : opened s f id d x y dev) (D : Prop).

Lemma wp_get_id Q : Q s id -> wp D (get_id f) s Q.
Proof using H.
  intros HQ. unfold get_id, the_file. apply wp_bind. eapply wp_the; [apply H|]. apply wp_ret. by rewrite (op_rdev _ _ _ _ _ _ _ H).
Qed.

Lemma wp_is_pmem_file Q : Q s true -> wp D (is_pmem_file f) s Q.
Proof using H.
  intros HQ. unfold is_pmem_file, the_file. apply wp_bind. eapply wp_the; [apply H|]. apply wp_bind, wp_get, wp_ret.
  rewrite (op_rdev _ _ _ _ _ _ _ H). cbn [snd]. rewrite (op_device _ _ _ _ _ _ _ H). cbn [fmap option_fmap option_map].
  change (default 0 (Some (d_minor dev))) with (d_minor dev). rewrite (op_minor _ _ _ _ _ _ _ H). rewrite bool_decide_eq_true_2 by done.
  pose proof (op_max _ _ _ _ _ _ _ H). by destruct (Z.leb_spec PMEM_MAX_DEVICES id); [lia|].
Qed.

Lemma wp_has_allocation Q : Q s (negb (index y =? -1)) -> wp D (has_allocation f) s Q.
Proof using H.
  intros HQ. unfold has_allocation, the_file, the_data. apply wp_bind. eapply wp_the; [apply H|].
  rewrite (op_private _ _ _ _ _ _ _ H). apply wp_bind. by eapply wp_the; [apply H|].
Qed.

Lemma wp_data_of Q : Q s d -> wp D (data_of f) s Q.
Proof using H.
  intros HQ. unfold data_of, the_file. apply wp_bind. eapply wp_the; [apply H|].
  by rewrite (op_private _ _ _ _ _ _ _ H).
Qed.

End opened.

(** Data of a file that is not connected. *)
Record plain (y : pmem_data) : Prop := {
  pl_flags : flags y = 0 \/ flags y = PMEM_FLAGS_MASTERMAP;
  pl_vma : vma y = None;
  pl_master : master_file y = None }.

(** ** The invariant *)

Section isolation.
Context (infos : Z -> pmem_info) {allocs : forall id, PmemAllocator (infos id)}.

Definition mapping_ok (w : vm_area) : Prop :=
  0 <= vm_start w < vm_end w /\ vm_end w < 2 ^ 32 /\ (PAGE_SIZE | vm_start w) /\ (PAGE_SIZE | vm_end w) /\
  Z.testbit (vm_flags w) 28 = false.

(** What the entry of the page [pg] of a mapping of the file may be. *)
Definition shows (w : vm_area) (dev : device) (y : pmem_data) (pg pfn : Z) : Prop :=
  pfn = d_garbage_pfn dev \/
  exists start, start_addr (d_info dev) (d_alloc dev) (index y) = Some start /\
    pfn = page start + (pg - page (vm_start w)).

(** [live] has the lengths of the allocations of each device. *)
Record pmem_ok (s : pmem) (live : Z -> gmap Z Z) : Prop := {
  po_device id dev : devices s !! id = Some dev -> d_info dev = infos id /\ @serves _ (allocs id) (d_alloc dev) (live id);
  po_list id dev d : devices s !! id = Some dev -> d ∈ data_list dev -> exists f x y, opened s f id d x y dev;
  po_file f : is_Some (files s !! f) -> exists id d x y dev, opened s f id d x y dev /\ plain y /\
    (index y = -1 \/ is_Some (live id !! index y));
  po_private f f' x x' d : files s !! f = Some x -> files s !! f' = Some x' ->
    private_data x = Some d -> private_data x' = Some d -> f = f';
  po_alone f f' id d d' x x' y y' dev : opened s f id d x y dev -> opened s f' id d' x' y' dev ->
    index y = index y' -> index y <> -1 -> f = f';
  po_owned id r : is_Some (live id !! r) -> exists f d x y dev, opened s f id d x y dev /\ index y = r;
  po_index id : live id !! (-1) = None;
  po_vma v w : vmas s !! v = Some w -> mapping_ok w /\ vm_ops w = true /\
    exists id d x y dev n, opened s (vm_file w) id d x y dev /\ live id !! index y = Some n /\ vm_end w - vm_start w <= n;
  po_apart v v' w w' : vmas s !! v = Some w -> vmas s !! v' = Some w' -> v <> v' -> vm_mm w = vm_mm w' ->
    vm_end w <= vm_start w' \/ vm_end w' <= vm_start w;
  po_pte mm pg pfn : ptes s !! (mm, pg) = Some pfn -> exists v w id d x y dev,
    vmas s !! v = Some w /\ in_vma w mm pg = true /\ opened s (vm_file w) id d x y dev /\ shows w dev y pg pfn;
  po_fd k f : fds s !! k = Some f -> is_Some (files s !! f);
  po_driver f : f ∈ drivers s -> is_Some (files s !! f) }.

(** States that agree on what the invariant is about. *)
Lemma pmem_ok_same s s' live :
  pmem_ok s live -> devices s' = devices s -> files s' = files s -> datas s' = datas s -> vmas s' = vmas s ->
  ptes s' = ptes s -> (forall k f, fds s' !! k = Some f -> is_Some (files s !! f)) ->
  (forall f, f ∈ drivers s' -> is_Some (files s !! f)) -> pmem_ok s' live.
Proof.
  intros [] E1 E2 E3 E4 E5 Hf Hd.
  assert (forall f id d x y dev, opened s' f id d x y dev <-> opened s f id d x y dev) as Ho.
  { intros. split; intros []; split; congruence. }
  split; try setoid_rewrite Ho; rewrite ?E1, ?E2, ?E3, ?E4, ?E5; eauto.
Qed.

(** Only the flags of the file, a lost lock, its regions: not what it owns. *)
Definition same_owner (y y' : pmem_data) : Prop := index y' = index y /\ plain y'.

Lemma opened_set_data s d y y' f id d0 x y0 dev :
  datas s !! d = Some y ->
  opened (set_datas <[d := y']> s) f id d0 x y0 dev <->
  (if decide (d0 = d) then y0 = y' /\ opened s f id d0 x y dev else opened s f id d0 x y0 dev).
Proof.
  intros Hd. split.
  - intros [H1 H2 H3 H4 H5 H6 H7]. cbn in H4. case_decide as E.
    + subst d0. rewrite lookup_insert_eq in H4. injection H4 as <-. done.
    + rewrite lookup_insert_ne in H4 by done. done.
  - case_decide as E.
    + intros [-> []]. split; try done. cbn. by rewrite E, lookup_insert_eq.
    + intros []. split; try done. cbn. by rewrite lookup_insert_ne.
Qed.

Lemma pmem_ok_mod_data s live d y y' :
  pmem_ok s live -> datas s !! d = Some y -> same_owner y y' -> pmem_ok (set_datas <[d := y']> s) live.
Proof.
  intros Hok Hd [Hi Hp].
  assert (forall f id d0 x y0 dev, opened s f id d0 x y0 dev ->
    exists y1, opened (set_datas <[d := y']> s) f id d0 x y1 dev /\ index y1 = index y0 /\ (plain y0 -> plain y1)) as Hto.
  { intros f id d0 x y0 dev Ho. destruct (decide (d0 = d)) as [->|Hne].
    - exists y'. pose proof (op_data _ _ _ _ _ _ _ Ho) as E. assert (y0 = y) as -> by congruence.
      split; [|done]. apply (opened_set_data _ _ _ _ _ _ _ _ _ _ Hd). by rewrite decide_True.
    - exists y0. split; [|done]. apply (opened_set_data _ _ _ _ _ _ _ _ _ _ Hd). by rewrite decide_False. }
  assert (forall f id d0 x y1 dev, opened (set_datas <[d := y']> s) f id d0 x y1 dev ->
    exists y0, opened s f id d0 x y0 dev /\ index y1 = index y0) as Hfrom.
  { intros f id d0 x y1 dev Ho. apply (opened_set_data _ _ _ _ _ _ _ _ _ _ Hd) in Ho. case_decide.
    - destruct Ho as [-> Ho]. by exists y.
    - by exists y1. }
  destruct Hok as [K1 K2 K3 K4 K5 K6 K7 K8 K9 K10 K11 K12]. split; try done.
  - intros id dev d0 Hid Hin. destruct (K2 id dev d0 Hid Hin) as (f & x & y0 & Ho).
    destruct (Hto _ _ _ _ _ _ Ho) as (y1 & Ho' & _). eauto.
  - intros f Hf. destruct (K3 f Hf) as (id & d0 & x & y0 & dev & Ho & Hpl & Hl).
    destruct (Hto _ _ _ _ _ _ Ho) as (y1 & Ho' & E & Hpl'). exists id, d0, x, y1, dev. rewrite E. auto.
  - intros f f' id d0 d1 x x' y0 y1 dev H1 H2 E Hn. destruct (Hfrom _ _ _ _ _ _ H1) as (z0 & G1 & E1).
    destruct (Hfrom _ _ _ _ _ _ H2) as (z1 & G2 & E2). eapply K5; [exact G1|exact G2|congruence|congruence].
  - intros id r Hr. destruct (K6 id r Hr) as (f & d0 & x & y0 & dev & Ho & <-).
    destruct (Hto _ _ _ _ _ _ Ho) as (y1 & Ho' & E & _). eauto 10.
  - intros v w Hv. destruct (K8 v w Hv) as (H1 & H2 & id & d0 & x & y0 & dev & n & Ho & Hl & Hn).
    destruct (Hto _ _ _ _ _ _ Ho) as (y1 & Ho' & E & _). split; [done|]. split; [done|].
    exists id, d0, x, y1, dev, n. by rewrite E.
  - intros mm pg pfn Hpt. destruct (K10 mm pg pfn Hpt) as (v & w & id & d0 & x & y0 & dev & Hv & Hin & Ho & Hs).
    destruct (Hto _ _ _ _ _ _ Ho) as (y1 & Ho' & E & _). exists v, w, id, d0, x, y1, dev.
    unfold shows in *. rewrite E. auto.
Qed.

(** ** The allocators *)

Lemma opened_fun s f id d x y dev id' d' x' y' dev' :
  opened s f id d x y dev -> opened s f id' d' x' y' dev' -> id' = id /\ d' = d /\ x' = x /\ y' = y /\ dev' = dev.
Proof.
  intros [F1 F2 F3 F4 F5 _ _] [G1 G2 G3 G4 G5 _ _]. assert (x' = x) as -> by congruence.
  assert (id' = id) as -> by congruence. assert (d' = d) as -> by congruence.
  split_and!; try done; congruence.
Qed.

(** The same device with another state of its allocator. *)
Definition same_place (dev dev' : device) : Prop :=
  d_info dev' = d_info dev /\ d_garbage_pfn dev' = d_garbage_pfn dev /\ data_list dev' = data_list dev /\
  forall i, start_addr (d_info dev) (d_alloc dev') i = start_addr (d_info dev) (d_alloc dev) i.

(** Files keep what they own and may get an allocation; none is taken. *)
Lemma pmem_ok_transfer s s' live live' :
  pmem_ok s live ->
  files s' = files s -> vmas s' = vmas s -> ptes s' = ptes s -> fds s' = fds s -> drivers s' = drivers s ->
  (forall id dev, devices s' !! id = Some dev -> d_info dev = infos id /\ @serves _ (allocs id) (d_alloc dev) (live' id)) ->
  (forall id dev', devices s' !! id = Some dev' -> exists dev, devices s !! id = Some dev /\ same_place dev dev') ->
  (forall f id d x y dev, opened s f id d x y dev -> exists y' dev', opened s' f id d x y' dev' /\
    same_place dev dev' /\ (plain y -> plain y') /\ (index y' = index y \/ index y = -1) /\
    (index y' = index y \/ is_Some (live' id !! index y'))) ->
  (forall f f' id d d' x x' y y' dev, opened s' f id d x y dev -> opened s' f' id d' x' y' dev ->
    index y = index y' -> index y <> -1 -> f = f') ->
  (forall id r, is_Some (live' id !! r) -> exists f d x y dev, opened s' f id d x y dev /\ index y = r) ->
  (forall id, live' id !! (-1) = None) ->
  (forall id r n, live id !! r = Some n -> live' id !! r = Some n) ->
  pmem_ok s' live'.
Proof.
  intros Hok E1 E2 E3 E4 E5 Hdev Hback Hto Halone Howned Hneg Hmono.
  pose proof Hok as [K1 K2 K3 K4 K5 K6 K7 K8 K9 K10 K11 K12].
  split; rewrite ?E1, ?E2, ?E3, ?E4, ?E5; try done.
  - intros id dev' d Hid Hin. destruct (Hback id dev' Hid) as (dev & Hdev' & Hs). pose proof Hs as (_ & _ & El & _).
    rewrite El in Hin. destruct (K2 id dev d Hdev' Hin) as (f & x & y & Ho).
    destruct (Hto _ _ _ _ _ _ Ho) as (y' & dev2 & Ho' & _). exists f, x, y'.
    pose proof (op_device _ _ _ _ _ _ _ Ho') as E. assert (dev2 = dev') as -> by congruence. done.
  - intros f Hf. destruct (K3 f Hf) as (id & d & x & y & dev & Ho & Hpl & Hl).
    destruct (Hto _ _ _ _ _ _ Ho) as (y' & dev' & Ho' & _ & Hp' & _ & Hix). exists id, d, x, y', dev'.
    split; [done|]. split; [auto|]. destruct Hix as [->|?]; [|by right].
    destruct Hl as [?|[n Hl]]; [by left|right]. exists n. by apply Hmono.
  - intros v w Hv. destruct (K8 v w Hv) as (H1 & H2 & id & d & x & y & dev & n & Ho & Hl & Hn).
    destruct (Hto _ _ _ _ _ _ Ho) as (y' & dev' & Ho' & _ & _ & Hix & _). split; [done|]. split; [done|].
    exists id, d, x, y', dev', n. split; [done|]. split; [|done]. apply Hmono.
    destruct Hix as [->|E]; [done|]. rewrite E, K7 in Hl. done.
  - intros mm pg pfn Hpt. destruct (K10 mm pg pfn Hpt) as (v & w & id & d & x & y & dev & Hv & Hin & Ho & Hs).
    destruct (Hto _ _ _ _ _ _ Ho) as (y' & dev' & Ho' & (P1 & P2 & P3 & P4) & _ & Hix & _).
    exists v, w, id, d, x, y', dev'. split_and!; try done. unfold shows in *. rewrite P1, P2, P4.
    destruct Hix as [->|E]; [done|].
    destruct (K8 v w Hv) as (_ & _ & id2 & d2 & x2 & y2 & dev2 & n & Ho2 & Hl & _).
    destruct (opened_fun _ _ _ _ _ _ _ _ _ _ _ _ Ho Ho2) as (-> & _ & _ & -> & _).
    rewrite E, K7 in Hl. done.
Qed.

Lemma opened_set_device s id dev dev' f i d x y dv :
  devices s !! id = Some dev -> d_minor dev' = d_minor dev ->
  opened (set_devices <[id := dev']> s) f i d x y dv <->
  (if decide (i = id) then dv = dev' /\ opened s f i d x y dev else opened s f i d x y dv).
Proof.
  intros Hd Hm. split.
  - intros [H1 H2 H3 H4 H5 H6 H7]. cbn in H5. case_decide as E.
    + rewrite E, lookup_insert_eq in H5. injection H5 as <-. split; [done|]. split; try done; congruence.
    + rewrite lookup_insert_ne in H5 by done. done.
  - case_decide as E.
    + intros [-> []]. split; try done; [|congruence]. cbn. by rewrite E, lookup_insert_eq.
    + intros []. split; try done. cbn. by rewrite lookup_insert_ne.
Qed.

Lemma same_place_refl dev : same_place dev dev.
Proof. intros. by split_and!. Qed.

Lemma same_place_alloc dev a :
  (forall i, start_addr (d_info dev) a i = start_addr (d_info dev) (d_alloc dev) i) -> same_place dev (set_alloc a dev).
Proof. intros. by split_and!. Qed.

Lemma pmem_ok_set_alloc s live id dev a :
  pmem_ok s live -> devices s !! id = Some dev -> @serves _ (allocs id) a (live id) ->
  (forall i, start_addr (d_info dev) a i = start_addr (d_info dev) (d_alloc dev) i) ->
  pmem_ok (set_devices <[id := set_alloc a dev]> s) live.
Proof.
  intros Hok Hd Ha Hst. assert (d_minor (set_alloc a dev) = d_minor dev) as Hm by done.
  assert (forall i dv, devices (set_devices <[id := set_alloc a dev]> s) !! i = Some dv ->
    i = id /\ dv = set_alloc a dev \/ devices s !! i = Some dv) as Hcase.
  { intros i dv H. cbn in H. apply lookup_insert_Some in H as [[<- <-]|[_ H]]; auto. }
  apply (pmem_ok_transfer s _ live live Hok); try done.
  - intros i dv [[-> ->]|H]%Hcase; [|by apply (po_device _ _ Hok)]. by destruct (po_device _ _ Hok id dev Hd).
  - intros i dv [[-> ->]|H]%Hcase; eexists; (split; [done|]); [by apply same_place_alloc|apply same_place_refl].
  - intros f i d x y dv Ho. exists y, (if decide (i = id) then set_alloc a dev else dv).
    rewrite (opened_set_device _ _ _ _ _ _ _ _ _ _ Hd Hm).
    pose proof (op_device _ _ _ _ _ _ _ Ho) as Hd'. case_decide as E.
    + subst i. assert (dv = dev) as -> by congruence. split; [done|]. split; [by apply same_place_alloc|]. auto.
    + split; [done|]. split; [apply same_place_refl|]. auto.
  - intros f f' i d d' x x' y y' dv H1 H2. apply (opened_set_device _ _ _ _ _ _ _ _ _ _ Hd Hm) in H1, H2. case_decide.
    + destruct H1 as [_ H1], H2 as [_ H2]. by eapply (po_alone _ _ Hok).
    + by eapply (po_alone _ _ Hok).
  - intros i r Hr. destruct (po_owned _ _ Hok i r Hr) as (f & d & x & y & dv & Ho & E).
    exists f, d, x, y, (if decide (i = id) then set_alloc a dev else dv). split; [|done].
    rewrite (opened_set_device _ _ _ _ _ _ _ _ _ _ Hd Hm). pose proof (op_device _ _ _ _ _ _ _ Ho). case_decide; [|done].
    subst i. assert (dv = dev) as -> by congruence. done.
  - apply Hok.
Qed.

(** A file that owned nothing gets a new allocation. *)
Lemma pmem_ok_own s live f id d x y dev a r n :
  pmem_ok s live -> opened s f id d x y dev -> index y = -1 -> 0 <= r -> live id !! r = None ->
  @serves _ (allocs id) a (<[r := n]> (live id)) ->
  (forall i, start_addr (d_info dev) a i = start_addr (d_info dev) (d_alloc dev) i) ->
  pmem_ok (set_datas <[d := set_index r y]> (set_devices <[id := set_alloc a dev]> s))
          (<[id := <[r := n]> (live id)]> live).
Proof.
  intros Hok Ho Hi Hr Hl Ha Hst. pose proof (op_device _ _ _ _ _ _ _ Ho) as Hd.
  assert (d_minor (set_alloc a dev) = d_minor dev) as Hm by done.
  set (s1 := set_devices _ s). set (live' := <[id := _]> live).
  assert (live' id = <[r := n]> (live id)) as Elive by apply fn_lookup_insert.
  assert (forall i, i <> id -> live' i = live i) as Elive' by (intros; by apply fn_lookup_insert_ne).
  assert (datas s1 !! d = Some y) as Hdat by apply Ho.
  assert (forall g i d0 x0 y0 dv, opened s g i d0 x0 y0 dv -> d0 = d -> g = f /\ i = id /\ x0 = x /\ y0 = y /\ dv = dev) as Hsame.
  { intros g i d0 x0 y0 dv Hg ->. assert (g = f) as ->.
    { eapply (po_private _ _ Hok); [apply Hg|apply Ho|apply Hg|apply Ho]. }
    destruct (opened_fun _ _ _ _ _ _ _ _ _ _ _ _ Ho Hg) as (-> & _ & -> & -> & ->). done. }
  assert (forall g i d0 x0 y0 dv, opened (set_datas <[d := set_index r y]> s1) g i d0 x0 y0 dv ->
    exists y1 dv1, opened s g i d0 x0 y1 dv1 /\ (g = f /\ i = id /\ index y0 = r \/ g <> f /\ y0 = y1)) as Hfrom.
  { intros g i d0 x0 y0 dv H. rewrite (opened_set_data _ _ _ _ _ _ _ _ _ _ Hdat) in H.
    assert (exists dv1 yy, opened s g i d0 x0 yy dv1 /\ (d0 = d /\ yy = y /\ y0 = set_index r y \/ d0 <> d /\ yy = y0)) as (dv1 & yy & Hg & Hc).
    { case_decide; [destruct H as [-> H]|]; apply (opened_set_device _ _ _ _ _ _ _ _ _ _ Hd Hm) in H;
        (case_decide; [destruct H as [_ H]|]); eauto 10. }
    exists yy, dv1. split; [done|]. destruct Hc as [(-> & -> & ->)|(Hne & ->)].
    - left. destruct (Hsame _ _ _ _ _ _ Hg eq_refl) as (-> & -> & _). done.
    - right. split; [|done]. intros ->. destruct (opened_fun _ _ _ _ _ _ _ _ _ _ _ _ Ho Hg) as (_ & -> & _). done. }
  assert (forall g i d0 x0 y0 dv, opened s g i d0 x0 y0 dv ->
    opened (set_datas <[d := set_index r y]> s1) g i d0 x0 (if decide (d0 = d) then set_index r y else y0)
      (if decide (i = id) then set_alloc a dev else dv)) as Hto.
  { intros g i d0 x0 y0 dv Hg. rewrite (opened_set_data _ _ _ _ _ _ _ _ _ _ Hdat).
    pose proof (op_device _ _ _ _ _ _ _ Hg) as E1. pose proof (op_data _ _ _ _ _ _ _ Hg) as E2.
    destruct (decide (i = id)) as [->|Hne]; [assert (dv = dev) as -> by congruence|];
      (destruct (decide (d0 = d)) as [->|Hne2]; [assert (y0 = y) as -> by (cbn in Hdat; congruence); split; [done|]|]);
      apply (opened_set_device _ _ _ _ _ _ _ _ _ _ Hd Hm); case_decide; done. }
  apply (pmem_ok_transfer s _ live live' Hok); try done.
  - intros i dv H. cbn in H. apply lookup_insert_Some in H as [[<- <-]|[Hne H]].
    + rewrite Elive. by destruct (po_device _ _ Hok id dev Hd).
    + rewrite Elive' by done. by apply (po_device _ _ Hok).
  - intros i dv H. cbn in H. apply lookup_insert_Some in H as [[<- <-]|[Hne H]]; eexists; (split; [done|]);
      [by apply same_place_alloc|apply same_place_refl].
  - intros g i d0 x0 y0 dv Hg. eexists _, _. split; [by apply Hto|].
    pose proof (op_device _ _ _ _ _ _ _ Hg) as Hd'. pose proof (op_data _ _ _ _ _ _ _ Hg).
    pose proof (op_data _ _ _ _ _ _ _ Ho).
    assert (same_place dv (if decide (i = id) then set_alloc a dev else dv)).
    { case_decide; [|apply same_place_refl]. subst i. assert (dv = dev) as -> by congruence. by apply same_place_alloc. }
    split; [done|]. destruct (decide (d0 = d)) as [->|]; [|auto]. assert (y0 = y) as -> by congruence.
    destruct (Hsame _ _ _ _ _ _ Hg eq_refl) as (-> & -> & _).
    split; [by intros []|]. split; [by right|right]. cbn [index set_index]. rewrite Elive, lookup_insert_eq. by eexists.
  - intros g g' i d0 d1 x0 x1 y0 y1 dv H1 H2 E Hne.
    destruct (Hfrom _ _ _ _ _ _ H1) as (z1 & v1 & G1 & C1). destruct (Hfrom _ _ _ _ _ _ H2) as (z2 & v2 & G2 & C2).
    assert (v2 = v1) as -> by (pose proof (op_device _ _ _ _ _ _ _ G1); pose proof (op_device _ _ _ _ _ _ _ G2); congruence).
    destruct C1 as [(-> & Ei & E1)|(N1 & ->)], C2 as [(-> & Ej & E2)|(N2 & ->)]; [done|..].
    + exfalso. destruct (po_file _ _ Hok g') as (? & ? & ? & ? & ? & Hx & _ & Hlv); [eexists; apply G2|].
      destruct (opened_fun _ _ _ _ _ _ _ _ _ _ _ _ Hx G2) as (-> & -> & -> & -> & ->).
      destruct Hlv as [?|[? Hlv]]; [lia|]. congruence.
    + exfalso. destruct (po_file _ _ Hok g) as (? & ? & ? & ? & ? & Hx & _ & Hlv); [eexists; apply G1|].
      destruct (opened_fun _ _ _ _ _ _ _ _ _ _ _ _ Hx G1) as (-> & -> & -> & -> & ->).
      destruct Hlv as [?|[? Hlv]]; [lia|]. congruence.
    + by eapply (po_alone _ _ Hok).
  - intros i r' Hr'. destruct (decide (i = id)) as [->|Hne].
    + destruct (decide (r' = r)) as [->|Hr''].
      * eexists f, d, x, _, _. split; [by apply Hto|]. by rewrite decide_True.
      * rewrite Elive, lookup_insert_ne in Hr' by done. destruct (po_owned _ _ Hok id r' Hr') as (g & d0 & x0 & y0 & dv & Hg & E).
        eexists g, d0, x0, _, _. split; [by apply Hto|]. case_decide as E'; [|done]. exfalso.
        destruct (Hsame _ _ _ _ _ _ Hg E') as (-> & _ & _ & -> & _). rewrite Hi in E. subst r'.
        rewrite (po_index _ _ Hok) in Hr'. by destruct Hr'.
    + rewrite Elive' in Hr' by done. destruct (po_owned _ _ Hok i r' Hr') as (g & d0 & x0 & y0 & dv & Hg & E).
      eexists g, d0, x0, _, _. split; [by apply Hto|]. case_decide as E'; [|done]. exfalso.
      destruct (Hsame _ _ _ _ _ _ Hg E') as (_ & -> & _). done.
  - intros i. destruct (decide (i = id)) as [->|Hne]; [rewrite Elive, lookup_insert_ne by lia|rewrite Elive' by done]; apply Hok.
  - intros i r' n' Hr'. destruct (decide (i = id)) as [->|Hne]; [|by rewrite Elive'].
    rewrite Elive, lookup_insert_ne; [done|]. intros <-. congruence.
Qed.

(** ** Release *)

Lemma held_false s f :
  held s f = false -> (forall k g, fds s !! k = Some g -> g <> f) /\
  (forall v w, vmas s !! v = Some w -> vm_file w <> f) /\ f ∉ drivers s.
Proof.
  unfold held. rewrite !orb_false_iff, !bool_decide_eq_false. intros [[H1 H2] H3]. split_and!; [| |done].
  - intros k g Hk ->. apply H1. by exists k, f.
  - intros v w Hv Hf. apply H2. by exists v, w.
Qed.

(** A file that nobody holds is gone, with its data and its allocation. *)
Lemma pmem_ok_released s s' live f id d x y dev dev' :
  pmem_ok s live -> opened s f id d x y dev -> held s f = false ->
  devices s' = <[id := dev']> (devices s) -> files s' = delete f (files s) -> datas s' = delete d (datas s) ->
  vmas s' = vmas s -> ptes s' = ptes s -> fds s' = fds s -> drivers s' = drivers s ->
  d_info dev' = d_info dev -> d_garbage_pfn dev' = d_garbage_pfn dev -> d_minor dev' = d_minor dev ->
  data_list dev' = list_del d (data_list dev) ->
  (forall i, start_addr (d_info dev) (d_alloc dev') i = start_addr (d_info dev) (d_alloc dev) i) ->
  @serves _ (allocs id) (d_alloc dev') (delete (index y) (live id)) ->
  pmem_ok s' (<[id := delete (index y) (live id)]> live).
Proof.
  intros Hok Ho Hh E1 E2 E3 E4 E5 E6 E7 D1 D2 D3 D4 D5 D6.
  destruct (held_false _ _ Hh) as (Hfd & Hvm & Hdr). set (live' := <[id := _]> live).
  assert (live' id = delete (index y) (live id)) as Elive by apply fn_lookup_insert.
  assert (forall i, i <> id -> live' i = live i) as Elive' by (intros; by apply fn_lookup_insert_ne).
  assert (forall g i d0 x0 y0 dv, opened s g i d0 x0 y0 dv -> g <> f -> d0 <> d) as Hne.
  { intros g i d0 x0 y0 dv Hg Hgf ->. apply Hgf. eapply (po_private _ _ Hok); [apply Hg|apply Ho|apply Hg|apply Ho]. }
  assert (forall g i d0 x0 y0 dv, opened s g i d0 x0 y0 dv -> g <> f ->
    opened s' g i d0 x0 y0 (if decide (i = id) then dev' else dv)) as Hto.
  { intros g i d0 x0 y0 dv Hg Hgf. pose proof (Hne _ _ _ _ _ _ Hg Hgf). destruct Hg as [F1 F2 F3 F4 F5 F6 F7].
    assert (i = id -> dv = dev) as Hi by (intros ->; pose proof (op_device _ _ _ _ _ _ _ Ho); congruence).
    split; try done; rewrite ?E1, ?E2, ?E3, ?lookup_delete_ne by done; try done.
    - case_decide as E; [by rewrite E, lookup_insert_eq|by rewrite lookup_insert_ne].
    - case_decide as E; [|done]. rewrite D3, <- (Hi E). done. }
  assert (forall g i d0 x0 y0 dv, opened s' g i d0 x0 y0 dv -> g <> f /\
    exists dv0, opened s g i d0 x0 y0 dv0 /\ same_place dv0 (Device (d_info dv) (d_alloc dv) (d_vbase dv) (d_garbage_pfn dv)
      (d_memory_state dv) (d_minor dv) (data_list dv0))) as Hfrom.
  { intros g i d0 x0 y0 dv [F1 F2 F3 F4 F5 F6 F7]. rewrite E2 in F1. apply lookup_delete_Some in F1 as [Hg F1].
    split; [done|]. rewrite E3 in F4. apply lookup_delete_Some in F4 as [_ F4]. rewrite E1 in F5.
    apply lookup_insert_Some in F5 as [[<- <-]|[_ F5]].
    - exists dev. split; [split; try done; [apply Ho|congruence]|]. by split_and!.
    - exists dv. by split; [split|]. }
  pose proof Hok as [K1 K2 K3 K4 K5 K6 K7 K8 K9 K10 K11 K12].
  split; rewrite ?E4, ?E5, ?E6, ?E7; try done.
  - intros i dv H. rewrite E1 in H. apply lookup_insert_Some in H as [[<- <-]|[Hi H]].
    + rewrite Elive. split; [|done]. rewrite D1. by apply K1, Ho.
    + rewrite Elive' by done. by apply K1.
  - intros i dv d0 H Hin. rewrite E1 in H. apply lookup_insert_Some in H as [[<- <-]|[Hi H]].
    + rewrite D4 in Hin. apply elem_of_list_del in Hin as [Hd0 Hin].
      destruct (K2 id dev d0 (op_device _ _ _ _ _ _ _ Ho) Hin) as (g & x0 & y0 & Hg). exists g, x0, y0.
      pose proof (Hto _ _ _ _ _ _ Hg) as H. rewrite decide_True in H by done. apply H. intros ->.
      destruct (opened_fun _ _ _ _ _ _ _ _ _ _ _ _ Ho Hg) as (_ & -> & _). done.
    + destruct (K2 i dv d0 H Hin) as (g & x0 & y0 & Hg). exists g, x0, y0.
      pose proof (Hto _ _ _ _ _ _ Hg) as H'. rewrite decide_False in H' by done. apply H'. intros ->.
      destruct (opened_fun _ _ _ _ _ _ _ _ _ _ _ _ Ho Hg) as (-> & _). done.
  - intros g Hg. rewrite E2 in Hg. destruct Hg as [x0 Hg]. apply lookup_delete_Some in Hg as [Hgf Hg].
    destruct (K3 g (ex_intro _ x0 Hg)) as (i & d0 & x1 & y0 & dv & Hop & Hp & Hl).
    eexists i, d0, x1, y0, _. split; [by apply Hto|]. split; [done|]. destruct Hl as [?|Hl]; [by left|right].
    destruct (decide (i = id)) as [->|Hi]; [|by rewrite Elive'].
    rewrite Elive, lookup_delete_ne; [done|]. intros Ei. apply Hgf.
    assert (dv = dev) as -> by (pose proof (op_device _ _ _ _ _ _ _ Ho); pose proof (op_device _ _ _ _ _ _ _ Hop); congruence).
    symmetry. eapply (K5 g f); [done|done|done|]. intros E. rewrite E, K7 in Hl. by destruct Hl.
  - intros g g' x0 x1 d0 G1 G2. rewrite E2 in G1, G2. apply lookup_delete_Some in G1 as [_ G1].
    apply lookup_delete_Some in G2 as [_ G2]. by eapply K4.
  - intros g g' i d0 d1 x0 x1 y0 y1 dv G1 G2. destruct (Hfrom _ _ _ _ _ _ G1) as (_ & v1 & J1 & _).
    destruct (Hfrom _ _ _ _ _ _ G2) as (_ & v2 & J2 & _).
    assert (v2 = v1) as -> by (pose proof (op_device _ _ _ _ _ _ _ J1); pose proof (op_device _ _ _ _ _ _ _ J2); congruence).
    by eapply K5.
  - intros i r Hr. assert (is_Some (live i !! r) /\ (i = id -> r <> index y)) as [Hr' Hry].
    { destruct (decide (i = id)) as [->|Hi]; [|rewrite Elive' in Hr by done; by split].
      rewrite Elive in Hr. destruct Hr as [n Hr]. apply lookup_delete_Some in Hr as [? Hr]. split; [by eexists|congruence]. }
    destruct (K6 i r Hr') as (g & d0 & x0 & y0 & dv & Hg & <-). eexists g, d0, x0, y0, _. split; [|done]. apply Hto; [done|].
    intros ->. destruct (opened_fun _ _ _ _ _ _ _ _ _ _ _ _ Ho Hg) as (-> & _ & _ & -> & _). by destruct Hry.
  - intros i. destruct (decide (i = id)) as [->|Hi]; [|rewrite Elive' by done; apply K7].
    rewrite Elive, lookup_delete_None. right. apply K7.
  - intros v w Hv. destruct (K8 v w Hv) as (H1 & H2 & i & d0 & x0 & y0 & dv & n & Hg & Hl & Hn).
    split; [done|]. split; [done|]. eexists i, d0, x0, y0, _, n. split; [apply Hto; [done|by eapply Hvm]|].
    split; [|done]. destruct (decide (i = id)) as [->|Hi]; [|by rewrite Elive'].
    rewrite Elive, lookup_delete_ne; [done|]. intros Ei. apply (Hvm v w Hv).
    assert (dv = dev) as -> by (pose proof (op_device _ _ _ _ _ _ _ Ho); pose proof (op_device _ _ _ _ _ _ _ Hg); congruence).
    eapply K5; [done|done|done|]. intros E. rewrite E, K7 in Hl. done.
  - intros mm pg pfn Hpt. destruct (K10 mm pg pfn Hpt) as (v & w & i & d0 & x0 & y0 & dv & Hv & Hin & Hg & Hs).
    eexists v, w, i, d0, x0, y0, _. split; [done|]. split; [done|]. split; [apply Hto; [done|by eapply Hvm]|].
    unfold shows in *. case_decide as E; [|done]. subst i.
    assert (dv = dev) as -> by (pose proof (op_device _ _ _ _ _ _ _ Ho); pose proof (op_device _ _ _ _ _ _ _ Hg); congruence).
    by rewrite D1, D2, D5.
  - intros k g Hk. rewrite E2, lookup_delete_ne; [by eapply K11|]. intros <-. by destruct (Hfd k f Hk).
  - intros g Hg. rewrite E2, lookup_delete_ne; [by eapply K12|]. by intros <-.
Qed.

(** ** Operations on files *)

Lemma has_plain y m : plain y -> m = PMEM_FLAGS_CONNECTED \/ m = PMEM_FLAGS_SUBMAP \/ m = PMEM_FLAGS_UNSUBMAP ->
  has (flags y) m = false.
Proof. intros [[-> | ->] _ _] [-> | [-> | ->]]; done. Qed.

Lemma plain_submap y : plain y -> PMEM_IS_SUBMAP y = false.
Proof. intros H. unfold PMEM_IS_SUBMAP. rewrite (has_plain y PMEM_FLAGS_SUBMAP H) by auto. done. Qed.

Lemma wp_dev_len D s t live f id d x y dev n Q :
  pmem_ok s live -> devices t = devices s -> opened s f id d x y dev -> live id !! index y = Some n -> Q t n ->
  wp D (dev_len id (index y)) t Q.
Proof.
  intros Hok Et Ho Hl HQ. unfold dev_len, the_device. apply wp_bind. eapply wp_the; [rewrite Et; apply Ho|].
  destruct (po_device _ _ Hok id dev (op_device _ _ _ _ _ _ _ Ho)) as [Ei Hs].
  destruct (@serves_place _ (allocs id) _ _ _ _ Hs Hl) as (start & _ & E & _). rewrite Ei. by eapply wp_lift.
Qed.

Lemma wp_dev_start D s t live f id d x y dev n Q :
  pmem_ok s live -> devices t = devices s -> opened s f id d x y dev -> live id !! index y = Some n ->
  (forall start, start_addr (infos id) (d_alloc dev) (index y) = Some start -> (PAGE_SIZE | start) ->
    0 <= n -> 0 <= start -> start + n < 2 ^ 32 -> Q t start) ->
  wp D (dev_start id (index y)) t Q.
Proof.
  intros Hok Et Ho Hl HQ. unfold dev_start, the_device. apply wp_bind. eapply wp_the; [rewrite Et; apply Ho|].
  destruct (po_device _ _ Hok id dev (op_device _ _ _ _ _ _ _ Ho)) as [Ei Hs].
  destruct (@serves_place _ (allocs id) _ _ _ _ Hs Hl) as (start & E & _ & ? & ? & _ & _ & ? & ?). rewrite Ei.
  eapply wp_lift; [done|]. by apply HQ.
Qed.

(** An allocation for a file that has none. *)
Lemma wp_dev_allocate D e s t live f id d x y dev len align k Q :
  pmem_ok s live -> devices t = devices s -> opened s f id d x y dev -> index y = -1 ->
  0 <= len < 2 ^ 32 -> align = 2 ^ k -> 0 <= k < 31 ->
  (forall a r, let s' := set_devices <[id := set_alloc a dev]> s in
    (r = -1 /\ pmem_ok s' live \/
     exists n, 0 <= r /\ len <= n /\
       pmem_ok (set_datas <[d := set_index r y]> s') (<[id := <[r := n]> (live id)]> live)) ->
    Q (set_devices <[id := set_alloc a dev]> t) r) ->
  wp D (dev_allocate e id len align) t Q.
Proof.
  intros Hok Et Ho Hi Hlen Ha Hk HQ. pose proof (op_device _ _ _ _ _ _ _ Ho) as Hd. rewrite <- Et in Hd.
  unfold dev_allocate, the_device. apply wp_bind. eapply wp_the; [done|]. apply wp_bind. rewrite Et in Hd.
  destruct (po_device _ _ Hok id dev Hd) as [Ei Hs]. rewrite Ei.
  destruct (@serves_allocate _ (allocs id) (alloc_memory e) _ _ len align k Hs Hlen Ha Hk) as (a & r & E & Hst & H).
  eapply wp_lift; [done|]. apply wp_bind. eapply wp_mod_device; [by rewrite Et|]. apply wp_ret. apply HQ.
  rewrite <- Ei in Hst. destruct H as [[-> H]|(n & H0 & Hl & Hs' & Hn)]; [left|right].
  - split; [done|]. by apply pmem_ok_set_alloc.
  - exists n. split; [done|]. split; [done|]. by eapply pmem_ok_own.
Qed.

Lemma revoke_connected_plain s live e f l D :
  pmem_ok s live -> (leaked s -> D) -> (forall d, d ∈ l -> exists g id x y dev, opened s g id d x y dev) ->
  wp D (revoke_connected e f l) s (fun s' _ => s' = s).
Proof.
  intros Hok HD. induction l as [|d l IH]; intros Hl; cbn [revoke_connected]; [done|].
  destruct (Hl d ltac:(left)) as (g & id & x & y & dev & Ho). apply wp_bind.
  eapply wp_down; [apply Ho|intros ?; apply HD; exists d, y; split; [apply Ho|done]|].
  destruct (po_file _ _ Hok g (ex_intro _ x (op_file _ _ _ _ _ _ _ Ho))) as (? & ? & ? & ? & ? & Ho' & Hp & _).
  destruct (opened_fun _ _ _ _ _ _ _ _ _ _ _ _ Ho Ho') as (-> & -> & -> & -> & ->).
  rewrite (plain_submap y Hp). cbn [andb]. apply wp_bind, wp_ret. apply IH. intros. apply Hl. by right.
Qed.

(** The last reference to a file is gone. *)
Lemma wp_fput D e s live f Q :
  pmem_ok s live -> is_Some (files s !! f) -> (leaked s -> D) ->
  (forall s' live', pmem_ok s' live' -> Q s' tt) -> wp D (fput e f) s Q.
Proof.
  intros Hok Hf HD HQ. unfold fput. apply wp_bind, wp_get. destruct (held s f) eqn:Hh; [by eapply HQ|].
  destruct (po_file _ _ Hok f Hf) as (id & d & x & y & dev & Ho & Hp & Hl).
  apply wp_bind. unfold pmem_release. apply wp_bind, (wp_data_of Ho). apply wp_bind, (wp_get_id Ho). apply wp_bind.
  eapply wp_the; [apply Ho|]. apply wp_bind. eapply wp_the; [apply Ho|]. apply wp_bind.
  apply (wp_mono _ _ _ (fun s' _ => s' = s)).
  { destruct (has PMEM_FLAGS_MASTERMAP (flags y)); [|done]. apply (revoke_connected_plain s live); [done|done|].
    intros d0 Hin. destruct (po_list _ _ Hok id dev d0 (op_device _ _ _ _ _ _ _ Ho) Hin) as (g & x0 & y0 & Hg). eauto 10. }
  intros ? _ ->. apply wp_bind. eapply wp_mod_device; [apply Ho|]. set (s1 := set_devices _ s).
  set (dev1 := set_data_list (list_del d) dev).
  assert (opened s1 f id d x y dev1) as Ho1.
  { apply (opened_set_device s id dev dev1); [apply Ho|done|]. by rewrite decide_True. }
  apply wp_bind. eapply wp_down; [apply Ho1|intros ?; apply HD; exists d, y; split; [apply Ho|done]|].
  apply wp_bind, (wp_has_allocation Ho1). apply wp_bind.
  assert (has PMEM_FLAGS_CONNECTED (flags y) = false) as -> by (destruct Hp as [[-> | ->] _ _]; done). cbn [negb andb].
  destruct (po_device _ _ Hok id dev (op_device _ _ _ _ _ _ _ Ho)) as [Ei Hs].
  assert (exists dev2, d_info dev2 = d_info dev /\ d_garbage_pfn dev2 = d_garbage_pfn dev /\ d_minor dev2 = d_minor dev /\
    data_list dev2 = list_del d (data_list dev) /\
    (forall i, start_addr (d_info dev) (d_alloc dev2) i = start_addr (d_info dev) (d_alloc dev) i) /\
    @serves _ (allocs id) (d_alloc dev2) (delete (index y) (live id)) /\
    wp D (if negb (index y =? -1) then dev_free id (index y) else ret 0) s1
      (fun s' _ => s' = set_devices <[id := dev2]> s)) as (dev2 & D1 & D2 & D3 & D4 & D5 & D6 & Hw).
  { destruct (Z.eqb_spec (index y) (-1)) as [E|E]; cbn [negb].
    - exists dev1. split_and!; try done. rewrite E, delete_id by apply Hok. done.
    - destruct Hl as [?|[n Hl]]; [done|].
      destruct (@serves_free _ (allocs id) _ _ _ _ Hs Hl) as (a & E1 & Hs' & Hst).
      exists (set_alloc a dev1). rewrite Ei. split_and!; try done. unfold dev_free, the_device. apply wp_bind.
      eapply wp_the; [apply Ho1|]. apply wp_bind. cbn [d_info dev1 set_data_list d_alloc]. rewrite Ei. eapply wp_lift; [done|].
      apply wp_bind. eapply wp_mod_device; [apply Ho1|]. apply wp_ret. unfold s1, set_devices. cbn. by rewrite insert_insert_eq. }
  eapply wp_mono; [exact Hw|]. intros ? r ->. set (s2 := set_devices _ s). apply wp_bind. eapply wp_the; [apply Ho|].
  apply wp_bind, wp_modify. apply wp_bind, wp_modify, wp_ret, wp_modify.
  eapply HQ. apply (pmem_ok_released s _ live f id d x y dev dev2 Hok Ho Hh); try done.
  cbn. by rewrite delete_insert_eq.
Qed.

End isolation.

Arguments pmem_ok infos {allocs} s live.
