(* ===== verification/PmemMapping.v ===== *)
(** * Pmem: mapping files that are not connected

    Every system call keeps [pmem_ok]: what [mmap] enters into the page tables,
    what it leaves when it fails, and what a fork copies. *)

From stdpp Require Import base numbers list gmap countable functions.
From S2P Require Import Prelude Pmem PmemApi PmemVm PmemFile PmemSystem PmemIsolation.

Open Scope Z_scope.
Open Scope pmem_scope.

(** ** Pages *)

Lemma page_aligned x : PMEM_IS_PAGE_ALIGNED x = true <-> (PAGE_SIZE | x).
Proof.
  unfold PMEM_IS_PAGE_ALIGNED, PAGE_SIZE. change (4096 - 1) with (2 ^ 12 - 1). rewrite land_pow2_mod by lia.
  rewrite Z.eqb_eq. change (2 ^ 12) with 4096. by apply Z.mod_divide.
Qed.

Lemma page_mul k : page (k * PAGE_SIZE) = k.
Proof. unfold page, PAGE_SHIFT, PAGE_SIZE. rewrite Z.shiftr_div_pow2 by lia. change (2 ^ 12) with 4096. by rewrite Z.div_mul. Qed.

Lemma aligned_page x : (PAGE_SIZE | x) -> exists k, x = k * PAGE_SIZE /\ page x = k.
Proof. intros [k ->]. exists k. by rewrite page_mul. Qed.

Lemma page_align_aligned x : (PAGE_SIZE | x) -> 0 <= x -> x + 4095 < 2 ^ 32 -> PAGE_ALIGN x = x.
Proof.
  intros [k ->] H0 H1. unfold PAGE_ALIGN. rewrite u32_small, land_page_mask by lia. unfold PAGE_SIZE in *.
  rewrite Z.div_add_l by lia. change (4095 / 4096) with 0. lia.
Qed.

(** ** Entering pages *)

(** The entries of [k] pages from [pg] on, over those of [m]. *)
Definition pages_entered (m m' : gmap (Z * Z) Z) (mm pg pfn k : Z) : Prop :=
  forall a i, m' !! (a, i) = if (a =? mm) && (pg <=? i) && (i <? pg + k) then Some (pfn + (i - pg)) else m !! (a, i).

Lemma pages_entered_none m mm pg pfn : pages_entered m m mm pg pfn 0.
Proof. intros a i. case_if; [lia|done]. Qed.

Lemma remap_pte_range_spec D pt n : forall t mm pg pfn,
  (forall i, pg <= i < pg + Z.of_nat n -> ptes t !! (mm, i) = None) ->
  wp D (remap_pte_range pt n mm pg pfn) t (fun t' r => exists m k,
    t' = set_ptes (fun _ => m) t /\ 0 <= k <= Z.of_nat n /\ (r = 0 -> k = Z.of_nat n) /\
    pages_entered (ptes t) m mm pg pfn k).
Proof.
  induction n as [|n IH]; intros t mm pg pfn Hnone; cbn [remap_pte_range].
  { apply wp_ret. exists (ptes t), 0. split; [by destruct t|]. split; [lia|]. split; [done|apply pages_entered_none]. }
  destruct (pt pg); cbn [negb].
  2: { apply wp_ret. exists (ptes t), 0. split; [by destruct t|]. split; [lia|]. split; [done|apply pages_entered_none]. }
  apply wp_bind, wp_get, wp_bind, wp_BUG_ON.
  { apply bool_decide_eq_false. rewrite (Hnone pg) by lia. by intros [? [=]]. }
  apply wp_bind, wp_modify. eapply wp_mono; [apply IH|].
  - intros i Hi. cbn. rewrite lookup_insert_ne by naive_solver lia. apply Hnone. lia.
  - intros t' r (m & k & -> & Hk & Hr & Hm). exists m, (k + 1). split; [done|]. split; [lia|]. split; [lia|].
    intros a i. rewrite Hm. cbn. destruct (Z.eqb_spec a mm) as [->|]; cbn [andb].
    + destruct (Z.eqb_spec i pg) as [->|Hne].
      * repeat case_if; unbool; try lia; rewrite lookup_insert_eq. f_equal. lia.
      * rewrite lookup_insert_ne by naive_solver.
        destruct (Z.leb_spec (pg + 1) i), (Z.leb_spec pg i), (Z.ltb_spec i (pg + 1 + k)), (Z.ltb_spec i (pg + (k + 1)));
          cbn [andb]; try lia; try done; f_equal; lia.
    + by rewrite lookup_insert_ne by naive_solver.
Qed.

Section mapping.
Context (infos : Z -> pmem_info) {allocs : forall id, PmemAllocator (infos id)}.

Local Abbreviation ok := (pmem_ok infos).

(** What the driver does not change of a mapping. *)
Definition same_range (w w' : vm_area) : Prop :=
  vm_mm w' = vm_mm w /\ vm_start w' = vm_start w /\ vm_end w' = vm_end w /\ vm_file w' = vm_file w /\
  Z.testbit (vm_flags w') 28 = Z.testbit (vm_flags w) 28.

Lemma same_range_refl w : same_range w w.
Proof. done. Qed.

Lemma in_vma_pages w a i :
  mapping_ok w -> in_vma w a i = (a =? vm_mm w) && (page (vm_start w) <=? i) && (i <? page (vm_end w)).
Proof.
  intros (_ & _ & Hs & He & _). destruct (aligned_page _ Hs) as (ks & E1 & E2). destruct (aligned_page _ He) as (ke & E3 & E4).
  unfold in_vma. rewrite E2, E4, E1, E3. unfold PAGE_SIZE. f_equal; [f_equal|].
  - destruct (Z.leb_spec (ks * 4096) (i * 4096)), (Z.leb_spec ks i); lia.
  - destruct (Z.ltb_spec (i * 4096) (ke * 4096)), (Z.ltb_spec i ke); lia.
Qed.

Lemma lor_keeps_bit a m : Z.testbit m 28 = false -> Z.testbit (Z.lor a m) 28 = Z.testbit a 28.
Proof. intros H. by rewrite Z.lor_spec, H, orb_false_r. Qed.

Lemma remap_whole_spec D pt t v w pfn :
  vmas t !! v = Some w -> mapping_ok w -> (forall a i, in_vma w a i = true -> ptes t !! (a, i) = None) ->
  wp D (remap_pfn_range pt v (vm_start w) pfn (vm_end w - vm_start w)) t (fun t' r => exists w' m,
    t' = set_vmas <[v := w']> (set_ptes (fun _ => m) t) /\ same_range w w' /\
    (forall a i, in_vma w a i = false -> m !! (a, i) = ptes t !! (a, i)) /\
    (r = 0 -> forall a i, in_vma w a i = true -> m !! (a, i) = Some (pfn + (i - page (vm_start w))))).
Proof.
  intros Hv Hw Hnone. pose proof Hw as (H1 & H2 & Hs & He & Hb).
  assert (PAGE_ALIGN (vm_end w - vm_start w) = vm_end w - vm_start w) as Ea.
  { apply page_align_aligned; [by apply Z.divide_sub_r|lia|].
    destruct Hs as [ks Es], He as [ke Ee]. unfold PAGE_SIZE in *. lia. }
  unfold remap_pfn_range, the_vma. apply wp_bind. eapply wp_the; [done|]. rewrite Ea.
  replace (u32 (vm_start w + (vm_end w - vm_start w))) with (vm_end w) by (rewrite u32_small; lia).
  rewrite !Z.eqb_refl. cbn [andb negb]. apply wp_bind. eapply wp_mod_vma; [done|]. apply wp_bind.
  eapply wp_mod_vma; [cbn; apply lookup_insert_eq|]. apply wp_bind, wp_BUG_ON; [apply Z.leb_gt; lia|].
  destruct (aligned_page _ Hs) as (ks & E1 & E2). destruct (aligned_page _ He) as (ke & E3 & E4).
  assert (Z.of_nat (Z.to_nat (page (vm_end w - vm_start w))) = ke - ks) as En.
  { rewrite E1, E3, <- Z.mul_sub_distr_r, page_mul. unfold PAGE_SIZE in *. lia. }
  eapply wp_mono; [apply remap_pte_range_spec|].
  - intros i Hi. apply Hnone. rewrite in_vma_pages by done. rewrite Z.eqb_refl. cbn [andb].
    apply andb_true_iff. split; [apply Z.leb_le|apply Z.ltb_lt]; lia.
  - intros t' r (m & k & -> & Hk & Hr & Hm). eexists _, m. split; [unfold set_vmas, set_ptes; cbn; by rewrite insert_insert_eq|].
    split; [unfold same_range, set_vm_flags, set_pgoff; do 4 (split; [done|]); cbn [vm_flags]; by rewrite !lor_keeps_bit|].
    split.
    + intros a i. rewrite in_vma_pages, Hm by done. cbn [ptes set_vmas].
      destruct (a =? vm_mm w); cbn [andb]; [|done]. case_if; [|done]. intros. unbool. lia.
    + intros Hr0 a i. rewrite in_vma_pages, Hm by done. rewrite (Hr Hr0), En.
      destruct (a =? vm_mm w); cbn [andb]; [|done]. intros. unbool. case_if; [done|]. unbool. lia.
Qed.

Lemma map_pfn_range_spec D pt s t live f id d x y dev n v w :
  ok s live -> devices t = devices s -> opened s f id d x y dev -> live id !! index y = Some n ->
  vmas t !! v = Some w -> mapping_ok w -> (forall a i, in_vma w a i = true -> ptes t !! (a, i) = None) ->
  wp D (pmem_map_pfn_range pt id v (index y) 0 (vm_end w - vm_start w)) t (fun t' r => exists w' m,
    t' = set_vmas <[v := w']> (set_ptes (fun _ => m) t) /\ same_range w w' /\
    (forall a i, in_vma w a i = false -> m !! (a, i) = ptes t !! (a, i)) /\
    (r = 0 -> forall a i pfn, in_vma w a i = true -> m !! (a, i) = Some pfn -> shows w dev y i pfn)).
Proof.
  intros Hok Et Ho Hl Hv Hw Hnone. pose proof Hw as (H1 & H2 & Hs & He & Hb).
  unfold pmem_map_pfn_range, the_vma. apply wp_bind. eapply wp_the; [done|].
  assert (forall z, (PAGE_SIZE | z) -> negb (PMEM_IS_PAGE_ALIGNED z) = false) as Hal by (intros z Hz; by rewrite (proj2 (page_aligned z) Hz)).
  apply wp_bind, wp_BUG_ON; [by apply Hal|]. apply wp_bind, wp_BUG_ON; [by apply Hal|].
  apply wp_bind, wp_BUG_ON; [by apply Hal, Z.divide_sub_r|]. apply wp_bind, wp_BUG_ON; [apply Hal, Z.divide_0_r|].
  apply wp_bind. eapply wp_dev_start; [done|done|done|done|]. intros start Est _ Hn0 Hs0 Hsn. apply wp_bind.
  rewrite !Z.add_0_r, !u32_small by lia. eapply wp_mono; [by apply remap_whole_spec|].
  intros t' r (w' & m & -> & Hr & Hout & Hin). apply wp_ret. exists w', m. split; [done|]. split; [done|]. split; [done|].
  intros Hr0 a i pfn Hi Hm. right. exists start. destruct (po_device _ _ _ Hok id dev (op_device _ _ _ _ _ _ _ Ho)) as [-> _].
  split; [done|]. destruct (Z.eqb_spec r 0) as [->|]; cbn [negb] in Hr0; [|done]. rewrite (Hin eq_refl a i Hi) in Hm. by injection Hm.
Qed.

(** ** Mapping a file *)

(** The state [b] with the mapping [v], whose pages have the entries [m]. *)
Definition with_vma (b : pmem) (v : Z) (w : vm_area) (m : gmap (Z * Z) Z) : pmem :=
  set_vmas <[v := w]> (set_ptes (fun _ => m) b).

Definition outside (b : pmem) (w : vm_area) (m : gmap (Z * Z) Z) : Prop :=
  forall a i, in_vma w a i = false -> m !! (a, i) = ptes b !! (a, i).

(** The file is mapped: all entries are of its allocation. *)
Definition shown (b : pmem) (live : Z -> gmap Z Z) (f : Z) (w : vm_area) (m : gmap (Z * Z) Z) : Prop :=
  exists id d x y dev n, opened b f id d x y dev /\ live id !! index y = Some n /\ vm_end w - vm_start w <= n /\
    forall a i pfn, in_vma w a i = true -> m !! (a, i) = Some pfn -> shows w dev y i pfn.

(** Files, mappings and references are as they were. *)
Definition same_outside (s b : pmem) : Prop :=
  files b = files s /\ vmas b = vmas s /\ ptes b = ptes s /\ fds b = fds s /\ drivers b = drivers s /\
  (leaked b -> leaked s).

Lemma leaked_mod_data s d y y' :
  datas s !! d = Some y -> sem y' = sem y -> leaked (set_datas <[d := y']> s) -> leaked s.
Proof.
  intros Hd E (d0 & z & Hz & Hs). cbn in Hz. apply lookup_insert_Some in Hz as [[<- <-]|[_ Hz]]; [|by exists d0, z].
  exists d, y. split; [done|congruence].
Qed.

Lemma with_vma_ok b live v w w' m :
  ok b live -> vmas b !! v = None -> mapping_ok w -> vma_free b (vm_mm w) (vm_start w) (vm_end w) ->
  same_range w w' -> vm_ops w' = true -> outside b w m -> shown b live (vm_file w) w m ->
  ok (with_vma b v w' m) live.
Proof.
  intros Hok Hv Hw Hfree Hr Hops Hout (id & d & x & y & dev & n & Ho & Hl & Hn & Hm).
  pose proof Hr as (R1 & R2 & R3 & R4 & R5). pose proof Hw as (W1 & W2 & W3 & W4 & W5).
  assert (forall a i, in_vma w' a i = in_vma w a i) as Ein by (intros; unfold in_vma; by rewrite R1, R2, R3).
  assert (forall g i d x y dv, opened (with_vma b v w' m) g i d x y dv <-> opened b g i d x y dv) as Eo
    by (intros; split; intros []; by split).
  pose proof Hok as [K1 K2 K3 K4 K5 K6 K7 K8 K9 K10 K11 K12]. split; try setoid_rewrite Eo; try done.
  - intros u wu Hu. cbn in Hu. apply lookup_insert_Some in Hu as [[<- <-]|[_ Hu]]; [|by apply (K8 u)].
    split; [unfold mapping_ok; by rewrite R2, R3, R5|]. split; [done|]. exists id, d, x, y, dev, n.
    rewrite R2, R3, R4. done.
  - intros u u' wu wu' Hu Hu' Hne Hmm. cbn in Hu, Hu'.
    apply lookup_insert_Some in Hu as [[<- <-]|[Nu Hu]]; apply lookup_insert_Some in Hu' as [[<- <-]|[Nu' Hu']]; [done|..].
    + rewrite R2, R3. destruct (Hfree u' wu' Hu'); [congruence|by left|by right].
    + rewrite R2, R3. destruct (Hfree u wu Hu); [congruence|by right|by left].
    + by eapply K9.
  - intros a i pfn Hp. cbn in Hp. destruct (in_vma w a i) eqn:Hi.
    + exists v, w', id, d, x, y, dev. split; [apply lookup_insert_eq|]. split; [by rewrite Ein|].
      rewrite R4. split; [done|]. unfold shows. rewrite R2. by eapply Hm.
    + rewrite (Hout a i Hi) in Hp. destruct (K10 a i pfn Hp) as (u & wu & i' & d' & x' & y' & dv & Hu & ?).
      exists u, wu, i', d', x', y', dv. split; [|done]. cbn. by rewrite lookup_insert_ne by congruence.
Qed.

Lemma free_pages b live v w :
  ok b live -> vma_free b (vm_mm w) (vm_start w) (vm_end w) -> vmas b !! v = None ->
  forall a i, in_vma w a i = true -> ptes b !! (a, i) = None.
Proof.
  intros Hok Hfree Hv a i Hi. destruct (ptes b !! (a, i)) as [pfn|] eqn:E; [|done]. exfalso.
  destruct (po_pte _ _ _ Hok a i pfn E) as (u & wu & _ & _ & _ & _ & _ & Hu & Hiu & _).
  unfold in_vma in Hi, Hiu. unbool. destruct (Hfree u wu Hu); [congruence|lia|lia].
Qed.

(** [mmap_map] for a file that is not connected. *)
Lemma mmap_map_spec D e b live v w f id d x y dev n :
  ok b live -> vmas b !! v = None -> mapping_ok w -> vma_free b (vm_mm w) (vm_start w) (vm_end w) ->
  opened b f id d x y dev -> plain y -> live id !! index y = Some n -> vm_end w - vm_start w <= n -> vm_file w = f ->
  wp D (mmap_map e f d id v (vm_end w - vm_start w)) (with_vma b v w (ptes b)) (fun t' r => exists b' w' m,
    t' = with_vma b' v w' m /\ ok b' live /\ same_outside b b' /\ same_range w w' /\ outside b' w m /\
    (r = 0 -> vm_ops w' = true /\ shown b' live f w m)).
Proof.
  intros Hok Hv Hw Hfree Ho Hp Hl Hn Hf. set (t := with_vma b v w (ptes b)).
  assert (opened t f id d x y dev) as Hot by (destruct Ho; by split).
  assert (devices t = devices b) as Et by done. assert (vmas t !! v = Some w) as Hvt by apply lookup_insert_eq.
  assert (wp_start : forall Q, (forall start, start_addr (infos id) (d_alloc dev) (index y) = Some start -> Q t start) ->
    wp D (dev_start id (index y)) t Q).
  { intros Q HQ. eapply wp_dev_start; [exact Hok|done|exact Ho|exact Hl|]. intros start E _ _ _ _. by apply HQ. }
  unfold mmap_map. apply wp_bind. eapply wp_the; [apply Hot|]. apply wp_bind, wp_start. intros start Est.
  apply wp_bind. eapply wp_the; [done|]. apply wp_bind. unfold pmem_phys_mem_access_prot.
  apply wp_bind, (wp_get_id Hot). apply wp_bind. eapply wp_the; [apply Hot|]. apply wp_bind. eapply wp_the; [apply Hot|].
  apply wp_ret. apply wp_bind. eapply wp_mod_vma; [done|]. rewrite (has_plain y PMEM_FLAGS_CONNECTED Hp) by auto.
  match goal with |- context [set_wc ?c ?z] => set (w1 := set_wc c z) end.
  assert (same_range w w1) as Hr1 by done.
  apply wp_bind. eapply wp_mono.
  { eapply (map_pfn_range_spec D _ b _ live f id d x y dev n v w1); [done|done|done|done|cbn; apply lookup_insert_eq|done|].
    intros a i Hi. cbn. by eapply (free_pages b live v w). }
  intros t' r (w2 & m & -> & Hr2 & Hout & Hin). cbn [ptes set_vmas set_ptes t with_vma] in Hout.
  assert (same_range w w2) as Hr by (destruct Hr2 as (? & ? & ? & ? & ?); split_and!; done).
  destruct (Z.eqb_spec r 0) as [->|Hr0]; cbn [negb].
  2: { apply wp_ret. exists b, w2, m. split; [unfold t, with_vma, set_vmas, set_ptes; cbn; by rewrite !insert_insert_eq|].
       split; [done|]. split; [done|]. split; [done|]. split; [exact Hout|]. done. }
  apply wp_bind. eapply wp_mod_data; [apply Ho|]. apply wp_bind. eapply wp_mod_vma; [cbn; apply lookup_insert_eq|]. apply wp_ret.
  set (y' := set_pid _ _). assert (same_owner y y') as Hy'.
  { split; [done|]. destruct Hp as [Hfl H1 H2]. split; [|done|done]. right. by destruct Hfl as [E|E]; cbn; rewrite E. }
  exists (set_datas <[d := y']> b), (set_ops true w2), m.
  split; [unfold t, with_vma, set_vmas, set_ptes, set_datas; cbn; by rewrite !insert_insert_eq|].
  split; [by eapply pmem_ok_mod_data; [|apply Ho|]|].
  split; [split_and!; try done; by apply (leaked_mod_data b d y); [apply Ho|]|]. split; [done|]. split; [exact Hout|]. intros _. split; [done|].
  exists id, d, x, y', dev, n. split; [apply (opened_set_data b d y); [apply Ho|]; by rewrite decide_True|].
  split; [done|]. split; [done|]. exact (Hin eq_refl).
Qed.

(** What [pmem_mmap] leaves: the file mapped, or entries that are cleared. *)
Definition mmap_post (s : pmem) (v : Z) (w : vm_area) (t : pmem) (r : Z) : Prop :=
  exists b live w' m, t = with_vma b v w' m /\ ok b live /\ same_outside s b /\ same_range w w' /\ outside b w m /\
    (r = 0 -> vm_ops w' = true /\ shown b live (vm_file w) w m).

Lemma mmap_post_error s live v w r : ok s live -> r <> 0 -> mmap_post s v w (with_vma s v w (ptes s)) r.
Proof. intros Hok Hr. exists s, live, w, (ptes s). by split_and!. Qed.

Lemma mmap_known e s live v w f id d x y dev n :
  ok s live -> vmas s !! v = None -> mapping_ok w -> vma_free s (vm_mm w) (vm_start w) (vm_end w) ->
  opened s f id d x y dev -> plain y -> live id !! index y = Some n -> vm_file w = f ->
  wp (leaked s) (n <- dev_len id (index y);;
    if n <? vm_end w - vm_start w then ret (- EINVAL) else mmap_map e f d id v (vm_end w - vm_start w))
    (with_vma s v w (ptes s)) (mmap_post s v w).
Proof.
  intros Hok Hv Hw Hfree Ho Hp Hl Hf. apply wp_bind. eapply (wp_dev_len _ _ s); [done|done|done|done|]. case_if.
  - apply wp_ret. by eapply mmap_post_error.
  - eapply wp_mono; [by eapply mmap_map_spec|]. intros t' r (b & w' & m & H1 & H2 & H3 & H4 & H5 & H6).
    exists b, live, w', m. rewrite Hf. by split_and!.
Qed.

Lemma wp_pmem_mmap e s live v w f :
  ok s live -> vmas s !! v = None -> mapping_ok w -> vma_free s (vm_mm w) (vm_start w) (vm_end w) ->
  is_Some (files s !! f) -> vm_file w = f ->
  wp (leaked s) (pmem_mmap e f v) (with_vma s v w (ptes s)) (mmap_post s v w).
Proof.
  intros Hok Hv Hw Hfree Hf Ef. destruct (po_file _ _ _ Hok f Hf) as (id & d & x & y & dev & Ho & Hp & Hl).
  set (t := with_vma s v w (ptes s)). assert (opened t f id d x y dev) as Hot by (destruct Ho; by split).
  pose proof Hw as (W1 & W2 & W3 & W4 & _).
  unfold pmem_mmap. apply wp_bind. eapply wp_the; [apply Ho|]. apply wp_bind. eapply wp_the; [apply lookup_insert_eq|].
  apply wp_bind, (wp_get_id Hot). rewrite (op_private _ _ _ _ _ _ _ Ho).
  replace (u32 (vm_end w - vm_start w)) with (vm_end w - vm_start w) by (rewrite u32_small; lia).
  case_if; [apply wp_ret; by eapply mmap_post_error|]. apply wp_bind. eapply wp_down; [apply Ho|intros ?; exists d, y; split; [apply Ho|done]|].
  rewrite (has_plain y PMEM_FLAGS_SUBMAP Hp), (has_plain y PMEM_FLAGS_UNSUBMAP Hp) by auto. cbn [orb]. apply wp_bind.
  destruct (Z.eqb_spec (index y) (-1)) as [Hi|Hi].
  - eapply (wp_dev_allocate _ _ _ s t live f id d x y dev _ SZ_4K 12); [done|done|done|done|lia|done|lia|].
    intros a r s1 [[-> Hok1]|(n & Hr & Hn & Hok1)].
    + change (-1 =? -1) with true. cbv iota. apply wp_ret. exists s1, live, w, (ptes s). by split_and!.
    + destruct (Z.eqb_spec r (-1)); [lia|]. apply wp_bind. eapply wp_mod_data; [apply Ho|].
      set (s2 := set_datas <[d := set_index r y]> s1) in *.
      change (set_datas _ (set_devices _ t)) with (with_vma s2 v w (ptes s2)). change r with (index (set_index r y)) at 1.
      eapply wp_mono.
      * assert (leaked s2 -> leaked s) as HD by (by apply (leaked_mod_data s1 d y); [apply Ho|]).
        assert (opened s2 f id d x (set_index r y) (set_alloc a dev)) as Ho2.
        { apply (opened_set_data s1 d y); [apply Ho|]. rewrite decide_True by done. split; [done|].
          apply (opened_set_device s id dev); [apply Ho|done|]. by rewrite decide_True. }
        eapply wp_deadlock; [|exact HD]. apply (mmap_known e s2 _ v w f id d x _ _ n Hok1 Hv Hw Hfree Ho2); [by destruct Hp| |done].
        by rewrite fn_lookup_insert, lookup_insert_eq.
      * intros t' r' (b & l' & w' & m & H1 & H2 & (B1 & B2 & B3 & B4 & B5 & B6) & H4). exists b, l', w', m.
        split; [done|]. split; [done|]. split; [|done]. do 5 (split; [done|]). intros Hlk.
        by apply (leaked_mod_data s1 d y (set_index r y)); [apply Ho| |apply B6].
  - apply wp_ret. destruct (Z.eqb_spec (index y) (-1)) as [|_]; [done|]. apply wp_bind. eapply wp_mod_data; [apply Ho|].
    assert (set_index (index y) y = y) as -> by (by destruct y).
    replace (set_datas <[d := y]> t) with t
      by (unfold t, with_vma, set_datas, set_vmas, set_ptes; cbn; f_equal; symmetry; apply insert_id, Ho).
    destruct Hl as [?|[n Hl]]; [done|]. by eapply mmap_known.
Qed.

(** ** The entries of the page tables *)

(** Entries may go, and new ones may be added where they may be shown. *)
Lemma pmem_ok_ptes s live m :
  ok s live ->
  (forall a i pfn, m !! (a, i) = Some pfn -> ptes s !! (a, i) = Some pfn \/
    exists v w id d x y dev, vmas s !! v = Some w /\ in_vma w a i = true /\ opened s (vm_file w) id d x y dev /\ shows w dev y i pfn) ->
  ok (set_ptes (fun _ => m) s) live.
Proof.
  intros Hok Hm. assert (forall g i d x y dv, opened (set_ptes (fun _ => m) s) g i d x y dv <-> opened s g i d x y dv) as Eo
    by (intros; split; intros []; by split).
  pose proof Hok as [K1 K2 K3 K4 K5 K6 K7 K8 K9 K10 K11 K12]. split; try setoid_rewrite Eo; try done.
  intros a i pfn Hp. cbn in Hp. destruct (Hm a i pfn Hp) as [H|H]; [by apply K10|exact H].
Qed.

Lemma pmem_ok_zap s live (P : Z * Z * Z -> Prop) `{!forall e, Decision (P e)} :
  ok s live -> ok (set_ptes (filter P) s) live.
Proof.
  intros Hok. change (set_ptes (filter P) s) with (set_ptes (fun _ => filter P (ptes s)) s). apply pmem_ok_ptes; [done|].
  intros a i pfn [Hp _]%map_lookup_filter_Some. by left.
Qed.

Lemma pmem_ok_vm s live v w w' :
  ok s live -> vmas s !! v = Some w -> same_range w w' -> vm_ops w' = true -> ok (set_vmas <[v := w']> s) live.
Proof.
  intros Hok Hv (R1 & R2 & R3 & R4 & R5) Hops.
  assert (forall g i d x y dv, opened (set_vmas <[v := w']> s) g i d x y dv <-> opened s g i d x y dv) as Eo
    by (intros; split; intros []; by split).
  assert (forall u wu, <[v := w']> (vmas s) !! u = Some wu -> exists wu0, vmas s !! u = Some wu0 /\ same_range wu0 wu) as Hc.
  { intros u wu [[<- <-]|[_ H]]%lookup_insert_Some; [by exists w|by exists wu]. }
  pose proof Hok as [K1 K2 K3 K4 K5 K6 K7 K8 K9 K10 K11 K12]. split; try setoid_rewrite Eo; try done.
  - intros u wu Hu. cbn in Hu. apply lookup_insert_Some in Hu as [[<- <-]|[_ H]]; [|by eapply K8]. destruct (K8 v w Hv) as (H1 & H2 & H3).
    unfold mapping_ok in *. rewrite R2, R3, R4, R5. done.
  - intros u u' wu wu' Hu Hu' Hne Hmm. destruct (Hc u wu Hu) as (z & Hz & Z1 & Z2 & Z3 & _).
    destruct (Hc u' wu' Hu') as (z' & Hz' & Z1' & Z2' & Z3' & _). rewrite Z2, Z3, Z2', Z3'.
    apply (K9 u u'); [done|done|done|congruence].
  - intros a i pfn Hp. destruct (K10 a i pfn Hp) as (u & wu & i' & d' & x' & y' & dv & Hu & Hin & Hop & Hs). cbn.
    destruct (decide (u = v)) as [->|Hne].
    + assert (wu = w) as -> by congruence. exists v, w', i', d', x', y', dv. split; [apply lookup_insert_eq|].
      split; [unfold in_vma in *; by rewrite R1, R2, R3|]. rewrite R4. split; [done|]. unfold shows in *. by rewrite R2.
    + exists u, wu, i', d', x', y', dv. split; [|done]. by rewrite lookup_insert_ne.
Qed.

(** A mapping is removed with its entries. *)
Lemma pmem_ok_unmap s live v w :
  ok s live -> vmas s !! v = Some w ->
  ok (set_vmas (delete v) (set_ptes (filter (fun e => in_vma w e.1.1 e.1.2 = false)) s)) live.
Proof.
  intros Hok Hv. set (s' := set_vmas _ _).
  assert (forall g i d x y dv, opened s' g i d x y dv <-> opened s g i d x y dv) as Eo
    by (intros; split; intros []; by split).
  pose proof Hok as [K1 K2 K3 K4 K5 K6 K7 K8 K9 K10 K11 K12]. split; try setoid_rewrite Eo; try done.
  - intros u wu Hu. cbn in Hu. apply lookup_delete_Some in Hu as [_ H]. by eapply K8.
  - intros u u' wu wu' Hu Hu'. cbn in Hu, Hu'. apply lookup_delete_Some in Hu as [_ Hu]. apply lookup_delete_Some in Hu' as [_ Hu'].
    by apply (K9 u u').
  - intros a i pfn Hp. cbn in Hp. apply map_lookup_filter_Some in Hp as [Hp Hout]. cbn in Hout.
    destruct (K10 a i pfn Hp) as (u & wu & i' & d' & x' & y' & dv & Hu & Hin & Hs).
    exists u, wu, i', d', x', y', dv. split; [|done]. cbn. apply lookup_delete_Some. split; [|done].
    intros <-. assert (wu = w) as -> by congruence. congruence.
Qed.

(** Garbage pages in a mapping. *)
Lemma garbage_flags_insert w : Z.testbit (vm_flags w) 28 = false ->
  let fl := garbage_flags (vm_flags w) in
  has fl (Z.lor VM_PFNMAP VM_MIXEDMAP) = true /\
  (Z.land fl (Z.lor VM_PFNMAP VM_MIXEDMAP) =? Z.lor VM_PFNMAP VM_MIXEDMAP) = false /\
  has fl VM_PFNMAP && is_cow_mapping fl = false /\ Z.testbit fl 28 = false.
Proof.
  intros H fl. assert (Z.testbit fl 28 = false) as H28 by (unfold fl, garbage_flags; by rewrite Z.lor_spec, H).
  assert (Z.testbit fl 10 = true) as H10 by (unfold fl, garbage_flags; rewrite Z.lor_spec; apply orb_true_r).
  assert (Z.testbit fl 3 = true) as H3 by (unfold fl, garbage_flags; rewrite Z.lor_spec; apply orb_true_r).
  assert (forall m k, Z.testbit fl k = true -> Z.testbit m k = true -> Z.land fl m <> 0) as Hn.
  { intros m k H1 H2 E. assert (Z.testbit (Z.land fl m) k = true) as B by (by rewrite Z.land_spec, H1, H2).
    by rewrite E, Z.bits_0 in B. }
  split_and!; [| | |done].
  - unfold has. apply negb_true_iff, Z.eqb_neq. by apply (Hn _ 10).
  - apply Z.eqb_neq. intros E. assert (Z.testbit (Z.land fl (Z.lor VM_PFNMAP VM_MIXEDMAP)) 28 = true) as B by (by rewrite E).
    by rewrite Z.land_spec, H28 in B.
  - unfold is_cow_mapping. apply andb_false_iff. right. apply Z.eqb_neq. intros E.
    assert (Z.testbit (Z.land fl (Z.lor VM_SHARED VM_MAYWRITE)) 3 = false) as B by (by rewrite E). by rewrite Z.land_spec, H3 in B.
Qed.

Lemma garbage_loop_ok D pt n : forall i s live v w offs id d x y dev,
  ok s live -> vmas s !! v = Some w -> (exists w0, mapping_ok w0 /\ vm_flags w = garbage_flags (vm_flags w0)) ->
  opened s (vm_file w) id d x y dev ->
  wp D (garbage_loop pt n i v offs (d_garbage_pfn dev)) s (fun s' _ => ok s' live /\ datas s' = datas s).
Proof.
  induction n as [|n IH]; intros i s live v w offs id d x y dev Hok Hv Hfl Ho; cbn [garbage_loop]; [done|].
  apply wp_bind. eapply wp_the; [done|]. apply wp_bind. set (addr := u32 _). unfold vm_insert_pfn.
  apply wp_bind. eapply wp_the; [done|]. destruct Hfl as (w0 & Hw0 & Ef).
  pose proof Hw0 as (_ & _ & _ & _ & Hb).
  destruct (garbage_flags_insert w0 Hb) as (F1 & F2 & F3 & _). rewrite <- Ef in F1, F2, F3.
  apply wp_bind, wp_BUG_ON; [by rewrite F1|]. apply wp_bind, wp_BUG_ON; [done|]. apply wp_bind, wp_BUG_ON; [done|].
  destruct ((addr <? vm_start w) || (vm_end w <=? addr)) eqn:Er; [by apply wp_ret|].
  destruct (negb (pt (page addr))); [by apply wp_ret|]. apply wp_bind, wp_get.
  destruct (ptes s !! (vm_mm w, page addr)) eqn:Ep; [by apply wp_ret|]. apply wp_bind, wp_modify, wp_ret. cbn [Z.eqb negb].
  set (s1 := set_ptes _ s). destruct (po_vma _ _ _ Hok v w Hv) as ((W1 & W2 & [k Ek] & _ & _) & _). unbool.
  assert (in_vma w (vm_mm w) (page addr) = true) as Hin.
  { unfold in_vma, page, PAGE_SHIFT, PAGE_SIZE in *. rewrite Z.shiftr_div_pow2, Z.eqb_refl by lia. change (2 ^ 12) with 4096.
    pose proof (Z.mul_div_le addr 4096). pose proof (Z.div_le_lower_bound addr 4096 k). cbn [andb].
    apply andb_true_iff. rewrite Z.leb_le, Z.ltb_lt. lia. }
  eapply wp_mono; [eapply (IH _ s1 live v w offs id d x y dev)|].
  - change s1 with (set_ptes (fun _ => <[(vm_mm w, page addr) := d_garbage_pfn dev]> (ptes s)) s).
    apply pmem_ok_ptes; [done|]. intros a j pfn [[[= <- <-] <-]|[_ Hold]]%lookup_insert_Some; [right|by left].
    exists v, w, id, d, x, y, dev. split_and!; [done|done|done|by left].
  - done.
  - by exists w0.
  - by destruct Ho.
  - done.
Qed.

(** [pmem_unmap_pfn_range] in any range. *)
Lemma unmap_pfn_range_ok D pt s live v w id d x y dev offs len :
  ok s live -> vmas s !! v = Some w -> opened s (vm_file w) id d x y dev -> (PAGE_SIZE | len) ->
  wp D (pmem_unmap_pfn_range pt id v offs len) s (fun s' _ => ok s' live /\ datas s' = datas s).
Proof.
  intros Hok Hv Ho Hlen. unfold pmem_unmap_pfn_range. apply wp_bind, wp_BUG_ON; [by rewrite (proj2 (page_aligned len) Hlen)|].
  apply wp_bind. eapply wp_the; [done|]. apply wp_bind. unfold zap_page_range. apply wp_bind. eapply wp_the; [done|].
  apply wp_modify. match goal with |- context [set_ptes (filter ?P) s] => set (s1 := set_ptes (filter P) s) end.
  assert (ok s1 live) as Hok1 by (by apply pmem_ok_zap). assert (opened s1 (vm_file w) id d x y dev) as Ho1 by (by destruct Ho).
  apply wp_bind. unfold pmem_map_garbage. apply wp_bind. eapply wp_the; [apply Ho1|]. apply wp_bind.
  eapply wp_mod_vma; [done|]. set (w1 := set_vm_flags _ w). set (s2 := set_vmas _ s1).
  destruct (po_vma _ _ _ Hok v w Hv) as (Hw & Hops & _). pose proof Hw as (W1 & W2 & W3 & W4 & Hb).
  destruct (garbage_flags_insert w Hb) as (_ & _ & _ & F4). eapply wp_mono.
  - apply (garbage_loop_ok D pt _ 0 s2 live v w1 offs id d x y dev).
    + apply (pmem_ok_vm s1 live v w w1); [done|done| |done]. unfold same_range, w1, set_vm_flags.
      do 4 (split; [done|]). cbn [vm_flags]. by rewrite Hb, F4.
    + apply lookup_insert_eq.
    + by exists w.
    + by destruct Ho.
  - intros s' r [H1 H2]. apply wp_ret. by split.
Qed.

End mapping.
