(* ===== verification/PmemCalls.v ===== *)
(** * Pmem: the system calls keep the invariant

    For calls that do not connect files: none runs into a bug, each keeps
    [pmem_ok], and one waits forever only behind a semaphore that an earlier
    failed call left held. *)

From stdpp Require Import base numbers list gmap countable functions.
From S2P Require Import Prelude Pmem PmemApi PmemVm PmemFile PmemSystem PmemIsolation PmemMapping.

Open Scope Z_scope.
Open Scope pmem_scope.

Section calls.
Context (infos : Z -> pmem_info) {allocs : forall id, PmemAllocator (infos id)}.

Local Abbreviation ok := (pmem_ok infos).

(** The operation keeps the invariant. *)
Definition keeps {A} (m : M A) (s : pmem) : Prop := wp (leaked s) m s (fun s' _ => exists live, ok s' live).

Lemma pmem_keeps_same {A} (m : M A) s live : ok s live -> wp (leaked s) m s (fun s' _ => s' = s) -> keeps m s.
Proof. intros Hok H. eapply wp_mono; [exact H|]. intros s' _ ->. by exists live. Qed.

Lemma keeps_ignore {A} (m : M A) s : keeps m s -> keeps (m;; ret tt) s.
Proof. intros H. apply wp_bind. eapply wp_mono; [exact H|]. intros s' _ [live Hok]. apply wp_ret. by exists live. Qed.

Lemma leaked_data s s' : datas s' = datas s -> leaked s' -> leaked s.
Proof. intros E (d & x & H1 & H2). exists d, x. by rewrite <- E. Qed.

Lemma keeps_fput {A} e s s1 live f (a : A) :
  ok s1 live -> datas s1 = datas s -> is_Some (files s1 !! f) ->
  wp (leaked s) (fput e f;; ret a) s1 (fun s' _ => exists live, ok s' live).
Proof.
  intros Hok E Hf. apply wp_bind. eapply wp_fput; [done|done|by apply leaked_data|].
  intros s' live' Hok'. apply wp_ret. by exists live'.
Qed.

(** ** Opening and closing *)

(** A new file without an allocation. *)
Lemma pmem_ok_opened s s2 live f k minor d sync y dev :
  ok s live -> files s !! f = None -> datas s !! d = None -> devices s !! minor = Some dev ->
  d_minor dev = minor -> minor < PMEM_MAX_DEVICES -> plain y -> index y = -1 ->
  let dev' := set_data_list (list_add d) dev in
  devices s2 = <[minor := dev']> (devices s) -> files s2 = <[f := File (MISC_MAJOR, minor) sync (Some d)]> (files s) ->
  datas s2 = <[d := y]> (datas s) -> vmas s2 = vmas s -> ptes s2 = ptes s -> fds s2 = <[k := f]> (fds s) ->
  drivers s2 = drivers s -> ok s2 live.
Proof.
  intros Hok Hf Hnew Hdev Hmin Hmax Hpl Hy dev' E1 E2 E3 E4 E5 E6 E7.
  assert (forall g i d0 x0 y0 dv, opened s g i d0 x0 y0 dv ->
    opened s2 g i d0 x0 y0 (if decide (i = minor) then dev' else dv) /\ d0 <> d) as Hto.
  { intros g i d0 x0 y0 dv [F1 F2 F3 F4 F5 F6 F7]. assert (g <> f) by congruence. assert (d0 <> d) by congruence.
    split; [|done]. split; try done; rewrite ?E1, ?E2, ?E3, ?lookup_insert_ne by done; try done.
    - case_decide as E; [by rewrite E, lookup_insert_eq|by rewrite lookup_insert_ne].
    - case_decide as E; [|done]. by rewrite E. }
  assert (opened s2 f minor d (File (MISC_MAJOR, minor) sync (Some d)) y dev') as Hof.
  { split; try done; by rewrite ?E1, ?E2, ?E3, ?lookup_insert_eq. }
  assert (forall g i d0 x0 y0 dv, opened s2 g i d0 x0 y0 dv ->
    g = f /\ y0 = y \/ g <> f /\ exists dv0, opened s g i d0 x0 y0 dv0) as Hfrom.
  { intros g i d0 x0 y0 dv Hg. destruct (decide (g = f)) as [->|Hne].
    - left. by destruct (opened_fun _ _ _ _ _ _ _ _ _ _ _ _ Hof Hg) as (_ & _ & _ & -> & _).
    - right. split; [done|]. destruct Hg as [F1 F2 F3 F4 F5 F6 F7]. rewrite E2, lookup_insert_ne in F1 by done. rewrite E3 in F4. destruct (po_file _ _ _ Hok g (ex_intro _ _ F1)) as (i' & d' & x' & y' & dv' & G & _).
      assert (x' = x0) as -> by (destruct G; congruence). assert (d' = d0) as -> by (destruct G; congruence).
      assert (i' = i) as -> by (destruct G; congruence). exists dv'.
      rewrite lookup_insert_ne in F4 by (destruct G; congruence). destruct G. split; try done; congruence. }
  pose proof Hok as [K1 K2 K3 K4 K5 K6 K7 K8 K9 K10 K11 K12]. split.
  - intros i dv H. rewrite E1 in H. apply lookup_insert_Some in H as [[<- <-]|[_ H]]; [by apply (K1 minor dev)|by apply K1].
  - intros i dv d0 H Hin. rewrite E1 in H. apply lookup_insert_Some in H as [[<- <-]|[Hi H]].
    + cbn in Hin. apply elem_of_cons in Hin as [->|Hin]; [eauto|]. destruct (K2 minor dev d0 Hdev Hin) as (g & x0 & y0 & Hg).
      exists g, x0, y0. destruct (Hto _ _ _ _ _ _ Hg) as [G _]. by rewrite decide_True in G.
    + destruct (K2 i dv d0 H Hin) as (g & x0 & y0 & Hg). exists g, x0, y0. destruct (Hto _ _ _ _ _ _ Hg) as [G _].
      by rewrite decide_False in G.
  - intros g Hg. destruct (decide (g = f)) as [->|Hne].
    + eexists minor, d, _, y, dev'. split; [done|]. split; [done|by left].
    + rewrite E2, lookup_insert_ne in Hg by done. destruct (K3 g Hg) as (i & d0 & x0 & y0 & dv & Hop & H).
      destruct (Hto _ _ _ _ _ _ Hop) as [G _]. eauto 10.
  - intros g g' x0 x1 d0 G1 G2. rewrite E2 in G1, G2.
    assert (forall h z, <[f := File (MISC_MAJOR, minor) sync (Some d)]> (files s) !! h = Some z ->
      private_data z = Some d0 -> h = f /\ d0 = d \/ h <> f /\ files s !! h = Some z /\ d0 <> d) as Hcase.
    { intros h z [[<- <-]|[Hne H]]%lookup_insert_Some Hz; [left; cbn in Hz; by simplify_eq|right].
      split_and!; [done|done|]. destruct (K3 h (ex_intro _ z H)) as (? & ? & ? & ? & ? & Hop & _).
      destruct (Hto _ _ _ _ _ _ Hop) as [_ Hn]. destruct Hop. congruence. }
    intros P1 P2. destruct (Hcase g x0 G1 P1) as [[-> ->]|(N1 & H1 & D1)], (Hcase g' x1 G2 P2) as [[-> Ed]|(N2 & H2 & D2)]; try done.
    by eapply (K4 g g').
  - intros g g' i d0 d1 x0 x1 y0 y1 dv G1 G2 E Hn.
    destruct (Hfrom _ _ _ _ _ _ G1) as [[-> ->]|(N1 & v1 & J1)]; [done|].
    destruct (Hfrom _ _ _ _ _ _ G2) as [[-> ->]|(N2 & v2 & J2)]; [by rewrite E in Hn|].
    assert (v2 = v1) as -> by (destruct J1, J2; congruence). by eapply K5.
  - intros i r Hr. destruct (K6 i r Hr) as (g & d0 & x0 & y0 & dv & Hg & E). destruct (Hto _ _ _ _ _ _ Hg) as [G _]. eauto 10.
  - apply K7.
  - intros v w Hv. rewrite E4 in Hv. destruct (K8 v w Hv) as (H1 & H2 & i & d0 & x0 & y0 & dv & n & Hg & H3). split; [done|]. split; [done|].
    destruct (Hto _ _ _ _ _ _ Hg) as [G _]. eauto 10.
  - rewrite E4. apply K9.
  - intros mm pg pfn Hp. rewrite E5 in Hp. rewrite E4. destruct (K10 mm pg pfn Hp) as (v & w & i & d0 & x0 & y0 & dv & Hv & Hin & Hg & Hs).
    destruct (Hto _ _ _ _ _ _ Hg) as [G _]. eexists v, w, i, d0, x0, y0, _. split_and!; [done|done|exact G|].
    unfold shows in *. case_decide as E; [|done]. subst i. assert (dv = dev) as -> by (destruct Hg; congruence). done.
  - intros k' g Hk. rewrite E6 in Hk. rewrite E2. apply lookup_insert_Some in Hk as [[_ <-]|[_ Hk]]; [rewrite lookup_insert_eq; by eexists|].
    destruct (decide (g = f)) as [->|Hne]; [rewrite lookup_insert_eq; by eexists|]. rewrite lookup_insert_ne by done. by eapply K11.
  - intros g Hg. rewrite E7 in Hg. rewrite E2. destruct (decide (g = f)) as [->|Hne]; [rewrite lookup_insert_eq; by eexists|].
    rewrite lookup_insert_ne by done. by apply K12.
Qed.

Lemma pmem_keeps_open e s live f fd minor sync :
  ok s live -> call_ok e s (Open f fd minor sync) -> keeps (sys_open e f fd minor sync) s.
Proof.
  intros Hok (_ & Hnew & Hf & Hfd & dev & Hdev & Hmin & Hmax). unfold keeps, sys_open. apply wp_bind, wp_modify.
  set (s1 := set_files _ s). apply wp_bind. unfold pmem_open, get_id, the_file. apply wp_bind, wp_bind.
  eapply wp_the; [apply lookup_insert_eq|]. apply wp_ret. cbn [f_rdev snd]. apply wp_bind. eapply wp_the; [done|].
  assert (forall r, r <> 0 -> wp (leaked s) (if negb (r =? 0) then modify (set_files (delete f));; ret r
    else modify (set_fds <[(current e, fd) := f]>);; ret fd) s1 (fun s' _ => exists live', ok s' live')) as Herr.
  { intros r Hr. apply Z.eqb_neq in Hr. rewrite Hr. apply wp_bind, wp_modify, wp_ret. exists live.
    apply (pmem_ok_same _ s); try done; cbn; [by apply delete_insert_id|apply Hok|apply Hok]. }
  case_if; [apply wp_ret; by apply Herr|]. destruct (new_data e) as [d|] eqn:Ed; [|apply wp_ret; by apply Herr].
  specialize (Hnew d eq_refl). apply wp_bind, wp_modify. apply wp_bind. eapply wp_the; [apply lookup_insert_eq|].
  apply wp_bind, wp_modify. apply wp_bind. eapply wp_mod_device; [done|]. apply wp_ret. cbn [Z.eqb negb].
  apply wp_bind, wp_modify, wp_ret. exists live.
  eapply (pmem_ok_opened s _ live f (current e, fd) minor d sync _ dev Hok Hf Hnew Hdev Hmin Hmax); try done; [by constructor; [left|..]|reflexivity|].
  cbn. by rewrite insert_insert_eq.
Qed.

Lemma keeps_close e s live fd : ok s live -> keeps (sys_close e fd) s.
Proof.
  intros Hok. unfold keeps, sys_close. apply wp_bind, wp_get. destruct (fds s !! _) as [f|] eqn:E; [|by apply (pmem_keeps_same _ _ live)].
  apply wp_bind, wp_modify. eapply (keeps_fput e s _ live).
  - apply (pmem_ok_same _ s); try done; [|apply Hok]. intros k g Hk. cbn in Hk. apply lookup_delete_Some in Hk as [_ Hk]. by eapply (po_fd _ _ _ Hok).
  - done.
  - by eapply (po_fd _ _ _ Hok).
Qed.

Lemma keeps_pass e s live fd p' fd' : ok s live -> keeps (sys_pass e fd p' fd') s.
Proof.
  intros Hok. unfold keeps, sys_pass. apply wp_bind, wp_get. destruct (fds s !! _) as [f|] eqn:E; [|by apply (pmem_keeps_same _ _ live)].
  apply wp_bind, wp_modify, wp_ret. exists live. apply (pmem_ok_same _ s); try done; [|apply Hok].
  intros k g Hk. cbn in Hk. apply lookup_insert_Some in Hk as [[_ <-]|[_ Hk]]; by eapply (po_fd _ _ _ Hok).
Qed.

(** ** Mappings *)

Lemma unmapped_again b live v w w' m :
  ok b live -> vmas b !! v = None -> vma_free b (vm_mm w) (vm_start w) (vm_end w) -> same_range w w' -> outside b w m ->
  ok (set_vmas (delete v) (set_ptes (filter (fun e => in_vma w' e.1.1 e.1.2 = false)) (with_vma b v w' m))) live.
Proof.
  intros Hok Hv Hfree (R1 & R2 & R3 & _) Hout.
  assert (forall a i, in_vma w' a i = in_vma w a i) as Ein by (intros; unfold in_vma; by rewrite R1, R2, R3).
  apply (pmem_ok_same _ b); try done; cbn; [by apply delete_insert_id| |apply Hok|apply Hok].
  apply map_eq. intros [a i]. pose proof (free_pages infos b live v w Hok Hfree Hv a i) as Hnone.
  specialize (Hout a i). destruct (in_vma w a i) eqn:E.
  - rewrite Hnone by done. apply map_lookup_filter_None. right. intros x _ H. cbn in H. congruence.
  - rewrite <- Hout by done. destruct (m !! (a, i)) as [pfn|] eqn:Em; [|by apply map_lookup_filter_None; left].
    apply map_lookup_filter_Some. cbn. by rewrite Ein.
Qed.

Lemma keeps_mmap e s live fd v mm start stop pgoff vmflags :
  ok s live -> call_ok e s (Mmap fd v mm start stop pgoff vmflags) -> keeps (sys_mmap e fd v mm start stop pgoff vmflags) s.
Proof.
  intros Hok (_ & _ & Hv & Hr & Hs & Hd1 & Hd2 & Hfree & Hfl). unfold keeps, sys_mmap. apply wp_bind, wp_get.
  destruct (fds s !! _) as [f|] eqn:E; [|by apply (pmem_keeps_same _ _ live)]. apply wp_bind, wp_modify. apply wp_bind.
  set (w := VmArea mm start stop f pgoff vmflags false false).
  assert (mapping_ok w) as Hw.
  { do 4 (split; [done|]). cbn [vm_flags w]. destruct (Z.eq_dec vmflags 0) as [->|]; [apply Z.testbit_0_l|].
    apply Z.bits_above_log2; [lia|]. apply Z.log2_lt_pow2; [lia|]. eapply Z.lt_trans; [apply Hfl|]. done. }
  change (set_vmas <[v := w]> s) with (with_vma s v w (ptes s)).
  assert (is_Some (files s !! f)) as Hf by (by eapply (po_fd _ _ _ Hok)).
  eapply wp_mono; [by apply (wp_pmem_mmap infos e s live v w f)|].
  intros t' r (b & live' & w' & m & -> & Hok' & (B1 & B2 & B3 & B4 & B5 & B6) & Hrange & Hout & Hdone).
  assert (vma_free b (vm_mm w) (vm_start w) (vm_end w)) as Hfree' by (unfold vma_free; by rewrite B2).
  destruct (Z.eqb_spec r 0) as [->|Hr0]; cbn [negb].
  - apply wp_ret. destruct (Hdone eq_refl) as [Hops Hsh]. exists live'.
    by apply (with_vma_ok infos b live' v w w' m); [|rewrite B2|..].
  - apply wp_bind. eapply wp_the; [apply lookup_insert_eq|]. apply wp_bind, wp_modify. apply wp_bind, wp_modify.
    apply wp_bind. eapply wp_fput.
    + by apply (unmapped_again b live' v w w' m); [|rewrite B2|..].
    + cbn. by rewrite B1.
    + done.
    + intros s' live2 Hok2. apply wp_ret. by exists live2.
Qed.

Lemma keeps_munmap e s live v : ok s live -> is_Some (vmas s !! v) -> keeps (sys_munmap e v) s.
Proof.
  intros Hok [w Hv]. destruct (po_vma _ _ _ Hok v w Hv) as (_ & Hops & id & d & x & y & dev & n & Ho & _).
  destruct (po_file _ _ _ Hok (vm_file w) (ex_intro _ x (op_file _ _ _ _ _ _ _ Ho))) as (? & ? & ? & ? & ? & Ho' & Hp & _).
  destruct (opened_fun _ _ _ _ _ _ _ _ _ _ _ _ Ho Ho') as (-> & -> & -> & -> & ->).
  unfold keeps, sys_munmap. apply wp_bind. eapply wp_the; [done|]. rewrite Hops. apply wp_bind.
  apply (wp_mono _ _ _ (fun s' _ => s' = s)).
  { unfold pmem_vma_close. apply wp_bind. eapply wp_the; [done|]. apply wp_bind, (wp_is_pmem_file Ho). cbn [negb].
    apply wp_bind, (wp_data_of Ho), wp_bind. eapply wp_down_leaked; [apply Ho|]. apply wp_bind, (wp_has_allocation Ho).
    destruct (negb (negb _)); [done|]. rewrite (pl_vma _ Hp). by rewrite bool_decide_eq_false_2. }
  intros ? _ ->. apply wp_bind. eapply wp_the; [done|]. apply wp_bind, wp_modify. apply wp_bind, wp_modify.
  eapply (keeps_fput e s _ live); [by apply pmem_ok_unmap|done|]. eexists. apply Ho.
Qed.

(** ** Forks *)

Lemma copy_ptes_spec w mm' m a i :
  copy_ptes w mm' m !! (a, i) = m !! (a, i) \/
  a = mm' /\ in_vma w (vm_mm w) i = true /\ is_Some (m !! (vm_mm w, i)) /\ copy_ptes w mm' m !! (a, i) = m !! (vm_mm w, i).
Proof.
  unfold copy_ptes. revert a i.
  apply (map_fold_weak_ind (fun r x => forall a i, r !! (a, i) = m !! (a, i) \/
    a = mm' /\ in_vma w (vm_mm w) i = true /\ is_Some (x !! (vm_mm w, i)) /\ r !! (a, i) = x !! (vm_mm w, i))).
  - intros a i. by left.
  - intros [mm i] pfn x r Hnone IH a j. cbn [fst snd].
    assert (forall j, is_Some (x !! (vm_mm w, j)) -> <[(mm, i) := pfn]> x !! (vm_mm w, j) = x !! (vm_mm w, j)) as Hold.
    { intros j' [? Hj]. rewrite lookup_insert_ne; [done|]. intros [= -> ->]. congruence. }
    assert (r !! (a, j) = m !! (a, j) \/ a = mm' /\ in_vma w (vm_mm w) j = true /\
      is_Some (<[(mm, i) := pfn]> x !! (vm_mm w, j)) /\ r !! (a, j) = <[(mm, i) := pfn]> x !! (vm_mm w, j)) as Hr.
    { destruct (IH a j) as [?|(-> & Hin & Hs & Hr)]; [by left|right]. rewrite Hold by done. done. }
    destruct (in_vma w mm i) eqn:Hin; [|exact Hr]. destruct (decide ((mm', i) = (a, j))) as [[= <- <-]|Hne].
    + right. assert (mm = vm_mm w) as -> by (unfold in_vma in Hin; unbool; done).
      rewrite !lookup_insert_eq. split_and!; [done|done|by eexists|done].
    + rewrite lookup_insert_ne by done. exact Hr.
Qed.

Lemma u32_aligned z : (PAGE_SIZE | z) -> (PAGE_SIZE | u32 z).
Proof.
  intros [k ->]. unfold u32, PAGE_SIZE. change (2 ^ 32) with (1048576 * 4096). rewrite Z.mul_mod_distr_r by lia. by eexists.
Qed.

Lemma keeps_dup e s live v mm' v' : ok s live -> call_ok e s (DupVma v mm' v') -> keeps (dup_vma e v mm' v') s.
Proof.
  intros Hok (_ & _ & [w Hv] & Hv' & Hfree). specialize (Hfree w Hv).
  destruct (po_vma _ _ _ Hok v w Hv) as (Hw & Hops & id & d & x & y & dev & n & Ho & Hl & Hn). pose proof Hw as (W1 & W2 & W3 & W4 & W5).
  unfold keeps, dup_vma. apply wp_bind. eapply wp_the; [done|]. apply wp_bind, wp_modify. apply wp_bind, wp_modify. rewrite Hops.
  set (w' := VmArea mm' (vm_start w) (vm_end w) (vm_file w) (vm_pgoff w) (vm_flags w) (vm_wc w) true).
  set (m := copy_ptes w mm' (ptes s)). change (set_ptes (copy_ptes w mm') _) with (with_vma s v' w' m).
  assert (ok (with_vma s v' w' m) live) as Hok'.
  { apply (with_vma_ok infos s live v' w' w' m); try done.
    - intros a i Hi. destruct (copy_ptes_spec w mm' (ptes s) a i) as [?|(-> & Hin & _)]; [done|].
      unfold in_vma in Hi, Hin. cbn in Hi. rewrite Z.eqb_refl in *. unbool. exfalso. lia.
    - exists id, d, x, y, dev, n. split; [done|]. split; [done|]. split; [done|]. intros a i pfn Hi Hp.
      destruct (copy_ptes_spec w mm' (ptes s) a i) as [E|(-> & Hin & _ & E)]; fold m in E; rewrite E in Hp.
      + rewrite (free_pages infos s live v' w' Hok Hfree Hv' a i Hi) in Hp. done.
      + destruct (po_pte _ _ _ Hok _ _ _ Hp) as (u & wu & i' & d' & x' & y' & dv & Hu & Hiu & Ho' & Hs).
        assert (u = v) as ->.
        { destruct (decide (u = v)) as [?|Hne]; [done|exfalso]. unfold in_vma in Hiu, Hin. unbool.
          destruct (po_apart _ _ _ Hok u v wu w Hu Hv Hne); [congruence|lia|lia]. }
        assert (wu = w) as -> by congruence. destruct (opened_fun _ _ _ _ _ _ _ _ _ _ _ _ Ho Ho') as (-> & -> & -> & -> & ->). done. }
  assert (opened (with_vma s v' w' m) (vm_file w) id d x y dev) as Ho' by (by destruct Ho).
  unfold pmem_vma_open. apply wp_bind. eapply wp_the; [apply lookup_insert_eq|]. apply wp_bind, (wp_data_of Ho').
  apply wp_bind, (wp_get_id Ho'). apply wp_bind. eapply wp_down; [apply Ho'|intros ?; exists d, y; split; [apply Ho|done]|].
  apply wp_bind, (wp_has_allocation Ho'). apply wp_bind, wp_BUG_ON.
  { apply negb_false_iff, negb_true_iff, Z.eqb_neq. intros E. rewrite E, (po_index _ _ _ Hok) in Hl. done. }
  apply wp_bind. eapply wp_mono.
  - apply (unmap_pfn_range_ok infos _ _ _ live v' w' id d x y dev); [done|apply lookup_insert_eq|done|].
    cbn. apply u32_aligned. by apply Z.divide_sub_r.
  - intros s' r [Hok2 _]. apply wp_ret. by exists live.
Qed.

(** ** Control *)

(** The open file of a call, with its data. *)
Lemma ok_file s live f :
  ok s live -> is_Some (files s !! f) ->
  exists id d x y dev, opened s f id d x y dev /\ plain y /\ (index y = -1 \/ exists n, live id !! index y = Some n).
Proof. intros Hok Hf. destruct (po_file _ _ _ Hok f Hf) as (id & d & x & y & dev & H). eauto 10. Qed.

Lemma get_size_same D s live f id d x y dev :
  ok s live -> opened s f id d x y dev -> index y = -1 \/ (exists n, live id !! index y = Some n) -> (leaked s -> D) ->
  wp D (pmem_get_size f) s (fun s' _ => s' = s).
Proof.
  intros Hok Ho Hl HD. unfold pmem_get_size. apply wp_bind, (wp_data_of Ho), wp_bind, (wp_get_id Ho), wp_bind.
  eapply wp_down; [apply Ho|intros ?; apply HD; exists d, y; split; [apply Ho|done]|]. apply wp_bind, (wp_has_allocation Ho).
  destruct (Z.eqb_spec (index y) (-1)) as [E|E]; cbn [negb]; [done|]. destruct Hl as [?|[n Hl]]; [done|].
  apply wp_bind. eapply wp_dev_start; [done|done|done|done|]. intros start _ _ _ _ _. apply wp_bind.
  by eapply (wp_dev_len _ _ s); [done|done|done|done|].
Qed.

Lemma keeps_remap e s live r f op :
  ok s live -> windows e = [] -> is_Some (files s !! f) -> keeps (pmem_remap e r f op) s.
Proof.
  intros Hok Hwin Hf. destruct (ok_file s live f Hok Hf) as (id & d & x & y & dev & Ho & Hp & Hl).
  unfold keeps, pmem_remap. apply wp_bind, (wp_get_id Ho), wp_bind, (wp_is_pmem_file Ho). cbn [negb].
  destruct (_ || _); [by apply (pmem_keeps_same _ _ live)|]. destruct (rlen r =? 0); [by apply (pmem_keeps_same _ _ live)|].
  apply wp_bind, (wp_data_of Ho), wp_bind. rewrite Hwin. cbn [pmem_lock_data_and_mm].
  apply wp_bind. eapply wp_down_leaked; [apply Ho|]. apply wp_bind, wp_get. rewrite (plain_submap y Hp). cbn [andb].
  apply wp_bind, wp_ret. apply wp_bind, wp_ret. apply wp_bind. eapply wp_down_leaked; [apply Ho|].
  rewrite (plain_submap y Hp), (has_plain y PMEM_FLAGS_UNSUBMAP Hp) by auto. cbn [andb]. apply wp_ret. cbn [fst Z.eqb negb].
  apply wp_bind. apply (wp_mono _ _ _ (fun s' b => s' = s /\ (b = true -> index y <> -1))).
  { unfold is_master_owner. apply wp_bind, (wp_data_of Ho), wp_bind, (wp_has_allocation Ho).
    destruct (Z.eqb_spec (index y) (-1)); cbn [negb]; [done|]. apply wp_bind. eapply wp_the; [apply Ho|].
    destruct (has _ _); [done|]. apply wp_bind, wp_get. by destruct (fds s !! _). }
  intros ? b [-> Hb]. destruct b; cbn [negb]; [|by apply (pmem_keeps_same _ _ live)]. specialize (Hb eq_refl).
  destruct Hl as [?|[n Hl]]; [done|]. apply wp_bind. eapply wp_the; [apply Ho|]. apply wp_bind.
  eapply (wp_dev_len _ _ s); [done|done|done|done|]. destruct (_ || _); [by apply (pmem_keeps_same _ _ live)|].
  destruct (edit_regions e op r (region_list y)) as [err l']. destruct (negb _); [by apply (pmem_keeps_same _ _ live)|].
  apply wp_bind. eapply wp_mod_data; [apply Ho|]. rewrite (pl_vma _ Hp). apply wp_ret. exists live.
  eapply pmem_ok_mod_data; [done|apply Ho|]. split; [done|by destruct Hp].
Qed.

(** An allocation by an ioctl. *)
Lemma keeps_allocation e s live f id d x y dev len align k :
  ok s live -> opened s f id d x y dev -> plain y -> index y = -1 -> 0 <= len < 2 ^ 32 -> align = 2 ^ k -> 0 <= k < 31 ->
  keeps (idx <- dev_allocate e id len align;; mod_data d (set_index idx);; ret (if idx =? -1 then - ENOMEM else idx)) s.
Proof.
  intros Hok Ho Hp Hi Hlen Ha Hk. unfold keeps. apply wp_bind.
  eapply (wp_dev_allocate _ _ _ s s); [done|done|done|done|done|done|done|].
  intros a r s' Hc. apply wp_bind. eapply wp_mod_data; [apply Ho|]. apply wp_ret.
  destruct Hc as [[-> Hok']|(n & Hr & Hn & Hok')]; [|by eexists]. exists live.
  eapply pmem_ok_mod_data; [done|apply Ho|]. split; [by cbn|by destruct Hp].
Qed.

Lemma keeps_ioctl_allocate e s live f len :
  ok s live -> is_Some (files s !! f) -> 0 <= len < 2 ^ 32 -> keeps (ioctl_allocate e f len) s.
Proof.
  intros Hok Hf Hlen. destruct (ok_file s live f Hok Hf) as (id & d & x & y & dev & Ho & Hp & Hl).
  unfold keeps, ioctl_allocate. apply wp_bind, (wp_data_of Ho), wp_bind, (wp_get_id Ho), wp_bind.
  eapply wp_down_leaked; [apply Ho|]. apply wp_bind, (wp_has_allocation Ho).
  destruct (Z.eqb_spec (index y) (-1)) as [E|E]; cbn [negb]; [|by apply (pmem_keeps_same _ _ live)].
  by eapply (keeps_allocation e s live f id d x y dev len SZ_4K 12).
Qed.

Lemma power_of_2 n : 0 < n < 2 ^ 32 -> Z.land n (u32 (n - 1)) = 0 -> n = 2 ^ Z.log2 n.
Proof.
  intros Hn. rewrite u32_small by lia. intros H. destruct (Z.log2_spec n ltac:(lia)) as [H1 H2].
  destruct (Z.eq_dec n (2 ^ Z.log2 n)) as [?|Hne]; [done|exfalso]. set (k := Z.log2 n) in *.
  pose proof (Z.log2_nonneg n). fold k in H0.
  assert (Z.log2 (n - 1) = k) as El by (apply Z.log2_unique; lia).
  assert (Z.testbit (Z.land n (n - 1)) k = true) as B.
  { rewrite Z.land_spec. unfold k at 1. rewrite Z.bit_log2 by lia. rewrite <- El. apply Z.bit_log2. lia. }
  by rewrite H, Z.bits_0 in B.
Qed.

Lemma keeps_ioctl_allocate_aligned e s live f size align :
  ok s live -> is_Some (files s !! f) -> 0 <= size < 2 ^ 32 -> 0 <= align < 2 ^ 32 ->
  keeps (ioctl_allocate_aligned e f size align) s.
Proof.
  intros Hok Hf Hs Ha. destruct (ok_file s live f Hok Hf) as (id & d & x & y & dev & Ho & Hp & Hl).
  assert (wp (leaked s) (mod_data d (set_sem true);; ret (- EINVAL)) s (fun s' _ => exists live', ok s' live')) as Herr.
  { apply wp_bind. eapply wp_mod_data; [apply Ho|]. apply wp_ret. exists live.
    eapply pmem_ok_mod_data; [done|apply Ho|]. split; [done|by destruct Hp]. }
  unfold keeps, ioctl_allocate_aligned. apply wp_bind, (wp_data_of Ho), wp_bind, (wp_get_id Ho), wp_bind.
  eapply wp_the; [apply Ho|]. apply wp_bind. eapply wp_down_leaked; [apply Ho|]. apply wp_bind, (wp_has_allocation Ho).
  destruct (Z.eqb_spec (index y) (-1)) as [E|E]; cbn [negb]; [|by apply (pmem_keeps_same _ _ live)].
  destruct (Z.eqb_spec (Z.land align (u32 (align - 1))) 0) as [Hpow|]; cbn [negb]; [|exact Herr].
  destruct (negb _ && negb _); [exact Herr|]. destruct (_ || _) eqn:Er; [exact Herr|]. unfold SZ_1M, SZ_4K in Er. unbool.
  assert (align = 2 ^ Z.log2 align) as Ep by (apply power_of_2; [lia|done]).
  apply (keeps_allocation e s live f id d x y dev size align (Z.log2 align)); try done.
  split; [apply Z.log2_nonneg|]. apply Z.log2_lt_pow2; lia.
Qed.

Lemma pmem_ok_cache s live o : ok s live -> ok (add_cache_op o s) live.
Proof. intros Hok. apply (pmem_ok_same _ s); try done; apply Hok. Qed.

Lemma keeps_cache_maint s live f cmd a : ok s live -> is_Some (files s !! f) -> keeps (pmem_cache_maint f cmd a) s.
Proof.
  intros Hok Hf. destruct (ok_file s live f Hok Hf) as (id & d & x & y & dev & Ho & Hp & Hl).
  unfold keeps, pmem_cache_maint. apply wp_bind, (wp_get_id Ho), wp_bind. eapply wp_the; [apply Ho|].
  destruct (negb _); [by apply (pmem_keeps_same _ _ live)|]. apply wp_bind, (wp_data_of Ho), wp_bind.
  eapply wp_down_leaked; [apply Ho|]. apply wp_bind, (wp_has_allocation Ho).
  destruct (Z.eqb_spec (index y) (-1)) as [E|E]; cbn [negb]; [by apply (pmem_keeps_same _ _ live)|]. destruct Hl as [?|[n Hl]]; [done|].
  apply wp_bind. eapply (wp_dev_len _ _ s); [done|done|done|done|]. apply wp_bind.
  eapply wp_dev_start; [done|done|done|done|]. intros start _ _ _ _ _. case_if; [by apply (pmem_keeps_same _ _ live)|].
  apply wp_bind. repeat case_if; first [apply wp_modify|apply wp_ret]; apply wp_ret; exists live; auto using pmem_ok_cache.
Qed.

Lemma word_at_range m arg n i : bytes_ok m -> 0 <= word_at (copy_from_user m arg n).1 i < 2 ^ 32.
Proof.
  intros Hm. destruct (copy_from_user_bytes m arg n Hm) as [Hb _]. unfold word_at, bslice.
  pose proof (le_Z_range (take (Z.to_nat 4) (drop (Z.to_nat (4 * i)) (copy_from_user m arg n).1))) as H.
  destruct H as [H1 H2]; [by apply Forall_take, Forall_drop|]. split; [done|]. eapply Z.lt_le_trans; [exact H2|].
  change (2 ^ 32) with (256 ^ 4). apply Z.pow_le_mono_r; [lia|]. rewrite zlen_take. lia.
Qed.

Lemma keeps_bind_ret {A B} (m : M A) (g : A -> B) s : keeps m s -> keeps (x <- m;; ret (g x)) s.
Proof. intros H. apply wp_bind. eapply wp_mono; [exact H|]. intros s' x [live Hok]. apply wp_ret. by exists live. Qed.

Lemma pmem_keeps_ioctl e s live m f cmd arg :
  ok s live -> windows e = [] -> is_Some (files s !! f) -> cmd <> PMEM_CONNECT -> 0 <= arg < 2 ^ 32 -> bytes_ok m ->
  keeps (pmem_ioctl e m f cmd arg) s.
Proof.
  intros Hok Hwin Hf Hcmd Harg Hm. destruct (ok_file s live f Hok Hf) as (id & d & x & y & dev & Ho & Hp & Hl).
  assert (forall A (a : A), keeps (ret a) s) as Hret by (intros; by apply (pmem_keeps_same _ _ live)).
  unfold pmem_ioctl. apply wp_bind, (wp_get_id Ho).
  destruct (_ || _).
  { apply keeps_bind_ret, (pmem_keeps_same _ _ live); [done|]. by eapply get_size_same. }
  destruct (_ || _).
  { destruct (copy_from_user m arg 8) as [bs n]. destruct (negb _); [apply Hret|]. apply keeps_bind_ret. by eapply keeps_remap. }
  destruct (cmd =? PMEM_GET_TOTAL_SIZE).
  { apply wp_bind. eapply wp_the; [apply Ho|]. apply Hret. }
  destruct (cmd =? PMEM_GET_FREE_SPACE).
  { apply wp_bind. eapply wp_the; [apply Ho|]. apply wp_bind.
    destruct (po_device _ _ _ Hok id dev (op_device _ _ _ _ _ _ _ Ho)) as [Ei Hs].
    destruct (@serves_space _ (allocs id) _ _ Hs) as [fs E]. rewrite Ei. eapply wp_lift; [exact E|]. apply Hret. }
  destruct (cmd =? PMEM_ALLOCATE).
  { apply keeps_bind_ret. by eapply keeps_ioctl_allocate. }
  destruct (cmd =? PMEM_ALLOCATE_ALIGNED).
  { pose proof (word_at_range m arg 8 0 Hm) as H0. pose proof (word_at_range m arg 8 1 Hm) as H1.
    destruct (copy_from_user m arg 8) as [bs n]. destruct (negb _); [apply Hret|]. apply keeps_bind_ret.
    by eapply keeps_ioctl_allocate_aligned. }
  destruct (Z.eqb_spec cmd PMEM_CONNECT); [done|].
  destruct (_ || _); [|apply Hret].
  destruct (copy_from_user m arg 12) as [bs n']. destruct (negb _); [apply Hret|]. apply keeps_bind_ret. by eapply keeps_cache_maint.
Qed.

(** ** Other drivers *)

Lemma wp_start_vaddr D s live f id d x y dev n Q :
  ok s live -> opened s f id d x y dev -> live id !! index y = Some n -> (forall a, Q s a) ->
  wp D (pmem_start_vaddr id (index y)) s Q.
Proof.
  intros Hok Ho Hl HQ. unfold pmem_start_vaddr. apply wp_bind. eapply wp_the; [apply Ho|].
  destruct (po_device _ _ _ Hok id dev (op_device _ _ _ _ _ _ _ Ho)) as [Ei Hs].
  destruct (d_alloc dev) eqn:E; [..|exfalso; by apply (@serves_kind _ (allocs id) _ _ Hs st)];
    apply wp_bind; (eapply wp_dev_start; [done|done|done|done|]); intros; apply wp_ret; apply HQ.
Qed.

Lemma keeps_get_file e s live fd : ok s live -> keeps (get_pmem_file e fd) s.
Proof.
  intros Hok. unfold keeps, get_pmem_file. apply wp_bind, wp_get. destruct (fds s !! _) as [f|] eqn:E; [|by apply (pmem_keeps_same _ _ live)].
  pose proof (po_fd _ _ _ Hok _ _ E) as Hf. destruct (ok_file s live f Hok Hf) as (id & d & x & y & dev & Ho & Hp & Hl).
  apply wp_bind. apply (wp_mono _ _ _ (fun s' _ => s' = s)).
  { unfold get_pmem_addr. apply wp_bind, (wp_is_pmem_file Ho), wp_bind, (wp_data_of Ho), wp_bind.
    eapply wp_down_leaked; [apply Ho|]. apply wp_bind, (wp_has_allocation Ho).
    destruct (Z.eqb_spec (index y) (-1)) as [Ei|Ei]; cbn [negb]; [done|]. destruct Hl as [?|[n Hl]]; [done|].
    apply wp_bind, (wp_get_id Ho), wp_bind. eapply wp_dev_start; [done|done|done|done|]. intros start _ _ _ _ _.
    apply wp_bind. eapply (wp_dev_len _ _ s); [done|done|done|done|]. apply wp_bind. by eapply wp_start_vaddr. }
  intros ? [[[start vstart] len]|] ->; [|by apply (pmem_keeps_same _ _ live)]. apply wp_bind, wp_modify, wp_ret. exists live.
  apply (pmem_ok_same _ s); try done; [apply Hok|]. intros g [->|Hg]%elem_of_cons; [done|by apply (po_driver _ _ _ Hok)].
Qed.

Lemma remove_one_in f g l : g ∈ remove_one f l -> g ∈ l.
Proof.
  induction l as [|h l IH]; [done|]. cbn. case_if; [by right|]. intros [->|H]%elem_of_cons; [left|right; auto].
Qed.

Lemma keeps_put_file e s live f : ok s live -> f ∈ drivers s -> keeps (put_pmem_file e f) s.
Proof.
  intros Hok Hd. pose proof (po_driver _ _ _ Hok f Hd) as Hf. destruct (ok_file s live f Hok Hf) as (id & d & x & y & dev & Ho & _).
  unfold keeps, put_pmem_file. apply wp_bind, (wp_is_pmem_file Ho). cbn [negb]. apply wp_bind, wp_modify.
  assert (ok (set_drivers (remove_one f) s) live) as Hok'.
  { apply (pmem_ok_same _ s); try done; [apply Hok|]. intros g Hg. apply (po_driver _ _ _ Hok). exact (remove_one_in f g _ Hg). }
  eapply wp_fput; [exact Hok'|done|done|]. intros s' live' H. by exists live'.
Qed.

Lemma held_file s live f : ok s live -> held s f = true -> is_Some (files s !! f).
Proof.
  intros Hok. unfold held. rewrite !orb_true_iff, !bool_decide_eq_true. intros [[(k & g & Hk & ->)|(v & w & Hv & <-)]|H].
  - by eapply (po_fd _ _ _ Hok).
  - destruct (po_vma _ _ _ Hok v w Hv) as (_ & _ & id & d & x & y & dev & n & Ho & _). eexists. apply Ho.
  - by apply (po_driver _ _ _ Hok).
Qed.

Lemma keeps_cache_flush D e s live a b c d :
  ok s live -> wp D (cache_flush e a b c d) s (fun s' _ => exists live, ok s' live).
Proof.
  intros Hok. unfold cache_flush. apply wp_bind, wp_modify.
  destruct (outer_cache e); [apply wp_modify|apply wp_ret]; exists live; auto using pmem_ok_cache.
Qed.

Lemma keeps_flush e s live f offs len : ok s live -> is_Some (files s !! f) -> keeps (flush_pmem_file e f offs len) s.
Proof.
  intros Hok Hf. destruct (ok_file s live f Hok Hf) as (id & d & x & y & dev & Ho & Hp & Hl).
  unfold keeps, flush_pmem_file. apply wp_bind, (wp_is_pmem_file Ho), wp_bind, (wp_get_id Ho), wp_bind. cbn [negb].
  eapply wp_the; [apply Ho|]. destruct (negb _); [by apply (pmem_keeps_same _ _ live)|]. apply wp_bind, (wp_data_of Ho), wp_bind.
  eapply wp_down_leaked; [apply Ho|]. apply wp_bind, (wp_has_allocation Ho).
  destruct (Z.eqb_spec (index y) (-1)) as [E|E]; cbn [negb]; [by apply (pmem_keeps_same _ _ live)|]. destruct Hl as [?|[n Hl]]; [done|].
  apply wp_bind. eapply wp_start_vaddr; [done|done|done|]. intros vaddr.
  destruct (po_device _ _ _ Hok id dev (op_device _ _ _ _ _ _ _ Ho)) as [Ei Hs].
  rewrite (has_plain y PMEM_FLAGS_CONNECTED Hp) by auto. cbn [negb].
  destruct (d_alloc dev) eqn:Ea; [..|exfalso; by apply (@serves_kind _ (allocs id) _ _ Hs st)];
    apply wp_bind; (eapply (wp_dev_len _ _ s); [done|done|done|done|]); by eapply keeps_cache_flush.
Qed.

(** ** Every call *)

Lemma pmem_keeps_call e s live c : ok s live -> call_ok e s c -> no_connect c -> keeps (run_call e c) s.
Proof.
  intros Hok Hc Hn. pose proof Hc as (Hwin & _ & Hc'). destruct c; cbn [run_call]; try apply keeps_ignore.
  - by eapply pmem_keeps_open.
  - by eapply keeps_close.
  - by eapply keeps_pass.
  - by eapply keeps_mmap.
  - by eapply keeps_munmap.
  - by eapply keeps_dup.
  - destruct Hc' as [Harg Hb]. unfold sys_ioctl. apply wp_bind, wp_get.
    destruct (fds s !! _) as [f|] eqn:E; [|by apply (pmem_keeps_same _ _ live)].
    pose proof (po_fd _ _ _ Hok _ _ E) as Hf. by eapply pmem_keeps_ioctl.
  - by eapply keeps_get_file.
  - by eapply keeps_put_file.
  - eapply keeps_flush; [done|]. by eapply held_file.
Qed.

Lemma ok_reach s s' live : ok s live -> rtc (pmem_step no_connect) s s' -> exists live', ok s' live'.
Proof.
  intros Hok H. revert live Hok. induction H as [|s s1 s' Hst _ IH]; intros live Hok; [by exists live|]. destruct Hst as [e c s s1 Hc Hn Hrun].
  pose proof (pmem_keeps_call e s live c Hok Hc Hn) as Hk. unfold keeps, wp in Hk. rewrite Hrun in Hk.
  destruct Hk as [live' Hok']. by eapply IH.
Qed.

(** The start: devices whose allocators have handed out nothing. *)
Lemma ok_initial devs mms :
  (forall id dev, devs !! id = Some dev -> d_info dev = infos id /\ @serves _ (allocs id) (d_alloc dev) ∅ /\ data_list dev = []) ->
  ok (initial devs mms) (fun _ => ∅).
Proof.
  intros H. assert (forall f id d x y dev, ~ opened (initial devs mms) f id d x y dev) as Hno
    by (intros f id d x y dev [F _ _ _ _ _ _]; done).
  split; cbn; try done.
  - intros id dev Hid. by destruct (H id dev Hid) as (? & ? & _).
  - intros id dev d Hid Hin. destruct (H id dev Hid) as (_ & _ & E). rewrite E in Hin. by apply not_elem_of_nil in Hin.
  - intros f [x Hx]. done.
  - intros f f' id d d' x x' y y' dev Ho. by apply Hno in Ho.
  - intros id r [n Hr]. by rewrite lookup_empty in Hr.
  - intros f Hf. by apply not_elem_of_nil in Hf.
Qed.

End calls.
