(* ===== verification/PmemRevoke.v ===== *)
(** * Pmem: revoking connected files

    When a master that has been mapped is released, the files that are
    connected to it and mapped lose their regions: [pmem_revoke] puts the
    garbage page in place of the memory. *)

From stdpp Require Import base numbers list gmap countable functions.
From S2P Require Import Prelude Pmem PmemApi PmemVm PmemFile PmemSystem PmemIsolation PmemMapping.

Open Scope Z_scope.
Open Scope pmem_scope.

(** A region inside of the mapping. *)
Definition fits (w : vm_area) (r : pmem_region) : Prop :=
  (PAGE_SIZE | offset r) /\ (PAGE_SIZE | rlen r) /\ 0 <= offset r /\ 0 <= rlen r /\
  vm_start w + offset r + rlen r <= vm_end w.

(** The pages of a region. *)
Definition in_region (w : vm_area) (r : pmem_region) (a i : Z) : bool :=
  (a =? vm_mm w) && (page (vm_start w + offset r) <=? i) && (i <? page (vm_start w + offset r) + page (rlen r)).

(** The pages that [P] tells show nothing but the garbage page; the others are
    as they were. *)
Definition taken (P : Z -> Z -> bool) (g : Z) (m m' : gmap (Z * Z) Z) : Prop :=
  forall a i, if P a i then m' !! (a, i) = None \/ m' !! (a, i) = Some g else m' !! (a, i) = m !! (a, i).

Lemma taken_trans P Q R g m1 m2 m3 :
  taken P g m1 m2 -> taken Q g m2 m3 -> (forall a i, R a i = P a i || Q a i) -> taken R g m1 m3.
Proof.
  intros H1 H2 E a i. specialize (H1 a i). specialize (H2 a i). rewrite E. destruct (P a i), (Q a i); cbn; intuition congruence.
Qed.

Lemma taken_none P g m : (forall a i, P a i = false) -> taken P g m m.
Proof. intros H a i. by rewrite H. Qed.

Lemma in_region_same w w' r a i : vm_mm w' = vm_mm w -> vm_start w' = vm_start w -> in_region w' r a i = in_region w r a i.
Proof. unfold in_region. by intros -> ->. Qed.

Lemma fits_pages w r :
  mapping_ok w -> fits w r -> exists p n, vm_start w + offset r = p * PAGE_SIZE /\ rlen r = n * PAGE_SIZE /\ 0 <= n /\
    0 <= p /\ vm_start w <= p * PAGE_SIZE /\ (p + n) * PAGE_SIZE <= vm_end w /\
    forall a i, in_region w r a i = (a =? vm_mm w) && (p <=? i) && (i <? p + n).
Proof.
  intros (H1 & H2 & [ks Es] & _) ([ko Eo] & [kl El] & H3 & H4 & H5). exists (ks + ko), kl.
  unfold in_region. rewrite Es, Eo, El, <- Z.mul_add_distr_r, !page_mul. unfold PAGE_SIZE in *. split_and!; try lia; done.
Qed.

(** ** One region *)

(** Garbage in some of the empty pages from the page [i] behind [offs] on. *)
Definition garbage_in (w : vm_area) (offs g i n : Z) (s s' : pmem) : Prop :=
  exists m, s' = set_ptes (fun _ => m) s /\
    forall a j, m !! (a, j) = ptes s !! (a, j) \/ ptes s !! (a, j) = None /\ m !! (a, j) = Some g /\
      exists k, i <= k < i + n /\ a = vm_mm w /\ j = page (u32 (vm_start w + offs + k * PAGE_SIZE)).

Lemma garbage_in_refl w offs g i n s : garbage_in w offs g i n s s.
Proof. exists (ptes s). split; [by destruct s|]. auto. Qed.

Lemma garbage_loop_spec D pt n : forall i s v w offs g,
  vmas s !! v = Some w -> Z.testbit (vm_flags w) 28 = false -> vm_flags w = garbage_flags (vm_flags w) ->
  wp D (garbage_loop pt n i v offs g) s (fun s' _ => garbage_in w offs g i (Z.of_nat n) s s').
Proof.
  induction n as [|n IH]; intros i s v w offs g Hv Hb Hf; cbn [garbage_loop].
  { apply wp_ret, garbage_in_refl. }
  apply wp_bind. eapply wp_the; [done|]. apply wp_bind. set (addr := u32 _). unfold vm_insert_pfn.
  apply wp_bind. eapply wp_the; [done|]. destruct (garbage_flags_insert w Hb) as (F1 & F2 & F3 & _). rewrite <- Hf in F1, F2, F3.
  apply wp_bind, wp_BUG_ON; [by rewrite F1|]. apply wp_bind, wp_BUG_ON; [done|]. apply wp_bind, wp_BUG_ON; [done|].
  destruct ((addr <? vm_start w) || (vm_end w <=? addr)); [apply wp_ret, garbage_in_refl|].
  destruct (negb (pt (page addr))); [apply wp_ret, garbage_in_refl|]. apply wp_bind, wp_get.
  destruct (ptes s !! (vm_mm w, page addr)) eqn:Ep; [apply wp_ret, garbage_in_refl|]. apply wp_bind, wp_modify, wp_ret.
  cbn [Z.eqb negb]. eapply wp_mono; [by eapply (IH _ _ v w)|]. intros s' _ (m & -> & Hm). exists m. split; [done|].
  intros a j. destruct (Hm a j) as [E|(E1 & E2 & k & Hk & -> & ->)]; cbn [ptes set_ptes] in *.
  - destruct (decide ((a, j) = (vm_mm w, page addr))) as [[= -> ->]|Hne]; [|by left; rewrite E, lookup_insert_ne by congruence].
    right. rewrite E, lookup_insert_eq. split_and!; [done|done|]. exists i. split_and!; [lia|lia|done|done].
  - right. apply lookup_insert_None in E1 as [E1 _]. split; [done|]. split; [done|]. exists k. split_and!; [lia|lia|done|done].
Qed.

Lemma garbage_flags_idem x : garbage_flags (garbage_flags x) = garbage_flags x.
Proof. unfold garbage_flags. by rewrite <- Z.lor_assoc. Qed.

(** The mapping after the driver has set its flags. *)
Definition garbaged (w : vm_area) : vm_area := set_vm_flags (garbage_flags (vm_flags w)) w.

Lemma garbaged_ok w : mapping_ok w -> mapping_ok (garbaged w).
Proof. intros (H1 & H2 & H3 & H4 & Hb). destruct (garbage_flags_insert w Hb) as (_ & _ & _ & H). exact (conj H1 (conj H2 (conj H3 (conj H4 H)))). Qed.

Lemma garbaged_idem w : garbaged (garbaged w) = garbaged w.
Proof. unfold garbaged, set_vm_flags. cbn. by rewrite garbage_flags_idem. Qed.

Lemma unmap_pfn_range_spec D pt s id dev v w r :
  devices s !! id = Some dev -> vmas s !! v = Some w -> mapping_ok w -> fits w r ->
  wp D (pmem_unmap_pfn_range pt id v (offset r) (rlen r)) s (fun s' _ => exists m,
    s' = set_vmas <[v := garbaged w]> (set_ptes (fun _ => m) s) /\ taken (in_region w r) (d_garbage_pfn dev) (ptes s) m).
Proof.
  intros Hdev Hv Hw Hr. destruct (fits_pages w r Hw Hr) as (p & n & Ep & En & Hn & Hp & Hlo & Hhi & Ein).
  pose proof Hw as (W1 & W2 & _ & _ & Hb). pose proof Hr as (_ & Hal & _). unfold pmem_unmap_pfn_range.
  apply wp_bind, wp_BUG_ON; [by rewrite (proj2 (page_aligned (rlen r)) Hal)|].
  apply wp_bind. eapply wp_the; [done|]. apply wp_bind. unfold zap_page_range. apply wp_bind. eapply wp_the; [done|].
  apply wp_modify. rewrite Ep, En. rewrite (u32_small (p * PAGE_SIZE)) by (unfold PAGE_SIZE in *; lia).
  rewrite <- Z.mul_add_distr_r, (u32_small ((p + n) * PAGE_SIZE)) by (unfold PAGE_SIZE in *; lia).
  match goal with |- context [set_ptes (filter ?P) s] => set (zap := P) end.
  apply wp_bind. unfold pmem_map_garbage. apply wp_bind. eapply wp_the; [done|]. apply wp_bind. eapply wp_mod_vma; [done|].
  rewrite page_mul. eapply wp_mono.
  { apply (garbage_loop_spec D pt _ 0 _ v (garbaged w)); [apply lookup_insert_eq|by apply garbaged_ok|].
    cbn. by rewrite garbage_flags_idem. }
  intros s' _ (m & -> & Hm). apply wp_ret. exists m. split; [done|]. intros a i. rewrite Ein. cbn [ptes set_ptes set_vmas] in Hm.
  assert (forall x, filter zap (ptes s) !! (a, i) = Some x <-> ptes s !! (a, i) = Some x /\
    zapped s w (p * PAGE_SIZE) ((p + n) * PAGE_SIZE) a i = false) as Hz by (intros x; apply map_lookup_filter_Some).
  assert ((a =? vm_mm w) && (p <=? i) && (i <? p + n) = false -> filter zap (ptes s) !! (a, i) = ptes s !! (a, i)) as Hout.
  { intros E. apply option_eq. intros x. rewrite Hz. split; [tauto|]. intros Hx. split; [done|]. unfold zapped.
    apply andb_false_iff. left. rewrite <- E. unfold PAGE_SIZE. f_equal; [f_equal|].
    - destruct (Z.leb_spec (p * 4096) (i * 4096)), (Z.leb_spec p i); lia.
    - destruct (Z.ltb_spec (i * 4096) ((p + n) * 4096)), (Z.ltb_spec i (p + n)); lia. }
  destruct (_ && _ && _) eqn:E.
  - destruct (Hm a i) as [->|(_ & -> & _)]; [left|by right]. apply eq_None_not_Some. intros [x Hx]. apply Hz in Hx as [_ Hx].
    apply not_true_iff_false in Hx. apply Hx. unbool. subst a. unfold zapped. rewrite Z.eqb_refl. cbn [andb].
    rewrite !andb_true_iff, Z.leb_le, Z.ltb_lt, bool_decide_eq_true. unfold PAGE_SIZE in *. split_and!; [lia|lia|].
    exists v, w. split; [done|]. lia.
  - destruct (Hm a i) as [->|(_ & _ & k & Hk & -> & ->)]; [by apply Hout|exfalso]. revert E. cbn [vm_start garbaged set_vm_flags vm_mm].
    rewrite Ep, <- Z.mul_add_distr_r, u32_small by (unfold PAGE_SIZE in *; lia). rewrite page_mul, Z.eqb_refl. cbn [andb].
    rewrite andb_false_iff, Z.leb_gt, Z.ltb_ge. lia.
Qed.

(** ** One file *)

(** What a revocation changes. *)
Definition revoked (s : pmem) (d : Z) (y' : pmem_data) (v : Z) (w' : vm_area) (m : gmap (Z * Z) Z) : pmem :=
  set_datas <[d := y']> (set_vmas <[v := w']> (set_ptes (fun _ => m) s)).

Lemma revoked_again s d y1 v w1 m1 y2 w2 m2 : revoked (revoked s d y1 v w1 m1) d y2 v w2 m2 = revoked s d y2 v w2 m2.
Proof. unfold revoked, set_datas, set_vmas, set_ptes. cbn. by rewrite !insert_insert_eq. Qed.

Lemma revoked_id s d y v w : datas s !! d = Some y -> vmas s !! v = Some w -> revoked s d y v w (ptes s) = s.
Proof. intros Hd Hv. unfold revoked, set_datas, set_vmas, set_ptes. cbn. rewrite !insert_id by done. by destruct s. Qed.

Definition in_regions (w : vm_area) (l : list pmem_region) (a i : Z) : bool := existsb (fun r => in_region w r a i) l.

Lemma revoke_loop_spec D pt id dev v d l : forall s w y,
  devices s !! id = Some dev -> vmas s !! v = Some w -> mapping_ok w -> Forall (fits w) l -> datas s !! d = Some y ->
  region_list y = l ->
  wp D (revoke_loop pt id v d l) s (fun s' _ => exists w' m, s' = revoked s d (set_regions [] y) v w' m /\
    (w' = w \/ w' = garbaged w) /\ taken (in_regions w l) (d_garbage_pfn dev) (ptes s) m).
Proof.
  induction l as [|r l IH]; intros s w y Hdev Hv Hw Hf Hd Hl; cbn [revoke_loop].
  { apply wp_ret. exists w, (ptes s). split; [|split; [by left|by apply taken_none]].
    replace (set_regions [] y) with y by (destruct y; cbn in *; by subst). by rewrite revoked_id. }
  apply Forall_cons_1 in Hf as [Hr Hf]. apply wp_bind. eapply wp_mono; [by eapply unmap_pfn_range_spec|].
  intros s1 _ (m1 & -> & Ht1). apply wp_bind. eapply wp_mod_data; [done|].
  change (set_datas <[d := set_regions l y]> (set_vmas <[v := garbaged w]> (set_ptes (fun _ => m1) s)))
    with (revoked s d (set_regions l y) v (garbaged w) m1).
  eapply wp_mono.
  { apply (IH _ (garbaged w) (set_regions l y)); [done|apply lookup_insert_eq|by apply garbaged_ok|done|apply lookup_insert_eq|done]. }
  intros s' _ (w' & m & -> & Hw' & Ht2). exists (garbaged w), m. rewrite revoked_again. split.
  - f_equal. rewrite garbaged_idem in Hw'. by destruct Hw'.
  - split; [by right|]. by eapply taken_trans.
Qed.

(** A file that is connected to the master [f] and mapped. *)
Definition submap_of (f : Z) (y : pmem_data) : bool := PMEM_IS_SUBMAP y && bool_decide (master_file y = Some f).

(** Its process and its mapping are there, and its regions lie in the mapping. *)
Definition mapped_sub (s : pmem) (y : pmem_data) (v : Z) (w : vm_area) : Prop :=
  (exists t, task y = Some t /\ is_Some (task_mm s !! t)) /\ vma y = Some v /\ vmas s !! v = Some w /\ mapping_ok w /\
  Forall (fits w) (region_list y).

Lemma revoke_spec D e s f x id dev d y v w :
  windows e = [] -> files s !! f = Some x -> (f_rdev x).2 = id -> devices s !! id = Some dev ->
  datas s !! d = Some y -> sem y = false -> PMEM_IS_SUBMAP y = true -> mapped_sub s y v w ->
  wp D (pmem_revoke e f d) s (fun s' _ => exists w' m,
    s' = revoked s d (set_regions [] (set_master (master_fd y) None y)) v w' m /\
    (w' = w \/ w' = garbaged w) /\ taken (in_regions w (region_list y)) (d_garbage_pfn dev) (ptes s) m).
Proof.
  intros Hwin Hx Hid Hdev Hd Hsem Hsub ((t & Ht & mm & Hmm) & Hvma & Hv & Hw & Hf).
  unfold pmem_revoke, get_id. rewrite Hwin. apply wp_bind, wp_bind. eapply wp_the; [done|]. apply wp_ret. rewrite Hid.
  apply wp_bind. eapply wp_mod_data; [done|]. set (y0 := set_master _ _ y). set (s0 := set_datas _ s).
  assert (datas s0 !! d = Some y0) as Hd0 by apply lookup_insert_eq.
  assert (PMEM_IS_SUBMAP y0 = true) as Hsub0 by done. cbn [pmem_lock_data_and_mm].
  assert (forall Q, Q s0 y0 -> wp D (down d) s0 Q) as Hdown by (intros Q; intros HQ; eapply wp_down; [exact Hd0| |exact HQ]; unfold y0; cbn; congruence).
  apply wp_bind, wp_bind, Hdown, wp_bind, wp_get, wp_bind. rewrite Hsub0. change (task y0) with (task y). rewrite Ht.
  apply wp_ret. change (task_mm s0) with (task_mm s). rewrite Hmm, bool_decide_eq_false_2 by done. cbn [andb].
  apply wp_bind, wp_ret, wp_bind, Hdown. rewrite Hsub0. cbn [andb negb].
  unfold PMEM_IS_SUBMAP in Hsub0. apply andb_true_iff in Hsub0 as [_ Hun%negb_true_iff]. rewrite Hun. cbn [andb].
  apply wp_ret. cbn [fst Z.eqb negb]. apply wp_bind. eapply wp_the; [done|]. change (vma y0) with (vma y). rewrite Hvma.
  eapply wp_mono; [by eapply (revoke_loop_spec D _ id dev v d _ s0 w y0)|].
  intros s' _ (w' & m & -> & Hw' & Htk). exists w', m. split; [|done].
  unfold revoked, s0, set_datas, set_vmas, set_ptes. cbn. by rewrite insert_insert_eq.
Qed.

(** ** All files that are connected to a master *)

Definition revocable (s : pmem) (f d : Z) : Prop :=
  exists y, datas s !! d = Some y /\ sem y = false /\ (submap_of f y = true -> exists v w, mapped_sub s y v w).

(** The pages of the regions of these files. *)
Definition revoked_page (s : pmem) (f : Z) (l : list Z) (a i : Z) : bool :=
  existsb (fun d => match datas s !! d with
                    | Some y => submap_of f y && from_option (fun w => in_regions w (region_list y) a i) false
                                                   (vma y ≫= fun v => vmas s !! v)
                    | None => false
                    end) l.

Lemma revoked_vma s d y' v w w' m u :
  vmas s !! v = Some w -> w' = w \/ w' = garbaged w ->
  (forall l a i, from_option (fun x => in_regions x l a i) false (vmas (revoked s d y' v w' m) !! u) =
                 from_option (fun x => in_regions x l a i) false (vmas s !! u)) /\
  (forall x, vmas s !! u = Some x -> mapping_ok x ->
     exists x', vmas (revoked s d y' v w' m) !! u = Some x' /\ mapping_ok x' /\ forall r, fits x r -> fits x' r).
Proof.
  intros Hv Hw'. cbn. destruct (decide (u = v)) as [->|Hne].
  - rewrite lookup_insert_eq, Hv. split.
    + intros l a i. cbn. destruct Hw' as [->| ->]; done.
    + intros x [= <-] Hx. exists w'. split; [done|]. destruct Hw' as [->| ->]; [done|]. split; [by apply garbaged_ok|done].
  - rewrite lookup_insert_ne by done. split; [done|]. intros x Hx Hok. by exists x.
Qed.

Lemma revocable_step s f d d' y' v w w' m :
  vmas s !! v = Some w -> w' = w \/ w' = garbaged w -> d' <> d -> revocable s f d' -> revocable (revoked s d y' v w' m) f d'.
Proof.
  intros Hv Hw' Hne (y & Hy & Hsem & Hsub). exists y. split; [cbn; by rewrite lookup_insert_ne|]. split; [done|].
  intros Hs. destruct (Hsub Hs) as (v1 & w1 & Ht & Hvma & Hv1 & Hok & Hf). exists v1.
  destruct (proj2 (revoked_vma s d y' v w w' m v1 Hv Hw') w1 Hv1 Hok) as (x' & Hx' & Hok' & Hfit).
  exists x'. split; [done|]. split; [done|]. split; [done|]. split; [done|]. eapply Forall_impl; [exact Hfit|exact Hf].
Qed.

Lemma revoked_page_step s f d y' v w w' m l a i :
  vmas s !! v = Some w -> w' = w \/ w' = garbaged w -> d ∉ l ->
  revoked_page (revoked s d y' v w' m) f l a i = revoked_page s f l a i.
Proof.
  intros Hv Hw'. induction l as [|e l IH]; [done|]. intros [Hne Hin]%not_elem_of_cons. cbn [revoked_page existsb].
  f_equal; [|by apply IH]. cbn [datas revoked set_datas]. rewrite lookup_insert_ne by done.
  change (datas (set_vmas _ _)) with (datas s). destruct (datas s !! e) as [y|]; [|done]. f_equal.
  destruct (vma y) as [u|]; cbn [mbind option_bind]; [|done]. apply (revoked_vma s d y' v w w' m u Hv Hw').
Qed.

Lemma revoke_connected_spec D e f x id dev l : forall s,
  windows e = [] -> files s !! f = Some x -> (f_rdev x).2 = id -> devices s !! id = Some dev -> NoDup l ->
  (forall d, d ∈ l -> revocable s f d) ->
  wp D (revoke_connected e f l) s (fun s' _ => taken (revoked_page s f l) (d_garbage_pfn dev) (ptes s) (ptes s') /\
    files s' = files s /\ devices s' = devices s /\ (forall d, d ∉ l -> datas s' !! d = datas s !! d) /\
    forall d y, d ∈ l -> datas s !! d = Some y -> exists y', datas s' !! d = Some y' /\ index y' = index y /\
      flags y' = flags y /\ sem y' = sem y /\ submap_of f y' = false).
Proof.
  induction l as [|d l IH]; intros s Hwin Hx Hid Hdev Hnd Hrev; cbn [revoke_connected].
  { apply wp_ret. split; [by apply taken_none|]. do 3 (split; [done|]). intros d y Hd. by apply not_elem_of_nil in Hd. }
  inversion_clear Hnd as [|? ? Hnin Hnd0]; rename Hnd0 into Hnd. destruct (Hrev d) as (y & Hy & Hsem & Hsub); [left|].
  apply wp_bind. eapply wp_down; [done|by rewrite Hsem|]. apply wp_bind. fold (submap_of f y).
  destruct (submap_of f y) eqn:Es.
  - destruct (Hsub eq_refl) as (v & w & Hm). pose proof Hm as (_ & Hvma & Hv & _).
    pose proof (proj1 (andb_prop _ _ Es)) as Hsm. eapply wp_mono; [by eapply revoke_spec|].
    intros s1 _ (w' & m & -> & Hw' & Ht). set (y' := set_regions _ _). eapply wp_mono.
    { apply IH; [done|done|done|done|done|]. intros d' Hd'. eapply revocable_step; [done|done|set_solver|apply Hrev; by right]. }
    intros s' _ (Ht' & E1 & E2 & E3 & E4). split; [|split; [done|]; split; [done|]; split].
    + eapply taken_trans; [exact Ht|exact Ht'|]. intros a i. rewrite (revoked_page_step s f d y' v w w' m l a i Hv Hw' Hnin).
      cbn [revoked_page existsb]. rewrite Hy, Es, Hvma. cbn [mbind option_bind]. by rewrite Hv.
    + intros d' [Hne Hd']%not_elem_of_cons. rewrite E3 by done. cbn. by rewrite lookup_insert_ne.
    + intros d' y1 [->|Hd']%elem_of_cons Hy1.
      2: { apply E4; [done|]. cbn. rewrite lookup_insert_ne by set_solver. done. }
      assert (y1 = y) as -> by congruence. exists y'. rewrite E3 by done. split; [apply lookup_insert_eq|].
      do 3 (split; [done|]). unfold submap_of. rewrite (bool_decide_eq_false_2 (master_file y' = Some f)) by done. apply andb_false_r.
  - apply wp_ret. eapply wp_mono; [apply IH; [done|done|done|done|done|intros d' Hd'; apply Hrev; by right]|].
    intros s' _ (Ht' & E1 & E2 & E3 & E4). split; [|split; [done|]; split; [done|]; split].
    + intros a i. specialize (Ht' a i). cbn [revoked_page existsb]. by rewrite Hy, Es.
    + intros d' [Hne Hd']%not_elem_of_cons. by apply E3.
    + intros d' y1 [->|Hd']%elem_of_cons Hy1; [|by apply E4]. assert (y1 = y) as -> by congruence. exists y. by rewrite E3.
Qed.
