(* ===== verification/PmemFileProps.v ===== *)
(** * Pmem: what the file operations guarantee

    Without [PMEM_CONNECT], processes see the memory of their own files only,
    no call fails in the kernel and every allocation belongs to an open file;
    [pmem_setup] provides what this starts from.  Revoking a connected file
    takes its regions away.  The last part runs the code where it does not do
    this. *)

From stdpp Require Import base numbers list gmap countable.
From S2P Require Import Prelude Pmem PmemBitmap PmemTable PmemBuddy PmemProps PmemVm PmemFile PmemSystem PmemApi PmemIsolation PmemMapping PmemCalls PmemRevoke.

Open Scope Z_scope.
Open Scope pmem_scope.

(** The page frame lies in the allocation [idx] of the device. *)
Definition in_alloc (dev : device) (idx pfn : Z) : Prop :=
  idx <> -1 /\ exists start n, start_addr (d_info dev) (d_alloc dev) idx = Some start /\
    alloc_len (d_info dev) (d_alloc dev) idx = Some n /\
    start <= pfn * PAGE_SIZE /\ (pfn + 1) * PAGE_SIZE <= start + n.

Section isolated.
Context (infos : Z -> pmem_info) (allocs : forall id, PmemAllocator (infos id)).

(** Devices whose allocators have handed out nothing. *)
Definition fresh_devices (devs : gmap Z device) : Prop :=
  forall id dev, devs !! id = Some dev ->
    d_info dev = infos id /\ @serves _ (allocs id) (d_alloc dev) ∅ /\ data_list dev = [].

Definition reachable (devs : gmap Z device) (mms : gmap Z Z) : pmem -> Prop :=
  rtc (pmem_step no_connect) (initial devs mms).

Lemma reachable_ok devs mms s : fresh_devices devs -> reachable devs mms s -> exists live, pmem_ok infos s live.
Proof. intros Hd. by apply (ok_reach infos _ _ (fun _ => ∅)), ok_initial. Qed.

(** What an entry shows is the garbage page or memory of the file. *)
Lemma shows_in_alloc s live v w id d x y dev mm pg pfn :
  pmem_ok infos s live -> vmas s !! v = Some w -> in_vma w mm pg = true -> opened s (vm_file w) id d x y dev ->
  shows w dev y pg pfn -> pfn = d_garbage_pfn dev \/ in_alloc dev (index y) pfn.
Proof.
  intros Hok Hv Hin Ho [?|(start & Hs & ->)]; [by left|right].
  destruct (po_vma _ _ _ Hok v w Hv) as (([Hw0 Hw1] & Hw2 & Hw3 & Hw4 & _) & _ & id' & d' & x' & y' & dev' & n & Ho' & Hl & Hn).
  destruct (opened_fun _ _ _ _ _ _ _ _ _ _ _ _ Ho Ho') as (-> & -> & -> & -> & ->).
  destruct (po_device _ _ _ Hok id dev (op_device _ _ _ _ _ _ _ Ho)) as [Ei Hsv].
  split; [intros E; rewrite E, (po_index _ _ _ Hok) in Hl; done|]. rewrite Ei in *.
  destruct (@serves_place _ (allocs id) _ _ _ _ Hsv Hl) as (start' & E & El & Ha & _). exists start, n.
  assert (start' = start) as -> by congruence. split; [done|]. split; [done|].
  apply aligned_page in Hw3 as (a & Ea & ->). apply aligned_page in Ha as (b & Eb & ->). unfold in_vma in Hin. rewrite !andb_true_iff in Hin.
  destruct Hin as [[_ H1%Z.leb_le] H2%Z.ltb_lt]. destruct Hw4 as [k Hk]. unfold PAGE_SIZE in *. nia.
Qed.

(** Memory of two files is different memory. *)
Lemma in_alloc_apart s live f f' id d d' x x' y y' dev pfn :
  pmem_ok infos s live -> opened s f id d x y dev -> opened s f' id d' x' y' dev ->
  in_alloc dev (index y) pfn -> in_alloc dev (index y') pfn -> f = f'.
Proof.
  intros Hok Ho Ho' (Hi & start & n & Hs & Hn & H1 & H2) (Hi' & start' & n' & Hs' & Hn' & H1' & H2').
  destruct (decide (index y = index y')) as [E|E]; [by eapply (po_alone _ _ _ Hok)|exfalso].
  destruct (po_device _ _ _ Hok id dev (op_device _ _ _ _ _ _ _ Ho)) as [Ei Hsv]. rewrite Ei in *.
  assert (forall g e z t, opened s g id e z t dev -> index t <> -1 -> is_Some (live id !! index t)) as Hlive.
  { intros g e z t Hg Ht. destruct (po_file _ _ _ Hok g) as (id1 & d1 & x1 & y1 & dev1 & Ho1 & _ & Hl); [eexists; apply Hg|].
    destruct (opened_fun _ _ _ _ _ _ _ _ _ _ _ _ Hg Ho1) as (-> & -> & -> & -> & ->). by destruct Hl. }
  destruct (Hlive _ _ _ _ Ho Hi) as [m Hm], (Hlive _ _ _ _ Ho' Hi') as [m' Hm'].
  destruct (@serves_place _ (allocs id) _ _ _ _ Hsv Hm) as (a & Ea & Eb & _).
  destruct (@serves_place _ (allocs id) _ _ _ _ Hsv Hm') as (a' & Ea' & Eb' & _).
  assert (m = n) as -> by congruence. assert (m' = n') as -> by congruence.
  destruct (@serves_apart _ (allocs id) _ _ _ _ _ _ _ _ Hsv Hm Hm' E Hs Hs'); unfold PAGE_SIZE in *; lia.
Qed.

(** The regions of two devices have no byte in common. *)
Definition regions_apart (p p' : pmem_info) : Prop :=
  pm_base p + pm_size p <= pm_base p' \/ pm_base p' + pm_size p' <= pm_base p.

(** An allocation lies in the region of its device. *)
Lemma in_alloc_region s live f id d x y dev pfn :
  pmem_ok infos s live -> opened s f id d x y dev -> in_alloc dev (index y) pfn ->
  pm_base (d_info dev) <= pfn * PAGE_SIZE /\ (pfn + 1) * PAGE_SIZE <= pm_base (d_info dev) + pm_size (d_info dev).
Proof.
  intros Hok Ho (Hi & start & n & Hs & Hn & H1 & H2).
  destruct (po_device _ _ _ Hok id dev (op_device _ _ _ _ _ _ _ Ho)) as [Ei Hsv]. rewrite Ei in *.
  destruct (po_file _ _ _ Hok f) as (id1 & d1 & x1 & y1 & dev1 & Ho1 & _ & Hl); [eexists; apply Ho|].
  destruct (opened_fun _ _ _ _ _ _ _ _ _ _ _ _ Ho Ho1) as (-> & -> & -> & -> & ->). destruct Hl as [|[m Hm]]; [done|].
  destruct (@serves_place _ (allocs id) _ _ _ _ Hsv Hm) as (a & Ea & Eb & _ & _ & H3 & H4 & _).
  assert (m = n) as -> by congruence. assert (a = start) as -> by congruence. lia.
Qed.

(** C3: Processes are isolated.  Every device starts with one of the allocators
    of a region of its own (bitmap, buddy, all or nothing: a [PmemAllocator];
    not the system allocator) that has handed out nothing.  In every state
    that calls other than [PMEM_CONNECT] reach, one after the other, a page that
    a process sees belongs to a mapping of a pmem file, and shows the garbage
    page or memory inside of the allocation of this file.  No page frame is in the allocations
    of two files of one device, or of two devices whose regions are apart; that
    the regions are apart is up to the platform, [pmem_setup] does not test
    it. *)
Theorem pmem_isolation devs mms s :
  fresh_devices devs -> reachable devs mms s ->
  (forall mm pg pfn, ptes s !! (mm, pg) = Some pfn ->
     exists v w id d x y dev, vmas s !! v = Some w /\ in_vma w mm pg = true /\ opened s (vm_file w) id d x y dev /\
       (pfn = d_garbage_pfn dev \/ in_alloc dev (index y) pfn)) /\
  (forall f f' id id' d d' x x' y y' dev dev' pfn, opened s f id d x y dev -> opened s f' id' d' x' y' dev' ->
     id = id' \/ regions_apart (d_info dev) (d_info dev') ->
     in_alloc dev (index y) pfn -> in_alloc dev' (index y') pfn -> f = f').
Proof.
  intros Hd Hr. destruct (reachable_ok devs mms s Hd Hr) as [live Hok]. split.
  - intros mm pg pfn Hp. destruct (po_pte _ _ _ Hok mm pg pfn Hp) as (v & w & id & d & x & y & dev & Hv & Hin & Ho & Hs).
    exists v, w, id, d, x, y, dev. do 3 (split; [done|]). by eapply shows_in_alloc.
  - intros f f' id id' d d' x x' y y' dev dev' pfn Ho Ho' Hap Hi Hi'. destruct Hap as [<-|Hap].
    + pose proof (op_device _ _ _ _ _ _ _ Ho). pose proof (op_device _ _ _ _ _ _ _ Ho'). assert (dev' = dev) as -> by congruence.
      by eapply in_alloc_apart.
    + exfalso. pose proof (in_alloc_region _ _ _ _ _ _ _ _ _ Hok Ho Hi). pose proof (in_alloc_region _ _ _ _ _ _ _ _ _ Hok Ho' Hi').
      unfold PAGE_SIZE in *. destruct Hap; lia.
Qed.

(** No call fails in the kernel.  In every state that calls other than
    [PMEM_CONNECT] reach, no such call runs into a [BUG_ON], a bad pointer or
    an access outside of the tables of the allocators; and it waits for ever
    only if an earlier call has returned with a semaphore held. *)
Theorem pmem_calls_safe devs mms s e c :
  fresh_devices devs -> reachable devs mms s -> call_ok e s c -> no_connect c ->
  run_call e c s <> Oops /\ (run_call e c s = Deadlock -> leaked s).
Proof.
  intros Hd Hr Hc Hn. destruct (reachable_ok devs mms s Hd Hr) as [live Hok].
  pose proof (pmem_keeps_call infos e s live c Hok Hc Hn) as H. unfold keeps, wp in H. by destruct (run_call e c s).
Qed.

(** C15: Every allocation has one owner.  For devices with allocators of a
    region of their own ([PmemAllocator]), in every state that calls other than
    [PMEM_CONNECT] reach, one after the other, the allocations of a device that are in force are
    exactly those of its open files, one for each file that has one: none is
    left when its file is closed, and none is shared by two files.  This is
    about allocations; it does not say that all other memory can be handed out,
    as the bitmap allocator loses pages when its table is full
    ([full_table_loses_pages]). *)
Theorem pmem_allocations_owned devs mms s :
  fresh_devices devs -> reachable devs mms s ->
  forall id dev, devices s !! id = Some dev -> exists live, @serves _ (allocs id) (d_alloc dev) live /\
    (forall r, is_Some (live !! r) <-> r <> -1 /\ exists f d x y, opened s f id d x y dev /\ index y = r) /\
    (forall f f' d d' x x' y y', opened s f id d x y dev -> opened s f' id d' x' y' dev ->
       index y = index y' -> index y <> -1 -> f = f').
Proof.
  intros Hd Hr id dev Hid. destruct (reachable_ok devs mms s Hd Hr) as [live Hok].
  destruct (po_device _ _ _ Hok id dev Hid) as [_ Hs]. exists (live id). split; [done|]. split.
  - intros r. split.
    + intros Hl. split; [intros ->; rewrite (po_index _ _ _ Hok) in Hl; by destruct Hl|].
      destruct (po_owned _ _ _ Hok id r Hl) as (f & d & x & y & dev' & Ho & E).
      pose proof (op_device _ _ _ _ _ _ _ Ho) as E'. assert (dev' = dev) as -> by congruence. by exists f, d, x, y.
    + intros (Hne & f & d & x & y & Ho & <-).
      destruct (po_file _ _ _ Hok f) as (id1 & d1 & x1 & y1 & dev1 & Ho1 & _ & Hl); [eexists; apply Ho|].
      destruct (opened_fun _ _ _ _ _ _ _ _ _ _ _ _ Ho Ho1) as (-> & -> & -> & -> & ->). by destruct Hl.
  - intros f f' d d' x x' y y' H1 H2 E Hne. by eapply (po_alone _ _ _ Hok).
Qed.

End isolated.

(** ** Setup *)

Definition setup_quantum (pd : platform_data) : Z := if negb (pd_quantum pd =? 0) then pd_quantum pd else PAGE_SIZE.

(** When a device with memory of its own is set up: sizes that fit, and memory
    for all that is needed. *)
Definition allocator_good (se : setup_env) (type : Z) : bool :=
  se_kobject se && ((type =? PMEM_ALLOCATORTYPE_ALLORNOTHING) || (type =? PMEM_ALLOCATORTYPE_BUDDYBESTFIT) && se_table se ||
                    (type =? PMEM_ALLOCATORTYPE_BITMAP) && se_table se && se_bitmap se).
Definition setup_good (se : setup_env) (pd : platform_data) : bool :=
  let q := setup_quantum pd in
  (PAGE_SIZE <=? q) && is_power_of_2 q && (pd_size pd mod q =? 0) && allocator_good se (pd_allocator_type pd) && se_misc se &&
  negb (se_vbase se =? 0).

(** What the platform asks for. *)
Record platform_ok (se : setup_env) (pd : platform_data) : Prop := {
  pk_size : 0 < pd_size pd < 2 ^ 31;
  pk_quantum : 0 <= pd_quantum pd < 2 ^ 32;
  pk_base : 0 <= se_base se /\ (PAGE_SIZE | se_base se) /\ se_base se + pd_size pd < 2 ^ 32;
  pk_stable : pd_unstable pd = false;
  pk_type : pd_allocator_type pd <> PMEM_ALLOCATORTYPE_SYSTEM;
  pk_bitmap : pd_allocator_type pd = PMEM_ALLOCATORTYPE_BITMAP -> pd_size pd <= 2 ^ 15 * setup_quantum pd }.

Lemma setup_region_ok se pd b :
  platform_ok se pd -> PAGE_SIZE <= setup_quantum pd -> is_power_of_2 (setup_quantum pd) = true -> pd_size pd mod setup_quantum pd = 0 ->
  region_ok (PmemInfo b (pd_size pd) (pd_size pd / setup_quantum pd) (setup_quantum pd) (pd_cached pd)) /\
  0 < pd_size pd / setup_quantum pd < 2 ^ 30.
Proof.
  intros Hpk Hq Hp Hm. set (q := setup_quantum pd) in *. pose proof (pk_size _ _ Hpk).
  assert (q < 2 ^ 32) by (unfold q, setup_quantum; pose proof (pk_quantum _ _ Hpk); destruct (negb _); unfold PAGE_SIZE; lia).
  unfold PAGE_SIZE in Hq. apply Z.div_exact in Hm; [|lia]. unfold is_power_of_2 in Hp. apply andb_true_iff in Hp as [_ Hp%Z.eqb_eq].
  assert (0 < pd_size pd / q) by nia. split; [|nia]. split; cbn; [|lia|lia|lia].
  exists (Z.log2 q). rewrite <- (u32_small (q - 1)) in Hp by lia. split; [|by apply power_of_2; [lia|]].
  change 12 with (Z.log2 4096). by apply Z.log2_le_mono.
Qed.

Lemma setup_placed se pd n q b : platform_ok se pd -> placed (PmemInfo (se_base se) (pd_size pd) n q b).
Proof. intros Hpk. destruct (pk_base _ _ Hpk) as (? & ? & ?). by split. Qed.

Lemma buddy_setup_base b p : buddy_setup (set_base b p) = buddy_setup p.
Proof. unfold buddy_setup, set_base. cbn [num_entries]. reflexivity. Qed.

Lemma setup_allocator_spec se pd :
  platform_ok se pd -> PAGE_SIZE <= setup_quantum pd -> is_power_of_2 (setup_quantum pd) = true -> pd_size pd mod setup_quantum pd = 0 ->
  let p := PmemInfo 0 (pd_size pd) (pd_size pd / setup_quantum pd) (setup_quantum pd) (pd_cached pd) in
  if allocator_good se (pd_allocator_type pd) then
    exists p' a, setup_allocator se (pd_allocator_type pd) p = Some (p', a) /\ pm_size p' = pd_size pd /\
      exists A : PmemAllocator (set_base (se_base se) p'), @serves _ A a ∅
  else setup_allocator se (pd_allocator_type pd) p = None.
Proof.
  intros Hpk Hq Hp Hm p. destruct (setup_region_ok se pd (se_base se) Hpk Hq Hp Hm) as [Hr Hn].
  pose proof (setup_placed se pd (num_entries p) (quantum p) (pm_cached p) Hpk) as Hpl. unfold allocator_good, setup_allocator.
  destruct (Z.eqb_spec (pd_allocator_type pd) PMEM_ALLOCATORTYPE_ALLORNOTHING) as [_|_]; cbn [orb].
  { destruct (se_kobject se); [|done]. eexists _, _. split; [done|]. split; [done|]. pose proof (pk_size _ _ Hpk).
    unshelve eexists; [apply aon_allocator; [by eapply setup_placed|cbn; lia]|]. cbn. constructor. }
  destruct (Z.eqb_spec (pd_allocator_type pd) PMEM_ALLOCATORTYPE_BUDDYBESTFIT) as [->|_]; cbn [orb].
  { cbn [Z.eqb andb orb]. rewrite orb_false_r. rewrite (andb_comm (se_kobject se)). destruct (_ && _); [|done].
    destruct (buddy_setup_spec p Hn) as (bm & l & E & _). rewrite E. eexists _, _. split; [done|]. split; [done|].
    unshelve eexists; [by apply buddy_allocator|]. apply (buddy_starts (set_base (se_base se) p)); [exact Hn|].
    by rewrite buddy_setup_base. }
  destruct (Z.eqb_spec (pd_allocator_type pd) PMEM_ALLOCATORTYPE_BITMAP) as [Et|_]; cbn [andb orb].
  { rewrite andb_assoc, (andb_comm (se_kobject se)). destruct (_ && _); [|done]. eexists _, _. split; [done|]. split; [done|].
    assert (pd_size pd / setup_quantum pd <= 2 ^ 15) as H15.
    { apply Z.div_le_upper_bound; [unfold PAGE_SIZE in Hq; lia|]. pose proof (pk_bitmap _ _ Hpk Et). lia. }
    unshelve eexists; [by apply bitmap_allocator|]. by apply (bitmap_starts (set_base (se_base se) p)). }
  rewrite andb_false_r. pose proof (pk_type _ _ Hpk). by destruct (Z.eqb_spec (pd_allocator_type pd) PMEM_ALLOCATORTYPE_SYSTEM).
Qed.

(** C26: Setup of a device with a region of its own, that is any allocator but
    the system one, stable memory of less than 2 GiB, but not none, from a page
    boundary on and below 4 GiB, and for the bitmap allocator at most 32768
    quanta.  [pmem_setup] under a number that is not in use registers the device exactly when the quantum is a power
    of two of at least a page that divides the size, the allocator is known and
    the object, the tables of the allocator, the misc device and the virtual
    mapping were to be had; the device then has the region of the given size
    from the base that the platform's allocator returned, with an allocator that
    implements [PmemAllocator] and has handed out nothing.  The base is not
    tested: 0, which stands for no memory, is taken as an address.  If anything
    else is missing, there is no device under the number. *)
Theorem pmem_setup_correct se pd id s :
  platform_ok se pd -> 0 <= id < PMEM_MAX_DEVICES -> devices s !! id = None ->
  exists dev, pmem_setup se pd id s = Done (set_devices <[id := dev]> s) (id + 1, if setup_good se pd then 0 else -1) /\
    (setup_good se pd = false -> d_minor dev = -1) /\
    (setup_good se pd = true -> d_minor dev = id /\ pm_base (d_info dev) = se_base se /\ pm_size (d_info dev) = pd_size pd /\
       data_list dev = [] /\ exists A : PmemAllocator (d_info dev), @serves _ A (d_alloc dev) ∅).
Proof.
  intros Hpk Hid Hnone. pose proof (pk_size _ _ Hpk) as Hsz.
  unfold setup_good, pmem_setup, bind, get.
  destruct (Z.leb_spec PMEM_MAX_DEVICES id); [lia|]. destruct (Z.eqb_spec (pd_size pd) 0); [lia|].
  cbn beta zeta iota. rewrite Hnone. fold (setup_quantum pd). rewrite (Z.ltb_antisym PAGE_SIZE), (pk_stable _ _ Hpk).
  destruct (Z.leb_spec PAGE_SIZE (setup_quantum pd)) as [Hq|]; cbn [andb negb orb]; [|by eexists].
  destruct (is_power_of_2 (setup_quantum pd)) eqn:Hp; cbn [andb negb orb]; [|by eexists].
  destruct (Z.eqb_spec (pd_size pd mod setup_quantum pd) 0) as [Hm|]; cbn [andb negb orb]; [|by eexists].
  pose proof (setup_allocator_spec se pd Hpk Hq Hp Hm) as Ha. cbn zeta in Ha.
  destruct (allocator_good se (pd_allocator_type pd)); cbn [andb]; [|rewrite Ha; by eexists].
  destruct Ha as (p' & a & -> & Hs & A & HA). destruct (se_misc se); cbn [andb negb]; [|by eexists].
  destruct (Z.eqb_spec (pd_allocator_type pd) PMEM_ALLOCATORTYPE_SYSTEM); [by destruct (pk_type _ _ Hpk)|]. cbn [andb negb].
  destruct (se_vbase se =? 0); cbn [andb negb]; [by eexists|]. eexists. split; [done|]. split; [done|]. intros _.
  do 2 (split; [done|]). split; [done|]. split; [done|]. by exists A.
Qed.

(** ** Revocation *)

(** C16: A master takes its memory back.  When a master that is mapped is
    released, every connected file that is mapped loses the pages of all its
    regions: they show the garbage page or nothing; all other pages are as
    before.  The allocation is then returned, once.  This needs that the
    semaphores of the files of the device are free, that each connected file
    has a task that is alive and a mapping that holds its regions, and that no
    other call comes in between. *)
Theorem release_revokes p (A : PmemAllocator p) e s live f id d x y dev n :
  windows e = [] -> opened s f id d x y dev -> d_info dev = p -> serves (d_alloc dev) live -> live !! index y = Some n ->
  index y <> -1 -> has PMEM_FLAGS_MASTERMAP (flags y) = true -> has PMEM_FLAGS_CONNECTED (flags y) = false ->
  NoDup (data_list dev) -> d ∈ data_list dev -> (forall d', d' ∈ data_list dev -> revocable s f d') ->
  exists s' dev', pmem_release e f s = Done s' 0 /\
    taken (revoked_page s f (data_list dev)) (d_garbage_pfn dev) (ptes s) (ptes s') /\
    devices s' !! id = Some dev' /\ serves (d_alloc dev') (delete (index y) live).
Proof.
  intros Hwin Ho Hp Hs Hl Hi Hmap Hcon Hnd Hin Hrev.
  destruct (serves_free _ _ _ _ Hs Hl) as (a & Ea & Hs' & _). rewrite <- Hp in Ea.
  enough (wp False (pmem_release e f) s (fun s' r => r = 0 /\
    taken (revoked_page s f (data_list dev)) (d_garbage_pfn dev) (ptes s) (ptes s') /\
    devices s' !! id = Some (set_alloc a (set_data_list (list_del d) dev)))) as H.
  { unfold wp in H. destruct (pmem_release e f s) as [s' r| |]; [|done|done]. destruct H as (-> & Ht & Hd). eauto 10. }
  unfold pmem_release. apply wp_bind, (wp_data_of Ho), wp_bind, (wp_get_id Ho), wp_bind. eapply wp_the; [apply Ho|].
  apply wp_bind. eapply wp_the; [apply Ho|]. apply wp_bind. rewrite Hmap. eapply wp_mono.
  { eapply (revoke_connected_spec False e f x id dev); [done|apply Ho|by rewrite (op_rdev _ _ _ _ _ _ _ Ho)|apply Ho|done|done]. }
  intros s1 _ (Ht & E1 & E2 & _ & E4). destruct (E4 d y Hin (op_data _ _ _ _ _ _ _ Ho)) as (y1 & Hy1 & Ei & Ef & Es & _).
  apply wp_bind. eapply wp_mod_device; [rewrite E2; apply Ho|]. set (s2 := set_devices _ s1).
  assert (opened s2 f id d x y1 (set_data_list (list_del d) dev)) as Ho2.
  { destruct Ho. split; try done; cbn; rewrite ?E1; try done. apply lookup_insert_eq. }
  destruct (Hrev d Hin) as (y2 & Hy2 & Hsem & _). assert (y2 = y) as -> by (pose proof (op_data _ _ _ _ _ _ _ Ho); congruence).
  apply wp_bind. eapply wp_down; [apply Ho2|congruence|]. apply wp_bind, (wp_has_allocation Ho2). apply wp_bind.
  rewrite Ei, Ef, Hcon. destruct (Z.eqb_spec (index y) (-1)); [done|]. cbn [negb andb]. unfold dev_free, the_device.
  apply wp_bind. eapply wp_the; [apply Ho2|]. apply wp_bind. eapply wp_lift; [exact Ea|]. apply wp_bind.
  eapply wp_mod_device; [apply Ho2|]. apply wp_ret. apply wp_bind. eapply wp_the; [apply Ho2|].
  apply wp_bind, wp_modify, wp_bind, wp_modify, wp_ret. split; [done|]. split; [exact Ht|]. apply lookup_insert_eq.
Qed.

(** ** Witnesses *)

Lemma ex_placed : placed ex_region.
Proof. split; [by exists 65536|done|done]. Qed.

(** One device, with the bitmap allocator. *)
Definition ex_infos (id : Z) : pmem_info := ex_region.
Definition ex_allocs (id : Z) : PmemAllocator (ex_infos id) :=
  bitmap_allocator ex_region ex_placed ex_region_ok (ltac:(done) : num_entries ex_region <= 2 ^ 15).

Lemma ex_fresh : fresh_devices ex_infos ex_allocs {[0 := ex_device]}.
Proof.
  intros id dev Hd. apply lookup_singleton_Some in Hd as [<- <-]. split; [done|]. split; [|done].
  apply bitmap_starts, ex_region_ok.
Qed.

(** Two processes that map a file each. *)
Definition two_files : list (env * call) :=
  [(ex_env 1 11, Open 21 3 0 false); (ex_env 1 0, Mmap 3 31 101 1048576 1056768 0 0);
   (ex_env 2 12, Open 22 3 0 false); (ex_env 2 0, Mmap 3 32 102 1048576 1056768 0 0)].
Definition after (l : list (env * call)) : pmem := match run l ex_start with Done s _ => s | _ => ex_start end.

Lemma two_files_reachable : reachable {[0 := ex_device]} {[1 := 101; 2 := 102; 3 := 103]} (after two_files).
Proof. apply (run_steps no_connect two_files ex_start); by vm_compute. Qed.

Lemma pmem_isolation_witness :
  ptes (after two_files) !! (101, 256) = Some 65536 /\ ptes (after two_files) !! (102, 256) = Some 65538 /\
  exists v w id d x y dev, vmas (after two_files) !! v = Some w /\ in_vma w 101 256 = true /\
    opened (after two_files) (vm_file w) id d x y dev /\ (65536 = d_garbage_pfn dev \/ in_alloc dev (index y) 65536).
Proof.
  split; [by vm_compute|]. split; [by vm_compute|].
  apply (proj1 (pmem_isolation ex_infos ex_allocs _ _ (after two_files) ex_fresh two_files_reachable)). by vm_compute.
Defined.

Lemma pmem_calls_safe_witness :
  run_call (ex_env 1 0) (DupVma 31 103 33) (after two_files) <> Oops.
Proof.
  apply (pmem_calls_safe ex_infos ex_allocs _ _ (after two_files) (ex_env 1 0) (DupVma 31 103 33) ex_fresh two_files_reachable).
  - apply (bool_decide_unpack _). by vm_compute.
  - exact I.
Defined.

Lemma pmem_allocations_owned_witness :
  exists dev live, devices (after two_files) !! 0 = Some dev /\ @serves _ (ex_allocs 0) (d_alloc dev) live /\
    (is_Some (live !! 2) <-> 2 <> -1 /\ exists f d x y, opened (after two_files) f 0 d x y dev /\ index y = 2).
Proof.
  destruct (devices (after two_files) !! 0) as [dev|] eqn:E; [|vm_compute in E; discriminate].
  destruct (pmem_allocations_owned ex_infos ex_allocs _ _ (after two_files) ex_fresh two_files_reachable 0 dev E)
    as (live & H1 & H2 & _). exists dev, live. split; [reflexivity|]. split; [exact H1|]. apply H2.
Defined.

Definition ex_setup : setup_env := SetupEnv true true true true 268435456 3221225472 7.
Definition ex_platform : platform_data := PlatformData 65536 PMEM_ALLOCATORTYPE_BUDDYBESTFIT 0 false false.

Lemma pmem_setup_correct_witness :
  exists dev, pmem_setup ex_setup ex_platform 0 (initial ∅ ∅) = Done (set_devices <[0 := dev]> (initial ∅ ∅)) (1, 0) /\
    exists A : PmemAllocator (d_info dev), @serves _ A (d_alloc dev) ∅.
Proof.
  destruct (pmem_setup_correct ex_setup ex_platform 0 (initial ∅ ∅)) as (dev & E & _ & H).
  - split; cbn; [lia|lia| |done|done|done]. split; [lia|]. split; [by exists 65536|lia].
  - done.
  - done.
  - exists dev. split; [exact E|]. apply H. by vm_compute.
Defined.

(** A master that is mapped, and a file of another process that is connected
    to it and shows its first page. *)
Definition connected : list (env * call) :=
  [(ex_env 1 11, Open 21 3 0 false); (ex_env 1 0, Mmap 3 31 101 1048576 1056768 0 0); (ex_env 1 0, Pass 3 2 3);
   (ex_env 2 12, Open 22 4 0 false); (ex_env 2 0, Ioctl (ex_words []) 4 PMEM_CONNECT 3);
   (ex_env 2 0, Mmap 4 32 102 1048576 1056768 0 0); (ex_env 2 0, ex_ioctl [0; 4096] 4 PMEM_MAP_CMD)].

Lemma release_revokes_witness :
  ptes (after connected) !! (102, 256) = Some 65536 /\
  exists s' dev dev', pmem_release (ex_env 1 0) 21 (after connected) = Done s' 0 /\
    taken (revoked_page (after connected) 21 [12; 11]) 7 (ptes (after connected)) (ptes s') /\
    revoked_page (after connected) 21 [12; 11] 102 256 = true /\ devices (after connected) !! 0 = Some dev /\
    devices s' !! 0 = Some dev' /\ exists live, @serves _ (ex_allocs 0) (d_alloc dev') live.
Proof.
  split; [by vm_compute|].
  destruct (@serves_allocate _ (ex_allocs 0) (alloc_memory (ex_env 1 0)) (BitmapAlloc ex_bitmap) ∅ 8192 4096 12
    (bitmap_starts _ ex_region_ok) ltac:(lia) eq_refl ltac:(lia)) as (a & r & E & _ & [(-> & _)|(n & _ & _ & Hs & _)]);
    [vm_compute in E; discriminate|].
  destruct (devices (after connected) !! 0) as [dev|] eqn:Ed; [|vm_compute in Ed; discriminate].
  assert (d_alloc dev = a /\ d_info dev = ex_region /\ data_list dev = [12; 11] /\ d_garbage_pfn dev = 7 /\ r = 0 /\
    d_minor dev = 0) as (Ea & Ei & El & Eg & Er & Em)
    by (vm_compute in E, Ed; injection E as <- <-; injection Ed as <-; by vm_compute).
  subst r. rewrite <- Ea in Hs. edestruct (release_revokes ex_region (ex_allocs 0) (ex_env 1 0) (after connected) (<[0 := n]> ∅) 21 0 11)
    as (s' & dev' & H1 & H2 & H3 & H4); [reflexivity| |exact Ei|exact Hs|..].
  - split; [by vm_compute|by vm_compute|by vm_compute|by vm_compute|exact Ed|exact Em|done].
  - apply lookup_insert_eq.
  - done.
  - by vm_compute.
  - by vm_compute.
  - rewrite El. apply (bool_decide_unpack _). by vm_compute.
  - rewrite El. apply (bool_decide_unpack _). by vm_compute.
  - rewrite El. intros d' Hd'. rewrite !elem_of_cons, elem_of_nil in Hd'. destruct Hd' as [->|[->|[]]].
    + eexists. split; [by vm_compute|]. split; [done|]. intros _. exists 32. eexists. split; [exists 2; split; [done|exists 102; by vm_compute]|].
      split; [done|]. split; [by vm_compute|]. split.
      * split; [cbn; lia|]. split; [cbn; lia|]. split; [by exists 256|]. split; [by exists 258|done].
      * constructor; [|constructor]. split; [by exists 0|]. split; [by exists 1|]. cbn. lia.
    + eexists. split; [by vm_compute|]. split; [done|]. intros F. vm_compute in F. discriminate.
  - rewrite El, Eg in H2. exists s', dev, dev'. split; [exact H1|]. split; [exact H2|]. split; [by vm_compute|].
    split; [reflexivity|]. split; [exact H3|]. eexists. exact H4.
Defined.

(** ** Where the driver does not isolate *)

(** A range that ends before it starts. *)
Lemma zap_nothing D s v w start size :
  vmas s !! v = Some w -> u32 (start + size) <= start -> wp D (zap_page_range v start size) s (fun s' _ => s' = s).
Proof.
  intros Hv Hle. unfold zap_page_range. apply wp_bind. eapply wp_the; [done|]. apply wp_modify.
  unfold set_ptes. rewrite map_filter_id; [by destruct s|]. intros [a i] q _. unfold zapped. cbn.
  destruct (Z.leb_spec start (i * PAGE_SIZE)); [|by rewrite andb_false_r].
  destruct (Z.ltb_spec (i * PAGE_SIZE) (u32 (start + size))); [lia|]. by rewrite andb_false_r.
Qed.

(** Garbage is not entered when the first page is there. *)
Lemma garbage_loop_busy D pt n s v w g pfn :
  vmas s !! v = Some w -> mapping_ok w -> vm_flags w = garbage_flags (vm_flags w) ->
  ptes s !! (vm_mm w, page (vm_start w)) = Some pfn -> wp D (garbage_loop pt n 0 v 0 g) s (fun s' _ => s' = s).
Proof.
  intros Hv (W1 & W2 & _ & _ & Hb) Hf Hp. destruct n as [|n]; [done|]. cbn [garbage_loop].
  apply wp_bind. eapply wp_the; [done|]. apply wp_bind. rewrite Z.add_0_r, u32_small by lia. unfold vm_insert_pfn.
  apply wp_bind. eapply wp_the; [done|]. destruct (garbage_flags_insert w Hb) as (F1 & F2 & F3 & _). rewrite <- Hf in F1, F2, F3.
  apply wp_bind, wp_BUG_ON; [by rewrite F1|]. apply wp_bind, wp_BUG_ON; [done|]. apply wp_bind, wp_BUG_ON; [done|].
  case_if; [done|]. case_if; [done|]. apply wp_bind, wp_get. by rewrite Z.add_0_r, Hp.
Qed.

(** A fork keeps access.  [pmem_vma_open] is to put the garbage page in
    place of the memory in the copy of a mapping, but passes
    [vm_start - vm_end] as the length: in a mapping that is not larger than
    its address, whose first page is there, it changes no page at all. *)
Theorem fork_keeps_access e s v w id d x y dev pfn :
  vmas s !! v = Some w -> mapping_ok w -> opened s (vm_file w) id d x y dev -> index y <> -1 -> sem y = false ->
  vm_end w - vm_start w <= vm_start w -> ptes s !! (vm_mm w, page (vm_start w)) = Some pfn ->
  exists s', pmem_vma_open e v s = Done s' tt /\ ptes s' = ptes s.
Proof.
  intros Hv Hw Ho Hi Hsem Hsz Hp. pose proof Hw as (W1 & W2 & [ks Es] & [ke Ee] & Hb).
  assert (u32 (vm_start w - vm_end w) = (2 ^ 20 + ks - ke) * PAGE_SIZE) as El.
  { unfold u32. rewrite Es, Ee. unfold PAGE_SIZE in *.
    replace (ks * 4096 - ke * 4096) with ((2 ^ 20 + ks - ke) * 4096 + (-1) * 2 ^ 32) by lia. rewrite Z.mod_add by lia.
    apply Z.mod_small. lia. }
  enough (wp False (pmem_vma_open e v) s (fun s' _ => ptes s' = ptes s)) as H.
  { unfold wp in H. destruct (pmem_vma_open e v s) as [s' []| |]; [|done|done]. by exists s'. }
  unfold pmem_vma_open. apply wp_bind. eapply wp_the; [done|]. apply wp_bind, (wp_data_of Ho), wp_bind, (wp_get_id Ho), wp_bind.
  eapply wp_down; [apply Ho|congruence|]. apply wp_bind, (wp_has_allocation Ho), wp_bind.
  apply wp_BUG_ON; [by destruct (Z.eqb_spec (index y) (-1))|]. rewrite El. apply wp_bind. unfold pmem_unmap_pfn_range.
  apply wp_bind, wp_BUG_ON; [by rewrite (proj2 (page_aligned _) (Z.divide_factor_r _ _))|]. apply wp_bind. eapply wp_the; [done|].
  rewrite Z.add_0_r, (u32_small (vm_start w)) by lia. apply wp_bind. eapply wp_mono; [eapply zap_nothing; [done|]|].
  { unfold u32. replace (vm_start w + (2 ^ 20 + ks - ke) * PAGE_SIZE) with (2 * vm_start w - vm_end w + 1 * 2 ^ 32)
      by (unfold PAGE_SIZE in *; lia). rewrite Z.mod_add by lia. rewrite Z.mod_small; lia. }
  intros ? _ ->. apply wp_bind. unfold pmem_map_garbage. apply wp_bind. eapply wp_the; [apply Ho|]. apply wp_bind.
  eapply wp_mod_vma; [done|]. fold (garbaged w). eapply wp_mono.
  { eapply (garbage_loop_busy _ _ _ _ v (garbaged w)); [apply lookup_insert_eq|by apply garbaged_ok| |exact Hp].
    cbn. by rewrite garbage_flags_idem. }
  intros ? _ ->. by apply wp_ret, wp_ret.
Qed.

Definition before_fork : list (env * call) :=
  [(ex_env 1 11, Open 21 3 0 false); (ex_env 1 0, Mmap 3 31 101 1048576 1056768 0 0)].
Definition forked : list (env * call) := before_fork ++ [(ex_env 1 0, DupVma 31 102 32)].

Lemma fork_keeps_access_witness :
  ptes (after forked) !! (102, 257) = Some 65537 /\
  exists s', pmem_vma_open (ex_env 1 0) 32 (after forked) = Done s' tt /\ ptes s' = ptes (after forked).
Proof.
  split; [by vm_compute|].
  destruct (devices (after forked) !! 0) as [dev|] eqn:Ed; [|vm_compute in Ed; discriminate].
  assert (d_minor dev = 0) as Em by (vm_compute in Ed; injection Ed as <-; reflexivity).
  eapply (fork_keeps_access (ex_env 1 0) (after forked) 32 _ 0 11); [by vm_compute| | |..].
  - split; [cbn; lia|]. split; [cbn; lia|]. split; [by exists 256|]. split; [by exists 258|done].
  - split; [by vm_compute|by vm_compute|by vm_compute|by vm_compute|exact Ed|exact Em|done].
  - done.
  - done.
  - cbn. lia.
  - by vm_compute.
Defined.

(** Any call at all. *)
Definition any_call (c : call) : Prop := True.
#[export] Instance any_call_dec c : Decision (any_call c) := left I.

(** A master that is allocated and not mapped is closed while a file is
    connected to it; then its memory is given to a third file. *)
Definition master_closed : list (env * call) :=
  [(ex_env 1 11, Open 21 3 0 false); (ex_env 1 0, Ioctl (ex_words []) 3 PMEM_ALLOCATE 8192); (ex_env 1 0, Pass 3 2 3);
   (ex_env 2 12, Open 22 4 0 false); (ex_env 2 0, Ioctl (ex_words []) 4 PMEM_CONNECT 3);
   (ex_env 2 0, Mmap 4 32 102 1048576 1056768 0 0); (ex_env 2 0, ex_ioctl [0; 4096] 4 PMEM_MAP_CMD);
   (ex_env 1 0, Close 3); (ex_env 2 0, Close 3);
   (ex_env 3 13, Open 23 3 0 false); (ex_env 3 0, Mmap 3 33 103 1048576 1056768 0 0)].

(** With [PMEM_CONNECT] processes are not isolated: a released master takes
    its memory back only if it was mapped itself.  A run of the calls ends in a
    state in which the master is gone and two processes, with files that have
    nothing to do with each other, see the same memory. *)
Theorem released_master_stays_mapped :
  exists s, rtc (pmem_step any_call) ex_start s /\ files s !! 21 = None /\
    vm_file <$> vmas s !! 32 = Some 22 /\ vm_file <$> vmas s !! 33 = Some 23 /\
    ptes s !! (102, page 1048576) = Some 65536 /\ ptes s !! (103, page 1048576) = Some 65536.
Proof.
  exists (after master_closed). split; [apply (run_steps any_call master_closed); by vm_compute|]. by vm_compute.
Qed.

(** [PMEM_MAP] checks a region against the allocation and not against the
    mapping: the second page of the allocation is entered behind a mapping of
    one page. *)
Definition map_second_page : list (env * call) :=
  [(ex_env 1 11, Open 21 3 0 false); (ex_env 1 0, Ioctl (ex_words []) 3 PMEM_ALLOCATE 8192);
   (ex_env 1 12, Open 22 4 0 false); (ex_env 1 0, Ioctl (ex_words []) 4 PMEM_CONNECT 3);
   (ex_env 1 0, Mmap 4 32 101 1048576 1052672 0 0); (ex_env 1 0, ex_ioctl [4096; 4096] 4 PMEM_MAP_CMD)].

Example remap_outside_mapping :
  exists s, rtc (pmem_step any_call) ex_start s /\ vm_end <$> vmas s !! 32 = Some 1052672 /\
    ptes s !! (101, page 1052672) = Some 65537.
Proof.
  exists (after map_second_page). split; [apply (run_steps any_call map_second_page); by vm_compute|]. by vm_compute.
Qed.

(** After an alignment that is refused, the next call on the file waits for
    ever. *)
Example refused_alignment_deadlocks :
  run [(ex_env 1 11, Open 21 3 0 false); (ex_env 1 0, ex_ioctl [4096; 3] 3 PMEM_ALLOCATE_ALIGNED);
       (ex_env 1 0, Ioctl (ex_words []) 3 PMEM_ALLOCATE 8192)] ex_start = Deadlock.
Proof. by vm_compute. Qed.
