(* ===== verification/Sort.v ===== *)
(** * The heapsort of lib/sort.c

    [sort] works on an array of [num] elements of [size] bytes, with counters
    scaled by the size, in the 32-bit arithmetic of the code.  The array is
    the list of its bytes; the comparison sees the bytes of two elements. *)

From stdpp Require Import base numbers list.
From S2P Require Import Prelude.

Open Scope Z_scope.

(** ** Exchanging elements *)

Definition u32_swap (buf : list Z) (a b size : Z) : list Z :=
  let t := bslice buf a 4 in splice (splice buf a (bslice buf b 4)) b t.

(** The [do] loop; it runs once even for the size 0. *)
Fixpoint swap_loop (n : nat) (buf : list Z) (a b : Z) : list Z :=
  let t := bget buf a in
  let buf' := <[Z.to_nat b := t]> (<[Z.to_nat a := bget buf b]> buf) in
  match n with
  | O => buf'
  | S n' => swap_loop n' buf' (a + 1) (b + 1)
  end.
Definition generic_swap (buf : list Z) (a b size : Z) : list Z := swap_loop (Z.to_nat (size - 1)) buf a b.

(** The element at an offset; [None] outside of the array. *)
Definition in_array (buf : list Z) (size off : Z) : bool := (0 <=? off) && (off + size <=? zlen buf).
Definition elem_at (buf : list Z) (size off : Z) : option (list Z) :=
  if in_array buf size off then Some (bslice buf off size) else None.

Section sort.
Context (cmp_func : list Z -> list Z -> Z).
Context (swap_func : option (list Z -> Z -> Z -> Z -> list Z)).

Definition the_swap (size : Z) : list Z -> Z -> Z -> Z -> list Z :=
  match swap_func with Some f => f | None => if size =? 4 then u32_swap else generic_swap end.

Definition swap_at (buf : list Z) (size a b : Z) : option (list Z) :=
  if in_array buf size a && in_array buf size b then Some (the_swap size buf a b size) else None.

(** The child of [r] that is compared with it. *)
Definition larger_child (size n : Z) (buf : list Z) (r : Z) : option Z :=
  let c := s32 (r * 2 + size) in
  if u32 c <? u32 (n - size) then
    x ← elem_at buf size c;
    y ← elem_at buf size (c + size);
    Some (if cmp_func x y <? 0 then s32 (c + size) else c)
  else Some c.

(** The inner loop of both phases: the element at [r] sinks in the heap that
    ends at [n]. *)
Fixpoint sift (fuel : nat) (size n : Z) (buf : list Z) (r : Z) : option (list Z) :=
  match fuel with
  | O => None
  | S fuel' =>
      if u32 (r * 2 + size) <? u32 n then
        c ← larger_child size n buf r;
        x ← elem_at buf size r;
        y ← elem_at buf size c;
        if 0 <=? cmp_func x y then Some buf
        else buf' ← swap_at buf size r c; sift fuel' size n buf' c
      else Some buf
  end.

Fixpoint heapify_loop (fuel : nat) (size n : Z) (buf : list Z) (i : Z) : option (list Z) :=
  match fuel with
  | O => None
  | S fuel' =>
      if 0 <=? i then
        buf' ← sift (S (Z.to_nat n)) size n buf i;
        heapify_loop fuel' size n buf' (s32 (i - size))
      else Some buf
  end.

Fixpoint sort_loop (fuel : nat) (size : Z) (buf : list Z) (i : Z) : option (list Z) :=
  match fuel with
  | O => None
  | S fuel' =>
      if 0 <? i then
        buf1 ← swap_at buf size 0 i;
        buf2 ← sift (S (Z.to_nat i)) size i buf1 0;
        sort_loop fuel' size buf2 (s32 (i - size))
      else Some buf
  end.

Definition sort (buf : list Z) (num size : Z) : option (list Z) :=
  let i := s32 (u32 (num / 2 - 1) * size) in
  let n := s32 (num * size) in
  buf' ← heapify_loop (S (S (Z.to_nat n))) size n buf i;
  sort_loop (S (S (Z.to_nat n))) size buf' (s32 (n - size)).

End sort.

(** * Heapsort: the result is sorted

    First on a list of elements, with indices that are not scaled; then that
    the code computes this on the bytes of the elements, within the array and
    without overflow. *)

Open Scope nat_scope.

(** ** Exchanging two elements of a list *)

Section swap.
Context {A : Type} `{!Inhabited A}.
Implicit Types l : list A.

Definition swap (l : list A) (i j : nat) : list A := <[i := l !!! j]> (<[j := l !!! i]> l).

Lemma length_swap l i j : length (swap l i j) = length l.
Proof. unfold swap. by rewrite !length_insert. Qed.

Lemma swap_at_i l i j : i < length l -> swap l i j !!! i = l !!! j.
Proof. intros Hi. unfold swap. apply list_lookup_total_insert_eq. by rewrite length_insert. Qed.

Lemma swap_at_j l i j : i < length l -> j < length l -> swap l i j !!! j = l !!! i.
Proof.
  intros Hi Hj. destruct (decide (i = j)) as [->|Hne]; [by apply swap_at_i|]. unfold swap.
  rewrite list_lookup_total_insert_ne by done. by apply list_lookup_total_insert_eq.
Qed.

Lemma swap_other l i j k : k <> i -> k <> j -> swap l i j !!! k = l !!! k.
Proof. intros. unfold swap. by rewrite !list_lookup_total_insert_ne. Qed.

Lemma swap_perm l i j : i < length l -> j < length l -> swap l i j ≡ₚ l.
Proof.
  intros Hi Hj. apply Permutation_inj. split; [apply length_swap|].
  exists (fun k => if decide (k = i) then j else if decide (k = j) then i else k). split.
  - intros a b. repeat case_decide; congruence.
  - intros k. destruct (decide (k < length l)) as [Hk|Hk].
    2: { rewrite !lookup_ge_None_2; [done| |rewrite length_swap; lia]. repeat case_decide; lia. }
    assert (forall m : list A, k < length m -> m !! k = Some (m !!! k)) as E by (intros; by apply list_lookup_lookup_total_lt).
    rewrite E by (by rewrite length_swap). repeat case_decide; subst.
    + rewrite swap_at_i by done. by rewrite list_lookup_lookup_total_lt.
    + rewrite swap_at_j by done. by rewrite list_lookup_lookup_total_lt.
    + rewrite swap_other by done. by rewrite list_lookup_lookup_total_lt.
Qed.

End swap.

(** ** Heaps *)

Section heap.
Context {A : Type} `{!Inhabited A} (cmp : A -> A -> Z).

Definition ge (x y : A) : Prop := (0 <= cmp x y)%Z.

(** What the comparison of a sort has to be. *)
Class Comparison : Prop := {
  cmp_total x y : ge x y \/ ge y x;
  cmp_trans x y z : ge x y -> ge y z -> ge x z }.

Context {Hcmp : Comparison}.
Implicit Types l : list A.

Lemma cmp_lt x y : (cmp x y < 0)%Z -> ge y x.
Proof using Type*. intros H. destruct (cmp_total x y) as [E|E]; [unfold ge in E; lia|done]. Qed.

Lemma ge_refl x : ge x x.
Proof using Type*. by destruct (cmp_total x x). Qed.

Definition child (p c : nat) : Prop := c = 2 * p + 1 \/ c = 2 * p + 2.

(** The heap order from the node [k] on, of the first [n] elements. *)
Definition heap (l : list A) (k n : nat) : Prop :=
  forall p c, k <= p -> child p c -> c < n -> ge (l !!! p) (l !!! c).

(** All but the node [r], whose parents are in order with its children. *)
Definition heap_but (l : list A) (k n r : nat) : Prop :=
  (forall p c, k <= p -> p <> r -> child p c -> c < n -> ge (l !!! p) (l !!! c)) /\
  (forall q c, k <= q -> child q r -> child r c -> c < n -> ge (l !!! q) (l !!! c)).

Definition child_e (n : nat) (l : list A) (r : nat) : nat :=
  if decide (2 * r + 2 < n) then if (cmp (l !!! (2 * r + 1)%nat) (l !!! (2 * r + 2)%nat) <? 0)%Z then 2 * r + 2 else 2 * r + 1
  else 2 * r + 1.

Lemma child_e_spec n l r :
  2 * r + 1 < n -> child r (child_e n l r) /\ child_e n l r < n /\
  forall c, child r c -> c < n -> ge (l !!! child_e n l r) (l !!! c).
Proof using Type*.
  intros Hn. unfold child_e. case_decide; [destruct (Z.ltb_spec (cmp (l !!! (2 * r + 1)%nat) (l !!! (2 * r + 2)%nat)) 0) as [Hc|Hc]|].
  - split; [by right|]. split; [done|]. intros c [->| ->] _; [by apply cmp_lt|apply ge_refl].
  - split; [by left|]. split; [lia|]. intros c [->| ->] _; [apply ge_refl|done].
  - split; [by left|]. split; [done|]. intros c [->| ->] ?; [apply ge_refl|lia].
Qed.

Fixpoint sift_e (fuel n : nat) (l : list A) (r : nat) : option (list A) :=
  match fuel with
  | O => None
  | S fuel' =>
      if decide (2 * r + 1 < n) then
        let c := child_e n l r in
        if (0 <=? cmp (l !!! r) (l !!! c))%Z then Some l else sift_e fuel' n (swap l r c) c
      else Some l
  end.

(** Exchanging [r] with its larger child moves the disorder down. *)
Lemma heap_but_swap l k n r c :
  r < length l -> n <= length l -> k <= r -> child r c -> c < n ->
  (forall c', child r c' -> c' < n -> ge (l !!! c) (l !!! c')) -> ge (l !!! c) (l !!! r) ->
  heap_but l k n r -> heap_but (swap l r c) k n c.
Proof using Type*.
  intros Hr Hn Hk Hc Hcn Hmax Hge [H1 H2]. split; unfold child in *.
  - intros p e Hp Hpc Hpe Hen. destruct (decide (p = r)) as [->|Hpr].
    + rewrite swap_at_i by lia. destruct (decide (e = c)) as [->|Hec]; [by rewrite swap_at_j by lia|].
      rewrite swap_other by lia. by apply Hmax.
    + rewrite (swap_other _ _ _ p) by lia. destruct (decide (e = r)) as [->|Her].
      * rewrite swap_at_i by lia. by apply H2.
      * rewrite swap_other by lia. by apply H1.
  - intros q e Hq Hqc Hce Hen. assert (q = r) as -> by lia. rewrite swap_at_i by lia. rewrite swap_other by lia. apply H1; lia.
Qed.

Lemma sift_e_spec fuel : forall n l r k,
  0 < fuel -> n < fuel + r -> n <= length l -> k <= r -> r < length l -> heap_but l k n r ->
  exists l', sift_e fuel n l r = Some l' /\ l' ≡ₚ l /\ heap l' k n /\ forall i, i < k \/ n <= i -> l' !!! i = l !!! i.
Proof using Type*.
  induction fuel as [|fuel IH]; intros n l r k Hf0 Hf Hn Hk Hr Hh; cbn [sift_e].
  - lia.
  - case_decide as Hc.
    2: { exists l. split; [done|]. split; [done|]. split; [|done]. intros p c Hp Hpc Hcn. apply (proj1 Hh); try done.
         unfold child in Hpc. lia. }
    destruct (child_e_spec n l r Hc) as (Hch & Hcn & Hmax). set (c := child_e n l r) in *.
    destruct (Z.leb_spec 0 (cmp (l !!! r) (l !!! c))) as [Hle|Hlt].
    + exists l. split; [done|]. split; [done|]. split; [|done]. intros p e Hp Hpe Hen.
      destruct (decide (p = r)) as [->|Hpr]; [|by apply (proj1 Hh)]. eapply cmp_trans; [exact Hle|by apply Hmax].
    + assert (r < c) by (unfold child in Hch; lia).
      destruct (IH n (swap l r c) c k) as (l' & E & Hp & Hh' & Ho).
      * lia.
      * lia.
      * by rewrite length_swap.
      * lia.
      * rewrite length_swap. lia.
      * apply heap_but_swap; try done. by apply cmp_lt.
      * exists l'. split; [done|]. split; [rewrite Hp; apply swap_perm; lia|]. split; [done|].
        intros i Hi. rewrite Ho by done. apply swap_other; unfold child in Hch; lia.
Qed.

Lemma sift_e_length fuel : forall n l r l', sift_e fuel n l r = Some l' -> length l' = length l.
Proof using Type.
  induction fuel as [|fuel IH]; intros n l r l' E; cbn [sift_e] in E; [done|]. case_decide; [|by injection E as <-].
  destruct (0 <=? _)%Z; [by injection E as <-|]. apply IH in E. by rewrite E, length_swap.
Qed.

(** ** The two phases *)

Fixpoint heapify_e (m n : nat) (l : list A) : option (list A) :=
  match m with
  | O => Some l
  | S i => l' ← sift_e (S n) n l i; heapify_e i n l'
  end.

Fixpoint sort_e (i : nat) (l : list A) : option (list A) :=
  match i with
  | O => Some l
  | S i' => l' ← sift_e (S i) i (swap l 0 i) 0; sort_e i' l'
  end.

Lemma heapify_e_spec m n : forall l,
  length l = n -> m <= n -> heap l m n -> exists l', heapify_e m n l = Some l' /\ l' ≡ₚ l /\ heap l' 0 n.
Proof using Type*.
  induction m as [|i IH]; intros l Hl Hm Hh; cbn [heapify_e]; [by exists l|].
  destruct (sift_e_spec (S n) n l i i) as (l1 & E1 & P1 & H1 & _); [lia|lia|lia|lia|lia| |].
  - split; [intros p c Hp Hpi Hpc Hcn; apply Hh; [lia|done|done]|]. intros q c Hq Hqi. unfold child in Hqi. lia.
  - rewrite E1. cbn [mbind option_bind]. destruct (IH l1) as (l2 & E2 & P2 & H2).
    + by rewrite P1.
    + lia.
    + done.
    + exists l2. split; [done|]. split; [by rewrite P2|done].
Qed.

(** The root of a heap is its largest element. *)
Lemma heap_root l n j : heap l 0 n -> j < n -> ge (l !!! 0) (l !!! j).
Proof using Type*.
  intros Hh. induction j as [j IH] using lt_wf_ind. intros Hj. destruct (decide (j = 0)) as [->|Hne]; [apply ge_refl|].
  set (p := (j - 1) / 2). assert (child p j) as Hc.
  { unfold child, p. pose proof (Nat.div_mod (j - 1) 2 ltac:(lia)). pose proof (Nat.mod_upper_bound (j - 1) 2 ltac:(lia)). lia. }
  unfold child in Hc. eapply cmp_trans; [apply (IH p); lia|]. apply Hh; [lia|done|done].
Qed.

Definition sorted_from (l : list A) (k : nat) : Prop := forall a b, k <= b -> a <= b -> b < length l -> ge (l !!! b) (l !!! a).

(** The order of a prefix does not matter to what is sorted behind it. *)
Lemma sorted_from_perm l l' k :
  l' ≡ₚ l -> (forall i, k <= i -> l' !!! i = l !!! i) -> sorted_from l k -> sorted_from l' k.
Proof using Type*.
  intros Hp Ho Hs a b Hb Hab Hlen. pose proof (Permutation_length Hp) as El.
  rewrite (Ho b) by done. destruct (decide (k <= a)) as [Ha|Ha]; [rewrite Ho by done; apply Hs; lia|].
  assert (drop k l' = drop k l) as Ed.
  { apply list_eq_same_length with (n := length l - k); rewrite ?length_drop; [done|lia|].
    intros i x y Hi. rewrite !lookup_drop. intros Hx Hy. apply list_lookup_total_correct in Hx, Hy. rewrite <- Hx, <- Hy. apply Ho. lia. }
  assert (take k l' ≡ₚ take k l) as Et.
  { rewrite <- (take_drop k l'), <- (take_drop k l), Ed in Hp. by apply Permutation_app_inv_r in Hp. }
  assert (l' !!! a ∈ take k l') as Hin.
  { apply list_elem_of_lookup. exists a. rewrite lookup_take_lt by lia. apply list_lookup_lookup_total_lt. lia. }
  rewrite Et in Hin. apply list_elem_of_lookup in Hin as (i & Hi).
  assert (i < k) as Hik by (apply lookup_lt_Some in Hi; rewrite length_take in Hi; lia).
  rewrite lookup_take_lt in Hi by lia. pose proof (lookup_lt_Some _ _ _ Hi). apply list_lookup_total_correct in Hi. rewrite <- Hi. apply Hs; lia.
Qed.

Lemma sort_e_spec i : forall l,
  i < length l -> heap l 0 (S i) -> sorted_from l (S i) ->
  exists l', sort_e i l = Some l' /\ l' ≡ₚ l /\ sorted_from l' 0.
Proof using Type*.
  induction i as [|i IH]; intros l Hl Hh Hs.
  - exists l. split; [done|]. split; [done|]. intros a b _ Hab Hb. destruct (decide (b = 0)) as [->|].
    + replace a with 0 by lia. apply ge_refl.
    + apply Hs; lia.
  - cbn [sort_e]. set (l1 := swap l 0 (S i)).
    assert (length l1 = length l) as Hl1 by apply length_swap.
    assert (l1 ≡ₚ l) as P1 by (apply swap_perm; lia).
    assert (sorted_from l1 (S i)) as Hs1.
    { intros a b Hb Hab Hlen. destruct (decide (b = S i)) as [->|Hne].
      - unfold l1. rewrite swap_at_j by lia. destruct (decide (a = S i)) as [->|].
        { rewrite swap_at_j by lia. apply ge_refl. }
        destruct (decide (a = 0)) as [->|]; [rewrite swap_at_i by lia; apply heap_root with (S (S i)); [done|lia]|].
        rewrite swap_other by lia. apply heap_root with (S (S i)); [done|lia].
      - apply (sorted_from_perm l l1 (S (S i))); [done| |done|lia|done|done]. intros j Hj. unfold l1. apply swap_other; lia. }
    destruct (sift_e_spec (S (S i)) (S i) l1 0 0) as (l2 & E2 & P2 & H2 & O2); [lia|lia|lia|lia|lia| |].
    + split; [|intros q c Hq Hqi; unfold child in Hqi; lia]. intros p c Hp Hp0 Hpc Hcn. unfold child in Hpc.
      unfold l1. rewrite !swap_other by lia. apply Hh; [lia|done|lia].
    + rewrite E2. cbn [mbind option_bind]. destruct (IH l2) as (l3 & E3 & P3 & H3).
      * rewrite (Permutation_length P2). lia.
      * done.
      * apply (sorted_from_perm l1 l2 (S i)); [done| |done]. intros j Hj. apply O2. by right.
      * exists l3. split; [done|]. split; [by rewrite P3, P2|done].
Qed.

End heap.

(** ** Elements as bytes *)

Open Scope Z_scope.


(** Two elements exchanged. *)
Definition exchange (buf : list Z) (a b size : Z) : list Z := splice (splice buf a (bslice buf b size)) b (bslice buf a size).

(** What a [swap_func] has to do. *)
Definition swaps (f : list Z -> Z -> Z -> Z -> list Z) (size : Z) : Prop :=
  forall buf a b, 0 <= a -> 0 <= b -> a + size <= zlen buf -> b + size <= zlen buf -> a + size <= b \/ b + size <= a ->
    f buf a b size = exchange buf a b size.

Lemma bget_insert buf i j v : 0 <= i < zlen buf -> 0 <= j -> bget (<[Z.to_nat i := v]> buf) j = if j =? i then v else bget buf j.
Proof.
  intros Hi Hj. unfold bget, zlen in *. rewrite !nth_lookup. destruct (Z.eqb_spec j i) as [->|Hne].
  - by rewrite list_lookup_insert_eq by lia.
  - by rewrite list_lookup_insert_ne by lia.
Qed.

Lemma bget_swap_loop n : forall buf a b i,
  0 <= a -> 0 <= b -> a + Z.of_nat n < zlen buf -> b + Z.of_nat n < zlen buf ->
  a + Z.of_nat n < b \/ b + Z.of_nat n < a -> 0 <= i ->
  bget (swap_loop n buf a b) i =
    if (a <=? i) && (i <=? a + Z.of_nat n) then bget buf (i - a + b)
    else if (b <=? i) && (i <=? b + Z.of_nat n) then bget buf (i - b + a) else bget buf i.
Proof.
  induction n as [|n IH]; intros buf a b i Ha Hb Hla Hlb Hd Hi; cbn [swap_loop].
  - rewrite !bget_insert by (unfold zlen in *; rewrite ?length_insert; lia).
    destruct (Z.eqb_spec i b), (Z.eqb_spec i a); repeat case_if; destruct_or?; unbool; try lia; f_equal; lia.
  - assert (forall x y, zlen (<[x := y]> buf) = zlen buf) as El by (intros; unfold zlen; by rewrite length_insert).
    assert (forall x y x' y', zlen (<[x' := y']> (<[x := y]> buf)) = zlen buf) as El'
      by (intros; unfold zlen; by rewrite !length_insert).
    rewrite IH by (rewrite ?El'; lia).
    assert (forall j, 0 <= j -> bget (<[Z.to_nat b := bget buf a]> (<[Z.to_nat a := bget buf b]> buf)) j =
      if j =? b then bget buf a else if j =? a then bget buf b else bget buf j) as Eg.
    { intros j Hj. rewrite !bget_insert by (rewrite ?El; lia). done. }
    destruct (Z.leb_spec (a + 1) i), (Z.leb_spec i (a + 1 + Z.of_nat n)), (Z.leb_spec (b + 1) i), (Z.leb_spec i (b + 1 + Z.of_nat n));
      cbn [andb]; rewrite Eg by lia; repeat case_if; destruct_or?; unbool; try lia; f_equal; lia.
Qed.

Lemma length_swap_loop n : forall buf a b, length (swap_loop n buf a b) = length buf.
Proof. induction n as [|n IH]; intros; cbn [swap_loop]; [|rewrite IH]; by rewrite !length_insert. Qed.

Lemma zlen_exchange buf a b size :
  0 <= size -> 0 <= a -> 0 <= b -> a + size <= zlen buf -> b + size <= zlen buf -> zlen (exchange buf a b size) = zlen buf.
Proof.
  intros. unfold exchange. assert (forall o, 0 <= o -> o + size <= zlen buf -> zlen (bslice buf o size) = size) as E
    by (intros; unfold bslice; rewrite zlen_take, zlen_drop; lia).
  rewrite !zlen_splice; rewrite ?zlen_splice; rewrite ?E; lia.
Qed.

Lemma bget_exchange buf a b size i :
  0 <= size -> 0 <= a -> 0 <= b -> a + size <= zlen buf -> b + size <= zlen buf -> a + size <= b \/ b + size <= a -> 0 <= i < zlen buf ->
  bget (exchange buf a b size) i =
    if (a <=? i) && (i <? a + size) then bget buf (i - a + b)
    else if (b <=? i) && (i <? b + size) then bget buf (i - b + a) else bget buf i.
Proof.
  intros. unfold exchange. assert (forall o, 0 <= o -> o + size <= zlen buf -> zlen (bslice buf o size) = size) as E
    by (intros; unfold bslice; rewrite zlen_take, zlen_drop; lia).
  rewrite bget_splice by (rewrite ?zlen_splice; rewrite ?E; lia). rewrite bget_splice by (rewrite ?E; lia). rewrite !E by lia.
  repeat case_if; destruct_or?; unbool; try lia; rewrite ?bget_bslice by lia; f_equal; lia.
Qed.

Lemma generic_swap_swaps size : 0 < size -> swaps generic_swap size.
Proof.
  intros Hs buf a b Ha Hb Hla Hlb Hd. assert (zlen (exchange buf a b size) = zlen buf) as Ez by (apply zlen_exchange; lia).
  apply bget_ext.
  - rewrite Ez. unfold generic_swap, zlen. by rewrite length_swap_loop.
  - unfold generic_swap, zlen. rewrite length_swap_loop. fold (zlen buf). intros i Hi. rewrite bget_exchange by lia.
    rewrite bget_swap_loop by lia. rewrite Z2Nat.id by lia.
    repeat case_if; destruct_or?; unbool; lia || f_equal; lia.
Qed.

Lemma u32_swap_swaps : swaps u32_swap 4.
Proof. intros buf a b Ha Hb Hla Hlb Hd. reflexivity. Qed.

(** The array of the elements [l]. *)
Definition elements (size : Z) (l : list (list Z)) : Prop := Forall (fun x => zlen x = size) l.

Lemma zlen_concat size l : elements size l -> zlen (concat l) = Z.of_nat (length l) * size.
Proof. induction 1 as [|x l Hx _ IH]; [done|]. cbn [concat length]. rewrite zlen_app, IH. lia. Qed.

Section elements.
Context (size : Z) (Hsize : 0 < size) (l : list (list Z)) (Hl : elements size l) (k : nat) (Hk : (k < length l)%nat).

Lemma concat_at :
  concat l = concat (take k l) ++ (l !!! k) ++ concat (drop (S k) l) /\ Z.of_nat (length (concat (take k l))) = Z.of_nat k * size /\
  zlen (l !!! k) = size.
Proof using Hl Hk Hsize.
  assert (l !! k = Some (l !!! k)) as E by (by apply list_lookup_lookup_total_lt). split; [|split].
  - rewrite <- (take_drop_middle l k _ E) at 1. by rewrite concat_app.
  - fold (zlen (concat (take k l))). rewrite (zlen_concat size) by (by apply Forall_take). rewrite length_take. lia.
  - apply (proj1 (Forall_lookup _ _) Hl k _ E).
Qed.

Lemma bslice_concat : bslice (concat l) (Z.of_nat k * size) size = l !!! k.
Proof using Hl Hk Hsize.
  destruct concat_at as (E & El & Ez). rewrite E. unfold bslice. rewrite drop_app_length' by lia. rewrite take_app_length'; [done|].
  unfold zlen in Ez. lia.
Qed.

Lemma splice_concat x : zlen x = size -> splice (concat l) (Z.of_nat k * size) x = concat (<[k := x]> l).
Proof using Hl Hk Hsize.
  intros Hx. destruct concat_at as (E & El & Ez). rewrite insert_take_drop by done. rewrite concat_app. cbn [concat].
  rewrite E at 1. unfold splice. rewrite take_app_length' by lia. do 2 f_equal. rewrite drop_app_ge by lia.
  rewrite drop_app_ge; unfold zlen in *; [|lia]. replace (_ - _ - _)%nat with 0%nat by lia. apply drop_0.
Qed.

Lemma in_array_at : in_array (concat l) size (Z.of_nat k * size) = true.
Proof using Hl Hk Hsize.
  unfold in_array. rewrite (zlen_concat size) by done. apply andb_true_iff. rewrite !Z.leb_le. nia.
Qed.

Lemma elem_at_concat : elem_at (concat l) size (Z.of_nat k * size) = Some (l !!! k).
Proof using Hl Hk Hsize. unfold elem_at. by rewrite in_array_at, bslice_concat. Qed.

End elements.

Lemma elements_swap size l i j : elements size l -> (i < length l)%nat -> (j < length l)%nat -> elements size (swap l i j).
Proof. intros Hl Hi Hj. unfold elements. by rewrite (swap_perm l i j Hi Hj). Qed.

Lemma exchange_concat size l i j :
  0 < size -> elements size l -> (i < length l)%nat -> (j < length l)%nat ->
  exchange (concat l) (Z.of_nat i * size) (Z.of_nat j * size) size = concat (swap l i j).
Proof.
  intros Hs Hl Hi Hj. unfold exchange. rewrite !(bslice_concat size) by done.
  assert (forall k, (k < length l)%nat -> zlen (l !!! k) = size) as Hz by (intros; by apply (concat_at size)).
  rewrite (splice_concat size) by auto. rewrite (splice_concat size).
  - destruct (decide (i = j)) as [->|Hne]; unfold swap; [by rewrite !list_insert_insert_eq|]. by rewrite list_insert_insert_ne.
  - done.
  - apply Forall_insert; auto.
  - by rewrite length_insert.
  - auto.
Qed.

(** ** The code on elements *)

Section code.
Context (cmp_func : list Z -> list Z -> Z) (swap_func : option (list Z -> Z -> Z -> Z -> list Z)).
Context (size : Z) (Hsize : 0 < size) (Hswap : forall f, swap_func = Some f -> swaps f size).

Lemma the_swap_swaps : swaps (the_swap swap_func size) size.
Proof using Hsize Hswap.
  unfold the_swap. destruct swap_func as [f|]; [by apply Hswap|]. destruct (Z.eqb_spec size 4) as [->|]; [apply u32_swap_swaps|].
  by apply generic_swap_swaps.
Qed.

Lemma swap_at_concat l i j :
  elements size l -> (i < length l)%nat -> (j < length l)%nat -> i <> j ->
  swap_at swap_func (concat l) size (Z.of_nat i * size) (Z.of_nat j * size) = Some (concat (swap l i j)).
Proof using Hsize Hswap.
  intros Hl Hi Hj Hne. unfold swap_at. rewrite !in_array_at by done. cbn [andb]. f_equal.
  rewrite <- (exchange_concat size) by done. apply the_swap_swaps; rewrite ?(zlen_concat size) by done; nia.
Qed.

(** The arithmetic of the inner loop, as long as twice the offsets fit. *)
Lemma child_offset r n :
  (r < n)%nat -> Z.of_nat n * size <= 2 ^ 30 ->
  u32 (Z.of_nat r * size * 2 + size) = Z.of_nat (2 * r + 1) * size /\ u32 (Z.of_nat n * size) = Z.of_nat n * size.
Proof using Hsize. intros Hr Hn. rewrite !u32_small by nia. split; [nia|done]. Qed.

Lemma larger_child_concat n l r :
  elements size l -> (2 * r + 1 < n <= length l)%nat -> Z.of_nat n * size <= 2 ^ 30 ->
  larger_child cmp_func size (Z.of_nat n * size) (concat l) (Z.of_nat r * size) = Some (Z.of_nat (child_e cmp_func n l r) * size).
Proof using Hsize.
  intros Hl Hr Hn. unfold larger_child, child_e.
  assert (s32 (Z.of_nat r * size * 2 + size) = Z.of_nat (2 * r + 1) * size) as -> by (rewrite s32_small; nia).
  rewrite !u32_small by nia.
  destruct (Z.ltb_spec (Z.of_nat (2 * r + 1) * size) (Z.of_nat n * size - size)) as [H|H]; case_decide as Hd; try nia; [|done].
  rewrite (elem_at_concat size) by (done || lia). cbn [mbind option_bind].
  replace (Z.of_nat (2 * r + 1) * size + size) with (Z.of_nat (2 * r + 2) * size) by lia.
  rewrite (elem_at_concat size) by (done || lia). cbn [mbind option_bind]. f_equal. destruct (_ <? 0); [|done]. rewrite s32_small by nia. done.
Qed.

Lemma sift_concat fuel : forall bfuel n l r l',
  elements size l -> (r < n <= length l)%nat -> Z.of_nat n * size <= 2 ^ 30 -> (fuel <= bfuel)%nat ->
  sift_e cmp_func fuel n l r = Some l' ->
  sift cmp_func swap_func bfuel size (Z.of_nat n * size) (concat l) (Z.of_nat r * size) = Some (concat l') /\ elements size l'.
Proof using Hsize Hswap.
  induction fuel as [|fuel IH]; intros bfuel n l r l' Hl Hr Hn Hf E; [done|]. destruct bfuel as [|bfuel]; [lia|].
  cbn [sift sift_e] in *. destruct (child_offset r n) as [-> ->]; [lia|done|]. case_decide as Hc.
  2: { injection E as <-. by destruct (Z.ltb_spec (Z.of_nat (2 * r + 1) * size) (Z.of_nat n * size)); [nia|]. }
  destruct (Z.ltb_spec (Z.of_nat (2 * r + 1) * size) (Z.of_nat n * size)); [|nia].
  rewrite larger_child_concat by (done || lia). cbn [mbind option_bind]. set (c := child_e cmp_func n l r) in *.
  assert (r < c < n)%nat as Hcn by (unfold c, child_e; repeat case_decide; try destruct (_ <? 0); lia).
  rewrite !(elem_at_concat size) by (done || lia). cbn [mbind option_bind]. destruct (0 <=? _); [by injection E as <-|].
  rewrite swap_at_concat by (done || lia). cbn [mbind option_bind]. apply IH; [|rewrite length_swap; lia|done|lia|done].
  apply elements_swap; [done|lia|lia].
Qed.

Lemma heapify_concat m : forall fuel n l l',
  elements size l -> (m <= n)%nat -> length l = n -> Z.of_nat n * size <= 2 ^ 30 -> (m < fuel)%nat ->
  heapify_e cmp_func m n l = Some l' ->
  heapify_loop cmp_func swap_func fuel size (Z.of_nat n * size) (concat l) ((Z.of_nat m - 1) * size) = Some (concat l') /\
  elements size l'.
Proof using Hsize Hswap.
  induction m as [|i IH]; intros fuel n l l' Hl Hm Hn Hb Hf E; destruct fuel as [|fuel]; try lia; cbn [heapify_loop heapify_e] in *.
  - injection E as <-. by destruct (Z.leb_spec 0 ((Z.of_nat 0 - 1) * size)); [lia|].
  - apply bind_Some in E as (l1 & E1 & E2). destruct (Z.leb_spec 0 ((Z.of_nat (S i) - 1) * size)); [|nia].
    replace ((Z.of_nat (S i) - 1) * size) with (Z.of_nat i * size) by lia.
    destruct (sift_concat (S n) (S (Z.to_nat (Z.of_nat n * size))) n l i l1) as [-> Hl1]; [done|lia|done|nia|done|].
    cbn [mbind option_bind]. replace (s32 (Z.of_nat i * size - size)) with ((Z.of_nat i - 1) * size) by (rewrite s32_small; nia).
    apply IH; [done|lia| |done|lia|done].
    rewrite <- Hn. by eapply sift_e_length.
Qed.

Lemma sort_concat i : forall fuel l l',
  elements size l -> (i < length l)%nat -> Z.of_nat (length l) * size <= 2 ^ 30 -> (i < fuel)%nat ->
  sort_e cmp_func i l = Some l' ->
  sort_loop cmp_func swap_func fuel size (concat l) (Z.of_nat i * size) = Some (concat l') /\ elements size l'.
Proof using Hsize Hswap.
  induction i as [|i IH]; intros fuel l l' Hl Hi Hb Hf E; destruct fuel as [|fuel]; try lia; cbn [sort_loop]; [by injection E as <-|].
  cbn [sort_e] in E. apply bind_Some in E as (l1 & E1 & E2). destruct (Z.ltb_spec 0 (Z.of_nat (S i) * size)); [|nia].
  replace (swap_at swap_func (concat l) size 0 (Z.of_nat (S i) * size))
    with (swap_at swap_func (concat l) size (Z.of_nat 0 * size) (Z.of_nat (S i) * size)) by done.
  rewrite swap_at_concat by (done || lia). cbn [mbind option_bind].
  assert (elements size (swap l 0 (S i))) as Hl1 by (apply elements_swap; [done|lia|lia]).
  pose proof (length_swap l 0 (S i)) as Elen.
  destruct (sift_concat (S (S i)) (S (Z.to_nat (Z.of_nat (S i) * size))) (S i) (swap l 0 (S i)) 0 l1) as [E3 Hl2];
    [done|lia|nia|nia|done|].
  change (Z.of_nat 0 * size) with 0 in E3. rewrite E3. cbn [mbind option_bind].
  replace (s32 (Z.of_nat (S i) * size - size)) with (Z.of_nat i * size) by (rewrite s32_small; nia).
  apply sift_e_length in E1. apply IH; [done|lia|rewrite E1, Elen; done|lia|done].
Qed.

End code.

(** C21: [sort] sorts.  For a comparison that is a total preorder and a
    [swap_func] that exchanges two elements, if one is given, [sort] of an array
    of [num] elements of [size] bytes, where the size is not 0 and the array has
    at most 2^30 bytes (the offsets are ints), ends, touches nothing outside of the array
    and leaves the same elements in ascending order. *)
Theorem sort_sorts cmp_func swap_func size l :
  Comparison cmp_func -> 0 < size <= 2 ^ 30 -> (forall f, swap_func = Some f -> swaps f size) ->
  elements size l -> Z.of_nat (length l) * size <= 2 ^ 30 ->
  exists l', sort cmp_func swap_func (concat l) (Z.of_nat (length l)) size = Some (concat l') /\ l' ≡ₚ l /\
    forall a b, (a <= b < length l)%nat -> 0 <= cmp_func (l' !!! b) (l' !!! a).
Proof.
  intros Hcmp [Hsize Hmax] Hswap Hl Hb. set (n := length l) in *.
  assert (heap cmp_func l (n / 2) n) as H0.
  { intros p c Hp Hpc Hcn. unfold child in Hpc. pose proof (Nat.div_mod n 2 ltac:(lia)).
    pose proof (Nat.mod_upper_bound n 2 ltac:(lia)). lia. }
  assert (n / 2 <= n)%nat as Hhalf by (apply Nat.Div0.div_le_upper_bound; lia).
  destruct (heapify_e_spec cmp_func (n / 2) n l eq_refl) as (l1 & E1 & P1 & H1); [done|done|].
  pose proof (Permutation_length P1) as El1. fold n in El1.
  destruct (heapify_concat cmp_func swap_func size Hsize Hswap (n / 2) (S (S (Z.to_nat (Z.of_nat n * size)))) n l l1)
    as [E1' Hl1]; [done|done|done|done|nia|done|].
  assert (s32 (Z.of_nat n * size) = Z.of_nat n * size) as En by (rewrite s32_small; nia).
  assert (s32 (u32 (Z.of_nat n / 2 - 1) * size) = (Z.of_nat (n / 2) - 1) * size) as Ei.
  { destruct (decide (n < 2)%nat) as [Hlt|Hge].
    - rewrite Nat.div_small, Z.div_small by lia. change (u32 (0 - 1)) with (2 ^ 32 - 1). unfold s32.
      replace ((2 ^ 32 - 1) * size + 2 ^ 31) with (2 ^ 31 - size + size * 2 ^ 32) by lia.
      rewrite Z.mod_add, Z.mod_small by lia. lia.
    - assert (1 <= Z.of_nat n / 2 <= Z.of_nat n) by (split; [apply Z.div_le_lower_bound|apply Z.div_le_upper_bound]; lia).
      rewrite u32_small, s32_small, Nat2Z.inj_div by nia. done. }
  unfold sort. rewrite En, Ei, E1'. cbn [mbind option_bind]. destruct (decide (n = 0%nat)) as [Hn0|Hn0].
  - exists l1. split; [|split; [done|lia]]. rewrite Hn0. rewrite s32_small by lia. cbn [sort_loop].
    by destruct (Z.ltb_spec 0 (Z.of_nat 0 * size - size)); [lia|].
  - destruct (sort_e_spec cmp_func (n - 1) l1) as (l2 & E2 & P2 & H2); [lia|by replace (S (n - 1)) with n by lia|intros a b; lia|].
    exists l2. split; [|split; [by rewrite P2|]].
    + replace (s32 (Z.of_nat n * size - size)) with (Z.of_nat (n - 1) * size) by (rewrite s32_small; nia).
      apply (sort_concat cmp_func swap_func size Hsize Hswap); [done|lia|by rewrite El1|nia|done].
    + intros a b Hab. apply H2; [lia|lia|]. apply Permutation_length in P2. lia.
Qed.

Definition by_first (x y : list Z) : Z := bget x 0 - bget y 0.

Lemma sort_sorts_witness :
  exists l', sort by_first None (concat [[3; 1; 1]; [1; 2; 2]; [2; 3; 3]]) 3 3 = Some (concat l') /\
    l' ≡ₚ [[3; 1; 1]; [1; 2; 2]; [2; 3; 3]].
Proof.
  destruct (sort_sorts by_first None 3 [[3; 1; 1]; [1; 2; 2]; [2; 3; 3]]) as (l' & E & P & _).
  - split; unfold ge, by_first; intros; lia.
  - lia.
  - intros f F. discriminate F.
  - repeat constructor.
  - cbn. lia.
  - exists l'. split; [exact E|exact P].
Defined.
