(* ===== verification/ListSort.v ===== *)
(** * The merge sort of lib/list_sort.c

    [list_sort] keeps sorted partial lists, each about twice as long as the one
    before, and merges them like the carries of a counter.  A list is the list
    of its entries; links to the previous entry are not a part of it.  The
    result is sorted and keeps the order of entries that compare equal. *)

From stdpp Require Import base numbers list sorting.
From S2P Require Import Prelude.

Definition MAX_LIST_LENGTH_BITS : nat := 20.

Section list_sort.
Context {A : Type} (cmp : A -> A -> Z).

Fixpoint merge (a : list A) : list A -> list A :=
  fix go (b : list A) : list A :=
    match a, b with
    | [], _ => b
    | _, [] => a
    | x :: a', y :: b' => if cmp x y <=? 0 then x :: merge a' b else y :: go b'
    end.

(** Like [merge]; its last loop follows [tail->next] before it tests it, and
    [None] is the null pointer. *)
Fixpoint merge_and_restore_back_links (a : list A) : list A -> option (list A) :=
  fix go (b : list A) : option (list A) :=
    match a, b with
    | [], [] => None
    | [], _ => Some b
    | _, [] => Some a
    | x :: a', y :: b' =>
        if cmp x y <=? 0 then l ← merge_and_restore_back_links a' b; Some (x :: l) else l ← go b'; Some (y :: l)
    end.

(** The inner loop over [part]: the level it ends at, the array and the list
    that goes there; [None] past the end of the array. *)
Fixpoint carry (part : list (list A)) (cur : list A) : option (nat * list (list A) * list A) :=
  match part with
  | [] => None
  | [] :: _ => Some (0%nat, part, cur)
  | p :: part' => '(lev, q, cur') ← carry part' (merge p cur); Some (S lev, [] :: q, cur')
  end.

(** One entry of the list. *)
Definition sort_entry (x : A) (st : list (list A) * nat) : option (list (list A) * nat) :=
  let '(part, max_lev) := st in
  '(lev, part', cur) ← carry part [x];
  let '(lev, max_lev) :=
    if decide (max_lev < lev)%nat
    then let lev := if decide (length part - 1 <= lev)%nat then (lev - 1)%nat else lev in (lev, lev)
    else (lev, max_lev) in
  Some (<[lev := cur]> part', max_lev).

Fixpoint sort_entries (l : list A) (st : list (list A) * nat) : option (list (list A) * nat) :=
  match l with
  | [] => Some st
  | x :: l' => st' ← sort_entry x st; sort_entries l' st'
  end.

(** The loop over the levels below [max_lev]. *)
Fixpoint collect (part : list (list A)) (n : nat) (l : list A) : list A :=
  match n, part with
  | S n', p :: part' => collect part' n' (match p with [] => l | _ => merge p l end)
  | _, _ => l
  end.

Definition list_sort (head : list A) : option (list A) :=
  match head with
  | [] => Some []
  | _ =>
      '(part, max_lev) ← sort_entries head (replicate (S MAX_LIST_LENGTH_BITS) [], 0%nat);
      p ← part !! max_lev;
      merge_and_restore_back_links p (collect part max_lev [])
  end.

(** ** Order *)

Definition le (x y : A) : Prop := cmp x y <= 0.
Definition eqv (x y : A) : Prop := le x y /\ le y x.

#[global] Instance le_dec x y : Decision (le x y) := Z_le_dec _ _.
#[global] Instance eqv_dec x y : Decision (eqv x y) := and_dec _ _.

Class ListComparison : Prop := {
  le_total x y : le x y \/ le y x;
  le_trans x y z : le x y -> le y z -> le x z }.

(** The same entries, those that are equivalent in the same order. *)
Definition same (a b : list A) : Prop := a ≡ₚ b /\ forall z, filter (eqv z) a = filter (eqv z) b.

Lemma same_refl a : same a a.
Proof. done. Qed.
Lemma same_trans a b c : same a b -> same b c -> same a c.
Proof. intros [P1 F1] [P2 F2]. split; [by rewrite P1|]. intros z. by rewrite F1. Qed.
Lemma same_sym a b : same a b -> same b a.
Proof. intros [P F]. split; [done|]. intros z. done. Qed.
Lemma same_app a a' b b' : same a a' -> same b b' -> same (a ++ b) (a' ++ b').
Proof. intros [P F] [P' F']. split; [by rewrite P, P'|]. intros z. by rewrite !filter_app, F, F'. Qed.

Lemma filter_none (P : A -> Prop) {HP : forall x, Decision (P x)} l : (forall e, e ∈ l -> ~ P e) -> filter P l = [].
Proof.
  induction l as [|e l IH]; intros H; [done|]. rewrite filter_cons, decide_False by (apply H; left). apply IH. intros y Hy.
  apply H. by right.
Qed.

Context {Hcmp : ListComparison}.

Lemma merge_nil_r a : merge a [] = a.
Proof. by destruct a. Qed.

Lemma merge_cons x a y b : merge (x :: a) (y :: b) = if cmp x y <=? 0 then x :: merge a (y :: b) else y :: merge (x :: a) b.
Proof. done. Qed.

Lemma not_le x y : ~ le x y -> le y x.
Proof using Hcmp. intros H. by destruct (le_total x y). Qed.

(** The entries of a sorted list that starts behind [y] are not equivalent to [y]. *)
Lemma filter_behind x a y z : StronglySorted le (x :: a) -> ~ le x y -> eqv z y -> filter (eqv z) (x :: a) = [].
Proof using Hcmp.
  intros Hs Hn [Hz1 Hz2]. apply filter_none. intros e He [E1 E2]. apply Hn.
  assert (le x e) as Hxe.
  { apply elem_of_cons in He as [->|He]; [by destruct (le_total x x)|]. inversion_clear Hs as [|? ? _ Hf].
    by apply (proj1 (Forall_forall _ _) Hf). }
  eapply le_trans; [exact Hxe|]. by eapply le_trans.
Qed.

Lemma merge_same a b : StronglySorted le a -> StronglySorted le b -> same (merge a b) (a ++ b).
Proof using Hcmp.
  revert b. induction a as [|x a IHa]; intros b Ha Hb; [by destruct b|].
  induction b as [|y b IHb]; [rewrite merge_nil_r, app_nil_r; apply same_refl|]. rewrite merge_cons.
  inversion_clear Ha as [|? ? Ha' Hx]. inversion_clear Hb as [|? ? Hb' Hy]. destruct (Z.leb_spec (cmp x y) 0) as [Hle|Hgt].
  - apply (same_app [x] [x]); [apply same_refl|]. apply IHa; [done|by constructor].
  - destruct (IHb Hb') as [P F]. split.
    + rewrite P. apply Permutation_middle.
    + intros z. rewrite filter_cons, F. case_decide as Hz.
      * rewrite !filter_app, (filter_behind x a y z); [|by constructor|unfold le; lia|done]. rewrite filter_cons.
        by rewrite decide_True.
      * rewrite !filter_app. f_equal. rewrite (filter_cons _ y). by rewrite decide_False.
Qed.

Lemma merge_sorted a b : StronglySorted le a -> StronglySorted le b -> StronglySorted le (merge a b).
Proof using Hcmp.
  revert b. induction a as [|x a IHa]; intros b Ha Hb; [by destruct b|].
  induction b as [|y b IHb]; [by rewrite merge_nil_r|]. rewrite merge_cons.
  pose proof (merge_same (x :: a) b Ha) as Hm1. pose proof (merge_same a (y :: b)) as Hm2. pose proof Ha as Ha0. pose proof Hb as Hb0.
  inversion_clear Ha as [|? ? Ha' Hx]. inversion_clear Hb as [|? ? Hb' Hy]. destruct (Z.leb_spec (cmp x y) 0) as [Hle|Hgt].
  - constructor; [by apply IHa|]. rewrite (proj1 (Hm2 Ha' Hb0)). apply Forall_app. split; [done|]. constructor; [done|].
    eapply Forall_impl; [exact Hy|]. intros e He. by eapply le_trans.
  - assert (le y x) as Hyx by (apply not_le; unfold le; lia). constructor; [by apply IHb|]. rewrite (proj1 (Hm1 Hb')).
    apply Forall_app. split; [|done]. constructor; [done|]. eapply Forall_impl; [exact Hx|]. intros e He. by eapply le_trans.
Qed.

Lemma restore_cons x a y b : merge_and_restore_back_links (x :: a) (y :: b) =
  if cmp x y <=? 0 then (l ← merge_and_restore_back_links a (y :: b); Some (x :: l))
  else (l ← merge_and_restore_back_links (x :: a) b; Some (y :: l)).
Proof. done. Qed.

Lemma restore_merge a b : a <> [] \/ b <> [] -> merge_and_restore_back_links a b = Some (merge a b).
Proof using Type.
  revert b. induction a as [|x a IHa]; intros b Hn; [by destruct b; [naive_solver|]|].
  induction b as [|y b IHb]; [done|]. rewrite merge_cons, restore_cons.
  destruct (cmp x y <=? 0); [rewrite IHa by (by right); done|]. rewrite IHb by (by left). done.
Qed.

(** ** The partial lists *)

(** All entries, oldest first. *)
Definition order (part : list (list A)) : list A := concat (rev part).

Lemma order_cons p part : order (p :: part) = order part ++ p.
Proof. unfold order. cbn [rev]. rewrite concat_app. cbn. by rewrite app_nil_r. Qed.

Lemma carry_spec part : forall cur, Forall (StronglySorted le) part -> StronglySorted le cur -> [] ∈ part ->
  exists lev q cur', carry part cur = Some (lev, q, cur') /\ length q = length part /\ StronglySorted le cur' /\
    q = replicate lev [] ++ drop lev part /\ part !! lev = Some [] /\ same (order (drop lev part) ++ cur') (order part ++ cur) /\
    (forall i p, (i < lev)%nat -> part !! i = Some p -> p <> []) /\ (cur <> [] -> cur' <> []).
Proof using Hcmp.
  induction part as [|p part IH]; intros cur Hs Hc Hin; [by apply not_elem_of_nil in Hin|].
  destruct p as [|x p]; cbn [carry].
  - exists 0%nat, ([] :: part), cur. split_and!; try done. intros i p Hi. lia.
  - apply Forall_cons_1 in Hs as [Hp Hs]. apply elem_of_cons in Hin as [?|Hin]; [done|].
    destruct (IH (merge (x :: p) cur) Hs (merge_sorted _ _ Hp Hc) Hin) as (lev & q & cur' & E & El & Hs' & Eq & Hlev & Hsm & Hne & Hc').
    rewrite E. cbn [mbind option_bind]. exists (S lev), ([] :: q), cur'. split_and!; try done.
    + cbn. lia.
    + cbn. by rewrite Eq.
    + rewrite order_cons, <- app_assoc. cbn [drop]. eapply same_trans; [exact Hsm|]. apply same_app; [apply same_refl|].
      by apply merge_same.
    + intros [|i] r Hi Hr; [by injection Hr as <-|]. apply (Hne i r); [lia|done].
    + intros _. apply Hc'. destruct (merge_same (x :: p) cur Hp Hc) as [P _]. intros F. rewrite F in P.
      by apply Permutation_nil_l in P.
Qed.

Lemma order_app a b : order (a ++ b) = order b ++ order a.
Proof. unfold order. by rewrite rev_app_distr, concat_app. Qed.

Lemma order_empty part : (forall i, (i < length part)%nat -> part !! i = Some []) -> order part = [].
Proof.
  induction part as [|p part IH]; intros H; [done|]. rewrite order_cons, IH.
  - specialize (H 0%nat ltac:(cbn; lia)). by injection H as ->.
  - intros i Hi. apply (H (S i)). cbn. lia.
Qed.

Lemma order_replicate n part : order (replicate n [] ++ part) = order part.
Proof. induction n as [|n IH]; [done|]. cbn [replicate app]. by rewrite order_cons, app_nil_r. Qed.

Lemma insert_replicate {B} n (x y : B) l : <[n := x]> (replicate n y ++ l) = replicate n y ++ <[0%nat := x]> l.
Proof. rewrite insert_app_r_alt by (by rewrite length_replicate). by rewrite length_replicate, Nat.sub_diag. Qed.

(** The partial lists after the entries [l]. *)
Record parts_ok (part : list (list A)) (max_lev : nat) (l : list A) : Prop := {
  pa_len : length part = S MAX_LIST_LENGTH_BITS;
  pa_sorted : Forall (StronglySorted le) part;
  pa_max : (max_lev < MAX_LIST_LENGTH_BITS)%nat;
  pa_above i : (max_lev < i < length part)%nat -> part !! i = Some [];
  pa_same : same (order part) l;
  pa_top : l = [] /\ max_lev = 0%nat \/ exists p, part !! max_lev = Some p /\ p <> [] }.

Lemma parts_ok_start : parts_ok (replicate (S MAX_LIST_LENGTH_BITS) []) 0 [].
Proof.
  split; [by rewrite length_replicate|apply Forall_replicate; constructor|unfold MAX_LIST_LENGTH_BITS; lia| |done|by left].
  intros i Hi. rewrite length_replicate in Hi. apply lookup_replicate. split; [done|lia].
Qed.

(** Where the carried list goes, at the level [k]. *)
Lemma parts_ok_put part max_lev l x lev k max_lev' q cur :
  parts_ok part max_lev l -> q = replicate lev [] ++ drop lev part -> part !! lev = Some [] -> StronglySorted le cur -> cur <> [] ->
  same (order (drop lev part) ++ cur) (order part ++ [x]) ->
  (k = lev /\ max_lev' = Nat.max max_lev lev /\ (max_lev' < MAX_LIST_LENGTH_BITS)%nat \/
   lev = MAX_LIST_LENGTH_BITS /\ k = (lev - 1)%nat /\ max_lev' = k) ->
  parts_ok (<[k := cur]> q) max_lev' (l ++ [x]).
Proof.
  intros [K1 K2 K3 K4 K5 K6] -> Hlev Hcur Hne Hsm Hk. pose proof (lookup_lt_Some _ _ _ Hlev) as Hlt.
  assert (drop lev part = [] :: drop (S lev) part) as Ed by (by apply drop_S).
  assert (order (<[k := cur]> (replicate lev [] ++ drop lev part)) = order (drop lev part) ++ cur) as Eo.
  { destruct Hk as [(-> & _)|(-> & -> & _)].
    - rewrite insert_replicate, order_replicate, Ed. cbn [insert list_insert]. rewrite !order_cons, app_nil_r. done.
    - unfold MAX_LIST_LENGTH_BITS in *. rewrite (drop_ge part 21) in Ed by lia. rewrite Ed. cbn. by rewrite app_nil_r. }
  assert (length (replicate lev ([] : list A) ++ drop lev part) = length part) as El
    by (rewrite length_app, length_replicate, length_drop; lia).
  split.
  - rewrite length_insert. lia.
  - apply Forall_insert; [|done]. apply Forall_app. split; [apply Forall_replicate; constructor|by apply Forall_drop].
  - unfold MAX_LIST_LENGTH_BITS in *. lia.
  - rewrite length_insert, El. intros i Hi. rewrite list_lookup_insert_ne by lia. destruct (decide (i < lev)%nat).
    + rewrite lookup_app_l by (rewrite length_replicate; lia). apply lookup_replicate. done.
    + rewrite lookup_app_r by (rewrite length_replicate; lia). rewrite length_replicate, lookup_drop.
      replace (lev + (i - lev))%nat with i by lia. destruct (decide (i = lev)) as [->|]; [done|]. apply K4. lia.
  - rewrite Eo. eapply same_trans; [exact Hsm|]. by apply same_app.
  - right. destruct (decide (k = max_lev')) as [<-|Hkm].
    + exists cur. split; [|done]. apply list_lookup_insert_eq. lia.
    + assert (k = lev /\ max_lev' = max_lev /\ (lev < max_lev)%nat) as (-> & -> & Hl') by lia.
      destruct K6 as [[_ ->]|(p & Hp & Hpn)]; [lia|]. exists p. split; [|done]. rewrite list_lookup_insert_ne by lia.
      rewrite lookup_app_r by (rewrite length_replicate; lia). rewrite length_replicate, lookup_drop.
      by replace (lev + (max_lev - lev))%nat with max_lev by lia.
Qed.

Lemma sort_entry_ok part max_lev l x :
  parts_ok part max_lev l ->
  exists part' max_lev', sort_entry x (part, max_lev) = Some (part', max_lev') /\ parts_ok part' max_lev' (l ++ [x]).
Proof using Hcmp.
  intros Hok. pose proof Hok as [K1 K2 K3 K4 K5 K6].
  assert ([] ∈ part) as Hin.
  { apply list_elem_of_lookup. exists MAX_LIST_LENGTH_BITS. apply K4. lia. }
  destruct (carry_spec part [x] K2) as (lev & q & cur & E & El & Hcur & Eq & Hlev & Hsm & Hbelow & Hne); [repeat constructor|done|].
  assert (lev <= MAX_LIST_LENGTH_BITS)%nat as Hle by (apply lookup_lt_Some in Hlev; lia).
  unfold sort_entry. rewrite E. cbn [mbind option_bind]. case_decide as Hd.
  - rewrite K1. cbn [Nat.sub]. rewrite Nat.sub_0_r. case_decide as Hd'.
    + eexists _, _. split; [done|]. eapply parts_ok_put; [done|done|done|done|by apply Hne|done|right; lia].
    + eexists _, _. split; [done|]. eapply parts_ok_put; [done|done|done|done|by apply Hne|done|left; lia].
  - eexists _, _. split; [done|]. eapply parts_ok_put; [done|done|done|done|by apply Hne|done|left; lia].
Qed.

Lemma sort_entries_ok l : forall part max_lev l0,
  parts_ok part max_lev l0 ->
  exists part' max_lev', sort_entries l (part, max_lev) = Some (part', max_lev') /\ parts_ok part' max_lev' (l0 ++ l).
Proof using Hcmp.
  induction l as [|x l IH]; intros part max_lev l0 Hok; cbn [sort_entries].
  - exists part, max_lev. by rewrite app_nil_r.
  - destruct (sort_entry_ok part max_lev l0 x Hok) as (part1 & max1 & -> & Hok1). cbn [mbind option_bind].
    destruct (IH part1 max1 (l0 ++ [x]) Hok1) as (part2 & max2 & E & Hok2). exists part2, max2. by rewrite <- app_assoc in Hok2.
Qed.

Lemma collect_spec n : forall part l,
  (n <= length part)%nat -> Forall (StronglySorted le) part -> StronglySorted le l ->
  StronglySorted le (collect part n l) /\ same (collect part n l) (order (take n part) ++ l).
Proof using Hcmp.
  induction n as [|n IH]; intros part l Hn Hp Hl; [by destruct part|]. destruct part as [|p part]; [cbn in Hn; lia|].
  cbn [collect take]. apply Forall_cons_1 in Hp as [Hp0 Hp]. cbn in Hn.
  assert (StronglySorted le (match p with [] => l | _ => merge p l end) /\ same (match p with [] => l | _ => merge p l end) (p ++ l)) as [S1 S2].
  { destruct p; [done|]. split; [by apply merge_sorted|by apply merge_same]. }
  destruct (IH part _ ltac:(lia) Hp S1) as [H1 H2]. split; [done|]. eapply same_trans; [exact H2|].
  rewrite order_cons, <- app_assoc. by apply same_app.
Qed.

End list_sort.

Arguments ListComparison {A} cmp.

(** C22: [list_sort] is a stable sort.  For a comparison that is a total
    preorder it ends, never leaves the array of partial lists and follows no
    null pointer, for lists of any length; the result has the same entries in
    ascending order, and those that compare equal are in the order in which
    they were. *)
Theorem list_sort_stable {A} (cmp : A -> A -> Z) (l : list A) :
  ListComparison cmp ->
  exists l', list_sort cmp l = Some l' /\ StronglySorted (le cmp) l' /\ l' ≡ₚ l /\
    forall z, filter (eqv cmp z) l' = filter (eqv cmp z) l.
Proof.
  intros Hcmp. destruct l as [|x l]; [exists []; by repeat constructor|].
  destruct (sort_entries_ok cmp (x :: l) _ _ _ (parts_ok_start cmp)) as (part & max_lev & E & [K1 K2 K3 K4 K5 K6]).
  destruct K6 as [[? _]|(p & Hp & Hne)]; [done|].
  destruct (collect_spec cmp max_lev part []) as [S1 S2]; [lia|done|constructor|].
  unfold list_sort. rewrite E. cbn [mbind option_bind]. rewrite Hp. cbn [mbind option_bind].
  rewrite restore_merge by (by left). eexists. split; [done|].
  assert (StronglySorted (le cmp) p) as Sp by (by apply (proj1 (Forall_lookup _ _) K2 max_lev)).
  split; [by apply merge_sorted|].
  assert (same cmp (merge cmp p (collect cmp part max_lev [])) (x :: l)) as [P F]; [|by split].
  eapply same_trans; [by apply merge_same|]. eapply same_trans; [apply same_app; [apply same_refl|exact S2]|].
  rewrite app_nil_r. eapply same_trans; [|exact K5]. rewrite <- (take_drop_middle part max_lev p Hp) at 2.
  rewrite order_app, order_cons, (order_empty (drop (S max_lev) part)); [cbn; apply same_refl|]. intros i Hi. rewrite length_drop in Hi. rewrite lookup_drop. apply K4. lia.
Qed.

Definition by_key (x y : Z * Z) : Z := x.1 - y.1.

Lemma list_sort_stable_witness :
  exists l', list_sort by_key [(3, 1); (1, 2); (3, 3); (1, 4); (2, 5)] = Some l' /\ StronglySorted (le by_key) l'.
Proof.
  destruct (list_sort_stable by_key [(3, 1); (1, 2); (3, 3); (1, 4); (2, 5)]) as (l' & E & H & _).
  - split; unfold le, by_key; intros; lia.
  - exists l'. split; [exact E|exact H].
Defined.
