(* ===== verification/KFifo.v ===== *)
(** * Queues (kernel/kfifo.c)

    A fifo of elements of [esize] bytes in a buffer of a power of two of
    elements; [in] and [out] count up and wrap around at 32 bits.  Fifos of
    records hold the length of each record, one or two bytes, in front of it.
    The macros of include/linux/kfifo.h take the size of that length, which is
    0 for a fifo of elements. *)

From stdpp Require Import base numbers list gmap.
From S2P Require Import Prelude.

Open Scope Z_scope.

Record kfifo := KFifo {
  fin : Z;
  fout : Z;
  mask : Z;
  esize : Z;
  data : list Z }.

Definition set_in (x : Z) (f : kfifo) : kfifo := KFifo x (fout f) (mask f) (esize f) (data f).
Definition set_out (x : Z) (f : kfifo) : kfifo := KFifo (fin f) x (mask f) (esize f) (data f).
Definition set_data (x : list Z) (f : kfifo) : kfifo := KFifo (fin f) (fout f) (mask f) (esize f) x.

Definition kfifo_len (f : kfifo) : Z := u32 (fin f - fout f).
Definition kfifo_size (f : kfifo) : Z := u32 (mask f + 1).
Definition kfifo_unused (f : kfifo) : Z := u32 (mask f + 1 - (fin f - fout f)).
Definition kfifo_is_full (f : kfifo) : bool := mask f <? kfifo_len f.
Definition kfifo_is_empty (f : kfifo) : bool := fin f =? fout f.

(** ** Set-up *)

Definition power_of_2b (n : Z) : bool := negb (n =? 0) && (Z.land n (n - 1) =? 0).
(** Not defined for 0, for which the shift yields 0 on ARM. *)
Definition rounddown_pow_of_two (n : Z) : Z := if n =? 0 then 0 else 2 ^ Z.log2 n.
Definition DIV_ROUND_UP (n d : Z) : Z := (n + d - 1) / d.

(** [kmalloc] gives memory of a size, with some content, or fails. *)
Definition __kfifo_alloc (kmalloc : Z -> option (list Z)) (size es : Z) : kfifo * Z :=
  let size := if negb (power_of_2b size) then rounddown_pow_of_two size else size in
  if size <? 2 then (KFifo 0 0 0 es [], - EINVAL)
  else
    match kmalloc (u32 (size * es)) with
    | None => (KFifo 0 0 0 es [], - ENOMEM)
    | Some d => (KFifo 0 0 (size - 1) es d, 0)
    end.

Definition __kfifo_free (f : kfifo) : kfifo := KFifo 0 0 0 0 [].

Definition __kfifo_init (buffer : list Z) (size es : Z) : kfifo * Z :=
  let size := size / es in
  let size := if negb (power_of_2b size) then rounddown_pow_of_two size else size in
  if size <? 2 then (KFifo 0 0 0 es buffer, - EINVAL) else (KFifo 0 0 (size - 1) es buffer, 0).

(** ** Elements *)

(** Offset, size of the buffer and length in bytes, and the part up to the end
    of the buffer. *)
Definition in_bytes (f : kfifo) (len off : Z) : Z * Z * Z * Z :=
  let size := u32 (mask f + 1) in
  let off := Z.land off (mask f) in
  let '(off, size, len) :=
    if negb (esize f =? 1) then (u32 (off * esize f), u32 (size * esize f), u32 (len * esize f)) else (off, size, len) in
  (off, size, len, Z.min len (u32 (size - off))).

Definition kfifo_copy_in (f : kfifo) (src : list Z) (len off : Z) : kfifo :=
  let '(off, size, len, l) := in_bytes f len off in
  set_data (splice (splice (data f) off (bslice src 0 l)) 0 (bslice src l (len - l))) f.

Definition __kfifo_in (f : kfifo) (buf : list Z) (len : Z) : kfifo * Z :=
  let l := kfifo_unused f in
  let len := if l <? len then l else len in
  let f := kfifo_copy_in f buf len (fin f) in
  (set_in (u32 (fin f + len)) f, len).

Definition kfifo_copy_out (f : kfifo) (len off : Z) : list Z :=
  let '(off, size, len, l) := in_bytes f len off in
  bslice (data f) off l ++ bslice (data f) 0 (len - l).

Definition __kfifo_out_peek (f : kfifo) (len : Z) : list Z * Z :=
  let l := u32 (fin f - fout f) in
  let len := if l <? len then l else len in
  (kfifo_copy_out f len (fout f), len).

Definition __kfifo_out (f : kfifo) (len : Z) : kfifo * list Z * Z :=
  let '(buf, len) := __kfifo_out_peek f len in
  (set_out (u32 (fout f + len)) f, buf, len).

(** ** User space *)

(** The fifo, the elements that were not copied and [*copied]. *)
Definition kfifo_copy_from_user (f : kfifo) (m : umem) (from len off : Z) : kfifo * Z * Z :=
  let '(off, size, len, l) := in_bytes f len off in
  let '(bs, r) := copy_from_user m from l in
  let f1 := set_data (splice (data f) off bs) f in
  let '(f2, r) :=
    if negb (r =? 0) then (f1, DIV_ROUND_UP (u32 (r + len - l)) (esize f))
    else
      let '(bs', r') := copy_from_user m (u32 (from + l)) (len - l) in
      let f2 := set_data (splice (data f1) 0 bs') f1 in
      (f2, if negb (r' =? 0) then DIV_ROUND_UP r' (esize f) else r') in
  (f2, r, u32 (len - r)).

Definition __kfifo_from_user (f : kfifo) (m : umem) (from len : Z) : kfifo * Z * Z :=
  let len := if negb (esize f =? 1) then len / esize f else len in
  let l := kfifo_unused f in
  let len := if l <? len then l else len in
  let '(f', r, copied) := kfifo_copy_from_user f m from len (fin f) in
  let '(len, err) := if negb (r =? 0) then (len - r, - EFAULT) else (len, 0) in
  (set_in (u32 (fin f + len)) f', err, copied).

Definition kfifo_copy_to_user (f : kfifo) (m : umem) (to len off : Z) : umem * Z * Z :=
  let '(off, size, len, l) := in_bytes f len off in
  let '(m1, r) := copy_to_user m to (bslice (data f) off l) in
  let '(m2, r) :=
    if negb (r =? 0) then (m1, DIV_ROUND_UP (u32 (r + len - l)) (esize f))
    else
      let '(m2, r') := copy_to_user m1 (u32 (to + l)) (bslice (data f) 0 (len - l)) in
      (m2, if negb (r' =? 0) then DIV_ROUND_UP r' (esize f) else r') in
  (m2, r, u32 (len - r)).

Definition __kfifo_to_user (f : kfifo) (m : umem) (to len : Z) : kfifo * umem * Z * Z :=
  let len := if negb (esize f =? 1) then len / esize f else len in
  let l := u32 (fin f - fout f) in
  let len := if l <? len then l else len in
  let '(m', r, copied) := kfifo_copy_to_user f m to len (fout f) in
  let '(len, err) := if negb (r =? 0) then (len - r, - EFAULT) else (len, 0) in
  (set_out (u32 (fout f + len)) f, m', err, copied).

(** ** Records *)

Definition __kfifo_max_r (len recsize : Z) : Z :=
  let max := u32 (2 ^ (recsize * 8) - 1) in if max <? len then max else len.

Definition KFIFO_PEEK (d : list Z) (out m : Z) : Z := bget d (Z.land out m).
Definition __kfifo_peek_n (f : kfifo) (recsize : Z) : Z :=
  let l := KFIFO_PEEK (data f) (fout f) (mask f) in
  if negb (recsize - 1 =? 0)
  then Z.lor l (Z.shiftl (KFIFO_PEEK (data f) (u32 (fout f + 1)) (mask f)) 8) else l.

Definition KFIFO_POKE (d : list Z) (i m val : Z) : list Z := <[Z.to_nat (Z.land i m) := val mod 256]> d.
Definition __kfifo_poke_n (f : kfifo) (n recsize : Z) : kfifo :=
  let d := KFIFO_POKE (data f) (fin f) (mask f) n in
  set_data (if 1 <? recsize then KFIFO_POKE d (u32 (fin f + 1)) (mask f) (Z.shiftr n 8) else d) f.

Definition __kfifo_len_r (f : kfifo) (recsize : Z) : Z := __kfifo_peek_n f recsize.

Definition __kfifo_in_r (f : kfifo) (buf : list Z) (len recsize : Z) : kfifo * Z :=
  if kfifo_unused f <? u32 (len + recsize) then (f, 0)
  else
    let f := __kfifo_poke_n f len recsize in
    let f := kfifo_copy_in f buf len (u32 (fin f + recsize)) in
    (set_in (u32 (fin f + u32 (len + recsize))) f, len).

Definition kfifo_out_copy_r (f : kfifo) (len recsize : Z) : list Z * Z * Z :=
  let n := __kfifo_peek_n f recsize in
  let len := if n <? len then n else len in
  (kfifo_copy_out f len (u32 (fout f + recsize)), len, n).

Definition __kfifo_out_peek_r (f : kfifo) (len recsize : Z) : list Z * Z :=
  if fin f =? fout f then ([], 0)
  else let '(buf, len, _) := kfifo_out_copy_r f len recsize in (buf, len).

Definition __kfifo_out_r (f : kfifo) (len recsize : Z) : kfifo * list Z * Z :=
  if fin f =? fout f then (f, [], 0)
  else
    let '(buf, len, n) := kfifo_out_copy_r f len recsize in
    (set_out (u32 (fout f + u32 (n + recsize))) f, buf, len).

Definition __kfifo_skip_r (f : kfifo) (recsize : Z) : kfifo :=
  let n := __kfifo_peek_n f recsize in set_out (u32 (fout f + u32 (n + recsize))) f.

Definition __kfifo_from_user_r (f : kfifo) (m : umem) (from len recsize : Z) : kfifo * Z * Z :=
  let len := __kfifo_max_r len recsize in
  if kfifo_unused f <? u32 (len + recsize) then (f, 0, 0)
  else
    let f := __kfifo_poke_n f len recsize in
    let '(f', r, copied) := kfifo_copy_from_user f m from len (u32 (fin f + recsize)) in
    if negb (r =? 0) then (f', - EFAULT, 0) else (set_in (u32 (fin f + u32 (len + recsize))) f', 0, copied).

Definition __kfifo_to_user_r (f : kfifo) (m : umem) (to len recsize : Z) : kfifo * umem * Z * Z :=
  if fin f =? fout f then (f, m, 0, 0)
  else
    let n := __kfifo_peek_n f recsize in
    let len := if n <? len then n else len in
    let '(m', r, copied) := kfifo_copy_to_user f m to len (u32 (fout f + recsize)) in
    if negb (r =? 0) then (f, m', - EFAULT, 0)
    else (set_out (u32 (fout f + u32 (n + recsize))) f, m', 0, copied).

Definition __kfifo_dma_in_finish_r (f : kfifo) (len recsize : Z) : kfifo :=
  let len := __kfifo_max_r len recsize in
  let f := __kfifo_poke_n f len recsize in
  set_in (u32 (fin f + u32 (len + recsize))) f.

Definition __kfifo_dma_out_finish_r (f : kfifo) (recsize : Z) : kfifo :=
  let len := __kfifo_peek_n f recsize in set_out (u32 (fout f + u32 (len + recsize))) f.

(** ** DMA *)

(** An entry of a scatter list: page (its number), length and offset. *)
Record scatterlist := Sg { sg_page : Z; sg_length : Z; sg_offset : Z }.

Section dma.
(** The physical address of a page, and the address of the data. *)
Context (page_to_phys : Z -> Z) (base : Z).

(** The entries that are filled; [room] is the number of entries to the end of
    the list. *)
Fixpoint sgl_loop (fuel : nat) (room nents n page off l buf len : Z) : list scatterlist :=
  match fuel with
  | O => []
  | S fuel =>
      if u32 (l + PAGE_SIZE - off) <=? len then
        let l := u32 (l + PAGE_SIZE) in
        let buf := u32 (buf + PAGE_SIZE) in
        let npage := buf / PAGE_SIZE in
        if negb (page_to_phys page =? u32 (page_to_phys npage - l)) then
          Sg page (u32 (l - off)) off ::
          (if (n + 1 =? nents) || (room =? 1) then []
           else sgl_loop fuel (room - 1) nents (n + 1) npage 0 0 buf (u32 (len - (l - off))))
        else sgl_loop fuel room nents n page off l buf len
      else [Sg page len off]
  end.

Definition setup_sgl_buf (room buf nents len : Z) : list scatterlist :=
  if nents =? 0 then []
  else if len =? 0 then []
  else
    let off := buf mod PAGE_SIZE in
    sgl_loop (S (Z.to_nat ((len + off) / PAGE_SIZE))) room nents 0 (buf / PAGE_SIZE) off 0 buf len.

Definition setup_sgl (f : kfifo) (room nents len off : Z) : list scatterlist :=
  let '(off, size, len, l) := in_bytes f len off in
  let es := setup_sgl_buf room (u32 (base + off)) nents l in
  es ++ setup_sgl_buf (room - zlen es) base (nents - zlen es) (len - l).

Definition __kfifo_dma_in_prepare (f : kfifo) (room nents len : Z) : list scatterlist :=
  let l := kfifo_unused f in
  let len := if l <? len then l else len in
  setup_sgl f room nents len (fin f).

Definition __kfifo_dma_out_prepare (f : kfifo) (room nents len : Z) : list scatterlist :=
  let l := u32 (fin f - fout f) in
  let len := if l <? len then l else len in
  setup_sgl f room nents len (fout f).

(** Both stop the kernel if there are no entries. *)
Definition __kfifo_dma_in_prepare_r (f : kfifo) (room nents len recsize : Z) : option (list scatterlist) :=
  if nents =? 0 then None
  else
    let len := __kfifo_max_r len recsize in
    Some (if kfifo_unused f <? u32 (len + recsize) then [] else setup_sgl f room nents len (u32 (fin f + recsize))).

Definition __kfifo_dma_out_prepare_r (f : kfifo) (room nents len recsize : Z) : option (list scatterlist) :=
  if nents =? 0 then None
  else
    let len := __kfifo_max_r len recsize in
    Some (if u32 (fin f - fout f) <? u32 (len + recsize) then [] else setup_sgl f room nents len (u32 (fout f + recsize))).

End dma.

(** ** Macros *)

Definition kfifo_reset (f : kfifo) : kfifo := set_in 0 (set_out 0 f).
Definition kfifo_reset_out (f : kfifo) : kfifo := set_out (fin f) f.

Definition kfifo_avail (f : kfifo) (recsize : Z) : Z :=
  let avail := u32 (kfifo_size f - kfifo_len f) in
  if negb (recsize =? 0) then if avail <=? recsize then 0 else __kfifo_max_r (avail - recsize) recsize else avail.

Definition kfifo_skip (f : kfifo) (recsize : Z) : kfifo :=
  if negb (recsize =? 0) then __kfifo_skip_r f recsize else set_out (u32 (fout f + 1)) f.

Definition kfifo_peek_len (f : kfifo) (recsize : Z) : Z :=
  if recsize =? 0 then u32 (kfifo_len f * esize f) else __kfifo_len_r f recsize.

(** A value [val] has the size of an element. *)
Definition kfifo_put (f : kfifo) (val : list Z) (recsize : Z) : kfifo * Z :=
  if negb (recsize =? 0) then __kfifo_in_r f val (zlen val) recsize
  else if negb (kfifo_is_full f)
  then (set_in (u32 (fin f + 1)) (set_data (splice (data f) (Z.land (fin f) (mask f) * esize f) val) f), 1)
  else (f, 0).

Definition kfifo_peek (f : kfifo) (recsize : Z) : list Z * Z :=
  if negb (recsize =? 0) then __kfifo_out_peek_r f (esize f) recsize
  else if negb (kfifo_is_empty f)
  then (bslice (data f) (Z.land (fout f) (mask f) * esize f) (esize f), 1) else ([], 0).

Definition kfifo_get (f : kfifo) (recsize : Z) : kfifo * list Z * Z :=
  if negb (recsize =? 0) then __kfifo_out_r f (esize f) recsize
  else if negb (kfifo_is_empty f)
  then (set_out (u32 (fout f + 1)) f, bslice (data f) (Z.land (fout f) (mask f) * esize f) (esize f), 1) else (f, [], 0).

Definition kfifo_in (f : kfifo) (buf : list Z) (n recsize : Z) : kfifo * Z :=
  if negb (recsize =? 0) then __kfifo_in_r f buf n recsize else __kfifo_in f buf n.

Definition kfifo_out (f : kfifo) (n recsize : Z) : kfifo * list Z * Z :=
  if negb (recsize =? 0) then __kfifo_out_r f n recsize else __kfifo_out f n.

Definition kfifo_out_peek (f : kfifo) (n recsize : Z) : list Z * Z :=
  if negb (recsize =? 0) then __kfifo_out_peek_r f n recsize else __kfifo_out_peek f n.

Definition kfifo_dma_in_finish (f : kfifo) (len recsize : Z) : kfifo :=
  if negb (recsize =? 0) then __kfifo_dma_in_finish_r f len recsize else set_in (u32 (fin f + len / esize f)) f.

Definition kfifo_dma_out_finish (f : kfifo) (len recsize : Z) : kfifo :=
  if negb (recsize =? 0) then __kfifo_dma_out_finish_r f recsize else set_out (u32 (fout f + len / esize f)) f.
