(* ===== verification/KFifoProps.v ===== *)
(** * Queues: the fifo holds what was put into it

    [fifo_ok f q]: the fifo is well formed and holds the bytes [q], oldest
    first.  Then one reader and one writer that run at the same time, fifos of
    records, and writes from user space that fault. *)

From stdpp Require Import base numbers list gmap.
From S2P Require Import Prelude Ring KFifo.

Open Scope Z_scope.

(** ** Rings *)

(** Bytes that are written behind what the ring holds. *)
Lemma ring_append b p xs w bs :
  w = (p + zlen xs) mod zlen b -> 0 < zlen b -> zlen xs + zlen bs <= zlen b -> ring_holds b p xs ->
  ring_holds (ring_put b w bs) p (xs ++ bs) /\ zlen (ring_put b w bs) = zlen b.
Proof.
  intros Hw Hb Hroom Hxs. pose proof (zlen_nonneg xs). pose proof (zlen_nonneg bs).
  pose proof (Z.mod_pos_bound (p + zlen xs) (zlen b) Hb).
  assert (zlen (ring_put b w bs) = zlen b) as El by (apply zlen_ring_put; lia).
  split; [|done]. apply ring_holds_app. rewrite El. split; [apply ring_put_other; lia || done|]. rewrite <- Hw.
  apply ring_put_same; lia.
Qed.

(** Reading in two pieces. *)
Lemma ring_get b p bs :
  0 <= p < zlen b -> zlen bs <= zlen b -> ring_holds b p bs ->
  let l := Z.min (zlen bs) (zlen b - p) in bslice b p l ++ bslice b 0 (zlen bs - l) = bs.
Proof.
  intros Hp Hfit Hh l. pose proof (zlen_nonneg bs).
  assert (zlen (bslice b p l) = l) as E1 by (apply zlen_bslice; unfold l; lia).
  assert (zlen (bslice b 0 (zlen bs - l)) = zlen bs - l) as E2 by (apply zlen_bslice; unfold l; lia).
  apply bget_ext; [rewrite zlen_app; lia|]. rewrite zlen_app, E1, E2. intros i Hi. rewrite bget_app by lia. rewrite E1.
  rewrite <- (Hh i) by lia. rewrite mod_once by lia. destruct (Z.ltb_spec i l).
  - rewrite bget_bslice by lia. destruct (Z.ltb_spec (p + i) (zlen b)); [done|unfold l in *; lia].
  - rewrite bget_bslice by lia. destruct (Z.ltb_spec (p + i) (zlen b)); [unfold l in *; lia|]. f_equal. unfold l in *. lia.
Qed.

Lemma bslice_bslice {A} (b : list A) n o m : 0 <= o -> 0 <= m -> o + m <= n -> bslice (bslice b 0 n) o m = bslice b o m.
Proof.
  intros Ho Hm Hn. unfold bslice. rewrite skipn_O. rewrite skipn_firstn_comm, take_take. f_equal. lia.
Qed.

(** ** The invariant *)

(** Where the element with the number [x] is. *)
Definition pos (f : kfifo) (x : Z) : Z := x mod (mask f + 1) * esize f.

Record shape_ok (f : kfifo) : Prop := {
  so_size : exists k, 1 <= k <= 31 /\ mask f + 1 = 2 ^ k;
  so_esize : 0 < esize f;
  so_bytes : (mask f + 1) * esize f < 2 ^ 32;
  so_data : zlen (data f) = (mask f + 1) * esize f;
  so_in : 0 <= fin f < 2 ^ 32;
  so_out : 0 <= fout f < 2 ^ 32 }.

Record fifo_ok (f : kfifo) (q : list Z) : Prop := {
  fo_shape : shape_ok f;
  fo_len : zlen q = kfifo_len f * esize f;
  fo_room : kfifo_len f <= mask f + 1;
  fo_holds : ring_holds (data f) (pos f (fout f)) q }.

Section shape.
Context (f : kfifo) (H : shape_ok f).

Lemma size_bounds : 2 <= mask f + 1 <= 2 ^ 31 /\ esize f < 2 ^ 31.
Proof using H.
  destruct (so_size _ H) as (k & Hk & E). pose proof (so_bytes _ H). pose proof (so_esize _ H).
  assert (2 ^ 1 <= 2 ^ k <= 2 ^ 31) by (split; apply Z.pow_le_mono_r; lia). nia.
Qed.

Lemma mod_size x : u32 x mod (mask f + 1) = x mod (mask f + 1).
Proof using H.
  destruct (so_size _ H) as (k & Hk & E). rewrite E. unfold u32. apply Z.mod_mod_divide.
  exists (2 ^ (32 - k)). rewrite <- Z.pow_add_r by lia. f_equal. lia.
Qed.

Lemma land_mask x : Z.land x (mask f) = x mod (mask f + 1).
Proof using H.
  destruct (so_size _ H) as (k & Hk & E). replace (mask f) with (2 ^ k - 1) by lia. rewrite land_pow2_mod by lia. f_equal. lia.
Qed.

Lemma pos_range x : 0 <= pos f x < zlen (data f).
Proof using H.
  pose proof size_bounds. pose proof (so_esize _ H). rewrite (so_data _ H). unfold pos.
  pose proof (Z.mod_pos_bound x (mask f + 1) ltac:(lia)). nia.
Qed.

Lemma pos_add x n : pos f (u32 (x + n)) = (pos f x + n * esize f) mod zlen (data f).
Proof using H.
  pose proof size_bounds. pose proof (so_esize _ H). rewrite (so_data _ H). unfold pos. rewrite mod_size.
  rewrite <- Z.mul_add_distr_r. rewrite Z.mul_mod_distr_r by lia. by rewrite Zplus_mod_idemp_l.
Qed.

Lemma in_bytes_spec len off :
  0 <= len <= mask f + 1 ->
  in_bytes f len off = (pos f off, zlen (data f), len * esize f, Z.min (len * esize f) (zlen (data f) - pos f off)).
Proof using H.
  intros Hl. pose proof size_bounds. pose proof (so_esize _ H). pose proof (so_bytes _ H). pose proof (pos_range off) as Hp.
  rewrite (so_data _ H) in *. unfold pos in *. pose proof (Z.mod_pos_bound off (mask f + 1) ltac:(lia)).
  unfold in_bytes. rewrite land_mask, (u32_small (mask f + 1)) by lia. destruct (Z.eqb_spec (esize f) 1) as [->|Hne]; cbn [negb].
  - rewrite !Z.mul_1_r, u32_small by lia. done.
  - rewrite !u32_small by nia. done.
Qed.

Lemma copy_in_put src len off :
  0 <= len <= mask f + 1 -> len * esize f <= zlen src ->
  kfifo_copy_in f src len off = set_data (ring_put (data f) (pos f off) (bslice src 0 (len * esize f))) f.
Proof using H.
  intros Hl Hs. unfold kfifo_copy_in. rewrite in_bytes_spec by done. pose proof (so_esize _ H). pose proof (pos_range off).
  f_equal. unfold ring_put. rewrite zlen_bslice by nia. rewrite !bslice_bslice by nia. done.
Qed.

Lemma copy_out_get len off bs :
  0 <= len <= mask f + 1 -> zlen bs = len * esize f -> ring_holds (data f) (pos f off) bs ->
  kfifo_copy_out f len off = bs.
Proof using H.
  intros Hl Hb Hh. unfold kfifo_copy_out. rewrite in_bytes_spec by done. rewrite <- Hb. apply ring_get; [apply pos_range| |done].
  rewrite (so_data _ H), Hb. pose proof (so_esize _ H). nia.
Qed.

End shape.

Lemma shape_set_in f x : shape_ok f -> shape_ok (set_in (u32 x) f).
Proof. intros []. split; try done. apply u32_range. Qed.
Lemma shape_set_out f x : shape_ok f -> shape_ok (set_out (u32 x) f).
Proof. intros []. split; try done. apply u32_range. Qed.
Lemma shape_set_data f d : shape_ok f -> zlen d = zlen (data f) -> shape_ok (set_data d f).
Proof. intros [] E. split; try done. cbn. congruence. Qed.

(** ** Counting *)

Lemma u32_sub_add a b n : 0 <= n -> u32 (a - b) + n < 2 ^ 32 -> u32 (u32 (a + n) - b) = u32 (a - b) + n.
Proof.
  intros Hn Hl. unfold u32 in *. rewrite Zminus_mod_idemp_l. replace (a + n - b) with (a - b + n) by lia.
  pose proof (Z.mod_pos_bound (a - b) (2 ^ 32) ltac:(lia)). rewrite <- Zplus_mod_idemp_l. rewrite Z.mod_small; lia.
Qed.

Lemma u32_sub_sub a b n : 0 <= n <= u32 (a - b) -> u32 (a - u32 (b + n)) = u32 (a - b) - n.
Proof.
  intros Hn. unfold u32 in *. rewrite Zminus_mod_idemp_r. replace (a - (b + n)) with (a - b - n) by lia.
  pose proof (Z.mod_pos_bound (a - b) (2 ^ 32) ltac:(lia)). rewrite <- Zminus_mod_idemp_l. rewrite Z.mod_small; lia.
Qed.

Section fifo.
Context (f : kfifo) (q : list Z) (H : fifo_ok f q).

Lemma unused_spec : kfifo_unused f = mask f + 1 - kfifo_len f /\ 0 <= kfifo_len f.
Proof using H.
  destruct H as [Hs Hl Hr _]. pose proof (size_bounds f Hs). unfold kfifo_len in *. pose proof (u32_range (fin f - fout f)).
  split; [|lia]. unfold kfifo_unused. unfold u32 at 1. rewrite <- Zminus_mod_idemp_r. fold (u32 (fin f - fout f)).
  apply Z.mod_small. lia.
Qed.

Lemma pos_in : pos f (fin f) = (pos f (fout f) + zlen q) mod zlen (data f).
Proof using H.
  destruct H as [Hs Hl Hr _]. rewrite Hl. rewrite <- pos_add by done. unfold kfifo_len. f_equal. unfold u32.
  rewrite Zplus_mod_idemp_r. replace (fout f + (fin f - fout f)) with (fin f) by lia. symmetry. apply Z.mod_small. apply Hs.
Qed.

(** Bytes behind the last one do not disturb it. *)
Lemma fifo_put_ok bs :
  zlen q + zlen bs <= zlen (data f) ->
  let f' := set_data (ring_put (data f) (pos f (fin f)) bs) f in
  fifo_ok f' q /\ ring_holds (data f') (pos f' (fout f')) (q ++ bs).
Proof using H.
  intros Hroom. destruct H as [Hs Hl Hr Hh]. pose proof (pos_range f Hs (fout f)) as Hp.
  destruct (ring_append (data f) (pos f (fout f)) q (pos f (fin f)) bs) as [H1 H2]; [apply pos_in|lia|done|done|].
  cbn. split; [|exact H1]. split; [by apply shape_set_data|done|done|]. apply ring_holds_app in H1 as [H1 _]. exact H1.
Qed.

(** Committing bytes that are there. *)
Lemma commit_in n bs :
  0 <= n -> kfifo_len f + n <= mask f + 1 -> zlen bs = n * esize f ->
  ring_holds (data f) (pos f (fout f)) (q ++ bs) -> fifo_ok (set_in (u32 (fin f + n)) f) (q ++ bs).
Proof using H.
  intros Hn Hroom Hb Hh. destruct H as [Hs Hl Hr _]. pose proof (size_bounds f Hs). pose proof unused_spec.
  assert (kfifo_len (set_in (u32 (fin f + n)) f) = kfifo_len f + n) as El by (unfold kfifo_len in *; cbn; apply u32_sub_add; lia).
  split; [by apply shape_set_in|rewrite El, zlen_app, Hl, Hb; cbn; lia|rewrite El; cbn; lia|done].
Qed.

(** Taking bytes out. *)
Lemma commit_out n :
  0 <= n <= kfifo_len f -> fifo_ok (set_out (u32 (fout f + n)) f) (drop (Z.to_nat (n * esize f)) q).
Proof using H.
  intros Hn. destruct H as [Hs Hl Hr Hh]. pose proof (so_esize _ Hs).
  assert (kfifo_len (set_out (u32 (fout f + n)) f) = kfifo_len f - n) as El by (unfold kfifo_len in *; cbn; apply u32_sub_sub; lia).
  split; [by apply shape_set_out|rewrite El, zlen_drop, Hl; cbn; nia|rewrite El; cbn; lia|].
  rewrite <- (take_drop (Z.to_nat (n * esize f)) q) in Hh. apply ring_holds_app in Hh as [_ Hh]. cbn.
  change (pos (set_out _ f)) with (pos f). rewrite pos_add by done. rewrite zlen_take, Hl in Hh.
  replace (Z.min (Z.of_nat (Z.to_nat (n * esize f))) (kfifo_len f * esize f)) with (n * esize f) in Hh by nia. done.
Qed.

Lemma holds_prefix n : 0 <= n <= kfifo_len f -> ring_holds (data f) (pos f (fout f)) (take (Z.to_nat (n * esize f)) q).
Proof using H.
  intros Hn. destruct H as [Hs Hl Hr Hh]. rewrite <- (take_drop (Z.to_nat (n * esize f)) q) in Hh. apply (proj1 (proj1 (ring_holds_app _ _ _ _) Hh)).
Qed.

Lemma copy_out_prefix n : 0 <= n <= kfifo_len f -> kfifo_copy_out f n (fout f) = take (Z.to_nat (n * esize f)) q.
Proof using H.
  intros Hn. pose proof (holds_prefix n Hn). destruct H as [Hs Hl Hr Hh]. pose proof (so_esize _ Hs).
  apply copy_out_get; [done|lia|rewrite zlen_take, Hl; nia|done].
Qed.

End fifo.

(** ** One reader and one writer

    [__kfifo_in] reads [out], copies and then moves [in]; [__kfifo_out] reads
    [in], copies and then moves [out].  The steps of the two interleave; the
    barriers of the code keep their order. *)

Inductive writer := WIdle | WSampled (buf : list Z) (len : Z) | WCopied (buf : list Z) (len : Z).
Inductive reader := RIdle | RSampled (len : Z) | RCopied (buf : list Z) (len : Z).

(** The bytes that were put in and taken out so far. *)
Record pipe := Pipe { p_fifo : kfifo; p_writer : writer; p_reader : reader; p_written : list Z; p_read : list Z }.

Inductive pipe_step : pipe -> pipe -> Prop :=
  | w_sample f r wr rd buf len : 0 <= len -> len * esize f <= zlen buf ->
      pipe_step (Pipe f WIdle r wr rd) (Pipe f (WSampled buf (if kfifo_unused f <? len then kfifo_unused f else len)) r wr rd)
  | w_copy f r wr rd buf len :
      pipe_step (Pipe f (WSampled buf len) r wr rd) (Pipe (kfifo_copy_in f buf len (fin f)) (WCopied buf len) r wr rd)
  | w_commit f r wr rd buf len :
      pipe_step (Pipe f (WCopied buf len) r wr rd)
        (Pipe (set_in (u32 (fin f + len)) f) WIdle r (wr ++ bslice buf 0 (len * esize f)) rd)
  | r_sample f w wr rd len : 0 <= len ->
      pipe_step (Pipe f w RIdle wr rd) (Pipe f w (RSampled (if kfifo_len f <? len then kfifo_len f else len)) wr rd)
  | r_copy f w wr rd len :
      pipe_step (Pipe f w (RSampled len) wr rd) (Pipe f w (RCopied (kfifo_copy_out f len (fout f)) len) wr rd)
  | r_commit f w wr rd buf len :
      pipe_step (Pipe f w (RCopied buf len) wr rd) (Pipe (set_out (u32 (fout f + len)) f) w RIdle wr (rd ++ buf)).

(** The steps are those of the functions. *)
Lemma kfifo_in_steps f buf len :
  let n := if kfifo_unused f <? len then kfifo_unused f else len in
  let f' := kfifo_copy_in f buf n (fin f) in
  __kfifo_in f buf len = (set_in (u32 (fin f' + n)) f', n).
Proof. reflexivity. Qed.

Lemma kfifo_out_steps f len :
  let n := if kfifo_len f <? len then kfifo_len f else len in
  __kfifo_out f len = (set_out (u32 (fout f + n)) f, kfifo_copy_out f n (fout f), n).
Proof. reflexivity. Qed.

Definition writer_ok (f : kfifo) (q : list Z) (w : writer) : Prop :=
  match w with
  | WIdle => True
  | WSampled buf len => 0 <= len /\ kfifo_len f + len <= mask f + 1 /\ len * esize f <= zlen buf
  | WCopied buf len => 0 <= len /\ kfifo_len f + len <= mask f + 1 /\ len * esize f <= zlen buf /\
      ring_holds (data f) (pos f (fout f)) (q ++ bslice buf 0 (len * esize f))
  end.

Definition reader_ok (f : kfifo) (q : list Z) (r : reader) : Prop :=
  match r with
  | RIdle => True
  | RSampled len => 0 <= len <= kfifo_len f
  | RCopied buf len => 0 <= len <= kfifo_len f /\ buf = take (Z.to_nat (len * esize f)) q
  end.

Definition pipe_ok (s : pipe) : Prop :=
  exists q, fifo_ok (p_fifo s) q /\ p_written s = p_read s ++ q /\ writer_ok (p_fifo s) q (p_writer s) /\
    reader_ok (p_fifo s) q (p_reader s).

Lemma len_copy f src len off : shape_ok f -> kfifo_len (kfifo_copy_in f src len off) = kfifo_len f.
Proof. intros _. unfold kfifo_copy_in. by destruct (in_bytes f len off) as [[[? ?] ?] ?]. Qed.

Lemma take_app_short {A} n (l k : list A) : (n <= length l)%nat -> take n (l ++ k) = take n l.
Proof. intros. by rewrite take_app_le. Qed.

Lemma copy_step f q buf len :
  fifo_ok f q -> 0 <= len -> kfifo_len f + len <= mask f + 1 -> len * esize f <= zlen buf ->
  let f' := kfifo_copy_in f buf len (fin f) in
  kfifo_len f' = kfifo_len f /\ mask f' = mask f /\ esize f' = esize f /\ fin f' = fin f /\ fout f' = fout f /\
  fifo_ok f' q /\ ring_holds (data f') (pos f' (fout f')) (q ++ bslice buf 0 (len * esize f)).
Proof.
  intros Hok Hl Hroom Hb. pose proof (unused_spec f q Hok) as [_ Hn]. pose proof (so_esize _ (fo_shape _ _ Hok)).
  rewrite copy_in_put by (try apply Hok; lia). do 5 (split; [done|]).
  apply fifo_put_ok; [done|]. rewrite (fo_len _ _ Hok), (so_data _ (fo_shape _ _ Hok)), zlen_bslice by nia. nia.
Qed.

Lemma pipe_step_ok s s' : pipe_step s s' -> pipe_ok s -> pipe_ok s'.
Proof.
  intros Hst (q & Hok & Hq & Hw & Hr). destruct Hst; cbn in *; pose proof (unused_spec f q Hok) as [Eu Hlen];
    pose proof (so_esize _ (fo_shape _ _ Hok)) as He; pose proof (fo_len _ _ Hok) as Eq.
  - exists q. split; [done|]. split; [done|]. split; [|done]. cbn. pose proof (fo_room _ _ Hok). case_if; nia.
  - destruct Hw as (H1 & H2 & H3). destruct (copy_step f q buf len Hok H1 H2 H3) as (E1 & E2 & E3 & _ & _ & Hok' & Hh).
    exists q. split; [exact Hok'|]. split; [done|]. cbn. rewrite E1, E2, E3. split; [done|].
    destruct r; cbn in *; rewrite ?E1, ?E3; done.
  - destruct Hw as (H1 & H2 & H3 & H4). exists (q ++ bslice buf 0 (len * esize f)).
    assert (zlen (bslice buf 0 (len * esize f)) = len * esize f) as Eb by (apply zlen_bslice; nia).
    split; [by apply commit_in|]. split; [by rewrite Hq, app_assoc|]. split; [done|].
    assert (kfifo_len (set_in (u32 (fin f + len)) f) = kfifo_len f + len) as El.
    { pose proof (size_bounds f (fo_shape _ _ Hok)). unfold kfifo_len in *. cbn. apply u32_sub_add; lia. }
    cbn. destruct r as [|n|b n]; cbn in *; [done|lia|]. destruct Hr as [Hn ->]. split; [lia|]. symmetry. apply take_app_short.
    unfold zlen in Eq. nia.
  - exists q. split; [done|]. split; [done|]. split; [done|]. cbn. case_if; lia.
  - exists q. split; [done|]. split; [done|]. split; [done|]. cbn. split; [done|]. by apply copy_out_prefix.
  - destruct Hr as [Hn ->]. exists (drop (Z.to_nat (len * esize f)) q). split; [by apply commit_out|].
    split; [cbn; by rewrite <- app_assoc, take_drop|].
    assert (kfifo_len (set_out (u32 (fout f + len)) f) = kfifo_len f - len) as El.
    { unfold kfifo_len in *. cbn. apply u32_sub_sub; lia. }
    split; [|done]. cbn. destruct w as [|b n|b n]; cbn in *; rewrite ?El; [done|lia|].
    destruct Hw as (H1 & H2 & H3 & H4). split_and!; [done|lia|done|].
    rewrite <- (take_drop (Z.to_nat (len * esize f)) q), <- app_assoc in H4. apply ring_holds_app in H4 as [_ H4].
    change (pos (set_out _ f)) with (pos f). rewrite pos_add by apply Hok. rewrite zlen_take, Eq in H4.
    replace (Z.min (Z.of_nat (Z.to_nat (len * esize f))) (kfifo_len f * esize f)) with (len * esize f) in H4 by nia. done.
Qed.

(** ** Claims *)

Definition pipe_start (f : kfifo) : pipe := Pipe f WIdle RIdle [] [].

(** C11: A fifo needs no lock for one reader and one writer.  In every
    interleaving of the steps of the two, whatever the counters are when they
    wrap around, the bytes that were read are the first bytes that were
    written, in order; those in between are in the fifo, and never more than
    fit. *)
Theorem one_reader_one_writer f s :
  fifo_ok f [] -> rtc pipe_step (pipe_start f) s ->
  exists q, p_written s = p_read s ++ q /\ fifo_ok (p_fifo s) q /\ zlen q = kfifo_len (p_fifo s) * esize (p_fifo s) /\
    kfifo_len (p_fifo s) <= mask (p_fifo s) + 1.
Proof.
  intros Hf Hr. assert (pipe_ok s) as (q & Hok & Hq & _).
  { assert (pipe_ok (pipe_start f)) as H0 by (by exists []).
    revert H0. induction Hr as [|s0 s1 s2 Hst _ IH]; [done|]. intros H0. apply IH. by eapply pipe_step_ok. }
  exists q. split; [done|]. split; [done|]. split; [apply Hok|apply Hok].
Qed.

(** Putting in and taking out.  [__kfifo_in] appends as many elements as
    there is room for and says how many; [__kfifo_out] takes the oldest
    elements, at most as many as asked for, and [__kfifo_out_peek] shows them
    and leaves them. *)
Theorem kfifo_in_out f q buf len :
  fifo_ok f q -> 0 <= len -> len * esize f <= zlen buf ->
  (let n := Z.min len (mask f + 1 - kfifo_len f) in
   exists f', __kfifo_in f buf len = (f', n) /\ fifo_ok f' (q ++ bslice buf 0 (n * esize f))) /\
  (let n := Z.min len (kfifo_len f) in
   let bs := take (Z.to_nat (n * esize f)) q in
   __kfifo_out_peek f len = (bs, n) /\
   exists f', __kfifo_out f len = (f', bs, n) /\ fifo_ok f' (drop (Z.to_nat (n * esize f)) q)).
Proof.
  intros Hok Hl Hb. pose proof (unused_spec f q Hok) as [Eu Hlen]. pose proof (fo_room _ _ Hok) as Hroom.
  pose proof (so_esize _ (fo_shape _ _ Hok)) as He. split.
  - intros n. pose proof (kfifo_in_steps f buf len) as E. cbn zeta in E.
    replace (if kfifo_unused f <? len then kfifo_unused f else len) with n in E by (unfold n; rewrite Eu; case_if; lia).
    destruct (copy_step f q buf n Hok) as (E1 & E2 & E3 & _ & _ & Hok' & Hh); [lia|lia|nia|]. eexists. split; [exact E|].
    apply commit_in; [done|lia|lia| |exact Hh]. rewrite E3. apply zlen_bslice; nia.
  - intros n bs.
    assert ((if kfifo_len f <? len then kfifo_len f else len) = n) as En by (unfold n; case_if; lia).
    assert (kfifo_copy_out f n (fout f) = bs) as Eo by (apply copy_out_prefix; [done|lia]). split.
    + unfold __kfifo_out_peek. fold (kfifo_len f). by rewrite En, Eo.
    + eexists. rewrite kfifo_out_steps. cbn zeta. rewrite En, Eo. split; [done|]. apply commit_out; [done|lia].
Qed.

Lemma ex_fifo_ok : fifo_ok (KFifo (2 ^ 32 - 2) (2 ^ 32 - 2) 3 2 (replicate 8 0)) [].
Proof. split; [split; cbn; try lia; [by exists 2|done]|done|done|apply ring_holds_nil]. Qed.

Definition ex_fifo : kfifo := KFifo (2 ^ 32 - 2) (2 ^ 32 - 2) 3 2 (replicate 8 0).

Lemma one_reader_one_writer_witness :
  exists s q, rtc pipe_step (pipe_start ex_fifo) s /\ p_written s = p_read s ++ q /\ p_written s = [1; 2; 3; 4; 5; 6].
Proof.
  eexists. edestruct (one_reader_one_writer ex_fifo) as (q & E & _); [exact ex_fifo_ok| |exists q; split; [|split; [exact E|]]].
  - eapply rtc_l; [apply (w_sample ex_fifo RIdle [] [] [1; 2; 3; 4; 5; 6] 3); [lia|done]|].
    eapply rtc_l; [apply w_copy|]. eapply rtc_l; [apply w_commit|]. apply rtc_refl.
  - eapply rtc_l; [apply (w_sample ex_fifo RIdle [] [] [1; 2; 3; 4; 5; 6] 3); [lia|done]|].
    eapply rtc_l; [apply w_copy|]. eapply rtc_l; [apply w_commit|]. apply rtc_refl.
  - reflexivity.
Defined.

Lemma kfifo_in_out_witness :
  exists f', __kfifo_in ex_fifo [1; 2; 3; 4; 5; 6; 7; 8; 9; 10] 5 = (f', 4) /\ fifo_ok f' [1; 2; 3; 4; 5; 6; 7; 8].
Proof.
  destruct (kfifo_in_out ex_fifo [] [1; 2; 3; 4; 5; 6; 7; 8; 9; 10] 5 ex_fifo_ok) as [(f' & E & H) _]; [lia|done|].
  exists f'. split; [exact E|exact H].
Defined.

(** ** Records *)

(** Bytes that are in the buffer and not yet counted. *)
Definition staged (f : kfifo) (q xs : list Z) : Prop :=
  fifo_ok f q /\ ring_holds (data f) (pos f (fout f)) (q ++ xs).

Lemma staged_more f q xs n bs :
  staged f q xs -> zlen xs = n * esize f -> zlen q + zlen xs + zlen bs <= zlen (data f) ->
  staged (set_data (ring_put (data f) (pos f (u32 (fin f + n))) bs) f) q (xs ++ bs).
Proof.
  intros [Hok Hh] Hn Hroom. pose proof (fo_shape _ _ Hok) as Hs. pose proof (pos_range f Hs (fout f)).
  destruct (ring_append (data f) (pos f (fout f)) (q ++ xs) (pos f (u32 (fin f + n))) bs) as [H1 H2].
  - rewrite pos_add, (pos_in f q Hok) by done. rewrite Zplus_mod_idemp_l, zlen_app, Hn. f_equal. lia.
  - lia.
  - rewrite zlen_app. lia.
  - done.
  - rewrite <- app_assoc in H1. split; [|exact H1]. apply ring_holds_app in H1 as [H1 _].
    split; [by apply shape_set_data|apply Hok|apply Hok|exact H1].
Qed.

Lemma staged_commit f q xs n :
  staged f q xs -> 0 <= n -> kfifo_len f + n <= mask f + 1 -> zlen xs = n * esize f -> fifo_ok (set_in (u32 (fin f + n)) f) (q ++ xs).
Proof. intros [Hok Hh] Hn Hroom Hx. by apply commit_in. Qed.

Lemma ring_put_one b w x : 0 <= w < zlen b -> ring_put b w [x] = <[Z.to_nat w := x]> b.
Proof.
  intros Hw. unfold ring_put. change (zlen [x]) with 1. rewrite Z.min_l by lia. rewrite Z.sub_diag, bslice_nil, splice_nil.
  change (bslice [x] 0 1) with [x]. unfold splice. rewrite insert_take_drop by (unfold zlen in *; lia). cbn. by rewrite Nat.add_1_r.
Qed.

Lemma land_pos f x : shape_ok f -> esize f = 1 -> Z.land x (mask f) = pos f x.
Proof. intros Hs He. rewrite land_mask by done. unfold pos. by rewrite He, Z.mul_1_r. Qed.

Lemma poke_staged f q n recsize :
  fifo_ok f q -> esize f = 1 -> recsize = 1 \/ recsize = 2 -> 0 <= n < 256 ^ recsize -> zlen q + recsize <= zlen (data f) ->
  staged (__kfifo_poke_n f n recsize) q (le_bytes (Z.to_nat recsize) n).
Proof.
  intros Hok He Hrec Hn Hroom. pose proof (fo_shape _ _ Hok) as Hs.
  assert (staged f q []) as H0 by (split; [done|rewrite app_nil_r; apply Hok]).
  assert (staged (set_data (ring_put (data f) (pos f (fin f)) [n mod 256]) f) q [n mod 256]) as H1.
  { replace (pos f (fin f)) with (pos f (u32 (fin f + 0))) by (f_equal; rewrite Z.add_0_r; apply u32_small, Hs).
    apply (staged_more f q [] 0); [done|done|]. change (zlen [n mod 256]) with 1. change (zlen []) with 0. lia. }
  assert (forall x, 0 <= pos f x < zlen (data f)) as Hp by (intros; by apply pos_range).
  unfold __kfifo_poke_n, KFIFO_POKE. rewrite !land_pos by done. rewrite <- (ring_put_one _ _ (n mod 256)) by done.
  destruct Hrec as [-> | ->]; cbn [Z.ltb Z.compare Pos.compare Pos.compare_cont].
  - exact H1.
  - pose proof (staged_more _ _ _ 1 [Z.shiftr n 8 mod 256] H1) as H2.
    assert (zlen (ring_put (data f) (pos f (fin f)) [n mod 256]) = zlen (data f)) as Ez
      by (apply zlen_ring_put; [done|change (zlen [n mod 256]) with 1; pose proof (Hp 0); lia]).
    assert (zlen q + zlen [n mod 256] + zlen [Z.shiftr n 8 mod 256] <= zlen (data f)) as Hroom2 by (cbn; unfold zlen; cbn; unfold zlen in *; lia).
    cbn [data set_data fin] in H2. rewrite Ez in H2. change (pos (set_data _ f)) with (pos f) in H2.
    rewrite <- (ring_put_one _ (pos f (u32 (fin f + 1)))) by (rewrite Ez; apply Hp).
    change (le_bytes (Z.to_nat 2) n) with ([n mod 256] ++ [n / 256 mod 256]). change 256 with (2 ^ 8) at 4.
    rewrite <- Z.shiftr_div_pow2 by lia. apply H2; [change (1 = 1 * esize f); lia|exact Hroom2].
Qed.

Definition encode (recsize : Z) (r : list Z) : list Z := le_bytes (Z.to_nat recsize) (zlen r) ++ r.

(** The fifo holds the records [rs]. *)
Record recs_ok (f : kfifo) (recsize : Z) (rs : list (list Z)) : Prop := {
  rc_fifo : fifo_ok f (concat (encode recsize <$> rs));
  rc_esize : esize f = 1;
  rc_recsize : recsize = 1 \/ recsize = 2;
  rc_short : Forall (fun r => zlen r < 256 ^ recsize) rs }.

Lemma lor_shift a b k : 0 <= k -> 0 <= a < 2 ^ k -> Z.lor a (Z.shiftl b k) = a + b * 2 ^ k.
Proof.
  intros Hk Ha. assert (Z.land a (Z.shiftl b k) = 0) as E.
  { apply Z.bits_inj'. intros n Hn. rewrite Z.land_spec, Z.bits_0. destruct (Z.ltb_spec n k).
    - rewrite Z.shiftl_spec_low by done. apply andb_false_r.
    - rewrite <- (Z.mod_small a (2 ^ k)), Z.mod_pow2_bits_high by lia. done. }
  by rewrite <- Z.lxor_lor, <- Z.add_nocarry_lxor, Z.shiftl_mul_pow2 by done.
Qed.

Lemma zlen_record recsize r : 0 <= recsize -> zlen (encode recsize r) = recsize + zlen r.
Proof. intros. unfold encode. rewrite zlen_app, zlen_le_bytes. lia. Qed.

Section records.
Context (f : kfifo) (recsize : Z) (rs : list (list Z)) (H : recs_ok f recsize rs).

Let q := concat (encode recsize <$> rs).

Lemma rec_facts : shape_ok f /\ zlen (data f) = mask f + 1 /\ zlen q = kfifo_len f /\ kfifo_unused f = mask f + 1 - kfifo_len f /\
  0 <= kfifo_len f <= mask f + 1 /\ mask f + 1 <= 2 ^ 31 /\ 1 <= recsize <= 2.
Proof using H.
  destruct H as [Hf He Hr _]. pose proof (fo_shape _ _ Hf) as Hs. pose proof (size_bounds f Hs). destruct (unused_spec f _ Hf) as [Eu Hl].
  pose proof (fo_len _ _ Hf) as El. pose proof (so_data _ Hs) as Ed. pose proof (fo_room _ _ Hf). rewrite He in *. fold q in El.
  split; [done|]. split_and!; try lia; destruct Hr; lia.
Qed.

(** The length in front of the first record. *)
Lemma peek_n_spec r rs' : rs = r :: rs' -> __kfifo_peek_n f recsize = zlen r.
Proof using H.
  intros E. destruct rec_facts as (Hs & Ed & Eq & _ & Hl & Hm & Hrec). destruct H as [Hf He Hr Hsh].
  pose proof (fo_holds _ _ Hf) as Hh. rewrite E in *. cbn [fmap list_fmap concat] in Hh. unfold encode at 1 in Hh.
  apply ring_holds_app in Hh as [Hh _]. apply ring_holds_app in Hh as [Hh _].
  apply Forall_cons_1 in Hsh as [Hsz _]. pose proof (zlen_nonneg r).
  unfold __kfifo_peek_n, KFIFO_PEEK. rewrite !land_pos by done.
  assert (forall i, 0 <= i < recsize -> bget (data f) (pos f (u32 (fout f + i))) = bget (le_bytes (Z.to_nat recsize) (zlen r)) i) as Hb.
  { intros i Hi. rewrite pos_add, He, Z.mul_1_r by done. apply Hh. rewrite zlen_le_bytes. lia. }
  pose proof (Hb 0 ltac:(lia)) as Hb0. rewrite Z.add_0_r, (u32_small (fout f)) in Hb0 by apply Hs. rewrite Hb0.
  destruct Hr as [-> | ->].
  - change (1 - 1 =? 0) with true. cbn [negb]. change (bget (le_bytes (Z.to_nat 1) (zlen r)) 0) with (zlen r mod 256). apply Z.mod_small. lia.
  - rewrite (Hb 1) by lia. change (bget (le_bytes (Z.to_nat 2) (zlen r)) 0) with (zlen r mod 256).
    change (bget (le_bytes (Z.to_nat 2) (zlen r)) 1) with (zlen r / 256 mod 256).
    rewrite (Z.mod_small (zlen r / 256)) by (split; [apply Z.div_pos; lia|apply Z.div_lt_upper_bound; lia]).
    rewrite lor_shift by (try apply Z.mod_pos_bound; lia). change (2 ^ 8) with 256.
    pose proof (Z.div_mod (zlen r) 256 ltac:(lia)). change (2 - 1 =? 0) with false. cbn [negb]. lia.
Qed.

Lemma in_r_fits buf :
  zlen buf < 256 ^ recsize -> zlen buf + recsize <= kfifo_unused f ->
  exists f', __kfifo_in_r f buf (zlen buf) recsize = (f', zlen buf) /\ recs_ok f' recsize (rs ++ [buf]).
Proof using H.
  intros Hb Hfit. destruct rec_facts as (Hs & Ed & Eq & Eu & Hl & Hm & Hrec). destruct H as [Hf He Hr Hsh].
  pose proof (zlen_nonneg buf) as Hb0. unfold __kfifo_in_r. rewrite (u32_small (zlen buf + recsize)) by lia.
  destruct (Z.ltb_spec (kfifo_unused f) (zlen buf + recsize)); [lia|].
  destruct (poke_staged f q (zlen buf) recsize Hf He Hr) as [Hp1 Hp2]; [done|lia|].
  set (f1 := __kfifo_poke_n f (zlen buf) recsize) in *.
  assert (staged f1 q (le_bytes (Z.to_nat recsize) (zlen buf))) as Hst by done.
  pose proof (staged_more f1 q _ recsize buf Hst) as Hst2. rewrite zlen_le_bytes, Z2Nat.id in Hst2 by lia.
  assert (mask f1 = mask f) as Em by reflexivity. assert (esize f1 = 1) as He1 by exact He.
  pose proof (so_data _ (fo_shape _ _ Hp1)) as Ed1. rewrite Em, He1 in Ed1. rewrite He1 in Hst2.
  rewrite (copy_in_put f1) by (try apply Hp1; rewrite ?Em, ?He1; lia). rewrite He1, Z.mul_1_r, bslice_all by lia.
  eexists. split; [done|].
  specialize (Hst2 ltac:(lia) ltac:(lia)). set (f2 := set_data _ f1) in *. split; [|done|done|].
  - rewrite fmap_app, concat_app. cbn [fmap list_fmap concat]. rewrite app_nil_r.
    apply staged_commit; [exact Hst2|lia| |].
    + change (kfifo_len f2) with (kfifo_len f). change (mask f2) with (mask f). lia.
    + change (esize f2) with (esize f). rewrite He, zlen_record by lia. lia.
  - apply Forall_app. split; [done|]. by constructor.
Qed.

Lemma out_r_first r rs' len :
  rs = r :: rs' -> 0 <= len ->
  exists f', __kfifo_out_r f len recsize = (f', take (Z.to_nat len) r, Z.min len (zlen r)) /\ recs_ok f' recsize rs'.
Proof using H.
  intros E Hlen. pose proof (peek_n_spec r rs' E) as Ep. destruct rec_facts as (Hs & Ed & Eq & Eu & Hl & Hm & Hrec).
  destruct H as [Hf He Hr Hsh]. pose proof (fo_holds _ _ Hf) as Hh. unfold q in Eq. rewrite E in *. cbn [fmap list_fmap concat] in *.
  pose proof (zlen_nonneg r) as Hr0. rewrite zlen_app, zlen_record in Eq by lia. pose proof (zlen_nonneg (concat (encode recsize <$> rs'))).
  assert (fin f <> fout f) as Hne by (intros F; unfold kfifo_len in *; rewrite F, Z.sub_diag in *; change (u32 0) with 0 in *; lia).
  unfold __kfifo_out_r, kfifo_out_copy_r. destruct (Z.eqb_spec (fin f) (fout f)); [done|]. rewrite Ep.
  replace (if zlen r <? len then zlen r else len) with (Z.min len (zlen r)) by (case_if; lia).
  assert (ring_holds (data f) (pos f (u32 (fout f + recsize))) (take (Z.to_nat len) r)) as Hh2.
  { unfold encode at 1 in Hh. rewrite <- !app_assoc in Hh. apply ring_holds_app in Hh as [_ Hh]. apply ring_holds_app in Hh as [Hh _].
    rewrite zlen_le_bytes, Z2Nat.id in Hh by lia. rewrite pos_add, He, Z.mul_1_r by done.
    rewrite <- (take_drop (Z.to_nat len) r) in Hh. apply (proj1 (proj1 (ring_holds_app _ _ _ _) Hh)). }
  assert (kfifo_copy_out f (Z.min len (zlen r)) (u32 (fout f + recsize)) = take (Z.to_nat len) r) as ->
    by (apply copy_out_get; [done|lia|rewrite He, zlen_take; lia|done]).
  eexists. split; [done|].
  rewrite (u32_small (zlen r + recsize)) by lia. pose proof (commit_out f _ Hf (zlen r + recsize) ltac:(lia)) as Hc.
  split; [|done|done|by apply Forall_cons_1 in Hsh as [_ ?]]. rewrite He, Z.mul_1_r, drop_app_length' in Hc; [done|].
  pose proof (zlen_record recsize r ltac:(lia)) as Ee. unfold zlen in *. lia.
Qed.

End records.

(** Records come out as they went in.  A record that fits is put in whole,
    one that does not fit changes nothing; [__kfifo_out_r] takes the oldest
    record and shows as much of it as was asked for; [__kfifo_len_r] is its
    length and [__kfifo_skip_r] drops it. *)
Theorem kfifo_records f recsize rs buf len :
  recs_ok f recsize rs -> zlen buf < 256 ^ recsize -> 0 <= len ->
  (if zlen buf + recsize <=? kfifo_unused f
   then exists f', __kfifo_in_r f buf (zlen buf) recsize = (f', zlen buf) /\ recs_ok f' recsize (rs ++ [buf])
   else __kfifo_in_r f buf (zlen buf) recsize = (f, 0)) /\
  match rs with
  | [] => __kfifo_out_r f len recsize = (f, [], 0)
  | r :: rs' => __kfifo_len_r f recsize = zlen r /\ recs_ok (__kfifo_skip_r f recsize) recsize rs' /\
      exists f', __kfifo_out_r f len recsize = (f', take (Z.to_nat len) r, Z.min len (zlen r)) /\ recs_ok f' recsize rs'
  end.
Proof.
  intros Hok Hb Hlen. pose proof (rec_facts f recsize rs Hok) as (Hs & Ed & Eq & Eu & Hl & Hm & Hrec).
  pose proof (zlen_nonneg buf). split.
  - destruct (Z.leb_spec (zlen buf + recsize) (kfifo_unused f)); [by apply in_r_fits|]. unfold __kfifo_in_r.
    assert (256 ^ recsize <= 65536) by (destruct (rc_recsize _ _ _ Hok) as [-> | ->]; lia).
    rewrite (u32_small (zlen buf + recsize)) by lia. by destruct (Z.ltb_spec (kfifo_unused f) (zlen buf + recsize)); [|lia].
  - destruct rs as [|r rs'].
    + unfold __kfifo_out_r. cbn in Eq. assert (fin f = fout f) as ->; [|by rewrite Z.eqb_refl].
      change (zlen []) with 0 in Eq. pose proof (so_in _ Hs). pose proof (so_out _ Hs). unfold kfifo_len, u32 in Eq.
      symmetry in Eq. apply Z.mod_divide in Eq as [k Ek]; [|done]. lia.
    + destruct (out_r_first f recsize _ Hok r rs' len eq_refl Hlen) as (f' & E & Hf').
      split; [by eapply peek_n_spec|]. split; [|by exists f'].
      unfold __kfifo_out_r, kfifo_out_copy_r in E. destruct (fin f =? fout f) eqn:Ef.
      * exfalso. apply Z.eqb_eq in Ef. unfold kfifo_len in Eq. rewrite Ef, Z.sub_diag in Eq. change (u32 0) with 0 in Eq.
        cbn [fmap list_fmap concat] in Eq. rewrite zlen_app, zlen_record in Eq by lia. pose proof (zlen_nonneg r).
        pose proof (zlen_nonneg (concat (encode recsize <$> rs'))). lia.
      * injection E as <- _ _. exact Hf'.
Qed.

Definition ex_records : kfifo := KFifo 0 0 7 1 (replicate 8 0).

Lemma ex_records_ok : recs_ok ex_records 1 [].
Proof. split; [split; [split; cbn; try lia; [by exists 3|done]|done|done|apply ring_holds_nil]|done|by left|constructor]. Qed.

Lemma kfifo_records_witness :
  exists f', __kfifo_in_r ex_records [7; 8; 9] 3 1 = (f', 3) /\ recs_ok f' 1 [[7; 8; 9]].
Proof.
  destruct (kfifo_records ex_records 1 [] [7; 8; 9] 0 ex_records_ok) as [H _]; [done|lia|]. exact H.
Defined.

(** Nothing keeps a record from being longer than its length can tell: of a
    record of 300 bytes 44 come out, and its rest is taken for records. *)
Example long_record_torn :
  let f := KFifo 0 0 511 1 (replicate 512 0) in
  let '(f', n) := __kfifo_in_r f (replicate 300 5) 300 1 in
  n = 300 /\ __kfifo_len_r f' 1 = 44 /\ (__kfifo_out_r f' 512 1).2 = 44 /\ __kfifo_len_r (__kfifo_skip_r f' 1) 1 = 5.
Proof. by vm_compute. Qed.
