(* ===== verification/KFifoDma.v ===== *)
(** * Queues: scatter lists and single elements

    The scatter lists that [setup_sgl] fills name the physical memory of the
    elements of the fifo, in order; [kfifo_put] and [kfifo_get] are
    [__kfifo_in] and [__kfifo_out] for one element. *)

From stdpp Require Import base numbers list gmap.
From S2P Require Import Prelude Ring KFifo KFifoProps.

Open Scope Z_scope.

(** Arithmetic with pages. *)
Ltac paging := unfold PAGE_SIZE in *; Z.to_euclidean_division_equations; lia.

Section dma.
Context (page_to_phys : Z -> Z).

(** The physical address of a byte. *)
Definition phys (a : Z) : Z := u32 (page_to_phys (a / PAGE_SIZE) + a mod PAGE_SIZE).

(** The physical bytes of an entry, and those of [n] bytes from [a] on. *)
Definition sg_bytes (e : scatterlist) : list Z := (fun i => u32 (page_to_phys (sg_page e) + i)) <$> seqZ (sg_offset e) (sg_length e).
Definition phys_range (a n : Z) : list Z := phys <$> seqZ a n.

Lemma phys_range_app a n m : 0 <= n -> 0 <= m -> phys_range a (n + m) = phys_range a n ++ phys_range (a + n) m.
Proof. intros. unfold phys_range. by rewrite seqZ_app, fmap_app by done. Qed.

(** [l] bytes from the start of [page] on are contiguous. *)
Definition run (page l : Z) : Prop := forall j, 0 <= j < l -> phys (page * PAGE_SIZE + j) = u32 (page_to_phys page + j).

Lemma run_page page : run page PAGE_SIZE.
Proof using.
  intros j Hj. unfold phys. rewrite (Z.add_comm (page * PAGE_SIZE)), Z.div_add, Z.mod_add by done.
  rewrite Z.div_small, Z.mod_small by lia. done.
Qed.

Lemma run_more page k :
  0 <= k -> run page (k * PAGE_SIZE) -> page_to_phys page = u32 (page_to_phys (page + k) - k * PAGE_SIZE) ->
  run page ((k + 1) * PAGE_SIZE).
Proof using.
  intros Hk Hr E j Hj. destruct (Z.ltb_spec j (k * PAGE_SIZE)); [apply Hr; lia|].
  pose proof (run_page (page + k) (j - k * PAGE_SIZE) ltac:(lia)) as H1.
  replace ((page + k) * PAGE_SIZE + (j - k * PAGE_SIZE)) with (page * PAGE_SIZE + j) in H1 by lia. rewrite H1, E.
  unfold u32. rewrite Zplus_mod_idemp_l. f_equal. lia.
Qed.

Lemma run_bytes page l off n :
  run page l -> 0 <= off -> off + n <= l -> sg_bytes (Sg page n off) = phys_range (page * PAGE_SIZE + off) n.
Proof using.
  intros Hr Ho Hn. unfold sg_bytes, phys_range. cbn [sg_page sg_length sg_offset]. rewrite <- (Z.add_0_r off) at 1.
  rewrite <- (Z.add_0_r (page * PAGE_SIZE + off)), <- !fmap_add_seqZ, <- !list_fmap_compose.
  apply list_fmap_ext. intros i x Hx. apply lookup_seqZ in Hx as [-> ?]. cbn. rewrite <- Z.add_assoc, Hr by lia. done.
Qed.

(** The entries [es] name a prefix of the bytes, and all of them unless the
    entries run out. *)
Definition covers (es : list scatterlist) (bytes : list Z) (nents : Z) : Prop :=
  zlen es <= nents /\ concat (sg_bytes <$> es) `prefix_of` bytes /\
  (zlen es < nents -> concat (sg_bytes <$> es) = bytes).

Lemma covers_last e nents : 1 <= nents -> covers [e] (sg_bytes e) nents.
Proof using. intros. unfold covers. cbn. rewrite app_nil_r. split; [done|]. split; [reflexivity|done]. Qed.

Lemma covers_cons e es bytes nents : covers es bytes (nents - 1) -> covers (e :: es) (sg_bytes e ++ bytes) nents.
Proof using.
  intros (H1 & H2 & H3). unfold covers. rewrite zlen_cons. cbn. split; [lia|]. split; [by apply prefix_app|].
  intros. by rewrite H3 by lia.
Qed.

Lemma sgl_loop_spec fuel room nents n page off l buf len :
  (Z.to_nat ((len + off - l) / PAGE_SIZE) < fuel)%nat -> nents - n <= room -> 0 <= n < nents -> 0 <= page ->
  0 <= off < PAGE_SIZE -> 0 <= len -> l mod PAGE_SIZE = 0 -> 0 <= l <= len + off ->
  buf / PAGE_SIZE = page + l / PAGE_SIZE -> page * PAGE_SIZE + off + len + PAGE_SIZE < 2 ^ 32 -> run page (l + PAGE_SIZE) ->
  covers (sgl_loop page_to_phys fuel room nents n page off l buf len) (phys_range (page * PAGE_SIZE + off) len) (nents - n).
Proof using.
  revert room nents n page off l buf len. induction fuel as [|fuel IH]; [lia|].
  intros room nents n page off l buf len Hf Hroom Hn Hp Ho Hlen Hl0 Hl Hb Hend Hrun. cbn [sgl_loop].

  rewrite (u32_small (l + PAGE_SIZE - off)) by paging. destruct (Z.leb_spec (l + PAGE_SIZE - off) len) as [Hle|Hgt].
  2:{ rewrite <- (run_bytes page (l + PAGE_SIZE)) by (done || paging). apply covers_last. lia. }
  rewrite (u32_small (l + PAGE_SIZE)) by paging.
  assert (Hbuf : u32 (buf + PAGE_SIZE) / PAGE_SIZE = page + (l + PAGE_SIZE) / PAGE_SIZE).
  { rewrite u32_small; paging. }
  rewrite Hbuf. set (l' := l + PAGE_SIZE) in *.
  assert (l' = (l / PAGE_SIZE + 1) * PAGE_SIZE) as El' by (unfold l'; paging).
  assert (l' / PAGE_SIZE = l / PAGE_SIZE + 1) as Ek by (rewrite El'; apply Z.div_mul; done).
  assert ((len + off - l') / PAGE_SIZE = (len + off - l) / PAGE_SIZE - 1) as Em by (unfold l'; paging).
  assert (1 <= (len + off - l) / PAGE_SIZE) by paging.
  destruct (Z.eqb_spec (page_to_phys page) (u32 (page_to_phys (page + l' / PAGE_SIZE) - l'))) as [Eq|Ne]; cbn [negb].
  - apply IH; try done; try paging.
    replace (l' + PAGE_SIZE) with ((l' / PAGE_SIZE + 1) * PAGE_SIZE) by (rewrite Ek; lia).
    apply run_more; [apply Z.div_pos; paging|by rewrite Ek, <- El'|]. rewrite Eq at 1. do 2 f_equal. rewrite Ek. lia.
  - rewrite (u32_small (l' - off)) by paging. rewrite (u32_small (len - (l' - off))) by paging.
    replace len with (l' - off + (len - (l' - off))) at 2 by paging. rewrite phys_range_app by paging.
    rewrite <- (run_bytes page l') by (done || paging).
    destruct ((n + 1 =? nents) || (room =? 1)) eqn:Elast.
    + unfold covers. cbn [fmap list_fmap concat]. change (zlen [_]) with 1. rewrite app_nil_r. split; [lia|].
      split; [by apply prefix_app_r|]. apply orb_prop in Elast as [?%Z.eqb_eq|?%Z.eqb_eq]; lia.
    + apply orb_false_elim in Elast as [?%Z.eqb_neq ?%Z.eqb_neq]. apply covers_cons.
      replace (page * PAGE_SIZE + off + (l' - off)) with ((page + l' / PAGE_SIZE) * PAGE_SIZE + 0) by (rewrite Ek; paging).
      replace (nents - n - 1) with (nents - (n + 1)) by paging.
      apply IH; try done; try paging. apply run_page.
Qed.

Lemma setup_sgl_buf_spec room buf nents len :
  0 <= nents <= room -> 0 <= buf -> 0 <= len -> buf + len + PAGE_SIZE < 2 ^ 32 ->
  covers (setup_sgl_buf page_to_phys room buf nents len) (phys_range buf len) nents.
Proof using.
  intros Hn Hb Hl Hend. unfold setup_sgl_buf. destruct (Z.eqb_spec nents 0) as [->|].
  - split; [done|]. split; [apply prefix_nil|]. cbn. unfold zlen. cbn. lia.
  - destruct (Z.eqb_spec len 0) as [->|]; [split; [change (zlen []) with 0; lia|]; split; [apply prefix_nil|done]|].

    pose proof (sgl_loop_spec (S (Z.to_nat ((len + buf mod PAGE_SIZE) / PAGE_SIZE))) room nents 0 (buf / PAGE_SIZE) (buf mod PAGE_SIZE) 0 buf len) as H.
    rewrite Z.sub_0_r in H. replace (buf / PAGE_SIZE * PAGE_SIZE + buf mod PAGE_SIZE) with buf in H by paging.
    rewrite Z.sub_0_r, Z.add_0_l in H. apply H; try done; try paging. apply run_page.
Qed.

Lemma covers_app es1 es2 b1 b2 nents :
  covers es1 b1 nents -> covers es2 b2 (nents - zlen es1) -> covers (es1 ++ es2) (b1 ++ b2) nents.
Proof using.
  intros (H1 & H2 & H3) (K1 & K2 & K3). unfold covers. rewrite zlen_app, fmap_app, concat_app. pose proof (zlen_nonneg es2).
  split; [lia|]. destruct (decide (zlen es1 < nents)) as [Hlt|Hge].
  - rewrite H3 by done. split; [by apply prefix_app|]. intros. by rewrite K3 by paging.
  - assert (es2 = []) as -> by (apply nil_length_inv; unfold zlen in *; lia). cbn. rewrite app_nil_r.
    split; [by apply prefix_app_r|lia].
Qed.

(** The physical bytes of [len] elements from the one numbered [x] on. *)
Definition ring_bytes (base : Z) (f : kfifo) (x len : Z) : list Z :=
  (fun i => phys (base + (pos f x + i) mod zlen (data f))) <$> seqZ 0 (len * esize f).

Lemma ring_bytes_parts base f x len :
  shape_ok f -> 0 <= len <= mask f + 1 ->
  let l := Z.min (len * esize f) (zlen (data f) - pos f x) in
  ring_bytes base f x len = phys_range (base + pos f x) l ++ phys_range base (len * esize f - l).
Proof using.
  intros Hs Hl l. pose proof (pos_range f Hs x). pose proof (so_esize _ Hs). pose proof (so_data _ Hs).
  assert (0 <= l <= len * esize f) by (unfold l; nia). unfold ring_bytes, phys_range.
  replace (len * esize f) with (l + (len * esize f - l)) at 1 by lia. rewrite seqZ_app, fmap_app by lia. f_equal.
  - rewrite <- (Z.add_0_r (base + pos f x)), <- fmap_add_seqZ, <- list_fmap_compose. apply list_fmap_ext.
    intros i y Hy. apply lookup_seqZ in Hy as [-> ?]. cbn. rewrite Z.mod_small by lia. f_equal. lia.
  - rewrite Z.add_0_l. rewrite <- (Z.add_0_r base), <- (Z.add_0_r l) at 1. rewrite <- !fmap_add_seqZ, <- !list_fmap_compose.
    apply list_fmap_ext. intros i y Hy. apply lookup_seqZ in Hy as [-> ?]. cbn. rewrite mod_once by nia.
    destruct (Z.ltb_spec (pos f x + (l + (0 + Z.of_nat i))) (zlen (data f))); f_equal; lia.
Qed.

Lemma setup_sgl_spec base f room nents len off :
  shape_ok f -> 0 <= base -> base + zlen (data f) + PAGE_SIZE < 2 ^ 32 -> 0 <= len <= mask f + 1 -> 0 <= nents <= room ->
  covers (setup_sgl page_to_phys base f room nents len off) (ring_bytes base f off len) nents.
Proof using.
  intros Hs Hb Hend Hl Hn. unfold setup_sgl. rewrite ring_bytes_parts, in_bytes_spec by done. pose proof (pos_range f Hs off).
  pose proof (so_esize _ Hs). pose proof (so_data _ Hs). assert (0 <= PAGE_SIZE) by done.
  set (l := Z.min (len * esize f) (zlen (data f) - pos f off)). assert (0 <= l <= len * esize f) by (unfold l; nia).
  rewrite u32_small by lia.
  assert (covers (setup_sgl_buf page_to_phys room (base + pos f off) nents l) (phys_range (base + pos f off) l) nents) as Hc
    by (apply setup_sgl_buf_spec; lia).
  apply covers_app; [done|]. destruct Hc as [Hc _].
  apply setup_sgl_buf_spec; [pose proof (zlen_nonneg (setup_sgl_buf page_to_phys room (base + pos f off) nents l)); lia|lia|lia|nia].
Qed.

End dma.

(** The scatter lists for DMA.  The entries that the preparation of a
    transfer fills name the physical memory of the free elements behind the
    last one, for input, and of the oldest elements, for output, byte by byte
    in the order of the fifo and around the end of the buffer; they name all
    that was asked for and is there, unless the entries run out. *)
Theorem dma_scatter_lists page_to_phys base f q room nents len :
  fifo_ok f q -> 0 <= base -> base + zlen (data f) + PAGE_SIZE < 2 ^ 32 -> 0 <= len -> 0 <= nents <= room ->
  covers page_to_phys (__kfifo_dma_in_prepare page_to_phys base f room nents len)
    (ring_bytes page_to_phys base f (fin f) (Z.min len (mask f + 1 - kfifo_len f))) nents /\
  covers page_to_phys (__kfifo_dma_out_prepare page_to_phys base f room nents len)
    (ring_bytes page_to_phys base f (fout f) (Z.min len (kfifo_len f))) nents.
Proof.
  intros Hok Hb Hend Hl Hn. pose proof (unused_spec f q Hok) as [Eu Hlen]. pose proof (fo_room _ _ Hok) as Hroom.
  unfold __kfifo_dma_in_prepare, __kfifo_dma_out_prepare. fold (kfifo_len f). rewrite Eu. split.
  - replace (if mask f + 1 - kfifo_len f <? len then mask f + 1 - kfifo_len f else len) with (Z.min len (mask f + 1 - kfifo_len f)) by (case_if; lia).
    apply setup_sgl_spec; try done; [apply Hok|lia].
  - replace (if kfifo_len f <? len then kfifo_len f else len) with (Z.min len (kfifo_len f)) by (case_if; lia).
    apply setup_sgl_spec; try done; [apply Hok|lia].
Qed.

(** Two pages that lie the other way round in memory, and a fifo over both. *)
Definition ex_pages (p : Z) : Z := if p =? 4 then 20480 else 16384.
Definition ex_paged : kfifo := KFifo 0 0 7 1024 (replicate (Z.to_nat 8192) 0).

Lemma ex_paged_ok : fifo_ok ex_paged [].
Proof. split; [split; cbn; try lia; [by exists 3|done]|done|done|apply ring_holds_nil]. Qed.

Lemma dma_scatter_lists_witness :
  __kfifo_dma_in_prepare ex_pages 16384 ex_paged 4 4 6 = [Sg 4 4096 0; Sg 5 2048 0] /\
  covers ex_pages [Sg 4 4096 0; Sg 5 2048 0] (ring_bytes ex_pages 16384 ex_paged 0 6) 4.
Proof.
  split; [by vm_compute|].
  destruct (dma_scatter_lists ex_pages 16384 ex_paged [] 4 4 6 ex_paged_ok) as [H _]; [lia|done|lia|lia|]. exact H.
Defined.

(** One element: the macros do what the functions do. *)
Section one_element.
Context (f : kfifo) (q : list Z) (Hok : fifo_ok f q).

Lemma copy_in_none val off : kfifo_copy_in f val 0 off = f.
Proof using Hok.
  pose proof (fo_shape _ _ Hok) as Hs. pose proof (pos_range f Hs off).
  rewrite copy_in_put; [|done|pose proof (size_bounds f Hs); lia|apply zlen_nonneg].
  rewrite Z.mul_0_l, bslice_nil. unfold ring_put. change (zlen []) with 0. rewrite Z.min_l by lia.
  rewrite Z.sub_diag, !bslice_nil, !splice_nil. by destruct f.
Qed.

Lemma copy_out_none off : kfifo_copy_out f 0 off = [].
Proof using Hok. apply copy_out_get; [apply Hok|pose proof (size_bounds f (fo_shape _ _ Hok)); lia|done|apply ring_holds_nil]. Qed.

Lemma in_bytes_one off :
  in_bytes f 1 off = (Z.land off (mask f) * esize f, zlen (data f), esize f, esize f).
Proof using Hok.
  pose proof (fo_shape _ _ Hok) as Hs. pose proof (size_bounds f Hs). pose proof (so_esize _ Hs). pose proof (so_data _ Hs) as E.
  rewrite in_bytes_spec, land_mask by (done || lia). unfold pos. rewrite Z.mul_1_l. repeat f_equal. apply Z.min_l. rewrite E.
  pose proof (Z.mod_pos_bound off (mask f + 1) ltac:(lia)). nia.
Qed.

(** One element.  The macros that put one element into the fifo, take one
    out of it or look at it, which copy it by an assignment, do what the
    functions for several elements do, also on a full and on an empty fifo. *)
Theorem kfifo_one_element val :
  zlen val = esize f ->
  kfifo_put f val 0 = __kfifo_in f val 1 /\ kfifo_get f 0 = __kfifo_out f 1 /\ kfifo_peek f 0 = __kfifo_out_peek f 1.
Proof using Hok.
  intros Hv. pose proof (fo_shape _ _ Hok) as Hs. pose proof (unused_spec f q Hok) as [Eu Hlen]. pose proof (fo_room _ _ Hok).
  pose proof (size_bounds f Hs) as Hsz. pose proof (so_in _ Hs). pose proof (so_out _ Hs).
  assert (kfifo_is_empty f = (kfifo_len f =? 0)) as Ee.
  { unfold kfifo_is_empty, kfifo_len in *. unfold u32 in *. destruct (Z.eqb_spec (fin f) (fout f)) as [->|Hne]; [by rewrite Z.sub_diag|].
    symmetry. apply Z.eqb_neq. Z.to_euclidean_division_equations; lia. }
  unfold kfifo_put, kfifo_get, kfifo_peek, __kfifo_in, __kfifo_out, __kfifo_out_peek. fold (kfifo_len f). rewrite Eu, Ee.
  unfold kfifo_is_full. change (0 =? 0) with true. cbn [negb]. split.
  - destruct (Z.ltb_spec (mask f) (kfifo_len f)); cbn [negb].
    + destruct (Z.ltb_spec (mask f + 1 - kfifo_len f) 1); [|lia]. replace (mask f + 1 - kfifo_len f) with 0 by lia.
      rewrite copy_in_none, Z.add_0_r, u32_small by lia. by destruct f.
    + destruct (Z.ltb_spec (mask f + 1 - kfifo_len f) 1); [lia|]. unfold kfifo_copy_in. rewrite in_bytes_one.
      by rewrite bslice_all, Z.sub_diag, bslice_nil, splice_nil by done.
  - destruct (Z.eqb_spec (kfifo_len f) 0) as [E0|]; cbn [negb].
    + rewrite E0. change (0 <? 1) with true. rewrite copy_out_none, Z.add_0_r, u32_small by lia. by destruct f.
    + destruct (Z.ltb_spec (kfifo_len f) 1); [lia|]. unfold kfifo_copy_out. rewrite in_bytes_one.
      by rewrite Z.sub_diag, bslice_nil, app_nil_r.
Qed.

End one_element.

Lemma kfifo_one_element_witness :
  kfifo_put ex_fifo [1; 2] 0 = (KFifo (2 ^ 32 - 1) (2 ^ 32 - 2) 3 2 [0; 0; 0; 0; 1; 2; 0; 0], 1) /\
  kfifo_put ex_fifo [1; 2] 0 = __kfifo_in ex_fifo [1; 2] 1.
Proof. split; [by vm_compute|]. apply (kfifo_one_element ex_fifo [] ex_fifo_ok [1; 2]). reflexivity. Defined.
