(* ===== verification/Kstrtox.v ===== *)
(** * Strict conversion of strings to integers (lib/kstrtox.c)

    A string is a number, with an optional sign, an optional radix prefix and an
    optional newline at its end, or it is refused.  The result of a conversion
    is an error code or the value; on an error the variable of the caller is
    left alone.  The conversions equal a reference that knows nothing of the
    accumulator and its overflow test. *)

From stdpp Require Import base numbers list strings.
From S2P Require Import Prelude CType.

Open Scope Z_scope.

Definition ULLONG_MAX : Z := 2 ^ 64 - 1.

Definition _tolower (c : Z) : Z := Z.lor c 32.

(** ** The code *)

Definition auto_base (s : list Z) (base : Z) : Z :=
  if base =? 0 then
    if ch s =? chr "0" then
      if (_tolower (ch (drop 1 s)) =? chr "x") && isxdigit (ch (drop 2 s)) then 16 else 8
    else 10
  else base.

(** The digit that a character is. *)
Definition digit_of (c : Z) : option Z :=
  if (chr "0" <=? c) && (c <=? chr "9") then Some (c - chr "0")
  else if (chr "a" <=? _tolower c) && (_tolower c <=? chr "f") then Some (_tolower c - chr "a" + 10)
  else None.

Definition stop (ok : bool) (acc : Z) : Z + Z := if negb ok then inl (- EINVAL) else inr acc.

Fixpoint kstrtoull_loop (base : Z) (s : list Z) (acc : Z) (ok : bool) : Z + Z :=
  match s with
  | [] => stop ok acc
  | c :: s' =>
      match digit_of c with
      | None => if c =? 10 then if ch s' =? 0 then stop ok acc else inl (- EINVAL) else inl (- EINVAL)
      | Some val =>
          if base <=? val then inl (- EINVAL)
          else if (ULLONG_MAX - val) / base <? acc then inl (- ERANGE)
          else kstrtoull_loop base s' (u64 (acc * base + val)) true
      end
  end.

Definition _kstrtoull (s : list Z) (base : Z) : Z + Z :=
  let base := auto_base s base in
  let s := if (base =? 16) && (ch s =? chr "0") && (_tolower (ch (drop 1 s)) =? chr "x") then drop 2 s else s in
  kstrtoull_loop base s 0 false.

Definition kstrtoull (s : list Z) (base : Z) : Z + Z :=
  _kstrtoull (if ch s =? chr "+" then drop 1 s else s) base.

Definition kstrtoll (s : list Z) (base : Z) : Z + Z :=
  if ch s =? chr "-" then
    match _kstrtoull (drop 1 s) base with
    | inl rv => inl rv
    | inr tmp => if 0 <=? s64 (- tmp) then inl (- ERANGE) else inr (s64 (- tmp))
    end
  else
    match kstrtoull s base with
    | inl rv => inl rv
    | inr tmp => if s64 tmp <? 0 then inl (- ERANGE) else inr (s64 tmp)
    end.

(** The narrower types: the value must survive the cast. *)

Definition cast (f : Z -> Z) (r : Z + Z) : Z + Z :=
  match r with
  | inl rv => inl rv
  | inr tmp => if negb (tmp =? f tmp) then inl (- ERANGE) else inr (f tmp)
  end.

Definition _kstrtoul (s : list Z) (base : Z) : Z + Z := cast u32 (kstrtoull s base).
Definition _kstrtol (s : list Z) (base : Z) : Z + Z := cast s32 (kstrtoll s base).
Definition kstrtouint (s : list Z) (base : Z) : Z + Z := cast u32 (kstrtoull s base).
Definition kstrtoint (s : list Z) (base : Z) : Z + Z := cast s32 (kstrtoll s base).
Definition kstrtou16 (s : list Z) (base : Z) : Z + Z := cast u16 (kstrtoull s base).
Definition kstrtos16 (s : list Z) (base : Z) : Z + Z := cast s16 (kstrtoll s base).
Definition kstrtou8 (s : list Z) (base : Z) : Z + Z := cast u8 (kstrtoull s base).
Definition kstrtos8 (s : list Z) (base : Z) : Z + Z := cast s8 (kstrtoll s base).
(** [long] has 32 bits. *)
Definition kstrtoul (s : list Z) (base : Z) : Z + Z := _kstrtoul s base.
Definition kstrtol (s : list Z) (base : Z) : Z + Z := _kstrtol s base.

(** ** The reference *)

(** The digits of the base at the start of a string, and the rest. *)
Fixpoint digits_at (base : Z) (s : list Z) : list Z * list Z :=
  match s with
  | [] => ([], [])
  | c :: s' =>
      match digit_of c with
      | Some d => if d <? base then let '(ds, r) := digits_at base s' in (d :: ds, r) else ([], s)
      | None => ([], s)
      end
  end.

(** The value of digits, behind digits of the value [a]. *)
Definition value_from (base : Z) (a : Z) (ds : list Z) : Z := foldl (fun a d => a * base + d) a ds.
Definition value (base : Z) (ds : list Z) : Z := value_from base 0 ds.

(** The radix prefix is cut off. *)
Definition body (s : list Z) (base : Z) : list Z :=
  if (base =? 16) && (ch s =? chr "0") && (_tolower (ch (drop 1 s)) =? chr "x") then drop 2 s else s.

(** The number that a string without sign is: it does not fit, or nothing but
    a newline may follow at least one digit. *)
Definition unsigned_number (s : list Z) (base : Z) : Z + Z :=
  let base := auto_base s base in
  let '(ds, r) := digits_at base (body s base) in
  if 2 ^ 64 <=? value base ds then inl (- ERANGE)
  else if bool_decide (ds <> []) && bool_decide (r = [] \/ r = [10]) then inr (value base ds) else inl (- EINVAL).

Definition in_range (lo hi : Z) (r : Z + Z) : Z + Z :=
  match r with
  | inl e => inl e
  | inr v => if (lo <=? v) && (v <=? hi) then inr v else inl (- ERANGE)
  end.

Definition unsigned_string (s : list Z) (base : Z) : Z + Z :=
  unsigned_number (if ch s =? chr "+" then drop 1 s else s) base.

(** Negative numbers are below 0: negative zero is not an integer in Linux, says
    lib/test-kstrtox.c, and is out of range. *)
Definition signed_string (s : list Z) (base : Z) : Z + Z :=
  if ch s =? chr "-" then
    match unsigned_number (drop 1 s) base with
    | inl e => inl e
    | inr v => in_range (- 2 ^ 63) (- 1) (inr (- v))
    end
  else in_range 0 (2 ^ 63 - 1) (unsigned_string s base).

(** ** The loop *)

Lemma value_from_app base a ds ds' : value_from base a (ds ++ ds') = value_from base (value_from base a ds) ds'.
Proof. apply foldl_app. Qed.

Lemma digit_of_nonneg c d : digit_of c = Some d -> 0 <= d < 16.
Proof. unfold digit_of. change (chr "0") with 48. change (chr "9") with 57. change (chr "a") with 97. change (chr "f") with 102. repeat case_match; intros [= <-]; unbool; lia. Qed.

Lemma digits_at_ok base s ds r : digits_at base s = (ds, r) -> Forall (fun d => 0 <= d < base) ds.
Proof.
  revert ds r. induction s as [|c s IH]; intros ds r; cbn [digits_at]; [by intros [= <- <-]|].
  destruct (digit_of c) as [d|] eqn:Ed; [|by intros [= <- <-]].
  destruct (Z.ltb_spec d base); [|by intros [= <- <-]]. destruct (digits_at base s) as [ds' r'] eqn:E. intros [= <- <-].
  constructor; [pose proof (digit_of_nonneg c d Ed); lia|by eapply IH].
Qed.

Lemma value_from_ge base a ds : 1 <= base -> 0 <= a -> Forall (fun d => 0 <= d < base) ds -> a <= value_from base a ds.
Proof.
  intros Hb Ha H. revert a Ha. induction H as [|d ds Hd H IH]; intros a Ha; cbn; [lia|].
  specialize (IH (a * base + d) ltac:(nia)). unfold value_from in IH. nia.
Qed.

(** What the loop returns when the value of the digits before is [acc]. *)
Lemma kstrtoull_loop_spec base s acc ok :
  1 <= base -> 0 <= acc < 2 ^ 64 -> Forall (fun c => c <> 0) s ->
  kstrtoull_loop base s acc ok =
  let '(ds, r) := digits_at base s in
  if 2 ^ 64 <=? value_from base acc ds then inl (- ERANGE)
  else if (ok || bool_decide (ds <> [])) && bool_decide (r = [] \/ r = [10]) then inr (value_from base acc ds) else inl (- EINVAL).
Proof.
  intros Hb. revert acc ok. induction s as [|c s IH]; intros acc ok Hacc Hs; cbn [kstrtoull_loop digits_at].
  - cbn. destruct (Z.leb_spec (2 ^ 64) acc); [lia|]. unfold stop. by destruct ok.
  - apply Forall_cons_1 in Hs as [Hc Hs]. destruct (digit_of c) as [d|] eqn:Ed.
    + pose proof (digit_of_nonneg c d Ed) as Hd. rewrite (Z.ltb_antisym base d). destruct (Z.leb_spec base d) as [Hge|Hlt]; cbn [negb].
      * cbn. destruct (Z.leb_spec (2 ^ 64) acc); [lia|]. rewrite (bool_decide_false (c :: s = [] \/ _)); [by destruct ok|].
        intros [?|[= -> ->]]; [done|]. by vm_compute in Ed.
      * destruct (digits_at base s) as [ds r] eqn:E. pose proof (digits_at_ok base s ds r E) as Hds.
        pose proof (value_from_ge base (acc * base + d) ds Hb ltac:(nia) Hds) as Hge. unfold value_from in *. cbn [foldl].
        assert ((ULLONG_MAX - d) / base < acc <-> 2 ^ 64 <= acc * base + d) as Hov.
        { unfold ULLONG_MAX. pose proof (Z.div_mod (2 ^ 64 - 1 - d) base ltac:(lia)). pose proof (Z.mod_pos_bound (2 ^ 64 - 1 - d) base ltac:(lia)). nia. }
        destruct (Z.ltb_spec ((ULLONG_MAX - d) / base) acc) as [Hlt'|Hge'].
        -- apply Hov in Hlt'. by destruct (Z.leb_spec (2 ^ 64) (foldl (fun a d0 => a * base + d0) (acc * base + d) ds)); [|lia].
        -- assert (acc * base + d < 2 ^ 64) by (destruct (Z.ltb_spec (acc * base + d) (2 ^ 64)); [done|]; apply Hov in H; lia).
           rewrite u64_small, IH by (done || nia). rewrite (bool_decide_true (d :: ds <> [])) by done. by rewrite orb_true_r.
    + unfold value_from. cbn [foldl]. destruct (Z.leb_spec (2 ^ 64) acc); [lia|]. rewrite bool_decide_false by (intros F; by apply F). rewrite orb_false_r.
      destruct (Z.eqb_spec c 10) as [->|Hne].
      * destruct s as [|c' s]; cbn [ch].
        -- rewrite bool_decide_true by (by right). unfold stop. by destruct ok.
        -- apply Forall_cons_1 in Hs as [Hc' _]. destruct (Z.eqb_spec c' 0); [done|].
           rewrite bool_decide_false; [by destruct ok|]. by intros [?|?].
      * rewrite bool_decide_false; [by destruct ok|]. intros [?|[= ? ?]]; done.
Qed.

Section conversions.
Context (s : list Z) (base : Z) (Hbase : 0 <= base < 2 ^ 32) (Hs : Forall (fun c => c <> 0) s).

Lemma no_nul_drop n : Forall (fun c => c <> 0) (drop n s).
Proof using Hs. by apply Forall_drop. Qed.

Lemma auto_base_pos t : 1 <= auto_base t base.
Proof using Hbase. unfold auto_base. repeat case_match; unbool; lia. Qed.

Lemma _kstrtoull_spec t : Forall (fun c => c <> 0) t -> _kstrtoull t base = unsigned_number t base.
Proof using Hbase.
  intros Ht. unfold _kstrtoull, unsigned_number. fold (body t (auto_base t base)).
  rewrite kstrtoull_loop_spec; [done|apply auto_base_pos|lia|]. unfold body. case_match; [by apply Forall_drop|done].
Qed.

Lemma kstrtoull_spec : kstrtoull s base = unsigned_string s base.
Proof using Hbase Hs. apply _kstrtoull_spec. case_match; [apply no_nul_drop|done]. Qed.

Lemma unsigned_number_range t v : unsigned_number t base = inr v -> 0 <= v < 2 ^ 64.
Proof using Hbase.
  unfold unsigned_number. destruct (digits_at _ _) as [ds r] eqn:E. apply digits_at_ok in E.
  destruct (Z.leb_spec (2 ^ 64) (value (auto_base t base) ds)); [done|]. case_match; [|done]. intros [= <-].
  split; [|done]. apply value_from_ge; [apply auto_base_pos|done|done].
Qed.

Lemma kstrtoll_spec : kstrtoll s base = signed_string s base.
Proof using Hbase Hs.
  unfold kstrtoll, signed_string. destruct (ch s =? chr "-").
  - rewrite _kstrtoull_spec by apply no_nul_drop. destruct (unsigned_number (drop 1 s) base) as [e|v] eqn:E; [done|].
    apply unsigned_number_range in E. unfold in_range, s64. repeat case_match; unbool; try done; try (f_equal; Z.to_euclidean_division_equations; lia);
      exfalso; Z.to_euclidean_division_equations; lia.
  - rewrite kstrtoull_spec. unfold unsigned_string. destruct (unsigned_number _ base) as [e|v] eqn:E; [done|].
    apply unsigned_number_range in E. unfold in_range, s64. repeat case_match; unbool; try done; try (f_equal; Z.to_euclidean_division_equations; lia);
      exfalso; Z.to_euclidean_division_equations; lia.
Qed.

End conversions.

Lemma cast_in_range f lo hi r : (forall x, f x = x <-> lo <= x <= hi) -> cast f r = in_range lo hi r.
Proof.
  intros Hf. destruct r as [e|v]; [done|]. cbn. destruct (Z.eqb_spec v (f v)) as [E|Hne]; cbn [negb].
  - symmetry in E. rewrite E. apply Hf in E. destruct (Z.leb_spec lo v), (Z.leb_spec v hi); done || lia.
  - destruct (Z.leb_spec lo v), (Z.leb_spec v hi); try done. exfalso. apply Hne. symmetry. by apply Hf.
Qed.

Ltac cast_range := apply cast_in_range; intros x; unfold u32, s32, u16, s16, u8, s8; Z.to_euclidean_division_equations; lia.

(** ** Claims *)

(** C31: The strict conversions accept numbers and nothing else.  For every
    string and every radix (0 for one that the prefix tells; digits are those of
    hexadecimal) [kstrtoull] and [kstrtoll] return the value of the digits,
    -ERANGE if it does not fit into 64 bits and -EINVAL if there is no digit or
    anything but a newline behind them; [kstrtoll] also takes a minus sign and
    refuses minus zero with -ERANGE, as the tests of these functions ask for.
    The overflow test of the loop is exact and the accumulator never wraps. *)
Theorem kstrtox_exact s base :
  0 <= base < 2 ^ 32 -> Forall (fun c => c <> 0) s ->
  kstrtoull s base = unsigned_string s base /\ kstrtoll s base = signed_string s base.
Proof. intros. split; [by apply kstrtoull_spec|by apply kstrtoll_spec]. Qed.

Lemma kstrtox_exact_witness :
  kstrtoull (str "+0x1fffffffffffffffg") 0 = inl (- EINVAL) /\ unsigned_string (str "+0x1fffffffffffffffg") 0 = inl (- EINVAL) /\
  kstrtoull (str "18446744073709551616") 10 = inl (- ERANGE) /\ signed_string (str "-9223372036854775808") 0 = inr (- 2 ^ 63).
Proof.
  rewrite <- (proj1 (kstrtox_exact (str "+0x1fffffffffffffffg") 0 ltac:(lia) ltac:(vm_compute; repeat constructor; done))).
  rewrite <- (proj2 (kstrtox_exact (str "-9223372036854775808") 0 ltac:(lia) ltac:(vm_compute; repeat constructor; done))).
  by vm_compute.
Defined.

(** Every conversion delivers a value of its type.  The conversions to the
    narrower types return the number that the string is if the type holds it,
    -ERANGE if not, and the error of the string if it is no number. *)
Theorem kstrtox_types s base :
  0 <= base < 2 ^ 32 -> Forall (fun c => c <> 0) s ->
  kstrtoul s base = in_range 0 (2 ^ 32 - 1) (unsigned_string s base) /\
  kstrtouint s base = in_range 0 (2 ^ 32 - 1) (unsigned_string s base) /\
  kstrtou16 s base = in_range 0 (2 ^ 16 - 1) (unsigned_string s base) /\
  kstrtou8 s base = in_range 0 (2 ^ 8 - 1) (unsigned_string s base) /\
  kstrtol s base = in_range (- 2 ^ 31) (2 ^ 31 - 1) (signed_string s base) /\
  kstrtoint s base = in_range (- 2 ^ 31) (2 ^ 31 - 1) (signed_string s base) /\
  kstrtos16 s base = in_range (- 2 ^ 15) (2 ^ 15 - 1) (signed_string s base) /\
  kstrtos8 s base = in_range (- 2 ^ 7) (2 ^ 7 - 1) (signed_string s base).
Proof.
  intros Hb Hs. unfold kstrtoul, kstrtol, _kstrtoul, _kstrtol, kstrtouint, kstrtoint, kstrtou16, kstrtos16, kstrtou8, kstrtos8.
  rewrite kstrtoull_spec, kstrtoll_spec by done. repeat split; cast_range.
Qed.

Lemma kstrtox_types_witness :
  kstrtos8 (str "-128") 10 = inr (- 128) /\ in_range (- 2 ^ 7) (2 ^ 7 - 1) (signed_string (str "-128") 10) = inr (- 128).
Proof.
  pose proof (kstrtox_types (str "-128") 10) as H. destruct H as (_ & _ & _ & _ & _ & _ & _ & <-); [lia|vm_compute; repeat constructor; done|].
  by vm_compute.
Defined.

(** Minus zero is out of range, as lib/test-kstrtox.c expects. *)
Example minus_zero_refused : kstrtoll (str "-0") 10 = inl (- ERANGE) /\ kstrtoll (str "0") 10 = inr 0.
Proof. by vm_compute. Qed.
