(* ===== verification/Vsprintf.v ===== *)
(** * Formatted output (lib/vsprintf.c)

    [vsnprintf] decodes a format, takes the arguments and writes characters
    into a buffer with room for [size] of them; it goes on counting when the
    buffer is full.  Each conversion is a function of the way a character is
    put out, so that the same code writes to memory ([sink]) and to a list.

    An argument carries what the code reads through it: the characters of a
    string, the bytes of an address, a resource, a nested format.  [None] is an
    argument of another type than the format asks for, or a missing one.  %n
    stores into the same memory as the characters go to; the result lists those
    stores as well.  The symbol table and the context of the caller are in
    [printk_env]. *)

From stdpp Require Import base numbers list gmap strings.
From S2P Require Import Prelude CType.

Open Scope Z_scope.

(** ** Specifications *)

Definition ZEROPAD : Z := 1.
Definition SIGN : Z := 2.
Definition PLUS : Z := 4.
Definition SPACE : Z := 8.
Definition LEFT : Z := 16.
Definition SMALL : Z := 32.
Definition SPECIAL : Z := 64.

Inductive format_type :=
  | FORMAT_TYPE_NONE | FORMAT_TYPE_WIDTH | FORMAT_TYPE_PRECISION | FORMAT_TYPE_CHAR | FORMAT_TYPE_STR
  | FORMAT_TYPE_PTR | FORMAT_TYPE_PERCENT_CHAR | FORMAT_TYPE_INVALID | FORMAT_TYPE_LONG_LONG | FORMAT_TYPE_ULONG
  | FORMAT_TYPE_LONG | FORMAT_TYPE_UBYTE | FORMAT_TYPE_BYTE | FORMAT_TYPE_USHORT | FORMAT_TYPE_SHORT
  | FORMAT_TYPE_UINT | FORMAT_TYPE_INT | FORMAT_TYPE_NRCHARS | FORMAT_TYPE_SIZE_T | FORMAT_TYPE_PTRDIFF.

#[global] Instance format_type_eq_dec : EqDecision format_type.
Proof. solve_decision. Defined.

Record printf_spec := PrintfSpec {
  type : format_type;
  flags : Z;
  base : Z;
  qualifier : Z;
  field_width : Z;
  precision : Z }.

Definition set_type (x : format_type) (s : printf_spec) : printf_spec :=
  PrintfSpec x (flags s) (base s) (qualifier s) (field_width s) (precision s).
Definition set_flags (x : Z) (s : printf_spec) : printf_spec :=
  PrintfSpec (type s) x (base s) (qualifier s) (field_width s) (precision s).
Definition set_base (x : Z) (s : printf_spec) : printf_spec :=
  PrintfSpec (type s) (flags s) x (qualifier s) (field_width s) (precision s).
Definition set_qualifier (x : Z) (s : printf_spec) : printf_spec :=
  PrintfSpec (type s) (flags s) (base s) (u8 x) (field_width s) (precision s).
Definition set_field_width (x : Z) (s : printf_spec) : printf_spec :=
  PrintfSpec (type s) (flags s) (base s) (qualifier s) (s16 x) (precision s).
Definition set_precision (x : Z) (s : printf_spec) : printf_spec :=
  PrintfSpec (type s) (flags s) (base s) (qualifier s) (field_width s) (s16 x).

Definition has (f : Z) (s : printf_spec) : bool := negb (Z.land (flags s) f =? 0).
Definition add_flag (f : Z) (s : printf_spec) : printf_spec := set_flags (Z.lor (flags s) f) s.

(** ** Digits *)

Definition digit_char (d : Z) : Z := u8 (d + 48).

Definition put_dec_trunc (buf : list Z) (q : Z) : list Z :=
  let d1 := Z.land (Z.shiftr q 4) 15 in
  let d2 := Z.land (Z.shiftr q 8) 15 in
  let d3 := Z.shiftr q 12 in
  let d0 := 6 * (d3 + d2 + d1) + Z.land q 15 in
  let q := Z.shiftr (d0 * 205) 11 in
  let d0 := d0 - 10 * q in
  let buf := buf ++ [digit_char d0] in
  let d1 := q + 9 * d3 + 5 * d2 + d1 in
  if negb (d1 =? 0) then
    let q := Z.shiftr (d1 * 205) 11 in
    let d1 := d1 - 10 * q in
    let buf := buf ++ [digit_char d1] in
    let d2 := q + 2 * d2 in
    if negb (d2 =? 0) || negb (d3 =? 0) then
      let q := Z.shiftr (d2 * 13) 7 in
      let d2 := d2 - 10 * q in
      let buf := buf ++ [digit_char d2] in
      let d3 := q + 4 * d3 in
      if negb (d3 =? 0) then
        let q := Z.shiftr (d3 * 205) 11 in
        let d3 := d3 - 10 * q in
        let buf := buf ++ [digit_char d3] in
        if negb (q =? 0) then buf ++ [digit_char q] else buf
      else buf
    else buf
  else buf.

Definition put_dec_full (buf : list Z) (q : Z) : list Z :=
  let d1 := Z.land (Z.shiftr q 4) 15 in
  let d2 := Z.land (Z.shiftr q 8) 15 in
  let d3 := Z.shiftr q 12 in
  let d0 := 6 * (d3 + d2 + d1) + Z.land q 15 in
  let q := Z.shiftr (d0 * 205) 11 in
  let d0 := d0 - 10 * q in
  let buf := buf ++ [digit_char d0] in
  let d1 := q + 9 * d3 + 5 * d2 + d1 in
  let q := Z.shiftr (d1 * 205) 11 in
  let d1 := d1 - 10 * q in
  let buf := buf ++ [digit_char d1] in
  let d2 := q + 2 * d2 in
  let q := Z.shiftr (d2 * 13) 7 in
  let d2 := d2 - 10 * q in
  let buf := buf ++ [digit_char d2] in
  let d3 := q + 4 * d3 in
  let q := Z.shiftr (d3 * 205) 11 in
  let d3 := d3 - 10 * q in
  let buf := buf ++ [digit_char d3] in
  buf ++ [digit_char q].

Fixpoint put_dec_loop (fuel : nat) (buf : list Z) (num : Z) : list Z :=
  match fuel with
  | O => buf
  | S fuel =>
      if num <? 100000 then put_dec_trunc buf num
      else put_dec_loop fuel (put_dec_full buf (num mod 100000)) (num / 100000)
  end.

(** A 64-bit number has at most four groups of five digits. *)
Definition put_dec (buf : list Z) (num : Z) : list Z := put_dec_loop 4 buf num.

Definition digits : list Z := str "0123456789ABCDEF".

Fixpoint digit_loop (fuel : nat) (mask shift locase num : Z) : list Z :=
  match fuel with
  | O => []
  | S fuel =>
      Z.lor (bget digits (Z.land (u8 num) mask)) locase ::
      (let num := Z.shiftr num shift in if negb (num =? 0) then digit_loop fuel mask shift locase num else [])
  end.

(** The array [tmp] of [number]: the digits in reverse order. *)
Definition number_digits (num : Z) (base locase : Z) : list Z :=
  if num =? 0 then [48]
  else if negb (base =? 10) then
    let mask := base - 1 in
    let shift := if base =? 16 then 4 else 3 in
    digit_loop 22 mask shift locase num
  else put_dec [] num.

(** ** Output *)

Section output.
Context {Out : Type} (put : Z -> Out -> Out).

(** [while (--field_width >= k)] a character is put out. *)
Fixpoint pad_loop (fuel : nat) (k c fw : Z) (o : Out) : Out * Z :=
  match fuel with
  | O => (o, fw)
  | S fuel => let fw := s16 (fw - 1) in if k <=? fw then pad_loop fuel k c fw (put c o) else (o, fw)
  end.
Definition pad (k c fw : Z) (o : Out) : Out * Z := pad_loop (S (Z.to_nat (s16 (fw - 1) + 1))) k c fw o.

(** [while (i <= --precision)] *)
Fixpoint zeros_loop (fuel : nat) (i prec : Z) (o : Out) : Out :=
  match fuel with
  | O => o
  | S fuel => let prec := s16 (prec - 1) in if i <=? prec then zeros_loop fuel i prec (put (chr "0") o) else o
  end.

Definition number (buf : Out) (num : Z) (spec : printf_spec) : Out :=
  let need_pfx := has SPECIAL spec && negb (base spec =? 10) in
  let locase := Z.land (flags spec) SMALL in
  let spec := if has LEFT spec then set_flags (Z.land (flags spec) (255 - ZEROPAD)) spec else spec in
  let fw := field_width spec in
  let '(sign, num, fw) :=
    if has SIGN spec then
      if s64 num <? 0 then (chr "-", u64 (- s64 num), s16 (fw - 1))
      else if has PLUS spec then (chr "+", num, s16 (fw - 1))
      else if has SPACE spec then (chr " ", num, s16 (fw - 1))
      else (0, num, fw)
    else (0, num, fw) in
  let fw :=
    if need_pfx then
      let fw := s16 (fw - 1) in
      if base spec =? 16 then s16 (fw - 1) else fw
    else fw in
  let tmp := number_digits num (base spec) locase in
  let i := zlen tmp in
  let prec := if precision spec <? i then i else precision spec in
  let fw := s16 (fw - prec) in
  let '(buf, fw) := if Z.land (flags spec) (ZEROPAD + LEFT) =? 0 then pad 0 (chr " ") fw buf else (buf, fw) in
  let buf := if negb (sign =? 0) then put sign buf else buf in
  let buf :=
    if need_pfx then
      let buf := put (chr "0") buf in
      if base spec =? 16 then put (Z.lor (chr "X") locase) buf else buf
    else buf in
  let '(buf, fw) :=
    if negb (has LEFT spec) then pad 0 (if has ZEROPAD spec then chr "0" else chr " ") fw buf else (buf, fw) in
  let buf := zeros_loop (S (Z.to_nat (prec - i))) i prec buf in
  let buf := foldr put buf tmp in
  (pad 0 (chr " ") fw buf).1.

(** [while (len < field_width--)] *)
Fixpoint pad_to_loop (fuel : nat) (len fw : Z) (o : Out) : Out * Z :=
  match fuel with
  | O => (o, fw)
  | S fuel => if len <? fw then pad_to_loop fuel len (s16 (fw - 1)) (put (chr " ") o) else (o, s16 (fw - 1))
  end.
Definition pad_to (len fw : Z) (o : Out) : Out * Z := pad_to_loop (S (Z.to_nat (fw - len))) len fw o.

(** [string], for a pointer that is not near null. *)
Definition string_at (buf : Out) (s : list Z) (spec : printf_spec) : Out :=
  let len := strnlen s (u32 (precision spec)) in
  let fw := field_width spec in
  let '(buf, fw) := if negb (has LEFT spec) then pad_to len fw buf else (buf, fw) in
  let buf := foldl (fun o c => put c o) buf (take (Z.to_nat len) s) in
  (pad_to len fw buf).1.

Definition string_out (buf : Out) (p : Z) (s : list Z) (spec : printf_spec) : Out :=
  string_at buf (if p <? PAGE_SIZE then str "(null)" else s) spec.

End output.

(** ** Memory

    [*str++ = c], if there is room. *)

Record sink := Sink { smem : gmap Z Z; sstr : Z }.

Definition sink_put (e : Z) (c : Z) (s : sink) : sink :=
  Sink (if sstr s <? e then <[sstr s := c]> (smem s) else smem s) (u32 (sstr s + 1)).

(** Without a test. *)
Definition store (c : Z) (s : sink) : sink := Sink (<[sstr s := c]> (smem s)) (u32 (sstr s + 1)).

(** The string in memory that starts at [a]. *)
Fixpoint cstr_at (fuel : nat) (m : gmap Z Z) (a : Z) : list Z :=
  match fuel with
  | O => []
  | S fuel =>
      match m !! a with
      | Some c => if c =? 0 then [] else c :: cstr_at fuel m (a + 1)
      | None => []
      end
  end.

(** ** Pointers *)

Record resource := Resource { r_start : Z; r_end : Z; r_flags : Z }.

Definition IORESOURCE_IO : Z := 0x100.
Definition IORESOURCE_MEM : Z := 0x200.
Definition IORESOURCE_IRQ : Z := 0x400.
Definition IORESOURCE_DMA : Z := 0x800.
Definition IORESOURCE_BUS : Z := 0x1000.
Definition IORESOURCE_PREFETCH : Z := 0x2000.
Definition IORESOURCE_MEM_64 : Z := 0x100000.
Definition IORESOURCE_WINDOW : Z := 0x200000.
Definition IORESOURCE_DISABLED : Z := 0x10000000.

Definition io_spec : printf_spec := PrintfSpec FORMAT_TYPE_NONE (Z.lor (Z.lor SPECIAL SMALL) ZEROPAD) 16 0 6 (-1).
Definition mem_spec : printf_spec := PrintfSpec FORMAT_TYPE_NONE (Z.lor (Z.lor SPECIAL SMALL) ZEROPAD) 16 0 10 (-1).
Definition bus_spec : printf_spec := PrintfSpec FORMAT_TYPE_NONE (Z.lor SMALL ZEROPAD) 16 0 2 (-1).
Definition dec_spec : printf_spec := PrintfSpec FORMAT_TYPE_NONE 0 10 0 0 (-1).
Definition str_spec : printf_spec := PrintfSpec FORMAT_TYPE_NONE LEFT 0 0 (-1) 10.
Definition flag_spec : printf_spec := PrintfSpec FORMAT_TYPE_NONE (Z.lor SPECIAL SMALL) 16 0 0 (-1).

(** Sizes of the array [sym]: [resource_size_t] and [flags] have 4 bytes. *)
Definition RSRC_BUF_SIZE : Z := 2 * 4 + 4.
Definition FLAG_BUF_SIZE : Z := 2 * 4.
Definition DECODED_BUF_SIZE : Z := zlen (str "[mem - 64bit pref window disabled]") + 1.
Definition RAW_BUF_SIZE : Z := zlen (str "[mem - flags 0x]") + 1.
Definition sym_size : Z := Z.max (2 * RSRC_BUF_SIZE + DECODED_BUF_SIZE) (2 * RSRC_BUF_SIZE + FLAG_BUF_SIZE + RAW_BUF_SIZE).

(** The array [sym] is at the addresses from 0 on. *)
Definition sym_put : Z -> sink -> sink := sink_put sym_size.
Definition sym_text (t : list Z) (p : sink) : sink := string_at sym_put p t str_spec.
Definition res_flag (res : resource) (f : Z) : bool := negb (Z.land (r_flags res) f =? 0).

Definition resource_kind (res : resource) (decode : bool) (p : sink) : sink * printf_spec * bool :=
  if res_flag res IORESOURCE_IO then (sym_text (str "io  ") p, io_spec, decode)
  else if res_flag res IORESOURCE_MEM then (sym_text (str "mem ") p, mem_spec, decode)
  else if res_flag res IORESOURCE_IRQ then (sym_text (str "irq ") p, dec_spec, decode)
  else if res_flag res IORESOURCE_DMA then (sym_text (str "dma ") p, dec_spec, decode)
  else if res_flag res IORESOURCE_BUS then (sym_text (str "bus ") p, bus_spec, decode)
  else (sym_text (str "??? ") p, mem_spec, false).

Definition resource_range (res : resource) (specp : printf_spec) (p : sink) : sink :=
  let p := number sym_put p (r_start res) specp in
  if negb (r_start res =? r_end res) then number sym_put (store (chr "-") p) (r_end res) specp else p.

Definition resource_words (res : resource) (decode : bool) (p : sink) : sink :=
  let word f t p := if res_flag res f then sym_text t p else p in
  if decode then
    word IORESOURCE_DISABLED (str " disabled") (word IORESOURCE_WINDOW (str " window")
      (word IORESOURCE_PREFETCH (str " pref") (word IORESOURCE_MEM_64 (str " 64bit") p)))
  else number sym_put (sym_text (str " flags ") p) (r_flags res) flag_spec.

(** The array and the pointer to its terminator. *)
Definition resource_sym (res : resource) (fmt : list Z) : sink :=
  let p := store (chr "[") (Sink ∅ 0) in
  let '(p, specp, decode) := resource_kind res (ch fmt =? chr "R") p in
  let p := store (chr "]") (resource_words res decode (resource_range res specp p)) in
  Sink (<[sstr p := 0]> (smem p)) (sstr p).

Definition hex_asc : list Z := str "0123456789abcdef".
Definition hex_asc_lo (x : Z) : Z := bget hex_asc (Z.land x 15).
Definition hex_asc_hi (x : Z) : Z := bget hex_asc (Z.shiftr (Z.land x 240) 4).
Definition pack_hex_byte (p : list Z) (byte : Z) : list Z := p ++ [hex_asc_hi byte; hex_asc_lo byte].

(** The character [n] of a format. *)
Definition fch (fmt : list Z) (n : nat) : Z := ch (drop n fmt).

Definition mac_address (addr : list Z) (fmt : list Z) : list Z :=
  let separator := if fch fmt 1 =? chr "F" then chr "-" else chr ":" in
  foldl (fun p i =>
    let p := pack_hex_byte p (bget addr i) in
    if (fch fmt 0 =? chr "M") && negb (i =? 5) then p ++ [separator] else p) [] (seqZ 0 6).

Definition ip4_string (p : list Z) (addr : list Z) (fmt : list Z) : list Z :=
  let leading_zeros := fch fmt 0 =? chr "i" in
  let '(index, step) :=
    if fch fmt 2 =? chr "h" then (3, -1) else if fch fmt 2 =? chr "l" then (3, -1) else (0, 1) in
  foldl (fun p i =>
    let temp := put_dec_trunc [] (bget addr (index + i * step)) in
    let p :=
      if leading_zeros then
        let p := if zlen temp <? 3 then p ++ [chr "0"] else p in
        if zlen temp <? 2 then p ++ [chr "0"] else p
      else p in
    let p := p ++ reverse temp in
    if i <? 3 then p ++ [chr "."] else p) p (seqZ 0 4).

(** The words of an IPv6 address, in host order. *)
Definition s6_addr32 (addr : list Z) (i : Z) : Z :=
  bget addr (4 * i) * 2 ^ 24 + bget addr (4 * i + 1) * 2 ^ 16 + bget addr (4 * i + 2) * 2 ^ 8 + bget addr (4 * i + 3).
Definition s6_addr16 (addr : list Z) (i : Z) : Z := bget addr (2 * i) * 2 ^ 8 + bget addr (2 * i + 1).

Definition ipv6_addr_v4mapped (a : list Z) : bool :=
  Z.lor (Z.lor (s6_addr32 a 0) (s6_addr32 a 1)) (Z.lxor (s6_addr32 a 2) 0x0000ffff) =? 0.
Definition ipv6_addr_is_isatap (a : list Z) : bool := Z.lor (s6_addr32 a 2) 0x02000000 =? 0x02005efe.

(** The number of words from [i] on that are 0. *)
Fixpoint zero_run (fuel : nat) (addr : list Z) (range j : Z) : Z :=
  match fuel with
  | O => 0
  | S fuel => if (j <? range) && (s6_addr16 addr j =? 0) then 1 + zero_run fuel addr range (j + 1) else 0
  end.

(** The longest run of zeros and its position, -1 for none of two words. *)
Definition longest_run (addr : list Z) (range : Z) : Z * Z :=
  foldl (fun '(longest, colonpos) i =>
    let l := zero_run 8 addr range i in
    if longest <? l then (l, i) else (longest, colonpos)) (1, -1) (seqZ 0 range).

Definition put_word (p : list Z) (word : Z) : list Z :=
  let hi := Z.shiftr word 8 in
  let lo := Z.land word 255 in
  if negb (hi =? 0) then
    let p := if 15 <? hi then pack_hex_byte p hi else p ++ [hex_asc_lo hi] in
    pack_hex_byte p lo
  else if 15 <? lo then pack_hex_byte p lo
  else p ++ [hex_asc_lo lo].

Fixpoint emit_loop (fuel : nat) (addr : list Z) (range longest colonpos i : Z) (p : list Z) (needcolon : bool) : list Z * bool :=
  match fuel with
  | O => (p, needcolon)
  | S fuel =>
      if i <? range then
        if i =? colonpos then
          let p := if needcolon || (i =? 0) then p ++ [chr ":"] else p in
          emit_loop fuel addr range longest colonpos (i + (longest - 1) + 1) (p ++ [chr ":"]) false
        else
          let p := if needcolon then p ++ [chr ":"] else p in
          emit_loop fuel addr range longest colonpos (i + 1) (put_word p (s6_addr16 addr i)) true
      else (p, needcolon)
  end.

Definition ip6_compressed_string (p : list Z) (addr : list Z) : list Z :=
  let useIPv4 := ipv6_addr_v4mapped addr || ipv6_addr_is_isatap addr in
  let range := if useIPv4 then 6 else 8 in
  let '(longest, colonpos) := longest_run addr range in
  let '(p, needcolon) := emit_loop 9 addr range longest colonpos 0 p false in
  if useIPv4 then
    let p := if needcolon then p ++ [chr ":"] else p in
    ip4_string p (drop 12 addr) (str "I4")
  else p.

Definition ip6_string (p : list Z) (addr : list Z) (fmt : list Z) : list Z :=
  foldl (fun p i =>
    let p := pack_hex_byte p (bget addr (2 * i)) in
    let p := pack_hex_byte p (bget addr (2 * i + 1)) in
    if (fch fmt 0 =? chr "I") && negb (i =? 7) then p ++ [chr ":"] else p) p (seqZ 0 8).

Definition ip6_addr (addr : list Z) (fmt : list Z) : list Z :=
  if (fch fmt 0 =? chr "I") && (fch fmt 2 =? chr "c") then ip6_compressed_string [] addr else ip6_string [] addr fmt.
Definition ip4_addr (addr : list Z) (fmt : list Z) : list Z := ip4_string [] addr fmt.

Definition uuid_be : list Z := [0;1;2;3;4;5;6;7;8;9;10;11;12;13;14;15].
Definition uuid_le : list Z := [3;2;1;0;5;4;7;6;8;9;10;11;12;13;14;15].

Definition uuid_text (addr : list Z) (fmt : list Z) : list Z :=
  let c := fch fmt 1 in
  let '(index, uc) :=
    if c =? chr "L" then (uuid_le, true) else if c =? chr "l" then (uuid_le, false)
    else if c =? chr "B" then (uuid_be, true) else (uuid_be, false) in
  let p := foldl (fun p i =>
    let p := pack_hex_byte p (bget addr (bget index i)) in
    if (i =? 3) || (i =? 5) || (i =? 7) || (i =? 9) then p ++ [chr "-"] else p) [] (seqZ 0 16) in
  if uc then toupper <$> p else p.

(** ** Arguments *)

Inductive va :=
  | VInt (x : Z)
  | VLongLong (x : Z)
  | VStr (p : Z) (s : list Z)
  | VPtr (p : Z) (bytes : list Z)
  | VResource (p : Z) (r : resource)
  | VFormat (p : Z) (fmt : list Z) (args : list va).

(** How deep formats are nested. *)
Fixpoint va_depth (v : va) : nat :=
  match v with
  | VFormat _ _ args => S (max_list_with va_depth args)
  | _ => O
  end.

Definition arg_int (args : list va) : option (Z * list va) :=
  match args with VInt x :: args' => Some (x, args') | _ => None end.
Definition arg_long_long (args : list va) : option (Z * list va) :=
  match args with VLongLong x :: args' => Some (x, args') | _ => None end.
Definition arg_str (args : list va) : option (Z * list Z * list va) :=
  match args with VStr p s :: args' => Some (p, s, args') | _ => None end.
Definition arg_ptr (args : list va) : option (Z * va * list va) :=
  match args with
  | VPtr p b :: args' => Some (p, VPtr p b, args')
  | VResource p r :: args' => Some (p, VResource p r, args')
  | VFormat p f l :: args' => Some (p, VFormat p f l, args')
  | _ => None
  end.

(** The number that a conversion takes. *)
Definition arg_num (t : format_type) (args : list va) : option (Z * list va) :=
  match t with
  | FORMAT_TYPE_LONG_LONG => '(x, args) ← arg_long_long args; Some (u64 x, args)
  | _ =>
      '(x, args) ← arg_int args;
      Some (match t with
            | FORMAT_TYPE_ULONG => u32 x
            | FORMAT_TYPE_LONG => u64 (s32 x)
            | FORMAT_TYPE_SIZE_T => u32 x
            | FORMAT_TYPE_PTRDIFF => u64 (s32 x)
            | FORMAT_TYPE_UBYTE => u8 x
            | FORMAT_TYPE_BYTE => u64 (s8 x)
            | FORMAT_TYPE_USHORT => u16 x
            | FORMAT_TYPE_SHORT => u64 (s16 x)
            | FORMAT_TYPE_INT => u64 (s32 x)
            | _ => u32 x
            end, args)
  end.

(** [ksym] is the name of an address, with an offset unless the character is
    one of f and s. *)
Record printk_env := PrintkEnv {
  ksym : Z -> Z -> list Z;
  in_interrupt : bool;
  kptr_restrict : Z;
  cap_syslog : bool }.

(** The bytes behind a pointer, if there are [n]. *)
Definition bytes_at (n : Z) (v : va) : option (list Z) :=
  match v with VPtr _ b => if n <=? zlen b then Some b else None | _ => None end.

(** ** One conversion

    What an output can do: put a character, copy a part of the format, tell its
    position, and run a nested format. *)

Record output Out := Output {
  o_put : Z -> Out -> Out;
  o_block : list Z -> Out -> Out;
  o_pos : Out -> Z;
  o_store : Z -> Z -> Out -> Out;
  o_format : list Z -> list va -> Out -> option (Out * list (Z * Z)) }.
Arguments o_put {_} _ _ _.
Arguments o_block {_} _ _ _.
Arguments o_pos {_} _ _.
Arguments o_store {_} _ _ _ _.
Arguments o_format {_} _ _ _ _.

Section conversions.
Context (env : printk_env) {Out : Type} (out : output Out).

Definition default_width (spec : printf_spec) : printf_spec :=
  if field_width spec =? -1 then set_field_width 8 spec else spec.
Definition default_zero_width (spec : printf_spec) : printf_spec :=
  if field_width spec =? -1 then add_flag ZEROPAD (set_field_width 8 spec) else spec.

Definition pointer_number (buf : Out) (p : Z) (spec : printf_spec) : Out :=
  number (o_put out) buf p (set_base 16 (default_zero_width (add_flag SMALL spec))).

Definition pointer (fmt : list Z) (buf : Out) (p : Z) (v : va) (spec : printf_spec) : option (Out * list (Z * Z)) :=
  let text t := Some (string_at (o_put out) buf t spec, []) in
  let c := fch fmt 0 in
  if p =? 0 then Some (string_at (o_put out) buf (str "(null)") (default_width spec), [])
  else if (c =? chr "F") || (c =? chr "f") || (c =? chr "S") || (c =? chr "s") then text (ksym env p c)
  else if (c =? chr "R") || (c =? chr "r") then
    match v with
    | VResource _ r => text (cstr_at (Z.to_nat sym_size) (smem (resource_sym r fmt)) 0)
    | _ => None
    end
  else if (c =? chr "M") || (c =? chr "m") then b ← bytes_at 6 v; text (mac_address b fmt)
  else if ((c =? chr "I") || (c =? chr "i")) && (fch fmt 1 =? chr "6") then b ← bytes_at 16 v; text (ip6_addr b fmt)
  else if ((c =? chr "I") || (c =? chr "i")) && (fch fmt 1 =? chr "4") then b ← bytes_at 4 v; text (ip4_addr b fmt)
  else if c =? chr "U" then b ← bytes_at 16 v; text (uuid_text b fmt)
  else if c =? chr "V" then
    match v with
    | VFormat _ f args => o_format out f args buf
    | _ => None
    end
  else if c =? chr "K" then
    if in_interrupt env then Some (string_at (o_put out) buf (str "pK-error") (default_width spec), [])
    else if (kptr_restrict env =? 0) || ((kptr_restrict env =? 1) && cap_syslog env)
    then Some (pointer_number buf p spec, [])
    else Some (number (o_put out) buf 0 (default_zero_width spec), [])
  else Some (pointer_number buf p spec, []).

End conversions.

(** ** Decoding *)

Fixpoint plain_part (fmt : list Z) : list Z :=
  match fmt with
  | c :: fmt' => if c =? chr "%" then fmt else plain_part fmt'
  | [] => []
  end.

Fixpoint flags_loop (fmt : list Z) (flags : Z) : Z * list Z :=
  match fmt with
  | c :: fmt' =>
      if c =? chr "-" then flags_loop fmt' (Z.lor flags LEFT)
      else if c =? chr "+" then flags_loop fmt' (Z.lor flags PLUS)
      else if c =? chr " " then flags_loop fmt' (Z.lor flags SPACE)
      else if c =? chr "#" then flags_loop fmt' (Z.lor flags SPECIAL)
      else if c =? chr "0" then flags_loop fmt' (Z.lor flags ZEROPAD)
      else (flags, fmt)
  | [] => (flags, [])
  end.

(** The integer type that the qualifier and the sign name. *)
Definition integer_type (spec : printf_spec) : format_type :=
  let q := qualifier spec in
  if q =? chr "L" then FORMAT_TYPE_LONG_LONG
  else if q =? chr "l" then if has SIGN spec then FORMAT_TYPE_LONG else FORMAT_TYPE_ULONG
  else if TOLOWER q =? chr "z" then FORMAT_TYPE_SIZE_T
  else if q =? chr "t" then FORMAT_TYPE_PTRDIFF
  else if q =? chr "H" then if has SIGN spec then FORMAT_TYPE_BYTE else FORMAT_TYPE_UBYTE
  else if q =? chr "h" then if has SIGN spec then FORMAT_TYPE_SHORT else FORMAT_TYPE_USHORT
  else if has SIGN spec then FORMAT_TYPE_INT else FORMAT_TYPE_UINT.

Definition decode_conversion (fmt : list Z) (spec : printf_spec) : printf_spec * list Z :=
  let spec := set_base 10 spec in
  let c := ch fmt in
  let integer spec := (set_type (integer_type spec) spec, drop 1 fmt) in
  if c =? chr "c" then (set_type FORMAT_TYPE_CHAR spec, drop 1 fmt)
  else if c =? chr "s" then (set_type FORMAT_TYPE_STR spec, drop 1 fmt)
  else if c =? chr "p" then (set_type FORMAT_TYPE_PTR spec, fmt)
  else if c =? chr "n" then (set_type FORMAT_TYPE_NRCHARS spec, drop 1 fmt)
  else if c =? chr "%" then (set_type FORMAT_TYPE_PERCENT_CHAR spec, drop 1 fmt)
  else if c =? chr "o" then integer (set_base 8 spec)
  else if c =? chr "x" then integer (set_base 16 (add_flag SMALL spec))
  else if c =? chr "X" then integer (set_base 16 spec)
  else if (c =? chr "d") || (c =? chr "i") then integer (add_flag SIGN spec)
  else if c =? chr "u" then integer spec
  else (set_type FORMAT_TYPE_INVALID spec, fmt).

Definition decode_qualifier (fmt : list Z) (spec : printf_spec) : printf_spec * list Z :=
  let c := ch fmt in
  if (c =? chr "h") || (TOLOWER c =? chr "l") || (TOLOWER c =? chr "z") || (c =? chr "t") then
    let fmt := drop 1 fmt in
    if c =? ch fmt then
      if c =? chr "l" then decode_conversion (drop 1 fmt) (set_qualifier (chr "L") spec)
      else if c =? chr "h" then decode_conversion (drop 1 fmt) (set_qualifier (chr "H") spec)
      else decode_conversion fmt (set_qualifier c spec)
    else decode_conversion fmt (set_qualifier c spec)
  else decode_conversion fmt (set_qualifier (-1) spec).

Definition decode_precision (fmt : list Z) (spec : printf_spec) : printf_spec * list Z :=
  let spec := set_precision (-1) spec in
  if ch fmt =? chr "." then
    let fmt := drop 1 fmt in
    if isdigit (ch fmt) then
      let '(n, fmt) := skip_atoi fmt in
      let spec := set_precision n spec in
      decode_qualifier fmt (if precision spec <? 0 then set_precision 0 spec else spec)
    else if ch fmt =? chr "*" then (set_type FORMAT_TYPE_PRECISION spec, drop 1 fmt)
    else decode_qualifier fmt spec
  else decode_qualifier fmt spec.

(** The specification, and the format behind what was read. *)
Definition format_decode (fmt : list Z) (spec : printf_spec) : printf_spec * list Z :=
  match type spec with
  | FORMAT_TYPE_WIDTH =>
      let spec := if field_width spec <? 0 then add_flag LEFT (set_field_width (- field_width spec) spec) else spec in
      decode_precision fmt (set_type FORMAT_TYPE_NONE spec)
  | FORMAT_TYPE_PRECISION =>
      let spec := if precision spec <? 0 then set_precision 0 spec else spec in
      decode_qualifier fmt (set_type FORMAT_TYPE_NONE spec)
  | _ =>
      let spec := set_type FORMAT_TYPE_NONE spec in
      let rest := plain_part fmt in
      if negb (length rest =? length fmt)%nat || (ch rest =? 0) then (spec, rest)
      else
        let '(fl, fmt) := flags_loop (drop 1 rest) 0 in
        let spec := set_field_width (-1) (set_flags fl spec) in
        if isdigit (ch fmt) then
          let '(n, fmt) := skip_atoi fmt in decode_precision fmt (set_field_width n spec)
        else if ch fmt =? chr "*" then (set_type FORMAT_TYPE_WIDTH spec, drop 1 fmt)
        else decode_precision fmt spec
  end.

(** ** The loop *)

Fixpoint skip_alnum (fmt : list Z) : list Z :=
  match fmt with
  | c :: fmt' => if isalnum c then skip_alnum fmt' else fmt
  | [] => []
  end.

Section loop.
Context (env : printk_env) {Out : Type} (out : output Out).

Definition put_char (o : Out) (c : Z) (spec : printf_spec) : Out :=
  let fw := field_width spec in
  let '(o, fw) := if negb (has LEFT spec) then pad (o_put out) 1 (chr " ") fw o else (o, fw) in
  (pad (o_put out) 1 (chr " ") fw (o_put out (u8 c) o)).1.

(** One round: the part of the format that was read is [old]; [fmt] follows.
    The stores of %n, which the output has taken, come with the result. *)
Definition convert (old fmt : list Z) (spec : printf_spec) (args : list va) (o : Out) :
    option (list Z * printf_spec * list va * Out * list (Z * Z)) :=
  match type spec with
  | FORMAT_TYPE_NONE => Some (fmt, spec, args, o_block out old o, [])
  | FORMAT_TYPE_WIDTH => '(x, args) ← arg_int args; Some (fmt, set_field_width (s32 x) spec, args, o, [])
  | FORMAT_TYPE_PRECISION => '(x, args) ← arg_int args; Some (fmt, set_precision (s32 x) spec, args, o, [])
  | FORMAT_TYPE_CHAR => '(x, args) ← arg_int args; Some (fmt, spec, args, put_char o x spec, [])
  | FORMAT_TYPE_STR => '(p, s, args) ← arg_str args; Some (fmt, spec, args, string_out (o_put out) o p s spec, [])
  | FORMAT_TYPE_PTR =>
      '(p, v, args) ← arg_ptr args;
      '(o, nr) ← pointer env out (drop 1 fmt) o p v spec;
      Some (skip_alnum fmt, spec, args, o, nr)
  | FORMAT_TYPE_PERCENT_CHAR | FORMAT_TYPE_INVALID => Some (fmt, spec, args, o_put out (chr "%") o, [])
  | FORMAT_TYPE_NRCHARS =>
      '(p, _, args) ← arg_ptr args; Some (fmt, spec, args, o_store out p (o_pos out o) o, [(p, o_pos out o)])
  | t => '(num, args) ← arg_num t args; Some (fmt, spec, args, number (o_put out) o num spec, [])
  end.

Fixpoint vsn_loop (fuel : nat) (fmt : list Z) (spec : printf_spec) (args : list va) (o : Out) (nr : list (Z * Z)) :
    option (Out * list (Z * Z)) :=
  match fuel with
  | O => None
  | S fuel =>
      if ch fmt =? 0 then Some (o, nr)
      else
        let '(spec, rest) := format_decode fmt spec in
        '(fmt', spec', args', o', nr') ← convert (take (length fmt - length rest) fmt) rest spec args o;
        vsn_loop fuel fmt' spec' args' o' (nr ++ nr')
  end.

Definition spec0 : printf_spec := PrintfSpec FORMAT_TYPE_NONE 0 0 0 0 0.

(** Each round takes a character, or the number that a star asked for. *)
Definition vsn (fmt : list Z) (args : list va) (o : Out) : option (Out * list (Z * Z)) :=
  vsn_loop (S (2 * length fmt)) fmt spec0 args o [].

End loop.

(** ** Output to memory *)

Definition memcpy (m : gmap Z Z) (dst : Z) (src : list Z) : gmap Z Z :=
  foldl (fun m '(i, c) => <[dst + i := c]> m) m (zip (seqZ 0 (zlen src)) src).

Definition sink_block (e : Z) (bs : list Z) (s : sink) : sink :=
  Sink (if sstr s <? e
        then let copy := if e - sstr s <? zlen bs then e - sstr s else zlen bs in
             memcpy (smem s) (sstr s) (take (Z.to_nat copy) bs)
        else smem s)
       (u32 (sstr s + zlen bs)).

(** [*ip = str - buf]: an int, a long and a size_t have four bytes each. *)
Definition store_word (m : gmap Z Z) (p v : Z) : gmap Z Z := memcpy m p (le_bytes 4 v).

Definition sink_store (p v : Z) (s : sink) : sink := Sink (store_word (smem s) p v) (sstr s).

Definition sink_output (e buf : Z) (format : list Z -> list va -> sink -> option (sink * list (Z * Z))) : output sink :=
  Output sink (sink_put e) (sink_block e) (fun s => s32 (sstr s - buf)) sink_store format.

(** The memory with the stores of %n in it, the number of characters and the
    list of those stores. *)
Fixpoint vsnprintf_at (depth : nat) (env : printk_env) (m : gmap Z Z) (buf size : Z) (fmt : list Z) (args : list va) :
    option (gmap Z Z * Z * list (Z * Z)) :=
  if s32 size <? 0 then Some (m, 0, [])
  else
    let e := u32 (buf + size) in
    let '(e, size) := if e <? buf then (2 ^ 32 - 1, 2 ^ 32 - 1 - buf) else (e, size) in
    let nested f l s :=
      match depth with
      | O => None
      | S d => '(m, n, nr) ← vsnprintf_at d env (smem s) (sstr s) (u32 (e - sstr s)) f l;
               Some (Sink m (u32 (sstr s + n)), nr)
      end in
    '(s, nr) ← vsn env (sink_output e buf nested) fmt args (Sink m buf);
    let m :=
      if 0 <? size then
        if sstr s <? e then <[sstr s := 0]> (smem s) else <[e - 1 := 0]> (smem s)
      else smem s in
    Some (m, s32 (sstr s - buf), nr).

Definition vsnprintf (env : printk_env) (m : gmap Z Z) (buf size : Z) (fmt : list Z) (args : list va) :
    option (gmap Z Z * Z * list (Z * Z)) := vsnprintf_at (max_list_with va_depth args) env m buf size fmt args.

Definition vscnprintf (env : printk_env) (m : gmap Z Z) (buf size : Z) (fmt : list Z) (args : list va) :
    option (gmap Z Z * Z * list (Z * Z)) :=
  '(m, i, nr) ← vsnprintf env m buf size fmt args;
  Some (m, if u32 i <? size then i else if negb (size =? 0) then s32 (size - 1) else 0, nr).

Definition snprintf := vsnprintf.
Definition scnprintf := vscnprintf.

Definition INT_MAX : Z := 2 ^ 31 - 1.
Definition vsprintf (env : printk_env) (m : gmap Z Z) (buf : Z) (fmt : list Z) (args : list va) :
    option (gmap Z Z * Z * list (Z * Z)) := vsnprintf env m buf INT_MAX fmt args.
Definition sprintf (env : printk_env) (m : gmap Z Z) (buf : Z) (fmt : list Z) (args : list va) :
    option (gmap Z Z * Z * list (Z * Z)) := vsnprintf env m buf INT_MAX fmt args.

(** ** Output to a list: the text *)

Definition text_output (format : list Z -> list va -> option (list Z * list (Z * Z))) : output (list Z) :=
  Output (list Z) (fun c o => o ++ [c]) (fun b o => o ++ b) zlen (fun _ _ o => o)
    (fun f l o => '(t, nr) ← format f l; Some (o ++ t, nr)).

Fixpoint text_at (depth : nat) (env : printk_env) (fmt : list Z) (args : list va) : option (list Z * list (Z * Z)) :=
  vsn env (text_output (fun f l => match depth with O => None | S d => text_at d env f l end)) fmt args [].

(** The whole text that a format and its arguments give. *)
Definition formatted (env : printk_env) (fmt : list Z) (args : list va) : option (list Z * list (Z * Z)) :=
  text_at (max_list_with va_depth args) env fmt args.
