(* ===== verification/VsprintfNumber.v ===== *)
(** * Formatted output: numbers

    The decimal digits come without a division by 10; they are the digits of
    the number.  What [number] puts out is sign, prefix, zeros and digits, filled
    up to the field width on one side. *)

From stdpp Require Import base numbers list gmap strings.
From S2P Require Import Prelude CType Vsprintf.

Open Scope Z_scope.

(** ** Decimal digits *)

(** The digits of a number, lowest first. *)
Fixpoint to_digits (fuel : nat) (b n : Z) : list Z :=
  match fuel with
  | O => []
  | S fuel => if n <? b then [n] else n mod b :: to_digits fuel b (n / b)
  end.

(** 64 digits are enough for 64 bits in any base. *)
Definition digits_of (b n : Z) : list Z := to_digits 64 b n.

Lemma div10_205 x : 0 <= x <= 1028 -> Z.shiftr (x * 205) 11 = x / 10.
Proof. intros Hx. rewrite Z.shiftr_div_pow2 by lia. change (2 ^ 11) with 2048. Z.to_euclidean_division_equations; lia. Qed.

Lemma div10_13 x : 0 <= x <= 68 -> Z.shiftr (x * 13) 7 = x / 10.
Proof. intros Hx. rewrite Z.shiftr_div_pow2 by lia. change (2 ^ 7) with 128. Z.to_euclidean_division_equations; lia. Qed.

Section dec.
Context (q : Z) (Hq : 0 <= q < 100000).

Let h1 := Z.land (Z.shiftr q 4) 15.
Let h2 := Z.land (Z.shiftr q 8) 15.
Let h3 := Z.shiftr q 12.
Let d0 := 6 * (h3 + h2 + h1) + Z.land q 15.
Let q0 := Z.shiftr (d0 * 205) 11.
Let d1 := q0 + 9 * h3 + 5 * h2 + h1.
Let q1 := Z.shiftr (d1 * 205) 11.
Let d2 := q1 + 2 * h2.
Let q2 := Z.shiftr (d2 * 13) 7.
Let d3 := q2 + 4 * h3.
Let q3 := Z.shiftr (d3 * 205) 11.

Lemma hex_digits : q = Z.land q 15 + 16 * h1 + 256 * h2 + 4096 * h3 /\ 0 <= Z.land q 15 < 16 /\ 0 <= h1 < 16 /\ 0 <= h2 < 16 /\ 0 <= h3 <= 24.
Proof using Hq.
  unfold h1, h2, h3. rewrite !Z.shiftr_div_pow2 by lia. change 15 with (Z.ones 4). rewrite !Z.land_ones by lia.
  change (2 ^ 4) with 16. change (2 ^ 8) with 256. change (2 ^ 12) with 4096. Z.to_euclidean_division_equations; lia.
Qed.

Lemma dec_digits :
  d0 - 10 * q0 = q mod 10 /\ d1 - 10 * q1 = q / 10 mod 10 /\ d2 - 10 * q2 = q / 100 mod 10 /\ d3 - 10 * q3 = q / 1000 mod 10 /\
  q3 = q / 10000 /\ (d1 = 0 <-> q < 10) /\ (d2 = 0 /\ h3 = 0 <-> q < 100) /\ (d3 = 0 <-> q < 1000).
Proof using Hq.
  pose proof hex_digits as (E & H0 & H1 & H2 & H3).
  assert (q0 = d0 / 10) as E0 by (apply div10_205; unfold d0; lia).
  assert (0 <= d0 <= 339) by (unfold d0; lia). assert (0 <= q0 <= 33) by (rewrite E0; Z.to_euclidean_division_equations; lia).
  assert (q1 = d1 / 10) as E1 by (apply div10_205; unfold d1; lia).
  assert (0 <= d1 <= 339) by (unfold d1; lia). assert (0 <= q1 <= 33) by (rewrite E1; Z.to_euclidean_division_equations; lia).
  assert (q2 = d2 / 10) as E2 by (apply div10_13; unfold d2; lia).
  assert (0 <= d2 <= 63) by (unfold d2; lia). assert (0 <= q2 <= 6) by (rewrite E2; Z.to_euclidean_division_equations; lia).
  assert (q3 = d3 / 10) as E3 by (apply div10_205; unfold d3; lia).
  assert (q = d0 mod 10 + 10 * (d1 mod 10) + 100 * (d2 mod 10) + 1000 * (d3 mod 10) + 10000 * q3) as Eq.
  { unfold d3, d2, d1, d0 in *. Z.to_euclidean_division_equations; lia. }
  assert (d1 = 0 <-> q < 10) by (unfold d1, d0 in *; Z.to_euclidean_division_equations; lia).
  assert (d2 = 0 /\ h3 = 0 <-> q < 100) by (unfold d2, d1, d0 in *; Z.to_euclidean_division_equations; lia).
  assert (d3 = 0 <-> q < 1000) by (unfold d3, d2, d1, d0 in *; Z.to_euclidean_division_equations; lia).
  split_and!; try done; clearbody d0 d1 d2 d3; Z.to_euclidean_division_equations; lia.
Qed.

End dec.

Lemma to_digits_one fuel b n : n < b -> to_digits (S fuel) b n = [n].
Proof. intros. cbn. destruct (Z.ltb_spec n b); [done|lia]. Qed.

Lemma to_digits_more fuel b n : b <= n -> to_digits (S fuel) b n = n mod b :: to_digits fuel b (n / b).
Proof. intros. cbn. destruct (Z.ltb_spec n b); [lia|done]. Qed.

Lemma to_digits_fuel b k k' n : 2 <= b -> 0 <= n -> n < b ^ Z.of_nat k -> n < b ^ Z.of_nat k' -> (0 < k)%nat -> (0 < k')%nat -> to_digits k b n = to_digits k' b n.
Proof.
  intros Hb. revert k' n. induction k as [|k IH]; intros k' n Hn Hk Hk' H0 H0'; [lia|]. destruct k' as [|k']; [lia|].
  destruct (Z.ltb_spec n b); [by rewrite !to_digits_one|]. rewrite !to_digits_more by done. f_equal.
  rewrite Nat2Z.inj_succ, Z.pow_succ_r in Hk, Hk' by lia.
  assert (1 <= n / b) by (apply Z.div_le_lower_bound; lia).
  assert (n / b < b ^ Z.of_nat k) by (apply Z.div_lt_upper_bound; lia).
  assert (n / b < b ^ Z.of_nat k') by (apply Z.div_lt_upper_bound; lia).
  destruct k as [|k]; [cbn in *; lia|]. destruct k' as [|k']; [cbn in *; lia|]. apply IH; lia.
Qed.

(** Up to five digits, written out. *)
Definition five_digits (q : Z) : list Z :=
  q mod 10 :: if q <? 10 then [] else q / 10 mod 10 :: if q <? 100 then [] else q / 100 mod 10 ::
    if q <? 1000 then [] else q / 1000 mod 10 :: if q <? 10000 then [] else [q / 10000].

Lemma to_digits_five q : 0 <= q < 100000 -> to_digits 5 10 q = five_digits q.
Proof.
  intros Hq. unfold five_digits. destruct (Z.ltb_spec q 10); [rewrite to_digits_one by done; f_equal; Z.to_euclidean_division_equations; lia|].
  rewrite to_digits_more by done. f_equal.
  destruct (Z.ltb_spec q 100); [rewrite to_digits_one by (Z.to_euclidean_division_equations; lia); f_equal; Z.to_euclidean_division_equations; lia|].
  rewrite to_digits_more by (Z.to_euclidean_division_equations; lia). f_equal. rewrite Z.div_div by lia. change (10 * 10) with 100.
  destruct (Z.ltb_spec q 1000); [rewrite to_digits_one by (Z.to_euclidean_division_equations; lia); f_equal; Z.to_euclidean_division_equations; lia|].
  rewrite to_digits_more by (Z.to_euclidean_division_equations; lia). f_equal. rewrite Z.div_div by lia. change (100 * 10) with 1000.
  destruct (Z.ltb_spec q 10000); [rewrite to_digits_one by (Z.to_euclidean_division_equations; lia); f_equal; Z.to_euclidean_division_equations; lia|].
  rewrite to_digits_more by (Z.to_euclidean_division_equations; lia). f_equal. rewrite Z.div_div by lia. change (1000 * 10) with 10000.
  apply to_digits_one. Z.to_euclidean_division_equations; lia.
Qed.

Lemma eqb_ltb (a b c : Z) : (a = 0 <-> b < c) -> (a =? 0) = (b <? c).
Proof. intros H. destruct (Z.eqb_spec a 0), (Z.ltb_spec b c); tauto || lia. Qed.

Lemma put_dec_trunc_digits buf q : 0 <= q < 100000 -> put_dec_trunc buf q = buf ++ (digit_char <$> to_digits 5 10 q).
Proof.
  intros Hq. rewrite to_digits_five by done. destruct (dec_digits q Hq) as (E0 & E1 & E2 & E3 & E4 & N1 & N2 & N3).
  unfold put_dec_trunc, five_digits. rewrite E0, E1, E2, E3, E4.
  set (d1 := Z.shiftr _ 11 + 9 * _ + 5 * _ + _) in *. set (d2 := Z.shiftr (d1 * 205) 11 + _) in *. set (d3 := Z.shiftr (d2 * 13) 7 + _) in *.
  rewrite (eqb_ltb d1 q 10) by done. rewrite (eqb_ltb d3 q 1000) by done.
  assert (negb (d2 =? 0) || negb (Z.shiftr q 12 =? 0) = negb (q <? 100)) as ->.
  { destruct (Z.eqb_spec d2 0), (Z.eqb_spec (Z.shiftr q 12) 0), (Z.ltb_spec q 100); cbn; try done; tauto || lia. }
  assert ((q / 10000 =? 0) = (q <? 10000)) as -> by (apply eqb_ltb; Z.to_euclidean_division_equations; lia).
  destruct (q <? 10), (q <? 100), (q <? 1000), (q <? 10000); cbn; by rewrite <- ?app_assoc.
Qed.

Lemma put_dec_full_digits buf q :
  0 <= q < 100000 ->
  put_dec_full buf q = buf ++ (digit_char <$> [q mod 10; q / 10 mod 10; q / 100 mod 10; q / 1000 mod 10; q / 10000]).
Proof.
  intros Hq. destruct (dec_digits q Hq) as (E0 & E1 & E2 & E3 & E4 & _). unfold put_dec_full. rewrite E0, E1, E2, E3, E4.
  cbn. by rewrite <- !app_assoc.
Qed.

(** Five digits of a larger number. *)
Lemma to_digits_group fuel n :
  100000 <= n ->
  to_digits (5 + fuel) 10 n =
  (let q := n mod 100000 in [q mod 10; q / 10 mod 10; q / 100 mod 10; q / 1000 mod 10; q / 10000]) ++ to_digits fuel 10 (n / 100000).
Proof.
  intros Hn. cbn [Nat.add].
  rewrite to_digits_more by lia.
  rewrite to_digits_more by (Z.to_euclidean_division_equations; lia). rewrite Z.div_div by lia. change (10 * 10) with 100.
  rewrite to_digits_more by (Z.to_euclidean_division_equations; lia). rewrite Z.div_div by lia. change (100 * 10) with 1000.
  rewrite to_digits_more by (Z.to_euclidean_division_equations; lia). rewrite Z.div_div by lia. change (1000 * 10) with 10000.
  rewrite to_digits_more by (Z.to_euclidean_division_equations; lia). rewrite Z.div_div by lia. change (10000 * 10) with 100000. cbn [app].
  do 5 (apply f_equal2; [Z.to_euclidean_division_equations; lia|]). done.
Qed.

Lemma put_dec_loop_S fuel buf n :
  put_dec_loop (S fuel) buf n =
  if n <? 100000 then put_dec_trunc buf n else put_dec_loop fuel (put_dec_full buf (n mod 100000)) (n / 100000).
Proof. done. Qed.

Lemma put_dec_loop_digits fuel buf n :
  0 <= n < 100000 ^ Z.of_nat (S fuel) -> put_dec_loop (S fuel) buf n = buf ++ (digit_char <$> to_digits (5 * S fuel) 10 n).
Proof.
  revert buf n. induction fuel as [|fuel IH]; intros buf n Hn.
  - cbn in Hn. cbn [put_dec_loop]. destruct (Z.ltb_spec n 100000); [|lia]. apply put_dec_trunc_digits. lia.
  - rewrite put_dec_loop_S. destruct (Z.ltb_spec n 100000) as [Hlt|Hge].
    + rewrite put_dec_trunc_digits by lia. do 2 f_equal. apply to_digits_fuel; try lia.
      transitivity 100000; [done|]. change 100000 with (10 ^ 5) at 1. apply Z.pow_lt_mono_r; lia.
    + rewrite IH.
      2:{ split; [apply Z.div_pos; lia|]. apply Z.div_lt_upper_bound; [lia|]. rewrite (Nat2Z.inj_succ (S fuel)), Z.pow_succ_r in Hn by lia. lia. }
      rewrite put_dec_full_digits by (apply Z.mod_pos_bound; lia). rewrite <- app_assoc, <- fmap_app.
      replace (5 * S (S fuel))%nat with (5 + 5 * S fuel)%nat by lia. by rewrite to_digits_group by done.
Qed.

Lemma put_dec_digits buf n : 0 <= n < 2 ^ 64 -> put_dec buf n = buf ++ (digit_char <$> digits_of 10 n).
Proof.
  intros Hn. unfold put_dec. rewrite put_dec_loop_digits by (cbn; lia). unfold digits_of.
  by rewrite (to_digits_fuel 10 (5 * 4) 64) by (cbn; lia).
Qed.

(** ** Digits of any base *)

(** The character of a digit; [locase] makes letters small. *)
Definition glyph (locase d : Z) : Z := Z.lor (bget digits d) locase.

Lemma digit_loop_digits fuel shift locase n :
  0 <= shift <= 8 -> 0 <= n < (2 ^ shift) ^ Z.of_nat fuel -> (0 < fuel)%nat -> 1 <= shift ->
  digit_loop fuel (2 ^ shift - 1) shift locase n = glyph locase <$> to_digits fuel (2 ^ shift) n.
Proof.
  intros Hs Hn Hf Hs1. assert (2 ^ 1 <= 2 ^ shift) by (apply Z.pow_le_mono_r; lia).
  revert n Hn Hf. induction fuel as [|fuel IH]; intros n Hn Hf; [lia|]. cbn [digit_loop].
  rewrite land_pow2_mod, Z.shiftr_div_pow2 by lia. unfold u8.
  rewrite Z.mod_mod_divide by (exists (2 ^ (8 - shift)); rewrite <- Z.pow_add_r by lia; f_equal; lia).
  rewrite Nat2Z.inj_succ, Z.pow_succ_r in Hn by lia. cbn [to_digits]. destruct (Z.ltb_spec n (2 ^ shift)) as [Hlt|Hge].
  - rewrite Z.div_small, Z.mod_small by lia. done.
  - assert (1 <= n / 2 ^ shift) by (apply Z.div_le_lower_bound; lia). destruct (Z.eqb_spec (n / 2 ^ shift) 0); [lia|]. cbn [negb fmap list_fmap].
    assert (n / 2 ^ shift < (2 ^ shift) ^ Z.of_nat fuel) by (apply Z.div_lt_upper_bound; lia).
    destruct fuel as [|fuel]; [cbn in *; lia|]. rewrite IH by lia. done.
Qed.

Lemma to_digits_range fuel b n d : 2 <= b -> 0 <= n -> d ∈ to_digits fuel b n -> 0 <= d < b.
Proof.
  intros Hb. revert n. induction fuel as [|fuel IH]; intros n Hn Hd; cbn in Hd; [by apply elem_of_nil in Hd|].
  destruct (Z.ltb_spec n b); [apply list_elem_of_singleton in Hd; lia|].
  apply elem_of_cons in Hd as [->|Hd]; [apply Z.mod_pos_bound; lia|]. apply (IH (n / b)); [apply Z.div_pos; lia|done].
Qed.

Lemma digit_char_glyph locase d : locase = 0 \/ locase = SMALL -> 0 <= d < 10 -> digit_char d = glyph locase d.
Proof.
  intros Hl Hd. assert (d ∈ seqZ 0 10) as Hin by (by apply elem_of_seqZ). cbn in Hin.
  repeat (apply elem_of_cons in Hin as [->|Hin]; [destruct Hl as [-> | ->]; reflexivity|]). by apply elem_of_nil in Hin.
Qed.

Lemma number_digits_spec n b locase :
  0 <= n < 2 ^ 64 -> b = 8 \/ b = 10 \/ b = 16 -> locase = 0 \/ locase = SMALL ->
  number_digits n b locase = glyph locase <$> digits_of b n.
Proof.
  intros Hn Hb Hl. unfold number_digits. destruct (Z.eqb_spec n 0) as [->|Hne].
  - destruct Hb as [->|[->| ->]], Hl as [->| ->]; reflexivity.
  - destruct Hb as [->|[->| ->]]; cbn [negb Z.eqb Pos.eqb].
    + rewrite (digit_loop_digits 22 3) by (cbn; lia). unfold digits_of. by rewrite (to_digits_fuel (2 ^ 3) 22 64) by (cbn; lia).
    + rewrite put_dec_digits by lia. cbn [app]. apply list_fmap_ext. intros i d Hd. apply digit_char_glyph; [done|].
      eapply (to_digits_range 64 10 n); [lia|lia|]. by eapply list_elem_of_lookup_2.
    + rewrite (digit_loop_digits 22 4) by (cbn; lia). unfold digits_of. by rewrite (to_digits_fuel (2 ^ 4) 22 64) by (cbn; lia).
Qed.

(** ** Padding *)

Section pads.
Context {Out : Type} (put : Z -> Out -> Out).

Definition emit (o : Out) (bs : list Z) : Out := foldl (fun o c => put c o) o bs.

Lemma emit_app o a b : emit o (a ++ b) = emit (emit o a) b.
Proof using. apply foldl_app. Qed.

Lemma s16_small x : - 2 ^ 15 <= x < 2 ^ 15 -> s16 x = x.
Proof using. intros. unfold s16. rewrite Z.mod_small; lia. Qed.
Lemma s16_range x : - 2 ^ 15 <= s16 x < 2 ^ 15.
Proof using. unfold s16. pose proof (Z.mod_pos_bound (x + 2 ^ 15) (2 ^ 16) ltac:(lia)). lia. Qed.

Lemma pad_loop_spec n fuel k c fw o :
  0 <= k -> k <= fw < 2 ^ 15 -> n = Z.to_nat (fw - k) -> (n < fuel)%nat ->
  pad_loop put fuel k c fw o = (emit o (replicate n c), k - 1).
Proof using.
  intros Hk. revert fuel fw o. induction n as [|n IH]; intros fuel fw o Hfw Hn Hf; destruct fuel as [|fuel]; try lia; cbn [pad_loop].
  - assert (fw = k) as -> by lia. rewrite s16_small by lia. by destruct (Z.leb_spec k (k - 1)); [lia|].
  - rewrite s16_small by lia. destruct (Z.leb_spec k (fw - 1)); [|lia]. rewrite IH by lia. done.
Qed.

(** The field width that remains is below [k]. *)
Lemma pad_spec k c fw o :
  0 <= k -> - 2 ^ 15 < fw < 2 ^ 15 ->
  pad put k c fw o = (emit o (replicate (Z.to_nat (fw - k)) c), Z.min (fw - 1) (k - 1)).
Proof using.
  intros Hk Hfw. unfold pad. destruct (Z.leb_spec k fw) as [Hle|Hlt].
  - rewrite (pad_loop_spec (Z.to_nat (fw - k))); try lia; [|rewrite s16_small by lia; lia]. f_equal. lia.
  - cbn [pad_loop]. rewrite s16_small by lia. destruct (Z.leb_spec k (fw - 1)); [lia|].
    replace (Z.to_nat (fw - k)) with O by lia. cbn. f_equal. lia.
Qed.

Lemma zeros_spec n fuel i prec o :
  1 <= i <= prec -> prec < 2 ^ 15 -> n = Z.to_nat (prec - i) -> (n < fuel)%nat ->
  zeros_loop put fuel i prec o = emit o (replicate n (chr "0")).
Proof using.
  intros Hi. revert fuel prec Hi o. induction n as [|n IH]; intros fuel prec Hi o Hp Hn Hf; destruct fuel as [|fuel]; try lia; cbn [zeros_loop].
  - rewrite s16_small by lia. by destruct (Z.leb_spec i (prec - 1)); [lia|].
  - rewrite s16_small by lia. destruct (Z.leb_spec i (prec - 1)); [|lia]. rewrite IH by lia. done.
Qed.

Lemma foldr_emit o l : foldr put o l = emit o (reverse l).
Proof using. unfold emit. induction l as [|c l IH]; [done|]. rewrite reverse_cons, foldl_app. cbn [foldr foldl]. by rewrite IH. Qed.

End pads.

(** ** Numbers *)

Definition sign_text (num : Z) (spec : printf_spec) : list Z :=
  if has SIGN spec then
    if s64 num <? 0 then str "-" else if has PLUS spec then str "+" else if has SPACE spec then str " " else []
  else [].

Definition prefix_text (spec : printf_spec) : list Z :=
  if has SPECIAL spec && negb (base spec =? 10) then
    chr "0" :: if base spec =? 16 then [Z.lor (chr "X") (Z.land (flags spec) SMALL)] else []
  else [].

(** The digits of the magnitude, with zeros up to the precision. *)
Definition digits_text (num : Z) (spec : printf_spec) : list Z :=
  let n := if has SIGN spec then Z.abs (s64 num) else num in
  let ds := reverse (glyph (Z.land (flags spec) SMALL) <$> digits_of (base spec) n) in
  replicate (Z.to_nat (precision spec - zlen ds)) (chr "0") ++ ds.

Definition number_text (num : Z) (spec : printf_spec) : list Z :=
  let lead := sign_text num spec ++ prefix_text spec in
  let ds := digits_text num spec in
  let n := Z.to_nat (field_width spec - zlen lead - zlen ds) in
  if has LEFT spec then lead ++ ds ++ replicate n (chr " ")
  else if has ZEROPAD spec then lead ++ replicate n (chr "0") ++ ds
  else replicate n (chr " ") ++ lead ++ ds.

(** Field widths and precisions for which the 16-bit counters do not wrap. *)
Record spec_ok (spec : printf_spec) : Prop := {
  sp_base : base spec = 8 \/ base spec = 10 \/ base spec = 16;
  sp_width : - 2 ^ 13 <= field_width spec < 2 ^ 14;
  sp_precision : precision spec < 2 ^ 14 }.

Lemma has_clear f spec : Z.land 254 f = f -> has f (set_flags (Z.land (flags spec) (255 - ZEROPAD)) spec) = has f spec.
Proof. intros E. unfold has, ZEROPAD. cbn [flags set_flags]. change (255 - 1) with 254. by rewrite <- Z.land_assoc, E. Qed.

Lemma has_zeropad_clear spec : has ZEROPAD (set_flags (Z.land (flags spec) (255 - ZEROPAD)) spec) = false.
Proof. unfold has, ZEROPAD. cbn [flags set_flags]. by rewrite <- Z.land_assoc, Z.land_0_r. Qed.

Lemma land_or_zero x a b : (Z.land x (Z.lor a b) =? 0) = (Z.land x a =? 0) && (Z.land x b =? 0).
Proof.
  rewrite Z.land_lor_distr_r. destruct (Z.eqb_spec (Z.land x a) 0) as [E|N], (Z.eqb_spec (Z.land x b) 0) as [E'|N']; cbn.
  - by rewrite E, E'.
  - apply Z.eqb_neq. intros F. by apply Z.lor_eq_0_iff in F as [? ?].
  - apply Z.eqb_neq. intros F. by apply Z.lor_eq_0_iff in F as [? ?].
  - apply Z.eqb_neq. intros F. by apply Z.lor_eq_0_iff in F as [? ?].
Qed.

Lemma small_cases x : Z.land x SMALL = 0 \/ Z.land x SMALL = SMALL.
Proof.
  destruct (Z.testbit x 5) eqn:E; [right|left]; apply Z.bits_inj'; intros n Hn; rewrite Z.land_spec; change SMALL with (2 ^ 5);
    rewrite Z.pow2_bits_eqb by lia; destruct (Z.eqb_spec 5 n) as [<-|Hne]; rewrite ?E, ?Z.bits_0, ?andb_false_r; done.
Qed.

Section numbers.
Context {Out : Type} (put : Z -> Out -> Out).

Lemma emit_cons (o : Out) c bs : emit put o (c :: bs) = emit put (put c o) bs.
Proof using. done. Qed.

(** [number] behind the sign. *)
Definition number_tail (buf : Out) (sign num fw : Z) (need_pfx : bool) (locase : Z) (spec : printf_spec) : Out :=
  let fw := if need_pfx then let fw := s16 (fw - 1) in if base spec =? 16 then s16 (fw - 1) else fw else fw in
  let tmp := number_digits num (base spec) locase in
  let i := zlen tmp in
  let prec := if precision spec <? i then i else precision spec in
  let fw := s16 (fw - prec) in
  let '(buf, fw) := if Z.land (flags spec) (ZEROPAD + LEFT) =? 0 then pad put 0 (chr " ") fw buf else (buf, fw) in
  let buf := if negb (sign =? 0) then put sign buf else buf in
  let buf :=
    if need_pfx then let buf := put (chr "0") buf in if base spec =? 16 then put (Z.lor (chr "X") locase) buf else buf
    else buf in
  let '(buf, fw) :=
    if negb (has LEFT spec) then pad put 0 (if has ZEROPAD spec then chr "0" else chr " ") fw buf else (buf, fw) in
  let buf := zeros_loop put (S (Z.to_nat (prec - i))) i prec buf in
  let buf := foldr put buf tmp in
  (pad put 0 (chr " ") fw buf).1.

Lemma number_sign_tail buf num spec :
  number put buf num spec =
  let spec' := if has LEFT spec then set_flags (Z.land (flags spec) (255 - ZEROPAD)) spec else spec in
  let '(sign, n, fw) :=
    if has SIGN spec' then
      if s64 num <? 0 then (chr "-", u64 (- s64 num), s16 (field_width spec' - 1))
      else if has PLUS spec' then (chr "+", num, s16 (field_width spec' - 1))
      else if has SPACE spec' then (chr " ", num, s16 (field_width spec' - 1))
      else (0, num, field_width spec')
    else (0, num, field_width spec') in
  number_tail buf sign n fw (has SPECIAL spec && negb (base spec =? 10)) (Z.land (flags spec) SMALL) spec'.
Proof using. reflexivity. Qed.

(** The parts in the order that the flags ask for. *)
Definition assemble (left zero : bool) (n : Z) (lead ds : list Z) : list Z :=
  if left then lead ++ ds ++ replicate (Z.to_nat n) (chr " ")
  else if zero then lead ++ replicate (Z.to_nat n) (chr "0") ++ ds
  else replicate (Z.to_nat n) (chr " ") ++ lead ++ ds.

Definition prefix_of_base (b : Z) (locase : Z) : list Z := chr "0" :: if b =? 16 then [Z.lor (chr "X") locase] else [].

Lemma number_tail_spec (buf : Out) (sign num fw : Z) (need_pfx : bool) (locase : Z) (spec : printf_spec) :
  - 2 ^ 13 - 1 <= fw < 2 ^ 14 -> precision spec < 2 ^ 14 -> 1 <= zlen (number_digits num (base spec) locase) <= 64 ->
  (has LEFT spec = true -> has ZEROPAD spec = false) ->
  let ds := reverse (number_digits num (base spec) locase) in
  let all := replicate (Z.to_nat (precision spec - zlen ds)) (chr "0") ++ ds in
  let pfx := if need_pfx then prefix_of_base (base spec) locase else [] in
  let lead := (if negb (sign =? 0) then [sign] else []) ++ pfx in
  number_tail buf sign num fw need_pfx locase spec =
  emit put buf (assemble (has LEFT spec) (has ZEROPAD spec) (fw - zlen pfx - zlen all) lead all).
Proof using.
  intros Hfw Hp Hi Hlz ds all pfx lead. unfold number_tail. set (tmp := number_digits num (base spec) locase) in *.
  assert (zlen ds = zlen tmp) as Ed by (unfold ds, zlen; by rewrite length_reverse).
  set (prec := if precision spec <? zlen tmp then zlen tmp else precision spec).
  assert (prec = Z.max (precision spec) (zlen tmp)) as Ep by (unfold prec; case_if; lia).
  assert (zlen all = prec) as Ea by (unfold all; rewrite zlen_app, Ed; unfold zlen at 1; rewrite length_replicate; lia).
  assert (0 <= zlen pfx <= 2 /\ (if need_pfx then if base spec =? 16 then s16 (s16 (fw - 1) - 1) else s16 (fw - 1) else fw) = fw - zlen pfx) as [Hpf ->].
  { unfold pfx, prefix_of_base, zlen. destruct need_pfx; [|cbn; lia]. destruct (base spec =? 16); cbn; rewrite (s16_small (fw - 1)), ?s16_small by lia; lia. }
  rewrite (s16_small (fw - zlen pfx - prec)) by lia. rewrite Ea. set (n := fw - zlen pfx - prec) in *.
  assert (forall b : Out, (if need_pfx then if base spec =? 16 then put (Z.lor (chr "X") locase) (put (chr "0") b) else put (chr "0") b else b)
    = emit put b pfx) as Hpfx by (intros b; unfold pfx, prefix_of_base; destruct need_pfx; [destruct (base spec =? 16)|]; done).
  assert (forall b : Out, (if negb (sign =? 0) then put sign b else b) = emit put b (if negb (sign =? 0) then [sign] else [])) as Hsg
    by (intros b; by destruct (negb (sign =? 0))).
  change (ZEROPAD + LEFT) with (Z.lor ZEROPAD LEFT). rewrite land_or_zero.
  assert (forall f, (Z.land (flags spec) f =? 0) = negb (has f spec)) as Hhas by (intros; unfold has; by rewrite negb_involutive).
  rewrite !Hhas. unfold assemble. set (z := has ZEROPAD spec) in *. set (l := has LEFT spec) in *.
  assert (forall b : Out, zeros_loop put (S (Z.to_nat (prec - zlen tmp))) (zlen tmp) prec b = emit put b (replicate (Z.to_nat (precision spec - zlen ds)) (chr "0"))) as Hz.
  { intros b. rewrite (zeros_spec put (Z.to_nat (prec - zlen tmp))) by lia. do 2 f_equal. lia. }
  destruct l, z; cbn [negb andb]; [by specialize (Hlz eq_refl)| | |].
  - rewrite Hsg, Hpfx, Hz, foldr_emit, pad_spec by lia. cbn [fst]. rewrite <- !emit_app. unfold lead, all. rewrite ?Z.sub_0_r. by rewrite <- !app_assoc.
  - rewrite pad_spec by lia. rewrite Hsg, Hpfx, Hz, foldr_emit. rewrite pad_spec by lia. cbn [fst].
    rewrite (Z2Nat.nonpos (Z.min _ _ - 0)) by lia. cbn [replicate]. rewrite <- !emit_app. unfold lead, all. rewrite ?Z.sub_0_r, ?app_nil_r. by rewrite <- !app_assoc.
  - rewrite pad_spec by lia. rewrite Hsg, Hpfx. rewrite pad_spec by lia. rewrite Hz, foldr_emit. rewrite pad_spec by lia. cbn [fst].
    rewrite !(Z2Nat.nonpos (Z.min _ _ - 0)) by lia. cbn [replicate]. rewrite <- !emit_app. unfold lead, all. rewrite ?Z.sub_0_r, ?app_nil_r. by rewrite <- !app_assoc.
Qed.

Lemma to_digits_length fuel b n : (0 < fuel)%nat -> (1 <= length (to_digits fuel b n) <= fuel)%nat.
Proof using.
  revert n. induction fuel as [|fuel IH]; intros n Hf; [lia|]. cbn [to_digits]. destruct (n <? b); [cbn; lia|].
  destruct fuel as [|fuel]; [cbn; lia|]. specialize (IH (n / b) ltac:(lia)). cbn [length]. lia.
Qed.

Lemma number_tail_text buf sign sg num n fw spec spec' :
  spec_ok spec -> 0 <= n < 2 ^ 64 -> - 2 ^ 13 - 1 <= fw < 2 ^ 14 ->
  base spec' = base spec -> precision spec' = precision spec -> has LEFT spec' = has LEFT spec ->
  has ZEROPAD spec' = negb (has LEFT spec) && has ZEROPAD spec ->
  sg = sign_text num spec -> (if negb (sign =? 0) then [sign] else []) = sg -> fw = field_width spec - zlen sg ->
  (if has SIGN spec then Z.abs (s64 num) else num) = n ->
  number_tail buf sign n fw (has SPECIAL spec && negb (base spec =? 10)) (Z.land (flags spec) SMALL) spec' =
  emit put buf (number_text num spec).
Proof using.
  intros [Hb Hw Hp] Hn Hfw Eb Epr El Ez Esg Hsg Efw En.
  pose proof (number_digits_spec n (base spec) (Z.land (flags spec) SMALL) Hn Hb (small_cases _)) as Ed.
  rewrite number_tail_spec; rewrite ?Eb, ?Epr, ?El, ?Ez; try done.
  - unfold number_text, digits_text, prefix_text. rewrite En, Ed, Hsg, <- Esg. fold (prefix_of_base (base spec) (Z.land (flags spec) SMALL)).
    set (pfx := if has SPECIAL spec && _ then _ else _). set (ds := replicate _ _ ++ _). rewrite Efw, zlen_app.
    unfold assemble. replace (field_width spec - (zlen sg + zlen pfx) - zlen ds) with (field_width spec - zlen sg - zlen pfx - zlen ds) by lia.
    by destruct (has LEFT spec), (has ZEROPAD spec).
  - rewrite Ed. unfold zlen. rewrite length_fmap. pose proof (to_digits_length 64 (base spec) n ltac:(lia)). unfold digits_of. lia.
  - by intros ->.
Qed.

(** Numbers.  For all flags and bases, and for widths and precisions with
    which the 16-bit counters do not wrap, [number] puts out the sign, the
    prefix, zeros up to the precision and the digits of the magnitude, and
    fills the field with spaces or zeros on the side that the flags say. *)
Theorem number_formats (o : Out) num spec :
  spec_ok spec -> 0 <= num < 2 ^ 64 -> number put o num spec = emit put o (number_text num spec).
Proof using.
  intros Hok Hn. pose proof (sp_width _ Hok) as Hw. rewrite number_sign_tail. cbn zeta.
  set (spec' := if has LEFT spec then _ else spec).
  assert (base spec' = base spec /\ precision spec' = precision spec /\ field_width spec' = field_width spec) as (Eb & Ep & Ef)
    by (unfold spec'; by destruct (has LEFT spec)).
  assert (forall f, Z.land 254 f = f -> has f spec' = has f spec) as Hh
    by (intros f E; unfold spec'; destruct (has LEFT spec); [by apply has_clear|done]).
  assert (has ZEROPAD spec' = negb (has LEFT spec) && has ZEROPAD spec) as Ez
    by (unfold spec'; destruct (has LEFT spec); [apply has_zeropad_clear|done]).
  pose proof (Hh LEFT eq_refl) as El. rewrite (Hh SIGN), (Hh PLUS), (Hh SPACE), Ef by done.
  assert ((s64 num <? 0) = false -> Z.abs (s64 num) = num) as Hpos.
  { intros F. unbool. unfold s64 in *. Z.to_euclidean_division_equations; lia. }
  assert (s64 num < 0 -> u64 (- s64 num) = Z.abs (s64 num)) as Hneg.
  { intros F. assert (- 2 ^ 63 <= s64 num < 2 ^ 63) by (unfold s64; pose proof (Z.mod_pos_bound (num + 2 ^ 63) (2 ^ 64) ltac:(lia)); lia).
    rewrite u64_small by lia. lia. }
  destruct (has SIGN spec) eqn:Hs; [destruct (s64 num <? 0) eqn:Hl; [|destruct (has PLUS spec) eqn:Hpl; [|destruct (has SPACE spec) eqn:Hsp]]|].
  1: rewrite Hneg by (by apply Z.ltb_lt).
  all: eapply number_tail_text; try done; unfold sign_text; rewrite ?Hs, ?Hl, ?Hpl, ?Hsp; try done; try (rewrite s16_small by lia; done || lia);
    try (rewrite s16_small by lia; change (zlen (str _)) with 1; lia); try (change (zlen []) with 0; lia); try by apply Hpos.
  assert (- 2 ^ 63 <= s64 num < 2 ^ 63) by (unfold s64; pose proof (Z.mod_pos_bound (num + 2 ^ 63) (2 ^ 64) ltac:(lia)); lia). lia.
Qed.

End numbers.

Definition ex_spec : printf_spec := PrintfSpec FORMAT_TYPE_INT (Z.lor SIGN PLUS) 10 0 8 4.

Lemma number_formats_witness :
  number (fun c o => o ++ [c]) [] 42 ex_spec = str "   +0042" /\
  number (fun c o => o ++ [c]) [] 42 ex_spec = emit (fun c o => o ++ [c]) [] (number_text 42 ex_spec).
Proof. split; [by vm_compute|]. apply number_formats; [split; cbn; lia|lia]. Defined.

(** Decimal digits.  The division-free conversion in groups of five digits
    gives the decimal digits of every 64-bit number, lowest first. *)
Theorem put_dec_correct buf n : 0 <= n < 2 ^ 64 -> put_dec buf n = buf ++ (digit_char <$> digits_of 10 n).
Proof. apply put_dec_digits. Qed.

Lemma put_dec_correct_witness :
  put_dec [] 18446744073709551615 = digit_char <$> [5;1;6;1;5;5;9;0;7;3;7;0;4;4;7;6;4;4;8;1] /\
  put_dec [] 18446744073709551615 = [] ++ (digit_char <$> digits_of 10 18446744073709551615).
Proof. split; [by vm_compute|]. apply (put_dec_correct [] 18446744073709551615). lia. Defined.
