(* ===== verification/VsprintfProps.v ===== *)
(** * Formatted output: the buffer

    The conversions put out the same characters whatever the output is.  From
    this [vsnprintf] is shown to leave in the buffer the text of the format, as
    much as there is room for, and to change nothing outside of it but the
    variables of %n. *)

From stdpp Require Import base numbers list gmap strings.
From S2P Require Import Prelude CType Vsprintf VsprintfNumber.

Open Scope Z_scope.

(** ** Two outputs in step *)

Section related.
Context {A B : Type} (put1 : Z -> A -> A) (put2 : Z -> B -> B) (R : A -> B -> Prop).
Context (Rput : forall c a b, R a b -> R (put1 c a) (put2 c b)).

Lemma pad_loop_rel fuel k c fw a b :
  R a b -> R (pad_loop put1 fuel k c fw a).1 (pad_loop put2 fuel k c fw b).1 /\
           (pad_loop put1 fuel k c fw a).2 = (pad_loop put2 fuel k c fw b).2.
Proof using Rput.
  revert fw a b. induction fuel as [|fuel IH]; intros fw a b HR; cbn [pad_loop]; [done|].
  destruct (k <=? s16 (fw - 1)); [|done]. apply IH. by apply Rput.
Qed.

Lemma pad_rel k c fw a b :
  R a b -> R (pad put1 k c fw a).1 (pad put2 k c fw b).1 /\ (pad put1 k c fw a).2 = (pad put2 k c fw b).2.
Proof using Rput. apply pad_loop_rel. Qed.

Lemma pad_to_loop_rel fuel len fw a b :
  R a b -> R (pad_to_loop put1 fuel len fw a).1 (pad_to_loop put2 fuel len fw b).1 /\
           (pad_to_loop put1 fuel len fw a).2 = (pad_to_loop put2 fuel len fw b).2.
Proof using Rput.
  revert fw a b. induction fuel as [|fuel IH]; intros fw a b HR; cbn [pad_to_loop]; [done|].
  destruct (len <? fw); [|done]. apply IH. by apply Rput.
Qed.

Lemma pad_to_rel len fw a b :
  R a b -> R (pad_to put1 len fw a).1 (pad_to put2 len fw b).1 /\ (pad_to put1 len fw a).2 = (pad_to put2 len fw b).2.
Proof using Rput. apply pad_to_loop_rel. Qed.

Lemma zeros_loop_rel fuel i prec a b : R a b -> R (zeros_loop put1 fuel i prec a) (zeros_loop put2 fuel i prec b).
Proof using Rput.
  revert prec a b. induction fuel as [|fuel IH]; intros prec a b HR; cbn [zeros_loop]; [done|].
  destruct (i <=? s16 (prec - 1)); [|done]. apply IH. by apply Rput.
Qed.

Lemma foldl_rel l a b : R a b -> R (foldl (fun o c => put1 c o) a l) (foldl (fun o c => put2 c o) b l).
Proof using Rput. revert a b. induction l as [|c l IH]; intros a b HR; [done|]. cbn. apply IH. by apply Rput. Qed.

Lemma foldr_rel l a b : R a b -> R (foldr put1 a l) (foldr put2 b l).
Proof using Rput. intros HR. induction l as [|c l IH]; [done|]. cbn. by apply Rput. Qed.

Lemma put_if_rel (x : bool) c a b : R a b -> R (if x then put1 c a else a) (if x then put2 c b else b).
Proof using Rput. intros. destruct x; [by apply Rput|done]. Qed.

(** A conversion that pads in some cases. *)
Lemma maybe_pad_rel (x : bool) k c fw a b :
  R a b -> R (if x then pad put1 k c fw a else (a, fw)).1 (if x then pad put2 k c fw b else (b, fw)).1 /\
           (if x then pad put1 k c fw a else (a, fw)).2 = (if x then pad put2 k c fw b else (b, fw)).2.
Proof using Rput. intros. destruct x; [by apply pad_rel|done]. Qed.

Lemma number_tail_rel a b sign n fw x locase spec :
  R a b -> R (number_tail put1 a sign n fw x locase spec) (number_tail put2 b sign n fw x locase spec).
Proof using Rput.
  intros HR. unfold number_tail. set (tmp := number_digits _ _ _). set (prec := if precision spec <? _ then _ else _).
  set (w := s16 (_ - prec)). pose proof (maybe_pad_rel (Z.land (flags spec) (ZEROPAD + LEFT) =? 0) 0 (chr " ") w a b HR) as [H1 E1].
  destruct (if Z.land _ _ =? 0 then pad put1 0 _ w a else _) as [a1 w1]. destruct (if Z.land _ _ =? 0 then pad put2 0 _ w b else _) as [b1 w2].
  cbn [fst snd] in *. subst w2.
  pose proof (put_if_rel (negb (sign =? 0)) sign a1 b1 H1) as H2.
  set (a2 := if negb (sign =? 0) then put1 sign a1 else a1) in *. set (b2 := if negb (sign =? 0) then put2 sign b1 else b1) in *.
  assert (R (if x then if base spec =? 16 then put1 (Z.lor (chr "X") locase) (put1 (chr "0") a2) else put1 (chr "0") a2 else a2)
            (if x then if base spec =? 16 then put2 (Z.lor (chr "X") locase) (put2 (chr "0") b2) else put2 (chr "0") b2 else b2)) as H3
    by (destruct x; [destruct (base spec =? 16)|]; auto).
  set (a3 := if x then if base spec =? 16 then put1 _ (put1 _ a2) else _ else a2) in *.
  set (b3 := if x then if base spec =? 16 then put2 _ (put2 _ b2) else _ else b2) in *.
  pose proof (maybe_pad_rel (negb (has LEFT spec)) 0 (if has ZEROPAD spec then chr "0" else chr " ") w1 a3 b3 H3) as [H4 E4].
  destruct (if negb _ then pad put1 0 _ w1 a3 else _) as [a4 w3]. destruct (if negb _ then pad put2 0 _ w1 b3 else _) as [b4 w4].
  cbn [fst snd] in *. subst w4. apply pad_rel, foldr_rel, zeros_loop_rel, H4.
Qed.

Lemma number_rel a b num spec : R a b -> R (number put1 a num spec) (number put2 b num spec).
Proof using Rput.
  intros HR. rewrite !number_sign_tail. cbn zeta. set (spec' := if has LEFT spec then _ else spec).
  repeat case_match; simplify_eq; by apply number_tail_rel.
Qed.

Lemma string_at_rel a b s spec : R a b -> R (string_at put1 a s spec) (string_at put2 b s spec).
Proof using Rput.
  intros HR. unfold string_at. set (len := strnlen _ _). destruct (negb (has LEFT spec)).
  - destruct (pad_to_rel len (field_width spec) a b HR) as [H1 E1]. destruct (pad_to put1 _ _ a) as [a1 w1], (pad_to put2 _ _ b) as [b1 w2].
    cbn [fst snd] in *. subst w2. by apply pad_to_rel, foldl_rel.
  - by apply pad_to_rel, foldl_rel.
Qed.

Lemma put_char_rel (out1 : output A) (out2 : output B) a b c spec :
  o_put out1 = put1 -> o_put out2 = put2 -> R a b -> R (put_char out1 a c spec) (put_char out2 b c spec).
Proof using Rput.
  intros E1 E2 HR. unfold put_char. rewrite E1, E2.
  destruct (maybe_pad_rel (negb (has LEFT spec)) 1 (chr " ") (field_width spec) a b HR) as [H1 E].
  destruct (if negb _ then pad put1 1 _ _ a else _) as [a1 w1]. destruct (if negb _ then pad put2 1 _ _ b else _) as [b1 w2].
  cbn [fst snd] in *. subst w2. apply pad_rel. by apply Rput.
Qed.

End related.

Section convert_related.
Context (env : printk_env) {A B : Type} (out1 : output A) (out2 : output B) (R : A -> B -> Prop).
Context (Rput : forall c a b, R a b -> R (o_put out1 c a) (o_put out2 c b)).
Context (Rblock : forall l a b, R a b -> R (o_block out1 l a) (o_block out2 l b)).

(** Behind a round that has made the stores [nr]. *)
Context (R' : list (Z * Z) -> A -> B -> Prop) (Rnone : forall a b, R a b -> R' [] a b).
Context (Rstore : forall p v a b, R a b -> R' [(p, v)] (o_store out1 p v a) (o_store out2 p v b)).

(** The nested format of an argument, if it is what gives the result, runs in
    both. *)
Definition nested_rel (a : A) (b : B) (v : va) (a' : A) (nr : list (Z * Z)) : Prop :=
  match v with
  | VFormat _ f l => o_format out1 f l a = Some (a', nr) -> exists b', o_format out2 f l b = Some (b', nr) /\ R' nr a' b'
  | _ => True
  end.

Lemma pointer_rel fmt a b p v spec a' nr :
  R a b -> nested_rel a b v a' nr -> pointer env out1 fmt a p v spec = Some (a', nr) ->
  exists b', pointer env out2 fmt b p v spec = Some (b', nr) /\ R' nr a' b'.
Proof using Rput Rblock Rnone.
  intros HR Hv. pose proof (fun s t => string_at_rel (o_put out1) (o_put out2) R Rput a b s t HR) as Hs.
  pose proof (fun n t => number_rel (o_put out1) (o_put out2) R Rput a b n t HR) as Hn.
  unfold pointer, pointer_number. destruct (p =? 0); [intros [= <- <-]; eauto|].
  destruct (_ || (fch fmt 0 =? chr "s")); [intros [= <- <-]; eauto|].
  destruct ((fch fmt 0 =? chr "R") || _); [destruct v; try done; intros [= <- <-]; eauto|].
  destruct ((fch fmt 0 =? chr "M") || _); [destruct (bytes_at 6 v); [|done]; cbn; intros [= <- <-]; eauto|].
  destruct (_ && (fch fmt 1 =? chr "6")); [destruct (bytes_at 16 v); [|done]; cbn; intros [= <- <-]; eauto|].
  destruct (_ && (fch fmt 1 =? chr "4")); [destruct (bytes_at 4 v); [|done]; cbn; intros [= <- <-]; eauto|].
  destruct (fch fmt 0 =? chr "U"); [destruct (bytes_at 16 v); [|done]; cbn; intros [= <- <-]; eauto|].
  destruct (fch fmt 0 =? chr "V"); [destruct v; try done; apply Hv|].
  repeat case_match; intros [= <- <-]; eauto.
Qed.

Lemma convert_rel old fmt spec args a b r a' nr :
  R a b -> o_pos out1 a = o_pos out2 b -> Forall (fun v => nested_rel a b v a' nr) args ->
  convert env out1 old fmt spec args a = Some (r, a', nr) ->
  exists b', convert env out2 old fmt spec args b = Some (r, b', nr) /\ R' nr a' b'.
Proof using Rput Rblock Rnone Rstore.
  intros HR Hpos Hargs. unfold convert.
  pose proof (fun n t => number_rel (o_put out1) (o_put out2) R Rput a b n t HR) as Hn.
  destruct (type spec) eqn:Et;
    try (destruct (arg_num _ args) as [[n args']|]; cbn; [|done]; intros [= <- <- <-]; eauto; fail);
    try (destruct (arg_int args) as [[n args']|]; cbn; [|done]; intros [= <- <- <-]; eauto; fail);
    try (intros [= <- <- <-]; eauto; fail).
  - destruct (arg_int args) as [[n args']|]; cbn; [|done]. intros [= <- <- <-]. eexists. split; [done|].
    apply Rnone. by eapply put_char_rel.
  - destruct (arg_str args) as [[[p s] args']|]; cbn; [|done]. intros [= <- <- <-]. eexists. split; [done|].
    unfold string_out. by apply Rnone, string_at_rel.
  - destruct (arg_ptr args) as [[[p v] args']|] eqn:Ea; cbn; [|done].
    assert (nested_rel a b v a' nr) as Hv by (destruct args as [|w args]; [done|]; apply Forall_cons_1 in Hargs as [Hw _]; destruct w; cbn in Ea; by simplify_eq).
    destruct (pointer env out1 _ a p v spec) as [[a1 nr1]|] eqn:Ep; cbn; [|done]. intros [= <- <- <-].
    destruct (pointer_rel _ _ _ _ _ _ _ _ HR Hv Ep) as (b1 & -> & Hb). cbn. eauto.
  - destruct (arg_ptr args) as [[[p v] args']|] eqn:Ea; cbn; [|done]. intros [= <- <- <-]. rewrite <- Hpos. eauto.
Qed.

End convert_related.

Lemma convert_args env {A} (out : output A) old fmt spec args a f sp args' a' nr (P : va -> Prop) :
  convert env out old fmt spec args a = Some (f, sp, args', a', nr) -> Forall P args -> Forall P args'.
Proof.
  intros Hc Hargs. unfold convert in Hc. destruct args as [|w args]; [destruct (type spec); cbn in Hc; by simplify_eq|].
  pose proof (Forall_cons_1 _ _ _ Hargs) as [_ Ht].
  destruct (type spec); try (destruct w; cbn in Hc; by simplify_eq).
  destruct (arg_ptr (w :: args)) as [[[p v] args1]|] eqn:Ea; [|done]. cbn in Hc.
  destruct (pointer _ _ _ _ _ _ _) as [[? ?]|]; cbn in Hc; [|done]. simplify_eq. destruct w; cbn in Ea; by simplify_eq.
Qed.

(** ** The buffer shows the text *)

(** The stores of %n, and that none of them touches the bytes from [buf] to
    [e]. *)
Definition stores (m : gmap Z Z) (nr : list (Z * Z)) : gmap Z Z := foldl (fun m '(p, v) => store_word m p v) m nr.
Definition clear_of (buf e : Z) (nr : list (Z * Z)) : Prop := Forall (fun '(p, _) => p + 4 <= buf \/ e <= p) nr.

(** A part of memory from [buf] to [e] shows what fits of the text, unless %n
    has stored into it; in the rest of memory there are just those stores. *)
Record shows (e buf : Z) (m0 : gmap Z Z) (nr : list (Z * Z)) (t : list Z) (s : sink) : Prop := {
  sh_str : sstr s = buf + zlen t;
  sh_text : clear_of buf e nr -> forall i, 0 <= i < zlen t -> buf + i < e -> smem s !! (buf + i) = Some (bget t i);
  sh_frame : forall a, ~ (buf <= a < e) -> smem s !! a = stores m0 nr !! a }.

Section sink.
Context (e buf : Z) (Hbuf : 0 <= buf) (m0 : gmap Z Z) (nr : list (Z * Z)).

Lemma shows_put c t s :
  buf + zlen (t ++ [c]) < 2 ^ 32 -> shows e buf m0 nr t s -> shows e buf m0 nr (t ++ [c]) (sink_put e c s).
Proof using Hbuf.
  intros Hb [H1 H2 H3]. rewrite zlen_app in Hb. change (zlen [c]) with 1 in Hb. pose proof (zlen_nonneg t). unfold sink_put. split; cbn.
  - rewrite H1, u32_small, zlen_app by lia. change (zlen [c]) with 1. lia.
  - intros Hc i Hi He. rewrite zlen_app in Hi. change (zlen [c]) with 1 in Hi. rewrite bget_app by lia. rewrite H1.
    destruct (Z.ltb_spec (buf + zlen t) e), (Z.ltb_spec i (zlen t)); try lia.
    + rewrite lookup_insert_ne by lia. apply H2; done || lia.
    + assert (i = zlen t) as -> by lia. rewrite lookup_insert_eq, Z.sub_diag. done.
    + apply H2; done || lia.
  - intros a Ha. rewrite H1. destruct (Z.ltb_spec (buf + zlen t) e); [|by apply H3]. rewrite lookup_insert_ne by lia. by apply H3.
Qed.

Lemma memcpy_lookup bs m str a :
  memcpy m str bs !! a =
  if (str <=? a) && (a <? str + zlen bs) then Some (bget bs (a - str)) else m !! a.
Proof using.
  unfold memcpy. induction bs as [|c bs IH] using rev_ind.
  - change (zlen []) with 0. change (zip (seqZ 0 0) []) with (@nil (Z * Z)). cbn [foldl].
    destruct (Z.leb_spec str a), (Z.ltb_spec a (str + 0)); try lia; done.
  - pose proof (zlen_nonneg bs). rewrite zlen_app. change (zlen [c]) with 1. rewrite seqZ_app by lia. rewrite zip_with_app by (rewrite length_seqZ; unfold zlen; lia).
    assert (zip (seqZ (0 + zlen bs) 1) [c] = [(zlen bs, c)]) as -> by (rewrite seqZ_cons by lia; cbn; do 2 f_equal; lia).
    rewrite foldl_app. cbn [foldl]. destruct (decide (a = str + zlen bs)) as [->|Hne].
    + rewrite lookup_insert_eq. destruct (Z.leb_spec str (str + zlen bs)), (Z.ltb_spec (str + zlen bs) (str + (zlen bs + 1))); try lia. cbn.
      rewrite bget_app by lia. destruct (Z.ltb_spec (str + zlen bs - str) (zlen bs)); [lia|]. replace (str + zlen bs - str - zlen bs) with 0 by lia. done.
    + rewrite lookup_insert_ne by lia. rewrite IH.
      destruct (Z.leb_spec str a), (Z.ltb_spec a (str + zlen bs)), (Z.ltb_spec a (str + (zlen bs + 1))); try lia; try done. cbn.
      rewrite bget_app by lia. by destruct (Z.ltb_spec (a - str) (zlen bs)); [|lia].
Qed.

Lemma bget_take l n i : 0 <= i < n -> bget (take (Z.to_nat n) l) i = bget l i.
Proof using. intros. unfold bget. rewrite nth_lookup, lookup_take_lt, <- nth_lookup by lia. done. Qed.

Lemma shows_block l t s :
  buf + zlen (t ++ l) < 2 ^ 32 -> shows e buf m0 nr t s -> shows e buf m0 nr (t ++ l) (sink_block e l s).
Proof using Hbuf.
  intros Hb [H1 H2 H3]. rewrite zlen_app in Hb. pose proof (zlen_nonneg t). pose proof (zlen_nonneg l).
  unfold sink_block. split; cbn [sstr smem].
  - rewrite H1, u32_small, zlen_app by lia. lia.
  - intros Hc i Hi He. rewrite zlen_app in Hi. rewrite bget_app by lia. rewrite H1. destruct (Z.ltb_spec (buf + zlen t) e).
    + rewrite memcpy_lookup, zlen_take. destruct (Z.ltb_spec i (zlen t)).
      * destruct (Z.leb_spec (buf + zlen t) (buf + i)); [lia|]. cbn [andb]. apply H2; done || lia.
      * destruct (Z.leb_spec (buf + zlen t) (buf + i)); [|lia]. cbn [andb].
        set (k := if e - (buf + zlen t) <? zlen l then _ else zlen l). assert (k = Z.min (e - (buf + zlen t)) (zlen l)) by (unfold k; case_if; lia).
        destruct (Z.ltb_spec (buf + i) (buf + zlen t + Z.min (Z.of_nat (Z.to_nat k)) (zlen l))); [|lia].
        f_equal. replace (buf + i - (buf + zlen t)) with (i - zlen t) by lia. apply bget_take. lia.
    + destruct (Z.ltb_spec i (zlen t)); [|lia]. apply H2; done || lia.
  - intros a Ha. rewrite H1. destruct (Z.ltb_spec (buf + zlen t) e); [|by apply H3]. rewrite memcpy_lookup, zlen_take.
    set (k := if e - (buf + zlen t) <? zlen l then _ else zlen l). assert (k = Z.min (e - (buf + zlen t)) (zlen l)) by (unfold k; case_if; lia).
    destruct (Z.leb_spec (buf + zlen t) a), (Z.ltb_spec a (buf + zlen t + Z.min (Z.of_nat (Z.to_nat k)) (zlen l))); try lia; by apply H3.
Qed.

Lemma store_word_lookup m p v a :
  store_word m p v !! a = if (p <=? a) && (a <? p + 4) then Some (bget (le_bytes 4 v) (a - p)) else m !! a.
Proof using. unfold store_word. by rewrite memcpy_lookup, zlen_le_bytes. Qed.

Lemma stores_ext l m1 m2 a : m1 !! a = m2 !! a -> stores m1 l !! a = stores m2 l !! a.
Proof using.
  revert m1 m2. induction l as [|[p v] l IH]; intros m1 m2 E; [done|]. cbn. apply IH. rewrite !store_word_lookup. by case_match.
Qed.

Lemma stores_clear l m a : clear_of buf e l -> buf <= a < e -> stores m l !! a = m !! a.
Proof using.
  intros Hl Ha. revert m. induction Hl as [|[p v] l Hp Hl IH]; intros m; [done|]. cbn. unfold stores in IH. rewrite IH, store_word_lookup.
  destruct (Z.leb_spec p a), (Z.ltb_spec a (p + 4)); done || lia.
Qed.

Lemma stores_app m l1 l2 : stores m (l1 ++ l2) = stores (stores m l1) l2.
Proof using. apply foldl_app. Qed.

Lemma shows_store p v t s : shows e buf m0 nr t s -> shows e buf m0 (nr ++ [(p, v)]) t (sink_store p v s).
Proof using.
  intros [H1 H2 H3]. split; cbn [sstr smem sink_store]; [done| |].
  - intros [Hc Hp]%Forall_app i Hi He. pose proof (stores_clear _ (smem s) (buf + i) Hp ltac:(lia)) as E. cbn in E. rewrite E. by apply H2.
  - intros a Ha. rewrite stores_app. change (store_word (smem s) p v) with (stores (smem s) [(p, v)]). by apply stores_ext, H3.
Qed.
End sink.

(** ** The loop *)

Definition is_plain (v : va) : Prop := match v with VFormat _ _ _ => False | _ => True end.

Lemma text_convert_prefix env format old fmt spec args t r t' nr :
  convert env (text_output format) old fmt spec args t = Some (r, t', nr) -> t `prefix_of` t'.
Proof.
  set (out2 := Output unit (fun _ _ => tt) (fun _ _ => tt) (fun _ => zlen t) (fun _ _ _ => tt) (fun f l _ => '(_, nr) ← format f l; Some (tt, nr))).
  intros Hc. destruct (convert_rel env (text_output format) out2 (fun t' _ => t `prefix_of` t')) with (R' := fun (_ : list (Z * Z)) t' (_ : unit) => t `prefix_of` t') (a := t) (b := tt) (8 := Hc)
    as (b' & _ & H); [| |done|done|done|done| |exact H].
  - intros c a _ Ha. cbn. by apply prefix_app_r.
  - intros l a _ Ha. cbn. by apply prefix_app_r.
  - apply Forall_forall. intros v _. destruct v; try done. cbn. intros Hf. destruct (format _ _) as [[t1 nr1]|]; [|done].
    cbn in *. simplify_eq. eexists. split; [done|]. by apply prefix_app_r.
Qed.

Lemma text_loop_prefix env format fuel fmt spec args t nr0 T nr :
  vsn_loop env (text_output format) fuel fmt spec args t nr0 = Some (T, nr) -> t `prefix_of` T.
Proof.
  revert fmt spec args t nr0. induction fuel as [|fuel IH]; intros fmt spec args t nr0; cbn [vsn_loop]; [done|].
  destruct (ch fmt =? 0); [by intros [= <- <-]|]. destruct (format_decode fmt spec) as [spec1 rest].
  destruct (convert _ _ _ _ _ _ _) as [[[[[fmt' spec'] args'] t'] nr']|] eqn:Hc; [|done]. cbn. intros Hl.
  etrans; [by eapply text_convert_prefix|by eapply IH].
Qed.

Lemma zlen_prefix {A} (a b : list A) : a `prefix_of` b -> zlen a <= zlen b.
Proof. intros [c ->]. rewrite zlen_app. pose proof (zlen_nonneg c). lia. Qed.

Section loop.
Context (env : printk_env) (e buf : Z) (Hbuf : 0 <= buf) (m0 : gmap Z Z).
Context (ftext : list Z -> list va -> option (list Z * list (Z * Z))).
Context (fsink : list Z -> list va -> sink -> option (sink * list (Z * Z))).

(** Nested formats whose text fits. *)
Context (Hnested : forall nr0 t s f l t' nr,
  shows e buf m0 nr0 t s -> ftext f l = Some (t', nr) -> buf + zlen (t ++ t') < e -> buf + zlen (t ++ t') < 2 ^ 32 -> zlen (t ++ t') < 2 ^ 31 ->
  exists s', fsink f l s = Some (s', nr) /\ shows e buf m0 (nr0 ++ nr) (t ++ t') s').

Lemma convert_sim old fmt spec args nr0 t r t' nr s :
  shows e buf m0 nr0 t s -> convert env (text_output ftext) old fmt spec args t = Some (r, t', nr) ->
  buf + zlen t' < 2 ^ 32 -> zlen t' < 2 ^ 31 -> buf + zlen t' < e \/ Forall is_plain args ->
  exists s', convert env (sink_output e buf fsink) old fmt spec args s = Some (r, s', nr) /\ shows e buf m0 (nr0 ++ nr) t' s'.
Proof using Hbuf Hnested.
  intros Hs Hc H32 H31 Hfit. pose proof (zlen_prefix _ _ (text_convert_prefix _ _ _ _ _ _ _ _ _ _ Hc)) as Hle. pose proof (zlen_nonneg t).
  destruct (convert_rel env (text_output ftext) (sink_output e buf fsink) (fun t s => buf + zlen t < 2 ^ 32 -> shows e buf m0 nr0 t s))
    with (R' := fun nr t s => buf + zlen t < 2 ^ 32 -> shows e buf m0 (nr0 ++ nr) t s) (a := t) (b := s) (8 := Hc)
    as (s' & Hs' & HR); [| | | | | | |by exists s'; split; [|apply HR]].
  - intros c a b HR Hb. cbn in *. apply shows_put; [done|done|]. apply HR. rewrite zlen_app in Hb. change (zlen [c]) with 1 in Hb. lia.
  - intros l a b HR Hb. cbn in *. apply shows_block; [done|done|]. apply HR. rewrite zlen_app in Hb. pose proof (zlen_nonneg l). lia.
  - intros a b HR. by rewrite app_nil_r.
  - intros p v a b HR Hb. cbn in *. by apply shows_store, HR.
  - done.
  - cbn. rewrite (sh_str _ _ _ _ _ _ Hs). unfold s32. rewrite Z.mod_small; lia.
  - apply Forall_forall. intros v Hv. destruct v as [| | | | |p f l]; try done. cbn. intros Hf.
    destruct (ftext f l) as [[t1 nr1]|] eqn:Ef; [|done]. cbn in Hf. simplify_eq.
    destruct Hfit as [Hfit|Hp]; [|exfalso; by apply (proj1 (Forall_forall _ _) Hp (VFormat p f l))].
    destruct (Hnested nr0 t s f l t1 _ Hs Ef) as (s' & E & H'); [done..|]. by exists s'.
Qed.

Lemma vsn_loop_sim fuel fmt spec args t nr0 T nr s :
  shows e buf m0 nr0 t s -> vsn_loop env (text_output ftext) fuel fmt spec args t nr0 = Some (T, nr) ->
  buf + zlen T < 2 ^ 32 -> zlen T < 2 ^ 31 -> buf + zlen T < e \/ Forall is_plain args ->
  exists s', vsn_loop env (sink_output e buf fsink) fuel fmt spec args s nr0 = Some (s', nr) /\ shows e buf m0 nr T s'.
Proof using Hbuf Hnested.
  revert fmt spec args t nr0 s. induction fuel as [|fuel IH]; intros fmt spec args t nr0 s Hs Hl H32 H31 Hfit; cbn [vsn_loop] in *; [done|].
  destruct (ch fmt =? 0); [simplify_eq; by exists s|]. destruct (format_decode fmt spec) as [spec1 rest].
  destruct (convert _ (text_output ftext) _ _ _ _ _) as [[[[[fmt' spec'] args'] t'] nr']|] eqn:Hc; [|done]. cbn in Hl.
  pose proof (zlen_prefix _ _ (text_loop_prefix _ _ _ _ _ _ _ _ _ _ Hl)) as Hle.
  destruct (convert_sim _ _ _ _ _ _ _ _ _ s Hs Hc) as (s1 & Hc1 & Hs1); [lia|lia|destruct Hfit; [left; lia|by right]|].
  rewrite Hc1. cbn. eapply IH; try done. destruct Hfit; [by left|]. right. by eapply convert_args.
Qed.

End loop.

(** ** The buffer *)

(** What a call leaves in memory: a terminator, behind the text or at [e - 1];
    from [buf] on as much of the text as fits in front of it, if the stores of
    %n stay away from the buffer; outside of the buffer those stores, and
    nothing else changed. *)
Record printed (m : gmap Z Z) (nr : list (Z * Z)) (m' : gmap Z Z) (buf e : Z) (t : list Z) : Prop := {
  pr_frame : forall a, ~ (buf <= a < e) -> m' !! a = stores m nr !! a;
  pr_text : clear_of buf e nr -> forall i, 0 <= i < zlen t -> buf + i < e - 1 -> m' !! (buf + i) = Some (bget t i);
  pr_end : buf < e -> m' !! Z.min (buf + zlen t) (e - 1) = Some 0 }.

(** The end of the buffer; it is cut at the end of the address space. *)
Definition buf_end (buf size : Z) : Z := Z.min (buf + size) (2 ^ 32 - 1).

Lemma shows_start e buf m : shows e buf m [] [] (Sink m buf).
Proof. split; cbn; [change (zlen []) with 0; lia| |done]. intros _ i Hi. change (zlen []) with 0 in Hi. lia. Qed.

Lemma shows_printed e buf m nr t s :
  0 <= buf -> shows e buf m nr t s ->
  printed m nr (if buf <? e then if sstr s <? e then <[sstr s := 0]> (smem s) else <[e - 1 := 0]> (smem s) else smem s) buf e t.
Proof.
  intros Hb [H1 H2 H3]. pose proof (zlen_nonneg t). rewrite H1. split.
  - intros a Ha. destruct (Z.ltb_spec buf e); [|by apply H3].
    destruct (Z.ltb_spec (buf + zlen t) e); (rewrite lookup_insert_ne by lia); by apply H3.
  - intros Hc i Hi He. destruct (Z.ltb_spec buf e); [|lia].
    destruct (Z.ltb_spec (buf + zlen t) e); (rewrite lookup_insert_ne by lia); apply H2; done || lia.
  - intros He. destruct (Z.ltb_spec buf e); [|lia]. destruct (Z.ltb_spec (buf + zlen t) e).
    + rewrite Z.min_l by lia. apply lookup_insert_eq.
    + rewrite Z.min_r by lia. apply lookup_insert_eq.
Qed.

Lemma buf_end_code buf size :
  0 <= buf < 2 ^ 32 -> 0 <= size < 2 ^ 31 ->
  (if u32 (buf + size) <? buf then (2 ^ 32 - 1, 2 ^ 32 - 1 - buf) else (u32 (buf + size), size)) =
  (buf_end buf size, buf_end buf size - buf).
Proof.
  intros Hb Hs. unfold buf_end. destruct (Z.ltb_spec (buf + size) (2 ^ 32)).
  - rewrite u32_small by lia. destruct (Z.ltb_spec (buf + size) buf); [lia|]. rewrite Z.min_l by lia. f_equal. lia.
  - assert (u32 (buf + size) = buf + size - 2 ^ 32) as -> by (unfold u32; Z.to_euclidean_division_equations; lia).
    destruct (Z.ltb_spec (buf + size - 2 ^ 32) buf); [|lia]. rewrite Z.min_r by lia. done.
Qed.

Definition vsnprintf_ok (depth : nat) (env : printk_env) : Prop :=
  forall m buf size fmt args t nr,
  0 <= buf < 2 ^ 32 -> 0 <= size < 2 ^ 31 -> text_at depth env fmt args = Some (t, nr) ->
  buf + zlen t < 2 ^ 32 -> zlen t < 2 ^ 31 -> buf + zlen t < buf_end buf size \/ Forall is_plain args ->
  exists m', vsnprintf_at depth env m buf size fmt args = Some (m', zlen t, nr) /\ printed m nr m' buf (buf_end buf size) t.

(** A nested call whose text fits. *)
Lemma nested_ok depth env e buf m0 nr0 t s f l t' nr :
  vsnprintf_ok depth env -> 0 <= buf -> e < 2 ^ 32 -> e - buf < 2 ^ 31 ->
  shows e buf m0 nr0 t s -> text_at depth env f l = Some (t', nr) ->
  buf + zlen (t ++ t') < e -> buf + zlen (t ++ t') < 2 ^ 32 -> zlen (t ++ t') < 2 ^ 31 ->
  exists s', ('(m, n, nr) ← vsnprintf_at depth env (smem s) (sstr s) (u32 (e - sstr s)) f l; Some (Sink m (u32 (sstr s + n)), nr)) = Some (s', nr) /\
    shows e buf m0 (nr0 ++ nr) (t ++ t') s'.
Proof.
  intros IH Hb He Hsz [H1 H2 H3] Ht Hfit H32 H31. rewrite zlen_app in *. pose proof (zlen_nonneg t). pose proof (zlen_nonneg t').
  assert (buf_end (sstr s) (e - sstr s) = e) as Ee by (unfold buf_end; rewrite H1; lia).
  destruct (IH (smem s) (sstr s) (u32 (e - sstr s)) f l t' nr) as (m' & -> & [P1 P2 P3]); rewrite ?(u32_small (e - sstr s)) by lia; try done; try lia.
  rewrite u32_small, Ee in * by lia. cbn. eexists. split; [done|]. split; cbn; rewrite ?H1.
  - rewrite u32_small by lia. rewrite zlen_app. lia.
  - intros [Hc Hc']%Forall_app i Hi Hie. rewrite zlen_app in Hi. rewrite bget_app by lia. destruct (Z.ltb_spec i (zlen t)).
    + rewrite P1, (stores_clear e buf) by (done || lia). apply H2; done || lia.
    + assert (clear_of (sstr s) e nr) as Hn by (eapply Forall_impl; [exact Hc'|]; intros [p v]; lia).
      specialize (P2 Hn (i - zlen t) ltac:(lia) ltac:(lia)). rewrite H1 in P2. by replace (buf + zlen t + (i - zlen t)) with (buf + i) in P2 by lia.
  - intros a Ha. rewrite P1, stores_app by lia. by apply stores_ext, H3.
Qed.

(** One level of nesting. *)
Lemma vsnprintf_level env ftext fsink m buf size fmt args t nr :
  let e := buf_end buf size in
  0 <= buf < 2 ^ 32 -> 0 <= size < 2 ^ 31 -> vsn env (text_output ftext) fmt args [] = Some (t, nr) ->
  buf + zlen t < 2 ^ 32 -> zlen t < 2 ^ 31 -> buf + zlen t < e \/ Forall is_plain args ->
  (forall nr0 t s f l t' nr, shows e buf m nr0 t s -> ftext f l = Some (t', nr) -> buf + zlen (t ++ t') < e -> buf + zlen (t ++ t') < 2 ^ 32 ->
    zlen (t ++ t') < 2 ^ 31 -> exists s', fsink f l s = Some (s', nr) /\ shows e buf m (nr0 ++ nr) (t ++ t') s') ->
  exists s, vsn env (sink_output e buf fsink) fmt args (Sink m buf) = Some (s, nr) /\ s32 (sstr s - buf) = zlen t /\
    printed m nr (if 0 <? e - buf then if sstr s <? e then <[sstr s := 0]> (smem s) else <[e - 1 := 0]> (smem s) else smem s) buf e t.
Proof.
  intros e Hb Hs Ht H32 H31 Hfit Hn. pose proof (zlen_nonneg t).
  destruct (vsn_loop_sim env e buf ltac:(lia) m ftext fsink Hn _ _ _ _ _ _ _ _ _ (shows_start e buf m) Ht H32 H31 Hfit) as (s & Hl & Hsh).
  exists s. split; [done|]. split; [rewrite (sh_str _ _ _ _ _ _ Hsh); unfold s32; rewrite Z.mod_small; lia|].
  pose proof (shows_printed e buf m nr t s ltac:(lia) Hsh) as Hp. replace (buf <? e) with (0 <? e - buf) in Hp; [done|].
  destruct (Z.ltb_spec 0 (e - buf)), (Z.ltb_spec buf e); done || lia.
Qed.

Lemma vsnprintf_at_spec depth env : vsnprintf_ok depth env.
Proof.
  induction depth as [|depth IH]; intros m buf size fmt args t nr Hb Hs Ht H32 H31 Hfit; cbn [vsnprintf_at text_at] in *;
    (destruct (Z.ltb_spec (s32 size) 0) as [F|_]; [unfold s32 in F; rewrite Z.mod_small in F; lia|]); rewrite buf_end_code by done;
    (edestruct (vsnprintf_level env) with (3 := Ht) as (s & -> & Er & Hp); [done|done|done|done|done| |]).
  - by intros nr0 t0 s0 f l t1 nr1 _ Ht1.
  - cbn. rewrite Er. by eexists.
  - intros nr0 t0 s0 f l t1 nr1 Hs0 Ht1 F1 F2 F3. apply nested_ok; try done; unfold buf_end; lia.
  - cbn. rewrite Er. by eexists.
Qed.

(** ** Rounds *)

Definition takes_star (t : format_type) : bool :=
  match t with FORMAT_TYPE_WIDTH | FORMAT_TYPE_PRECISION => true | _ => false end.

Lemma decode_conversion_len fmt spec sp rest :
  decode_conversion fmt spec = (sp, rest) -> (length rest <= length fmt)%nat /\ takes_star (type sp) = false /\
  (type sp = FORMAT_TYPE_PTR -> ch rest = chr "p").
Proof.
  unfold decode_conversion. intros H.
  assert (forall sp, takes_star (integer_type sp) = false /\ integer_type sp <> FORMAT_TYPE_PTR) as Hi
    by (intros x; unfold integer_type; repeat case_match; done).
  assert (length (drop 1 fmt) <= length fmt)%nat by (rewrite length_drop; lia).
  repeat case_match; simplify_eq; (split; [lia|]); (split; [try done; apply Hi|]); cbn [type set_type]; try done;
    try (intros F; by apply Hi in F); by intros _; apply Z.eqb_eq.
Qed.

Lemma decode_qualifier_len fmt spec sp rest :
  decode_qualifier fmt spec = (sp, rest) -> (length rest <= length fmt)%nat /\ takes_star (type sp) = false /\
  (type sp = FORMAT_TYPE_PTR -> ch rest = chr "p").
Proof.
  unfold decode_qualifier. intros H. repeat case_match; apply decode_conversion_len in H as (L1 & L2 & L3); rewrite ?length_drop in L1; (split; [lia|done]).
Qed.

Lemma atoi_loop_len s i : (length (atoi_loop s i).2 <= length s)%nat.
Proof. revert i. induction s as [|c s IH]; intros i; cbn; [lia|]. destruct (isdigit c); cbn; [|lia]. specialize (IH (s32 (i * 10 + c - 48))). lia. Qed.

Lemma decode_precision_len fmt spec sp rest :
  decode_precision fmt spec = (sp, rest) -> type spec = FORMAT_TYPE_NONE -> (length rest <= length fmt)%nat /\
  (takes_star (type sp) = true -> (length rest < length fmt)%nat) /\ (type sp = FORMAT_TYPE_PTR -> ch rest = chr "p").
Proof.
  unfold decode_precision. intros H Ht. destruct (ch fmt =? chr ".") eqn:E.
  - assert (0 < length fmt)%nat by (destruct fmt; [done|cbn; lia]).
    destruct (isdigit _).
    + pose proof (atoi_loop_len (drop 1 fmt) 0) as Hl. unfold skip_atoi in H. destruct (atoi_loop _ _) as [n f].
      apply decode_qualifier_len in H as (H1 & H2 & H3). cbn in Hl. rewrite length_drop in Hl. rewrite H2. split; [lia|done].
    + destruct (_ =? chr "*"); [simplify_eq; rewrite !length_drop; split; [lia|]; split; [lia|done]|].
      apply decode_qualifier_len in H as (H1 & H2 & H3). rewrite length_drop in H1. rewrite H2. split; [lia|done].
  - apply decode_qualifier_len in H as (H1 & H2 & H3). rewrite H2. split; [lia|done].
Qed.

Lemma plain_part_len fmt : (length (plain_part fmt) <= length fmt)%nat.
Proof. induction fmt as [|c fmt IH]; cbn; [lia|]. destruct (c =? chr "%"); cbn; lia. Qed.

Lemma flags_loop_len fmt fl : (length (flags_loop fmt fl).2 <= length fmt)%nat.
Proof.
  revert fl. induction fmt as [|c fmt IH]; intros fl; cbn [flags_loop]; [cbn; lia|].
  repeat case_match; cbn [snd length]; try lia;
    match goal with |- context [flags_loop fmt ?x] => specialize (IH x) end; lia.
Qed.

(** What is left to do: two rounds for a character, one for a star. *)
Definition rounds_left (fmt : list Z) (spec : printf_spec) : nat :=
  2 * length fmt + if takes_star (type spec) then 1 else 0.

Lemma star_text_start fmt spec sp rest :
  takes_star (type spec) = true -> format_decode fmt spec = (sp, rest) ->
  (length rest <= length fmt)%nat /\ (takes_star (type sp) = true -> (length rest < length fmt)%nat) /\ (type sp = FORMAT_TYPE_PTR -> ch rest = chr "p").
Proof.
  intros Hst H. unfold format_decode in H. destruct (type spec); try done.
  - by apply decode_precision_len in H.
  - apply decode_qualifier_len in H as (H1 & H2 & H3). by rewrite H2.
Qed.

Lemma text_start fmt spec sp rest :
  takes_star (type spec) = false -> ch fmt <> 0 -> format_decode fmt spec = (sp, rest) ->
  (length rest < length fmt)%nat /\ (type sp = FORMAT_TYPE_PTR -> ch rest = chr "p").
Proof.
  intros Hst Hch H. assert (0 < length fmt)%nat as Hl by (destruct fmt; [done|cbn; lia]). pose proof (plain_part_len fmt) as Hp.
  assert ((let spec := set_type FORMAT_TYPE_NONE spec in
      let rest := plain_part fmt in
      if negb (length rest =? length fmt)%nat || (ch rest =? 0) then (spec, rest)
      else
        let '(fl, fmt) := flags_loop (drop 1 rest) 0 in
        let spec := set_field_width (-1) (set_flags fl spec) in
        if isdigit (ch fmt) then
          let '(n, fmt) := skip_atoi fmt in decode_precision fmt (set_field_width n spec)
        else if ch fmt =? chr "*" then (set_type FORMAT_TYPE_WIDTH spec, drop 1 fmt)
        else decode_precision fmt spec) = (sp, rest)) as H' by (unfold format_decode in H; by destruct (type spec)).
  clear H. cbn zeta in H'. destruct (Nat.eqb_spec (length (plain_part fmt)) (length fmt)) as [E|Hne]; cbn [negb orb] in H'.
  2:{ simplify_eq. split; [lia|done]. }
  destruct (Z.eqb_spec (ch (plain_part fmt)) 0) as [Ec|Hc].
  { destruct fmt as [|c fmt]; [done|]. cbn in *. destruct (c =? chr "%"); [done|]. pose proof (plain_part_len fmt). lia. }
  pose proof (flags_loop_len (drop 1 (plain_part fmt)) 0) as Hf. destruct (flags_loop _ _) as [fl f]. cbn in Hf. rewrite length_drop in Hf.
  destruct (isdigit (ch f)).
  - pose proof (atoi_loop_len f 0) as Ha. unfold skip_atoi in H'. destruct (atoi_loop f 0) as [n f']. cbn in Ha.
    apply decode_precision_len in H' as (L1 & _ & L3); [|done]. split; [lia|done].
  - destruct (ch f =? chr "*"); [simplify_eq; rewrite length_drop; split; [lia|done]|].
    apply decode_precision_len in H' as (L1 & _ & L3); [|done]. split; [lia|done].
Qed.

Lemma skip_alnum_len fmt : (length (skip_alnum fmt) <= length fmt)%nat.
Proof. induction fmt as [|c fmt IH]; cbn; [lia|]. destruct (isalnum c); cbn; lia. Qed.

Lemma convert_fmt env {A} (out : output A) old fmt spec args a fmt' spec' args' a' nr :
  convert env out old fmt spec args a = Some (fmt', spec', args', a', nr) ->
  type spec' = type spec /\ fmt' = (if decide (type spec = FORMAT_TYPE_PTR) then skip_alnum fmt else fmt).
Proof.
  unfold convert. intros H. destruct (type spec) eqn:Et; repeat (case_match; simplify_option_eq); simplify_option_eq; try done;
    repeat (case_match; simplify_option_eq); try done; by rewrite ?Et.
Qed.

Lemma round_decreases env {A} (out : output A) fmt spec sp rest old args a fmt' spec' args' a' nr :
  ch fmt <> 0 -> format_decode fmt spec = (sp, rest) -> convert env out old rest sp args a = Some (fmt', spec', args', a', nr) ->
  (rounds_left fmt' spec' < rounds_left fmt spec)%nat.
Proof.
  intros Hch Hd Hc. apply convert_fmt in Hc as [Et Ef]. unfold rounds_left. rewrite Et.
  destruct (takes_star (type spec)) eqn:Est.
  - destruct (star_text_start _ _ _ _ Est Hd) as (H1 & H2 & H3). subst fmt'. case_decide as Hptr.
    + rewrite Hptr. cbn [takes_star]. pose proof (skip_alnum_len rest). lia.
    + destruct (takes_star (type sp)); [specialize (H2 eq_refl)|]; lia.
  - destruct (text_start _ _ _ _ Est Hch Hd) as (H1 & H3). assert (length fmt' <= length rest)%nat.
    { subst fmt'. case_decide; [apply skip_alnum_len|lia]. }
    destruct (takes_star (type sp)); lia.
Qed.

(** The fuel of the loop is never used up. *)
Lemma vsn_loop_fuel env {A} (out : output A) fuel k fmt spec args o nr :
  (rounds_left fmt spec < fuel)%nat -> vsn_loop env out (fuel + k) fmt spec args o nr = vsn_loop env out fuel fmt spec args o nr.
Proof.
  revert fmt spec args o nr. induction fuel as [|fuel IH]; intros fmt spec args o nr Hf; [lia|]. cbn [Nat.add vsn_loop].
  destruct (Z.eqb_spec (ch fmt) 0) as [|Hch]; [done|]. destruct (format_decode fmt spec) as [sp rest] eqn:Ed.
  destruct (convert _ _ _ _ _ _ _) as [[[[[fmt' spec'] args'] o'] nr']|] eqn:Hc; [|done]. cbn. apply IH.
  pose proof (round_decreases _ _ _ _ _ _ _ _ _ _ _ _ _ _ Hch Ed Hc). lia.
Qed.

(** ** Claims *)


Definition ex_printk : printk_env := PrintkEnv (fun _ _ => str "start_kernel") false 1 false.


(** Formatting ends.  Every round of the loop takes a character of the
    format or the number that a star asked for, so that the loop ends after at
    most two rounds for each character, whatever the output is: more rounds
    change nothing. *)
Theorem formatting_ends env {Out} (out : output Out) fmt args (o : Out) k :
  vsn_loop env out (S (2 * length fmt) + k) fmt spec0 args o [] = vsn env out fmt args o.
Proof. apply vsn_loop_fuel. unfold rounds_left. cbn. lia. Qed.

(** A nested format that does not fit is lost.  When the buffer is already
    full in front of a nested format (%pV), the nested call is given a negative
    size and refuses it: the length that is returned is not the length of the
    text, and a caller that allocates by it cuts the text. *)
Theorem nested_format_lost :
  let fmt := str "interface %pV" in
  let args := [VFormat 40960 (str "eth%d down") [VInt 0]] in
  formatted ex_printk fmt args = Some (str "interface eth0 down", []) /\
  (vsnprintf ex_printk ∅ 4096 64 fmt args) ≫= (fun r => Some (r.1.2)) = Some 19 /\
  (vsnprintf ex_printk ∅ 4096 4 fmt args) ≫= (fun r => Some (r.1.2)) = Some 10.
Proof. by vm_compute. Qed.

(** A size that is printed with a sign is taken for an unsigned number. *)
Example negative_size : formatted ex_printk (str "%zd") [VInt (-1)] = Some (str "4294967295", []).
Proof. by vm_compute. Qed.

(** A precision has 16 bits: 40 000 is negative there, and then taken for 0. *)
Example large_precision : formatted ex_printk (str "%.40000d") [VInt 7] = Some (str "7", []).
Proof. by vm_compute. Qed.
