(* ===== verification/VsprintfArrays.v ===== *)
(** * Formatted output: the arrays on the stack

    The conversions of %p build their text in arrays of a fixed size, most of
    them without a test for its end.  No address, resource or number is too
    long for them. *)

From stdpp Require Import base numbers list gmap strings.
From S2P Require Import Prelude CType Vsprintf VsprintfNumber VsprintfProps.

Open Scope Z_scope.

(** ** Addresses *)

Lemma zlen_pack_hex p b : zlen (pack_hex_byte p b) = zlen p + 2.
Proof. unfold pack_hex_byte. by rewrite zlen_app. Qed.

Lemma zlen_snoc {A} (p : list A) c : zlen (p ++ [c]) = zlen p + 1.
Proof. by rewrite zlen_app. Qed.

(** A fold whose body adds at most [n] characters. *)
Lemma foldl_len {A} (f : list Z -> A -> list Z) n l p :
  (forall q x, x ∈ l -> zlen (f q x) <= zlen q + n) -> zlen (foldl f p l) <= zlen p + n * zlen l.
Proof.
  revert p. induction l as [|x l IH]; intros p Hf; cbn [foldl]; [change (zlen []) with 0; lia|]. rewrite zlen_cons.
  specialize (IH (f p x) ltac:(intros; apply Hf; by right)). specialize (Hf p x ltac:(by left)). lia.
Qed.

Lemma mac_address_len addr fmt : zlen (mac_address addr fmt) <= 17.
Proof.
  unfold mac_address. destruct (fch fmt 1 =? chr "F"), (fch fmt 0 =? chr "M"); cbn [andb]; vm_compute; discriminate.
Qed.

Lemma uuid_text_len addr fmt : zlen (uuid_text addr fmt) = 36.
Proof.
  unfold uuid_text. assert (forall index, zlen (foldl (fun p i =>
    let p := pack_hex_byte p (bget addr (bget index i)) in
    if (i =? 3) || (i =? 5) || (i =? 7) || (i =? 9) then p ++ [chr "-"] else p) [] (seqZ 0 16)) = 36) as H by reflexivity.
  repeat case_match; simplify_eq; unfold zlen in *; rewrite ?length_fmap; apply H.
Qed.

Lemma digits_of_len b n k : 2 <= b -> 0 <= n < b ^ Z.of_nat k -> (0 < k <= 64)%nat -> zlen (digits_of b n) <= Z.of_nat k.
Proof.
  intros Hb Hn Hk. unfold digits_of, zlen. rewrite (to_digits_fuel b 64 k) by first [lia|apply Z.lt_le_trans with (b ^ Z.of_nat k); [lia|apply Z.pow_le_mono_r; lia]].
  pose proof (to_digits_length k b n ltac:(lia)). lia.
Qed.

Lemma put_dec_trunc_byte q : 0 <= q < 256 -> 1 <= zlen (put_dec_trunc [] q) <= 3.
Proof.
  intros Hq. rewrite put_dec_trunc_digits by lia. cbn [app]. unfold zlen. rewrite length_fmap. rewrite (to_digits_fuel 10 5 3) by (cbn; lia).
  pose proof (to_digits_length 3 10 q ltac:(lia)). lia.
Qed.

Definition bytes (l : list Z) : Prop := Forall (fun b => 0 <= b < 256) l.

Lemma bget_byte l i : bytes l -> 0 <= bget l i < 256.
Proof.
  intros H. unfold bget. destruct (nth_in_or_default (Z.to_nat i) l 0) as [Hin| ->]; [|lia].
  apply list_elem_of_In in Hin. by apply (proj1 (Forall_forall _ _) H).
Qed.

Lemma ip4_string_len p addr fmt : bytes addr -> zlen (ip4_string p addr fmt) <= zlen p + 15.
Proof.
  intros Ha. unfold ip4_string. destruct (if fch fmt 2 =? chr "h" then (3, -1) else _) as [index step].
  set (f := fun p i => _). assert (forall q i, zlen (f q i) <= zlen q + (if i <? 3 then 4 else 3)) as Hf.
  { intros q i. unfold f. pose proof (put_dec_trunc_byte (bget addr (index + i * step)) (bget_byte _ _ Ha)) as Hl.
    set (temp := put_dec_trunc _ _) in *. assert (zlen (reverse temp) = zlen temp) as Er by (unfold zlen; by rewrite length_reverse).
    destruct (fch fmt 0 =? chr "i"), (Z.ltb_spec (zlen temp) 3), (Z.ltb_spec (zlen temp) 2), (i <? 3); rewrite ?zlen_snoc, ?zlen_app, ?Er; change (zlen [chr "."]) with 1; change (zlen [chr "0"]) with 1; lia. }
  change (seqZ 0 4) with [0; 1; 2; 3]. cbn [foldl].
  pose proof (Hf p 0). pose proof (Hf (f p 0) 1). pose proof (Hf (f (f p 0) 1) 2). pose proof (Hf (f (f (f p 0) 1) 2) 3). cbn in *. lia.
Qed.

Lemma zero_run_range fuel addr range j : 0 <= zero_run fuel addr range j <= Z.max 0 (range - j).
Proof.
  revert j. induction fuel as [|fuel IH]; intros j; cbn [zero_run]; [lia|].
  destruct (Z.ltb_spec j range); cbn [andb]; [|lia]. destruct (s6_addr16 addr j =? 0); [|lia]. specialize (IH (j + 1)). lia.
Qed.

Definition run_ok (range : Z) (r : Z * Z) : Prop := r = (1, -1) \/ (2 <= r.1 /\ 0 <= r.2 /\ r.2 + r.1 <= range).

Lemma longest_run_ok addr range : run_ok range (longest_run addr range).
Proof.
  unfold longest_run. assert (run_ok range (1, -1)) as H0 by (by left). revert H0. generalize (1, -1).
  assert (Forall (fun i => 0 <= i) (seqZ 0 range)) as Hl by (apply Forall_seqZ; lia).
  induction Hl as [|i l Hi Hl IH]; intros [longest colonpos] H0; cbn [foldl]; [done|]. apply IH.
  pose proof (zero_run_range 8 addr range i). destruct (Z.ltb_spec longest (zero_run 8 addr range i)); [|done].
  right. cbn [fst snd]. assert (1 <= longest) by (destruct H0 as [[= -> _]|(? & _)]; cbn in *; lia). lia.
Qed.

Lemma put_word_len p w : zlen (put_word p w) <= zlen p + 4.
Proof. unfold put_word. repeat case_match; rewrite ?zlen_pack_hex, ?zlen_snoc; lia. Qed.

Lemma emit_loop_len fuel addr range r i p nc :
  run_ok range r -> 0 <= i <= range -> zlen p + (if nc : bool then 1 else 0) <= 5 * i ->
  let q := emit_loop fuel addr range r.1 r.2 i p nc in zlen q.1 + (if q.2 then 1 else 0) <= 5 * range.
Proof.
  intros Hr. revert i p nc. induction fuel as [|fuel IH]; intros i p nc Hi Hp; cbn [emit_loop]; [cbn; destruct nc; lia|].
  destruct (Z.ltb_spec i range); [|cbn; destruct nc; lia]. pose proof (zlen_nonneg p). destruct (Z.eqb_spec i r.2) as [->|Hne].
  - destruct Hr as [->|(H1 & H2 & H3)]; [cbn in *; lia|]. apply IH; [lia|]. rewrite zlen_snoc.
    destruct nc; cbn [orb]; [rewrite zlen_snoc; lia|]. destruct (Z.eqb_spec r.2 0); [rewrite zlen_snoc; lia|lia].
  - apply IH; [lia|]. pose proof (put_word_len (if nc then p ++ [chr ":"] else p) (s6_addr16 addr i)). destruct nc; [rewrite zlen_snoc in *|]; lia.
Qed.

Lemma ip6_addr_len addr fmt : bytes addr -> zlen (ip6_addr addr fmt) <= 45.
Proof.
  intros Ha. unfold ip6_addr. destruct (_ && _).
  - unfold ip6_compressed_string. set (range := if _ || _ then 6 else 8). set (v4 := ipv6_addr_v4mapped addr || _) in *.
    pose proof (longest_run_ok addr range) as Hr. destruct (longest_run addr range) as [longest colonpos] eqn:El.
    pose proof (emit_loop_len 9 addr range (longest, colonpos) 0 [] false Hr ltac:(unfold range; destruct v4; lia) ltac:(done)) as Hl. cbn zeta in Hl.
    cbn [fst snd] in Hl. destruct (emit_loop 9 _ _ _ _ _ _ _) as [p nc]. cbn [fst snd] in Hl. unfold range in *. destruct v4.
    + pose proof (ip4_string_len (if nc then p ++ [chr ":"] else p) (drop 12 addr) (str "I4") ltac:(by apply Forall_drop)).
      destruct nc; [rewrite zlen_snoc in *|]; lia.
    + destruct nc; lia.
  - unfold ip6_string. etrans; [apply (foldl_len _ 5)|by vm_compute]. intros q x _. destruct (_ && _); rewrite ?zlen_snoc, !zlen_pack_hex; lia.
Qed.

(** ** Strings *)

Definition string_text (s : list Z) (spec : printf_spec) : list Z :=
  let len := strnlen s (u32 (precision spec)) in
  let n := Z.to_nat (field_width spec - len) in
  let shown := take (Z.to_nat len) s in
  if has LEFT spec then shown ++ replicate n (chr " ") else replicate n (chr " ") ++ shown.

Section strings.
Context {Out : Type} (put : Z -> Out -> Out).

Lemma pad_to_loop_spec n fuel len fw o :
  0 <= len -> len <= fw < 2 ^ 15 -> n = Z.to_nat (fw - len) -> (n < fuel)%nat ->
  pad_to_loop put fuel len fw o = (emit put o (replicate n (chr " ")), s16 (len - 1)).
Proof using.
  intros Hl. revert fuel fw o. induction n as [|n IH]; intros fuel fw o Hfw Hn Hf; destruct fuel as [|fuel]; try lia; cbn [pad_to_loop].
  - assert (fw = len) as -> by lia. by rewrite Z.ltb_irrefl.
  - destruct (Z.ltb_spec len fw); [|lia]. rewrite s16_small by lia. rewrite IH by lia. done.
Qed.

Lemma pad_to_spec len fw o :
  0 <= len -> - 2 ^ 15 < fw < 2 ^ 15 ->
  pad_to put len fw o = (emit put o (replicate (Z.to_nat (fw - len)) (chr " ")), Z.min (fw - 1) (len - 1)).
Proof using.
  intros Hl Hfw. unfold pad_to. destruct (Z.leb_spec len fw).
  - rewrite (pad_to_loop_spec (Z.to_nat (fw - len))) by lia. rewrite s16_small by lia. f_equal. lia.
  - cbn [pad_to_loop]. destruct (Z.ltb_spec len fw); [lia|]. rewrite s16_small by lia. rewrite Z2Nat.nonpos by lia. cbn. f_equal. lia.
Qed.

Lemma string_at_spec o s spec :
  - 2 ^ 14 < field_width spec < 2 ^ 15 -> string_at put o s spec = emit put o (string_text s spec).
Proof using.
  intros Hw. unfold string_at, string_text. set (len := strnlen _ _). assert (0 <= len) as Hl.
  { unfold len, strnlen. pose proof (zlen_nonneg s). pose proof (u32_range (precision spec)). lia. }
  fold (emit put). destruct (has LEFT spec); cbn [negb].
  - rewrite pad_to_spec by lia. cbn [fst]. change (foldl _ o ?l) with (emit put o l). by rewrite emit_app.
  - rewrite pad_to_spec by lia. rewrite pad_to_spec by lia. cbn [fst]. rewrite (Z2Nat.nonpos (Z.min _ _ - _)) by lia. cbn [replicate].
    change (foldl _ ?o' ?l) with (emit put o' l). by rewrite !emit_app.
Qed.

End strings.

(** ** Resources *)

Lemma number_text_len num spec :
  zlen (number_text num spec) = Z.max (field_width spec) (zlen (sign_text num spec) + zlen (prefix_text spec) + zlen (digits_text num spec)).
Proof.
  unfold number_text. pose proof (zlen_nonneg (sign_text num spec)). pose proof (zlen_nonneg (prefix_text spec)). pose proof (zlen_nonneg (digits_text num spec)).
  repeat case_match; rewrite !zlen_app, zlen_replicate; lia.
Qed.

Lemma resource_number_len num spec :
  spec ∈ [io_spec; mem_spec; bus_spec; dec_spec; flag_spec] -> 0 <= num < 2 ^ 32 -> spec_ok spec /\ zlen (number_text num spec) <= 10.
Proof.
  intros Hs Hn. rewrite number_text_len. unfold digits_text. rewrite zlen_app, zlen_replicate.
  set (ds := reverse _). assert (has SIGN spec = false /\ precision spec = -1 /\ field_width spec <= 10 /\ 0 <= zlen (prefix_text spec) <= 2 /\
    (base spec = 16 \/ (base spec = 10 /\ zlen (prefix_text spec) = 0)) /\ spec_ok spec) as (E1 & E2 & E3 & E4 & E5 & E6).
  { repeat (apply elem_of_cons in Hs as [->|Hs]; [split; [done|]; split; [done|]; split; [done|]; split; [done|]; split; [auto|split; cbn; lia]|]). by apply elem_of_nil in Hs. }
  split; [done|]. assert (zlen ds = zlen (digits_of (base spec) num)) as Ed by (unfold ds, zlen; by rewrite E1, length_reverse, length_fmap).
  unfold sign_text. rewrite E1, E2, Ed. change (zlen []) with 0. pose proof (zlen_nonneg (digits_of (base spec) num)).
  destruct E5 as [-> | [-> ->]].
  - pose proof (digits_of_len 16 num 8 ltac:(lia) ltac:(cbn; lia) ltac:(lia)). lia.
  - pose proof (digits_of_len 10 num 10 ltac:(lia) ltac:(cbn; lia) ltac:(lia)). lia.
Qed.

(** The array holds at most [n] characters. *)
Definition holds_most (n : Z) (p : sink) : Prop := exists t, shows sym_size 0 ∅ [] t p /\ zlen t <= n.

Lemma shows_emit e buf m nr t s bs :
  0 <= buf -> buf + zlen (t ++ bs) < 2 ^ 32 -> shows e buf m nr t s -> shows e buf m nr (t ++ bs) (emit (sink_put e) s bs).
Proof.
  intros Hb. revert t s. induction bs as [|c bs IH]; intros t s Hl Hs; [by rewrite app_nil_r|]. rewrite cons_middle, app_assoc in *. cbn.
  apply IH; [done|]. apply shows_put; [done| |done]. rewrite zlen_app in Hl. pose proof (zlen_nonneg bs). lia.
Qed.

Lemma holds_text n s p : holds_most n p -> zlen s <= 10 -> n < 2 ^ 16 -> holds_most (n + zlen s) (string_at (sink_put sym_size) p s str_spec).
Proof.
  intros (t & Hs & Hn) Hl Hn16. rewrite string_at_spec by (cbn; lia).
  assert (string_text s str_spec = s) as ->.
  { unfold string_text, strnlen. change (has LEFT str_spec) with true. cbn [precision field_width str_spec]. change (u32 10) with 10.
    rewrite Z.min_l by lia. rewrite (Z2Nat.nonpos (-1 - zlen s)) by (pose proof (zlen_nonneg s); lia). cbn. rewrite app_nil_r. apply take_ge. unfold zlen. lia. }
  exists (t ++ s). rewrite zlen_app. split; [apply shows_emit; [done|rewrite zlen_app; lia|done]|lia].
Qed.

Lemma holds_number n num spec p :
  spec ∈ [io_spec; mem_spec; bus_spec; dec_spec; flag_spec] -> 0 <= num < 2 ^ 32 -> n < 2 ^ 16 -> holds_most n p ->
  holds_most (n + 10) (number (sink_put sym_size) p num spec).
Proof.
  intros Hs Hnum Hn16 (t & Ht & Hn). destruct (resource_number_len num spec Hs Hnum) as [Hok Hl].
  rewrite number_formats by (done || lia). exists (t ++ number_text num spec). rewrite zlen_app.
  split; [apply shows_emit; [done|rewrite zlen_app; lia|done]|lia].
Qed.

Lemma holds_store n c p : holds_most n p -> n < sym_size -> holds_most (n + 1) (store c p).
Proof.
  intros (t & Ht & Hn) Hs. assert (sym_size = 59) as E by done. exists (t ++ [c]). rewrite zlen_snoc. split; [|lia].
  assert (store c p = sink_put sym_size c p) as ->.
  { unfold store, sink_put. rewrite (sh_str _ _ _ _ _ _ Ht). destruct (Z.ltb_spec (0 + zlen t) sym_size); [done|lia]. }
  apply shows_put; [done|rewrite zlen_snoc; lia|done].
Qed.

Lemma holds_weaken n k p : holds_most n p -> n <= k -> holds_most k p.
Proof. intros (t & Ht & Hn) Hk. exists t. split; [done|lia]. Qed.

Section resource.
Context (res : resource) (fmt : list Z).
Context (Hstart : 0 <= r_start res < 2 ^ 32) (Hend : 0 <= r_end res < 2 ^ 32) (Hflags : 0 <= r_flags res < 2 ^ 32).

(** An optional word. *)
Lemma holds_word n (b : bool) w p :
  holds_most n p -> zlen w <= 10 -> n < 2 ^ 16 -> holds_most (n + zlen w) (if b then sym_text w p else p).
Proof using. intros. destruct b; [by apply holds_text|]. eapply holds_weaken; [done|]. pose proof (zlen_nonneg w). lia. Qed.

Lemma resource_kind_ok decode p :
  holds_most 1 p -> let k := resource_kind res decode p in
  holds_most 5 k.1.1 /\ k.1.2 ∈ [io_spec; mem_spec; bus_spec; dec_spec; flag_spec].
Proof using.
  intros H0. unfold resource_kind. repeat case_match; cbn [fst snd]; (split; [by apply (holds_text 1)|]); rewrite !elem_of_cons; auto 8.
Qed.

Lemma resource_range_ok specp p :
  specp ∈ [io_spec; mem_spec; bus_spec; dec_spec; flag_spec] -> holds_most 5 p -> holds_most 26 (resource_range res specp p).
Proof using Hstart Hend.
  intros Hs Hp. unfold resource_range. pose proof (holds_number 5 (r_start res) specp p Hs Hstart ltac:(lia) Hp) as H1.
  destruct (negb _); [|by eapply holds_weaken; [exact H1|]]. apply (holds_number 16); [done|done|done|]. by apply (holds_store 15).
Qed.

Lemma resource_words_ok decode p : holds_most 26 p -> holds_most 53 (resource_words res decode p).
Proof using Hflags.
  intros Hp. unfold resource_words. destruct decode.
  - apply (holds_word 44 (res_flag res IORESOURCE_DISABLED) (str " disabled")); [|done..].
    apply (holds_word 37 (res_flag res IORESOURCE_WINDOW) (str " window")); [|done..].
    apply (holds_word 32 (res_flag res IORESOURCE_PREFETCH) (str " pref")); [|done..].
    by apply (holds_word 26 (res_flag res IORESOURCE_MEM_64) (str " 64bit")).
  - apply holds_weaken with 43; [|done]. apply (holds_number 33); [|done|done|by apply (holds_word 26 true (str " flags "))].
    rewrite !elem_of_cons; auto 8.
Qed.

Lemma resource_sym_shape :
  exists p, holds_most 54 p /\ resource_sym res fmt = Sink (<[sstr p := 0]> (smem p)) (sstr p).
Proof using Hstart Hend Hflags.
  assert (holds_most 1 (store (chr "[") (Sink ∅ 0))) as H0.
  { apply (holds_store 0); [|done]. exists []. split; [apply shows_start|done]. }
  unfold resource_sym. destruct (resource_kind_ok (ch fmt =? chr "R") _ H0) as [Hp Hs].
  destruct (resource_kind _ _ _) as [[p specp] decode]. cbn [fst snd] in *.
  eexists. split; [|reflexivity]. apply (holds_store 53); [|done]. by apply resource_words_ok, resource_range_ok.
Qed.

(** No store outside of [sym]. *)
Lemma resource_sym_fits :
  sstr (resource_sym res fmt) < sym_size /\ forall a, is_Some (smem (resource_sym res fmt) !! a) -> 0 <= a < sym_size.
Proof using Hstart Hend Hflags.
  destruct resource_sym_shape as (p & (t & [H1 H2 H3] & Hl) & ->). assert (sym_size = 59) as E by done. pose proof (zlen_nonneg t). cbn [sstr smem].
  split; [lia|]. intros a [x Ha]. destruct (decide (a = sstr p)) as [->|Hne]; [lia|]. rewrite lookup_insert_ne in Ha by done.
  destruct (decide (0 <= a < sym_size)); [done|]. by rewrite H3 in Ha.
Qed.

End resource.

(** ** Claim *)

(** C34: No text is too long for its array.  The decoded resource, with its
    unchecked brackets and dash, stays in [sym]; hardware addresses, IPv4 and
    IPv6 addresses in every notation, UUIDs and the digits of a number leave
    room for the terminator in the arrays of 18, 16, 46, 37 and 66 bytes. *)
Theorem stack_arrays_suffice res addr fmt num b locase :
  0 <= r_start res < 2 ^ 32 -> 0 <= r_end res < 2 ^ 32 -> 0 <= r_flags res < 2 ^ 32 -> bytes addr ->
  0 <= num < 2 ^ 64 -> b = 8 \/ b = 10 \/ b = 16 -> locase = 0 \/ locase = SMALL ->
  sstr (resource_sym res fmt) < sym_size /\ (forall a, is_Some (smem (resource_sym res fmt) !! a) -> 0 <= a < sym_size) /\
  zlen (mac_address addr fmt) <= 17 /\ zlen (ip4_addr addr fmt) <= 15 /\ zlen (ip6_addr addr fmt) <= 45 /\
  zlen (uuid_text addr fmt) = 36 /\ zlen (number_digits num b locase) <= 66.
Proof.
  intros Hs He Hf Ha Hn Hb Hl. destruct (resource_sym_fits res fmt Hs He Hf) as [H1 H2]. split_and!; try done.
  - apply mac_address_len.
  - by apply (ip4_string_len []).
  - by apply ip6_addr_len.
  - apply uuid_text_len.
  - rewrite number_digits_spec by done. unfold zlen. rewrite length_fmap. pose proof (to_digits_length 64 b num ltac:(lia)). unfold digits_of. lia.
Qed.

Definition ex_resource : resource := Resource 0xfffffffe 0xffffffff 0x10302200.

Lemma stack_arrays_suffice_witness :
  cstr_at 59 (smem (resource_sym ex_resource (str "R"))) 0 = str "[mem 0xfffffffe-0xffffffff 64bit pref window disabled]" /\
  sstr (resource_sym ex_resource (str "R")) < sym_size /\ zlen (ip6_addr (replicate 16 255) (str "I6c")) <= 45.
Proof.
  split; [by vm_compute|].
  destruct (stack_arrays_suffice ex_resource (replicate 16 255) (str "R") 0 10 0) as (H1 & _); [cbn; lia|cbn; lia|cbn; lia|by apply Forall_replicate|lia|auto|auto|].
  destruct (stack_arrays_suffice ex_resource (replicate 16 255) (str "I6c") 0 10 0) as (_ & _ & _ & _ & H5 & _); [cbn; lia|cbn; lia|cbn; lia|by apply Forall_replicate|lia|auto|auto|].
  split; [exact H1|exact H5].
Defined.
