(* ===== verification/VsprintfRoundTrip.v ===== *)
(** * Formatted output and strict conversion

    What the conversions of integers print, the functions of lib/kstrtox.c read
    back. *)

From stdpp Require Import base numbers list gmap strings.
From S2P Require Import Prelude CType Kstrtox Vsprintf VsprintfNumber.

Open Scope Z_scope.

(** ** Digits *)

Lemma glyph_cases locase d (P : Z -> Z -> Prop) :
  locase = 0 \/ locase = SMALL -> 0 <= d < 16 ->
  (forall d, d ∈ seqZ 0 16 -> P (glyph 0 d) d /\ P (glyph SMALL d) d) -> P (glyph locase d) d.
Proof. intros [->| ->] Hd H; apply H; by apply elem_of_seqZ. Qed.

Lemma glyph_digit locase d :
  locase = 0 \/ locase = SMALL -> 0 <= d < 16 ->
  digit_of (glyph locase d) = Some d /\ isxdigit (glyph locase d) = true /\ _tolower (glyph locase d) <> chr "x" /\
  glyph locase d <> 0 /\ glyph locase d <> chr "-" /\ glyph locase d <> chr "+".
Proof.
  intros Hl Hd. apply (glyph_cases locase d (fun g d => digit_of g = Some d /\ isxdigit g = true /\ _tolower g <> chr "x" /\
    g <> 0 /\ g <> chr "-" /\ g <> chr "+")); [done|done|].
  intros k Hk. change (seqZ 0 16) with [0; 1; 2; 3; 4; 5; 6; 7; 8; 9; 10; 11; 12; 13; 14; 15] in Hk.
  repeat (apply elem_of_cons in Hk as [->|Hk]; [by vm_compute|]). by apply elem_of_nil in Hk.
Qed.

Section glyphs.
Context (locase : Z) (Hl : locase = 0 \/ locase = SMALL) (b : Z) (Hb : 2 <= b <= 16).

Lemma digits_at_glyphs ds : Forall (fun d => 0 <= d < b) ds -> digits_at b (glyph locase <$> ds) = (ds, []).
Proof using Hl Hb.
  induction 1 as [|d ds Hd H IH]; [done|]. cbn. destruct (glyph_digit locase d Hl ltac:(lia)) as [-> _].
  destruct (Z.ltb_spec d b); [|lia]. by rewrite IH.
Qed.

Lemma value_to_digits fuel n : (0 < fuel)%nat -> 0 <= n < b ^ Z.of_nat fuel -> value b (reverse (to_digits fuel b n)) = n.
Proof using Hb.
  revert n. induction fuel as [|fuel IH]; intros n Hf Hn; [lia|]. cbn [to_digits]. destruct (Z.ltb_spec n b); [done|].
  rewrite reverse_cons. unfold value in *. rewrite value_from_app. rewrite Nat2Z.inj_succ, Z.pow_succ_r in Hn by lia.
  assert (1 <= n / b) by (apply Z.div_le_lower_bound; lia). assert (n / b < b ^ Z.of_nat fuel) by (apply Z.div_lt_upper_bound; lia).
  destruct fuel as [|fuel]; [cbn in *; lia|]. rewrite IH by lia. cbn. pose proof (Z.div_mod n b ltac:(lia)). lia.
Qed.

(** The digits of [n], highest first. *)
Definition shown (n : Z) : list Z := reverse (glyph locase <$> digits_of b n).

Context (n : Z) (Hn : 0 <= n < 2 ^ 64).

Lemma fits_64 : n < b ^ 64.
Proof using Hb Hn. assert (2 ^ 64 <= b ^ 64) by (apply Z.pow_le_mono_l; lia). lia. Qed.

Lemma digits_of_range : Forall (fun d => 0 <= d < b) (digits_of b n).
Proof using Hb Hn. apply Forall_forall. intros d Hd. eapply to_digits_range; [lia| |exact Hd]. lia. Qed.

Lemma shown_eq : shown n = glyph locase <$> reverse (digits_of b n).
Proof using. unfold shown. by rewrite fmap_reverse. Qed.

Lemma shown_char c : c ∈ shown n -> exists d, 0 <= d < b /\ c = glyph locase d.
Proof using Hb Hn.
  rewrite shown_eq. intros Hc. apply list_elem_of_fmap in Hc as (d & -> & Hd). exists d. split; [|done].
  rewrite elem_of_reverse in Hd. exact (proj1 (Forall_forall _ _) digits_of_range d Hd).
Qed.

Lemma shown_cons : exists d s, shown n = glyph locase d :: s /\ 0 <= d < b.
Proof using Hb Hn.
  destruct (shown n) as [|c s] eqn:E.
  - pose proof (to_digits_length 64 b n ltac:(lia)) as H. assert (length (shown n) = 0)%nat as E0 by (by rewrite E).
    unfold shown in E0. rewrite length_reverse, length_fmap in E0. unfold digits_of in E0. lia.
  - destruct (shown_char c) as (d & Hd & ->); [rewrite E; by left|]. by exists d, s.
Qed.

Lemma shown_no_nul : Forall (fun c => c <> 0) (shown n).
Proof using Hl Hb Hn. apply Forall_forall. intros c Hc. apply shown_char in Hc as (d & Hd & ->). by apply glyph_digit; [|lia]. Qed.

Lemma shown_digits : digits_at b (shown n) = (reverse (digits_of b n), []) /\ value b (reverse (digits_of b n)) = n.
Proof using Hl Hb Hn.
  split; [rewrite shown_eq; apply digits_at_glyphs; apply Forall_reverse, digits_of_range|].
  apply value_to_digits; [lia|]. pose proof fits_64. change (Z.of_nat 64) with 64. lia.
Qed.

(** The second character is not the x of a prefix. *)
Lemma shown_second : (_tolower (ch (drop 1 (shown n))) =? chr "x") = false.
Proof using Hl Hb Hn.
  apply Z.eqb_neq. destruct shown_cons as (d & s & E & Hd). rewrite E. cbn [drop]. destruct s as [|c s]; [done|]. cbn [ch].
  destruct (shown_char c) as (d' & Hd' & ->); [rewrite E; right; by left|]. by apply glyph_digit; [|lia].
Qed.

(** Digits behind a radix prefix that was cut off. *)
Lemma number_of_body s base :
  auto_base s base = b -> body s b = shown n -> unsigned_number s base = inr n.
Proof using Hl Hb Hn.
  intros Ea Eb. unfold unsigned_number. rewrite Ea, Eb. destruct shown_digits as [-> ->]. destruct (Z.leb_spec (2 ^ 64) n); [lia|].
  rewrite bool_decide_true, bool_decide_true; [done|by left|]. intros E. pose proof (to_digits_length 64 b n ltac:(lia)) as Hlen.
  apply (f_equal length) in E. rewrite length_reverse in E. unfold digits_of in E. change (length (@nil Z)) with 0%nat in E. lia.
Qed.

Lemma body_shown : body (shown n) b = shown n.
Proof using Hl Hb Hn. unfold body. by rewrite shown_second, andb_false_r. Qed.

Lemma unsigned_shown : unsigned_number (shown n) b = inr n.
Proof using Hl Hb Hn. apply number_of_body; [|apply body_shown]. unfold auto_base. by destruct (Z.eqb_spec b 0); [lia|]. Qed.

Lemma shown_sign : (ch (shown n) =? chr "-") = false /\ (ch (shown n) =? chr "+") = false.
Proof using Hl Hb Hn.
  destruct shown_cons as (d & s & -> & Hd). cbn [ch]. destruct (glyph_digit locase d Hl ltac:(lia)) as (_ & _ & _ & _ & H1 & H2).
  split; by apply Z.eqb_neq.
Qed.

End glyphs.

(** ** Numbers as they are printed *)

Definition tput (c : Z) (o : list Z) : list Z := o ++ [c].

Lemma emit_list o t : emit tput o t = o ++ t.
Proof. revert o. induction t as [|c t IH]; intros o; [cbn; by rewrite app_nil_r|]. change (emit tput o (c :: t)) with (emit tput (tput c o) t). rewrite IH. unfold tput. by rewrite <- app_assoc. Qed.

(** A conversion without width and precision. *)
Definition simple_spec (t : format_type) (fl b q : Z) : printf_spec := PrintfSpec t fl b q (-1) (-1).

Lemma simple_text num t fl b q :
  b = 8 \/ b = 10 \/ b = 16 -> 0 <= num < 2 ^ 64 -> has LEFT (simple_spec t fl b q) = false -> has ZEROPAD (simple_spec t fl b q) = false ->
  number tput [] num (simple_spec t fl b q) =
  let spec := simple_spec t fl b q in
  sign_text num spec ++ prefix_text spec ++ shown (Z.land fl SMALL) b (if has SIGN spec then Z.abs (s64 num) else num).
Proof.
  intros Hb Hn Hleft Hzero. rewrite number_formats by (try split; cbn; try done; lia). rewrite emit_list. cbn [app].
  unfold number_text. rewrite Hleft, Hzero. unfold digits_text, shown. cbn [precision field_width base flags simple_spec].
  set (ds := reverse _). pose proof (zlen_nonneg ds). rewrite (Z2Nat.nonpos (-1 - zlen ds)) by lia. cbn [replicate app].
  rewrite Z2Nat.nonpos; [|pose proof (zlen_nonneg (sign_text num (simple_spec t fl b q) ++ prefix_text (simple_spec t fl b q))); lia].
  cbn [replicate app]. by rewrite app_assoc.
Qed.

(** Reading back what was printed with a sign. *)
Lemma signed_shown b v :
  b = 10 -> - 2 ^ 63 <= v < 2 ^ 63 ->
  let t := (if v <? 0 then str "-" else []) ++ shown 0 b (Z.abs v) in
  signed_string t b = inr v /\ Forall (fun c => c <> 0) t.
Proof.
  intros -> Hv t. assert (0 <= Z.abs v < 2 ^ 64) as Ha by lia. pose proof (unsigned_shown 0 (or_introl eq_refl) 10 ltac:(lia) _ Ha) as Hu.
  pose proof (shown_no_nul 0 (or_introl eq_refl) 10 ltac:(lia) _ Ha) as Hz. destruct (shown_sign 0 (or_introl eq_refl) 10 ltac:(lia) _ Ha) as [E1 E2].
  unfold t. destruct (Z.ltb_spec v 0).
  - split; [|by constructor]. unfold signed_string. cbn [str]. change (ch (str "-" ++ shown 0 10 (Z.abs v)) =? chr "-") with true. cbn iota.
    change (drop 1 (str "-" ++ shown 0 10 (Z.abs v))) with (shown 0 10 (Z.abs v)). rewrite Hu. unfold in_range.
    destruct (Z.leb_spec (- 2 ^ 63) (- Z.abs v)), (Z.leb_spec (- Z.abs v) (-1)); try lia. cbn. f_equal. lia.
  - cbn [app]. split; [|done]. unfold signed_string, unsigned_string. rewrite E1, E2, Hu. unfold in_range.
    destruct (Z.leb_spec 0 (Z.abs v)), (Z.leb_spec (Z.abs v) (2 ^ 63 - 1)); try lia. cbn. f_equal. lia.
Qed.

Lemma unsigned_shown_string n :
  0 <= n < 2 ^ 64 -> unsigned_string (shown 0 10 n) 10 = inr n /\ Forall (fun c => c <> 0) (shown 0 10 n).
Proof.
  intros Hn. pose proof (shown_sign 0 (or_introl eq_refl) 10 ltac:(lia) n Hn) as [_ E]. unfold unsigned_string. rewrite E.
  split; [by apply unsigned_shown; [left|lia|]|by apply shown_no_nul; [left|lia|]].
Qed.

Lemma hex_string n :
  0 <= n < 2 ^ 64 -> let t := str "0x" ++ shown SMALL 16 n in unsigned_string t 0 = inr n /\ Forall (fun c => c <> 0) t.
Proof.
  intros Hn t. destruct (shown_cons SMALL 16 ltac:(lia) n Hn) as (d & s & E & Hd).
  destruct (glyph_digit SMALL d (or_intror eq_refl) Hd) as (_ & Hx & _). split.
  - change (unsigned_string t 0) with (unsigned_number t 0). apply (number_of_body SMALL (or_intror eq_refl) 16 ltac:(lia) n Hn); [|done].
    unfold t. rewrite E. unfold auto_base. cbn [app str String.list_ascii_of_string fmap list_fmap ch drop]. by rewrite Hx.
  - unfold t. apply Forall_app. split; [by repeat constructor|]. by apply shown_no_nul; [right|lia|].
Qed.

Lemma octal_string n :
  0 <= n < 2 ^ 64 -> let t := str "0" ++ shown 0 8 n in unsigned_string t 0 = inr n /\ Forall (fun c => c <> 0) t.
Proof.
  intros Hn t. destruct (shown_cons 0 8 ltac:(lia) n Hn) as (d & s & E & Hd).
  destruct (glyph_digit 0 d (or_introl eq_refl) ltac:(lia)) as (Hdig & _ & Hx & _). split.
  - change (unsigned_string t 0) with (unsigned_number t 0). unfold unsigned_number.
    assert (auto_base t 0 = 8) as ->.
    { unfold t. rewrite E. unfold auto_base. cbn [app str String.list_ascii_of_string fmap list_fmap ch drop].
      apply Z.eqb_neq in Hx. by rewrite Hx. }
    assert (body t 8 = t) as -> by done. unfold t. cbn [app str String.list_ascii_of_string fmap list_fmap].
    change (digits_at 8 (chr "0" :: shown 0 8 n)) with (let '(ds, r) := digits_at 8 (shown 0 8 n) in (0 :: ds, r)).
    destruct (shown_digits 0 (or_introl eq_refl) 8 ltac:(lia) n Hn) as [-> Hv].
    assert (value 8 (0 :: reverse (digits_of 8 n)) = n) as -> by exact Hv. destruct (Z.leb_spec (2 ^ 64) n); [lia|].
    rewrite !bool_decide_true; [done|by left|done].
  - unfold t. apply Forall_app. split; [by repeat constructor|]. by apply shown_no_nul; [left|lia|].
Qed.

(** ** Claim *)

(** The text that one conversion gives. *)
Definition prints (env : printk_env) (fmt : list Z) (arg : va) (t : list Z) : Prop := formatted env fmt [arg] = Some (t, []).

Lemma s32_s64 x : s64 (u64 (s32 x)) = s32 x.
Proof. unfold s64, u64, s32. Z.to_euclidean_division_equations; lia. Qed.

Lemma signed_text num t q :
  0 <= num < 2 ^ 64 ->
  number tput [] num (simple_spec t SIGN 10 q) = (if s64 num <? 0 then str "-" else []) ++ shown 0 10 (Z.abs (s64 num)).
Proof. intros Hn. rewrite simple_text by (auto || done). reflexivity. Qed.

Lemma unsigned_text num t q : 0 <= num < 2 ^ 64 -> number tput [] num (simple_spec t 0 10 q) = shown 0 10 num.
Proof. intros Hn. rewrite simple_text by (auto || done). reflexivity. Qed.

Lemma prints_signed env fmt arg num t q v :
  prints env fmt arg (number tput [] num (simple_spec t SIGN 10 q)) -> 0 <= num < 2 ^ 64 -> s64 num = v ->
  exists s, prints env fmt arg s /\ signed_string s 10 = inr v /\ Forall (fun c => c <> 0) s.
Proof.
  intros Hp Hn Hv. rewrite signed_text, Hv in Hp by done. eexists. split; [exact Hp|]. apply signed_shown; [done|].
  rewrite <- Hv. unfold s64. pose proof (Z.mod_pos_bound (num + 2 ^ 63) (2 ^ 64) ltac:(lia)). lia.
Qed.

Lemma prints_unsigned env fmt arg num t q :
  prints env fmt arg (number tput [] num (simple_spec t 0 10 q)) -> 0 <= num < 2 ^ 64 ->
  exists s, prints env fmt arg s /\ unsigned_string s 10 = inr num /\ Forall (fun c => c <> 0) s.
Proof. intros Hp Hn. rewrite unsigned_text in Hp by done. eexists. split; [exact Hp|]. by apply unsigned_shown_string. Qed.

(** C33: Printed numbers are read back.  What %d, %u, %#x, %#o, %lld and %llu
    print, for every argument, the strict conversions of the same type accept,
    and they return the argument; the prefix tells the radix. *)
Theorem printed_numbers_read_back env x y :
  (exists t, prints env (str "%d") (VInt x) t /\ kstrtoint t 10 = inr (s32 x)) /\
  (exists t, prints env (str "%u") (VInt x) t /\ kstrtouint t 10 = inr (u32 x)) /\
  (exists t, prints env (str "%#x") (VInt x) t /\ kstrtouint t 0 = inr (u32 x)) /\
  (exists t, prints env (str "%#o") (VInt x) t /\ kstrtouint t 0 = inr (u32 x)) /\
  (exists t, prints env (str "%lld") (VLongLong y) t /\ kstrtoll t 10 = inr (s64 y)) /\
  (exists t, prints env (str "%llu") (VLongLong y) t /\ kstrtoull t 10 = inr (u64 y)).
Proof.
  pose proof (u32_range x) as Hx. pose proof (u64_range y) as Hy.
  assert (forall t b, 0 <= b < 2 ^ 32 -> Forall (fun c => c <> 0) t -> unsigned_string t b = inr (u32 x) -> kstrtouint t b = inr (u32 x)) as Hu.
  { intros t b Hb Ht E. unfold kstrtouint. rewrite kstrtoull_spec, E by done. unfold cast. rewrite (u32_small (u32 x)) by done. by rewrite Z.eqb_refl. }
  split_and!.
  - destruct (prints_signed env (str "%d") (VInt x) (u64 (s32 x)) FORMAT_TYPE_INT 255 (s32 x)) as (t & H1 & H2 & H3); [reflexivity|apply u64_range|apply s32_s64|].
    exists t. split; [done|]. unfold kstrtoint. rewrite kstrtoll_spec, H2 by (done || lia). unfold cast.
    assert (s32 (s32 x) = s32 x) as -> by (unfold s32; Z.to_euclidean_division_equations; lia). by rewrite Z.eqb_refl.
  - destruct (prints_unsigned env (str "%u") (VInt x) (u32 x) FORMAT_TYPE_UINT 255) as (t & H1 & H2 & H3); [reflexivity|lia|].
    exists t. split; [done|]. apply Hu; [lia|done|done].
  - destruct (hex_string (u32 x) ltac:(lia)) as [H2 H3]. eexists. split; [|apply (Hu _ 0); [lia|exact H3|exact H2]].
    transitivity (Some (number tput [] (u32 x) (simple_spec FORMAT_TYPE_UINT (Z.lor SPECIAL SMALL) 16 255), @nil (Z * Z))); [reflexivity|].
    rewrite simple_text by (auto || done || lia). reflexivity.
  - destruct (octal_string (u32 x) ltac:(lia)) as [H2 H3]. eexists. split; [|apply (Hu _ 0); [lia|exact H3|exact H2]].
    transitivity (Some (number tput [] (u32 x) (simple_spec FORMAT_TYPE_UINT SPECIAL 8 255), @nil (Z * Z))); [reflexivity|].
    rewrite simple_text by (auto || done || lia). reflexivity.
  - destruct (prints_signed env (str "%lld") (VLongLong y) (u64 y) FORMAT_TYPE_LONG_LONG (chr "L") (s64 y)) as (t & H1 & H2 & H3);
      [reflexivity|done|unfold s64, u64; Z.to_euclidean_division_equations; lia|].
    exists t. split; [done|]. rewrite kstrtoll_spec by (done || lia). done.
  - destruct (prints_unsigned env (str "%llu") (VLongLong y) (u64 y) FORMAT_TYPE_LONG_LONG (chr "L")) as (t & H1 & H2 & H3); [reflexivity|lia|].
    exists t. split; [done|]. rewrite kstrtoull_spec by (done || lia). done.
Qed.
