(* ===== verification/Vsscanf.v ===== *)
(** * Formatted input (vsscanf of lib/vsprintf.c)

    The conversions deliver values in order; the variables that they are stored
    to are not modelled.  What [vsnprintf] prints is read back. *)

From stdpp Require Import base numbers list gmap strings.
From S2P Require Import Prelude CType Kstrtox Vsprintf VsprintfNumber VsprintfRoundTrip.

Open Scope Z_scope.

(** ** The code *)

(** What is stored: an integer of its type, characters, or a string with its
    terminator. *)
Inductive scanned := SInt (x : Z) | SChars (l : list Z) | SString (l : list Z).

(** [do { *s++ = *str++; } while (--field_width > 0 && *str)] *)
Fixpoint copy_chars (fuel : nat) (fw : Z) (s : list Z) : list Z * list Z :=
  match fuel with
  | O => ([], s)
  | S fuel =>
      let fw := s16 (fw - 1) in
      let rest := drop 1 s in
      if (0 <? fw) && negb (ch rest =? 0) then let '(l, r) := copy_chars fuel fw rest in (ch s :: l, r) else ([ch s], rest)
  end.

(** [while ( *str && !isspace( *str) && field_width--)] *)
Fixpoint copy_word (s : list Z) (fw : Z) : list Z * list Z :=
  match s with
  | c :: s' => if negb (isspace c) && negb (fw =? 0) then let '(l, r) := copy_word s' (s16 (fw - 1)) in (c :: l, r) else ([], s)
  | [] => ([], [])
  end.

Definition SHRT_MAX : Z := 32767.

(** The qualifier, 255 for none, and the rest of the format. *)
Definition scan_qualifier (fmt : list Z) : Z * list Z :=
  let c := ch fmt in
  if (c =? chr "h") || (TOLOWER c =? chr "l") || (TOLOWER c =? chr "z") then
    let fmt := drop 1 fmt in
    if c =? ch fmt then
      if c =? chr "h" then (chr "H", drop 1 fmt) else if c =? chr "l" then (chr "L", drop 1 fmt) else (c, fmt)
    else (c, fmt)
  else (255, fmt).

(** An integer conversion: base and sign, or none. *)
Definition scan_base (c : Z) : option (Z * bool) :=
  if c =? chr "o" then Some (8, false)
  else if (c =? chr "x") || (c =? chr "X") then Some (16, false)
  else if c =? chr "i" then Some (0, true)
  else if c =? chr "d" then Some (10, true)
  else if c =? chr "u" then Some (10, false)
  else None.

Definition bad_digit (base digit : Z) : bool :=
  (digit =? 0) || ((base =? 16) && negb (isxdigit digit)) || ((base =? 10) && negb (isdigit digit))
  || ((base =? 8) && (negb (isdigit digit) || (chr "7" <? digit))) || ((base =? 0) && negb (isdigit digit)).

(** The value as it is stored, and the rest of the input. *)
Definition scan_integer (qualifier base : Z) (is_sign : bool) (s : list Z) : Z * list Z :=
  let '(l, l_rest) := simple_strtol s base in
  let '(u, u_rest) := simple_strtoul s base in
  if qualifier =? chr "H" then if is_sign then (s8 l, l_rest) else (u8 u, u_rest)
  else if qualifier =? chr "h" then if is_sign then (s16 l, l_rest) else (u16 u, u_rest)
  else if qualifier =? chr "l" then if is_sign then (l, l_rest) else (u, u_rest)
  else if qualifier =? chr "L" then if is_sign then simple_strtoll s base else simple_strtoull s base
  else if (qualifier =? chr "Z") || (qualifier =? chr "z") then (u, u_rest)
  else if is_sign then (l, l_rest) else (u, u_rest).

(** [while (!isspace( *fmt) && *fmt != '%' && *fmt)], and the same of the input. *)
Fixpoint skip_conversion (fmt : list Z) : list Z :=
  match fmt with
  | c :: fmt' => if negb (isspace c) && negb (c =? chr "%") then skip_conversion fmt' else fmt
  | [] => []
  end.
Fixpoint skip_word (s : list Z) : list Z :=
  match s with
  | c :: s' => if negb (isspace c) then skip_word s' else s
  | [] => []
  end.

(** How a round ends: the loop goes on, it is left at a position of the input,
    or the function returns. *)
Inductive scan_round :=
  | Continue (fmt s : list Z) (num : Z) (out : list scanned)
  | Break (fmt : list Z) (pos num : Z) (out : list scanned)
  | Return (num : Z) (out : list scanned).

Section scan.
Context (len : Z).     (* the length of the input *)

(** The switch; [fmt] is behind the conversion character [c]. *)
Definition scan_switch (c : Z) (fmt s : list Z) (qualifier fw num : Z) (out : list scanned) : scan_round :=
  if c =? chr "c" then
    let fw := if fw =? -1 then 1 else fw in
    let '(l, r) := copy_chars (length s) fw s in Continue fmt r (num + 1) (out ++ [SChars l])
  else if c =? chr "s" then
    let fw := if fw =? -1 then SHRT_MAX else fw in
    let '(l, r) := copy_word (skip_space s) fw in Continue fmt r (num + 1) (out ++ [SString l])
  else if c =? chr "n" then Continue fmt s num (out ++ [SInt (len - zlen s)])
  else if c =? chr "%" then if negb (ch s =? chr "%") then Return num out else Continue fmt (drop 1 s) num out
  else
    match scan_base c with
    | None => Return num out
    | Some (base, is_sign) =>
        let s := skip_space s in
        let digit := if is_sign && (ch s =? chr "-") then ch (drop 1 s) else ch s in
        if bad_digit base digit then Break fmt (len - zlen s) num out
        else let '(v, r) := scan_integer qualifier base is_sign s in Continue fmt r (num + 1) (out ++ [SInt v])
    end.

Definition scan_round_of (fmt s : list Z) (num : Z) (out : list scanned) : scan_round :=
  let '(fmt, s) := if isspace (ch fmt) then (skip_space (drop 1 fmt), skip_space s) else (fmt, s) in
  if negb (ch fmt =? chr "%") && negb (ch fmt =? 0) then
    if negb (ch fmt =? ch s) then Break (drop 1 fmt) (len - zlen s + 1) num out else Continue (drop 1 fmt) (drop 1 s) num out
  else if ch fmt =? 0 then Break fmt (len - zlen s) num out
  else
    let fmt := drop 1 fmt in
    if ch fmt =? chr "*" then Continue (skip_conversion fmt) (skip_word s) num out
    else
      let '(fw, fmt) := if isdigit (ch fmt) then let '(n, fmt) := skip_atoi fmt in (s16 n, fmt) else (-1, fmt) in
      let '(qualifier, fmt) := scan_qualifier fmt in
      if (ch fmt =? 0) || (ch s =? 0) then Break fmt (len - zlen s) num out
      else scan_switch (ch fmt) (drop 1 fmt) s qualifier fw num out.

(** Behind the loop a %n is still served. *)
Definition scan_end (fmt : list Z) (pos num : Z) (out : list scanned) : Z * list scanned :=
  if (ch fmt =? chr "%") && (ch (drop 1 fmt) =? chr "n") then (num, out ++ [SInt pos]) else (num, out).

Fixpoint scan_loop (fuel : nat) (fmt s : list Z) (num : Z) (out : list scanned) : option (Z * list scanned) :=
  match fuel with
  | O => None
  | S fuel =>
      if negb (ch fmt =? 0) && negb (ch s =? 0) then
        match scan_round_of fmt s num out with
        | Continue fmt s num out => scan_loop fuel fmt s num out
        | Break fmt pos num out => Some (scan_end fmt pos num out)
        | Return num out => Some (num, out)
        end
      else Some (scan_end fmt (len - zlen s) num out)
  end.

End scan.

Definition vsscanf (buf fmt : list Z) : option (Z * list scanned) := scan_loop (zlen buf) (S (length fmt)) fmt buf 0 [].
Definition sscanf := vsscanf.

(** ** Rounds *)

Lemma skip_space_len s : (length (skip_space s) <= length s)%nat.
Proof. induction s as [|c s IH]; cbn; [lia|]. destruct (isspace c); cbn; lia. Qed.

Lemma skip_conversion_len s : (length (skip_conversion s) <= length s)%nat.
Proof. induction s as [|c s IH]; cbn; [lia|]. destruct (_ && _); cbn; lia. Qed.

Lemma ch_length s : ch s <> 0 -> (0 < length s)%nat.
Proof. destruct s; cbn; [done|lia]. Qed.

Lemma scan_switch_fmt len c fmt s q fw num out fmt' s' num' out' :
  scan_switch len c fmt s q fw num out = Continue fmt' s' num' out' -> fmt' = fmt.
Proof. unfold scan_switch. intros H. repeat (case_match; simplify_eq; try done). Qed.

(** A round takes a character of the format. *)
Lemma scan_round_len len fmt s num out fmt' s' num' out' :
  ch fmt <> 0 -> scan_round_of len fmt s num out = Continue fmt' s' num' out' -> (length fmt' < length fmt)%nat.
Proof.
  intros Hch. pose proof (ch_length fmt Hch) as Hl. unfold scan_round_of.
  destruct (if isspace (ch fmt) then _ else _) as [fmt1 s1] eqn:E1.
  assert (length fmt1 <= length fmt)%nat as H1.
  { case_match; simplify_eq; [|lia]. pose proof (skip_space_len (drop 1 fmt)). rewrite length_drop in *. lia. }
  destruct (negb (ch fmt1 =? chr "%") && negb (ch fmt1 =? 0)) eqn:E2.
  - apply andb_true_iff in E2 as [_ E2]. assert (0 < length fmt1)%nat by (apply ch_length; by destruct (Z.eqb_spec (ch fmt1) 0)).
    destruct (negb (ch fmt1 =? ch s1)); [discriminate|]. intros [= <- _ _ _]. rewrite length_drop. lia.
  - destruct (Z.eqb_spec (ch fmt1) 0) as [|Hne]; [discriminate|]. pose proof (ch_length fmt1 Hne).
    destruct (ch (drop 1 fmt1) =? chr "*").
    + intros [= <- _ _ _]. pose proof (skip_conversion_len (drop 1 fmt1)). rewrite length_drop in *. lia.
    + assert (length (atoi_loop (drop 1 fmt1) 0).2 <= length (drop 1 fmt1))%nat as Ha.
      { generalize 0 at 1. generalize (drop 1 fmt1). intros l. induction l as [|c l IH]; intros i; cbn; [lia|].
        destruct (isdigit c); cbn; [|lia]. specialize (IH (s32 (i * 10 + c - 48))). lia. }
      destruct (if isdigit _ then _ else _) as [fw fmt2] eqn:E3. assert (length fmt2 <= length (drop 1 fmt1))%nat as H2.
      { destruct (isdigit _); [|by simplify_eq]. unfold skip_atoi in E3. destruct (atoi_loop _ _). cbn in Ha. by simplify_eq. }
      destruct (scan_qualifier fmt2) as [q fmt3] eqn:E4. assert (length fmt3 <= length fmt2)%nat as H3.
      { unfold scan_qualifier in E4. repeat (case_match; simplify_eq); rewrite ?length_drop; lia. }
      destruct (_ || _) eqn:E5; [discriminate|]. apply orb_false_iff in E5 as [E5 _]. apply Z.eqb_neq, ch_length in E5.
      intros H'. apply scan_switch_fmt in H'. subst. rewrite length_drop in *. lia.
Qed.

Lemma scan_loop_total len fuel fmt s num out : (length fmt < fuel)%nat -> is_Some (scan_loop len fuel fmt s num out).
Proof.
  revert fmt s num out. induction fuel as [|fuel IH]; intros fmt s num out Hf; [lia|]. cbn [scan_loop].
  destruct (negb (ch fmt =? 0) && _) eqn:E; [|by eexists]. apply andb_true_iff in E as [E _]. apply negb_true_iff, Z.eqb_neq in E.
  destruct (scan_round_of _ _ _ _ _) as [f s' n o| |] eqn:Er; try by eexists. apply IH.
  pose proof (scan_round_len _ _ _ _ _ _ _ _ _ E Er). lia.
Qed.

(** ** Reading printed numbers *)

Lemma glyph_value locase d :
  locase = 0 \/ locase = SMALL -> 0 <= d < 16 ->
  isxdigit (glyph locase d) = true /\ (if isdigit (glyph locase d) then glyph locase d - 48 else TOLOWER (glyph locase d) - 97 + 10) = d /\
  isspace (glyph locase d) = false /\ glyph locase d <> 0 /\ (d < 10 -> isdigit (glyph locase d) = true).
Proof.
  intros Hl Hd. apply (glyph_cases locase d (fun g d => isxdigit g = true /\ (if isdigit g then g - 48 else TOLOWER g - 97 + 10) = d /\
    isspace g = false /\ g <> 0 /\ (d < 10 -> isdigit g = true))); [done|done|].
  intros k Hk. change (seqZ 0 16) with [0; 1; 2; 3; 4; 5; 6; 7; 8; 9; 10; 11; 12; 13; 14; 15] in Hk.
  repeat (apply elem_of_cons in Hk as [->|Hk]; [by vm_compute|]). by apply elem_of_nil in Hk.
Qed.

Section read.
Context (locase : Z) (Hl : locase = 0 \/ locase = SMALL) (b : Z) (Hb : 2 <= b <= 16) (n : Z) (Hn : 0 <= n < 2 ^ 64).

Lemma strtoull_loop_glyphs ds acc :
  Forall (fun d => 0 <= d < b) ds -> 0 <= acc -> value_from b acc ds < 2 ^ 64 ->
  strtoull_loop b (glyph locase <$> ds) acc = (value_from b acc ds, []).
Proof using Hl Hb.
  intros Hds. revert acc. induction Hds as [|d ds Hd Hds IH]; intros acc Ha Hv; [done|]. cbn [fmap list_fmap strtoull_loop].
  destruct (glyph_value locase d Hl ltac:(lia)) as (-> & -> & _). destruct (Z.leb_spec b d); [lia|]. unfold value_from in Hv. cbn [foldl] in Hv.
  fold (value_from b (acc * b + d) ds) in Hv. pose proof (value_from_ge b (acc * b + d) ds ltac:(lia) ltac:(nia) Hds).
  rewrite Z.mod_small by nia. rewrite IH by (done || nia). done.
Qed.

Lemma strtoull_shown : simple_strtoull (shown locase b n) b = (n, []).
Proof using Hl Hb Hn.
  unfold simple_strtoull. destruct (Z.eqb_spec b 0); [lia|]. pose proof (shown_second locase Hl b Hb n Hn) as E.
  unfold _tolower in E. unfold TOLOWER. change 120 with (chr "x"). rewrite E, andb_false_r.
  rewrite shown_eq. destruct (shown_digits locase Hl b Hb n Hn) as [_ Hv]. unfold value in Hv.
  rewrite strtoull_loop_glyphs; [by rewrite Hv|by apply Forall_reverse, digits_of_range|done|rewrite Hv; lia].
Qed.

Lemma shown_start : exists c s, shown locase b n = c :: s /\ isspace c = false /\ c <> 0 /\ c <> chr "-" /\ isxdigit c = true /\ (b <= 10 -> isdigit c = true).
Proof using Hl Hb Hn.
  destruct (shown_cons locase b Hb n Hn) as (d & s & E & Hd). exists (glyph locase d), s.
  destruct (glyph_value locase d Hl ltac:(lia)) as (Hx & _ & Hs & H0 & Hdig). destruct (glyph_digit locase d Hl ltac:(lia)) as (_ & _ & _ & _ & Hm & _).
  split; [done|]. split; [done|]. split; [done|]. split; [done|]. split; [done|]. intros. apply Hdig. lia.
Qed.

End read.

Lemma strtoll_shown v :
  - 2 ^ 63 <= v < 2 ^ 63 -> simple_strtoll ((if v <? 0 then str "-" else []) ++ shown 0 10 (Z.abs v)) 10 = (v, []).
Proof.
  intros Hv. pose proof (strtoull_shown 0 (or_introl eq_refl) 10 ltac:(lia) (Z.abs v) ltac:(lia)) as E.
  destruct (shown_start 0 (or_introl eq_refl) 10 ltac:(lia) (Z.abs v) ltac:(lia)) as (c & s & Es & _ & _ & Hc & _).
  unfold simple_strtoll. destruct (Z.ltb_spec v 0).
  - change (ch (str "-" ++ shown 0 10 (Z.abs v)) =? chr "-") with true. change (drop 1 (str "-" ++ shown 0 10 (Z.abs v))) with (shown 0 10 (Z.abs v)).
    cbn iota. rewrite E. f_equal. rewrite s64_small by lia. lia.
  - cbn [app]. rewrite E, Es. cbn [ch]. apply Z.eqb_neq in Hc. rewrite Hc. f_equal. rewrite s64_small by lia. lia.
Qed.

Lemma strtol_shown v :
  - 2 ^ 31 <= v < 2 ^ 31 -> simple_strtol ((if v <? 0 then str "-" else []) ++ shown 0 10 (Z.abs v)) 10 = (v, []).
Proof.
  intros Hv. pose proof (strtoull_shown 0 (or_introl eq_refl) 10 ltac:(lia) (Z.abs v) ltac:(lia)) as E.
  destruct (shown_start 0 (or_introl eq_refl) 10 ltac:(lia) (Z.abs v) ltac:(lia)) as (c & s & Es & _ & _ & Hc & _).
  unfold simple_strtol, simple_strtoul. destruct (Z.ltb_spec v 0).
  - change (ch (str "-" ++ shown 0 10 (Z.abs v)) =? chr "-") with true. change (drop 1 (str "-" ++ shown 0 10 (Z.abs v))) with (shown 0 10 (Z.abs v)).
    cbn iota. rewrite E, u32_small by lia. f_equal. unfold s32. rewrite Z.mod_small; lia.
  - cbn [app]. rewrite E, Es. cbn [ch]. apply Z.eqb_neq in Hc. rewrite Hc, u32_small by lia. f_equal. unfold s32. rewrite Z.mod_small; lia.
Qed.

Lemma skip_space_start s : isspace (ch s) = false -> skip_space s = s.
Proof. destruct s as [|c s]; [done|]. cbn. by intros ->. Qed.

(** A format of one integer conversion. *)
Lemma scan_one fmt c q base sign s v :
  (forall len, ch s <> 0 -> scan_round_of len fmt s 0 [] = scan_switch len c [] s q (-1) 0 []) ->
  (forall len fmt, scan_switch len c fmt s q (-1) 0 [] =
    let s := skip_space s in
    let digit := if sign && (ch s =? chr "-") then ch (drop 1 s) else ch s in
    if bad_digit base digit then Break fmt (len - zlen s) 0 []
    else let '(v, r) := scan_integer q base sign s in Continue fmt r (0 + 1) ([] ++ [SInt v])) ->
  ch fmt <> 0 -> ch s <> 0 -> isspace (ch s) = false -> bad_digit base (if sign && (ch s =? chr "-") then ch (drop 1 s) else ch s) = false ->
  scan_integer q base sign s = (v, []) -> vsscanf s fmt = Some (1, [SInt v]).
Proof.
  intros Hr Hsw Hf Hs Hsp Hd Hi. unfold vsscanf. cbn [scan_loop]. destruct (Z.eqb_spec (ch fmt) 0); [done|]. destruct (Z.eqb_spec (ch s) 0); [done|].
  cbn [negb andb]. rewrite Hr, Hsw by done. cbn zeta. rewrite skip_space_start, Hd, Hi by done.
  pose proof (ch_length fmt Hf). destruct (length fmt) as [|k]; [lia|]. reflexivity.
Qed.

Lemma scan_signed fmt q s (Hq : q <> chr "h" /\ q <> chr "H") v :
  (forall len, ch s <> 0 -> scan_round_of len fmt s 0 [] = scan_switch len (chr "d") [] s q (-1) 0 []) -> ch fmt <> 0 ->
  s = (if v <? 0 then str "-" else []) ++ shown 0 10 (Z.abs v) -> - 2 ^ 63 <= v < 2 ^ 63 -> scan_integer q 10 true s = (v, []) ->
  vsscanf s fmt = Some (1, [SInt v]).
Proof.
  intros Hr Hf Es Hv Hi. destruct (shown_start 0 (or_introl eq_refl) 10 ltac:(lia) (Z.abs v) ltac:(lia)) as (c & s' & Ec & Hsp & H0 & Hm & _ & Hdig).
  specialize (Hdig ltac:(lia)). assert (bad_digit 10 c = false) as Hb by (unfold bad_digit; apply Z.eqb_neq in H0; by rewrite H0, Hdig).
  rewrite Ec in Es. apply (scan_one fmt (chr "d") q 10 true); [done|reflexivity|done| | | |done]; rewrite Es; destruct (v <? 0); cbn; try done.
  by destruct (Z.eqb_spec c (chr "-")).
Qed.

Lemma scan_unsigned fmt c q base locase n v :
  (forall len s, ch s <> 0 -> scan_round_of len fmt s 0 [] = scan_switch len c [] s q (-1) 0 []) -> ch fmt <> 0 ->
  (c = chr "u" /\ base = 10) \/ (c = chr "x" /\ base = 16) -> locase = 0 \/ locase = SMALL -> 0 <= n < 2 ^ 64 ->
  scan_integer q base false (shown locase base n) = (v, []) -> vsscanf (shown locase base n) fmt = Some (1, [SInt v]).
Proof.
  intros Hr Hf Hc Hl Hn Hi. assert (2 <= base <= 16) as Hb by (destruct Hc as [[_ ->]|[_ ->]]; lia).
  destruct (shown_start locase Hl base Hb n Hn) as (g & s' & Ec & Hsp & H0 & _ & Hx & Hdig).
  apply (scan_one fmt c q base false); [by intros; apply Hr| |done|by rewrite Ec|by rewrite Ec| |done].
  - destruct Hc as [[-> ->]|[-> ->]]; reflexivity.
  - rewrite Ec. cbn [andb ch]. unfold bad_digit. apply Z.eqb_neq in H0. rewrite H0, Hx.
    destruct Hc as [[_ ->]|[_ ->]]; [rewrite Hdig by lia|]; reflexivity.
Qed.

(** The round of a format that is one conversion. *)
Ltac one_conversion :=
  intros;
  match goal with
  | H : ch ?s <> 0 |- _ = ?r =>
      etransitivity; [refine (_ : _ = if ch s =? 0 then _ else r); reflexivity|]; by destruct (Z.eqb_spec (ch s) 0)
  end.

(** Input is total and reads printed numbers.  [vsscanf] ends for every
    input and format; with the conversions %d, %u, %x, %lld and %llu it reads
    back every number that [vsnprintf] prints with them. *)
Theorem scan_reads_printed env x y :
  (forall buf fmt, is_Some (vsscanf buf fmt)) /\
  (exists t, prints env (str "%d") (VInt x) t /\ vsscanf t (str "%d") = Some (1, [SInt (s32 x)])) /\
  (exists t, prints env (str "%u") (VInt x) t /\ vsscanf t (str "%u") = Some (1, [SInt (u32 x)])) /\
  (exists t, prints env (str "%x") (VInt x) t /\ vsscanf t (str "%x") = Some (1, [SInt (u32 x)])) /\
  (exists t, prints env (str "%lld") (VLongLong y) t /\ vsscanf t (str "%lld") = Some (1, [SInt (s64 y)])) /\
  (exists t, prints env (str "%llu") (VLongLong y) t /\ vsscanf t (str "%llu") = Some (1, [SInt (u64 y)])).
Proof.
  pose proof (u32_range x) as Hx. pose proof (u64_range y) as Hy.
  assert (- 2 ^ 31 <= s32 x < 2 ^ 31) as Hs by (unfold s32; pose proof (Z.mod_pos_bound (x + 2 ^ 31) (2 ^ 32) ltac:(lia)); lia).
  assert (- 2 ^ 63 <= s64 y < 2 ^ 63) as Hs' by (unfold s64; pose proof (Z.mod_pos_bound (y + 2 ^ 63) (2 ^ 64) ltac:(lia)); lia).
  split; [intros; apply scan_loop_total; lia|]. split_and!.
  - eexists. split; [transitivity (Some (number tput [] (u64 (s32 x)) (simple_spec FORMAT_TYPE_INT SIGN 10 255), @nil (Z * Z)));
      [reflexivity|rewrite signed_text, s32_s64 by apply u64_range; reflexivity]|].
    apply (scan_signed _ 255); [done|one_conversion|done|done|lia|]. unfold scan_integer. rewrite strtol_shown by done. by destruct (simple_strtoul _ _).
  - eexists. split; [transitivity (Some (number tput [] (u32 x) (simple_spec FORMAT_TYPE_UINT 0 10 255), @nil (Z * Z)));
      [reflexivity|rewrite unsigned_text by lia; reflexivity]|].
    apply (scan_unsigned _ (chr "u") 255); [one_conversion|done|by left|by left|lia|]. unfold scan_integer.
    destruct (simple_strtol _ _). unfold simple_strtoul. rewrite strtoull_shown by (done || lia || (by left) || (by right)). by rewrite u32_small by lia.
  - eexists. split; [transitivity (Some (number tput [] (u32 x) (simple_spec FORMAT_TYPE_UINT SMALL 16 255), @nil (Z * Z)));
      [reflexivity|rewrite simple_text by (auto || done || lia); reflexivity]|].
    apply (scan_unsigned _ (chr "x") 255 16 SMALL (u32 x)); [one_conversion|done|by right|by right|lia|]. unfold scan_integer.
    destruct (simple_strtol _ _). unfold simple_strtoul. rewrite strtoull_shown by (done || lia || (by left) || (by right)). by rewrite u32_small by lia.
  - assert (s64 (u64 y) = s64 y) as E by (unfold s64, u64; Z.to_euclidean_division_equations; lia).
    eexists. split; [transitivity (Some (number tput [] (u64 y) (simple_spec FORMAT_TYPE_LONG_LONG SIGN 10 (chr "L")), @nil (Z * Z)));
      [reflexivity|rewrite signed_text, E by done; reflexivity]|].
    apply (scan_signed _ (chr "L")); [done|one_conversion|done|done|lia|]. unfold scan_integer.
    destruct (simple_strtol _ _), (simple_strtoul _ _). by apply strtoll_shown.
  - eexists. split; [transitivity (Some (number tput [] (u64 y) (simple_spec FORMAT_TYPE_LONG_LONG 0 10 (chr "L")), @nil (Z * Z)));
      [reflexivity|rewrite unsigned_text by lia; reflexivity]|].
    apply (scan_unsigned _ (chr "u") (chr "L")); [one_conversion|done|by left|by left|lia|]. unfold scan_integer.
    destruct (simple_strtol _ _), (simple_strtoul _ _). exact (strtoull_shown 0 (or_introl eq_refl) 10 ltac:(lia) (u64 y) ltac:(lia)).
Qed.

(** The width of an integer conversion is not used. *)
Example width_ignored : vsscanf (str "12345") (str "%2d%d") = Some (1, [SInt 12345]).
Proof. by vm_compute. Qed.
