(* ===== verification/RamConsole.v ===== *)
(** * The RAM console (drivers/staging/android/ram_console.c)

    The messages of the kernel go to a ring in memory that keeps its content
    over a reboot; the next kernel saves what it finds there, and user space
    reads it from last_kmsg.  The configuration of the board has neither the
    error correction nor the early start.  The content of the memory at the
    start, the resource of the platform device and whether memory is available
    are arguments. *)

From stdpp Require Import base numbers list gmap.
From S2P Require Import Prelude Ring.

Open Scope Z_scope.

(** ** The code *)

(** The header of [struct ram_console_buffer] has three words. *)
Record ram_console_buffer := RamConsoleBuffer { sig : Z; start : Z; size : Z; data : list Z }.
Definition sizeof_ram_console_buffer : Z := 12.
Definition RAM_CONSOLE_SIG : Z := 0x43474244.
Definition ENXIO : Z := 6.

Definition set_start (x : Z) (b : ram_console_buffer) := RamConsoleBuffer (sig b) x (size b) (data b).
Definition set_size (x : Z) (b : ram_console_buffer) := RamConsoleBuffer (sig b) (start b) x (data b).
Definition set_data (x : list Z) (b : ram_console_buffer) := RamConsoleBuffer (sig b) (start b) (size b) x.

Definition ram_console_update (b : ram_console_buffer) (s : list Z) (count : Z) : ram_console_buffer :=
  set_data (splice (data b) (start b) (bslice s 0 count)) b.

(** [n] is [ram_console_buffer_size]. *)
Definition ram_console_write (n : Z) (b : ram_console_buffer) (s : list Z) (count : Z) : ram_console_buffer :=
  let '(s, count) := if n <? count then (drop (Z.to_nat (count - n)) s, n) else (s, count) in
  let rem := s32 (n - start b) in
  let '(b, s, count) :=
    if u32 rem <? count
    then (set_size n (set_start 0 (ram_console_update b s rem)), drop (Z.to_nat rem) s, u32 (count - rem))
    else (b, s, count) in
  let b := ram_console_update b s count in
  let b := set_start (u32 (start b + count)) b in
  if size b <? n then set_size (u32 (size b + count)) b else b.

(** The driver: the size of the ring, 0 before the start, the ring, the log of
    the kernel before with its size, and whether the console is registered. *)
Record ram_console := RamConsole {
  buffer_size : Z;
  buffer : ram_console_buffer;
  old_log : option (list Z);
  old_log_size : Z;
  registered : bool;
  console_flags : Z }.

Definition CON_PRINTBUFFER : Z := 1.
Definition CON_ENABLED : Z := 4.

Definition ram_console_enable_console (enabled : Z) (c : ram_console) : ram_console :=
  RamConsole (buffer_size c) (buffer c) (old_log c) (old_log_size c) (registered c)
    (if negb (enabled =? 0) then Z.lor (console_flags c) CON_ENABLED else Z.ldiff (console_flags c) CON_ENABLED).

(** What is saved; [None] where [kmalloc] fails. *)
Definition ram_console_save_old (kmalloc : Z -> bool) (b : ram_console_buffer) : option (list Z) :=
  if kmalloc (size b)
  then Some (bslice (data b) (start b) (size b - start b) ++ bslice (data b) 0 (start b)) else None.

(** The memory at [buffer] has [bsize] bytes; [b] is what is in it. *)
Definition ram_console_init (kmalloc : Z -> bool) (b : ram_console_buffer) (bsize : Z) : ram_console * Z :=
  let n := u32 (bsize - sizeof_ram_console_buffer) in
  if bsize <? n then (RamConsole n b None 0 false (Z.lor CON_PRINTBUFFER CON_ENABLED), 0)
  else
    let old :=
      if sig b =? RAM_CONSOLE_SIG then
        if (n <? size b) || (size b <? start b) then None else ram_console_save_old kmalloc b
      else None in
    (RamConsole n (RamConsoleBuffer RAM_CONSOLE_SIG 0 0 (data b)) old
       (match old with Some _ => size b | None => 0 end) true (Z.lor CON_PRINTBUFFER CON_ENABLED), 0).

(** The platform device has one resource of memory; [ioremap] gives what is in
    the memory, or fails. *)
Record platform_resource := PlatformResource { res_start : Z; res_end : Z; res_is_mem : bool }.

Definition ram_console_driver_probe (kmalloc : Z -> bool) (ioremap : Z -> Z -> option ram_console_buffer)
    (res : option platform_resource) (num_resources : Z) : option ram_console * Z :=
  match res with
  | Some r =>
      if negb (num_resources =? 1) || negb (res_is_mem r) then (None, - ENXIO)
      else
        let bsize := u32 (res_end r - res_start r + 1) in
        match ioremap (res_start r) bsize with
        | None => (None, - ENOMEM)
        | Some b => let '(c, ret) := ram_console_init kmalloc b bsize in (Some c, ret)
        end
  | None => (None, - ENXIO)
  end.

(** The result and the new position; [None] is a read outside of the log. *)
Definition ram_console_read_old (c : ram_console) (m : umem) (buf len pos : Z) : option (umem * Z * Z) :=
  if old_log_size c <=? pos then Some (m, 0, pos)
  else
    match old_log c with
    | Some l =>
        if pos <? 0 then None
        else
          let count := Z.min len (u32 (old_log_size c - pos)) in
          let '(m', rest) := copy_to_user m buf (bslice l pos count) in
          Some (if negb (rest =? 0) then (m', - EFAULT, pos) else (m', count, pos + count))
    | None => None
    end.

(** [last_kmsg] exists if there is an old log and an entry can be made. *)
Definition ram_console_late_init (proc_entry : bool) (c : ram_console) : ram_console * bool :=
  match old_log c with
  | None => (c, false)
  | Some _ =>
      if proc_entry then (c, true)
      else (RamConsole (buffer_size c) (buffer c) None (old_log_size c) (registered c) (console_flags c), false)
  end.

(** ** What the ring holds *)

(** The last [n] bytes of a list. *)
Definition tail (n : Z) (l : list Z) : list Z := drop (Z.to_nat (zlen l - n)) l.

(** The ring was not filled yet and holds everything that was written, or it is
    full and holds the last bytes, the oldest at [start]. *)
Definition ring_ok (n : Z) (b : ram_console_buffer) (written : list Z) : Prop :=
  sig b = RAM_CONSOLE_SIG /\ zlen (data b) = n /\ 0 <= start b <= n /\
  (size b = start b /\ take (Z.to_nat (start b)) (data b) = written \/
   size b = n /\ n <= zlen written /\
   drop (Z.to_nat (start b)) (data b) ++ take (Z.to_nat (start b)) (data b) = tail n written).

Lemma tail_all n l : zlen l <= n -> tail n l = l.
Proof. intros H. unfold tail. by rewrite Z2Nat.nonpos, drop_0 by lia. Qed.

Lemma tail_app n w bs : n <= zlen w -> zlen bs <= n -> tail n (w ++ bs) = drop (length bs) (tail n w) ++ bs.
Proof.
  intros H1 H2. unfold tail. rewrite zlen_app, drop_drop, drop_app_le by (unfold zlen in *; lia).
  do 2 f_equal. unfold zlen in *. lia.
Qed.

Lemma tail_app_long n w bs : n <= zlen bs -> tail n (w ++ bs) = tail n bs.
Proof.
  intros H. unfold tail. rewrite zlen_app, drop_app_ge by (unfold zlen in *; lia). f_equal. unfold zlen. lia.
Qed.

Lemma zlen_tail n l : 0 <= n <= zlen l -> zlen (tail n l) = n.
Proof. intros H. unfold tail. rewrite zlen_drop. lia. Qed.

(** Only the last bytes count, once the ring is full. *)
Lemma ring_ok_tail n b w w' : n <= zlen w -> n <= zlen w' -> tail n w = tail n w' -> ring_ok n b w -> ring_ok n b w'.
Proof.
  intros H1 H2 Ht (Hs & Hd & Hst & Hc). split_and!; try done; [lia..|]. right.
  destruct Hc as [[E Hw]|(E & _ & Hw)]; [|by rewrite <- Ht].
  assert (start b = n) as En by (rewrite <- Hw, zlen_take in H1; lia). split; [lia|]. split; [done|].
  rewrite <- Ht, <- Hw, En. rewrite drop_ge, (take_ge (data b)), tail_all by (unfold zlen in *; lia). done.
Qed.

(** A write that ends before the end of the ring. *)
Definition advance (n : Z) (b : ram_console_buffer) (bs : list Z) : ram_console_buffer :=
  RamConsoleBuffer (sig b) (start b + zlen bs) (if size b <? n then size b + zlen bs else size b) (splice (data b) (start b) bs).

Lemma advance_ok n b w bs : ring_ok n b w -> zlen bs <= n - start b -> ring_ok n (advance n b bs) (w ++ bs).
Proof.
  intros (Hs & Hd & Hst & Hc) Hl. pose proof (zlen_nonneg bs) as H0.
  assert (Z.to_nat (start b + zlen bs) = Z.to_nat (start b) + length bs)%nat as En by (unfold zlen; lia).
  assert (length (take (Z.to_nat (start b)) (data b)) = Z.to_nat (start b)) as Et by (rewrite length_take; unfold zlen in *; lia).
  assert (take (Z.to_nat (start b + zlen bs)) (splice (data b) (start b) bs) = take (Z.to_nat (start b)) (data b) ++ bs) as Ht.
  { unfold splice. rewrite En, app_assoc, take_app_length' by (rewrite length_app; lia). done. }
  assert (drop (Z.to_nat (start b + zlen bs)) (splice (data b) (start b) bs) = drop (length bs) (drop (Z.to_nat (start b)) (data b))) as Hdr.
  { unfold splice. rewrite En, app_assoc, drop_app_length' by (rewrite length_app; lia). by rewrite drop_drop. }
  split_and!; cbn; [done|by rewrite zlen_splice by lia|lia|lia|]. rewrite Ht, Hdr.
  destruct Hc as [[E Hw]|(E & Hn & Hw)].
  - destruct (Z.ltb_spec (size b) n); [left; split; [lia|by rewrite Hw]|].
    assert (bs = []) as -> by (destruct bs; [done|]; rewrite zlen_cons in *; pose proof (zlen_nonneg bs); lia).
    left. rewrite !app_nil_r. split; [change (zlen (@nil Z)) with 0; lia|done].
  - destruct (Z.ltb_spec (size b) n); [lia|]. right. rewrite zlen_app. split; [done|]. split; [lia|].
    rewrite tail_app, <- Hw by lia. rewrite drop_app_le by (rewrite length_drop; unfold zlen in *; lia). by rewrite app_assoc.
Qed.

(** At the end of the ring the next write starts at its beginning. *)
Lemma rewind_ok n b w : ring_ok n b w -> start b = n -> ring_ok n (set_size n (set_start 0 b)) w.
Proof.
  intros (Hs & Hd & Hst & Hc) E. split_and!; cbn; try done; [lia|]. right. cbn.
  assert (Z.to_nat n = length (data b)) as En by (unfold zlen in *; lia). rewrite E, En in Hc.
  destruct Hc as [[_ Hw]|(_ & Hn & Hw)]; rewrite ?drop_all, firstn_all in Hw; cbn in Hw.
  - subst w. split; [done|]. split; [lia|]. by rewrite app_nil_r, tail_all by lia.
  - by rewrite app_nil_r.
Qed.

Lemma write_ok n b w bs :
  n < 2 ^ 31 -> ring_ok n b w -> zlen bs < 2 ^ 32 -> ring_ok n (ram_console_write n b bs (zlen bs)) (w ++ bs).
Proof.
  intros Hn Hok Hl. pose proof (zlen_nonneg bs) as H0.
  assert (forall bs', zlen bs' <= n -> ring_ok n (ram_console_write n b bs' (zlen bs')) (w ++ bs')) as Hshort.
  { clear bs Hl H0. intros bs Hl. pose proof (zlen_nonneg bs) as H0. pose proof Hok as (_ & Hd & Hst & Hc).
    assert (0 <= size b <= n) as Hsz by (destruct Hc as [[-> _]|[-> _]]; lia).
    unfold ram_console_write. destruct (Z.ltb_spec n (zlen bs)); [lia|]. rewrite s32_small, u32_small by lia.
    destruct (Z.ltb_spec (n - start b) (zlen bs)) as [Hw|Hw].
    - rewrite (u32_small (zlen bs - _)) by lia. set (r := n - start b) in *.
      assert (zlen (take (Z.to_nat r) bs) = r) as E1 by (rewrite zlen_take; lia).
      assert (zlen (drop (Z.to_nat r) bs) = zlen bs - r) as E2 by (rewrite zlen_drop; lia).
      pose proof (advance_ok n b w (take (Z.to_nat r) bs) Hok ltac:(lia)) as H1.
      apply rewind_ok in H1; [|cbn; lia]. apply (advance_ok _ _ _ (drop (Z.to_nat r) bs)) in H1; [|cbn; lia].
      rewrite <- app_assoc, take_drop in H1.
      unfold advance in H1. cbn in H1. rewrite Z.ltb_irrefl, E2 in H1. cbn. rewrite Z.ltb_irrefl, u32_small by lia.
      unfold ram_console_update. cbn. rewrite (bslice_all (drop _ _)) by lia. unfold bslice. rewrite drop_0. exact H1.
    - pose proof (advance_ok n b w bs Hok ltac:(lia)) as H1. unfold advance in H1. unfold ram_console_update. cbn.
      rewrite (u32_small (start b + _)) by lia. rewrite bslice_all by done. destruct (Z.ltb_spec (size b) n); [|exact H1].
      destruct Hc as [[E _]|[E _]]; [|lia]. rewrite u32_small by lia. exact H1. }
  destruct (Z.le_gt_cases (zlen bs) n) as [|Hb]; [by apply Hshort|].
  assert (0 <= n) by (destruct Hok as (_ & _ & ? & _); lia).
  assert (zlen (tail n bs) = n) as E by (apply zlen_tail; lia). specialize (Hshort (tail n bs) ltac:(lia)). rewrite E in Hshort.
  eapply ring_ok_tail; [| | |]; cycle 3.
  - unfold ram_console_write in *. destruct (Z.ltb_spec n (zlen bs)); [|lia]. rewrite Z.ltb_irrefl in Hshort. exact Hshort.
  - rewrite zlen_app. pose proof (zlen_nonneg w). lia.
  - rewrite zlen_app. pose proof (zlen_nonneg w). lia.
  - rewrite !tail_app_long by lia. by apply tail_all; lia.
Qed.

Lemma console_init_ok kmalloc b bsize n :
  sizeof_ram_console_buffer <= bsize < 2 ^ 31 -> n = bsize - sizeof_ram_console_buffer -> zlen (data b) = n ->
  exists old, ram_console_init kmalloc b bsize =
    (RamConsole n (RamConsoleBuffer RAM_CONSOLE_SIG 0 0 (data b)) old (match old with Some _ => size b | None => 0 end) true (Z.lor CON_PRINTBUFFER CON_ENABLED), 0) /\
    ring_ok n (RamConsoleBuffer RAM_CONSOLE_SIG 0 0 (data b)) [].
Proof.
  unfold sizeof_ram_console_buffer. intros Hb -> Hd. unfold ram_console_init, sizeof_ram_console_buffer.
  rewrite u32_small by lia. destruct (Z.ltb_spec bsize (bsize - 12)); [lia|]. eexists. split; [reflexivity|].
  split_and!; cbn; try done; [lia|]. left. split; [done|]. done.
Qed.

(** What the next kernel saves of a ring. *)
Lemma init_saves kmalloc b bsize n w :
  sizeof_ram_console_buffer <= bsize < 2 ^ 31 -> n = bsize - sizeof_ram_console_buffer -> ring_ok n b w ->
  kmalloc (size b) = true ->
  old_log (ram_console_init kmalloc b bsize).1 = Some (tail n w) /\
  old_log_size (ram_console_init kmalloc b bsize).1 = zlen (tail n w).
Proof.
  unfold sizeof_ram_console_buffer. intros Hb -> (Hs & Hd & Hst & Hc) Hk. unfold ram_console_init, sizeof_ram_console_buffer.
  rewrite u32_small by lia. destruct (Z.ltb_spec bsize (bsize - 12)); [lia|]. rewrite Hs, Z.eqb_refl. set (n := bsize - 12) in *.
  assert (start b <= size b <= n) as Hsz by (destruct Hc as [[-> _]|[-> _]]; lia).
  destruct (Z.ltb_spec n (size b)); [lia|]. destruct (Z.ltb_spec (size b) (start b)); [lia|]. cbn [orb].
  unfold ram_console_save_old. rewrite Hk. cbn [fst old_log old_log_size].
  assert (bslice (data b) (start b) (size b - start b) ++ bslice (data b) 0 (start b) = tail n w) as E.
  { unfold bslice. rewrite drop_0. destruct Hc as [[E Hw]|(E & _ & Hw)]; rewrite E.
    - rewrite Z.sub_diag. cbn. rewrite Hw, tail_all; [done|]. rewrite <- Hw, zlen_take. lia.
    - rewrite (take_ge (drop _ _)); [done|]. rewrite length_drop. unfold zlen in *. lia. }
  rewrite E. split; [done|]. rewrite <- E. unfold bslice. rewrite drop_0, zlen_app, !zlen_take, zlen_drop. lia.
Qed.

(** ** Theorems *)

(** The kernel writes messages. *)
Definition messages (n : Z) (b : ram_console_buffer) (ms : list (list Z)) : ram_console_buffer :=
  foldl (fun b m => ram_console_write n b m (zlen m)) b ms.

Lemma messages_ok n b w ms :
  n < 2 ^ 31 -> ring_ok n b w -> Forall (fun m => zlen m < 2 ^ 32) ms -> ring_ok n (messages n b ms) (w ++ concat ms).
Proof.
  intros Hn Hb Hms. revert b w Hb. induction Hms as [|m ms Hm _ IH]; intros b w Hb; cbn; [by rewrite app_nil_r|].
  rewrite app_assoc. apply IH. by apply write_ok.
Qed.

(** C17: The messages survive a reboot.  Whatever the memory held at first, when
    the console is started, messages are written and the console is started
    again on the same memory, then the saved log is the end of everything that
    was written, all of it if it fits into the ring, and no byte outside of the
    ring was touched. *)
Theorem messages_survive_reboot kmalloc kmalloc' b bsize ms :
  sizeof_ram_console_buffer <= bsize < 2 ^ 31 -> zlen (data b) = bsize - sizeof_ram_console_buffer ->
  Forall (fun m => zlen m < 2 ^ 32) ms -> (forall n, kmalloc' n = true) ->
  let c := (ram_console_init kmalloc b bsize).1 in
  let b' := messages (buffer_size c) (buffer c) ms in
  let c' := (ram_console_init kmalloc' b' bsize).1 in
  zlen (data b') = buffer_size c /\ registered c' = true /\
  old_log c' = Some (drop (Z.to_nat (zlen (concat ms) - buffer_size c)) (concat ms)) /\
  old_log_size c' = Z.min (buffer_size c) (zlen (concat ms)).
Proof.
  intros Hb Hd Hms Hk. destruct (console_init_ok kmalloc b bsize _ Hb eq_refl Hd) as (old & -> & Hok). cbn [fst buffer_size buffer].
  set (n := bsize - sizeof_ram_console_buffer) in *.
  assert (n < 2 ^ 31) as Hn by (unfold n, sizeof_ram_console_buffer in *; lia).
  apply (messages_ok n _ [] ms Hn) in Hok; [|done]. cbn [app] in Hok. pose proof Hok as (_ & Hd' & Hst & _).
  destruct (init_saves kmalloc' _ bsize n _ Hb eq_refl Hok (Hk _)) as [E1 E2]. split; [done|]. split_and!.
  - destruct (console_init_ok kmalloc' _ bsize n Hb eq_refl Hd') as (? & -> & _). done.
  - exact E1.
  - rewrite E2. unfold tail. rewrite zlen_drop. pose proof (zlen_nonneg (concat ms)). lia.
Qed.

Lemma messages_survive_reboot_witness :
  let b := RamConsoleBuffer 0 77 3 (replicate 8 0) in
  let c := (ram_console_init (fun _ => true) b 20).1 in
  let b' := messages (buffer_size c) (buffer c) [[1; 2; 3; 4; 5]; [6; 7]; [8; 9; 10]] in
  old_log (ram_console_init (fun _ => true) b' 20).1 = Some [3; 4; 5; 6; 7; 8; 9; 10].
Proof.
  destruct (messages_survive_reboot (fun _ => true) (fun _ => true) (RamConsoleBuffer 0 77 3 (replicate 8 0)) 20
    [[1; 2; 3; 4; 5]; [6; 7]; [8; 9; 10]]) as (_ & _ & H & _); [done|done| |done|exact H].
  repeat constructor.
Defined.

(** Reading last_kmsg: a part of the log from the position on, which moves
    behind it; nothing at the end; on a fault the position stays. *)
Theorem read_old_correct c l m buf len pos :
  old_log c = Some l -> old_log_size c = zlen l -> zlen l < 2 ^ 32 -> 0 <= pos -> 0 <= len ->
  let part := bslice l pos (Z.min len (zlen l - pos)) in
  let '(m', rest) := copy_to_user m buf part in
  ram_console_read_old c m buf len pos =
    Some (if zlen l <=? pos then (m, 0, pos)
          else if rest =? 0 then (m', zlen part, pos + zlen part) else (m', - EFAULT, pos)).
Proof.
  intros Hl Hs Hb Hp Hlen part. unfold ram_console_read_old. rewrite Hl, Hs.
  destruct (copy_to_user m buf part) as [m' rest] eqn:E. destruct (Z.leb_spec (zlen l) pos); [done|].
  destruct (Z.ltb_spec pos 0); [lia|]. rewrite u32_small by lia. fold part. rewrite E.
  assert (zlen part = Z.min len (zlen l - pos)) as -> by (apply zlen_bslice; lia). by destruct (rest =? 0).
Qed.

(** A ring whose header does not fit, or that another program left, is not
    saved. *)
Theorem foreign_memory_ignored kmalloc b bsize :
  sizeof_ram_console_buffer <= bsize < 2 ^ 31 -> zlen (data b) = bsize - sizeof_ram_console_buffer ->
  sig b <> RAM_CONSOLE_SIG \/ bsize - sizeof_ram_console_buffer < size b \/ size b < start b ->
  old_log (ram_console_init kmalloc b bsize).1 = None /\ ring_ok (bsize - sizeof_ram_console_buffer) (buffer (ram_console_init kmalloc b bsize).1) [].
Proof.
  intros Hb Hd Hf. destruct (console_init_ok kmalloc b bsize _ Hb eq_refl Hd) as (old & E & Hok). rewrite E. split; [|exact Hok]. cbn.
  unfold ram_console_init, sizeof_ram_console_buffer in *. rewrite u32_small in E by lia.
  destruct (Z.ltb_spec bsize (bsize - 12)); [lia|]. injection E as <- _.
  destruct (Z.eqb_spec (sig b) RAM_CONSOLE_SIG); [|done].
  destruct (Z.ltb_spec (bsize - 12) (size b)); [done|]. destruct (Z.ltb_spec (size b) (start b)); [done|]. lia.
Qed.
