(* ===== verification/TimedOutput.v ===== *)
(** * Timed outputs (drivers/staging/android/timed_output.c, timed_gpio.c)

    A timed output is switched on for a number of milliseconds that user space
    writes to its file; on this board it drives the vibrator.  [timed_gpio] has
    an array of outputs on GPIO lines, each with a timer.  Lines, timers and the
    class of devices are states; which calls of other subsystems succeed is an
    argument.  A device is known by its number, and the driver data of a device
    by the array it is in and its index there. *)

From stdpp Require Import base numbers list gmap.
From S2P Require Import Prelude CType Vsprintf VsprintfNumber VsprintfProps VsprintfRoundTrip Vsscanf.

Open Scope Z_scope.

(** ** Devices *)

Inductive device_ptr := NullDevice | ErrDevice (err : Z) | Device (devt : Z).

Record timed_output_dev := TimedOutputDev { dev : device_ptr; index : Z; state : Z }.

Definition data_ptr : Type := Z * Z.

(** A device of the class: whether it has the file, and its driver data. *)
Record class_device := ClassDevice { has_file : bool; drvdata : option data_ptr }.

Record timed_gpio_data := TimedGpioData {
  d_dev : timed_output_dev;
  timer : option Z;
  gpio : Z;
  max_timeout : Z;
  active_low : Z }.

(** The class, the arrays that are allocated, the lines that were requested and
    their levels.  [bad] lists the accesses to freed devices. *)
Record system := System {
  timed_output_class : bool;
  device_count : Z;
  devices : gmap Z class_device;
  arrays : gmap Z (list timed_gpio_data);
  requested : gset Z;
  levels : gmap Z Z;
  bad : list Z }.

Definition set_devices (f : gmap Z class_device -> gmap Z class_device) (s : system) :=
  System (timed_output_class s) (device_count s) (f (devices s)) (arrays s) (requested s) (levels s) (bad s).
Definition set_arrays (f : gmap Z (list timed_gpio_data) -> gmap Z (list timed_gpio_data)) (s : system) :=
  System (timed_output_class s) (device_count s) (devices s) (f (arrays s)) (requested s) (levels s) (bad s).
Definition set_requested (f : gset Z -> gset Z) (s : system) :=
  System (timed_output_class s) (device_count s) (devices s) (arrays s) (f (requested s)) (levels s) (bad s).
Definition set_levels (f : gmap Z Z -> gmap Z Z) (s : system) :=
  System (timed_output_class s) (device_count s) (devices s) (arrays s) (requested s) (f (levels s)) (bad s).
Definition set_class (s : system) :=
  System true 0 (devices s) (arrays s) (requested s) (levels s) (bad s).
Definition set_count (n : Z) (s : system) :=
  System (timed_output_class s) n (devices s) (arrays s) (requested s) (levels s) (bad s).
Definition add_bad (d : Z) (s : system) :=
  System (timed_output_class s) (device_count s) (devices s) (arrays s) (requested s) (levels s) (bad s ++ [d]).

(** ** timed_output.c *)

(** What other subsystems answer: 0 or an error. *)
Record calls := Calls { class_create : Z; device_create : Z -> Z; device_create_file : Z -> Z; gpio_request : Z -> Z; kzalloc : option Z }.

Definition create_timed_output_class (c : calls) (s : system) : system * Z :=
  if negb (timed_output_class s) then if class_create c <? 0 then (s, class_create c) else (set_class s, 0) else (s, 0).

(** For a device with a name and both operations; [p] is its address. *)
Definition timed_output_dev_register (c : calls) (s : system) (p : data_ptr) (t : timed_output_dev) : system * timed_output_dev * Z :=
  let '(s, ret) := create_timed_output_class c s in
  if ret <? 0 then (s, t, ret)
  else
    let s := set_count (s32 (device_count s + 1)) s in
    let i := device_count s in
    if device_create c i <? 0 then (s, TimedOutputDev (ErrDevice (device_create c i)) i (state t), device_create c i)
    else
      let s := set_devices <[i := ClassDevice false None]> s in
      let t := TimedOutputDev (Device i) i (state t) in
      if device_create_file c i <? 0 then (set_devices (delete i) s, t, device_create_file c i)
      else (set_devices <[i := ClassDevice true (Some p)]> s, TimedOutputDev (Device i) i 0, 0).

(** [None] is an oops: the error value is used as an address.  A device that is
    destroyed is freed, since the class had the only reference. *)
Definition device_remove_file (s : system) (d : device_ptr) : option system :=
  match d with
  | NullDevice => Some s
  | ErrDevice _ => None
  | Device i =>
      Some (match devices s !! i with
            | Some x => set_devices <[i := ClassDevice false (drvdata x)]> s
            | None => add_bad i s
            end)
  end.
Definition device_destroy (s : system) (devt : Z) : system := set_devices (delete devt) s.
Definition clear_drvdata (s : system) (d : device_ptr) : option system :=
  match d with
  | NullDevice => Some s
  | ErrDevice _ => None
  | Device i =>
      Some (match devices s !! i with
            | Some x => set_devices <[i := ClassDevice (has_file x) None]> s
            | None => add_bad i s
            end)
  end.

Definition timed_output_dev_unregister (s : system) (t : timed_output_dev) : option system :=
  s ← device_remove_file s (dev t);
  clear_drvdata (device_destroy s (index t)) (dev t).

(** ** timed_gpio.c *)

Definition NSEC_PER_MSEC : Z := 1000000.
Definition NSEC_PER_SEC : Z := 1000000000.
Definition ktime_set (secs nsecs : Z) : Z := secs * NSEC_PER_SEC + u32 nsecs.

(** The data after the timer ran, and the level that is put on the line. *)
Definition gpio_timer_func (d : timed_gpio_data) : timed_gpio_data * Z :=
  (TimedGpioData (d_dev d) None (gpio d) (max_timeout d) (active_low d), if negb (active_low d =? 0) then 1 else 0).

(** The nanoseconds of a [ktime_t] are not negative. *)
Definition gpio_get_time (now : Z) (d : timed_gpio_data) : Z :=
  match timer d with
  | Some expires =>
      let r := expires - now in
      s32 (r / NSEC_PER_SEC * 1000 + r mod NSEC_PER_SEC / 1000 / 1000)
  | None => 0
  end.

Definition gpio_enable (now : Z) (d : timed_gpio_data) (value : Z) : timed_gpio_data * Z :=
  let level := Z.b2z (if negb (active_low d =? 0) then value =? 0 else negb (value =? 0)) in
  let t :=
    if 0 <? value then
      let value := if max_timeout d <? value then max_timeout d else value in
      Some (now + ktime_set (Z.quot value 1000) (Z.rem value 1000 * 1000000))
    else None in
  (TimedGpioData (d_dev d) t (gpio d) (max_timeout d) (active_low d), level).

(** The file of the device. *)
Definition enable_show (env : printk_env) (m : gmap Z Z) (buf now : Z) (d : timed_gpio_data) : option (gmap Z Z * Z * list (Z * Z)) :=
  sprintf env m buf (str "%d" ++ [10]) [VInt (gpio_get_time now d)].

Definition enable_store (now : Z) (d : timed_gpio_data) (buf : list Z) (size : Z) : option (timed_gpio_data * option Z * Z) :=
  '(n, out) ← sscanf buf (str "%d");
  if negb (n =? 1) then Some (d, None, - EINVAL)
  else
    match out with
    | SInt value :: _ => let '(d, level) := gpio_enable now d value in Some (d, Some level, size)
    | _ => None
    end.

(** An entry of the platform data. *)
Record timed_gpio := TimedGpio { g_gpio : Z; g_max_timeout : Z; g_active_low : Z }.

Definition zero_data : timed_gpio_data := TimedGpioData (TimedOutputDev NullDevice 0 0) None 0 0 0.

(** The loop that undoes the devices before [i]: the code takes index [i]. *)
Fixpoint probe_unwind (j : nat) (s : system) (d : timed_gpio_data) : option system :=
  match j with
  | O => Some s
  | S j' =>
      s ← timed_output_dev_unregister s (d_dev d);
      probe_unwind j' (set_requested (fun r => r ∖ {[gpio d]}) s) d
  end.

(** The array at [a]; the entries from [i] on are left. *)
Fixpoint probe_loop (c : calls) (a : Z) (s : system) (i : Z) (done : list timed_gpio_data) (l : list timed_gpio) :
    option (system * Z) :=
  match l with
  | [] => Some (set_arrays <[a := done]> s, 0)
  | g :: l' =>
      let d := zero_data in
      let r := gpio_request c (g_gpio g) in
      let '(s, d, ret) :=
        if 0 <=? r then
          let s := set_requested (fun r => r ∪ {[g_gpio g]}) s in
          let '(s, t, ret) := timed_output_dev_register c s (a, i) (d_dev d) in
          let d := TimedGpioData t None 0 0 0 in
          if ret <? 0 then (set_requested (fun r => r ∖ {[g_gpio g]}) s, d, ret) else (s, d, ret)
        else (s, d, r) in
      if ret <? 0 then
        s ← probe_unwind (Z.to_nat i) s d;
        Some (set_arrays (delete a) s, ret)
      else
        let d := TimedGpioData (d_dev d) None (g_gpio g) (g_max_timeout g) (g_active_low g) in
        probe_loop c a (set_levels <[g_gpio g := Z.b2z (negb (g_active_low g =? 0))]> s) (i + 1) (done ++ [d]) l'
  end.

Definition timed_gpio_probe (c : calls) (s : system) (pdata : option (list timed_gpio)) : option (system * Z) :=
  match pdata with
  | None => Some (s, - EBUSY)
  | Some l =>
      match kzalloc c with
      | None => Some (s, - ENOMEM)
      | Some a => probe_loop c a (set_arrays <[a := replicate (length l) zero_data]> s) 0 [] l
      end
  end.

Fixpoint remove_loop (s : system) (l : list timed_gpio_data) : option system :=
  match l with
  | [] => Some s
  | d :: l' =>
      s ← timed_output_dev_unregister s (d_dev d);
      remove_loop (set_requested (fun r => r ∖ {[gpio d]}) s) l'
  end.

Definition timed_gpio_remove (s : system) (a : Z) : option system :=
  l ← arrays s !! a;
  s ← remove_loop s l;
  Some (set_arrays (delete a) s).

(** ** One output in use

    The data, the level of the line, the time, and the last value that was
    written with its time. *)

Record output_state := OutputState { o_data : timed_gpio_data; o_level : Z; o_now : Z; o_last : option (Z * Z) }.

Inductive output_step : output_state -> output_state -> Prop :=
  | os_store o buf size d level ret value :
      enable_store (o_now o) (o_data o) buf size = Some (d, Some level, ret) -> sscanf buf (str "%d") = Some (1, [SInt value]) ->
      output_step o (OutputState d level (o_now o) (Some (o_now o, value)))
  | os_refused o buf size d ret : enable_store (o_now o) (o_data o) buf size = Some (d, None, ret) ->
      output_step o (OutputState d (o_level o) (o_now o) (o_last o))
  | os_time o dt : 0 <= dt -> output_step o (OutputState (o_data o) (o_level o) (o_now o + dt) (o_last o))
  | os_expire o e : timer (o_data o) = Some e -> e <= o_now o ->
      output_step o (OutputState (gpio_timer_func (o_data o)).1 (gpio_timer_func (o_data o)).2 (o_now o) (o_last o)).

(** The line is at its active level. *)
Definition active (o : output_state) : bool := if negb (active_low (o_data o) =? 0) then o_level o =? 0 else o_level o =? 1.

(** When the output that was written last is to end. *)
Definition end_of (d : timed_gpio_data) (t value : Z) : Z := t + Z.min value (max_timeout d) * NSEC_PER_MSEC.

Definition output_ok (o : output_state) : Prop :=
  0 <= max_timeout (o_data o) /\
  match o_last o with
  | None => active o = false /\ timer (o_data o) = None
  | Some (t, value) =>
      t <= o_now o /\
      if value <? 0 then active o = true /\ timer (o_data o) = None
      else if value =? 0 then active o = false /\ timer (o_data o) = None
      else (active o = true /\ timer (o_data o) = Some (end_of (o_data o) t value)) \/
           (active o = false /\ timer (o_data o) = None /\ end_of (o_data o) t value <= o_now o)
  end.

Lemma ktime_msecs v : 0 <= v < 2 ^ 31 -> ktime_set (Z.quot v 1000) (Z.rem v 1000 * 1000000) = v * NSEC_PER_MSEC.
Proof.
  intros H. unfold ktime_set, NSEC_PER_SEC, NSEC_PER_MSEC. rewrite Z.quot_div_nonneg, Z.rem_mod_nonneg by lia.
  rewrite u32_small; Z.to_euclidean_division_equations; lia.
Qed.

(** What the file reads: one number, behind spaces, or nothing. *)
Definition number_in (buf : list Z) : option Z :=
  let s := skip_space buf in
  let digit := if ch s =? chr "-" then ch (drop 1 s) else ch s in
  if isdigit digit then Some (simple_strtol s 10).1 else None.

Lemma sscanf_number buf :
  sscanf buf (str "%d") = Some (match number_in buf with Some v => (1, [SInt v]) | None => (0, []) end).
Proof.
  unfold sscanf, vsscanf. cbn [scan_loop]. destruct (Z.eqb_spec (ch buf) 0) as [E|E]; cbn [negb andb].
  - destruct buf as [|c buf]; [done|]. cbn in E. subst c. reflexivity.
  - assert (scan_round_of (zlen buf) (str "%d") buf 0 [] = scan_switch (zlen buf) (chr "d") [] buf 255 (-1) 0 []) as -> by one_conversion.
    change (ch (str "%d") =? 0) with false. cbn [negb andb].
    transitivity (let s := skip_space buf in
      let digit := if ch s =? chr "-" then ch (drop 1 s) else ch s in
      if bad_digit 10 digit then Some (0, @nil scanned) else Some (1, [SInt (simple_strtol s 10).1])).
    + unfold scan_switch. change (chr "d" =? chr "c") with false. change (chr "d" =? chr "s") with false. change (chr "d" =? chr "n") with false.
      change (chr "d" =? chr "%") with false. cbn iota. change (scan_base (chr "d")) with (Some (10, true)). cbn iota beta zeta. cbn [andb].
      destruct (bad_digit 10 _); [reflexivity|]. unfold scan_integer.
      destruct (simple_strtol (skip_space buf) 10), (simple_strtoul (skip_space buf) 10). reflexivity.
    + cbn zeta. unfold number_in. cbn zeta. set (d := if ch _ =? _ then _ else _).
      assert (bad_digit 10 d = negb (isdigit d)) as ->; [|by destruct (isdigit d)].
      unfold bad_digit. cbn. rewrite !orb_false_r. destruct (Z.eqb_spec d 0) as [->|]; done.
Qed.

Lemma number_in_range buf v : number_in buf = Some v -> - 2 ^ 31 <= v < 2 ^ 31.
Proof.
  unfold number_in, simple_strtol. cbn zeta. destruct (isdigit _); [|done]. intros [= <-].
  destruct (simple_strtoul (skip_space buf) 10), (simple_strtoul (drop 1 (skip_space buf)) 10). destruct (_ =? _); apply s32_range.
Qed.

Lemma enable_store_eq now d buf size :
  enable_store now d buf size = Some (match number_in buf with
    | Some v => let '(d, level) := gpio_enable now d v in (d, Some level, size)
    | None => (d, None, - EINVAL)
    end).
Proof. unfold enable_store. rewrite sscanf_number. cbn. destruct (number_in buf); done. Qed.

Lemma enable_step o value (d : timed_gpio_data) level :
  output_ok o -> value < 2 ^ 31 -> gpio_enable (o_now o) (o_data o) value = (d, level) ->
  output_ok (OutputState d level (o_now o) (Some (o_now o, value))).
Proof.
  intros [Hm _] Hv. unfold gpio_enable. intros [= <- <-]. split; [done|]. cbn. split; [lia|]. unfold active, end_of. cbn.
  assert (0 < value -> ktime_set (Z.quot (if max_timeout (o_data o) <? value then max_timeout (o_data o) else value) 1000)
    (Z.rem (if max_timeout (o_data o) <? value then max_timeout (o_data o) else value) 1000 * 1000000) = Z.min value (max_timeout (o_data o)) * NSEC_PER_MSEC) as Ek.
  { intros. rewrite ktime_msecs by (case_if; lia). case_if; f_equal; lia. }
  destruct (Z.eqb_spec value 0) as [->|Hz]; [cbn; by destruct (active_low (o_data o) =? 0)|].
  destruct (Z.ltb_spec value 0), (Z.ltb_spec 0 value); try lia; [by destruct (active_low (o_data o) =? 0)|].
  left. rewrite Ek by done. by destruct (active_low (o_data o) =? 0).
Qed.

Lemma output_step_ok o o' : output_step o o' -> output_ok o -> output_ok o'.
Proof.
  intros Hst Hok. destruct Hst as [o buf size d level ret value E Es|o buf size d ret E|o dt Hdt|o e Ht He].
  - rewrite enable_store_eq in E. rewrite sscanf_number in Es. destruct (number_in buf) as [v|] eqn:En; [|discriminate].
    injection Es as <-. apply number_in_range in En. destruct (gpio_enable (o_now o) (o_data o) v) as [d' level'] eqn:Eg. simplify_eq.
    eapply enable_step; [done|lia|done].
  - rewrite enable_store_eq in E. destruct (number_in buf) as [v|]; [by destruct (gpio_enable _ _ v)|]. simplify_eq. exact Hok.
  - destruct Hok as [Hm Hok]. split; [done|]. cbn in *. change (active _) with (active o). destruct (o_last o) as [[t v]|]; [|done].
    destruct Hok as [Hle Hok]. split; [lia|]. destruct (v <? 0), (v =? 0); try done. destruct Hok as [Hok|(H1 & H2 & H3)]; [by left|].
    right. split_and!; [done|done|lia].
  - destruct Hok as [Hm Hok]. split; [done|]. cbn in *. destruct (o_last o) as [[t v]|]; [|by destruct Hok; congruence].
    destruct Hok as [Hle Hok]. split; [done|]. destruct (v <? 0), (v =? 0); try (by destruct Hok; congruence).
    destruct Hok as [[_ E]|(_ & E & _)]; [|congruence]. rewrite Ht in E. injection E as ->. right. unfold active. cbn.
    by destruct (active_low (o_data o) =? 0).
Qed.

(** ** Theorems *)

(** C20: The output ends in time.  After any sequence of writes to the file, refused
    ones included, with the timer served at any time from its expiry on: a
    positive value [v] written last switches the output on until the timer is
    served, which is set to [v] or [max_timeout] milliseconds after the write,
    whichever is shorter; 0 switches it off; a negative value switches it on
    without a timer. *)
Theorem output_ends_in_time d o :
  0 <= max_timeout d -> timer d = None ->
  rtc output_step (OutputState d (Z.b2z (negb (active_low d =? 0))) 0 None) o ->
  match o_last o with
  | None => active o = false
  | Some (t, v) =>
      active o = true <-> v < 0 \/ (0 < v /\ timer (o_data o) = Some (end_of (o_data o) t v))
  end /\
  (forall t v, o_last o = Some (t, v) -> 0 < v -> o_now o < end_of (o_data o) t v -> active o = true) /\
  (active o = true -> timer (o_data o) = None -> exists t v, o_last o = Some (t, v) /\ v < 0).
Proof.
  intros Hm Ht Hr. assert (output_ok o) as [Hm' Hok].
  { assert (output_ok (OutputState d (Z.b2z (negb (active_low d =? 0))) 0 None)) as H0.
    { split; [done|]. cbn. split; [|done]. unfold active. cbn. by destruct (active_low d =? 0). }
    revert H0. induction Hr as [|o0 o1 o2 Hst _ IH]; [done|]. intros H0. apply IH. by eapply output_step_ok. }
  destruct (o_last o) as [[t v]|]; [|destruct Hok as [-> ->]; done]. destruct Hok as [Hle Hok].
  destruct (Z.ltb_spec v 0); [destruct Hok as [-> ->]; split_and!; [naive_solver|done|naive_solver]|].
  destruct (Z.eqb_spec v 0) as [->|].
  - destruct Hok as [-> ->]. split_and!; [split; [done|intros [?|[? _]]; lia]|intros ? ? [= <- <-]; lia|done].
  - destruct Hok as [[-> ->]|(-> & -> & He)]; split_and!; try done.
    + split; [|done]. right. split; [lia|done].
    + split; [done|]. intros [?|[_ ?]]; [lia|done].
    + intros ? ? [= <- <-] _ ?. lia.
Qed.

Lemma output_ends_in_time_witness :
  let d := TimedGpioData (TimedOutputDev NullDevice 0 0) None 32 500 0 in
  let d' := TimedGpioData (TimedOutputDev NullDevice 0 0) (Some (500 * NSEC_PER_MSEC)) 32 500 0 in
  active (OutputState d' 1 0 (Some (0, 2000))) = true <-> 2000 < 0 \/ 0 < 2000 /\ timer d' = Some (end_of d' 0 2000).
Proof.
  set (d := TimedGpioData (TimedOutputDev NullDevice 0 0) None 32 500 0).
  set (d' := TimedGpioData (TimedOutputDev NullDevice 0 0) (Some (500 * NSEC_PER_MSEC)) 32 500 0).
  destruct (output_ends_in_time d (OutputState d' 1 0 (Some (0, 2000)))) as [H _]; [done|done| |exact H].
  apply rtc_once. by apply (os_store (OutputState d 0 0 None) (str "2000") 4 d' 1 4 2000); vm_compute.
Defined.

(** A signed number in decimal. *)
Definition decimal (v : Z) : list Z := (if v <? 0 then str "-" else []) ++ shown 0 10 (Z.abs v).

Lemma formatted_line env x : formatted env (str "%d" ++ [10]) [VInt x] = Some (decimal (s32 x) ++ [10], []).
Proof.
  transitivity (Some (number tput [] (u64 (s32 x)) (simple_spec FORMAT_TYPE_INT SIGN 10 255) ++ [10], @nil (Z * Z))); [reflexivity|].
  rewrite signed_text, s32_s64 by apply u64_range. reflexivity.
Qed.

Lemma zlen_decimal v : 0 <= zlen (decimal v) <= 65.
Proof.
  unfold decimal, shown, zlen. rewrite length_app, length_reverse, length_fmap.
  pose proof (to_digits_length 64 10 (Z.abs v) ltac:(lia)). unfold digits_of. destruct (v <? 0); cbn [length str fmap]; [change (length (str "-")) with 1%nat|]; lia.
Qed.

(** The file: a number that is written is taken, anything else is refused with
    [-EINVAL] and without effect; what is read is the remaining time. *)
Theorem enable_file_correct env m buf now d text size :
  (forall x t, prints env (str "%d") (VInt x) t -> exists d' level, gpio_enable now d (s32 x) = (d', level) /\
     enable_store now d t size = Some (d', Some level, size)) /\
  (number_in text = None -> enable_store now d text size = Some (d, None, - EINVAL)) /\
  (0 <= buf < 2 ^ 31 ->
   let t := decimal (gpio_get_time now d) ++ [10] in
   exists m', enable_show env m buf now d = Some (m', zlen t, []) /\ printed m [] m' buf (buf_end buf INT_MAX) t).
Proof.
  split_and!.
  - intros x t Ht. destruct (scan_reads_printed env x 0) as (_ & (t' & Ht' & Hs) & _).
    unfold prints in *. rewrite Ht in Ht'. injection Ht' as <-. destruct (gpio_enable now d (s32 x)) as [d' level] eqn:E.
    exists d', level. split; [done|]. unfold enable_store, sscanf. rewrite Hs. change (mbind _ (Some ?p)) with (Some (let '(d, level) := gpio_enable now d (s32 x) in (d, Some level, size))). by rewrite E.
  - intros Hn. by rewrite enable_store_eq, Hn.
  - intros Hb t. pose proof (zlen_decimal (gpio_get_time now d)) as Hl.
    assert (s32 (gpio_get_time now d) = gpio_get_time now d) as Es.
    { apply s32_small. unfold gpio_get_time. destruct (timer d); [apply s32_range|lia]. }
    pose proof (formatted_line env (gpio_get_time now d)) as Hf. rewrite Es in Hf. fold t in Hf.
    assert (zlen t = zlen (decimal (gpio_get_time now d)) + 1) as El by (unfold t; by rewrite zlen_app).
    destruct (vsnprintf_at_spec _ env m buf INT_MAX _ _ t [] ltac:(lia) ltac:(unfold INT_MAX; lia) Hf) as (m' & E & Hp); [lia|lia| |].
    + right. repeat constructor.
    + exists m'. split; [exact E|exact Hp].
Qed.

(** ** Registration *)

(** Every entry of the array has its device, with the driver data. *)
Definition devices_of (s : system) (a : Z) (l : list timed_gpio_data) : Prop :=
  forall i d, l !! i = Some d -> exists n, d_dev d = TimedOutputDev (Device n) n 0 /\
    devices s !! n = Some (ClassDevice true (Some (a, Z.of_nat i))) /\ n <= device_count s.

(** The class is there or can be made, and its devices can be. *)
Record calls_ok (c : calls) : Prop := {
  co_class : 0 <= class_create c;
  co_device i : 0 <= device_create c i;
  co_file i : 0 <= device_create_file c i }.

Lemma register_ok c s p t :
  calls_ok c -> timed_output_class s = true -> 0 <= device_count s -> device_count s + 1 < 2 ^ 31 ->
  let n := device_count s + 1 in
  timed_output_dev_register c s p t =
    (set_devices <[n := ClassDevice true (Some p)]> (set_devices <[n := ClassDevice false None]> (set_count n s)), TimedOutputDev (Device n) n 0, 0).
Proof.
  intros [H1 H2 H3] Hc H0 Hn n. unfold timed_output_dev_register, create_timed_output_class. rewrite Hc. cbn.
  rewrite s32_small by lia. fold n. destruct (Z.ltb_spec (device_create c n) 0); [specialize (H2 n); lia|].
  destruct (Z.ltb_spec (device_create_file c n) 0); [specialize (H3 n); lia|]. done.
Qed.

(** The entries whose lines are granted get their devices. *)
Lemma probe_good c a s done l l' :
  calls_ok c -> timed_output_class s = true -> 0 <= device_count s -> device_count s + zlen l < 2 ^ 31 ->
  Forall (fun g => 0 <= gpio_request c (g_gpio g)) l -> devices_of s a done ->
  exists s' done', probe_loop c a s (zlen done) done (l ++ l') = probe_loop c a s' (zlen done') done' l' /\
    devices_of s' a done' /\ timed_output_class s' = true /\ length done' = (length done + length l)%nat /\
    requested s' = requested s ∪ list_to_set (g_gpio <$> l) /\ bad s' = bad s /\ devices s' !! 0 = devices s !! 0.
Proof.
  intros Hc. revert s done. induction l as [|g l IH]; intros s done Hcl H0 Hn Hl Hd.
  { exists s, done. split; [done|]. split_and!; [done|done|cbn; lia|set_solver|done|done]. }
  apply Forall_cons in Hl as [Hg Hl]. rewrite zlen_cons in Hn. pose proof (zlen_nonneg l).
  cbn [app probe_loop]. destruct (Z.leb_spec 0 (gpio_request c (g_gpio g))); [|lia].
  rewrite register_ok by (done || (cbn [set_requested device_count]; lia)). cbn [fst snd]. change (0 <? 0) with false. cbn iota.
  set (n := device_count (set_requested _ s) + 1). set (d := TimedGpioData _ None (g_gpio g) _ _). set (s1 := set_levels _ _).
  assert (zlen done + 1 = zlen (done ++ [d])) as -> by (by rewrite zlen_app).
  assert (device_count s1 = n /\ n = device_count s + 1) as [Ec En] by done.
  destruct (IH s1 (done ++ [d])) as (s' & done' & E & K1 & K2 & K3 & K4 & K5 & K6); [done|lia|lia|done| |].
  - intros i x Hx. apply lookup_app_Some in Hx as [Hx|[Hi Hx]].
    + destruct (Hd i x Hx) as (k & Ek & Ed & Hk). exists k. split; [done|]. rewrite Ec. split; [|lia].
      cbn. by rewrite !lookup_insert_ne by lia.
    + apply list_lookup_singleton_Some in Hx as [Hi' <-]. exists n. split; [done|]. rewrite Ec. split; [|lia].
      cbn. rewrite lookup_insert_eq. assert (zlen done = Z.of_nat i) as -> by (unfold zlen; lia). done.
  - exists s', done'. split; [exact E|]. split_and!; [done|done|rewrite K3, length_app; cbn; lia| |done|].
    + rewrite K4. cbn. set_solver.
    + rewrite K6. cbn. by rewrite !lookup_insert_ne by lia.
Qed.

(** Probing succeeds: every entry has its device with a file, and its line. *)
Theorem probe_registers c s a l :
  calls_ok c -> kzalloc c = Some a -> timed_output_class s = true -> 0 <= device_count s -> device_count s + zlen l < 2 ^ 31 ->
  Forall (fun g => 0 <= gpio_request c (g_gpio g)) l ->
  exists s' ds, timed_gpio_probe c s (Some l) = Some (s', 0) /\ arrays s' !! a = Some ds /\ length ds = length l /\
    devices_of s' a ds /\ requested s' = requested s ∪ list_to_set (g_gpio <$> l) /\ bad s' = bad s.
Proof.
  intros Hc Ha Hcl H0 Hn Hl. unfold timed_gpio_probe. rewrite Ha.
  destruct (probe_good c a (set_arrays <[a := replicate (length l) zero_data]> s) [] l []) as (s' & ds & E & H1 & _ & H3 & H4 & H5 & _);
    [done|done|done|done|done|intros i d Hd; by rewrite lookup_nil in Hd|].
  change (zlen (@nil timed_gpio_data)) with 0 in E. rewrite app_nil_r in E. rewrite E. exists (set_arrays <[a := ds]> s'), ds. split; [done|].
  split; [cbn; by rewrite lookup_insert_eq|]. split_and!; [done|done|done|done].
Qed.

Lemma unwind_nothing n s : devices s !! 0 = None -> exists s', probe_unwind n s zero_data = Some s' /\
  devices s' = devices s /\ device_count s' = device_count s /\ requested s' ⊆ requested s /\
  ((0 < n)%nat -> 0 ∉ requested s').
Proof.
  intros H0. revert s H0. induction n as [|n IH]; intros s H0; [exists s; split_and!; [done|done|done|done|lia]|].
  cbn. destruct (IH (set_requested (fun r => r ∖ {[0]}) (device_destroy s 0))) as (s' & -> & E1 & E2 & E3 & E4).
  { cbn. by rewrite lookup_delete_eq. }
  exists s'. split; [done|]. cbn in *. rewrite delete_id in E1 by done. split_and!; [done|done|set_solver|set_solver].
Qed.

(** A probe that fails leaves devices behind.  When the line of an entry other
    than the first is refused, the devices of the entries before stay
    registered, with their file and with driver data in the array, which is
    freed; their lines stay requested, except for line 0, which is freed
    whoever holds it. *)
Theorem failed_probe_leaves_devices c s a l g l' :
  calls_ok c -> kzalloc c = Some a -> timed_output_class s = true -> 0 <= device_count s -> device_count s + zlen l < 2 ^ 31 ->
  Forall (fun g => 0 <= gpio_request c (g_gpio g)) l -> gpio_request c (g_gpio g) < 0 -> l <> [] -> devices s !! 0 = None ->
  exists s', timed_gpio_probe c s (Some (l ++ g :: l')) = Some (s', gpio_request c (g_gpio g)) /\
    arrays s' !! a = None /\ (0 ∉ requested s') /\
    forall i, (i < length l)%nat -> exists n, devices s' !! n = Some (ClassDevice true (Some (a, Z.of_nat i))).
Proof.
  intros Hc Ha Hcl H0 Hn Hl Hg Hne Hz. unfold timed_gpio_probe. rewrite Ha.
  destruct (probe_good c a (set_arrays <[a := replicate (length (l ++ g :: l')) zero_data]> s) [] l (g :: l'))
    as (s1 & ds & E & H1 & _ & H3 & H4 & H5 & H6); [done|done|done|done|done|intros i d Hd; by rewrite lookup_nil in Hd|].
  change (zlen (@nil timed_gpio_data)) with 0 in E. rewrite E. cbn [probe_loop].
  destruct (Z.leb_spec 0 (gpio_request c (g_gpio g))); [lia|]. destruct (Z.ltb_spec (gpio_request c (g_gpio g)) 0); [|lia].
  destruct (unwind_nothing (Z.to_nat (zlen ds)) s1) as (s2 & -> & E1 & _ & _ & E4); [by rewrite H6|].
  eexists. split; [reflexivity|]. split_and!; cbn.
  - apply lookup_delete_eq.
  - apply E4. destruct l; [done|]. unfold zlen. cbn in H3. lia.
  - intros i Hi. rewrite E1. destruct (lookup_lt_is_Some_2 ds i) as [d Hd]; [cbn in H3; lia|].
    destruct (H1 i d Hd) as (n & _ & Hn' & _). by exists n.
Qed.

(** Unregistering a device uses it after it was freed: [device_destroy] drops
    the only reference before the driver data is cleared. *)
Theorem unregister_uses_freed s n st x :
  devices s !! n = Some x ->
  exists s', timed_output_dev_unregister s (TimedOutputDev (Device n) n st) = Some s' /\
    devices s' = delete n (devices s) /\ bad s' = bad s ++ [n].
Proof.
  intros Hx. unfold timed_output_dev_unregister. cbn. rewrite Hx. cbn. rewrite lookup_delete_eq. eexists. split; [done|]. cbn.
  split; [|done]. apply delete_insert_eq.
Qed.

(** A device whose [device_create] failed is unwound through the error value. *)
Example unwind_wild :
  let c := Calls 0 (fun i => if i =? 2 then - ENOMEM else 0) (fun _ => 0) (fun _ => 0) (Some 7) in
  timed_gpio_probe c (System true 0 ∅ ∅ ∅ ∅ []) (Some [TimedGpio 3 100 0; TimedGpio 4 100 0]) = None.
Proof. reflexivity. Qed.

(** Removing an output does not stop its timer: the array is freed while it is
    armed. *)
Example remove_armed :
  let d := TimedGpioData (TimedOutputDev (Device 1) 1 0) (Some 100) 3 500 0 in
  exists s', timed_gpio_remove (System true 1 {[1 := ClassDevice true (Some (7, 0))]} {[7 := [d]]} {[3]} ∅ []) 7 = Some s' /\
    arrays s' !! 7 = None /\ bad s' = [1].
Proof. by eexists. Qed.
