(* ===== verification/Crc32.v ===== *)
(** * CRC-32 (lib/crc32.c, lib/gen_crc32table.c)

    The code takes four bytes at a time, with four tables that a generator
    writes when the kernel is built.  It computes the same as the loop over bits
    that the file has for small tables, in both bit orders and for buffers at
    any address; an error burst of at most 32 bits changes the result.

    A step is linear over exclusive or ([Linear]), so that two of them are equal
    when they are equal on the 32 powers of two. *)

From stdpp Require Import base numbers list.
From S2P Require Import Prelude.

Open Scope Z_scope.

Notation "a ⊕ b" := (Z.lxor a b) (at level 50, left associativity) : Z_scope.

(** ** The code *)

Definition CRCPOLY_LE : Z := 0xedb88320.
Definition CRCPOLY_BE : Z := 0x04c11db7.
Definition TABLE_SIZE : Z := 256.

(** [crc = (crc >> 1) ^ ((crc & 1) ? CRCPOLY_LE : 0)], and for the other order. *)
Definition step_le (crc : Z) : Z := Z.shiftr crc 1 ⊕ (if Z.odd crc then CRCPOLY_LE else 0).
Definition step_be (crc : Z) : Z := u32 (Z.shiftl crc 1) ⊕ (if Z.testbit crc 31 then CRCPOLY_BE else 0).

(** The code for tables of one bit. *)
Definition byte_le (crc x : Z) : Z := Nat.iter 8 step_le (crc ⊕ x).
Definition byte_be (crc x : Z) : Z := Nat.iter 8 step_be (crc ⊕ Z.shiftl x 24).
Definition crc32_le_bits (crc : Z) (p : list Z) : Z := foldl byte_le crc p.
Definition crc32_be_bits (crc : Z) (p : list Z) : Z := foldl byte_be crc p.

(** The generator: [crc32table_xx[0]], filled by the inner and the outer loop,
    and the tables 1 to 3 made from it. *)
Definition fill_le (crc i : Z) (t : list Z) : list Z :=
  foldl (fun t k => let j := k * (2 * i) in <[Z.to_nat (i + j) := crc ⊕ bget t j]> t) t (seqZ 0 (TABLE_SIZE / (2 * i))).
Definition crc32init_le_0 : list Z :=
  (foldl (fun '(crc, t) k => let i := Z.shiftr 128 k in let crc := step_le crc in (crc, fill_le crc i t))
     (1, replicate 256 0) (seqZ 0 8)).2.
Definition next_le (t : list Z) (crc : Z) : Z := bget t (Z.land crc 255) ⊕ Z.shiftr crc 8.
Definition crc32table_le : list (list Z) :=
  let t := crc32init_le_0 in
  let t1 := next_le t <$> t in let t2 := next_le t <$> t1 in let t3 := next_le t <$> t2 in [t; t1; t2; t3].

Definition fill_be (crc i : Z) (t : list Z) : list Z :=
  foldl (fun t j => <[Z.to_nat (i + j) := crc ⊕ bget t j]> t) t (seqZ 0 i).
Definition crc32init_be_0 : list Z :=
  (foldl (fun '(crc, t) k => let i := Z.shiftl 1 k in let crc := step_be crc in (crc, fill_be crc i t))
     (2 ^ 31, replicate 256 0) (seqZ 0 8)).2.
Definition next_be (t : list Z) (crc : Z) : Z := bget t (Z.land (Z.shiftr crc 24) 255) ⊕ u32 (Z.shiftl crc 8).
Definition crc32table_be : list (list Z) :=
  let t := crc32init_be_0 in
  let t1 := next_be t <$> t in let t2 := next_be t <$> t1 in let t3 := next_be t <$> t2 in [t; t1; t2; t3].

(** [cpu_to_be32] on a little-endian machine; [cpu_to_le32] does nothing. *)
Definition swab32 (x : Z) : Z :=
  Z.lor (Z.lor (Z.lor (Z.shiftl (Z.land x 0x000000ff) 24) (Z.shiftl (Z.land x 0x0000ff00) 8))
    (Z.shiftr (Z.land x 0x00ff0000) 8)) (Z.shiftr (Z.land x 0xff000000) 24).

Section body.
Context (tab : list (list Z)).

Definition tab_at (k i : Z) : Z := bget (nth (Z.to_nat k) tab []) i.
Definition DO_CRC (crc x : Z) : Z := tab_at 0 (Z.land (crc ⊕ x) 255) ⊕ Z.shiftr crc 8.
Definition DO_CRC4 (crc : Z) : Z :=
  tab_at 3 (Z.land crc 255) ⊕ tab_at 2 (Z.land (Z.shiftr crc 8) 255) ⊕
  tab_at 1 (Z.land (Z.shiftr crc 16) 255) ⊕ tab_at 0 (Z.land (Z.shiftr crc 24) 255).

(** [do { DO_CRC( *buf++); } while ((--len) && ((long)buf)&3)], at the address [a]. *)
Fixpoint align_loop (crc a : Z) (buf : list Z) : Z * list Z :=
  match buf with
  | [] => (crc, [])
  | x :: buf =>
      let crc := DO_CRC crc x in
      if negb (zlen buf =? 0) && negb (Z.land (a + 1) 3 =? 0) then align_loop crc (a + 1) buf else (crc, buf)
  end.

(** The loop over [n] words. *)
Fixpoint word_loop (n : nat) (crc : Z) (b : list Z) : Z * list Z :=
  match n with
  | O => (crc, b)
  | S n => word_loop n (DO_CRC4 (crc ⊕ le_Z (take 4 b))) (drop 4 b)
  end.

Definition crc32_body (crc a : Z) (buf : list Z) : Z :=
  let '(crc, buf) := if negb (Z.land a 3 =? 0) && negb (zlen buf =? 0) then align_loop crc a buf else (crc, buf) in
  let rem_len := Z.land (zlen buf) 3 in
  let '(crc, p) := word_loop (Z.to_nat (Z.shiftr (zlen buf) 2)) crc buf in
  foldl DO_CRC crc (take (Z.to_nat rem_len) p).
End body.

(** The CRC of the bytes [p] at the address [a]. *)
Definition crc32_le (crc a : Z) (p : list Z) : Z := crc32_body crc32table_le crc a p.
Definition crc32_be (crc a : Z) (p : list Z) : Z :=
  swab32 (crc32_body (map (map swab32) crc32table_be) (swab32 crc) a p).

(** ** Linear functions *)

Class Linear (f : Z -> Z) : Prop := linear a b : f (a ⊕ b) = f a ⊕ f b.

#[export] Instance linear_id : Linear (fun x => x).
Proof. by intros a b. Qed.
#[export] Instance linear_xor f g : Linear f -> Linear g -> Linear (fun x => f x ⊕ g x).
Proof. intros Hf Hg a b. rewrite (Hf a b), (Hg a b), !Z.lxor_assoc. f_equal. rewrite <- !Z.lxor_assoc. f_equal. apply Z.lxor_comm. Qed.
#[export] Instance linear_shiftr f k : Linear f -> Linear (fun x => Z.shiftr (f x) k).
Proof. intros Hf a b. by rewrite (Hf a b), Z.shiftr_lxor. Qed.
#[export] Instance linear_shiftl f k : Linear f -> Linear (fun x => Z.shiftl (f x) k).
Proof. intros Hf a b. by rewrite (Hf a b), Z.shiftl_lxor. Qed.
#[export] Instance linear_land f m : Linear f -> Linear (fun x => Z.land (f x) m).
Proof.
  intros Hf a b. rewrite (Hf a b). apply Z.bits_inj'. intros n _. rewrite Z.lxor_spec, !Z.land_spec, Z.lxor_spec.
  by destruct (Z.testbit (f a) n), (Z.testbit (f b) n), (Z.testbit m n).
Qed.
#[export] Instance linear_bit f k c : Linear f -> Linear (fun x => if Z.testbit (f x) k then c else 0).
Proof.
  intros Hf a b. rewrite (Hf a b), Z.lxor_spec.
  destruct (Z.testbit (f a) k), (Z.testbit (f b) k); cbn [xorb]; by rewrite ?Z.lxor_nilpotent, ?Z.lxor_0_r, ?Z.lxor_0_l.
Qed.
Lemma linear_ext f g : (forall x, f x = g x) -> Linear g -> Linear f.
Proof. intros E Hg a b. by rewrite !E. Qed.
Lemma linear_comp f g : Linear f -> Linear g -> Linear (fun x => f (g x)).
Proof. intros Hf Hg a b. by rewrite (Hg a b), (Hf (g a) (g b)). Qed.
Lemma linear_iter n f : Linear f -> Linear (Nat.iter n f).
Proof. intros Hf. induction n as [|n IH]; [apply linear_id|]. by apply (linear_comp f (Nat.iter n f)). Qed.
Lemma linear_0 f : Linear f -> f 0 = 0.
Proof. intros Hf. pose proof (Hf 0 0) as H. rewrite (Z.lxor_nilpotent (f 0)) in H. exact H. Qed.

#[export] Instance linear_u32 f : Linear f -> Linear (fun x => u32 (f x)).
Proof.
  intros Hf. apply (linear_ext _ (fun x => Z.land (f x) (2 ^ 32 - 1))); [|apply _]. intros x. symmetry. apply (land_pow2_mod (f x) 32). lia.
Qed.
#[export] Instance linear_step_le : Linear step_le.
Proof.
  apply (linear_ext _ (fun x => Z.shiftr x 1 ⊕ (if Z.testbit x 0 then CRCPOLY_LE else 0))); [|apply _].
  intros x. unfold step_le. by rewrite Z.bit0_odd.
Qed.
#[export] Instance linear_step_be : Linear step_be.
Proof. unfold step_be. apply _. Qed.

(** A property of 0 and the powers of two that exclusive or keeps. *)
Lemma basis_ind (P : Z -> Prop) n :
  P 0 -> (forall a b, P a -> P b -> P (a ⊕ b)) -> (forall k, 0 <= k < Z.of_nat n -> P (2 ^ k)) ->
  forall x, 0 <= x < 2 ^ Z.of_nat n -> P x.
Proof.
  intros H0 Hx. induction n as [|n IH]; intros Hk x Hb; [change (2 ^ Z.of_nat 0) with 1 in Hb; by replace x with 0 by lia|].
  destruct (Z.lt_ge_cases x (2 ^ Z.of_nat n)) as [Hlt|Hge]; [apply IH; [intros k ?; apply Hk; lia|lia]|].
  rewrite Nat2Z.inj_succ, Z.pow_succ_r in Hb by lia. set (m := Z.of_nat n) in *.
  assert (Z.testbit x m = true) as Hbit.
  { apply Z.testbit_true; [lia|]. replace (x / 2 ^ m) with 1; [done|]. apply Z.div_unique with (x - 2 ^ m); lia. }
  assert (x = (x - 2 ^ m) ⊕ 2 ^ m) as ->.
  { apply Z.bits_inj'. intros i Hi. rewrite Z.lxor_spec. replace (x - 2 ^ m) with (Z.ldiff x (2 ^ m)).
    - rewrite Z.ldiff_spec. destruct (Z.eq_dec i m) as [->|Hne].
      + by rewrite Z.pow2_bits_true, Hbit by lia.
      + rewrite Z.pow2_bits_false by lia. cbn. by rewrite andb_true_r, xorb_false_r.
    - symmetry. apply Z.sub_nocarry_ldiff. apply Z.bits_inj'. intros j Hj. rewrite Z.ldiff_spec, Z.bits_0.
      destruct (Z.eq_dec j m) as [->|Hne]; [by rewrite Hbit, andb_false_r|by rewrite Z.pow2_bits_false by lia]. }
  apply Hx; [|apply Hk; lia]. apply IH; [intros k ?; apply Hk; lia|lia].
Qed.

(** Checks on all numbers below a bound. *)
Lemma forallb_seqZ (P : Z -> bool) n : forallb P (seqZ 0 n) = true -> forall k, 0 <= k < n -> P k = true.
Proof. intros H k Hk. rewrite forallb_forall in H. apply H, list_elem_of_In, elem_of_seqZ. lia. Qed.

(** Linear functions that agree on powers of two, which can be evaluated. *)
Lemma linear_eq f g n :
  Linear f -> Linear g -> forallb (fun k => f (2 ^ k) =? g (2 ^ k)) (seqZ 0 (Z.of_nat n)) = true ->
  forall x, 0 <= x < 2 ^ Z.of_nat n -> f x = g x.
Proof.
  intros Hf Hg Hall. apply basis_ind; [by rewrite !linear_0|intros a b Ha Hb; by rewrite (Hf a b), (Hg a b), Ha, Hb|].
  intros k Hk. apply Z.eqb_eq, (forallb_seqZ _ _ Hall). lia.
Qed.

Definition in32 (x : Z) : Prop := 0 <= x < 2 ^ 32.

Lemma in32_xor a b : in32 a -> in32 b -> in32 (a ⊕ b).
Proof.
  unfold in32. intros Ha Hb. rewrite <- (Z.mod_small a (2 ^ 32)), <- (Z.mod_small b (2 ^ 32)), <- !land_pow2_mod by lia.
  rewrite <- (linear_land (fun x => x) (2 ^ 32 - 1) _ a b), land_pow2_mod by lia. apply Z.mod_pos_bound. lia.
Qed.

Lemma linear_in32 f n :
  Linear f -> forallb (fun k => (0 <=? f (2 ^ k)) && (f (2 ^ k) <? 2 ^ 32)) (seqZ 0 (Z.of_nat n)) = true ->
  forall x, 0 <= x < 2 ^ Z.of_nat n -> in32 (f x).
Proof.
  intros Hf Hall. apply basis_ind; [rewrite linear_0 by done; done|intros a b Ha Hb; rewrite (Hf a b); by apply in32_xor|].
  intros k Hk. pose proof (forallb_seqZ _ _ Hall k ltac:(lia)) as H. cbn beta in H. unbool. done.
Qed.

(** ** The tables *)

Lemma masks_disjoint a b m k : Z.land m k = 0 -> Z.land (Z.land a m) (Z.land b k) = 0.
Proof.
  intros H. apply Z.bits_inj'. intros n _. apply (f_equal (fun z => Z.testbit z n)) in H. rewrite Z.bits_0, Z.land_spec in H.
  rewrite Z.bits_0, !Z.land_spec. destruct (Z.testbit a n), (Z.testbit b n), (Z.testbit m n), (Z.testbit k n); done.
Qed.

Lemma lor_xor a b : Z.land a b = 0 -> Z.lor a b = a ⊕ b.
Proof. intros H. symmetry. by apply Z.lxor_lor. Qed.

#[export] Instance linear_swab32 : Linear swab32.
Proof.
  apply (linear_ext _ (fun x => Z.shiftl (Z.land x 0x000000ff) 24 ⊕ Z.shiftl (Z.land x 0x0000ff00) 8 ⊕
    Z.shiftr (Z.land x 0x00ff0000) 8 ⊕ Z.shiftr (Z.land x 0xff000000) 24)); [|apply _].
  intros x. unfold swab32. rewrite !Z.shiftl_land, !Z.shiftr_land.
  assert (forall a b c, Z.land (a ⊕ b) c = Z.land a c ⊕ Z.land b c) as Hd by (intros a b c; apply (linear_land (fun x => x) c _ a b)).
  match goal with |- Z.lor (Z.lor (Z.lor ?a ?b) ?c) ?d = _ =>
    rewrite (lor_xor a b), (lor_xor (a ⊕ b) c), (lor_xor (a ⊕ b ⊕ c) d) by (rewrite ?Hd; rewrite ?masks_disjoint by reflexivity; reflexivity)
  end. done.
Qed.

Lemma tables_le : crc32table_le = map (fun k => map (Nat.iter (Z.to_nat (8 * (k + 1))) step_le) (seqZ 0 256)) (seqZ 0 4).
Proof. by vm_compute. Qed.
Lemma tables_be :
  map (map swab32) crc32table_be =
  map (fun k => map (fun i => swab32 (Nat.iter (Z.to_nat (8 * (k + 1))) step_be (Z.shiftl i 24))) (seqZ 0 256)) (seqZ 0 4).
Proof. by vm_compute. Qed.

Lemma tab_at_map (f : Z -> Z -> Z) k i :
  0 <= k < 4 -> 0 <= i < 256 -> tab_at (map (fun k => map (f k) (seqZ 0 256)) (seqZ 0 4)) k i = f k i.
Proof.
  intros Hk Hi. unfold tab_at, bget. rewrite (nth_lookup_Some _ (Z.to_nat k) _ (map (f k) (seqZ 0 256))).
  - apply nth_lookup_Some. change (map (f k)) with (fmap (M := list) (f k)). rewrite list_lookup_fmap, lookup_seqZ_lt by lia. cbn. f_equal. f_equal. lia.
  - change (map ?g (seqZ 0 4)) with (fmap (M := list) g (seqZ 0 4)). rewrite list_lookup_fmap, lookup_seqZ_lt by lia. cbn. do 3 f_equal. lia.
Qed.

(** ** Words are four bytes

    For tables that stand for a linear function [F] of one byte. *)

Section words.
Context (tab : list (list Z)) (F : Z -> Z).
Context {HF : Linear F} (HF32 : forall c, in32 c -> in32 (F c)).
Context (Hshift : forall y, 0 <= y < 2 ^ 24 -> F (Z.shiftl y 8) = y).
Context (Hone : forall c x, in32 c -> is_byte x -> DO_CRC tab c x = F (c ⊕ x)).
Context (Hfour : forall c, in32 c -> DO_CRC4 tab c = F (F (F (F c)))).

Definition by_bytes (crc : Z) (p : list Z) : Z := foldl (fun c x => F (c ⊕ x)) crc p.

Lemma by_bytes_app c p q : by_bytes c (p ++ q) = by_bytes (by_bytes c p) q.
Proof using. apply foldl_app. Qed.

Lemma in32_byte x : is_byte x -> in32 x.
Proof using. unfold is_byte, in32. lia. Qed.

Lemma by_bytes_in32 crc p : in32 crc -> Forall is_byte p -> in32 (by_bytes crc p).
Proof using HF32.
  intros Hc Hp. revert crc Hc. induction Hp as [|x p Hx _ IH]; intros c Hc; [done|]. apply IH, HF32, in32_xor; [done|by apply in32_byte].
Qed.

(** A byte in front of a word is shifted out first. *)
Lemma F_byte c b y : 0 <= y < 2 ^ 24 -> is_byte b -> F (c ⊕ (b + 256 * y)) = F (c ⊕ b) ⊕ y.
Proof using HF Hshift.
  intros Hy Hb. replace (b + 256 * y) with (b ⊕ Z.shiftl y 8).
  - rewrite <- Z.lxor_assoc, (HF (c ⊕ b)), Hshift by done. done.
  - rewrite Z.lxor_comm, <- Z.add_nocarry_lxor; [rewrite Z.shiftl_mul_pow2 by lia; lia|].
    apply Z.bits_inj'. intros n Hn. rewrite Z.land_spec, Z.bits_0. destruct (Z.ltb_spec n 8).
    + by rewrite Z.shiftl_spec_low.
    + rewrite <- (Z.mod_small b (2 ^ 8)), Z.mod_pow2_bits_high by (unfold is_byte in Hb; lia). apply andb_false_r.
Qed.

Lemma four_steps c b0 b1 b2 b3 :
  Forall is_byte [b0; b1; b2; b3] -> F (F (F (F (c ⊕ le_Z [b0; b1; b2; b3])))) = by_bytes c [b0; b1; b2; b3].
Proof using HF Hshift.
  intros Hb. rewrite !Forall_cons in Hb. destruct Hb as (H0 & H1 & H2 & H3 & _). unfold is_byte in *. cbn [le_Z by_bytes foldl].
  rewrite F_byte, F_byte, F_byte by (unfold is_byte; lia). do 2 f_equal. lia.
Qed.

Lemma word_bytes c b0 b1 b2 b3 :
  in32 c -> Forall is_byte [b0; b1; b2; b3] -> DO_CRC4 tab (c ⊕ le_Z [b0; b1; b2; b3]) = by_bytes c [b0; b1; b2; b3].
Proof using HF HF32 Hshift Hfour.
  intros Hc Hb. pose proof (le_Z_range [b0; b1; b2; b3] Hb) as Hr. change (256 ^ zlen _) with (2 ^ 32) in Hr.
  rewrite Hfour by (by apply in32_xor). by apply four_steps.
Qed.

Lemma word_loop_bytes n c p :
  in32 c -> Forall is_byte p -> (4 * n <= length p)%nat ->
  word_loop tab n c p = (by_bytes c (take (4 * n) p), drop (4 * n) p).
Proof using HF HF32 Hshift Hfour.
  revert c p. induction n as [|n IH]; intros c p Hc Hp Hl; [by rewrite Nat.mul_0_r, drop_0|].
  destruct p as [|b0 [|b1 [|b2 [|b3 p]]]]; cbn in Hl; try lia. cbn [word_loop]. cbn [take drop].
  replace (4 * S n)%nat with (4 + 4 * n)%nat by lia. cbn [Nat.add take drop].
  assert (Forall is_byte [b0; b1; b2; b3] /\ Forall is_byte p) as [Hb Hp'] by (rewrite !Forall_cons in *; naive_solver).
  rewrite word_bytes, drop_0, IH; [done|by apply by_bytes_in32|done|lia|done|done].
Qed.

Lemma align_loop_bytes c a p :
  in32 c -> Forall is_byte p -> exists k, align_loop tab c a p = (by_bytes c (take k p), drop k p).
Proof using HF32 Hone.
  intros Hc Hp. revert c a Hc. induction Hp as [|x p Hx Hp IH]; intros c a Hc; [by exists 0%nat|]. cbn [align_loop].
  rewrite Hone by done. destruct (_ && _).
  - destruct (IH (F (c ⊕ x)) (a + 1)) as [k E]; [by apply HF32, in32_xor; [|apply in32_byte]|]. exists (S k). exact E.
  - by exists 1%nat.
Qed.

Lemma rest_bytes c p : in32 c -> Forall is_byte p -> foldl (DO_CRC tab) c p = by_bytes c p.
Proof using HF32 Hone.
  intros Hc Hp. revert c Hc. induction Hp as [|x p Hx _ IH]; intros c Hc; [done|]. cbn. rewrite Hone by done.
  apply IH. by apply HF32, in32_xor; [|apply in32_byte].
Qed.

Lemma crc32_body_bytes c a p : in32 c -> Forall is_byte p -> crc32_body tab c a p = by_bytes c p.
Proof using HF HF32 Hshift Hone Hfour.
  intros Hc Hp. unfold crc32_body.
  assert (exists k, (if negb (Z.land a 3 =? 0) && negb (zlen p =? 0) then align_loop tab c a p else (c, p)) =
    (by_bytes c (take k p), drop k p)) as [k ->].
  { destruct (_ && _); [by apply align_loop_bytes|by exists 0%nat]. }
  assert (in32 (by_bytes c (take k p))) as Hc' by (apply by_bytes_in32; [done|by apply Forall_take]).
  assert (by_bytes c p = by_bytes (by_bytes c (take k p)) (drop k p)) as ->.
  { by rewrite <- by_bytes_app, take_drop. }
  assert (Forall is_byte (drop k p)) as Hq by (by apply Forall_drop). revert Hc' Hq. generalize (by_bytes c (take k p)), (drop k p).
  clear c p k Hc Hp. intros c p Hc Hp. change 3 with (2 ^ 2 - 1). rewrite land_pow2_mod by lia. rewrite Z.shiftr_div_pow2 by lia. change (2 ^ 2) with 4.
  set (n := Z.to_nat (zlen p / 4)). pose proof (zlen_nonneg p). pose proof (Z.div_mod (zlen p) 4 ltac:(lia)).
  pose proof (Z.mod_pos_bound (zlen p) 4 ltac:(lia)). assert (4 * n <= length p)%nat as Hn by (unfold n, zlen in *; lia).
  rewrite word_loop_bytes by done. rewrite (take_ge (drop _ _)) by (rewrite length_drop; unfold n, zlen in *; lia).
  rewrite rest_bytes; [|by apply by_bytes_in32; [|apply Forall_take]|by apply Forall_drop].
  by rewrite <- by_bytes_app, take_drop.
Qed.

End words.

(** ** Both orders *)

Definition F_le : Z -> Z := Nat.iter 8 step_le.
Definition F_be (c : Z) : Z := swab32 (Nat.iter 8 step_be (swab32 c)).

#[export] Instance linear_F_le : Linear F_le.
Proof. apply linear_iter, _. Qed.
#[export] Instance linear_F_be : Linear F_be.
Proof.
  apply (linear_comp swab32 (fun c => Nat.iter 8 step_be (swab32 c))); [apply _|].
  apply (linear_comp (Nat.iter 8 step_be) swab32); [apply linear_iter, _|apply _].
Qed.

#[global] Typeclasses Opaque step_le step_be swab32 F_le F_be Nat.iter.

Lemma land_byte c : is_byte (Z.land c 255).
Proof. change 255 with (2 ^ 8 - 1). rewrite land_pow2_mod by lia. apply Z.mod_pos_bound. lia. Qed.

(** One byte: a table for the low byte, and a shift. *)
Lemma one_byte tab F c x :
  Linear F -> Linear (fun i => F (Z.land i 255) ⊕ Z.shiftr i 8) -> (forall i, is_byte i -> tab_at tab 0 i = F i) ->
  forallb (fun k => F (Z.land (2 ^ k) 255) ⊕ Z.shiftr (2 ^ k) 8 =? F (2 ^ k)) (seqZ 0 32) = true ->
  in32 c -> is_byte x -> DO_CRC tab c x = F (c ⊕ x).
Proof.
  intros HF HG Ht Hall Hc Hx. unfold DO_CRC. rewrite Ht by apply land_byte.
  rewrite <- (linear_eq (fun i => F (Z.land i 255) ⊕ Z.shiftr i 8) F 32 HG HF Hall (c ⊕ x)).
  - f_equal. rewrite Z.shiftr_lxor, (Z.shiftr_div_pow2 x), (Z.div_small x) by (unfold is_byte in Hx; lia). by rewrite Z.lxor_0_r.
  - apply in32_xor; [done|by apply in32_byte].
Qed.

(** Four bytes: each table stands for its part of the word. *)
Definition four_parts (T : Z -> Z -> Z) (c : Z) : Z :=
  T 3 (Z.land c 255) ⊕ T 2 (Z.land (Z.shiftr c 8) 255) ⊕ T 1 (Z.land (Z.shiftr c 16) 255) ⊕ T 0 (Z.land (Z.shiftr c 24) 255).

Lemma four_bytes tab T F c :
  (forall k, Linear (T k)) -> Linear F -> (forall k i, 0 <= k < 4 -> is_byte i -> tab_at tab k i = T k i) ->
  forallb (fun k => four_parts T (2 ^ k) =? F (F (F (F (2 ^ k))))) (seqZ 0 32) = true ->
  in32 c -> DO_CRC4 tab c = F (F (F (F c))).
Proof.
  intros HT HF Ht Hall Hc. unfold DO_CRC4. rewrite !Ht by (lia || apply land_byte).
  apply (linear_eq (four_parts T) (fun c => F (F (F (F c)))) 32); [| |exact Hall|exact Hc].
  - repeat apply linear_xor; refine (linear_comp _ _ (HT _) _); apply _.
  - exact (linear_iter 4 F HF).
Qed.

Lemma F_le_shift y : 0 <= y < 2 ^ 24 -> F_le (Z.shiftl y 8) = y.
Proof. apply (linear_eq (fun y => F_le (Z.shiftl y 8)) (fun y => y) 24); [apply (linear_comp F_le); apply _|apply _|by vm_compute]. Qed.

Lemma F_le_in32 c : in32 c -> in32 (F_le c).
Proof. apply (linear_in32 F_le 32); [apply _|by vm_compute]. Qed.

Lemma le_body c a p : in32 c -> Forall is_byte p -> crc32_le c a p = by_bytes F_le c p.
Proof.
  assert (forall k i, 0 <= k < 4 -> is_byte i -> tab_at crc32table_le k i = Nat.iter (Z.to_nat (8 * (k + 1))) step_le i) as Ht.
  { intros k i Hk Hi. rewrite tables_le. by apply (tab_at_map (fun k => Nat.iter (Z.to_nat (8 * (k + 1))) step_le)). }
  apply (@crc32_body_bytes _ F_le linear_F_le).
  - apply F_le_in32.
  - apply F_le_shift.
  - intros c' x. apply one_byte; [apply _| |intros; by apply Ht|by vm_compute].
    apply linear_xor; [apply (linear_comp F_le)|]; apply _.
  - intros c'. apply (four_bytes _ (fun k => Nat.iter (Z.to_nat (8 * (k + 1))) step_le)); [intros k; apply linear_iter, _|apply _|done|by vm_compute].
Qed.

Lemma be_body c a p : in32 c -> Forall is_byte p -> crc32_body (map (map swab32) crc32table_be) c a p = by_bytes F_be c p.
Proof.
  set (T := fun k i => swab32 (Nat.iter (Z.to_nat (8 * (k + 1))) step_be (Z.shiftl i 24))).
  assert (forall k i, 0 <= k < 4 -> is_byte i -> tab_at (map (map swab32) crc32table_be) k i = T k i) as Ht.
  { intros k i Hk Hi. rewrite tables_be. by apply (tab_at_map T). }
  assert (forall k, Linear (T k)) as HT.
  { intros k. apply (linear_comp swab32 (fun i => Nat.iter (Z.to_nat (8 * (k + 1))) step_be (Z.shiftl i 24))); [apply _|].
    apply (linear_comp (Nat.iter (Z.to_nat (8 * (k + 1))) step_be)); [apply linear_iter, _|apply _]. }
  revert Ht. generalize (map (map swab32) crc32table_be). intros tab Ht.
  intros Hc Hp. apply (@crc32_body_bytes tab F_be linear_F_be); [| | | |exact Hc|exact Hp].
  - apply (linear_in32 F_be 32); [apply _|by vm_compute].
  - apply (linear_eq (fun y => F_be (Z.shiftl y 8)) (fun y => y) 24); [apply (linear_comp F_be); apply _|apply _|by vm_compute].
  - intros c' x. apply one_byte; [apply _| | |by vm_compute].
    + apply linear_xor; [apply (linear_comp F_be)|]; apply _.
    + intros i Hi. rewrite Ht by (done || lia).
      apply (linear_eq (T 0) F_be 8); [apply HT|apply _|by vm_compute|exact Hi].
  - intros c'. apply (four_bytes _ T); [done|apply _|done|by vm_compute].
Qed.

Lemma swab32_in32 x : in32 x -> in32 (swab32 x).
Proof. apply (linear_in32 swab32 32); [apply _|by vm_compute]. Qed.
Lemma swab32_swab32 x : in32 x -> swab32 (swab32 x) = x.
Proof. apply (linear_eq (fun x => swab32 (swab32 x)) (fun x => x) 32); [apply (linear_comp swab32); apply _|apply _|by vm_compute]. Qed.
Lemma swab32_byte x : is_byte x -> swab32 x = Z.shiftl x 24.
Proof. apply (linear_eq swab32 (fun x => Z.shiftl x 24) 8); [apply _|apply _|by vm_compute]. Qed.

Lemma by_bytes_le c p : by_bytes F_le c p = crc32_le_bits c p.
Proof. unfold by_bytes, crc32_le_bits, byte_le, F_le. reflexivity. Qed.

(** The word in memory order and the word in the order of the bits. *)
Lemma by_bytes_be c p : in32 c -> Forall is_byte p -> swab32 (by_bytes F_be (swab32 c) p) = crc32_be_bits c p.
Proof.
  intros Hc Hp. revert c Hc. induction Hp as [|x p Hx _ IH]; intros c Hc; [by apply swab32_swab32|].
  cbn [by_bytes foldl crc32_be_bits]. fold (by_bytes F_be (F_be (swab32 c ⊕ x)) p). fold (crc32_be_bits (byte_be c x) p).
  assert (in32 (Nat.iter 8 step_be (c ⊕ Z.shiftl x 24))) as Hi.
  { apply (linear_in32 (Nat.iter 8 step_be) 32); [apply linear_iter, _|by vm_compute|]. apply in32_xor; [done|].
    rewrite <- swab32_byte by done. by apply swab32_in32, in32_byte. }
  assert (F_be (swab32 c ⊕ x) = swab32 (byte_be c x)) as ->; [|by apply IH].
  unfold F_be, byte_be. by rewrite (linear_swab32 (swab32 c) x), swab32_swab32, (swab32_byte x) by done.
Qed.

(** ** Theorems *)

(** C18: The tables compute the CRC.  For every seed, every buffer and every
    address of it, the code that takes words with four tables, made by the
    generator, gives the same as the code that takes bits, in both orders. *)
Theorem crc32_tables_correct crc a p :
  0 <= crc < 2 ^ 32 -> Forall is_byte p ->
  crc32_le crc a p = crc32_le_bits crc p /\ crc32_be crc a p = crc32_be_bits crc p.
Proof.
  intros Hc Hp. split; [rewrite le_body by done; apply by_bytes_le|]. unfold crc32_be. rewrite be_body by (done || by apply swab32_in32). by apply by_bytes_be.
Qed.

Lemma crc32_tables_correct_witness :
  crc32_le (2 ^ 32 - 1) 4098 [1; 2; 3; 4; 5; 6; 7; 8; 9; 10; 11] = crc32_le_bits (2 ^ 32 - 1) [1; 2; 3; 4; 5; 6; 7; 8; 9; 10; 11] /\
  crc32_be 0 4097 [255; 0; 127; 3; 200] = crc32_be_bits 0 [255; 0; 127; 3; 200].
Proof.
  assert (Forall is_byte [1; 2; 3; 4; 5; 6; 7; 8; 9; 10; 11] /\ Forall is_byte [255; 0; 127; 3; 200]) as [H1 H2] by (split; repeat constructor; done).
  exact (conj (proj1 (crc32_tables_correct (2 ^ 32 - 1) 4098 _ ltac:(lia) H1)) (proj2 (crc32_tables_correct 0 4097 _ ltac:(lia) H2))).
Defined.

(** ** Errors that are detected *)

(** The bits of a message, in the order in which the code takes them. *)
Definition byte_bits (x : Z) : list bool := Z.testbit x <$> seqZ 0 8.
Definition bits_of (p : list Z) : list bool := concat (byte_bits <$> p).

Definition bit_le (c : Z) (b : bool) : Z := step_le (c ⊕ Z.b2z b).
Definition by_bits (c : Z) (l : list bool) : Z := foldl bit_le c l.

Lemma by_bits_xor c d l : by_bits (c ⊕ d) l = Nat.iter (length l) step_le c ⊕ by_bits d l.
Proof.
  revert c d. induction l as [|b l IH]; intros c d; [done|]. cbn [by_bits foldl length]. fold (by_bits (bit_le (c ⊕ d) b) l).
  fold (by_bits (bit_le d b) l). unfold bit_le at 1. rewrite Z.lxor_assoc, (linear_step_le c), IH. by rewrite Nat.iter_succ_r.
Qed.

Lemma byte_by_bits c x : is_byte x -> byte_le c x = by_bits c (byte_bits x).
Proof.
  intros Hx. rewrite <- (Z.lxor_0_r c) at 2. rewrite by_bits_xor. unfold byte_le. rewrite (linear_iter 8 step_le linear_step_le c x).
  f_equal. apply Z.eqb_eq. revert x Hx. apply (forallb_seqZ (fun x => Nat.iter 8 step_le x =? by_bits 0 (byte_bits x))). by vm_compute.
Qed.

Lemma crc32_le_by_bits c p : Forall is_byte p -> crc32_le_bits c p = by_bits c (bits_of p).
Proof.
  intros Hp. revert c. induction Hp as [|x p Hx _ IH]; intros c; [done|]. cbn [crc32_le_bits foldl]. fold (crc32_le_bits (byte_le c x) p).
  rewrite IH, byte_by_bits by done. unfold by_bits. rewrite <- foldl_app. done.
Qed.

(** A step loses nothing: the highest bit of the polynomial is set. *)
Lemma step_le_inj a b : in32 a -> in32 b -> step_le a = step_le b -> a = b.
Proof.
  assert (forall x, in32 x -> step_le x = 0 -> x = 0) as H0.
  { intros x Hx E. assert (Z.odd x = false) as Ho.
    { apply (f_equal (fun z => Z.testbit z 31)) in E. unfold step_le in E. rewrite Z.lxor_spec, Z.shiftr_spec, Z.bits_0 in E by lia.
      rewrite <- (Z.mod_small x (2 ^ 32)), (Z.mod_pow2_bits_high x 32) in E by (unfold in32 in Hx; lia).
      rewrite Z.mod_small in E by (unfold in32 in Hx; lia). by destruct (Z.odd x). }
    unfold step_le in E. rewrite Ho, Z.lxor_0_r, Z.shiftr_div_pow2 in E by lia. change (2 ^ 1) with 2 in E.
    pose proof (Z.div_mod x 2 ltac:(lia)). rewrite Zmod_odd, Ho in *. lia. }
  intros Ha Hb E. apply Z.lxor_eq, H0; [by apply in32_xor|]. by rewrite (linear_step_le a b), E, Z.lxor_nilpotent.
Qed.

Lemma step_le_in32 c : in32 c -> in32 (step_le c).
Proof. apply (linear_in32 step_le 32); [apply _|by vm_compute]. Qed.

Lemma b2z_in32 b : in32 (Z.b2z b).
Proof. by destruct b. Qed.

Lemma by_bits_in32 c l : in32 c -> in32 (by_bits c l).
Proof. revert c. induction l as [|b l IH]; intros c Hc; [done|]. apply IH, step_le_in32, in32_xor; [done|apply b2z_in32]. Qed.

Lemma by_bits_inj c d l : in32 c -> in32 d -> by_bits c l = by_bits d l -> c = d.
Proof.
  revert c d. induction l as [|b l IH]; intros c d Hc Hd E; [done|]. cbn in E.
  apply IH, step_le_inj in E; try (apply step_le_in32); try (apply in32_xor; [done|apply b2z_in32]).
  apply (f_equal (fun z => z ⊕ Z.b2z b)) in E. by rewrite !Z.lxor_assoc, Z.lxor_nilpotent, !Z.lxor_0_r in E.
Qed.

(** At most 32 bits are a word that is shifted through. *)
Definition pack (l : list bool) : Z := foldr (fun b z => Z.b2z b + 2 * z) 0 l.

Lemma pack_range l : 0 <= pack l < 2 ^ zlen l.
Proof.
  induction l as [|b l IH]; [done|]. cbn [pack foldr]. fold (pack l). rewrite zlen_cons, Z.pow_add_r by (pose proof (zlen_nonneg l); lia).
  destruct b; cbn; lia.
Qed.

Lemma pack_inj l k : length l = length k -> pack l = pack k -> l = k.
Proof.
  revert k. induction l as [|b l IH]; intros [|c k] Hl E; try done. cbn [pack foldr] in E. fold (pack l) (pack k) in E.
  assert (b = c /\ pack l = pack k) as [-> Hp] by (destruct b, c; cbn in E; split; (done || lia)). f_equal. apply IH; [cbn in Hl; lia|done].
Qed.

Lemma by_bits_pack l : (length l <= 32)%nat -> by_bits 0 l = Nat.iter (length l) step_le (pack l).
Proof.
  enough (forall c, by_bits c l = Nat.iter (length l) step_le (c ⊕ pack l)) as H by (intros; by rewrite H, Z.lxor_0_l).
  induction l as [|b l IH]; intros c; [cbn; by rewrite Z.lxor_0_r|]. cbn [by_bits foldl length pack foldr].
  fold (by_bits (bit_le c b) l) (pack l). rewrite IH, Nat.iter_succ_r. f_equal. unfold bit_le.
  rewrite !(linear_step_le c). rewrite Z.lxor_assoc. f_equal.
  replace (Z.b2z b + 2 * pack l) with (Z.b2z b ⊕ Z.shiftl (pack l) 1).
  - rewrite (linear_step_le (Z.b2z b)). f_equal. unfold step_le. rewrite Z.shiftl_mul_pow2 by lia. change (2 ^ 1) with 2.
    rewrite Z.mul_comm, Z.odd_mul. cbn [Z.odd andb]. rewrite Z.lxor_0_r, Z.shiftr_div_pow2 by lia. change (2 ^ 1) with 2.
    symmetry. rewrite Z.mul_comm. by apply Z.div_mul.
  - rewrite <- Z.add_nocarry_lxor; [rewrite Z.shiftl_mul_pow2 by lia; lia|]. apply Z.bits_inj'. intros n Hn. rewrite Z.land_spec, Z.bits_0.
    destruct (Z.eq_dec n 0) as [->|]; [rewrite Z.shiftl_spec_low by lia; apply andb_false_r|].
    destruct b; cbn [Z.b2z]; [|by rewrite Z.bits_0]. change 1 with (2 ^ 0) at 1. by rewrite Z.pow2_bits_false by lia.
Qed.

Lemma iter_step_inj n a b : in32 a -> in32 b -> Nat.iter n step_le a = Nat.iter n step_le b -> a = b.
Proof.
  revert a b. induction n as [|n IH]; intros a b Ha Hb E; [done|]. rewrite !Nat.iter_succ_r in E.
  apply step_le_inj; [done|done|]. apply IH; [by apply step_le_in32|by apply step_le_in32|done].
Qed.

(** C19: A burst of errors is found by [crc32_le].  Two messages of bytes whose
    bits, taken in its order, differ, but only in a part of at most 32 consecutive
    bits, have different CRCs, for every seed and every address. *)
Theorem crc32_detects_bursts crc a a' p p' before w w' after :
  0 <= crc < 2 ^ 32 -> Forall is_byte p -> Forall is_byte p' ->
  bits_of p = before ++ w ++ after -> bits_of p' = before ++ w' ++ after ->
  length w = length w' -> (length w <= 32)%nat -> w <> w' ->
  crc32_le crc a p <> crc32_le crc a' p'.
Proof.
  intros Hc Hp Hp' Ep Ep' Hl Hn Hne E. apply Hne. rewrite !le_body in E by done.
  rewrite (by_bytes_le crc p), (by_bytes_le crc p'), (crc32_le_by_bits crc p Hp), (crc32_le_by_bits crc p' Hp'), Ep, Ep' in E.
  unfold by_bits in E. rewrite !foldl_app in E. pose proof (by_bits_in32 crc before Hc) as Hb. fold (by_bits crc before) in E.
  apply by_bits_inj in E; [|by apply by_bits_in32|by apply by_bits_in32].
  revert E. rewrite <- (Z.lxor_0_r (by_bits crc before)). fold (by_bits (by_bits crc before ⊕ 0) w) (by_bits (by_bits crc before ⊕ 0) w').
  rewrite !by_bits_xor, <- Hl. intros E. apply (f_equal (fun z => Nat.iter (length w) step_le (by_bits crc before) ⊕ z)) in E.
  rewrite <- !Z.lxor_assoc, Z.lxor_nilpotent, !Z.lxor_0_l in E. rewrite !by_bits_pack, <- Hl in E by lia.
  assert (forall l, (length l <= 32)%nat -> in32 (pack l)) as Hi.
  { intros l H. pose proof (pack_range l). pose proof (Z.pow_le_mono_r 2 (zlen l) 32). unfold in32, zlen in *. lia. }
  apply pack_inj; [done|]. eapply iter_step_inj; [apply Hi; lia|apply Hi; lia|exact E].
Qed.

Lemma crc32_detects_bursts_witness : crc32_le 0 0 [1; 2; 3; 4; 5; 6] <> crc32_le 0 3 [1; 2; 0xfb; 0; 0xff; 6].
Proof.
  apply (crc32_detects_bursts 0 0 3 _ _ (bits_of [1; 2]) (bits_of [3; 4; 5]) (bits_of [0xfb; 0; 0xff]) (bits_of [6]));
    [done|repeat constructor; done|repeat constructor; done|reflexivity|reflexivity|reflexivity|vm_compute; lia|discriminate].
Defined.

Lemma le_word c : in32 c -> exists b0 b1 b2 b3, le_bytes 4 c = [b0; b1; b2; b3] /\ Forall is_byte [b0; b1; b2; b3] /\ le_Z [b0; b1; b2; b3] = c.
Proof.
  intros Hc. do 4 eexists. split; [reflexivity|]. split; [repeat constructor; apply Z.mod_pos_bound; lia|].
  cbn [le_Z]. unfold in32 in Hc. Z.to_euclidean_division_equations. lia.
Qed.

(** A message with its CRC behind it, in little-endian order, has the CRC 0,
    which is how receivers check it. *)
Theorem crc32_residue crc a a' p :
  0 <= crc < 2 ^ 32 -> Forall is_byte p -> crc32_le crc a' (p ++ le_bytes 4 (crc32_le crc a p)) = 0.
Proof.
  intros Hc Hp. assert (in32 (by_bytes F_le crc p)) as Hi by (apply by_bytes_in32; [apply F_le_in32|done|done]).
  rewrite (le_body crc a p) by done. destruct (le_word _ Hi) as (b0 & b1 & b2 & b3 & -> & Hb & E).
  rewrite le_body by (done || by apply Forall_app_2). rewrite by_bytes_app.
  rewrite <- (four_steps F_le F_le_shift _ b0 b1 b2 b3 Hb), E, Z.lxor_nilpotent. by rewrite !(linear_0 F_le linear_F_le).
Qed.
