(* ===== verification/Idr.v ===== *)
(** * Small integers for pointers (lib/idr.c)

    An idr hands out the lowest free number from a given one on, and finds the
    pointer that was registered with it.  It is a tree of layers with 32 slots;
    a bit of a layer says that everything below its slot is in use.  A layer on
    the way to a number is known by its level, so that the array [pa] of the code
    is the path of the number.  Layers come from a list that [idr_pre_get] fills;
    those on it are zero, and the list is their count.  Locks and the delayed
    release of layers are left out. *)

From stdpp Require Import base numbers list.
From S2P Require Import Prelude.

Open Scope Z_scope.

(** ** Layers *)

Definition IDR_BITS : Z := 5.
Definition IDR_SIZE : Z := 32.
Definition IDR_MASK : Z := 31.
Definition IDR_FULL : Z := 2 ^ 32 - 1.
Definition MAX_ID_BIT : Z := 2 ^ 31.
Definition MAX_ID_MASK : Z := 2 ^ 31 - 1.
Definition MAX_LEVEL : nat := 7.
Definition IDR_FREE_MAX : Z := 14.
Definition ENOSPC : Z := 28.
Definition ENOENT : Z := 2.

(** What a slot points to. *)
Inductive node := Null | Ptr (p : Z) | Layer (bitmap : Z) (ary : list node) (count : Z) (layer : nat).

Record idr := Idr { top : node; layers : nat; id_free_cnt : Z }.

Definition idr_init : idr := Idr Null 0 0.

Definition zero_layer (l : nat) : node := Layer 0 (replicate 32 Null) 0 l.

Definition slot (ary : list node) (i : Z) : node := nth (Z.to_nat i) ary Null.
Definition set_slot (ary : list node) (i : Z) (x : node) : list node := <[Z.to_nat i := x]> ary.

(** [(id >> (IDR_BITS * l)) & IDR_MASK] *)
Definition digit (l : nat) (id : Z) : Z := Z.land (Z.shiftr id (IDR_BITS * Z.of_nat l)) IDR_MASK.

(** The first bit that is 0 at [n] or behind it, 32 for none. *)
Fixpoint find_zero (fuel : nat) (bm n : Z) : Z :=
  match fuel with
  | O => IDR_SIZE
  | S fuel => if Z.testbit bm n then find_zero fuel bm (n + 1) else n
  end.
Definition next_zero (bm n : Z) : Z := find_zero (Z.to_nat (IDR_SIZE - n)) bm n.

(** The layer that is [d] levels below [x], which has the level [l], on the path
    of [id]; and an update of it. *)
Fixpoint node_at (d l : nat) (x : node) (id : Z) : node :=
  match d with
  | O => x
  | S d => match x with Layer _ ary _ _ => node_at d (l - 1) (slot ary (digit l id)) id | _ => Null end
  end.
Fixpoint update_at (d l : nat) (f : node -> node) (x : node) (id : Z) : node :=
  match d with
  | O => f x
  | S d =>
      match x with
      | Layer bm ary cnt lay => Layer bm (set_slot ary (digit l id) (update_at d (l - 1) f (slot ary (digit l id)) id)) cnt lay
      | _ => x
      end
  end.

(** [get_from_free_list]: whether there is a layer, and the rest of the list. *)
Definition get_from_free_list (free : Z) : bool * Z := if 0 <? free then (true, free - 1) else (false, free).

(** [idr_pre_get]; [avail] is the number of layers that can be allocated. *)
Fixpoint pre_get_loop (fuel : nat) (avail free : Z) : Z * Z :=
  match fuel with
  | O => (free, 1)
  | S fuel =>
      if free <? IDR_FREE_MAX then if avail <=? 0 then (free, 0) else pre_get_loop fuel (avail - 1) (free + 1) else (free, 1)
  end.
Definition idr_pre_get (avail : Z) (s : idr) : idr * Z :=
  let '(free, r) := pre_get_loop (Z.to_nat (IDR_FREE_MAX - id_free_cnt s)) avail (id_free_cnt s) in (Idr (top s) (layers s) free, r).

(** ** Allocation *)

Inductive alloc_result := Found (id : Z) | NeedToGrow (id : Z) | NomoreSpace | NoMemory.

(** A layer is hung below [p] at the slot [m]. *)
Definition add_layer (m : Z) (l : nat) (p : node) : node :=
  match p with
  | Layer bm ary cnt lay => Layer bm (set_slot ary m (zero_layer l)) (cnt + 1) lay
  | _ => p
  end.

(** The loop of [sub_alloc] over [L] layers; [None] is the [BUG_ON]. *)
Fixpoint sub_alloc_loop (fuel L : nat) (tp : node) (free id : Z) (l : nat) : option (node * Z * alloc_result) :=
  match fuel with
  | O => None
  | S fuel =>
      match node_at (L - 1 - l) (L - 1) tp id with
      | Layer bm ary _ _ =>
          let n := digit l id in
          let m := next_zero bm n in
          if m =? IDR_SIZE then
            let l := S l in
            let oid := id in
            let id := s32 (Z.lor id (2 ^ (IDR_BITS * Z.of_nat l) - 1) + 1) in
            if 2 ^ (Z.of_nat L * IDR_BITS) <=? id then Some (tp, free, NeedToGrow id)
            else if (L <=? l)%nat then None
            else
              let sh := IDR_BITS * (Z.of_nat l + 1) in
              if Z.shiftr oid sh =? Z.shiftr id sh then sub_alloc_loop fuel L tp free id l
              else sub_alloc_loop fuel L tp free id (L - 1)
          else
            let sh := IDR_BITS * Z.of_nat l in
            let id := if m =? n then id else s32 (Z.shiftl (Z.lxor (Z.lxor (Z.shiftr id sh) n) m) sh) in
            if (MAX_ID_BIT <=? id) || (id <? 0) then Some (tp, free, NomoreSpace)
            else
              match l with
              | O => Some (tp, free, Found id)
              | S l' =>
                  match slot ary m with
                  | Null =>
                      let '(ok, free) := get_from_free_list free in
                      if negb ok then Some (tp, free, NoMemory)
                      else sub_alloc_loop fuel L (update_at (L - 1 - l) (L - 1) (add_layer m l') tp id) free id l'
                  | _ => sub_alloc_loop fuel L tp free id l'
                  end
              end
      | _ => None
      end
  end.

(** Each time the search goes up, it is to a higher level than before. *)
Definition sub_alloc (s : idr) (id : Z) : option (idr * alloc_result) :=
  '(tp, free, r) ← sub_alloc_loop ((layers s + 1) * (layers s + 1)) (layers s) (top s) (id_free_cnt s) id (layers s - 1);
  Some (Idr tp (layers s) free, r).

Definition count_of (x : node) : Z := match x with Layer _ _ cnt _ => cnt | _ => 0 end.
Definition bitmap_of (x : node) : Z := match x with Layer bm _ _ _ => bm | _ => 0 end.

Definition move_up (p : node) : node :=
  match p with Layer bm ary cnt lay => Layer bm ary cnt (S lay) | _ => p end.

(** A layer with [p] in its first slot. *)
Definition layer_above (p : node) (l : nat) : node :=
  Layer (if bitmap_of p =? IDR_FULL then 1 else 0) (set_slot (replicate 32 Null) 0 p) 1 l.

(** Taking down the [n] layers that were put above the old top. *)
Fixpoint tear_down (n : nat) (p : node) : node :=
  match n with
  | O => p
  | S n => match p with Layer _ ary _ _ => tear_down n (slot ary 0) | _ => p end
  end.

(** The loop that adds layers, with the number of those that are new: the top,
    its level and the list, or the old top and the list again. *)
Fixpoint grow_loop (fuel : nat) (id : Z) (p : node) (L : nat) (free : Z) (built : nat) : (node * nat * Z) + (node * Z) :=
  match fuel with
  | O => inl (p, L, free)
  | S fuel =>
      if (L <? MAX_LEVEL - 1)%nat && (2 ^ (Z.of_nat L * IDR_BITS) <=? id) then
        if count_of p =? 0 then grow_loop fuel id (move_up p) (S L) free built
        else
          let '(ok, free) := get_from_free_list free in
          if negb ok then inr (tear_down built p, free + Z.of_nat built)
          else grow_loop fuel id (layer_above p L) (S L) free (S built)
      else inl (p, L, free)
  end.

(** [idr_get_empty_slot]: the search starts again when the tree must grow. *)
Fixpoint get_empty_slot_loop (fuel : nat) (s : idr) (id : Z) : option (idr * alloc_result) :=
  match fuel with
  | O => None
  | S fuel =>
      let build (p : node) (L : nat) (free : Z) (built : nat) :=
        match grow_loop MAX_LEVEL id p L free built with
        | inr (old, free) => Some (Idr old (layers s) free, NoMemory)
        | inl (p, L, free) =>
            '(s, r) ← sub_alloc (Idr p L free) id;
            match r with
            | NeedToGrow id => get_empty_slot_loop fuel s id
            | _ => Some (s, r)
            end
        end in
      match top s with
      | Null =>
          let '(ok, free) := get_from_free_list (id_free_cnt s) in
          if negb ok then Some (Idr Null (layers s) free, NoMemory) else build (zero_layer 0) 1%nat free 1%nat
      | p => build p (layers s) (id_free_cnt s) 0%nat
      end
  end.
Definition idr_get_empty_slot (s : idr) (id : Z) : option (idr * alloc_result) := get_empty_slot_loop (S MAX_LEVEL) s id.

(** The pointer goes to its slot, and full layers are marked from the leaf up,
    as long as one becomes full ([idr_mark_full]). *)
Fixpoint install (l : nat) (x : node) (id : Z) (ptr : node) : node * bool :=
  match x with
  | Layer bm ary cnt lay =>
      let i := digit l id in
      match l with
      | O => let bm := Z.lor bm (2 ^ i) in (Layer bm (set_slot ary i ptr) (cnt + 1) lay, bm =? IDR_FULL)
      | S l' =>
          let '(y, full) := install l' (slot ary i) id ptr in
          let bm := if full then Z.lor bm (2 ^ i) else bm in
          (Layer bm (set_slot ary i y) cnt lay, full && (bm =? IDR_FULL))
      end
  | _ => (x, false)
  end.

Definition slot_of (ptr : Z) : node := if ptr =? 0 then Null else Ptr ptr.
Definition ptr_of (x : node) : Z := match x with Ptr p => p | _ => 0 end.

Definition idr_get_new_above_int (s : idr) (ptr starting_id : Z) : option (idr * alloc_result) :=
  '(s, r) ← idr_get_empty_slot s starting_id;
  Some (match r with
        | Found id => (Idr (install (layers s - 1) (top s) id (slot_of ptr)).1 (layers s) (id_free_cnt s), r)
        | _ => (s, r)
        end).

(** [_idr_rc_to_errno]; the number is given on success. *)
Definition idr_get_new_above (s : idr) (ptr starting_id : Z) : option (idr * (Z + Z)) :=
  '(s, r) ← idr_get_new_above_int s ptr starting_id;
  Some (s, match r with
           | Found id => inr id
           | NoMemory => inl (- EAGAIN)
           | NeedToGrow _ | NomoreSpace => inl (- ENOSPC)
           end).
Definition idr_get_new (s : idr) (ptr : Z) : option (idr * (Z + Z)) := idr_get_new_above s ptr 0.

(** ** Removal *)

(** [sub_remove]: the slot is emptied if its bit is set, with the bits on the way
    cleared in any case; a layer whose count goes to 0 is released and leaves the
    slot above it empty.  The booleans are whether the number was in use and
    whether the layer is gone. *)
Fixpoint sub_remove (l : nat) (x : node) (id : Z) : node * bool * bool :=
  match x with
  | Layer bm ary cnt lay =>
      match l with
      | O =>
          let i := Z.land id IDR_MASK in
          if Z.testbit bm i then
            if cnt - 1 =? 0 then (Null, true, true) else (Layer (Z.clearbit bm i) (set_slot ary i Null) (cnt - 1) lay, true, false)
          else (x, false, false)
      | S l' =>
          let i := digit l id in
          let bm := Z.clearbit bm i in
          let '(y, found, gone) := sub_remove l' (slot ary i) id in
          let ary := set_slot ary i y in
          if gone then if cnt - 1 =? 0 then (Null, found, true) else (Layer bm ary (cnt - 1) lay, found, false)
          else (Layer bm ary cnt lay, found, false)
      end
  | _ => (x, false, false)
  end.

Fixpoint trim_loop (fuel : nat) (free : Z) : Z :=
  match fuel with
  | O => free
  | S fuel => if IDR_FREE_MAX <=? free then trim_loop fuel (get_from_free_list free).2 else free
  end.

(** The state, and whether the warning was printed. *)
Definition idr_remove (s : idr) (id : Z) : idr * bool :=
  let id := Z.land id MAX_ID_MASK in
  let '(tp, found, gone) := sub_remove (layers s - 1) (top s) id in
  let L := if gone then 0%nat else layers s in
  let '(tp, L) :=
    match tp with
    | Layer _ ary cnt _ =>
        match slot ary 0 with
        | Null => (tp, L)
        | p => if (cnt =? 1) && (1 <? L)%nat then (p, (L - 1)%nat) else (tp, L)
        end
    | _ => (tp, L)
    end in
  (Idr tp L (trim_loop (Z.to_nat (id_free_cnt s)) (id_free_cnt s)), negb found).

(** [idr_destroy] releases the list. *)
Definition idr_destroy (s : idr) : idr := Idr (top s) (layers s) 0.

(** ** Lookup *)

(** [None] is a failing [BUG_ON] or a pointer taken for a layer. *)
Fixpoint find_loop (n : nat) (p : node) (id : Z) : option node :=
  match n with
  | O => Some p
  | S n' =>
      match p with
      | Null => Some Null
      | Ptr _ => None
      | Layer _ ary _ lay => if negb (n' =? lay)%nat then None else find_loop n' (slot ary (digit n' id)) id
      end
  end.

(** The pointer, 0 for none. *)
Definition idr_find (s : idr) (id : Z) : option Z :=
  match top s with
  | Null => Some 0
  | Ptr _ => None
  | Layer _ _ _ lay =>
      let n := S lay in
      let id := Z.land id MAX_ID_MASK in
      if s32 (2 ^ (Z.of_nat n * IDR_BITS)) <=? id then Some 0
      else p ← find_loop n (top s) id; Some (ptr_of p)
  end.

Fixpoint replace_loop (l : nat) (p : node) (id : Z) (ptr : node) : node * (Z + Z) :=
  match p with
  | Layer bm ary cnt lay =>
      match l with
      | O =>
          let i := Z.land id IDR_MASK in
          if negb (Z.testbit bm i) then (p, inl (- ENOENT)) else (Layer bm (set_slot ary i ptr) cnt lay, inr (ptr_of (slot ary i)))
      | S l' => let '(y, r) := replace_loop l' (slot ary (digit l id)) id ptr in (Layer bm (set_slot ary (digit l id) y) cnt lay, r)
      end
  | _ => (p, inl (- ENOENT))
  end.

(** An error, or the pointer that was replaced. *)
Definition idr_replace (s : idr) (ptr id : Z) : idr * (Z + Z) :=
  match top s with
  | Layer _ _ _ lay =>
      let id := Z.land id MAX_ID_MASK in
      if s32 (2 ^ (Z.of_nat (S lay) * IDR_BITS)) <=? id then (s, inl (- EINVAL))
      else let '(tp, r) := replace_loop lay (top s) id (slot_of ptr) in (Idr tp (layers s) (id_free_cnt s), r)
  | _ => (s, inl (- EINVAL))
  end.

(** ** Walks *)

(** [fls] *)
Definition fls (x : Z) : Z := if x =? 0 then 0 else Z.log2 x + 1.

(** A walk has a level [n], the node that it is at, the layers above it, and the
    number of times that it read the word below the array [pa] of them, which is
    unknown. *)
Record walk := Walk { w_n : nat; w_p : node; w_pa : list node; w_under : nat }.

(** The inner loop downwards of the walks. *)
Fixpoint descend (n : nat) (p : node) (id : Z) (pa : list node) (under : nat) : walk :=
  match n with
  | O => Walk O p pa under
  | S n' => match p with Null => Walk n p pa under | _ =>
      descend n' (match p with Layer _ ary _ _ => slot ary (digit n' id) | _ => Null end) id (p :: pa) under end
  end.

(** The same loop down to the leaves, [n > IDR_BITS]. *)
Fixpoint descend_leaf (n : nat) (p : node) (id : Z) (pa : list node) (under : nat) : walk :=
  match n with
  | S (S _ as n') => match p with Null => Walk n p pa under | _ =>
      descend_leaf n' (match p with Layer _ ary _ _ => slot ary (digit n' id) | _ => Null end) id (p :: pa) under end
  | _ => Walk n p pa under
  end.

Section walks.
Context (below : node).

(** The loop upwards, to a layer that has the bits of [x] below it. *)
Fixpoint ascend (fuel : nat) (x : Z) (w : walk) : option walk :=
  match fuel with
  | O => None
  | S fuel =>
      if Z.of_nat (w_n w) * IDR_BITS <? fls x then
        ascend fuel x (match w_pa w with
                       | q :: pa => Walk (S (w_n w)) q pa (w_under w)
                       | [] => Walk (S (w_n w)) below [] (S (w_under w))
                       end)
      else Some w
  end.

Section for_each.
Context {D : Type} (fn : Z -> Z -> D -> D * Z).

(** The data behind the last call, its result and the reads below the array;
    [None] is missing fuel. *)
Fixpoint for_each_loop (fuel : nat) (max id : Z) (w : walk) (data : D) : option (D * Z * nat) :=
  match fuel with
  | O => None
  | S fuel =>
      if id <? max then
        let w := descend (w_n w) (w_p w) id (w_pa w) (w_under w) in
        let '(data, error) := match w_p w with Null => (data, 0) | p => fn id (ptr_of p) data end in
        if negb (error =? 0) then Some (data, error, w_under w)
        else
          let id := id + 2 ^ (Z.of_nat (w_n w) * IDR_BITS) in
          w ← ascend (S MAX_LEVEL) id w;
          for_each_loop fuel max id w data
      else Some (data, 0, w_under w)
  end.
Definition idr_for_each (fuel : nat) (s : idr) (data : D) : option (D * Z * nat) :=
  for_each_loop fuel (2 ^ (Z.of_nat (layers s) * IDR_BITS)) 0 (Walk (layers s) (top s) [] 0) data.
End for_each.

(** The pointer with its number, if there is one, and the reads below the array. *)
Fixpoint get_next_loop (fuel : nat) (max id : Z) (w : walk) : option (option (Z * Z) * nat) :=
  match fuel with
  | O => None
  | S fuel =>
      if id <? max then
        let w := descend (w_n w) (w_p w) id (w_pa w) (w_under w) in
        match w_p w with
        | Null =>
            let id := id + 2 ^ (Z.of_nat (w_n w) * IDR_BITS) in
            w ← ascend (S MAX_LEVEL) id w;
            get_next_loop fuel max id w
        | p => Some (Some (id, ptr_of p), w_under w)
        end
      else Some (None, w_under w)
  end.
Definition idr_get_next (fuel : nat) (s : idr) (id : Z) : option (option (Z * Z) * nat) :=
  match top s with
  | Null => Some (None, 0%nat)
  | p => get_next_loop fuel (2 ^ (Z.of_nat (layers s) * IDR_BITS)) id (Walk (layers s) p [] 0)
  end.

(** The loop upwards of [idr_remove_all] releases the layers that it leaves. *)
Fixpoint release_up (fuel : nat) (x : Z) (w : walk) (freed : list node) : option (walk * list node) :=
  match fuel with
  | O => None
  | S fuel =>
      if Z.of_nat (w_n w) * IDR_BITS <? fls x then
        release_up fuel x (match w_pa w with
                           | q :: pa => Walk (S (w_n w)) q pa (w_under w)
                           | [] => Walk (S (w_n w)) below [] (S (w_under w))
                           end) (match w_p w with Null => freed | p => freed ++ [p] end)
      else Some (w, freed)
  end.

Fixpoint remove_all_loop (fuel : nat) (max id : Z) (w : walk) (freed : list node) : option (list node) :=
  match fuel with
  | O => None
  | S fuel =>
      if id <? max then
        let w := descend_leaf (w_n w) (w_p w) id (w_pa w) (w_under w) in
        let bt_mask := id in
        let id := id + 2 ^ (Z.of_nat (w_n w) * IDR_BITS) in
        '(w, freed) ← release_up (S MAX_LEVEL) (Z.lxor id bt_mask) w freed;
        remove_all_loop fuel max id w freed
      else Some freed
  end.

(** The state and the layers that were released. *)
Definition idr_remove_all (fuel : nat) (s : idr) : option (idr * list node) :=
  freed ← remove_all_loop fuel (2 ^ (Z.of_nat (layers s) * IDR_BITS)) 0 (Walk (layers s) (top s) [] 0) [];
  Some (Idr Null 0 (id_free_cnt s), freed).
End walks.
