(* ===== verification/IdrProps.v ===== *)
(** * The ID allocator hands out the lowest free number

    A tree that is in order stands for a map from numbers to pointers.  Here are
    the order of a tree, the numbers that are in use in it, and what the search
    for a free one, growing, installing and removing do to them. *)

From stdpp Require Import base numbers list.
From S2P Require Import Prelude Idr.

Open Scope Z_scope.

(** ** Digits *)

Definition B (k : nat) : Z := 32 ^ Z.of_nat k.

Lemma B_S k : B (S k) = 32 * B k.
Proof. unfold B. rewrite Nat2Z.inj_succ, Z.pow_succ_r by lia. lia. Qed.
Lemma B_pos k : 0 < B k.
Proof. unfold B. apply Z.pow_pos_nonneg; lia. Qed.
Lemma B_shift k : 2 ^ (IDR_BITS * Z.of_nat k) = B k.
Proof. unfold B, IDR_BITS. by rewrite Z.pow_mul_r by lia. Qed.
Lemma B_shift' k : 2 ^ (Z.of_nat k * IDR_BITS) = B k.
Proof. by rewrite Z.mul_comm, B_shift. Qed.
Lemma B_le j k : (j <= k)%nat -> B j <= B k.
Proof. intros. unfold B. apply Z.pow_le_mono_r; lia. Qed.
Lemma B_6 k : (k <= 6)%nat -> B k <= 2 ^ 30.
Proof. intros. change (2 ^ 30) with (B 6). by apply B_le. Qed.
Lemma B_add j k : B (j + k) = B j * B k.
Proof. unfold B. by rewrite Nat2Z.inj_add, Z.pow_add_r by lia. Qed.

Lemma digit_div l id : digit l id = id / B l mod 32.
Proof.
  unfold digit. rewrite Z.shiftr_div_pow2 by (unfold IDR_BITS; lia). rewrite B_shift.
  change IDR_MASK with (2 ^ 5 - 1). by rewrite land_pow2_mod by lia.
Qed.
Lemma digit_range l id : 0 <= digit l id < 32.
Proof. rewrite digit_div. apply Z.mod_pos_bound. lia. Qed.

Lemma div_B_S k id : id / B (S k) = id / B k / 32.
Proof. rewrite B_S, (Z.mul_comm 32), <- Z.div_div; pose proof (B_pos k); lia. Qed.

(** Numbers that agree above, and below, a level. *)
Definition high (l : nat) (i j : Z) : Prop := i / B (S l) = j / B (S l).
Definition low (l : nat) (i j : Z) : Prop := i mod B (S l) = j mod B (S l).

Lemma high_S l i j : high l i j -> high (S l) i j.
Proof. unfold high. intros E. by rewrite !(div_B_S (S l)), E. Qed.
Lemma high_digit l i j : high l i j -> digit (S l) i = digit (S l) j.
Proof. unfold high. intros E. by rewrite !digit_div, E. Qed.
Lemma high_le k l i j : (l <= k)%nat -> high l i j -> high k i j.
Proof. induction 1; auto using high_S. Qed.

Lemma mod_B_S l i : i mod B (S l) = digit l i * B l + i mod B l.
Proof. rewrite digit_div, B_S, (Z.mul_comm 32), Z.rem_mul_r; pose proof (B_pos l); lia. Qed.
Lemma low_digit l i j : low l i j -> digit l i = digit l j.
Proof.
  unfold low. rewrite !mod_B_S. intros E. pose proof (B_pos l). pose proof (Z.mod_pos_bound i (B l)).
  pose proof (Z.mod_pos_bound j (B l)). nia.
Qed.
Lemma low_S l i j : low (S l) i j <-> digit (S l) i = digit (S l) j /\ low l i j.
Proof.
  split.
  - intros E. pose proof (low_digit _ _ _ E) as D. split; [done|]. unfold low in *. rewrite !(mod_B_S (S l)) in E. lia.
  - intros [D E]. unfold low in *. rewrite !(mod_B_S (S l)). congruence.
Qed.
Lemma low_0 i j : low 0 i j <-> digit 0 i = digit 0 j.
Proof. unfold low. rewrite !mod_B_S. change (B 0) with 1. rewrite !Z.mod_1_r. lia. Qed.
Lemma low_small l i j : 0 <= i < B (S l) -> 0 <= j < B (S l) -> low l i j <-> i = j.
Proof. intros. unfold low. rewrite !Z.mod_small by lia. done. Qed.

(** A number with another digit. *)
Definition with_digit (l : nat) (i d : Z) : Z := d * B l + i mod B l.
Lemma with_digit_digit l i d : 0 <= d < 32 -> digit l (with_digit l i d) = d.
Proof.
  intros. unfold with_digit. pose proof (B_pos l). rewrite digit_div, Z.div_add_l by lia.
  rewrite (Z.div_small (i mod B l)) by (apply Z.mod_pos_bound; lia). rewrite Z.add_0_r. apply Z.mod_small. lia.
Qed.
Lemma with_digit_low l i d : low l (with_digit (S l) i d) i.
Proof.
  unfold low, with_digit. pose proof (B_pos (S l)). rewrite Z.add_comm, Z.mod_add by lia. apply Z.mod_mod. lia.
Qed.

(** ** Bits *)

Lemma find_zero_spec f : forall bm n, 0 <= n -> n + Z.of_nat f = 32 ->
  n <= find_zero f bm n <= 32 /\ (forall i, n <= i < find_zero f bm n -> Z.testbit bm i = true) /\
  (find_zero f bm n <> 32 -> Z.testbit bm (find_zero f bm n) = false).
Proof.
  induction f as [|f IH]; intros bm n Hn E; simpl.
  - unfold IDR_SIZE. repeat split; try lia.
  - destruct (Z.testbit bm n) eqn:T.
    + destruct (IH bm (n + 1)) as (H1 & H2 & H3); [lia..|]. repeat split; try lia; [|done].
      intros i Hi. destruct (decide (i = n)) as [->|]; [done|]. apply H2. lia.
    + repeat split; try lia. done.
Qed.
Lemma next_zero_spec bm n : 0 <= n < 32 ->
  n <= next_zero bm n <= 32 /\ (forall i, n <= i < next_zero bm n -> Z.testbit bm i = true) /\
  (next_zero bm n <> 32 -> Z.testbit bm (next_zero bm n) = false).
Proof. intros. apply find_zero_spec; unfold IDR_SIZE; lia. Qed.

Lemma below_bits bm : 0 <= bm < 2 ^ 32 <-> 0 <= bm /\ forall i, 32 <= i -> Z.testbit bm i = false.
Proof.
  split.
  - intros R. split; [lia|]. intros i Hi. destruct (decide (bm = 0)) as [->|]; [apply Z.bits_0|].
    apply Z.bits_above_log2; [lia|]. apply Z.lt_le_trans with 32; [|lia]. apply Z.log2_lt_pow2; lia.
  - intros [P H]. split; [done|]. destruct (decide (bm = 0)) as [->|]; [lia|]. apply Z.log2_lt_pow2; [lia|].
    destruct (decide (Z.log2 bm < 32)); [done|]. pose proof (Z.bit_log2 bm). rewrite H in *; [|lia]. naive_solver lia.
Qed.
Lemma full_iff bm : 0 <= bm < 2 ^ 32 -> bm = IDR_FULL <-> (forall i, 0 <= i < 32 -> Z.testbit bm i = true).
Proof.
  intros [P R]%below_bits. change IDR_FULL with (Z.ones 32). split.
  - intros -> i Hi. apply Z.ones_spec_low. lia.
  - intros H. apply Z.bits_inj'. intros i Hi. destruct (decide (i < 32)).
    + rewrite H, Z.ones_spec_low by lia. done.
    + rewrite Z.ones_spec_high, R by lia. done.
Qed.
Lemma setbit_spec bm i j : 0 <= i -> Z.testbit (Z.lor bm (2 ^ i)) j = (i =? j) || Z.testbit bm j.
Proof. intros. rewrite Z.lor_spec, Z.pow2_bits_eqb by lia. apply orb_comm. Qed.
Lemma clearbit_spec bm i j : 0 <= i -> 0 <= j -> Z.testbit (Z.clearbit bm i) j = negb (i =? j) && Z.testbit bm j.
Proof. intros. rewrite Z.clearbit_eqb by lia. rewrite andb_comm. done. Qed.
Lemma setbit_range bm i : 0 <= bm < 2 ^ 32 -> 0 <= i < 32 -> 0 <= Z.lor bm (2 ^ i) < 2 ^ 32.
Proof.
  intros [P R]%below_bits Hi. apply below_bits. split.
  - apply Z.lor_nonneg. pose proof (Z.pow_nonneg 2 i). lia.
  - intros j Hj. rewrite setbit_spec, R by lia. destruct (Z.eqb_spec i j); [lia|done].
Qed.
Lemma clearbit_range bm i : 0 <= bm < 2 ^ 32 -> 0 <= i < 32 -> 0 <= Z.clearbit bm i < 2 ^ 32.
Proof.
  intros [P R]%below_bits Hi. apply below_bits. split.
  - apply Z.ldiff_nonneg. lia.
  - intros j Hj. rewrite clearbit_spec, R by lia. apply andb_false_r.
Qed.

(** How many of the positions below [k] have a property. *)
Fixpoint tally_below (k : nat) (P : Z -> bool) : Z :=
  match k with
  | O => 0
  | S k => Z.b2z (P (Z.of_nat k)) + tally_below k P
  end.
Definition tally (P : Z -> bool) : Z := tally_below 32 P.

Lemma tally_below_ext k P Q : (forall i, 0 <= i < Z.of_nat k -> P i = Q i) -> tally_below k P = tally_below k Q.
Proof. induction k as [|k IH]; intros H; simpl; [done|]. rewrite H, IH by (intros; apply H || lia; lia). done. Qed.
Lemma tally_below_change k P Q j : 0 <= j < Z.of_nat k -> (forall i, 0 <= i < Z.of_nat k -> i <> j -> P i = Q i) ->
  tally_below k P + Z.b2z (Q j) = tally_below k Q + Z.b2z (P j).
Proof.
  induction k as [|k IH]; intros Hj H; simpl; [lia|]. destruct (decide (j = Z.of_nat k)) as [->|].
  - rewrite (tally_below_ext k P Q); [lia|]. intros. apply H; lia.
  - rewrite (H (Z.of_nat k)) by lia. enough (tally_below k P + Z.b2z (Q j) = tally_below k Q + Z.b2z (P j)) by lia.
    apply IH; [lia|]. intros. apply H; lia.
Qed.
Lemma tally_below_nonneg k P : 0 <= tally_below k P.
Proof. induction k as [|k IH]; simpl; [lia|]. pose proof (Z.b2z_bit0 (P (Z.of_nat k))). destruct (P _); simpl; lia. Qed.
Lemma tally_below_zero k P : tally_below k P = 0 <-> (forall i, 0 <= i < Z.of_nat k -> P i = false).
Proof.
  induction k as [|k IH]; simpl; [naive_solver lia|]. pose proof (tally_below_nonneg k P). split.
  - intros E i Hi. destruct (P (Z.of_nat k)) eqn:T; simpl in E; [lia|].
    destruct (decide (i = Z.of_nat k)) as [->|]; [done|]. apply IH; lia.
  - intros H'. rewrite H' by lia. simpl. apply IH. intros. apply H'. lia.
Qed.

Lemma tally_change P Q j : 0 <= j < 32 -> (forall i, 0 <= i < 32 -> i <> j -> P i = Q i) -> tally P + Z.b2z (Q j) = tally Q + Z.b2z (P j).
Proof. intros. apply tally_below_change; [lia|done]. Qed.
Lemma tally_zero P : tally P = 0 <-> (forall i, 0 <= i < 32 -> P i = false).
Proof. apply tally_below_zero. Qed.
Lemma tally_one P j : 0 <= j < 32 -> P j = true -> tally P = 1 -> forall i, 0 <= i < 32 -> i <> j -> P i = false.
Proof.
  intros Hj T E i Hi N. pose (Q := fun k => if decide (k = j) then false else P k).
  assert (tally Q = 0) as Z0.
  { pose proof (tally_change P Q j Hj) as C. rewrite T in C. unfold Q at 2 in C. rewrite decide_True in C by done.
    simpl in C. enough (tally P + 0 = tally Q + 1) by lia. apply C. intros k _ Hk. unfold Q. by rewrite decide_False. }
  rewrite tally_zero in Z0. specialize (Z0 i Hi). unfold Q in Z0. by rewrite decide_False in Z0.
Qed.

(** ** Slots *)

Lemma slot_set ary i j x : length ary = 32%nat -> 0 <= i < 32 -> 0 <= j ->
  slot (set_slot ary i x) j = if decide (i = j) then x else slot ary j.
Proof.
  intros. unfold slot, set_slot. rewrite !nth_lookup. case_decide as E.
  - subst. rewrite list_lookup_insert_eq by lia. done.
  - rewrite list_lookup_insert_ne by lia. done.
Qed.
Lemma slot_set_eq ary i x : length ary = 32%nat -> 0 <= i < 32 -> slot (set_slot ary i x) i = x.
Proof. intros. rewrite slot_set by lia. by rewrite decide_True. Qed.
Lemma length_set_slot ary i x : length (set_slot ary i x) = length ary.
Proof. apply length_insert. Qed.
Lemma slot_empty i : slot (replicate 32 Null) i = Null.
Proof. unfold slot. rewrite nth_lookup. destruct (_ !! _) eqn:E; [|done]. by apply lookup_replicate in E as [-> _]. Qed.

(** ** Trees *)

Definition nonnull (x : node) : bool := match x with Null => false | _ => true end.
(** What is never in the slot of a leaf. *)
Definition not_pointer (x : node) : Prop := match x with Layer _ _ _ _ => True | Ptr p => p = 0 | Null => False end.
Definition full (x : node) : bool := bitmap_of x =? IDR_FULL.

(** A tree of the level [l] that is in order. *)
Fixpoint wf (l : nat) (x : node) : Prop :=
  match x with
  | Layer bm ary cnt lay =>
      lay = l /\ length ary = 32%nat /\ 0 <= bm < 2 ^ 32 /\
      match l with
      | O => cnt = tally (Z.testbit bm) /\
             forall i, 0 <= i < 32 -> ~ not_pointer (slot ary i) /\ (Z.testbit bm i = false -> slot ary i = Null)
      | S l' => cnt = tally (fun i => nonnull (slot ary i)) /\
                forall i, 0 <= i < 32 -> Z.testbit bm i = full (slot ary i) /\ (slot ary i = Null \/ wf l' (slot ary i))
      end
  | _ => False
  end.

Lemma wf_layer l bm ary cnt lay : wf l (Layer bm ary cnt lay) -> lay = l /\ length ary = 32%nat /\ 0 <= bm < 2 ^ 32.
Proof. by destruct l; simpl; intros (? & ? & ? & _). Qed.

(** The pointer of a number below a layer of the level [l]. *)
Fixpoint holds (l : nat) (x : node) (id : Z) : option Z :=
  match x with
  | Layer bm ary _ _ =>
      match l with
      | O => if Z.testbit bm (digit 0 id) then Some (ptr_of (slot ary (digit 0 id))) else None
      | S l' => holds l' (slot ary (digit l id)) id
      end
  | _ => None
  end.

Lemma holds_null l id : holds l Null id = None.
Proof. by destruct l. Qed.

Lemma holds_low l : forall x i j, low l i j -> holds l x i = holds l x j.
Proof.
  induction l as [|l IH]; intros [| |bm ary cnt lay] i j E; try done; simpl.
  - by rewrite (low_digit 0 i j E).
  - apply low_S in E as [-> E]. by apply IH.
Qed.

Lemma full_null : full Null = false.
Proof. done. Qed.

Lemma full_holds l : forall x, wf l x -> full x = true <-> forall id, is_Some (holds l x id).
Proof.
  induction l as [|l IH]; intros [| |bm ary cnt lay]; try done; simpl; intros (-> & Len & R & Ec & W);
    unfold full; simpl; rewrite Z.eqb_eq, (full_iff bm R).
  - split.
    + intros T id. rewrite T by apply digit_range. by eexists.
    + intros H i Hi. specialize (H i). rewrite digit_div, Z.div_1_r, Z.mod_small in H by lia.
      destruct (Z.testbit bm i); [done|by destruct H].
  - split.
    + intros T id. pose proof (digit_range (S l) id) as D. destruct (W _ D) as [Eb [E|Wc]]; rewrite T in Eb by done.
      * by rewrite E in Eb.
      * apply (IH _ Wc). done.
    + intros H i Hi. destruct (W i Hi) as [-> [E|Wc]].
      * specialize (H (with_digit (S l) 0 i)). rewrite with_digit_digit, E, holds_null in H by done. by destruct H.
      * apply (IH _ Wc). intros id. specialize (H (with_digit (S l) id i)). rewrite with_digit_digit in H by done.
        rewrite (holds_low l _ id (with_digit (S l) id i)); [done|]. symmetry. apply with_digit_low.
Qed.

(** ** Paths *)

(** [y] is in order and holds what [x] holds. *)
Definition same (l : nat) (x y : node) : Prop := wf l y /\ forall j, holds l y j = holds l x j.

Lemma same_full l x y : wf l x -> same l x y -> full y = full x.
Proof.
  intros Wx [Wy E]. apply eq_bool_prop_intro. rewrite !Is_true_true, (full_holds l y Wy), (full_holds l x Wx). by setoid_rewrite E.
Qed.
Lemma tree_same_refl l x : wf l x -> same l x x.
Proof. by split. Qed.
Lemma tree_same_trans l x y z : same l x y -> same l y z -> same l x z.
Proof. intros [_ E] [W E']. split; [done|]. intros. by rewrite E'. Qed.

Lemma wf_nonnull l x : wf l x -> nonnull x = true.
Proof. by destruct l, x. Qed.

Lemma node_at_holds d : forall l x id j, high l id j -> holds (d + l) x j = holds l (node_at d (d + l) x id) j.
Proof.
  induction d as [|d IH]; intros l x id j H; simpl; [done|]. destruct x as [| |bm ary cnt lay]; simpl; try by rewrite holds_null.
  rewrite Nat.sub_0_r. pose proof (high_digit _ _ _ (high_le (d + l) l _ _ ltac:(lia) H)) as ->. by apply IH.
Qed.
Lemma node_at_high d : forall l x id j, high l id j -> node_at d (d + l) x id = node_at d (d + l) x j.
Proof.
  induction d as [|d IH]; intros l x id j H; simpl; [done|]. destruct x as [| |bm ary cnt lay]; try done.
  rewrite Nat.sub_0_r. pose proof (high_digit _ _ _ (high_le (d + l) l _ _ ltac:(lia) H)) as ->. by apply IH.
Qed.
Lemma node_at_S d : forall l x id,
  node_at (S d) (S (d + l)) x id = match node_at d (S (d + l)) x id with Layer _ ary _ _ => slot ary (digit (S l) id) | _ => Null end.
Proof.
  induction d as [|d IH]; intros l x id.
  - by destruct x.
  - destruct x as [| |bm ary cnt lay]; try done. exact (IH l (slot ary (digit (S (S d + l)) id)) id).
Qed.

(** An update along a path that keeps what is held there keeps all of it. *)
Lemma update_same d : forall l f x id, let p := node_at d (d + l) x id in
  wf (d + l) x -> wf l p -> same l p (f p) ->
  same (d + l) x (update_at d (d + l) f x id) /\ node_at d (d + l) (update_at d (d + l) f x id) id = f p.
Proof.
  induction d as [|d IH]; intros l f x id p W Wp S; [by split|]. destruct x as [| |bm ary cnt lay]; try done.
  subst p. cbn [node_at update_at Nat.add] in *. rewrite Nat.sub_1_r in *. simpl Nat.pred in *.
  set (i := digit (Datatypes.S (d + l)) id) in *. pose proof (digit_range (Datatypes.S (d + l)) id) as Hi. fold i in Hi.
  destruct W as (-> & Len & R & -> & W). destruct (W i Hi) as [Eb [E|Wc]]; [rewrite E in Wp; by destruct d, l|].
  destruct (IH l f (slot ary i) id Wc Wp S) as [[Wu Eu] En].
  rewrite slot_set_eq by done. split; [|done]. split.
  - simpl. rewrite length_set_slot. repeat split; try lia.
    + apply tally_below_ext. intros j Hj. rewrite slot_set by lia. case_decide; [subst|done].
      rewrite (wf_nonnull _ _ Wc), (wf_nonnull _ _ Wu). done.
    + destruct (W _ H) as [-> _]. rewrite slot_set by lia. case_decide; [subst|done]. symmetry. by apply (same_full (d + l)).
    + rewrite slot_set by lia. case_decide; [by right|]. by apply W.
  - intros j. simpl. pose proof (digit_range (Datatypes.S (d + l)) j). rewrite slot_set by lia. case_decide as Ej; [|done].
    rewrite Eu, <- Ej. done.
Qed.

(** *** Arithmetic of a step *)

Lemma land_disjoint k q n : 0 <= k -> 0 <= n < 2 ^ k -> Z.land (q * 2 ^ k) n = 0.
Proof.
  intros. rewrite <- Z.shiftl_mul_pow2 by done. apply Z.bits_inj'. intros i Hi. rewrite Z.land_spec, Z.bits_0.
  destruct (decide (i < k)); [by rewrite Z.shiftl_spec_low|]. rewrite <- (Z.mod_small n (2 ^ k)) by lia.
  rewrite Z.mod_pow2_bits_high by lia. apply andb_false_r.
Qed.
Lemma lxor_digit x m : 0 <= m < 32 -> Z.lxor (Z.lxor x (x mod 32)) m = x / 32 * 32 + m.
Proof.
  intros. pose proof (Z.mod_pos_bound x 32). rewrite (Z.div_mod x 32) at 1 by lia. rewrite (Z.mul_comm 32).
  rewrite (Z.add_nocarry_lxor _ (x mod 32)) by (apply (land_disjoint 5); lia).
  rewrite (Z.lxor_assoc (x / 32 * 32)), Z.lxor_nilpotent, Z.lxor_0_r, Z.add_nocarry_lxor; [done|]. apply (land_disjoint 5); lia.
Qed.
Lemma lor_ones_next id k : 0 <= k -> Z.lor id (2 ^ k - 1) + 1 = (id / 2 ^ k + 1) * 2 ^ k.
Proof.
  intros. pose proof (Z.pow_pos_nonneg 2 k). rewrite (Z.div_mod id (2 ^ k)) at 1 by lia.
  pose proof (Z.mod_pos_bound id (2 ^ k)). rewrite (Z.mul_comm (2 ^ k)).
  rewrite (Z.add_nocarry_lxor _ (id mod 2 ^ k)), Z.lxor_lor by (apply land_disjoint; lia).
  rewrite <- Z.lor_assoc. replace (Z.lor (id mod 2 ^ k) (2 ^ k - 1)) with (2 ^ k - 1).
  - rewrite <- Z.lxor_lor, <- Z.add_nocarry_lxor; [lia|apply land_disjoint; lia..].
  - replace (2 ^ k - 1) with (Z.ones k) by (rewrite Z.ones_equiv; lia). apply Z.bits_inj'. intros i Hi.
    rewrite Z.lor_spec. destruct (decide (i < k)).
    + rewrite Z.ones_spec_low by lia. by rewrite orb_true_r.
    + rewrite Z.ones_spec_high, Z.mod_pow2_bits_high by lia. done.
Qed.

(** The number behind those below the layer, and the first one of a slot. *)
Definition next_up (l : nat) (id : Z) : Z := (id / B (S l) + 1) * B (S l).
Definition at_slot (l : nat) (id m : Z) : Z := if m =? digit l id then id else (id / B (S l) * 32 + m) * B l.

Lemma next_up_code l id : Z.lor id (2 ^ (IDR_BITS * Z.of_nat (S l)) - 1) + 1 = next_up l id.
Proof. rewrite lor_ones_next by (unfold IDR_BITS; lia). by rewrite B_shift. Qed.
Lemma at_slot_code l id m : 0 <= m < 32 ->
  Z.shiftl (Z.lxor (Z.lxor (Z.shiftr id (IDR_BITS * Z.of_nat l)) (digit l id)) m) (IDR_BITS * Z.of_nat l) =
  (id / B (S l) * 32 + m) * B l.
Proof.
  intros. rewrite digit_div, Z.shiftl_mul_pow2, Z.shiftr_div_pow2 by (unfold IDR_BITS; lia).
  rewrite B_shift, lxor_digit, div_B_S by done. done.
Qed.

Lemma div_digit l id : id / B l = id / B (S l) * 32 + digit l id.
Proof. rewrite digit_div, div_B_S. pose proof (Z.div_mod (id / B l) 32). lia. Qed.

Lemma at_slot_div l id m : 0 <= m < 32 -> at_slot l id m / B l = id / B (S l) * 32 + m.
Proof.
  intros. unfold at_slot. pose proof (B_pos l). destruct (Z.eqb_spec m (digit l id)) as [->|].
  - apply div_digit.
  - by rewrite Z.div_mul by lia.
Qed.
Lemma at_slot_digit l id m : 0 <= m < 32 -> digit l (at_slot l id m) = m.
Proof. intros. rewrite digit_div, at_slot_div by done. rewrite Z.add_comm, Z.mod_add by lia. by apply Z.mod_small. Qed.
Lemma at_slot_high l id m : 0 <= m < 32 -> high l (at_slot l id m) id.
Proof.
  intros. unfold high. rewrite div_B_S, at_slot_div by done. rewrite Z.add_comm, Z.div_add, Z.div_small by lia. lia.
Qed.

(** What is passed over has the digits from [digit l id] to [m]. *)
Lemma between l id m j : digit l id <= m <= 32 -> id <= j < (id / B (S l) * 32 + m) * B l ->
  high l id j /\ digit l id <= digit l j < m.
Proof.
  intros Hm Hj. pose proof (B_pos l) as P. pose proof (digit_range l id).
  assert (Lo : id / B l <= j / B l) by (apply Z.div_le_mono; lia).
  assert (Hi : j / B l < id / B (S l) * 32 + m) by (apply Z.div_lt_upper_bound; lia).
  rewrite (div_digit l id) in Lo. unfold high. rewrite (div_B_S l j), (digit_div l j).
  set (q := id / B (S l)) in *. replace (j / B l) with (q * 32 + (j / B l - q * 32)) by lia.
  rewrite Z.add_comm, Z.div_add, Z.mod_add, Z.div_small, Z.mod_small by lia. lia.
Qed.
Lemma at_slot_le l id m : digit l id <= m < 32 -> id <= at_slot l id m.
Proof.
  intros Hm. unfold at_slot. destruct (Z.eqb_spec m (digit l id)); [lia|]. pose proof (B_pos l).
  pose proof (Z.mod_pos_bound id (B l)). pose proof (Z.div_mod id (B l)) as E. rewrite (div_digit l id) in E.
  assert ((id / B (S l) * 32 + digit l id + 1) * B l <= (id / B (S l) * 32 + m) * B l) by (apply Z.mul_le_mono_nonneg_r; lia). lia.
Qed.

(** ** The search *)

Lemma node_at_wf d : forall l x id, wf (d + l) x -> node_at d (d + l) x id = Null \/ wf l (node_at d (d + l) x id).
Proof.
  induction d as [|d IH]; intros l x id W; [by right|]. destruct x as [| |bm ary cnt lay]; try done.
  cbn [node_at Nat.add]. rewrite Nat.sub_1_r. simpl Nat.pred. destruct W as (_ & _ & _ & _ & W).
  destruct (W _ (digit_range (S (d + l)) id)) as [_ [->|Wc]]; [left; by destruct d|]. by apply IH.
Qed.
Lemma node_at_parent d l x id : wf (S d + l) x -> wf l (node_at (S d) (S d + l) x id) -> wf (S l) (node_at d (d + S l) x id).
Proof.
  intros W Wp. rewrite Nat.add_succ_r. simpl Nat.add in *. rewrite node_at_S in Wp.
  destruct (node_at_wf d (S l) x id) as [E|Wn]; rewrite ?Nat.add_succ_r in *; [done| |done]. rewrite E in Wp. by destruct l.
Qed.

Lemma zero_wf l : wf l (zero_layer l).
Proof.
  assert (T : tally (Z.testbit 0) = 0) by (apply tally_zero; intros; apply Z.bits_0).
  assert (N : tally (fun i => nonnull (slot (replicate 32 Null) i)) = 0) by (apply tally_zero; intros; by rewrite slot_empty).
  destruct l; simpl; repeat split; try lia; rewrite slot_empty, ?Z.bits_0; auto.
Qed.
Lemma zero_holds l j : holds l (zero_layer l) j = None.
Proof. destruct l; simpl; [by rewrite Z.bits_0|]. by rewrite slot_empty, holds_null. Qed.

(** The count of the layers below when a slot changes. *)
Lemma nonnull_change ary m x : length ary = 32%nat -> 0 <= m < 32 ->
  tally (fun i => nonnull (slot (set_slot ary m x) i)) + Z.b2z (nonnull (slot ary m)) =
  tally (fun i => nonnull (slot ary i)) + Z.b2z (nonnull x).
Proof.
  intros Len Hm.
  pose proof (tally_change (fun i => nonnull (slot (set_slot ary m x) i)) (fun i => nonnull (slot ary i)) m Hm) as C.
  cbv beta in C. rewrite slot_set_eq in C by done. apply C. intros. by rewrite slot_set, decide_False by lia.
Qed.

Lemma add_layer_same l m bm ary cnt lay : 0 <= m < 32 -> slot ary m = Null -> wf (S l) (Layer bm ary cnt lay) ->
  same (S l) (Layer bm ary cnt lay) (add_layer m l (Layer bm ary cnt lay)).
Proof.
  intros Hm E (-> & Len & R & -> & W). split.
  - simpl. rewrite length_set_slot. pose proof (nonnull_change ary m (zero_layer l) Len Hm) as C. rewrite E in C. simpl in C.
    rewrite Z.add_0_r in C. repeat split; try lia.
    + destruct (W i H) as [-> _]. rewrite slot_set by lia. case_decide; [|done]. subst. rewrite E. done.
    + rewrite slot_set by lia. case_decide; [right; apply zero_wf|]. by apply W.
  - intros j. simpl. pose proof (digit_range (S l) j). rewrite slot_set by lia. case_decide as Ej; [|done].
    rewrite zero_holds, <- Ej, E, holds_null. done.
Qed.

Lemma below_top d l id : 0 <= id < B (S (d + l)) <-> 0 <= id / B (S l) < B d.
Proof.
  replace (S (d + l)) with (d + S l)%nat by lia. rewrite B_add. pose proof (B_pos (S l)). pose proof (B_pos d).
  pose proof (Z.div_mod id (B (S l))). pose proof (Z.mod_pos_bound id (B (S l))). split; intros.
  - split; [apply Z.div_pos; lia|]. apply Z.div_lt_upper_bound; lia.
  - nia.
Qed.
Lemma next_up_bounds d l id : 0 <= id < B (S (d + l)) -> id < next_up l id <= B (S (d + l)).
Proof.
  intros H. apply below_top in H as H'. unfold next_up. pose proof (B_pos (S l)). pose proof (B_pos d).
  pose proof (Z.div_mod id (B (S l))). pose proof (Z.mod_pos_bound id (B (S l))).
  replace (S (d + l)) with (d + S l)%nat by lia. rewrite B_add. split; [nia|]. apply Z.mul_le_mono_nonneg_r; lia.
Qed.
Lemma at_slot_bounds d l id m : 0 <= m < 32 -> 0 <= id < B (S (d + l)) -> 0 <= at_slot l id m < B (S (d + l)).
Proof. intros Hm H. apply below_top. rewrite (at_slot_high l id m Hm). by apply below_top. Qed.

(** One round of the search, at a layer of the level [l] that is [d] below the top. *)
Lemma sub_alloc_step f d l tp free id bm ary cnt lay :
  (d + l < 6)%nat -> 0 <= id < B (S (d + l)) -> node_at d (d + l) tp id = Layer bm ary cnt lay ->
  let m := next_zero bm (digit l id) in
  sub_alloc_loop (S f) (S (d + l)) tp free id l =
  if m =? 32 then
    if B (S (d + l)) <=? next_up l id then Some (tp, free, NeedToGrow (next_up l id))
    else if (d =? 0)%nat then None
    else sub_alloc_loop f (S (d + l)) tp free (next_up l id)
           (if id / B (S (S l)) =? next_up l id / B (S (S l)) then S l else (d + l)%nat)
  else
    match l with
    | O => Some (tp, free, Found (at_slot l id m))
    | S l' =>
        match slot ary m with
        | Null =>
            if 0 <? free then
              sub_alloc_loop f (S (d + l)) (update_at d (d + l) (add_layer m l') tp (at_slot l id m)) (free - 1) (at_slot l id m) l'
            else Some (tp, free, NoMemory)
        | _ => sub_alloc_loop f (S (d + l)) tp free (at_slot l id m) l'
        end
    end.
Proof.
  intros HL Hid E m. pose proof (digit_range l id) as D. destruct (next_zero_spec bm _ D) as (M1 & M2 & _). fold m in M1, M2.
  cbn [sub_alloc_loop]. replace (S (d + l) - 1 - l)%nat with d by lia. replace (S (d + l) - 1)%nat with (d + l)%nat by lia.
  rewrite E. cbv zeta. fold m. change IDR_SIZE with 32. rewrite next_up_code, B_shift'.
  pose proof (B_6 (S (d + l)) ltac:(lia)) as B6. pose proof (next_up_bounds d l id Hid) as U. rewrite s32_small by lia.
  destruct (Z.eqb_spec m 32) as [Em|Em].
  - destruct (B (S (d + l)) <=? next_up l id) eqn:U'; [done|]. replace (S (d + l) <=? S l)%nat with (d =? 0)%nat.
    2: { apply eq_bool_prop_intro. rewrite !Is_true_true, Nat.eqb_eq, Nat.leb_le. lia. }
    destruct (d =? 0)%nat; [done|]. rewrite !Z.shiftr_div_pow2 by (unfold IDR_BITS; lia).
    replace (IDR_BITS * (Z.of_nat (S l) + 1)) with (IDR_BITS * Z.of_nat (S (S l))) by (unfold IDR_BITS; lia). rewrite B_shift.
    by destruct (_ =? _).
  - pose proof (at_slot_bounds d l id m ltac:(lia) Hid) as A. rewrite at_slot_code by lia.
    replace (if m =? digit l id then id else s32 ((id / B (S l) * 32 + m) * B l)) with (at_slot l id m).
    2: { unfold at_slot in *. destruct (m =? digit l id); [done|]. by rewrite s32_small by lia. }
    rewrite (proj2 (Z.leb_gt _ _)) by (unfold MAX_ID_BIT; lia). rewrite (proj2 (Z.ltb_ge _ _)) by lia. simpl orb. cbv iota.
    destruct l; [done|]. destruct (slot ary m); try done. unfold get_from_free_list. by destruct (0 <? free).
Qed.

(** What a search from [id] on in the tree [tp] of the level [t] comes to. *)
Definition search_post (t : nat) (tp : node) (free id : Z) (res : option (node * Z * alloc_result)) : Prop :=
  exists tp' free' r, res = Some (tp', free', r) /\ same t tp tp' /\ 0 <= free' /\
  match r with
  | Found i => id <= i < B (S t) /\ holds t tp i = None /\ (forall j, id <= j < i -> is_Some (holds t tp j)) /\
               wf 0 (node_at t t tp' i) /\ free - Z.of_nat t <= free' <= free
  | NeedToGrow i => i = B (S t) /\ tp' = tp /\ free' = free /\ forall j, id <= j < B (S t) -> is_Some (holds t tp j)
  | NomoreSpace => False
  | NoMemory => free < Z.of_nat t
  end.

Lemma search_post_mono t tp free id id' res : id <= id' -> (forall j, id <= j < id' -> is_Some (holds t tp j)) ->
  search_post t tp free id' res -> search_post t tp free id res.
Proof.
  intros Le H (tp' & free' & r & -> & S & F & P). exists tp', free', r. do 3 (split; [done|]). destruct r; [| |done..].
  - destruct P as (P1 & P2 & P3 & P4). split; [lia|]. do 2 (split; [try done|]); [|done].
    intros j Hj. destruct (decide (j < id')); [apply H; lia|apply P3; lia].
  - destruct P as (-> & -> & -> & P3). do 3 (split; [done|]). intros j Hj. destruct (decide (j < id')); [apply H; lia|apply P3; lia].
Qed.

Lemma create_child d l m tp id bm ary cnt lay : wf (d + S l) tp -> node_at d (d + S l) tp id = Layer bm ary cnt lay ->
  wf (S l) (Layer bm ary cnt lay) -> digit (S l) id = m -> slot ary m = Null ->
  same (d + S l) tp (update_at d (d + S l) (add_layer m l) tp id) /\
  node_at (S d) (S d + l) (update_at d (d + S l) (add_layer m l) tp id) id = zero_layer l.
Proof.
  intros W E Wp Em En. pose proof (digit_range (S l) id) as D. rewrite Em in D.
  destruct (update_same d (S l) (add_layer m l) tp id W) as [S1 S2]; rewrite ?E; [done|by apply add_layer_same|].
  split; [done|]. simpl Nat.add. rewrite node_at_S, <- Nat.add_succ_r, S2, E. simpl. rewrite Em.
  apply slot_set_eq; [apply Wp|done].
Qed.

(** Below a layer without entries the number itself is free. *)
Lemma empty_descent l : forall d f tp free id, (d + l < 6)%nat -> (l < f)%nat -> wf (d + l) tp -> 0 <= free ->
  0 <= id < B (S (d + l)) -> node_at d (d + l) tp id = zero_layer l ->
  exists tp' free' r, sub_alloc_loop f (S (d + l)) tp free id l = Some (tp', free', r) /\ same (d + l) tp tp' /\ 0 <= free' /\
    ((r = Found id /\ free' = free - Z.of_nat l /\ wf 0 (node_at (d + l) (d + l) tp' id)) \/ (r = NoMemory /\ free < Z.of_nat l)).
Proof.
  induction l as [|l IH]; intros d [|f] tp free id HL Hf W F Hid E; try lia; erewrite sub_alloc_step by done; cbv zeta;
    (match goal with |- context [next_zero 0 (digit ?l id)] => pose proof (digit_range l id) as D;
      assert (next_zero 0 (digit l id) = digit l id) as -> by
        (unfold next_zero; destruct (Z.to_nat _) eqn:X; [unfold IDR_SIZE in X; lia|]; simpl; by rewrite Z.bits_0) end);
    rewrite (proj2 (Z.eqb_neq _ 32)) by lia; unfold at_slot; rewrite Z.eqb_refl.
  - exists tp, free, (Found id). do 2 (split; [done|]). split; [done|]. left. rewrite Nat.add_0_r in *.
    repeat split; [lia|]. rewrite E. apply zero_wf.
  - rewrite slot_empty. destruct (Z.ltb_spec 0 free) as [F0|F0].
    + destruct (create_child d l (digit (S l) id) tp id _ _ _ _ W E (zero_wf (S l)) eq_refl (slot_empty _)) as [S1 S2].
      rewrite Nat.add_succ_r in *. change (S (d + l)) with (S d + l)%nat in *.
      destruct (IH (S d) f _ (free - 1) id ltac:(lia) ltac:(lia) (proj1 S1) ltac:(lia) Hid S2) as (tp' & free' & r & -> & S3 & F' & P).
      exists tp', free', r. split; [done|]. split; [by eapply tree_same_trans|]. split; [done|].
      destruct P as [(-> & -> & P)|[-> P]]; [left|right]; (split; [done|]); [|lia]. split; [lia|done].
    + exists tp, free, NoMemory. repeat split; try done. right. split; [done|lia].
Qed.

Lemma held_slot l bm ary cnt lay j : wf l (Layer bm ary cnt lay) -> Z.testbit bm (digit l j) = true ->
  is_Some (holds l (Layer bm ary cnt lay) j).
Proof.
  intros W T. destruct l as [|l]; simpl; [rewrite T; by eexists|]. destruct W as (_ & _ & _ & _ & W).
  destruct (W _ (digit_range (S l) j)) as [Eb [En|Wc]]; rewrite T in Eb; [by rewrite En in Eb|]. by apply full_holds.
Qed.
Lemma free_slot bm ary cnt lay j : Z.testbit bm (digit 0 j) = false -> holds 0 (Layer bm ary cnt lay) j = None.
Proof. intros T. simpl. by rewrite T. Qed.

(** The numbers that a round passes over are in use. *)
Lemma passed d l tp id bm ary cnt lay j : node_at d (d + l) tp id = Layer bm ary cnt lay -> wf l (Layer bm ary cnt lay) ->
  id <= j < (id / B (S l) * 32 + next_zero bm (digit l id)) * B l -> is_Some (holds (d + l) tp j).
Proof.
  intros E W Hj. pose proof (digit_range l id) as D. destruct (next_zero_spec bm _ D) as (M1 & M2 & _).
  destruct (between l id _ j M1 Hj) as [Hh Hd]. rewrite (node_at_holds d l tp id j Hh), E. apply held_slot; [done|]. by apply M2.
Qed.
Lemma passed_slot d l tp id bm ary cnt lay j : node_at d (d + l) tp id = Layer bm ary cnt lay -> wf l (Layer bm ary cnt lay) ->
  id <= j < at_slot l id (next_zero bm (digit l id)) -> is_Some (holds (d + l) tp j).
Proof.
  intros E W. unfold at_slot. destruct (_ =? _); [lia|]. by apply (passed d l tp id bm ary cnt lay).
Qed.

(** A round that stays at a leaf, and one that goes down. *)
Lemma step_leaf f d tp free id bm ary cnt lay : (d + 0 < 6)%nat -> wf (d + 0) tp -> 0 <= free ->
  0 <= id < B (S (d + 0)) -> node_at d (d + 0) tp id = Layer bm ary cnt lay -> wf 0 (Layer bm ary cnt lay) ->
  next_zero bm (digit 0 id) <> 32 -> search_post (d + 0) tp free id (sub_alloc_loop (S f) (S (d + 0)) tp free id 0).
Proof.
  intros HL W F Hid E Wp N. pose proof (digit_range 0 id) as D. destruct (next_zero_spec bm _ D) as (M1 & M2 & M3).
  erewrite sub_alloc_step by done. cbv zeta. rewrite (proj2 (Z.eqb_neq _ 32)) by done.
  set (m := next_zero bm (digit 0 id)) in *. pose proof (at_slot_bounds d 0 id m ltac:(lia) Hid).
  pose proof (at_slot_high 0 id m ltac:(lia)) as Hh.
  exists tp, free, (Found (at_slot 0 id m)). split; [done|]. split; [by apply tree_same_refl|]. split; [done|].
  split; [pose proof (at_slot_le 0 id m); lia|]. split.
  - rewrite (node_at_holds d 0 tp id _ (eq_sym Hh)), E. apply free_slot. rewrite at_slot_digit by lia. by apply M3.
  - split; [intros j Hj; by apply (passed_slot d 0 tp id bm ary cnt lay)|]. split; [|lia].
    rewrite <- (node_at_high d 0 tp _ _ Hh), Nat.add_0_r in E. rewrite Nat.add_0_r. by rewrite E.
Qed.

Lemma step_down f d l tp free id bm ary cnt lay : (d + S l < 6)%nat -> (l < f)%nat -> wf (d + S l) tp -> 0 <= free ->
  0 <= id < B (S (d + S l)) -> node_at d (d + S l) tp id = Layer bm ary cnt lay -> wf (S l) (Layer bm ary cnt lay) ->
  next_zero bm (digit (S l) id) <> 32 ->
  let id' := at_slot (S l) id (next_zero bm (digit (S l) id)) in
  search_post (d + S l) tp free id (sub_alloc_loop (S f) (S (d + S l)) tp free id (S l)) \/
  (wf l (node_at (S d) (S d + l) tp id') /\ full (node_at (S d) (S d + l) tp id') = false /\
   sub_alloc_loop (S f) (S (d + S l)) tp free id (S l) = sub_alloc_loop f (S (S d + l)) tp free id' l).
Proof.
  intros HL Hf W F Hid E Wp N id'. pose proof (digit_range (S l) id) as D. destruct (next_zero_spec bm _ D) as (M1 & M2 & M3).
  erewrite sub_alloc_step by done. cbv zeta. rewrite (proj2 (Z.eqb_neq _ 32)) by done.
  set (m := next_zero bm (digit (S l) id)) in *. pose proof (at_slot_bounds d (S l) id m ltac:(lia) Hid) as Hid'. fold id' in Hid'.
  pose proof (at_slot_high (S l) id m ltac:(lia)) as Hh. fold id' in Hh. pose proof (at_slot_digit (S l) id m ltac:(lia)) as Hd.
  fold id' in Hd. pose proof (node_at_high d (S l) tp _ _ Hh) as E'. rewrite E in E'.
  pose proof Wp as (_ & Len & _ & _ & Wc). destruct (Wc m ltac:(lia)) as [Eb Wm]. rewrite M3 in Eb by done.
  destruct (slot ary m) as [| |bm' ary' cnt' lay'] eqn:Em; [| |].
  - left. apply (search_post_mono _ _ _ _ id'); [apply at_slot_le; lia|intros j Hj; by apply (passed_slot d (S l) tp id bm ary cnt lay)|].
    fold id'. destruct (Z.ltb_spec 0 free) as [F0|F0].
    + destruct (create_child d l m tp id' _ _ _ _ W E' Wp Hd Em) as [S1 S2].
      rewrite Nat.add_succ_r in *. change (S (d + l)) with (S d + l)%nat in *.
      destruct (empty_descent l (S d) f _ (free - 1) id' HL Hf (proj1 S1) ltac:(lia) Hid' S2) as (tp' & free' & r & -> & S3 & F' & P).
      exists tp', free', r. split; [done|]. split; [by eapply tree_same_trans|]. split; [done|].
      destruct P as [(-> & -> & P)|[-> P]]; [|lia]. split; [lia|]. split; [|split; [lia|split; [done|lia]]].
      rewrite <- (proj2 S1), (node_at_holds (S d) l _ id' id'), S2 by done. apply zero_holds.
    + exists tp, free, NoMemory. repeat split; try done; lia.
  - destruct Wm as [?|Wm]; [done|by destruct l].
  - right. destruct Wm as [?|Wm]; [done|]. simpl Nat.add. rewrite node_at_S, <- Nat.add_succ_r, E', Hd, Em. done.
Qed.

Lemma not_full_zero l bm ary cnt lay id : wf l (Layer bm ary cnt lay) -> full (Layer bm ary cnt lay) = false -> id mod B (S l) = 0 ->
  next_zero bm (digit l id) <> 32 /\ at_slot l id (next_zero bm (digit l id)) mod B l = 0.
Proof.
  intros (_ & _ & R)%wf_layer Fp Hm. rewrite mod_B_S in Hm. pose proof (B_pos l). pose proof (digit_range l id).
  pose proof (Z.mod_pos_bound id (B l)). assert (digit l id = 0 /\ id mod B l = 0) as [D0 Dm] by nia.
  rewrite D0. split.
  - intros E. unfold full in Fp. apply Z.eqb_neq in Fp. apply Fp, full_iff; [done|]. intros i Hi.
    apply (next_zero_spec bm 0); lia.
  - unfold at_slot. destruct (_ =? _); [done|]. by apply Z.mod_mul; lia.
Qed.

(** From the first number of a layer that is not full the search goes down only. *)
Lemma fresh_descent l : forall d f tp free id, (d + l < 6)%nat -> (l < f)%nat -> wf (d + l) tp -> 0 <= free ->
  0 <= id < B (S (d + l)) -> wf l (node_at d (d + l) tp id) -> full (node_at d (d + l) tp id) = false -> id mod B (S l) = 0 ->
  search_post (d + l) tp free id (sub_alloc_loop f (S (d + l)) tp free id l).
Proof.
  induction l as [|l IH]; intros d [|f] tp free id HL Hf W F Hid Wp Fp Hm; try lia;
    destruct (node_at d _ tp id) as [| |bm ary cnt lay] eqn:E; try done; destruct (not_full_zero _ _ _ _ _ _ Wp Fp Hm) as [N Hs].
  - by eapply step_leaf.
  - destruct (step_down f d l tp free id bm ary cnt lay HL ltac:(lia) W F Hid E Wp N) as [P|(Wc & Fc & ->)]; [done|].
    set (m := next_zero bm (digit (S l) id)) in *. 
    pose proof (digit_range (S l) id) as D. destruct (next_zero_spec bm _ D) as (M1 & _). fold m in M1.
    apply (search_post_mono _ _ _ _ (at_slot (S l) id m));
      [apply at_slot_le; lia|intros j Hj; by apply (passed_slot d (S l) tp id bm ary cnt lay)|].
    pose proof (at_slot_bounds d (S l) id m ltac:(lia) Hid). rewrite Nat.add_succ_r in *. apply IH; try done; lia.
Qed.

Lemma next_up_mod l id : next_up l id mod B (S l) = 0.
Proof. unfold next_up. apply Z.mod_mul. pose proof (B_pos (S l)). lia. Qed.
Lemma mod_B_le j k id : (j <= k)%nat -> id mod B k = 0 -> id mod B j = 0.
Proof.
  intros H E. pose proof (B_pos j). pose proof (B_pos k). apply Z.mod_divide in E as [c ->]; [|lia].
  replace k with ((k - j) + j)%nat by lia. rewrite B_add, Z.mul_assoc. apply Z.mod_mul. lia.
Qed.

(** The search from a number whose digits below [z] are 0: each way up is to a
    level that is higher than [z]. *)
Lemma search_ok f : forall d l z tp free id, (d + l < 6)%nat -> (z <= l)%nat -> wf (d + l) tp -> 0 <= free ->
  0 <= id < B (S (d + l)) -> wf l (node_at d (d + l) tp id) -> id mod B z = 0 ->
  ((S (d + l) - z) * S (S (d + l)) + l < f)%nat ->
  search_post (d + l) tp free id (sub_alloc_loop f (S (d + l)) tp free id l).
Proof.
  induction f as [|f IH]; intros d l z tp free id HL Hz W F Hid Wp Hm Hf; [by apply Nat.nlt_0_r in Hf|].
  destruct (node_at d (d + l) tp id) as [| |bm ary cnt lay] eqn:E; [by destruct l..|].
  pose proof (digit_range l id) as D. destruct (next_zero_spec bm _ D) as (M1 & _).
  destruct (decide (next_zero bm (digit l id) = 32)) as [Em|Em].
  - pose proof (next_up_bounds d l id Hid) as U.
    assert (Held : forall j, id <= j < next_up l id -> is_Some (holds (d + l) tp j)).
    { intros j Hj. apply (passed d l tp id bm ary cnt lay); [done..|]. rewrite Em. unfold next_up in Hj. set (q := id / B (S l)) in *. rewrite B_S in Hj. lia. }
    erewrite sub_alloc_step by done. cbv zeta. rewrite Em, Z.eqb_refl. destruct (Z.leb_spec (B (S (d + l))) (next_up l id)).
    + exists tp, free, (NeedToGrow (next_up l id)). repeat split; try done; [lia|]. intros j Hj. apply Held. lia.
    + destruct d as [|d].
      { exfalso. pose proof (proj1 (below_top 0 l id) Hid). change (B 0) with 1 in *. unfold next_up in *. simpl in *. nia. }
      apply (search_post_mono _ _ _ _ (next_up l id)); [lia|done|]. pose proof (next_up_mod l id) as Hm'.
      cbn [Nat.eqb]. destruct (Z.eqb_spec (id / B (S (S l))) (next_up l id / B (S (S l)))) as [Eh|].
      * assert (Wq : wf (S l) (node_at d (d + S l) tp (next_up l id))).
        { rewrite <- (node_at_high d (S l) tp _ _ Eh). apply node_at_parent; [done|]. by rewrite E. }
        replace (S d + l)%nat with (d + S l)%nat in * by lia. apply (IH d (S l) (S l)); try done; nia.
      * change (S d + l)%nat with (0 + (S d + l))%nat in *. apply (IH 0%nat (S d + l)%nat (S l)); simpl Nat.add in *; try done; nia.
  - assert (Held : forall j, id <= j < at_slot l id (next_zero bm (digit l id)) -> is_Some (holds (d + l) tp j))
      by (intros j Hj; by apply (passed_slot d l tp id bm ary cnt lay)).
    destruct l as [|l]; [by eapply step_leaf|].
    destruct (step_down f d l tp free id bm ary cnt lay HL ltac:(nia) W F Hid E Wp Em) as [P|(Wc & Fc & ->)]; [done|].
    set (m := next_zero bm (digit (S l) id)) in *. apply (search_post_mono _ _ _ _ (at_slot (S l) id m)); [apply at_slot_le; lia|done|].
    pose proof (at_slot_bounds d (S l) id m ltac:(lia) Hid). rewrite Nat.add_succ_r in *.
    destruct (decide (at_slot (S l) id m mod B (S l) = 0)); [apply fresh_descent; try done; nia|].
    assert (Es : at_slot (S l) id m = id).
    { unfold at_slot in *. destruct (m =? _); [done|]. destruct n. apply Z.mod_mul. pose proof (B_pos (S l)). lia. }
    rewrite Es in *. assert (z <> S l) by (by intros ->). apply (IH (S d) l z); try done; simpl Nat.add in *; nia.
Qed.

(** [sub_alloc] in a tree that is in order. *)
Lemma sub_alloc_ok t tp free id : (t < 6)%nat -> wf t tp -> 0 <= free -> 0 <= id < B (S t) ->
  search_post t tp free id (sub_alloc_loop ((S t + 1) * (S t + 1)) (S t) tp free id t).
Proof. intros. apply (search_ok _ 0 t 0); try done; try lia. apply Z.mod_1_r. Qed.
