(* ===== verification/IdrCorrect.v ===== *)
(** * The ID allocator is a map from numbers to pointers

    Growing, installing, removing, replacing and finding, for whole idr's: what
    each call does to the map that the tree stands for, and that a sequence of
    calls answers as the map does. *)

From stdpp Require Import base numbers list gmap.
From S2P Require Import Prelude Idr IdrProps.

Open Scope Z_scope.

(** The pointer of a number in a tree of the level [t], and in an idr. *)
Definition entry (t : nat) (x : node) (j : Z) : option Z := if decide (0 <= j < B (S t)) then holds t x j else None.
Definition registered (s : idr) (j : Z) : option Z :=
  match layers s with O => None | S t => entry t (top s) j end.

(** An idr that is in order. *)
Definition idr_ok (s : idr) : Prop :=
  0 <= id_free_cnt s /\
  match layers s with O => top s = Null | S t => (t < 6)%nat /\ wf t (top s) end.

(** ** Growing *)

Lemma count_zero t x : wf t x -> count_of x = 0 -> forall j, holds t x j = None.
Proof.
  destruct x as [| |bm ary cnt lay]; [by destruct t..|]. intros W E j. simpl in E. subst. destruct t as [|t]; simpl in *.
  - destruct W as (_ & _ & _ & E & _). symmetry in E. rewrite tally_zero in E. by rewrite E by apply digit_range.
  - destruct W as (_ & _ & _ & E & _). symmetry in E. rewrite tally_zero in E. specialize (E _ (digit_range (S t) j)).
    destruct (slot ary _); by rewrite ?holds_null.
Qed.

Lemma move_up_ok t x : wf t x -> count_of x = 0 -> wf (S t) (move_up x) /\ count_of (move_up x) = 0.
Proof.
  intros W E. destruct x as [| |bm ary cnt lay]; [by destruct t..|]. simpl in E. subst. split; [|done].
  pose proof (wf_layer _ _ _ _ _ W) as (-> & Len & R).
  assert (N : forall i, 0 <= i < 32 -> slot ary i = Null /\ Z.testbit bm i = false).
  { intros i Hi. destruct t as [|t]; destruct W as (_ & _ & _ & E & W); symmetry in E; rewrite tally_zero in E; specialize (E i Hi).
    - split; [by apply W|done].
    - destruct (W i Hi) as [-> _]. by destruct (slot ary i). }
  simpl. repeat split; try lia; [|by destruct (N i H) as [-> ->]|left; by apply N].
  symmetry. apply tally_zero. intros i Hi. by destruct (N i Hi) as [-> _].
Qed.

Lemma above_ok t x : wf t x -> wf (S t) (layer_above x (S t)) /\
  forall j, holds (S t) (layer_above x (S t)) j = if digit (S t) j =? 0 then holds t x j else None.
Proof.
  intros W. unfold layer_above. rewrite <- (eq_refl : full x = (bitmap_of x =? IDR_FULL)). split.
  - cbn [wf]. rewrite length_set_slot. pose proof (nonnull_change (replicate 32 Null) 0 x eq_refl ltac:(lia)) as C.
    rewrite slot_empty, (wf_nonnull _ _ W) in C. cbn [nonnull Z.b2z] in C.
    assert (N : tally (fun i => nonnull (slot (replicate 32 Null) i)) = 0) by (apply tally_zero; intros; by rewrite slot_empty).
    do 2 (split; [done|]). split; [destruct (full x); lia|]. split; [lia|]. intros i Hi. split.
    + rewrite slot_set by (done || lia). case_decide; [subst; by destruct (full x)|]. rewrite slot_empty.
      destruct (full x); [|apply Z.bits_0]. change 1 with (2 ^ 0). rewrite Z.pow2_bits_eqb by lia. by apply Z.eqb_neq.
    + rewrite slot_set by (done || lia). case_decide; [by right|]. left. apply slot_empty.
  - intros j. cbn [holds]. pose proof (digit_range (S t) j). rewrite slot_set by (done || lia).
    destruct (Z.eqb_spec (digit (S t) j) 0); [by rewrite decide_True|]. rewrite decide_False by done.
    by rewrite slot_empty, holds_null.
Qed.

Lemma digit_top t j : 0 <= j < B (S (S t)) -> digit (S t) j = j / B (S t).
Proof.
  intros H. rewrite digit_div. apply Z.mod_small. rewrite B_S in H. pose proof (B_pos (S t)).
  split; [apply Z.div_pos; lia|apply Z.div_lt_upper_bound; lia].
Qed.
Lemma entry_above t x y : (forall j, holds (S t) y j = if digit (S t) j =? 0 then holds t x j else None) ->
  forall j, entry (S t) y j = entry t x j.
Proof.
  intros H j. unfold entry. pose proof (B_S (S t)). pose proof (B_pos (S t)). case_decide as D; case_decide as D'; [| |lia|done].
  - rewrite H, digit_top, Z.div_small by done. done.
  - rewrite H, digit_top by done. destruct (Z.eqb_spec (j / B (S t)) 0) as [E|]; [|done].
    apply Z.div_small_iff in E; lia.
Qed.

(** What the loop that adds layers comes to. *)
Definition grow_post (t : nat) (p : node) (free id : Z) (built : nat) (res : (node * nat * Z) + (node * Z)) : Prop :=
  match res with
  | inl (p', L, free') => exists t', L = S t' /\ (t <= t' < 6)%nat /\ wf t' p' /\ (forall j, entry t' p' j = entry t p j) /\
      0 <= free' /\ free - Z.of_nat (t' - t) <= free' /\ (id < B (S t') \/ t' = 5%nat) /\ (B (S t) <= id -> t <> 5%nat -> (t < t')%nat)
  | inr (old, free') => old = tear_down built p /\ free' = free + Z.of_nat built /\ free < Z.of_nat (5 - t) /\ count_of p <> 0
  end.

Lemma grow_ok f : forall t p free id built, (t < 6)%nat -> (5 - t < f)%nat -> wf t p -> 0 <= free ->
  grow_post t p free id built (grow_loop f id p (S t) free built).
Proof.
  induction f as [|f IH]; intros t p free id built Ht Hf W F; [lia|]. cbn [grow_loop]. rewrite B_shift'. change (MAX_LEVEL - 1)%nat with 6%nat.
  destruct (Nat.ltb_spec (S t) 6) as [Ht'|]; simpl andb; [|exists t; repeat split; auto with lia].
  destruct (Z.leb_spec (B (S t)) id); [|exists t; repeat split; auto with lia].
  destruct (Z.eqb_spec (count_of p) 0) as [Ec|Ec].
  - destruct (move_up_ok t p W Ec) as [Wm Cm]. pose proof (IH (S t) (move_up p) free id built ltac:(lia) ltac:(lia) Wm F) as P.
    destruct (grow_loop _ _ _ _ _ _) as [[[p' L] free']|[old free']]; [|naive_solver].
    destruct P as (t' & -> & Ht2 & W' & E' & F' & U & Hid & _). exists t'. repeat split; try done; try lia.
    intros j. rewrite E'. unfold entry. rewrite (count_zero _ _ Wm Cm), (count_zero _ _ W Ec). by do 2 case_decide.
  - unfold get_from_free_list. destruct (Z.ltb_spec 0 free); simpl negb; [|repeat split; lia].
    destruct (above_ok t p W) as [Wa Ha].
    pose proof (IH (S t) (layer_above p (S t)) (free - 1) id (S built) ltac:(lia) ltac:(lia) Wa ltac:(lia)) as P.
    destruct (grow_loop _ _ _ _ _ _) as [[[p' L] free']|[old free']].
    + destruct P as (t' & -> & Ht2 & W' & E' & F' & U & Hid & _). exists t'. repeat split; try done; try lia.
      intros j. rewrite E'. by apply entry_above.
    + destruct P as (-> & -> & Fl & _). repeat split; [lia..|done].
Qed.

(** ** Finding a slot *)

(** What [idr_get_empty_slot] does to a tree of the level [t] with [free] layers. *)
Definition slot_post (t : nat) (p : node) (free id : Z) (res : option (idr * alloc_result)) : Prop :=
  exists s r, res = Some (s, r) /\ idr_ok s /\ (forall j, registered s j = entry t p j) /\
  match r with
  | Found i => id <= i < B (layers s) /\ entry t p i = None /\ (forall j, id <= j < i -> is_Some (entry t p j)) /\
               (0 < layers s)%nat /\ wf 0 (node_at (layers s - 1) (layers s - 1) (top s) i)
  | NoMemory => free < Z.of_nat (10 - t)
  | _ => False
  end.

Lemma slot_post_change t p free id t' p' free' id' res : (t <= t' < 6)%nat -> free - Z.of_nat (t' - t) <= free' ->
  (forall j, entry t' p' j = entry t p j) -> id <= id' -> (forall j, id <= j < id' -> is_Some (entry t p j)) ->
  slot_post t' p' free' id' res -> slot_post t p free id res.
Proof.
  intros Ht Hf E Hid Held (s & r & -> & Ok & R & P). exists s, r. do 2 (split; [done|]).
  split; [intros; by rewrite R|]. destruct r; try done; [|lia]. destruct P as (P1 & P2 & P3 & P4).
  split; [lia|]. split; [by rewrite <- E|]. split; [|done]. intros j Hj. destruct (decide (j < id')); [apply Held; lia|].
  rewrite <- E. apply P3. lia.
Qed.

Lemma entry_same t x y : same t x y -> forall j, entry t y j = entry t x j.
Proof. intros [_ E] j. unfold entry. by rewrite E. Qed.
Lemma entry_in t x j : 0 <= j < B (S t) -> entry t x j = holds t x j.
Proof. intros. unfold entry. by rewrite decide_True. Qed.

(** A round: the tree grows, and the search either ends or asks for one more level. *)
Definition round (f : nat) (id : Z) (p : node) (L : nat) (free : Z) (built old_L : nat) : option (idr * alloc_result) :=
  match grow_loop MAX_LEVEL id p L free built with
  | inr (old, free) => Some (Idr old old_L free, NoMemory)
  | inl (p, L, free) =>
      '(s, r) ← sub_alloc (Idr p L free) id;
      match r with NeedToGrow id => get_empty_slot_loop f s id | _ => Some (s, r) end
  end.

Lemma round_ok f id p t free built old_L : wf t p -> (t < 6)%nat -> 0 <= free -> 0 <= id < B 6 ->
  (exists j, id <= j < B 6 /\ entry t p j = None) -> (count_of p <> 0 -> built = O /\ old_L = S t) ->
  (forall t' p' free', (t <= t' < 5)%nat -> wf t' p' -> 0 <= free' -> (forall j, entry t' p' j = entry t p j) ->
     (exists j, B (S t') <= j < B 6 /\ entry t p j = None) -> (B (S t) <= id -> (t < t')%nat) -> free - Z.of_nat (t' - t) <= free' ->
     slot_post t' p' free' (B (S t')) (get_empty_slot_loop f (Idr p' (S t') free') (B (S t')))) ->
  slot_post t p free id (round f id p (S t) free built old_L).
Proof.
  intros W Ht F Hid (j0 & Hj0 & Ej0) Hb Next. unfold round. pose proof (grow_ok MAX_LEVEL t p free id built Ht ltac:(unfold MAX_LEVEL; lia) W F) as G.
  destruct (grow_loop _ _ _ _ _ _) as [[[p' L] free']|[old free']].
  - destruct G as (t' & -> & Ht' & W' & E' & F' & U & Hid' & Gt).
    assert (Hid2 : 0 <= id < B (S t')) by (destruct Hid' as [?| ->]; lia).
    unfold sub_alloc. cbn [layers top id_free_cnt]. replace (S t' - 1)%nat with t' by lia.
    destruct (sub_alloc_ok t' p' free' id ltac:(lia) W' F' Hid2) as (tp' & free2 & r & -> & Sm & F2 & P). simpl.
    destruct r as [i|i| |].
    + destruct P as (P1 & P2 & P3 & P4 & P5). exists (Idr tp' (S t') free2), (Found i).
      split; [done|]. split; [repeat split; simpl; [lia..|apply Sm]|]. simpl. split; [intros; rewrite <- E'; by apply entry_same|].
      split; [lia|]. rewrite <- E', entry_in by lia. split; [done|]. split; [|rewrite Nat.sub_0_r; auto with lia].
      intros j Hj. rewrite <- E', entry_in by lia. by apply P3.
    + destruct P as (-> & -> & -> & P3). assert (Held : forall j, id <= j < B (S t') -> is_Some (entry t p j))
        by (intros j Hj; rewrite <- E', entry_in by lia; by apply P3).
      assert (B (S t') <= j0).
      { destruct (decide (j0 < B (S t'))); [|lia]. destruct (Held j0) as [? X]; [lia|]. by rewrite Ej0 in X. }
      assert (t' <> 5%nat) by (intros ->; lia).
      apply (slot_post_change t p free id t' p' free' (B (S t'))); try done; try lia.
      apply Next; try done; try lia. exists j0. split; [lia|done].
    + done.
    + exists (Idr tp' (S t') free2), NoMemory. split; [done|]. split; [repeat split; simpl; [lia..|apply Sm]|].
      split; [intros; simpl; rewrite <- E'; by apply entry_same|]. lia.
  - destruct G as (-> & -> & Fl & C). destruct (Hb C) as [-> ->]. exists (Idr p (S t) (free + 0)), NoMemory. simpl.
    split; [done|]. split; [repeat split; simpl; [lia..|done]|]. split; [done|lia].
Qed.

Lemma slot_loop_ok f : forall t p free id, (t < 6)%nat -> wf t p -> 0 <= free -> 0 <= id < B 6 ->
  (7 - t <= f)%nat \/ B (S t) <= id /\ (6 - t <= f)%nat ->
  (exists j, id <= j < B 6 /\ entry t p j = None) -> slot_post t p free id (get_empty_slot_loop f (Idr p (S t) free) id).
Proof.
  induction f as [|f IH]; intros t p free id Ht W F Hid Hf Ex; [lia|].
  assert (E : get_empty_slot_loop (S f) (Idr p (S t) free) id = round f id p (S t) free 0 (S t)) by (destruct p; [by destruct t..|done]).
  rewrite E. apply round_ok; try done. intros t' p' free' Ht' W' F' E' (j & Hj & Ej) Gt _.
  pose proof (B_pos (S t')). apply IH; try done; try lia. exists j. by rewrite E'.
Qed.

Lemma entry_zero t j : entry t (zero_layer t) j = None.
Proof. unfold entry. case_decide; [apply zero_holds|done]. Qed.

(** [idr_get_empty_slot]: the lowest free number from [id] on, and the way to its
    leaf; without it, at most ten layers were at hand. *)
Lemma get_empty_slot_ok s id : idr_ok s -> 0 <= id < B 6 -> (exists j, id <= j < B 6 /\ registered s j = None) ->
  exists s' r, idr_get_empty_slot s id = Some (s', r) /\ idr_ok s' /\ (forall j, registered s' j = registered s j) /\
  match r with
  | Found i => id <= i < B (layers s') /\ registered s i = None /\ (forall j, id <= j < i -> is_Some (registered s j)) /\
               (0 < layers s')%nat /\ wf 0 (node_at (layers s' - 1) (layers s' - 1) (top s') i)
  | NoMemory => id_free_cnt s < 11
  | _ => False
  end.
Proof.
  destruct s as [p [|t] free]; intros [F Ok] Hid Ex; simpl in *.
  - subst p. assert (E : idr_get_empty_slot (Idr Null 0 free) id =
      if 0 <? free then round MAX_LEVEL id (zero_layer 0) 1 (free - 1) 1 0 else Some (Idr Null 0 free, NoMemory)).
    { unfold idr_get_empty_slot. generalize MAX_LEVEL as f. intros f. cbn [get_empty_slot_loop top id_free_cnt layers].
      unfold get_from_free_list. by destruct (0 <? free). }
    rewrite E. clear E. destruct (Z.ltb_spec 0 free).
    2: { exists (Idr Null 0 free), NoMemory. repeat split; simpl; lia || done. }
    destruct (round_ok MAX_LEVEL id (zero_layer 0) 0 (free - 1) 1 0 (zero_wf 0) ltac:(lia) ltac:(lia) Hid) as (s' & r & -> & Ok & R & P).
    + destruct Ex as (j & Hj & _). exists j. by rewrite entry_zero.
    + done.
    + intros t' p' free' Ht' W' F' E' (j & Hj & Ej) _ _. pose proof (B_pos (S t')). apply slot_loop_ok; try done; try (unfold MAX_LEVEL; lia).
      exists j. by rewrite E', entry_zero.
    + exists s', r. split; [done|]. split; [done|]. split; [intros; by rewrite R, entry_zero|].
      destruct r; try done; [|lia]. destruct P as (P1 & _ & P3 & P4). repeat split; try done; try lia; try apply P4.
      intros j Hj. destruct (P3 j Hj) as [? X]. by rewrite entry_zero in X.
  - destruct Ok as [Ht W]. destruct (slot_loop_ok (S MAX_LEVEL) t p free id Ht W F Hid ltac:(unfold MAX_LEVEL; lia) Ex) as (s' & r & E & Ok & R & P).
    exists s', r. split; [done|]. split; [done|]. split; [done|]. destruct r; try done. lia.
Qed.

(** ** Installing *)

Global Instance low_dec l i j : Decision (low l i j).
Proof. unfold low. apply _. Defined.

Lemma digit_0 id : Z.land id IDR_MASK = digit 0 id.
Proof. unfold digit. by rewrite Z.shiftr_0_r. Qed.

Lemma node_at_null d l id : node_at d l Null id = Null.
Proof. by destruct d. Qed.

Lemma not_held_not_full t x id : wf t x -> holds t x id = None -> full x = false.
Proof.
  intros W N. apply not_true_is_false. intros Fx. apply (full_holds _ _ W) with id in Fx. rewrite N in Fx. by destruct Fx.
Qed.

(** A layer of the level [S t] whose slot for [id] gets another tree. *)
Lemma wf_change_slot t bm ary cnt lay id y bm' cnt' : let i := digit (S t) id in
  wf (S t) (Layer bm ary cnt lay) -> y = Null \/ wf t y -> 0 <= bm' < 2 ^ 32 ->
  (forall j, 0 <= j < 32 -> Z.testbit bm' j = if decide (j = i) then full y else Z.testbit bm j) ->
  cnt' + Z.b2z (nonnull (slot ary i)) = cnt + Z.b2z (nonnull y) ->
  wf (S t) (Layer bm' (set_slot ary i y) cnt' lay) /\
  (forall v, (forall j, holds t y j = if decide (low t j id) then v else holds t (slot ary i) j) ->
   forall j, holds (S t) (Layer bm' (set_slot ary i y) cnt' lay) j = if decide (low (S t) j id) then v else holds (S t) (Layer bm ary cnt lay) j).
Proof.
  intros i (-> & Len & R & -> & W) Wy R' Bits C. pose proof (digit_range (S t) id) as Hi. fold i in Hi.
  pose proof (nonnull_change ary i y Len Hi). split.
  - cbn [wf]. rewrite length_set_slot. do 3 (split; [done|]). split; [lia|]. intros j Hj. rewrite Bits, slot_set by lia.
    destruct (decide (i = j)) as [<-|]; [by rewrite decide_True|]. rewrite decide_False by done. by apply W.
  - intros v E j. cbn [holds]. pose proof (digit_range (S t) j). rewrite slot_set by lia.
    destruct (decide (i = digit (S t) j)) as [Ej|Nj].
    + rewrite E, <- Ej. destruct (decide (low t j id)); [rewrite decide_True|rewrite decide_False]; try done; rewrite low_S; naive_solver.
    + rewrite (decide_False (P := low (S t) j id)); [done|]. rewrite low_S. naive_solver.
Qed.

Lemma install_ok t : forall x id ptr, wf t x -> holds t x id = None -> wf 0 (node_at t t x id) -> ~ not_pointer ptr ->
  wf t (install t x id ptr).1 /\ (install t x id ptr).2 = full (install t x id ptr).1 /\
  forall j, holds t (install t x id ptr).1 j = if decide (low t j id) then Some (ptr_of ptr) else holds t x j.
Proof.
  induction t as [|t IH]; intros [| |bm ary cnt lay] id ptr W N Wl Np; try done.
  - destruct W as (-> & Len & R & -> & W). pose proof (digit_range 0 id) as Hi. cbn [holds] in N. cbn [install fst snd].
    set (i := digit 0 id) in *. destruct (Z.testbit bm i) eqn:T; [done|]. split.
    + cbn [wf]. rewrite length_set_slot. pose proof (setbit_range bm i R Hi). do 3 (split; [done|]). split.
      * pose proof (tally_change (Z.testbit (Z.lor bm (2 ^ i))) (Z.testbit bm) i Hi) as C. rewrite setbit_spec, Z.eqb_refl, T in C by lia.
        simpl in C. rewrite Z.add_0_r in C. symmetry. apply C. intros j _ Nj. rewrite setbit_spec by lia. by rewrite (proj2 (Z.eqb_neq i j)).
      * intros j Hj. rewrite slot_set, setbit_spec by lia. case_decide as Ej.
        -- subst. by rewrite Z.eqb_refl.
        -- rewrite (proj2 (Z.eqb_neq i j)) by done. by apply W.
    + split; [done|]. intros j. cbn [holds]. pose proof (digit_range 0 j). rewrite slot_set, setbit_spec by lia.
      destruct (decide (i = digit 0 j)) as [Ej|Nj].
      * rewrite Ej, Z.eqb_refl, decide_True; [done|]. by apply low_0.
      * rewrite (proj2 (Z.eqb_neq _ _) Nj), decide_False; [done|]. rewrite low_0. naive_solver.
  - pose proof (digit_range (S t) id) as Hi. cbn [install]. cbn [holds] in N. cbn [node_at] in Wl.
    rewrite Nat.sub_1_r in Wl. simpl Nat.pred in Wl. pose proof W as (_ & _ & R & _ & Wc).
    set (i := digit (S t) id) in *. destruct (Wc i Hi) as [Eb [E|Wi]]; [rewrite E, node_at_null in Wl; by destruct Wl|].
    destruct (IH _ id ptr Wi N Wl Np) as (W' & F' & H'). rewrite (not_held_not_full _ _ _ Wi N) in Eb.
    destruct (install t (slot ary i) id ptr) as [y f]. simpl in W', F', H'. subst f. cbn [fst snd].
    destruct (wf_change_slot t bm ary cnt lay id y (if full y then Z.lor bm (2 ^ i) else bm) cnt W) as [W2 H2].
    + by right.
    + destruct (full y); [by apply setbit_range|done].
    + intros j Hj. fold i. destruct (full y); rewrite ?setbit_spec by lia; case_decide as Ej; subst; rewrite ?Z.eqb_refl; try done.
      by rewrite (proj2 (Z.eqb_neq i j)) by congruence.
    + fold i. by rewrite (wf_nonnull _ _ Wi), (wf_nonnull _ _ W').
    + split; [exact W2|]. split; [|exact (H2 _ H')]. destruct (full y) eqn:Fy; [done|].
      symmetry. apply Z.eqb_neq. simpl bitmap_of. intros ->. rewrite (proj1 (full_iff _ R) eq_refl) in Eb by done. done.
Qed.

(** ** Removing *)

Definition remove_post (t : nat) (x : node) (id : Z) (res : node * bool * bool) : Prop :=
  let '(y, found, gone) := res in
  found = bool_decide (is_Some (holds t x id)) /\
  (forall j, holds t y j = if decide (low t j id) then None else holds t x j) /\
  if gone : bool then y = Null /\ x <> Null else (y = Null /\ x = Null) \/ (wf t y /\ wf t x).

Lemma remove_leaf bm ary cnt lay id : wf 0 (Layer bm ary cnt lay) ->
  remove_post 0 (Layer bm ary cnt lay) id (sub_remove 0 (Layer bm ary cnt lay) id).
Proof.
  intros W. pose proof W as (-> & Len & R & -> & Ws). pose proof (digit_range 0 id) as Hi. cbn [sub_remove]. rewrite digit_0.
  set (i := digit 0 id) in *. destruct (Z.testbit bm i) eqn:T.
  - assert (C : tally (Z.testbit bm) - 1 = tally (Z.testbit (Z.clearbit bm i))).
    { pose proof (tally_change (Z.testbit (Z.clearbit bm i)) (Z.testbit bm) i Hi) as C. rewrite clearbit_spec, Z.eqb_refl, T in C by lia.
      simpl in C. rewrite Z.add_0_r in C. rewrite <- C; [lia|]. intros j Hj Nj. rewrite clearbit_spec by lia.
      by rewrite (proj2 (Z.eqb_neq i j)) by congruence. }
    assert (Ef : true = bool_decide (is_Some (holds 0 (Layer bm ary (tally (Z.testbit bm)) 0) id))).
    { symmetry. apply bool_decide_eq_true. cbn [holds]. fold i. rewrite T. by eexists. }
    destruct (Z.eqb_spec (tally (Z.testbit bm) - 1) 0) as [E0|]; (split; [exact Ef|]).
    + split; [|done]. intros j. cbn [holds]. rewrite C, tally_zero in E0. case_decide as Ej; [done|].
      specialize (E0 _ (digit_range 0 j)). pose proof (digit_range 0 j). rewrite clearbit_spec in E0 by lia.
      rewrite low_0 in Ej. fold i in Ej. rewrite (proj2 (Z.eqb_neq i _)) in E0 by congruence. simpl in E0. by rewrite E0.
    + split.
      * intros j. cbn [holds]. pose proof (digit_range 0 j). rewrite slot_set, clearbit_spec by lia.
        destruct (decide (i = digit 0 j)) as [Ej|Nj].
        -- rewrite Ej, Z.eqb_refl, decide_True; [done|]. by apply low_0.
        -- rewrite (proj2 (Z.eqb_neq _ _) Nj), decide_False; [done|]. rewrite low_0. naive_solver.
      * right. split; [|done]. cbn [wf]. rewrite length_set_slot. pose proof (clearbit_range bm i R Hi). do 4 (split; [done|]).
        intros j Hj. rewrite slot_set, clearbit_spec by lia. case_decide as Ej; [naive_solver|].
        rewrite (proj2 (Z.eqb_neq i j)) by done. by apply Ws.
  - split; [symmetry; apply bool_decide_eq_false; cbn [holds]; fold i; rewrite T; by intros [? ?]|].
    split; [|by right]. intros j. case_decide as Ej; [|done]. apply free_slot. apply low_0 in Ej. rewrite Ej. done.
Qed.

Lemma sub_remove_ok t : forall x id, x = Null \/ wf t x -> remove_post t x id (sub_remove t x id).
Proof.
  induction t as [|t IH]; intros [| |bm ary cnt lay] id W; try (by destruct W).
  1, 3: split; [by rewrite holds_null, bool_decide_eq_false_2 by (by intros [? ?])|split; [intros; rewrite holds_null; by case_decide|by left]].
  - apply remove_leaf. by destruct W.
  - destruct W as [|W]; [done|]. pose proof (digit_range (S t) id) as Hi. cbn [sub_remove]. set (i := digit (S t) id) in *.
    pose proof W as (_ & Len & R & Ec & Wc). destruct (Wc i Hi) as [Eb Wi]. specialize (IH (slot ary i) id Wi).
    destruct (sub_remove t (slot ary i) id) as [[y found] gone]. destruct IH as (Ef & Eh & P).
    assert (Wy : y = Null \/ wf t y) by (destruct gone; naive_solver).
    assert (Fy : full y = false).
    { destruct Wy as [->|Wy]; [done|]. apply (not_held_not_full t y id Wy). by rewrite Eh, decide_True. }
    assert (Bits : forall j, 0 <= j < 32 -> Z.testbit (Z.clearbit bm i) j = if decide (j = i) then full y else Z.testbit bm j).
    { intros j Hj. rewrite clearbit_spec, Fy by lia. case_decide; [subst; by rewrite Z.eqb_refl|].
      by rewrite (proj2 (Z.eqb_neq i j)) by congruence. }
    pose proof (fun c => wf_change_slot t bm ary cnt lay id y (Z.clearbit bm i) c W Wy (clearbit_range _ _ R Hi) Bits) as Ch. fold i in Ch.
    assert (Nx : gone = true -> nonnull (slot ary i) = true) by (intros ->; destruct P; by destruct (slot ary i)).
    destruct gone; [destruct P as [-> _]; rewrite Nx in Ch by done; destruct (Z.eqb_spec (cnt - 1) 0) as [E0|]|].
    + split; [done|]. split; [|done]. destruct (Ch 0 ltac:(simpl; lia)) as [Wz Hz]. intros j. rewrite holds_null, <- (Hz None Eh).
      symmetry. by apply count_zero.
    + destruct (Ch (cnt - 1) ltac:(simpl; lia)) as [Wz Hz]. split; [done|]. split; [exact (Hz None Eh)|]. by right.
    + destruct (Ch cnt) as [Wz Hz]; [|split; [done|split; [exact (Hz None Eh)|by right]]].
      destruct P as [[-> ->]|[P1 P2]]; [done|]. by rewrite (wf_nonnull _ _ P1), (wf_nonnull _ _ P2).
Qed.

(** ** Finding and replacing *)

Lemma find_loop_ok t : forall x id, wf t x -> exists p, find_loop (S t) x id = Some p /\ ptr_of p = default 0 (holds t x id).
Proof.
  induction t as [|t IH]; intros [| |bm ary cnt lay] id W; try done; pose proof W as (-> & _ & _ & _ & Wc);
    cbn [find_loop holds]; rewrite Nat.eqb_refl; cbn [negb].
  - exists (slot ary (digit 0 id)). split; [done|]. destruct (Wc _ (digit_range 0 id)) as [_ N].
    destruct (Z.testbit bm _); [done|]. by rewrite N.
  - destruct (Wc _ (digit_range (S t) id)) as [_ [->|Wi]]; [exists Null; by rewrite holds_null|]. exact (IH _ id Wi).
Qed.

Lemma full_same_keys t x y : wf t x -> wf t y -> (forall j, is_Some (holds t y j) <-> is_Some (holds t x j)) -> full y = full x.
Proof.
  intros Wx Wy E. apply eq_bool_prop_intro. rewrite !Is_true_true, (full_holds t y Wy), (full_holds t x Wx). by setoid_rewrite E.
Qed.

Definition replace_post (t : nat) (x : node) (id : Z) (ptr : node) (res : node * (Z + Z)) : Prop :=
  res.2 = match holds t x id with None => inl (- ENOENT) | Some p => inr p end /\
  ((res.1 = Null /\ x = Null) \/ (wf t res.1 /\ wf t x)) /\
  forall j, holds t res.1 j = if decide (low t j id) then (fun _ => ptr_of ptr) <$> holds t x id else holds t x j.

Lemma replace_leaf bm ary cnt lay id ptr : wf 0 (Layer bm ary cnt lay) -> ~ not_pointer ptr ->
  replace_post 0 (Layer bm ary cnt lay) id ptr (replace_loop 0 (Layer bm ary cnt lay) id ptr).
Proof.
  intros W Np. pose proof W as (-> & Len & R & -> & Ws). pose proof (digit_range 0 id) as Hi. cbn [replace_loop]. rewrite digit_0.
  unfold replace_post. cbn [holds]. set (i := digit 0 id) in *. destruct (Z.testbit bm i) eqn:T; cbn [negb fst snd].
  - split; [done|]. split.
    + right. split; [|done]. cbn [wf]. rewrite length_set_slot. do 4 (split; [done|]). intros j Hj. rewrite slot_set by lia.
      case_decide; [subst; by rewrite T|]. by apply Ws.
    + intros j. pose proof (digit_range 0 j). cbn [holds]. rewrite slot_set by lia. destruct (decide (i = digit 0 j)) as [Ej|Nj].
      * rewrite <- Ej, T, decide_True; [done|]. by apply low_0.
      * rewrite decide_False; [done|]. rewrite low_0. naive_solver.
  - split; [done|]. split; [by right|]. intros j. cbn [holds]. case_decide as Ej; [|done]. apply low_0 in Ej. fold i in Ej. by rewrite Ej, T.
Qed.

Lemma replace_ok t : forall x id ptr, x = Null \/ wf t x -> ~ not_pointer ptr -> replace_post t x id ptr (replace_loop t x id ptr).
Proof.
  induction t as [|t IH]; intros [| |bm ary cnt lay] id ptr W Np; try (by destruct W).
  1, 3: split; [done|split; [by left|intros; simpl; by case_decide]].
  - apply replace_leaf; [by destruct W|done].
  - destruct W as [|W]; [done|]. pose proof (digit_range (S t) id) as Hi. cbn [replace_loop]. set (i := digit (S t) id) in *.
    pose proof W as (_ & Len & R & Ec & Wc). destruct (Wc i Hi) as [Eb Wi]. specialize (IH (slot ary i) id ptr Wi Np).
    destruct (replace_loop t (slot ary i) id ptr) as [y r]. destruct IH as (Er & P & Eh). cbn [fst snd] in *.
    assert (full y = full (slot ary i) /\ nonnull y = nonnull (slot ary i)) as [Fy Ny].
    { destruct P as [[-> ->]|[P1 P2]]; [done|]. split; [|by rewrite (wf_nonnull _ _ P1), (wf_nonnull _ _ P2)].
      apply (full_same_keys t); [done..|]. intros j. rewrite Eh. case_decide as Ej; [|done]. rewrite fmap_is_Some.
      by rewrite (holds_low t _ j id Ej). }
    destruct (wf_change_slot t bm ary cnt lay id y bm cnt W) as [W2 H2].
    + naive_solver.
    + done.
    + intros j Hj. fold i. case_decide; [subst; by rewrite Eb|done].
    + fold i. by rewrite Ny.
    + split; [done|]. split; [by right|]. exact (H2 _ Eh).
Qed.

(** ** Whole calls *)

Lemma registered_S s t : layers s = S t -> forall j, registered s j = entry t (top s) j.
Proof. intros E j. unfold registered. by rewrite E. Qed.
Lemma registered_range s j : idr_ok s -> is_Some (registered s j) -> 0 <= j < B (layers s) /\ B (layers s) <= 2 ^ 30.
Proof.
  intros [_ Ok] H. unfold registered in H. destruct (layers s) as [|t]; [by destruct H|]. unfold entry in H.
  destruct Ok. pose proof (B_6 (S t)). case_decide; [lia|by destruct H].
Qed.

Lemma slot_of_ok ptr : ~ not_pointer (slot_of ptr) /\ ptr_of (slot_of ptr) = ptr.
Proof. unfold slot_of. destruct (Z.eqb_spec ptr 0); subst; simpl; naive_solver. Qed.

Lemma get_new_above_ok s ptr id : idr_ok s -> 0 <= id < 2 ^ 30 -> (exists j, id <= j < 2 ^ 30 /\ registered s j = None) ->
  exists s' r, idr_get_new_above s ptr id = Some (s', r) /\ idr_ok s' /\
  match r with
  | inr i => id <= i < 2 ^ 30 /\ registered s i = None /\ (forall j, id <= j < i -> is_Some (registered s j)) /\
             forall j, registered s' j = if decide (j = i) then Some ptr else registered s j
  | inl e => e = - EAGAIN /\ id_free_cnt s < 11 /\ forall j, registered s' j = registered s j
  end.
Proof.
  intros Ok Hid Ex. change (2 ^ 30) with (B 6) in *.
  destruct (get_empty_slot_ok s id Ok Hid Ex) as (s1 & r & E & Ok1 & R & P). unfold idr_get_new_above, idr_get_new_above_int. rewrite E. simpl.
  destruct r as [i|i| |]; try done.
  - destruct P as (P1 & P2 & P3 & P4 & P5). destruct s1 as [tp [|t] free]; simpl in *; [lia|]. rewrite Nat.sub_0_r in *.
    destruct Ok1 as [F1 [Ht Wt]]. simpl in *. destruct (slot_of_ok ptr) as [Np Ep].
    assert (N : holds t tp i = None) by (rewrite <- R in P2; unfold registered in P2; simpl in P2; by rewrite entry_in in P2 by lia).
    destruct (install_ok t tp i (slot_of ptr) Wt N P5 Np) as (W' & _ & H').
    eexists _, _. split; [done|]. split; [done|]. pose proof (B_le (S t) 6 ltac:(lia)).
    split; [lia|]. split; [done|]. split; [done|]. intros j. rewrite <- R. unfold registered. simpl.
    unfold entry. rewrite H', Ep. destruct (decide (0 <= j < B (S t))) as [Hj|].
    + rewrite (decide_ext (low t j i) (j = i)); [done|]. by apply low_small; lia.
    + rewrite decide_False by lia. done.
  - eexists _, _. split; [done|]. done.
Qed.

Lemma mask_id id : 0 <= id < 2 ^ 31 -> Z.land id MAX_ID_MASK = id.
Proof. intros. change MAX_ID_MASK with (2 ^ 31 - 1). rewrite land_pow2_mod by lia. by apply Z.mod_small. Qed.

Lemma trim_nonneg f : forall free, 0 <= free -> 0 <= trim_loop f free.
Proof.
  induction f as [|f IH]; intros free F; simpl; [done|]. destruct (IDR_FREE_MAX <=? free); [|done]. apply IH.
  unfold get_from_free_list. destruct (Z.ltb_spec 0 free); simpl; lia.
Qed.

(** A layer that has nothing but its first slot is not needed. *)
Lemma shrink_ok t bm ary lay p : wf (S t) (Layer bm ary 1 lay) -> slot ary 0 = p -> p <> Null ->
  wf t p /\ forall j, entry t p j = entry (S t) (Layer bm ary 1 lay) j.
Proof.
  intros (-> & Len & R & Ec & W) E N. destruct (W 0 ltac:(lia)) as [_ [|Wp]]; [congruence|]. rewrite E in Wp. split; [done|].
  intros j. symmetry. revert j. apply entry_above. intros j. cbn [holds]. destruct (Z.eqb_spec (digit (S t) j) 0) as [->|Nj]; [by rewrite E|].
  pose proof (tally_one (fun i => nonnull (slot ary i)) 0 ltac:(lia)) as O. cbv beta in O. rewrite E, (wf_nonnull _ _ Wp) in O.
  specialize (O eq_refl (eq_sym Ec) _ (digit_range (S t) j) Nj). destruct (slot ary (digit (S t) j)); try done. by rewrite holds_null.
Qed.

Definition remove_top (tp : node) (L : nat) : node * nat :=
  match tp with
  | Layer _ ary cnt _ =>
      match slot ary 0 with
      | Null => (tp, L)
      | p => if (cnt =? 1) && (1 <? L)%nat then (p, (L - 1)%nat) else (tp, L)
      end
  | _ => (tp, L)
  end.
Lemma remove_top_ok t tp : (t < 6)%nat -> wf t tp ->
  exists t', (remove_top tp (S t)).2 = S t' /\ (t' < 6)%nat /\ wf t' (remove_top tp (S t)).1 /\
  forall j, entry t' (remove_top tp (S t)).1 j = entry t tp j.
Proof.
  intros Ht W. destruct tp as [| |bm ary cnt lay]; [by destruct t..|]. unfold remove_top.
  assert (Keep : exists t', (S t) = S t' /\ (t' < 6)%nat /\ wf t' (Layer bm ary cnt lay) /\
    forall j, entry t' (Layer bm ary cnt lay) j = entry t (Layer bm ary cnt lay) j) by (exists t; done).
  destruct (slot ary 0) as [| |bm' ary' cnt' lay'] eqn:E; [done| |];
    (destruct ((cnt =? 1) && (1 <? S t)%nat) eqn:C; [|done]); apply andb_true_iff in C as [->%Z.eqb_eq C%Nat.ltb_lt];
    (destruct t as [|t]; [lia|]); destruct (shrink_ok t bm ary lay _ W E ltac:(done)) as [W' E'];
    exists t; simpl; rewrite ?Nat.sub_0_r; auto with lia.
Qed.

Lemma remove_ok s id : idr_ok s -> 0 <= id < B (layers s) ->
  let '(s', warned) := idr_remove s id in
  idr_ok s' /\ warned = negb (bool_decide (is_Some (registered s id))) /\
  forall j, registered s' j = if decide (j = id) then None else registered s j.
Proof.
  intros Ok Hid. destruct s as [tp L free]. destruct Ok as [F Ok]. simpl in *. unfold idr_remove. cbn [top layers id_free_cnt].
  pose proof (trim_nonneg (Z.to_nat free) free F) as F'.
  destruct L as [|t].
  - subst tp. unfold registered. simpl. repeat split; [done|]. intros j. by case_decide.
  - destruct Ok as [Ht W]. pose proof (B_6 (S t) ltac:(lia)). rewrite mask_id by lia. replace (S t - 1)%nat with t by lia.
    pose proof (sub_remove_ok t tp id (or_intror W)) as P. destruct (sub_remove t tp id) as [[y found] gone]. destruct P as (-> & Eh & P).
    assert (Ee : forall j, entry t y j = if decide (j = id) then None else entry t tp j).
    { intros j. unfold entry. destruct (decide (0 <= j < B (S t))); [|by rewrite decide_False by lia].
      rewrite Eh. by rewrite (decide_ext (low t j id) (j = id)) by (apply low_small; lia). }
    assert (Ef : holds t tp id = registered (Idr tp (S t) free) id) by (unfold registered; simpl; by rewrite entry_in).
    destruct gone.
    + destruct P as [-> _]. simpl. repeat split; [done|by rewrite Ef|]. intros j. unfold registered at 1 2. simpl. rewrite <- Ee.
      unfold entry. rewrite holds_null. by case_decide.
    + destruct P as [[_ ->]|[Wy _]]; [by destruct t|]. destruct (remove_top_ok t y Ht Wy) as (t' & E1 & Ht' & W' & E').
      fold (remove_top y (S t)). destruct (remove_top y (S t)) as [tp' L']. simpl in *. subst L'.
      repeat split; try done; [by rewrite Ef|]. intros j. unfold registered. simpl. by rewrite E', Ee.
Qed.

Lemma find_ok s id : idr_ok s -> 0 <= id < 2 ^ 31 -> idr_find s id = Some (default 0 (registered s id)).
Proof.
  intros [_ Ok] Hid. unfold idr_find, registered. destruct s as [tp [|t] free]; cbn [top layers] in *; [by rewrite Ok|].
  destruct Ok as [Ht W]. destruct tp as [| |bm ary cnt lay]; [by destruct t..|]. destruct (wf_layer _ _ _ _ _ W) as [-> _].
  rewrite mask_id, B_shift' by lia. pose proof (B_6 (S t) ltac:(lia)). pose proof (B_pos (S t)). rewrite s32_small by lia. unfold entry.
  destruct (Z.leb_spec (B (S t)) id); [by rewrite decide_False by lia|]. rewrite decide_True by lia.
  destruct (find_loop_ok t _ id W) as (p & -> & <-). done.
Qed.

Lemma idr_replace_ok s ptr id : idr_ok s -> 0 <= id < 2 ^ 31 ->
  let '(s', r) := idr_replace s ptr id in
  idr_ok s' /\
  r = match registered s id with
      | Some p => inr p
      | None => inl (if decide ((0 < layers s)%nat /\ id < B (layers s)) then - ENOENT else - EINVAL)
      end /\
  forall j, registered s' j = if decide (j = id) then (fun _ => ptr) <$> registered s id else registered s j.
Proof.
  intros Ok Hid. pose proof Ok as [F O]. unfold idr_replace. destruct s as [tp [|t] free]; cbn [top layers id_free_cnt] in *.
  - subst tp. unfold registered. simpl. repeat split; try done. intros. by case_decide.
  - destruct O as [Ht W]. destruct tp as [| |bm ary cnt lay] eqn:Et; [by destruct t..|]. destruct (wf_layer _ _ _ _ _ W) as [-> _].
    rewrite mask_id, B_shift' by lia. pose proof (B_6 (S t) ltac:(lia)). pose proof (B_pos (S t)). rewrite s32_small by lia.
    rewrite <- Et in *. unfold registered at 1 3 4. cbn [top layers]. destruct (Z.leb_spec (B (S t)) id) as [Hge|Hlt].
    + unfold registered. cbn [top layers]. unfold entry. rewrite !(decide_False (P := 0 <= id < B (S t))) by lia.
      repeat split; try done; [by rewrite decide_False by lia|]. intros j. destruct (decide (j = id)) as [->|]; [|done].
      by rewrite decide_False by lia.
    + destruct (slot_of_ok ptr) as [Np Ep]. destruct (replace_ok t tp id (slot_of ptr) (or_intror W) Np) as (Er & P & Eh).
      destruct (replace_loop t tp id (slot_of ptr)) as [y r]. cbn [fst snd] in *.
      destruct P as [[_ E0]|[Wy _]]; [subst; done|]. split; [done|]. rewrite entry_in by lia. split.
      * rewrite Er. destruct (holds t tp id); [done|]. by rewrite decide_True by lia.
      * intros j. unfold registered. cbn [top layers]. unfold entry. rewrite Eh, Ep. destruct (decide (0 <= j < B (S t))).
        -- by rewrite (decide_ext (low t j id) (j = id)) by (apply low_small; lia).
        -- by rewrite decide_False by lia.
Qed.

(** ** Sequences of calls *)

Lemma pre_get_loop_ok f : forall avail free, IDR_FREE_MAX <= free + Z.of_nat f -> Z.of_nat f <= avail ->
  IDR_FREE_MAX <= (pre_get_loop f avail free).1 /\ (pre_get_loop f avail free).2 = 1.
Proof.
  induction f as [|f IH]; intros avail free Hf Ha; simpl; [lia|]. destruct (Z.ltb_spec free IDR_FREE_MAX); [|done].
  destruct (Z.leb_spec avail 0); [lia|]. apply IH; lia.
Qed.
Lemma pre_get_ok avail s : idr_ok s -> IDR_FREE_MAX <= avail ->
  exists s', idr_pre_get avail s = (s', 1) /\ idr_ok s' /\ IDR_FREE_MAX <= id_free_cnt s' /\ forall j, registered s' j = registered s j.
Proof.
  intros [F Ok] Ha. unfold idr_pre_get. pose proof (pre_get_loop_ok (Z.to_nat (IDR_FREE_MAX - id_free_cnt s)) avail (id_free_cnt s)) as P.
  destruct (pre_get_loop _ _ _) as [free r]. simpl in P. destruct P as [P ->]; [unfold IDR_FREE_MAX in *; lia..|].
  eexists. split; [done|]. unfold IDR_FREE_MAX in *. repeat split; simpl; [lia|done|lia].
Qed.

(** Calls as their users make them: memory is set aside before a number is asked for. *)
Inductive idr_call := CNew (avail ptr start : Z) | CRemove (id : Z) | CReplace (ptr id : Z) | CFind (id : Z).

Definition do_call (s : idr) (c : idr_call) : option (idr * option Z) :=
  match c with
  | CNew avail ptr start =>
      let '(s, r) := idr_pre_get avail s in
      if r =? 0 then Some (s, None)
      else '(s, r) ← idr_get_new_above s ptr start; Some (s, match r with inr i => Some i | inl _ => None end)
  | CRemove id => Some ((idr_remove s id).1, None)
  | CReplace ptr id => let '(s, r) := idr_replace s ptr id in Some (s, match r with inr p => Some p | inl _ => None end)
  | CFind id => p ← idr_find s id; Some (s, Some p)
  end.
Fixpoint do_calls (s : idr) (cs : list idr_call) : option (idr * list (option Z)) :=
  match cs with
  | [] => Some (s, [])
  | c :: cs => '(s, o) ← do_call s c; '(s, os) ← do_calls s cs; Some (s, o :: os)
  end.

(** The same on a map: the first number from [start] on that is not in it. *)
Fixpoint first_free (fuel : nat) (m : gmap Z Z) (start : Z) : Z :=
  match fuel with
  | O => start
  | S fuel => match m !! start with None => start | Some _ => first_free fuel m (start + 1) end
  end.
Definition map_call (m : gmap Z Z) (c : idr_call) : gmap Z Z * option Z :=
  match c with
  | CNew _ ptr start => let i := first_free (size m) m start in (<[i := ptr]> m, Some i)
  | CRemove id => (delete id m, None)
  | CReplace ptr id => match m !! id with Some p => (<[id := ptr]> m, Some p) | None => (m, None) end
  | CFind id => (m, Some (default 0 (m !! id)))
  end.
Fixpoint map_calls (m : gmap Z Z) (cs : list idr_call) : gmap Z Z * list (option Z) :=
  match cs with
  | [] => (m, [])
  | c :: cs => let '(m, o) := map_call m c in let '(m, os) := map_calls m cs in (m, o :: os)
  end.

(** What the callers keep to: numbers stay below 2^30 and only those that are in
    use are removed. *)
Definition call_ok (m : gmap Z Z) (c : idr_call) : Prop :=
  match c with
  | CNew avail _ start => IDR_FREE_MAX <= avail /\ 0 <= start /\ start + Z.of_nat (size m) < 2 ^ 30
  | CRemove id => is_Some (m !! id)
  | CReplace _ id | CFind id => 0 <= id < 2 ^ 31
  end.
Fixpoint calls_ok (m : gmap Z Z) (cs : list idr_call) : Prop :=
  match cs with [] => True | c :: cs => call_ok m c /\ calls_ok (map_call m c).1 cs end.

Lemma first_free_loop f : forall m start, let i := first_free f m start in
  start <= i <= start + Z.of_nat f /\ (forall j, start <= j < i -> is_Some (m !! j)) /\ (m !! i = None \/ i = start + Z.of_nat f).
Proof.
  induction f as [|f IH]; intros m start; simpl; [split; [lia|split; [lia|right; lia]]|].
  destruct (m !! start) eqn:E; [|split; [lia|split; [lia|by left]]].
  destruct (IH m (start + 1)) as (H1 & H2 & H3). split; [lia|]. split; [|destruct H3; [by left|right; lia]].
  intros j Hj. destruct (decide (j = start)) as [->|]; [by eexists|]. apply H2. lia.
Qed.
Lemma interval_size (m : gmap Z Z) start n : 0 <= n -> (forall j, start <= j < start + n -> is_Some (m !! j)) -> n <= Z.of_nat (size m).
Proof.
  intros Hn H. assert (Sub : (list_to_set (seqZ start n) : gset Z) ⊆ dom m).
  { intros j Hj%elem_of_list_to_set%elem_of_seqZ. apply elem_of_dom, H. lia. }
  apply subseteq_size in Sub. rewrite size_list_to_set, length_seqZ, size_dom in Sub by apply NoDup_seqZ. lia.
Qed.
Lemma first_free_ok m start : let i := first_free (size m) m start in
  start <= i <= start + Z.of_nat (size m) /\ (forall j, start <= j < i -> is_Some (m !! j)) /\ m !! i = None.
Proof.
  intros i. destruct (first_free_loop (size m) m start) as (H1 & H2 & H3). fold i in H1, H2, H3. do 2 (split; [done|]).
  destruct (m !! i) eqn:E; [|done]. destruct H3 as [|H3]; [done|]. exfalso.
  pose proof (interval_size m start (Z.of_nat (size m) + 1) ltac:(lia)). enough (Z.of_nat (size m) + 1 <= Z.of_nat (size m)) by lia.
  apply H. intros j Hj. destruct (decide (j = i)) as [->|]; [by eexists|]. apply H2. lia.
Qed.

(** An idr stands for a map. *)
Definition stands_for (s : idr) (m : gmap Z Z) : Prop := idr_ok s /\ forall j, registered s j = m !! j.

Lemma call_refines s m c : stands_for s m -> call_ok m c ->
  exists s', do_call s c = Some (s', (map_call m c).2) /\ stands_for s' (map_call m c).1.
Proof.
  intros [Ok R] H. destruct c as [avail ptr start|id|ptr id|id]; simpl in *.
  - destruct H as (Ha & Hs & Hm). destruct (pre_get_ok avail s Ok Ha) as (s1 & -> & Ok1 & F1 & R1). simpl.
    destruct (first_free_ok m start) as (Hi & Hheld & Hfree). set (i := first_free (size m) m start) in *.
    destruct (get_new_above_ok s1 ptr start Ok1 ltac:(lia)) as (s2 & r & -> & Ok2 & P).
    { exists i. rewrite R1, R. split; [lia|done]. }
    destruct r as [e|i']; [unfold IDR_FREE_MAX in *; lia|]. destruct P as (P1 & P2 & P3 & P4). simpl.
    assert (i' = i) as ->.
    { rewrite R1, R in P2. destruct (decide (i' < i)); [destruct (Hheld i') as [? X]; [lia|congruence]|].
      destruct (decide (i < i')); [|lia]. destruct (P3 i) as [? X]; [lia|]. rewrite R1, R in X. congruence. }
    exists s2. split; [done|]. split; [done|]. intros j. rewrite P4, R1, R. case_decide; [subst; by rewrite lookup_insert_eq|].
    by rewrite lookup_insert_ne by congruence.
  - rewrite <- R in H. pose proof (registered_range s id Ok H). pose proof (remove_ok s id Ok ltac:(lia)) as P.
    destruct (idr_remove s id) as [s' w]. destruct P as (Ok' & _ & P). exists s'. split; [done|]. split; [done|].
    intros j. rewrite P, R. case_decide; [subst; by rewrite lookup_delete_eq|]. by rewrite lookup_delete_ne by congruence.
  - pose proof (idr_replace_ok s ptr id Ok H) as P. destruct (idr_replace s ptr id) as [s' r]. destruct P as (Ok' & -> & P).
    rewrite R in *. exists s'. destruct (m !! id) eqn:E; (split; [done|]); (split; [done|]); intros j; simpl; rewrite P, R; case_decide; subst;
      rewrite ?lookup_insert_eq, ?lookup_insert_ne by congruence; done.
  - rewrite (find_ok s id Ok H), R. simpl. exists s. done.
Qed.

Lemma calls_refine cs : forall s m, stands_for s m -> calls_ok m cs ->
  exists s', do_calls s cs = Some (s', (map_calls m cs).2) /\ stands_for s' (map_calls m cs).1.
Proof.
  induction cs as [|c cs IH]; intros s m R H; simpl; [by exists s|]. destruct H as [H Hs].
  destruct (call_refines s m c R H) as (s1 & -> & R1). destruct (map_call m c) as [m1 o]. simpl in *.
  destruct (IH s1 m1 R1 Hs) as (s2 & -> & R2). destruct (map_calls m1 cs) as [m2 os]. by exists s2.
Qed.

(** C12: an idr is a map from numbers to pointers, for callers who keep to its
    rules: each allocation follows an [idr_pre_get] that finds memory for all its
    layers and asks for a number so low that the result stays below 2^30; only
    numbers in use are removed; replacements and lookups are of numbers below
    2^31.  In every such sequence of calls, from an empty idr on, each answers as
    on a map, an allocation never fails and gives the lowest number from the one
    asked for on that is not in use, and none runs into a [BUG_ON]. *)
Theorem idr_refines_map cs : calls_ok ∅ cs ->
  exists s, do_calls idr_init cs = Some (s, (map_calls ∅ cs).2) /\ stands_for s (map_calls ∅ cs).1.
Proof.
  intros H. apply calls_refine; [|done]. split; [by split|]. intros j. by rewrite lookup_empty.
Qed.

(** Numbers in use below the one asked for, a tree that grows and shrinks, and one
    that is used again. *)
Lemma idr_refines_map_witness :
  let cs := [CNew 14 100 0; CNew 14 101 0; CNew 14 102 31; CNew 14 103 31; CNew 14 104 5000; CRemove 5000; CRemove 0;
             CNew 14 105 0; CReplace 106 32; CFind 32; CFind 7; CFind 31] in
  calls_ok ∅ cs /\
  (map_calls ∅ cs).2 = [Some 0; Some 1; Some 31; Some 32; Some 5000; None; None; Some 0; Some 103; Some 106; Some 0; Some 102] /\
  exists s, do_calls idr_init cs = Some (s, (map_calls ∅ cs).2) /\ stands_for s (map_calls ∅ cs).1.
Proof.
  intros cs. assert (H : calls_ok ∅ cs).
  { unfold cs. cbn [calls_ok]. repeat match goal with |- _ /\ _ => split | |- True => done | |- call_ok ?m ?c =>
      let m' := eval vm_compute in m in change (call_ok m' c); unfold call_ok end; try (vm_compute; by eexists); vm_compute; intuition discriminate. }
  split; [exact H|]. split; [vm_compute; reflexivity|]. exact (idr_refines_map cs H).
Defined.
