(* ===== verification/IdrWalk.v ===== *)
(** * Walking over an idr

    [idr_for_each] calls its function for every pointer in the order of the
    numbers, and reads a word below its array of layers at the end.  The faults of
    the allocator are here too: what [idr_get_next] passes over, a removal that
    hits another number, and numbers above 2^30. *)

From stdpp Require Import base numbers list gmap.
From S2P Require Import Prelude Idr IdrProps IdrCorrect.

Open Scope Z_scope.

(** ** The nodes on the way to a number *)

Lemma node_at_child d : forall l x id,
  node_at (S d) (d + l) x id = match node_at d (d + l) x id with Layer _ ary _ _ => slot ary (digit l id) | _ => Null end.
Proof.
  induction d as [|d IH]; intros l x id; [by destruct x|]. destruct x as [| |bm ary cnt lay]; try done.
  specialize (IH l (slot ary (digit (S d + l) id)) id). replace (d + l)%nat with (S d + l - 1)%nat in IH by lia. exact IH.
Qed.

Section tree.
Context (t : nat) (tp : node) (W : wf t tp) (Ht : (t < 6)%nat).

(** The node with [n] levels below it. *)
Definition nd (n : nat) (id : Z) : node := node_at (S t - n) t tp id.

Lemma nd_top id : nd (S t) id = tp.
Proof. unfold nd. by rewrite Nat.sub_diag. Qed.
Lemma nd_child n id : (n <= t)%nat -> nd n id = match nd (S n) id with Layer _ ary _ _ => slot ary (digit n id) | _ => Null end.
Proof.
  intros H. unfold nd. pose proof (node_at_child (t - n) n tp id) as E. replace (t - n + n)%nat with t in E by lia.
  replace (S t - n)%nat with (S (t - n)) by lia. replace (S t - S n)%nat with (t - n)%nat by lia. exact E.
Qed.
Lemma nd_wf n id : (n <= t)%nat -> nd (S n) id = Null \/ wf n (nd (S n) id).
Proof.
  intros H. pose proof (node_at_wf (t - n) n tp id) as E. replace (t - n + n)%nat with t in E by lia.
  unfold nd. replace (S t - S n)%nat with (t - n)%nat by lia. by apply E.
Qed.
Lemma nd_above n id : (n <= t)%nat -> nd n id <> Null -> nd (S n) id <> Null.
Proof. intros H N E. apply N. by rewrite nd_child, E. Qed.
Lemma nd_same n id id' : (n <= S t)%nat -> id / B n = id' / B n -> nd n id = nd n id'.
Proof.
  intros Hn E. unfold nd. destruct n as [|n].
  - change (B 0) with 1 in E. rewrite !Z.div_1_r in E. by subst.
  - pose proof (node_at_high (S t - S n) n tp id id' E) as X. by replace (S t - S n + n)%nat with t in X by lia.
Qed.

(** The pointer of a number, 0 for none. *)
Lemma nd_leaf id : nonnull (nd 0 id) = negb (ptr_of (nd 0 id) =? 0) /\ ptr_of (nd 0 id) = default 0 (holds t tp id).
Proof.
  rewrite nd_child by lia. unfold nd. replace (S t - 1)%nat with t by lia.
  pose proof (node_at_holds t 0 tp id id eq_refl) as E. pose proof (node_at_wf t 0 tp id) as Wl. rewrite Nat.add_0_r in *. rewrite E.
  destruct (Wl W) as [->|Wn]; [done|]. destruct (node_at t t tp id) as [| |bm ary cnt lay]; try done. cbn [holds].
  destruct Wn as (_ & _ & _ & _ & Ws). destruct (Ws _ (digit_range 0 id)) as [N1 N2].
  split; [|destruct (Z.testbit bm _); [done|by rewrite N2]].
  destruct (slot ary (digit 0 id)); [done| |by destruct N1]. simpl in *. by destruct (Z.eqb_spec p 0).
Qed.

(** Below a node that is missing there is nothing. *)
Lemma nd_missing k n id : (k <= n <= S t)%nat -> nd n id = Null -> nd k id = Null.
Proof.
  intros [Hk Hn] E. induction Hk as [|n Hk IH]; [done|]. apply IH; [lia|]. rewrite nd_child by lia. by rewrite E.
Qed.

(** The layers above the level [n] on the way. *)
Definition above (n : nat) (id : Z) : list node := (fun k => nd k id) <$> seq (S n) (S t - n).

Lemma above_cons n id : (n <= t)%nat -> above n id = nd (S n) id :: above (S n) id.
Proof. intros. unfold above. replace (S t - n)%nat with (S (S t - S n)) by lia. done. Qed.
Lemma above_top id : above (S t) id = [].
Proof. unfold above. by rewrite Nat.sub_diag. Qed.
Lemma above_same n id id' : (n <= S t)%nat -> id / B n = id' / B n -> above n id = above n id'.
Proof.
  intros Hn E. unfold above. apply list_fmap_ext. intros i k Hk%lookup_seq. apply nd_same; [lia|].
  replace k with ((k - n) + n)%nat by lia. rewrite B_add, (Z.mul_comm (B (k - n))), <- !Z.div_div, E; try done;
    pose proof (B_pos n); pose proof (B_pos (k - n)); lia.
Qed.

Definition walk_at (n : nat) (id : Z) (under : nat) : walk := Walk n (nd n id) (above n id) under.

Lemma descend_ok n id under : (n <= S t)%nat ->
  exists k, descend n (nd n id) id (above n id) under = walk_at k id under /\ (k <= n)%nat /\
    (k = O \/ nd k id = Null) /\ forall k', (k < k' <= n)%nat -> nd k' id <> Null.
Proof.
  induction n as [|n IH]; intros Hn; [exists O; repeat split; auto with lia|]. cbn [descend].
  destruct (nd_wf n id ltac:(lia)) as [E|Wn].
  - exists (S n). rewrite E. repeat split; auto with lia. unfold walk_at. by rewrite E.
  - pose proof (nd_child n id ltac:(lia)) as Ec. destruct (IH ltac:(lia)) as (k & Ek & Hk & Hs & Hp). exists k.
    assert (N : nd (S n) id <> Null) by (intros E; rewrite E in Wn; by destruct n).
    split; [|split; [lia|split; [done|]]].
    + rewrite <- Ek, (above_cons n) by lia. destruct (nd (S n) id) as [| |bm ary cnt lay] eqn:E; [done|by destruct n|]. by rewrite Ec.
    + intros k' Hk'. destruct (decide (k' = S n)) as [->|]; [done|]. apply Hp. lia.
Qed.

Lemma fls_levels n x : 0 < x -> (Z.of_nat n * IDR_BITS <? fls x) = (B n <=? x).
Proof.
  intros Hx. unfold fls. rewrite (proj2 (Z.eqb_neq x 0)) by lia. rewrite <- B_shift'. apply eq_bool_prop_intro.
  rewrite !Is_true_true, Z.ltb_lt, Z.leb_le, Z.log2_le_pow2 by done. lia.
Qed.

(** The way up ends at the first level that has the number below it, or runs out
    of the array. *)
Lemma ascend_ok below f : forall n id x under, (n <= S t)%nat -> 0 < x -> (S t - n + 2 <= f)%nat -> x <= B (S t) ->
  if decide (x = B (S t)) then ascend below f x (walk_at n id under) = Some (Walk (S (S t)) below [] (S under))
  else exists n', ascend below f x (walk_at n id under) = Some (walk_at n' id under) /\ (n <= n' <= S t)%nat /\ x < B n'.
Proof.
  induction f as [|f IH]; intros n id x under Hn Hx Hf Hb; [lia|]. cbn [ascend]. cbn [walk_at w_n]. rewrite fls_levels by done.
  pose proof (B_le n (S t) Hn). destruct (Z.leb_spec (B n) x) as [Hge|Hlt].
  - cbn [walk_at w_pa]. destruct (decide (n = S t)) as [->|].
    + rewrite decide_True, above_top by lia. cbn [walk_at w_n w_under]. destruct f as [|f]; [lia|]. cbn [ascend w_n].
      rewrite fls_levels by done. pose proof (B_S (S t)). pose proof (B_pos (S t)). by rewrite (proj2 (Z.leb_gt _ _)) by lia.
    + rewrite above_cons by lia. cbn [walk_at w_n w_under].
      specialize (IH (S n) id x under ltac:(lia) Hx ltac:(lia) Hb). change (Walk (S n) (nd (S n) id) (above (S n) id) under) with (walk_at (S n) id under).
      case_decide; [done|]. destruct IH as (n' & E & Hn' & Hx'). exists n'. split; [done|]. lia.
  - rewrite decide_False by lia. exists n. split; [done|]. lia.
Qed.

(** ** The loop *)

Section for_each.
Context {D : Type} (below : node) (fn : Z -> Z -> D -> D * Z).

(** The function on the pointers of a list until it fails. *)
Fixpoint visit (ps : list (Z * Z)) (data : D) : D * Z :=
  match ps with
  | [] => (data, 0)
  | (j, p) :: ps => let '(data, error) := fn j p data in if error =? 0 then visit ps data else (data, error)
  end.

(** The pointers of the numbers from [id] up to [id + n]. *)
Definition pointer (f : Z -> option Z) (j : Z) : option (Z * Z) :=
  let p := default 0 (f j) in if p =? 0 then None else Some (j, p).
Definition pointers (f : Z -> option Z) (id n : Z) : list (Z * Z) := omap (pointer f) (seqZ id n).

Lemma pointers_split f id n k : 0 <= k <= n -> pointers f id n = pointers f id k ++ pointers f (id + k) (n - k).
Proof. intros. unfold pointers. rewrite <- omap_app, <- seqZ_app by lia. do 2 f_equal. lia. Qed.
Lemma pointers_ext f g id n : (forall j, id <= j < id + n -> f j = g j) -> pointers f id n = pointers g id n.
Proof.
  intros H. unfold pointers. assert (A : forall js, Forall (fun j => f j = g j) js -> omap (pointer f) js = omap (pointer g) js).
  { induction 1 as [|j js E _ IH]; [done|]. simpl. assert (pointer f j = pointer g j) as -> by (unfold pointer; by rewrite E).
    destruct (pointer g j); [f_equal|]; exact IH. }
  apply A, Forall_forall. intros j Hj%elem_of_seqZ. by apply H.
Qed.
Lemma pointers_none f id n : (forall j, id <= j < id + n -> default 0 (f j) = 0) -> pointers f id n = [].
Proof.
  intros H. unfold pointers. assert (A : forall js, Forall (fun j => default 0 (f j) = 0) js -> omap (pointer f) js = []).
  { induction 1 as [|j js E _ IH]; [done|]. simpl. unfold pointer at 1. rewrite E. done. }
  apply A, Forall_forall. intros j Hj%elem_of_seqZ. by apply H.
Qed.

(** A number that is not the first one below a node has the node on its way. *)
Definition aligned (id : Z) : Prop := forall k, (k <= S t)%nat -> id mod B k <> 0 -> nd k id <> Null.

Lemma div_next k id j : id mod B k = 0 -> id <= j < id + B k -> j / B k = id / B k.
Proof.
  intros Hm Hj. pose proof (B_pos k). apply Z.mod_divide in Hm as [q ->]; [|lia]. rewrite Z.div_mul by lia.
  symmetry. apply Z.div_unique with (j - q * B k); lia.
Qed.
Lemma next_le k id : (k <= S t)%nat -> id mod B k = 0 -> id < B (S t) -> id + B k <= B (S t).
Proof.
  intros Hk Hm Hid. pose proof (B_pos k). apply Z.mod_divide in Hm as [q ->]; [|lia].
  replace (S t) with ((S t - k) + k)%nat in * by lia. rewrite B_add in *.
  assert (q < B (S t - k)) by nia. replace (q * B k + B k) with ((q + 1) * B k) by lia. apply Z.mul_le_mono_nonneg_r; lia.
Qed.
Lemma div_step k k' id : (k < k')%nat -> id mod B k = 0 -> (id + B k) mod B k' <> 0 -> (id + B k) / B k' = id / B k'.
Proof.
  intros Hk Hm Hn. pose proof (B_pos k). apply Z.mod_divide in Hm as [q ->]; [|lia]. replace (q * B k + B k) with ((q + 1) * B k) in * by lia.
  replace k' with ((k' - k) + k)%nat in * by lia. rewrite B_add in *. pose proof (B_pos (k' - k)). set (c := B (k' - k)) in *.
  rewrite Z.mul_mod_distr_r in Hn by lia. rewrite !Z.div_mul_cancel_r by lia.
  pose proof (Z.mod_pos_bound (q + 1) c). assert ((q + 1) mod c <> 0) by (intros E; rewrite E in Hn; lia).
  apply Z.div_unique with ((q + 1) mod c - 1); [lia|]. pose proof (Z.div_mod (q + 1) c). lia.
Qed.
Lemma aligned_next k id : (k <= S t)%nat -> id mod B k = 0 -> (forall k', (k < k' <= S t)%nat -> nd k' id <> Null) -> aligned (id + B k).
Proof.
  intros Hk Hm Hp k' Hk' Hn. pose proof (B_pos k). pose proof (B_pos k').
  destruct (decide (k' <= k)%nat) as [Hle|Hgt].
  - destruct Hn. apply (mod_B_le k' k); [done|]. rewrite Z.add_mod, Hm, Z.mod_same by lia. apply Z.mod_0_l. lia.
  - rewrite <- (nd_same k' id) by (lia || (symmetry; by apply div_step; lia)). apply Hp. lia.
Qed.

(** The pointers that a round passes. *)
Lemma pointers_step k id : (k <= S t)%nat -> id mod B k = 0 -> k = O \/ nd k id = Null ->
  pointers (holds t tp) id (B k) = match nd k id with Null => [] | p => [(id, ptr_of p)] end.
Proof.
  intros Hk Hm [->|E].
  - unfold pointers, pointer. change (B 0) with 1. rewrite seqZ_cons, seqZ_nil by lia. simpl. destruct (nd_leaf id) as [N <-].
    destruct (Z.eqb_spec (ptr_of (nd 0 id)) 0); destruct (nd 0 id); done.
  - rewrite E. apply pointers_none. intros j Hj. rewrite <- (proj2 (nd_leaf j)), (nd_missing 0 k j); [done|lia|].
    rewrite <- E. apply nd_same; [done|]. by apply div_next.
Qed.

Lemma for_each_loop_ok f : forall n id under data, (n <= S t)%nat -> 0 <= id < B (S t) -> aligned id ->
  (forall k, (n < k <= S t)%nat -> nd k id <> Null) -> B (S t) - id < Z.of_nat f ->
  for_each_loop below fn f (B (S t)) id (walk_at n id under) data =
  Some (let '(d, e) := visit (pointers (holds t tp) id (B (S t) - id)) data in (d, e, if e =? 0 then S under else under)).
Proof.
  induction f as [|f IH]; intros n id under data Hn Hid Al Hab Hf; [lia|]. cbn [for_each_loop walk_at w_n w_p w_pa w_under].
  rewrite (proj2 (Z.ltb_lt _ _)) by lia. destruct (descend_ok n id under Hn) as (k & -> & Hk & Hs & Hp).
  assert (Hm : id mod B k = 0).
  { destruct Hs as [->|E]; [apply Z.mod_1_r|]. destruct (decide (id mod B k = 0)); [done|]. by destruct (Al k ltac:(lia)). }
  cbv zeta. cbn [walk_at w_p w_n]. rewrite B_shift'. pose proof (B_pos k). pose proof (next_le k id ltac:(lia) Hm ltac:(lia)).
  rewrite (pointers_split (holds t tp) id _ (B k)), (pointers_step k id) by (done || lia).
  assert (Rest : forall data, (w ← ascend below (S MAX_LEVEL) (id + B k) (walk_at k id under); for_each_loop below fn f (B (S t)) (id + B k) w data) =
    Some (let '(d, e) := visit (pointers (holds t tp) (id + B k) (B (S t) - id - B k)) data in (d, e, if e =? 0 then S under else under))).
  { clear data. intros data. pose proof (ascend_ok below (S MAX_LEVEL) k id (id + B k) under ltac:(lia) ltac:(lia) ltac:(unfold MAX_LEVEL; lia) ltac:(done)) as A.
    assert (Hp' : forall k', (k < k' <= S t)%nat -> nd k' id <> Null).
    { intros k' Hk'. destruct (decide (k' <= n)%nat); [apply Hp|apply Hab]; lia. }
    case_decide as E.
    - rewrite A. simpl. destruct f as [|f]; [lia|]. cbn [for_each_loop]. rewrite E, Z.ltb_irrefl. 
      replace (B (S t) - id - B k) with 0 by lia. done.
    - destruct A as (n' & -> & Hn' & Hx). simpl.
      assert (Q : forall m, (n' <= m)%nat -> (id + B k) / B m = id / B m)
        by (intros m Hmm; pose proof (B_le n' m Hmm); by rewrite !Z.div_small by lia).
      replace (walk_at n' id under) with (walk_at n' (id + B k) under).
      + rewrite IH; try lia; [by replace (B (S t) - id - B k) with (B (S t) - (id + B k)) by lia|by apply aligned_next; [lia|..]|].
        intros m Hmm. rewrite (nd_same m _ id) by (lia || (apply Q; lia)). apply Hp'. lia.
      + unfold walk_at. rewrite (nd_same n' _ id), (above_same n' _ id) by (lia || (apply Q; lia)). done. }
  destruct (nd k id) as [|p|bm ary cnt lay]; cbn [app visit]; [apply Rest| |];
    (destruct (fn id _ data) as [data' e]; destruct (Z.eqb_spec e 0) as [->|Ne]; cbn [negb]; [apply Rest|]);
    by rewrite (proj2 (Z.eqb_neq e 0)).
Qed.
End for_each.
End tree.

(** C32: [idr_for_each] calls the function for every number that has a pointer, in
    ascending order and until the function fails, whatever the tree is like; and a
    walk that is not broken off reads the word below the array [pa] once. *)
Theorem idr_for_each_visits_all {D} below (fn : Z -> Z -> D -> D * Z) s data fuel :
  idr_ok s -> B (layers s) < Z.of_nat fuel ->
  idr_for_each below fn fuel s data =
  Some (let '(d, e) := visit fn (pointers (registered s) 0 (B (layers s))) data in (d, e, if e =? 0 then 1%nat else 0%nat)).
Proof.
  intros [F Ok] Hf. unfold idr_for_each. rewrite B_shift'. destruct s as [tp [|t] free]; cbn [layers top id_free_cnt] in *.
  - subst tp. change (B 0) with 1 in *. do 2 (destruct fuel as [|fuel]; [lia|]). done.
  - destruct Ok as [Ht W]. pose proof (B_pos (S t)).
    pose proof (for_each_loop_ok t tp W Ht below fn fuel (S t) 0 0 data ltac:(lia) ltac:(lia)) as L. unfold walk_at in L.
    rewrite nd_top, above_top, Z.sub_0_r in L. rewrite L; [| |lia..].
    + by rewrite (pointers_ext (holds t tp) (registered (Idr tp (S t) free))) by (intros j Hj; unfold registered; simpl; by rewrite entry_in).
    + intros k _ N. destruct N. apply Z.mod_0_l. pose proof (B_pos k). lia.
Qed.

(** Three pointers, and a walk that the second one ends. *)
Lemma idr_for_each_visits_all_witness :
  match do_calls idr_init [CNew 14 100 0; CNew 14 101 40; CNew 14 102 41] with
  | Some (s, _) =>
      idr_ok s /\ layers s = 2%nat /\ visit (fun i _ (l : list Z) => (l ++ [i], 0)) (pointers (registered s) 0 (B (layers s))) [] = ([0; 40; 41], 0) /\
      idr_for_each Null (fun i _ (l : list Z) => (l ++ [i], if i =? 40 then 5 else 0)) (Z.to_nat 1025) s [] = Some ([0; 40], 5, 0%nat)
  | None => False
  end.
Proof.
  assert (H : calls_ok ∅ [CNew 14 100 0; CNew 14 101 40; CNew 14 102 41]).
  { repeat split; vm_compute; discriminate. }
  destruct (calls_refine _ idr_init ∅ (conj (conj (Z.le_refl 0) eq_refl) (fun j => eq_sym (lookup_empty j))) H) as (s & E & Ok & _).
  assert (V : option_map (fun x => (layers x.1, visit (fun i _ (l : list Z) => (l ++ [i], if i =? 40 then 5 else 0)) (pointers (registered x.1) 0 (B (layers x.1))) [],
     visit (fun i _ (l : list Z) => (l ++ [i], 0)) (pointers (registered x.1) 0 (B (layers x.1))) []))
    (do_calls idr_init [CNew 14 100 0; CNew 14 101 40; CNew 14 102 41]) = Some (2%nat, ([0; 40], 5), ([0; 40; 41], 0))) by (vm_compute; reflexivity).
  rewrite E in *. simpl in V. injection V as V1 V2 V3. split; [exact Ok|]. split; [exact V1|]. split; [exact V3|].
  assert (Hf : B (layers s) < Z.of_nat (Z.to_nat 1025)) by (rewrite V1; vm_compute; reflexivity).
  rewrite (idr_for_each_visits_all Null _ s [] (Z.to_nat 1025) Ok Hf), V2. reflexivity.
Defined.

(** ** Faults *)

Definition idr_after (cs : list idr_call) : option idr := fst <$> do_calls idr_init cs.

(** The pointer at 2000 is passed over from 1000 on, as 1000 + 1024 is beyond it:
    the number should go on at the next multiple of 1024. *)
Example get_next_skips :
  (s ← idr_after [CNew 14 100 2000]; Some (idr_get_next Null 100 s 1000, idr_get_next Null 100 s 976)) =
  Some (Some (None, 1%nat), Some (Some (2000, 100), 0%nat)).
Proof. vm_compute. reflexivity. Qed.

(** The removal of 33, which was never handed out, removes 1 without a warning. *)
Example remove_wrong_id :
  (s ← idr_after [CNew 14 100 0; CNew 14 101 0];
   let '(s', warned) := idr_remove s 33 in Some (idr_find s 1, idr_find s 33, warned, idr_find s' 1)) =
  Some (Some 101, Some 0, false, Some 0).
Proof. vm_compute. reflexivity. Qed.

(** Behind the last number below 2^30 comes 2^30: it is handed out, is not found,
    and its pointer is registered for 0. *)
Example beyond_top_level :
  (s ← idr_after [CNew 14 100 (2 ^ 30 - 1); CNew 14 101 (2 ^ 30 - 1)];
   Some (snd <$> do_calls idr_init [CNew 14 100 (2 ^ 30 - 1); CNew 14 101 (2 ^ 30 - 1)], idr_find s (2 ^ 30), idr_find s 0)) =
  Some (Some [Some (2 ^ 30 - 1); Some (2 ^ 30)], Some 0, Some 101).
Proof. vm_compute. reflexivity. Qed.

(** [idr_remove_all] releases each of the layers once. *)
Example remove_all_releases :
  match idr_after [CNew 14 100 0; CNew 14 101 40; CNew 14 102 5000] with
  | Some s =>
      match idr_remove_all Null (Z.to_nat 5000) s with
      | Some (s', freed) => Some (top s', layers s', map (fun x => (bitmap_of x, count_of x)) freed)
      | None => None
      end
  | None => None
  end = Some (Null, 0%nat, [(1, 1); (256, 1); (0, 2); (256, 1); (0, 1); (0, 2)]).
Proof. vm_compute. reflexivity. Qed.
