(* ===== verification/AshmemExport.v ===== *)
(** * Ashmem files for other drivers (mm/ashmem.c, fs/dcache.c)

    A driver turns a descriptor of user space into the backing file of an ashmem
    area with [get_ashmem_file] and gives it back with [put_ashmem_file].  An
    ashmem file is known by its path in its file system, which [dentry_path]
    writes from the end of a buffer to its front.  A dentry is the list of the
    names on the way to the root of the file system. *)

From stdpp Require Import base numbers list gmap.
From S2P Require Import Prelude CType Ashmem.

Open Scope Z_scope.

Definition ENAMETOOLONG : Z := 36.

(** ** Paths *)

(** The buffer, the offset of [*buffer] in it and [*buflen]. *)
Record pbuf := PBuf { pb : list Z; pend : Z; plen : Z }.

Definition prepend (p : pbuf) (s : list Z) : pbuf * Z :=
  let l := plen p - zlen s in
  if l <? 0 then (PBuf (pb p) (pend p) l, - ENAMETOOLONG)
  else let e := pend p - zlen s in (PBuf (splice (pb p) e s) e l, 0).

(** The buffer and the offset of the result; [None] is the error pointer. *)
Fixpoint path_loop (names : list (list Z)) (p : pbuf) (retval : Z) : list Z * option Z :=
  match names with
  | [] => (pb p, Some retval)
  | name :: parent =>
      let '(p, error) := prepend p name in
      if negb (error =? 0) then (pb p, None)
      else
        let '(p, error) := prepend p [chr "/"] in
        if negb (error =? 0) then (pb p, None) else path_loop parent p (pend p)
  end.
Definition __dentry_path (names : list (list Z)) (buf : list Z) (buflen : Z) : list Z * option Z :=
  let '(p, _) := prepend (PBuf buf buflen buflen) [0] in
  if plen p <? 1 then (pb p, None)
  else let retval := pend p - 1 in path_loop names (PBuf (splice (pb p) retval [chr "/"]) (pend p) (plen p)) retval.

Definition d_unlinked (names : list (list Z)) (unhashed : bool) : bool :=
  unhashed && match names with [] => false | _ => true end.

Definition dentry_path (names : list (list Z)) (unhashed : bool) (buf : list Z) (buflen : Z) : list Z * option Z :=
  if d_unlinked names unhashed then
    let '(p, error) := prepend (PBuf buf buflen buflen) (str "//deleted" ++ [0]) in
    if negb (error =? 0) then (pb p, None)
    else
      let '(b, r) := __dentry_path names (pb p) (plen p + 1) in
      match r with Some _ => (splice b (pend p) [chr "/"], r) | None => (b, r) end
  else __dentry_path names buf buflen.

(** [cs] in memory, [ct] without its terminator; [None] is a read behind the array. *)
Fixpoint strcmp (cs ct : list Z) : option Z :=
  match cs with
  | [] => None
  | c1 :: cs =>
      let c2 := ch ct in
      if negb (c1 =? c2) then Some (if c1 <? c2 then -1 else 1)
      else if c1 =? 0 then Some 0
      else strcmp cs (drop 1 ct)
  end.

(** ** Files *)

(** What [private_data] points to: an area, or the data of another driver. *)
Inductive private := PArea (a : nat) | POther.
Record vfile := VFile { f_dentry : list (list Z); f_unhashed : bool; private_data : private }.
Record vfs := Vfs { files : gmap nat vfile; fd_table : gmap Z nat; f_count : gmap nat Z }.

Definition count_of (v : vfs) (f : nat) : Z := default 0 (f_count v !! f).
Definition add_count (v : vfs) (f : nat) (d : Z) : vfs := Vfs (files v) (fd_table v) (<[f := count_of v f + d]> (f_count v)).
Definition fget (v : vfs) (fd : Z) : option nat * vfs :=
  match fd_table v !! fd with Some f => (Some f, add_count v f 1) | None => (None, v) end.
Definition fput (v : vfs) (f : nat) : vfs := add_count v f (-1).

(** [fname] is what the stack has; [None] is the comparison of an error pointer. *)
Definition is_ashmem_file (fname : list Z) (x : vfile) : option bool :=
  let '(b, r) := dentry_path (f_dentry x) (f_unhashed x) fname 256 in
  name ← r;
  c ← strcmp (drop (Z.to_nat name) b) (str "/ashmem");
  Some (c =? 0).

(** The result with [*filp], [*vm_file] and [*len]; [None] is a fault: the
    comparison above, or data of another driver taken for an area. *)
Definition get_ashmem_file (fname : list Z) (s : ashmem) (v : vfs) (fd : Z) : option (vfs * Z * option (nat * option nat * Z)) :=
  match fget v fd with
  | (None, v) => Some (v, -1, None)
  | (Some f, v) =>
      x ← files v !! f;
      yes ← is_ashmem_file fname x;
      if yes : bool then
        match private_data x with
        | PArea a => asma ← areas s !! a; Some (v, 0, Some (f, a_file asma, a_size asma))
        | POther => None
        end
      else Some (fput v f, -1, None)
  end.

Definition put_ashmem_file (fname : list Z) (v : vfs) (f : nat) : option vfs :=
  x ← files v !! f;
  yes ← is_ashmem_file fname x;
  Some (if yes : bool then fput v f else v).

(** ** The text of a path *)

Fixpoint path (names : list (list Z)) : list Z :=
  match names with [] => [] | name :: parent => path parent ++ chr "/" :: name end.
Definition path_text (names : list (list Z)) (unhashed : bool) : list Z :=
  match names with [] => [chr "/"] | _ => path names ++ if unhashed then str "//deleted" else [] end.

Lemma drop_splice (b s c : list Z) e : 0 <= e - zlen s -> e <= zlen b -> drop (Z.to_nat e) b = c ->
  drop (Z.to_nat (e - zlen s)) (splice b (e - zlen s) s) = s ++ c /\ zlen (splice b (e - zlen s) s) = zlen b.
Proof.
  intros H1 H2 <-. split; [|apply zlen_splice; lia]. unfold splice, zlen in *. rewrite drop_app_length' by (rewrite length_take; lia).
  do 2 f_equal. lia.
Qed.

(** The offset and the room that is left are the same number. *)
Lemma prepend_ok b e s c : e <= zlen b -> drop (Z.to_nat e) b = c ->
  if decide (zlen s <= e)
  then exists b', prepend (PBuf b e e) s = (PBuf b' (e - zlen s) (e - zlen s), 0) /\ drop (Z.to_nat (e - zlen s)) b' = s ++ c /\ zlen b' = zlen b
  else exists p, prepend (PBuf b e e) s = (p, - ENAMETOOLONG).
Proof.
  intros He Hc. unfold prepend. simpl. case_decide; destruct (Z.ltb_spec (e - zlen s) 0); try lia; [|by eexists].
  eexists. split; [done|]. apply drop_splice; [lia|done..].
Qed.

Lemma path_loop_ok names : forall b e c r, 0 <= e <= zlen b -> drop (Z.to_nat e) b = c ->
  if decide (zlen (path names) <= e)
  then exists b', path_loop names (PBuf b e e) r = (b', Some (match names with [] => r | _ => e - zlen (path names) end)) /\
                  drop (Z.to_nat (e - zlen (path names))) b' = path names ++ c /\ zlen b' = zlen b
  else exists b', path_loop names (PBuf b e e) r = (b', None).
Proof.
  induction names as [|name names IH]; intros b e c r He Hc; cbn [path].
  - change (zlen []) with 0. rewrite decide_True by lia. exists b. rewrite Z.sub_0_r. done.
  - rewrite zlen_app, zlen_cons. pose proof (zlen_nonneg name). pose proof (zlen_nonneg (path names)). cbn [path_loop].
    pose proof (prepend_ok b e name c (proj2 He) Hc) as P. destruct (decide (zlen name <= e)).
    2: { destruct P as [p ->]. rewrite decide_False by lia. by eexists. }
    destruct P as (b1 & -> & D1 & L1). cbn [negb Z.eqb].
    pose proof (prepend_ok b1 (e - zlen name) [chr "/"] (name ++ c) ltac:(lia) D1) as P. change (zlen [chr "/"]) with 1 in P.
    destruct (decide (1 <= e - zlen name)).
    2: { destruct P as [p ->]. rewrite decide_False by lia. by eexists. }
    destruct P as (b2 & -> & D2 & L2). cbn [negb Z.eqb pend].
    specialize (IH b2 (e - zlen name - 1) ([chr "/"] ++ name ++ c) (e - zlen name - 1) ltac:(lia) D2).
    destruct (decide (zlen (path names) <= e - zlen name - 1)).
    + rewrite decide_True by lia. destruct IH as (b3 & -> & D3 & L3). exists b3.
      replace (e - (zlen (path names) + (1 + zlen name))) with (e - zlen name - 1 - zlen (path names)) by lia.
      split; [|split; [rewrite D3, <- app_assoc; done|lia]]. do 2 f_equal. destruct names; [|done]. change (zlen (path [])) with 0. lia.
    + rewrite decide_False by lia. destruct IH as [b3 ->]. by eexists.
Qed.

(** [__dentry_path] leaves the text in front of the last byte, with a terminator. *)
Lemma dentry_path_tail names b n c : 1 <= n <= zlen b -> drop (Z.to_nat n) b = c ->
  if decide (zlen (path_text names false) < n)
  then exists b', __dentry_path names b n = (b', Some (n - 1 - zlen (path_text names false))) /\
                  drop (Z.to_nat (n - 1 - zlen (path_text names false))) b' = path_text names false ++ 0 :: c /\ zlen b' = zlen b
  else exists b', __dentry_path names b n = (b', None).
Proof.
  intros Hn Hc. unfold __dentry_path. pose proof (prepend_ok b n [0] c ltac:(lia) Hc) as P. change (zlen [0]) with 1 in P.
  rewrite decide_True in P by lia. destruct P as (b1 & -> & D1 & L1). cbn [plen pend pb].
  destruct (Z.ltb_spec (n - 1) 1) as [Hs|Hs].
  - rewrite decide_False; [by eexists|]. pose proof (zlen_nonneg (path names)). destruct names as [|nm ns]; simpl; [change (zlen [chr "/"]) with 1; lia|].
    rewrite app_nil_r, zlen_app, zlen_cons. pose proof (zlen_nonneg nm). pose proof (zlen_nonneg (path ns)). lia.
  - destruct (drop_splice b1 [chr "/"] (0 :: c) (n - 1)) as [D2 L2]; [change (zlen [chr "/"]) with 1; lia|lia|done|].
    change (zlen [chr "/"]) with 1 in *. set (b2 := splice b1 (n - 1 - 1) [chr "/"]) in *. destruct names as [|nm ns].
    + simpl path_text. change (zlen [chr "/"]) with 1. rewrite decide_True by lia. exists b2. split; [done|]. split; [done|lia].
    + assert (D3 : drop (Z.to_nat (n - 1)) b2 = 0 :: c).
      { replace (Z.to_nat (n - 1)) with (Z.to_nat (n - 1 - 1) + 1)%nat by lia. by rewrite <- drop_drop, D2. }
      pose proof (path_loop_ok (nm :: ns) b2 (n - 1) (0 :: c) (n - 1 - 1) ltac:(lia) D3) as P.
      unfold path_text. rewrite app_nil_r. destruct (decide (zlen (path (nm :: ns)) <= n - 1)).
      * rewrite decide_True by lia. destruct P as (b3 & -> & D4 & L4). exists b3. split; [done|]. split; [done|lia].
      * rewrite decide_False by lia. done.
Qed.

Lemma drop_splice_byte (b t c : list Z) r p x y : 0 <= r -> r + zlen t = p -> drop (Z.to_nat r) b = t ++ x :: c -> p < zlen b ->
  drop (Z.to_nat r) (splice b p [y]) = t ++ y :: c.
Proof.
  intros Hr Hp D Hl. unfold splice, zlen in *. rewrite drop_app_le by (rewrite length_take; lia).
  replace (Z.to_nat p) with (Z.to_nat r + length t)%nat by lia. rewrite <- take_drop_commute, D, take_app_length.
  f_equal. simpl. f_equal. rewrite <- Nat.add_assoc, <- drop_drop, D, <- drop_drop, drop_app_length. done.
Qed.

(** [dentry_path] writes the path with its terminator, or says that it is too long. *)
Theorem dentry_path_correct names unhashed b : zlen b = 256 ->
  if decide (zlen (path_text names unhashed) < 256)
  then exists b' r, dentry_path names unhashed b 256 = (b', Some r) /\ drop (Z.to_nat r) b' = path_text names unhashed ++ [0]
  else exists b', dentry_path names unhashed b 256 = (b', None).
Proof.
  intros L. assert (D0 : drop (Z.to_nat 256) b = []) by (apply drop_ge; unfold zlen in L; lia). unfold dentry_path. destruct (d_unlinked names unhashed) eqn:U.
  - destruct unhashed, names as [|nm ns]; try done. clear U. set (names := nm :: ns).
    pose proof (prepend_ok b 256 (str "//deleted" ++ [0]) [] ltac:(lia) D0) as P.
    change (zlen (str "//deleted" ++ [0])) with 10 in P. rewrite decide_True in P by lia. destruct P as (b1 & -> & D1 & L1).
    cbn [negb Z.eqb pb plen pend]. change (256 - 10 + 1) with 247. change (256 - 10) with 246 in *.
    assert (D2 : drop (Z.to_nat 247) b1 = drop 1 (str "//deleted" ++ [0])).
    { change (Z.to_nat 247) with (Z.to_nat 246 + 1)%nat. by rewrite <- drop_drop, D1. }
    pose proof (dentry_path_tail names b1 247 _ ltac:(lia) D2) as P.
    assert (E : zlen (path_text names true) = zlen (path_text names false) + 9).
    { unfold path_text, names. rewrite app_nil_r, zlen_app. done. }
    destruct (decide (zlen (path_text names false) < 247)).
    + rewrite decide_True by lia. destruct P as (b2 & -> & D3 & L3). eexists _, _. split; [done|].
      rewrite (drop_splice_byte b2 (path_text names false) _ (247 - 1 - zlen (path_text names false)) 246 _ (chr "/") ltac:(lia) ltac:(lia) D3 ltac:(lia)). unfold path_text, names. by rewrite app_nil_r, <- app_assoc.
    + rewrite decide_False by lia. destruct P as [b2 ->]. by eexists.
  - assert (E : path_text names unhashed = path_text names false) by (destruct unhashed, names; done). rewrite E.
    pose proof (dentry_path_tail names b 256 [] ltac:(lia) D0) as P.
    case_decide; [|done]. destruct P as (b' & -> & D & _). by eexists _, _.
Qed.

(** ** Which files are taken for ashmem files *)

(** Names as file systems have them. *)
Definition name_ok (name : list Z) : Prop := Forall (fun c => c <> 0 /\ c <> chr "/") name.

Lemma strcmp_spec s : forall ct r, Forall (fun c => c <> 0) s -> Forall (fun c => c <> 0) ct ->
  exists c, strcmp (s ++ 0 :: r) ct = Some c /\ (c = 0 <-> s = ct).
Proof.
  induction s as [|x s IH]; intros [|y ct] r Hs Hct; simpl.
  - by exists 0.
  - inversion Hct; subst. destruct y; [done|..]; simpl; eexists; done.
  - inversion Hs; subst. rewrite (proj2 (Z.eqb_neq x 0)) by done. simpl. destruct (x <? 0); eexists; done.
  - inversion Hs; inversion Hct; subst. destruct (Z.eqb_spec x y) as [->|]; simpl.
    + rewrite (proj2 (Z.eqb_neq y 0)) by done. rewrite drop_0. destruct (IH ct r) as (c & -> & E); [done..|]. exists c. split; [done|].
      rewrite E. split; congruence.
    + destruct (x <? y); eexists; (split; [done|]); split; try done; congruence.
Qed.

Lemma path_no_zero names : Forall name_ok names -> Forall (fun c => c <> 0) (path names).
Proof.
  induction 1 as [|nm ns H _ IH]; simpl; [done|]. apply Forall_app. split; [done|]. constructor; [done|].
  eapply Forall_impl; [exact H|]. by intros ? [? _].
Qed.

Lemma path_slash nm names : exists u, path (nm :: names) = chr "/" :: u.
Proof.
  revert nm. induction names as [|b ns IH]; intros nm; [by eexists|]. destruct (IH b) as [u E].
  change (path (nm :: b :: ns)) with (path (b :: ns) ++ chr "/" :: nm). rewrite E. by eexists.
Qed.

(** The only path with the text of one name is that name in the root. *)
Lemma path_one nm names : Forall name_ok names -> name_ok nm -> path names = chr "/" :: nm -> names = [nm].
Proof.
  intros H Hn E. destruct names as [|a [|b ns]]; [done| |].
  - simpl in E. by injection E as ->.
  - exfalso. change (path (b :: ns) ++ chr "/" :: a = chr "/" :: nm) in E. destruct (path_slash b ns) as [u Eu]. rewrite Eu in E. simpl in E. injection E as E. rewrite <- E in Hn.
    unfold name_ok in Hn. rewrite Forall_app, Forall_cons in Hn. naive_solver.
Qed.

Lemma text_no_zero names unhashed : Forall name_ok names -> Forall (fun c => c <> 0) (path_text names unhashed).
Proof.
  intros H. unfold path_text. destruct names as [|nm ns]; [by repeat constructor|]. apply Forall_app. split; [by apply path_no_zero|].
  destruct unhashed; [|done]. by repeat constructor.
Qed.
Lemma text_ashmem names unhashed : Forall name_ok names ->
  path_text names unhashed = str "/ashmem" <-> names = [str "ashmem"] /\ unhashed = false.
Proof.
  intros H. split; [|by intros [-> ->]]. destruct names as [|nm ns]; [done|]. unfold path_text. destruct unhashed; intros E.
  - exfalso. apply (f_equal length) in E. rewrite length_app in E. simpl in E. lia.
  - rewrite app_nil_r in E. split; [|done]. apply path_one; [done|by repeat constructor|done].
Qed.

(** A file is taken for an ashmem file by its path alone, and a path that does not
    fit into the buffer is a fault. *)
Theorem is_ashmem_file_correct fname x : zlen fname = 256 -> Forall name_ok (f_dentry x) ->
  is_ashmem_file fname x =
  if decide (zlen (path_text (f_dentry x) (f_unhashed x)) < 256)
  then Some (bool_decide (f_dentry x = [str "ashmem"] /\ f_unhashed x = false)) else None.
Proof.
  intros L H. unfold is_ashmem_file. pose proof (dentry_path_correct (f_dentry x) (f_unhashed x) fname L) as P.
  case_decide; [|by destruct P as [b' ->]]. destruct P as (b' & r & -> & D). simpl. rewrite D.
  destruct (strcmp_spec (path_text (f_dentry x) (f_unhashed x)) (str "/ashmem") [] (text_no_zero _ _ H)) as (c & -> & E);
    [by repeat constructor|]. simpl. f_equal. rewrite (text_ashmem _ _ H) in E.
  apply eq_bool_prop_intro. rewrite !Is_true_true, Z.eqb_eq, bool_decide_eq_true. done.
Qed.

Lemma add_count_same v f d : count_of (add_count v f d) f = count_of v f + d.
Proof. unfold count_of, add_count. simpl. by rewrite lookup_insert_eq. Qed.
Lemma add_count_other v f g d : f <> g -> count_of (add_count v f d) g = count_of v g.
Proof. intros. unfold count_of, add_count. simpl. by rewrite lookup_insert_ne. Qed.

(** For a file of the device, which is called ashmem in its file system, the area
    is found and the file is held; giving it back restores all counts. *)
Theorem get_put_ashmem_file fname s v fd f x a asma : zlen fname = 256 -> fd_table v !! fd = Some f -> files v !! f = Some x ->
  f_dentry x = [str "ashmem"] -> f_unhashed x = false -> private_data x = PArea a -> areas s !! a = Some asma ->
  exists v', get_ashmem_file fname s v fd = Some (v', 0, Some (f, a_file asma, a_size asma)) /\ count_of v' f = count_of v f + 1 /\
  exists v'', put_ashmem_file fname v' f = Some v'' /\ forall g, count_of v'' g = count_of v g.
Proof.
  intros L Hfd Hf Hd Hu Hp Ha. unfold get_ashmem_file, fget. rewrite Hfd. simpl. rewrite Hf. simpl.
  assert (Y : is_ashmem_file fname x = Some true).
  { rewrite is_ashmem_file_correct, decide_True; rewrite ?Hd, ?Hu; [|done..|by repeat constructor]. by rewrite bool_decide_true. }
  rewrite Y. simpl. rewrite Hp, Ha. simpl. eexists. split; [done|]. split; [apply add_count_same|].
  unfold put_ashmem_file. simpl. rewrite Hf. simpl. rewrite Y. simpl. eexists. split; [done|]. intros g. unfold fput.
  destruct (decide (f = g)) as [->|]; [rewrite !add_count_same; lia|]. by rewrite !add_count_other.
Qed.

(** A file that is not an ashmem file is refused and not held, if its name is
    another one and its path is short. *)
Theorem other_file_refused fname s v fd f x : zlen fname = 256 -> fd_table v !! fd = Some f -> files v !! f = Some x ->
  Forall name_ok (f_dentry x) -> zlen (path_text (f_dentry x) (f_unhashed x)) < 256 -> f_dentry x <> [str "ashmem"] ->
  exists v', get_ashmem_file fname s v fd = Some (v', -1, None) /\ forall g, count_of v' g = count_of v g.
Proof.
  intros L Hfd Hf Hn Hl Hd. unfold get_ashmem_file, fget. rewrite Hfd. simpl. rewrite Hf. simpl.
  rewrite is_ashmem_file_correct, decide_True by done. simpl. rewrite bool_decide_false by naive_solver.
  eexists. split; [done|]. intros g. unfold fput. destruct (decide (f = g)) as [->|]; [rewrite !add_count_same; lia|].
  by rewrite !add_count_other.
Qed.

(** ** Faults that user space can cause *)

Definition one_file (x : vfile) : vfs := Vfs {[ 0%nat := x ]} {[ 3 := 0%nat ]} {[ 0%nat := 1 ]}.

Lemma one_file_faults fname s x : match is_ashmem_file fname x with None => True | Some b => b = true /\ private_data x = POther end ->
  get_ashmem_file fname s (one_file x) 3 = None.
Proof.
  intros H. unfold get_ashmem_file, fget. replace (fd_table (one_file x) !! 3) with (Some 0%nat) by done.
  replace (files (add_count (one_file x) 0 1) !! 0%nat) with (Some x) by done. cbn [mbind option_bind].
  destruct (is_ashmem_file fname x) as [b|]; [|done]. destruct H as [-> ->]. done.
Qed.

(** A file of any driver or file system is taken for an ashmem file when it is
    called ashmem and is in the root of its file system, as on a memory card. *)
Theorem foreign_file_confused fname s : zlen fname = 256 ->
  get_ashmem_file fname s (one_file (VFile [str "ashmem"] false POther)) 3 = None.
Proof.
  intros L. apply one_file_faults. rewrite is_ashmem_file_correct by (done || by repeat constructor). by rewrite decide_True.
Qed.

(** A path of 256 characters is compared as an error pointer. *)
Theorem long_path_faults fname s : zlen fname = 256 ->
  get_ashmem_file fname s (one_file (VFile [replicate 255 97] false POther)) 3 = None.
Proof.
  intros L. apply one_file_faults. rewrite is_ashmem_file_correct; [by rewrite decide_False|done|].
  constructor; [|done]. apply Forall_forall. intros c [-> _]%elem_of_replicate. done.
Qed.
